(* ===== verification/_CoqProject ===== *)
-Q . S2P
Prelude.v
Transactions.v
JsString.v
JsValue.v
ExecTypes.v
ExecStore.v
ExecValidate.v
ExecControlPlane.v
ExecInvariant.v
ExecCalls.v
FakeProvider.v
ExecFixtures.v
ExecProps.v
ExecStream.v
ExecLifecycle.v
ExecValidateProps.v
FakeProviderProps.v
DatabaseCommit.v
DatabaseCommitProps.v
JobOutbox.v
Workflow.v
WorkflowRuns.v
WorkflowProps.v
PolicyEngine.v
NameDistance.v
NameSquatting.v
NameSquattingProps.v
CompanionPolicy.v
WorkflowGraph.v
WorkflowTeam.v
WorkflowTeamProps.v
WorkflowScheduler.v
WorkflowSchedulerProps.v
WorkflowCommands.v
WorkflowSafety.v
WorkflowCalm.v
WorkflowLife.v
WorkflowLifeProps.v
WorkflowValidate.v
WorkflowValidateProps.v
DeviceSession.v
DeviceSessionEffect.v
DeviceSessionHistory.v
DeviceSessionFixtures.v
DeviceSessionProps.v
SyncWire.v
SyncTables.v
SyncLog.v
SyncData.v
SyncSnapshot.v
SyncHistory.v
SyncPush.v
SyncGrowth.v
SyncCalls.v
SyncPull.v
SyncReceipts.v
SyncProps.v
SyncScan.v
SyncClient.v
SyncCycle.v
SyncLive.v
SyncRebuildProps.v
SyncOutbox.v
SyncOutboxSound.v
SyncDevice.v
SyncDeviceSound.v
SyncDeviceRun.v
SyncMirror.v
SyncEntities.v
SyncDeviceProps.v
JobTables.v
JobWire.v
JobCoordinator.v
JobLifecycle.v
JobApprovals.v
JobSteps.v
JobMoves.v
JobSound.v
JobProps.v
