(* ===== verification/Prelude.v ===== *)
(** * Verification of the Mezair stack

    A verification library for the decision-making core of the repository: the parts of
    its TypeScript code that keep state, enforce budgets and policies, and that other
    parts trust.  Definitions follow the source function by function; theorems are about
    those definitions.  Paths below are relative to [src/].

    ** Parts of the program and how they interact

    - Execution control plane, [mezair-cloud/packages/control-plane/src/execution.ts]:
      accepts requests to run an agent, keeps a lease and an event log per execution in a
      store ([execution-store.ts]), starts a sandbox and the agent through a provider,
      pulls its events, enforces event and cost budgets, forwards approvals and input,
      collects results, and terminates or expires executions.  The provider of the
      conformance suite is [fake-execution-provider.ts]; the contract between control
      plane and provider is [mezair-cloud/packages/runtime/src/agent-execution.ts].
    - Application runtime, [mezair-cloud/packages/runtime/src]: conditional commits to a
      document database ([database-commit.ts]), paging ([database-page.ts]), the job
      outbox that publishes jobs committed with records ([job-outbox.ts]), durable
      workflow runs ([workflow.ts]) and their errors ([errors.ts]).
    - Package registry, [mezair-registry/packages]: [policy-engine/src/index.ts] decides
      from metadata and analysis reports whether a package version may be installed;
      [name-squatting/src/index.ts] compares names with those of popular packages.
    - Desktop app, [mezair-app/src/shared]: workflow graphs and their bounds
      ([workflow-orchestration.ts], [workflow-target.ts]), reasoning levels of models
      ([codex-models.ts]) and what may be approved from a companion device
      ([companion-policy.ts]); [mezair-app/src/main/services]: the scheduler that runs a
      workflow's steps as agent threads ([workflow-runtime.ts]), the teams a step may be
      expanded into, the validation of templates and the commands a user gives a run
      ([workflow.service.ts], permission modes in [mezair-app/cloud/contract]).
    - Desktop app's cloud, [mezair-app/cloud/backend/src/session-coordinator.ts]: the one
      object that enrolls devices and keeps their sessions; the worker asks it who a bearer
      token stands for, and it asks an account's own object for its epoch and its purge.
    - Synchronisation: an account's own object, [account-coordinator.ts] with
      [compact-sync.ts], accepts changes of entities from the account's devices into a
      journal, serves it from a cursor, serves scans, exports and snapshots of all
      entities, imports, and forgets what is older than it must keep.
    - Synchronisation on a device, [mezair-app/src/main/services]: [sync-persistence.service.ts]
      keeps what the user edits in an outbox, with the revision each entity is based on and
      the conflicts to be decided; [sync-engine.service.ts] pushes the outbox, applies what it
      pulls to the tables of the entities ([sync-entity-domain.ts]), resolves conflicts, and
      rebuilds the entities in a staging table when the device cannot go on from its cursor;
      [sync-keyring.service.ts] seals and opens payloads.
    - Jobs: the same object takes jobs that the account's devices and users create, places
      them on devices that work for others or on an environment the backend's provisioner
      starts, leases each attempt to the worker that claims it, takes its report, asks the
      user for the approvals a worker needs, and sweeps what ran out of time; requests are
      described in [mezair-app/cloud/contract/jobs.ts] and [workers.ts].

    ** Files

    - [Prelude]: the state-and-exception monad [M], triples over it, shared tactics, and
      lists and insertion-ordered maps; [JsString] and [JsValue]: the string operations,
      numbers, JSON values and serialisations of JavaScript the code uses.
    - [ExecTypes] (data), [ExecStore] (the store interface as a class with laws, and the
      in-memory store as its instance), [ExecValidate] (request validation),
      [ExecControlPlane] (the control plane, one definition per method), [FakeProvider].
    - [ExecInvariant], [ExecCalls]: the invariant of a lease and its log, what every call
      may change, and that every call keeps it; [ExecFixtures]: concrete worlds.
    - [ExecProps], [ExecStream], [ExecLifecycle], [ExecValidateProps], [FakeProviderProps]:
      the theorems on executions and their stores.
    - [DatabaseCommit] (commits and pages) and [DatabaseCommitProps], [JobOutbox],
      [Workflow], [WorkflowRuns] and [WorkflowProps]: the runtime.
    - [PolicyEngine]: the registry's policy; [NameDistance] (the distance of two names and
      the patterns of edits), [NameSquatting] (numbers as IEEE doubles, the index and the
      signals) and [NameSquattingProps].
    - [CompanionPolicy] and [WorkflowGraph]: the desktop app's shared modules.
    - [WorkflowTeam] (a run's data, delegation blocks, expansion of a step into a team) and
      [WorkflowTeamProps]; [WorkflowScheduler] (starting, finishing and propagating steps,
      one turn of the loop) and [WorkflowSchedulerProps]; [WorkflowCommands] (pausing,
      cancelling, deciding, retrying, resuming, reports from other machines, and the step
      relation of the whole); [WorkflowSafety], [WorkflowCalm] and [WorkflowLife] (its
      invariant, for the scheduler, the commands and both together, and a concrete run);
      [WorkflowLifeProps] (the theorems); [WorkflowValidate] and [WorkflowValidateProps]
      (templates, and what a checked one may start).
    - [DeviceSession] (tables and routes of the session coordinator), [DeviceSessionEffect]
      (an abstract machine of sessions and codes, and that every route is one of its
      steps), [DeviceSessionHistory] (runs, and the invariant that ties the tables to what
      was handed out), [DeviceSessionFixtures] and [DeviceSessionProps].
    - [SyncWire] (requests as they are parsed), [SyncTables] (the tables of an account),
      [SyncLog] (push, pull, scan), [SyncData] (export, import, the sweep), [SyncSnapshot]
      (compact snapshots), [SyncClient] (the rebuild of a device).
    - [SyncHistory] (the history of accepted changes the tables stand for), [SyncPush],
      [SyncGrowth] and [SyncCalls] (every call, in any order, leaves it or extends it),
      [SyncPull] (a pull reads it), [SyncReceipts] (what is answered to a batch sent again),
      [SyncScan], [SyncCycle] and [SyncLive] (a rebuild among other devices' calls, and on a
      quiet account); [SyncProps] and [SyncRebuildProps] (concrete runs, and the theorems).
    - [SyncOutbox] (a device's tables and the operations on them) and [SyncOutboxSound]
      (their invariant, and what a request sends); [SyncDevice] (push, pull, activation,
      resolution, over any tables of entities that meet the class [EntityDomain], and the
      machine of a device, its account and lost messages); [SyncDeviceSound] (what a call
      leaves of other entities and of local work), [SyncDeviceRun] (the invariant over runs,
      and a batch until it is answered), [SyncMirror] (a device follows the history);
      [SyncEntities] (workflow templates and agents as an instance of the class) and
      [SyncDeviceProps] (a concrete device, and the theorems).
    - [Transactions]: tables as finite maps and transactions over them, for the account's
      object.  [JobTables] (rows and transitions), [JobWire] (requests as they are parsed),
      [JobCoordinator] (transitions with their events, workers, placement, creation),
      [JobLifecycle] (claims, renewals, reports, cancellation), [JobApprovals] (approvals, the
      provisioner, the sweep, and every call of a caller at a time).
    - [JobSteps] (an abstract machine of jobs, attempts and approvals), [JobMoves] (every call
      is a sequence of its steps), [JobSound] (its invariant, and what a step may change),
      [JobProps] (concrete runs, and the theorems).

    ** How state and operations correspond to the code

    A method that reads and writes through [this.store], a provider, a clock or a save
    callback is a computation of [M]: a function from a state to a result or a thrown
    error, and the state it leaves, so that what was done before a throw stays done.
    The control plane's state is the store together with an outside world of any type;
    providers, ids and the clock are operations on that world.  A lease that a method
    reads, mutates and puts back is the [Frame] of that method.  A workflow run is
    mutated in place and saved after every transition, as in the code.  Asynchronous
    calls of one component are modelled as running one after another, except in the
    desktop app's scheduler: there the code between two awaits is one step of a relation,
    so a thread's result, a user's command and the wall-clock timer may come in any order.
    The session coordinator's state is its SQL tables, as lists of rows in the order of
    insertion, together with an outside world of any type.  The tables of an account are
    finite maps from their primary keys; each of its requests is a transaction, a call that
    awaits the object store several, and a rebuild a sequence of requests, with any calls of
    other devices before each of them.  A device and its account are one machine of events: a
    request, its arrival and the handling of its answer are separate, the last two may be
    lost, and the user, the keyring and other devices act between any of them.

    Strings are sequences of code units below 256.  Numbers are decimals, compared and
    added exactly, except for the scores of names, which are IEEE doubles; times are
    milliseconds.  JSON values are trees whose objects keep
    insertion order.

    ** What the theorems show

    - Executions: a global invariant of all leases and logs over any sequence of calls;
      idempotent and conflicting creation; exact polling; budgets enforced exactly;
      failed starts, termination and expiry cleaned up; terminal executions refuse
      control; calls touch no other execution; validation accepts exactly a declarative
      description; the provider's runs are consistent.
    - Runtime: commits are atomic and conditional and lose no update; paging visits
      every record once; an outbox job is published a bounded number of times; a
      workflow runs its handlers in order, within their retries, with the recorded
      results of earlier steps, never twice after completion, and ends in the run it
      saved; run summaries are exact.
    - Registry: unvetted versions and those below the configured minimum age cannot be
      installed outside development (where the minimum is 0 no version is too young), scores
      are bounded; the distance of names is the least number of edits, and every name close to
      a popular one is reported.
    - Desktop app: ready steps and freedom from deadlock on acyclic graphs, layout
      without overlap, exact acceptance of configurations and of approvals from a car.
    - Desktop app, scheduler: in every reachable state the limits on concurrency, attempts
      and added steps hold, no step runs before its predecessors are done, and the jobs in
      flight are those of running steps; without new commands every schedule ends; what
      status it ends in; what a team adds to the graph; which match of a reply delegates, and what.
    - Desktop app, templates: exactly the well-formed acyclic graphs and configurations are
      accepted, a checked template starts a run in which the scheduler's invariant holds,
      and a step's permission mode is the least of the request, the ceiling and the setting.
    - Device sessions: an access token is accepted exactly when it is that of the latest
      session of a live enrollment; refreshing renews the latest session or repeats its
      response; revocation is final; a code enrolls at most one device.
    - Synchronisation: the tables of an account refine a history of accepted changes that
      calls only append to; a pull answers exactly the page of it after the cursor; a change
      is answered as the head of its entity decides; a batch sent again is answered alike (or
      refused, while writes are restricted for fair use) and never applied twice; a rebuild that ends stages exactly the state at its watermark
      whatever other devices do meanwhile, and on a quiet account it ends.
    - Synchronisation on a device: what others edit is mirrored, at every moment as the
      account had it at the device's cursor; local work is overwritten by nothing but the
      user; at most one change per entity is pending and one out; a batch whose answer was
      lost is sent again as it was; and two errors, re-sealed rows that stop the outbox and
      deletions elsewhere that are not recognised.
    - Jobs: every call is a sequence of steps of an abstract machine, so that in every
      reachable state a job has at most one active attempt, which its fence identifies, at
      most two attempts if it may be retried and one otherwise, and no worker more than 64 at
      a time; a request creates one job however often it is sent, and is answered with it
      until a deadline it names has passed; only the current attempt's report counts, and only
      once; a job that waits for approval runs on only by a call that approves, in time, from a
      device that may decide; terminal jobs stay as they are.
    - Findings: behaviours of the code that modelling showed to go against what it means
      to do are stated as theorems in [ExecLifecycle], [PolicyEngine], [CompanionPolicy],
      [WorkflowLifeProps], [WorkflowValidateProps], [DeviceSessionProps], [JobProps] and
      [SyncDeviceProps].

    ** Bounds and fuel

    The definitions with fuel are loops that end by themselves: the passes of
    [layoutWorkflowGraph], as many as there are nodes, which
    [layoutWorkflowGraph_exact] shows to be enough; the passes that skip unreachable steps
    ([propagate], one more than there are steps, enough by [propagate_spec]); the steps
    after a retried one ([descendants], one pass more than there are edges); the search for
    a cycle ([visit], as deep as there are steps, enough by [visit_spec]); and the client of
    [paging_visits_all], which ends within one page more than there are records.  The
    page limits of a rebuild ([SCAN_PAGE_LIMIT], [CATCHUP_PAGE_LIMIT]) are the code's own, which
    throws when it reaches them.  [attemptTransitionReachable] searches as deep as there are
    states of an attempt, enough by [reachable_exact].

    ** What is not modelled

    Interleaving of concurrent calls on one store; the execution store that keeps its state
    in a JSON file; the rounding of floating-point
    arithmetic outside the scores of names; text outside Latin-1.  URL and date parsing,
    [JSON.parse] of a delegation, the Effect library's retry and time limits, providers,
    queues, handlers, agent threads and fresh identifiers are parameters with the documented
    behaviour the code relies on as named hypotheses or class laws: for the session
    coordinator, that SHA-256 does not collide, that random tokens and ids do not repeat, and
    that the clock does not run backwards ([CloudLaws]).  SHA-256, [Date.parse],
    [JSON.parse], AES-GCM and the keys a device holds are arbitrary functions in the theorems on
    synchronisation, and a device's [randomUUID] a sequence that does not repeat.  Of the session
    coordinator the
    provider's check of a sign-in, listing and renaming devices, security challenges,
    artifact shares and the calls to the account's object are left out or parameters; of the
    account's object, everything but synchronisation and jobs: activity streams other than the
    control stream, artifacts, hand-offs and dashboards, and of jobs the archive that moves
    sealed inputs and results to object storage, and the delivery of events to sockets (that no
    device enrolls under the name of the backend's own provisioner is a hypothesis, [genuine]);
    of a device's side of synchronisation, workspaces and settings, the order of the parts of
    one cycle and its back-off, snapshots, and of the keyring all but sealing, opening and the
    re-sealing of the outbox.  Of the
    desktop app's workflows, the text of prompts, the events sent to the user interface and
    recovery after a crash are left out; so are HTTP surfaces, cloud adapters, user
    interfaces and command lines.  What the plan has left: the key-distribution records
    of the keyring, the activity streams of an attempt, and the security challenges of the
    session coordinator. *)

From stdpp Require Export base list strings option pretty sorting.
From Stdlib Require Export ZArith Lia.

#[global] Open Scope Z_scope.
Declare Scope js_scope.
Delimit Scope js_scope with js.

(** ** Outcomes and the state-and-exception monad

    A JavaScript call either returns or throws, and the effects it had before
    throwing stay.  [M St A] is such a call over a state [St]. *)

(** A thrown [Error]: its optional [code], its message, and the string entries
    of its [details]. *)
Record JsError := MkError {
  err_code : option string;
  err_message : string;
  err_details : list (string * string);
}.

#[export] Instance JsError_eq_dec : EqDecision JsError.
Proof. solve_decision. Defined.

Inductive outcome (A : Type) : Type :=
| Ok (a : A)
| Throw (e : JsError).
Arguments Ok {A} a.
Arguments Throw {A} e.

Definition M (St A : Type) : Type := St → outcome A * St.

#[export] Instance M_fmap {St} : FMap (M St) := λ A B f m s,
  match m s with
  | (Ok a, s') => (Ok (f a), s')
  | (Throw e, s') => (Throw e, s')
  end.

Section Monad.
Context {St : Type}.

#[export] Instance M_ret : MRet (M St) := λ A a s, (Ok a, s).
#[export] Instance M_bind : MBind (M St) := λ A B k m s,
  match m s with
  | (Ok a, s') => k a s'
  | (Throw e, s') => (Throw e, s')
  end.

Definition throw {A} (e : JsError) : M St A := λ s, (Throw e, s).
Definition try_catch {A} (m : M St A) (h : JsError → M St A) : M St A := λ s,
  match m s with
  | (Ok a, s') => (Ok a, s')
  | (Throw e, s') => h e s'
  end.
Definition get_state : M St St := λ s, (Ok s, s).
Definition gets {A} (f : St → A) : M St A := λ s, (Ok (f s), s).
Definition modify (f : St → St) : M St unit := λ s, (Ok tt, f s).
Definition from_outcome {A} (o : outcome A) : M St A := λ s, (o, s).

(** [for (const x of xs) body] where the body accumulates. *)
Fixpoint for_each {A B} (xs : list A) (body : A → B → M St B) (acc : B) : M St B :=
  match xs with
  | [] => mret acc
  | x :: xs' => body x acc ≫= for_each xs' body
  end.

(** [xs.map(f)] with an effectful [f], left to right. *)
Fixpoint map_M {A B} (f : A → M St B) (xs : list A) : M St (list B) :=
  match xs with
  | [] => mret []
  | x :: xs' => y ← f x; ys ← map_M f xs'; mret (y :: ys)
  end.
End Monad.

(** A computation that returned, taken apart, and one put together. *)
Lemma bind_Ok {St A B} (m : M St A) (k : A → M St B) s b s' :
  (m ≫= k) s = (Ok b, s') → ∃ a s1, m s = (Ok a, s1) ∧ k a s1 = (Ok b, s').
Proof. unfold mbind, M_bind. destruct (m s) as [[a|e] s1]; [eauto|done]. Qed.

Lemma bind_run {St A B} (m : M St A) (k : A → M St B) s a s' : m s = (Ok a, s') → (m ≫= k) s = k a s'.
Proof. unfold mbind, M_bind. by intros ->. Qed.

(** ** Triples

    [triple P m Q E]: from a state in [P], if [m] returns then [Q] holds of the
    value and the state, and if it throws then [E] holds of the error and the
    state. *)

Definition triple {St A} (P : St → Prop) (m : M St A)
    (Q : A → St → Prop) (E : JsError → St → Prop) : Prop :=
  ∀ s, P s →
    match m s with
    | (Ok a, s') => Q a s'
    | (Throw e, s') => E e s'
    end.

Create HintDb js discriminated.

Section Triples.
Context {St : Type}.
Implicit Types P : St → Prop.

Lemma triple_ret {A} (a : A) (Q : A → St → Prop) E : triple (Q a) (mret a) Q E.
Proof. by intros s H. Qed.

Lemma triple_throw {A} e (Q : A → St → Prop) (E : JsError → St → Prop) :
  triple (E e) (throw e) Q E.
Proof. by intros s H. Qed.

Lemma triple_bind {A B} P (m : M St A) (k : A → M St B) R Q E :
  triple P m R E → (∀ a, triple (R a) (k a) Q E) → triple P (m ≫= k) Q E.
Proof.
  intros Hm Hk s HP. specialize (Hm s HP). unfold mbind, M_bind.
  destruct (m s) as [[a|e] s']; [by apply Hk|done].
Qed.

Lemma triple_try {A} P (m : M St A) h Q R E :
  triple P m Q R → (∀ e, triple (R e) (h e) Q E) → triple P (try_catch m h) Q E.
Proof.
  intros Hm Hh s HP. specialize (Hm s HP). unfold try_catch.
  destruct (m s) as [[a|e] s']; [done|by apply Hh].
Qed.

Lemma triple_conseq {A} P P' (m : M St A) Q Q' E E' :
  triple P' m Q' E' → (∀ s, P s → P' s) →
  (∀ a s, Q' a s → Q a s) → (∀ e s, E' e s → E e s) → triple P m Q E.
Proof.
  intros Hm HP HQ HE s Hs. specialize (Hm s (HP s Hs)).
  destruct (m s) as [[a|e] s']; auto.
Qed.

Lemma triple_pre {A} P P' (m : M St A) Q E :
  triple P' m Q E → (∀ s, P s → P' s) → triple P m Q E.
Proof. intros. eapply triple_conseq; eauto. Qed.

Lemma triple_and {A} P P' (m : M St A) Q Q' E E' :
  triple P m Q E → triple P' m Q' E' →
  triple (λ s, P s ∧ P' s) m (λ a s, Q a s ∧ Q' a s) (λ e s, E e s ∧ E' e s).
Proof.
  intros Hm Hm' s [H1 H2]. specialize (Hm s H1). specialize (Hm' s H2).
  by destruct (m s) as [[a|e] s'].
Qed.

(** A loop body that keeps a state predicate, for [map_M]. *)
Lemma triple_map_M {A B} (f : A → M St B) (I : St → Prop) E xs :
  (∀ x, triple I (f x) (λ _, I) E) → triple I (map_M f xs) (λ _, I) E.
Proof.
  intros Hf. induction xs as [|x xs IH]; cbn [map_M]; [by intros s Hs|].
  eapply triple_bind; [apply Hf|]. intros y. eapply triple_bind; [apply IH|].
  by intros ys s Hs.
Qed.

Lemma triple_gets {A} (f : St → A) P (E : JsError → St → Prop) :
  triple P (gets f) (λ a s, a = f s ∧ P s) E.
Proof. by intros s H. Qed.

Lemma triple_modify (f : St → St) (Q : unit → St → Prop) E :
  triple (λ s, Q tt (f s)) (modify f) Q E.
Proof. by intros s H. Qed.

Lemma triple_outcome {A} (o : outcome A) P (Q : A → St → Prop) (E : JsError → St → Prop) :
  (∀ a, o = Ok a → ∀ s, P s → Q a s) → (∀ e, o = Throw e → ∀ s, P s → E e s) →
  triple P (from_outcome o) Q E.
Proof. intros HQ HE s Hs. unfold from_outcome. destruct o; eauto. Qed.

Lemma triple_outcome_bind {A B} (o : outcome A) (k : A → M St B) P Q E :
  (∀ a, o = Ok a → triple P (k a) Q E) → (∀ e, o = Throw e → ∀ s, P s → E e s) →
  triple P (from_outcome o ≫= k) Q E.
Proof. intros Hk HE s Hs. unfold mbind, M_bind, from_outcome. destruct o as [a|e]; [by apply (Hk a)|by eapply HE]. Qed.

Lemma triple_for_each {A B} (xs : list A) (body : A → B → M St B)
    (I : B → St → Prop) E :
  (∀ x acc, x ∈ xs → triple (I acc) (body x acc) I E) →
  ∀ acc, triple (I acc) (for_each xs body acc) I E.
Proof.
  induction xs as [|x xs IH]; intros Hb acc; cbn [for_each].
  - apply triple_ret.
  - eapply triple_bind; [apply Hb; left|].
    intros acc'. apply IH. intros y a Hy. apply Hb. by right.
Qed.
End Triples.

#[export] Hint Resolve triple_ret triple_throw triple_modify : js.

(** ** Shared tactics *)

(** Split on the scrutinee of some match in the goal, remembering it. *)
Ltac split_match :=
  match goal with
  | |- context [match ?x with _ => _ end] =>
      lazymatch x with context [match _ with _ => _ end] => fail | _ => destruct x eqn:? end
  end.

(** The same in a hypothesis. *)
Ltac split_match_in H :=
  match type of H with
  | context [match ?x with _ => _ end] =>
      lazymatch x with context [match _ with _ => _ end] => fail | _ => destruct x eqn:? end
  end.

(** Turn the boolean tests of the code into propositions. *)
Ltac reflect_bools :=
  repeat match goal with
  | H : _ && _ = true |- _ => apply andb_true_iff in H as [? ?]
  | H : _ || _ = false |- _ => apply orb_false_iff in H as [? ?]
  | H : negb _ = true |- _ => apply negb_true_iff in H
  | H : negb _ = false |- _ => apply negb_false_iff in H
  | H : (_ <=? _) = true |- _ => apply Z.leb_le in H
  | H : (_ <=? _) = false |- _ => apply Z.leb_gt in H
  | H : (_ <? _) = true |- _ => apply Z.ltb_lt in H
  | H : (_ <? _) = false |- _ => apply Z.ltb_ge in H
  | H : (_ =? _) = true |- _ => apply Z.eqb_eq in H
  | H : (_ =? _) = false |- _ => apply Z.eqb_neq in H
  | H : String.eqb _ _ = true |- _ => apply String.eqb_eq in H
  | H : String.eqb _ _ = false |- _ => apply String.eqb_neq in H
  | H : bool_decide _ = true |- _ => apply bool_decide_eq_true in H
  | H : bool_decide _ = false |- _ => apply bool_decide_eq_false in H
  end.

(** ** Generic lemmas on lists *)

(** [Array.prototype.sort] with a comparator, as a stable insertion sort: an
    element goes before the first one it does not exceed. *)
Section Sort.
Context {A : Type} (leb : A → A → bool).

Fixpoint insert_by (x : A) (l : list A) : list A :=
  match l with
  | [] => [x]
  | y :: l' => if leb x y then x :: y :: l' else y :: insert_by x l'
  end.

Definition sort_by (l : list A) : list A := foldr insert_by [] l.

Lemma insert_by_Permutation x l : Permutation (insert_by x l) (x :: l).
Proof.
  induction l as [|y l IH]; cbn; [done|]. destruct (leb x y); [done|].
  rewrite IH. apply Permutation_swap.
Qed.

Lemma sort_by_Permutation l : Permutation (sort_by l) l.
Proof.
  induction l as [|x l IH]; cbn; [done|].
  rewrite insert_by_Permutation. by apply Permutation_skip.
Qed.

Context (total : ∀ x y, leb x y = false → leb y x = true).
Context (trans : ∀ x y z, leb x y = true → leb y z = true → leb x z = true).

Lemma insert_by_sorted x l :
  StronglySorted (λ a b, leb a b = true) l →
  StronglySorted (λ a b, leb a b = true) (insert_by x l).
Proof using total trans.
  induction 1 as [|y l Hl IH Hy]; cbn.
  { repeat constructor. }
  destruct (leb x y) eqn:E.
  - constructor; [by constructor|]. constructor; [done|].
    eapply Forall_impl; [exact Hy|]. cbn. intros z Hz. by eapply trans.
  - constructor; [done|].
    rewrite Forall_forall. intros z Hz.
    assert (z ∈ x :: l) as Hz' by by rewrite <- (insert_by_Permutation x l).
    apply elem_of_cons in Hz' as [->|Hz']; [by apply total|].
    rewrite Forall_forall in Hy. by apply Hy.
Qed.

Lemma sort_by_sorted l : StronglySorted (λ a b, leb a b = true) (sort_by l).
Proof using total trans.
  induction l as [|x l IH]; cbn; [constructor|]. by apply insert_by_sorted.
Qed.
End Sort.

Lemma elem_of_sort_by {A} (leb : A → A → bool) x l : x ∈ sort_by leb l ↔ x ∈ l.
Proof. by rewrite (sort_by_Permutation leb l). Qed.

(** [xs.find(p)]. *)
Fixpoint find_first {A} (p : A → bool) (l : list A) : option A :=
  match l with
  | [] => None
  | x :: l' => if p x then Some x else find_first p l'
  end.

Lemma find_first_Some {A} (p : A → bool) l x :
  find_first p l = Some x → x ∈ l ∧ p x = true.
Proof.
  induction l as [|y l IH]; cbn; [done|]. destruct (p y) eqn:E; intros ?; simplify_eq.
  - split; [left|done].
  - destruct IH; [done|]. split; [by right|done].
Qed.

Lemma find_first_None {A} (p : A → bool) l :
  find_first p l = None → ∀ x, x ∈ l → p x = false.
Proof.
  induction l as [|y l IH]; cbn; [by intros _ x ?%elem_of_nil|].
  destruct (p y) eqn:E; [done|]. intros H x [->|Hx]%elem_of_cons; auto.
Qed.

Lemma find_first_app {A} (p : A → bool) l1 l2 :
  find_first p (l1 ++ l2) = match find_first p l1 with Some x => Some x | None => find_first p l2 end.
Proof. induction l1 as [|x l1 IH]; cbn; [done|]. by destruct (p x). Qed.

Lemma find_first_filter {A} (p q : A → bool) l :
  (∀ x, p x = true → q x = true) → find_first p (List.filter q l) = find_first p l.
Proof.
  intros Hpq. induction l as [|x l IH]; cbn; [done|].
  destruct (q x) eqn:Hq; cbn; rewrite IH; [done|]. destruct (p x) eqn:Hp; [|done].
  apply Hpq in Hp. congruence.
Qed.


(** Insertion-ordered objects used as maps ([Record<string, V>], [Map]): setting
    an existing key keeps its place, a new key goes last. *)
Section Assoc.
Context {V : Type}.

Fixpoint assoc_get (k : string) (m : list (string * V)) : option V :=
  match m with
  | [] => None
  | (k', v) :: m' => if String.eqb k k' then Some v else assoc_get k m'
  end.

Fixpoint assoc_set (k : string) (v : V) (m : list (string * V)) : list (string * V) :=
  match m with
  | [] => [(k, v)]
  | (k', v') :: m' => if String.eqb k k' then (k, v) :: m' else (k', v') :: assoc_set k v m'
  end.

Lemma assoc_get_set k k' v m :
  assoc_get k (assoc_set k' v m) = if String.eqb k k' then Some v else assoc_get k m.
Proof.
  induction m as [|[k0 v0] m IH]; cbn.
  - done.
  - destruct (String.eqb_spec k' k0) as [->|]; cbn.
    + by destruct (String.eqb_spec k k0).
    + rewrite IH. destruct (String.eqb_spec k k0) as [->|]; [|done].
      by destruct (String.eqb_spec k0 k').
Qed.

Lemma assoc_get_elem k v m : assoc_get k m = Some v → (k, v) ∈ m.
Proof.
  induction m as [|[k0 v0] m IH]; cbn; [done|].
  destruct (String.eqb_spec k k0) as [->|]; intros; simplify_eq; [left|right; auto].
Qed.

Lemma assoc_elem_get k v m : NoDup m.*1 → (k, v) ∈ m → assoc_get k m = Some v.
Proof.
  induction m as [|[k0 v0] m IH]; cbn; [by intros _ ?%elem_of_nil|].
  intros [Hk Hm]%NoDup_cons [?|Hin]%elem_of_cons; simplify_eq.
  - by rewrite String.eqb_refl.
  - destruct (String.eqb_spec k k0) as [->|]; [|auto].
    destruct Hk. apply list_elem_of_fmap. by exists (k0, v).
Qed.

Lemma assoc_set_keys k v m :
  (assoc_set k v m).*1 = if bool_decide (k ∈ m.*1) then m.*1 else m.*1 ++ [k].
Proof.
  induction m as [|[k0 v0] m IH]; cbn; [done|].
  destruct (String.eqb_spec k k0) as [->|Hne]; cbn.
  - rewrite bool_decide_eq_true_2; [done|left].
  - rewrite IH. case_bool_decide as H1; case_bool_decide as H2; try done.
    + destruct H2. by right.
    + apply elem_of_cons in H2 as [?|?]; done.
Qed.

Lemma assoc_set_NoDup k v m : NoDup m.*1 → NoDup (assoc_set k v m).*1.
Proof.
  intros H. rewrite assoc_set_keys. case_bool_decide; [done|].
  apply NoDup_app. split; [done|]. split; [|apply NoDup_singleton].
  intros x Hx ->%list_elem_of_singleton. done.
Qed.
End Assoc.
