(* ===== verification/Transactions.v ===== *)
(** * Transactions on a state

    What the databases of the program share: a transaction that a throw rolls back, plain
    insertion into a table, and how a computation that is composed of such steps moves the
    state along a preorder. *)

From stdpp Require Import base list strings gmap relations.
From Stdlib Require Import ZArith Lia.
From S2P Require Import Prelude.

#[export] Instance outcome_ret : MRet outcome := @Ok.
#[export] Instance outcome_bind : MBind outcome := λ A B k m, match m with Ok a => k a | Throw e => Throw e end.

Section Statements.
Context {St : Type}.

(** [this.commit(fn)]: one SQL transaction, rolled back by a throw. *)
Definition commit {A} (m : M St A) : M St A := λ s,
  match m s with
  | (Ok a, s') => (Ok a, s')
  | (Throw e, _) => (Throw e, s)
  end.

(** [if (!ok) throw failure]. *)
Definition ensure (ok : bool) (failure : JsError) : M St unit := if ok then mret tt else throw failure.

(** A plain [INSERT] on a primary key that is taken. *)
Definition unique_violation : JsError := MkError None "UNIQUE constraint failed" [].

Definition insert_row `{Countable K} {A} (get : St → gmap K A) (set : gmap K A → St → St)
    (k : K) (row : A) : M St unit :=
  λ s, match get s !! k with
       | Some _ => (Throw unique_violation, s)
       | None => (Ok tt, set (<[k := row]> (get s)) s)
       end.

(** ** What a computation does to the state, up to a preorder *)

(** [moves R m]: however [m] ends; [moves_ok R m]: if it returns. *)
Definition moves (R : relation St) {A} (m : M St A) : Prop := ∀ s, R s (m s).2.
Definition moves_ok (R : relation St) {A} (m : M St A) : Prop := ∀ s a s', m s = (Ok a, s') → R s s'.

(** A read-only computation. *)
Definition reads {A} (m : M St A) : Prop := ∀ s, (m s).2 = s.
End Statements.

Create HintDb moves discriminated.

Section Moves.
Context {St : Type} (R : relation St) `{!PreOrder R}.

Lemma moves_moves_ok {A} (m : M St A) : moves R m → moves_ok R m.
Proof. intros Hm s a s' Hs. specialize (Hm s). by rewrite Hs in Hm. Qed.

Lemma moves_bind {A B} (m : M St A) (k : A → M St B) : moves R m → (∀ a, moves R (k a)) → moves R (m ≫= k).
Proof.
  intros Hm Hk s. unfold mbind, M_bind. specialize (Hm s). destruct (m s) as [[a|e] s']; [|done].
  etrans; [done|apply Hk].
Qed.

Lemma moves_ok_bind {A B} (m : M St A) (k : A → M St B) : moves_ok R m → (∀ a, moves_ok R (k a)) → moves_ok R (m ≫= k).
Proof.
  intros Hm Hk s b s'. unfold mbind, M_bind. destruct (m s) as [[a|e] s1] eqn:E; [|done].
  intros Hs. etrans; [by eapply Hm|by eapply Hk].
Qed.

Lemma moves_commit {A} (m : M St A) : moves_ok R m → moves R (commit m).
Proof. intros Hm s. unfold commit. destruct (m s) as [[a|e] s'] eqn:E; cbn; [by eapply Hm|done]. Qed.

Lemma moves_outcome_bind {A B} (o : outcome A) (k : A → M St B) :
  (∀ a, o = Ok a → moves R (k a)) → moves R (from_outcome o ≫= k).
Proof. intros Hk s. unfold from_outcome, mbind, M_bind. destruct o as [a|e]; [by apply Hk|done]. Qed.

Lemma moves_reads {A} (m : M St A) : reads m → moves R m.
Proof. intros Hm s. by rewrite Hm. Qed.
Lemma moves_ok_reads {A} (m : M St A) : reads m → moves_ok R m.
Proof. intros Hm. by apply moves_moves_ok, moves_reads. Qed.

Lemma moves_modify (f : St → St) : (∀ s, R s (f s)) → moves R (modify f).
Proof. done. Qed.

Lemma moves_insert `{Countable K} {A} (get : St → gmap K A) set k row :
  (∀ s v, R s (set v s)) → moves R (insert_row get set k row).
Proof. intros Hs s. unfold insert_row. destruct (get s !! k); cbn; [done|apply Hs]. Qed.

Lemma moves_for_each {A B} (xs : list A) (body : A → B → M St B) acc :
  (∀ x b, x ∈ xs → moves_ok R (body x b)) → moves_ok R (for_each xs body acc).
Proof.
  revert acc. induction xs as [|x xs IH]; intros acc Hb; cbn [for_each].
  - by apply moves_ok_reads.
  - apply moves_ok_bind; [apply Hb; left|]. intros b. apply IH. intros y b' Hy. apply Hb. by right.
Qed.

Lemma moves_map_M {A B} (f : A → M St B) xs : (∀ x, moves_ok R (f x)) → moves_ok R (map_M f xs).
Proof.
  intros Hf. induction xs as [|x xs IH]; cbn [map_M]; [by apply moves_ok_reads|].
  apply moves_ok_bind; [done|]. intros y. apply moves_ok_bind; [done|]. intros ys. by apply moves_ok_reads.
Qed.
End Moves.

Section Reads.
Context {St : Type}.

Lemma reads_ret {A} (a : A) : reads (St := St) (mret a). Proof. done. Qed.
Lemma reads_throw {A} e : reads (throw (St := St) (A := A) e). Proof. done. Qed.
Lemma reads_gets {A} (f : St → A) : reads (gets f). Proof. done. Qed.
Lemma reads_outcome {A} (o : outcome A) : reads (St := St) (from_outcome o). Proof. done. Qed.
Lemma reads_ensure b e : reads (St := St) (ensure b e). Proof. by destruct b. Qed.
Lemma reads_bind {A B} (m : M St A) (k : A → M St B) : reads m → (∀ a, reads (k a)) → reads (m ≫= k).
Proof.
  intros Hm Hk s. unfold mbind, M_bind. specialize (Hm s). destruct (m s) as [[a|e] s']; cbn in *; subst; [apply Hk|done].
Qed.

End Reads.

#[export] Hint Resolve reads_ret reads_throw reads_gets reads_outcome reads_ensure : moves.

(** ** Running a computation backwards *)

Section Backwards.
Context {St : Type}.

Lemma ensure_Ok b e (s : St) u s' : ensure b e s = (Ok u, s') → b = true ∧ s' = s.
Proof. destruct b; by intros [= ?]. Qed.

Lemma read_Ok {A} (m : M St A) s a s' : reads m → m s = (Ok a, s') → s' = s.
Proof. intros Hm Hs. specialize (Hm s). by rewrite Hs in Hm. Qed.

Lemma commit_Ok {A} (m : M St A) s a s' : commit m s = (Ok a, s') → m s = (Ok a, s').
Proof. unfold commit. by destruct (m s) as [[]]; intros [= -> ->]. Qed.

Lemma commit_Throw {A} (m : M St A) s e s' : commit m s = (Throw e, s') → s' = s.
Proof. unfold commit. by destruct (m s) as [[]]; intros [= -> ->]. Qed.
End Backwards.

(** Take one step of [(m ≫= k) s = (Ok b, s')]. *)
Ltac step_back H a s1 Ha := apply bind_Ok in H as (a & s1 & Ha & H).

Lemma outcome_bind_Ok {A B} (m : outcome A) (k : A → outcome B) b : (m ≫= k) = Ok b → ∃ a, m = Ok a ∧ k a = Ok b.
Proof. destruct m as [a|e]; [|done]. by exists a. Qed.

