(* ===== verification/JsString.v ===== *)
(** * JavaScript strings

    The [String.prototype] operations and the regular-expression classes the
    modelled code uses.  A string is a sequence of code units below 256; what
    [toLowerCase], [trim] and [TextEncoder] do on those is written out. *)

From stdpp Require Import base list strings.
From Stdlib Require Import ZArith Ascii.
From S2P Require Import Prelude.

Definition chars : string → list ascii := String.list_ascii_of_string.
Definition of_chars : list ascii → string := String.string_of_list_ascii.

Lemma of_chars_chars s : of_chars (chars s) = s.
Proof. apply String.string_of_list_ascii_of_string. Qed.
Lemma chars_of_chars l : chars (of_chars l) = l.
Proof. apply String.list_ascii_of_string_of_list_ascii. Qed.
Lemma chars_app s t : chars (s +:+ t) = chars s ++ chars t.
Proof. induction s as [|c s IH]; cbn; [done|]. by rewrite <- IH. Qed.

#[export] Instance chars_inj : Inj eq eq chars.
Proof. intros s t H. by rewrite <- (of_chars_chars s), H, of_chars_chars. Qed.

(** [s.length]. *)
Definition slen (s : string) : Z := Z.of_nat (String.length s).

Lemma slen_chars s : slen s = Z.of_nat (length (chars s)).
Proof. unfold slen. f_equal. induction s; cbn; auto. Qed.

(** [s.charCodeAt(i)] of a single unit. *)
Definition code (c : ascii) : Z := Z.of_N (N_of_ascii c).

Lemma code_range c : 0 ≤ code c < 256.
Proof.
  unfold code. pose proof (N_ascii_bounded c). split; [lia|].
  change 256 with (Z.of_N 256). lia.
Qed.

#[export] Instance code_inj : Inj eq eq code.
Proof.
  intros c d H. unfold code in H.
  rewrite <- (ascii_N_embedding c), <- (ascii_N_embedding d). f_equal. lia.
Qed.

Definition in_range (lo hi : Z) (c : ascii) : bool := (lo <=? code c) && (code c <=? hi).
Definition is_digit : ascii → bool := in_range 48 57.
Definition is_upper : ascii → bool := in_range 65 90.
Definition is_lower : ascii → bool := in_range 97 122.
Definition is_char (k : Z) (c : ascii) : bool := code c =? k.

(** White space as [trim] and the [\s] class see it, below 256. *)
Definition is_space (c : ascii) : bool :=
  in_range 9 13 c || is_char 32 c || is_char 160 c.

(** [toLowerCase]: ASCII and the Latin-1 capitals (215 is the multiplication sign). *)
Definition lower_char (c : ascii) : ascii :=
  if is_upper c || (in_range 192 222 c && negb (is_char 215 c))
  then ascii_of_N (N_of_ascii c + 32) else c.

Definition toLowerCase (s : string) : string := of_chars (map lower_char (chars s)).

Fixpoint drop_while (p : ascii → bool) (l : list ascii) : list ascii :=
  match l with
  | [] => []
  | c :: l' => if p c then drop_while p l' else l
  end.

(** Drop the leading and trailing units in a class. *)
Definition trim_class (p : ascii → bool) (s : string) : string :=
  of_chars (rev (drop_while p (rev (drop_while p (chars s))))).

Definition trim : string → string := trim_class is_space.

(** [s.trim().length === 0]. *)
Definition blank (s : string) : bool := slen (trim s) =? 0.

(** [s.slice(n)] and [s.slice(0, n)] for a natural [n]. *)
Definition slice_from (n : nat) (s : string) : string := of_chars (drop n (chars s)).
Definition slice_to (n : nat) (s : string) : string := of_chars (take n (chars s)).

Fixpoint prefix_of (p l : list ascii) : bool :=
  match p, l with
  | [], _ => true
  | c :: p', d :: l' => Ascii.eqb c d && prefix_of p' l'
  | _ :: _, [] => false
  end.

Definition startsWith (p s : string) : bool := prefix_of (chars p) (chars s).
Definition endsWith (p s : string) : bool := prefix_of (rev (chars p)) (rev (chars s)).

Fixpoint occurs (p l : list ascii) : bool :=
  prefix_of p l || match l with [] => false | _ :: l' => occurs p l' end.

(** [s.includes(p)]. *)
Definition includes (p s : string) : bool := occurs (chars p) (chars s).

(** [s.split(sep)] for a one-unit separator. *)
Fixpoint split_chars (sep : ascii) (l : list ascii) : list (list ascii) :=
  match l with
  | [] => [[]]
  | c :: l' =>
      if Ascii.eqb c sep then [] :: split_chars sep l'
      else match split_chars sep l' with
           | [] => [[c]]
           | w :: ws => (c :: w) :: ws
           end
  end.

Definition split (sep : ascii) (s : string) : list string :=
  map of_chars (split_chars sep (chars s)).

(** [s.replace(/[class]/g, with)] and [s.replace(/[class]+/g, with)] for a
    one-unit replacement, and removal of a class. *)
Definition remove_class (p : ascii → bool) (s : string) : string :=
  of_chars (List.filter (λ c, negb (p c)) (chars s)).

Fixpoint replace_runs_go (p : ascii → bool) (r : ascii) (in_run : bool) (l : list ascii) : list ascii :=
  match l with
  | [] => []
  | c :: l' =>
      if p c then (if in_run then replace_runs_go p r true l' else r :: replace_runs_go p r true l')
      else c :: replace_runs_go p r false l'
  end.

Definition replace_runs (p : ascii → bool) (r : ascii) (s : string) : string :=
  of_chars (replace_runs_go p r false (chars s)).

(** [xs.join(sep)]. *)
Fixpoint join (sep : string) (l : list string) : string :=
  match l with
  | [] => ""
  | [s] => s
  | s :: l' => s +:+ sep +:+ join sep l'
  end.

(** The order of code units, as [<] and the default [sort] use it. *)
Fixpoint units_leb (a b : list ascii) : bool :=
  match a, b with
  | [], _ => true
  | _ :: _, [] => false
  | c :: a', d :: b' =>
      if code c <? code d then true else if code d <? code c then false else units_leb a' b'
  end.

Definition str_leb (s t : string) : bool := units_leb (chars s) (chars t).

Lemma units_leb_total a b : units_leb a b = false → units_leb b a = true.
Proof.
  revert b. induction a as [|c a IH]; intros [|d b]; cbn; try done.
  destruct (Z.ltb_spec (code c) (code d)); [done|].
  destruct (Z.ltb_spec (code d) (code c)); [done|]. apply IH.
Qed.

Lemma units_leb_refl a : units_leb a a = true.
Proof. induction a as [|c a IH]; cbn; [done|]. by rewrite Z.ltb_irrefl. Qed.

Lemma units_leb_trans a b c :
  units_leb a b = true → units_leb b c = true → units_leb a c = true.
Proof.
  revert b c. induction a as [|x a IH]; intros [|y b] [|z c]; cbn; try done.
  destruct (Z.ltb_spec (code x) (code y)), (Z.ltb_spec (code y) (code z));
    destruct (Z.ltb_spec (code y) (code x)); destruct (Z.ltb_spec (code z) (code y));
    destruct (Z.ltb_spec (code x) (code z)); destruct (Z.ltb_spec (code z) (code x));
    try done; try lia. apply IH.
Qed.

Lemma units_leb_antisym a b : units_leb a b = true → units_leb b a = true → a = b.
Proof.
  revert b. induction a as [|x a IH]; intros [|y b]; cbn; try done.
  destruct (Z.ltb_spec (code x) (code y)), (Z.ltb_spec (code y) (code x)); try done; try lia.
  intros. f_equal; [apply (inj code); lia|auto].
Qed.

Lemma str_leb_total s t : str_leb s t = false → str_leb t s = true.
Proof. apply units_leb_total. Qed.
Lemma str_leb_trans s t u : str_leb s t = true → str_leb t u = true → str_leb s u = true.
Proof. apply units_leb_trans. Qed.
Lemma str_leb_antisym s t : str_leb s t = true → str_leb t s = true → s = t.
Proof. intros. apply (inj chars). by apply units_leb_antisym. Qed.

(** [new TextEncoder().encode(s)]: the UTF-8 bytes. *)
Definition utf8_char (c : ascii) : list Z :=
  if code c <? 128 then [code c] else [192 + code c / 64; 128 + code c mod 64].
Definition utf8 (s : string) : list Z := flat_map utf8_char (chars s).

(** ** Lemmas on the operations *)

Lemma of_chars_length l : slen (of_chars l) = Z.of_nat (length l).
Proof. by rewrite slen_chars, chars_of_chars. Qed.

Lemma slen_nonneg s : 0 ≤ slen s.
Proof. unfold slen. lia. Qed.

Lemma toLowerCase_length s : slen (toLowerCase s) = slen s.
Proof. unfold toLowerCase. by rewrite of_chars_length, length_map, slen_chars. Qed.

Lemma prefix_of_spec p l : prefix_of p l = true ↔ ∃ t, l = p ++ t.
Proof.
  revert l. induction p as [|c p IH]; intros l; cbn.
  - split; [by exists l|done].
  - destruct l as [|d l]; [split; [done|by intros [t ?]]|].
    rewrite andb_true_iff, IH. destruct (Ascii.eqb_spec c d) as [->|]; split.
    + intros [_ [t ->]]. by exists t.
    + intros [t [= ->]]. split; [done|by exists t].
    + by intros [? _].
    + by intros [t [= ? ?]].
Qed.

Lemma startsWith_spec p s : startsWith p s = true ↔ ∃ t, s = p +:+ t.
Proof.
  unfold startsWith. rewrite prefix_of_spec. split; intros [t Ht].
  - exists (of_chars t). apply (inj chars). by rewrite chars_app, chars_of_chars.
  - exists (chars t). by rewrite Ht, chars_app.
Qed.

Lemma occurs_spec p l : occurs p l = true ↔ ∃ a b, l = a ++ p ++ b.
Proof.
  induction l as [|c l IH]; cbn; rewrite orb_true_iff, prefix_of_spec.
  - split.
    + intros [[t Ht]|?]; [|done]. by exists [], t.
    + intros (a & b & H). symmetry in H. apply app_eq_nil in H as [-> H].
      left. by exists b.
  - rewrite IH. split.
    + intros [[t Ht]|(a & b & ->)]; [by exists [], t|by exists (c :: a), b].
    + intros ([|d a] & b & H); simplify_list_eq; [left; by exists b|right; by eexists _, _].
Qed.

Lemma includes_spec p s : includes p s = true ↔ ∃ a b, s = a +:+ p +:+ b.
Proof.
  unfold includes. rewrite occurs_spec. split; intros (a & b & H).
  - exists (of_chars a), (of_chars b). apply (inj chars).
    by rewrite !chars_app, !chars_of_chars.
  - exists (chars a), (chars b). by rewrite H, !chars_app.
Qed.

#[export] Hint Resolve str_leb_total str_leb_trans slen_nonneg : js.
