(* ===== verification/JsValue.v ===== *)
(** * JavaScript values

    Numbers, JSON values, property access and coercions, with the two
    serialisations the code compares values by.

    A finite number is the decimal [m / 10^k]: every double is identified with
    the decimal [Number::toString] prints for it, so comparisons and integer
    tests are exact.  Minus zero is not distinguished from zero. *)

From stdpp Require Import base list strings pretty.
From Stdlib Require Import ZArith Ascii.
From S2P Require Import Prelude JsString.

Inductive num :=
| NNaN
| NInf (neg : bool)
| NFin (m : Z) (k : nat).

#[export] Instance num_eq_dec : EqDecision num.
Proof. solve_decision. Defined.

Definition int (z : Z) : num := NFin z 0.

Definition pow10 (k : nat) : Z := 10 ^ Z.of_nat k.

(** [a < b] on numbers: false as soon as one is NaN. *)
Definition num_ltb (a b : num) : bool :=
  match a, b with
  | NFin m k, NFin n j => m * pow10 j <? n * pow10 k
  | NInf true, NFin _ _ | NInf true, NInf false | NFin _ _, NInf false => true
  | _, _ => false
  end.

(** [a <= b]. *)
Definition num_leb (a b : num) : bool :=
  match a, b with
  | NFin m k, NFin n j => m * pow10 j <=? n * pow10 k
  | NInf true, NFin _ _ | NInf true, NInf _ | NFin _ _, NInf false | NInf false, NInf false => true
  | _, _ => false
  end.

Definition isFinite (n : num) : bool := match n with NFin _ _ => true | _ => false end.

(** The integer a number is, if it is one ([Number.isInteger]). *)
Definition num_to_Z (n : num) : option Z :=
  match n with
  | NFin m k => if m mod pow10 k =? 0 then Some (m / pow10 k) else None
  | _ => None
  end.

Definition MAX_SAFE_INTEGER : Z := 2 ^ 53 - 1.

Definition safe_Z (z : Z) : bool := (- MAX_SAFE_INTEGER <=? z) && (z <=? MAX_SAFE_INTEGER).

(** [Number.isSafeInteger(n)], with the integer. *)
Definition safe_integer (n : num) : option Z :=
  match num_to_Z n with
  | Some z => if safe_Z z then Some z else None
  | None => None
  end.

(** [a + b] on numbers, without rounding. *)
Definition num_add (a b : num) : num :=
  match a, b with
  | NFin m k, NFin n j => if (k =? j)%nat then NFin (m + n) k else NFin (m * pow10 j + n * pow10 k) (k + j)
  | NInf x, NInf y => if Bool.eqb x y then NInf x else NNaN
  | NInf x, NFin _ _ | NFin _ _, NInf x => NInf x
  | _, _ => NNaN
  end.

Definition num_neg (n : num) : num :=
  match n with NNaN => NNaN | NInf b => NInf (negb b) | NFin m k => NFin (- m) k end.

(** [a - b]. *)
Definition num_sub (a b : num) : num := num_add a (num_neg b).

(** [a * b], without rounding. *)
Definition num_mul (a b : num) : num :=
  match a, b with
  | NFin m k, NFin n j => NFin (m * n) (k + j)
  | NInf x, NInf y => NInf (xorb x y)
  | NInf x, NFin n _ | NFin n _, NInf x => if n =? 0 then NNaN else NInf (xorb x (n <? 0))
  | _, _ => NNaN
  end.

(** [Math.max(a, b)] and [Math.min(a, b)]. *)
Definition num_max (a b : num) : num :=
  match a, b with
  | NNaN, _ | _, NNaN => NNaN
  | _, _ => if num_leb a b then b else a
  end.

Definition num_min (a b : num) : num :=
  match a, b with
  | NNaN, _ | _, NNaN => NNaN
  | _, _ => if num_leb a b then a else b
  end.

Lemma pow10_pos k : 0 < pow10 k.
Proof. unfold pow10. apply Z.pow_pos_nonneg; lia. Qed.

Lemma num_to_Z_int z : num_to_Z (int z) = Some z.
Proof. cbn. change (pow10 0) with 1. by rewrite Z.mod_1_r, Z.div_1_r. Qed.

Lemma num_ltb_int a b : num_ltb (int a) (int b) = (a <? b).
Proof. cbn. change (pow10 0) with 1. by rewrite !Z.mul_1_r. Qed.

(** Comparisons of a number that is an integer with an integer. *)
Lemma num_leb_to_Z v z k : num_to_Z v = Some z → num_leb v (int k) = (z <=? k).
Proof.
  destruct v as [| |m e]; cbn; [done..|]. change (pow10 0) with 1. pose proof (pow10_pos e).
  destruct (Z.eqb_spec (m mod pow10 e) 0) as [Hm|]; [|done]. intros [= <-].
  pose proof (Z.div_mod m (pow10 e) ltac:(lia)) as E. rewrite Hm in E.
  apply eq_true_iff_eq. rewrite !Z.leb_le. nia.
Qed.

Lemma num_ltb_to_Z v z k : num_to_Z v = Some z → num_ltb v (int k) = (z <? k).
Proof.
  destruct v as [| |m e]; cbn; [done..|]. change (pow10 0) with 1. pose proof (pow10_pos e).
  destruct (Z.eqb_spec (m mod pow10 e) 0) as [Hm|]; [|done]. intros [= <-].
  pose proof (Z.div_mod m (pow10 e) ltac:(lia)) as E. rewrite Hm in E.
  apply eq_true_iff_eq. rewrite !Z.ltb_lt. nia.
Qed.

Lemma num_ltb_irrefl a : num_ltb a a = false.
Proof. destruct a as [|[]|m k]; cbn; try done. apply Z.ltb_irrefl. Qed.

(** ** [Number::toString] in base ten *)

Definition zeros (n : Z) : string := of_chars (replicate (Z.to_nat n) "0"%char).

Definition strip_zeros (s : string) : string :=
  of_chars (rev (drop_while (is_char 48) (rev (chars s)))).

(** The digits [s] and the exponent [n] of [0.s * 10^n]. *)
Definition digits_string (s : string) (n : Z) : string :=
  let k := slen s in
  if (k <=? n) && (n <=? 21) then s +:+ zeros (n - k)
  else if (0 <? n) && (n <=? 21) then slice_to (Z.to_nat n) s +:+ "." +:+ slice_from (Z.to_nat n) s
  else if (-6 <? n) && (n <=? 0) then "0." +:+ zeros (- n) +:+ s
  else
    let e := n - 1 in
    let es := (if e <? 0 then "e-" else "e+") +:+ pretty (Z.abs e) in
    if k =? 1 then s +:+ es
    else slice_to 1 s +:+ "." +:+ slice_from 1 s +:+ es.

Definition num_to_string (v : num) : string :=
  match v with
  | NNaN => "NaN"
  | NInf false => "Infinity"
  | NInf true => "-Infinity"
  | NFin m k =>
      if m =? 0 then "0"
      else
        let ds : string := pretty (Z.abs m) in
        (if m <? 0 then "-" else "") +:+
          digits_string (strip_zeros ds) (slen ds - Z.of_nat k)
  end.

(** [String(n)] of an integer below 10^21 is its decimal numeral; the code prints
    sequence numbers only. *)
Definition int_to_string (z : Z) : string := pretty z.

(** ** [Number(s)]: StringToNumber *)

Definition digit_value (c : ascii) : Z :=
  if is_digit c then code c - 48
  else if is_lower c then code c - 87
  else if is_upper c then code c - 55
  else 99.

(** Read digits in a base: the value, their count, the rest. *)
Fixpoint read_digits (base : Z) (acc : Z) (count : nat) (l : list ascii) : Z * nat * list ascii :=
  match l with
  | c :: l' =>
      if digit_value c <? base
      then read_digits base (acc * base + digit_value c) (S count) l'
      else (acc, count, l)
  | [] => (acc, count, [])
  end.

Definition read_radix (base : Z) (l : list ascii) : num :=
  match read_digits base 0 0 l with
  | (v, S _, []) => int v
  | _ => NNaN
  end.

Definition read_sign (l : list ascii) : bool * list ascii :=
  match l with
  | c :: l' => if is_char 45 c then (true, l') else if is_char 43 c then (false, l') else (false, l)
  | [] => (false, [])
  end.

(** The exponent part, [Some 0] when there is none. *)
Definition read_exponent (l : list ascii) : option Z :=
  match l with
  | [] => Some 0
  | c :: l' =>
      if is_char 101 c || is_char 69 c then
        let '(neg, l'') := read_sign l' in
        match read_digits 10 0 0 l'' with
        | (v, S _, []) => Some (if neg : bool then - v else v)
        | _ => None
        end
      else None
  end.

Definition scale (m : Z) (e : Z) : num :=
  if 0 <=? e then int (m * 10 ^ e) else NFin m (Z.to_nat (- e)).

Definition read_decimal (l : list ascii) : num :=
  let '(whole, n, rest) := read_digits 10 0 0 l in
  let '(m, frac, rest) :=
    match rest with
    | c :: rest' =>
        if is_char 46 c then
          let '(m, n', rest'') := read_digits 10 whole 0 rest' in (m, n', rest'')
        else (whole, 0%nat, rest)
    | [] => (whole, 0%nat, rest)
    end in
  if Nat.eqb (n + frac) 0 then NNaN
  else match read_exponent rest with
       | Some e => scale m (e - Z.of_nat frac)
       | None => NNaN
       end.

Definition string_to_num (s : string) : num :=
  let l := chars (trim s) in
  match l with
  | [] => int 0
  | z :: x :: l' =>
      if is_char 48 z && (is_char 120 x || is_char 88 x) then read_radix 16 l'
      else if is_char 48 z && (is_char 111 x || is_char 79 x) then read_radix 8 l'
      else if is_char 48 z && (is_char 98 x || is_char 66 x) then read_radix 2 l'
      else
        let '(neg, l'') := read_sign l in
        let n := if String.eqb (of_chars l'') "Infinity" then NInf false else read_decimal l'' in
        if neg : bool then num_neg n else n
  | _ => read_decimal l
  end.

(** ** JSON values *)

Inductive json :=
| JNull
| JBool (b : bool)
| JNum (n : num)
| JStr (s : string)
| JArr (l : list json)
| JObj (l : list (string * json)).

Section JsonInd.
Context (P : json → Prop).
Context (Hnull : P JNull) (Hbool : ∀ b, P (JBool b)) (Hnum : ∀ n, P (JNum n)) (Hstr : ∀ s, P (JStr s)).
Context (Harr : ∀ l, Forall P l → P (JArr l)).
Context (Hobj : ∀ l, Forall (λ kv, P kv.2) l → P (JObj l)).

Fixpoint json_ind' (j : json) : P j :=
  match j with
  | JNull => Hnull
  | JBool b => Hbool b
  | JNum n => Hnum n
  | JStr s => Hstr s
  | JArr l => Harr l ((fix go l : Forall P l :=
      match l with [] => Forall_nil_2 _ | x :: l' => Forall_cons_2 _ _ _ (json_ind' x) (go l') end) l)
  | JObj l => Hobj l ((fix go l : Forall (λ kv, P kv.2) l :=
      match l with [] => Forall_nil_2 _ | x :: l' => Forall_cons_2 _ _ _ (json_ind' x.2) (go l') end) l)
  end.
End JsonInd.

(** A value that may be [undefined]. *)
Abbreviation jsval := (option json).

(** [v.k]; [undefined] when [v] is not an object.  (The code reads properties of
    values it has tested not to be null or undefined.) *)
Definition prop (k : string) (v : jsval) : jsval :=
  match v with
  | Some (JObj l) => assoc_get k l
  | _ => None
  end.

(** [v.k1.k2...]. *)
Definition path (ks : list string) (v : json) : jsval := foldl (λ v k, prop k v) (Some v) ks.

(** [typeof v === "object" && v !== null && !Array.isArray(v)]. *)
Definition isObject (v : jsval) : bool :=
  match v with Some (JObj _) => true | _ => false end.

Definition isArray (v : jsval) : bool :=
  match v with Some (JArr _) => true | _ => false end.

Definition is_string (v : jsval) : bool :=
  match v with Some (JStr _) => true | _ => false end.

(** [v === "s"]. *)
Definition is_str (s : string) (v : jsval) : bool :=
  match v with Some (JStr t) => String.eqb s t | _ => false end.

(** [v === undefined]. *)
Definition is_undefined (v : jsval) : bool := match v with None => true | _ => false end.

Definition is_bool (v : jsval) : bool := match v with Some (JBool _) => true | _ => false end.

(** [Boolean(v)]. *)
Definition truthy (v : jsval) : bool :=
  match v with
  | None | Some JNull => false
  | Some (JBool b) => b
  | Some (JNum NNaN) => false
  | Some (JNum (NFin m _)) => negb (m =? 0)
  | Some (JNum (NInf _)) => true
  | Some (JStr s) => negb (slen s =? 0)
  | Some (JArr _) | Some (JObj _) => true
  end.

(** [Number.isSafeInteger(v)], with the integer. *)
Definition safe_integer_of (v : jsval) : option Z :=
  match v with Some (JNum n) => safe_integer n | _ => None end.

(** [String(v)], as [RegExp.prototype.test] coerces its argument. *)
Fixpoint json_to_string (j : json) : string :=
  match j with
  | JNull => "null"
  | JBool true => "true"
  | JBool false => "false"
  | JNum n => num_to_string n
  | JStr s => s
  | JArr l => join "," (map (λ x, match x with JNull => "" | _ => json_to_string x end) l)
  | JObj _ => "[object Object]"
  end.

Definition to_js_string (v : jsval) : string :=
  match v with Some j => json_to_string j | None => "undefined" end.

(** ** [JSON.stringify] on strings, and the canonical text of a value *)

Definition dquote : string := of_chars [ascii_of_nat 34].
Definition backslash : string := of_chars [ascii_of_nat 92].

Definition hex_digit (n : Z) : ascii :=
  ascii_of_N (Z.to_N (if n <? 10 then n + 48 else n + 87)).

Definition escape_char (c : ascii) : string :=
  let k := code c in
  if k =? 34 then backslash +:+ dquote
  else if k =? 92 then backslash +:+ backslash
  else if k =? 8 then backslash +:+ "b"
  else if k =? 9 then backslash +:+ "t"
  else if k =? 10 then backslash +:+ "n"
  else if k =? 12 then backslash +:+ "f"
  else if k =? 13 then backslash +:+ "r"
  else if k <? 32 then backslash +:+ "u00" +:+ of_chars [hex_digit (k / 16); hex_digit (k mod 16)]
  else of_chars [c].

Definition quote (s : string) : string :=
  dquote +:+ foldr (λ c t, escape_char c +:+ t) "" (chars s) +:+ dquote.

Definition num_json (n : num) : string :=
  if isFinite n then num_to_string n else "null".

Definition key_leb {A} (x y : string * A) : bool := str_leb x.1 y.1.

(** [canonicalJson]: keys sorted by code unit at every level. *)
Fixpoint canonicalJson (value : json) : string :=
  match value with
  | JArr l => "[" +:+ join "," (map canonicalJson l) +:+ "]"
  | JObj l =>
      "{" +:+ join "," (map (λ kv, quote kv.1 +:+ ":" +:+ kv.2)
                         (sort_by key_leb (map (λ kv, (kv.1, canonicalJson kv.2)) l))) +:+ "}"
  | JNull => "null"
  | JBool true => "true"
  | JBool false => "false"
  | JNum n => num_json n
  | JStr s => quote s
  end.

(** [JSON.stringify(value)]: keys in insertion order. *)
Fixpoint JSON_stringify (value : json) : string :=
  match value with
  | JArr l => "[" +:+ join "," (map JSON_stringify l) +:+ "]"
  | JObj l => "{" +:+ join "," (map (λ kv, quote kv.1 +:+ ":" +:+ JSON_stringify kv.2) l) +:+ "}"
  | JNull => "null"
  | JBool true => "true"
  | JBool false => "false"
  | JNum n => num_json n
  | JStr s => quote s
  end.

(** ** Quoted strings are uniquely readable *)

Definition escaped (s : string) : list ascii := flat_map (λ c, chars (escape_char c)) (chars s).

Lemma chars_quote s : chars (quote s) = ascii_of_nat 34 :: escaped s ++ [ascii_of_nat 34].
Proof.
  unfold quote, dquote, escaped. rewrite !chars_app, chars_of_chars. cbn [app]. f_equal. f_equal.
  induction (chars s) as [|c l IH]; [done|]. cbn [foldr flat_map]. by rewrite chars_app, IH.
Qed.

(** Read one escaped unit back. *)
Definition hex_value (c : ascii) : Z := digit_value c.
Definition unescape (l : list ascii) : option (ascii * list ascii) :=
  match l with
  | [] => None
  | c :: l' =>
      if code c =? 34 then None
      else if code c =? 92 then
        match l' with
        | d :: l'' =>
            if code d =? 98 then Some (ascii_of_nat 8, l'')
            else if code d =? 116 then Some (ascii_of_nat 9, l'')
            else if code d =? 110 then Some (ascii_of_nat 10, l'')
            else if code d =? 102 then Some (ascii_of_nat 12, l'')
            else if code d =? 114 then Some (ascii_of_nat 13, l'')
            else if code d =? 117 then
              match l'' with
              | _ :: _ :: h1 :: h2 :: rest =>
                  Some (ascii_of_N (Z.to_N (hex_value h1 * 16 + hex_value h2)), rest)
              | _ => None
              end
            else Some (d, l'')
        | [] => None
        end
      else Some (c, l')
  end.

Lemma unescape_escape c rest : unescape (chars (escape_char c) ++ rest) = Some (c, rest).
Proof. destruct c as [[] [] [] [] [] [] [] []]; reflexivity. Qed.

Lemma escaped_inj s t x y :
  escaped s ++ ascii_of_nat 34 :: x = escaped t ++ ascii_of_nat 34 :: y → s = t ∧ x = y.
Proof.
  unfold escaped. intros H. enough (chars s = chars t ∧ x = y) as [?%(inj chars) ?] by done.
  revert H. generalize (chars t) as b. generalize (chars s) as a. clear s t.
  induction a as [|c a IH]; intros [|d b] H; cbn [flat_map app] in H.
  - by simplify_eq.
  - apply (f_equal unescape) in H. rewrite <- app_assoc, unescape_escape in H. discriminate.
  - apply (f_equal unescape) in H. rewrite <- app_assoc, unescape_escape in H. discriminate.
  - apply (f_equal unescape) in H. rewrite <- !app_assoc, !unescape_escape in H.
    injection H as -> H. destruct (IH b H) as [-> ->]. done.
Qed.

(** Quoted strings joined by commas and closed by a bracket determine the list. *)
Lemma quoted_list_inj l1 l2 x y :
  chars (join "," (map quote l1)) ++ "]"%char :: x = chars (join "," (map quote l2)) ++ "]"%char :: y →
  l1 = l2 ∧ x = y.
Proof.
  revert l2. induction l1 as [|s l1 IH]; intros l2 H.
  - destruct l2 as [|t l2]; [cbn in H; by simplify_eq|].
    exfalso. destruct l2; cbn [map join] in H; rewrite ?chars_app, chars_quote in H; discriminate.
  - destruct l2 as [|t l2].
    { exfalso. destruct l1; cbn [map join] in H; rewrite ?chars_app, chars_quote in H; discriminate. }
    assert (∀ l s, chars (join "," (map quote (s :: l))) =
        ascii_of_nat 34 :: escaped s ++ ascii_of_nat 34 ::
          match l with [] => [] | _ => ","%char :: chars (join "," (map quote l)) end) as Hj.
    { intros [|u l] v; [apply chars_quote|]. cbn [map join].
      rewrite !chars_app, chars_quote. cbn [app]. by rewrite <- app_assoc. }
    rewrite !Hj in H. cbn [app] in H. injection H as H. rewrite <- !app_assoc in H.
    cbn [app] in H. apply escaped_inj in H as [-> H].
    destruct l1 as [|u l1], l2 as [|v l2]; cbn [app] in H; simplify_eq; [done|].
    destruct (IH (v :: l2) H) as [-> ->]. done.
Qed.

(** ** Key order does not change the canonical text *)

Lemma key_leb_total {A} (x y : string * A) : key_leb x y = false → key_leb y x = true.
Proof. apply str_leb_total. Qed.
Lemma key_leb_trans {A} (x y z : string * A) :
  key_leb x y = true → key_leb y z = true → key_leb x z = true.
Proof. apply str_leb_trans. Qed.

(** Two sorted lists with the same elements and distinct keys are equal. *)
Lemma key_sorted_unique {A} (l1 l2 : list (string * A)) :
  NoDup l1.*1 → Permutation l1 l2 →
  StronglySorted (λ a b, key_leb a b = true) l1 →
  StronglySorted (λ a b, key_leb a b = true) l2 → l1 = l2.
Proof.
  revert l2. induction l1 as [|x l1 IH]; intros l2 Hnd Hp Hs1 Hs2.
  { apply Permutation_nil in Hp. by subst. }
  destruct l2 as [|y l2]; [by apply Permutation_sym, Permutation_nil in Hp|].
  inversion Hs1 as [|? ? Hs1' Hx]; inversion Hs2 as [|? ? Hs2' Hy]; subst.
  assert (x = y) as ->.
  { assert (x ∈ y :: l2) as Hxin by (rewrite <- Hp; left).
    assert (y ∈ x :: l1) as Hyin by (rewrite Hp; left).
    apply elem_of_cons in Hxin as [->|Hxin]; [done|].
    apply elem_of_cons in Hyin as [->|Hyin]; [done|].
    rewrite Forall_forall in Hx, Hy.
    assert (x.1 = y.1) as Hk by (apply str_leb_antisym; [by apply (Hx y)|by apply (Hy x)]).
    cbn in Hnd. apply NoDup_cons in Hnd as [Hn _]. destruct Hn.
    rewrite Hk. apply list_elem_of_fmap. by exists y. }
  f_equal. cbn in Hnd. apply NoDup_cons in Hnd as [_ Hnd].
  apply IH; [done| |done|done]. by apply Permutation_cons_inv in Hp.
Qed.

Lemma sort_by_key_Permutation {A} (l1 l2 : list (string * A)) :
  NoDup l1.*1 → Permutation l1 l2 → sort_by key_leb l1 = sort_by key_leb l2.
Proof.
  intros Hnd Hp.
  apply key_sorted_unique; [| |apply sort_by_sorted|apply sort_by_sorted];
    eauto using key_leb_total, key_leb_trans.
  - by rewrite sort_by_Permutation.
  - by rewrite !sort_by_Permutation.
Qed.

(** Values equal up to the order of object keys, at every depth. *)
Inductive json_equiv : json → json → Prop :=
| equiv_refl j : json_equiv j j
| equiv_arr l1 l2 : Forall2 json_equiv l1 l2 → json_equiv (JArr l1) (JArr l2)
| equiv_obj l1 l2 l3 :
    NoDup l1.*1 →
    Forall2 (λ a b, a.1 = b.1 ∧ json_equiv a.2 b.2) l1 l2 →
    Permutation l2 l3 → json_equiv (JObj l1) (JObj l3).

Lemma canonicalJson_equiv a b : json_equiv a b → canonicalJson a = canonicalJson b.
Proof.
  revert b. induction a as [| | | |l IH|l IH] using json_ind'; intros ? Hab;
    inversion Hab as [|? l2 H2|? l2 l3 Hnd H2 Hp]; subst; try done; cbn [canonicalJson].
  - do 3 f_equal. clear Hab. induction H2 as [|x y l l2 Hxy H2 IHl]; [done|].
    apply Forall_cons in IH as [Hx IH]. cbn. f_equal; auto.
  - assert (map (λ kv, (kv.1, canonicalJson kv.2)) l =
            map (λ kv : string * json, (kv.1, canonicalJson kv.2)) l2) as Heq.
    { clear Hab Hnd Hp. induction H2 as [|x y l l2 [Hk Hxy] H2 IHl]; [done|].
      apply Forall_cons in IH as [Hx IH]. cbn. f_equal; [|auto].
      f_equal; auto. }
    rewrite Heq. do 4 f_equal. apply sort_by_key_Permutation.
    + rewrite <- list_fmap_compose. cbn. unfold compose. cbn.
      clear -Hnd H2. replace (_ <$> l2) with l.*1; [done|].
      induction H2 as [|x y l l2 [Hk _] H2 IHl]; cbn; [done|]. apply NoDup_cons in Hnd as [_ Hnd].
      f_equal; auto.
    + by apply Permutation_map.
Qed.

(** ** Decimal numerals are read back

    [Number(String(n)) === n] for a natural [n]. *)

Lemma pretty_digit_char n : (n < 10)%N →
  is_digit (pretty_N_char n) = true ∧ digit_value (pretty_N_char n) = Z.of_N n.
Proof.
  intros Hn.
  assert (n = 0 ∨ n = 1 ∨ n = 2 ∨ n = 3 ∨ n = 4 ∨ n = 5 ∨ n = 6 ∨ n = 7 ∨ n = 8 ∨ n = 9)%N as Hc by lia.
  repeat destruct Hc as [->|Hc]; try subst; done.
Qed.

Lemma pretty_N_go_reads x :
  ∃ k : nat, ((0 < x)%N → (0 < k)%nat) ∧ ∀ s,
    (Forall (λ c, is_digit c = true) (chars s) →
     Forall (λ c, is_digit c = true) (chars (pretty_N_go x s))) ∧
    ∀ acc count, read_digits 10 acc count (chars (pretty_N_go x s)) =
      read_digits 10 (acc * 10 ^ Z.of_nat k + Z.of_N x) (count + k) (chars s).
Proof.
  induction (N.lt_wf_0 x) as [x _ IH].
  destruct (decide (0 < x)%N) as [Hx|Hx].
  - destruct (IH (x `div` 10)%N) as (k & _ & Hk); [by apply N.div_lt|].
    assert (x `mod` 10 < 10)%N as Hm by (by apply N.mod_lt).
    destruct (pretty_digit_char _ Hm) as [Hd Hv].
    exists (S k). split; [lia|]. intros s. rewrite pretty_N_go_step by done.
    destruct (Hk (String (pretty_N_char (x `mod` 10)) s)) as [Hk1 Hk2]. split.
    + intros Hs. apply Hk1. by constructor.
    + intros acc count. rewrite Hk2. cbn [chars String.list_ascii_of_string read_digits].
      rewrite Hv. destruct (Z.ltb_spec (Z.of_N (x `mod` 10)) 10); [|lia].
      f_equal; [|lia]. rewrite Nat2Z.inj_succ, Z.pow_succ_r by lia.
      pose proof (N.div_mod x 10 ltac:(lia)). lia.
  - assert (x = 0%N) as -> by lia. exists 0%nat. split; [lia|]. intros s. rewrite pretty_N_go_0.
    split; [done|]. intros acc count. f_equal; lia.
Qed.

Lemma pretty_nat_reads n : 0 ≤ n →
  ∃ k, Forall (λ c, is_digit c = true) (chars (int_to_string n)) ∧
    read_digits 10 0 0 (chars (int_to_string n)) = (n, S k, []).
Proof.
  intros Hn. unfold int_to_string, pretty, pretty_Z. destruct n as [|p|p]; [|clear Hn|lia].
  - exists 0%nat. split; [by repeat constructor|done].
  - unfold pretty, pretty_N. destruct (decide (N.pos p = 0)%N); [done|].
    destruct (pretty_N_go_reads (N.pos p)) as (k & Hk & Hgo). destruct (Hgo "") as [Hdig Hread].
    exists (k - 1)%nat. split; [by apply Hdig; constructor|].
    rewrite Hread. cbn. f_equal. f_equal. specialize (Hk ltac:(lia)). lia.
Qed.

Lemma drop_while_none p l : Forall (λ c, p c = false) l → drop_while p l = l.
Proof. destruct 1 as [|c l Hc Hl]; cbn; [done|]. by rewrite Hc. Qed.

Lemma digit_classes c : is_digit c = true →
  is_space c = false ∧ is_char 45 c = false ∧ is_char 43 c = false ∧
  (∀ k, (k < 48 ∨ 57 < k) → is_char k c = false).
Proof.
  unfold is_digit, is_space, is_char, in_range. intros H. reflect_bools.
  assert (∀ k, (k < 48 ∨ 57 < k) → (code c =? k) = false) as Hk.
  { intros k Hk. apply Z.eqb_neq. lia. }
  rewrite !Hk by lia. destruct (Z.leb_spec 9 (code c)), (Z.leb_spec (code c) 13); try lia; done.
Qed.

(** Text of digits is the number they read as. *)
Lemma string_to_num_digits s n k : Forall (λ c, is_digit c = true) (chars s) →
  read_digits 10 0 0 (chars s) = (n, S k, []) → string_to_num s = int n.
Proof.
  intros Hdig Hread.
  assert (trim s = s) as Htrim.
  { unfold trim, trim_class.
    assert (Forall (λ c, is_space c = false) (chars s)) as Hsp.
    { eapply Forall_impl; [exact Hdig|]. intros c Hc. by apply digit_classes. }
    rewrite (drop_while_none _ (chars s)) by done.
    rewrite drop_while_none by (by apply Forall_rev). by rewrite rev_involutive, of_chars_chars. }
  assert (read_decimal (chars s) = int n) as Hdec.
  { unfold read_decimal. rewrite Hread. cbn. unfold scale. cbn.
    by rewrite Z.mul_1_r. }
  unfold string_to_num. rewrite Htrim.
  destruct (chars s) as [|c [|d l]] eqn:Hs; [done|exact Hdec|].
  apply Forall_cons in Hdig as [Hc Hdig]. apply Forall_cons in Hdig as [Hd _].
  destruct (digit_classes c Hc) as (_ & H45 & H43 & _).
  destruct (digit_classes d Hd) as (_ & _ & _ & Hk).
  rewrite !(Hk _) by lia. rewrite !andb_false_r. cbn [read_sign]. rewrite H45, H43.
  destruct (String.eqb_spec (of_chars (c :: d :: l)) "Infinity") as [He|_]; [|exact Hdec].
  exfalso. apply (f_equal chars) in He. rewrite chars_of_chars in He. cbn in He.
  injection He as -> _. discriminate.
Qed.

Lemma string_to_num_pretty n : 0 ≤ n → string_to_num (int_to_string n) = int n.
Proof. intros Hn. destruct (pretty_nat_reads n Hn) as (k & Hdig & Hread). by eapply string_to_num_digits. Qed.

Lemma read_all_digits l acc count : Forall (λ c, is_digit c = true) l → 0 ≤ acc →
  ∃ v, 0 ≤ v ∧ read_digits 10 acc count l = (v, (count + length l)%nat, []).
Proof.
  intros Hl. revert acc count. induction Hl as [|c l Hc Hl IH]; intros acc count Ha; cbn [read_digits length].
  - exists acc. rewrite Nat.add_0_r. done.
  - unfold digit_value. rewrite Hc. unfold is_digit, in_range in Hc. reflect_bools.
    destruct (Z.ltb_spec (code c - 48) 10); [|lia].
    destruct (IH (acc * 10 + (code c - 48)) (S count)) as (v & Hv & Hr); [lia|]. exists v. split; [done|]. rewrite Hr.
    do 2 f_equal. lia.
Qed.
