(* ===== verification/ExecTypes.v ===== *)
(** * Execution control plane: data

    The types of [mezair-cloud/packages/runtime/src/agent-execution.ts],
    [agent-sandbox.ts] and the lease of [control-plane/src/execution.ts].

    A request, an approval decision and an input submission are JSON values: the
    control plane validates them at run time.  ISO timestamps are kept as
    milliseconds since the epoch. *)

From stdpp Require Import base list strings.
From Stdlib Require Import ZArith.
From S2P Require Import Prelude JsString JsValue.

(** ** Sandbox sessions *)

Inductive AgentSandboxStatus :=
| sb_starting | sb_active | sb_waiting_for_approval | sb_suspended
| sb_terminating | sb_terminated | sb_expired | sb_failed.

#[export] Instance AgentSandboxStatus_eq_dec : EqDecision AgentSandboxStatus.
Proof. solve_decision. Defined.

Record AgentSandboxSession := {
  ss_id : string;
  ss_agent : string;
  ss_status : AgentSandboxStatus;
  ss_endpointUrl : option string;
  ss_provider : string;
  ss_region : option string;
  ss_startedAt : option Z;
  ss_terminatedAt : option Z;
  ss_expiresAt : option Z;
  ss_image : option (string * option string);
  ss_metadata : json;
}.

Record AgentSandboxStartInput := {
  si_manifest : json;
  si_cell : jsval;
  si_environment : jsval;
  si_snapshot : jsval;
  si_credentialBroker : jsval;
  si_clientToken : string;
}.

(** ** Executions *)

Inductive AgentExecutionStatus :=
| st_queued | st_starting | st_running | st_waiting_for_approval | st_waiting_for_input
| st_suspended | st_completed | st_failed | st_cancelled | st_expired.

#[export] Instance AgentExecutionStatus_eq_dec : EqDecision AgentExecutionStatus.
Proof. solve_decision. Defined.

Definition status_string (s : AgentExecutionStatus) : string :=
  match s with
  | st_queued => "queued" | st_starting => "starting" | st_running => "running"
  | st_waiting_for_approval => "waiting-for-approval" | st_waiting_for_input => "waiting-for-input"
  | st_suspended => "suspended" | st_completed => "completed" | st_failed => "failed"
  | st_cancelled => "cancelled" | st_expired => "expired"
  end.

Inductive AgentExecutionEventType :=
| execution_created | execution_started | execution_completed | execution_failed
| execution_cancelled | sandbox_started | sandbox_suspended | sandbox_resumed
| sandbox_terminated | agent_message | agent_reasoning | tool_started | tool_completed
| command_started | command_output | command_completed | file_changed | subagent_started
| subagent_completed | approval_requested | approval_resolved | input_requested
| input_submitted | artifact_available | patch_ready | usage_updated | heartbeat
| expiry_warning | cleanup_completed.

#[export] Instance AgentExecutionEventType_eq_dec : EqDecision AgentExecutionEventType.
Proof. solve_decision. Defined.

Record AgentExecutionProviderEvent := {
  pe_id : string;
  pe_type : AgentExecutionEventType;
  pe_timestamp : option Z;
  pe_data : json;
}.

Record AgentExecutionEvent := {
  ev_id : string;
  ev_type : AgentExecutionEventType;
  ev_data : json;
  ev_executionId : string;
  ev_sequence : Z;
  ev_cursor : string;
  ev_timestamp : Z;
}.

Record AgentExecutionEventBatch := {
  eb_events : list AgentExecutionProviderEvent;
  eb_cursor : option string;
  eb_done : bool;
}.

Record AgentExecutionHandle := { h_sessionId : string; h_runId : string }.

#[export] Instance AgentExecutionHandle_eq_dec : EqDecision AgentExecutionHandle.
Proof. solve_decision. Defined.

Record AgentExecutionWorkspace := {
  ws_id : string;
  ws_source : jsval;
  ws_writable : bool;
  ws_metadata : json;
}.

Record AgentExecutionSourceAccess := {
  sa_endpoint : string;
  sa_grantId : string;
  sa_token : string;
  sa_expiresAt : Z;
}.

Record AgentExecutionStartInput := {
  xi_executionId : string;
  xi_task : jsval;
  xi_source : jsval;
  xi_policy : jsval;
  xi_modelAuth : jsval;
}.

Record AgentExecutionArtifact := {
  ar_id : string;
  ar_name : string;
  ar_kind : string;
  ar_storage : string;
  ar_sha256 : string;
  ar_sizeBytes : Z;
  ar_downloadUrl : option string;
  ar_mediaType : option string;
}.

(** The three statuses a provider result may carry. *)
Inductive ProviderResultStatus := rs_completed | rs_failed | rs_cancelled.

Definition result_status (s : ProviderResultStatus) : AgentExecutionStatus :=
  match s with
  | rs_completed => st_completed | rs_failed => st_failed | rs_cancelled => st_cancelled
  end.

Record AgentExecutionProviderResult := {
  pr_status : ProviderResultStatus;
  pr_summary : string;
  pr_changedFiles : list string;
  pr_artifacts : list AgentExecutionArtifact;
  pr_commands : list (string * option Z);
  pr_tests : list (string * string);
  pr_errors : list (string * string);
  pr_evidence : list (string * string);
  pr_usage : jsval;
  pr_patch : option AgentExecutionArtifact;
}.

Record AgentExecutionProviderSupport := { sup_supported : bool; sup_reasons : list string }.

(** ** Leases *)

Inductive CleanupStatus := cu_requested | cu_verified | cu_failed.

#[export] Instance CleanupStatus_eq_dec : EqDecision CleanupStatus.
Proof. solve_decision. Defined.

Record AgentExecutionCleanupReceipt := {
  cr_executionId : string;
  cr_sandboxId : string;
  cr_provider : string;
  cr_requestedAt : Z;
  cr_completedAt : option Z;
  cr_status : CleanupStatus;
  cr_finalSandboxStatus : option AgentSandboxStatus;
  cr_error : option (string * string);
}.

Record AgentExecutionLease := {
  l_id : string;
  l_status : AgentExecutionStatus;
  l_provider : string;
  l_request : json;
  l_createdAt : Z;
  l_updatedAt : Z;
  l_expiresAt : Z;
  l_sandbox : option AgentSandboxSession;
  l_workspace : option AgentExecutionWorkspace;
  l_handle : option AgentExecutionHandle;
  l_providerCursor : option string;
  l_seenProviderEventIds : list string;
  l_lastEventSequence : Z;
  l_result : option AgentExecutionProviderResult;
  l_cleanup : option AgentExecutionCleanupReceipt;
  l_failure : option (string * string);
}.

Record AgentExecutionCursorBatch := {
  cb_executionId : string;
  cb_events : list AgentExecutionEvent;
  cb_cursor : string;
  cb_done : bool;
}.

(** Field assignments [lease.f = x]. *)

Definition set_status (x : AgentExecutionStatus) (l : AgentExecutionLease) : AgentExecutionLease :=
  {| l_id := l_id l; l_status := x; l_provider := l_provider l; l_request := l_request l; 
     l_createdAt := l_createdAt l; l_updatedAt := l_updatedAt l; 
     l_expiresAt := l_expiresAt l; l_sandbox := l_sandbox l; l_workspace := l_workspace l; 
     l_handle := l_handle l; l_providerCursor := l_providerCursor l; 
     l_seenProviderEventIds := l_seenProviderEventIds l; 
     l_lastEventSequence := l_lastEventSequence l; l_result := l_result l; 
     l_cleanup := l_cleanup l; l_failure := l_failure l |}.

Definition set_updatedAt (x : Z) (l : AgentExecutionLease) : AgentExecutionLease :=
  {| l_id := l_id l; l_status := l_status l; l_provider := l_provider l; 
     l_request := l_request l; l_createdAt := l_createdAt l; l_updatedAt := x; 
     l_expiresAt := l_expiresAt l; l_sandbox := l_sandbox l; l_workspace := l_workspace l; 
     l_handle := l_handle l; l_providerCursor := l_providerCursor l; 
     l_seenProviderEventIds := l_seenProviderEventIds l; 
     l_lastEventSequence := l_lastEventSequence l; l_result := l_result l; 
     l_cleanup := l_cleanup l; l_failure := l_failure l |}.

Definition set_sandbox (x : option AgentSandboxSession) (l : AgentExecutionLease) : AgentExecutionLease :=
  {| l_id := l_id l; l_status := l_status l; l_provider := l_provider l; 
     l_request := l_request l; l_createdAt := l_createdAt l; l_updatedAt := l_updatedAt l; 
     l_expiresAt := l_expiresAt l; l_sandbox := x; l_workspace := l_workspace l; 
     l_handle := l_handle l; l_providerCursor := l_providerCursor l; 
     l_seenProviderEventIds := l_seenProviderEventIds l; 
     l_lastEventSequence := l_lastEventSequence l; l_result := l_result l; 
     l_cleanup := l_cleanup l; l_failure := l_failure l |}.

Definition set_workspace (x : option AgentExecutionWorkspace) (l : AgentExecutionLease) : AgentExecutionLease :=
  {| l_id := l_id l; l_status := l_status l; l_provider := l_provider l; 
     l_request := l_request l; l_createdAt := l_createdAt l; l_updatedAt := l_updatedAt l; 
     l_expiresAt := l_expiresAt l; l_sandbox := l_sandbox l; l_workspace := x; 
     l_handle := l_handle l; l_providerCursor := l_providerCursor l; 
     l_seenProviderEventIds := l_seenProviderEventIds l; 
     l_lastEventSequence := l_lastEventSequence l; l_result := l_result l; 
     l_cleanup := l_cleanup l; l_failure := l_failure l |}.

Definition set_handle (x : option AgentExecutionHandle) (l : AgentExecutionLease) : AgentExecutionLease :=
  {| l_id := l_id l; l_status := l_status l; l_provider := l_provider l; 
     l_request := l_request l; l_createdAt := l_createdAt l; l_updatedAt := l_updatedAt l; 
     l_expiresAt := l_expiresAt l; l_sandbox := l_sandbox l; l_workspace := l_workspace l; 
     l_handle := x; l_providerCursor := l_providerCursor l; 
     l_seenProviderEventIds := l_seenProviderEventIds l; 
     l_lastEventSequence := l_lastEventSequence l; l_result := l_result l; 
     l_cleanup := l_cleanup l; l_failure := l_failure l |}.

Definition set_providerCursor (x : option string) (l : AgentExecutionLease) : AgentExecutionLease :=
  {| l_id := l_id l; l_status := l_status l; l_provider := l_provider l; 
     l_request := l_request l; l_createdAt := l_createdAt l; l_updatedAt := l_updatedAt l; 
     l_expiresAt := l_expiresAt l; l_sandbox := l_sandbox l; l_workspace := l_workspace l; 
     l_handle := l_handle l; l_providerCursor := x; 
     l_seenProviderEventIds := l_seenProviderEventIds l; 
     l_lastEventSequence := l_lastEventSequence l; l_result := l_result l; 
     l_cleanup := l_cleanup l; l_failure := l_failure l |}.

Definition set_seenProviderEventIds (x : list string) (l : AgentExecutionLease) : AgentExecutionLease :=
  {| l_id := l_id l; l_status := l_status l; l_provider := l_provider l; 
     l_request := l_request l; l_createdAt := l_createdAt l; l_updatedAt := l_updatedAt l; 
     l_expiresAt := l_expiresAt l; l_sandbox := l_sandbox l; l_workspace := l_workspace l; 
     l_handle := l_handle l; l_providerCursor := l_providerCursor l; 
     l_seenProviderEventIds := x; l_lastEventSequence := l_lastEventSequence l; 
     l_result := l_result l; l_cleanup := l_cleanup l; l_failure := l_failure l |}.

Definition set_lastEventSequence (x : Z) (l : AgentExecutionLease) : AgentExecutionLease :=
  {| l_id := l_id l; l_status := l_status l; l_provider := l_provider l; 
     l_request := l_request l; l_createdAt := l_createdAt l; l_updatedAt := l_updatedAt l; 
     l_expiresAt := l_expiresAt l; l_sandbox := l_sandbox l; l_workspace := l_workspace l; 
     l_handle := l_handle l; l_providerCursor := l_providerCursor l; 
     l_seenProviderEventIds := l_seenProviderEventIds l; l_lastEventSequence := x; 
     l_result := l_result l; l_cleanup := l_cleanup l; l_failure := l_failure l |}.

Definition set_result (x : option AgentExecutionProviderResult) (l : AgentExecutionLease) : AgentExecutionLease :=
  {| l_id := l_id l; l_status := l_status l; l_provider := l_provider l; 
     l_request := l_request l; l_createdAt := l_createdAt l; l_updatedAt := l_updatedAt l; 
     l_expiresAt := l_expiresAt l; l_sandbox := l_sandbox l; l_workspace := l_workspace l; 
     l_handle := l_handle l; l_providerCursor := l_providerCursor l; 
     l_seenProviderEventIds := l_seenProviderEventIds l; 
     l_lastEventSequence := l_lastEventSequence l; l_result := x; l_cleanup := l_cleanup l; 
     l_failure := l_failure l |}.

Definition set_cleanup (x : option AgentExecutionCleanupReceipt) (l : AgentExecutionLease) : AgentExecutionLease :=
  {| l_id := l_id l; l_status := l_status l; l_provider := l_provider l; 
     l_request := l_request l; l_createdAt := l_createdAt l; l_updatedAt := l_updatedAt l; 
     l_expiresAt := l_expiresAt l; l_sandbox := l_sandbox l; l_workspace := l_workspace l; 
     l_handle := l_handle l; l_providerCursor := l_providerCursor l; 
     l_seenProviderEventIds := l_seenProviderEventIds l; 
     l_lastEventSequence := l_lastEventSequence l; l_result := l_result l; l_cleanup := x; 
     l_failure := l_failure l |}.

Definition set_failure (x : option (string * string)) (l : AgentExecutionLease) : AgentExecutionLease :=
  {| l_id := l_id l; l_status := l_status l; l_provider := l_provider l; 
     l_request := l_request l; l_createdAt := l_createdAt l; l_updatedAt := l_updatedAt l; 
     l_expiresAt := l_expiresAt l; l_sandbox := l_sandbox l; l_workspace := l_workspace l; 
     l_handle := l_handle l; l_providerCursor := l_providerCursor l; 
     l_seenProviderEventIds := l_seenProviderEventIds l; 
     l_lastEventSequence := l_lastEventSequence l; l_result := l_result l; 
     l_cleanup := l_cleanup l; l_failure := x |}.

(** ** The provider interface

    [AgentExecutionProvider]: a sandbox lifecycle and the event transport, over
    the state [W] of the world outside the control plane. *)

Record AgentExecutionProvider (W : Type) := {
  p_id : string;
  p_supports : json → AgentExecutionProviderSupport;
  p_start : AgentSandboxStartInput → M W AgentSandboxSession;
  p_inspect : string → M W AgentSandboxSession;
  p_suspend : string → M W unit;
  p_resume : string → M W AgentSandboxSession;
  p_terminate : string → M W unit;
  p_prepareWorkspace :
    AgentSandboxSession → string → jsval → option AgentExecutionSourceAccess →
    M W AgentExecutionWorkspace;
  p_startExecution : AgentSandboxSession → AgentExecutionStartInput → M W AgentExecutionHandle;
  p_readEvents : AgentExecutionHandle → option string → option Z → M W AgentExecutionEventBatch;
  p_resolveApproval : AgentExecutionHandle → json → M W unit;
  p_submitInput : AgentExecutionHandle → json → M W unit;
  p_steer : AgentExecutionHandle → string → M W unit;
  p_collectResult : AgentExecutionHandle → M W AgentExecutionProviderResult;
}.
Arguments p_id {W} _.
Arguments p_supports {W} _ _.
Arguments p_start {W} _ _.
Arguments p_inspect {W} _ _.
Arguments p_suspend {W} _ _.
Arguments p_resume {W} _ _.
Arguments p_terminate {W} _ _.
Arguments p_prepareWorkspace {W} _ _ _ _ _.
Arguments p_startExecution {W} _ _ _.
Arguments p_readEvents {W} _ _ _ _.
Arguments p_resolveApproval {W} _ _ _.
Arguments p_submitInput {W} _ _ _.
Arguments p_steer {W} _ _ _.
Arguments p_collectResult {W} _ _.

(** An [Error] with a code, and its code and message as the code reads them:
    [errorCode(error, fallback)] and [errorMessage(error)]. *)
Definition coded_error (code message : string) (details : list (string * string)) : JsError :=
  MkError (Some code) message details.

Definition plain_error (message : string) : JsError := MkError None message [].

Definition errorCode (e : JsError) (fallback : string) : string := default fallback (err_code e).

Definition errorMessage (e : JsError) : string := err_message e.
