(* ===== verification/ExecStore.v ===== *)
(** * Execution control plane: the store

    [mezair-cloud/packages/control-plane/src/execution-store.ts]: the store
    interface as a class with its laws, and the in-memory store as its instance.  The
    JSON file store, which writes the same state as text and reads it back, is not
    modelled. *)

From stdpp Require Import base list strings sorting.
From Stdlib Require Import ZArith.
From S2P Require Import Prelude JsString JsValue ExecTypes.

(** ** The interface *)

Class AgentExecutionStore (S : Type) := {
  store_get : string → S → option AgentExecutionLease;
  store_findByClientToken : string → S → option AgentExecutionLease;
  store_list : S → list AgentExecutionLease;
  store_put : AgentExecutionLease → S → S;
  store_appendEvents : string → list AgentExecutionEvent → S → S;
  store_events : string → Z → S → list AgentExecutionEvent;
}.

(** [lease.request.clientToken === token]. *)
Definition has_token (token : string) (l : AgentExecutionLease) : bool :=
  is_str token (prop "clientToken" (Some (l_request l))).

(** Newest first: [b.createdAt.localeCompare(a.createdAt) <= 0]. *)
Definition newer_first (a b : AgentExecutionLease) : bool := l_createdAt b <=? l_createdAt a.

(** The events after a sequence number. *)
Definition after (seq : Z) (es : list AgentExecutionEvent) : list AgentExecutionEvent :=
  List.filter (λ e, seq <? ev_sequence e) es.

(** What the control plane relies on.  [store_log] is the whole event log of an
    execution; [store_wf] is the store's own invariant. *)
Class AgentExecutionStoreLaws (S : Type) `{AgentExecutionStore S} := {
  store_wf : S → Prop;
  store_log : string → S → list AgentExecutionEvent;
  store_put_wf l s : store_wf s → store_wf (store_put l s);
  store_append_wf id es s : store_wf s → store_wf (store_appendEvents id es s);
  store_get_put id l s :
    store_get id (store_put l s) = if String.eqb id (l_id l) then Some l else store_get id s;
  store_get_append id id' es s : store_get id (store_appendEvents id' es s) = store_get id s;
  store_get_id id s l : store_wf s → store_get id s = Some l → l_id l = id;
  store_log_put id l s : store_log id (store_put l s) = store_log id s;
  store_log_append id id' es s :
    store_log id (store_appendEvents id' es s) =
    if String.eqb id id' then store_log id s ++ es else store_log id s;
  store_events_after id n s : store_events id n s = after n (store_log id s);
  store_find_some t s l :
    store_wf s → store_findByClientToken t s = Some l →
    store_get (l_id l) s = Some l ∧ has_token t l = true;
  store_find_none t s id l :
    store_wf s → store_findByClientToken t s = None → store_get id s = Some l → has_token t l = false;
  store_list_elem s l : store_wf s → l ∈ store_list s ↔ store_get (l_id l) s = Some l;
  store_list_nodup s : store_wf s → NoDup (l_id <$> store_list s);
  store_list_sorted s : StronglySorted (λ a b, newer_first a b = true) (store_list s);
}.

(** ** [InMemoryAgentExecutionStore] *)

Record ExecutionStoreState := {
  leases : list (string * AgentExecutionLease);
  events : list (string * list AgentExecutionEvent);
}.

Definition emptyState : ExecutionStoreState := {| leases := []; events := [] |}.

Module InMemory.
Definition get (executionId : string) (s : ExecutionStoreState) : option AgentExecutionLease :=
  assoc_get executionId (leases s).

Definition findByClientToken (clientToken : string) (s : ExecutionStoreState) :
    option AgentExecutionLease :=
  find_first (has_token clientToken) (leases s).*2.

Definition list (s : ExecutionStoreState) : list AgentExecutionLease :=
  sort_by newer_first (leases s).*2.

Definition put (lease : AgentExecutionLease) (s : ExecutionStoreState) : ExecutionStoreState :=
  {| leases := assoc_set (l_id lease) lease (leases s); events := events s |}.

Definition log (executionId : string) (s : ExecutionStoreState) : Datatypes.list AgentExecutionEvent :=
  default [] (assoc_get executionId (events s)).

Definition appendEvents (executionId : string) (es : Datatypes.list AgentExecutionEvent)
    (s : ExecutionStoreState) : ExecutionStoreState :=
  {| leases := leases s; events := assoc_set executionId (log executionId s ++ es) (events s) |}.

Definition events_after (executionId : string) (afterSequence : Z) (s : ExecutionStoreState) :
    Datatypes.list AgentExecutionEvent :=
  after afterSequence (log executionId s).
End InMemory.

#[export] Instance InMemory_store : AgentExecutionStore ExecutionStoreState := {|
  store_get := InMemory.get;
  store_findByClientToken := InMemory.findByClientToken;
  store_list := InMemory.list;
  store_put := InMemory.put;
  store_appendEvents := InMemory.appendEvents;
  store_events := InMemory.events_after;
|}.

(** Each lease is stored once, under its own id. *)
Definition keyed (s : ExecutionStoreState) : Prop :=
  NoDup (leases s).*1 ∧ ∀ id l, (id, l) ∈ leases s → l_id l = id.

Lemma emptyState_keyed : keyed emptyState.
Proof. split; [constructor|]. by intros id l ?%elem_of_nil. Qed.

Lemma assoc_set_elem {V} k (v : V) m k' v' :
  (k', v') ∈ assoc_set k v m → (k' = k ∧ v' = v) ∨ (k', v') ∈ m.
Proof.
  induction m as [|[k0 v0] m IH]; cbn.
  - intros H%list_elem_of_singleton. left. by simplify_eq.
  - destruct (String.eqb_spec k k0) as [->|]; intros [H|H]%elem_of_cons; simplify_eq; auto.
    + right. by right.
    + right. left.
    + destruct (IH H) as [?|?]; [auto|right; by right].
Qed.

Lemma keyed_put l s : keyed s → keyed (InMemory.put l s).
Proof.
  intros [Hnd Hk]. split; cbn; [by apply assoc_set_NoDup|].
  intros id l' [[-> ->]|?]%assoc_set_elem; [done|by apply Hk].
Qed.

Lemma keyed_get s l : keyed s → l ∈ (leases s).*2 ↔ InMemory.get (l_id l) s = Some l.
Proof.
  intros [Hnd Hk]. rewrite list_elem_of_fmap. unfold InMemory.get. split.
  - intros ([id l'] & -> & Hin). cbn. rewrite (Hk id l' Hin). by apply assoc_elem_get.
  - intros Hg%assoc_get_elem. by exists (l_id l, l).
Qed.

Lemma keyed_ids s : keyed s → l_id <$> (leases s).*2 = (leases s).*1.
Proof.
  intros [_ Hk]. rewrite <- list_fmap_compose. apply list_fmap_ext.
  intros i [id l] Hl%list_elem_of_lookup_2. cbn. by apply Hk.
Qed.

#[export] Program Instance InMemory_laws : AgentExecutionStoreLaws ExecutionStoreState := {|
  store_wf := keyed;
  store_log := InMemory.log;
|}.
Next Obligation. intros. by apply keyed_put. Qed.
Next Obligation. done. Qed.
Next Obligation. intros. apply assoc_get_set. Qed.
Next Obligation. done. Qed.
Next Obligation. intros id s l [_ Hk] H%assoc_get_elem. by apply Hk. Qed.
Next Obligation. done. Qed.
Next Obligation.
  intros. cbn. unfold InMemory.log at 1, InMemory.appendEvents. cbn. rewrite assoc_get_set.
  by destruct (String.eqb_spec id id') as [->|].
Qed.
Next Obligation. done. Qed.
Next Obligation.
  intros t s l Hwf [H ?]%find_first_Some. split; [|done]. by apply keyed_get.
Qed.
Next Obligation.
  intros t s id l Hwf Hn Hg. eapply find_first_None; [exact Hn|].
  apply list_elem_of_fmap. exists (id, l). split; [done|]. by apply assoc_get_elem.
Qed.
Next Obligation.
  intros s l Hwf. cbn. unfold InMemory.list. rewrite elem_of_sort_by. by apply keyed_get.
Qed.
Next Obligation.
  intros s Hwf. cbn. unfold InMemory.list. rewrite sort_by_Permutation, keyed_ids by done.
  by apply Hwf.
Qed.
Next Obligation.
  intros s. apply sort_by_sorted; unfold newer_first; intros *; rewrite ?Z.leb_le, ?Z.leb_gt; lia.
Qed.
