(* ===== verification/ExecValidate.v ===== *)
(** * Execution control plane: request validation

    [validateExecutionRequest] and the predicates it uses
    ([mezair-cloud/packages/control-plane/src/execution.ts]), over the JSON value
    the control plane receives. *)

From stdpp Require Import base list strings.
From Stdlib Require Import ZArith Ascii.
From S2P Require Import Prelude JsString JsValue ExecTypes.

(** The parts of a WHATWG [URL] object the code reads; parsing is the host's. *)
Record Url := {
  url_protocol : string;
  url_username : string;
  url_password : string;
  url_search : string;
  url_hash : string;
}.

(** ** Regular expressions and small predicates *)

Definition is_hex (c : ascii) : bool := is_digit c || in_range 97 102 c || in_range 65 70 c.

(** [/^[a-f0-9]{lo,hi}$/i.test(v)]: the argument is coerced to a string. *)
Definition hex_between (lo hi : Z) (v : jsval) : bool :=
  let s := to_js_string v in
  (lo <=? slen s) && (slen s <=? hi) && forallb is_hex (chars s).

Definition is_alnum (c : ascii) : bool := is_digit c || is_upper c || is_lower c.

(** [/^[A-Z][A-Z0-9_]*$/]. *)
Definition credential_name (s : string) : bool :=
  match chars s with
  | c :: l => is_upper c && forallb (λ c, is_upper c || is_digit c || is_char 95 c) l
  | [] => false
  end.

(** [/^[A-Za-z0-9][A-Za-z0-9._:-]{0,199}$/] on strings. *)
Definition isOpaqueId (v : jsval) : bool :=
  match v with
  | Some (JStr s) =>
      match chars s with
      | c :: l =>
          is_alnum c && (Z.of_nat (length l) <=? 199) &&
          forallb (λ c, is_alnum c || is_char 46 c || is_char 95 c || is_char 58 c || is_char 45 c) l
      | [] => false
      end
  | _ => false
  end.

Definition isSafeRelativePath (v : jsval) : bool :=
  match v with
  | Some (JStr s) =>
      if (slen s =? 0) || includes backslash s then false
      else negb (startsWith "/" s) && negb (existsb (String.eqb "..") (split "/"%char s))
  | _ => false
  end.

(** [typeof v !== "string" || v.trim().length === 0 || v.length > max], negated. *)
Definition text_within (max : Z) (v : jsval) : bool :=
  match v with
  | Some (JStr s) => negb (blank s) && (slen s <=? max)
  | _ => false
  end.

(** A safe integer within bounds. *)
Definition integer_within (lo hi : Z) (v : jsval) : bool :=
  match safe_integer_of v with Some z => (lo <=? z) && (z <=? hi) | None => false end.

(** [Number.isSafeInteger(v) && v > 0]. *)
Definition positive_integer (v : jsval) : bool :=
  match safe_integer_of v with Some z => 0 <? z | None => false end.

Definition all_strings (v : json) : bool :=
  match v with JStr _ => true | _ => false end.

Definition isNetworkPolicy (v : jsval) : bool :=
  if is_str "none" v || is_str "restricted" v then true
  else if negb (isObject v) then false
  else forallb (λ entries,
         match entries with
         | None => true
         | Some (JArr l) => forallb all_strings l
         | Some _ => false
         end) [prop "allow" v; prop "deny" v].

(** [[...(entries ?? [])].sort()] for an array of strings. *)
Definition sorted_entries (v : jsval) : list string :=
  match v with
  | Some (JArr l) => sort_by str_leb (omap (λ j, match j with JStr s => Some s | _ => None end) l)
  | _ => []
  end.

Definition stableNetworkPolicy (policy : jsval) : string :=
  match policy with
  | Some (JStr s) => s
  | _ =>
      JSON_stringify (JObj [("allow", JArr (JStr <$> sorted_entries (prop "allow" policy)));
                            ("deny", JArr (JStr <$> sorted_entries (prop "deny" policy)))])
  end.

Section Validate.
Context (parse_url : string → option Url).

Definition isCredentialFreeHttpsUrl (v : jsval) : bool :=
  match v with
  | Some (JStr s) =>
      match parse_url s with
      | Some url =>
          String.eqb (url_protocol url) "https:" && String.eqb (url_username url) "" &&
          String.eqb (url_password url) "" && String.eqb (url_search url) "" &&
          String.eqb (url_hash url) ""
      | None => false
      end
  | _ => false
  end.

Definition requiredExclusions : list string :=
  ["git-metadata"; "ignored-files"; "secret-files"; "unrelated-untracked-files"].

(** [if (bad) errors.push(message)]. *)
Definition reject_if (bad : bool) (message : string) : list string :=
  if bad then [message] else [].

Definition array_items (v : jsval) : list json :=
  match v with Some (JArr l) => l | _ => [] end.

Definition policy_errors (request : json) : list string :=
  let at' ks := path ks request in
  reject_if (negb (is_str "read-only" (at' ["policy"; "mode"])) &&
             negb (is_str "read-write" (at' ["policy"; "mode"])))
    "mode must be read-only or read-write" ++
  reject_if (negb (integer_within 60 28800 (at' ["policy"; "ttlSeconds"])))
    "ttlSeconds must be between 60 and 28800" ++
  reject_if (negb (is_undefined (at' ["policy"; "maxEvents"])) &&
             negb (integer_within 1 100000 (at' ["policy"; "maxEvents"])))
    "maxEvents must be an integer between 1 and 100000" ++
  reject_if (match at' ["policy"; "maxCostUsd"] with
             | None => false
             | Some (JNum n) => negb (isFinite n) || num_leb n (int 0)
             | Some _ => true
             end)
    "maxCostUsd must be a positive number" ++
  reject_if (negb (is_bool (at' ["policy"; "requireApprovalForExternalActions"])))
    "requireApprovalForExternalActions must be a boolean" ++
  reject_if (is_str "read-write" (at' ["policy"; "mode"]) &&
             negb (is_str "read-write" (at' ["agent"; "capabilities"; "filesystem"])))
    "read-write execution requires agent filesystem read-write capability" ++
  reject_if (negb (isNetworkPolicy (at' ["policy"; "network"])))
    "execution network policy is invalid" ++
  reject_if (negb (isNetworkPolicy (at' ["agent"; "capabilities"; "network"])))
    "agent manifest network capability is invalid" ++
  reject_if (isNetworkPolicy (at' ["policy"; "network"]) &&
             isNetworkPolicy (at' ["agent"; "capabilities"; "network"]) &&
             negb (String.eqb (stableNetworkPolicy (at' ["policy"; "network"]))
                              (stableNetworkPolicy (at' ["agent"; "capabilities"; "network"]))))
    "execution network policy must match the agent manifest".

Definition identity_errors (request : json) : list string :=
  let at' ks := path ks request in
  reject_if (negb (is_str "0.1" (at' ["schemaVersion"]))) "schemaVersion must be 0.1" ++
  reject_if (negb (text_within 200 (at' ["clientToken"])))
    "clientToken must contain between 1 and 200 characters" ++
  reject_if (negb (text_within 200 (at' ["cell"])))
    "cell must contain between 1 and 200 characters" ++
  reject_if (negb (text_within 200 (at' ["workspace"])))
    "workspace must contain between 1 and 200 characters" ++
  reject_if (negb (text_within 200 (at' ["environment"])))
    "environment must contain between 1 and 200 characters" ++
  reject_if (negb (text_within 100000 (at' ["task"])))
    "task must contain between 1 and 100000 characters" ++
  reject_if (negb (text_within 200 (at' ["agent"; "name"])))
    "agent manifest name must contain between 1 and 200 characters" ++
  reject_if (negb (existsb (λ s, is_str s (at' ["agent"; "capabilities"; "filesystem"]))
                     ["none"; "read"; "read-write"]))
    "agent manifest filesystem capability is invalid".

Definition auth_errors (request : json) : list string :=
  let at' ks := path ks request in
  (if is_str "control-plane" (at' ["modelAuth"; "kind"]) then
     reject_if (match at' ["modelAuth"; "credential"] with
                | Some (JStr s) => (200 <? slen s) || negb (credential_name s)
                | _ => true
                end)
       "modelAuth credential must be a control-plane credential name"
   else if is_str "provider-subscription" (at' ["modelAuth"; "kind"]) then
     reject_if ((negb (is_str "codex" (at' ["modelAuth"; "provider"])) &&
                 negb (is_str "cursor" (at' ["modelAuth"; "provider"]))) ||
                negb (is_str "sandbox-session" (at' ["modelAuth"; "persistence"])))
       "provider subscription auth must use codex or cursor with sandbox-session persistence"
   else ["modelAuth kind must be control-plane or provider-subscription"]) ++
  (if negb (is_str "auto" (at' ["providerPreference"; "kind"])) &&
      negb (is_str "provider" (at' ["providerPreference"; "kind"]))
   then ["providerPreference kind must be auto or provider"]
   else reject_if (is_str "provider" (at' ["providerPreference"; "kind"]) &&
                   negb (text_within 200 (at' ["providerPreference"; "provider"])))
          "providerPreference provider must not be empty").

Definition selection_errors (request : json) : list string :=
  let excluded := array_items (path ["source"; "selection"; "excluded"] request) in
  flat_map (λ required,
    reject_if (negb (existsb (λ e, is_str required (Some e)) excluded))
      ("source selection must exclude " +:+ required)) requiredExclusions ++
  reject_if (existsb (λ e, negb (existsb (λ r, is_str r (Some e)) requiredExclusions)) excluded)
    "source selection contains an unknown exclusion" ++
  reject_if (negb (is_bool (path ["source"; "selection"; "includesWorkingTreePatch"] request)))
    "source selection working-tree patch flag must be a boolean".

Definition source_errors (request : json) : list string :=
  let at' ks := path ("source" :: ks) request in
  let flag := at' ["selection"; "includesWorkingTreePatch"] in
  if is_str "git" (at' ["kind"]) then
    reject_if (negb (isCredentialFreeHttpsUrl (at' ["repository"])))
      "git source must use a credential-free HTTPS repository URL" ++
    reject_if (negb (hex_between 7 64 (at' ["commit"])))
      "git source commit must be an immutable hexadecimal revision" ++
    reject_if (truthy flag) "git source cannot include a working-tree patch" ++
    reject_if (negb (is_undefined (at' ["subdirectory"])) &&
               negb (isSafeRelativePath (at' ["subdirectory"])))
      "git source subdirectory must be a safe relative path"
  else if is_str "snapshot" (at' ["kind"]) then
    reject_if (negb (isOpaqueId (at' ["snapshotId"]))) "snapshotId must be an opaque identifier" ++
    reject_if (negb (hex_between 64 64 (at' ["sha256"])))
      "snapshot sha256 must contain 64 hexadecimal characters" ++
    reject_if (negb (positive_integer (at' ["sizeBytes"])))
      "snapshot sizeBytes must be a positive integer" ++
    reject_if (negb (hex_between 7 64 (at' ["baseCommit"])))
      "snapshot baseCommit must be a hexadecimal revision" ++
    reject_if (negb (is_undefined (at' ["repository"])) &&
               negb (isCredentialFreeHttpsUrl (at' ["repository"])))
      "snapshot repository must use a credential-free HTTPS repository URL" ++
    reject_if (match flag with
               | Some (JBool b) => negb (Bool.eqb b (negb (is_undefined (at' ["patch"]))))
               | _ => true
               end)
      "snapshot working-tree patch flag must match the patch reference" ++
    (if truthy (at' ["patch"]) then
       reject_if (negb (isOpaqueId (at' ["patch"; "artifactId"])))
         "snapshot patch artifactId must be an opaque identifier" ++
       reject_if (negb (hex_between 64 64 (at' ["patch"; "sha256"])))
         "snapshot patch sha256 must contain 64 hexadecimal characters" ++
       reject_if (negb (positive_integer (at' ["patch"; "sizeBytes"])))
         "snapshot patch sizeBytes must be a positive integer"
     else [])
  else ["source kind must be git or snapshot"].

(** The shape tested before anything is read. *)
Definition request_shape (request : json) : bool :=
  isObject (Some request) && isObject (path ["policy"] request) &&
  isObject (path ["agent"] request) && isObject (path ["agent"; "capabilities"] request) &&
  isObject (path ["source"] request) && isObject (path ["source"; "selection"] request) &&
  isArray (path ["source"; "selection"; "excluded"] request) &&
  isObject (path ["providerPreference"] request) && isObject (path ["modelAuth"] request).

Definition request_errors (request : json) : list string :=
  identity_errors request ++ policy_errors request ++ auth_errors request ++
  selection_errors request ++ source_errors request.

Definition invalid_request (message : string) (errors : list string) : JsError :=
  coded_error "EXECUTION_INVALID_REQUEST" message ((λ e, ("errors", e)) <$> errors).

Definition validateExecutionRequest (request : json) : outcome unit :=
  if negb (request_shape request) then
    Throw (invalid_request
      "Invalid execution request: request, policy, agent, source, source selection, providerPreference, and modelAuth must use the execution schema." [])
  else
    match request_errors request with
    | [] => Ok tt
    | errors =>
        Throw (invalid_request ("Invalid execution request: " +:+ join "; " errors +:+ ".") errors)
    end.
End Validate.
