(* ===== verification/ExecControlPlane.v ===== *)
(** * Execution control plane: operations

    [AgentExecutionControlPlane] of
    [mezair-cloud/packages/control-plane/src/execution.ts].  A public method is a
    computation over a [World] (the store and everything outside); the private
    methods that mutate a lease object run over a [Frame], which adds that lease. *)

From stdpp Require Import base list strings pretty.
From Stdlib Require Import ZArith Ascii.
From S2P Require Import Prelude JsString JsValue ExecTypes ExecStore ExecValidate.

(** [AgentExecutionControlPlaneOptions], with the URL parser of the host. *)
Record ControlPlane (W : Type) := {
  cp_providers : list (string * AgentExecutionProvider W);
  cp_sourceBroker :
    option (string → jsval → jsval → Z → M W (option AgentExecutionSourceAccess));
  cp_idFactory : W → string * W;
  cp_now : W → Z * W;
  cp_parse_url : string → option Url;
}.
Arguments cp_providers {W} _.
Arguments cp_sourceBroker {W} _.
Arguments cp_idFactory {W} _ _.
Arguments cp_now {W} _ _.
Arguments cp_parse_url {W} _ _.

(** [new Map(providers.map((provider) => [provider.id, provider]))]. *)
Definition provider_map {W} (ps : list (AgentExecutionProvider W)) :
    list (string * AgentExecutionProvider W) :=
  foldl (λ m p, assoc_set (p_id p) p m) [] ps.

(** ** Pure helpers *)

Definition isTerminal (status : AgentExecutionStatus) : bool :=
  bool_decide (status ∈ [st_completed; st_failed; st_cancelled; st_expired]).

Definition status_after (s : AgentExecutionStatus) (event : AgentExecutionProviderEvent) :
    AgentExecutionStatus :=
  match pe_type event with
  | execution_started | approval_resolved | input_submitted | sandbox_resumed => st_running
  | approval_requested => st_waiting_for_approval
  | input_requested => st_waiting_for_input
  | sandbox_suspended => st_suspended
  | execution_completed => st_completed
  | execution_failed => st_failed
  | execution_cancelled => st_cancelled
  | _ => s
  end.

Definition updateStatusFromEvents (lease : AgentExecutionLease)
    (events : list AgentExecutionProviderEvent) : AgentExecutionLease :=
  set_status (foldl status_after (l_status lease) events) lease.

Definition latestEstimatedCost (events : list AgentExecutionProviderEvent) : option num :=
  foldl (λ latest event,
    match bool_decide (pe_type event = usage_updated), prop "estimatedCostUsd" (Some (pe_data event)) with
    | true, Some (JNum value) => Some value
    | _, _ => latest
    end) None events.

Definition parseCursor (cursor : option string) : outcome Z :=
  match cursor with
  | None => Ok 0
  | Some c =>
      if String.eqb c "" then Ok 0
      else match safe_integer (string_to_num c) with
           | Some value =>
               if value <? 0
               then Throw (coded_error "EXECUTION_INVALID_CURSOR"
                             ("Execution cursor '" +:+ c +:+ "' is invalid.") [("cursor", c)])
               else Ok value
           | None => Throw (coded_error "EXECUTION_INVALID_CURSOR"
                              ("Execution cursor '" +:+ c +:+ "' is invalid.") [("cursor", c)])
           end
  end.

Definition is_id_char (c : ascii) : bool :=
  is_lower c || is_digit c || is_char 95 c || is_char 45 c.

(** [trimBoundaryCharacter(value.toLowerCase().replace(/[^a-z0-9_-]+/g, "-"), "-")]. *)
Definition sanitizeId (value : string) : string :=
  trim_class (is_char 45) (replace_runs (λ c, negb (is_id_char c)) "-"%char (toLowerCase value)).

Definition sourceIdentity (request : json) : jsval :=
  if is_str "snapshot" (path ["source"; "kind"] request) then path ["source"; "snapshotId"] request
  else Some (JStr (to_js_string (path ["source"; "repository"] request) +:+ "#" +:+
                   to_js_string (path ["source"; "commit"] request))).

(** Fields of a validated request. *)
Definition req_string (ks : list string) (request : json) : string :=
  match path ks request with Some (JStr s) => s | v => to_js_string v end.

Definition policy_ttlSeconds (request : json) : Z :=
  default 0 (safe_integer_of (path ["policy"; "ttlSeconds"] request)).

Definition policy_maxEvents (request : json) : option Z :=
  safe_integer_of (path ["policy"; "maxEvents"] request).

Definition policy_maxCostUsd (request : json) : option num :=
  match path ["policy"; "maxCostUsd"] request with Some (JNum n) => Some n | _ => None end.

Definition failure_json (f : string * string) : json :=
  JObj [("code", JStr f.1); ("message", JStr f.2)].

Definition sandbox_status_string (s : AgentSandboxStatus) : string :=
  match s with
  | sb_starting => "starting" | sb_active => "active" | sb_waiting_for_approval => "waiting-for-approval"
  | sb_suspended => "suspended" | sb_terminating => "terminating" | sb_terminated => "terminated"
  | sb_expired => "expired" | sb_failed => "failed"
  end.

Definition cleanup_status_string (s : CleanupStatus) : string :=
  match s with cu_requested => "requested" | cu_verified => "verified" | cu_failed => "failed" end.

(** A receipt as event data. *)
Definition receipt_json (r : AgentExecutionCleanupReceipt) : json :=
  JObj ([("executionId", JStr (cr_executionId r)); ("sandboxId", JStr (cr_sandboxId r));
         ("provider", JStr (cr_provider r)); ("requestedAt", JNum (int (cr_requestedAt r)));
         ("status", JStr (cleanup_status_string (cr_status r)))] ++
        match cr_completedAt r with Some t => [("completedAt", JNum (int t))] | None => [] end ++
        match cr_finalSandboxStatus r with
        | Some s => [("finalSandboxStatus", JStr (sandbox_status_string s))] | None => [] end ++
        match cr_error r with Some f => [("error", failure_json f)] | None => [] end).

Definition invalidState (lease : AgentExecutionLease) (message : string) : JsError :=
  coded_error "EXECUTION_INVALID_STATE" message
    [("executionId", l_id lease); ("status", status_string (l_status lease))].

Definition provider_event (id : string) (type : AgentExecutionEventType) (data : json) :
    AgentExecutionProviderEvent :=
  {| pe_id := id; pe_type := type; pe_timestamp := None; pe_data := data |}.

(** The first candidate that supports the request. *)
Definition selectProvider {W} (cp : ControlPlane W) (request : json) :
    outcome (AgentExecutionProvider W) :=
  let wanted := is_str "provider" (path ["providerPreference"; "kind"] request) in
  let name := req_string ["providerPreference"; "provider"] request in
  let candidates :=
    if wanted then match assoc_get name (cp_providers cp) with Some p => [p] | None => [] end
    else (cp_providers cp).*2 in
  match candidates with
  | [] =>
      Throw (coded_error "EXECUTION_PROVIDER_NOT_FOUND"
        (if wanted then "Execution provider '" +:+ name +:+ "' is not registered."
         else "No execution providers are registered.") [])
  | _ =>
      match find_first (λ p, sup_supported (p_supports p request)) candidates with
      | Some p => Ok p
      | None =>
          Throw (coded_error "EXECUTION_PROVIDER_UNSUPPORTED"
            "No selected execution provider supports this request."
            ((λ p, (p_id p, join ", " (sup_reasons (p_supports p request)))) <$> candidates))
      end
  end.

(** ** Worlds and frames *)

Record World (S W : Type) := MkWorld { w_store : S; w_ext : W }.
Arguments MkWorld {S W} _ _.
Arguments w_store {S W} _.
Arguments w_ext {S W} _.

Record Frame (S W : Type) := MkFrame { fr_lease : AgentExecutionLease; fr_world : World S W }.
Arguments MkFrame {S W} _ _.
Arguments fr_lease {S W} _.
Arguments fr_world {S W} _.

Section Operations.
Context {S W : Type} `{AgentExecutionStore S} (cp : ControlPlane W).

(** A call to the outside. *)
Definition ext {A} (m : M W A) : M (World S W) A := λ w,
  let '(o, e) := m (w_ext w) in (o, MkWorld (w_store w) e).

Definition now : M (World S W) Z := ext (λ e, let '(t, e') := cp_now cp e in (Ok t, e')).

Definition newId : M (World S W) string :=
  ext (λ e, let '(i, e') := cp_idFactory cp e in (Ok i, e')).

Definition store_modify (f : S → S) : M (World S W) unit :=
  modify (λ w, MkWorld (f (w_store w)) (w_ext w)).

Definition in_world {A} (m : M (World S W) A) : M (Frame S W) A := λ f,
  let '(o, w) := m (fr_world f) in (o, MkFrame (fr_lease f) w).

(** Run a method body on a lease object, which is local to the call. *)
Definition with_lease {A} (lease : AgentExecutionLease) (m : M (Frame S W) A) :
    M (World S W) A := λ w,
  let '(o, f) := m (MkFrame lease w) in (o, fr_world f).

Definition lease : M (Frame S W) AgentExecutionLease := gets fr_lease.
Definition assign (f : AgentExecutionLease → AgentExecutionLease) : M (Frame S W) unit :=
  modify (λ fr, MkFrame (f (fr_lease fr)) (fr_world fr)).

(** [lease.updatedAt = this.now().toISOString()]. *)
Definition touch : M (Frame S W) unit := t ← in_world now; assign (set_updatedAt t).

(** [await this.store.put(lease)]. *)
Definition put_lease : M (Frame S W) unit :=
  l ← lease; in_world (store_modify (store_put l)).

(** ** Private methods *)

Definition normalize_event (event : AgentExecutionProviderEvent) :
    M (Frame S W) AgentExecutionEvent :=
  assign (λ l, set_lastEventSequence (l_lastEventSequence l + 1) l) ;;
  l ← lease;
  timestamp ← match pe_timestamp event with Some t => mret t | None => in_world now end;
  mret {| ev_id := pe_id event; ev_type := pe_type event; ev_data := pe_data event;
          ev_executionId := l_id l; ev_sequence := l_lastEventSequence l;
          ev_cursor := int_to_string (l_lastEventSequence l); ev_timestamp := timestamp |}.

Definition appendEvents (events : list AgentExecutionProviderEvent) : M (Frame S W) unit :=
  normalized ← map_M normalize_event events;
  l ← lease;
  in_world (store_modify (store_appendEvents (l_id l) normalized)).

(** Terminate the sandbox and record what became of it; never throws. *)
Definition cleanup (provider : AgentExecutionProvider W) (executionId : string)
    (sandbox : AgentSandboxSession) : M (World S W) AgentExecutionCleanupReceipt :=
  requestedAt ← now;
  let receipt completedAt status final error :=
    {| cr_executionId := executionId; cr_sandboxId := ss_id sandbox;
       cr_provider := p_id provider; cr_requestedAt := requestedAt;
       cr_completedAt := completedAt; cr_status := status;
       cr_finalSandboxStatus := final; cr_error := error |} in
  try_catch
    (ext (p_terminate provider (ss_id sandbox)) ;;
     inspected ← ext (p_inspect provider (ss_id sandbox));
     completedAt ← now;
     mret (receipt (Some completedAt)
             (if bool_decide (ss_status inspected = sb_terminated)
                 || bool_decide (ss_status inspected = sb_expired)
              then cu_verified else cu_requested)
             (Some (ss_status inspected)) None))
    (λ error, mret (receipt None cu_failed None
                 (Some (errorCode error "EXECUTION_CLEANUP_FAILED", errorMessage error)))).

Definition providerFor (l : AgentExecutionLease) : outcome (AgentExecutionProvider W) :=
  match assoc_get (l_provider l) (cp_providers cp) with
  | Some p => Ok p
  | None => Throw (coded_error "EXECUTION_PROVIDER_NOT_FOUND"
              ("Execution provider '" +:+ l_provider l +:+ "' is not registered.")
              [("executionId", l_id l)])
  end.

(** [lease.cleanup = await this.cleanup(provider, lease)]. *)
Definition assign_cleanup (provider : AgentExecutionProvider W) (sandbox : AgentSandboxSession) :
    M (Frame S W) unit :=
  l ← lease;
  receipt ← in_world (cleanup provider (l_id l) sandbox);
  assign (set_cleanup (Some receipt)).

Definition failForPolicy (code message : string) (force : bool) : M (Frame S W) unit :=
  l ← lease;
  if isTerminal (l_status l) && negb force then mret tt
  else
    assign (set_status st_failed) ;;
    assign (set_failure (Some (code, message))) ;;
    touch ;;
    match l_sandbox l, l_cleanup l with
    | Some sandbox, None =>
        provider ← from_outcome (providerFor l);
        assign_cleanup provider sandbox
    | _, _ => mret tt
    end ;;
    l' ← lease;
    appendEvents [provider_event
      (l_id l' +:+ ":policy-failed:" +:+ int_to_string (l_lastEventSequence l' + 1))
      execution_failed (failure_json (code, message))].

Definition event_budget_message (maxEvents : Z) : string :=
  "Execution exceeded its " +:+ int_to_string maxEvents +:+ " provider-event limit.".

Definition is_seen (l : AgentExecutionLease) (event : AgentExecutionProviderEvent) : bool :=
  bool_decide (pe_id event ∈ l_seenProviderEventIds l).

(** Record the unseen events of a batch and the provider's cursor. *)
Definition record_unseen (unseen : list AgentExecutionProviderEvent) (cursor : option string) :
    M (Frame S W) unit :=
  (match unseen with
   | [] => mret tt
   | _ =>
       appendEvents unseen ;;
       assign (λ l, set_seenProviderEventIds (l_seenProviderEventIds l ++ (pe_id <$> unseen)) l) ;;
       assign (λ l, updateStatusFromEvents l unseen)
   end) ;;
  (match cursor with Some c => assign (set_providerCursor (Some c)) | None => mret tt end) ;;
  touch.

(** [limit] for the provider, given what is left of the event budget. *)
Definition provider_limit (remaining limit : option Z) : option Z :=
  match remaining, limit with
  | None, _ => limit
  | Some r, None => Some r
  | Some r, Some n => Some (Z.min n r)
  end.

Definition remaining_events (l : AgentExecutionLease) : option Z :=
  (λ m, Z.max 0 (m - Z.of_nat (length (l_seenProviderEventIds l)))) <$> policy_maxEvents (l_request l).

(** The policy checks at the end of a pull. *)
Definition enforce_budgets (l : AgentExecutionLease) (exceeded : bool)
    (unseen : list AgentExecutionProviderEvent) : M (Frame S W) unit :=
  if exceeded then
    failForPolicy "EXECUTION_EVENT_BUDGET_EXCEEDED"
      (event_budget_message (default 0 (policy_maxEvents (l_request l)))) true
  else
    match policy_maxCostUsd (l_request l), latestEstimatedCost unseen with
    | Some maxCostUsd, Some cost =>
        if num_ltb maxCostUsd cost then
          failForPolicy "EXECUTION_COST_BUDGET_EXCEEDED"
            ("Execution estimated cost " +:+ num_to_string cost +:+ " USD exceeded its " +:+
             num_to_string maxCostUsd +:+ " USD limit.") true
        else mret tt
    | _, _ => mret tt
    end.

Definition pullProviderEvents (limit : option Z) :
    M (Frame S W) (option AgentExecutionEventBatch) :=
  l ← lease;
  match l_handle l with
  | None => mret None
  | Some handle =>
      let remaining := remaining_events l in
      if bool_decide (remaining = Some 0) then
        failForPolicy "EXECUTION_EVENT_BUDGET_EXCEEDED"
          (event_budget_message (default 0 (policy_maxEvents (l_request l)))) false ;;
        put_lease ;;
        mret (Some {| eb_events := []; eb_cursor := None; eb_done := true |})
      else
        provider ← from_outcome (providerFor l);
        batch ← in_world (ext (p_readEvents provider handle (l_providerCursor l)
                                 (provider_limit remaining limit)));
        let unseen := List.filter (λ e, negb (is_seen l e)) (eb_events batch) in
        let exceeded :=
          match remaining with Some r => r <? Z.of_nat (length unseen) | None => false end in
        let unseen := match remaining with Some r => take (Z.to_nat r) unseen | None => unseen end in
        record_unseen unseen (eb_cursor batch) ;;
        enforce_budgets l exceeded unseen ;;
        put_lease ;;
        mret (Some batch)
  end.

(** ** Public methods *)

Definition getExecution (executionId : string) : M (World S W) AgentExecutionLease :=
  w ← get_state;
  match store_get executionId (w_store w) with
  | Some l => mret l
  | None => throw (coded_error "EXECUTION_NOT_FOUND"
              ("Execution '" +:+ executionId +:+ "' was not found.") [("executionId", executionId)])
  end.

Definition listExecutions : M (World S W) (list AgentExecutionLease) :=
  gets (λ w, store_list (w_store w)).

Definition new_lease (provider : AgentExecutionProvider W) (request : json) (id : string)
    (createdAt : Z) : AgentExecutionLease :=
  {| l_id := "exec_" +:+ sanitizeId id; l_status := st_starting; l_provider := p_id provider;
     l_request := request; l_createdAt := createdAt; l_updatedAt := createdAt;
     l_expiresAt := createdAt + policy_ttlSeconds request * 1000;
     l_sandbox := None; l_workspace := None; l_handle := None; l_providerCursor := None;
     l_seenProviderEventIds := []; l_lastEventSequence := 0;
     l_result := None; l_cleanup := None; l_failure := None |}.

Definition created_event (l : AgentExecutionLease) : AgentExecutionProviderEvent :=
  {| pe_id := l_id l +:+ ":created"; pe_type := execution_created;
     pe_timestamp := Some (l_createdAt l);
     pe_data := JObj [("provider", JStr (l_provider l));
                      ("mode", JStr (req_string ["policy"; "mode"] (l_request l)));
                      ("expiresAt", JNum (int (l_expiresAt l)))] |}.

Definition sandbox_started_event (l : AgentExecutionLease) (sandbox : AgentSandboxSession) :
    AgentExecutionProviderEvent :=
  provider_event (l_id l +:+ ":sandbox-started") sandbox_started
    (JObj [("sandboxId", JStr (ss_id sandbox)); ("provider", JStr (ss_provider sandbox));
           ("expiresAt", JNum (int (default (l_expiresAt l) (ss_expiresAt sandbox))))]).

(** The body of the [try]: sandbox, workspace, run, first pull. *)
Definition start_steps (provider : AgentExecutionProvider W) : M (Frame S W) unit :=
  l ← lease;
  let request := l_request l in
  sandbox ← in_world (ext (p_start provider
    {| si_manifest := default JNull (path ["agent"] request);
       si_cell := path ["cell"] request;
       si_environment := path ["environment"] request;
       si_snapshot := sourceIdentity request;
       si_credentialBroker := path ["agent"; "credentialBroker"] request;
       si_clientToken := l_id l |}));
  assign (set_sandbox (Some sandbox)) ;;
  appendEvents [sandbox_started_event l sandbox] ;;
  access ← match cp_sourceBroker cp with
           | Some broker => in_world (ext (broker (l_id l) (path ["workspace"] request)
                               (path ["source"] request) (policy_ttlSeconds request)))
           | None => mret None
           end;
  workspace ← in_world (ext (p_prepareWorkspace provider sandbox (l_id l)
                               (path ["source"] request) access));
  assign (set_workspace (Some workspace)) ;;
  handle ← in_world (ext (p_startExecution provider sandbox
    {| xi_executionId := l_id l; xi_task := path ["task"] request;
       xi_source := path ["source"] request; xi_policy := path ["policy"] request;
       xi_modelAuth := path ["modelAuth"] request |}));
  assign (set_handle (Some handle)) ;;
  assign (set_status st_running) ;;
  touch ;;
  put_lease ;;
  pullProviderEvents None ;;
  mret tt.

(** The [catch]: mark failed, clean up, record, rethrow. *)
Definition start_failed (provider : AgentExecutionProvider W) (error : JsError) :
    M (Frame S W) unit :=
  let failure := (errorCode error "EXECUTION_START_FAILED", errorMessage error) in
  assign (set_status st_failed) ;;
  assign (set_failure (Some failure)) ;;
  touch ;;
  l ← lease;
  (match l_sandbox l with
   | Some sandbox => assign_cleanup provider sandbox
   | None => mret tt
   end) ;;
  appendEvents [provider_event (l_id l +:+ ":start-failed") execution_failed (failure_json failure)] ;;
  put_lease ;;
  throw (coded_error "EXECUTION_START_FAILED"
    ("Execution " +:+ l_id l +:+ " could not start: " +:+ failure.2)
    [("executionId", l_id l); ("provider", p_id provider);
     ("cause.code", failure.1); ("cause.message", failure.2)]).

Definition start_lease (provider : AgentExecutionProvider W) : M (Frame S W) unit :=
  put_lease ;;
  l ← lease;
  appendEvents [created_event l] ;;
  try_catch (start_steps provider) (start_failed provider).

Definition createExecution (request : json) : M (World S W) AgentExecutionLease :=
  from_outcome (validateExecutionRequest (cp_parse_url cp) request) ;;
  w ← get_state;
  let token := req_string ["clientToken"] request in
  match store_findByClientToken token (w_store w) with
  | Some existing =>
      if negb (String.eqb (canonicalJson (l_request existing)) (canonicalJson request)) then
        throw (coded_error "EXECUTION_IDEMPOTENCY_CONFLICT"
          ("Client token '" +:+ token +:+
           "' is already bound to a different execution request.")
          [("executionId", l_id existing)])
      else mret existing
  | None =>
      provider ← from_outcome (selectProvider cp request);
      createdAt ← now;
      id ← newId;
      let l := new_lease provider request id createdAt in
      with_lease l (start_lease provider) ;;
      getExecution (l_id l)
  end.

Definition streamEvents (executionId : string) (cursor : option string) (limit : option Z) :
    M (World S W) AgentExecutionCursorBatch :=
  afterSequence ← from_outcome (parseCursor cursor);
  l ← getExecution executionId;
  (if bool_decide (is_Some (l_handle l)) && negb (isTerminal (l_status l))
   then with_lease l (pullProviderEvents limit) ;; mret tt
   else mret tt) ;;
  current ← getExecution executionId;
  w ← get_state;
  let events := store_events executionId afterSequence (w_store w) in
  let events :=
    match limit with
    | Some n => if 0 <=? n then take (Z.to_nat n) events else events
    | None => events
    end in
  mret {| cb_executionId := executionId; cb_events := events;
          cb_cursor := from_option ev_cursor (int_to_string afterSequence) (last events);
          cb_done := isTerminal (l_status current) |}.

(** An active lease with its handle and sandbox. *)
Definition getRunnable (executionId : string) :
    M (World S W) (AgentExecutionLease * AgentExecutionHandle * AgentSandboxSession) :=
  l ← getExecution executionId;
  match l_handle l, l_sandbox l, isTerminal (l_status l) with
  | Some handle, Some sandbox, false => mret (l, handle, sandbox)
  | _, _, _ => throw (invalidState l "Execution is not active.")
  end.

(** A control call on the provider, then a pull. *)
Definition control (executionId : string)
    (call : AgentExecutionProvider W → AgentExecutionHandle → M W unit) :
    M (World S W) AgentExecutionLease :=
  '(l, handle, _) ← getRunnable executionId;
  provider ← from_outcome (providerFor l);
  ext (call provider handle) ;;
  with_lease l (pullProviderEvents None) ;;
  getExecution executionId.

(** A non-blank string of at most 200 units. *)
Definition decision_valid (decision : jsval) : bool :=
  isObject decision &&
  text_within 200 (prop "requestId" decision) &&
  (is_str "approved" (prop "decision" decision) || is_str "rejected" (prop "decision" decision)) &&
  text_within 200 (prop "actor" decision) &&
  match prop "reason" decision with
  | None => true
  | Some (JStr reason) => slen reason <=? 2000
  | Some _ => false
  end.

Definition resolveApproval (executionId : string) (decision : jsval) :
    M (World S W) AgentExecutionLease :=
  if negb (decision_valid decision) then
    throw (coded_error "EXECUTION_INVALID_REQUEST" "Execution approval decision is invalid." [])
  else control executionId (λ p h, p_resolveApproval p h (default JNull decision)).

Definition input_valid (input : jsval) : bool :=
  isObject input && text_within 200 (prop "requestId" input) && isObject (prop "values" input).

Definition submitInput (executionId : string) (input : jsval) :
    M (World S W) AgentExecutionLease :=
  if negb (input_valid input) then
    throw (coded_error "EXECUTION_INVALID_REQUEST" "Execution input submission is invalid." [])
  else control executionId (λ p h, p_submitInput p h (default JNull input)).

Definition steer (executionId : string) (message : jsval) : M (World S W) AgentExecutionLease :=
  if negb (text_within 20000 message) then
    throw (coded_error "EXECUTION_INVALID_REQUEST"
      "Steering messages must contain between 1 and 20000 characters." [])
  else control executionId (λ p h, p_steer p h (to_js_string message)).

Definition sandbox_data (sandbox : AgentSandboxSession) : json :=
  JObj [("sandboxId", JStr (ss_id sandbox))].

Definition suspend (executionId : string) : M (World S W) AgentExecutionLease :=
  '(l, _, sandbox) ← getRunnable executionId;
  provider ← from_outcome (providerFor l);
  ext (p_suspend provider (ss_id sandbox)) ;;
  with_lease l (
    assign (set_status st_suspended) ;;
    touch ;;
    appendEvents [provider_event
      (l_id l +:+ ":suspended:" +:+ int_to_string (l_lastEventSequence l + 1))
      sandbox_suspended (sandbox_data sandbox)] ;;
    put_lease) ;;
  getExecution executionId.

Definition resume (executionId : string) : M (World S W) AgentExecutionLease :=
  l ← getExecution executionId;
  match l_sandbox l, bool_decide (l_status l = st_suspended) with
  | Some sandbox, true =>
      provider ← from_outcome (providerFor l);
      sandbox' ← ext (p_resume provider (ss_id sandbox));
      with_lease l (
        assign (set_sandbox (Some sandbox')) ;;
        assign (set_status st_running) ;;
        touch ;;
        appendEvents [provider_event
          (l_id l +:+ ":resumed:" +:+ int_to_string (l_lastEventSequence l + 1))
          sandbox_resumed (sandbox_data sandbox')] ;;
        put_lease ;;
        pullProviderEvents None) ;;
      getExecution executionId
  | _, _ => throw (invalidState l "Only suspended executions can resume.")
  end.

Definition collectResult (executionId : string) : M (World S W) AgentExecutionLease :=
  l ← getExecution executionId;
  match l_cleanup l, l_result l, l_failure l with
  | Some _, Some _, _ | Some _, _, Some _ => mret l
  | _, _, _ =>
      match l_handle l, l_sandbox l with
      | Some handle, Some sandbox =>
          with_lease l (
            pullProviderEvents None ;;
            provider ← from_outcome (providerFor l);
            result ← in_world (ext (p_collectResult provider handle));
            assign (set_result (Some result)) ;;
            assign (set_status (result_status (pr_status result))) ;;
            assign_cleanup provider sandbox ;;
            touch ;;
            l' ← lease;
            appendEvents [provider_event (l_id l +:+ ":cleanup") cleanup_completed
              (from_option receipt_json JNull (l_cleanup l'))] ;;
            put_lease) ;;
          getExecution executionId
      | _, _ => throw (invalidState l "Execution has no active provider handle.")
      end
  end.

Definition terminate (executionId : string) : M (World S W) AgentExecutionLease :=
  l ← getExecution executionId;
  match l_sandbox l, l_cleanup l with
  | Some sandbox, None =>
      provider ← from_outcome (providerFor l);
      with_lease l (
        assign_cleanup provider sandbox ;;
        (if negb (isTerminal (l_status l)) then assign (set_status st_cancelled) else mret tt) ;;
        touch ;;
        l' ← lease;
        appendEvents [provider_event (l_id l +:+ ":terminated") sandbox_terminated
          (from_option receipt_json JNull (l_cleanup l'))] ;;
        put_lease) ;;
      getExecution executionId
  | _, _ => mret l
  end.

Definition is_expired (t : Z) (l : AgentExecutionLease) : bool :=
  negb (isTerminal (l_status l)) && (l_expiresAt l <=? t).

Definition reap_one (l : AgentExecutionLease) (reaped : list AgentExecutionLease) :
    M (World S W) (list AgentExecutionLease) :=
  terminated ← terminate (l_id l);
  t ← now;
  let expired := set_updatedAt t (set_status st_expired terminated) in
  store_modify (store_put expired) ;;
  mret (reaped ++ [expired]).

Definition reapExpired : M (World S W) (list AgentExecutionLease) :=
  t ← now;
  w ← get_state;
  for_each (List.filter (is_expired t) (store_list (w_store w))) reap_one [].

(** ** The interface as a transition system *)

Inductive ApiCall :=
| CallCreate (request : json)
| CallGet (id : string)
| CallList
| CallStream (id : string) (cursor : option string) (limit : option Z)
| CallResolveApproval (id : string) (decision : jsval)
| CallSubmitInput (id : string) (input : jsval)
| CallSteer (id : string) (message : jsval)
| CallSuspend (id : string)
| CallResume (id : string)
| CallCollect (id : string)
| CallTerminate (id : string)
| CallReap.

Definition discard {A} (m : M (World S W) A) : M (World S W) unit := (λ _, tt) <$> m.

Definition run_call (c : ApiCall) : M (World S W) unit :=
  match c with
  | CallCreate r => discard (createExecution r)
  | CallGet id => discard (getExecution id)
  | CallList => discard listExecutions
  | CallStream id cursor limit => discard (streamEvents id cursor limit)
  | CallResolveApproval id d => discard (resolveApproval id d)
  | CallSubmitInput id i => discard (submitInput id i)
  | CallSteer id m => discard (steer id m)
  | CallSuspend id => discard (suspend id)
  | CallResume id => discard (resume id)
  | CallCollect id => discard (collectResult id)
  | CallTerminate id => discard (terminate id)
  | CallReap => discard reapExpired
  end.

End Operations.
