(* ===== verification/ExecInvariant.v ===== *)
(** * Execution control plane: the store invariant

    Every call of the control plane keeps the store consistent: each lease's
    [lastEventSequence] counts its log, events are numbered from one with matching
    cursors, the provider-event budget is respected, logs only grow, leases keep
    their identity, and a call on one execution leaves the others alone.  The
    proofs are triples over frames, against the store interface. *)

From stdpp Require Import base list strings pretty.
From Stdlib Require Import ZArith.
From S2P Require Import Prelude JsString JsValue ExecTypes ExecStore ExecValidate ExecControlPlane.

(** ** What is invariant *)

(** The log of an execution: [n] events, numbered from one, with their cursors. *)
Definition log_numbered (id : string) (n : Z) (log : list AgentExecutionEvent) : Prop :=
  Z.of_nat (length log) = n ∧
  ∀ i e, log !! i = Some e →
    ev_sequence e = Z.of_nat i + 1 ∧ ev_cursor e = int_to_string (Z.of_nat i + 1) ∧
    ev_executionId e = id.

(** No more provider events recorded than the policy allows. *)
Definition lease_ok (l : AgentExecutionLease) : Prop :=
  ∀ m, policy_maxEvents (l_request l) = Some m →
    Z.of_nat (length (l_seenProviderEventIds l)) ≤ Z.max 0 m.

(** The fields of a lease no operation changes. *)
Record same_identity (l l' : AgentExecutionLease) : Prop := {
  same_id : l_id l' = l_id l;
  same_request : l_request l' = l_request l;
  same_provider : l_provider l' = l_provider l;
  same_created : l_createdAt l' = l_createdAt l;
  same_expires : l_expiresAt l' = l_expiresAt l;
}.

Lemma same_identity_refl l : same_identity l l.
Proof. by split. Qed.
Lemma same_identity_trans a b c : same_identity a b → same_identity b c → same_identity a c.
Proof. intros [] []. split; congruence. Qed.
#[export] Hint Resolve same_identity_refl : js.

Lemma log_numbered_nil id : log_numbered id 0 [].
Proof. split; [done|]. by intros i e. Qed.

Lemma log_numbered_snoc id n log e :
  log_numbered id n log → ev_sequence e = n + 1 → ev_cursor e = int_to_string (n + 1) →
  ev_executionId e = id → log_numbered id (n + 1) (log ++ [e]).
Proof.
  intros [Hn Hl] Hs Hc Hid. split; [rewrite length_app; cbn; lia|].
  intros i e' [?|[Hi ?]]%lookup_app_Some; [by apply Hl|].
  apply list_lookup_singleton_Some in H as [Hz ->].
  assert (Z.of_nat i = n) as -> by lia. done.
Qed.

Section Invariant.
Context {S W : Type} `{AgentExecutionStoreLaws S} (cp : ControlPlane W).
Notation World := (World S W).
Notation Frame := (Frame S W).

(** The lease stored under [id], if any, is sound and matches its log. *)
Definition lease_logged (id : string) (l : AgentExecutionLease) (s : S) : Prop :=
  lease_ok l ∧ log_numbered id (l_lastEventSequence l) (store_log id s).

Definition token_unique (s : S) : Prop :=
  ∀ t id1 l1 id2 l2, store_get id1 s = Some l1 → store_get id2 s = Some l2 →
    has_token t l1 = true → has_token t l2 = true → id1 = id2.

Record store_ok (s : S) : Prop := {
  ok_wf : store_wf s;
  ok_leases : ∀ id l, store_get id s = Some l → lease_logged id l s;
  ok_absent : ∀ id, store_get id s = None → store_log id s = [];
  ok_tokens : token_unique s;
}.

(** From [s] to [s'] only the execution [id] changed, its log grew, and its
    lease, if it had one, is still there. *)
Record touches (id : string) (s s' : S) : Prop := {
  t_wf : store_wf s';
  t_lease : ∀ id', id' ≠ id → store_get id' s' = store_get id' s;
  t_log : ∀ id', id' ≠ id → store_log id' s' = store_log id' s;
  t_grows : store_log id s `prefix_of` store_log id s';
  t_keeps : ∀ l, store_get id s = Some l →
    ∃ l', store_get id s' = Some l' ∧ same_identity l l';
}.

(** Over any number of calls: sound, logs grew, leases kept their identity. *)
Record evolves (s s' : S) : Prop := {
  e_ok : store_ok s';
  e_grows : ∀ id, store_log id s `prefix_of` store_log id s';
  e_keeps : ∀ id l, store_get id s = Some l →
    ∃ l', store_get id s' = Some l' ∧ same_identity l l';
}.

Lemma evolves_refl s : store_ok s → evolves s s.
Proof. intros Hs. split; [done|intros id; reflexivity|]. intros id l Hl. exists l. auto with js. Qed.

Lemma evolves_trans a b c : evolves a b → evolves b c → evolves a c.
Proof.
  intros [? Hg1 Hk1] [? Hg2 Hk2]. split; [done|intros id; etrans; [apply Hg1|apply Hg2]|].
  intros id l (l' & Hl' & ?)%Hk1. apply Hk2 in Hl' as (l'' & ? & ?).
  exists l''. eauto using same_identity_trans.
Qed.

Lemma touches_evolves id s s' : touches id s s' → store_ok s' → evolves s s'.
Proof.
  intros [Hwf Hl Hlog Hg Hk] Hok. split; [done| |].
  - intros id'. destruct (decide (id' = id)) as [->|Hne]; [done|]. by rewrite Hlog.
  - intros id' l Hget. destruct (decide (id' = id)) as [->|Hne]; [by apply Hk|].
    exists l. rewrite Hl by done. auto with js.
Qed.

Lemma touches_refl id s : store_wf s → touches id s s.
Proof. intros. split; try done. intros l Hl. exists l. auto with js. Qed.

Lemma touches_trans id a b c : touches id a b → touches id b c → touches id a c.
Proof.
  intros [? Hl1 Hg1 Hp1 Hk1] [? Hl2 Hg2 Hp2 Hk2]. split; [done| | |by etrans|].
  - intros. by rewrite Hl2, Hl1.
  - intros. by rewrite Hg2, Hg1.
  - intros l (l' & Hl' & ?)%Hk1. apply Hk2 in Hl' as (l'' & ? & ?).
    exists l''. eauto using same_identity_trans.
Qed.

(** ** Frames

    [fr_ok s0 l0]: the lease in hand descends from [l0], is sound, and counts the
    log of its execution; nothing else changed since [s0].  [settled]: the store
    holds a lease of that execution that is itself sound. *)

Record fr_ok (s0 : S) (l0 l : AgentExecutionLease) (s : S) : Prop := {
  f_base : ∀ l1, store_get (l_id l0) s0 = Some l1 → same_identity l1 l0;
  f_touches : touches (l_id l0) s0 s;
  f_same : same_identity l0 l;
  f_logged : lease_logged (l_id l0) l s;
}.

Definition settled (l0 : AgentExecutionLease) (s : S) : Prop :=
  ∃ l, store_get (l_id l0) s = Some l ∧ same_identity l0 l ∧ lease_logged (l_id l0) l s.

(** A predicate on the lease in hand and the store. *)
Definition fp (P : AgentExecutionLease → S → Prop) : Frame → Prop := λ f,
  P (fr_lease f) (w_store (fr_world f)).

Definition fr_settled (s0 : S) (l0 l : AgentExecutionLease) (s : S) : Prop :=
  fr_ok s0 l0 l s ∧ settled l0 s.

Lemma triple_in_ext {A} (m : M W A) P :
  triple (fp P) (in_world (ext m)) (λ _, fp P) (λ _, fp P).
Proof.
  intros [l [s e]] HP. unfold in_world, ext. cbn.
  by destruct (m e) as [[a|x] e'].
Qed.

Lemma triple_now P E : triple (fp P) (in_world (now cp)) (λ _, fp P) E.
Proof.
  intros [l [s e]] HP. unfold in_world, now, ext. cbn. by destruct (cp_now cp e).
Qed.

Lemma triple_lease P E : triple (fp P) lease (λ l, fp (λ l' s, l' = l ∧ P l' s)) E.
Proof. by intros [l w] HP. Qed.

Lemma triple_assign (P : AgentExecutionLease → S → Prop) g E :
  triple (fp (λ l s, P (g l) s)) (assign g) (λ _, fp P) E.
Proof. by intros [l w] HP. Qed.

Lemma triple_assign' (P P' : AgentExecutionLease → S → Prop) g E :
  (∀ l s, P' l s → P (g l) s) → triple (fp P') (assign g) (λ _, fp P) E.
Proof. intros HP [l w] Hl. by apply HP. Qed.

Lemma triple_touch (P : AgentExecutionLease → S → Prop) E :
  (∀ t l s, P l s → P (set_updatedAt t l) s) → triple (fp P) (touch cp) (λ _, fp P) E.
Proof.
  intros HP. eapply triple_bind; [apply triple_now|].
  intros t. apply triple_assign'. intros. by apply HP.
Qed.

Lemma triple_ret_fp {A} (a : A) (P : AgentExecutionLease → S → Prop) E :
  triple (fp P) (mret a) (λ _, fp P) E.
Proof. by intros f HP. Qed.

Lemma triple_outcome_fp {A} (o : outcome A) P :
  triple (fp P) (from_outcome o) (λ a, fp (λ l s, o = Ok a ∧ P l s)) (λ _, fp P).
Proof. intros f HP. by destruct o. Qed.

Lemma triple_pure {A} (φ : Prop) (P : AgentExecutionLease → S → Prop) (m : M Frame A) Q E :
  (φ → triple (fp P) m Q E) → triple (fp (λ l s, φ ∧ P l s)) m Q E.
Proof. intros Hm f [Hφ HP]. by apply Hm. Qed.

(** ** Appending events *)

(** The events numbered so far extend the lease's log. *)
Definition numbering (s0 : S) (l0 : AgentExecutionLease) (done : list AgentExecutionEvent)
    (l : AgentExecutionLease) (s : S) : Prop :=
  (∀ l1, store_get (l_id l0) s0 = Some l1 → same_identity l1 l0) ∧
  touches (l_id l0) s0 s ∧ same_identity l0 l ∧ lease_ok l ∧
  log_numbered (l_id l0) (l_lastEventSequence l) (store_log (l_id l0) s ++ done).

Lemma lease_ok_seq n l : lease_ok l → lease_ok (set_lastEventSequence n l).
Proof. done. Qed.

Lemma normalize_numbers s0 l0 done event E :
  triple (fp (numbering s0 l0 done)) (normalize_event cp event)
    (λ e, fp (numbering s0 l0 (done ++ [e]))) E.
Proof.
  intros [l [s e]] (Hb & Ht & Hs & Hok & Hlog). unfold normalize_event, assign, modify, lease, gets, mbind, M_bind.
  cbn. assert (numbering s0 l0 (done ++ [
      {| ev_id := pe_id event; ev_type := pe_type event; ev_data := pe_data event;
         ev_executionId := l_id l; ev_sequence := l_lastEventSequence l + 1;
         ev_cursor := int_to_string (l_lastEventSequence l + 1);
         ev_timestamp := match pe_timestamp event with Some t => t | None => (cp_now cp e).1 end |}])
      (set_lastEventSequence (l_lastEventSequence l + 1) l) s) as Hgoal.
  { split; [done|]. split; [done|]. split; [by destruct Hs; split|]. split; [by apply lease_ok_seq|].
    rewrite app_assoc. apply log_numbered_snoc; cbn; try done. by apply Hs. }
  destruct (pe_timestamp event) as [t|]; cbn; [exact Hgoal|].
  unfold in_world, now, ext; cbn. by destruct (cp_now cp e).
Qed.

Lemma map_normalize_numbers s0 l0 events E : ∀ done,
  triple (fp (numbering s0 l0 done)) (map_M (normalize_event cp) events)
    (λ es, fp (numbering s0 l0 (done ++ es))) E.
Proof.
  induction events as [|event events IH]; intros done; cbn [map_M].
  { intros f Hf. cbn. by rewrite app_nil_r. }
  eapply triple_bind; [apply normalize_numbers|]. intros e.
  eapply triple_bind; [apply IH|]. intros es f Hf. cbn. by rewrite <- app_assoc in Hf.
Qed.

Lemma touches_append id s0 s es :
  touches id s0 s → touches id s0 (store_appendEvents id es s).
Proof.
  intros [Hwf Hl Hg Hp Hk]. split.
  - by apply store_append_wf.
  - intros. rewrite store_get_append. by apply Hl.
  - intros id' Hne. rewrite store_log_append.
    destruct (String.eqb_spec id' id); [done|by apply Hg].
  - rewrite store_log_append, String.eqb_refl. by apply prefix_app_r.
  - intros l Hget. rewrite store_get_append. by apply Hk.
Qed.

Lemma triple_append s0 l0 events E :
  triple (fp (fr_ok s0 l0)) (appendEvents cp events) (λ _, fp (fr_ok s0 l0)) E.
Proof.
  eapply triple_pre with (P' := fp (numbering s0 l0 [])).
  - eapply triple_bind; [apply map_normalize_numbers|]. intros es.
    intros [l [s e]] (Hb & Ht & Hs & Hok & Hlog). pose proof (same_id _ _ Hs) as Hid.
    unfold mbind, M_bind, lease, gets, in_world, store_modify, modify. cbn in *.
    rewrite Hid. split; cbn; [done|by apply touches_append|done|].
    split; [done|]. by rewrite store_log_append, String.eqb_refl.
  - intros [l [s e]] [Hb Ht Hs [Hok Hlog]]. split; [done|]. split; [done|]. split; [done|]. split; [done|].
    by rewrite app_nil_r.
Qed.

(** Appending changes nothing of the lease but its event count. *)
Lemma triple_append_lease (φ : AgentExecutionLease → Prop) events E :
  (∀ n l, φ l → φ (set_lastEventSequence n l)) →
  triple (fp (λ l _, φ l)) (appendEvents cp events) (λ _, fp (λ l _, φ l)) E.
Proof.
  intros Hφ. eapply triple_bind.
  - apply triple_map_M. intros event. unfold normalize_event.
    apply triple_bind with (R := λ _, fp (λ l _, φ l)).
    { apply triple_assign'. auto. }
    intros [].
    eapply triple_bind; [apply triple_lease|]. intros l.
    eapply triple_bind with (R := λ _, fp (λ l _, φ l)).
    + destruct (pe_timestamp event).
      * by intros f [_ ?].
      * eapply triple_pre; [apply triple_now|]. by intros f [_ ?].
    + intros t. apply triple_ret_fp.
  - intros es. eapply triple_bind; [apply triple_lease|]. intros l.
    intros [l' [s e]] [_ ?]. done.
Qed.

(** ** Putting the lease *)

Lemma triple_put s0 l0 E :
  triple (fp (fr_ok s0 l0)) put_lease (λ _, fp (fr_settled s0 l0)) E.
Proof.
  intros [l [s e]] [Hb [Hwf Hl Hg Hp Hk] Hs [Hok Hlog]]. cbn in *.
  pose proof (same_id _ _ Hs) as Hid.
  assert (store_get (l_id l0) (store_put l s) = Some l) as Hget.
  { by rewrite store_get_put, Hid, String.eqb_refl. }
  assert (lease_logged (l_id l0) l (store_put l s)) as Hll.
  { split; [done|]. by rewrite store_log_put. }
  split; [|by exists l]. split; cbn; [done| |done|done]. split.
  - by apply store_put_wf.
  - intros id' Hne. rewrite store_get_put, Hid.
    destruct (String.eqb_spec id' (l_id l0)); [done|by apply Hl].
  - intros. rewrite store_log_put. by apply Hg.
  - by rewrite store_log_put.
  - intros l1 Hl1. exists l. split; [done|]. eauto using same_identity_trans.
Qed.

(** ** Assignments that keep a frame sound *)

Definition keeps_frame (g : AgentExecutionLease → AgentExecutionLease) : Prop :=
  ∀ l, same_identity l (g l) ∧ l_lastEventSequence (g l) = l_lastEventSequence l ∧
       (lease_ok l → lease_ok (g l)).

Lemma fr_ok_assign s0 l0 g l s : keeps_frame g → fr_ok s0 l0 l s → fr_ok s0 l0 (g l) s.
Proof.
  intros Hg [Hb Ht Hs [Hok Hlog]]. destruct (Hg l) as (Hsame & Hseq & Hlok).
  split; [done|done|by eapply same_identity_trans|]. split; [auto|]. by rewrite Hseq.
Qed.

Lemma keeps_status st : keeps_frame (set_status st).
Proof. intros l. split; [by split|]. done. Qed.
Lemma keeps_updatedAt t : keeps_frame (set_updatedAt t).
Proof. intros l. split; [by split|]. done. Qed.
Lemma keeps_failure f : keeps_frame (set_failure f).
Proof. intros l. split; [by split|]. done. Qed.
Lemma keeps_workspace x : keeps_frame (set_workspace x).
Proof. intros l. split; [by split|]. done. Qed.
Lemma keeps_cursor c : keeps_frame (set_providerCursor c).
Proof. intros l. split; [by split|]. done. Qed.
Lemma keeps_result r : keeps_frame (set_result r).
Proof. intros l. split; [by split|]. done. Qed.
Lemma keeps_sandbox x : keeps_frame (set_sandbox (Some x)).
Proof. intros l. split; [by split|]. done. Qed.
Lemma keeps_update events : keeps_frame (λ l, updateStatusFromEvents l events).
Proof. intros l. apply (keeps_status (foldl status_after (l_status l) events)). Qed.
Hint Resolve keeps_status keeps_updatedAt keeps_failure keeps_workspace keeps_cursor
  keeps_result keeps_sandbox keeps_update : js.

(** A frame with a fact about the store, which assignments do not touch. *)
Definition fr_with (R : S → Prop) (s0 : S) (l0 l : AgentExecutionLease) (s : S) : Prop :=
  fr_ok s0 l0 l s ∧ R s.

Lemma triple_keeps R s0 l0 g E :
  keeps_frame g → triple (fp (fr_with R s0 l0)) (assign g) (λ _, fp (fr_with R s0 l0)) E.
Proof. intros Hg. apply triple_assign'. intros l s [? ?]. split; [by apply fr_ok_assign|done]. Qed.

Lemma triple_touch_with R s0 l0 E :
  triple (fp (fr_with R s0 l0)) (touch cp) (λ _, fp (fr_with R s0 l0)) E.
Proof. apply triple_touch. intros t l s [? ?]. split; [apply fr_ok_assign; auto with js|done]. Qed.

Lemma triple_append_with R s0 l0 events E :
  triple (fp (fr_with R s0 l0)) (appendEvents cp events) (λ _, fp (fr_ok s0 l0)) E.
Proof. eapply triple_pre; [apply triple_append|]. by intros f [? _]. Qed.

(** Read the lease in hand, with what soundness says of it. *)
Lemma triple_read {A} R s0 l0 (m : AgentExecutionLease → M Frame A) Q E :
  (∀ l, same_identity l0 l → lease_ok l →
     triple (fp (λ l' s, l' = l ∧ fr_with R s0 l0 l' s)) (m l) Q E) →
  triple (fp (fr_with R s0 l0)) (lease ≫= m) Q E.
Proof.
  intros Hm [l w] Hf. apply (Hm l); [apply Hf|apply Hf|done].
Qed.

(** [cleanup] reads the clock and calls the provider; it never throws. *)
Lemma cleanup_total provider id sandbox (w : World) :
  ∃ receipt w', cleanup cp provider id sandbox w = (Ok receipt, w') ∧ w_store w' = w_store w.
Proof.
  unfold cleanup, now, ext, try_catch, mbind, M_bind, mret, M_ret.
  destruct (cp_now cp (w_ext w)) as [t e1]. cbn.
  destruct (p_terminate provider (ss_id sandbox) e1) as [[[]|x] e2]; cbn; [|by eexists _, _].
  destruct (p_inspect provider (ss_id sandbox) e2) as [[y|x] e3]; cbn; [|by eexists _, _].
  destruct (cp_now cp e3) as [t' e4]. cbn. by eexists _, _.
Qed.

Lemma keeps_cleanup r : keeps_frame (set_cleanup r).
Proof. intros l. split; [by split|]. done. Qed.

Lemma triple_assign_cleanup R s0 l0 provider sandbox E :
  triple (fp (fr_with R s0 l0)) (assign_cleanup cp provider sandbox)
    (λ _, fp (λ l s, is_Some (l_cleanup l) ∧ fr_with R s0 l0 l s)) E.
Proof.
  intros [l w] [Hok HR]. unfold assign_cleanup, mbind, M_bind, lease, gets, in_world.
  cbn in *. destruct (cleanup_total provider (l_id l) sandbox w) as (r & w' & -> & Hw). cbn.
  unfold fp, fr_with. cbn. rewrite Hw.
  split; [by eexists|]. split; [by apply fr_ok_assign; [apply keeps_cleanup|]|done].
Qed.

(** ** Policy failures *)

Definition registered (l : AgentExecutionLease) : Prop :=
  is_Some (assoc_get (l_provider l) (cp_providers cp)).

Lemma registered_providerFor l0 l :
  registered l0 → same_identity l0 l → ∃ p, providerFor cp l = Ok p.
Proof.
  intros [p Hp] Hs. unfold providerFor. rewrite (same_provider _ _ Hs), Hp. by eexists.
Qed.

(** [failForPolicy] throws only when the lease's provider is not registered, and
    then before anything is stored. *)
Lemma triple_failForPolicy R s0 l0 code message force E :
  registered l0 ∨ (∀ e f, fp (fr_with R s0 l0) f → E e f) →
  triple (fp (fr_with R s0 l0)) (failForPolicy cp code message force) (λ _, fp (fr_ok s0 l0)) E.
Proof.
  intros Hreg. unfold failForPolicy. apply triple_read. intros l Hsame Hok.
  destruct (_ && _).
  { eapply triple_pre; [apply triple_ret_fp|]. by intros f [_ [? _]]. }
  eapply triple_pre with (P' := fp (fr_with R s0 l0)); [|by intros f [_ ?]].
  eapply triple_bind; [by apply triple_keeps; auto with js|]. intros [].
  eapply triple_bind; [by apply triple_keeps; auto with js|]. intros [].
  eapply triple_bind; [apply triple_touch_with|]. intros [].
  apply triple_bind with (R := λ _, fp (fr_with R s0 l0)).
  - destruct (l_sandbox l) as [sandbox|]; [|apply triple_ret_fp].
    destruct (l_cleanup l); [apply triple_ret_fp|].
    apply triple_outcome_bind.
    + intros p _. eapply triple_conseq; [apply triple_assign_cleanup| | |];
        [exact (λ f Hf, Hf)|by intros [] f [_ ?]|exact (λ e f Hf, Hf)].
    + intros e He f Hf. destruct Hreg as [Hreg|HE]; [|by apply HE].
      destruct (registered_providerFor l0 l Hreg Hsame) as [? ?]. congruence.
  - intros []. eapply triple_bind; [apply triple_lease|]. intros l'.
    eapply triple_pre; [apply triple_append|]. by intros f [_ [? _]].
Qed.

(** ** Pulling provider events *)

Definition budget_room (l : AgentExecutionLease) (unseen : list AgentExecutionProviderEvent) : Prop :=
  ∀ m, policy_maxEvents (l_request l) = Some m →
    Z.of_nat (length (l_seenProviderEventIds l) + length unseen) ≤ Z.max 0 m.

Lemma triple_record_unseen R s0 l0 l unseen cursor E :
  budget_room l unseen →
  triple (fp (λ l' s, l' = l ∧ fr_with R s0 l0 l' s)) (record_unseen cp unseen cursor)
    (λ _, fp (fr_ok s0 l0)) E.
Proof.
  intros Hroom. unfold record_unseen.
  apply triple_bind with (R := λ _, fp (fr_ok s0 l0)).
  - destruct unseen as [|u us]; [eapply triple_pre; [apply triple_ret_fp|]; by intros f [_ [? _]]|].
    set (evs := u :: us) in *.
    apply triple_bind with (R := λ _, fp (λ l' s, (l_seenProviderEventIds l' = l_seenProviderEventIds l ∧
        l_request l' = l_request l) ∧ fr_ok s0 l0 l' s)).
    + eapply triple_conseq; [apply triple_and; [apply triple_append_lease with (E := E) (φ := 
          λ l', l_seenProviderEventIds l' = l_seenProviderEventIds l ∧ l_request l' = l_request l)|
          apply (triple_append s0 l0 _ E)]| | |]; [done| | |].
      * intros [l' w] [Hl [? _]]. cbn in Hl. by subst.
      * by intros a f [? ?].
      * by intros e f [_ ?].
    + intros []. apply triple_bind with (R := λ _, fp (fr_ok s0 l0)).
      * apply triple_assign'. intros l' s [[Hseen Hreq] [Hb Ht Hs [Hbud Hlog]]].
        split; [done|done|by destruct Hs; split|]. split; [|done].
        intros m Hm. cbn [l_request set_seenProviderEventIds] in Hm. rewrite Hreq in Hm.
        specialize (Hroom m Hm). unfold set_seenProviderEventIds. cbn [l_seenProviderEventIds].
        rewrite Hseen, length_app, length_fmap. lia.
      * intros []. apply triple_assign'. intros. apply fr_ok_assign; auto with js.
  - intros []. apply triple_bind with (R := λ _, fp (fr_ok s0 l0)).
    + destruct cursor; [|apply triple_ret_fp].
      apply triple_assign'. intros. apply fr_ok_assign; auto with js.
    + intros []. apply triple_touch. intros. apply fr_ok_assign; auto with js.
Qed.

Lemma triple_enforce_budgets s0 l0 l exceeded unseen E :
  registered l0 →
  triple (fp (fr_ok s0 l0)) (enforce_budgets cp l exceeded unseen) (λ _, fp (fr_ok s0 l0)) E.
Proof.
  intros Hreg.
  assert (∀ code message force, triple (fp (fr_ok s0 l0)) (failForPolicy cp code message force)
    (λ _, fp (fr_ok s0 l0)) E) as Hfail.
  { intros. eapply triple_pre; [apply (triple_failForPolicy (λ _, True)); by left|].
    by intros f Hf. }
  unfold enforce_budgets. repeat split_match; auto using triple_ret_fp.
Qed.

Lemma take_within_budget l unseen m :
  policy_maxEvents (l_request l) = Some m → lease_ok l →
  budget_room l (take (Z.to_nat (Z.max 0 (m - Z.of_nat (length (l_seenProviderEventIds l))))) unseen).
Proof.
  intros Hm Hb m' Hm'. simplify_eq. specialize (Hb _ Hm). rewrite length_take. lia.
Qed.

Lemma triple_pull s0 l0 limit :
  triple (fp (fr_settled s0 l0)) (pullProviderEvents cp limit)
    (λ _, fp (fr_settled s0 l0)) (λ _, fp (fr_settled s0 l0)).
Proof.
  unfold pullProviderEvents. apply (triple_read (settled l0)). intros l Hsame Hok.
  assert (∀ A (a : A), triple (fp (λ l' s, l' = l ∧ fr_with (settled l0) s0 l0 l' s)) (mret a)
    (λ _, fp (fr_settled s0 l0)) (λ _, fp (fr_settled s0 l0))) as Hret.
  { intros A a f [_ Hf]. exact Hf. }
  destruct (l_handle l) as [handle|]; [|apply Hret].
  case_bool_decide as Hrem.
  - eapply triple_bind with (R := λ _, fp (fr_ok s0 l0)).
    + eapply triple_pre; [apply (triple_failForPolicy (settled l0)); right; by intros e f Hf|].
      by intros f [_ Hf].
    + intros []. eapply triple_bind; [apply triple_put|]. intros []. apply triple_ret_fp.
  - apply triple_outcome_bind; [|by intros e _ f [_ Hf]]. intros p Hp.
    assert (registered l0) as Hreg.
    { unfold providerFor in Hp. unfold registered. rewrite <- (same_provider _ _ Hsame).
      destruct (assoc_get _ _); [by eexists|done]. }
    eapply triple_bind.
    { eapply triple_conseq; [apply triple_in_ext| | |]; [exact (λ f Hf, Hf)|exact (λ _ f Hf, Hf)|].
      by intros e f [_ Hf]. }
    intros batch. apply triple_bind with (R := λ _, fp (fr_ok s0 l0)).
    { apply triple_record_unseen. unfold remaining_events.
      destruct (policy_maxEvents (l_request l)) as [m|] eqn:Hm; cbn [fmap option_fmap option_map].
      - by apply take_within_budget.
      - intros m Hm'. congruence. }
    intros []. apply triple_bind with (R := λ _, fp (fr_ok s0 l0)).
    { by apply triple_enforce_budgets. }
    intros []. eapply triple_bind; [apply triple_put|]. intros []. apply triple_ret_fp.
Qed.

(** ** Calls *)

(** A store change by a call on [id]: still sound, and only [id] touched. *)
Definition call_ok (id : string) (s0 s : S) : Prop := store_ok s ∧ touches id s0 s.

Lemma call_ok_trans id a b c : call_ok id a b → call_ok id b c → call_ok id a c.
Proof. intros [_ ?] [? ?]. split; [done|by eapply touches_trans]. Qed.

Lemma call_ok_refl id s : store_ok s → call_ok id s s.
Proof. intros Hs. split; [done|]. apply touches_refl, Hs. Qed.

Lemma has_token_same t l l' : same_identity l l' → has_token t l' = has_token t l.
Proof. intros Hs. unfold has_token. by rewrite (same_request _ _ Hs). Qed.

(** The execution is stored already, or it is new and so is its client token. *)
Definition starts_from (s0 : S) (l0 : AgentExecutionLease) : Prop :=
  store_get (l_id l0) s0 = Some l0 ∨
  (store_get (l_id l0) s0 = None ∧
   ∀ t id l, store_get id s0 = Some l → has_token t l0 = true → has_token t l = false).

Lemma settled_store_ok s0 l0 l s :
  store_ok s0 → starts_from s0 l0 → fr_settled s0 l0 l s → call_ok (l_id l0) s0 s.
Proof.
  intros [Hwf Hls Habs Htok] Hfrom [[Hb Ht Hsame Hlog] (ls & Hget & Hsls & Hlls)].
  split; [|exact Ht]. destruct Ht as [Hwf' Hl Hg Hp Hk].
  assert (∀ id l', store_get id s = Some l' →
    (id = l_id l0 ∧ same_identity l0 l') ∨ (id ≠ l_id l0 ∧ store_get id s0 = Some l')) as Hcase.
  { intros id l' Hid. destruct (decide (id = l_id l0)) as [->|Hne].
    - left. split; [done|]. congruence.
    - right. split; [done|]. by rewrite <- Hl. }
  split; [done| | |].
  - intros id l' Hid. destruct (decide (id = l_id l0)) as [->|Hne].
    + by simplify_eq.
    + rewrite Hl in Hid by done. destruct (Hls id l' Hid) as [? ?]. split; [done|]. by rewrite Hg.
  - intros id Hid. destruct (decide (id = l_id l0)) as [->|Hne]; [congruence|].
    rewrite Hg by done. apply Habs. by rewrite <- Hl.
  - intros t id1 l1 id2 l2 H1 H2 Ht1 Ht2.
    destruct (Hcase _ _ H1) as [[-> Hs1]|[Hn1 Hg1]], (Hcase _ _ H2) as [[-> Hs2]|[Hn2 Hg2]];
      rewrite ?(has_token_same t _ _ Hs1) in Ht1; rewrite ?(has_token_same t _ _ Hs2) in Ht2.
    + done.
    + destruct Hfrom as [Hf|[_ Hf]]; [by eapply Htok|].
      specialize (Hf t _ _ Hg2 Ht1). congruence.
    + destruct Hfrom as [Hf|[_ Hf]]; [by eapply Htok|].
      specialize (Hf t _ _ Hg1 Ht2). congruence.
    + by eapply Htok.
Qed.

(** A predicate on the store of a world. *)
Definition wp (P : S → Prop) : World → Prop := λ w, P (w_store w).

Lemma triple_ext_wp {A} (m : M W A) P : triple (wp P) (ext m) (λ _, wp P) (λ _, wp P).
Proof. intros [s e] HP. unfold ext. cbn. by destruct (m e) as [[a|x] e']. Qed.

Lemma triple_now_wp P E : triple (wp P) (now cp) (λ _, wp P) E.
Proof. intros [s e] HP. unfold now, ext. cbn. by destruct (cp_now cp e). Qed.

Lemma triple_get_wp P id :
  triple (wp P) (getExecution id) (λ l, wp (λ s, store_get id s = Some l ∧ P s)) (λ _, wp P).
Proof.
  intros [s e] HP. unfold getExecution, get_state, mbind, M_bind. cbn.
  by destruct (store_get id s) eqn:?.
Qed.

(** A body that keeps the frame sound and settled. *)
Definition keeps_settled {A} (l : AgentExecutionLease) (m : M Frame A) : Prop :=
  ∀ s1, triple (fp (fr_settled s1 l)) m (λ _, fp (fr_settled s1 l)) (λ _, fp (fr_settled s1 l)).

Lemma start_settled s l :
  store_ok s → store_get (l_id l) s = Some l → fr_settled s l l s.
Proof.
  intros Hs Hget. pose proof (ok_leases _ Hs _ _ Hget).
  split; [split|by exists l; auto with js]; auto with js.
  - intros l1 ?. assert (l1 = l) as -> by congruence. auto with js.
  - apply touches_refl, Hs.
Qed.

Lemma triple_with_lease {A} s0 l (m : M Frame A) :
  keeps_settled l m →
  triple (wp (λ s, call_ok (l_id l) s0 s ∧ store_get (l_id l) s = Some l)) (with_lease l m)
    (λ _, wp (call_ok (l_id l) s0)) (λ _, wp (call_ok (l_id l) s0)).
Proof.
  intros Hm w [Hcall Hget]. unfold with_lease.
  specialize (Hm (w_store w) (MkFrame l w)). unfold fp in Hm at 1. cbn in Hm.
  specialize (Hm (start_settled _ _ (proj1 Hcall) Hget)).
  destruct (m (MkFrame l w)) as [[a|e] f]; unfold wp; cbn;
    eapply call_ok_trans; [exact Hcall| |exact Hcall|];
    (eapply settled_store_ok; [apply Hcall|by left|exact Hm]).
Qed.

(** What a call on [id] that answers with the lease guarantees. *)
Definition answers (id : string) (s0 : S) (m : M World AgentExecutionLease) : Prop :=
  triple (λ w, w_store w = s0) m
    (λ l, wp (λ s, store_get id s = Some l ∧ call_ok id s0 s)) (λ _, wp (call_ok id s0)).

Lemma answers_get s0 id : store_ok s0 → answers id s0 (getExecution id).
Proof.
  intros Hs. eapply triple_pre; [apply triple_get_wp|].
  intros w <-. unfold wp. by apply call_ok_refl.
Qed.

(** Continue from a stored lease. *)
Lemma answers_bind s0 id (k : AgentExecutionLease → M World AgentExecutionLease) :
  store_ok s0 →
  (∀ l, l_id l = id →
    triple (wp (λ s, store_get id s = Some l ∧ call_ok id s0 s)) (k l)
      (λ l, wp (λ s, store_get id s = Some l ∧ call_ok id s0 s)) (λ _, wp (call_ok id s0))) →
  answers id s0 (getExecution id ≫= k).
Proof.
  intros Hs Hk. eapply triple_bind; [by apply answers_get|].
  intros l w [Hget Hcall]. refine (Hk l _ w (conj Hget Hcall)).
  eapply store_get_id; [apply Hcall|exact Hget].
Qed.

(** The common shape: outside calls, a settled body, the stored lease. *)
Lemma triple_body {A B C} s0 l (o : outcome A) (m : A → M W B) (body : A → B → M Frame C) :
  (∀ a b, o = Ok a → keeps_settled l (body a b)) →
  triple (wp (λ s, store_get (l_id l) s = Some l ∧ call_ok (l_id l) s0 s))
    (a ← from_outcome o; b ← ext (m a); with_lease l (body a b) ;; getExecution (l_id l))
    (λ l', wp (λ s, store_get (l_id l) s = Some l' ∧ call_ok (l_id l) s0 s))
    (λ _, wp (call_ok (l_id l) s0)).
Proof.
  intros Hbody. apply triple_outcome_bind; [|by intros e _ w [_ ?]].
  intros a Ha. eapply triple_bind.
  { eapply triple_conseq; [apply triple_ext_wp| | |]; [exact (λ w Hw, Hw)|exact (λ _ w Hw, Hw)|].
    by intros e w [_ ?]. }
  intros b. eapply triple_bind.
  { eapply triple_pre; [apply (triple_with_lease s0); by apply Hbody|]. by intros w [? ?]. }
  intros c. apply triple_get_wp.
Qed.
End Invariant.
