(* ===== verification/ExecCalls.v ===== *)
(** * Execution control plane: every call keeps the store sound

    The public methods, one by one, against the store invariant of
    [ExecInvariant]: what each may change, and that the whole interface preserves
    soundness on success and on failure. *)

From stdpp Require Import base list strings pretty.
From Stdlib Require Import ZArith.
From S2P Require Import Prelude JsString JsValue ExecTypes ExecStore ExecValidate ExecControlPlane ExecInvariant.

Section Calls.
Context {S W : Type} `{AgentExecutionStoreLaws S} (cp : ControlPlane W).
Notation World := (World S W).
Notation Frame := (Frame S W).

Hint Resolve keeps_status keeps_updatedAt keeps_failure keeps_workspace keeps_cursor
  keeps_result keeps_sandbox keeps_update keeps_cleanup : js.

(** ** Bodies that assign, append and put *)

Lemma triple_keeps_ok s0 l0 g (E : JsError → Frame → Prop) :
  keeps_frame g → triple (fp (fr_ok s0 l0)) (assign g) (λ _, fp (fr_ok s0 l0)) E.
Proof. intros Hg. apply triple_assign'. intros. by apply fr_ok_assign. Qed.

Lemma triple_touch_ok s0 l0 (E : JsError → Frame → Prop) :
  triple (fp (fr_ok s0 l0)) (touch cp) (λ _, fp (fr_ok s0 l0)) E.
Proof. apply triple_touch. intros. apply fr_ok_assign; auto with js. Qed.

Lemma triple_cleanup_ok s0 l0 p sandbox (E : JsError → Frame → Prop) :
  triple (fp (fr_ok s0 l0)) (assign_cleanup cp p sandbox) (λ _, fp (fr_ok s0 l0)) E.
Proof.
  eapply triple_conseq; [apply (triple_assign_cleanup cp (λ _, True)) with (E := E)| | |];
    [by intros f Hf|by intros [] f [_ [? _]]|done].
Qed.

Lemma triple_read_ok {A} s0 l0 (m : AgentExecutionLease → M Frame A) Q E :
  (∀ l, same_identity l0 l → triple (fp (fr_ok s0 l0)) (m l) Q E) →
  triple (fp (fr_ok s0 l0)) (lease ≫= m) Q E.
Proof. intros Hm [l w] Hf. apply (Hm l); [apply Hf|exact Hf]. Qed.

Lemma settled_ok s0 l0 (f : Frame) : fp (fr_settled s0 l0) f → fp (fr_ok s0 l0) f.
Proof. by intros [? _]. Qed.
Hint Resolve triple_keeps_ok triple_touch_ok triple_cleanup_ok : js.

(** Assign, append and put: the steps below follow the body, one by one. *)
Ltac frame_step :=
  match goal with
  | |- triple (fp (fr_settled _ _)) (mret _) _ _ => apply triple_ret_fp
  | |- triple (fp (fr_ok _ _)) (mret _) _ _ => apply triple_ret_fp
  | |- triple (fp (fr_ok _ _)) (lease ≫= _) _ _ => apply triple_read_ok; intros ? ?
  | |- triple (fp (fr_ok _ _)) (_ ≫= _) _ _ => eapply triple_bind
  | |- triple (fp (fr_ok _ _)) (assign _) _ _ => apply triple_keeps_ok; auto with js
  | |- triple (fp (fr_ok _ _)) (touch _) _ _ => apply triple_touch_ok
  | |- triple (fp (fr_ok _ _)) (assign_cleanup _ _ _) _ _ => apply triple_cleanup_ok
  | |- triple (fp (fr_ok _ _)) (appendEvents _ _) _ _ => apply triple_append
  | |- triple (fp (fr_ok _ _)) put_lease _ _ => apply triple_put
  | |- ∀ _, _ => intros ?; cbv beta
  end.

Lemma keeps_settled_body l (m : M Frame unit) :
  (∀ s0 E, triple (fp (fr_ok s0 l)) m (λ _, fp (fr_settled s0 l)) E) → keeps_settled l m.
Proof. intros Hm s0. eapply triple_pre; [apply Hm|]. by intros f [? _]. Qed.

(** ** The calls *)

Lemma control_answers s0 id call :
  store_ok s0 → answers id s0 (control cp id call).
Proof.
  intros Hs. unfold control, getRunnable.
  assert (∀ l, l_id l = id → triple (wp (λ s, store_get id s = Some l ∧ call_ok id s0 s))
    (throw (invalidState l "Execution is not active.") : M World AgentExecutionLease)
    (λ l, wp (λ s, store_get id s = Some l ∧ call_ok id s0 s)) (λ _, wp (call_ok id s0))) as Hth.
  { by intros l Hl w [_ ?]. }
  enough (answers id s0 (getExecution id ≫= λ l,
      match l_handle l, l_sandbox l, isTerminal (l_status l) with
      | Some handle, Some sandbox, false =>
          provider ← from_outcome (providerFor cp l);
          ext (call provider handle) ;; with_lease l (pullProviderEvents cp None) ;; getExecution id
      | _, _, _ => throw (invalidState l "Execution is not active.")
      end)) as Hans.
  { intros w Hw. specialize (Hans w Hw). revert Hans. unfold mbind, M_bind.
    destruct (getExecution id w) as [[l|e] w']; [|done].
    by destruct (l_handle l), (l_sandbox l), (isTerminal (l_status l)). }
  apply answers_bind; [done|]. intros l Hl.
  destruct (l_handle l) as [h|], (l_sandbox l) as [sb|], (isTerminal (l_status l)); auto.
  subst id. apply (triple_body s0 l (providerFor cp l) (λ p, call p h)).
  intros p b _ s1. apply triple_pull.
Qed.

Lemma resolveApproval_answers s0 id d :
  store_ok s0 → answers id s0 (resolveApproval cp id d).
Proof.
  intros Hs. unfold resolveApproval. destruct (negb _); [|by apply control_answers].
  intros w <-. by apply call_ok_refl.
Qed.

Lemma submitInput_answers s0 id d : store_ok s0 → answers id s0 (submitInput cp id d).
Proof.
  intros Hs. unfold submitInput. destruct (negb _); [|by apply control_answers].
  intros w <-. by apply call_ok_refl.
Qed.

Lemma steer_answers s0 id m : store_ok s0 → answers id s0 (steer cp id m).
Proof.
  intros Hs. unfold steer. destruct (negb _); [|by apply control_answers].
  intros w <-. by apply call_ok_refl.
Qed.

Lemma suspend_answers s0 id : store_ok s0 → answers id s0 (suspend cp id).
Proof.
  intros Hs. unfold suspend, getRunnable.
  enough (answers id s0 (getExecution id ≫= λ l,
      match l_handle l, l_sandbox l, isTerminal (l_status l) with
      | Some handle, Some sandbox, false =>
          provider ← from_outcome (providerFor cp l);
          ext (p_suspend provider (ss_id sandbox)) ;;
          with_lease l (
            assign (set_status st_suspended) ;; touch cp ;;
            appendEvents cp [provider_event
              (l_id l +:+ ":suspended:" +:+ int_to_string (l_lastEventSequence l + 1))
              sandbox_suspended (sandbox_data sandbox)] ;; put_lease) ;;
          getExecution id
      | _, _, _ => throw (invalidState l "Execution is not active.")
      end)) as Hans.
  { intros w Hw. specialize (Hans w Hw). revert Hans. unfold mbind, M_bind.
    destruct (getExecution id w) as [[l|e] w']; [|done].
    by destruct (l_handle l), (l_sandbox l), (isTerminal (l_status l)). }
  apply answers_bind; [done|]. intros l Hl.
  destruct (l_handle l) as [h|], (l_sandbox l) as [sb|], (isTerminal (l_status l));
    try by intros w [_ ?].
  subst id. apply (triple_body s0 l (providerFor cp l) (λ p, p_suspend p (ss_id sb))).
  intros p b _. apply keeps_settled_body. intros s1 E. repeat frame_step.
Qed.

Lemma resume_answers s0 id : store_ok s0 → answers id s0 (resume cp id).
Proof.
  intros Hs. unfold resume. apply answers_bind; [done|]. intros l Hl.
  destruct (l_sandbox l) as [sb|], (bool_decide (l_status l = st_suspended)); try by intros w [_ ?].
  subst id. apply (triple_body s0 l (providerFor cp l) (λ p, p_resume p (ss_id sb))).
  intros p b _ s1. eapply triple_pre; [|apply settled_ok].
  repeat (frame_step || apply triple_pull).
Qed.

(** Bodies that throw only while settled. *)
Lemma collectResult_answers s0 id : store_ok s0 → answers id s0 (collectResult cp id).
Proof.
  intros Hs. unfold collectResult. apply answers_bind; [done|]. intros l Hl.
  destruct (l_cleanup l), (l_result l), (l_failure l);
    try (by intros w [? ?]);
    (destruct (l_handle l) as [h|], (l_sandbox l) as [sb|]; try (by intros w [_ ?]));
    subst id;
    (eapply triple_bind; [eapply triple_pre;
        [apply (triple_with_lease s0); intros s1|by intros w [? ?]]|
      intros ?; apply triple_get_wp]);
    (eapply triple_bind; [apply triple_pull|]); intros batch;
    (apply triple_outcome_bind; [|by intros e _ f Hf]); intros prov _;
    (eapply triple_bind; [apply triple_in_ext|]); intros result;
    (eapply triple_pre; [|apply settled_ok]); repeat frame_step.
Qed.

Lemma terminate_answers s0 id : store_ok s0 → answers id s0 (terminate cp id).
Proof.
  intros Hs. unfold terminate. apply answers_bind; [done|]. intros l Hl.
  destruct (l_sandbox l) as [sb|], (l_cleanup l); try (by intros w [? ?]).
  apply triple_outcome_bind; [|by intros e _ w [_ ?]]. intros p _. subst id.
  eapply triple_bind; [|intros ?; apply triple_get_wp].
  eapply triple_pre; [apply (triple_with_lease s0)|by intros w [? ?]].
  apply keeps_settled_body. intros s1 E.
  destruct (isTerminal (l_status l)); cbn [negb]; repeat frame_step.
Qed.

(** A stored lease has the id it is stored under. *)
Lemma triple_stored {A} s0 id l (m : M World A) Q E :
  (l_id l = id → triple (wp (λ s, store_get id s = Some l ∧ call_ok id s0 s)) m Q E) →
  triple (wp (λ s, store_get id s = Some l ∧ call_ok id s0 s)) m Q E.
Proof.
  intros Hm w [Hget Hcall]. refine (Hm _ w (conj Hget Hcall)).
  eapply store_get_id; [apply Hcall|exact Hget].
Qed.

Lemma streamEvents_keeps s0 id cursor limit :
  store_ok s0 →
  triple (λ w, w_store w = s0) (streamEvents cp id cursor limit)
    (λ _, wp (call_ok id s0)) (λ _, wp (call_ok id s0)).
Proof.
  intros Hs. unfold streamEvents.
  apply triple_outcome_bind; [|by intros e _ w <-; apply call_ok_refl]. intros n _.
  eapply triple_bind; [by apply answers_get|]. intros l.
  apply triple_bind with (R := λ _, wp (call_ok id s0)).
  - apply triple_stored. intros <-. destruct (_ && _); [|by intros w [_ ?]].
    apply triple_bind with (R := λ _, wp (call_ok (l_id l) s0)); [|by intros batch w Hw].
    eapply triple_pre; [apply (triple_with_lease s0)|by intros w [? ?]].
    intros s1. apply triple_pull.
  - intros []. eapply triple_bind; [apply triple_get_wp|]. by intros l' w [_ ?].
Qed.

(** ** Creation *)

Lemma start_steps_frame s0 l0 p :
  triple (fp (fr_ok s0 l0)) (start_steps cp p)
    (λ _, fp (fr_settled s0 l0)) (λ _, fp (fr_ok s0 l0)).
Proof.
  unfold start_steps. apply triple_read_ok. intros l Hl. cbv zeta.
  eapply triple_bind; [apply triple_in_ext|]. intros sandbox.
  eapply triple_bind; [by apply triple_keeps_ok; auto with js|]. intros [].
  eapply triple_bind; [apply triple_append|]. intros [].
  eapply triple_bind with (R := λ _, fp (fr_ok s0 l0)).
  { destruct (cp_sourceBroker cp); [apply triple_in_ext|apply triple_ret_fp]. }
  intros access. eapply triple_bind; [apply triple_in_ext|]. intros workspace.
  eapply triple_bind; [by apply triple_keeps_ok; auto with js|]. intros [].
  eapply triple_bind; [apply triple_in_ext|]. intros handle.
  eapply triple_bind; [apply triple_keeps_ok; intros l'; split; [by split|done]|]. intros [].
  eapply triple_bind; [by apply triple_keeps_ok; auto with js|]. intros [].
  eapply triple_bind; [apply triple_touch_ok|]. intros [].
  eapply triple_bind; [apply triple_put|]. intros [].
  eapply triple_bind; [|intros batch; apply triple_ret_fp].
  eapply triple_conseq; [apply triple_pull| | |];
    [exact (λ f Hf, Hf)|exact (λ _ f Hf, Hf)|intros e; apply settled_ok].
Qed.

Lemma start_failed_frame s0 l0 p e Q :
  triple (fp (fr_ok s0 l0)) (start_failed cp p e) Q (λ _, fp (fr_settled s0 l0)).
Proof.
  unfold start_failed. cbv zeta.
  eapply triple_bind; [by apply triple_keeps_ok; auto with js|]. intros [].
  eapply triple_bind; [by apply triple_keeps_ok; auto with js|]. intros [].
  eapply triple_bind; [apply triple_touch_ok|]. intros [].
  apply triple_read_ok. intros l Hl.
  apply triple_bind with (R := λ _, fp (fr_ok s0 l0)).
  { destruct (l_sandbox l); [apply triple_cleanup_ok|apply triple_ret_fp]. }
  intros []. eapply triple_bind; [apply triple_append|]. intros [].
  eapply triple_bind; [apply triple_put|]. intros [] f Hf. exact Hf.
Qed.

Lemma start_lease_frame s0 l0 p :
  triple (fp (fr_ok s0 l0)) (start_lease cp p)
    (λ _, fp (fr_settled s0 l0)) (λ _, fp (fr_settled s0 l0)).
Proof.
  unfold start_lease. eapply triple_bind; [apply triple_put|]. intros [].
  eapply triple_pre; [|apply settled_ok].
  apply triple_read_ok. intros l Hl. eapply triple_bind; [apply triple_append|]. intros [].
  eapply triple_try; [apply start_steps_frame|]. intros e. apply start_failed_frame.
Qed.

(** The id [createExecution] will draw. *)
Definition next_execution_id (w : World) : string :=
  "exec_" +:+ sanitizeId (cp_idFactory cp (cp_now cp (w_ext w)).2).1.

(** A new lease starts from a store that has neither its id nor its token. *)
Lemma new_lease_starts s (p : AgentExecutionProvider W) request id t :
  store_ok s → store_get ("exec_" +:+ sanitizeId id) s = None →
  (∀ tok id' l, store_get id' s = Some l →
     has_token tok (new_lease p request id t) = true → has_token tok l = false) →
  let l := new_lease p request id t in starts_from s l ∧ fr_ok s l l s.
Proof.
  intros Hs Hid Htok l. split; [by right|].
  split; auto with js.
  - cbn. intros l1 Hl1. congruence.
  - apply touches_refl, Hs.
  - split.
    + intros m Hm. cbn. lia.
    + cbn. rewrite (ok_absent _ Hs) by done. apply log_numbered_nil.
Qed.

Lemma valid_token request :
  validateExecutionRequest (cp_parse_url cp) request = Ok tt →
  ∃ t, path ["clientToken"] request = Some (JStr t).
Proof.
  unfold validateExecutionRequest. destruct (negb _); [done|].
  unfold request_errors, identity_errors.
  destruct (path ["clientToken"] request) as [[| | |t| |]|] eqn:Ht; cbn [text_within negb reject_if];
    try (unfold reject_if; destruct (negb (is_str _ _)); discriminate).
  by exists t.
Qed.

Lemma request_token_unique request t :
  path ["clientToken"] request = Some (JStr t) →
  req_string ["clientToken"] request = t ∧
  ∀ tok p id at', has_token tok (new_lease (W := W) p request id at') = true → tok = t.
Proof.
  intros Ht. unfold req_string. rewrite Ht. split; [done|].
  intros tok p id at'. unfold has_token. cbn [l_request new_lease].
  change (prop "clientToken" (Some request)) with (path ["clientToken"] request). rewrite Ht.
  cbn. by intros ?%String.eqb_eq.
Qed.

Lemma createExecution_keeps request (w : World) :
  store_ok (w_store w) → store_get (next_execution_id w) (w_store w) = None →
  evolves (w_store w) (w_store (createExecution cp request w).2).
Proof.
  intros Hs Hfresh. unfold createExecution, mbind, M_bind, from_outcome, get_state, throw, mret, M_ret.
  destruct (validateExecutionRequest _ request) as [[]|e] eqn:Hv; [|by apply evolves_refl].
  destruct (valid_token _ Hv) as [t Ht].
  destruct (request_token_unique _ _ Ht) as [-> Htok].
  destruct (store_findByClientToken t (w_store w)) as [existing|] eqn:Hfind.
  { by destruct (negb _); apply evolves_refl. }
  destruct (selectProvider cp request) as [p|e]; [|by apply evolves_refl].
  unfold next_execution_id in Hfresh. unfold now, newId, ext.
  destruct (cp_now cp (w_ext w)) as [at' e1]. cbn in Hfresh |- *.
  destruct (cp_idFactory cp e1) as [id e2]. cbn in Hfresh |- *.
  destruct (new_lease_starts (w_store w) p request id at' Hs Hfresh) as [Hfrom Hfr].
  { intros tok id' l Hl ->%Htok. by eapply store_find_none; [apply Hs|..]. }
  set (l0 := new_lease p request id at') in *.
  pose proof (start_lease_frame (w_store w) l0 p (MkFrame l0 (MkWorld (w_store w) e2)) Hfr) as Hst.
  unfold with_lease. destruct (start_lease cp p _) as [[[]|e] f]; unfold fp in Hst;
    pose proof (settled_store_ok _ _ _ _ Hs Hfrom Hst) as [Hok Htouch];
    [|by eapply touches_evolves].
  unfold getExecution, get_state, mbind, M_bind, throw, mret, M_ret.
  destruct (store_get ("exec_" +:+ sanitizeId id) (w_store (fr_world f))); cbn [snd];
    by eapply touches_evolves.
Qed.

(** ** Reaping *)

Lemma put_stored s l g :
  store_ok s → store_get (l_id l) s = Some l → keeps_frame g →
  call_ok (l_id l) s (store_put (g l) s).
Proof.
  intros Hs Hget Hg. pose proof (start_settled _ _ Hs Hget) as [Hfr Hset].
  destruct (Hg l) as (Hsame & _ & _).
  assert (fr_settled s l (g l) (store_put (g l) s)) as Hput.
  { pose proof (triple_put (W := unit) s l (λ _ _, False) (MkFrame (g l) (MkWorld s tt))) as Hp.
    unfold fp in Hp. cbn in Hp. apply Hp. by apply fr_ok_assign. }
  eapply settled_store_ok; [done|by left|exact Hput].
Qed.

Lemma reap_one_keeps s0 l acc :
  triple (wp (evolves s0)) (reap_one cp l acc) (λ _, wp (evolves s0)) (λ _, wp (evolves s0)).
Proof.
  intros w Hw. unfold reap_one, mbind at 1, M_bind at 1.
  pose proof (terminate_answers (w_store w) (l_id l) (e_ok _ _ Hw) w eq_refl) as Ht.
  destruct (terminate cp (l_id l) w) as [[l'|e] w']; unfold wp in *.
  - destruct Ht as [Hget Hcall]. unfold now, ext, store_modify, modify, mret, M_ret, mbind, M_bind.
    destruct (cp_now cp (w_ext w')) as [t e']. cbn.
    eapply evolves_trans; [exact Hw|].
    eapply evolves_trans; [eapply touches_evolves; apply Hcall|].
    assert (l_id l' = l_id l) as Hid by (eapply store_get_id; [apply Hcall|done]).
    rewrite <- Hid in Hget.
    destruct (put_stored (w_store w') l' (λ l, set_updatedAt t (set_status st_expired l))) as [? ?];
      [apply Hcall|done| |by eapply touches_evolves].
    intros l1. split; [by split|done].
  - eapply evolves_trans; [exact Hw|]. eapply touches_evolves; apply Ht.
Qed.

Lemma reapExpired_keeps (w : World) :
  store_ok (w_store w) → evolves (w_store w) (w_store (reapExpired cp w).2).
Proof.
  intros Hs.
  assert (triple (wp (evolves (w_store w))) (reapExpired cp)
    (λ _, wp (evolves (w_store w))) (λ _, wp (evolves (w_store w)))) as Ht.
  { unfold reapExpired. eapply triple_bind; [apply triple_now_wp|]. intros t.
    eapply triple_bind with (R := λ _, wp (evolves (w_store w))); [by intros w' Hw'|]. intros w'.
    apply (triple_for_each _ _ (λ _, wp (evolves (w_store w)))). intros l acc _.
    apply reap_one_keeps. }
  specialize (Ht w (evolves_refl _ Hs)). by destruct (reapExpired cp w) as [[a|e] w'].
Qed.

(** ** The whole interface *)

(** Creation draws an id the store does not have (a random UUID). *)
Definition id_fresh (c : ApiCall) (w : World) : Prop :=
  match c with
  | CallCreate _ => store_get (next_execution_id w) (w_store w) = None
  | _ => True
  end.

(** The execution a call names, when it names one. *)
Definition call_target (c : ApiCall) : option string :=
  match c with
  | CallCreate _ | CallList | CallReap => None
  | CallGet id | CallStream id _ _ | CallResolveApproval id _ | CallSubmitInput id _
  | CallSteer id _ | CallSuspend id | CallResume id | CallCollect id | CallTerminate id => Some id
  end.

Lemma answers_call id s0 (m : M World AgentExecutionLease) (w : World) :
  answers id s0 m → w_store w = s0 → call_ok id s0 (w_store (discard m w).2).
Proof.
  intros Hm Hw. specialize (Hm w Hw). unfold discard, fmap, M_fmap.
  destruct (m w) as [[l|e] w']; [apply Hm|exact Hm].
Qed.

Lemma run_call_target c id (w : World) :
  store_ok (w_store w) → call_target c = Some id →
  call_ok id (w_store w) (w_store (run_call cp c w).2).
Proof.
  intros Hs Hc. destruct c; cbn in Hc; simplify_eq; cbn [run_call];
    try (eapply answers_call; [|reflexivity]);
    eauto using answers_get, resolveApproval_answers, submitInput_answers, steer_answers,
      suspend_answers, resume_answers, collectResult_answers, terminate_answers.
  pose proof (streamEvents_keeps (w_store w) id cursor limit Hs w eq_refl) as Hm.
  unfold discard, fmap, M_fmap.
  by destruct (streamEvents cp id cursor limit w) as [[b|e] w'].
Qed.

Lemma discard_world {A} (m : M World A) w : (discard m w).2 = (m w).2.
Proof. unfold discard, fmap, M_fmap. by destruct (m w) as [[a|e] w']. Qed.

Lemma run_call_evolves c (w : World) :
  store_ok (w_store w) → id_fresh c w → evolves (w_store w) (w_store (run_call cp c w).2).
Proof.
  intros Hs Hfresh. destruct (call_target c) as [id|] eqn:Hc.
  - destruct (run_call_target c id w Hs Hc). by eapply touches_evolves.
  - destruct c; cbn in Hc; try done; cbn [run_call]; rewrite discard_world.
    + by apply createExecution_keeps.
    + by apply evolves_refl.
    + by apply reapExpired_keeps.
Qed.

(** Any sequence of calls, whatever each answers. *)
Inductive reaches : World → World → Prop :=
| reaches_refl w : reaches w w
| reaches_step w c w' :
    id_fresh c w → reaches (run_call cp c w).2 w' → reaches w w'.

Lemma reaches_evolves w w' :
  reaches w w' → store_ok (w_store w) → evolves (w_store w) (w_store w').
Proof.
  induction 1 as [w|w c w' Hfresh _ IH]; intros Hs; [by apply evolves_refl|].
  pose proof (run_call_evolves c w Hs Hfresh) as Hstep.
  eapply evolves_trans; [exact Hstep|]. apply IH, Hstep.
Qed.

(** A list of calls, executed. *)
Definition run_calls (cs : list ApiCall) (w : World) : World :=
  foldl (λ w c, (run_call cp c w).2) w cs.

Fixpoint calls_fresh (cs : list ApiCall) (w : World) : Prop :=
  match cs with
  | [] => True
  | c :: cs => id_fresh c w ∧ calls_fresh cs (run_call cp c w).2
  end.

Lemma run_calls_reaches cs : ∀ w, calls_fresh cs w → reaches w (run_calls cs w).
Proof.
  induction cs as [|c cs IH]; intros w; cbn; [intros; apply reaches_refl|].
  intros [? ?]. eapply reaches_step; [done|]. by apply IH.
Qed.
End Calls.
