(* ===== verification/FakeProvider.v ===== *)
(** * The deterministic conformance provider

    [FakeAgentExecutionProvider] of
    [mezair-cloud/packages/control-plane/src/fake-execution-provider.ts]: an
    implementation of the provider interface.  Its state is the two maps; ids and
    the clock come from an environment [Env].  The session object a run refers to
    is the entry of the session map under the run's session id. *)

From stdpp Require Import base list strings pretty.
From Stdlib Require Import ZArith.
From S2P Require Import Prelude JsString JsValue ExecTypes ExecControlPlane.

Record FakeSession := {
  fs_session : AgentSandboxSession;
  fs_input : AgentSandboxStartInput;
  fs_workspace : option AgentExecutionWorkspace;
}.

Record FakeRun := {
  run_handle : AgentExecutionHandle;
  run_input : AgentExecutionStartInput;
  run_events : list AgentExecutionProviderEvent;
  run_done : bool;
  run_approvalRequestId : option string;
  run_result : option AgentExecutionProviderResult;
}.

Record FakeState (Env : Type) := MkFake {
  fk_sessions : list (string * FakeSession);
  fk_runs : list (string * FakeRun);
  fk_env : Env;
}.
Arguments MkFake {Env} _ _ _.
Arguments fk_sessions {Env} _.
Arguments fk_runs {Env} _.
Arguments fk_env {Env} _.

Definition fake_id : string := "fake-execution".
Definition fake_maxTtlSeconds : Z := 28800.

Definition set_ss_status (status : AgentSandboxStatus) (terminatedAt : option Z)
    (s : AgentSandboxSession) : AgentSandboxSession :=
  {| ss_id := ss_id s; ss_agent := ss_agent s; ss_status := status;
     ss_endpointUrl := ss_endpointUrl s; ss_provider := ss_provider s; ss_region := ss_region s;
     ss_startedAt := ss_startedAt s;
     ss_terminatedAt := match terminatedAt with Some t => Some t | None => ss_terminatedAt s end;
     ss_expiresAt := ss_expiresAt s; ss_image := ss_image s; ss_metadata := ss_metadata s |}.

(** An object literal: a property set to [undefined] is left out. *)
Definition obj (fields : list (string * jsval)) : json :=
  JObj (omap (λ kv, (λ v, (kv.1, v)) <$> kv.2) fields).

Definition emptyResult (status : ProviderResultStatus) (summary : string) :
    AgentExecutionProviderResult :=
  {| pr_status := status; pr_summary := summary; pr_changedFiles := []; pr_artifacts := [];
     pr_commands := []; pr_tests := []; pr_errors := []; pr_evidence := [];
     pr_usage := None; pr_patch := None |}.

Definition parseProviderCursor (cursor : option string) : outcome Z :=
  match cursor with
  | None => Ok 0
  | Some c =>
      match safe_integer (string_to_num c) with
      | Some value =>
          if value <? 0 then Throw (plain_error ("Invalid fake provider cursor '" +:+ c +:+ "'."))
          else Ok value
      | None => Throw (plain_error ("Invalid fake provider cursor '" +:+ c +:+ "'."))
      end
  end.

Definition sourceLabel (source : jsval) : string :=
  if is_str "git" (prop "kind" source)
  then to_js_string (prop "repository" source) +:+ " at " +:+ to_js_string (prop "commit" source)
  else "snapshot " +:+ to_js_string (prop "snapshotId" source).

Definition fake_supports (request : json) : AgentExecutionProviderSupport :=
  let at' ks := path ks request in
  let one_of l v := existsb (λ s, is_str s v) l in
  let reasons :=
    (if one_of ["read-only"; "read-write"] (at' ["policy"; "mode"]) then []
     else ["mode " +:+ to_js_string (at' ["policy"; "mode"]) +:+ " is not supported"]) ++
    (if one_of ["control-plane"; "provider-subscription"] (at' ["modelAuth"; "kind"]) then []
     else ["model auth " +:+ to_js_string (at' ["modelAuth"; "kind"]) +:+ " is not supported"]) ++
    (if is_str "provider-subscription" (at' ["modelAuth"; "kind"]) &&
        negb (one_of ["codex"; "cursor"] (at' ["modelAuth"; "provider"]))
     then ["subscription provider " +:+ to_js_string (at' ["modelAuth"; "provider"]) +:+
           " is not supported"] else []) ++
    (if fake_maxTtlSeconds <? policy_ttlSeconds request
     then ["requested TTL exceeds the provider maximum"] else []) in
  {| sup_supported := match reasons with [] => true | _ => false end; sup_reasons := reasons |}.

Section Fake.
Context {Env : Type} (idFactory : Env → string * Env) (clock : Env → Z * Env).
Notation F := (FakeState Env).

Definition fresh_id : M F string := λ f,
  let '(i, e) := idFactory (fk_env f) in (Ok i, MkFake (fk_sessions f) (fk_runs f) e).
Definition fake_now : M F Z := λ f,
  let '(t, e) := clock (fk_env f) in (Ok t, MkFake (fk_sessions f) (fk_runs f) e).
Definition set_session (id : string) (s : FakeSession) : M F unit :=
  modify (λ f, MkFake (assoc_set id s (fk_sessions f)) (fk_runs f) (fk_env f)).
Definition set_run (id : string) (r : FakeRun) : M F unit :=
  modify (λ f, MkFake (fk_sessions f) (assoc_set id r (fk_runs f)) (fk_env f)).

Definition requireSession (sessionId : string) : M F FakeSession :=
  f ← get_state;
  match assoc_get sessionId (fk_sessions f) with
  | Some s => mret s
  | None => throw (plain_error ("Unknown fake sandbox '" +:+ sessionId +:+ "'."))
  end.

Definition requireRun (handle : AgentExecutionHandle) : M F FakeRun :=
  f ← get_state;
  match assoc_get (h_runId handle) (fk_runs f) with
  | Some r =>
      if String.eqb (h_sessionId (run_handle r)) (h_sessionId handle) then mret r
      else throw (plain_error ("Unknown fake execution run '" +:+ h_runId handle +:+ "'."))
  | None => throw (plain_error ("Unknown fake execution run '" +:+ h_runId handle +:+ "'."))
  end.

Definition event (type : AgentExecutionEventType) (data : json) : M F AgentExecutionProviderEvent :=
  id ← fresh_id;
  timestamp ← fake_now;
  mret {| pe_id := "provider_event_" +:+ sanitizeId id; pe_type := type;
          pe_timestamp := Some timestamp; pe_data := data |}.

Definition set_session_status (sessionId : string) (status : AgentSandboxStatus) : M F unit :=
  s ← requireSession sessionId;
  set_session sessionId {| fs_session := set_ss_status status None (fs_session s);
                           fs_input := fs_input s; fs_workspace := fs_workspace s |}.

Definition fake_start (input : AgentSandboxStartInput) : M F AgentSandboxSession :=
  raw ← fresh_id;
  startedAt ← fake_now;
  let id := "sandbox_" +:+ sanitizeId raw in
  let session :=
    {| ss_id := id; ss_agent := to_js_string (prop "name" (Some (si_manifest input)));
       ss_status := sb_active; ss_endpointUrl := None; ss_provider := fake_id;
       ss_region := None; ss_startedAt := Some startedAt; ss_terminatedAt := None;
       ss_expiresAt := Some (startedAt + 28800000); ss_image := None;
       ss_metadata := obj [("deterministic", Some (JBool true)); ("cell", si_cell input);
                           ("environment", si_environment input)] |} in
  set_session id {| fs_session := session; fs_input := input; fs_workspace := None |} ;;
  mret session.

Definition fake_inspect (sessionId : string) : M F AgentSandboxSession :=
  s ← requireSession sessionId; mret (fs_session s).

Definition fake_suspend (sessionId : string) : M F unit :=
  set_session_status sessionId sb_suspended.

Definition fake_resume (sessionId : string) : M F AgentSandboxSession :=
  set_session_status sessionId sb_active ;; fake_inspect sessionId.

Definition fake_terminate (sessionId : string) : M F unit :=
  s ← requireSession sessionId;
  t ← fake_now;
  set_session sessionId {| fs_session := set_ss_status sb_terminated (Some t) (fs_session s);
                           fs_input := fs_input s; fs_workspace := fs_workspace s |}.

Definition fake_prepareWorkspace (session : AgentSandboxSession) (executionId : string)
    (source : jsval) (access : option AgentExecutionSourceAccess) : M F AgentExecutionWorkspace :=
  stored ← requireSession (ss_id session);
  let workspace :=
    {| ws_id := "workspace_" +:+ sanitizeId executionId; ws_source := source;
       ws_writable := is_str "read-write"
         (path ["capabilities"; "filesystem"] (si_manifest (fs_input stored)));
       ws_metadata := JObj [("deterministic", JBool true)] |} in
  set_session (ss_id session) {| fs_session := fs_session stored; fs_input := fs_input stored;
                                 fs_workspace := Some workspace |} ;;
  mret workspace.

Definition with_events (r : FakeRun) (events : list AgentExecutionProviderEvent) : FakeRun :=
  {| run_handle := run_handle r; run_input := run_input r; run_events := run_events r ++ events;
     run_done := run_done r; run_approvalRequestId := run_approvalRequestId r;
     run_result := run_result r |}.

Definition finish (r : FakeRun) (result : AgentExecutionProviderResult) : FakeRun :=
  {| run_handle := run_handle r; run_input := run_input r; run_events := run_events r;
     run_done := true; run_approvalRequestId := run_approvalRequestId r;
     run_result := Some result |}.

(** The usage every completed run reports: 12 + 8 tokens, 0.001 USD. *)
Definition fake_usage (extra : list (string * json)) : json :=
  JObj ([("inputTokens", JNum (int 12)); ("outputTokens", JNum (int 8));
         ("totalTokens", JNum (int 20)); ("estimatedCostUsd", JNum (NFin 1 3))] ++ extra).

Definition repeat_a (n : nat) : string := of_chars (replicate n (Ascii.ascii_of_nat 97)).

Definition artifact_json (a : AgentExecutionArtifact) : json :=
  JObj [("id", JStr (ar_id a)); ("name", JStr (ar_name a)); ("kind", JStr (ar_kind a));
        ("storage", JStr (ar_storage a)); ("sha256", JStr (ar_sha256 a));
        ("sizeBytes", JNum (int (ar_sizeBytes a)))].

Definition completeRun (run : FakeRun) : M F FakeRun :=
  raw ← fresh_id;
  let patch := {| ar_id := "artifact_" +:+ sanitizeId raw; ar_name := "execution.patch";
                  ar_kind := "patch"; ar_storage := "session"; ar_sha256 := repeat_a 64;
                  ar_sizeBytes := 128; ar_downloadUrl := None;
                  ar_mediaType := Some "text/x-diff" |} in
  let changed := is_str "read-write" (prop "mode" (xi_policy (run_input run))) in
  let changedFiles := if changed then ["README.md"] else [] in
  completed ← event command_completed (JObj [("command", JStr "pnpm test"); ("exitCode", JNum (int 0))]);
  changes ←
    (if changed then
       file ← event file_changed (JObj [("path", JStr "README.md"); ("action", JStr "modified")]);
       artifact ← event artifact_available (JObj [("artifact", artifact_json patch)]);
       ready ← event patch_ready (JObj [("artifactId", JStr (ar_id patch))]);
       mret [file; artifact; ready]
     else mret []);
  usage ← event usage_updated (fake_usage []);
  finished ← event execution_completed (JObj [("changedFiles", JArr (JStr <$> changedFiles))]);
  mret (finish (with_events run ([completed] ++ changes ++ [usage; finished]))
    {| pr_status := rs_completed; pr_summary := "Deterministic execution completed.";
       pr_changedFiles := changedFiles; pr_artifacts := if changed then [patch] else [];
       pr_commands := [("pnpm test", Some 0)]; pr_tests := [("pnpm test", "passed")];
       pr_errors := []; pr_evidence := [("provider", fake_id)];
       pr_usage := Some (fake_usage [("provider", JStr fake_id)]);
       pr_patch := if changed then Some patch else None |}).

(** [manifest.requires.humanApproval[0]]. *)
Definition first_approval (manifest : json) : outcome jsval :=
  match path ["requires"; "humanApproval"] manifest with
  | Some (JArr l) => Ok (head l)
  | None | Some JNull => Throw (plain_error "Cannot read properties of undefined")
  | Some _ => Ok None
  end.

Definition fake_startExecution (session : AgentSandboxSession) (input : AgentExecutionStartInput) :
    M F AgentExecutionHandle :=
  stored ← requireSession (ss_id session);
  match fs_workspace stored with
  | None => throw (plain_error "Workspace must be prepared before execution starts.")
  | Some _ =>
      raw ← fresh_id;
      let handle := {| h_sessionId := ss_id session; h_runId := "run_" +:+ sanitizeId raw |} in
      let subscription := is_str "provider-subscription" (prop "kind" (xi_modelAuth input)) in
      started ← event execution_started
        (obj ([("task", xi_task input); ("mode", prop "mode" (xi_policy input));
               ("modelAuth", prop "kind" (xi_modelAuth input))] ++
              if subscription then [("subscriptionProvider", prop "provider" (xi_modelAuth input))]
              else []));
      message ← event agent_message
        (JObj [("role", JStr "assistant");
               ("text", JStr ("Inspecting " +:+ sourceLabel (xi_source input) +:+ "."))]);
      command ← event command_started (JObj [("command", JStr "pnpm test")]);
      approvalAction ← from_outcome (first_approval (si_manifest (fs_input stored)));
      let run approval := {| run_handle := handle; run_input := input;
                             run_events := [started; message; command]; run_done := false;
                             run_approvalRequestId := approval; run_result := None |} in
      if truthy approvalAction then
        raw' ← fresh_id;
        let requestId := "approval_" +:+ sanitizeId raw' in
        requested ← event approval_requested
          (obj [("requestId", Some (JStr requestId)); ("action", approvalAction);
                ("reason", Some (JStr "The deterministic conformance turn pauses before producing a patch."))]);
        set_session_status (ss_id session) sb_waiting_for_approval ;;
        set_run (h_runId handle) (with_events (run (Some requestId)) [requested]) ;;
        mret handle
      else
        completed ← completeRun (run None);
        set_run (h_runId handle) completed ;;
        mret handle
  end.

Definition fake_readEvents (handle : AgentExecutionHandle) (cursor : option string)
    (limit : option Z) : M F AgentExecutionEventBatch :=
  run ← requireRun handle;
  start ← from_outcome (parseProviderCursor cursor);
  let total := Z.of_nat (length (run_events run)) in
  let stop := match limit with None => total | Some n => Z.min total (start + Z.max 0 n) end in
  mret {| eb_events := take (Z.to_nat (stop - start)) (drop (Z.to_nat start) (run_events run));
          eb_cursor := Some (int_to_string stop);
          eb_done := run_done run && (total <=? stop) |}.

Definition fake_resolveApproval (handle : AgentExecutionHandle) (decision : json) : M F unit :=
  run ← requireRun handle;
  let requestId := prop "requestId" (Some decision) in
  if match run_approvalRequestId run with
     | Some id => negb (truthy (Some (JStr id))) || negb (is_str id requestId)
     | None => true
     end
  then throw (plain_error ("Unknown approval request '" +:+ to_js_string requestId +:+ "'."))
  else
    resolved ← event approval_resolved
      (obj [("requestId", requestId); ("decision", prop "decision" (Some decision));
            ("actor", prop "actor" (Some decision));
            ("reason", Some (default JNull (prop "reason" (Some decision))))]);
    let run := with_events run [resolved] in
    if is_str "approved" (prop "decision" (Some decision)) then
      set_session_status (h_sessionId (run_handle run)) sb_active ;;
      completed ← completeRun run;
      set_run (h_runId handle) completed
    else
      set_session_status (h_sessionId (run_handle run)) sb_active ;;
      cancelled ← event execution_cancelled (JObj [("reason", JStr "approval-rejected")]);
      set_run (h_runId handle)
        (with_events (finish run (emptyResult rs_cancelled "Approval was rejected.")) [cancelled]).

Definition json_keys (v : jsval) : list string :=
  match v with Some (JObj l) => l.*1 | _ => [] end.

Definition fake_submitInput (handle : AgentExecutionHandle) (input : json) : M F unit :=
  run ← requireRun handle;
  submitted ← event input_submitted
    (obj [("requestId", prop "requestId" (Some input));
          ("fields", Some (JArr (JStr <$> sort_by str_leb (json_keys (prop "values" (Some input))))))]);
  set_run (h_runId handle) (with_events run [submitted]).

Definition fake_steer (handle : AgentExecutionHandle) (message : string) : M F unit :=
  run ← requireRun handle;
  sent ← event agent_message
    (JObj [("role", JStr "user"); ("text", JStr message); ("steering", JBool true)]);
  set_run (h_runId handle) (with_events run [sent]).

Definition fake_collectResult (handle : AgentExecutionHandle) : M F AgentExecutionProviderResult :=
  run ← requireRun handle;
  match run_done run, run_result run with
  | true, Some result => mret result
  | _, _ => throw (plain_error "Execution has not completed.")
  end.

(** The provider as the control plane sees it. *)
Definition FakeAgentExecutionProvider : AgentExecutionProvider F :=
  {| p_id := fake_id;
     p_supports := fake_supports;
     p_start := fake_start;
     p_inspect := fake_inspect;
     p_suspend := fake_suspend;
     p_resume := fake_resume;
     p_terminate := fake_terminate;
     p_prepareWorkspace := fake_prepareWorkspace;
     p_startExecution := fake_startExecution;
     p_readEvents := fake_readEvents;
     p_resolveApproval := fake_resolveApproval;
     p_submitInput := fake_submitInput;
     p_steer := fake_steer;
     p_collectResult := fake_collectResult |}.

(** The approval a run asked for, if any, has been resolved. *)
Definition gate_passed (r : FakeRun) : Prop :=
  is_Some (run_approvalRequestId r) → ∃ e, e ∈ run_events r ∧ pe_type e = approval_resolved.

(** A run's record agrees with its events: it is done exactly when it has a result,
    its log then holds a terminal event and the approval it asked for was resolved;
    and a run that is not done waits for an approval. *)
Definition run_ok (r : FakeRun) : Prop :=
  (run_done r = true ↔ is_Some (run_result r)) ∧
  (run_done r = true →
     (∃ e, e ∈ run_events r ∧ isTerminal (status_after st_running e) = true) ∧ gate_passed r) ∧
  (run_done r = false → is_Some (run_approvalRequestId r)).

Definition runs_ok (f : F) : Prop := ∀ id r, (id, r) ∈ fk_runs f → run_ok r.
End Fake.
