(* ===== verification/ExecFixtures.v ===== *)
(** * Concrete configurations of the control plane

    A counter for ids and clock, sample requests, the deterministic provider, and
    a provider whose run keeps producing events after its sandbox is gone.  The
    closed theorems and the witnesses evaluate on these. *)

From stdpp Require Import base list strings pretty.
From Stdlib Require Import ZArith.
From S2P Require Import Prelude JsString JsValue ExecTypes ExecStore ExecValidate ExecControlPlane ExecInvariant ExecCalls FakeProvider.

Definition tick_id (n : N) : string * N := (pretty n, (n + 1)%N).
Definition tick_clock (n : N) : Z * N := (Z.of_N n * 1000, (n + 1)%N).

Definition sample_url (s : string) : option Url :=
  if startsWith "https://" s
  then Some {| url_protocol := "https:"; url_username := ""; url_password := "";
               url_search := ""; url_hash := "" |}
  else None.

Definition sample_network : json :=
  JObj [("allow", JArr [JStr "registry.npmjs.org"; JStr "github.com"]); ("deny", JArr [])].

Definition sample_agent (approvals : list json) : json :=
  JObj [("name", JStr "support"); ("requires", JObj [("humanApproval", JArr approvals)]);
        ("capabilities", JObj [("filesystem", JStr "read-write"); ("network", sample_network)])].

Definition sample_source : json :=
  JObj [("kind", JStr "git"); ("repository", JStr "https://github.com/example/repo");
        ("commit", JStr "0123456789abcdef");
        ("selection", JObj [("includesWorkingTreePatch", JBool false);
          ("excluded", JArr [JStr "git-metadata"; JStr "ignored-files"; JStr "secret-files";
                             JStr "unrelated-untracked-files"])])].

Definition sample_policy (extra : list (string * json)) : json :=
  JObj ([("mode", JStr "read-only"); ("ttlSeconds", JNum (int 600));
         ("network", JObj [("deny", JArr []);
            ("allow", JArr [JStr "github.com"; JStr "registry.npmjs.org"])]);
         ("requireApprovalForExternalActions", JBool true)] ++ extra).

Definition sample_request (token : string) (approvals : list json) (extra : list (string * json)) :
    json :=
  JObj [("schemaVersion", JStr "0.1"); ("clientToken", JStr token); ("workspace", JStr "acme");
        ("cell", JStr "web"); ("environment", JStr "preview"); ("task", JStr "run the tests");
        ("agent", sample_agent approvals); ("source", sample_source);
        ("providerPreference", JObj [("kind", JStr "auto")]);
        ("policy", sample_policy extra);
        ("modelAuth", JObj [("kind", JStr "control-plane"); ("credential", JStr "OPENAI_API_KEY")])].

(** ** The control plane over the deterministic provider *)

Definition fake_cp : ControlPlane (FakeState N) :=
  {| cp_providers := provider_map [FakeAgentExecutionProvider tick_id tick_clock];
     cp_sourceBroker := None;
     cp_idFactory := λ f, let '(i, e) := tick_id (fk_env f) in (i, MkFake (fk_sessions f) (fk_runs f) e);
     cp_now := λ f, let '(t, e) := tick_clock (fk_env f) in (t, MkFake (fk_sessions f) (fk_runs f) e);
     cp_parse_url := sample_url |}.

Definition fake_world : World ExecutionStoreState (FakeState N) :=
  MkWorld emptyState (MkFake [] [] 1%N).

(** The world after a call. *)
Definition after_call {S W A} (m : M (World S W) A) (w : World S W) : World S W := (m w).2.

(** ** A provider that reports late

    Its run has one more event each time it is polled, even once the sandbox is
    terminated, and it has no result to collect then. *)

Record LateState := { late_polls : nat; late_alive : bool; late_clock : N }.

Definition late_session (alive : bool) : AgentSandboxSession :=
  {| ss_id := "sandbox"; ss_agent := "support";
     ss_status := if alive then sb_active else sb_terminated; ss_endpointUrl := None;
     ss_provider := "late"; ss_region := None; ss_startedAt := None; ss_terminatedAt := None;
     ss_expiresAt := None; ss_image := None; ss_metadata := JObj [] |}.

Definition late_event (n : nat) : AgentExecutionProviderEvent :=
  provider_event ("late_" +:+ pretty (N.of_nat n)) execution_started (JObj []).

Definition late_provider_with (startExecution : M LateState AgentExecutionHandle) :
    AgentExecutionProvider LateState :=
  {| p_id := "late";
     p_supports := λ _, {| sup_supported := true; sup_reasons := [] |};
     p_start := λ _, mret (late_session true);
     p_inspect := λ _, gets (λ s, late_session (late_alive s));
     p_suspend := λ _, mret tt;
     p_resume := λ _, mret (late_session true);
     p_terminate := λ _, modify (λ s, {| late_polls := late_polls s; late_alive := false;
                                         late_clock := late_clock s |});
     p_prepareWorkspace := λ _ _ source _,
       mret {| ws_id := "workspace"; ws_source := source; ws_writable := true; ws_metadata := JObj [] |};
     p_startExecution := λ _ _, startExecution;
     p_readEvents := λ _ _ _ s,
       (Ok {| eb_events := [late_event (late_polls s)]; eb_cursor := None; eb_done := false |},
        {| late_polls := S (late_polls s); late_alive := late_alive s; late_clock := late_clock s |});
     p_resolveApproval := λ _ _, mret tt;
     p_submitInput := λ _ _, mret tt;
     p_steer := λ _ _, mret tt;
     p_collectResult := λ _, throw (plain_error "Sandbox is terminated.") |}.

Definition late_provider : AgentExecutionProvider LateState :=
  late_provider_with (mret {| h_sessionId := "sandbox"; h_runId := "run" |}).

(** The same, except that no run can be started in its sandbox. *)
Definition broken_provider : AgentExecutionProvider LateState :=
  late_provider_with (throw (plain_error "No capacity.")).

Definition late_cp_with (provider : AgentExecutionProvider LateState) : ControlPlane LateState :=
  let set_clock s e := {| late_polls := late_polls s; late_alive := late_alive s; late_clock := e |} in
  {| cp_providers := provider_map [provider];
     cp_sourceBroker := None;
     cp_idFactory := λ s, let '(i, e) := tick_id (late_clock s) in (i, set_clock s e);
     cp_now := λ s, let '(t, e) := tick_clock (late_clock s) in (t, set_clock s e);
     cp_parse_url := sample_url |}.

Definition late_cp : ControlPlane LateState := late_cp_with late_provider.
Definition broken_cp : ControlPlane LateState := late_cp_with broken_provider.

Definition late_world : World ExecutionStoreState LateState :=
  MkWorld emptyState {| late_polls := 0; late_alive := true; late_clock := 1%N |}.

(** ** Sample runs *)

Lemma emptyState_ok : store_ok emptyState.
Proof.
  split; [apply emptyState_keyed| | |]; cbn.
  - by intros id l.
  - done.
  - by intros t id1 l1 id2 l2.
Qed.

Definition first_request : json := sample_request "t1" [JStr "deploy"] [].
Definition world1 : World ExecutionStoreState (FakeState N) :=
  Eval vm_compute in after_call (createExecution fake_cp first_request) fake_world.
Definition lease1 : AgentExecutionLease :=
  Eval vm_compute in default (new_lease late_provider JNull "" 0) (InMemory.get "exec_2" (w_store world1)).

Lemma created1 : createExecution fake_cp first_request fake_world = (Ok lease1, world1).
Proof. vm_compute. reflexivity. Qed.

Lemma stored1 : InMemory.get "exec_2" (w_store world1) = Some lease1.
Proof. vm_compute. reflexivity. Qed.

Lemma fresh1 : store_get (next_execution_id fake_cp fake_world) (w_store fake_world) = None.
Proof. vm_compute. reflexivity. Qed.

Lemma world1_ok : store_ok (w_store world1).
Proof.
  pose proof (createExecution_keeps fake_cp first_request fake_world emptyState_ok fresh1) as [Hok _ _].
  by rewrite created1 in Hok.
Qed.

Definition sample_calls : list ApiCall :=
  [CallCreate (sample_request "t1" [JStr "deploy"] []);
   CallSteer "exec_2" (Some (JStr "go on")); CallSuspend "exec_2"; CallResume "exec_2"].

Definition busy_world : World ExecutionStoreState (FakeState N) :=
  Eval vm_compute in run_calls fake_cp sample_calls fake_world.

Lemma busy_reached : reaches fake_cp fake_world busy_world.
Proof.
  assert (run_calls fake_cp sample_calls fake_world = busy_world) as <- by (vm_compute; reflexivity).
  apply run_calls_reaches. vm_compute. repeat split.
Qed.
