(* ===== verification/ExecProps.v ===== *)
(** * Execution control plane: properties of the interface

    Soundness of every reachable store, isolation, idempotent creation, and the
    guards of the lifecycle calls. *)

From stdpp Require Import base list strings pretty.
From Stdlib Require Import ZArith.
From S2P Require Import Prelude JsString JsValue ExecTypes ExecStore ExecValidate ExecControlPlane ExecInvariant ExecCalls FakeProvider ExecFixtures.

(** ** Soundness and isolation *)

(** C1: whatever calls a control plane over a fresh in-memory store receives, and
    whether they return or throw, every stored lease counts its event log exactly:
    the log holds [lastEventSequence] events, numbered from one in order, each with
    its own cursor and execution id; and no more provider events are recorded than
    the request's [maxEvents]. *)
Theorem reachable_leases_sound {W} (cp : ControlPlane W) (e : W) w id l :
  reaches cp (MkWorld emptyState e) w →
  InMemory.get id (w_store w) = Some l →
  let log := InMemory.log id (w_store w) in
  l_id l = id ∧
  Z.of_nat (length log) = l_lastEventSequence l ∧
  (∀ i ev, log !! i = Some ev →
     ev_sequence ev = Z.of_nat i + 1 ∧ ev_cursor ev = int_to_string (Z.of_nat i + 1) ∧
     ev_executionId ev = id) ∧
  (∀ m, policy_maxEvents (l_request l) = Some m →
     Z.of_nat (length (l_seenProviderEventIds l)) ≤ Z.max 0 m).
Proof.
  intros Hr Hget log.
  destruct (e_ok _ _ (reaches_evolves cp _ _ Hr emptyState_ok)) as [Hwf Hls _ _].
  destruct (Hls id l Hget) as [Hb [Hn Hlog]].
  split; [by apply (store_get_id id (w_store w) l)|]. done.
Qed.

Definition busy_lease : option AgentExecutionLease :=
  Eval vm_compute in InMemory.get "exec_2" (w_store busy_world).

Lemma reachable_leases_sound_witness :
  match busy_lease with
  | Some l => Z.of_nat (length (InMemory.log "exec_2" (w_store busy_world))) = l_lastEventSequence l
  | None => False
  end.
Proof.
  apply (reachable_leases_sound fake_cp (MkFake [] [] 1%N) busy_world "exec_2").
  - exact busy_reached.
  - vm_compute. reflexivity.
Defined.

(** A call that names an execution leaves every other execution alone: their
    leases and their event logs are the same afterwards, and the log of the named
    one only grows, on success and on failure. *)
Theorem call_isolated {S W} `{AgentExecutionStoreLaws S} (cp : ControlPlane W) c id (w : World S W) :
  store_ok (w_store w) → call_target c = Some id →
  let w' := (run_call cp c w).2 in
  (∀ id', id' ≠ id → store_get id' (w_store w') = store_get id' (w_store w) ∧
                     store_log id' (w_store w') = store_log id' (w_store w)) ∧
  store_log id (w_store w) `prefix_of` store_log id (w_store w').
Proof.
  intros Hs Hc w'. destruct (run_call_target cp c id w Hs Hc) as [_ [_ Hl Hg Hp _]].
  split; [|done]. intros id' Hne. by rewrite Hl, Hg.
Qed.

Lemma call_isolated_witness :
  let w' := (run_call fake_cp (CallTerminate "exec_9") fake_world).2 in
  store_get "exec_2" (w_store w') = store_get "exec_2" (w_store fake_world).
Proof.
  apply (call_isolated fake_cp (CallTerminate "exec_9") "exec_9" fake_world emptyState_ok eq_refl).
  discriminate.
Defined.

(** ** Idempotent creation *)

Section Creation.
Context {S W : Type} `{AgentExecutionStoreLaws S} (cp : ControlPlane W).
Notation World := (World S W).

(** What creation does once the token is found. *)
Lemma createExecution_replay request t existing (w : World) :
  validateExecutionRequest (cp_parse_url cp) request = Ok tt →
  path ["clientToken"] request = Some (JStr t) →
  store_findByClientToken t (w_store w) = Some existing →
  createExecution cp request w =
    (if String.eqb (canonicalJson (l_request existing)) (canonicalJson request)
     then Ok existing
     else Throw (coded_error "EXECUTION_IDEMPOTENCY_CONFLICT"
            ("Client token '" +:+ t +:+ "' is already bound to a different execution request.")
            [("executionId", l_id existing)]), w).
Proof.
  intros Hv Ht Hfind. unfold createExecution, mbind, M_bind, from_outcome, get_state, throw, mret, M_ret.
  rewrite Hv. destruct (request_token_unique (W := W) _ _ Ht) as [-> _]. rewrite Hfind.
  by destruct (String.eqb _ _).
Qed.

(** A stored lease with the token is the one creation finds. *)
Lemma stored_token_found t id l (s : S) :
  store_ok s → store_get id s = Some l → has_token t l = true →
  ∃ existing, store_findByClientToken t s = Some existing ∧ l_id existing = id ∧ existing = l.
Proof.
  intros Hs Hget Ht. destruct (store_findByClientToken t s) as [ex|] eqn:Hf.
  - apply store_find_some in Hf as [Hg Ht']; [|apply Hs].
    assert (l_id ex = id) as Hid by (by eapply (ok_tokens _ Hs)).
    exists ex. split; [done|]. split; [done|]. congruence.
  - pose proof (store_find_none _ _ _ _ (ok_wf _ Hs) Hf Hget). congruence.
Qed.

(** The lease creation answers with is stored, and carries the request. *)
Lemma createExecution_stored request (w : World) l w' :
  store_ok (w_store w) → store_get (next_execution_id cp w) (w_store w) = None →
  createExecution cp request w = (Ok l, w') →
  store_ok (w_store w') ∧ store_get (l_id l) (w_store w') = Some l ∧
  canonicalJson (l_request l) = canonicalJson request.
Proof.
  intros Hs Hfresh Hc.
  pose proof (createExecution_keeps cp request w Hs Hfresh) as [Hok _ _]. rewrite Hc in Hok.
  split; [done|]. revert Hc.
  unfold createExecution, mbind, M_bind, from_outcome, get_state, throw, mret, M_ret.
  destruct (validateExecutionRequest _ request) as [[]|e] eqn:Hv; [|done].
  destruct (valid_token cp _ Hv) as [t Ht].
  destruct (request_token_unique (W := W) _ _ Ht) as [-> Htok].
  destruct (store_findByClientToken t (w_store w)) as [ex|] eqn:Hfind.
  { destruct (String.eqb_spec (canonicalJson (l_request ex)) (canonicalJson request)) as [Heq|]; cbn;
      [|done]. intros [= -> ->]. split; [|done].
    by eapply store_find_some; [apply Hs|]. }
  destruct (selectProvider cp request) as [p|e]; [|done].
  unfold next_execution_id in Hfresh. unfold now, newId, ext.
  destruct (cp_now cp (w_ext w)) as [at' e1]. cbn -[sanitizeId] in Hfresh |- *.
  destruct (cp_idFactory cp e1) as [id e2]. cbn -[sanitizeId] in Hfresh |- *.
  destruct (new_lease_starts (w_store w) p request id at' Hs Hfresh) as [Hfrom Hfr].
  { intros tok id' l' Hl ->%Htok. by eapply store_find_none; [apply Hs|..]. }
  set (l0 := new_lease p request id at') in *.
  pose proof (start_lease_frame cp (w_store w) l0 p (MkFrame l0 (MkWorld (w_store w) e2)) Hfr) as Hst.
  unfold with_lease. destruct (start_lease cp p _) as [[[]|e] f]; [|done].
  destruct Hst as [_ (ls & Hget & Hsame & _)]. cbn -[sanitizeId] in Hget |- *.
  unfold getExecution, get_state, mbind, M_bind, throw, mret, M_ret.
  rewrite Hget. intros [= -> <-]. pose proof (same_id _ _ Hsame) as Hid. cbn in Hid. rewrite Hid.
  split; [done|]. by rewrite (same_request _ _ Hsame).
Qed.

(** C13: creating an execution is idempotent on the client token.  Once a creation
    has answered, then after any further calls a creation with an equal request,
    whatever the order of its keys, answers with the same execution and changes
    nothing: no provider is asked, nothing is stored. *)
Theorem createExecution_idempotent request request' (w w1 w2 : World) l :
  store_ok (w_store w) → store_get (next_execution_id cp w) (w_store w) = None →
  createExecution cp request w = (Ok l, w1) →
  reaches cp w1 w2 →
  validateExecutionRequest (cp_parse_url cp) request' = Ok tt →
  json_equiv request request' →
  path ["clientToken"] request' = path ["clientToken"] (l_request l) →
  ∃ l', createExecution cp request' w2 = (Ok l', w2) ∧ same_identity l l' ∧
        store_get (l_id l) (w_store w2) = Some l'.
Proof.
  intros Hs Hfresh Hc Hreach Hv Heq Hpath.
  destruct (createExecution_stored _ _ _ _ Hs Hfresh Hc) as (Hok & Hget & Hcan).
  destruct (reaches_evolves cp _ _ Hreach Hok) as [Hok2 _ Hk].
  destruct (Hk _ _ Hget) as (l' & Hget' & Hsame).
  destruct (valid_token cp _ Hv) as [t Ht].
  assert (has_token t l' = true) as Htok.
  { rewrite (has_token_same t _ _ Hsame). unfold has_token.
    change (prop "clientToken" (Some (l_request l))) with (path ["clientToken"] (l_request l)).
    rewrite <- Hpath, Ht. cbn. apply String.eqb_refl. }
  destruct (stored_token_found t _ _ _ Hok2 Hget' Htok) as (ex & Hfind & _ & ->).
  exists l'. split; [|done].
  rewrite (createExecution_replay _ _ _ _ Hv Ht Hfind).
  rewrite (same_request _ _ Hsame), Hcan, (canonicalJson_equiv _ _ Heq).
  by rewrite String.eqb_refl.
Qed.

(** A client token stays bound to its first request: creating a different
    request under a token that is in use throws EXECUTION_IDEMPOTENCY_CONFLICT
    and changes nothing. *)
Theorem createExecution_conflict request (w : World) t id l :
  store_ok (w_store w) →
  store_get id (w_store w) = Some l → has_token t l = true →
  path ["clientToken"] request = Some (JStr t) →
  validateExecutionRequest (cp_parse_url cp) request = Ok tt →
  canonicalJson (l_request l) ≠ canonicalJson request →
  ∃ e, createExecution cp request w = (Throw e, w) ∧
       err_code e = Some "EXECUTION_IDEMPOTENCY_CONFLICT".
Proof.
  intros Hs Hget Htok Ht Hv Hne.
  destruct (stored_token_found t _ _ _ Hs Hget Htok) as (ex & Hfind & _ & ->).
  rewrite (createExecution_replay _ _ _ _ Hv Ht Hfind).
  destruct (String.eqb_spec (canonicalJson (l_request l)) (canonicalJson request)) as [|_]; [done|].
  by eexists.
Qed.
End Creation.

Lemma createExecution_idempotent_witness :
  ∃ l', createExecution fake_cp first_request world1 = (Ok l', world1) ∧ same_identity lease1 l' ∧
        store_get (l_id lease1) (w_store world1) = Some l'.
Proof.
  apply (createExecution_idempotent fake_cp first_request first_request fake_world world1 world1 lease1).
  - exact emptyState_ok.
  - exact fresh1.
  - exact created1.
  - apply reaches_refl.
  - vm_compute. reflexivity.
  - apply equiv_refl.
  - vm_compute. reflexivity.
Defined.

Lemma createExecution_conflict_witness :
  ∃ e, createExecution fake_cp (sample_request "t1" [] []) world1 = (Throw e, world1) ∧
       err_code e = Some "EXECUTION_IDEMPOTENCY_CONFLICT".
Proof.
  apply (createExecution_conflict fake_cp (sample_request "t1" [] []) world1 "t1" "exec_2" lease1).
  - exact world1_ok.
  - exact stored1.
  - vm_compute. reflexivity.
  - reflexivity.
  - vm_compute. reflexivity.
  - intros Heq. vm_compute in Heq. discriminate.
Defined.
