(* ===== verification/ExecStream.v ===== *)
(** * Execution control plane: cursor polling

    What [streamEvents] hands out, and that a client that keeps polling from the
    cursor it was last given sees every event of the log exactly once, in order,
    whatever happens to the execution between its polls. *)

From stdpp Require Import base list strings pretty.
From Stdlib Require Import ZArith.
From S2P Require Import Prelude JsString JsValue ExecTypes ExecStore ExecValidate ExecControlPlane ExecInvariant ExecCalls FakeProvider ExecFixtures.

Lemma after_numbered id n k log :
  log_numbered id n log → 0 ≤ k → after k log = drop (Z.to_nat k) log.
Proof.
  intros [_ Hlog]. unfold after.
  assert (∀ (es : list AgentExecutionEvent) (b : nat),
    (∀ i e, es !! i = Some e → ev_sequence e = Z.of_nat (b + i) + 1) →
    ∀ k, 0 ≤ k → List.filter (λ e, k <? ev_sequence e) es = drop (Z.to_nat k - b) es) as Haux.
  { clear. induction es as [|e es IH]; intros b Hes k Hk; [by rewrite drop_nil|].
    cbn [List.filter]. pose proof (Hes 0%nat e eq_refl) as He.
    rewrite (IH (S b)); [|intros i e' Hi; rewrite (Hes (S i) e' Hi); f_equal; f_equal; lia|done].
    destruct (Z.ltb_spec k (ev_sequence e)).
    - replace (Z.to_nat k - b)%nat with 0%nat by lia.
      by replace (Z.to_nat k - S b)%nat with 0%nat by lia.
    - by replace (Z.to_nat k - b)%nat with (S (Z.to_nat k - S b)) by lia. }
  intros Hk. rewrite (Haux log 0%nat); [by rewrite Nat.sub_0_r| |done].
  intros i e Hi. by destruct (Hlog i e Hi).
Qed.

Lemma parseCursor_range c n : parseCursor c = Ok n → 0 ≤ n ≤ MAX_SAFE_INTEGER.
Proof.
  unfold parseCursor. destruct c as [c|]; [|intros [= <-]; done].
  destruct (String.eqb c ""); [intros [= <-]; done|].
  destruct (safe_integer (string_to_num c)) as [v|] eqn:Hv; [|done].
  destruct (Z.ltb_spec v 0); [done|]. intros [= <-].
  unfold safe_integer, safe_Z in Hv. destruct (num_to_Z _); [|done].
  destruct (_ && _) eqn:Hz; simplify_eq. lia.
Qed.

Lemma parseCursor_int n : 0 ≤ n ≤ MAX_SAFE_INTEGER → parseCursor (Some (int_to_string n)) = Ok n.
Proof.
  intros [H0 Hmax]. unfold parseCursor.
  destruct (String.eqb_spec (int_to_string n) "") as [He|_].
  { destruct (pretty_nat_reads n H0) as (k & _ & Hk). by rewrite He in Hk. }
  rewrite string_to_num_pretty by done. unfold safe_integer. rewrite num_to_Z_int.
  replace (safe_Z n) with true by (unfold safe_Z, MAX_SAFE_INTEGER in *; lia).
  destruct (Z.ltb_spec n 0); [lia|done].
Qed.

Section Stream.
Context {S W : Type} `{AgentExecutionStoreLaws S} (cp : ControlPlane W).
Notation World := (World S W).

Definition limit_events (limit : option Z) (es : list AgentExecutionEvent) : list AgentExecutionEvent :=
  match limit with
  | Some n => if 0 <=? n then take (Z.to_nat n) es else es
  | None => es
  end.

(** A batch is read off the log the call leaves behind. *)
Lemma streamEvents_batch id c limit (w w' : World) b :
  store_ok (w_store w) → streamEvents cp id c limit w = (Ok b, w') →
  ∃ n l, parseCursor c = Ok n ∧ store_get id (w_store w') = Some l ∧
    cb_executionId b = id ∧ cb_done b = isTerminal (l_status l) ∧
    cb_events b = limit_events limit (drop (Z.to_nat n) (store_log id (w_store w'))) ∧
    cb_cursor b = from_option ev_cursor (int_to_string n) (last (cb_events b)).
Proof.
  intros Hs Hb. pose proof (streamEvents_keeps cp (w_store w) id c limit Hs w eq_refl) as Hk.
  rewrite Hb in Hk. destruct Hk as [Hok _]. revert Hb.
  unfold streamEvents, mbind, M_bind, from_outcome.
  destruct (parseCursor c) as [n|e] eqn:Hn; [|done].
  destruct (getExecution id w) as [[l|e] w1]; [|done].
  set (m := if _ && _ then _ else _). destruct (m w1) as [[[]|e] w2]; [|done].
  unfold getExecution at 1, get_state, mbind, M_bind, mret, M_ret, throw.
  destruct (store_get id (w_store w2)) as [l2|] eqn:Hl2; [|done].
  intros [= <- <-]. exists n, l2. cbn. apply parseCursor_range in Hn as Hr.
  rewrite store_events_after.
  rewrite (after_numbered id (l_lastEventSequence l2)); [|apply (ok_leases _ Hok _ _ Hl2)|lia].
  done.
Qed.

(** A client that polls from the cursor it was last given, while any other calls
    go on in between: what it has received so far, and its cursor. *)
Inductive polls (id : string) : World → list AgentExecutionEvent → option string → World → Prop :=
| polls_start w : polls id w [] None w
| polls_other w got c w1 w2 :
    polls id w got c w1 → reaches cp w1 w2 → polls id w got c w2
| polls_poll w got c w1 limit b w2 :
    polls id w got c w1 → streamEvents cp id c limit w1 = (Ok b, w2) →
    polls id w (got ++ cb_events b) (Some (cb_cursor b)) w2.

Definition caught_up (id : string) (got : list AgentExecutionEvent) (c : option string)
    (s : S) : Prop :=
  store_ok s ∧ got `prefix_of` store_log id s ∧ parseCursor c = Ok (Z.of_nat (length got)).

Lemma limit_events_prefix limit es : limit_events limit es `prefix_of` es.
Proof.
  unfold limit_events. destruct limit as [n|]; [|done]. destruct (0 <=? n); [|done].
  exists (drop (Z.to_nat n) es). by rewrite take_drop.
Qed.

(** The cursor of a batch that starts at [n]. *)
Lemma batch_cursor id n k log es :
  log_numbered id k log → es `prefix_of` drop n log → (n ≤ length log)%nat →
  Z.of_nat (length log) ≤ MAX_SAFE_INTEGER →
  parseCursor (Some (from_option ev_cursor (int_to_string (Z.of_nat n)) (last es))) =
    Ok (Z.of_nat (n + length es)).
Proof.
  intros [_ Hlog] [rest Hes] Hn Hmax.
  assert (length log = n + length es + length rest)%nat as Hlen.
  { pose proof (f_equal length Hes) as Hl. rewrite length_drop, length_app in Hl. lia. }
  destruct (last es) as [e|] eqn:Hlast; cbn [from_option].
  - rewrite last_lookup in Hlast. pose proof (lookup_lt_Some _ _ _ Hlast).
    assert (log !! (n + Nat.pred (length es))%nat = Some e) as Hin.
    { rewrite <- lookup_drop, Hes. by apply lookup_app_l_Some. }
    destruct (Hlog _ _ Hin) as (_ & -> & _). rewrite parseCursor_int by lia. f_equal. lia.
  - apply last_None in Hlast as ->. cbn [length]. rewrite parseCursor_int by lia. f_equal. lia.
Qed.

Lemma poll_catches_up id got c limit (w w' : World) b :
  caught_up id got c (w_store w) → streamEvents cp id c limit w = (Ok b, w') →
  Z.of_nat (length (store_log id (w_store w'))) ≤ MAX_SAFE_INTEGER →
  caught_up id (got ++ cb_events b) (Some (cb_cursor b)) (w_store w') ∧
  (limit = None → got ++ cb_events b = store_log id (w_store w')).
Proof.
  intros (Hs & Hgot & Hc) Hb Hmax.
  destruct (streamEvents_batch _ _ _ _ _ _ Hs Hb) as (n & l & Hn & Hl & _ & _ & Hev & Hcur).
  rewrite Hc in Hn. injection Hn as <-. rewrite Nat2Z.id in Hev.
  pose proof (streamEvents_keeps cp (w_store w) id c limit Hs w eq_refl) as Hk.
  rewrite Hb in Hk. destruct Hk as [Hok Ht]. pose proof (t_grows _ _ _ Ht) as Hgrow.
  destruct (transitivity Hgot Hgrow) as [rest Hrest].
  assert (drop (length got) (store_log id (w_store w')) = rest) as Hdrop.
  { rewrite Hrest. apply drop_app_length. }
  rewrite Hdrop in Hev. pose proof (limit_events_prefix limit rest) as Hpre. rewrite <- Hev in Hpre.
  split; [split; [done|split]|].
  - rewrite Hrest. by apply prefix_app.
  - rewrite Hcur, length_app. eapply batch_cursor; [apply (ok_leases _ Hok _ _ Hl)| | |done].
    + by rewrite Hdrop.
    + rewrite Hrest, length_app. lia.
  - intros ->. cbn in Hev. by rewrite Hev.
Qed.

Lemma other_calls_catch_up id got c (w w' : World) :
  caught_up id got c (w_store w) → reaches cp w w' → caught_up id got c (w_store w').
Proof.
  intros (Hs & Hgot & Hc) Hr. destruct (reaches_evolves cp _ _ Hr Hs) as [Hok Hg _].
  split; [done|]. split; [|done]. etrans; [exact Hgot|apply Hg].
Qed.

Lemma polls_evolves id (w w' : World) got c :
  polls id w got c w' → store_ok (w_store w) → evolves (w_store w) (w_store w').
Proof.
  induction 1 as [w|w got c w1 w2 _ IH Hr|w got c w1 limit b w2 _ IH Hb]; intros Hs.
  - by apply evolves_refl.
  - eapply evolves_trans; [by apply IH|]. apply (reaches_evolves cp); [done|]. by apply IH.
  - eapply evolves_trans; [by apply IH|]. specialize (IH Hs).
    pose proof (streamEvents_keeps cp (w_store w1) id c limit (e_ok _ _ IH) w1 eq_refl) as Hk.
    rewrite Hb in Hk. destruct Hk. by eapply touches_evolves.
Qed.

Lemma polls_caught_up id (w w' : World) got c :
  polls id w got c w' → store_ok (w_store w) →
  Z.of_nat (length (store_log id (w_store w'))) ≤ MAX_SAFE_INTEGER →
  caught_up id got c (w_store w').
Proof.
  induction 1 as [w|w got c w1 w2 Hp IH Hr|w got c w1 limit b w2 Hp IH Hb]; intros Hs Hmax.
  - split; [done|]. split; [apply prefix_nil|done].
  - eapply other_calls_catch_up; [|exact Hr]. apply IH; [done|].
    destruct (reaches_evolves cp _ _ Hr (e_ok _ _ (polls_evolves _ _ _ _ _ Hp Hs))) as [_ Hg _].
    pose proof (prefix_length _ _ (Hg id)). lia.
  - pose proof (e_ok _ _ (polls_evolves _ _ _ _ _ Hp Hs)) as Hok1.
    pose proof (streamEvents_keeps cp (w_store w1) id c limit Hok1 w1 eq_refl) as Hk.
    rewrite Hb in Hk. destruct Hk as [_ Ht]. pose proof (prefix_length _ _ (t_grows _ _ _ Ht)).
    eapply poll_catches_up; [|exact Hb|done]. apply IH; [done|lia].
Qed.

(** C29: cursor polling is exact.  A client that starts without a cursor and keeps
    polling with the cursor of its last batch, with any limits and with any other
    calls in between, has at every moment received a prefix of the event log, each
    event once and in order; and the first poll without a limit completes it to the
    whole log. *)
Theorem polling_exact id (w w' : World) got c :
  store_ok (w_store w) → polls id w got c w' →
  Z.of_nat (length (store_log id (w_store w'))) ≤ MAX_SAFE_INTEGER →
  got `prefix_of` store_log id (w_store w') ∧
  ∀ b w'', streamEvents cp id c None w' = (Ok b, w'') →
    Z.of_nat (length (store_log id (w_store w''))) ≤ MAX_SAFE_INTEGER →
    got ++ cb_events b = store_log id (w_store w'').
Proof.
  intros Hs Hp Hmax. pose proof (polls_caught_up _ _ _ _ _ Hp Hs Hmax) as Hc.
  split; [apply Hc|]. intros b w'' Hb Hmax'.
  by destruct (poll_catches_up _ _ _ _ _ _ _ Hc Hb Hmax') as [_ ->].
Qed.
End Stream.

Definition poll_world1 : World ExecutionStoreState (FakeState N) :=
  Eval vm_compute in after_call (streamEvents fake_cp "exec_2" None (Some 2)) world1.

Definition first_batch : AgentExecutionCursorBatch :=
  Eval vm_compute in
    match streamEvents fake_cp "exec_2" None (Some 2) world1 with
    | (Ok b, _) => b
    | _ => {| cb_executionId := ""; cb_events := []; cb_cursor := ""; cb_done := true |}
    end.

Lemma polling_exact_witness :
  length (cb_events first_batch) = 2%nat ∧
  ([] ++ cb_events first_batch) `prefix_of` store_log "exec_2" (w_store poll_world1).
Proof.
  split; [reflexivity|].
  apply (polling_exact fake_cp "exec_2" world1 poll_world1 _ (Some (cb_cursor first_batch)) world1_ok).
  - apply (polls_poll fake_cp "exec_2" world1 [] None world1 (Some 2) first_batch poll_world1).
    + apply polls_start.
    + vm_compute. reflexivity.
  - vm_compute. discriminate.
Defined.
