(* ===== verification/ExecLifecycle.v ===== *)
(** * Execution control plane: failure, policy, termination, expiry

    The error and clean-up paths: a creation that fails, a budget that is exceeded,
    control calls on an execution that is over, [terminate] and [reapExpired]. *)

From stdpp Require Import base list strings pretty.
From Stdlib Require Import ZArith.
From S2P Require Import Prelude JsString JsValue ExecTypes ExecStore ExecValidate ExecControlPlane ExecInvariant ExecCalls FakeProvider ExecFixtures.

(** Whatever sandbox the lease has is cleaned up. *)
Definition cleaned (l : AgentExecutionLease) : Prop :=
  is_Some (l_sandbox l) → is_Some (l_cleanup l).

(** Failed for a recorded reason, and cleaned up. *)
Definition failed_with (code : string) (l : AgentExecutionLease) : Prop :=
  l_status l = st_failed ∧ (∃ message, l_failure l = Some (code, message)) ∧ cleaned l.

Section Lifecycle.
Context {S W : Type} `{AgentExecutionStoreLaws S} (cp : ControlPlane W).
Notation World := (World S W).
Notation Frame := (Frame S W).

(** A predicate on the lease in hand alone. *)
Definition lp (φ : AgentExecutionLease → Prop) : Frame → Prop := fp (λ l _, φ l).

(** The lease in hand satisfies [φ] and is the one stored. *)
Definition stored (φ : AgentExecutionLease → Prop) : Frame → Prop :=
  fp (λ l s, φ l ∧ store_get (l_id l) s = Some l).

Lemma triple_put_stored φ E : triple (lp φ) put_lease (λ _, stored φ) E.
Proof.
  intros [l [s e]] Hl. split; [done|]. cbn. by rewrite store_get_put, String.eqb_refl.
Qed.

Lemma triple_lp_assign (φ φ' : AgentExecutionLease → Prop) g E :
  (∀ l, φ l → φ' (g l)) → triple (lp φ) (assign g) (λ _, lp φ') E.
Proof. intros Hg. apply triple_assign'. auto. Qed.

Lemma triple_lp_touch φ E :
  (∀ t l, φ l → φ (set_updatedAt t l)) → triple (lp φ) (touch cp) (λ _, lp φ) E.
Proof. intros Hg. apply triple_touch. auto. Qed.

Lemma triple_lp_cleanup (φ φ' : AgentExecutionLease → Prop) p sandbox E :
  (∀ r l, φ l → φ' (set_cleanup (Some r) l)) →
  triple (lp φ) (assign_cleanup cp p sandbox) (λ _, lp φ') E.
Proof.
  intros Hφ [l w] Hl. unfold assign_cleanup, mbind, M_bind, lease, gets, in_world. cbn.
  destruct (cleanup_total cp p (l_id l) sandbox w) as (r & w' & -> & _). cbn. by apply Hφ.
Qed.

Lemma triple_lp_read {A} φ (k : AgentExecutionLease → M Frame A) Q E :
  (∀ l, φ l → triple (lp (eq l)) (k l) Q E) → triple (lp φ) (lease ≫= k) Q E.
Proof. intros Hk [l w] Hl. by apply (Hk l Hl). Qed.

(** What a policy failure leaves: everything but status, failure, clean-up, time
    and the event count is as before. *)
Lemma triple_failForPolicy_marks p l code message force E :
  providerFor cp l = Ok p → isTerminal (l_status l) = false ∨ force = true →
  triple (lp (eq l)) (failForPolicy cp code message force)
    (λ _, lp (λ l', failed_with code l' ∧ same_identity l l')) E.
Proof.
  intros Hp Hforce. unfold failForPolicy. apply triple_lp_read. intros l0 <-.
  replace (isTerminal (l_status l) && negb force) with false
    by (destruct Hforce as [->| ->]; by rewrite ?andb_false_r).
  set (ψ := λ l', l_status l' = st_failed ∧ l_failure l' = Some (code, message) ∧
    same_identity l l' ∧ l_sandbox l' = l_sandbox l).
  eapply triple_bind; [apply (triple_lp_assign _ (λ l', l' = set_status st_failed l)); by intros ? <-|].
  intros []. eapply triple_bind; [apply (triple_lp_assign _ (λ l', ψ l' ∧ l_cleanup l' = l_cleanup l))|].
  { intros ? ->. split; [|done]. split; [done|]. split; [done|]. by split. }
  intros []. eapply triple_bind; [apply triple_lp_touch|].
  { intros t l' ((? & ? & Hs & ?) & ?). split; [|done]. split; [done|]. split; [done|].
    split; [by destruct Hs; split|done]. }
  intros []. eapply triple_bind with (R := λ _, lp (λ l', ψ l' ∧ cleaned l')).
  - destruct (l_sandbox l) as [sb|] eqn:Hsb.
    + destruct (l_cleanup l) eqn:Hcu.
      * intros [l' w] [Hψ Hc]. split; [done|]. intros _. by rewrite Hc.
      * apply triple_outcome_bind; [|congruence]. intros p' _. apply triple_lp_cleanup.
        intros r l' [(? & ? & Hs & ?) _]. split; [|by intros _; eexists].
        split; [done|]. split; [done|]. split; [by destruct Hs; split|done].
    + intros [l' w] [Hψ _]. split; [done|]. intros Hs. destruct Hψ as (_ & _ & _ & Hsb').
      rewrite Hsb' in Hs. by destruct Hs.
  - intros []. apply triple_lp_read. intros l' [Hψ Hc].
    eapply triple_conseq;
      [apply (triple_append_lease cp (λ l', failed_with code l' ∧ same_identity l l') _ E)| | |].
    + intros n l1 [(? & ? & ?) Hs]. split; [done|by destruct Hs; split].
    + intros [l1 w] Heq. unfold lp, fp in Heq. cbn in Heq. subst l1.
      destruct Hψ as (? & ? & ? & ?). split; [|done]. split; [done|]. split; [by eexists|done].
    + done.
    + done.
Qed.

(** ** Budgets *)

(** The lease after the events of a batch, with nothing failed. *)
Record recorded (l : AgentExecutionLease) (unseen : list AgentExecutionProviderEvent)
    (l' : AgentExecutionLease) : Prop := {
  rec_same : same_identity l l';
  rec_status : l_status l' = foldl status_after (l_status l) unseen;
  rec_seen : l_seenProviderEventIds l' = l_seenProviderEventIds l ++ (pe_id <$> unseen);
  rec_sandbox : l_sandbox l' = l_sandbox l;
  rec_cleanup : l_cleanup l' = l_cleanup l;
  rec_failure : l_failure l' = l_failure l;
}.

Lemma recorded_setters l unseen l' :
  recorded l unseen l' →
  (∀ n, recorded l unseen (set_lastEventSequence n l')) ∧
  (∀ t, recorded l unseen (set_updatedAt t l')) ∧
  (∀ c, recorded l unseen (set_providerCursor c l')).
Proof. intros [[] ? ? ? ? ?]. repeat split; done. Qed.

Lemma triple_record_unseen_marks l unseen cursor E :
  triple (lp (eq l)) (record_unseen cp unseen cursor) (λ _, lp (recorded l unseen)) E.
Proof.
  unfold record_unseen. apply triple_bind with (R := λ _, lp (recorded l unseen)).
  - destruct unseen as [|u us].
    { intros f Hf. unfold lp, fp in *. cbn. rewrite <- Hf. split; try done. cbn. by rewrite app_nil_r. }
    set (evs := u :: us) in *.
    eapply triple_bind with (R := λ _, lp (recorded l [])).
    + eapply triple_pre; [apply (triple_append_lease cp (recorded l []))|].
      * intros n l' Hl. by apply recorded_setters.
      * intros f Hf. unfold lp, fp in *. rewrite <- Hf. split; try done. cbn. by rewrite app_nil_r.
    + intros [].
      eapply triple_bind; [apply (triple_lp_assign _ (λ l', ∃ l1, recorded l [] l1 ∧
        l' = set_seenProviderEventIds (l_seenProviderEventIds l1 ++ (pe_id <$> evs)) l1)); eauto|].
      intros []. apply triple_lp_assign. intros l' (l1 & [[] Hst Hseen ? ? ?] & ->).
      cbn in Hst. split; try done.
      * cbn [updateStatusFromEvents l_status set_status set_seenProviderEventIds]. by rewrite Hst.
      * cbn [updateStatusFromEvents l_seenProviderEventIds set_status set_seenProviderEventIds].
        rewrite Hseen. cbn [fmap list_fmap]. by rewrite app_nil_r.
  - intros []. apply triple_bind with (R := λ _, lp (recorded l unseen)).
    + destruct cursor; [|apply triple_ret_fp].
      apply triple_lp_assign. intros l' Hl. by apply recorded_setters.
    + intros []. apply triple_lp_touch. intros t l' Hl. by apply recorded_setters.
Qed.

(** Which policy a batch of unseen events breaks, if any. *)
Definition budget_verdict (l : AgentExecutionLease) (unseen : list AgentExecutionProviderEvent) :
    option string :=
  if match remaining_events l with
     | Some r => (r =? 0) || (r <? Z.of_nat (length unseen))
     | None => false
     end
  then Some "EXECUTION_EVENT_BUDGET_EXCEEDED"
  else match policy_maxCostUsd (l_request l), latestEstimatedCost unseen with
       | Some maxCostUsd, Some cost =>
           if num_ltb maxCostUsd cost then Some "EXECUTION_COST_BUDGET_EXCEEDED" else None
       | _, _ => None
       end.

(** What the control plane gets to see of the provider's next batch: nothing at all
    once the event budget is used up. *)
Definition provider_answer (p : AgentExecutionProvider W) (handle : AgentExecutionHandle)
    (l : AgentExecutionLease) (limit : option Z) (e : W) : outcome (list AgentExecutionProviderEvent) :=
  if bool_decide (remaining_events l = Some 0) then Ok []
  else match (p_readEvents p handle (l_providerCursor l)
                (provider_limit (remaining_events l) limit) e).1 with
       | Ok batch => Ok (List.filter (λ ev, negb (is_seen l ev)) (eb_events batch))
       | Throw err => Throw err
       end.

(** The lease a pull leaves behind. *)
Definition pulled (l : AgentExecutionLease) (unseen : list AgentExecutionProviderEvent)
    (l' : AgentExecutionLease) : Prop :=
  same_identity l l' ∧
  match budget_verdict l unseen with
  | Some code => failed_with code l'
  | None => recorded l unseen l'
  end.

Lemma triple_enforce_marks p l unseen1 exceeded unseen E :
  providerFor cp l = Ok p →
  triple (lp (recorded l unseen1)) (enforce_budgets cp l exceeded unseen)
    (λ _, lp (λ l', same_identity l l' ∧
       match (if exceeded then Some "EXECUTION_EVENT_BUDGET_EXCEEDED"
              else match policy_maxCostUsd (l_request l), latestEstimatedCost unseen with
                   | Some maxCostUsd, Some cost =>
                       if num_ltb maxCostUsd cost then Some "EXECUTION_COST_BUDGET_EXCEEDED" else None
                   | _, _ => None
                   end) with
       | Some code => failed_with code l'
       | None => recorded l unseen1 l'
       end)) E.
Proof.
  intros Hp.
  assert (∀ code message, triple (lp (recorded l unseen1)) (failForPolicy cp code message true)
    (λ _, lp (λ l', same_identity l l' ∧ failed_with code l')) E) as Hfail.
  { intros code message [l1 w] Hrec. unfold lp, fp in Hrec. cbn in Hrec.
    pose proof (triple_failForPolicy_marks p l1 code message true E) as Ht.
    assert (providerFor cp l1 = Ok p) as Hp1.
    { revert Hp. unfold providerFor. rewrite (same_provider _ _ (rec_same _ _ _ Hrec)).
      by destruct (assoc_get _ _). }
    specialize (Ht Hp1 (or_intror eq_refl) (MkFrame l1 w) eq_refl).
    destruct (failForPolicy _ _ _ _ _) as [[[]|e] f]; [|done]. destruct Ht as [Hf Hs].
    split; [|done]. eapply same_identity_trans; [apply Hrec|done]. }
  assert (triple (lp (recorded l unseen1)) (mret tt)
    (λ _, lp (λ l', same_identity l l' ∧ recorded l unseen1 l')) E) as Hret.
  { intros f Hrec. split; [apply Hrec|done]. }
  unfold enforce_budgets. destruct exceeded; [apply Hfail|].
  destruct (policy_maxCostUsd (l_request l)) as [m|], (latestEstimatedCost unseen) as [c|];
    try apply Hret. by destruct (num_ltb m c).
Qed.

Lemma triple_pull_marks p l handle limit unseen E :
  l_handle l = Some handle → isTerminal (l_status l) = false → providerFor cp l = Ok p →
  triple (λ f, fr_lease f = l ∧ provider_answer p handle l limit (w_ext (fr_world f)) = Ok unseen)
    (pullProviderEvents cp limit) (λ _, stored (pulled l unseen)) E.
Proof.
  intros Hh Hterm Hp f [<- Hans]. set (l := fr_lease f) in *.
  assert (lp (eq l) f) as Hl by done. revert Hans.
  unfold pullProviderEvents, mbind at 1, M_bind at 1, lease at 1, gets. fold l. rewrite Hh.
  unfold provider_answer. case_bool_decide as Hrem; intros Hans.
  - injection Hans as <-. unfold mbind, M_bind.
    assert (triple (lp (eq l)) (failForPolicy cp "EXECUTION_EVENT_BUDGET_EXCEEDED"
        (event_budget_message (default 0 (policy_maxEvents (l_request l)))) false;;
        put_lease;; mret (Some {| eb_events := []; eb_cursor := None; eb_done := true |}))
      (λ _, stored (pulled l [])) E) as Ht; [|by apply (Ht f)].
    eapply triple_bind; [by apply (triple_failForPolicy_marks p); [|left]|]. intros [].
    eapply triple_bind; [apply triple_put_stored|]. intros [] f' [Hf' Hst]. split; [|exact Hst].
    unfold pulled, budget_verdict. rewrite Hrem. cbn. destruct Hf'. done.
  - destruct (p_readEvents p handle (l_providerCursor l)
      (provider_limit (remaining_events l) limit) (w_ext (fr_world f))) as [[batch|e] e1] eqn:Hread;
      [|done]. cbn in Hans. injection Hans as Hans.
    unfold mbind, M_bind, from_outcome. rewrite Hp. unfold in_world at 1, ext at 1. rewrite Hread.
    rewrite Hans. set (f1 := MkFrame _ _).
    set (exceeded := match remaining_events l with Some r => _ | None => false end).
    set (taken := match remaining_events l with Some r => take _ _ | None => _ end).
    assert (triple (lp (eq l)) (record_unseen cp taken (eb_cursor batch) ;;
        enforce_budgets cp l exceeded taken ;; put_lease ;; mret (Some batch))
      (λ _, stored (pulled l unseen)) E) as Ht.
    { eapply triple_bind; [apply triple_record_unseen_marks|]. intros [].
      eapply triple_bind; [by apply (triple_enforce_marks p)|]. intros [].
      eapply triple_bind; [apply triple_put_stored|]. intros [] f' [[Hs Hf'] Hst]. split; [|exact Hst].
      split; [done|]. clear - Hf' Hrem. revert Hf'. unfold budget_verdict.
      assert (exceeded = false → taken = unseen) as Htaken.
      { unfold exceeded, taken. destruct (remaining_events l) as [r|]; [|done].
        intros Hx. apply Z.ltb_ge in Hx. apply take_ge. lia. }
      assert (∀ r, remaining_events l = Some r → (r =? 0) = false) as Hr0.
      { intros r Hr. apply Z.eqb_neq. congruence. }
      unfold exceeded in *. destruct (remaining_events l) as [r|].
      - rewrite (Hr0 r eq_refl). cbn [orb]. destruct (r <? _); [done|].
        by rewrite (Htaken eq_refl).
      - by rewrite (Htaken eq_refl). }
    by apply (Ht f1).
Qed.

(** C26: a poll enforces the policy of the request.  On an active execution whose
    provider answers, [streamEvents] answers too, and the stored lease is failed for
    the event budget when the unseen events go beyond what is left of [maxEvents]
    (with nothing left, the provider is not even asked), failed for the cost budget
    when the latest reported estimate is above [maxCostUsd], in both cases with the
    sandbox cleaned up; otherwise the unseen events are recorded and the status
    follows them. *)
Theorem streamEvents_enforces_policy p id l handle cursor limit unseen (w : World) n :
  store_get id (w_store w) = Some l → store_wf (w_store w) →
  l_handle l = Some handle → isTerminal (l_status l) = false →
  providerFor cp l = Ok p → parseCursor cursor = Ok n →
  provider_answer p handle l limit (w_ext w) = Ok unseen →
  ∃ b w' l', streamEvents cp id cursor limit w = (Ok b, w') ∧
    store_get id (w_store w') = Some l' ∧ same_identity l l' ∧
    match budget_verdict l unseen with
    | Some code => failed_with code l'
    | None => recorded l unseen l'
    end.
Proof.
  intros Hget Hwf Hh Hterm Hp Hcur Hans.
  pose proof (triple_pull_marks p l handle limit unseen (λ _ _, False) Hh Hterm Hp
    (MkFrame l w) (conj eq_refl Hans)) as Ht.
  assert (l_id l = id) as Hid by (by eapply store_get_id).
  unfold streamEvents, mbind, M_bind, from_outcome. rewrite Hcur.
  unfold getExecution, get_state, mbind, M_bind, mret, M_ret, with_lease. rewrite Hget, Hh, Hterm. cbn.
  destruct (pullProviderEvents cp limit (MkFrame l w)) as [[batch|e] f]; [|done].
  destruct Ht as [[Hs Hv] Hst]. rewrite (same_id _ _ Hs), Hid in Hst. rewrite Hst.
  by eexists _, _, (fr_lease f).
Qed.

(** ** Creation that fails *)

Lemma start_failed_marks p error Q :
  triple (lp (λ _, True)) (start_failed cp p error) Q
    (λ e f, err_code e = Some "EXECUTION_START_FAILED" ∧
            stored (failed_with (errorCode error "EXECUTION_START_FAILED")) f).
Proof.
  unfold start_failed. cbv zeta. set (code := errorCode error _).
  eapply triple_bind; [apply (triple_lp_assign _ (λ l, l_status l = st_failed)); by intros l _|].
  intros []. set (φ := λ l, l_status l = st_failed ∧ ∃ m, l_failure l = Some (code, m)).
  eapply triple_bind; [apply (triple_lp_assign _ φ); intros l ?; split; [done|by eexists]|].
  intros []. eapply triple_bind; [apply triple_lp_touch; by intros t l [? ?]|]. intros [].
  apply triple_lp_read. intros l [Hst Hf].
  apply triple_bind with (R := λ _, lp (failed_with code)).
  { destruct (l_sandbox l) as [sb|] eqn:Hsb.
    - apply triple_lp_cleanup. intros r l' <-. split; [done|]. split; [done|]. by eexists.
    - intros f Hl. unfold lp, fp in *. cbn. rewrite <- Hl. split; [done|]. split; [done|].
      unfold cleaned. rewrite Hsb. by intros []. }
  intros []. eapply triple_bind; [apply (triple_append_lease cp (failed_with code)); by intros n l' ?|].
  intros []. eapply triple_bind; [apply triple_put_stored|]. by intros [] f Hf'.
Qed.

Lemma start_lease_marks p :
  triple (lp (λ _, True)) (start_lease cp p) (λ _ _, True)
    (λ e f, err_code e = Some "EXECUTION_START_FAILED" ∧ ∃ code, stored (failed_with code) f).
Proof.
  unfold start_lease. eapply triple_bind; [apply (triple_put_stored (λ _, True))|]. intros [].
  eapply triple_pre with (P' := lp (λ _, True)); [|done].
  apply triple_lp_read. intros l _.
  eapply triple_bind with (R := λ _, lp (λ _, True)).
  { eapply triple_pre; [by apply (triple_append_lease cp (λ _, True))|done]. }
  intros []. apply triple_try with (R := λ _, lp (λ _, True)).
  - intros f _. by destruct (start_steps cp p f) as [[a|e] f'].
  - intros error. eapply triple_conseq; [apply (start_failed_marks p error (λ _ _, True))|done|done|].
    intros e f [? ?]. split; [done|by eexists].
Qed.

(** What creation does once a provider is chosen. *)
Lemma createExecution_starts request (w : World) p :
  store_ok (w_store w) → store_get (next_execution_id cp w) (w_store w) = None →
  validateExecutionRequest (cp_parse_url cp) request = Ok tt →
  store_findByClientToken (req_string ["clientToken"] request) (w_store w) = None →
  selectProvider cp request = Ok p →
  ∃ l0 w0, l_id l0 = next_execution_id cp w ∧ w_store w0 = w_store w ∧
    fr_ok (w_store w) l0 l0 (w_store w) ∧
    createExecution cp request w =
      (with_lease l0 (start_lease cp p) ;; getExecution (l_id l0)) w0.
Proof.
  intros Hs Hfresh Hv Hf Hp.
  destruct (valid_token cp _ Hv) as [tok Ht].
  destruct (request_token_unique (W := W) _ _ Ht) as [Hreq Htok].
  unfold createExecution. unfold mbind at 1, M_bind at 1. unfold from_outcome at 1.
  rewrite Hv. unfold mbind at 1, M_bind at 1. unfold get_state at 1. rewrite Hf. rewrite Hreq in Hf.
  unfold mbind at 1, M_bind at 1. unfold from_outcome. rewrite Hp.
  unfold next_execution_id in Hfresh |- *.
  unfold mbind at 1, M_bind at 1. unfold now, ext.
  destruct (cp_now cp (w_ext w)) as [t e1]. unfold mbind at 1, M_bind at 1. unfold newId, ext.
  cbn [w_ext fst snd] in *.
  destruct (cp_idFactory cp e1) as [id e2]. cbn [w_ext w_store fst snd] in *.
  exists (new_lease p request id t), (MkWorld (w_store w) e2).
  split; [done|]. split; [done|]. split; [|done].
  apply new_lease_starts; [done|done|].
  intros tok' id' l Hl ->%Htok. by eapply store_find_none; [apply Hs|..].
Qed.

(** A creation that cannot start its run says so and leaves nothing running.
    When the request is valid, its token is new and a provider is found, and yet
    [createExecution] throws, then the error is EXECUTION_START_FAILED, and the
    execution is stored as failed with the cause, its sandbox, if one was started,
    cleaned up. *)
Theorem createExecution_failure request (w w' : World) p e :
  validateExecutionRequest (cp_parse_url cp) request = Ok tt →
  store_findByClientToken (req_string ["clientToken"] request) (w_store w) = None →
  selectProvider cp request = Ok p →
  store_ok (w_store w) → store_get (next_execution_id cp w) (w_store w) = None →
  createExecution cp request w = (Throw e, w') →
  err_code e = Some "EXECUTION_START_FAILED" ∧
  ∃ l code, store_get (next_execution_id cp w) (w_store w') = Some l ∧ failed_with code l.
Proof.
  intros Hv Hf Hp Hs Hfresh Hc.
  destruct (createExecution_starts request w p Hs Hfresh Hv Hf Hp) as (l0 & w0 & Hid & Hw0 & Hfr & Heq).
  rewrite Heq in Hc. rewrite <- Hid. rewrite <- Hw0 in Hfr.
  pose proof (triple_and _ _ _ _ _ _ _ (start_lease_frame cp (w_store w0) l0 p) (start_lease_marks p)
    (MkFrame l0 w0) (conj Hfr I)) as Hst.
  unfold with_lease in Hc. unfold mbind, M_bind in Hc.
  destruct (start_lease cp p (MkFrame l0 w0)) as [[[]|e'] f].
  - destruct Hst as [[_ (ls & Hget & _)] _]. unfold getExecution, get_state, mbind, M_bind in Hc.
    by rewrite Hget in Hc.
  - injection Hc as <- <-. destruct Hst as [[Hf' _] (Hcode & code & Hm & Hget)]. split; [done|].
    exists (fr_lease f), code. split; [|done].
    by rewrite <- (same_id _ _ (f_same _ _ _ _ Hf')).
Qed.

(** ** Control calls on an execution that is over *)

Definition arguments_valid (c : ApiCall) : bool :=
  match c with
  | CallResolveApproval _ d => decision_valid d
  | CallSubmitInput _ i => input_valid i
  | CallSteer _ m => text_within 20000 m
  | _ => true
  end.

(** The calls that steer a run in progress. *)
Definition controls (id : string) (c : ApiCall) : Prop :=
  match c with
  | CallResolveApproval id' _ | CallSubmitInput id' _ | CallSteer id' _
  | CallSuspend id' | CallResume id' => id' = id
  | _ => False
  end.

Lemma getRunnable_terminal id l (w : World) :
  store_get id (w_store w) = Some l → isTerminal (l_status l) = true →
  getRunnable id w = (Throw (invalidState l "Execution is not active."), w).
Proof.
  intros Hget Ht. unfold getRunnable, getExecution, get_state, mbind, M_bind, mret, M_ret. cbn.
  rewrite Hget. destruct (l_handle l), (l_sandbox l); try done. by rewrite Ht.
Qed.

(** An execution that is over takes no more control calls.  Resolving an
    approval, submitting input, steering, suspending or resuming a lease with a
    terminal status throws EXECUTION_INVALID_STATE, or EXECUTION_INVALID_REQUEST for
    malformed arguments, and changes nothing: no provider is called, nothing is
    stored. *)
Theorem terminal_rejects_control c id l (w : World) :
  store_get id (w_store w) = Some l → isTerminal (l_status l) = true → controls id c →
  ∃ e, run_call cp c w = (Throw e, w) ∧
    err_code e = Some (if arguments_valid c then "EXECUTION_INVALID_STATE"
                       else "EXECUTION_INVALID_REQUEST").
Proof.
  intros Hget Ht Hc. pose proof (getRunnable_terminal _ _ _ Hget Ht) as Hrun.
  unfold run_call, discard, fmap, M_fmap.
  destruct c; cbn in Hc; try done; subst; unfold arguments_valid.
  - unfold resolveApproval. destruct (decision_valid decision); cbn; [|by eexists].
    unfold control, mbind, M_bind. rewrite Hrun. by eexists.
  - unfold submitInput. destruct (input_valid input); cbn; [|by eexists].
    unfold control, mbind, M_bind. rewrite Hrun. by eexists.
  - unfold steer. destruct (text_within 20000 message); cbn; [|by eexists].
    unfold control, mbind, M_bind. rewrite Hrun. by eexists.
  - unfold suspend, mbind, M_bind. rewrite Hrun. by eexists.
  - unfold resume, getExecution, get_state, mbind, M_bind, mret, M_ret. cbn. rewrite Hget.
    assert (bool_decide (l_status l = st_suspended) = false) as ->.
    { apply bool_decide_eq_false_2. intros Hst. by rewrite Hst in Ht. }
    destruct (l_sandbox l); by eexists.
Qed.

(** ** Termination *)

Definition terminated_from (l l' : AgentExecutionLease) : Prop :=
  same_identity l l' ∧ is_Some (l_cleanup l') ∧ l_sandbox l' = l_sandbox l ∧
  l_status l' = if isTerminal (l_status l) then l_status l else st_cancelled.

Lemma terminated_setters l l' :
  terminated_from l l' →
  (∀ n, terminated_from l (set_lastEventSequence n l')) ∧
  (∀ t, terminated_from l (set_updatedAt t l')).
Proof. intros ([] & ? & ? & ?). repeat split; done. Qed.

Lemma terminate_body l sb p (w : World) :
  l_sandbox l = Some sb → l_cleanup l = None → store_get (l_id l) (w_store w) = Some l →
  providerFor cp l = Ok p →
  ∃ l' w', terminate cp (l_id l) w = (Ok l', w') ∧ terminated_from l l' ∧
           store_get (l_id l) (w_store w') = Some l'.
Proof.
  intros Hsb Hcu Hget Hp.
  set (m := (assign_cleanup cp p sb ;;
    (if negb (isTerminal (l_status l)) then assign (set_status st_cancelled) else mret tt) ;;
    touch cp ;;
    l' ← lease;
    appendEvents cp [provider_event (l_id l +:+ ":terminated") sandbox_terminated
      (from_option receipt_json JNull (l_cleanup l'))] ;;
    put_lease) : M Frame unit).
  assert (triple (lp (eq l)) m (λ _, stored (terminated_from l)) (λ _ _, False)) as Hm.
  { unfold m. eapply triple_bind.
    { apply (triple_lp_cleanup (eq l) (λ l', ∃ r, l' = set_cleanup (Some r) l)).
      intros r l' <-. by eexists. }
    intros []. apply triple_bind with (R := λ _, lp (terminated_from l)).
    { destruct (isTerminal (l_status l)) eqn:Ht; cbn [negb].
      - intros f [r Hf]. unfold lp, fp. cbn. rewrite Hf. unfold terminated_from. rewrite Ht.
        split; [by split|]. split; [by eexists|done].
      - apply triple_lp_assign. intros l' [r ->]. unfold terminated_from. rewrite Ht.
        split; [by split|]. split; [by eexists|done]. }
    intros []. eapply triple_bind; [apply triple_lp_touch; intros t l' Hl; by apply terminated_setters|].
    intros []. apply triple_lp_read. intros l' Hl'.
    apply triple_bind with (R := λ _, lp (terminated_from l)); [|intros []; apply triple_put_stored].
    eapply triple_pre; [apply (triple_append_lease cp (terminated_from l))|].
    - intros n l1 Hl1. by apply terminated_setters.
    - intros f Hf. unfold lp, fp in *. by rewrite <- Hf. }
  specialize (Hm (MkFrame l w) eq_refl).
  unfold terminate. unfold mbind at 1, M_bind at 1.
  unfold getExecution at 1, get_state at 1. unfold mbind at 1, M_bind at 1. rewrite Hget.
  unfold mret at 1, M_ret at 1. rewrite Hsb, Hcu.
  unfold mbind at 1, M_bind at 1. unfold from_outcome at 1. rewrite Hp.
  unfold mbind at 1, M_bind at 1. unfold with_lease. fold m.
  destruct (m (MkFrame l w)) as [[[]|e] f]; [|done]. destruct Hm as [Hterm Hst].
  rewrite (same_id _ _ (proj1 Hterm)) in Hst. exists (fr_lease f), (fr_world f). split; [|done].
  unfold getExecution, get_state, mbind, M_bind. by rewrite Hst.
Qed.

(** Nothing to do: no sandbox, or it is cleaned up already. *)
Lemma terminate_noop l (w : World) :
  store_get (l_id l) (w_store w) = Some l → (is_Some (l_sandbox l) → is_Some (l_cleanup l)) →
  terminate cp (l_id l) w = (Ok l, w).
Proof.
  intros Hget Hcl. unfold terminate, getExecution, get_state, mbind, M_bind, mret, M_ret. cbn.
  rewrite Hget. destruct (l_sandbox l), (l_cleanup l); try done. by destruct Hcl.
Qed.

(** What [terminate] answers, by the lease it finds. *)
Lemma terminate_cases id l l' (w w' : World) :
  store_wf (w_store w) → store_get id (w_store w) = Some l →
  terminate cp id w = (Ok l', w') →
  (cleaned l ∧ l' = l ∧ w' = w) ∨
  (terminated_from l l' ∧ store_get id (w_store w') = Some l').
Proof.
  intros Hwf Hget Ht. assert (l_id l = id) as <- by (by eapply store_get_id).
  destruct (l_sandbox l) as [sb|] eqn:Hsb.
  - destruct (l_cleanup l) as [r|] eqn:Hcu.
    + left. assert (cleaned l) as Hc by (intros _; rewrite Hcu; by eexists).
      rewrite (terminate_noop _ _ Hget Hc) in Ht. by simplify_eq.
    + right. destruct (providerFor cp l) as [p|e] eqn:Hp.
      * destruct (terminate_body _ _ _ _ Hsb Hcu Hget Hp) as (l1 & w1 & Heq & ? & ?). rewrite Heq in Ht. injection Ht as <- <-. by split.
      * exfalso. revert Ht. unfold terminate, getExecution, get_state, mbind, M_bind, mret, M_ret. cbn.
        rewrite Hget, Hsb, Hcu. unfold from_outcome. by rewrite Hp.
  - left. assert (cleaned l) as Hc by (unfold cleaned; rewrite Hsb; by intros []).
    rewrite (terminate_noop _ _ Hget Hc) in Ht. by simplify_eq.
Qed.

(** Terminating is idempotent and leaves no sandbox behind.  When [terminate]
    answers, the lease it answers with is stored and cleaned up; one that was still
    running is cancelled, one that was over keeps its status; and terminating again
    answers with the same lease and changes nothing. *)
Theorem terminate_idempotent id l' (w w' : World) :
  store_wf (w_store w) → terminate cp id w = (Ok l', w') →
  store_get id (w_store w') = Some l' ∧ cleaned l' ∧
  terminate cp id w' = (Ok l', w') ∧
  ∃ l, store_get id (w_store w) = Some l ∧ same_identity l l' ∧
    (cleaned l ∧ l' = l ∧ w' = w ∨
     l_status l' = if isTerminal (l_status l) then l_status l else st_cancelled).
Proof.
  intros Hwf Ht. destruct (store_get id (w_store w)) as [l|] eqn:Hget.
  2: { exfalso. revert Ht. unfold terminate, getExecution, get_state, mbind, M_bind. cbn. by rewrite Hget. }
  assert (l_id l = id) as Hid by (by eapply store_get_id).
  destruct (terminate_cases _ _ _ _ _ Hwf Hget Ht) as [(Hc & -> & ->)|[Hterm Hst]].
  - split; [done|]. split; [done|]. split; [done|]. exists l. split; [done|]. split; [auto with js|by left].
  - destruct Hterm as (Hs & Hc & Hsb & Hstat).
    assert (cleaned l') as Hcl by (by intros _).
    split; [done|]. split; [done|]. split; [|by exists l; eauto].
    rewrite <- Hid, <- (same_id _ _ Hs) in Hst |- *. by apply terminate_noop.
Qed.

(** ** Expiry *)

Definition expired_from (l l' : AgentExecutionLease) : Prop :=
  same_identity l l' ∧ l_status l' = st_expired ∧ cleaned l'.

Lemma reap_one_result l acc acc' (w w' : World) :
  store_ok (w_store w) → store_get (l_id l) (w_store w) = Some l →
  reap_one cp l acc w = (Ok acc', w') →
  ∃ l', acc' = acc ++ [l'] ∧ store_get (l_id l) (w_store w') = Some l' ∧ expired_from l l' ∧
        call_ok (l_id l) (w_store w) (w_store w').
Proof.
  intros Hs Hget. unfold reap_one. unfold mbind at 1, M_bind at 1.
  pose proof (terminate_answers cp (w_store w) (l_id l) Hs w eq_refl) as Hans.
  destruct (terminate cp (l_id l) w) as [[l1|e] w1] eqn:Ht; [|done].
  destruct Hans as [Hget1 Hcall]. unfold wp in *.
  unfold now, ext, store_modify, modify, mret, M_ret, mbind, M_bind.
  destruct (cp_now cp (w_ext w1)) as [t e1]. cbn. intros [= <- <-]. cbn.
  assert (same_identity l l1 ∧ cleaned l1) as [Hsame Hcl].
  { destruct (terminate_cases _ _ _ _ _ (ok_wf _ Hs) Hget Ht) as [(? & -> & _)|[(? & ? & ? & _) _]];
      auto with js. split; [done|]. by intros _. }
  pose proof (same_id _ _ Hsame) as Hid. rewrite <- Hid in Hget1.
  destruct (put_stored (w_store w1) l1 (λ l, set_updatedAt t (set_status st_expired l))) as [Hok Htch];
    [apply Hcall|done|intros l2; split; [by split|done]|]. rewrite Hid in Htch.
  eexists. split; [done|]. split; [|split].
  - rewrite store_get_put. cbn. by rewrite Hid, String.eqb_refl.
  - split; [by destruct Hsame; split|]. done.
  - eapply call_ok_trans; [exact Hcall|]. by split.
Qed.

Lemma reap_all_result ls : ∀ acc acc' (w w' : World),
  store_ok (w_store w) → NoDup (l_id <$> ls) →
  (∀ l, l ∈ ls → store_get (l_id l) (w_store w) = Some l) →
  for_each ls (reap_one cp) acc w = (Ok acc', w') →
  ∃ reaped, acc' = acc ++ reaped ∧ Forall2 expired_from ls reaped ∧
    (∀ l, l ∈ reaped → store_get (l_id l) (w_store w') = Some l) ∧
    ∀ id, id ∉ (l_id <$> ls) → store_get id (w_store w') = store_get id (w_store w) ∧
                              store_log id (w_store w') = store_log id (w_store w).
Proof.
  induction ls as [|l ls IH]; intros acc acc' w w' Hs Hnd Hin; cbn [for_each].
  { intros [= <- <-]. exists []. rewrite app_nil_r. split; [done|]. split; [constructor|].
    split; [by intros l ?%elem_of_nil|done]. }
  rewrite fmap_cons in Hnd. apply NoDup_cons in Hnd as [Hni Hnd].
  unfold mbind, M_bind. destruct (reap_one cp l acc w) as [[acc1|e] w1] eqn:Hr; [|done].
  destruct (reap_one_result _ _ _ _ _ Hs (Hin l ltac:(left)) Hr) as (l' & -> & Hl' & Hexp & [Hok1 Htch]).
  intros Hrest. destruct (IH (acc ++ [l']) acc' w1 w' Hok1 Hnd) as (reaped & -> & Hf2 & Hst & Hoth); [|exact Hrest|].
  { intros l2 Hl2. rewrite (t_lease _ _ _ Htch); [by apply Hin; right|].
    intros Heq. apply Hni. rewrite <- Heq. by apply list_elem_of_fmap_2. }
  exists (l' :: reaped). rewrite <- app_assoc. split; [done|]. split; [by constructor|]. split.
  - intros l2 [->|Hl2]%elem_of_cons; [|by apply Hst].
    rewrite (same_id _ _ (proj1 Hexp)). by rewrite (proj1 (Hoth _ Hni)).
  - intros id Hid. rewrite fmap_cons, not_elem_of_cons in Hid. destruct Hid as [Hne Hid].
    destruct (Hoth id Hid) as [-> ->]. by rewrite (t_lease _ _ _ Htch), (t_log _ _ _ Htch).
Qed.

(** Reaping expires exactly the leases that are due.  When [reapExpired]
    answers, the leases that were not terminal and whose [expiresAt] had passed are
    stored as expired with their sandboxes cleaned up, they are what is returned,
    and every other execution, its lease and its log, is untouched. *)
Theorem reapExpired_exact (w w' : World) reaped :
  store_ok (w_store w) → reapExpired cp w = (Ok reaped, w') →
  let t := (cp_now cp (w_ext w)).1 in
  Forall2 expired_from (List.filter (is_expired t) (store_list (w_store w))) reaped ∧
  (∀ id l, store_get id (w_store w) = Some l → is_expired t l = true →
     ∃ l', l' ∈ reaped ∧ store_get id (w_store w') = Some l' ∧ expired_from l l') ∧
  (∀ id, (∀ l, store_get id (w_store w) = Some l → is_expired t l = false) →
     store_get id (w_store w') = store_get id (w_store w) ∧
     store_log id (w_store w') = store_log id (w_store w)).
Proof.
  intros Hs. unfold reapExpired, now, ext, get_state, mbind, M_bind.
  destruct (cp_now cp (w_ext w)) as [t e1]. cbn [w_store w_ext fst]. intros Hr.
  set (ls := List.filter (is_expired t) (store_list (w_store w))) in *.
  assert (∀ l, l ∈ ls → store_get (l_id l) (w_store w) = Some l) as Hin.
  { intros l [Hl _]%list_elem_of_In%filter_In. by apply store_list_elem; [apply Hs|apply list_elem_of_In]. }
  destruct (reap_all_result ls [] reaped (MkWorld (w_store w) e1) w' Hs) as (r & -> & Hf2 & Hst & Hoth);
    [|exact Hin|exact Hr|].
  { unfold ls. pose proof (store_list_nodup _ (ok_wf _ Hs)) as Hnd. revert Hnd.
    generalize (store_list (w_store w)). clear. intros ls Hnd.
    induction ls as [|l ls IH]; [constructor|]. rewrite fmap_cons in Hnd.
    apply NoDup_cons in Hnd as [Hni Hnd]. cbn [List.filter].
    destruct (is_expired t l); [|by apply IH]. rewrite fmap_cons. constructor; [|by apply IH].
    intros (l' & Heq & Hl')%list_elem_of_fmap. apply Hni. rewrite Heq. apply list_elem_of_fmap_2.
    apply list_elem_of_In. by apply list_elem_of_In, filter_In in Hl' as [? _]. }
  split; [done|]. split.
  - intros id l Hget Hexp. assert (l_id l = id) as <- by (eapply store_get_id; [apply Hs|done]).
    assert (l ∈ ls) as Hl.
    { apply list_elem_of_In, filter_In. split; [|done].
      apply list_elem_of_In. by apply store_list_elem; [apply Hs|]. }
    destruct (list_elem_of_lookup_1 _ _ Hl) as [i Hi].
    destruct (Forall2_lookup_l _ _ _ _ _ Hf2 Hi) as (l' & Hi' & Hex).
    exists l'. split; [by eapply list_elem_of_lookup_2|]. split; [|done].
    rewrite <- (same_id _ _ (proj1 Hex)). apply Hst. by eapply list_elem_of_lookup_2.
  - intros id Hid. apply Hoth. intros (l & -> & Hl)%list_elem_of_fmap.
    pose proof (Hin _ Hl) as Hget. apply Hid in Hget.
    apply list_elem_of_In, filter_In in Hl as [_ ?]. congruence.
Qed.
End Lifecycle.

(** ** Instances *)

(** An execution that has used its whole budget of one provider event. *)
Definition budget_request : json := sample_request "t1" [] [("maxEvents", JNum (int 1))].
Definition late1 : World ExecutionStoreState LateState :=
  Eval vm_compute in after_call (createExecution late_cp budget_request) late_world.
Definition late_lease1 : AgentExecutionLease :=
  Eval vm_compute in default lease1 (InMemory.get "exec_2" (w_store late1)).

Lemma late1_ok : store_ok (w_store late1).
Proof.
  pose proof (createExecution_keeps late_cp budget_request late_world emptyState_ok) as [Hok _ _].
  { vm_compute. reflexivity. }
  replace (createExecution late_cp budget_request late_world).2 with late1 in Hok
    by (vm_compute; reflexivity). exact Hok.
Qed.

Lemma streamEvents_enforces_policy_witness :
  remaining_events late_lease1 = Some 0 ∧
  ∃ b w' l', streamEvents late_cp "exec_2" None None late1 = (Ok b, w') ∧
    store_get "exec_2" (w_store w') = Some l' ∧ same_identity late_lease1 l' ∧
    failed_with "EXECUTION_EVENT_BUDGET_EXCEEDED" l'.
Proof.
  split; [vm_compute; reflexivity|].
  apply (streamEvents_enforces_policy late_cp late_provider "exec_2" late_lease1
    {| h_sessionId := "sandbox"; h_runId := "run" |} None None [] late1 0).
  - vm_compute. reflexivity.
  - exact (ok_wf _ late1_ok).
  - reflexivity.
  - vm_compute. reflexivity.
  - vm_compute. reflexivity.
  - reflexivity.
  - vm_compute. reflexivity.
Defined.

Definition broken_result : outcome AgentExecutionLease * World ExecutionStoreState LateState :=
  Eval vm_compute in createExecution broken_cp first_request late_world.
Definition broken_error : JsError :=
  Eval vm_compute in match broken_result.1 with Throw e => e | Ok _ => plain_error "" end.

Lemma createExecution_failure_witness :
  err_code broken_error = Some "EXECUTION_START_FAILED" ∧
  ∃ l code, store_get (next_execution_id broken_cp late_world) (w_store broken_result.2) = Some l ∧
            failed_with code l.
Proof.
  apply (createExecution_failure broken_cp first_request late_world broken_result.2 broken_provider).
  - vm_compute. reflexivity.
  - reflexivity.
  - vm_compute. reflexivity.
  - exact emptyState_ok.
  - vm_compute. reflexivity.
  - vm_compute. reflexivity.
Defined.

Definition over1 : World ExecutionStoreState (FakeState N) :=
  Eval vm_compute in after_call (terminate fake_cp "exec_2") world1.
Definition over_lease1 : AgentExecutionLease :=
  Eval vm_compute in default lease1 (InMemory.get "exec_2" (w_store over1)).

Lemma terminal_rejects_control_witness :
  ∃ e, run_call fake_cp (CallSteer "exec_2" (Some (JStr "go on"))) over1 = (Throw e, over1) ∧
       err_code e = Some "EXECUTION_INVALID_STATE".
Proof.
  apply (terminal_rejects_control fake_cp (CallSteer "exec_2" (Some (JStr "go on"))) "exec_2" over_lease1 over1).
  - vm_compute. reflexivity.
  - vm_compute. reflexivity.
  - reflexivity.
Defined.

Lemma terminate_idempotent_witness :
  is_Some (l_sandbox lease1) ∧ l_cleanup lease1 = None ∧
  terminate fake_cp "exec_2" over1 = (Ok over_lease1, over1).
Proof.
  split; [by eexists|]. split; [reflexivity|].
  apply (terminate_idempotent fake_cp "exec_2" over_lease1 world1 over1).
  - exact (ok_wf _ world1_ok).
  - vm_compute. reflexivity.
Defined.

(** The first execution, once its time is up. *)
Definition due_world : World ExecutionStoreState (FakeState N) :=
  Eval vm_compute in MkWorld (w_store world1) (MkFake (fk_sessions (w_ext world1)) (fk_runs (w_ext world1)) 10000%N).
Definition due_result : outcome (list AgentExecutionLease) * World ExecutionStoreState (FakeState N) :=
  Eval vm_compute in reapExpired fake_cp due_world.
Definition due_reaped : list AgentExecutionLease :=
  Eval vm_compute in match due_result.1 with Ok ls => ls | Throw _ => [] end.

Lemma reapExpired_exact_witness :
  length due_reaped = 1%nat ∧
  Forall2 expired_from
    (List.filter (is_expired (cp_now fake_cp (w_ext due_world)).1) (store_list (w_store due_world)))
    due_reaped.
Proof.
  split; [reflexivity|]. apply (reapExpired_exact fake_cp due_world due_result.2 due_reaped).
  - exact world1_ok.
  - vm_compute. reflexivity.
Defined.

(** ** Two behaviours worth knowing

    Closed runs of the model on the deterministic and the late provider, where the
    stored lease contradicts itself. *)

Definition capped_calls : list ApiCall :=
  [CallCreate (sample_request "t1" [] [("maxEvents", JNum (int 5))]);
   CallCollect "exec_2"].

(** Collecting a result forgets a policy failure.  There is a run in which the
    pull inside [collectResult] fails the execution for its event budget, and
    [collectResult] then stores it as completed, with a result, its failure
    EXECUTION_EVENT_BUDGET_EXCEEDED still on it. *)
Theorem collect_overrides_policy_failure :
  ∃ (w : World ExecutionStoreState (FakeState N)) l,
    reaches fake_cp fake_world w ∧ store_get "exec_2" (w_store w) = Some l ∧
    l_status l = st_completed ∧ is_Some (l_result l) ∧
    fst <$> l_failure l = Some "EXECUTION_EVENT_BUDGET_EXCEEDED".
Proof.
  eexists _, _. split; [apply (run_calls_reaches fake_cp capped_calls); vm_compute; repeat split|].
  split; [vm_compute; reflexivity|]. vm_compute. repeat split. by eexists.
Qed.

Definition revived_calls : list ApiCall :=
  [CallCreate (sample_request "t1" [] []); CallTerminate "exec_2"; CallCollect "exec_2";
   CallTerminate "exec_2"].

(** Collecting from a terminated execution can bring it back.  There is a run in
    which an execution is cancelled and its sandbox terminated, [collectResult] pulls
    a late event and throws, and the stored lease is running again, with its clean-up
    receipt; and [terminate], which sees the receipt, leaves it so. *)
Theorem collect_revives_terminated :
  ∃ (w1 w2 : World ExecutionStoreState LateState) l1 l2,
    reaches late_cp late_world w1 ∧
    store_get "exec_2" (w_store w1) = Some l1 ∧ l_status l1 = st_cancelled ∧
    reaches late_cp w1 w2 ∧
    store_get "exec_2" (w_store w2) = Some l2 ∧ l_status l2 = st_running ∧
    is_Some (l_cleanup l2) ∧ terminate late_cp "exec_2" w2 = (Ok l2, w2).
Proof.
  pose (w1 := run_calls late_cp (take 2 revived_calls) late_world).
  exists w1, (run_calls late_cp (drop 2 revived_calls) w1).
  eexists _, _.
  split; [apply run_calls_reaches; vm_compute; repeat split|].
  split; [vm_compute; reflexivity|]. split; [vm_compute; reflexivity|].
  split; [apply run_calls_reaches; vm_compute; repeat split|].
  split; [vm_compute; reflexivity|]. split; [vm_compute; reflexivity|].
  split; [vm_compute; by eexists|]. vm_compute. reflexivity.
Qed.
