(* ===== verification/ExecValidateProps.v ===== *)
(** * Execution control plane: what validation accepts

    [validateExecutionRequest] against a declarative description of a request: it
    accepts exactly the requests the description allows. *)

From stdpp Require Import base list strings sorting.
From Stdlib Require Import ZArith Ascii.
From S2P Require Import Prelude JsString JsValue ExecTypes ExecStore ExecValidate ExecControlPlane FakeProvider ExecFixtures.

(** ** Network policies *)

(** The entries of an optional list of strings, [[]] when it is absent. *)
Definition entries_of (v : jsval) (l : list string) : Prop :=
  (v = None ∧ l = []) ∨ v = Some (JArr (JStr <$> l)).

(** Two network policies grant the same: the same keyword, or the same hosts
    allowed and denied, in any order. *)
Inductive same_network : jsval → jsval → Prop :=
| same_keyword s : s = "none" ∨ s = "restricted" → same_network (Some (JStr s)) (Some (JStr s))
| same_hosts o o' a a' d d' :
    entries_of (prop "allow" (Some (JObj o))) a → entries_of (prop "allow" (Some (JObj o'))) a' →
    entries_of (prop "deny" (Some (JObj o))) d → entries_of (prop "deny" (Some (JObj o'))) d' →
    a ≡ₚ a' → d ≡ₚ d' → same_network (Some (JObj o)) (Some (JObj o')).

Lemma sorted_strings_unique (l1 l2 : list string) :
  StronglySorted (λ a b, str_leb a b = true) l1 → StronglySorted (λ a b, str_leb a b = true) l2 →
  l1 ≡ₚ l2 → l1 = l2.
Proof.
  intros H1 H2 Hp. refine (StronglySorted_unique_strong (λ a b, str_leb a b = true) _ _ _ H1 H2 Hp).
  intros x y _ _. apply str_leb_antisym.
Qed.

Lemma sort_strings_Permutation (l1 l2 : list string) :
  sort_by str_leb l1 = sort_by str_leb l2 ↔ l1 ≡ₚ l2.
Proof.
  assert (∀ l, StronglySorted (λ a b, str_leb a b = true) (sort_by str_leb l)) as Hs.
  { apply sort_by_sorted; [apply str_leb_total|apply str_leb_trans]. }
  split.
  - intros He. rewrite <- (sort_by_Permutation str_leb l1), He. apply sort_by_Permutation.
  - intros Hp. apply sorted_strings_unique; [apply Hs..|].
    by rewrite !sort_by_Permutation.
Qed.

Lemma strings_entries (l : list json) :
  forallb all_strings l = true → ∃ ss, l = JStr <$> ss.
Proof.
  induction l as [|j l IH]; cbn; [by exists []|]. intros [Hj Hl]%andb_true_iff.
  destruct (IH Hl) as [ss ->]. destruct j; try done. by exists (s :: ss).
Qed.

Lemma omap_strings (l : list string) :
  omap (λ j, match j with JStr s => Some s | _ => None end) (JStr <$> l) = l.
Proof. induction l as [|s l IH]; [done|]. cbn. by f_equal. Qed.

Lemma sorted_entries_of v l : entries_of v l → sorted_entries v = sort_by str_leb l.
Proof. intros [[-> ->]| ->]; cbn; [done|]. by rewrite omap_strings. Qed.

Lemma isNetworkPolicy_cases v :
  isNetworkPolicy v = true ↔
  (∃ s, (s = "none" ∨ s = "restricted") ∧ v = Some (JStr s)) ∨
  (∃ o a d, v = Some (JObj o) ∧ entries_of (prop "allow" v) a ∧ entries_of (prop "deny" v) d).
Proof.
  assert (∀ w, match w with None => true | Some (JArr l) => forallb all_strings l | Some _ => false end = true
    ↔ ∃ l, entries_of w l) as Hent.
  { intros w. split.
    - destruct w as [[| | | |l|]|]; try done; [|by exists []; left].
      intros [ss ->]%strings_entries. exists ss. by right.
    - intros [l [[-> _]| ->]]; [done|]. apply forallb_forall. by intros j (s & <- & _)%in_map_iff. }
  unfold isNetworkPolicy. split.
  - destruct (_ || _) eqn:Hkw.
    { intros _. left. destruct v as [[| | |s| |]|]; try done. exists s. cbn [is_str] in Hkw.
      apply orb_true_iff in Hkw as [<-%String.eqb_eq|<-%String.eqb_eq]; auto. }
    destruct v as [[| | | | |o]|]; try done. cbn [negb isObject forallb].
    rewrite !andb_true_iff. intros (Ha & Hd & _). right.
    apply Hent in Ha as [a Ha]. apply Hent in Hd as [d Hd]. by exists o, a, d.
  - intros [(s & [-> | ->] & ->)|(o & a & d & -> & Ha & Hd)]; [done..|].
    cbn [is_str orb isObject negb forallb]. rewrite !andb_true_iff.
    split; [apply Hent; by eexists|]. split; [apply Hent; by eexists|done].
Qed.

Lemma strings_json l : map JSON_stringify (JStr <$> l) = map quote l.
Proof. induction l as [|s l IH]; [done|]. cbn. by f_equal. Qed.

Lemma stable_objects_inj (a a' d d' : list string) :
  JSON_stringify (JObj [("allow", JArr (JStr <$> a)); ("deny", JArr (JStr <$> d))]) =
  JSON_stringify (JObj [("allow", JArr (JStr <$> a')); ("deny", JArr (JStr <$> d'))]) →
  a = a' ∧ d = d'.
Proof.
  cbn [JSON_stringify map join fst snd]. rewrite !strings_json. intros H.
  apply (f_equal chars) in H. rewrite !chars_app in H. rewrite <- !app_assoc in H.
  cbn [app] in H. do 2 apply app_inv_head in H.
  repeat first [apply app_inv_head in H].
  apply quoted_list_inj in H as [-> H]. split; [done|].
  repeat first [apply app_inv_head in H].
  by apply quoted_list_inj in H as [-> _].
Qed.

Lemma stable_object o a d :
  entries_of (prop "allow" (Some (JObj o))) a → entries_of (prop "deny" (Some (JObj o))) d →
  stableNetworkPolicy (Some (JObj o)) =
  JSON_stringify (JObj [("allow", JArr (JStr <$> sort_by str_leb a));
                        ("deny", JArr (JStr <$> sort_by str_leb d))]).
Proof. intros Ha Hd. unfold stableNetworkPolicy. by rewrite (sorted_entries_of _ _ Ha), (sorted_entries_of _ _ Hd). Qed.

Lemma keyword_not_object s o :
  s = "none" ∨ s = "restricted" →
  stableNetworkPolicy (Some (JStr s)) ≠ stableNetworkPolicy (Some (JObj o)).
Proof. intros [-> | ->] H; apply (f_equal chars) in H; discriminate. Qed.

Lemma network_agrees p a :
  isNetworkPolicy p = true ∧ isNetworkPolicy a = true ∧
  stableNetworkPolicy p = stableNetworkPolicy a ↔ same_network p a.
Proof.
  rewrite !isNetworkPolicy_cases. split.
  - intros [[(s & Hs & ->)|(o & al & d & -> & Ha & Hd)] [[(s' & Hs' & ->)|(o' & al' & d' & -> & Ha' & Hd')] Heq]].
    + cbn in Heq. subst. by constructor.
    + by apply keyword_not_object in Heq.
    + by apply symmetry, keyword_not_object in Heq.
    + rewrite (stable_object _ _ _ Ha Hd), (stable_object _ _ _ Ha' Hd') in Heq.
      apply stable_objects_inj in Heq as [Hal Hdl].
      by eapply same_hosts; try done; apply sort_strings_Permutation.
  - intros [s Hs|o o' al al' d d' Ha Ha' Hd Hd' Hal Hdl].
    + split; [|split]; [left; by exists s|left; by exists s|done].
    + split; [right; by exists o, al, d|]. split; [right; by exists o', al', d'|].
      apply sort_strings_Permutation in Hal, Hdl.
      by rewrite (stable_object _ _ _ Ha Hd), (stable_object _ _ _ Ha' Hd'), Hal, Hdl.
Qed.

(** ** The description *)

(** Text with something in it, of at most [max] units. *)
Definition some_text (max : Z) (v : jsval) : Prop :=
  ∃ s, v = Some (JStr s) ∧ blank s = false ∧ slen s ≤ max.

(** An integer in a range. *)
Definition some_integer (lo hi : Z) (v : jsval) : Prop :=
  ∃ n z, v = Some (JNum n) ∧ safe_integer n = Some z ∧ lo ≤ z ≤ hi.

Definition some_positive (v : jsval) : Prop :=
  ∃ n z, v = Some (JNum n) ∧ safe_integer n = Some z ∧ 0 < z.

Section Spec.
Context (parse_url : string → option Url).

Definition https_url (v : jsval) : Prop :=
  ∃ s url, v = Some (JStr s) ∧ parse_url s = Some url ∧ url_protocol url = "https:" ∧
    url_username url = "" ∧ url_password url = "" ∧ url_search url = "" ∧ url_hash url = "".

Definition optional (P : jsval → Prop) (v : jsval) : Prop := v = None ∨ P v.

Record valid_policy (r : json) : Prop := {
  v_mode : path ["policy"; "mode"] r = Some (JStr "read-only") ∨
           path ["policy"; "mode"] r = Some (JStr "read-write") ∧
           path ["agent"; "capabilities"; "filesystem"] r = Some (JStr "read-write");
  v_ttl : some_integer 60 28800 (path ["policy"; "ttlSeconds"] r);
  v_maxEvents : optional (some_integer 1 100000) (path ["policy"; "maxEvents"] r);
  v_cost : optional (λ v, ∃ n, v = Some (JNum n) ∧ isFinite n = true ∧ num_leb n (int 0) = false)
             (path ["policy"; "maxCostUsd"] r);
  v_approval : ∃ b, path ["policy"; "requireApprovalForExternalActions"] r = Some (JBool b);
  v_network : same_network (path ["policy"; "network"] r) (path ["agent"; "capabilities"; "network"] r);
}.

Record valid_identity (r : json) : Prop := {
  v_version : path ["schemaVersion"] r = Some (JStr "0.1");
  v_names : Forall (λ ks, some_text 200 (path ks r))
    [["clientToken"]; ["cell"]; ["workspace"]; ["environment"]; ["agent"; "name"]];
  v_task : some_text 100000 (path ["task"] r);
  v_filesystem : ∃ s, path ["agent"; "capabilities"; "filesystem"] r = Some (JStr s) ∧
                      s ∈ ["none"; "read"; "read-write"];
}.

Inductive valid_auth (r : json) : Prop :=
| auth_credential s :
    path ["modelAuth"; "kind"] r = Some (JStr "control-plane") →
    path ["modelAuth"; "credential"] r = Some (JStr s) →
    slen s ≤ 200 → credential_name s = true → valid_auth r
| auth_subscription s :
    path ["modelAuth"; "kind"] r = Some (JStr "provider-subscription") →
    path ["modelAuth"; "provider"] r = Some (JStr s) → s ∈ ["codex"; "cursor"] →
    path ["modelAuth"; "persistence"] r = Some (JStr "sandbox-session") → valid_auth r.

Definition valid_preference (r : json) : Prop :=
  path ["providerPreference"; "kind"] r = Some (JStr "auto") ∨
  path ["providerPreference"; "kind"] r = Some (JStr "provider") ∧
  some_text 200 (path ["providerPreference"; "provider"] r).

(** The four exclusions, and nothing else. *)
Definition valid_exclusions (r : json) : Prop :=
  ∀ j, j ∈ array_items (path ["source"; "selection"; "excluded"] r) ↔
       ∃ s, j = JStr s ∧ s ∈ requiredExclusions.

Definition includes_patch (b : bool) (r : json) : Prop :=
  path ["source"; "selection"; "includesWorkingTreePatch"] r = Some (JBool b).

Inductive valid_source (r : json) : Prop :=
| source_git :
    path ["source"; "kind"] r = Some (JStr "git") → includes_patch false r →
    https_url (path ["source"; "repository"] r) →
    hex_between 7 64 (path ["source"; "commit"] r) = true →
    optional (λ v, isSafeRelativePath v = true) (path ["source"; "subdirectory"] r) →
    valid_source r
| source_snapshot b :
    path ["source"; "kind"] r = Some (JStr "snapshot") → includes_patch b r →
    isOpaqueId (path ["source"; "snapshotId"] r) = true →
    hex_between 64 64 (path ["source"; "sha256"] r) = true →
    some_positive (path ["source"; "sizeBytes"] r) →
    hex_between 7 64 (path ["source"; "baseCommit"] r) = true →
    optional https_url (path ["source"; "repository"] r) →
    (b = true ↔ path ["source"; "patch"] r ≠ None) →
    (truthy (path ["source"; "patch"] r) = true →
       isOpaqueId (path ["source"; "patch"; "artifactId"] r) = true ∧
       hex_between 64 64 (path ["source"; "patch"; "sha256"] r) = true ∧
       some_positive (path ["source"; "patch"; "sizeBytes"] r)) →
    valid_source r.

Record valid_request (r : json) : Prop := {
  v_shape : request_shape r = true;
  v_identity : valid_identity r;
  v_policy : valid_policy r;
  v_auth : valid_auth r;
  v_preference : valid_preference r;
  v_exclusions : valid_exclusions r;
  v_source : valid_source r;
}.

(** ** Each group of checks decides its part *)

Lemma app_eq_nil_iff {A} (l1 l2 : list A) : l1 ++ l2 = [] ↔ l1 = [] ∧ l2 = [].
Proof. split; [apply app_eq_nil|by intros [-> ->]]. Qed.

Lemma reject_if_nil b m : reject_if b m = [] ↔ b = false.
Proof. by destruct b. Qed.

Lemma is_str_spec s v : is_str s v = true ↔ v = Some (JStr s).
Proof.
  destruct v as [[| | |t| |]|]; try done. cbn [is_str]. rewrite String.eqb_eq.
  split; [by intros ->|by intros [= ->]].
Qed.

Lemma text_within_spec m v : text_within m v = true ↔ some_text m v.
Proof.
  unfold some_text. destruct v as [[| | |t| |]|]; cbn; try (split; [done|by intros (? & ? & _)]).
  rewrite andb_true_iff, negb_true_iff, Z.leb_le. split; [intros []; eauto|].
  by intros (s & [= ->] & ? & ?).
Qed.

Lemma safe_integer_of_spec v z :
  safe_integer_of v = Some z ↔ ∃ n, v = Some (JNum n) ∧ safe_integer n = Some z.
Proof.
  destruct v as [[| |n| | |]|]; cbn; try (split; [done|by intros (? & ? & _)]).
  split; [eauto|by intros (? & [= ->] & ?)].
Qed.

Lemma integer_within_spec lo hi v : integer_within lo hi v = true ↔ some_integer lo hi v.
Proof.
  unfold integer_within, some_integer. split.
  - destruct (safe_integer_of v) as [z|] eqn:Hz; [|done].
    apply safe_integer_of_spec in Hz as (n & -> & Hn). intros H. reflect_bools. by exists n, z.
  - intros (n & z & -> & Hz & ?). cbn. rewrite Hz. lia.
Qed.

Lemma positive_integer_spec v : positive_integer v = true ↔ some_positive v.
Proof.
  unfold positive_integer, some_positive. split.
  - destruct (safe_integer_of v) as [z|] eqn:Hz; [|done].
    apply safe_integer_of_spec in Hz as (n & -> & Hn). intros H. reflect_bools. by exists n, z.
  - intros (n & z & -> & Hz & ?). cbn. rewrite Hz. lia.
Qed.

Lemma https_url_spec v : isCredentialFreeHttpsUrl parse_url v = true ↔ https_url v.
Proof.
  unfold https_url. destruct v as [[| | |t| |]|]; cbn [isCredentialFreeHttpsUrl];
    try (split; [done|by intros (? & ? & ? & _)]).
  split.
  - destruct (parse_url t) as [u|] eqn:Hu; [|done]. intros H. reflect_bools. by exists t, u.
  - intros (s & u & [= ->] & -> & -> & -> & -> & -> & ->). done.
Qed.

Lemma is_bool_spec v : is_bool v = true ↔ ∃ b, v = Some (JBool b).
Proof. destruct v as [[]|]; cbn; split; try done; try (by intros [? ?]); eauto. Qed.

(** [v !== undefined && !ok(v)] is false. *)
Lemma optional_spec (ok : jsval → bool) (P : jsval → Prop) v :
  (ok v = true ↔ P v) → negb (is_undefined v) && negb (ok v) = false ↔ optional P v.
Proof.
  intros Hok. unfold optional. rewrite <- Hok. destruct v as [j|]; cbn; [|tauto].
  rewrite negb_false_iff. split; [tauto|]. by intros [|].
Qed.

Lemma policy_errors_nil r : policy_errors r = [] ↔ valid_policy r.
Proof.
  unfold policy_errors. rewrite !app_eq_nil_iff, !reject_if_nil.
  rewrite (optional_spec (integer_within 1 100000) _ _ (integer_within_spec _ _ _)).
  rewrite !negb_false_iff, integer_within_spec, is_bool_spec.
  assert (∀ n p a, n = true ∧ p = true ∧ n && p && negb a = false ↔ n = true ∧ p = true ∧ a = true) as Hnpa
    by (intros [] [] []; cbn; intuition congruence).
  rewrite Hnpa. rewrite String.eqb_eq, network_agrees.
  assert (∀ v, match v with
     | None => false
     | Some (JNum n) => negb (isFinite n) || num_leb n (int 0)
     | Some _ => true
     end = false ↔
    optional (λ v, ∃ n, v = Some (JNum n) ∧ isFinite n = true ∧ num_leb n (int 0) = false) v) as Hcost.
  { unfold optional. intros [[| |n| | |]|]; try (split; [done|by intros [?|(? & ? & _)]]).
    - rewrite orb_false_iff, negb_false_iff. split; [eauto 6|]. by intros [?|(? & [= ->] & ?)].
    - split; [by left|done]. }
  rewrite Hcost, !andb_false_iff, !negb_false_iff, !is_str_spec.
  rewrite <- not_true_iff_false, is_str_spec. split.
  - intros (Hm & Ht & He & Hc & Ha & Hrw & Hn). split; try done. destruct Hm as [?|?]; [by left|right; by destruct Hrw].
  - intros [Hm Ht He Hc Ha Hn]. split; [destruct Hm as [?|[? _]]; auto|]. do 4 (split; [done|]). split; [|done].
    destruct Hm as [Hm|[Hm ?]]; [left; congruence|by right].
Qed.

Lemma identity_errors_nil r : identity_errors r = [] ↔ valid_identity r.
Proof.
  unfold identity_errors. rewrite !app_eq_nil_iff, !reject_if_nil, !negb_false_iff, !text_within_spec.
  rewrite is_str_spec, existsb_exists. split.
  - intros (Hv & Ht & Hc & Hw & He & Htask & Hn & s & Hs & Hfs%is_str_spec).
    split; [done| |done|exists s; split; [done|by apply list_elem_of_In]]. by repeat constructor.
  - intros [Hv Hn Ht (s & Hfs & Hs)]. rewrite !Forall_cons in Hn. destruct Hn as (H1 & H2 & H3 & H4 & H5 & _).
    do 7 (split; [done|]). exists s. split; [by apply list_elem_of_In|by apply is_str_spec].
Qed.

Lemma auth_errors_nil r : auth_errors r = [] ↔ valid_auth r ∧ valid_preference r.
Proof.
  unfold auth_errors. rewrite app_eq_nil_iff. f_equiv.
  - destruct (is_str "control-plane" _) eqn:Hcp.
    + apply is_str_spec in Hcp. rewrite reject_if_nil. split.
      * destruct (path ["modelAuth"; "credential"] r) as [[| | |s| |]|] eqn:Hs; try done.
        rewrite orb_false_iff, negb_false_iff, Z.ltb_ge. intros [? ?]. by eapply auth_credential.
      * intros [s Hk -> ? Hn|s Hk _ _ _]; [|congruence].
        rewrite Hn. cbn [negb]. rewrite orb_false_r. by apply Z.ltb_ge.
    + assert (path ["modelAuth"; "kind"] r ≠ Some (JStr "control-plane")) as Hne.
      { intros Hk%is_str_spec. congruence. }
      destruct (is_str "provider-subscription" _) eqn:Hps.
      * apply is_str_spec in Hps. rewrite reject_if_nil, orb_false_iff, andb_false_iff, !negb_false_iff,
          !is_str_spec. split.
        -- intros [[Hp|Hp] Hper]; (eapply auth_subscription; [exact Hps|exact Hp| |exact Hper]); [left|right; left].
        -- intros [s Hk _ _ _|s Hk Hp Hs Hper]; [done|]. split; [|done].
           rewrite !elem_of_cons in Hs. destruct Hs as [->|[->|[]%elem_of_nil]]; auto.
      * split; [done|]. intros [s Hk _ _ _|s Hk%is_str_spec _ _ _]; [done|congruence].
  - unfold valid_preference. destruct (is_str "auto" _) eqn:Hau; cbn [negb andb].
    + apply is_str_spec in Hau. rewrite reject_if_nil. rewrite Hau. cbn. split; [by left|done].
    + destruct (is_str "provider" (path ["providerPreference"; "kind"] r)) eqn:Hpr; cbn [negb andb].
      * rewrite reject_if_nil, negb_false_iff, text_within_spec. apply is_str_spec in Hpr.
        split; [by right|]. rewrite Hpr. by intros [?|[_ ?]].
      * split; [done|]. intros [H%is_str_spec|[H%is_str_spec _]]; congruence.
Qed.

Lemma flat_map_nil {A B} (f : A → list B) l : flat_map f l = [] ↔ ∀ x, x ∈ l → f x = [].
Proof.
  induction l as [|x l IH]; cbn; [split; [by intros _ x ?%elem_of_nil|done]|].
  rewrite app_eq_nil_iff, IH. split.
  - intros [? ?] y [->|?]%elem_of_cons; auto.
  - intros Hall. split; [apply Hall; left|]. intros y ?. apply Hall. by right.
Qed.

Lemma selection_errors_nil r :
  selection_errors r = [] ↔ valid_exclusions r ∧ ∃ b, includes_patch b r.
Proof.
  unfold selection_errors, includes_patch. rewrite !app_eq_nil_iff, !reject_if_nil, negb_false_iff, is_bool_spec.
  rewrite flat_map_nil. setoid_rewrite reject_if_nil. setoid_rewrite negb_false_iff.
  unfold valid_exclusions. set (ex := array_items _).
  rewrite <- Logic.and_assoc. apply and_iff_compat_r.
  assert (∀ s, existsb (λ e, is_str s (Some e)) ex = true ↔ JStr s ∈ ex) as Hin.
  { intros s. rewrite existsb_exists. split.
    - intros (e & He & Hs%is_str_spec). injection Hs as ->. by apply list_elem_of_In.
    - intros Hs. exists (JStr s). split; [by apply list_elem_of_In|by apply is_str_spec]. }
  setoid_rewrite Hin. rewrite <- not_true_iff_false, existsb_exists. split.
  - intros [Hreq Hunk] j. split; [|by intros (s & -> & Hs); apply Hreq].
    intros Hj. destruct (existsb (λ r, is_str r (Some j)) requiredExclusions) eqn:Hex.
    + apply existsb_exists in Hex as (s & Hs & Hjs%is_str_spec). injection Hjs as ->.
      exists s. split; [done|by apply list_elem_of_In].
    + destruct Hunk. exists j. split; [by apply list_elem_of_In|by rewrite Hex].
  - intros Hall. split; [intros s Hs; apply Hall; by exists s|].
    intros (j & Hj%list_elem_of_In & Hno%negb_true_iff).
    apply Hall in Hj as (s & -> & Hs). rewrite <- not_true_iff_false, existsb_exists in Hno.
    apply Hno. exists s. split; [by apply list_elem_of_In|by apply is_str_spec].
Qed.

Lemma patch_flag_spec flag (patch : jsval) :
  match flag with
  | Some (JBool b) => negb (Bool.eqb b (negb (is_undefined patch)))
  | _ => true
  end = false ↔ ∃ b, flag = Some (JBool b) ∧ (b = true ↔ patch ≠ None).
Proof.
  destruct flag as [[|b| | | |]|]; try (split; [done|by intros (? & ? & _)]).
  rewrite negb_false_iff, Bool.eqb_true_iff. split.
  - intros ->. exists (negb (is_undefined patch)). split; [done|]. by destruct patch.
  - intros (? & [= <-] & Hb). destruct patch; cbn; destruct b; try done.
    + by apply Hb.
    + by destruct (proj1 Hb eq_refl).
Qed.

Lemma source_errors_nil r :
  source_errors parse_url r = [] ∧ (∃ b, includes_patch b r) ↔ valid_source r.
Proof.
  unfold source_errors, includes_patch. destruct (is_str "git" _) eqn:Hg.
  - apply is_str_spec in Hg. rewrite !app_eq_nil_iff, !reject_if_nil.
    rewrite (optional_spec isSafeRelativePath (λ v, isSafeRelativePath v = true) _ (iff_refl _)).
    rewrite !negb_false_iff, https_url_spec. split.
    + intros [(Hu & Hc & Hp & Hs) [b Hb]]. rewrite Hb in Hp. cbn in Hp. subst b. by apply source_git.
    + intros [Hk Hb Hu Hc Hs|b Hk]; [|congruence]. rewrite Hb. by eauto 10.
  - assert (path ["source"; "kind"] r ≠ Some (JStr "git")) as Hng.
    { intros Hk%is_str_spec. congruence. }
    destruct (is_str "snapshot" _) eqn:Hsn.
    + apply is_str_spec in Hsn. rewrite !app_eq_nil_iff, !reject_if_nil.
      rewrite (optional_spec (isCredentialFreeHttpsUrl parse_url) _ _ (https_url_spec _)).
      rewrite !negb_false_iff, !positive_integer_spec, patch_flag_spec.
      set (t := truthy _). assert (∀ l, (if t then l else []) = [] ↔ (t = true → l = @nil string)) as Ht.
      { intros l. by destruct t; naive_solver. }
      rewrite Ht, !app_eq_nil_iff, !reject_if_nil, !negb_false_iff, positive_integer_spec. split.
      * intros [(H1 & H2 & H3 & H4 & H5 & (b & Hb & Hbp) & H7) _]. by eapply source_snapshot.
      * intros [Hk|b Hk Hb H1 H2 H3 H4 H5 H6 H7]; [done|]. split; [|by eexists].
        do 5 (split; [done|]). split; [by exists b|done].
    + split; [by intros [? _]|]. intros [Hk|b Hk%is_str_spec]; [done|congruence].
Qed.

(** C35: Validation accepts exactly the well-formed requests: right shape and schema
    version; non-blank names and task within their lengths; a lifetime of 60 to
    28800 seconds; event and cost budgets, when given, in range; read-write only
    with the agent's read-write capability; a network policy granting the same hosts
    as the agent manifest, in any order; exactly the four source exclusions; an
    immutable, credential-free git or snapshot source; and known model
    authentication and provider preference. *)
Theorem validateExecutionRequest_exact r :
  validateExecutionRequest parse_url r = Ok tt ↔ valid_request r.
Proof.
  assert (validateExecutionRequest parse_url r = Ok tt ↔
          request_shape r = true ∧ request_errors parse_url r = []) as ->.
  { unfold validateExecutionRequest. destruct (request_shape r); cbn [negb].
    - destruct (request_errors parse_url r); [done|]. by split; [|intros [_ ?]].
    - by split; [|intros [? _]]. }
  unfold request_errors. rewrite !app_eq_nil_iff, identity_errors_nil, policy_errors_nil,
    auth_errors_nil, selection_errors_nil.
  pose proof (source_errors_nil r) as Hsrc. split.
  - intros (? & ? & ? & [? ?] & [? ?] & ?). split; try done. by apply Hsrc.
  - intros [? ? ? ? ? ? Hs%Hsrc]. by destruct Hs.
Qed.

(** What is not accepted is refused with EXECUTION_INVALID_REQUEST, naming every
    check that failed. *)
Lemma validateExecutionRequest_error r e :
  validateExecutionRequest parse_url r = Throw e →
  err_code e = Some "EXECUTION_INVALID_REQUEST" ∧
  (request_shape r = true → err_details e = (λ m, ("errors", m)) <$> request_errors parse_url r).
Proof.
  unfold validateExecutionRequest. destruct (request_shape r); cbn [negb].
  - destruct (request_errors parse_url r) eqn:He; [done|]. by intros [= <-].
  - by intros [= <-].
Qed.
End Spec.
