(* ===== verification/FakeProviderProps.v ===== *)
(** * The deterministic provider: its runs and their paging

    Every operation keeps the run records consistent, and reading events page by
    page loses and repeats nothing. *)

From stdpp Require Import base list strings pretty relations.
From Stdlib Require Import ZArith.
From S2P Require Import Prelude JsString JsValue ExecTypes ExecStore ExecValidate ExecControlPlane ExecInvariant ExecCalls FakeProvider ExecFixtures ExecStream.

Section Runs.
Context {Env : Type} (idFactory : Env → string * Env) (clock : Env → Z * Env).
Notation F := (FakeState Env).

(** Operations that leave the runs as they are. *)
Definition quiet {A} (m : M F A) : Prop := ∀ f, fk_runs (m f).2 = fk_runs f.

Lemma quiet_ret {A} (a : A) : quiet (mret a).
Proof. done. Qed.
Lemma quiet_throw {A} e : quiet (A := A) (throw e).
Proof. done. Qed.
Lemma quiet_outcome {A} (o : outcome A) : quiet (from_outcome o).
Proof. done. Qed.
Lemma quiet_bind {A B} (m : M F A) (k : A → M F B) :
  quiet m → (∀ a, quiet (k a)) → quiet (m ≫= k).
Proof.
  intros Hm Hk f. specialize (Hm f). unfold mbind, M_bind.
  destruct (m f) as [[a|e] f']; cbn in *; [|done]. by rewrite Hk.
Qed.
Lemma quiet_fresh_id : quiet (fresh_id idFactory).
Proof. intros f. unfold fresh_id. by destruct (idFactory _). Qed.
Lemma quiet_now : quiet (fake_now clock).
Proof. intros f. unfold fake_now. by destruct (clock _). Qed.
Lemma quiet_set_session id s : quiet (set_session id s).
Proof. done. Qed.
Lemma quiet_requireSession id : quiet (requireSession id).
Proof. intros f. unfold requireSession, get_state, mbind, M_bind. by destruct (assoc_get _ _). Qed.
Hint Resolve quiet_ret quiet_throw quiet_outcome quiet_fresh_id quiet_now quiet_set_session
  quiet_requireSession : js.
Hint Extern 1 (quiet (_ ≫= _)) => apply quiet_bind; [|intros ?] : js.

Lemma quiet_event type data : quiet (event idFactory clock type data).
Proof. unfold event. auto 10 with js. Qed.
Lemma quiet_set_status id status : quiet (set_session_status id status).
Proof. unfold set_session_status. auto 10 with js. Qed.
Hint Resolve quiet_event quiet_set_status : js.

(** What a computation returns, whatever the state. *)
Definition returns {A} (m : M F A) (φ : A → Prop) : Prop :=
  ∀ f, match (m f).1 with Ok a => φ a | Throw _ => True end.

Lemma returns_any {A} (m : M F A) : returns m (λ _, True).
Proof. intros f. by destruct (m f).1. Qed.
Lemma returns_bind {A B} (m : M F A) (k : A → M F B) φ ψ :
  returns m φ → (∀ a, φ a → returns (k a) ψ) → returns (m ≫= k) ψ.
Proof.
  intros Hm Hk f. specialize (Hm f). unfold mbind, M_bind.
  destruct (m f) as [[a|e] f']; cbn in *; [by apply Hk|done].
Qed.
Lemma returns_event type data : returns (event idFactory clock type data) (λ e, pe_type e = type).
Proof.
  unfold event. eapply returns_bind; [apply returns_any|]. intros id _.
  eapply returns_bind; [apply returns_any|]. by intros t _ f.
Qed.

Lemma triple_quiet {A} (m : M F A) φ :
  quiet m → returns m φ → triple runs_ok m (λ a f, φ a ∧ runs_ok f) (λ _, runs_ok).
Proof.
  intros Hq Hr f Hf. specialize (Hq f). specialize (Hr f).
  destruct (m f) as [[a|e] f']; cbn in *; unfold runs_ok in *; by rewrite Hq.
Qed.

(** A quiet step, then the rest. *)
Lemma runs_step {A B} (m : M F A) (k : A → M F B) φ Q :
  quiet m → returns m φ → (∀ a, φ a → triple runs_ok (k a) Q (λ _, runs_ok)) →
  triple runs_ok (m ≫= k) Q (λ _, runs_ok).
Proof.
  intros Hq Hr Hk. eapply triple_bind; [by apply triple_quiet|].
  intros a f [Ha Hf]. by apply (Hk a Ha).
Qed.

Lemma runs_step_any {A B} (m : M F A) (k : A → M F B) Q :
  quiet m → (∀ a, triple runs_ok (k a) Q (λ _, runs_ok)) →
  triple runs_ok (m ≫= k) Q (λ _, runs_ok).
Proof. intros Hq Hk. eapply runs_step; [done|apply returns_any|]. auto. Qed.

Lemma runs_set_run id r : run_ok r → triple runs_ok (set_run id r : M F unit) (λ _, runs_ok) (λ _, runs_ok).
Proof. intros Hr f Hf id' r' [[-> ->]|?]%assoc_set_elem; [done|by eapply Hf]. Qed.

Lemma runs_require handle (k : FakeRun → M F unit) :
  (∀ r, run_ok r → triple runs_ok (k r) (λ _, runs_ok) (λ _, runs_ok)) →
  triple runs_ok (requireRun handle ≫= k) (λ _, runs_ok) (λ _, runs_ok).
Proof.
  intros Hk. apply triple_bind with (R := λ r f, run_ok r ∧ runs_ok f).
  - intros f Hf. unfold requireRun, get_state, mbind, M_bind.
    destruct (assoc_get _ _) as [r|] eqn:Hr; [|done]. destruct (String.eqb _ _); [|done].
    split; [|done]. eapply Hf. by apply assoc_get_elem.
  - intros r f [Hr Hf]. by apply (Hk r Hr).
Qed.

(** ** Records *)

Lemma gate_events r es : gate_passed r → gate_passed (with_events r es).
Proof.
  intros Hg Hs. destruct (Hg Hs) as (e & He & ?). exists e. split; [|done]. apply elem_of_app; by left.
Qed.

Lemma run_ok_events r es : run_ok r → run_ok (with_events r es).
Proof.
  intros (Hd & Ht & Ha). split; [done|]. split; [|done].
  intros Hdone. destruct (Ht Hdone) as [(e & He & ?) Hg]. split; [|by apply gate_events].
  exists e. split; [|done]. apply elem_of_app; by left.
Qed.

Lemma run_ok_finish r result es e :
  gate_passed r → e ∈ es → isTerminal (status_after st_running e) = true →
  run_ok (with_events (finish r result) es) ∧ run_ok (finish (with_events r es) result).
Proof.
  intros Hg He Ht.
  assert (∃ e0, e0 ∈ run_events r ++ es ∧ isTerminal (status_after st_running e0) = true) as Hex.
  { exists e. split; [apply elem_of_app; by right|done]. }
  pose proof (gate_events r es Hg) as Hg'.
  split; (split; [split; [by eexists|done]|split; [by intros _|done]]).
Qed.

Lemma completeRun_quiet r : quiet (completeRun idFactory clock r).
Proof.
  unfold completeRun. set (changed := is_str _ _).
  apply quiet_bind; [auto with js|]. intros raw. apply quiet_bind; [auto with js|]. intros c.
  apply quiet_bind; [destruct changed; auto 10 with js|]. intros ch. auto 10 with js.
Qed.

Lemma completeRun_ok r : gate_passed r → returns (completeRun idFactory clock r) run_ok.
Proof.
  intros Hg. unfold completeRun. set (changed := is_str _ _).
  eapply returns_bind; [apply returns_any|]. intros raw _.
  eapply returns_bind; [apply returns_any|]. intros c _.
  eapply returns_bind; [apply returns_any|]. intros ch _.
  eapply returns_bind; [apply returns_any|]. intros u _.
  eapply returns_bind; [apply returns_event|]. intros fin Hfin f. cbn.
  eapply (run_ok_finish _ _ _ fin); [done| |by unfold status_after; rewrite Hfin].
  right. apply elem_of_app. right. right. left.
Qed.

(** ** The operations *)

Lemma startExecution_keeps session input :
  triple runs_ok (fake_startExecution idFactory clock session input) (λ _, runs_ok) (λ _, runs_ok).
Proof.
  unfold fake_startExecution. apply runs_step_any; [auto with js|]. intros stored.
  destruct (fs_workspace stored) as [ws|]; [|by intros f].
  do 4 (apply runs_step_any; [auto with js|]; intros ?).
  apply runs_step_any; [auto with js|]. intros approval. destruct (truthy approval).
  - do 3 (apply runs_step_any; [auto with js|]; intros ?).
    eapply triple_bind; [apply runs_set_run|by intros [] f].
    apply run_ok_events. split; [|by split]. split; [done|by intros []].
  - eapply runs_step; [apply completeRun_quiet|apply completeRun_ok; by intros []|]. intros r Hrok.
    eapply triple_bind; [by apply runs_set_run|by intros [] f].
Qed.

Lemma resolveApproval_keeps handle decision :
  triple runs_ok (fake_resolveApproval idFactory clock handle decision) (λ _, runs_ok) (λ _, runs_ok).
Proof.
  unfold fake_resolveApproval. apply runs_require. intros r Hr.
  destruct (match run_approvalRequestId r with Some _ => _ | None => _ end); [by intros f|].
  eapply runs_step; [auto with js|apply returns_event|]. intros resolved Hres.
  assert (gate_passed (with_events r [resolved])) as Hg.
  { intros _. exists resolved. split; [|done]. apply elem_of_app. right. left. }
  destruct (is_str "approved" _); (apply runs_step_any; [auto with js|]; intros ?).
  - eapply runs_step; [apply completeRun_quiet|by apply completeRun_ok|].
    intros r' Hr'. by apply runs_set_run.
  - eapply runs_step; [auto with js|apply returns_event|]. intros c Hc. apply runs_set_run.
    eapply (run_ok_finish _ _ [c] c); [done|left|by unfold status_after; rewrite Hc].
Qed.

Lemma appending_keeps handle (m : M F AgentExecutionProviderEvent) :
  quiet m →
  triple runs_ok (run ← requireRun handle; e ← m; set_run (h_runId handle) (with_events run [e]))
    (λ _, runs_ok) (λ _, runs_ok).
Proof.
  intros Hm. apply runs_require. intros r Hr. apply runs_step_any; [done|].
  intros e. by apply runs_set_run, run_ok_events.
Qed.

Lemma quiet_keeps {A} (m : M F A) : quiet m → triple runs_ok m (λ _, runs_ok) (λ _, runs_ok).
Proof.
  intros Hq. eapply triple_conseq; [apply (triple_quiet m (λ _, True)); [done|apply returns_any]|done| |done].
  by intros a f [_ ?].
Qed.

(** One call of the provider interface. *)
Inductive provider_step (p : AgentExecutionProvider F) : F → F → Prop :=
| step_start i f : provider_step p f (p_start p i f).2
| step_inspect i f : provider_step p f (p_inspect p i f).2
| step_suspend i f : provider_step p f (p_suspend p i f).2
| step_resume i f : provider_step p f (p_resume p i f).2
| step_terminate i f : provider_step p f (p_terminate p i f).2
| step_prepare s i src a f : provider_step p f (p_prepareWorkspace p s i src a f).2
| step_startExecution s i f : provider_step p f (p_startExecution p s i f).2
| step_read h c l f : provider_step p f (p_readEvents p h c l f).2
| step_resolve h d f : provider_step p f (p_resolveApproval p h d f).2
| step_submit h i f : provider_step p f (p_submitInput p h i f).2
| step_steer h m f : provider_step p f (p_steer p h m f).2
| step_collect h f : provider_step p f (p_collectResult p h f).2.

Lemma quiet_start i : quiet (fake_start idFactory clock i).
Proof. unfold fake_start. auto 10 with js. Qed.
Lemma quiet_terminate i : quiet (fake_terminate clock i).
Proof. unfold fake_terminate. auto 10 with js. Qed.
Lemma quiet_inspect i : quiet (fake_inspect i).
Proof. unfold fake_inspect. auto 10 with js. Qed.
Lemma quiet_prepare s i src a : quiet (fake_prepareWorkspace s i src a).
Proof. unfold fake_prepareWorkspace. auto 10 with js. Qed.
Lemma quiet_requireRun h : quiet (requireRun h).
Proof.
  intros f. unfold requireRun, get_state, mbind, M_bind. destruct (assoc_get _ _); [|done].
  by destruct (String.eqb _ _).
Qed.

Lemma provider_step_keeps f f' :
  provider_step (FakeAgentExecutionProvider idFactory clock) f f' → runs_ok f → runs_ok f'.
Proof.
  assert (∀ A (m : M F A) f, triple runs_ok m (λ _, runs_ok) (λ _, runs_ok) → runs_ok f → runs_ok (m f).2) as Hk.
  { intros A m g Hm Hg. specialize (Hm g Hg). by destruct (m g) as [[a|e] g']. }
  destruct 1; cbn [FakeAgentExecutionProvider p_start p_inspect p_suspend p_resume p_terminate
    p_prepareWorkspace p_startExecution p_readEvents p_resolveApproval p_submitInput p_steer
    p_collectResult]; apply Hk.
  - apply quiet_keeps, quiet_start.
  - apply quiet_keeps, quiet_inspect.
  - apply quiet_keeps, quiet_set_status.
  - apply quiet_keeps. unfold fake_resume.
    apply quiet_bind; [apply quiet_set_status|intros _; apply quiet_inspect].
  - apply quiet_keeps, quiet_terminate.
  - apply quiet_keeps, quiet_prepare.
  - apply startExecution_keeps.
  - apply quiet_keeps. unfold fake_readEvents.
    apply quiet_bind; [apply quiet_requireRun|]. intros r. auto 10 with js.
  - apply resolveApproval_keeps.
  - apply (appending_keeps h). apply quiet_event.
  - apply (appending_keeps h). apply quiet_event.
  - apply quiet_keeps. unfold fake_collectResult.
    apply quiet_bind; [apply quiet_requireRun|]. intros r. by destruct (run_done r), (run_result r).
Qed.

(** the deterministic provider keeps its runs consistent.  After any sequence of
    calls of the provider interface, whatever they answer, a run is done exactly when
    it has a result, a done run's event log holds a terminal event, and a run that
    asked for an approval is done only if that approval was resolved. *)
Theorem fake_runs_consistent env f :
  rtc (provider_step (FakeAgentExecutionProvider idFactory clock)) (MkFake [] [] env) f → runs_ok f.
Proof.
  intros Hr. assert (runs_ok (MkFake [] [] env : F)) as Hinit by (by intros id r ?%elem_of_nil).
  revert Hr Hinit. generalize (MkFake [] [] env : F). intros f0.
  induction 1 as [|f0 f1 f2 Hstep _ IH]; [done|]. intros Hf. apply IH. by eapply provider_step_keeps.
Qed.

(** ** Paging *)

(** reading events from a cursor page by page is exact: from a cursor [k] within
    the log, [readEvents] hands out the next events, at most [limit] of them, its
    cursor stands right after them, and it reports done only when the run is done and
    everything was handed out. *)
Theorem fake_readEvents_pages handle r k limit (f : F) :
  requireRun handle f = (Ok r, f) → (k ≤ length (run_events r))%nat →
  Z.of_nat (length (run_events r)) ≤ MAX_SAFE_INTEGER →
  ∃ b, fake_readEvents handle (Some (int_to_string (Z.of_nat k))) limit f = (Ok b, f) ∧
    eb_events b = match limit with
                  | Some n => take (Z.to_nat n) (drop k (run_events r))
                  | None => drop k (run_events r)
                  end ∧
    parseProviderCursor (eb_cursor b) = Ok (Z.of_nat (k + length (eb_events b))) ∧
    (eb_done b = true ↔ run_done r = true ∧ (k + length (eb_events b) = length (run_events r))%nat).
Proof.
  intros Hrun Hk Hmax. set (total := length (run_events r)) in *.
  assert (∀ n, 0 ≤ n ≤ MAX_SAFE_INTEGER → parseProviderCursor (Some (int_to_string n)) = Ok n) as Hparse.
  { intros n Hn. unfold parseProviderCursor. rewrite string_to_num_pretty by lia.
    unfold safe_integer. rewrite num_to_Z_int. unfold safe_Z.
    replace ((- MAX_SAFE_INTEGER <=? n) && (n <=? MAX_SAFE_INTEGER)) with true by lia.
    destruct (Z.ltb_spec n 0); [lia|done]. }
  unfold fake_readEvents, mbind, M_bind. rewrite Hrun. unfold from_outcome. rewrite Hparse by lia.
  fold total. unfold mret, M_ret.
  set (stop := match limit with None => _ | Some _ => _ end). eexists. split; [done|].
  cbn [eb_events eb_cursor eb_done].
  assert (take (Z.to_nat (stop - Z.of_nat k)) (drop (Z.to_nat (Z.of_nat k)) (run_events r)) =
    match limit with Some n => take (Z.to_nat n) (drop k (run_events r)) | None => drop k (run_events r) end) as ->.
  { rewrite Nat2Z.id. unfold stop. destruct limit as [n|].
    - destruct (Z.le_gt_cases (Z.of_nat total) (Z.of_nat k + Z.max 0 n)).
      + rewrite !take_ge; [done|rewrite length_drop; fold total; lia..].
      + f_equal. lia.
    - apply take_ge. rewrite length_drop. fold total. lia. }
  split; [done|].
  assert (stop = Z.of_nat (k + length (match limit with
    Some n => take (Z.to_nat n) (drop k (run_events r)) | None => drop k (run_events r) end))) as ->.
  { unfold stop. destruct limit; rewrite ?length_take, length_drop; fold total; lia. }
  set (es := match limit with Some n => _ | None => _ end).
  assert (k + length es ≤ total)%nat as Hle.
  { unfold es. destruct limit; rewrite ?length_take, length_drop; fold total; lia. }
  split; [apply Hparse; lia|]. rewrite andb_true_iff, Z.leb_le. intuition lia.
Qed.
End Runs.

(** ** Instances *)

Definition page_handle : AgentExecutionHandle := {| h_sessionId := "sandbox_3"; h_runId := "run_6" |}.
Definition page_run : FakeRun :=
  Eval vm_compute in
    match requireRun page_handle (w_ext world1) with
    | (Ok r, _) => r
    | _ => {| run_handle := page_handle;
              run_input := {| xi_executionId := ""; xi_task := None; xi_source := None;
                              xi_policy := None; xi_modelAuth := None |};
              run_events := []; run_done := true; run_approvalRequestId := None; run_result := None |}
    end.

Lemma fake_readEvents_pages_witness :
  length (run_events page_run) = 4%nat ∧
  ∃ b, fake_readEvents page_handle (Some (int_to_string 1)) (Some 2) (w_ext world1) = (Ok b, w_ext world1) ∧
    eb_events b = take 2 (drop 1 (run_events page_run)) ∧
    parseProviderCursor (eb_cursor b) = Ok (Z.of_nat (1 + length (eb_events b))) ∧
    (eb_done b = true ↔ run_done page_run = true ∧ (1 + length (eb_events b) = length (run_events page_run))%nat).
Proof.
  split; [reflexivity|].
  apply (fake_readEvents_pages page_handle page_run 1 (Some 2) (w_ext world1)).
  - vm_compute. reflexivity.
  - cbn. lia.
  - vm_compute. discriminate.
Defined.

Lemma fake_runs_consistent_witness :
  let p := FakeAgentExecutionProvider tick_id tick_clock in
  runs_ok (p_start p {| si_manifest := sample_agent []; si_cell := None; si_environment := None;
                        si_snapshot := None; si_credentialBroker := None; si_clientToken := "exec_2" |}
             (MkFake [] [] 1%N)).2.
Proof.
  apply (fake_runs_consistent tick_id tick_clock 1%N).
  eapply rtc_l; [apply step_start|]. apply rtc_refl.
Defined.
