(* ===== verification/DatabaseCommit.v ===== *)
(** * Runtime: conditional database commits and pages

    [mezair-cloud/packages/runtime/src/database-commit.ts] and [database-page.ts].  Writes
    and records are JSON trees; a value JSON has no notation for (undefined inside an object,
    a cycle, a class instance) is outside the model, which the code rejects with the same
    VALIDATION_ERROR.  A snapshot maps table names to rows in order.  Pages are in the byte
    order of the UTF-8 ids; following the cursors visits every record once. *)

From stdpp Require Import base list strings pretty sorting.
From Stdlib Require Import ZArith Ascii.
From S2P Require Import Prelude JsString JsValue.

Definition MAX_DATABASE_COMMIT_WRITES : Z := 25.

(** [new RuntimeError(code, message, status)]: the class the error is an instance of and
    its own [name] and [status] are among the entries of the error. *)
Definition runtime_error (code message : string) (status : Z) : JsError :=
  MkError (Some code) message
    [("class", "RuntimeError"); ("name", "RuntimeError"); ("status", int_to_string status)].

(** [error instanceof RuntimeError]. *)
Definition is_runtime_error (e : JsError) : bool :=
  bool_decide (assoc_get "class" (err_details e) = Some "RuntimeError").

Definition validation_error (message : string) : JsError := runtime_error "VALIDATION_ERROR" message 400.

(** ** Stable JSON *)

(** The array index a property key denotes, if it is one. *)
Definition array_index (k : string) : option Z :=
  let n := default 0 (num_to_Z (string_to_num k)) in
  if String.eqb k (int_to_string n) && (0 <=? n) && (n <? 4294967295) then Some n else None.

Definition is_index (k : string) : bool := match array_index k with Some _ => true | None => false end.

Definition index_leb {A} (x y : string * A) : bool :=
  default 0 (array_index x.1) <=? default 0 (array_index y.1).

(** The order in which an object lists its own keys: indices first, ascending. *)
Definition own_order {A} (l : list (string * A)) : list (string * A) :=
  sort_by index_leb (List.filter (λ kv, is_index kv.1) l) ++ List.filter (λ kv, negb (is_index kv.1)) l.

(** [JSON.stringify(visit(value))]. *)
Fixpoint stable_json (value : json) : string :=
  match value with
  | JArr l => "[" +:+ join "," (map stable_json l) +:+ "]"
  | JObj l =>
      "{" +:+ join "," (map (λ kv, quote kv.1 +:+ ":" +:+ kv.2)
                         (own_order (sort_by key_leb (map (λ kv, (kv.1, stable_json kv.2)) l)))) +:+ "}"
  | JNull => "null"
  | JBool true => "true"
  | JBool false => "false"
  | JNum n => num_json n
  | JStr s => quote s
  end.

(** Every number is finite. *)
Fixpoint all_finite (value : json) : bool :=
  match value with
  | JNum n => isFinite n
  | JArr l => forallb all_finite l
  | JObj l => forallb (λ kv, all_finite kv.2) l
  | _ => true
  end.

Definition databaseRecordJson (value : json) : outcome string :=
  if all_finite value then Ok (stable_json value)
  else Throw (validation_error "Database records must contain only JSON values.").

(** ** Validation *)

Definition byte_length (s : string) : Z := Z.of_nat (length (utf8 s)).

(** A non-empty string of at most [max] UTF-8 bytes. *)
Definition name_within (max : Z) (v : jsval) : bool :=
  match v with
  | Some (JStr s) => negb (String.eqb s "") && (byte_length s <=? max)
  | _ => false
  end.

Definition write_named (w : json) : bool :=
  truthy (Some w) &&
  negb (existsb (λ s, is_str s (prop "table" (Some w))) ["__proto__"; "constructor"; "prototype"]) &&
  name_within 1024 (prop "id" (Some w)) && name_within 255 (prop "table" (Some w)).

Definition write_field (k : string) (w : json) : string := to_js_string (prop k (Some w)).

(** [JSON.stringify([write.table, write.id])]. *)
Definition write_key (w : json) : string :=
  JSON_stringify (JArr [JStr (write_field "table" w); JStr (write_field "id" w)]).

(** [null], or an object that carries the id. *)
Definition check_record (id : string) (record : jsval) : outcome unit :=
  match record with
  | Some JNull => Ok tt
  | Some (JObj l) =>
      if is_str id (prop "id" record) then
        match databaseRecordJson (JObj l) with
        | Ok text => if 256 * 1024 <? byte_length text
                     then Throw (validation_error "Commit records cannot exceed 256 KiB.") else Ok tt
        | Throw e => Throw e
        end
      else Throw (validation_error "Commit records must include the matching id, or be null.")
  | _ => Throw (validation_error "Commit records must include the matching id, or be null.")
  end.

Fixpoint check_writes (keys : list string) (writes : list json) : outcome unit :=
  match writes with
  | [] => Ok tt
  | w :: writes' =>
      if negb (write_named w) then
        Throw (validation_error "Every write needs a table name up to 255 UTF-8 bytes and a record id up to 1024 UTF-8 bytes.")
      else if bool_decide (write_key w ∈ keys) then
        Throw (validation_error "A database commit cannot write the same record twice.")
      else
        match check_record (write_field "id" w) (prop "record" (Some w)) with
        | Ok _ =>
            match check_record (write_field "id" w) (prop "expected" (Some w)) with
            | Ok _ => check_writes (write_key w :: keys) writes'
            | Throw e => Throw e
            end
        | Throw e => Throw e
        end
  end.

Definition validateDatabaseWrites (writes : json) : outcome unit :=
  match writes with
  | JArr ws =>
      if (Z.of_nat (length ws) <? 1) || (MAX_DATABASE_COMMIT_WRITES <? Z.of_nat (length ws)) then
        Throw (validation_error "A database commit requires 1 to 25 writes.")
      else
        match databaseRecordJson writes with
        | Ok text => if 1024 * 1024 <? byte_length text
                     then Throw (validation_error "A database commit cannot exceed 1 MiB.")
                     else check_writes [] ws
        | Throw e => Throw e
        end
  | _ => Throw (validation_error "A database commit requires 1 to 25 writes.")
  end.

Definition databaseConflict : JsError :=
  runtime_error "CONFLICT" "A record changed before the database commit. Read the latest records and retry." 409.

(** ** Applying *)

Abbreviation Snapshot := (list (string * list json)).

(** The properties every plain object inherits. *)
Definition object_prototype : list string :=
  ["__defineGetter__"; "__defineSetter__"; "__lookupGetter__"; "__lookupSetter__"; "__proto__";
   "constructor"; "hasOwnProperty"; "isPrototypeOf"; "propertyIsEnumerable"; "toLocaleString";
   "toString"; "valueOf"].

(** [next[table] ?? []], which must have [find] and [filter]: an inherited method
    has neither. *)
Definition table_rows (table : string) (next : Snapshot) : outcome (list json) :=
  match assoc_get table next with
  | Some rows => Ok rows
  | None => if bool_decide (table ∈ object_prototype)
            then Throw (MkError None "(intermediate value).find is not a function" [])
            else Ok []
  end.

(** [record.id === id]. *)
Definition has_id (id : string) (record : json) : bool := is_str id (prop "id" (Some record)).

Definition apply_write (w : json) (next : Snapshot) : outcome Snapshot :=
  let table := write_field "table" w in
  let id := write_field "id" w in
  match table_rows table next with
  | Throw e => Throw e
  | Ok rows =>
      let current := default JNull (find_first (has_id id) rows) in
      match databaseRecordJson current, databaseRecordJson (default JNull (prop "expected" (Some w))) with
      | Throw e, _ | _, Throw e => Throw e
      | Ok found, Ok expected =>
          if negb (String.eqb found expected) then Throw databaseConflict
          else
            let kept := List.filter (λ record, negb (has_id id record)) rows in
            let rows := if truthy (prop "record" (Some w))
                        then kept ++ [default JNull (prop "record" (Some w))] else kept in
            Ok (assoc_set table rows next)
      end
  end.

Fixpoint apply_writes (writes : list json) (next : Snapshot) : outcome Snapshot :=
  match writes with
  | [] => Ok next
  | w :: writes' =>
      match apply_write w next with
      | Ok next' => apply_writes writes' next'
      | Throw e => Throw e
      end
  end.

Definition applyDatabaseWrites (snapshot : Snapshot) (writes : json) : outcome Snapshot :=
  match validateDatabaseWrites writes with
  | Ok _ => apply_writes (match writes with JArr ws => ws | _ => [] end) snapshot
  | Throw e => Throw e
  end.

(** ** Runtime: paging through records

    [mezair-cloud/packages/runtime/src/database-page.ts]: a page of records after a
    cursor, in the byte order of the UTF-8 ids; and that following the cursors
    visits every record once. *)

(** [DatabasePageOptions]: both fields may be undefined. *)
Record DatabasePageOptions := { po_limit : jsval; po_cursor : jsval }.

Record DatabasePage := { page_records : list json; page_cursor : option string }.

Definition databasePageLimit (options : DatabasePageOptions) : outcome Z :=
  match match po_limit options with None | Some JNull => Some (JNum (int 100)) | v => v end with
  | Some (JNum n) =>
      match num_to_Z n with
      | Some limit =>
          if (limit <? 1) || (100 <? limit)
          then Throw (validation_error "Page limit must be an integer from 1 to 100.")
          else match po_cursor options with
               | None => Ok limit
               | Some (JStr c) => if String.eqb c ""
                                  then Throw (validation_error "Page cursor must be a non-empty record id.")
                                  else Ok limit
               | Some _ => Throw (validation_error "Page cursor must be a non-empty record id.")
               end
      | None => Throw (validation_error "Page limit must be an integer from 1 to 100.")
      end
  | _ => Throw (validation_error "Page limit must be an integer from 1 to 100.")
  end.

(** The sign of [compareIds(left, right)], byte by byte. *)
Fixpoint compare_bytes (a b : list Z) : comparison :=
  match a, b with
  | [], [] => Eq
  | [], _ :: _ => Lt
  | _ :: _, [] => Gt
  | x :: a', y :: b' => match Z.compare x y with Eq => compare_bytes a' b' | c => c end
  end.

Definition compareIds (left right : string) : comparison := compare_bytes (utf8 left) (utf8 right).

(** [String(row.id)]. *)
Definition row_id (row : json) : string := to_js_string (prop "id" (Some row)).

Definition id_leb (a b : json) : bool :=
  match compareIds (row_id a) (row_id b) with Gt => false | _ => true end.

(** After the cursor, if there is one. *)
Definition after_cursor (cursor : jsval) (row : json) : bool :=
  match cursor with
  | None => true
  | Some c => match compareIds (row_id row) (to_js_string (Some c)) with Gt => true | _ => false end
  end.

Definition pageDatabaseRecords (records : list json) (options : DatabasePageOptions) :
    outcome DatabasePage :=
  match databasePageLimit options with
  | Throw e => Throw e
  | Ok limit =>
      let ordered := sort_by id_leb (List.filter (after_cursor (po_cursor options)) records) in
      let page := take (Z.to_nat limit) ordered in
      Ok {| page_records := page;
            page_cursor := if limit <? Z.of_nat (length ordered)
                           then Some (from_option row_id "undefined" (last page)) else None |}
  end.

(** ** The order of ids *)

Lemma compare_bytes_refl a : compare_bytes a a = Eq.
Proof. induction a as [|x a IH]; cbn; [done|]. by rewrite Z.compare_refl. Qed.

Lemma compare_bytes_eq a b : compare_bytes a b = Eq → a = b.
Proof.
  revert b. induction a as [|x a IH]; intros [|y b]; cbn; try done.
  destruct (Z.compare_spec x y); try done. subst. intros ?%IH. by subst.
Qed.

Lemma compare_bytes_antisym a b : compare_bytes b a = CompOpp (compare_bytes a b).
Proof.
  revert b. induction a as [|x a IH]; intros [|y b]; cbn; try done.
  rewrite (Z.compare_antisym x y). destruct (Z.compare_spec x y); cbn; auto.
Qed.

Lemma compare_bytes_trans a b c :
  compare_bytes a b = Lt → compare_bytes b c = Lt → compare_bytes a c = Lt.
Proof.
  revert b c. induction a as [|x a IH]; intros [|y b] [|z c]; cbn; try done.
  destruct (Z.compare_spec x y) as [->|Hxy|Hxy]; [|intros _|done].
  - destruct (Z.compare_spec y z); [by apply IH|done|done].
  - destruct (Z.compare_spec y z) as [->|Hyz|Hyz]; [intros _|intros _|done];
      destruct (Z.compare_spec x z); done || lia.
Qed.

(** The bytes of a string determine it. *)
Lemma utf8_inj s t : utf8 s = utf8 t → s = t.
Proof.
  intros H. apply (inj chars). revert H. unfold utf8. generalize (chars t) as b. generalize (chars s) as a.
  clear. induction a as [|c a IH]; intros [|d b]; cbn [flat_map]; intros H; [done| | |].
  - exfalso. unfold utf8_char in H. by destruct (code d <? 128).
  - exfalso. unfold utf8_char in H. by destruct (code c <? 128).
  - assert (code c = code d ∧ flat_map utf8_char a = flat_map utf8_char b) as [Hc Hab].
    { pose proof (code_range c). pose proof (code_range d). unfold utf8_char in H.
      destruct (Z.ltb_spec (code c) 128), (Z.ltb_spec (code d) 128); cbn in H; simplify_eq; try done.
      - exfalso. pose proof (Z.div_pos (code d) 64). lia.
      - exfalso. pose proof (Z.div_pos (code c) 64). lia.
      - split; [|done].
        pose proof (Z.div_mod (code c) 64 ltac:(done)). pose proof (Z.div_mod (code d) 64 ltac:(done)). lia. }
    f_equal; [|by apply IH].
    unfold code in Hc. rewrite <- (ascii_N_embedding c), <- (ascii_N_embedding d). f_equal. lia.
Qed.

Lemma id_leb_total a b : id_leb a b = false → id_leb b a = true.
Proof.
  unfold id_leb, compareIds. rewrite (compare_bytes_antisym (utf8 (row_id a))).
  by destruct (compare_bytes _ _).
Qed.

Lemma id_leb_trans a b c : id_leb a b = true → id_leb b c = true → id_leb a c = true.
Proof.
  unfold id_leb, compareIds.
  destruct (compare_bytes (utf8 (row_id a)) (utf8 (row_id b))) eqn:Hab; [|intros _|done].
  - apply compare_bytes_eq in Hab. by rewrite Hab.
  - destruct (compare_bytes (utf8 (row_id b)) (utf8 (row_id c))) eqn:Hbc; [intros _|intros _|done].
    + apply compare_bytes_eq in Hbc. by rewrite <- Hbc, Hab.
    + by rewrite (compare_bytes_trans _ _ _ Hab Hbc).
Qed.

(** Only records with the same id compare both ways. *)
Lemma id_leb_antisym a b : id_leb a b = true → id_leb b a = true → row_id a = row_id b.
Proof.
  unfold id_leb, compareIds. rewrite (compare_bytes_antisym (utf8 (row_id a))).
  destruct (compare_bytes (utf8 (row_id a)) (utf8 (row_id b))) eqn:Hab; try done.
  intros _ _. by apply utf8_inj, compare_bytes_eq.
Qed.

(** ** Following the cursors *)

Section Visit.
Context (records : list json) (limit : Z).
Context (Hids : NoDup (row_id <$> records)) (Hlimit : 1 ≤ limit ≤ 100).
Context (Hnonempty : ∀ r, r ∈ records → row_id r ≠ "").

(** Page after page, each from the cursor of the one before, until there is none. *)
Fixpoint visit (fuel : nat) (cursor : jsval) : option (list json) :=
  match fuel with
  | O => None
  | S fuel' =>
      match pageDatabaseRecords records {| po_limit := Some (JNum (int limit)); po_cursor := cursor |} with
      | Ok page =>
          match page_cursor page with
          | None => Some (page_records page)
          | Some c => app (page_records page) <$> visit fuel' (Some (JStr c))
          end
      | Throw _ => None
      end
  end.

Definition ordered : list json := sort_by id_leb records.

Lemma ordered_records : ordered ≡ₚ records.
Proof. apply sort_by_Permutation. Qed.

Lemma sorted_ids l : StronglySorted (λ a b, id_leb a b = true) (sort_by id_leb l).
Proof. apply sort_by_sorted; [apply id_leb_total|apply id_leb_trans]. Qed.

Lemma same_id_same a b : a ∈ records → b ∈ records → row_id a = row_id b → a = b.
Proof using Hids.
  intros [i Hi]%list_elem_of_lookup_1 [j Hj]%list_elem_of_lookup_1 Heq.
  assert (i = j) as ->; [|congruence].
  apply (NoDup_lookup (row_id <$> records) i j (row_id a) Hids).
  - by rewrite list_lookup_fmap, Hi.
  - by rewrite list_lookup_fmap, Hj, Heq.
Qed.

(** Sorted lists of the same records are equal. *)
Lemma sorted_same l1 l2 :
  (∀ x, x ∈ l1 → x ∈ records) → StronglySorted (λ a b, id_leb a b = true) l1 →
  StronglySorted (λ a b, id_leb a b = true) l2 → l1 ≡ₚ l2 → l1 = l2.
Proof using Hids.
  intros Hin H1 H2 Hp. refine (StronglySorted_unique_strong (λ a b, id_leb a b = true) _ _ _ H1 H2 Hp).
  intros x y Hx Hy Hxy Hyx. apply same_id_same; [by apply Hin| |by apply id_leb_antisym].
  apply Hin. by rewrite Hp.
Qed.

Lemma filter_all {A} (p : A → bool) l : (∀ x, x ∈ l → p x = true) → List.filter p l = l.
Proof.
  induction l as [|x l IH]; intros H; cbn; [done|]. rewrite H by left. f_equal.
  apply IH. intros y Hy. apply H. by right.
Qed.

Lemma filter_none {A} (p : A → bool) l : (∀ x, x ∈ l → p x = false) → List.filter p l = [].
Proof.
  induction l as [|x l IH]; intros H; cbn; [done|]. rewrite H by left.
  apply IH. intros y Hy. apply H. by right.
Qed.

(** The records after one are those its id is a cursor for. *)
Lemma after_ordered pre x post :
  ordered = pre ++ x :: post → List.filter (after_cursor (Some (JStr (row_id x)))) ordered = post.
Proof using Hids.
  intros Heq. assert (NoDup (row_id <$> ordered)) as Hnd by (by rewrite ordered_records).
  pose proof (sorted_ids records) as Hs. fold ordered in Hs. rewrite Heq in *.
  rewrite List.filter_app. cbn [List.filter after_cursor to_js_string json_to_string].
  unfold compareIds at 1. rewrite compare_bytes_refl.
  rewrite filter_none, filter_all; [done| |].
  - intros z Hz. apply StronglySorted_app_1_r, StronglySorted_cons in Hs as [Hs _].
    rewrite Forall_forall in Hs. specialize (Hs z Hz). unfold id_leb, compareIds in Hs.
    cbn [after_cursor to_js_string json_to_string]. unfold compareIds.
    rewrite (compare_bytes_antisym (utf8 (row_id x))).
    destruct (compare_bytes (utf8 (row_id x)) (utf8 (row_id z))) eqn:Hc; [|done|done].
    exfalso. apply compare_bytes_eq, utf8_inj in Hc.
    rewrite fmap_app, fmap_cons in Hnd. apply NoDup_app in Hnd as (_ & _ & Hnd).
    apply NoDup_cons in Hnd as [Hni _]. apply Hni. rewrite Hc. by apply list_elem_of_fmap_2.
  - intros y Hy. assert (id_leb y x = true) as Hle.
    { apply (StronglySorted_app_1_elem_of _ _ _ _ _ Hs Hy). left. }
    unfold id_leb in Hle. cbn [after_cursor to_js_string json_to_string].
    by destruct (compareIds (row_id y) (row_id x)).
Qed.

(** Filtering commutes with sorting. *)
Lemma sort_filter c :
  sort_by id_leb (List.filter (after_cursor c) records) = List.filter (after_cursor c) ordered.
Proof using Hids.
  apply sorted_same.
  - intros y Hy. rewrite (sort_by_Permutation _ _) in Hy.
    apply list_elem_of_In, filter_In in Hy as [Hy _]. by apply list_elem_of_In.
  - apply sorted_ids.
  - pose proof (sorted_ids records) as Hs. fold ordered in Hs. revert Hs.
    generalize ordered. induction l as [|z l IH]; intros Hs; cbn; [done|].
    apply StronglySorted_cons in Hs as [Hz Hs]. destruct (after_cursor c z); [|by apply IH].
    apply StronglySorted_cons. split; [|by apply IH].
    apply Forall_forall. intros y Hy%list_elem_of_In. apply filter_In in Hy as [Hy _].
    rewrite Forall_forall in Hz. by apply Hz, list_elem_of_In.
  - rewrite sort_by_Permutation. pose proof ordered_records as Hp. revert Hp.
    generalize ordered. clear. intros l Hp. induction Hp as [|x l l' Hp IH|x y l|l l' l'' _ IH1 _ IH2]; cbn.
    + done.
    + destruct (after_cursor c x); by rewrite IH.
    + destruct (after_cursor c x), (after_cursor c y); try done. apply Permutation_swap.
    + etrans; [exact IH2|exact IH1].
Qed.

(** The cursor after [k] records. *)
Definition cursor_at (k : nat) : jsval :=
  match k with O => None | S n => (λ x, JStr (row_id x)) <$> ordered !! n end.

(** What is left to page through from there, in order. *)
Lemma page_from k : (k ≤ length ordered)%nat →
  sort_by id_leb (List.filter (after_cursor (cursor_at k)) records) = drop k ordered.
Proof using Hids.
  intros Hk. destruct k as [|n]; [cbn [cursor_at drop]; by rewrite filter_all|].
  rewrite sort_filter. destruct (lookup_lt_is_Some_2 ordered n Hk) as [x Hx].
  cbn [cursor_at]. rewrite Hx. cbn [fmap option_fmap option_map].
  pose proof (take_drop_middle _ _ _ Hx) as Hsplit. by apply (after_ordered (take n ordered)).
Qed.

Lemma databasePageLimit_at k : (k ≤ length ordered)%nat →
  databasePageLimit {| po_limit := Some (JNum (int limit)); po_cursor := cursor_at k |} = Ok limit.
Proof using Hlimit Hnonempty.
  intros Hk. unfold databasePageLimit. cbn [po_limit po_cursor]. rewrite num_to_Z_int.
  replace ((limit <? 1) || (100 <? limit)) with false by lia.
  destruct k as [|n]; [done|]. destruct (lookup_lt_is_Some_2 ordered n Hk) as [x Hx].
  cbn [cursor_at]. rewrite Hx. cbn. destruct (String.eqb_spec (row_id x) "") as [He|_]; [|done].
  exfalso. apply (Hnonempty x); [|done]. rewrite <- ordered_records. by eapply list_elem_of_lookup_2.
Qed.

Lemma visit_from fuel : ∀ k,
  (k ≤ length ordered)%nat → (length ordered < fuel + k)%nat →
  visit fuel (cursor_at k) = Some (drop k ordered).
Proof using Hids Hlimit Hnonempty.
  induction fuel as [|fuel IH]; intros k Hk Hfuel; [lia|]. cbn [visit]. unfold pageDatabaseRecords.
  rewrite databasePageLimit_at by done. cbn [po_cursor]. rewrite (page_from k Hk).
  cbn [page_cursor page_records]. rewrite length_drop.
  destruct (Z.ltb_spec limit (Z.of_nat (length ordered - k))) as [Hmore|Hend].
  2: { rewrite take_ge; [done|]. rewrite length_drop. lia. }
  set (n := Z.to_nat limit). destruct (lookup_lt_is_Some_2 ordered (k + n - 1)) as [x Hx]; [lia|].
  assert (last (take n (drop k ordered)) = Some x) as ->.
  { rewrite last_lookup, length_take, length_drop, lookup_take_lt, lookup_drop by lia.
    rewrite <- Hx. f_equal. lia. }
  assert (Some (JStr (row_id x)) = cursor_at (k + n)) as Hcur.
  { destruct (k + n)%nat as [|m] eqn:Hm; [lia|]. cbn [cursor_at].
    replace m with (S m - 1)%nat by lia. by rewrite Hx. }
  cbn [from_option]. rewrite Hcur, IH by lia. cbn. f_equal.
  rewrite <- drop_drop. apply take_drop.
Qed.

(** Paging visits every record exactly once, in the byte order of the ids.  A
    client that asks for pages of a fixed size, from no cursor and then from the
    cursor of each page, comes to a page without a cursor, and the pages together are
    all the records, sorted by the UTF-8 bytes of their ids. *)
Theorem paging_visits_all :
  ∃ all, visit (S (length records)) None = Some all ∧ all ≡ₚ records ∧
         StronglySorted (λ a b, id_leb a b = true) all.
Proof using Hids Hlimit Hnonempty.
  exists ordered. split; [|split; [apply ordered_records|apply sorted_ids]].
  apply (visit_from _ 0); [lia|]. rewrite (Permutation_length ordered_records). lia.
Qed.
End Visit.

Definition page_rows : list json :=
  [JObj [("id", JStr "b")]; JObj [("id", JStr "c")]; JObj [("id", JStr "a")]].

Lemma paging_visits_all_witness :
  ∃ all, visit page_rows 2 4 None = Some all ∧ all ≡ₚ page_rows ∧
         StronglySorted (λ a b, id_leb a b = true) all.
Proof.
  apply (paging_visits_all page_rows 2).
  - apply (bool_decide_unpack _). vm_compute. exact I.
  - split; discriminate.
  - intros r Hr He. repeat (apply elem_of_cons in Hr as [->|Hr]; [discriminate He|]).
    by apply elem_of_nil in Hr.
Defined.
