(* ===== verification/DatabaseCommitProps.v ===== *)
(** * Runtime: what a database commit guarantees

    All writes apply or none, each against the records of the snapshot, and a
    record that changed since it was read is never overwritten. *)

From stdpp Require Import base list strings pretty.
From Stdlib Require Import ZArith Ascii.
From S2P Require Import Prelude JsString JsValue DatabaseCommit.

(** ** Looking records up *)

(** The record of a table with an id: the first row that carries it. *)
Definition find_record (table id : string) (s : Snapshot) : option json :=
  find_first (has_id id) (default [] (assoc_get table s)).

(** What a validated write names and carries. *)
Record names_write (w : json) (table id : string) (record expected : jsval) : Prop := {
  nw_table : prop "table" (Some w) = Some (JStr table);
  nw_id : prop "id" (Some w) = Some (JStr id);
  nw_record : prop "record" (Some w) = Some (default JNull record);
  nw_expected : prop "expected" (Some w) = Some (default JNull expected);
  nw_record_id : ∀ r, record = Some r → isObject (Some r) = true ∧ has_id id r = true;
}.

(** The texts [databaseRecordJson] compares are equal; [null] stands for absence. *)
Definition same_record (a b : jsval) : Prop :=
  ∃ t, databaseRecordJson (default JNull a) = Ok t ∧ databaseRecordJson (default JNull b) = Ok t.

Lemma find_first_filter_none {A} (p : A → bool) l :
  find_first p (List.filter (λ x, negb (p x)) l) = None.
Proof.
  induction l as [|x l IH]; cbn; [done|]. destruct (p x) eqn:Hp; cbn; [done|]. by rewrite Hp.
Qed.

Lemma has_id_unique id id' r : has_id id r = true → has_id id' r = true → id = id'.
Proof.
  unfold has_id, is_str. destruct (prop "id" (Some r)) as [[| | |s| |]|]; try done.
  by intros ->%String.eqb_eq ->%String.eqb_eq.
Qed.

(** ** Validation *)

Lemma check_record_ok id v :
  check_record id v = Ok tt →
  ∃ r : jsval, v = Some (default JNull r) ∧ (∀ x, r = Some x → isObject (Some x) = true ∧ has_id id x = true).
Proof.
  unfold check_record. destruct v as [[| | | | |l]|]; try done.
  - intros _. by exists None.
  - destruct (is_str id _) eqn:Hid; [|done]. intros _. exists (Some (JObj l)).
    split; [done|]. by intros x [= <-].
Qed.

Lemma name_within_some m v : name_within m v = true → ∃ s, v = Some (JStr s).
Proof. destruct v as [[| | |s| |]|]; try done. by exists s. Qed.

Lemma check_writes_ok ws : ∀ keys,
  check_writes keys ws = Ok tt →
  Forall (λ w, ∃ table id record expected, names_write w table id record expected) ws ∧
  NoDup (write_key <$> ws) ∧ ∀ w, w ∈ ws → write_key w ∉ keys.
Proof.
  induction ws as [|w ws IH]; intros keys; cbn [check_writes].
  { split; [constructor|]. split; [constructor|by intros w ?%elem_of_nil]. }
  destruct (write_named w) eqn:Hn; cbn [negb]; [|done].
  case_bool_decide as Hk; [done|].
  destruct (check_record _ (prop "record" _)) as [[]|] eqn:Hr; [|done].
  destruct (check_record _ (prop "expected" _)) as [[]|] eqn:He; [|done].
  intros (Hf & Hnd & Hni)%IH.
  unfold write_named in Hn. reflect_bools.
  apply name_within_some in H1 as [id Hid]. apply name_within_some in H0 as [table Htable].
  unfold write_field in Hr, He. rewrite Hid in Hr, He. cbn in Hr, He.
  apply check_record_ok in Hr as (r & Hr & Hrid). apply check_record_ok in He as (x & Hx & _).
  split; [constructor; [|done]|].
  { exists table, id, r, x. by split. }
  split.
  - rewrite fmap_cons. constructor; [|done].
    intros (w' & Heq & Hw')%list_elem_of_fmap. apply (Hni w' Hw'). rewrite Heq. left.
  - intros w' [->|Hw']%elem_of_cons; [done|]. intros Hin. apply (Hni w' Hw'). by right.
Qed.

Lemma validateDatabaseWrites_ok writes :
  validateDatabaseWrites writes = Ok tt →
  ∃ ws, writes = JArr ws ∧ (1 ≤ length ws ≤ 25)%nat ∧ NoDup (write_key <$> ws) ∧
    Forall (λ w, ∃ table id record expected, names_write w table id record expected) ws.
Proof.
  unfold validateDatabaseWrites. destruct writes as [| | | |ws|]; try done.
  destruct (_ || _) eqn:Hlen; [done|]. destruct (databaseRecordJson _); [|done].
  destruct (Z.ltb _ (byte_length _)); [done|]. intros (Hf & Hnd & _)%check_writes_ok.
  unfold MAX_DATABASE_COMMIT_WRITES in Hlen. reflect_bools. exists ws.
  split; [done|]. split; [lia|done].
Qed.

(** Distinct keys name distinct records. *)
Lemma write_key_inj w w' table id r e r' e' :
  names_write w table id r e → names_write w' table id r' e' → write_key w = write_key w'.
Proof. intros [Ht Hi _ _ _] [Ht' Hi' _ _ _]. unfold write_key, write_field. by rewrite Ht, Hi, Ht', Hi'. Qed.

(** ** One write *)

(** The table can be read: it is a table of the snapshot, or no inherited name. *)
Definition ordinary (s : Snapshot) (table : string) : Prop :=
  is_Some (assoc_get table s) ∨ table ∉ object_prototype.

Lemma table_rows_ordinary s table :
  ordinary s table → table_rows table s = Ok (default [] (assoc_get table s)).
Proof.
  unfold table_rows, ordinary. destruct (assoc_get table s); [done|].
  intros [[? ?]|Hn]; [done|]. by rewrite bool_decide_eq_false_2.
Qed.

(** A write either finds the record it expects, and then exactly that record
    becomes the new one, or it throws. *)
Lemma apply_write_spec w s table id record expected :
  names_write w table id record expected → ordinary s table →
  match apply_write w s with
  | Ok s' =>
      same_record (find_record table id s) expected ∧
      find_record table id s' = record ∧
      (∀ table' id', (table', id') ≠ (table, id) → find_record table' id' s' = find_record table' id' s) ∧
      (∀ table', ordinary s table' → ordinary s' table')
  | Throw e =>
      ¬ same_record (find_record table id s) expected ∧
      (e = databaseConflict ∨ err_code e = Some "VALIDATION_ERROR")
  end.
Proof.
  intros [Ht Hi Hr He Hrid] Hord. unfold apply_write, write_field. rewrite Ht, Hi. cbn [to_js_string json_to_string].
  rewrite (table_rows_ordinary _ _ Hord). rewrite He. cbn [from_option].
  change (Datatypes.id (default JNull expected)) with (default JNull expected).
  unfold same_record. set (rows := default [] (assoc_get table s)).
  change (find_first (has_id id) rows) with (find_record table id s).
  assert (∀ j e, databaseRecordJson j = Throw e → err_code e = Some "VALIDATION_ERROR") as Hval.
  { intros j e. unfold databaseRecordJson. destruct (all_finite j); [done|]. by intros [= <-]. }
  destruct (databaseRecordJson (default JNull (find_record table id s))) as [a|e] eqn:Ha.
  2: { split; [|right; by eapply Hval]. intros (t & ? & _). congruence. }
  destruct (databaseRecordJson (default JNull expected)) as [b|e] eqn:Hb.
  2: { split; [|right; by eapply Hval]. intros (t & _ & ?). congruence. }
  destruct (String.eqb_spec a b) as [->|Hne]; cbn [negb].
  2: { split; [|by left]. intros (t & ? & ?). congruence. }
  set (rows' := if truthy _ then _ else _).
  assert (∀ id', find_first (has_id id') rows' = if String.eqb id' id then record else find_first (has_id id') rows) as Hrows.
  { intros id'. unfold rows'. rewrite Hr. clear rows'.
    destruct record as [r|]; cbn [from_option].
    - unfold Datatypes.id. destruct (Hrid r eq_refl) as [Hobj Hhas]. replace (truthy (Some r)) with true by (by destruct r).
      rewrite find_first_app. cbn [find_first].
      destruct (String.eqb_spec id' id) as [->|Hne].
      + by rewrite find_first_filter_none, Hhas.
      + rewrite find_first_filter.
        * destruct (find_first (has_id id') rows); [done|]. destruct (has_id id' r) eqn:Hx; [|done].
          destruct Hne. by eapply has_id_unique.
        * intros x Hx. apply negb_true_iff. destruct (has_id id x) eqn:Hx'; [|done].
          destruct Hne. by eapply has_id_unique.
    - cbn [truthy]. destruct (String.eqb_spec id' id) as [->|Hne]; [apply find_first_filter_none|].
      apply find_first_filter. intros x Hx. apply negb_true_iff. destruct (has_id id x) eqn:Hx'; [|done].
      destruct Hne. by eapply has_id_unique. }
  split; [by exists b|]. unfold find_record. split; [|split].
  - rewrite assoc_get_set, String.eqb_refl. cbn. by rewrite Hrows, String.eqb_refl.
  - intros table' id' Hne. rewrite assoc_get_set.
    destruct (String.eqb_spec table' table) as [->|]; [|done]. cbn. rewrite Hrows.
    destruct (String.eqb_spec id' id) as [->|]; [done|done].
  - intros table' [Hs|Hn]; [|by right]. left. rewrite assoc_get_set.
    by destruct (String.eqb _ _).
Qed.

(** ** All writes or none *)

(** The writes of a commit, named, each over a table that can be read. *)
Definition commit_ready (ws : list json) (s : Snapshot) : Prop :=
  Forall (λ w, ∃ table id record expected,
    names_write w table id record expected ∧ ordinary s table) ws.

(** The record a write finds is the one it expects. *)
Definition expectation_met (s : Snapshot) (w : json) : Prop :=
  ∀ table id record expected, names_write w table id record expected →
    same_record (find_record table id s) expected.

Lemma names_write_fun w table id record expected table' id' record' expected' :
  names_write w table id record expected → names_write w table' id' record' expected' →
  table' = table ∧ id' = id ∧ default JNull record' = default JNull record ∧
  default JNull expected' = default JNull expected.
Proof. intros [Ht Hi Hr He _] [Ht' Hi' Hr' He' _]. repeat split; congruence. Qed.

Lemma names_write_record w table id record expected record' expected' :
  names_write w table id record expected → names_write w table id record' expected' → record' = record.
Proof.
  intros [_ _ Hr _ Hid] [_ _ Hr' _ Hid']. rewrite Hr in Hr'. injection Hr' as Hr'.
  destruct record as [x|], record' as [y|]; cbn in Hr'; unfold Datatypes.id in Hr'; subst; try done.
  - by destruct (Hid _ eq_refl) as [? _].
  - by destruct (Hid' _ eq_refl) as [? _].
Qed.

Lemma write_key_ne w w' table id r e table' id' r' e' :
  names_write w table id r e → names_write w' table' id' r' e' →
  write_key w ≠ write_key w' → (table', id') ≠ (table, id).
Proof. intros Hw Hw' Hne [= -> ->]. apply Hne. by eapply write_key_inj. Qed.

Lemma apply_writes_spec ws : ∀ s,
  commit_ready ws s → NoDup (write_key <$> ws) →
  match apply_writes ws s with
  | Ok s' =>
      (∀ w, w ∈ ws → expectation_met s w ∧
         ∀ table id record expected, names_write w table id record expected →
           find_record table id s' = record) ∧
      (∀ table id, (∀ w r e, w ∈ ws → ¬ names_write w table id r e) →
         find_record table id s' = find_record table id s)
  | Throw err =>
      (∃ w, w ∈ ws ∧ ¬ expectation_met s w) ∧
      (err = databaseConflict ∨ err_code err = Some "VALIDATION_ERROR")
  end.
Proof.
  induction ws as [|w ws IH]; intros s Hready Hnd; cbn [apply_writes].
  { split; [by intros w ?%elem_of_nil|done]. }
  apply Forall_cons in Hready as [(table & id & record & expected & Hw & Hord) Hready].
  rewrite fmap_cons in Hnd. apply NoDup_cons in Hnd as [Hni Hnd].
  assert (∀ w' table' id' r' e', w' ∈ ws → names_write w' table' id' r' e' → (table', id') ≠ (table, id)) as Hother.
  { intros w' table' id' r' e' Hin Hw'. eapply write_key_ne; [exact Hw|exact Hw'|].
    intros Heq. apply Hni. rewrite Heq. by apply list_elem_of_fmap_2. }
  pose proof (apply_write_spec _ _ _ _ _ _ Hw Hord) as Hstep.
  destruct (apply_write w s) as [s1|err].
  2: { destruct Hstep as [Hne Herr]. split; [|done]. exists w. split; [left|].
       intros Hm. by apply Hne, (Hm _ _ _ _ Hw). }
  destruct Hstep as (Hmet & Hnew & Hsame & Hords).
  assert (commit_ready ws s1) as Hready1.
  { eapply Forall_impl; [exact Hready|]. intros w' (t & i & r & e & ? & ?). exists t, i, r, e. auto. }
  assert (∀ w', w' ∈ ws → expectation_met s w' ↔ expectation_met s1 w') as Hmets.
  { intros w' Hin. unfold expectation_met.
    split; intros Hm t i r e Hw'; specialize (Hm t i r e Hw');
      pose proof (Hother _ _ _ _ _ Hin Hw') as Hne; by rewrite Hsame in * by done. }
  specialize (IH s1 Hready1 Hnd). destruct (apply_writes ws s1) as [s'|err].
  - destruct IH as [Hall Hrest]. split.
    + intros w' [->|Hin]%elem_of_cons.
      * split.
        -- intros t i r e Hw'. destruct (names_write_fun _ _ _ _ _ _ _ _ _ Hw Hw') as (-> & -> & _ & He).
           unfold same_record. by rewrite He.
        -- intros t i r e Hw'. destruct (names_write_fun _ _ _ _ _ _ _ _ _ Hw Hw') as (-> & -> & _).
           rewrite Hrest.
           ++ rewrite Hnew. by eapply names_write_record.
           ++ intros w2 r2 e2 Hin Hw2. by apply (Hother _ _ _ _ _ Hin Hw2).
      * destruct (Hall w' Hin) as [Hm Hf]. split; [by apply Hmets|done].
    + intros t i Hno. rewrite Hrest.
      * apply Hsame. intros [= -> ->]. apply (Hno w record expected); [left|done].
      * intros w' r e Hin. apply Hno. by right.
  - destruct IH as [(w' & Hin & Hm) Herr]. split; [|done]. exists w'. split; [by right|].
    by rewrite Hmets.
Qed.

(** What validation gives the application. *)
Lemma validated_ready s ws :
  validateDatabaseWrites (JArr ws) = Ok tt → Forall (λ w, ordinary s (write_field "table" w)) ws →
  commit_ready ws s ∧ NoDup (write_key <$> ws).
Proof.
  intros Hv Hord. apply validateDatabaseWrites_ok in Hv as (ws' & [= <-] & _ & Hnd & Hnames).
  split; [|done]. apply Forall_forall. intros w Hin. rewrite Forall_forall in Hord, Hnames.
  destruct (Hnames w Hin) as (t & i & r & e & Hw). exists t, i, r, e. split; [done|].
  specialize (Hord w Hin). unfold write_field in Hord. by rewrite (nw_table _ _ _ _ _ Hw) in Hord.
Qed.

Lemma applied_writes s ws s' :
  applyDatabaseWrites s (JArr ws) = Ok s' →
  validateDatabaseWrites (JArr ws) = Ok tt ∧ apply_writes ws s = Ok s'.
Proof. unfold applyDatabaseWrites. by destruct (validateDatabaseWrites _) as [[]|]. Qed.

(** C14: a database commit is all or nothing and conditional.  For a valid list of
    writes over tables that can be read, [applyDatabaseWrites] either answers, and
    then every record named was the expected one in the snapshot it was given, is the
    new one in the result (or absent, for a [null] record), and no other record
    changed; or it throws, CONFLICT or VALIDATION_ERROR, and then some write did not
    find the record it expected. *)
Theorem applyDatabaseWrites_exact s writes ws :
  validateDatabaseWrites writes = Ok tt → writes = JArr ws →
  Forall (λ w, ordinary s (write_field "table" w)) ws →
  match applyDatabaseWrites s writes with
  | Ok s' =>
      (∀ w, w ∈ ws → ∃ table id record expected, names_write w table id record expected ∧
         same_record (find_record table id s) expected ∧ find_record table id s' = record) ∧
      (∀ table id, (∀ w r e, w ∈ ws → ¬ names_write w table id r e) →
         find_record table id s' = find_record table id s)
  | Throw err =>
      (∃ w, w ∈ ws ∧ ¬ expectation_met s w) ∧
      (err = databaseConflict ∨ err_code err = Some "VALIDATION_ERROR")
  end.
Proof.
  intros Hv -> Hord. unfold applyDatabaseWrites. rewrite Hv.
  destruct (validated_ready s ws Hv Hord) as [Hready Hnd].
  pose proof (apply_writes_spec ws s Hready Hnd) as Hspec.
  destruct (apply_writes ws s) as [s'|err]; [|done]. destruct Hspec as [Hall Hrest].
  split; [|done]. intros w Hin. unfold commit_ready in Hready. rewrite Forall_forall in Hready.
  destruct (Hready w Hin) as (t & i & r & e & Hw & _). exists t, i, r, e.
  destruct (Hall w Hin) as [Hm Hf]. split; [done|]. split; [by eapply Hm|by eapply Hf].
Qed.

(** No update is lost.  When a commit has replaced a record by one whose text
    differs, any later commit that still expects the old record, whatever else it
    writes, is refused. *)
Theorem commit_prevents_lost_update s s1 ws1 ws2 w1 w2 table id record1 record2 expected :
  Forall (λ w, ordinary s (write_field "table" w)) ws1 →
  applyDatabaseWrites s (JArr ws1) = Ok s1 →
  w1 ∈ ws1 → names_write w1 table id record1 expected → ¬ same_record record1 expected →
  Forall (λ w, ordinary s1 (write_field "table" w)) ws2 →
  w2 ∈ ws2 → names_write w2 table id record2 expected →
  ∃ e, applyDatabaseWrites s1 (JArr ws2) = Throw e.
Proof.
  intros Hord1 Ha1 Hin1 Hw1 Hdiff Hord2 Hin2 Hw2.
  destruct (applyDatabaseWrites s1 (JArr ws2)) as [s2|e] eqn:Ha2; [|by eexists]. exfalso.
  apply applied_writes in Ha1 as [Hv1 Ha1]. apply applied_writes in Ha2 as [Hv2 Ha2].
  destruct (validated_ready s ws1 Hv1 Hord1) as [Hr1 Hn1], (validated_ready s1 ws2 Hv2 Hord2) as [Hr2 Hn2].
  pose proof (apply_writes_spec ws1 s Hr1 Hn1) as H1. rewrite Ha1 in H1.
  pose proof (apply_writes_spec ws2 s1 Hr2 Hn2) as H2. rewrite Ha2 in H2.
  destruct (proj1 H1 w1 Hin1) as [_ Hf], (proj1 H2 w2 Hin2) as [Hm _].
  specialize (Hm _ _ _ _ Hw2). by rewrite (Hf _ _ _ _ Hw1) in Hm.
Qed.

(** ** Comparing records *)

(** The order of keys, at any depth, does not matter to the comparison. *)
Lemma stable_json_equiv a b : json_equiv a b → stable_json a = stable_json b.
Proof.
  revert b. induction a as [| | | |l IH|l IH] using json_ind'; intros ? Hab;
    inversion Hab as [|? l2 H2|? l2 l3 Hnd H2 Hp]; subst; try done; cbn [stable_json].
  - do 3 f_equal. clear Hab. induction H2 as [|x y l l2 Hxy H2 IHl]; [done|].
    apply Forall_cons in IH as [Hx IH]. cbn. f_equal; auto.
  - assert (map (λ kv, (kv.1, stable_json kv.2)) l =
            map (λ kv : string * json, (kv.1, stable_json kv.2)) l2) as ->.
    { clear Hab Hnd Hp. induction H2 as [|x y l l2 [Hk Hxy] H2 IHl]; [done|].
      apply Forall_cons in IH as [Hx IH]. cbn. f_equal; [|auto]. f_equal; auto. }
    do 5 f_equal. apply sort_by_key_Permutation.
    + rewrite <- list_fmap_compose. cbn. unfold compose. cbn.
      clear -Hnd H2. replace (_ <$> l2) with l.*1; [done|].
      induction H2 as [|x y l l2 [Hk _] H2 IHl]; cbn; [done|]. apply NoDup_cons in Hnd as [_ Hnd].
      f_equal; auto.
    + by apply Permutation_map.
Qed.

(** ** Instances *)

Definition order_v1 : json := JObj [("id", JStr "o1"); ("total", JNum (int 5)); ("state", JStr "open")].
Definition order_v2 : json := JObj [("id", JStr "o1"); ("state", JStr "paid"); ("total", JNum (int 5))].
Definition audit_v1 : json := JObj [("id", JStr "a1"); ("by", JStr "ann")].
Definition shop : Snapshot := [("orders", [order_v1])].

Definition write_json (table id : string) (record expected : json) : json :=
  JObj [("table", JStr table); ("id", JStr id); ("record", record); ("expected", expected)].

Definition pay : list json :=
  [write_json "orders" "o1" order_v2 order_v1; write_json "audit" "a1" audit_v1 JNull].
Definition cancel : list json := [write_json "orders" "o1" JNull order_v1].
Definition paid_shop : Snapshot := [("orders", [order_v2]); ("audit", [audit_v1])].

Ltac solve_ordinary :=
  repeat (apply Forall_cons; split; [right; apply (bool_decide_unpack _); vm_compute; exact I|]);
  apply Forall_nil; exact I.

Lemma pay_ordinary s : Forall (λ w, ordinary s (write_field "table" w)) pay.
Proof. solve_ordinary. Qed.

Lemma cancel_ordinary s : Forall (λ w, ordinary s (write_field "table" w)) cancel.
Proof. solve_ordinary. Qed.

Lemma applyDatabaseWrites_exact_witness :
  applyDatabaseWrites shop (JArr pay) = Ok paid_shop ∧
  match applyDatabaseWrites shop (JArr pay) with
  | Ok s' => ∀ table id, (∀ w r e, w ∈ pay → ¬ names_write w table id r e) →
               find_record table id s' = find_record table id shop
  | Throw _ => False
  end.
Proof.
  split; [vm_compute; reflexivity|].
  pose proof (applyDatabaseWrites_exact shop (JArr pay) pay) as H.
  assert (applyDatabaseWrites shop (JArr pay) = Ok paid_shop) as Hp by (vm_compute; reflexivity).
  rewrite Hp in *. apply H; [vm_compute; reflexivity|reflexivity|apply pay_ordinary].
Defined.

Lemma commit_prevents_lost_update_witness :
  ∃ e, applyDatabaseWrites paid_shop (JArr cancel) = Throw e.
Proof.
  apply (commit_prevents_lost_update shop paid_shop pay cancel
    (write_json "orders" "o1" order_v2 order_v1) (write_json "orders" "o1" JNull order_v1)
    "orders" "o1" (Some order_v2) None (Some order_v1)).
  - apply pay_ordinary.
  - vm_compute. reflexivity.
  - left.
  - split; try reflexivity. intros r [= <-]. by split.
  - intros (t & H1 & H2). vm_compute in H1, H2. congruence.
  - apply cancel_ordinary.
  - left.
  - split; try reflexivity. by intros r [=].
Defined.
