(* ===== verification/JobOutbox.v ===== *)
(** * Runtime: the transactional job outbox

    [mezair-cloud/packages/runtime/src/job-outbox.ts]: a job is written to the
    outbox in the commit that needs it, and a dispatcher claims, publishes and
    deletes it, a bounded number of times.  The host is a record of operations over its
    own state; the in-memory host of [test-host.ts] is an instance.  An error with code
    CONFLICT stands for a [RuntimeError] with that code. *)

From stdpp Require Import base list strings pretty.
From Stdlib Require Import ZArith Ascii.
From S2P Require Import Prelude JsString JsValue DatabaseCommit DatabaseCommitProps.

Definition JOB_OUTBOX_TABLE : string := "__mezair_job_outbox".

(** [Number(v)]. *)
Definition to_number (v : jsval) : num :=
  match v with
  | None => NNaN
  | Some JNull => int 0
  | Some (JBool b) => int (if b then 1 else 0)
  | Some (JNum n) => n
  | Some j => string_to_num (json_to_string j)
  end.

(** [{ ...record, ...fields }]. *)
Definition spread (record : json) (fields : list (string * json)) : json :=
  JObj (foldl (λ m kv, assoc_set kv.1 kv.2 m) (match record with JObj l => l | _ => [] end) fields).

Definition outbox_write (id : string) (expected record : json) : json :=
  JObj [("table", JStr JOB_OUTBOX_TABLE); ("id", JStr id); ("expected", expected); ("record", record)].

(** A non-empty string. *)
Definition non_empty (v : jsval) : bool :=
  match v with Some (JStr s) => negb (String.eqb s "") | _ => false end.

Definition jobOutboxWrite (input : json) : outcome json :=
  if negb (non_empty (prop "id" (Some input)) && non_empty (prop "name" (Some input))) then
    Throw (validation_error "An outbox job needs an id and a handler name.")
  else
    match databaseRecordJson input with
    | Throw e => Throw e
    | Ok text =>
        if 64 * 1024 <? byte_length text then
          Throw (validation_error "Outbox job messages cannot exceed 64 KiB. Store large input in files and send its key.")
        else Ok (outbox_write (to_js_string (prop "id" (Some input))) JNull
               (spread input [("state", JStr "pending"); ("attempts", JNum (int 0)); ("leaseUntil", JNum (int 0))]))
    end.

(** What the dispatcher uses of a [RuntimeHost]. *)
Record OutboxHost (W : Type) := {
  host_commit : option (json → M W unit);
  host_page : string → DatabasePageOptions → M W DatabasePage;
  host_enqueue : string → jsval → string → M W unit;
  host_now : M W num;
  host_randomUUID : M W string;
}.
Arguments host_commit {W} _.
Arguments host_page {W} _ _ _.
Arguments host_enqueue {W} _ _ _ _.
Arguments host_now {W} _.
Arguments host_randomUUID {W} _.

Record JobOutboxDispatchOptions := {
  jo_cursor : jsval;
  jo_limit : jsval;
  jo_now : option num;
  jo_leaseMs : option num;
  jo_maxAttempts : option num;
}.

Record DispatchResult := { dr_cursor : option string; dr_published : Z; dr_failed : Z }.

Definition is_conflict (e : JsError) : bool :=
  is_runtime_error e && bool_decide (err_code e = Some "CONFLICT").

Section Dispatch.
Context {W : Type} (host : OutboxHost W) (commit : json → M W unit).

(** [try { await commit(..); a } catch (e) { if (!conflict(e)) throw e; b }]. *)
Definition unless_conflict {A} (writes : json) (a b : A) : M W A :=
  try_catch (commit writes ;; mret a) (λ e, if is_conflict e then mret b else throw e).

(** Publish a claimed job, or give the claim back. *)
Definition publish (maxAttempts : num) (id : string) (claimed : json) (counts : Z * Z) : M W (Z * Z) :=
  let '(published, failed) := counts in
  try_catch
    (host_enqueue host (to_js_string (prop "name" (Some claimed))) (prop "payload" (Some claimed)) id ;;
     commit (JArr [outbox_write id claimed JNull]) ;;
     mret (published + 1, failed))
    (λ _,
      let exhausted := num_leb maxAttempts (to_number (prop "attempts" (Some claimed))) in
      unless_conflict
        (JArr [outbox_write id claimed (spread claimed [("state", JStr (if exhausted then "failed" else "pending"))])])
        tt tt ;;
      mret (published, failed + 1)).

Definition dispatch_one (fixed_now : option num) (leaseMs maxAttempts : num)
    (record : json) (counts : Z * Z) : M W (Z * Z) :=
  now ← match fixed_now with Some t => mret t | None => host_now host end;
  let '(published, failed) := counts in
  if is_str "failed" (prop "state" (Some record)) ||
     num_ltb now (to_number (prop "leaseUntil" (Some record))) then mret counts
  else
    let id := row_id record in
    let attempts := to_number (prop "attempts" (Some record)) in
    if num_leb maxAttempts attempts then
      unless_conflict (JArr [outbox_write id record (spread record [("state", JStr "failed")])])
        (published, failed + 1) counts
    else
      token ← host_randomUUID host;
      let claimed := spread record
        [("state", JStr "publishing"); ("attempts", JNum (num_add attempts (int 1)));
         ("leaseUntil", JNum (num_add now leaseMs)); ("token", JStr token)] in
      claim ← unless_conflict (JArr [outbox_write id record claimed]) true false;
      if claim : bool then publish maxAttempts id claimed counts else mret counts.
End Dispatch.

Definition dispatchJobOutbox {W} (host : OutboxHost W) (options : JobOutboxDispatchOptions) :
    M W DispatchResult :=
  match host_commit host with
  | None => throw (runtime_error "ADAPTER_ERROR" "Job outbox requires conditional database commits." 501)
  | Some commit =>
      let leaseMs := default (int 60000) (jo_leaseMs options) in
      let maxAttempts := default (int 5) (jo_maxAttempts options) in
      if negb (isFinite leaseMs) || num_ltb leaseMs (int 1000) ||
         match num_to_Z maxAttempts with Some z => (z <? 1) || (100 <? z) | None => true end
      then throw (validation_error "Outbox lease must be at least 1000 ms and attempts must be 1 to 100.")
      else
        page ← host_page host JOB_OUTBOX_TABLE
          {| po_limit := match jo_limit options with None | Some JNull => Some (JNum (int 25)) | v => v end;
             po_cursor := jo_cursor options |};
        counts ← for_each (page_records page)
          (dispatch_one host commit (jo_now options) leaseMs maxAttempts) (0, 0);
        mret {| dr_cursor := page_cursor page; dr_published := counts.1; dr_failed := counts.2 |}
  end.

(** ** The in-memory host

    The database of [InMemoryDatabaseAdapter], a log of what was handed to the
    queue, and an environment the queue and the clock use. *)

Record OutboxWorld (E : Type) := MkOutbox {
  ow_db : Snapshot;
  ow_handed : list string;
  ow_env : E;
}.
Arguments MkOutbox {E} _ _ _.
Arguments ow_db {E} _.
Arguments ow_handed {E} _.
Arguments ow_env {E} _.

Section MemoryHost.
Context {E : Type} (queue : string → jsval → string → E → outcome unit * E)
  (clock : E → num * E) (uuid : E → string * E).

Definition memory_commit (writes : json) : M (OutboxWorld E) unit := λ w,
  match applyDatabaseWrites (ow_db w) writes with
  | Ok next => (Ok tt, MkOutbox next (ow_handed w) (ow_env w))
  | Throw e => (Throw e, w)
  end.

Definition memory_page (table : string) (options : DatabasePageOptions) :
    M (OutboxWorld E) DatabasePage := λ w,
  (pageDatabaseRecords (default [] (assoc_get table (ow_db w))) options, w).

Definition memory_enqueue (name : string) (payload : jsval) (id : string) :
    M (OutboxWorld E) unit := λ w,
  let '(o, e) := queue name payload id (ow_env w) in
  (o, MkOutbox (ow_db w) (ow_handed w ++ [id]) e).

Definition memory_host : OutboxHost (OutboxWorld E) :=
  {| host_commit := Some memory_commit;
     host_page := memory_page;
     host_enqueue := memory_enqueue;
     host_now := λ w, let '(t, e) := clock (ow_env w) in (Ok t, MkOutbox (ow_db w) (ow_handed w) e);
     host_randomUUID := λ w, let '(i, e) := uuid (ow_env w) in (Ok i, MkOutbox (ow_db w) (ow_handed w) e) |}.
End MemoryHost.

(** ** Runtime: the job outbox hands each job out a bounded number of times

    Over the in-memory host, with a queue that may fail or succeed in any way: the
    [attempts] field of a job counts how often it was handed to the queue, and that
    never goes beyond [maxAttempts]. *)

(** The jobs of the outbox. *)
Definition jobs (db : Snapshot) : list json := default [] (assoc_get JOB_OUTBOX_TABLE db).

(** How often an id was handed to the queue. *)
Definition handed_count (id : string) (handed : list string) : Z :=
  Z.of_nat (count_occ String.string_dec handed id).

Lemma handed_count_snoc id handed id' :
  handed_count id (handed ++ [id']) = handed_count id handed + (if String.eqb id id' then 1 else 0).
Proof.
  unfold handed_count. rewrite count_occ_app. cbn.
  destruct (String.string_dec id' id) as [->|Hne].
  - rewrite String.eqb_refl. lia.
  - destruct (String.eqb_spec id id'); [congruence|]. lia.
Qed.

(** A job record: an object with a string id that was handed out [n] times. *)
Definition is_job (n : Z) (r : json) : Prop :=
  isObject (Some r) = true ∧ has_id (row_id r) r = true ∧
  to_number (prop "attempts" (Some r)) = int n.

Lemma prop_spread k record fields :
  isObject (Some record) = true →
  prop k (Some (spread record fields)) =
  match find_first (λ kv, String.eqb k kv.1) (rev fields) with
  | Some kv => Some kv.2
  | None => prop k (Some record)
  end.
Proof.
  destruct record as [| | | | |l]; try done. intros _. unfold spread. cbn [prop].
  revert l. induction fields as [|[f v] fields IH]; intros l; [done|].
  cbn [foldl rev fst snd]. rewrite IH, find_first_app. cbn [find_first fst snd].
  destruct (find_first _ (rev fields)); [done|]. rewrite assoc_get_set.
  by destruct (String.eqb k f).
Qed.

(** Setting other fields keeps the id. *)
Lemma spread_id record fields :
  isObject (Some record) = true → Forall (λ kv, kv.1 ≠ "id") fields →
  row_id (spread record fields) = row_id record ∧
  ∀ id, has_id id (spread record fields) = has_id id record.
Proof.
  intros Hobj Hf. assert (prop "id" (Some (spread record fields)) = prop "id" (Some record)) as Heq.
  { rewrite prop_spread by done.
    destruct (find_first _ (rev fields)) as [kv|] eqn:Hfind; [|done].
    apply find_first_Some in Hfind as [Hin Hk]. apply String.eqb_eq in Hk.
    rewrite Forall_forall in Hf. destruct (Hf kv); [|done].
    apply list_elem_of_In, in_rev. by apply list_elem_of_In. }
  unfold row_id, has_id. by rewrite Heq.
Qed.

Lemma spread_object record fields : isObject (Some (spread record fields)) = true.
Proof. done. Qed.

(** A commit of one outbox write replaces one row. *)
Lemma outbox_commit id expected record db db' :
  applyDatabaseWrites db (JArr [outbox_write id expected record]) = Ok db' →
  jobs db' = List.filter (λ r, negb (has_id id r)) (jobs db) ++
             (if truthy (Some record) then [record] else []).
Proof.
  intros H. apply applied_writes in H as [_ H]. cbn [apply_writes] in H.
  unfold apply_write in H. unfold write_field in H.
  change (prop "table" (Some (outbox_write id expected record))) with (Some (JStr JOB_OUTBOX_TABLE)) in H.
  change (prop "id" (Some (outbox_write id expected record))) with (Some (JStr id)) in H.
  change (prop "record" (Some (outbox_write id expected record))) with (Some record) in H.
  cbn [to_js_string json_to_string] in H.
  rewrite table_rows_ordinary in H.
  2: { right. apply (bool_decide_unpack _). vm_compute. exact I. }
  destruct (databaseRecordJson _) as [a|e]; [|done].
  destruct (databaseRecordJson _) as [b|e]; [|done].
  destruct (negb (String.eqb a b)); [done|].
  destruct (truthy (Some record)); injection H as <-;
    unfold jobs at 1; rewrite assoc_get_set, String.eqb_refl; [done|by rewrite app_nil_r].
Qed.

Lemma num_leb_int_false q m n : num_to_Z q = Some m → num_leb q (int n) = false → n < m.
Proof.
  destruct q as [| |a k]; try done. cbn [num_to_Z num_leb int].
  destruct (Z.eqb_spec (a mod pow10 k) 0) as [Hm|]; [|done]. intros [= <-].
  rewrite Z.leb_gt. change (pow10 0) with 1. pose proof (pow10_pos k).
  intros Hlt. rewrite Z.mul_1_r in Hlt. pose proof (Z.div_mod a (pow10 k) ltac:(lia)). nia.
Qed.

Section Bounded.
Context {E : Type} (queue : string → jsval → string → E → outcome unit * E)
  (clock : E → num * E) (uuid : E → string * E).
Notation W := (OutboxWorld E).
Notation host := (memory_host queue clock uuid).

(** Every job was handed out [c] times according to its record; the jobs still to be
    looked at are in the outbox. *)
Record counted (c : string → Z) (pending : list json) (w : W) : Prop := {
  cn_ids : NoDup (row_id <$> jobs (ow_db w));
  cn_jobs : ∀ r, r ∈ jobs (ow_db w) → is_job (c (row_id r)) r;
  cn_pending : ∀ r, r ∈ pending → r ∈ jobs (ow_db w);
}.

(** The same with the queue's log, which agrees with the counts. *)
Definition bounded (m : Z) (pending : list json) (w : W) : Prop :=
  counted (λ id, handed_count id (ow_handed w)) pending w ∧
  ∀ id, handed_count id (ow_handed w) ≤ m.

Definition held (c : string → Z) (h : list string) (pending : list json) (w : W) : Prop :=
  counted c pending w ∧ ow_handed w = h.

Lemma counted_weaken c pending pending' w :
  (∀ r, r ∈ pending' → r ∈ pending) → counted c pending w → counted c pending' w.
Proof. intros Hsub [? ? ?]. split; auto. Qed.

Lemma held_env c h pending db h' e e' :
  held c h pending (MkOutbox db h' e) → held c h pending (MkOutbox db h' e').
Proof. intros [[? ? ?] ?]. by split. Qed.

(** Replacing one row keeps the others. *)
Lemma counted_replace c c' id record pending w db' :
  counted c pending w →
  jobs db' = List.filter (λ r, negb (has_id id r)) (jobs (ow_db w)) ++ (if truthy (Some record) then [record] else []) →
  (∀ i, i ≠ id → c' i = c i) → (record = JNull ∨ is_job (c' id) record ∧ row_id record = id) →
  (∀ r, r ∈ pending → row_id r ≠ id) →
  counted c' pending (MkOutbox db' (ow_handed w) (ow_env w)).
Proof.
  intros [Hnd Hj Hp] Hdb Hc Hrec Hne.
  assert (∀ r, r ∈ List.filter (λ r, negb (has_id id r)) (jobs (ow_db w)) ↔
               r ∈ jobs (ow_db w) ∧ row_id r ≠ id) as Hkept.
  { intros r. rewrite !list_elem_of_In, filter_In, <- list_elem_of_In, negb_true_iff. split.
    - intros [Hin Hid]. split; [done|]. intros <-. destruct (Hj r Hin) as (_ & Hh & _). congruence.
    - intros [Hin Hid]. split; [done|]. destruct (has_id id r) eqn:Hh; [|done].
      destruct (Hj r Hin) as (_ & Hh' & _). destruct Hid. by eapply has_id_unique. }
  assert (∀ r, r ∈ (if truthy (Some record) then [record] else []) → r = record ∧ is_job (c' id) record ∧ row_id record = id) as Hnew.
  { intros r Hr. destruct Hrec as [->|Hrec]; [by apply elem_of_nil in Hr|].
    destruct (truthy (Some record)); [|by apply elem_of_nil in Hr].
    apply list_elem_of_singleton in Hr as ->. done. }
  split; cbn [ow_db]; rewrite Hdb.
  - rewrite fmap_app. apply NoDup_app. split; [|split].
    + clear -Hnd. induction (jobs (ow_db w)) as [|r l IH]; [constructor|]. rewrite fmap_cons in Hnd.
      apply NoDup_cons in Hnd as [Hni Hnd]. cbn [List.filter]. destruct (negb _); [|by apply IH].
      rewrite fmap_cons. constructor; [|by apply IH].
      intros (r' & Heq & Hr')%list_elem_of_fmap. apply Hni. rewrite Heq. apply list_elem_of_fmap_2.
      apply list_elem_of_In in Hr'. apply filter_In in Hr' as [? _]. by apply list_elem_of_In.
    + intros i (r & -> & Hr)%list_elem_of_fmap (r' & Heq & Hr')%list_elem_of_fmap.
      apply Hkept in Hr as [_ Hid]. apply Hnew in Hr' as (-> & _ & Hid'). congruence.
    + destruct (truthy (Some record)); [apply NoDup_singleton|constructor].
  - intros r [Hr|Hr]%elem_of_app.
    + apply Hkept in Hr as [Hin Hid]. rewrite Hc by done. by apply Hj.
    + apply Hnew in Hr as (-> & Hjob & Hid). by rewrite Hid.
  - intros r Hr. apply elem_of_app. left. apply Hkept. split; [by apply Hp|by apply Hne].
Qed.

Lemma triple_commit c c' h id expected record pending :
  (∀ i, i ≠ id → c' i = c i) → (record = JNull ∨ is_job (c' id) record ∧ row_id record = id) →
  (∀ r, r ∈ pending → row_id r ≠ id) →
  triple (held c h pending) (memory_commit (E := E) (JArr [outbox_write id expected record]))
    (λ _, held c' h pending) (λ _, held c h pending).
Proof.
  intros Hc Hrec Hne [db h0 e] [Hcnt Hh]. cbn in Hh. subst h0. unfold memory_commit. cbn [ow_db ow_handed ow_env].
  destruct (applyDatabaseWrites db _) as [db'|err] eqn:Ha; [|by split].
  split; [|done].
  apply (counted_replace c c' id record pending (MkOutbox db h e)); [done|by eapply outbox_commit|done..].
Qed.

Lemma triple_unless_conflict {A} c c' h id expected record pending (a b : A) Q :
  (∀ i, i ≠ id → c' i = c i) → (record = JNull ∨ is_job (c' id) record ∧ row_id record = id) →
  (∀ r, r ∈ pending → row_id r ≠ id) →
  (∀ w, held c' h pending w → Q a w) → (∀ w, held c h pending w → Q b w) →
  triple (held c h pending)
    (unless_conflict memory_commit (JArr [outbox_write id expected record]) a b)
    Q (λ _, held c h pending).
Proof.
  intros Hc Hrec Hne Ha Hb. unfold unless_conflict.
  apply triple_try with (R := λ _, held c h pending).
  - eapply triple_bind; [by apply (triple_commit c c')|]. intros [] w Hw. by apply Ha.
  - intros e. destruct (is_conflict e); intros w Hw; [by apply Hb|done].
Qed.

(** ** One job *)

Lemma publish_keeps maxAttempts m id claimed counts c h pending :
  (∀ i, i ≠ id → c i = handed_count i h) → c id = handed_count id h + 1 →
  is_job (c id) claimed → row_id claimed = id → c id ≤ m → (∀ i, handed_count i h ≤ m) →
  (∀ r, r ∈ pending → row_id r ≠ id) →
  triple (held c h pending) (publish host memory_commit maxAttempts id claimed counts)
    (λ _, bounded m pending) (λ _, bounded m []).
Proof.
  intros Hc Hcid Hjob Hrow Hm Hbound Hne. destruct counts as [published failed].
  assert (∀ i, handed_count i (h ++ [id]) = c i) as Hcount.
  { intros i. rewrite handed_count_snoc. destruct (String.eqb_spec i id) as [->|Hi]; [done|].
    rewrite Hc by done. lia. }
  assert (∀ w, held c (h ++ [id]) pending w → bounded m pending w) as Hdone.
  { intros w [[H1 H2 H3] Hh]. split.
    - split; [done| |done]. intros r Hr. rewrite Hh, Hcount. by apply H2.
    - intros i. rewrite Hh, Hcount. destruct (String.eqb_spec i id) as [->|Hi]; [done|].
      rewrite Hc by done. apply Hbound. }
  assert (∀ w, bounded m pending w → bounded m [] w) as Hdrop.
  { intros w [[? ? ?] ?]. split; [split; [done..|by intros r ?%elem_of_nil]|done]. }
  unfold publish. apply triple_try with (R := λ _, held c (h ++ [id]) pending).
  - apply triple_bind with (R := λ _, held c (h ++ [id]) pending).
    + intros [db h0 e] [Hcnt Hh]. cbn in Hh. subst h0. cbn. unfold memory_enqueue. cbn.
      destruct (queue _ _ id e) as [[[]|err] e']; cbn;
        (split; [destruct Hcnt; by split|done]).
    + intros [].
      eapply triple_bind; [apply (triple_commit c c (h ++ [id])); [done|by left|done]|].
      intros [] w Hw. by apply Hdone.
  - intros _. set (state := if num_leb _ _ then _ else _).
    apply triple_bind with (R := λ _, held c (h ++ [id]) pending); [|intros [] w Hw; by apply Hdone].
    assert (is_job (c id) (spread claimed [("state", JStr state)]) ∧
            row_id (spread claimed [("state", JStr state)]) = id) as Hback.
    { destruct Hjob as (Hobj & Hid & Hatt).
      destruct (spread_id claimed [("state", JStr state)] Hobj) as [Hr Hh]; [by apply Forall_singleton|].
      split; [|congruence]. split; [done|]. split; [by rewrite Hr, Hh|]. by rewrite prop_spread. }
    eapply triple_conseq.
    + apply (triple_unless_conflict c c (h ++ [id]) id claimed _ pending tt tt
        (λ _, held c (h ++ [id]) pending)); [done|right; exact Hback|done|done|done].
    + done.
    + done.
    + intros e w Hw. by apply Hdrop, Hdone.
Qed.

Lemma held_bounded h m pending w :
  (∀ id, handed_count id h ≤ m) → held (λ id, handed_count id h) h pending w →
  bounded m pending w ∧ bounded m [] w.
Proof.
  intros Hb [[H1 H2 H3] Hh]. unfold bounded. rewrite Hh.
  split; (split; [split|]); try done. by intros r ?%elem_of_nil.
Qed.

Lemma dispatch_one_held fixed_now leaseMs maxAttempts m record counts pending h :
  num_to_Z maxAttempts = Some m → (∀ r, r ∈ pending → row_id r ≠ row_id record) →
  (∀ id, handed_count id h ≤ m) → is_job (handed_count (row_id record) h) record →
  triple (held (λ id, handed_count id h) h pending)
    (dispatch_one host memory_commit fixed_now leaseMs maxAttempts record counts)
    (λ _, bounded m pending) (λ _, bounded m []).
Proof.
  intros Hmax Hne Hbound (Hobj & Hid & Hatt). set (c := λ id, handed_count id h).
  assert (∀ w, held c h pending w → bounded m pending w) as Hkeep by (intros w Hw; by eapply held_bounded).
  assert (∀ w, held c h pending w → bounded m [] w) as Hdrop by (intros w Hw; by eapply held_bounded).
  unfold dispatch_one. apply triple_bind with (R := λ _, held c h pending).
  { destruct fixed_now as [t|]; [by intros w Hw|]. intros [db h0 e] Hw. cbn.
    destruct (clock e) as [t e']. cbn. by eapply held_env. }
  intros now. destruct counts as [published failed].
  destruct (_ || _); [intros w Hw; by apply Hkeep|].
  destruct (num_leb maxAttempts _) eqn:Hleft.
  - destruct (spread_id record [("state", JStr "failed")] Hobj) as [Hr Hh]; [by apply Forall_singleton|].
    eapply triple_conseq.
    + apply (triple_unless_conflict c c h (row_id record) record _ pending _ _ (λ _, held c h pending));
        [done| |done|done|done].
      right. split; [|done]. split; [done|]. split; [by rewrite Hr, Hh|]. by rewrite prop_spread.
    + done.
    + intros a w Hw. by apply Hkeep.
    + intros e w Hw. by apply Hdrop.
  - rewrite Hatt in *. apply (num_leb_int_false _ m) in Hleft; [|done].
    apply triple_bind with (R := λ _, held c h pending).
    { intros [db h0 e] Hw. cbn. destruct (uuid e) as [i e']. cbn. by eapply held_env. }
    intros token. cbv zeta. set (claimed := spread record _).
    set (c' := λ i, if String.eqb i (row_id record) then c i + 1 else c i).
    assert (is_job (c' (row_id record)) claimed ∧ row_id claimed = row_id record) as Hclaimed.
    { unfold claimed. match goal with |- context [spread record ?l] =>
        destruct (spread_id record l Hobj) as [Hr Hh]; [by repeat (apply Forall_cons; split; [done|])|] end.
      split; [|done]. split; [done|]. split; [by rewrite Hr, Hh|]. rewrite prop_spread by done. cbn.
      unfold c'. by rewrite String.eqb_refl. }
    assert (∀ i, i ≠ row_id record → c' i = c i) as Hc'.
    { intros i Hi. unfold c'. by destruct (String.eqb_spec i (row_id record)). }
    apply triple_bind with (R := λ claim : bool, held (if claim then c' else c) h pending).
    { eapply triple_conseq; [apply (triple_unless_conflict c c' h (row_id record) record claimed pending true false
        (λ claim : bool, held (if claim then c' else c) h pending))| | |]; [done|by right|done|done|done|done|done|].
      intros e w Hw. by apply Hdrop. }
    intros [|]; [|intros w Hw; by apply Hkeep].
    apply (publish_keeps maxAttempts m (row_id record) claimed (published, failed) c' h pending);
      [done| |apply Hclaimed|apply Hclaimed| |done|done]; unfold c'; rewrite String.eqb_refl; [done|].
    unfold c. lia.
Qed.

Lemma dispatch_one_keeps fixed_now leaseMs maxAttempts m record counts pending :
  num_to_Z maxAttempts = Some m → (∀ r, r ∈ pending → row_id r ≠ row_id record) →
  triple (bounded m (record :: pending))
    (dispatch_one host memory_commit fixed_now leaseMs maxAttempts record counts)
    (λ _, bounded m pending) (λ _, bounded m []).
Proof.
  intros Hmax Hne w [Hcnt Hbound].
  apply (dispatch_one_held fixed_now leaseMs maxAttempts m record counts pending (ow_handed w) Hmax Hne Hbound).
  - apply (cn_jobs _ _ _ Hcnt). apply (cn_pending _ _ _ Hcnt). left.
  - split; [|done]. eapply counted_weaken; [|exact Hcnt]. intros r Hr. by right.
Qed.

Lemma dispatch_all_keeps fixed_now leaseMs maxAttempts m records : ∀ counts,
  num_to_Z maxAttempts = Some m → NoDup (row_id <$> records) →
  triple (bounded m records)
    (for_each records (dispatch_one host memory_commit fixed_now leaseMs maxAttempts) counts)
    (λ _, bounded m []) (λ _, bounded m []).
Proof.
  induction records as [|r records IH]; intros counts Hmax Hnd; cbn [for_each]; [by intros w Hw|].
  rewrite fmap_cons in Hnd. apply NoDup_cons in Hnd as [Hni Hnd].
  eapply triple_bind; [apply (dispatch_one_keeps _ _ _ m r counts records Hmax)|intros counts'; by apply IH].
  intros r' Hr' Heq. apply Hni. rewrite <- Heq. by apply list_elem_of_fmap_2.
Qed.

(** ** Passes *)

Lemma page_of_jobs (records : list json) options p :
  NoDup (row_id <$> records) → pageDatabaseRecords records options = Ok p →
  NoDup (row_id <$> page_records p) ∧ ∀ r, r ∈ page_records p → r ∈ records.
Proof.
  unfold pageDatabaseRecords. destruct (databasePageLimit options) as [limit|e]; [|done].
  set (l := List.filter _ records). intros Hnd [= <-]. cbn [page_records].
  assert (NoDup (row_id <$> l)) as Hndl.
  { unfold l. clear -Hnd. induction records as [|r l IH]; [constructor|]. rewrite fmap_cons in Hnd.
    apply NoDup_cons in Hnd as [Hni Hnd]. cbn [List.filter]. destruct (after_cursor _ r); [|by apply IH].
    rewrite fmap_cons. constructor; [|by apply IH].
    intros (r' & Heq & Hr')%list_elem_of_fmap. apply Hni. rewrite Heq. apply list_elem_of_fmap_2.
    apply list_elem_of_In in Hr'. apply filter_In in Hr' as [? _]. by apply list_elem_of_In. }
  split.
  - rewrite fmap_take. apply (NoDup_app (take (Z.to_nat limit) (row_id <$> sort_by id_leb l))
      (drop (Z.to_nat limit) (row_id <$> sort_by id_leb l))). rewrite take_drop.
    by rewrite (sort_by_Permutation id_leb l).
  - intros r Hr%elem_of_take. destruct Hr as (i & Hi & _). apply list_elem_of_lookup_2 in Hi.
    rewrite (sort_by_Permutation id_leb l) in Hi.
    apply list_elem_of_In in Hi. apply filter_In in Hi as [? _]. by apply list_elem_of_In.
Qed.

Definition attempts_limit (options : JobOutboxDispatchOptions) : num := default (int 5) (jo_maxAttempts options).

Lemma dispatch_keeps options m :
  (∀ z, num_to_Z (attempts_limit options) = Some z → z = m) →
  triple (bounded m []) (dispatchJobOutbox host options) (λ _, bounded m []) (λ _, bounded m []).
Proof.
  intros Hm. unfold dispatchJobOutbox. cbn [host_commit memory_host]. fold (attempts_limit options).
  destruct (_ || _) eqn:Hguard; [by intros w Hw|].
  destruct (num_to_Z (attempts_limit options)) as [z|] eqn:Hz; [|by rewrite orb_true_r in Hguard].
  specialize (Hm z eq_refl). subst z.
  eapply triple_bind with (R := λ page w, NoDup (row_id <$> page_records page) ∧ bounded m (page_records page) w).
  - intros [db h e] [[H1 H2 H3] Hb]. cbn. unfold memory_page. cbn [ow_db].
    destruct (pageDatabaseRecords _ _) as [p|err] eqn:Hp; [|by split].
    destruct (page_of_jobs _ _ _ H1 Hp) as [Hnd Hin]. split; [done|]. by split; [split|].
  - intros page w [Hnd Hb]. unfold mbind, M_bind.
    pose proof (dispatch_all_keeps (jo_now options) (default (int 60000) (jo_leaseMs options))
      (attempts_limit options) m (page_records page) (0, 0) Hz Hnd w Hb) as Hall.
    by destruct (for_each _ _ _ w) as [[counts|err] w'].
Qed.

(** Any number of passes with the same attempt limit, each with its own cursor, page
    size, lease and clock, whatever it answers. *)
Inductive passes (m : Z) : W → W → Prop :=
| passes_done w : passes m w w
| passes_step w options w' :
    num_to_Z (attempts_limit options) = Some m →
    passes m (dispatchJobOutbox host options w).2 w' → passes m w w'.

(** C27: a job leaves the outbox after a bounded number of publications.  From an
    outbox of jobs with distinct ids that were never handed out, however the queue
    answers, any number of dispatcher passes with the attempt limit [m] hands each id
    to the queue at most [m] times, and the [attempts] of each job still in the outbox
    is the number of times it was. *)
Theorem outbox_attempts_bounded m db e w :
  0 ≤ m → NoDup (row_id <$> jobs db) → (∀ r, r ∈ jobs db → is_job 0 r) →
  passes m (MkOutbox db [] e) w →
  (∀ id, handed_count id (ow_handed w) ≤ m) ∧
  (∀ r, r ∈ jobs (ow_db w) → to_number (prop "attempts" (Some r)) = int (handed_count (row_id r) (ow_handed w))).
Proof.
  intros Hm Hnd Hjobs Hp.
  assert (bounded m [] (MkOutbox db [] e)) as Hinit.
  { split; [|done]. split; [done|done|by intros r ?%elem_of_nil]. }
  assert (bounded m [] w) as [[_ Hall _] Hb].
  { clear -Hp Hinit. induction Hp as [|w options w' Hopt Hp IH]; [done|]. apply IH.
    pose proof (dispatch_keeps options m ltac:(intros z ?; congruence) w Hinit) as Hk.
    by destruct (dispatchJobOutbox host options w) as [[r|err] w1]. }
  split; [done|]. intros r Hr. apply (Hall r Hr).
Qed.
End Bounded.

(** ** An instance: a queue that refuses every job *)

Definition sample_job : json :=
  JObj [("id", JStr "j1"); ("name", JStr "send-email"); ("payload", JNull);
        ("state", JStr "pending"); ("attempts", JNum (int 0)); ("leaseUntil", JNum (int 0))].
Definition refuse (name : string) (payload : jsval) (id : string) (e : Z) : outcome unit * Z :=
  (Throw (MkError None "queue is down" []), e).
Definition tick (e : Z) : num * Z := (int (e * 100000), e + 1).
Definition ticket (e : Z) : string * Z := (pretty e, e + 1).
Definition three_attempts : JobOutboxDispatchOptions :=
  {| jo_cursor := None; jo_limit := None; jo_now := None; jo_leaseMs := None;
     jo_maxAttempts := Some (int 3) |}.
Definition refused_once : OutboxWorld Z :=
  Eval vm_compute in
    (dispatchJobOutbox (memory_host refuse tick ticket) three_attempts
       (MkOutbox [(JOB_OUTBOX_TABLE, [sample_job])] [] 1)).2.

Lemma outbox_attempts_bounded_witness :
  handed_count "j1" (ow_handed refused_once) = 1 ∧
  ∀ id, handed_count id (ow_handed refused_once) ≤ 3.
Proof.
  split; [reflexivity|].
  apply (outbox_attempts_bounded refuse tick ticket 3 [(JOB_OUTBOX_TABLE, [sample_job])] 1 refused_once).
  - discriminate.
  - apply NoDup_singleton.
  - intros r Hr. apply list_elem_of_singleton in Hr as ->. by split.
  - apply (passes_step refuse tick ticket 3 _ three_attempts); [reflexivity|].
    replace (dispatchJobOutbox (memory_host refuse tick ticket) three_attempts
      (MkOutbox [(JOB_OUTBOX_TABLE, [sample_job])] [] 1)).2 with refused_once by (vm_compute; reflexivity).
    apply passes_done.
Defined.
