(* ===== verification/Workflow.v ===== *)
(** * Runtime: durable workflow runs

    [mezair-cloud/packages/runtime/src/workflow.ts].  A run is a record that is
    mutated step by step and saved after every transition; the host, its clock,
    traces and logs, and the step handlers, are computations over the outside
    world.  Retrying and timing out are the Effect library's, a class with what the
    code relies on.  A handler reads the workflow state it is passed. *)

From stdpp Require Import base list strings pretty.
From Stdlib Require Import ZArith Ascii.
From S2P Require Import Prelude JsString JsValue DatabaseCommit.

(** ** Data *)

Inductive WorkflowStatus := ws_running | ws_completed | ws_failed.
Inductive StepStatus := step_pending | step_running | step_completed | step_failed.

#[export] Instance WorkflowStatus_eq_dec : EqDecision WorkflowStatus.
Proof. solve_decision. Defined.
#[export] Instance StepStatus_eq_dec : EqDecision StepStatus.
Proof. solve_decision. Defined.

Record WorkflowStepRun := {
  sr_name : string;
  sr_status : StepStatus;
  sr_attempts : Z;
  sr_startedAt : option Z;
  sr_completedAt : option Z;
  sr_result : jsval;
  sr_error : option (string * string);
}.

Record WorkflowRun := {
  wr_runId : string;
  wr_workflow : string;
  wr_status : WorkflowStatus;
  wr_input : jsval;
  wr_steps : list WorkflowStepRun;
  wr_createdAt : Z;
  wr_updatedAt : Z;
}.

(** [{ input, steps }]: the results so far, by step name. *)
Record WorkflowState := { st_input : jsval; st_steps : list (string * jsval) }.

Definition set_result (name : string) (result : jsval) (s : WorkflowState) : WorkflowState :=
  {| st_input := st_input s; st_steps := assoc_set name result (st_steps s) |}.

(** What is reported to the trace adapter. *)
Inductive TraceCall :=
| TraceStart (traceId workflow : string) (startedAt : Z) (input : jsval)
| TraceStepStarted (traceId workflow step : string) (attempt : Z)
| TraceStepCompleted (traceId workflow step : string) (durationMs : option Z) (attempts : Z) (result : jsval)
| TraceStepFailed (traceId workflow step : string) (durationMs : option Z) (attempts : Z) (code message : string)
| TraceWorkflowFailed (traceId workflow step code : string)
| TraceWorkflowCompleted (traceId workflow : string) (steps : Z)
| TraceComplete (traceId : string) (status : WorkflowStatus).

(** An error line of the log. *)
Record LogLine := {
  log_requestId : string; log_handler : string; log_message : string;
  log_code : string; log_step : string; log_attempts : Z; log_timestamp : Z;
}.

Record WorkflowStepDefinition (W Ctx : Type) := {
  wd_name : string;
  wd_handler : Ctx → WorkflowState → M W jsval;
  wd_retries : option Z;
  wd_timeoutMs : option Z;
}.
Arguments wd_name {W Ctx} _.
Arguments wd_handler {W Ctx} _ _ _.
Arguments wd_retries {W Ctx} _.
Arguments wd_timeoutMs {W Ctx} _.

(** What the executor uses of the [RuntimeHost], with [createRuntimeContext] and the
    [save] callback of the options. *)
Record WorkflowHost (W Ctx : Type) := {
  wh_now : M W Z;
  wh_save : WorkflowRun → M W unit;
  wh_traces : option (TraceCall → M W unit);
  wh_log : LogLine → M W unit;
  wh_createContext : string → string → jsval → M W Ctx;
}.
Arguments wh_now {W Ctx} _.
Arguments wh_save {W Ctx} _ _.
Arguments wh_traces {W Ctx} _.
Arguments wh_log {W Ctx} _ _.
Arguments wh_createContext {W Ctx} _ _ _ _.

Definition runtimeErrorCodes : list string :=
  ["VALIDATION_ERROR"; "CONFLICT"; "AUTH_REQUIRED"; "FORBIDDEN"; "NOT_FOUND"; "HANDLER_NOT_FOUND";
   "CAPABILITY_NOT_DECLARED"; "OUTBOUND_FETCH_NOT_ALLOWED"; "ADAPTER_ERROR"; "INTERNAL_ERROR"].

(** An error of another copy of the runtime, which is not an instance of this one's
    class: its [name], code, message and status must be those of a RuntimeError. *)
Definition readForeignRuntimeError (e : JsError) : option JsError :=
  let status := assoc_get "status" (err_details e) ≫= λ s, num_to_Z (string_to_num s) in
  match err_code e, status with
  | Some code, Some n =>
      if bool_decide (assoc_get "name" (err_details e) = Some "RuntimeError")
         && bool_decide (code ∈ runtimeErrorCodes)
         && (1 <=? slen (err_message e)) && (slen (err_message e) <=? 512)
         && (400 <=? n) && (n <=? 599)
      then Some (runtime_error code (err_message e) n) else None
  | _, _ => None
  end.

Definition normaliseRuntimeError (e : JsError) : JsError :=
  if is_runtime_error e then e else
  match readForeignRuntimeError e with
  | Some foreign => foreign
  | None => runtime_error "INTERNAL_ERROR" "Handler failed during runtime execution." 500
  end.

Definition error_code (e : JsError) : string := default "INTERNAL_ERROR" (err_code e).

(** ** Steps of a run *)

Definition new_step (name : string) : WorkflowStepRun :=
  {| sr_name := name; sr_status := step_pending; sr_attempts := 0; sr_startedAt := None;
     sr_completedAt := None; sr_result := None; sr_error := None |}.

Definition with_steps (steps : list WorkflowStepRun) (r : WorkflowRun) : WorkflowRun :=
  {| wr_runId := wr_runId r; wr_workflow := wr_workflow r; wr_status := wr_status r;
     wr_input := wr_input r; wr_steps := steps; wr_createdAt := wr_createdAt r;
     wr_updatedAt := wr_updatedAt r |}.

Definition with_status (status : WorkflowStatus) (r : WorkflowRun) : WorkflowRun :=
  {| wr_runId := wr_runId r; wr_workflow := wr_workflow r; wr_status := status;
     wr_input := wr_input r; wr_steps := wr_steps r; wr_createdAt := wr_createdAt r;
     wr_updatedAt := wr_updatedAt r |}.

Definition with_updatedAt (t : Z) (r : WorkflowRun) : WorkflowRun :=
  {| wr_runId := wr_runId r; wr_workflow := wr_workflow r; wr_status := wr_status r;
     wr_input := wr_input r; wr_steps := wr_steps r; wr_createdAt := wr_createdAt r;
     wr_updatedAt := t |}.

Definition named (name : string) (s : WorkflowStepRun) : bool := String.eqb (sr_name s) name.

Definition find_step (name : string) (r : WorkflowRun) : option WorkflowStepRun :=
  find_first (named name) (wr_steps r).

(** Change the step object found under a name. *)
Fixpoint update_first (name : string) (f : WorkflowStepRun → WorkflowStepRun)
    (steps : list WorkflowStepRun) : list WorkflowStepRun :=
  match steps with
  | [] => []
  | s :: steps' => if named name s then f s :: steps' else s :: update_first name f steps'
  end.

Definition ensureStepRun (name : string) (r : WorkflowRun) : WorkflowRun :=
  match find_step name r with
  | Some _ => r
  | None => with_steps (wr_steps r ++ [new_step name]) r
  end.

Definition started (t : Z) (s : WorkflowStepRun) : WorkflowStepRun :=
  {| sr_name := sr_name s; sr_status := step_running; sr_attempts := sr_attempts s;
     sr_startedAt := Some t; sr_completedAt := sr_completedAt s; sr_result := sr_result s;
     sr_error := sr_error s |}.

Definition attempted (s : WorkflowStepRun) : WorkflowStepRun :=
  {| sr_name := sr_name s; sr_status := sr_status s; sr_attempts := sr_attempts s + 1;
     sr_startedAt := sr_startedAt s; sr_completedAt := sr_completedAt s; sr_result := sr_result s;
     sr_error := sr_error s |}.

Definition completed (result : jsval) (t : Z) (s : WorkflowStepRun) : WorkflowStepRun :=
  {| sr_name := sr_name s; sr_status := step_completed; sr_attempts := sr_attempts s;
     sr_startedAt := sr_startedAt s; sr_completedAt := Some t; sr_result := result;
     sr_error := sr_error s |}.

Definition failed (error : JsError) (t : Z) (s : WorkflowStepRun) : WorkflowStepRun :=
  {| sr_name := sr_name s; sr_status := step_failed; sr_attempts := sr_attempts s;
     sr_startedAt := sr_startedAt s; sr_completedAt := Some t; sr_result := sr_result s;
     sr_error := Some (error_code error, err_message error) |}.

Definition createWorkflowRun {W Ctx} (runId workflow : string)
    (steps : list (WorkflowStepDefinition W Ctx)) (input : jsval) (now : Z) : WorkflowRun :=
  {| wr_runId := runId; wr_workflow := workflow; wr_status := ws_running; wr_input := input;
     wr_steps := (λ d, new_step (wd_name d)) <$> steps; wr_createdAt := now; wr_updatedAt := now |}.

Definition durationBetween (startedAt completedAt : option Z) : option Z :=
  match startedAt, completedAt with
  | Some a, Some b => if 0 <=? b - a then Some (b - a) else None
  | _, _ => None
  end.

(** ** Summaries *)

Inductive Lifecycle := lc_completed | lc_failed | lc_in_flight | lc_resumable.

Record WorkflowRunProgress := {
  pr_lifecycle : Lifecycle;
  pr_resumable : bool;
  pr_inFlight : bool;
  pr_currentStep : option string;
  pr_currentStepIndex : option nat;
  pr_nextStep : option string;
  pr_nextStepIndex : option nat;
  pr_completedSteps : nat;
  pr_failedSteps : nat;
  pr_runningSteps : nat;
  pr_pendingSteps : nat;
  pr_totalSteps : nat;
}.

Definition has_status (statuses : list StepStatus) (s : WorkflowStepRun) : bool :=
  bool_decide (sr_status s ∈ statuses).

(** [steps.filter((step) => step.status === status).length]. *)
Definition count_status (status : StepStatus) (steps : list WorkflowStepRun) : nat :=
  length (List.filter (has_status [status]) steps).

(** [steps.findIndex(...)]. *)
Fixpoint find_index {A} (p : A → bool) (l : list A) : option nat :=
  match l with
  | [] => None
  | x :: l' => if p x then Some 0%nat else S <$> find_index p l'
  end.

Definition lifecycle_of (status : WorkflowStatus) (active : bool) : Lifecycle :=
  match status with
  | ws_completed => lc_completed
  | ws_failed => lc_failed
  | ws_running => if active then lc_in_flight else lc_resumable
  end.

(** The [progress] that [summarizeWorkflowRun] adds to the run. *)
Definition summarizeWorkflowRun (run : WorkflowRun) (active : bool) : WorkflowRunProgress :=
  let steps := wr_steps run in
  let current := find_index (has_status [step_running; step_failed]) steps in
  let next := find_index (has_status [step_pending; step_running]) steps in
  let name (i : option nat) := i ≫= λ n, sr_name <$> steps !! n in
  {| pr_lifecycle := lifecycle_of (wr_status run) active;
     pr_resumable := bool_decide (wr_status run = ws_running) && negb active;
     pr_inFlight := match lifecycle_of (wr_status run) active with lc_in_flight => true | _ => false end;
     pr_currentStep := name current; pr_currentStepIndex := current;
     pr_nextStep := name next; pr_nextStepIndex := next;
     pr_completedSteps := count_status step_completed steps;
     pr_failedSteps := count_status step_failed steps;
     pr_runningSteps := count_status step_running steps;
     pr_pendingSteps := count_status step_pending steps;
     pr_totalSteps := length steps |}.

(** ** Execution *)

Record WFrame (W : Type) := MkWF { wf_run : WorkflowRun; wf_ext : W }.
Arguments MkWF {W} _ _.
Arguments wf_run {W} _.
Arguments wf_ext {W} _.

(** The Effect library, as the executor uses it: [Effect.retry] with [Schedule.recurs]
    and a delay runs an effect again after a failure, at most so often, pausing in
    between; pausing does not touch the run; [Effect.timeoutFail] may replace what an
    effect does by a failure. *)
Class EffectLibrary (W : Type) := {
  effect_pause : Z → M W unit;
  effect_retry : nat → Z → M (WFrame W) jsval → M (WFrame W) jsval;
  effect_timeoutFail : Z → JsError → M W jsval → M W jsval;
  effect_retry_none d m : effect_retry 0 d m = m;
  effect_retry_once n d m f :
    effect_retry (S n) d m f =
    match m f with
    | (Ok v, f') => (Ok v, f')
    | (Throw _, f') =>
        effect_retry n d m (MkWF (wf_run f') (if d <=? 0 then wf_ext f' else (effect_pause d (wf_ext f')).2))
    end;
}.

Section Execute.
Context {W Ctx : Type} `{EffectLibrary W} (host : WorkflowHost W Ctx).
Notation F := (WFrame W).

Definition outside {A} (m : M W A) : M F A := λ f,
  let '(o, e) := m (wf_ext f) in (o, MkWF (wf_run f) e).

Definition change (g : WorkflowRun → WorkflowRun) : M F unit :=
  modify (λ f, MkWF (g (wf_run f)) (wf_ext f)).

Definition change_step (name : string) (g : WorkflowStepRun → WorkflowStepRun) : M F unit :=
  change (λ r, with_steps (update_first name g (wr_steps r)) r).

(** The step object under a name, which [ensureStepRun] has made sure of. *)
Definition the_step (name : string) : M F WorkflowStepRun :=
  gets (λ f, default (new_step name) (find_step name (wf_run f))).

Definition persist : M F unit :=
  t ← outside (wh_now host);
  change (with_updatedAt t) ;;
  f ← get_state;
  outside (wh_save host (wf_run f)).

Definition trace (call : WorkflowRun → TraceCall) : M F unit :=
  match wh_traces host with
  | Some adapter => f ← get_state; outside (adapter (call (wf_run f)))
  | None => mret tt
  end.

(** [Effect.tryPromise] with [catch: normaliseRuntimeError]. *)
Definition normalised {S A} (m : M S A) : M S A :=
  try_catch m (λ e, throw (normaliseRuntimeError e)).

Definition timeout_error (name : string) (ms : Z) : JsError :=
  runtime_error "INTERNAL_ERROR"
    ("Workflow step '" +:+ name +:+ "' timed out after " +:+ int_to_string ms +:+ "ms.") 500.

Definition withStepTimeout (m : M W jsval) (timeoutMs : option Z) (name : string) : M W jsval :=
  match timeoutMs with
  | None => m
  | Some ms => effect_timeoutFail ms (timeout_error name ms) m
  end.

Definition executeWorkflowStepAttempt (definition : WorkflowStepDefinition W Ctx)
    (state : WorkflowState) : M F jsval :=
  let name := wd_name definition in
  change_step name attempted ;;
  normalised persist ;;
  f ← get_state;
  s ← the_step name;
  ctx ← outside (normalised (wh_createContext host
    (wr_runId (wf_run f) +:+ ":" +:+ sr_name s +:+ ":" +:+ int_to_string (sr_attempts s))
    (wr_workflow (wf_run f) +:+ "." +:+ sr_name s) (wr_input (wf_run f))));
  outside (withStepTimeout (normalised (wd_handler definition ctx state)) (wd_timeoutMs definition) name).

Definition traceWorkflowStepCompleted (name : string) : M F unit :=
  s ← the_step name;
  trace (λ r, TraceStepCompleted (wr_runId r) (wr_workflow r) (sr_name s)
                (durationBetween (sr_startedAt s) (sr_completedAt s)) (sr_attempts s) (sr_result s)).

Definition traceWorkflowStepFailed (name : string) (error : JsError) : M F unit :=
  s ← the_step name;
  trace (λ r, TraceStepFailed (wr_runId r) (wr_workflow r) (sr_name s)
                (durationBetween (sr_startedAt s) (sr_completedAt s)) (sr_attempts s)
                (error_code error) (err_message error)) ;;
  trace (λ r, TraceWorkflowFailed (wr_runId r) (wr_workflow r) (sr_name s) (error_code error)) ;;
  trace (λ r, TraceComplete (wr_runId r) ws_failed).

Definition writeWorkflowErrorLog (name : string) (error : JsError) : M F unit :=
  s ← the_step name;
  t ← outside (wh_now host);
  f ← get_state;
  outside (wh_log host
    {| log_requestId := wr_runId (wf_run f); log_handler := wr_workflow (wf_run f) +:+ "." +:+ sr_name s;
       log_message := err_message error; log_code := error_code error; log_step := sr_name s;
       log_attempts := sr_attempts s; log_timestamp := t |}).

(** [Effect.runPromise(Effect.either(...))]. *)
Definition either {A} (m : M F A) : M F (outcome A) := λ f,
  let '(o, f') := m f in (Ok o, f').

Definition retries_of (definition : WorkflowStepDefinition W Ctx) : nat :=
  Z.to_nat (Z.max 0 (default 0 (wd_retries definition))).

(** The [try] around a step: its result, or the error it failed with. *)
Definition try_step (retryDelayMs : Z) (definition : WorkflowStepDefinition W Ctx)
    (state : WorkflowState) : M F (outcome jsval) :=
  let name := wd_name definition in
  try_catch
    (result ← either (effect_retry (retries_of definition) retryDelayMs
                        (executeWorkflowStepAttempt definition state));
     match result with
     | Throw e => mret (Throw e)
     | Ok value =>
         t ← outside (wh_now host);
         change_step name (completed value t) ;;
         persist ;;
         traceWorkflowStepCompleted name ;;
         mret (Ok value)
     end)
    (λ e, mret (Throw (normaliseRuntimeError e))).

(** The run and the step are marked failed. *)
Definition fail_step (name : string) (error : JsError) : M F unit :=
  t ← outside (wh_now host);
  change_step name (failed error t) ;;
  change (with_status ws_failed) ;;
  persist ;;
  traceWorkflowStepFailed name error ;;
  writeWorkflowErrorLog name error.

(** The loop over the definitions: whether every step completed. *)
Fixpoint run_steps (retryDelayMs : Z) (definitions : list (WorkflowStepDefinition W Ctx))
    (state : WorkflowState) : M F bool :=
  match definitions with
  | [] => mret true
  | definition :: rest =>
      let name := wd_name definition in
      change (ensureStepRun name) ;;
      s ← the_step name;
      if bool_decide (sr_status s = step_completed) then
        run_steps retryDelayMs rest (set_result (sr_name s) (sr_result s) state)
      else
        t ← outside (wh_now host);
        change_step name (started t) ;;
        persist ;;
        trace (λ r, TraceStepStarted (wr_runId r) (wr_workflow r) name (sr_attempts s + 1)) ;;
        result ← try_step retryDelayMs definition state;
        match result with
        | Throw e => fail_step name e ;; mret false
        | Ok value => run_steps retryDelayMs rest (set_result (sr_name s) value state)
        end
  end.

Definition executeWorkflowRun (definitions : list (WorkflowStepDefinition W Ctx))
    (retryDelayMs : option Z) : M F WorkflowRun :=
  change (with_status ws_running) ;;
  persist ;;
  trace (λ r, TraceStart (wr_runId r) (wr_workflow r) (wr_createdAt r) (wr_input r)) ;;
  f ← get_state;
  done ← run_steps (default 50 retryDelayMs) definitions
           {| st_input := wr_input (wf_run f); st_steps := [] |};
  (if done : bool then
     change (with_status ws_completed) ;;
     persist ;;
     trace (λ r, TraceWorkflowCompleted (wr_runId r) (wr_workflow r) (Z.of_nat (length (wr_steps r)))) ;;
     trace (λ r, TraceComplete (wr_runId r) ws_completed)
   else mret tt) ;;
  gets wf_run.
End Execute.
