(* ===== verification/WorkflowRuns.v ===== *)
(** * Runtime: what a workflow execution does to its run

    The lemmas behind the properties of [executeWorkflowRun]: which parts of the run,
    and which observations of the outside world, each operation of the executor
    changes. *)

From stdpp Require Import base list strings pretty.
From Stdlib Require Import ZArith Lia.
From S2P Require Import Prelude JsString JsValue DatabaseCommit Workflow.

(** ** The step found under a name *)

Definition keeps_name (g : WorkflowStepRun → WorkflowStepRun) : Prop := ∀ s, sr_name (g s) = sr_name s.

Lemma find_step_name n r s : find_step n r = Some s → sr_name s = n.
Proof. intros [_ E]%find_first_Some. by apply String.eqb_eq. Qed.

Lemma find_update_first n name g steps :
  keeps_name g →
  find_first (named n) (update_first name g steps) =
  if String.eqb n name then g <$> find_first (named n) steps else find_first (named n) steps.
Proof.
  intros Hg. unfold named. induction steps as [|s steps IH]; cbn; [by destruct (String.eqb n name)|].
  unfold named. destruct (String.eqb_spec (sr_name s) name) as [E|E]; cbn.
  - rewrite Hg, E. destruct (String.eqb_spec name n) as [->|]; [by rewrite String.eqb_refl|].
    destruct (String.eqb_spec n name); [congruence|done].
  - rewrite IH. destruct (String.eqb_spec (sr_name s) n) as [E'|]; [|done].
    destruct (String.eqb_spec n name); [congruence|done].
Qed.

Lemma find_step_update n name g r :
  keeps_name g →
  find_step n (with_steps (update_first name g (wr_steps r)) r) =
  if String.eqb n name then g <$> find_step n r else find_step n r.
Proof. apply find_update_first. Qed.

Lemma find_step_ensure n name r :
  find_step n (ensureStepRun name r) =
  if String.eqb n name then Some (default (new_step name) (find_step n r)) else find_step n r.
Proof.
  unfold ensureStepRun. destruct (find_step name r) eqn:E.
  { destruct (String.eqb_spec n name) as [->|]; [by rewrite E|done]. }
  unfold find_step in *. cbn. revert E. induction (wr_steps r) as [|s l IH]; cbn; intros E.
  - unfold named. cbn. destruct (String.eqb_spec n name) as [->|Hn]; [by rewrite String.eqb_refl|].
    destruct (String.eqb_spec name n); [congruence|done].
  - destruct (named name s) eqn:Hs; [done|]. rewrite (IH E).
    destruct (named n s) eqn:Hn; [|done].
    destruct (String.eqb_spec n name) as [->|]; [congruence|done].
Qed.

(** What a handler is shown when the steps before it are [pre]. *)
Definition result_of {W Ctx} (r : WorkflowRun) (d : WorkflowStepDefinition W Ctx) : string * jsval :=
  (wd_name d, from_option sr_result None (find_step (wd_name d) r)).

Definition view_of {W Ctx} (r : WorkflowRun) (pre : list (WorkflowStepDefinition W Ctx)) : WorkflowState :=
  {| st_input := wr_input r; st_steps := result_of r <$> pre |}.

Definition step_done (r : WorkflowRun) (name : string) : Prop :=
  ∃ s, find_step name r = Some s ∧ sr_status s = step_completed.

Definition attempts_of (r : WorkflowRun) (name : string) : Z :=
  from_option sr_attempts 0 (find_step name r).

(** The handler invocations of a run in which the [i]-th definition's handler ran
    [ks !! i] times. *)
Fixpoint expected_calls {W Ctx} (r : WorkflowRun) (pre defs : list (WorkflowStepDefinition W Ctx))
    (ks : list nat) : list (string * WorkflowState) :=
  match defs, ks with
  | d :: defs', k :: ks' => replicate k (wd_name d, view_of r pre) ++ expected_calls r (pre ++ [d]) defs' ks'
  | _, _ => []
  end.

(** ** Observing a host *)

(** What can be seen of the outside world: the handler invocations, each with the
    state it was passed, and the run last saved.  Only handlers add invocations, one
    each; only [save] changes the saved run; a time limit only cuts an effect short. *)
Class Observed {W Ctx} `{EffectLibrary W} (host : WorkflowHost W Ctx)
    (defs : list (WorkflowStepDefinition W Ctx)) := {
  ob_calls : W → list (string * WorkflowState);
  ob_saved : W → option WorkflowRun;
  ob (w : W) := (ob_calls w, ob_saved w);
  ob_now w : ob (wh_now host w).2 = ob w;
  ob_traces adapter c w : wh_traces host = Some adapter → ob (adapter c w).2 = ob w;
  ob_log l w : ob (wh_log host l w).2 = ob w;
  ob_context a b c w : ob (wh_createContext host a b c w).2 = ob w;
  ob_pause d w : ob (effect_pause d w).2 = ob w;
  ob_save_calls r w : ob_calls (wh_save host r w).2 = ob_calls w;
  ob_save r w w' : wh_save host r w = (Ok tt, w') → ob_saved w' = Some r;
  ob_handler d ctx st w : d ∈ defs →
    ob (wd_handler d ctx st w).2 = (ob_calls w ++ [(wd_name d, st)], ob_saved w);
  ob_timeout ms e m w : ob (effect_timeoutFail ms e m w).2 = ob (m w).2;
}.

Section Runs.
Context {W Ctx : Type} `{EffectLibrary W} (host : WorkflowHost W Ctx)
  (defs : list (WorkflowStepDefinition W Ctx)) `{!Observed host defs}.
Notation F := (WFrame W).
Implicit Types f : F.

Definition calls f := ob_calls (host := host) (wf_ext f).
Definition saved f := ob_saved (host := host) (wf_ext f).

(** The run but for [updatedAt]. *)
Definition core (r : WorkflowRun) := with_updatedAt 0 r.

Definition silent {A} (m : M F A) : Prop :=
  ∀ f, wf_run (m f).2 = wf_run f ∧ calls (m f).2 = calls f ∧ saved (m f).2 = saved f.

Definition quiet {A} (m : M F A) : Prop :=
  ∀ f, core (wf_run (m f).2) = core (wf_run f) ∧ calls (m f).2 = calls f.

Lemma silent_quiet {A} (m : M F A) : silent m → quiet m.
Proof. intros Hm f. destruct (Hm f) as (-> & -> & _). done. Qed.

Lemma silent_ret {A} (a : A) : silent (mret a).
Proof. done. Qed.

Lemma silent_bind {A B} (m : M F A) (k : A → M F B) : silent m → (∀ a, silent (k a)) → silent (m ≫= k).
Proof.
  intros Hm Hk f. unfold mbind, M_bind. specialize (Hm f).
  destruct (m f) as [[a|e] f1]; [|done]. destruct (Hk a f1) as (-> & -> & ->). done.
Qed.

Lemma quiet_seq {A B} (m : M F A) (k : A → M F B) : quiet m → (∀ a, quiet (k a)) → quiet (m ≫= k).
Proof.
  intros Hm Hk f. unfold mbind, M_bind. specialize (Hm f).
  destruct (m f) as [[a|e] f1]; [|done]. destruct (Hk a f1) as (-> & ->). done.
Qed.

Lemma silent_gets {A} (g : F → A) : silent (gets g).
Proof. done. Qed.

Lemma silent_get_state : silent (@get_state F).
Proof. done. Qed.

Lemma ob_eq w w' :
  ob (host := host) (defs := defs) w = ob w' → ob_calls w = ob_calls w' ∧ ob_saved w = ob_saved w'.
Proof. unfold ob. intros. by simplify_eq. Qed.

Lemma silent_outside {A} (m : M W A) : (∀ w, ob (host := host) (m w).2 = ob w) → silent (outside m).
Proof.
  intros Hm f. specialize (Hm (wf_ext f)). apply ob_eq in Hm. unfold outside, calls, saved.
  destruct (m (wf_ext f)) as [o w]. done.
Qed.

Lemma silent_now : silent (outside (wh_now host)).
Proof. apply silent_outside. intros. apply ob_now. Qed.

Lemma silent_log l : silent (outside (wh_log host l)).
Proof. apply silent_outside. intros. apply ob_log. Qed.

Lemma normalised_snd {S A} (m : M S A) s : (normalised m s).2 = (m s).2.
Proof. unfold normalised, try_catch. by destruct (m s) as [[a|e] s']. Qed.

Lemma silent_normalised {A} (m : M F A) : silent m → silent (normalised m).
Proof. intros Hm f. rewrite normalised_snd. apply Hm. Qed.

Lemma quiet_normalised {A} (m : M F A) : quiet m → quiet (normalised m).
Proof. intros Hm f. rewrite normalised_snd. apply Hm. Qed.

Lemma silent_context a b c : silent (outside (normalised (wh_createContext host a b c))).
Proof. apply silent_outside. intros w. rewrite normalised_snd. apply ob_context. Qed.

Lemma silent_trace call : silent (trace host call).
Proof.
  unfold trace. destruct (wh_traces host) as [adapter|] eqn:E; [|done].
  apply silent_bind; [done|]. intros f. apply silent_outside. intros w. by apply ob_traces.
Qed.

Lemma silent_the_step name : silent (the_step (W := W) name).
Proof. done. Qed.

Lemma persist_spec f :
  let '(o, f') := persist host f in
  core (wf_run f') = core (wf_run f) ∧ calls f' = calls f ∧
  (o = Ok tt → saved f' = Some (wf_run f')).
Proof.
  unfold persist, mbind, M_bind. pose proof (silent_now f) as (Hr & Hc & _).
  destruct (outside (wh_now host) f) as [[t|e] f1]; cbn in *; [|by rewrite Hr].
  unfold outside, get_state. cbn.
  pose proof (ob_save_calls (host := host) (with_updatedAt t (wf_run f1)) (wf_ext f1)) as Hs.
  pose proof (ob_save (host := host) (with_updatedAt t (wf_run f1)) (wf_ext f1)) as Hk.
  destruct (wh_save host _ _) as [[[]|e] w]; cbn in *; (split; [by rewrite Hr|split; [|]]).
  - unfold calls in *. cbn. congruence.
  - intros _. unfold saved. cbn. by apply Hk.
  - unfold calls in *. cbn. congruence.
  - done.
Qed.

Lemma quiet_persist : quiet (persist host).
Proof. intros f. pose proof (persist_spec f) as Hp. destruct (persist host f) as [o f']. cbn. by destruct Hp as (?&?&?). Qed.

(** ** One step *)

(** Everything of a run but the step under a name. *)
Definition step_frame (name : string) (r r' : WorkflowRun) : Prop :=
  core (with_steps [] r') = core (with_steps [] r) ∧
  ∀ n, n ≠ name → find_step n r' = find_step n r.

Lemma step_frame_refl name r : step_frame name r r.
Proof. done. Qed.

Lemma step_frame_trans name r1 r2 r3 :
  step_frame name r1 r2 → step_frame name r2 r3 → step_frame name r1 r3.
Proof. intros [E1 F1] [E2 F2]. split; [congruence|]. intros n Hn. by rewrite (F2 n Hn), (F1 n Hn). Qed.

Lemma core_frame name r r' : core r' = core r → step_frame name r r'.
Proof.
  unfold core, with_updatedAt. destruct r, r'; cbn. intros [=]. subst. by split.
Qed.

Lemma core_find n r r' : core r' = core r → find_step n r' = find_step n r.
Proof. unfold core, with_updatedAt. destruct r, r'; cbn. intros [=]. by subst. Qed.

Lemma frame_update name g r :
  keeps_name g → step_frame name r (with_steps (update_first name g (wr_steps r)) r).
Proof.
  intros Hg. split; [done|]. intros n Hn. rewrite find_step_update by done.
  by destruct (String.eqb_spec n name).
Qed.

Lemma find_update_same name g r s :
  keeps_name g → find_step name r = Some s →
  find_step name (with_steps (update_first name g (wr_steps r)) r) = Some (g s).
Proof. intros Hg Hs. by rewrite find_step_update, String.eqb_refl, Hs. Qed.

(** What an effect on the step [name] leaves: the frame, the step's attempts, and the
    invocations of its handler. *)
Definition stepped (name : string) (st : WorkflowState) (s : WorkflowStepRun) (n : nat)
    (returned : bool) f f' : Prop :=
  step_frame name (wf_run f) (wf_run f') ∧
  ∃ s' (j k : nat), find_step name (wf_run f') = Some s' ∧
    sr_attempts s' = sr_attempts s + Z.of_nat j ∧ (k ≤ j ≤ n)%nat ∧
    calls f' = calls f ++ replicate k (name, st) ∧ (returned = true ∨ sr_status s' ≠ sr_status s → (1 ≤ k)%nat).

Definition is_ok {A} (o : outcome A) : bool := match o with Ok _ => true | Throw _ => false end.

Lemma attempt_spec d st f s :
  d ∈ defs → find_step (wd_name d) (wf_run f) = Some s →
  stepped (wd_name d) st s 1 (is_ok (executeWorkflowStepAttempt host d st f).1)
    f (executeWorkflowStepAttempt host d st f).2.
Proof.
  intros Hd Hs. set (name := wd_name d).
  set (f1 := MkWF (with_steps (update_first name attempted (wr_steps (wf_run f))) (wf_run f)) (wf_ext f)).
  assert (step_frame name (wf_run f) (wf_run f1)) as Hf by by apply frame_update.
  assert (find_step name (wf_run f1) = Some (attempted s)) as Hs1 by by apply find_update_same.
  assert (∀ (b : bool) f', core (wf_run f') = core (wf_run f1) → ∀ k : nat, (k ≤ 1)%nat →
    calls f' = calls f1 ++ replicate k (name, st) → (b = true → k = 1%nat) → stepped name st s 1 b f f') as Hgo.
  { intros b f' Hc k Hk Hl Hb. split; [eapply step_frame_trans; [exact Hf|by apply core_frame]|].
    exists (attempted s), 1%nat, k. rewrite (core_find _ _ _ Hc). split; [done|]. split; [done|].
    split; [lia|]. split; [done|]. intros [Hb'|[]]; [rewrite (Hb Hb'); lia|done]. }
  unfold executeWorkflowStepAttempt, change_step, change, mbind, M_bind, modify. fold name. fold f1.
  destruct (quiet_normalised _ (quiet_persist) f1) as [Hc1 Hl1].
  destruct (normalised (persist host) f1) as [[[]|e] f2]; cbn in Hc1, Hl1 |- *.
  2:{ apply (Hgo false f2 Hc1 0%nat); [lia|by rewrite Hl1, app_nil_r|done]. }
  match goal with |- context [outside (normalised (wh_createContext host ?a ?b ?c)) f2] =>
    destruct (silent_context a b c f2) as (Hr3 & Hl3 & _);
    destruct (outside (normalised (wh_createContext host a b c)) f2) as [[ctx|e] f3] end;
    cbn in Hr3, Hl3 |- *.
  2:{ apply (Hgo false f3) with (k := 0%nat); [by rewrite Hr3|lia|by rewrite Hl3, Hl1, app_nil_r|done]. }
  unfold outside.
  assert (ob (host := host) (withStepTimeout (normalised (wd_handler d ctx st)) (wd_timeoutMs d) name (wf_ext f3)).2
    = (ob_calls (wf_ext f3) ++ [(name, st)], ob_saved (wf_ext f3))) as Ho.
  { unfold withStepTimeout. destruct (wd_timeoutMs d); [rewrite ob_timeout|];
    rewrite normalised_snd; by apply ob_handler. }
  destruct (withStepTimeout _ _ _ _) as [o w]. cbn in Ho |- *. apply (f_equal fst) in Ho. cbn in Ho.
  eapply Hgo with (k := 1%nat); [cbn; congruence|lia| |done].
  unfold calls in *. cbn. by rewrite Ho, Hl3, Hl1.
Qed.

Lemma retry_spec n delay d st : d ∈ defs → ∀ f s,
  find_step (wd_name d) (wf_run f) = Some s →
  stepped (wd_name d) st s (S n) (is_ok (effect_retry n delay (executeWorkflowStepAttempt host d st) f).1)
    f (effect_retry n delay (executeWorkflowStepAttempt host d st) f).2.
Proof.
  intros Hd. induction n as [|n IH]; intros f s Hs.
  { rewrite effect_retry_none. by apply attempt_spec. }
  rewrite effect_retry_once. pose proof (attempt_spec d st f s Hd Hs) as (Hf & s1 & j & k & Hs1 & Ha & Hk & Hl & Hr).
  destruct (executeWorkflowStepAttempt host d st f) as [[v|e] f1]; cbn [fst snd is_ok] in *.
  - split; [done|]. exists s1, j, k. repeat split; try done; lia.
  - match goal with |- context [effect_retry n delay _ ?x] => set (f2 := x) end.
    assert (calls f2 = calls f1) as Hl2.
    { unfold calls, f2. cbn. destruct (delay <=? 0); [done|].
      apply (ob_eq _ _ (ob_pause (host := host) delay (wf_ext f1))). }
    destruct (IH f2 s1 Hs1) as (Hf' & s2 & j' & k' & Hs2 & Ha' & Hk' & Hl' & Hr').
    split; [by eapply step_frame_trans|].
    exists s2, (j + j')%nat, (k + k')%nat. split; [done|]. split; [lia|]. split; [lia|].
    split; [|intros Ho; destruct (decide (sr_status s1 = sr_status s)) as [E|E]; [rewrite <- E in Ho; specialize (Hr' Ho); lia|];
             specialize (Hr (or_intror E)); lia].
    by rewrite Hl', Hl2, Hl, <- (assoc_L (++)), <- replicate_add.
Qed.

Lemma change_step_bind {A} name g (k : M F A) f :
  (change_step name g ;; k) f =
  k (MkWF (with_steps (update_first name g (wr_steps (wf_run f))) (wf_run f)) (wf_ext f)).
Proof. done. Qed.

Lemma stepped_quiet name st s n b f f1 f2 :
  core (wf_run f2) = core (wf_run f1) → calls f2 = calls f1 →
  stepped name st s n b f f1 → stepped name st s n b f f2.
Proof.
  intros Hc Hl (Hf & s' & j & k & Hs' & Ha & Hk & Hl' & Hr).
  split; [eapply step_frame_trans; [exact Hf|by apply core_frame]|].
  exists s', j, k. by rewrite (core_find _ _ _ Hc), Hl.
Qed.

Lemma stepped_weaken name st s n b f f' : stepped name st s n true f f' → stepped name st s n b f f'.
Proof.
  intros (Hf & s' & j & k & Hs' & Ha & Hk & Hl & Hr). split; [done|].
  exists s', j, k. auto 8.
Qed.

Lemma quiet_seq_spec {A B} (m : M F A) (k : A → M F B) f :
  quiet m →
  (∃ e f1, (m ≫= k) f = (Throw e, f1) ∧ core (wf_run f1) = core (wf_run f) ∧ calls f1 = calls f) ∨
  (∃ a f1, (m ≫= k) f = k a f1 ∧ core (wf_run f1) = core (wf_run f) ∧ calls f1 = calls f).
Proof.
  intros Hm. unfold mbind, M_bind. destruct (Hm f) as [Hc Hl].
  destruct (m f) as [[a|e] f1]; cbn in Hc, Hl; [right|left]; eauto.
Qed.

(** A step's attempts and its completion. *)
Lemma try_step_spec delay d st f s :
  d ∈ defs → find_step (wd_name d) (wf_run f) = Some s →
  ∃ r f', try_step host delay d st f = (Ok r, f') ∧
    stepped (wd_name d) st s (S (retries_of d)) (is_ok r) f f' ∧
    ∀ v, r = Ok v → ∃ s', find_step (wd_name d) (wf_run f') = Some s' ∧
                          sr_status s' = step_completed ∧ sr_result s' = v.
Proof.
  intros Hd Hs. pose proof (retry_spec (retries_of d) delay d st Hd f s Hs) as Hr.
  unfold try_step. set (name := wd_name d) in *. unfold try_catch, either, mbind at 1, M_bind at 1.
  destruct (effect_retry _ _ _ f) as [[v|e] f1]; cbn [fst snd is_ok] in Hr |- *.
  2:{ exists (Throw e), f1. by split. }
  set (m := mbind _ _). 
  assert (stepped name st s (S (retries_of d)) true f (m f1).2 ∧
    ((∃ e, (m f1).1 = Throw e) ∨
     ((m f1).1 = Ok (Ok v) ∧ ∃ s', find_step name (wf_run (m f1).2) = Some s' ∧
        sr_status s' = step_completed ∧ sr_result s' = v))) as [Hm Ho].
  { destruct (quiet_seq_spec (outside (wh_now host))
      (λ t, change_step name (completed v t) ;; persist host ;; traceWorkflowStepCompleted host name ;; mret (Ok v)) f1
      (silent_quiet _ silent_now)) as [(e & f2 & E & Hc & Hl)|(t & f2 & E & Hc & Hl)];
      fold m in E; rewrite E; cbn [fst snd].
    { split; [|by left; exists e]. by eapply stepped_quiet. }
    destruct Hr as (Hf & s1 & j & k & Hs1 & Ha & Hk & Hl1 & Hb).
    rewrite <- (core_find _ _ _ Hc) in Hs1.
    set (f3 := MkWF (with_steps (update_first name (completed v t) (wr_steps (wf_run f2))) (wf_run f2)) (wf_ext f2)).
    assert (find_step name (wf_run f3) = Some (completed v t s1)) as Hs3 by by apply find_update_same.
    assert (∀ f', core (wf_run f') = core (wf_run f3) → calls f' = calls f3 →
      stepped name st s (S (retries_of d)) true f f') as Hgo.
    { intros f' Hc' Hl'. eapply stepped_quiet; [done..|]. split.
      - eapply step_frame_trans; [exact Hf|]. eapply step_frame_trans; [by apply core_frame|].
        by apply frame_update.
      - exists (completed v t s1), j, k. split; [done|]. split; [done|]. split; [done|].
        split; [|auto]. unfold f3. unfold calls in *. cbn. congruence. }
    assert (quiet (persist host ;; traceWorkflowStepCompleted host name)) as Hq.
    { apply quiet_seq; [apply quiet_persist|]. intros []. apply silent_quiet, silent_bind; [done|].
      intros s'. apply silent_trace. }
    destruct (Hq f3) as [Hc4 Hl4]. unfold mbind, M_bind in Hc4, Hl4.
    unfold change_step, change, modify, mbind, M_bind. fold f3.
    destruct (persist host f3) as [[[]|e] f4]; cbn [fst snd] in *.
    2:{ split; [by apply Hgo|]. left. by exists e. }
    destruct (traceWorkflowStepCompleted host name f4) as [[[]|e] f5]; cbn [fst snd mret M_ret] in *.
    2:{ split; [by apply Hgo|]. left. by exists e. }
    split; [by apply Hgo|]. right. split; [done|]. rewrite (core_find _ _ _ Hc4). by exists (completed v t s1). }
  destruct (m f1) as [[r|e] f2]; cbn [fst snd] in *.
  - destruct Ho as [[e ?]|[[=->] Ho]]; [done|]. exists (Ok v), f2. split; [done|].
    split; [exact Hm|]. intros ? [=<-]. exact Ho.
  - exists (Throw (normaliseRuntimeError e)), f2. split; [done|]. split; [by apply stepped_weaken|]. done.
Qed.

(** The rest of the steps, whatever the status of the run. *)
Definition others (name : string) (r r' : WorkflowRun) : Prop :=
  wr_input r' = wr_input r ∧ ∀ n, n ≠ name → find_step n r' = find_step n r.

Lemma frame_others name r r' : step_frame name r r' → others name r r' ∧ wr_status r' = wr_status r.
Proof.
  intros [E Hf]. pose proof (f_equal wr_input E). pose proof (f_equal wr_status E). by repeat split.
Qed.

Lemma core_others name r r' : core r' = core r → others name r r' ∧ wr_status r' = wr_status r.
Proof. intros. by apply frame_others, core_frame. Qed.

Lemma others_trans name r1 r2 r3 : others name r1 r2 → others name r2 r3 → others name r1 r3.
Proof. intros [E1 F1] [E2 F2]. split; [congruence|]. intros n Hn. by rewrite (F2 n Hn), (F1 n Hn). Qed.

(** The step [s'] carries the failure [e]. *)
Definition failed_with (e : JsError) (s' : WorkflowStepRun) : Prop :=
  sr_status s' = step_failed ∧ sr_error s' = Some (error_code e, err_message e).

Lemma silent_failure_reports name e :
  silent (traceWorkflowStepFailed host name e ;; writeWorkflowErrorLog host name e).
Proof.
  apply silent_bind.
  { apply silent_bind; [done|]. intros s. apply silent_bind; [apply silent_trace|]. intros _.
    apply silent_bind; [apply silent_trace|]. intros _. apply silent_trace. }
  intros _. apply silent_bind; [done|]. intros s. apply silent_bind; [apply silent_now|]. intros t.
  apply silent_bind; [done|]. intros f. apply silent_log.
Qed.

Lemma fail_step_spec name e f s :
  find_step name (wf_run f) = Some s →
  ∃ o f' s', fail_step host name e f = (o, f') ∧
    others name (wf_run f) (wf_run f') ∧ calls f' = calls f ∧
    find_step name (wf_run f') = Some s' ∧ sr_attempts s' = sr_attempts s ∧
    (sr_status s' = step_completed → sr_status s = step_completed) ∧
    (o = Ok tt → wr_status (wf_run f') = ws_failed ∧ failed_with e s' ∧ saved f' = Some (wf_run f')).
Proof.
  intros Hs.
  destruct (quiet_seq_spec (outside (wh_now host))
      (λ t, change_step name (failed e t) ;; change (with_status ws_failed) ;; persist host ;;
            traceWorkflowStepFailed host name e ;; writeWorkflowErrorLog host name e) f
      (silent_quiet _ silent_now)) as [(e' & f1 & E & Hc & Hl)|(t & f1 & E & Hc & Hl)];
    unfold fail_step; rewrite E; rewrite <- (core_find _ _ _ Hc) in Hs;
    pose proof (proj1 (core_others name _ _ Hc)) as Ho1.
  { exists (Throw e'), f1, s. by repeat split; try apply Ho1. }
  set (f2 := MkWF (with_status ws_failed
    (with_steps (update_first name (failed e t) (wr_steps (wf_run f1))) (wf_run f1))) (wf_ext f1)).
  assert (find_step name (wf_run f2) = Some (failed e t s)) as Hs2 by by apply find_update_same.
  assert (others name (wf_run f) (wf_run f2)) as Ho2.
  { eapply others_trans; [exact Ho1|]. split; [done|]. by apply (frame_update name (failed e t) (wf_run f1)). }
  assert (∀ f', core (wf_run f') = core (wf_run f2) → others name (wf_run f) (wf_run f') ∧
    find_step name (wf_run f') = Some (failed e t s) ∧ wr_status (wf_run f') = ws_failed) as Hgo.
  { intros f' Hc'. destruct (core_others name _ _ Hc') as [Ho' Hst].
    split; [by eapply others_trans|]. by rewrite (core_find _ _ _ Hc'). }
  clear E. unfold change_step, change, modify, mbind, M_bind. cbn [wf_run wf_ext]. fold f2.
  pose proof (persist_spec f2) as Hp. pose proof (silent_failure_reports name e) as Hq.
  destruct (persist host f2) as [[[]|e'] f3]; destruct Hp as (Hc3 & Hl3 & Hsv);
    destruct (Hgo _ Hc3) as (Ho3 & Hs3 & Hst3).
  2:{ exists (Throw e'), f3, (failed e t s). split; [done|]. split; [done|]. split; [by rewrite Hl3|].
      split; [done|]. by repeat split. }
  specialize (Hq f3). unfold mbind, M_bind in Hq.
  destruct (match traceWorkflowStepFailed host name e f3 with
            | (Ok _, s') => writeWorkflowErrorLog host name e s' | (Throw e, s') => (Throw e, s') end)
    as [o f4]. cbn [fst snd] in Hq. destruct Hq as (Hr4 & Hl4 & Hsv4).
  exists o, f4, (failed e t s). rewrite Hr4, Hl4, Hsv4, Hl3. split; [done|]. split; [done|].
  split; [exact Hl|]. split; [done|]. split; [done|]. split; [done|]. intros _. by rewrite (Hsv eq_refl).
Qed.

(** ** The loop over the steps *)

(** How often the handlers ran between the runs [r] and [r']: at most once more than the
    retries, not at all for a step already completed, and at least once for a step that
    has become completed. *)
Inductive call_bounds (r r' : WorkflowRun) : list (WorkflowStepDefinition W Ctx) → list nat → Prop :=
| cb_stop ds : call_bounds r r' ds []
| cb_step d ds k ks :
    (k ≤ S (retries_of d))%nat →
    (step_done r (wd_name d) → k = 0%nat) →
    (step_done r' (wd_name d) → step_done r (wd_name d) ∨ (1 ≤ k)%nat) →
    call_bounds r r' ds ks → call_bounds r r' (d :: ds) (k :: ks).

Record head_post (pre : list (WorkflowStepDefinition W Ctx)) (d : WorkflowStepDefinition W Ctx) f f' (k : nat) : Prop := {
  hp_others : others (wd_name d) (wf_run f) (wf_run f');
  hp_done s : find_step (wd_name d) (wf_run f) = Some s → sr_status s = step_completed →
    find_step (wd_name d) (wf_run f') = Some s;
  hp_attempts : attempts_of (wf_run f) (wd_name d) ≤ attempts_of (wf_run f') (wd_name d)
    ≤ attempts_of (wf_run f) (wd_name d) + Z.of_nat (S (retries_of d));
  hp_calls : calls f' = calls f ++ replicate k (wd_name d, view_of (wf_run f) pre);
  hp_bound : (k ≤ S (retries_of d))%nat;
  hp_again : step_done (wf_run f) (wd_name d) → k = 0%nat;
  hp_ran : step_done (wf_run f') (wd_name d) → step_done (wf_run f) (wd_name d) ∨ (1 ≤ k)%nat;
}.

(** The run ended failed at one of the steps: those before it are completed, those
    after it untouched, and the failed run was saved. *)
Definition failed_at (rest : list (WorkflowStepDefinition W Ctx)) (r : WorkflowRun) f' : Prop :=
  wr_status (wf_run f') = ws_failed ∧ saved f' = Some (wf_run f') ∧
  ∃ before d after e s, rest = before ++ d :: after ∧
    (∀ x, x ∈ before → step_done (wf_run f') (wd_name x)) ∧
    find_step (wd_name d) (wf_run f') = Some s ∧ failed_with e s ∧
    (∀ x, x ∈ after → find_step (wd_name x) (wf_run f') = find_step (wd_name x) r).

Record steps_post (pre rest : list (WorkflowStepDefinition W Ctx)) f (o : outcome bool) f' : Prop := {
  sp_input : wr_input (wf_run f') = wr_input (wf_run f);
  sp_others n : n ∉ wd_name <$> rest → find_step n (wf_run f') = find_step n (wf_run f);
  sp_done n s : find_step n (wf_run f) = Some s → sr_status s = step_completed →
    find_step n (wf_run f') = Some s;
  sp_attempts d : d ∈ rest → attempts_of (wf_run f) (wd_name d) ≤ attempts_of (wf_run f') (wd_name d)
    ≤ attempts_of (wf_run f) (wd_name d) + Z.of_nat (S (retries_of d));
  sp_calls : ∃ ks, call_bounds (wf_run f) (wf_run f') rest ks ∧
    calls f' = calls f ++ expected_calls (wf_run f') pre rest ks ∧
    (o = Ok true → length ks = length rest);
  sp_completed : o = Ok true →
    wr_status (wf_run f') = wr_status (wf_run f) ∧ ∀ d, d ∈ rest → step_done (wf_run f') (wd_name d);
  sp_failed : o = Ok false → failed_at rest (wf_run f) f';
}.

Lemma call_bounds_ext r1 r2 r' ds ks :
  (∀ d, d ∈ ds → find_step (wd_name d) r1 = find_step (wd_name d) r2) →
  call_bounds r1 r' ds ks → call_bounds r2 r' ds ks.
Proof.
  intros Hd Hb. induction Hb as [|d ds k ks Hk H0 H1 Hb IH]; constructor.
  - done.
  - unfold step_done in *. rewrite <- Hd by left. done.
  - unfold step_done in *. rewrite <- (Hd d) by left. done.
  - apply IH. intros d' Hd'. apply Hd. by right.
Qed.

Lemma view_of_ext r r' (pre : list (WorkflowStepDefinition W Ctx)) :
  wr_input r' = wr_input r → (∀ d, d ∈ pre → find_step (wd_name d) r' = find_step (wd_name d) r) →
  view_of r' pre = view_of r pre.
Proof.
  intros Hi Hf. unfold view_of. f_equal; [done|]. apply list_fmap_ext.
  intros i d Hd%list_elem_of_lookup_2. unfold result_of. by rewrite Hf.
Qed.

Lemma not_in_names (pre rest : list (WorkflowStepDefinition W Ctx)) d x :
  NoDup (wd_name <$> (pre ++ d :: rest)) → x ∈ pre ∨ x ∈ rest → wd_name x ≠ wd_name d.
Proof.
  rewrite fmap_app, fmap_cons. intros (H1 & H2 & [H3 H4]%NoDup_cons)%NoDup_app [Hx|Hx] E.
  - apply (H2 (wd_name x)); [by apply list_elem_of_fmap_2|rewrite E; left].
  - apply H3. rewrite <- E. by apply list_elem_of_fmap_2.
Qed.

Lemma expected_calls_stop r (pre ds : list (WorkflowStepDefinition W Ctx)) :
  expected_calls r pre ds [] = [].
Proof. by destruct ds. Qed.

Lemma steps_post_stop pre d rest f o f' k :
  NoDup (wd_name <$> (pre ++ d :: rest)) →
  head_post pre d f f' k → o ≠ Ok true → (o = Ok false → failed_at (d :: rest) (wf_run f) f') →
  steps_post pre (d :: rest) f o f'.
Proof.
  intros Hnd [[Hi Ho] Hd Ha Hc Hb H0 H1] Hne Hfail. constructor; try done.
  - intros n Hn. apply Ho. intros ->. apply Hn. left.
  - intros n s Hs Hst. destruct (decide (n = wd_name d)) as [->|Hn]; [by apply Hd|]. by rewrite Ho.
  - intros x [->|Hx]%elem_of_cons; [done|].
    unfold attempts_of. rewrite Ho by (eapply not_in_names; eauto). lia.
  - exists [k]. split; [by constructor; [..|apply cb_stop]|]. split; [|done].
    cbn [expected_calls]. rewrite expected_calls_stop, app_nil_r, (view_of_ext (wf_run f)); [done..|].
    intros x Hx. apply Ho. eapply not_in_names; eauto.
Qed.

Lemma steps_post_cons pre d rest f f1 o f' k :
  NoDup (wd_name <$> (pre ++ d :: rest)) →
  head_post pre d f f1 k → wr_status (wf_run f1) = wr_status (wf_run f) →
  step_done (wf_run f1) (wd_name d) →
  steps_post (pre ++ [d]) rest f1 o f' →
  steps_post pre (d :: rest) f o f'.
Proof.
  intros Hnd [[Hi Ho] Hd Ha Hc Hb H0 H1] Hst (s1 & Hs1 & Hc1) [Ti To Td Ta Tc Tt Tf].
  assert (wd_name d ∉ wd_name <$> rest) as Hdr.
  { intros (x & E & Hx)%list_elem_of_fmap. symmetry in E. revert E. eapply not_in_names; eauto. }
  assert (∀ x, x ∈ rest → find_step (wd_name x) (wf_run f1) = find_step (wd_name x) (wf_run f)) as Hrest.
  { intros x Hx. apply Ho. eapply not_in_names; eauto. }
  assert (find_step (wd_name d) (wf_run f') = Some s1) as Hs' by by apply Td.
  constructor.
  - congruence.
  - intros n Hn. rewrite To by (intros Hx; apply Hn; by right). apply Ho. intros ->. apply Hn. left.
  - intros n s Hs Hcs. apply Td; [|done].
    destruct (decide (n = wd_name d)) as [->|Hn]; [by apply Hd|]. by rewrite Ho.
  - intros x [->|Hx]%elem_of_cons.
    + unfold attempts_of in *. rewrite Hs'. rewrite Hs1 in Ha. done.
    + specialize (Ta x Hx). unfold attempts_of in *. by rewrite Hrest in Ta.
  - destruct Tc as (ks & Hks & Hcs & Hlen). exists (k :: ks). split; [|split].
    + constructor; [done|done| |by eapply call_bounds_ext].
      intros _. apply H1. by exists s1.
    + rewrite Hcs, Hc, <- (assoc_L (++)). cbn [expected_calls]. f_equal. f_equal. f_equal. f_equal.
      symmetry. apply view_of_ext; [congruence|]. intros x Hx.
      assert (wd_name x ≠ wd_name d) as Hn by (eapply not_in_names; eauto).
      rewrite To, Ho; [done|done|]. intros (y & E & Hy)%list_elem_of_fmap.
      rewrite fmap_app in Hnd. apply NoDup_app in Hnd as (_ & Hnd & _).
      apply (Hnd (wd_name x)); [by apply list_elem_of_fmap_2|]. rewrite E. right. by apply list_elem_of_fmap_2.
    + intros E. cbn. by rewrite (Hlen E).
  - intros E. destruct (Tt E) as [Hst' Hall]. split; [congruence|].
    intros x [->|Hx]%elem_of_cons; [by exists s1|auto].
  - intros E. destruct (Tf E) as (Hf1 & Hf2 & before & d' & after & e & s & -> & Hbf & Hs & Hw & Haft).
    split; [done|]. split; [done|]. exists (d :: before), d', after, e, s. split; [done|].
    split; [intros x [->|Hx]%elem_of_cons; [by exists s1|auto]|].
    split; [done|]. split; [done|]. intros x Hx. rewrite Haft by done. apply Hrest.
    apply elem_of_app. right. by right.
Qed.

Lemma head_ran pre d f f' s s' (j k : nat) :
  default (new_step (wd_name d)) (find_step (wd_name d) (wf_run f)) = s → sr_status s ≠ step_completed →
  others (wd_name d) (wf_run f) (wf_run f') →
  find_step (wd_name d) (wf_run f') = Some s' → sr_attempts s' = sr_attempts s + Z.of_nat j →
  (k ≤ j ≤ S (retries_of d))%nat → (sr_status s' = step_completed → (1 ≤ k)%nat) →
  calls f' = calls f ++ replicate k (wd_name d, view_of (wf_run f) pre) →
  head_post pre d f f' k.
Proof.
  intros Es Hs Ho Hs' Ha Hk Hc Hl. constructor; [done| | |done|lia| | ].
  - intros s0 Hs0 Hst. rewrite Hs0 in Es. cbn in Es. congruence.
  - unfold attempts_of. rewrite Hs'. cbn.
    destruct (find_step _ (wf_run f)); cbn in Es |- *; subst s; [lia|cbn in Ha; lia].
  - intros (s0 & Hs0 & Hst). rewrite Hs0 in Es. cbn in Es. congruence.
  - intros (s0 & Hs0 & Hst). right. apply Hc. congruence.
Qed.

Lemma assoc_set_fresh {V} k (v : V) l : k ∉ l.*1 → assoc_set k v l = l ++ [(k, v)].
Proof.
  induction l as [|[k0 v0] l IH]; cbn; intros Hk; [done|].
  destruct (String.eqb_spec k k0) as [->|]; [destruct Hk; left|].
  rewrite IH; [done|]. intros ?. apply Hk. by right.
Qed.

Lemma set_result_view r r' (pre : list (WorkflowStepDefinition W Ctx)) d s :
  wd_name d ∉ wd_name <$> pre → wr_input r' = wr_input r →
  (∀ x, x ∈ pre → find_step (wd_name x) r' = find_step (wd_name x) r) →
  find_step (wd_name d) r' = Some s →
  set_result (sr_name s) (sr_result s) (view_of r pre) = view_of r' (pre ++ [d]).
Proof.
  intros Hd Hi Hf Hs. unfold set_result. cbn [st_input st_steps view_of].
  rewrite (find_step_name _ _ _ Hs), assoc_set_fresh.
  - pose proof (view_of_ext _ _ pre Hi Hf) as [= _ Hv]. unfold view_of. rewrite fmap_app, Hi, Hv.
    cbn. unfold result_of at 3. by rewrite Hs.
  - by rewrite <- list_fmap_compose.
Qed.

Lemma others_ensure name r : others name r (ensureStepRun name r) ∧
  find_step name (ensureStepRun name r) = Some (default (new_step name) (find_step name r)) ∧
  wr_status (ensureStepRun name r) = wr_status r.
Proof.
  split; [split|split].
  - unfold ensureStepRun. by destruct (find_step name r).
  - intros n Hn. rewrite find_step_ensure. by destruct (String.eqb_spec n name).
  - by rewrite find_step_ensure, String.eqb_refl.
  - unfold ensureStepRun. by destruct (find_step name r).
Qed.

(** What happens before the first attempt: the step is marked running. *)
Definition begin_step (name : string) (s : WorkflowStepRun) : M F unit :=
  t ← outside (wh_now host);
  change_step name (started t) ;;
  persist host ;;
  trace host (λ r, TraceStepStarted (wr_runId r) (wr_workflow r) name (sr_attempts s + 1)).

Lemma begin_step_spec name s f :
  find_step name (wf_run f) = Some s → sr_status s ≠ step_completed →
  let f' := (begin_step name s f).2 in
  others name (wf_run f) (wf_run f') ∧ wr_status (wf_run f') = wr_status (wf_run f) ∧
  calls f' = calls f ∧
  ∃ s', find_step name (wf_run f') = Some s' ∧ sr_attempts s' = sr_attempts s ∧
        sr_status s' ≠ step_completed.
Proof.
  intros Hs Hst.
  destruct (quiet_seq_spec (outside (wh_now host)) (λ t, change_step name (started t) ;; persist host ;;
      trace host (λ r, TraceStepStarted (wr_runId r) (wr_workflow r) name (sr_attempts s + 1))) f
      (silent_quiet _ silent_now)) as [(e & f1 & E & Hc & Hl)|(t & f1 & E & Hc & Hl)];
    unfold begin_step; rewrite E; cbn [snd]; destruct (core_others name _ _ Hc) as [Ho1 Hst1];
    rewrite <- (core_find _ _ _ Hc) in Hs.
  { split; [done|]. split; [done|]. split; [done|]. by exists s. }
  clear E.
  set (f2 := MkWF (with_steps (update_first name (started t) (wr_steps (wf_run f1))) (wf_run f1)) (wf_ext f1)).
  assert (find_step name (wf_run f2) = Some (started t s)) as Hs2 by by apply find_update_same.
  destruct (frame_others _ _ _ (frame_update name (started t) (wf_run f1) (λ s, eq_refl))) as [Ho2 Hst2].
  assert (quiet (persist host ;;
      trace host (λ r, TraceStepStarted (wr_runId r) (wr_workflow r) name (sr_attempts s + 1)))) as Hq.
  { apply quiet_seq; [apply quiet_persist|]. intros []. apply silent_quiet, silent_trace. }
  destruct (Hq f2) as [Hc3 Hl3]. rewrite change_step_bind. fold f2. destruct (core_others name _ _ Hc3) as [Ho3 Hst3].
  split; [eapply others_trans; [exact Ho1|]; eapply others_trans; [exact Ho2|exact Ho3]|].
  split; [rewrite Hst3; exact (eq_trans Hst2 Hst1)|].
  split; [rewrite Hl3; exact Hl|]. rewrite (core_find _ _ _ Hc3). by exists (started t s).
Qed.

Lemma run_steps_eq delay d rest st f :
  run_steps host delay (d :: rest) st f =
  let f1 := MkWF (ensureStepRun (wd_name d) (wf_run f)) (wf_ext f) in
  let s := default (new_step (wd_name d)) (find_step (wd_name d) (wf_run f1)) in
  if bool_decide (sr_status s = step_completed)
  then run_steps host delay rest (set_result (sr_name s) (sr_result s) st) f1
  else (begin_step (wd_name d) s ;;
        result ← try_step host delay d st;
        match result with
        | Throw e => fail_step host (wd_name d) e ;; mret false
        | Ok value => run_steps host delay rest (set_result (sr_name s) value st)
        end) f1.
Proof.
  cbn zeta. cbn [run_steps].
  unfold change, modify, the_step, gets. unfold mbind at 1 2, M_bind at 1 2.
  cbn [wf_run wf_ext]. case_bool_decide; [done|].
  unfold begin_step. unfold mbind, M_bind. destruct (outside _ _) as [[t|e] f2]; [|done].
  destruct (change_step _ _ _) as [[[]|e] f3]; [|done].
  destruct (persist _ _) as [[[]|e] f4]; [|done]. done.
Qed.

Definition steps_result pre rest f (p : outcome bool * F) : Prop := steps_post pre rest f p.1 p.2.

Lemma run_steps_spec delay rest : ∀ pre f,
  NoDup (wd_name <$> (pre ++ rest)) → (∀ d, d ∈ rest → d ∈ defs) →
  steps_result pre rest f (run_steps host delay rest (view_of (wf_run f) pre) f).
Proof.
  induction rest as [|d rest IH]; intros pre f Hnd Hdefs.
  { constructor; try done.
    - by intros x ?%elem_of_nil.
    - exists []. split; [constructor|]. by rewrite expected_calls_stop, app_nil_r.
    - intros _. split; [done|]. by intros x ?%elem_of_nil. }
  assert ((wd_name d ∉ wd_name <$> pre) ∧ ∀ x, x ∈ pre → wd_name x ≠ wd_name d) as [Hdp Hpre].
  { split; [|intros; eapply not_in_names; eauto].
    intros (x & E & Hx)%list_elem_of_fmap. symmetry in E. revert E. eapply not_in_names; eauto. }
  assert (d ∈ defs) as Hdd by (apply Hdefs; left).
  specialize (IH (pre ++ [d])). rewrite <- (assoc_L (++)) in IH.
  assert (∀ f, steps_result (pre ++ [d]) rest f
    (run_steps host delay rest (view_of (wf_run f) (pre ++ [d])) f)) as IH'.
  { intros f0. apply (IH f0 Hnd). intros x Hx. apply Hdefs. by right. }
  clear IH. rewrite run_steps_eq. cbn zeta.
  set (f1 := MkWF _ _). destruct (others_ensure (wd_name d) (wf_run f)) as (Ho1 & Hs1 & Hst1).
  set (s := default _ (find_step (wd_name d) (wf_run f))) in Hs1.
  change (ensureStepRun (wd_name d) (wf_run f)) with (wf_run f1) in Ho1, Hs1, Hst1.
  rewrite Hs1. change (default (new_step (wd_name d)) (Some s)) with s.
  assert (∀ f2 s2, others (wd_name d) (wf_run f1) (wf_run f2) → find_step (wd_name d) (wf_run f2) = Some s2 →
    set_result (sr_name s) (sr_result s2) (view_of (wf_run f) pre) = view_of (wf_run f2) (pre ++ [d])) as Hview.
  { intros f2 s2 Ho2 Hs2. pose proof (others_trans _ _ _ _ Ho1 Ho2) as [Hi Ho].
    replace (sr_name s) with (sr_name s2)
      by (rewrite (find_step_name _ _ _ Hs1); apply (find_step_name _ _ _ Hs2)).
    apply set_result_view; auto. }
  case_bool_decide as Hdone.
  { rewrite (Hview f1 s (conj eq_refl (λ _ _, eq_refl)) Hs1).
    eapply (steps_post_cons pre d rest f f1 _ _ 0%nat); [done| |done|by exists s|apply IH'].
    assert (find_step (wd_name d) (wf_run f) = Some s) as Hs.
    { unfold s in *. destruct (find_step (wd_name d) (wf_run f)); [done|]. done. }
    constructor; try done; try lia.
    - intros s0 Hs0 _. congruence.
    - unfold attempts_of. rewrite Hs, Hs1. lia.
    - by rewrite app_nil_r.
    - intros _. left. by exists s. }
  pose proof (begin_step_spec (wd_name d) s f1 Hs1 Hdone) as (Ho2 & Hst2 & Hl2 & s2 & Hs2 & Ha2 & Hr2).
  pose proof (others_trans _ _ _ _ Ho1 Ho2) as Ho2'.
  unfold mbind at 1, M_bind at 1.
  destruct (begin_step (wd_name d) s f1) as [[[]|e] f2]; cbn [fst snd] in Ho2, Hst2, Hl2, Hs2, Ho2' |- *.
  2:{ apply (steps_post_stop pre d rest f (Throw e) f2 0%nat); [done| |done|done].
      apply (head_ran pre d f f2 s s2 0%nat 0%nat); [done..|lia|lia| |]; [congruence|].
      rewrite Hl2. by rewrite app_nil_r. }
  destruct (try_step_spec delay d (view_of (wf_run f) pre) f2 s2 Hdd Hs2)
    as (r & f3 & Et & (Hf3 & s3 & j & k & Hs3 & Ha3 & Hk & Hl3 & Hr3) & Hok).
  destruct (frame_others _ _ _ Hf3) as [Ho3 Hst3].
  pose proof (others_trans _ _ _ _ Ho2' Ho3) as Ho3'.
  assert (calls f3 = calls f ++ replicate k (wd_name d, view_of (wf_run f) pre)) as Hl3'.
  { rewrite Hl3, Hl2. done. }
  assert (sr_status s3 = step_completed → (1 ≤ k)%nat) as Hran by (intros; apply Hr3; right; congruence).
  unfold mbind at 1, M_bind at 1. rewrite Et.
  destruct r as [v|e].
  - destruct (Hok v eq_refl) as (s3' & Hs3' & Hc3 & Hv). rewrite Hs3 in Hs3'. injection Hs3' as <-.
    rewrite <- Hv, (Hview f3 s3 (others_trans _ _ _ _ Ho2 Ho3) Hs3).
    eapply (steps_post_cons pre d rest f f3 _ _ k); [done| |congruence|by exists s3|apply IH'].
    apply (head_ran pre d f f3 s s3 j k); try done. lia.
  - destruct (fail_step_spec (wd_name d) e f3 s3 Hs3)
      as (o & f4 & s4 & Ef & Ho4 & Hl4 & Hs4 & Ha4 & Hc4 & Hok4).
    unfold mbind, M_bind. rewrite Ef.
    assert (head_post pre d f f4 k) as Hh.
    { apply (head_ran pre d f f4 s s4 j k); try done; [by eapply others_trans|lia|auto|by rewrite Hl4]. }
    destruct o as [[]|e']; cbn [fst snd mret M_ret].
    2:{ by apply (steps_post_stop pre d rest f (Throw e') f4 k). }
    destruct (Hok4 eq_refl) as (Hst4 & Hw4 & Hsv4).
    apply (steps_post_stop pre d rest f (Ok false) f4 k); [done|done|done|].
    intros _. split; [done|]. split; [done|]. exists [], d, rest, e, s4.
    split; [done|]. split; [by intros x ?%elem_of_nil|]. split; [done|]. split; [done|].
    intros x Hx. apply (others_trans _ _ _ _ Ho3' Ho4). eapply not_in_names; eauto.
Qed.
End Runs.

#[export] Hint Resolve silent_quiet silent_ret silent_bind silent_gets silent_get_state silent_now
  silent_log silent_normalised silent_context silent_trace silent_the_step quiet_seq
  quiet_normalised quiet_persist : js.
