(* ===== verification/WorkflowProps.v ===== *)
(** * Runtime: properties of durable workflow runs

    [executeWorkflowRun] from any run, fresh or left over by an execution that stopped
    midway; and the summary of a run. *)

From stdpp Require Import base list strings pretty.
From Stdlib Require Import ZArith Lia.
From S2P Require Import Prelude JsString JsValue DatabaseCommit Workflow WorkflowRuns.

Section Execution.
Context {W Ctx : Type} `{EffectLibrary W} (host : WorkflowHost W Ctx)
  (defs : list (WorkflowStepDefinition W Ctx)) `{!Observed host defs}.
Notation F := (WFrame W).
Implicit Types f : F.
Notation calls := (calls host defs).
Notation saved := (saved host defs).

Definition prologue : M F unit :=
  change (with_status ws_running) ;;
  persist host ;;
  trace host (λ r, TraceStart (wr_runId r) (wr_workflow r) (wr_createdAt r) (wr_input r)).

Definition epilogue : M F unit :=
  change (with_status ws_completed) ;;
  persist host ;;
  trace host (λ r, TraceWorkflowCompleted (wr_runId r) (wr_workflow r) (Z.of_nat (length (wr_steps r)))) ;;
  trace host (λ r, TraceComplete (wr_runId r) ws_completed).

Lemma change_bind {A} g (k : M F A) f : (change g ;; k) f = k (MkWF (g (wf_run f)) (wf_ext f)).
Proof. done. Qed.

Lemma core_with_status name r r' status :
  core r' = core (with_status status r) →
  others name r r' ∧ wr_status r' = status ∧ ∀ n, find_step n r' = find_step n r.
Proof.
  intros Hc. destruct (core_others name _ _ Hc) as [Ho Hst]. split; [done|]. split; [done|].
  intros n. by rewrite (core_find n _ _ Hc).
Qed.

Lemma prologue_spec f :
  let f' := (prologue f).2 in
  wr_status (wf_run f') = ws_running ∧ wr_input (wf_run f') = wr_input (wf_run f) ∧
  (∀ n, find_step n (wf_run f') = find_step n (wf_run f)) ∧ calls f' = calls f.
Proof.
  unfold prologue. rewrite change_bind. set (f1 := MkWF _ _).
  assert (quiet host defs (persist host ;;
    trace host (λ r, TraceStart (wr_runId r) (wr_workflow r) (wr_createdAt r) (wr_input r)))) as Hq.
  { apply quiet_seq; [apply quiet_persist|]. intros []. apply silent_quiet, silent_trace. }
  destruct (Hq f1) as [Hc Hl]. cbn zeta. rewrite Hl.
  destruct (core_with_status EmptyString _ _ _ Hc) as ([Hi _] & Hst & Hf). done.
Qed.

Lemma epilogue_spec f :
  let '(o, f') := epilogue f in
  calls f' = calls f ∧ wr_input (wf_run f') = wr_input (wf_run f) ∧
  (∀ n, find_step n (wf_run f') = find_step n (wf_run f)) ∧
  (o = Ok tt → wr_status (wf_run f') = ws_completed ∧ saved f' = Some (wf_run f')).
Proof.
  unfold epilogue. rewrite change_bind. set (f1 := MkWF _ _). pose proof (persist_spec host defs f1) as Hp.
  set (m := _ ;; trace host (λ r, TraceComplete (wr_runId r) ws_completed)).
  assert (silent host defs m) as Hq.
  { apply silent_bind; [apply silent_trace|]. intros []. apply silent_trace. }
  unfold mbind at 1, M_bind at 1. destruct (persist host f1) as [[[]|e] f2]; destruct Hp as (Hc & Hl & Hsv);
    destruct (core_with_status EmptyString _ _ _ Hc) as ([Hi _] & Hst & Hf); [|done].
  specialize (Hq f2). destruct (m f2) as [o f3]. destruct Hq as (Hr & Hl3 & Hs3).
  cbn [snd] in *. rewrite Hr, Hl3, Hs3. repeat split; auto.
Qed.

Lemma executeWorkflowRun_eq delay f :
  executeWorkflowRun host defs delay f =
  (prologue ;;
   f1 ← get_state;
   done ← run_steps host (default 50 delay) defs (view_of (wf_run f1) (@nil (WorkflowStepDefinition W Ctx)));
   (if done : bool then epilogue else mret tt) ;;
   gets wf_run) f.
Proof.
  unfold executeWorkflowRun, prologue, epilogue. unfold mbind, M_bind.
  destruct (change _ f) as [[[]|e] f1]; [|done]. destruct (persist host f1) as [[[]|e] f2]; [|done].
  by destruct (trace host _ f2) as [[[]|e] f3].
Qed.

Lemma call_bounds_later r r1 r2 (ds : list (WorkflowStepDefinition W Ctx)) ks :
  (∀ n, find_step n r2 = find_step n r1) → call_bounds r r1 ds ks → call_bounds r r2 ds ks.
Proof.
  intros Hf Hb. induction Hb as [|d ds k ks Hk H0 H1 Hb IH]; constructor; try done.
  unfold step_done at 1. by rewrite Hf.
Qed.

Lemma expected_calls_ext r1 r2 (ds : list (WorkflowStepDefinition W Ctx)) :
  wr_input r2 = wr_input r1 → (∀ n, find_step n r2 = find_step n r1) →
  ∀ pre ks, expected_calls r2 pre ds ks = expected_calls r1 pre ds ks.
Proof.
  intros Hi Hf. induction ds as [|d ds IH]; intros pre [|k ks]; cbn [expected_calls]; try done.
  by rewrite IH, (view_of_ext _ _ pre Hi (λ x _, Hf (wd_name x))).
Qed.

(** What any execution does, whether it returns or stops midway. *)
Lemma execution_spec delay f :
  NoDup (wd_name <$> defs) →
  let '(o, f') := executeWorkflowRun host defs delay f in
  (∀ n s, find_step n (wf_run f) = Some s → sr_status s = step_completed →
     find_step n (wf_run f') = Some s) ∧
  (∀ d, d ∈ defs → attempts_of (wf_run f) (wd_name d) ≤ attempts_of (wf_run f') (wd_name d)
     ≤ attempts_of (wf_run f) (wd_name d) + Z.of_nat (S (retries_of d))) ∧
  (∃ ks, call_bounds (wf_run f) (wf_run f') defs ks ∧
     calls f' = calls f ++ expected_calls (wf_run f') [] defs ks) ∧
  (∀ r', o = Ok r' → wf_run f' = r' ∧ saved f' = Some r' ∧
     ((wr_status r' = ws_completed ∧ ∀ d, d ∈ defs → step_done r' (wd_name d)) ∨
      failed_at host defs defs (wf_run f) f')).
Proof.
  intros Hnd. rewrite executeWorkflowRun_eq. unfold mbind, M_bind, get_state.
  pose proof (prologue_spec f) as (Hst1 & Hi1 & Hf1 & Hl1).
  destruct (prologue f) as [[[]|e] f1]; cbn [snd] in *.
  2:{ split; [intros n s; by rewrite Hf1|]. split; [intros d _; unfold attempts_of; rewrite Hf1; lia|].
      split; [|done]. exists []. split; [constructor|]. by rewrite expected_calls_stop, app_nil_r. }
  pose proof (run_steps_spec host defs (default 50 delay) defs [] f1 Hnd (λ _ Hd, Hd)) as Hp.
  destruct (run_steps host _ defs _ f1) as [o f2]. destruct Hp as [Hi2 _ Hd2 Ha2 (ks & Hks & Hc2 & _) Ht Hfail].
  cbn [fst snd] in *.
  assert (∀ f3, wr_input (wf_run f3) = wr_input (wf_run f2) →
    (∀ n, find_step n (wf_run f3) = find_step n (wf_run f2)) → calls f3 = calls f2 →
    (∀ n s, find_step n (wf_run f) = Some s → sr_status s = step_completed → find_step n (wf_run f3) = Some s) ∧
    (∀ d, d ∈ defs → attempts_of (wf_run f) (wd_name d) ≤ attempts_of (wf_run f3) (wd_name d)
       ≤ attempts_of (wf_run f) (wd_name d) + Z.of_nat (S (retries_of d))) ∧
    ∃ ks, call_bounds (wf_run f) (wf_run f3) defs ks ∧
      calls f3 = calls f ++ expected_calls (wf_run f3) [] defs ks) as Hgo.
  { intros f3 Hi3 Hf3 Hl3. split; [|split].
    - intros n s Hs Hst. rewrite Hf3. apply Hd2; [by rewrite Hf1|done].
    - intros d Hd. specialize (Ha2 d Hd). unfold attempts_of in *. by rewrite Hf3, <- Hf1.
    - exists ks. rewrite Hl3, Hc2, Hl1. split.
      + apply (call_bounds_ext (wf_run f1)); [by intros; rewrite Hf1|]. by eapply call_bounds_later.
      + f_equal. symmetry. by apply expected_calls_ext. }
  destruct o as [[]|e].
  - destruct (Ht eq_refl) as [_ Hall]. pose proof (epilogue_spec f2) as He.
    destruct (epilogue f2) as [o f3]. destruct He as (Hl3 & Hi3 & Hf3 & Hok).
    destruct (Hgo f3 Hi3 Hf3 Hl3) as (G1 & G2 & G3).
    destruct o as [[]|e]; [|by split_and!].
    cbn. split_and!; try done. intros r' [=<-]. destruct (Hok eq_refl) as [Hst3 Hsv3].
    split; [done|]. split; [done|]. left. split; [done|]. intros d Hd.
    unfold step_done. rewrite Hf3. by apply Hall.
  - destruct (Hgo f2 eq_refl (λ _, eq_refl) eq_refl) as (G1 & G2 & G3). cbn.
    split_and!; try done. intros r' [=<-].
    destruct (Hfail eq_refl) as (F1 & F2 & before & d & after & e & s & -> & F3 & F4 & F5 & F6).
    split; [done|]. split; [done|]. right. split; [done|]. split; [done|].
    exists before, d, after, e, s. split_and!; try done. intros x Hx. by rewrite F6, Hf1.
  - destruct (Hgo f2 eq_refl (λ _, eq_refl) eq_refl) as (G1 & G2 & G3). by split_and!.
Qed.
End Execution.

(** An execution that returns has saved the run it returns, and either every step
    of the workflow is completed and so is the run, or the run failed at one step:
    the steps before it are completed, it carries its error, and those after it are
    as they were.  What was already completed keeps its result. *)
Theorem executeWorkflowRun_outcome {W Ctx} `{EffectLibrary W} (host : WorkflowHost W Ctx)
    (defs : list (WorkflowStepDefinition W Ctx)) `{!Observed host defs} delay f r' f' :
  NoDup (wd_name <$> defs) →
  executeWorkflowRun host defs delay f = (Ok r', f') →
  wf_run f' = r' ∧ saved host defs f' = Some r' ∧
  ((wr_status r' = ws_completed ∧ ∀ d, d ∈ defs → step_done r' (wd_name d)) ∨
   failed_at host defs defs (wf_run f) f') ∧
  (∀ n s, find_step n (wf_run f) = Some s → sr_status s = step_completed → find_step n r' = Some s).
Proof.
  intros Hnd E. pose proof (execution_spec host defs delay f Hnd) as Hs. rewrite E in Hs.
  destruct Hs as (H1 & _ & _ & H2). destruct (H2 r' eq_refl) as (<- & H3 & H4). auto.
Qed.

(** C10: However an execution ends, the handlers ran in the order of the definitions, a
    step's at most once more than its retries in a row, that of an already completed
    step never, and that of a newly completed step at least once; each was passed the
    run's input and exactly the recorded results of the steps before it; and the
    recorded attempts grew by no more than the budget. *)
Theorem executeWorkflowRun_calls {W Ctx} `{EffectLibrary W} (host : WorkflowHost W Ctx)
    (defs : list (WorkflowStepDefinition W Ctx)) `{!Observed host defs} delay f :
  NoDup (wd_name <$> defs) →
  let f' := (executeWorkflowRun host defs delay f).2 in
  (∃ ks, call_bounds (wf_run f) (wf_run f') defs ks ∧
     calls host defs f' = calls host defs f ++ expected_calls (wf_run f') [] defs ks) ∧
  (∀ d, d ∈ defs → attempts_of (wf_run f) (wd_name d) ≤ attempts_of (wf_run f') (wd_name d)
     ≤ attempts_of (wf_run f) (wd_name d) + Z.of_nat (S (retries_of d))).
Proof.
  intros Hnd. pose proof (execution_spec host defs delay f Hnd) as Hs.
  destruct (executeWorkflowRun host defs delay f) as [o f']. by destruct Hs as (_ & H1 & H2 & _).
Qed.

(** ** Summaries *)

Lemma find_index_Some {A} (p : A → bool) l i :
  find_index p l = Some i →
  ∃ x, l !! i = Some x ∧ p x = true ∧ ∀ j y, (j < i)%nat → l !! j = Some y → p y = false.
Proof.
  revert i. induction l as [|x l IH]; intros i; cbn; [done|]. destruct (p x) eqn:E.
  - intros [=<-]. exists x. repeat split; try done. lia.
  - destruct (find_index p l) as [k|] eqn:Ek; [|done]. intros [=<-].
    destruct (IH k eq_refl) as (y & Hy & Hp & Hb). exists y. repeat split; try done.
    intros [|j] z Hj Hz; cbn in Hz; [by simplify_eq|]. eapply Hb; [|done]. lia.
Qed.

Lemma find_index_None {A} (p : A → bool) l : find_index p l = None ↔ Forall (λ x, p x = false) l.
Proof.
  induction l as [|x l IH]; cbn; [by split|]. rewrite Forall_cons. destruct (p x); [by split; [|intros [? _]]|].
  destruct (find_index p l); cbn.
  - split; [done|]. intros [_ HF]. by apply IH in HF.
  - split; [|done]. intros _. split; [done|]. by apply IH.
Qed.

Lemma has_status_one status s : has_status [status] s = bool_decide (sr_status s = status).
Proof. apply bool_decide_ext. apply list_elem_of_singleton. Qed.

Lemma count_status_total steps :
  (count_status step_completed steps + count_status step_failed steps +
   count_status step_running steps + count_status step_pending steps)%nat = length steps.
Proof.
  induction steps as [|s steps IH]; [done|]. revert IH. unfold count_status.
  cbn [List.filter length]. rewrite !has_status_one.
  destruct (sr_status s); repeat case_bool_decide; try done; cbn; lia.
Qed.

Lemma has_status_false statuses s : has_status statuses s = false → sr_status s ∉ statuses.
Proof. unfold has_status. by rewrite bool_decide_eq_false. Qed.

(** The progress of a run counts every step once, by status; exactly a run that is
    marked running is in flight or resumable, by whether it is active; the next step is
    the first one that is neither completed nor failed, and there is none exactly when
    all steps are. *)
Theorem summarizeWorkflowRun_exact run active :
  let p := summarizeWorkflowRun run active in
  (pr_completedSteps p + pr_failedSteps p + pr_runningSteps p + pr_pendingSteps p)%nat = pr_totalSteps p ∧
  (pr_inFlight p = true ↔ wr_status run = ws_running ∧ active = true) ∧
  (pr_resumable p = true ↔ wr_status run = ws_running ∧ active = false) ∧
  (∀ n, pr_nextStep p = Some n ↔
     ∃ i s, pr_nextStepIndex p = Some i ∧ wr_steps run !! i = Some s ∧ sr_name s = n ∧
       sr_status s ∈ [step_pending; step_running] ∧
       ∀ j s', (j < i)%nat → wr_steps run !! j = Some s' → sr_status s' ∉ [step_pending; step_running]) ∧
  (pr_nextStep p = None ↔ Forall (λ s, sr_status s ∉ [step_pending; step_running]) (wr_steps run)).
Proof.
  cbn zeta. cbn [pr_completedSteps pr_failedSteps pr_runningSteps pr_pendingSteps pr_totalSteps pr_inFlight
    pr_resumable pr_nextStep pr_nextStepIndex summarizeWorkflowRun].
  split; [apply count_status_total|].
  split; [destruct (wr_status run), active; cbn; (split; [try done|by intros [? ?]])|].
  split; [destruct (wr_status run), active; cbn; (split; [try done|by intros [? ?]])|].
  destruct (find_index _ (wr_steps run)) as [i|] eqn:E.
  - destruct (find_index_Some _ _ _ E) as (s & Hs & Hp & Hb). cbn. rewrite Hs. cbn. split.
    + intros n. split.
      * intros [=<-]. exists i, s. split; [done|]. split; [done|]. split; [done|].
        split; [by apply bool_decide_eq_true in Hp|]. intros j s' Hj Hs'. apply has_status_false. by eapply Hb.
      * intros (i' & s' & [=<-] & Hs' & <- & _). congruence.
    + split; [done|]. rewrite Forall_forall. intros Hall.
      apply bool_decide_eq_true in Hp. destruct (Hall s (list_elem_of_lookup_2 _ _ _ Hs) Hp).
  - cbn. split; [intros n; split; [done|by intros (i & s & ? & _)]|]. split; [|done]. intros _. apply find_index_None in E.
    eapply Forall_impl; [exact E|]. intros s. apply has_status_false.
Qed.

(** ** A concrete world

    A clock that ticks at every look, the invocation log and the saved run; a retry
    that follows the library's equations. *)

Record DemoWorld := { dw_clock : Z; dw_calls : list (string * WorkflowState); dw_saved : option WorkflowRun }.

Definition demo_pause (ms : Z) : M DemoWorld unit :=
  modify (λ w, {| dw_clock := dw_clock w + ms; dw_calls := dw_calls w; dw_saved := dw_saved w |}).

Fixpoint demo_retry (n : nat) (d : Z) (m : M (WFrame DemoWorld) jsval) : M (WFrame DemoWorld) jsval :=
  match n with
  | O => m
  | S n => λ f,
      match m f with
      | (Ok v, f') => (Ok v, f')
      | (Throw _, f') =>
          demo_retry n d m (MkWF (wf_run f') (if d <=? 0 then wf_ext f' else (demo_pause d (wf_ext f')).2))
      end
  end.

Definition demo_timeout (ms : Z) (e : JsError) (m : M DemoWorld jsval) : M DemoWorld jsval := λ w,
  let '(o, w') := m w in (if ms <? dw_clock w' - dw_clock w then Throw e else o, w').

#[export] Instance DemoEffects : EffectLibrary DemoWorld := {
  effect_pause := demo_pause; effect_retry := demo_retry; effect_timeoutFail := demo_timeout;
  effect_retry_none d m := eq_refl; effect_retry_once n d m f := eq_refl;
}.

Definition demo_tick : M DemoWorld Z := λ w,
  (Ok (dw_clock w), {| dw_clock := dw_clock w + 1; dw_calls := dw_calls w; dw_saved := dw_saved w |}).

Definition demo_workflow_host : WorkflowHost DemoWorld string := {|
  wh_now := demo_tick;
  wh_save r := modify (λ w, {| dw_clock := dw_clock w; dw_calls := dw_calls w; dw_saved := Some r |});
  wh_traces := Some (λ _, mret tt);
  wh_log _ := mret tt;
  wh_createContext requestId _ _ := mret requestId;
|}.

(** A handler that fails until it has been called [fails] times. *)
Definition demo_handler (name : string) (fails : nat) (value : jsval)
    (ctx : string) (st : WorkflowState) : M DemoWorld jsval := λ w,
  let n := length (List.filter (λ c, String.eqb (fst c) name) (dw_calls w)) in
  (if (n <? fails)%nat then Throw (MkError None "not yet" []) else Ok value,
   {| dw_clock := dw_clock w; dw_calls := dw_calls w ++ [(name, st)]; dw_saved := dw_saved w |}).

Definition demo_step (name : string) (fails : nat) (value : jsval) (retries : Z) :
    WorkflowStepDefinition DemoWorld string :=
  {| wd_name := name; wd_handler := demo_handler name fails value;
     wd_retries := Some retries; wd_timeoutMs := Some 1000 |}.

Definition demo_defs : list (WorkflowStepDefinition DemoWorld string) :=
  [demo_step "extract" 0 (Some (JNum (int 1))) 0; demo_step "load" 2 (Some (JStr "rows")) 2;
   demo_step "notify" 3 (Some JNull) 1; demo_step "archive" 0 (Some JNull) 0].

#[export] Instance demo_observed : Observed demo_workflow_host demo_defs.
Proof.
  refine {| ob_calls := dw_calls; ob_saved := dw_saved |}; try done.
  - by intros adapter c w [= <-].
  - by intros r w w' [= <-].
  - intros d ctx st w Hd.
    repeat (apply elem_of_cons in Hd as [->|Hd]; [done|]). by apply elem_of_nil in Hd.
  - intros ms e m w. cbn. unfold demo_timeout. by destruct (m w).
Defined.

(** The first step was completed by an earlier execution. *)
Definition demo_start : WFrame DemoWorld := Eval vm_compute in
  let r := createWorkflowRun "run_1" "sync" demo_defs (Some (JStr "input")) 100 in
  MkWF (with_steps (update_first "extract" (completed (Some (JNum (int 7))) 105) (wr_steps r)) r)
       {| dw_clock := 200; dw_calls := []; dw_saved := None |}.

Definition demo_final : WFrame DemoWorld := Eval vm_compute in
  (executeWorkflowRun demo_workflow_host demo_defs (Some 10) demo_start).2.

Lemma demo_names : NoDup (wd_name <$> demo_defs).
Proof. apply (bool_decide_unpack _). by vm_compute. Qed.

(** Here the third step exhausts its attempts. *)
Lemma executeWorkflowRun_outcome_witness :
  executeWorkflowRun demo_workflow_host demo_defs (Some 10) demo_start = (Ok (wf_run demo_final), demo_final) ∧
  wr_status (wf_run demo_final) = ws_failed ∧
  find_step "extract" (wf_run demo_final) = find_step "extract" (wf_run demo_start).
Proof.
  assert (executeWorkflowRun demo_workflow_host demo_defs (Some 10) demo_start
    = (Ok (wf_run demo_final), demo_final)) as E by by vm_compute.
  destruct (executeWorkflowRun_outcome demo_workflow_host demo_defs (Some 10) demo_start
    (wf_run demo_final) demo_final demo_names E) as (_ & _ & _ & Hk).
  split; [exact E|]. split; [by vm_compute|].
  apply (Hk "extract" {| sr_name := "extract"; sr_status := step_completed; sr_attempts := 0;
    sr_startedAt := None; sr_completedAt := Some 105; sr_result := Some (JNum (int 7)); sr_error := None |});
  by vm_compute.
Defined.

Lemma executeWorkflowRun_calls_witness :
  fst <$> dw_calls (wf_ext demo_final) = ["load"; "load"; "load"; "notify"; "notify"] ∧
  attempts_of (wf_run demo_final) "notify" <= attempts_of (wf_run demo_start) "notify" + 2.
Proof.
  destruct (executeWorkflowRun_calls demo_workflow_host demo_defs (Some 10) demo_start demo_names) as [_ Ha].
  split; [by vm_compute|].
  apply (Ha (demo_step "notify" 3 (Some JNull) 1)). right. right. left.
Defined.
