(* ===== verification/PolicyEngine.v ===== *)
(** * Registry: the package policy engine

    [mezair-registry/packages/policy-engine/src/index.ts] over the types of
    [mezair-registry/packages/shared/src/index.ts], and what it lets be installed.  Records
    hold the fields the engine reads.  [Date.parse] of arbitrary text and [toISOString] are
    parameters; scores, days and times are computed without rounding. *)

From stdpp Require Import base list strings pretty.
From Stdlib Require Import ZArith Ascii Lia.
From S2P Require Import Prelude JsString JsValue.

(** ** Data *)

Inductive RuntimeMode := mode_development | mode_ci | mode_production.
Inductive PolicyAction := allow | warn | quarantine | block.
Inductive Severity := sev_info | sev_low | sev_medium | sev_high | sev_critical.

Inductive PolicyReasonCode :=
| PACKAGE_TOO_NEW | LOW_WEEKLY_DOWNLOADS | SIMILAR_TO_POPULAR_PACKAGE | NEW_PACKAGE_LOW_DOWNLOADS
| NEW_INSTALL_SCRIPT | INSTALL_SCRIPT_CHANGED | NEW_DEPENDENCY_IN_PATCH_VERSION
| RUNTIME_DEPENDENCY_CHANGED | DEV_DEPENDENCY_CHANGED | PACKAGE_MANIFEST_CHANGED
| MANIFEST_FIELD_CHANGED | BIN_FIELD_CHANGED | OPTIONAL_DEPENDENCY_ADDED | OPTIONAL_DEPENDENCY_CHANGED
| PEER_DEPENDENCY_CHANGED | SUSPICIOUS_FILE_ADDED | UNSAFE_TARBALL_PATH | UNSAFE_TARBALL_SYMLINK
| LARGE_FILE_SIZE_DELTA | OBFUSCATED_CODE_DETECTED | UNEXPECTED_BINARY_FILE | USES_CHILD_PROCESS
| USES_PROCESS_ENV | SENSITIVE_FILE_ACCESS_IN_INSTALL_PATH | NETWORK_ACCESS_IN_INSTALL_PATH
| REPOSITORY_CHANGED | PROVENANCE_MISSING | PROVENANCE_CHANGED | PROVENANCE_SUBJECT_MISMATCH
| TRUSTED_PUBLISHING_PRESENT | ANALYSIS_REQUIRED | LLM_RISK_REVIEW_FLAGGED | APPROVED_OVERRIDE.

#[export] Instance RuntimeMode_eq_dec : EqDecision RuntimeMode.
Proof. solve_decision. Defined.
#[export] Instance PolicyAction_eq_dec : EqDecision PolicyAction.
Proof. solve_decision. Defined.
#[export] Instance Severity_eq_dec : EqDecision Severity.
Proof. solve_decision. Defined.
#[export] Instance PolicyReasonCode_eq_dec : EqDecision PolicyReasonCode.
Proof. solve_decision. Defined.

Record PolicyReason := {
  rs_code : PolicyReasonCode;
  rs_message : string;
  rs_severity : Severity;
  rs_evidence : list (string * jsval);
}.

Record PolicyDecision := {
  pd_action : PolicyAction;
  pd_score : num;
  pd_reasons : list PolicyReason;
  pd_explanation : string;
  pd_expiresAt : option string;
}.

Record Override := {
  ov_version : option string;
  ov_action : PolicyAction;
  ov_reason : string;
  ov_approvedBy : option string;
  ov_expiresAt : option string;
}.

Record ProvenancePolicy := {
  pp_enabled : bool;
  pp_highDownloadThreshold : num;
  pp_trustedPublishingScoreReduction : num;
  pp_quarantineChangedProvenance : bool;
  pp_quarantineMissingForHighDownloadPackages : bool;
}.

Record PolicyConfig := {
  pc_minimumPackageAgeDays : num;
  pc_lowDownloadThreshold : num;
  pc_strictLowDownloadThreshold : num;
  pc_blockSimilarLowDownloadPackages : bool;
  pc_blockNewInstallScripts : bool;
  pc_quarantineChangedInstallScripts : bool;
  pc_blockUnexpectedBinaries : bool;
  pc_quarantineObfuscatedCode : bool;
  pc_provenance : ProvenancePolicy;
  pc_overrides_enabled : bool;
}.

Record Provenance := { pv_present : bool; pv_source : option string; pv_attestationUrl : option string }.

Record VersionMetadata := { vm_publishedAt : option string; vm_provenance : option Provenance }.

Record SimilarPackage := {
  sp_name : string;
  sp_similarity : num;
  sp_reasons : option (list string);
  sp_suggestedPackage : option string;
}.

Record LlmRiskReview := { lr_riskLevel : Severity; lr_confidence : string; lr_summary : string }.

Record PolicyInput := {
  pi_packageName : string;
  pi_version : string;
  pi_runtimeMode : RuntimeMode;
  pi_evaluatedAt : option string;
  pi_versionMetadata : option VersionMetadata;
  pi_weeklyDownloads : option num;
  pi_packageAgeDays : option num;
  pi_analysisRequired : bool;
  pi_analysisReport : option (list PolicyReason);
  pi_llmRiskReview : option LlmRiskReview;
  pi_override : option Override;
  pi_similarPackages : list SimilarPackage;
  pi_policy : PolicyConfig;
}.

Definition severityScore (s : Severity) : Z :=
  match s with sev_info => 0 | sev_low => 10 | sev_medium => 35 | sev_high => 70 | sev_critical => 95 end.

Definition mode_string (m : RuntimeMode) : string :=
  match m with mode_development => "development" | mode_ci => "ci" | mode_production => "production" end.

(** [x !== undefined && x !== ""], with the value. *)
Definition truthy (s : option string) : option string :=
  s ≫= λ t, if String.eqb t "" then None else Some t.

Definition jstr (s : option string) : jsval := JStr <$> s.

Definition has_code (code : PolicyReasonCode) (reasons : list PolicyReason) : bool :=
  existsb (λ r, bool_decide (rs_code r = code)) reasons.

(** [typeof x === "number" && x < bound]. *)
Definition below (x : option num) (bound : num) : bool :=
  match x with Some n => num_ltb n bound | None => false end.

(** ** Reasons *)

Definition age_reason (input : PolicyInput) : list PolicyReason :=
  let min := pc_minimumPackageAgeDays (pi_policy input) in
  match pi_packageAgeDays input with
  | Some age =>
      if num_ltb age min then
        let lessThanOneDay := num_ltb age (int 1) in
        [{| rs_code := PACKAGE_TOO_NEW;
            rs_message := if lessThanOneDay then "Package version was published less than 1 day ago."
                          else "Package version is newer than the " +:+ num_to_string min +:+ " day policy window.";
            rs_severity := if lessThanOneDay then sev_critical
                           else if bool_decide (pi_runtimeMode input = mode_development) then sev_medium
                           else sev_high;
            rs_evidence := [("packageAgeDays", Some (JNum age))] |}]
      else []
  | None => []
  end.

Definition download_reason (input : PolicyInput) : list PolicyReason :=
  let policy := pi_policy input in
  if below (pi_weeklyDownloads input) (pc_lowDownloadThreshold policy) then
    [{| rs_code := LOW_WEEKLY_DOWNLOADS;
        rs_message := "Package has fewer weekly downloads than the configured threshold.";
        rs_severity := if below (pi_weeklyDownloads input) (pc_strictLowDownloadThreshold policy)
                       then sev_high else sev_medium;
        rs_evidence := [("weeklyDownloads", JNum <$> pi_weeklyDownloads input);
                        ("threshold", Some (JNum (pc_lowDownloadThreshold policy)))] |}]
  else [].

Definition similar_reason (input : PolicyInput) : list PolicyReason :=
  let policy := pi_policy input in
  match head (pi_similarPackages input) with
  | Some best =>
      if num_leb (NFin 82 2) (sp_similarity best) then
        let lowAdoption := below (pi_weeklyDownloads input) (pc_lowDownloadThreshold policy) in
        [{| rs_code := SIMILAR_TO_POPULAR_PACKAGE;
            rs_message := "Package name is similar to " +:+ sp_name best +:+ ".";
            rs_severity := if lowAdoption && pc_blockSimilarLowDownloadPackages policy
                           then sev_critical else sev_medium;
            rs_evidence :=
              [("candidate", Some (JStr (sp_name best)));
               ("suggestedPackage", Some (JStr (default (sp_name best) (sp_suggestedPackage best))));
               ("similarity", Some (JNum (sp_similarity best)));
               ("weeklyDownloads", JNum <$> pi_weeklyDownloads input);
               ("reasons", (λ l, JArr (JStr <$> l)) <$> sp_reasons best)] |}]
      else []
  | None => []
  end.

Definition new_low_reason (input : PolicyInput) : list PolicyReason :=
  let policy := pi_policy input in
  if below (pi_weeklyDownloads input) (pc_lowDownloadThreshold policy)
     && below (pi_packageAgeDays input) (pc_minimumPackageAgeDays policy) then
    [{| rs_code := NEW_PACKAGE_LOW_DOWNLOADS;
        rs_message := "Package is both new and low-adoption.";
        rs_severity := sev_high;
        rs_evidence := [("weeklyDownloads", JNum <$> pi_weeklyDownloads input);
                        ("packageAgeDays", JNum <$> pi_packageAgeDays input)] |}]
  else [].

(** [input.versionMetadata?.provenance], when present. *)
Definition provenance_of (input : PolicyInput) : option Provenance :=
  p ← pi_versionMetadata input ≫= vm_provenance; if pv_present p then Some p else None.

Definition provenance_reasons (input : PolicyInput) : list PolicyReason :=
  let policy := pc_provenance (pi_policy input) in
  if pp_enabled policy then
    match provenance_of input with
    | None =>
        match pi_weeklyDownloads input with
        | Some n =>
            if num_leb (pp_highDownloadThreshold policy) n then
              [{| rs_code := PROVENANCE_MISSING;
                  rs_message := "High-download package has no published provenance metadata.";
                  rs_severity := sev_medium;
                  rs_evidence := [("weeklyDownloads", Some (JNum n));
                                  ("threshold", Some (JNum (pp_highDownloadThreshold policy)));
                                  ("provenancePresent", Some (JBool false))] |}]
            else []
        | None => []
        end
    | Some p =>
        [{| rs_code := TRUSTED_PUBLISHING_PRESENT;
            rs_message := "Package version has published provenance metadata.";
            rs_severity := sev_info;
            rs_evidence := [("source", jstr (pv_source p)); ("attestationUrl", jstr (pv_attestationUrl p));
                            ("scoreReduction", Some (JNum (pp_trustedPublishingScoreReduction policy)))] |}]
    end
  else [].

Definition analysis_reason (input : PolicyInput) : list PolicyReason :=
  if pi_analysisRequired input && negb (bool_decide (is_Some (pi_analysisReport input))) then
    [{| rs_code := ANALYSIS_REQUIRED;
        rs_message := "No static analysis report exists for this tarball identity yet.";
        rs_severity := if bool_decide (pi_runtimeMode input = mode_production) then sev_high else sev_medium;
        rs_evidence := [("runtimeMode", Some (JStr (mode_string (pi_runtimeMode input))))] |}]
  else [].

(** The signals of the report, but for those already there. *)
Definition add_signal (reasons : list PolicyReason) (signal : PolicyReason) : list PolicyReason :=
  if existsb (λ r, bool_decide (rs_code r = rs_code signal) && String.eqb (rs_message r) (rs_message signal)) reasons
  then reasons else reasons ++ [signal].

Definition add_signals (report : option (list PolicyReason)) (reasons : list PolicyReason) : list PolicyReason :=
  fold_left add_signal (default [] report) reasons.

Definition llm_reason (input : PolicyInput) : list PolicyReason :=
  match pi_llmRiskReview input with
  | Some review =>
      if bool_decide (lr_riskLevel review ∈ [sev_high; sev_critical]) then
        [{| rs_code := LLM_RISK_REVIEW_FLAGGED; rs_message := lr_summary review;
            rs_severity := lr_riskLevel review;
            rs_evidence := [("confidence", Some (JStr (lr_confidence review)))] |}]
      else []
  | None => []
  end.

Definition policy_reasons (input : PolicyInput) : list PolicyReason :=
  add_signals (pi_analysisReport input)
    (age_reason input ++ download_reason input ++ similar_reason input ++ new_low_reason input
     ++ provenance_reasons input ++ analysis_reason input)
  ++ llm_reason input.

(** ** Score and action *)

(** [Math.min(100, reasons.reduce(...))]. *)
Definition rawScore (reasons : list PolicyReason) : Z :=
  Z.min 100 (fold_left (λ total r, total + severityScore (rs_severity r)) reasons 0).

Definition scorePolicyReasons (input : PolicyInput) (reasons : list PolicyReason) : num :=
  let raw := int (rawScore reasons) in
  let provenanceRisk := has_code PROVENANCE_CHANGED reasons || has_code PROVENANCE_MISSING reasons
                        || has_code PROVENANCE_SUBJECT_MISMATCH reasons in
  if negb (has_code TRUSTED_PUBLISHING_PRESENT reasons) || provenanceRisk then raw
  else num_max (int 0) (num_sub raw (pp_trustedPublishingScoreReduction (pc_provenance (pi_policy input)))).

Definition decideAction (input : PolicyInput) (reasons : list PolicyReason) (score : num) : PolicyAction :=
  let has code := has_code code reasons in
  let policy := pi_policy input in
  let mode := pi_runtimeMode input in
  let softened := if bool_decide (mode = mode_development) then warn else quarantine in
  if existsb (λ r, bool_decide (rs_severity r = sev_critical)
                   && negb (bool_decide (rs_code r = LLM_RISK_REVIEW_FLAGGED))) reasons then block
  else if has PACKAGE_TOO_NEW && below (pi_packageAgeDays input) (int 1) then block
  else if has PACKAGE_TOO_NEW then softened
  else if has LOW_WEEKLY_DOWNLOADS && has SIMILAR_TO_POPULAR_PACKAGE then
    if pc_blockSimilarLowDownloadPackages policy then block else quarantine
  else if has NEW_INSTALL_SCRIPT && pc_blockNewInstallScripts policy then block
  else if has UNEXPECTED_BINARY_FILE && pc_blockUnexpectedBinaries policy then block
  else if has UNSAFE_TARBALL_PATH || has UNSAFE_TARBALL_SYMLINK then block
  else if has ANALYSIS_REQUIRED then
    match mode with mode_production => block | mode_ci => quarantine | mode_development => warn end
  else if has INSTALL_SCRIPT_CHANGED && pc_quarantineChangedInstallScripts policy then quarantine
  else if has OBFUSCATED_CODE_DETECTED && pc_quarantineObfuscatedCode policy then quarantine
  else if has LARGE_FILE_SIZE_DELTA then softened
  else if has PROVENANCE_CHANGED && pp_quarantineChangedProvenance (pc_provenance policy) then softened
  else if has PROVENANCE_MISSING && pp_quarantineMissingForHighDownloadPackages (pc_provenance policy)
  then softened
  else if has LLM_RISK_REVIEW_FLAGGED then quarantine
  else if num_leb (int 70) score then if bool_decide (mode = mode_development) then quarantine else block
  else if num_leb (int 35) score then softened
  else if num_ltb (int 0) score then warn
  else allow.

Definition pastTenseAction (action : PolicyAction) : string :=
  match action with block => "blocked" | warn => "warned" | quarantine => "quarantined" | allow => "allowed" end.

Definition explainDecision (packageName version : string) (action : PolicyAction)
    (reasons : list PolicyReason) : string :=
  match action with
  | allow => packageName +:+ "@" +:+ version +:+ " is allowed by deterministic policy."
  | _ => packageName +:+ "@" +:+ version +:+ " is " +:+ pastTenseAction action
           +:+ " by deterministic policy. " +:+ join " " (rs_message <$> reasons)
  end.

Definition isDecisionBlockingInstall (decision : PolicyDecision) (mode : RuntimeMode) : bool :=
  match pd_action decision with
  | block => true
  | quarantine => negb (bool_decide (mode = mode_development))
  | _ => false
  end.

(** ** Evaluation *)

Section Evaluate.
Context (date_parse : string → option Z) (iso_string : Z → string).

Definition evaluationTimestamp (now : Z) (evaluatedAt : option string) : outcome Z :=
  match truthy evaluatedAt with
  | None => Ok now
  | Some s =>
      match date_parse s with
      | Some t => Ok t
      | None => Throw (MkError None ("Invalid policy evaluation timestamp: " +:+ s) [])
      end
  end.

(** [Date.parse(expiresAt) <= evaluatedAt]: never so for text that is no date. *)
Definition past (expiresAt : string) (evaluatedAt : Z) : bool :=
  match date_parse expiresAt with Some t => t <=? evaluatedAt | None => false end.

Definition resolveActiveOverride (input : PolicyInput) (evaluatedAt : Z) : option Override :=
  match pi_override input with
  | Some o =>
      if negb (pc_overrides_enabled (pi_policy input)) then None
      else if match truthy (ov_version o) with Some v => negb (String.eqb v (pi_version input)) | None => false end
      then None
      else if match truthy (ov_expiresAt o) with Some e => past e evaluatedAt | None => false end then None
      else Some o
  | None => None
  end.

(** [new Date(t).toISOString()]: a time outside the range of dates throws. *)
Definition toISOString (t : num) : outcome string :=
  match t with
  | NFin m k =>
      let ms := Z.quot m (pow10 k) in
      if num_leb t (int 8640000000000000) && num_leb (int (-8640000000000000)) t
      then Ok (iso_string ms) else Throw (MkError None "Invalid time value" [])
  | _ => Throw (MkError None "Invalid time value" [])
  end.

Definition day_ms : num := int (24 * 60 * 60 * 1000).

Definition nextTimeSensitiveDecisionExpiry (input : PolicyInput) (reasons : list PolicyReason)
    (evaluatedAt : Z) : outcome (option string) :=
  match has_code PACKAGE_TOO_NEW reasons, pi_packageAgeDays input with
  | true, Some age =>
      let nextBoundaryDays := if num_ltb age (int 1) then int 1 else pc_minimumPackageAgeDays (pi_policy input) in
      let publishedAt := truthy (pi_versionMetadata input ≫= vm_publishedAt) ≫= date_parse in
      let expiry :=
        match publishedAt with
        | None => num_add (int evaluatedAt) (num_mul (num_max (int 0) (num_sub nextBoundaryDays age)) day_ms)
        | Some p => num_add (int p) (num_mul nextBoundaryDays day_ms)
        end in
      if num_ltb (int evaluatedAt) expiry then
        match toISOString expiry with Ok s => Ok (Some s) | Throw e => Throw e end
      else Ok None
  | _, _ => Ok None
  end.

Definition override_decision (input : PolicyInput) (o : Override) : PolicyDecision :=
  {| pd_action := ov_action o;
     pd_score := if bool_decide (ov_action o = allow) then int 0 else int 80;
     pd_reasons :=
       [{| rs_code := APPROVED_OVERRIDE; rs_message := ov_reason o; rs_severity := sev_info;
           rs_evidence := [("approvedBy", jstr (ov_approvedBy o)); ("expiresAt", jstr (ov_expiresAt o))] |}];
     pd_explanation := "Override applies to " +:+ pi_packageName input +:+ "@" +:+ pi_version input +:+ ".";
     pd_expiresAt := ov_expiresAt o |}.

(** [now] is what [Date.now()] answers. *)
Definition evaluatePolicy (now : Z) (input : PolicyInput) : outcome PolicyDecision :=
  match evaluationTimestamp now (pi_evaluatedAt input) with
  | Throw e => Throw e
  | Ok evaluatedAt =>
      match resolveActiveOverride input evaluatedAt with
      | Some o => Ok (override_decision input o)
      | None =>
          let reasons := policy_reasons input in
          let score := scorePolicyReasons input reasons in
          let action := decideAction input reasons score in
          match nextTimeSensitiveDecisionExpiry input reasons evaluatedAt with
          | Throw e => Throw e
          | Ok expiresAt =>
              Ok {| pd_action := action; pd_score := score; pd_reasons := reasons;
                    pd_explanation := explainDecision (pi_packageName input) (pi_version input) action reasons;
                    pd_expiresAt := expiresAt |}
          end
      end
  end.
End Evaluate.

(** ** Registry: properties of the policy engine *)

Section Policy.
Context (date_parse : string → option Z) (iso_string : Z → string).
Notation evaluatePolicy := (evaluatePolicy date_parse iso_string).

(** What [evaluatePolicy] answers, without the override. *)
Lemma evaluatePolicy_cases now input d :
  evaluatePolicy now input = Ok d →
  ∃ t, evaluationTimestamp date_parse now (pi_evaluatedAt input) = Ok t ∧
  ((∃ o, resolveActiveOverride date_parse input t = Some o ∧ d = override_decision input o) ∨
   (resolveActiveOverride date_parse input t = None ∧
    nextTimeSensitiveDecisionExpiry date_parse iso_string input (policy_reasons input) t = Ok (pd_expiresAt d) ∧
    pd_reasons d = policy_reasons input ∧
    pd_score d = scorePolicyReasons input (policy_reasons input) ∧
    pd_action d = decideAction input (policy_reasons input) (pd_score d))).
Proof.
  unfold PolicyEngine.evaluatePolicy. destruct (evaluationTimestamp _ _ _) as [t|e]; [|done].
  intros E. exists t. split; [done|].
  destruct (resolveActiveOverride _ _ _) as [o|]; [left; exists o; by simplify_eq|right].
  destruct (nextTimeSensitiveDecisionExpiry _ _ _ _ _) as [x|e]; [|done]. by simplify_eq.
Qed.

Lemma resolveActiveOverride_some input t o :
  resolveActiveOverride date_parse input t = Some o →
  pi_override input = Some o ∧ pc_overrides_enabled (pi_policy input) = true ∧
  (∀ v, truthy (ov_version o) = Some v → v = pi_version input) ∧
  (∀ e z, truthy (ov_expiresAt o) = Some e → date_parse e = Some z → t < z).
Proof.
  unfold resolveActiveOverride. destruct (pi_override input) as [o'|]; [|done].
  destruct (pc_overrides_enabled _); [|done]. cbn [negb].
  destruct (truthy (ov_version o')) as [v|] eqn:Ev.
  - destruct (String.eqb v (pi_version input)) eqn:E; [|done]. cbn [negb].
    destruct (truthy (ov_expiresAt o')) as [e|] eqn:Ee.
    + destruct (past _ e t) eqn:Ep; [done|]. intros [=<-]. split_and!; try done.
      * intros v' Hv'. apply String.eqb_eq in E. congruence.
      * intros e' z He' Hz. unfold past in Ep. simplify_eq. rewrite Hz in Ep. lia.
    + intros [=<-]. split_and!; try done; try congruence. intros v' Hv'.
      apply String.eqb_eq in E. congruence.
  - destruct (truthy (ov_expiresAt o')) as [e|] eqn:Ee.
    + destruct (past _ e t) eqn:Ep; [done|]. intros [=<-]. split_and!; try done; try congruence.
      intros e' z He' Hz. unfold past in Ep. simplify_eq. rewrite Hz in Ep. lia.
    + intros [=<-]. split_and!; try done; congruence.
Qed.
End Policy.

(** ** Reasons *)

Lemma has_code_true code reasons : has_code code reasons = true ↔ ∃ r, r ∈ reasons ∧ rs_code r = code.
Proof.
  unfold has_code. rewrite existsb_exists. split; intros (r & Hr & Hc); exists r;
    (split; [by apply list_elem_of_In|]); [by apply bool_decide_eq_true in Hc|by apply bool_decide_eq_true].
Qed.

Lemma add_signals_keeps report reasons r : r ∈ reasons → r ∈ add_signals report reasons.
Proof.
  unfold add_signals. revert reasons. induction (default [] report) as [|s l IH]; intros reasons Hr; cbn; [done|].
  apply IH. unfold add_signal. case_match; [done|]. apply elem_of_app. by left.
Qed.

Lemma policy_reasons_own input r :
  r ∈ age_reason input ++ download_reason input ++ similar_reason input ++ new_low_reason input
      ++ provenance_reasons input ++ analysis_reason input →
  r ∈ policy_reasons input.
Proof. intros Hr. apply elem_of_app. left. by apply add_signals_keeps. Qed.

Definition same_signal (r s : PolicyReason) : Prop := rs_code r = rs_code s ∧ rs_message r = rs_message s.

Lemma add_signal_same reasons s : ∃ r, r ∈ add_signal reasons s ∧ same_signal r s.
Proof.
  unfold add_signal. destruct (existsb _ reasons) eqn:E.
  - apply existsb_exists in E as (r & Hr & Hc). apply andb_true_iff in Hc as [Hc Hm].
    exists r. split; [by apply list_elem_of_In|]. split; [by apply bool_decide_eq_true in Hc|by apply String.eqb_eq].
  - exists s. split; [|done]. apply elem_of_app. right. left.
Qed.

Lemma fold_signals_keep l : ∀ reasons r, r ∈ reasons → r ∈ fold_left add_signal l reasons.
Proof. intros reasons r Hr. exact (add_signals_keeps (Some l) reasons r Hr). Qed.

Lemma add_signals_all l reasons s : s ∈ l → ∃ r, r ∈ fold_left add_signal l reasons ∧ same_signal r s.
Proof.
  revert reasons. induction l as [|x l IH]; intros reasons Hs; [by apply elem_of_nil in Hs|].
  apply elem_of_cons in Hs as [->|Hs]; cbn; [|by apply IH].
  destruct (add_signal_same reasons x) as (r & Hr & Hsame). exists r. split; [by apply fold_signals_keep|done].
Qed.

Lemma add_signals_only l reasons r : r ∈ fold_left add_signal l reasons → r ∈ reasons ∨ r ∈ l.
Proof.
  revert reasons. induction l as [|x l IH]; intros reasons Hr; cbn in Hr; [by left|].
  destruct (IH _ Hr) as [Hx|Hx]; [|right; by right].
  unfold add_signal in Hx. destruct (existsb _ reasons); [by left|].
  apply elem_of_app in Hx as [Hx|Hx%list_elem_of_singleton]; [by left|subst; right; left].
Qed.

(** ** Actions *)

(** The installation is refused: the action is block, or quarantine outside
    development. *)
Definition refuses (mode : RuntimeMode) (action : PolicyAction) : Prop :=
  action = block ∨ (action = quarantine ∧ mode ≠ mode_development).

Lemma refuses_blocking d mode :
  isDecisionBlockingInstall d mode = true ↔ refuses mode (pd_action d).
Proof.
  unfold isDecisionBlockingInstall, refuses.
  destruct (pd_action d), mode; cbn; (split; [intros H|intros [H|[H H']]]); try done;
    try (by left); try (right; done); by destruct H'.
Qed.

(** Walk down the tests of [decideAction]. *)
Ltac decide_all := repeat case_match; first [by left|by right|done|congruence].

Lemma decide_critical input reasons score r :
  r ∈ reasons → rs_severity r = sev_critical → rs_code r ≠ LLM_RISK_REVIEW_FLAGGED →
  decideAction input reasons score = block.
Proof.
  intros Hr Hs Hc. unfold decideAction.
  replace (existsb _ reasons) with true; [done|]. symmetry. apply existsb_exists. exists r.
  split; [by apply list_elem_of_In|]. apply andb_true_iff. split; [by apply bool_decide_eq_true|].
  apply negb_true_iff. by apply bool_decide_eq_false.
Qed.

Lemma decide_too_new input reasons score :
  has_code PACKAGE_TOO_NEW reasons = true → pi_runtimeMode input ≠ mode_development →
  refuses (pi_runtimeMode input) (decideAction input reasons score).
Proof.
  intros Hn Hm. unfold decideAction. rewrite Hn. rewrite (bool_decide_eq_false_2 _ Hm). cbn [andb].
  destruct (existsb _ reasons); [by left|]. destruct (below _ _); [by left|by right].
Qed.

Lemma decide_unanalysed input reasons score :
  has_code ANALYSIS_REQUIRED reasons = true → pi_runtimeMode input ≠ mode_development →
  refuses (pi_runtimeMode input) (decideAction input reasons score).
Proof.
  intros Hn Hm. unfold decideAction. rewrite Hn. rewrite (bool_decide_eq_false_2 _ Hm).
  decide_all.
Qed.

Lemma decide_unsafe_path input reasons score :
  has_code UNSAFE_TARBALL_PATH reasons || has_code UNSAFE_TARBALL_SYMLINK reasons = true →
  pi_runtimeMode input ≠ mode_development →
  refuses (pi_runtimeMode input) (decideAction input reasons score).
Proof.
  intros Hn Hm. unfold decideAction. rewrite Hn. rewrite (bool_decide_eq_false_2 _ Hm).
  decide_all.
Qed.

Definition overridden (date_parse : string → option Z) (now : Z) (input : PolicyInput) : Prop :=
  ∃ t o, evaluationTimestamp date_parse now (pi_evaluatedAt input) = Ok t ∧
         resolveActiveOverride date_parse input t = Some o.

Lemma age_reason_code input :
  below (pi_packageAgeDays input) (pc_minimumPackageAgeDays (pi_policy input)) = true →
  has_code PACKAGE_TOO_NEW (policy_reasons input) = true.
Proof.
  intros Hb. apply has_code_true. unfold below in Hb.
  assert (∃ r, r ∈ age_reason input ∧ rs_code r = PACKAGE_TOO_NEW) as (r & Hr & Hc).
  { unfold age_reason. destruct (pi_packageAgeDays input) as [age|]; [|done]. rewrite Hb.
    eexists. split; [left|done]. }
  exists r. split; [|done]. apply policy_reasons_own, elem_of_app. by left.
Qed.

Lemma analysis_reason_code input :
  pi_analysisRequired input = true → pi_analysisReport input = None →
  has_code ANALYSIS_REQUIRED (policy_reasons input) = true.
Proof.
  intros Hr Hn. apply has_code_true.
  assert (∃ r, r ∈ analysis_reason input ∧ rs_code r = ANALYSIS_REQUIRED) as (r & Hin & Hc).
  { unfold analysis_reason. rewrite Hr, Hn. eexists. split; [left|done]. }
  exists r. split; [|done]. apply policy_reasons_own. rewrite !elem_of_app. auto 8.
Qed.

Lemma signal_code input l s :
  pi_analysisReport input = Some l → s ∈ l → has_code (rs_code s) (policy_reasons input) = true.
Proof.
  intros El Hs. apply has_code_true. unfold policy_reasons, add_signals. rewrite El. cbn [default from_option].
  destruct (add_signals_all l (age_reason input ++ download_reason input ++ similar_reason input ++
    new_low_reason input ++ provenance_reasons input ++ analysis_reason input) s Hs) as (r & Hr & [Hc _]).
  exists r. split; [|done]. apply elem_of_app. by left.
Qed.

(** The same version, its age not known. *)
Definition without_age (input : PolicyInput) : PolicyInput := {|
  pi_packageName := pi_packageName input; pi_version := pi_version input; pi_runtimeMode := pi_runtimeMode input;
  pi_evaluatedAt := pi_evaluatedAt input; pi_versionMetadata := pi_versionMetadata input;
  pi_weeklyDownloads := pi_weeklyDownloads input; pi_packageAgeDays := None;
  pi_analysisRequired := pi_analysisRequired input; pi_analysisReport := pi_analysisReport input;
  pi_llmRiskReview := pi_llmRiskReview input; pi_override := pi_override input;
  pi_similarPackages := pi_similarPackages input; pi_policy := pi_policy input;
|}.

Lemma reasons_without_age input :
  below (pi_packageAgeDays input) (pc_minimumPackageAgeDays (pi_policy input)) = false →
  policy_reasons input = policy_reasons (without_age input).
Proof.
  intros Hold. unfold policy_reasons, age_reason, new_low_reason. rewrite Hold. cbn. rewrite !andb_false_r.
  unfold below in Hold. by destruct (pi_packageAgeDays input); [rewrite Hold|].
Qed.

(** C25: Outside development, and without an override in force, a package version that is
    younger than the policy's minimum age, that still awaits its required analysis, or
    whose analysis found an unsafe path or link in the tarball, is not installable; and
    one younger than both the minimum age and a day is blocked in every mode.  A version that
    is not younger than the minimum age, which the configuration allows to be 0, gives the
    reasons it would if its age were not known, so that one younger than a day is then not
    blocked for its age, though the specification of the gate blocks every such version. *)
Theorem unvetted_not_installable date_parse iso_string now input d :
  evaluatePolicy date_parse iso_string now input = Ok d →
  ¬ overridden date_parse now input →
  (pi_runtimeMode input ≠ mode_development →
   below (pi_packageAgeDays input) (pc_minimumPackageAgeDays (pi_policy input)) = true ∨
   (pi_analysisRequired input = true ∧ pi_analysisReport input = None) ∨
   (∃ l s, pi_analysisReport input = Some l ∧ s ∈ l ∧ rs_code s ∈ [UNSAFE_TARBALL_PATH; UNSAFE_TARBALL_SYMLINK]) →
   isDecisionBlockingInstall d (pi_runtimeMode input) = true) ∧
  (below (pi_packageAgeDays input) (pc_minimumPackageAgeDays (pi_policy input)) = true →
   below (pi_packageAgeDays input) (int 1) = true → pd_action d = block) ∧
  (below (pi_packageAgeDays input) (pc_minimumPackageAgeDays (pi_policy input)) = false →
   pd_reasons d = policy_reasons (without_age input)).
Proof.
  intros (t & Et & [(o & Ho & _)|(_ & _ & Er & _ & Ea)])%evaluatePolicy_cases Hno; [by destruct Hno; exists t, o|].
  split_and!.
  - intros Hm Hwhy. apply refuses_blocking. rewrite Ea.
    destruct Hwhy as [Hage|[[Hr Hn]|(l & s & El & Hs & Hc)]].
    + apply decide_too_new; [by apply age_reason_code|done].
    + apply decide_unanalysed; [by apply analysis_reason_code|done].
    + apply decide_unsafe_path; [|done]. pose proof (signal_code input l s El Hs) as Hh.
      apply orb_true_iff. apply elem_of_cons in Hc as [E|Hc]; [left|right].
      * by rewrite <- E.
      * apply list_elem_of_singleton in Hc. by rewrite <- Hc.
  - intros Hage Hday. rewrite Ea. unfold decideAction.
    rewrite (age_reason_code input Hage), Hday. by destruct (existsb _ _).
  - intros Hold. by rewrite Er, reasons_without_age.
Qed.

(** Every signal of the analysis report is among the reasons of a decision made
    without an override, and a critical reason that is not the language model's blocks
    the package in every mode. *)
Theorem report_signals_decide date_parse iso_string now input d :
  evaluatePolicy date_parse iso_string now input = Ok d →
  ¬ overridden date_parse now input →
  (∀ l s, pi_analysisReport input = Some l → s ∈ l → ∃ r, r ∈ pd_reasons d ∧ same_signal r s) ∧
  (∀ r, r ∈ pd_reasons d → rs_severity r = sev_critical → rs_code r ≠ LLM_RISK_REVIEW_FLAGGED →
     pd_action d = block).
Proof.
  intros (t & Et & [(o & Ho & _)|(_ & _ & Er & _ & Ea)])%evaluatePolicy_cases Hno; [by destruct Hno; exists t, o|].
  rewrite Er, Ea. split.
  - intros l s El Hs. unfold policy_reasons, add_signals. rewrite El.
    destruct (add_signals_all l (age_reason input ++ download_reason input ++ similar_reason input ++
      new_low_reason input ++ provenance_reasons input ++ analysis_reason input) s Hs) as (r & Hr & Hsame).
    exists r. split; [|exact Hsame]. apply elem_of_app. by left.
  - intros r Hr Hs Hc. by eapply decide_critical.
Qed.

(** ** Scores *)

Lemma severityScore_nonneg s : 0 <= severityScore s.
Proof. by destruct s. Qed.

Lemma score_sum l : ∀ acc, acc <= fold_left (λ total r, total + severityScore (rs_severity r)) l acc.
Proof.
  induction l as [|r l IH]; intros acc; cbn; [lia|].
  specialize (IH (acc + severityScore (rs_severity r))). pose proof (severityScore_nonneg (rs_severity r)). lia.
Qed.

Lemma rawScore_range l : 0 <= rawScore l <= 100.
Proof. unfold rawScore. pose proof (score_sum l 0). lia. Qed.

Lemma rawScore_zero l : rawScore l = 0 → ∀ r, r ∈ l → rs_severity r = sev_info.
Proof.
  unfold rawScore. intros E r Hr.
  assert (∀ acc, 0 <= acc → fold_left (λ total r, total + severityScore (rs_severity r)) l acc = 0 →
    rs_severity r = sev_info) as Hgo.
  { clear E. induction l as [|x l IH]; [by apply elem_of_nil in Hr|]. intros acc Ha E. cbn in E.
    pose proof (score_sum l (acc + severityScore (rs_severity x))). pose proof (severityScore_nonneg (rs_severity x)).
    apply elem_of_cons in Hr as [->|Hr]; [|by apply (IH Hr _ (Z.add_nonneg_nonneg _ _ Ha (severityScore_nonneg _)) E)].
    destruct (rs_severity x); cbn in *; [done|lia..]. }
  apply (Hgo 0); [done|]. pose proof (score_sum l 0). lia.
Qed.

(** The score with a finite reduction [m / 10^k]. *)
Lemma reduced_score raw m k :
  num_ltb (int 0) (num_max (int 0) (num_sub (int raw) (NFin m k))) = (m <? raw * pow10 k) ∧
  (0 <= m → 0 <= raw <= 100 → num_leb (int 0) (num_max (int 0) (num_sub (int raw) (NFin m k))) = true ∧
    num_leb (num_max (int 0) (num_sub (int raw) (NFin m k))) (int 100) = true).
Proof.
  pose proof (pow10_pos k) as Hk.
  assert (∃ j, num_sub (int raw) (NFin m k) = NFin (raw * pow10 k - m) j ∧ pow10 j = pow10 k) as (j & -> & Hj).
  { unfold num_sub, num_add, num_neg, int. destruct (Nat.eqb_spec 0 k) as [<-|Hne].
    - exists 0%nat. change (pow10 0) with 1. split; [f_equal; lia|done].
    - exists k. change (pow10 0) with 1. split; [cbn [Nat.add]; f_equal; lia|done]. }
  unfold num_max, int. cbn [num_leb]. change (pow10 0) with 1.
  destruct (0 * pow10 j <=? (raw * pow10 k - m) * 1) eqn:E; cbn [num_ltb num_leb];
    change (pow10 0) with 1; rewrite ?Hj in *; reflect_bools.
  - split; [apply Bool.eq_iff_eq_true; rewrite !Z.ltb_lt; lia|].
    intros Hm Hr. split; apply Z.leb_le; nia.
  - split; [apply Bool.eq_iff_eq_true; rewrite !Z.ltb_lt; lia|].
    intros Hm Hr. split; apply Z.leb_le; nia.
Qed.

Lemma num_leb_int a b : num_leb (int a) (int b) = (a <=? b).
Proof. cbn. change (pow10 0) with 1. by rewrite !Z.mul_1_r. Qed.

Lemma score_cases input reasons m k :
  pp_trustedPublishingScoreReduction (pc_provenance (pi_policy input)) = NFin m k → 0 <= m →
  let score := scorePolicyReasons input reasons in
  num_leb (int 0) score = true ∧ num_leb score (int 100) = true ∧
  (num_ltb (int 0) score = false → rawScore reasons = 0 ∨
     (has_code TRUSTED_PUBLISHING_PRESENT reasons = true ∧ num_leb (int (rawScore reasons)) (NFin m k) = true)).
Proof.
  intros Em Hm. cbn zeta. unfold scorePolicyReasons. rewrite Em. pose proof (rawScore_range reasons) as Hr.
  destruct (negb _ || _) eqn:E.
  - rewrite !num_leb_int, num_ltb_int. split; [apply Z.leb_le; lia|]. split; [apply Z.leb_le; lia|].
    intros Hz%Z.ltb_ge. left. lia.
  - destruct (reduced_score (rawScore reasons) m k) as [Hz Hb]. destruct (Hb Hm Hr) as [H0 H1].
    split; [done|]. split; [done|]. rewrite Hz. intros Hlt%Z.ltb_ge. right.
    apply orb_false_iff in E as [E _]. apply negb_false_iff in E. split; [done|].
    cbn [num_leb int]. change (pow10 0) with 1. apply Z.leb_le. lia.
Qed.

Lemma decide_allow input reasons score :
  decideAction input reasons score = allow → num_ltb (int 0) score = false.
Proof.
  unfold decideAction. destruct (num_ltb (int 0) score); [|done]. repeat case_match; done.
Qed.

(** With a finite, non-negative score reduction a score lies between 0 and 100, and
    a package allowed without an override carries no risk: every reason is
    informational, or the package has published provenance and the reduction for it
    covers the whole severity of the reasons. *)
Theorem allowed_carries_no_risk date_parse iso_string now input d m k :
  evaluatePolicy date_parse iso_string now input = Ok d →
  pp_trustedPublishingScoreReduction (pc_provenance (pi_policy input)) = NFin m k → 0 <= m →
  num_leb (int 0) (pd_score d) = true ∧ num_leb (pd_score d) (int 100) = true ∧
  (¬ overridden date_parse now input → pd_action d = allow →
   (∀ r, r ∈ pd_reasons d → rs_severity r = sev_info) ∨
   (has_code TRUSTED_PUBLISHING_PRESENT (pd_reasons d) = true ∧
    num_leb (int (rawScore (pd_reasons d))) (NFin m k) = true)).
Proof.
  intros (t & Et & [(o & Ho & ->)|(_ & _ & Er & Es & Ea)])%evaluatePolicy_cases Em Hm.
  { split; [|split]; [by cbn; case_bool_decide..|]. intros Hno. destruct Hno. by exists t, o. }
  destruct (score_cases input (policy_reasons input) m k Em Hm) as (H0 & H1 & H2).
  rewrite Es, Er. split; [done|]. split; [done|]. intros _ Hal. rewrite Hal in Ea. symmetry in Ea.
  apply decide_allow in Ea. rewrite Es in Ea. destruct (H2 Ea) as [Hz|Hp]; [left|by right].
  by apply rawScore_zero.
Qed.

(** ** Expiry *)

Lemma toISOString_later iso_string t n s :
  toISOString iso_string n = Ok s → num_ltb (int t) n = true →
  ∃ z, s = iso_string z ∧ -8640000000000000 <= z <= 8640000000000000 ∧ t <= z.
Proof.
  unfold toISOString. destruct n as [| |m k]; try done.
  destruct (num_leb _ _ && num_leb _ _) eqn:E; [|done]. intros [=<-] Hlt.
  exists (Z.quot m (pow10 k)). split; [done|]. pose proof (pow10_pos k) as Hk.
  cbn in E, Hlt. change (pow10 0) with 1 in *. reflect_bools.
  assert (∀ a, a = Z.quot (a * pow10 k) (pow10 k)) as Hq by (intros; rewrite Z.quot_mul; lia).
  split; [split|].
  - rewrite (Hq (-8640000000000000)). apply Z.quot_le_mono; lia.
  - rewrite (Hq 8640000000000000). apply Z.quot_le_mono; lia.
  - rewrite (Hq t). apply Z.quot_le_mono; lia.
Qed.

(** When dates are read back as they are written, the expiry of a decision is not
    before its evaluation: an override in force ends later, and any other decision that
    expires does so because the version is too new, at a time not yet past. *)
Theorem decision_expires_later date_parse iso_string now input d t s :
  (∀ z, -8640000000000000 <= z <= 8640000000000000 → date_parse (iso_string z) = Some z) →
  evaluatePolicy date_parse iso_string now input = Ok d →
  evaluationTimestamp date_parse now (pi_evaluatedAt input) = Ok t →
  pd_expiresAt d = Some s → s ≠ "" →
  (overridden date_parse now input → ∀ z, date_parse s = Some z → t < z) ∧
  (¬ overridden date_parse now input →
   has_code PACKAGE_TOO_NEW (pd_reasons d) = true ∧ ∃ z, date_parse s = Some z ∧ t <= z).
Proof.
  intros Hiso (t' & Et' & Hd)%evaluatePolicy_cases Et Hs Hne. rewrite Et in Et'. injection Et' as <-.
  destruct Hd as [(o & Ho & ->)|(Hno & Hx & Er & _ & _)].
  - split; [|intros Hn; destruct Hn; by exists t, o]. intros _ z Hz.
    destruct (resolveActiveOverride_some _ _ _ _ Ho) as (_ & _ & _ & Hexp). eapply Hexp; [|exact Hz].
    cbn in Hs. unfold truthy. rewrite Hs. cbn. by destruct (String.eqb_spec s "").
  - split; [intros (t1 & o & Et1 & Ho); rewrite Et in Et1; injection Et1 as <-; congruence|]. intros _.
    rewrite Hs in Hx. unfold nextTimeSensitiveDecisionExpiry in Hx. rewrite Er.
    destruct (has_code PACKAGE_TOO_NEW _); [|done]. destruct (pi_packageAgeDays input); [|done].
    split; [done|]. destruct (num_ltb (int t) _) eqn:Hlt; [|done].
    destruct (toISOString _ _) as [s'|] eqn:Ei; [|done]. injection Hx as ->.
    destruct (toISOString_later _ _ _ _ Ei Hlt) as (z & -> & Hz & Hle). exists z. by rewrite Hiso.
Qed.

(** ** A concrete package

    Dates are written as the milliseconds since the earliest date here, so that writing
    and reading agree. *)

Definition demo_date_parse (s : string) : option Z :=
  (λ z, z - 8640000000000000) <$> num_to_Z (string_to_num s).
Definition demo_iso (z : Z) : string := int_to_string (z + 8640000000000000).

Lemma demo_dates_agree z : -8640000000000000 <= z <= 8640000000000000 → demo_date_parse (demo_iso z) = Some z.
Proof.
  intros Hz. unfold demo_date_parse, demo_iso. rewrite string_to_num_pretty by lia.
  rewrite num_to_Z_int. cbn. f_equal. lia.
Qed.

Definition demo_policy : PolicyConfig := {|
  pc_minimumPackageAgeDays := int 7; pc_lowDownloadThreshold := int 1000;
  pc_strictLowDownloadThreshold := int 100; pc_blockSimilarLowDownloadPackages := true;
  pc_blockNewInstallScripts := true; pc_quarantineChangedInstallScripts := true;
  pc_blockUnexpectedBinaries := true; pc_quarantineObfuscatedCode := true;
  pc_provenance := {| pp_enabled := true; pp_highDownloadThreshold := int 100000;
    pp_trustedPublishingScoreReduction := int 10; pp_quarantineChangedProvenance := true;
    pp_quarantineMissingForHighDownloadPackages := true |};
  pc_overrides_enabled := true;
|}.

Definition demo_input (mode : RuntimeMode) (age : num) (report : option (list PolicyReason)) : PolicyInput := {|
  pi_packageName := "left-pad"; pi_version := "1.0.0"; pi_runtimeMode := mode; pi_evaluatedAt := None;
  pi_versionMetadata := Some {| vm_publishedAt := Some "8640000000005000";
    vm_provenance := Some {| pv_present := true; pv_source := Some "dist.attestations"; pv_attestationUrl := None |} |};
  pi_weeklyDownloads := Some (int 5000); pi_packageAgeDays := Some age; pi_analysisRequired := true;
  pi_analysisReport := report; pi_llmRiskReview := None; pi_override := None;
  pi_similarPackages := []; pi_policy := demo_policy;
|}.

Definition link_signal : PolicyReason := {|
  rs_code := UNSAFE_TARBALL_SYMLINK; rs_message := "link leaves the package"; rs_severity := sev_critical;
  rs_evidence := [] |}.

Definition demo_new : PolicyInput := demo_input mode_ci (NFin 25 1) None.
Definition demo_linked : PolicyInput := demo_input mode_production (int 30) (Some [link_signal]).
Definition demo_clean : PolicyInput := demo_input mode_production (int 30) (Some []).

Definition decision_of (input : PolicyInput) : PolicyDecision :=
  match evaluatePolicy demo_date_parse demo_iso 6000 input with
  | Ok d => d
  | Throw _ => override_decision input {| ov_version := None; ov_action := allow; ov_reason := "";
      ov_approvedBy := None; ov_expiresAt := None |}
  end.

Definition decision_new : PolicyDecision := Eval vm_compute in decision_of demo_new.
Definition decision_linked : PolicyDecision := Eval vm_compute in decision_of demo_linked.
Definition decision_clean : PolicyDecision := Eval vm_compute in decision_of demo_clean.

Lemma demo_not_overridden mode age report :
  ¬ overridden demo_date_parse 6000 (demo_input mode age report).
Proof. intros (t & o & _ & Ho). done. Qed.

(** A version half a day old where the minimum age is 0. *)
Definition ageless_policy : PolicyConfig := {|
  pc_minimumPackageAgeDays := int 0; pc_lowDownloadThreshold := pc_lowDownloadThreshold demo_policy;
  pc_strictLowDownloadThreshold := pc_strictLowDownloadThreshold demo_policy;
  pc_blockSimilarLowDownloadPackages := true; pc_blockNewInstallScripts := true; pc_quarantineChangedInstallScripts := true;
  pc_blockUnexpectedBinaries := true; pc_quarantineObfuscatedCode := true; pc_provenance := pc_provenance demo_policy;
  pc_overrides_enabled := true;
|}.

Definition demo_ageless : PolicyInput :=
  let input := demo_input mode_production (NFin 5 1) (Some []) in {|
  pi_packageName := pi_packageName input; pi_version := pi_version input; pi_runtimeMode := pi_runtimeMode input;
  pi_evaluatedAt := pi_evaluatedAt input; pi_versionMetadata := pi_versionMetadata input;
  pi_weeklyDownloads := pi_weeklyDownloads input; pi_packageAgeDays := pi_packageAgeDays input;
  pi_analysisRequired := pi_analysisRequired input; pi_analysisReport := pi_analysisReport input;
  pi_llmRiskReview := pi_llmRiskReview input; pi_override := pi_override input;
  pi_similarPackages := pi_similarPackages input; pi_policy := ageless_policy;
|}.

Definition decision_ageless : PolicyDecision := Eval vm_compute in decision_of demo_ageless.

Lemma unvetted_not_installable_witness :
  evaluatePolicy demo_date_parse demo_iso 6000 demo_new = Ok decision_new ∧
  isDecisionBlockingInstall decision_new mode_ci = true ∧
  below (pi_packageAgeDays demo_ageless) (int 1) = true ∧ pd_action decision_ageless = allow ∧
  pd_reasons decision_ageless = policy_reasons (without_age demo_ageless).
Proof.
  assert (evaluatePolicy demo_date_parse demo_iso 6000 demo_new = Ok decision_new) as E by by vm_compute.
  destruct (unvetted_not_installable demo_date_parse demo_iso 6000 demo_new decision_new E
    (demo_not_overridden _ _ _)) as [H _].
  split; [exact E|]. split; [apply H; [done|]; left; by vm_compute|].
  assert (evaluatePolicy demo_date_parse demo_iso 6000 demo_ageless = Ok decision_ageless) as E2 by by vm_compute.
  destruct (unvetted_not_installable demo_date_parse demo_iso 6000 demo_ageless decision_ageless E2) as (_ & _ & H2);
    [intros (t & o & _ & Ho); done|].
  split; [by vm_compute|]. split; [by vm_compute|]. apply H2. by vm_compute.
Defined.

Lemma report_signals_decide_witness :
  evaluatePolicy demo_date_parse demo_iso 6000 demo_linked = Ok decision_linked ∧
  pd_action decision_linked = block.
Proof.
  assert (evaluatePolicy demo_date_parse demo_iso 6000 demo_linked = Ok decision_linked) as E by by vm_compute.
  destruct (report_signals_decide demo_date_parse demo_iso 6000 demo_linked decision_linked E
    (demo_not_overridden _ _ _)) as [_ H].
  split; [exact E|]. apply (H link_signal); [right; left|done|done].
Defined.

Lemma allowed_carries_no_risk_witness :
  evaluatePolicy demo_date_parse demo_iso 6000 demo_clean = Ok decision_clean ∧
  pd_action decision_clean = allow ∧ num_leb (pd_score decision_clean) (int 100) = true.
Proof.
  assert (evaluatePolicy demo_date_parse demo_iso 6000 demo_clean = Ok decision_clean) as E by by vm_compute.
  destruct (allowed_carries_no_risk demo_date_parse demo_iso 6000 demo_clean decision_clean 10 0 E
    eq_refl ltac:(lia)) as (_ & H & _).
  split; [exact E|]. split; [by vm_compute|exact H].
Defined.

Lemma decision_expires_later_witness :
  evaluatePolicy demo_date_parse demo_iso 6000 demo_new = Ok decision_new ∧
  ∃ s z, pd_expiresAt decision_new = Some s ∧ demo_date_parse s = Some z ∧ 6000 <= z.
Proof.
  assert (evaluatePolicy demo_date_parse demo_iso 6000 demo_new = Ok decision_new) as E by by vm_compute.
  destruct (decision_expires_later demo_date_parse demo_iso 6000 demo_new decision_new 6000
    "8640000604805000" demo_dates_agree E eq_refl eq_refl ltac:(done)) as [_ H].
  split; [exact E|]. destruct (H (demo_not_overridden _ _ _)) as (_ & z & Hz & Hle).
  exists "8640000604805000", z. split; [by vm_compute|]. split; [exact Hz|exact Hle].
Defined.
