(* ===== verification/NameDistance.v ===== *)
(** * Package registry: distances between package names

    The string metrics of [mezair-registry/packages/name-squatting/src/index.ts]: the
    normalised form of a name, the Damerau-Levenshtein distance, filled in row by row in
    a matrix as the code does, and the patterns of single edits; and that the distance is
    the least number of edits. *)

From stdpp Require Import base list strings gmap.
From Stdlib Require Import ZArith Ascii Lia.
From S2P Require Import Prelude JsString.

(** ** Names *)

Definition at_sign : ascii := ascii_of_N 64.
Definition slash : ascii := ascii_of_N 47.
Definition is_dash (c : ascii) : bool := is_char 45 c || is_char 95 c.
Definition is_separator (c : ascii) : bool := is_char 64 c || is_char 47 c || is_dash c.

(** [splitPackageName]: the scope, [None] when it is undefined, and the name. *)
Definition splitPackageName (packageName : string) : option string * string :=
  if startsWith "@" packageName then
    let parts := split slash packageName in
    (parts !! 0%nat, default "" (parts !! 1%nat))
  else (None, packageName).

Definition normaliseName (packageName : string) : string :=
  let '(scope, name) := splitPackageName (toLowerCase packageName) in
  remove_class is_separator (default "" scope +:+ "/" +:+ name).

Definition normaliseSegment (value : string) : string := remove_class is_dash (toLowerCase value).

(** ** Damerau-Levenshtein *)

(** [matrix[i][j]], zero where nothing was assigned. *)
Notation Matrix := (gmap (nat * nat) Z).
Definition cell (m : Matrix) (i j : nat) : Z := default 0 (m !! (i, j)).

Section Distance.
Context (a b : list ascii).

Definition maxDistance : Z := Z.of_nat (length a + length b).

Definition start_row (m : Matrix) (i : nat) : Matrix := <[(S i, 1%nat) := Z.of_nat i]> (<[(S i, 0%nat) := maxDistance]> m).
Definition start_column (m : Matrix) (j : nat) : Matrix := <[(1%nat, S j) := Z.of_nat j]> (<[(0%nat, S j) := maxDistance]> m).

(** The borders. *)
Definition start_matrix : Matrix :=
  fold_left start_column (seq 0 (S (length b)))
    (fold_left start_row (seq 0 (S (length a))) (<[(0%nat, 0%nat) := maxDistance]> ∅)).

(** [a[i - 1]]. *)
Definition unit_at (l : list ascii) (i : nat) : ascii := nth (i - 1) l zero.

(** The body of the inner loop, on the matrix and [db]. *)
Definition step_cell (da : gmap ascii nat) (i : nat) (acc : Matrix * nat) (j : nat) : Matrix * nat :=
  let '(m, db) := acc in
  let i1 := default 0%nat (da !! unit_at b j) in
  let j1 := db in
  let same := Ascii.eqb (unit_at a i) (unit_at b j) in
  let cost := if same then 0 else 1 in
  let swapped := cell m i1 j1 + (Z.of_nat i - Z.of_nat i1 - 1) + 1 + (Z.of_nat j - Z.of_nat j1 - 1) in
  (<[(S i, S j) := Z.min (Z.min (Z.min (cell m i j + cost) (cell m (S i) j + 1)) (cell m i (S j) + 1)) swapped]> m,
   if same then j else db).

(** The body of the outer loop, on the matrix and [da]. *)
Definition step_row (acc : Matrix * gmap ascii nat) (i : nat) : Matrix * gmap ascii nat :=
  let '(m, da) := acc in
  ((fold_left (step_cell da i) (seq 1 (length b)) (m, 0%nat)).1, <[unit_at a i := i]> da).

Definition distance : Z :=
  cell (fold_left step_row (seq 1 (length a)) (start_matrix, ∅)).1 (S (length a)) (S (length b)).
End Distance.

Definition damerauLevenshtein (a b : string) : Z := distance (chars a) (chars b).

(** ** Patterns of one edit *)

(** The loop over [shorter] and [longer] from their positions [i] and [j]. *)
Fixpoint one_insertion (shorter longer : list ascii) (skipped : bool) : bool :=
  match longer with
  | [] => match shorter with [] => true | _ => false end
  | d :: longer' =>
      match shorter with
      | c :: shorter' =>
          if Ascii.eqb c d then one_insertion shorter' longer' skipped
          else if skipped then false else one_insertion shorter longer' true
      | [] => if skipped then false else one_insertion [] longer' true
      end
  end.

Definition oneInsertionAway (a b : list ascii) : bool :=
  if (length a <=? length b)%nat then one_insertion a b false else one_insertion b a false.

(** The positions where the two differ. *)
Fixpoint mismatches (i : nat) (a b : list ascii) : list nat :=
  match a with
  | [] => []
  | c :: a' =>
      match b with
      | d :: b' => if Ascii.eqb c d then mismatches (S i) a' b' else i :: mismatches (S i) a' b'
      | [] => i :: mismatches (S i) a' []
      end
  end.

Definition oneTranspositionAway (a b : list ascii) : bool :=
  match mismatches 0 a b with
  | [i; j] => bool_decide (a !! i = b !! j) && bool_decide (a !! j = b !! i)
  | _ => false
  end.

Definition editPatternReasons (requested candidate : string) : list string :=
  let a := chars requested in
  let b := chars candidate in
  if String.eqb requested candidate then []
  else if (Z.abs (slen requested - slen candidate) =? 1) && oneInsertionAway a b
  then [if slen requested <? slen candidate then "missing_character" else "extra_character"]
  else if (slen requested =? slen candidate) && oneTranspositionAway a b then ["transposed_characters"]
  else [].

Definition stripPlural (value : string) : string :=
  let drop_last n := slice_to (String.length value - n) value in
  if endsWith "ies" value && (3 <? slen value) then drop_last 3%nat +:+ "y"
  else if endsWith "es" value && (2 <? slen value) then drop_last 2%nat
  else if endsWith "s" value && (1 <? slen value) then drop_last 1%nat
  else value.

Definition isPluralisationVariant (a b : string) : bool :=
  let left := remove_class is_dash (toLowerCase a) in
  let right := remove_class is_dash (toLowerCase b) in
  negb (String.eqb left right) &&
  (String.eqb (stripPlural left) right || String.eqb (stripPlural right) left).

(** ** Package registry: the distance is the least cost of an alignment

    The matrix of [damerauLevenshtein] against a declarative description of edits, and the
    patterns of single edits. *)

(** ** Edits *)

(** [edits u v n]: [u] can be turned into [v] at cost [n] by keeping, changing, inserting
    and deleting characters, and by exchanging two characters [c] and [d], at one for the
    exchange and one for each character between them, deleted before or inserted after. *)
Inductive edits : list ascii → list ascii → Z → Prop :=
| edit_done : edits [] [] 0
| edit_keep c u v n : edits u v n → edits (u ++ [c]) (v ++ [c]) n
| edit_change c d u v n : edits u v n → edits (u ++ [c]) (v ++ [d]) (n + 1)
| edit_insert d u v n : edits u v n → edits u (v ++ [d]) (n + 1)
| edit_delete c u v n : edits u v n → edits (u ++ [c]) v (n + 1)
| edit_exchange c d u v deleted inserted n : edits u v n →
    edits (u ++ [c] ++ deleted ++ [d]) (v ++ [d] ++ inserted ++ [c])
          (n + Z.of_nat (length deleted) + 1 + Z.of_nat (length inserted)).

(** The least cost. *)
Definition least (u v : list ascii) (n : Z) : Prop := edits u v n ∧ ∀ m, edits u v m → n <= m.

Lemma edits_nonneg u v n : edits u v n → 0 <= n.
Proof. induction 1; lia. Qed.

Lemma edits_deleted u v n w : edits u v n → edits (u ++ w) v (n + Z.of_nat (length w)).
Proof.
  induction w as [|c w IH] using rev_ind; intros H; [by rewrite app_nil_r, Z.add_0_r|].
  rewrite app_assoc, length_app, Nat2Z.inj_add, Z.add_assoc. cbn [length]. apply edit_delete. auto.
Qed.

Lemma edits_inserted u v n w : edits u v n → edits u (v ++ w) (n + Z.of_nat (length w)).
Proof.
  induction w as [|c w IH] using rev_ind; intros H; [by rewrite app_nil_r, Z.add_0_r|].
  rewrite app_assoc, length_app, Nat2Z.inj_add, Z.add_assoc. cbn [length]. apply edit_insert. auto.
Qed.

Lemma edits_rebuild u v : edits u v (Z.of_nat (length u + length v)).
Proof.
  rewrite Nat2Z.inj_add. apply edits_inserted with (v := []). apply (edits_deleted [] [] 0 u edit_done).
Qed.

Lemma edits_lengths u v n : edits u v n → Z.abs (Z.of_nat (length u) - Z.of_nat (length v)) <= n.
Proof. induction 1; rewrite ?length_app; cbn [length]; rewrite ?length_app; cbn [length]; lia. Qed.

(** The longer of the two bounds the distance: change as far as both go. *)
Lemma edits_short u v : ∃ n, edits u v n ∧ n <= Z.of_nat (Nat.max (length u) (length v)).
Proof.
  revert v. induction u as [|c u IH] using rev_ind; intros v.
  - exists (Z.of_nat (length v)). split; [by apply (edits_inserted [] [] 0 v edit_done)|]. cbn. lia.
  - destruct v as [|d v _] using rev_ind.
    + exists (Z.of_nat (length (u ++ [c]))). split; [by apply (edits_deleted [] [] 0 _ edit_done)|]. cbn. lia.
    + destruct (IH v) as (n & Hn & Hle). exists (n + 1). split; [by apply edit_change|].
      rewrite !length_app. cbn. lia.
Qed.

Lemma edits_sym u v n : edits u v n → edits v u n.
Proof.
  induction 1; try (by constructor).
  replace (n + _ + 1 + _) with (n + Z.of_nat (length inserted) + 1 + Z.of_nat (length deleted)) by lia.
  by constructor.
Qed.

Lemma edits_refl u : edits u u 0.
Proof. induction u as [|c u IH] using rev_ind; [constructor|by apply edit_keep]. Qed.

Lemma edits_zero u v : edits u v 0 → u = v.
Proof.
  remember 0 as k eqn:Ek. induction 1; try (apply edits_nonneg in H); try lia; [done|].
  by rewrite IHedits.
Qed.

(** ** Prefixes *)

Lemma take_last (l : list ascii) i c : l !! i = Some c → take (S i) l = take i l ++ [c].
Proof. apply take_S_r. Qed.

Lemma take_is_nil (l : list ascii) i : (i <= length l)%nat → take i l = [] → i = 0%nat.
Proof. intros Hi E%(f_equal length). rewrite length_take in E. cbn in E. lia. Qed.

Lemma take_is_snoc (l : list ascii) i u c : (i <= length l)%nat → take i l = u ++ [c] →
  ∃ k, i = S k ∧ u = take k l ∧ l !! k = Some c.
Proof.
  intros Hi E. destruct i as [|k]; [by destruct u|]. exists k. split; [done|].
  destruct (lookup_lt_is_Some_2 l k ltac:(lia)) as [d Hd]. rewrite (take_last _ _ _ Hd) in E.
  apply app_inj_tail in E as [-> ->]. done.
Qed.

(** A prefix that ends in an exchange. *)
Lemma take_is_exchange (l : list ascii) i u c mid d : (i <= length l)%nat → take i l = u ++ [c] ++ mid ++ [d] →
  ∃ k, i = S k ∧ l !! k = Some d ∧ u = take (length u) l ∧ l !! (length u) = Some c ∧
    k = (length u + 1 + length mid)%nat.
Proof.
  intros Hi E. rewrite !app_assoc in E. destruct (take_is_snoc _ _ _ _ Hi E) as (k & -> & Eu & Hd).
  exists k. split; [done|]. split; [done|].
  assert (length ((u ++ [c]) ++ mid) = k) as Hk.
  { rewrite Eu, length_take. lia. }
  rewrite !length_app in Hk. cbn in Hk.
  assert (∀ n, (n <= length u + 1)%nat → take n l = take n (u ++ [c])) as Hpre.
  { intros n Hn. transitivity (take n (take k l)); [rewrite take_take; f_equal; lia|]. rewrite <- Eu.
    rewrite take_app_le; [done|]. rewrite length_app. cbn. lia. }
  split; [|split; [|lia]].
  - rewrite (Hpre (length u)) by lia. by rewrite take_app_length.
  - pose proof (Hpre (S (length u)) ltac:(lia)) as E2. apply (f_equal (λ l, l !! length u)) in E2.
    rewrite !lookup_take_lt in E2 by lia. rewrite E2. by apply list_lookup_middle.
Qed.

(** [k] is the position after the last [c], zero when there is none. *)
Record last_match (c : ascii) (l : list ascii) (k : nat) : Prop := {
  lm_range : (k <= length l)%nat;
  lm_found : (0 < k)%nat → l !! (k - 1)%nat = Some c;
  lm_last : ∀ i, l !! i = Some c → (i < k)%nat;
}.

Lemma last_match_nil c : last_match c [] 0.
Proof. split; [done|lia|done]. Qed.

Lemma last_match_snoc c l k d :
  last_match c l k → last_match c (l ++ [d]) (if Ascii.eqb d c then S (length l) else k).
Proof.
  intros [Hr Hf Hl]. destruct (Ascii.eqb_spec d c) as [->|Hne]; split; rewrite ?length_app; cbn; try lia.
  - intros _. rewrite Nat.sub_0_r. by apply list_lookup_middle.
  - intros i Hi%lookup_lt_Some. rewrite length_app in Hi. cbn in Hi. lia.
  - intros Hk. specialize (Hf Hk). rewrite lookup_app_l; [done|by eapply lookup_lt_Some].
  - intros i Hi. apply lookup_app_Some in Hi as [Hi|[Hge Hi]]; [auto|].
    apply list_lookup_singleton_Some in Hi as [_ ->]. done.
Qed.

(** ** One cell *)

Lemma take_extend (l : list ascii) p q : (p <= q <= length l)%nat →
  ∃ w, take q l = take p l ++ w ∧ length w = (q - p)%nat.
Proof.
  intros H. exists (drop p (take q l)). split.
  - rewrite <- (take_drop p (take q l)) at 1. by rewrite take_take, Nat.min_l by lia.
  - rewrite length_drop, length_take. lia.
Qed.

Lemma take_exchange (l : list ascii) p i c d : l !! p = Some c → (p < i)%nat → l !! i = Some d →
  ∃ mid, take (S i) l = take p l ++ [c] ++ mid ++ [d] ∧ length mid = (i - S p)%nat.
Proof.
  intros Hc Hp Hd. pose proof (lookup_lt_Some _ _ _ Hd). destruct (take_extend l (S p) i) as (mid & E & Hl); [lia|].
  exists mid. split; [|done]. by rewrite (take_last _ _ _ Hd), E, (take_last _ _ _ Hc), <- !app_assoc.
Qed.

Lemma edits_extend (a b : list ascii) p q i j n :
  edits (take p a) (take q b) n → (p <= i <= length a)%nat → (q <= j <= length b)%nat →
  edits (take i a) (take j b) (n + Z.of_nat (i - p) + Z.of_nat (j - q)).
Proof.
  intros H Hi Hj. destruct (take_extend a p i Hi) as (u & -> & <-), (take_extend b q j Hj) as (v & -> & <-).
  by apply edits_inserted, edits_deleted.
Qed.

Section Cell.
Context (a b : list ascii) (i j i1 j1 : nat) (ca cb : ascii) (x y z w : Z).
Context (Ha : a !! i = Some ca) (Hb : b !! j = Some cb).
Context (Hx : least (take i a) (take j b) x) (Hy : least (take (S i) a) (take j b) y).
Context (Hz : least (take i a) (take (S j) b) z).
Context (Hi1 : last_match cb (take i a) i1) (Hj1 : last_match ca (take j b) j1).
Context (Hw : if decide (0 < i1 ∧ 0 < j1)%nat then least (take (i1 - 1) a) (take (j1 - 1) b) w
              else w = maxDistance a b).

Let cost : Z := if Ascii.eqb ca cb then 0 else 1.
Let swapped : Z := w + (Z.of_nat (S i) - Z.of_nat i1 - 1) + 1 + (Z.of_nat (S j) - Z.of_nat j1 - 1).
Let best : Z := Z.min (Z.min (Z.min (x + cost) (y + 1)) (z + 1)) swapped.

Lemma cell_ranges : (i < length a ∧ j < length b ∧ i1 <= i ∧ j1 <= j)%nat.
Proof using All.
  pose proof (lookup_lt_Some _ _ _ Ha). pose proof (lookup_lt_Some _ _ _ Hb).
  pose proof (lm_range _ _ _ Hi1) as H1. pose proof (lm_range _ _ _ Hj1) as H2. rewrite length_take in H1, H2. lia.
Qed.

Lemma cell_keep : edits (take (S i) a) (take (S j) b) (x + cost).
Proof using All.
  clear -Ha Hb Hx. rewrite (take_last _ _ _ Ha), (take_last _ _ _ Hb). unfold cost. destruct Hx as [Hex _].
  destruct (Ascii.eqb_spec ca cb) as [->|_]; [rewrite Z.add_0_r; by apply edit_keep|by apply edit_change].
Qed.

Lemma cell_insert : edits (take (S i) a) (take (S j) b) (y + 1).
Proof using All. clear -Hb Hy. rewrite (take_last _ _ _ Hb). apply edit_insert, Hy. Qed.

Lemma cell_delete : edits (take (S i) a) (take (S j) b) (z + 1).
Proof using All. clear -Ha Hz. rewrite (take_last _ _ _ Ha). apply edit_delete, Hz. Qed.

Lemma cell_exchange : (0 < i1 ∧ 0 < j1)%nat → edits (take (S i) a) (take (S j) b) swapped.
Proof using All.
  intros Hpos. pose proof cell_ranges. rewrite decide_True in Hw by done. destruct Hw as [Hew _].
  pose proof (lm_found _ _ _ Hi1 (proj1 Hpos)) as Hc. pose proof (lm_found _ _ _ Hj1 (proj2 Hpos)) as Hd.
  rewrite lookup_take_lt in Hc, Hd by lia.
  destruct (take_exchange a (i1 - 1) i cb ca Hc ltac:(lia) Ha) as (u & -> & Hu).
  destruct (take_exchange b (j1 - 1) j ca cb Hd ltac:(lia) Hb) as (v & -> & Hv).
  pose proof (edit_exchange cb ca _ _ u v w Hew) as He.
  replace swapped with (w + Z.of_nat (length u) + 1 + Z.of_nat (length v)); [done|].
  unfold swapped. lia.
Qed.

(** An exchange with an earlier pair costs no less than the last pair. *)
Lemma swapped_least p q n : a !! p = Some cb → b !! q = Some ca → (p < i)%nat → (q < j)%nat →
  edits (take p a) (take q b) n → swapped <= n + Z.of_nat (i - S p) + 1 + Z.of_nat (j - S q).
Proof using All.
  intros Hp Hq Hpi Hqj Hn. pose proof cell_ranges.
  assert (p < i1)%nat as Hp1 by (apply (lm_last _ _ _ Hi1); by rewrite lookup_take_lt).
  assert (q < j1)%nat as Hq1 by (apply (lm_last _ _ _ Hj1); by rewrite lookup_take_lt).
  rewrite decide_True in Hw by lia. destruct Hw as [_ Hmin].
  pose proof (Hmin _ (edits_extend a b p q (i1 - 1) (j1 - 1) n Hn ltac:(lia) ltac:(lia))). unfold swapped. lia.
Qed.

(** The borders are too dear to matter. *)
Lemma border_dear : ¬ (0 < i1 ∧ 0 < j1)%nat → z + 1 <= swapped.
Proof using All.
  intros Hno. pose proof cell_ranges. rewrite decide_False in Hw by done.
  destruct Hz as [_ Hmin]. pose proof (Hmin _ (edits_rebuild _ _)) as Hle. rewrite !length_take in Hle.
  unfold swapped. rewrite Hw. unfold maxDistance. lia.
Qed.

Lemma cell_lower n : edits (take (S i) a) (take (S j) b) n → best <= n.
Proof using All.
  pose proof cell_ranges as Hr. intros He. remember (take (S i) a) as u eqn:Eu in He. remember (take (S j) b) as v eqn:Ev in He.
  symmetry in Eu, Ev. destruct He as [|c u v n He|c d u v n He|d u v n He|c u v n He|c d u v del ins n He].
  - apply take_is_nil in Eu; lia.
  - apply take_is_snoc in Eu as (k & [= <-] & -> & Hc); [|lia].
    apply take_is_snoc in Ev as (k & [= <-] & -> & Hd); [|lia].
    assert (ca = cb) as E by congruence. pose proof (proj2 Hx _ He). unfold best, cost. rewrite E, Ascii.eqb_refl. lia.
  - apply take_is_snoc in Eu as (k & [= <-] & -> & Hc); [|lia].
    apply take_is_snoc in Ev as (k & [= <-] & -> & Hd); [|lia].
    pose proof (proj2 Hx _ He). unfold best, cost. destruct (Ascii.eqb ca cb); lia.
  - apply take_is_snoc in Ev as (k & [= <-] & -> & Hd); [|lia].
    rewrite <- Eu in He. pose proof (proj2 Hy _ He). unfold best. lia.
  - apply take_is_snoc in Eu as (k & [= <-] & -> & Hc); [|lia].
    rewrite <- Ev in He. pose proof (proj2 Hz _ He). unfold best. lia.
  - apply take_is_exchange in Eu as (k & [= <-] & Hd & Eu & Hc & Hk); [|lia].
    apply take_is_exchange in Ev as (k & [= <-] & Hc' & Ev & Hd' & Hk'); [|lia].
    assert (d = ca) as -> by congruence. assert (c = cb) as -> by congruence.
    rewrite Eu, Ev in He. pose proof (swapped_least _ _ _ Hc Hd' ltac:(lia) ltac:(lia) He). unfold best. lia.
Qed.

Lemma cell_least : least (take (S i) a) (take (S j) b) best.
Proof using All.
  split; [|apply cell_lower].
  assert (∀ m n, edits (take (S i) a) (take (S j) b) m → edits (take (S i) a) (take (S j) b) n →
    edits (take (S i) a) (take (S j) b) (Z.min m n)) as Hmin.
  { intros m n Hm Hn. by destruct (Z.min_spec m n) as [[_ ->]|[_ ->]]. }
  assert (edits (take (S i) a) (take (S j) b) (Z.min (Z.min (x + cost) (y + 1)) (z + 1))) as H3.
  { repeat apply Hmin; auto using cell_keep, cell_insert, cell_delete. }
  unfold best. assert ((0 < i1 ∧ 0 < j1)%nat ∨ ¬ (0 < i1 ∧ 0 < j1)%nat) as [Hpos|Hno] by lia.
  - apply Hmin; [done|]. by apply cell_exchange.
  - rewrite Z.min_l; [done|]. pose proof (border_dear Hno). lia.
Qed.
End Cell.

(** ** The loops *)

Lemma fold_seq_inv {T} (f : T → nat → T) (I : nat → T → Prop) n : ∀ k s,
  I k s → (∀ i s, (k <= i < k + n)%nat → I i s → I (S i) (f s i)) → I (k + n)%nat (fold_left f (seq k n) s).
Proof.
  induction n as [|n IH]; intros k s Hk Hstep; cbn; [by rewrite Nat.add_0_r|].
  rewrite Nat.add_succ_r, <- Nat.add_succ_l. apply IH; [apply Hstep; [lia|done]|].
  intros i s' Hi. apply Hstep. lia.
Qed.

Lemma cell_insert_eq (m : Matrix) i j v : cell (<[(i, j) := v]> m) i j = v.
Proof. unfold cell. by rewrite lookup_insert_eq. Qed.

Lemma cell_insert_ne (m : Matrix) i j v i' j' : (i', j') ≠ (i, j) → cell (<[(i, j) := v]> m) i' j' = cell m i' j'.
Proof. intros H. unfold cell. by rewrite lookup_insert_ne. Qed.

Section Fill.
Context (a b : list ascii).
Notation la := (length a).
Notation lb := (length b).

(** The borders are filled, and so are the cells in [done]. *)
Record filled (done : nat → nat → Prop) (m : Matrix) : Prop := {
  fi_row : ∀ j, (j <= S lb)%nat → cell m 0 j = maxDistance a b;
  fi_column : ∀ i, (i <= S la)%nat → cell m i 0 = maxDistance a b;
  fi_cells : ∀ i j, (i <= la)%nat → (j <= lb)%nat → done i j → least (take i a) (take j b) (cell m (S i) (S j));
}.

Lemma least_nil_l v : least [] v (Z.of_nat (length v)).
Proof.
  split; [apply (edits_inserted [] [] 0 v edit_done)|]. intros n Hn%edits_lengths. cbn in Hn. lia.
Qed.

Lemma least_nil_r u : least u [] (Z.of_nat (length u)).
Proof.
  split; [apply (edits_deleted [] [] 0 u edit_done)|]. intros n Hn%edits_lengths. cbn in Hn. lia.
Qed.

Lemma start_filled : filled (λ i j, i = 0%nat ∨ j = 0%nat) (start_matrix a b).
Proof.
  unfold start_matrix. set (m0 := <[(0%nat, 0%nat) := maxDistance a b]> (∅ : Matrix)).
  set (m1 := fold_left (start_row a b) (seq 0 (S la)) m0).
  assert (cell m1 0 0 = maxDistance a b ∧
    ∀ i, (i < S la)%nat → cell m1 (S i) 0 = maxDistance a b ∧ cell m1 (S i) 1 = Z.of_nat i) as [H00 H1].
  { apply (fold_seq_inv (start_row a b) (λ k m, cell m 0 0 = maxDistance a b ∧
      ∀ i, (i < k)%nat → cell m (S i) 0 = maxDistance a b ∧ cell m (S i) 1 = Z.of_nat i) (S la) 0 m0).
    - split; [apply cell_insert_eq|lia].
    - intros k m _ [H0 H]. unfold start_row. split; [by rewrite !cell_insert_ne|].
      intros i Hi. destruct (decide (i = k)) as [->|Hne].
      + by rewrite cell_insert_ne, !cell_insert_eq.
      + rewrite !cell_insert_ne by congruence. apply H. lia. }
  set (m2 := fold_left (start_column a b) (seq 0 (S lb)) m1).
  assert ((∀ i, (i <= S la)%nat → cell m2 i 0 = maxDistance a b) ∧
    (∀ j, (j < S lb)%nat → cell m2 0 (S j) = maxDistance a b ∧ cell m2 1 (S j) = Z.of_nat j) ∧
    ∀ i, (0 < i < S la)%nat → cell m2 (S i) 1 = Z.of_nat i) as (Hc & Hr & Hd).
  { apply (fold_seq_inv (start_column a b) (λ k m, (∀ i, (i <= S la)%nat → cell m i 0 = maxDistance a b) ∧
      (∀ j, (j < k)%nat → cell m 0 (S j) = maxDistance a b ∧ cell m 1 (S j) = Z.of_nat j) ∧
      ∀ i, (0 < i < S la)%nat → cell m (S i) 1 = Z.of_nat i) (S lb) 0 m1).
    - split; [intros [|i] Hi; [done|by apply H1; lia]|]. split; [lia|]. intros i Hi. apply H1. lia.
    - intros k m _ (Hc & Hr & Hd). unfold start_column. split; [|split].
      + intros i Hi. rewrite !cell_insert_ne by congruence. by apply Hc.
      + intros j Hj. destruct (decide (j = k)) as [->|Hne].
        * by rewrite cell_insert_ne, !cell_insert_eq.
        * rewrite !cell_insert_ne by congruence. apply Hr. lia.
      + intros i Hi. rewrite !cell_insert_ne by (intros [=]; lia). by apply Hd. }
  split.
  - intros [|j] Hj; [apply Hc; lia|apply Hr; lia].
  - done.
  - intros i j Hi Hj [->| ->].
    + destruct (Hr j ltac:(lia)) as [_ ->]. rewrite <- (length_take_le b j) at 2 by done. apply least_nil_l.
    + assert (cell m2 (S i) 1 = Z.of_nat i) as ->.
      { destruct i as [|i]; [by apply Hr; lia|apply Hd; lia]. }
      rewrite <- (length_take_le a i) at 2 by done. apply least_nil_r.
Qed.

Lemma unit_at_lookup (l : list ascii) i : (i < length l)%nat → l !! i = Some (unit_at l (S i)).
Proof.
  intros H. unfold unit_at. cbn [Nat.sub]. rewrite Nat.sub_0_r.
  destruct (nth_lookup_or_length l i zero); [done|lia].
Qed.

(** [da] holds the last positions of the characters of a prefix. *)
Definition last_rows (i : nat) (da : gmap ascii nat) : Prop :=
  ∀ c, last_match c (take i a) (default 0%nat (da !! c)).

Definition row_done (i k i' j' : nat) : Prop := (i' < i)%nat ∨ j' = 0%nat ∨ (i' = i ∧ j' < k)%nat.

Lemma step_cell_filled da i j m db : (i < la)%nat → (j < lb)%nat → last_rows i da →
  filled (row_done (S i) (S j)) m → last_match (unit_at a (S i)) (take j b) db →
  filled (row_done (S i) (S (S j))) (step_cell a b da (S i) (m, db) (S j)).1 ∧
  last_match (unit_at a (S i)) (take (S j) b) (step_cell a b da (S i) (m, db) (S j)).2.
Proof.
  intros Hi Hj Hda [Hrow Hcol Hcells] Hdb.
  pose proof (unit_at_lookup a i Hi) as Ha. pose proof (unit_at_lookup b j Hj) as Hb.
  set (ca := unit_at a (S i)) in *. set (cb := unit_at b (S j)) in *.
  pose proof (Hda cb) as Hi1. set (i1 := default 0%nat (da !! cb)) in *.
  pose proof (lm_range _ _ _ Hi1) as Hr1. pose proof (lm_range _ _ _ Hdb) as Hr2. rewrite length_take in Hr1, Hr2.
  cbn [step_cell fst snd]. fold ca cb i1. split.
  2:{ rewrite (take_last _ _ _ Hb). replace (S j) with (S (length (take j b))) by (rewrite length_take; lia).
      rewrite (Ascii.eqb_sym ca cb). by apply last_match_snoc. }
  assert (if decide (0 < i1 ∧ 0 < db)%nat then least (take (i1 - 1) a) (take (db - 1) b) (cell m i1 db)
          else cell m i1 db = maxDistance a b) as Hw.
  { destruct (decide _) as [Hpos|Hno].
    - replace (cell m i1 db) with (cell m (S (i1 - 1)) (S (db - 1))) by (f_equal; lia).
      apply Hcells; [lia|lia|left; lia].
    - assert (i1 = 0%nat ∨ db = 0%nat) as [E|E] by lia; rewrite E; [apply Hrow|apply Hcol]; lia. }
  pose proof (cell_least a b i j i1 db ca cb _ _ _ _ Ha Hb
    (Hcells i j ltac:(lia) ltac:(lia) ltac:(left; lia))
    (Hcells (S i) j ltac:(lia) ltac:(lia) ltac:(right; right; lia))
    (Hcells i (S j) ltac:(lia) ltac:(lia) ltac:(left; lia)) Hi1 Hdb Hw) as Hnew.
  split.
  - intros k Hk. rewrite cell_insert_ne by done. by apply Hrow.
  - intros k Hk. rewrite cell_insert_ne by done. by apply Hcol.
  - intros i' j' Hi' Hj' Hdone. destruct (decide ((i', j') = (S i, S j))) as [[= -> ->]|Hne].
    + by rewrite cell_insert_eq.
    + rewrite cell_insert_ne by congruence. apply Hcells; [done|done|].
      destruct Hdone as [?|[?|[-> ?]]]; [by left|by right; left|].
      right. right. split; [done|]. assert (j' ≠ S j) by (intros ->; done). lia.
Qed.

Lemma step_row_filled da i m : (i < la)%nat → last_rows i da → filled (row_done (S i) 0) m →
  filled (row_done (S (S i)) 0) (step_row a b (m, da) (S i)).1 ∧ last_rows (S i) (step_row a b (m, da) (S i)).2.
Proof.
  intros Hi Hda Hm. cbn [step_row fst snd]. split.
  - assert (∀ f (P Q : nat → nat → Prop), filled P f →
      (∀ x y, (y <= lb)%nat → Q x y → P x y) → filled Q f) as Hweak.
    { intros f P Q [H1 H2 H3] Hw. split; [done..|]. intros x y Hx Hy HQ. by apply H3; [..|apply Hw]. }
    set (I := λ k (acc : Matrix * nat), (1 <= k)%nat ∧ filled (row_done (S i) k) acc.1 ∧
       last_match (unit_at a (S i)) (take (k - 1) b) acc.2).
    assert (I (1 + lb)%nat (fold_left (step_cell a b da (S i)) (seq 1 lb) (m, 0%nat))) as (_ & Hf & _).
    { apply fold_seq_inv.
      - split; [lia|]. split; [|apply last_match_nil]. eapply Hweak; [exact Hm|].
        intros x y _ [?|[?|?]]; [by left|by right; left|right; left; lia].
      - intros k [m' db] Hk (_ & Hf & Hdb). destruct k as [|k]; [lia|].
        cbn [fst snd] in Hf, Hdb. replace (S k - 1)%nat with k in Hdb by lia.
        destruct (step_cell_filled da i k m' db Hi ltac:(lia) Hda Hf Hdb) as [H1 H2]. split; [lia|].
        by replace (S (S k) - 1)%nat with (S k) by lia. }
    eapply Hweak; [exact Hf|]. intros x y Hy [?|[?|?]]; [|by right; left|lia].
    destruct (decide (x = S i)) as [->|]; [right; right|left]; lia.
  - intros c. pose proof (unit_at_lookup a i Hi) as Ha. set (ca := unit_at a (S i)) in *.
    rewrite (take_last _ _ _ Ha). pose proof (last_match_snoc c _ _ ca (Hda c)) as H.
    rewrite length_take, Nat.min_l in H by lia. destruct (Ascii.eqb_spec ca c) as [->|Hne].
    + by rewrite lookup_insert_eq.
    + by rewrite lookup_insert_ne.
Qed.

Lemma distance_least : least a b (distance a b).
Proof.
  set (I := λ k (acc : Matrix * gmap ascii nat), (1 <= k)%nat ∧ filled (row_done k 0) acc.1 ∧ last_rows (k - 1) acc.2).
  assert (I (1 + la)%nat (fold_left (step_row a b) (seq 1 la) (start_matrix a b, ∅))) as (_ & [_ _ Hf] & _).
  { apply fold_seq_inv.
    - split; [lia|]. split; [|intros c; cbn [snd]; rewrite (lookup_empty c); apply last_match_nil].
      destruct start_filled as [H1 H2 H3]. split; [done..|]. intros i j Hi Hj [?|[->|?]]; apply H3; try lia; lia.
    - intros k [m da] Hk (_ & Hf & Hda). destruct k as [|k]; [lia|].
      cbn [fst snd] in Hf, Hda. replace (S k - 1)%nat with k in Hda by lia.
      destruct (step_row_filled da k m ltac:(lia) Hda Hf) as [H1 H2]. split; [lia|]. split; [done|].
      by replace (S (S k) - 1)%nat with (S k) by lia. }
  rewrite <- (take_ge a la), <- (take_ge b lb) at 1 by done. apply Hf; [done|done|]. left. lia.
Qed.
End Fill.

(** ** Single edits *)

(** One character changed, inserted, deleted, or exchanged with its neighbour. *)
Inductive single : list ascii → list ascii → Prop :=
| single_change c d x y : single (x ++ c :: y) (x ++ d :: y)
| single_insert c x y : single (x ++ y) (x ++ c :: y)
| single_delete c x y : single (x ++ c :: y) (x ++ y)
| single_swap c d x y : single (x ++ c :: d :: y) (x ++ d :: c :: y).

Lemma single_app u v w : single u v → single (u ++ w) (v ++ w).
Proof. destruct 1; rewrite <- !app_assoc; cbn; constructor. Qed.

Lemma nsteps_app n u v w : nsteps single n u v → nsteps single n (u ++ w) (v ++ w).
Proof. intros H. apply (nsteps_congruence (λ l, l ++ w)) with (R' := single) in H; [done|]. intros. by apply single_app. Qed.

Lemma nsteps_delete x w y : nsteps single (length w) (x ++ w ++ y) (x ++ y).
Proof. induction w as [|c w IH]; [constructor|]. cbn. econstructor; [apply single_delete|done]. Qed.

Lemma nsteps_insert x w y : nsteps single (length w) (x ++ y) (x ++ w ++ y).
Proof.
  induction w as [|c w IH]; [constructor|]. cbn. rewrite <- Nat.add_1_r.
  eapply nsteps_trans; [exact IH|]. apply nsteps_once. apply single_insert.
Qed.

(** A cost is a number of single edits that do it. *)
Lemma edits_single u v n : edits u v n → nsteps single (Z.to_nat n) u v.
Proof.
  induction 1 as [|c u v n He IH|c d u v n He IH|d u v n He IH|c u v n He IH|c d u v del ins n He IH];
    [constructor|by apply nsteps_app|..]; pose proof (edits_nonneg _ _ _ He); rewrite Z2Nat.inj_add by lia.
  - eapply nsteps_trans; [by apply nsteps_app|]. apply nsteps_once. apply single_change.
  - eapply nsteps_trans; [exact IH|]. apply nsteps_once. rewrite <- (app_nil_r v) at 1. apply single_insert.
  - eapply nsteps_trans; [by apply nsteps_app|]. apply nsteps_once. rewrite <- (app_nil_r v) at 2. apply single_delete.
  - replace (Z.to_nat (n + Z.of_nat (length del) + 1) + Z.to_nat (Z.of_nat (length ins)))%nat
      with (Z.to_nat n + (length del + (1 + length ins)))%nat by lia.
    eapply nsteps_trans; [by apply nsteps_app|]. eapply nsteps_trans.
    { rewrite app_assoc. apply (nsteps_delete (v ++ [c]) del [d]). }
    rewrite <- app_assoc. econstructor; [apply (single_swap c d v [])|].
    rewrite !(app_assoc v [d]). replace (v ++ [d; c]) with ((v ++ [d]) ++ [c]) by by rewrite <- app_assoc.
    apply nsteps_insert.
Qed.

(** C34: [damerauLevenshtein] is the least cost at which the one name can be turned into the
    other: its matrix with the last matching row and column finds the optimum over all
    alignments, which that many single edits perform.  So it is symmetric, zero exactly for
    equal names, and between the difference and the maximum of the lengths. *)
Theorem damerauLevenshtein_exact a b :
  (∀ n, damerauLevenshtein a b = n ↔ least (chars a) (chars b) n) ∧
  nsteps single (Z.to_nat (damerauLevenshtein a b)) (chars a) (chars b) ∧
  damerauLevenshtein b a = damerauLevenshtein a b ∧
  (damerauLevenshtein a b = 0 ↔ a = b) ∧
  Z.abs (slen a - slen b) <= damerauLevenshtein a b <= Z.max (slen a) (slen b).
Proof.
  unfold damerauLevenshtein. rewrite !slen_chars. set (u := chars a). set (v := chars b).
  pose proof (distance_least u v) as [He Hmin]. pose proof (distance_least v u) as [He' Hmin'].
  split; [|split; [by apply edits_single|split; [|split; [|split]]]].
  - intros n. split; [by intros <-|]. intros [Hn Hn']. apply Z.le_antisymm; auto.
  - apply Z.le_antisymm; [by apply Hmin', edits_sym|by apply Hmin, edits_sym].
  - split.
    + intros E. rewrite E in He. apply edits_zero in He. by apply (inj chars).
    + intros E. unfold u, v in *. subst b. pose proof (Hmin 0 (edits_refl _)). apply edits_nonneg in He. lia.
  - by apply edits_lengths.
  - destruct (edits_short u v) as (n & Hn & Hle). specialize (Hmin n Hn). lia.
Qed.

(** ** Patterns *)

(** [longer] is [shorter] with one character more. *)
Definition one_more (shorter longer : list ascii) : Prop := ∃ x c y, shorter = x ++ y ∧ longer = x ++ c :: y.

Lemma one_insertion_skipped l : ∀ s, one_insertion s l true = true ↔ s = l.
Proof.
  induction l as [|d l IH]; intros [|c s]; cbn; try done.
  destruct (Ascii.eqb_spec c d) as [->|Hne]; [rewrite IH; split; congruence|split; congruence].
Qed.

Lemma one_insertion_spec l : ∀ s, length l = S (length s) → one_insertion s l false = true ↔ one_more s l.
Proof.
  induction l as [|d l IH]; intros [|c s] Hl; try done; cbn [one_insertion].
  - rewrite one_insertion_skipped. destruct l; [|done]. split; [intros _; by exists [], d, []|done].
  - cbn in Hl. destruct (Ascii.eqb_spec c d) as [->|Hne].
    + rewrite IH by lia. split.
      * intros (x & e & y & -> & ->). by exists (d :: x), e, y.
      * intros (x & e & y & Es & El). destruct x as [|d' x]; cbn in Es, El.
        -- injection El as <- <-. subst l. by exists [], d, s.
        -- injection El as <- ->. injection Es as ->. by exists x, e, y.
    + rewrite one_insertion_skipped. split.
      * intros <-. by exists [], d, (c :: s).
      * intros (x & e & y & Es & El). destruct x as [|d' x]; cbn in Es, El.
        -- by injection El as <- <-.
        -- injection El as <- ->. congruence.
Qed.

Lemma mismatches_prefix x : ∀ k a b, mismatches k (x ++ a) (x ++ b) = mismatches (k + length x) a b.
Proof.
  induction x as [|c x IH]; intros k a b; cbn; [by rewrite Nat.add_0_r|].
  by rewrite Ascii.eqb_refl, IH, Nat.add_succ_r.
Qed.

Lemma mismatches_same a : ∀ k b, length a = length b → mismatches k a b = [] ↔ a = b.
Proof.
  induction a as [|c a IH]; intros k [|d b] Hl; try done; cbn. injection Hl as Hl.
  destruct (Ascii.eqb_spec c d) as [->|Hne]; [rewrite IH by done; split; congruence|split; [done|congruence]].
Qed.

Lemma mismatches_first a : ∀ k b p l, length a = length b → mismatches k a b = p :: l →
  ∃ x c d a' b', a = x ++ c :: a' ∧ b = x ++ d :: b' ∧ c ≠ d ∧ p = (k + length x)%nat ∧
    length a' = length b' ∧ l = mismatches (S p) a' b'.
Proof.
  induction a as [|c a IH]; intros k [|d b] p l Hl; try done; cbn. injection Hl as Hl.
  destruct (Ascii.eqb_spec c d) as [->|Hne].
  - intros E. destruct (IH _ _ _ _ Hl E) as (x & c' & d' & a' & b' & -> & -> & Hne & -> & Hl' & ->).
    exists (d :: x), c', d', a', b'. cbn. by rewrite Nat.add_succ_r.
  - intros [= <- <-]. exists [], c, d, a, b. cbn. by rewrite Nat.add_0_r.
Qed.

(** [b] is [a] with two different characters exchanged, wherever they are. *)
Definition exchanged (a b : list ascii) : Prop :=
  ∃ x c m d y, c ≠ d ∧ a = x ++ c :: m ++ d :: y ∧ b = x ++ d :: m ++ c :: y.

Lemma lookup_first (u v : list ascii) c : (u ++ c :: v) !! length u = Some c.
Proof. by apply list_lookup_middle. Qed.

Lemma lookup_second (u v w : list ascii) c d : (u ++ c :: v ++ d :: w) !! (S (length u + length v))%nat = Some d.
Proof.
  rewrite app_comm_cons, app_assoc, lookup_app_r; rewrite length_app; cbn; [|lia].
  by replace (_ - _)%nat with 0%nat by lia.
Qed.

Lemma oneTransposition_spec a b : length a = length b → oneTranspositionAway a b = true ↔ exchanged a b.
Proof.
  intros Hl. unfold oneTranspositionAway. split.
  - destruct (mismatches 0 a b) as [|p [|q [|]]] eqn:Em; try done. intros H.
    apply andb_true_iff in H as [H1%bool_decide_eq_true H2%bool_decide_eq_true].
    destruct (mismatches_first _ _ _ _ _ Hl Em) as (x & c & d & a' & b' & -> & -> & Hne & -> & Hl' & El).
    symmetry in El. destruct (mismatches_first _ _ _ _ _ Hl' El) as (m & e & f & y & y' & -> & -> & Hne' & -> & Hl'' & Ey).
    symmetry in Ey. apply mismatches_same in Ey as <-; [|done]. cbn [Nat.add] in *.
    rewrite lookup_first, lookup_second in H1. rewrite lookup_second, lookup_first in H2.
    injection H1 as ->. injection H2 as ->.
    exists x, f, m, d, y. done.
  - intros (x & c & m & d & y & Hne & -> & ->). rewrite mismatches_prefix. cbn [mismatches].
    rewrite (proj2 (Ascii.eqb_neq c d)) by done. rewrite mismatches_prefix. cbn [mismatches].
    rewrite (proj2 (Ascii.eqb_neq d c)) by done. rewrite (proj2 (mismatches_same y _ y eq_refl)) by done.
    apply andb_true_iff. rewrite !bool_decide_eq_true.
    cbn [Nat.add]. by rewrite !lookup_first, !lookup_second.
Qed.

Lemma one_more_length s l : one_more s l → length l = S (length s).
Proof. intros (x & c & y & -> & ->). rewrite !length_app. cbn. lia. Qed.

Lemma exchanged_facts a b : exchanged a b → length a = length b ∧ a ≠ b.
Proof.
  intros (x & c & m & d & y & Hne & -> & ->). split; [rewrite !length_app; cbn; rewrite !length_app; done|].
  intros E%app_inv_head. congruence.
Qed.

(** [editPatternReasons] names the one pattern that two names differ by: a character
    missing from the candidate, a character too many, or two characters exchanged,
    wherever they stand; otherwise it names none. *)
Theorem editPatternReasons_exact requested candidate :
  let a := chars requested in
  let b := chars candidate in
  (one_more a b → editPatternReasons requested candidate = ["missing_character"]) ∧
  (one_more b a → editPatternReasons requested candidate = ["extra_character"]) ∧
  (exchanged a b → editPatternReasons requested candidate = ["transposed_characters"]) ∧
  (¬ one_more a b → ¬ one_more b a → ¬ exchanged a b → editPatternReasons requested candidate = []).
Proof.
  cbn zeta. unfold editPatternReasons. rewrite !slen_chars. set (a := chars requested). set (b := chars candidate).
  assert ((requested =? candidate)%string = true → a = b) as Heq by by intros ->%String.eqb_eq.
  split; [|split; [|split]].
  - intros H. pose proof (one_more_length _ _ H). destruct (requested =? candidate)%string.
    { rewrite Heq in * by done. lia. }
    unfold oneInsertionAway. rewrite (proj2 (Nat.leb_le _ _)) by lia.
    rewrite (proj2 (one_insertion_spec b a ltac:(lia)) H), (proj2 (Z.eqb_eq _ 1)) by lia. cbn.
    by rewrite (proj2 (Z.ltb_lt _ _)) by lia.
  - intros H. pose proof (one_more_length _ _ H). destruct (requested =? candidate)%string.
    { rewrite Heq in * by done. lia. }
    unfold oneInsertionAway. rewrite (proj2 (Nat.leb_gt _ _)) by lia.
    rewrite (proj2 (one_insertion_spec a b ltac:(lia)) H), (proj2 (Z.eqb_eq _ 1)) by lia. cbn.
    by rewrite (proj2 (Z.ltb_ge _ _)) by lia.
  - intros H. pose proof (exchanged_facts _ _ H) as [Hl Hne]. destruct (requested =? candidate)%string.
    { by rewrite Heq in Hne. }
    rewrite Hl, Z.sub_diag, (proj2 (oneTransposition_spec a b Hl) H). cbn. by rewrite Z.eqb_refl.
  - intros H1 H2 H3. destruct (requested =? candidate)%string; [done|].
    assert ((Z.abs (Z.of_nat (length a) - Z.of_nat (length b)) =? 1) && oneInsertionAway a b = false) as ->.
    { destruct (Z.eqb_spec (Z.abs (Z.of_nat (length a) - Z.of_nat (length b))) 1) as [E|]; [|done]. cbn.
      unfold oneInsertionAway. destruct (Nat.leb_spec (length a) (length b)); apply not_true_is_false.
      - rewrite one_insertion_spec by lia. done.
      - rewrite one_insertion_spec by lia. done. }
    destruct (Z.eqb_spec (Z.of_nat (length a)) (Z.of_nat (length b))) as [E|]; [|done]. cbn.
    apply Nat2Z.inj in E. destruct (oneTranspositionAway a b) eqn:Et; [|done].
    by apply (oneTransposition_spec a b E) in Et.
Qed.

(** ** Concrete names *)

Example distances :
  damerauLevenshtein "ca" "abc" = 2 ∧ damerauLevenshtein "lodahs" "lodash" = 1 ∧ damerauLevenshtein "" "vite" = 4.
Proof. by vm_compute. Qed.

Lemma editPatternReasons_exact_witness :
  editPatternReasons "lodsh" "lodash" = ["missing_character"] ∧
  editPatternReasons "loadash" "lodash" = ["extra_character"] ∧
  editPatternReasons "hodasl" "lodash" = ["transposed_characters"].
Proof.
  split; [|split].
  - apply (editPatternReasons_exact "lodsh" "lodash"). exists (chars "lod"), "a"%char, (chars "sh"). by vm_compute.
  - apply (editPatternReasons_exact "loadash" "lodash"). exists (chars "lo"), "a"%char, (chars "dash"). by vm_compute.
  - apply (editPatternReasons_exact "hodasl" "lodash").
    exists [], "h"%char, (chars "odas"), "l"%char, []. split; [done|]. by vm_compute.
Defined.
