(* ===== verification/NameSquatting.v ===== *)
(** * Package registry: name squatting

    The rest of [mezair-registry/packages/name-squatting/src/index.ts]: the index of
    popular packages, similarity scores, and the signals raised for a package name. *)

From stdpp Require Import base list strings gmap.
From Stdlib Require Import ZArith SpecFloat Ascii.
From S2P Require Import Prelude JsString JsValue NameDistance.

(** ** JavaScript numbers as binary64

    Where the code divides and compares fractions, its numbers are IEEE 754 doubles,
    rounded to nearest, of the Standard Library's [SpecFloat]. *)

#[local] Open Scope Z_scope.

Notation float := spec_float.

Definition f_int (n : Z) : float := binary_normalize 53 1024 n 0 false.
Definition f_add : float → float → float := SFadd 53 1024.
Definition f_sub : float → float → float := SFsub 53 1024.
Definition f_mul : float → float → float := SFmul 53 1024.
Definition f_div : float → float → float := SFdiv 53 1024.

(** A literal [n / 10^k]: the quotient is rounded once, as the literal is. *)
Definition f_decimal (n : Z) (k : Z) : float := f_div (f_int n) (f_int (10 ^ k)).

(** [a < b] and [a >= b]. *)
Definition f_ltb : float → float → bool := SFltb.
Definition f_geb (a b : float) : bool := SFleb b a.

(** [Math.max(a, b)]. *)
Definition f_max (a b : float) : float :=
  match a, b with
  | S754_nan, _ | _, S754_nan => S754_nan
  | _, _ => if f_ltb a b then b else a
  end.

(** The integer nearest to [1000 m 2^e], the larger of two. *)
Definition thousandths (m : positive) (e : Z) : Z :=
  if 0 <=? e then 1000 * Zpos m * 2 ^ e else (2 * 1000 * Zpos m + 2 ^ (- e)) / (2 * 2 ^ (- e)).

(** [Number(x.toFixed(3))], for numbers below 10^21. *)
Definition f_fixed3 (x : float) : float :=
  match x with
  | S754_finite false m e => f_decimal (thousandths m e) 3
  | S754_finite true m e => SFopp (f_decimal (thousandths m e) 3)
  | _ => x
  end.

(** ** The index of popular packages *)

Record PopularPackage := {
  pp_name : string;
  pp_weeklyDownloads : option num;
  pp_aliases : option (list string);
}.

Record PopularPackageIndex := {
  px_generatedAt : option string;
  px_source : string;
  px_popularPackages : list PopularPackage;
  px_knownConfusions : list (string * string);
}.

Definition index_error (message : string) : JsError := MkError None message [].

(** [typeof v === "string" && v]. *)
Definition text_of (v : jsval) : option string :=
  match v with Some (JStr s) => if String.eqb s "" then None else Some s | _ => None end.

(** The aliases, when each is a text that is not empty. *)
Fixpoint texts_of (l : list json) : option (list string) :=
  match l with
  | [] => Some []
  | v :: l' => match text_of (Some v), texts_of l' with Some s, Some ss => Some (s :: ss) | _, _ => None end
  end.

Definition parsePopularPackage (value : json) : outcome PopularPackage :=
  let fail message := Throw (index_error message) in
  if negb (isObject (Some value)) then fail "Popular package entries must be objects."
  else match text_of (prop "name" (Some value)) with
       | None => fail "Popular package entries require a name."
       | Some name =>
           match (match prop "weeklyDownloads" (Some value) with
                  | None => Some None
                  | Some (JNum n) => if num_ltb n (int 0) then None else Some (Some n)
                  | Some _ => None
                  end) with
           | None => fail ("Popular package " +:+ name +:+ " has invalid weeklyDownloads.")
           | Some downloads =>
               match (match prop "aliases" (Some value) with
                      | None => Some None
                      | Some (JArr l) => Some <$> texts_of l
                      | Some _ => None
                      end) with
               | None => fail ("Popular package " +:+ name +:+ " has invalid aliases.")
               | Some aliases => Ok {| pp_name := name; pp_weeklyDownloads := downloads; pp_aliases := aliases |}
               end
           end
       end.

Fixpoint parse_packages (l : list json) : outcome (list PopularPackage) :=
  match l with
  | [] => Ok []
  | v :: l' =>
      match parsePopularPackage v with
      | Throw e => Throw e
      | Ok p => match parse_packages l' with Throw e => Throw e | Ok ps => Ok (p :: ps) end
      end
  end.

(** [Object.fromEntries] over the entries, the requested names in lower case. *)
Fixpoint parse_confusions (acc : list (string * string)) (l : list (string * json)) :
    outcome (list (string * string)) :=
  match l with
  | [] => Ok acc
  | (requested, suggested) :: l' =>
      match text_of (Some suggested) with
      | None => Throw (index_error ("Known confusion for " +:+ requested +:+ " must be a package name."))
      | Some name => parse_confusions (assoc_set (toLowerCase requested) name acc) l'
      end
  end.

(** [a ?? b]. *)
Definition or_else (a b : jsval) : jsval := match a with None | Some JNull => b | _ => a end.

Definition parsePopularPackageIndex (value : json) (source : string) : outcome PopularPackageIndex :=
  let fail message := Throw (index_error message) in
  if negb (isObject (Some value)) then fail "Popular package index must be a JSON object."
  else match or_else (prop "popularPackages" (Some value)) (prop "packages" (Some value)) with
       | Some (JArr packages) =>
           match or_else (or_else (prop "knownConfusions" (Some value)) (prop "knownEcosystemConfusions" (Some value)))
                   (Some (JObj [])) with
           | Some (JObj confusions) =>
               match parse_packages packages with
               | Throw e => Throw e
               | Ok ps =>
                   match parse_confusions [] confusions with
                   | Throw e => Throw e
                   | Ok known =>
                       Ok {| px_generatedAt := match prop "generatedAt" (Some value) with Some (JStr s) => Some s | _ => None end;
                             px_source := source; px_popularPackages := ps; px_knownConfusions := known |}
                   end
               end
           | _ => fail "Popular package index knownConfusions must be an object."
           end
       | _ => fail "Popular package index requires a popularPackages array."
       end.

Definition popular (name : string) (weeklyDownloads : Z) : PopularPackage :=
  {| pp_name := name; pp_weeklyDownloads := Some (int weeklyDownloads); pp_aliases := None |}.

Definition defaultPopularPackages : list PopularPackage :=
  [popular "lodash" 60000000; popular "react" 30000000; popular "@tanstack/react-query" 4000000;
   popular "@vitejs/plugin-react" 5000000; popular "vite" 20000000; popular "typescript" 50000000;
   popular "express" 25000000; popular "fastify" 3000000].

Definition knownEcosystemConfusions : list (string * string) :=
  [("@tenstack/react-query", "@tanstack/react-query"); ("@vite/plugin-react", "@vitejs/plugin-react");
   ("loadash", "lodash")].

Definition defaultPopularPackageIndex : PopularPackageIndex := {|
  px_generatedAt := None; px_source := "built-in"; px_popularPackages := defaultPopularPackages;
  px_knownConfusions := knownEcosystemConfusions |}.

(** ** Similarity *)

Definition similarity (a b : string) : float :=
  let left := normaliseName a in
  let right := normaliseName b in
  let maxLength := Z.max (Z.max (slen left) (slen right)) 1 in
  f_sub (f_int 1) (f_div (f_int (damerauLevenshtein left right)) (f_int maxLength)).

Fixpoint common_prefix (n : nat) (a b : list ascii) : nat :=
  match n, a, b with
  | S n', c :: a', d :: b' => if Ascii.eqb c d then S (common_prefix n' a' b') else 0
  | _, _, _ => 0
  end.
Definition commonPrefixLength (a b : string) (maxLength : nat) : nat := common_prefix maxLength (chars a) (chars b).

(** The inner loop: the first free position of [right] in range that holds [c]. *)
Definition match_at (c : ascii) (right : list ascii) (rightMatches : list bool) (start stop : nat) : option nat :=
  find_first (λ j, bool_decide (rightMatches !! j = Some false) && bool_decide (right !! j = Some c))
    (seq start (stop - start)).

(** The outer loop over [left], from position [i]: both arrays of matches. *)
Fixpoint match_units (matchDistance : nat) (right : list ascii) (i : nat) (left : list ascii)
    (rightMatches : list bool) : list bool * list bool :=
  match left with
  | [] => ([], rightMatches)
  | c :: left' =>
      let start := (i - matchDistance)%nat in
      let stop := Nat.min (i + matchDistance + 1) (length right) in
      match match_at c right rightMatches start stop with
      | Some j =>
          let '(l, r) := match_units matchDistance right (S i) left' (<[j := true]> rightMatches) in (true :: l, r)
      | None => let '(l, r) := match_units matchDistance right (S i) left' rightMatches in (false :: l, r)
      end
  end.

(** The units of [l] whose flag is set. *)
Fixpoint select (l : list ascii) (flags : list bool) : list ascii :=
  match l, flags with
  | c :: l', true :: flags' => c :: select l' flags'
  | _ :: l', false :: flags' => select l' flags'
  | _, _ => []
  end.

Definition jaroWinklerSimilarity (a b : string) : float :=
  let left := normaliseName a in
  let right := normaliseName b in
  if String.eqb left right then f_int 1
  else if String.eqb left "" || String.eqb right "" then f_int 0
  else
    let l := chars left in
    let r := chars right in
    let matchDistance := (Nat.max (length l) (length r) / 2 - 1)%nat in
    let '(leftMatches, rightMatches) := match_units matchDistance r 0 l (replicate (length r) false) in
    let matches := Z.of_nat (length (List.filter (λ x, x) leftMatches)) in
    if matches =? 0 then f_int 0
    else
      let crossed := length (mismatches 0 (select l leftMatches) (select r rightMatches)) in
      let transpositions := f_div (f_int (Z.of_nat crossed)) (f_int 2) in
      let m := f_int matches in
      let jaro := f_div (f_add (f_add (f_div m (f_int (slen left))) (f_div m (f_int (slen right))))
                               (f_div (f_sub m transpositions) m)) (f_int 3) in
      let prefix := f_int (Z.of_nat (commonPrefixLength left right 4)) in
      f_fixed3 (f_add jaro (f_mul (f_mul prefix (f_decimal 1 1)) (f_sub (f_int 1) jaro))).

(** ** Signals *)

Record NameSquattingSignal := {
  sq_candidate : string;
  sq_similarity : float;
  sq_jaroWinklerSimilarity : float;
  sq_distance : Z;
  sq_weeklyDownloads : option num;
  sq_reasons : list string;
  sq_suggestedPackage : string;
}.

Definition trustedMirrorScopes : list string := ["@types"].

Definition isTrustedScopeMirror (requested candidate : option string * string) : bool :=
  match requested.1 with
  | Some scope =>
      negb (String.eqb scope "") && existsb (String.eqb scope) trustedMirrorScopes &&
      String.eqb (default "" candidate.1) "" && negb (String.eqb requested.2 "") &&
      String.eqb (normaliseSegment requested.2) (normaliseSegment candidate.2)
  | None => false
  end.

Definition hasComparableLength (a b : string) : bool :=
  let left := slen (normaliseName a) in
  let right := slen (normaliseName b) in
  f_geb (f_div (f_int (Z.min left right)) (f_int (Z.max (Z.max left right) 1))) (f_decimal 72 2).

(** A character of each class looks like the one given. *)
Definition visual_char (c : ascii) : ascii :=
  let same k := is_char k c in
  if same 48 || same 111 then ascii_of_N 111
  else if same 49 || same 105 || same 108 then ascii_of_N 108
  else if same 53 || same 115 then ascii_of_N 115
  else if same 50 || same 122 then ascii_of_N 122
  else if same 56 || same 98 then ascii_of_N 98
  else c.
Definition normaliseVisual (value : string) : string := of_chars (map visual_char (chars (normaliseName value))).

Record Score := { sc_name : string; sc_edit : float; sc_jaroWinkler : float; sc_distance : Z }.

Definition score_of (packageName name : string) : Score := {|
  sc_name := name; sc_edit := similarity packageName name; sc_jaroWinkler := jaroWinklerSimilarity packageName name;
  sc_distance := damerauLevenshtein (normaliseName packageName) (normaliseName name) |}.

Definition sc_best (s : Score) : float := f_max (sc_edit s) (sc_jaroWinkler s).

(** The scores of the candidate's names, best first; its own name is always among them. *)
Definition best_score (packageName : string) (candidate : PopularPackage) : Score :=
  let first := score_of packageName (pp_name candidate) in
  default first
    (head (sort_by (λ a b, negb (f_ltb (sc_best a) (sc_best b)))
             (first :: (score_of packageName <$> default [] (pp_aliases candidate))))).

Definition scope_confusion (requested candidate : option string * string) : bool :=
  negb (String.eqb requested.2 "") && negb (String.eqb candidate.2 "") &&
  negb (bool_decide (requested.1 = candidate.1)) &&
  String.eqb (normaliseName requested.2) (normaliseName candidate.2).

Definition similar_scope (requested candidate : option string) : bool :=
  match requested, candidate with
  | Some a, Some b =>
      negb (String.eqb a "") && negb (String.eqb b "") &&
      f_geb (f_max (similarity a b) (jaroWinklerSimilarity a b)) (f_decimal 75 2)
  | _, _ => false
  end.

(** [cond ? [reason] : []]. *)
Definition reason_if (cond : bool) (reason : string) : list string := if cond then [reason] else [].

(** The reasons, in the order they are pushed. *)
Definition name_reasons (index : PopularPackageIndex) (packageName : string) (candidate : PopularPackage) : list string :=
  let requested := splitPackageName packageName in
  let parts := splitPackageName (pp_name candidate) in
  let best := best_score packageName candidate in
  let confusion := scope_confusion requested parts in
  let distance := damerauLevenshtein (normaliseName packageName) (normaliseName (pp_name candidate)) in
  let known := bool_decide (assoc_get (toLowerCase packageName) (px_knownConfusions index) = Some (pp_name candidate)) in
  let alias := existsb (λ a, String.eqb (toLowerCase a) (toLowerCase packageName)) (default [] (pp_aliases candidate)) in
  reason_if (confusion || (f_geb (sc_edit best) (f_decimal 82 2) && hasComparableLength packageName (sc_name best)))
    "high_name_similarity" ++
  reason_if (f_geb (sc_jaroWinkler best) (f_decimal 9 1) && (sc_distance best <=? 2)) "high_jaro_winkler_similarity" ++
  reason_if (known || alias) "known_ecosystem_confusion" ++
  reason_if confusion "scope_confusion" ++
  reason_if (negb (String.eqb requested.2 parts.2) &&
             String.eqb (remove_class is_dash requested.2) (remove_class is_dash parts.2))
    "hyphen_or_underscore_variant" ++
  reason_if (isPluralisationVariant requested.2 parts.2) "pluralisation_variant" ++
  reason_if (similar_scope requested.1 parts.1) "similar_scope" ++
  editPatternReasons (normaliseName packageName) (normaliseName (pp_name candidate)) ++
  reason_if (String.eqb (normaliseVisual packageName) (normaliseVisual (pp_name candidate)) &&
             negb (String.eqb (normaliseName packageName) (normaliseName (pp_name candidate))))
    "visual_similarity" ++
  reason_if (distance <=? 2) "short_edit_distance".

(** [[...new Set(l)]]. *)
Fixpoint unique (seen l : list string) : list string :=
  match l with
  | [] => []
  | x :: l' => if existsb (String.eqb x) seen then unique seen l' else x :: unique (x :: seen) l'
  end.

Definition signal_for (index : PopularPackageIndex) (packageName : string) (candidate : PopularPackage) :
    NameSquattingSignal :=
  let requested := splitPackageName packageName in
  let parts := splitPackageName (pp_name candidate) in
  let best := best_score packageName candidate in
  let score := if scope_confusion requested parts then f_max (sc_best best) (f_int 1) else sc_best best in
  {| sq_candidate := pp_name candidate; sq_similarity := f_fixed3 score;
     sq_jaroWinklerSimilarity := sc_jaroWinkler best;
     sq_distance := damerauLevenshtein (normaliseName packageName) (normaliseName (pp_name candidate));
     sq_weeklyDownloads := pp_weeklyDownloads candidate;
     sq_reasons := unique [] (name_reasons index packageName candidate);
     sq_suggestedPackage := pp_name candidate |}.

Definition candidate_signals (index : PopularPackageIndex) (packageName : string) (candidate : PopularPackage) :
    list NameSquattingSignal :=
  if isTrustedScopeMirror (splitPackageName packageName) (splitPackageName (pp_name candidate)) then []
  else [signal_for index packageName candidate].

Definition detectNameSquatting (packageName : string) (index : PopularPackageIndex) : list NameSquattingSignal :=
  let others := List.filter (λ c, negb (String.eqb (pp_name c) packageName)) (px_popularPackages index) in
  let signals := concat (candidate_signals index packageName <$> others) in
  sort_by (λ a b, negb (f_ltb (sq_similarity a) (sq_similarity b)))
    (List.filter (λ s, match sq_reasons s with [] => false | _ => true end) signals).

(** ** Storing the index *)

Definition optional {A} (key : string) (f : A → json) (x : option A) : list (string * json) :=
  match x with Some a => [(key, f a)] | None => [] end.

Definition package_json (p : PopularPackage) : json :=
  JObj ([("name", JStr (pp_name p))] ++ optional "weeklyDownloads" JNum (pp_weeklyDownloads p) ++
        optional "aliases" (λ l, JArr (JStr <$> l)) (pp_aliases p)).

(** What [encodePopularPackageIndex] hands to [JSON.stringify]: keys that are undefined are
    left out of the text. *)
Definition index_json (index : PopularPackageIndex) : json :=
  JObj (optional "generatedAt" JStr (px_generatedAt index) ++
        [("popularPackages", JArr (package_json <$> px_popularPackages index));
         ("knownConfusions", JObj ((λ kv, (kv.1, JStr kv.2)) <$> px_knownConfusions index))]).

(** [popularPackageIndexDatedObjectKey] of a date in text. *)
Definition popularPackageIndexDatedObjectKey (generatedAt : string) : string :=
  "popular-index/npm/" +:+ slice_to 10 generatedAt +:+ ".json".
