(* ===== verification/NameSquattingProps.v ===== *)
(** * Package registry: properties of name-squatting detection *)

From stdpp Require Import base list strings gmap.
From Stdlib Require Import ZArith Ascii Lia SpecFloat.
From S2P Require Import Prelude JsString JsValue NameDistance NameSquatting.

(** ** Reasons *)

Lemma elem_of_unique l : ∀ seen x, x ∈ unique seen l ↔ x ∈ l ∧ x ∉ seen.
Proof.
  induction l as [|y l IH]; intros seen x; cbn; [by rewrite elem_of_nil; split; [|intros [? _]]|].
  rewrite elem_of_cons. destruct (existsb (String.eqb y) seen) eqn:E.
  - rewrite IH. apply existsb_exists in E as (z & Hz & ->%String.eqb_eq). apply list_elem_of_In in Hz.
    split; [tauto|]. by intros [[->|?] ?].
  - assert (y ∉ seen) as Hy.
    { intros Hin. apply not_true_iff_false in E. apply E, existsb_exists. exists y.
      by rewrite <- list_elem_of_In, String.eqb_refl. }
    rewrite elem_of_cons, IH, elem_of_cons. split; [intros [->|[? ?]]; tauto|].
    intros [[->|Hl] Hs]; [by left|]. destruct (decide (x = y)) as [->|]; [by left|]. right. tauto.
Qed.

Lemma NoDup_unique l : ∀ seen, NoDup (unique seen l).
Proof.
  induction l as [|y l IH]; intros seen; cbn; [constructor|]. destruct (existsb _ seen); [done|].
  constructor; [|done]. rewrite elem_of_unique. intros [_ Hy]. apply Hy. left.
Qed.

Lemma elem_of_reason_if cond r x : x ∈ reason_if cond r ↔ cond = true ∧ x = r.
Proof.
  destruct cond; cbn; [rewrite list_elem_of_singleton; by split; [|intros [_ ?]]|].
  by split; [intros ?%elem_of_nil|intros [? _]].
Qed.

(** What [detectNameSquatting] answers with, order apart. *)
Lemma elem_of_detect index packageName s :
  s ∈ detectNameSquatting packageName index ↔
  ∃ c, c ∈ px_popularPackages index ∧ pp_name c ≠ packageName ∧
    isTrustedScopeMirror (splitPackageName packageName) (splitPackageName (pp_name c)) = false ∧
    s = signal_for index packageName c ∧ sq_reasons s ≠ [].
Proof.
  unfold detectNameSquatting. rewrite elem_of_sort_by, list_elem_of_In, filter_In, in_concat. split.
  - intros [(ss & Hss & Hs) Hr]. apply list_elem_of_In, list_elem_of_fmap in Hss as (c & -> & Hc).
    apply list_elem_of_In, filter_In in Hc as [Hc%list_elem_of_In Hne]. apply list_elem_of_In in Hs.
    exists c. unfold candidate_signals in Hs. destruct (isTrustedScopeMirror _ _); [by apply elem_of_nil in Hs|].
    apply list_elem_of_singleton in Hs. split; [done|]. split; [by apply negb_true_iff, String.eqb_neq in Hne|].
    split; [done|]. split; [done|]. by destruct (sq_reasons s).
  - intros (c & Hc & Hne & Hm & -> & Hr). split; [|by destruct (sq_reasons _)].
    exists [signal_for index packageName c]. split; [|by left]. apply list_elem_of_In, list_elem_of_fmap.
    exists c. split; [unfold candidate_signals; by rewrite Hm|].
    apply list_elem_of_In, filter_In. split; [by apply list_elem_of_In|]. by apply negb_true_iff, String.eqb_neq.
Qed.

(** ** The theorems *)

Section Evidence.
Context (index : PopularPackageIndex) (packageName : string) (c : PopularPackage).

(** Two edits turn the one normalised name into the other. *)
Definition close_name : Prop :=
  ∃ n, edits (chars (normaliseName packageName)) (chars (normaliseName (pp_name c))) n ∧ n <= 2.

(** The index says so: a known confusion of the package, or an alias of it. *)
Definition confused_name : Prop :=
  assoc_get (toLowerCase packageName) (px_knownConfusions index) = Some (pp_name c) ∨
  ∃ l a, pp_aliases c = Some l ∧ a ∈ l ∧ toLowerCase a = toLowerCase packageName.

(** The name of the package under another scope. *)
Definition other_scope : Prop :=
  (splitPackageName packageName).2 ≠ "" ∧ (splitPackageName (pp_name c)).2 ≠ "" ∧
  (splitPackageName packageName).1 ≠ (splitPackageName (pp_name c)).1 ∧
  normaliseName (splitPackageName packageName).2 = normaliseName (splitPackageName (pp_name c)).2.

Lemma short_reason : close_name → "short_edit_distance" ∈ name_reasons index packageName c.
Proof.
  intros (n & Hn & Hle). unfold name_reasons. rewrite !elem_of_app, (elem_of_reason_if _ "short_edit_distance"). do 9 right.
  split; [|done]. apply Z.leb_le. pose proof (proj2 (distance_least _ _) n Hn) as H.
  unfold damerauLevenshtein. lia.
Qed.

Lemma confused_reason : confused_name → "known_ecosystem_confusion" ∈ name_reasons index packageName c.
Proof.
  intros H. unfold name_reasons. rewrite !elem_of_app, (elem_of_reason_if _ "known_ecosystem_confusion").
  do 2 right. left. split; [|done]. apply orb_true_iff. destruct H as [H|(l & a & El & Ha & E)].
  - left. by apply bool_decide_eq_true.
  - right. apply existsb_exists. exists a. rewrite El, <- list_elem_of_In. by rewrite String.eqb_eq.
Qed.

Lemma scope_reason : other_scope → "scope_confusion" ∈ name_reasons index packageName c.
Proof.
  intros (H1 & H2 & H3 & H4). unfold name_reasons.
  rewrite !elem_of_app, (elem_of_reason_if (scope_confusion _ _) "scope_confusion").
  do 3 right. left. split; [|done]. unfold scope_confusion.
  rewrite !andb_true_iff, !negb_true_iff, !String.eqb_neq, bool_decide_eq_false, String.eqb_eq. done.
Qed.

(** No near miss of a popular package goes unreported: a name other than the package's
    own and not its [@types] mirror is reported against it, with the reason and the exact
    distance, when at most two edits apart in normalised form, when the index knows it as
    a confusion or alias, and when it is the same name under another scope. *)
Theorem detectNameSquatting_reports :
  c ∈ px_popularPackages index → pp_name c ≠ packageName →
  isTrustedScopeMirror (splitPackageName packageName) (splitPackageName (pp_name c)) = false →
  close_name ∨ confused_name ∨ other_scope →
  ∃ s, s ∈ detectNameSquatting packageName index ∧
    sq_candidate s = pp_name c ∧ sq_suggestedPackage s = pp_name c ∧ NoDup (sq_reasons s) ∧
    least (chars (normaliseName packageName)) (chars (normaliseName (pp_name c))) (sq_distance s) ∧
    (close_name → "short_edit_distance" ∈ sq_reasons s) ∧
    (confused_name → "known_ecosystem_confusion" ∈ sq_reasons s) ∧
    (other_scope → "scope_confusion" ∈ sq_reasons s).
Proof.
  intros Hc Hne Hm Hev. exists (signal_for index packageName c).
  assert (∀ r, r ∈ name_reasons index packageName c → r ∈ sq_reasons (signal_for index packageName c)) as Hin.
  { intros r Hr. apply elem_of_unique. split; [done|]. by intros ?%elem_of_nil. }
  split.
  { apply elem_of_detect. exists c. repeat (split; [done|]). intros E.
    destruct Hev as [H%short_reason|[H%confused_reason|H%scope_reason]]; apply Hin in H; rewrite E in H;
      by apply elem_of_nil in H. }
  split; [done|]. split; [done|]. split; [apply NoDup_unique|]. split; [apply distance_least|].
  split; [by intros ?%short_reason%Hin|]. split; [by intros ?%confused_reason%Hin|by intros ?%scope_reason%Hin].
Qed.
End Evidence.

(** Every signal is about a package of the index other than the one asked for and not
    the runtime package of a declaration package, and gives reasons for itself. *)
Theorem detectNameSquatting_sound index packageName s :
  s ∈ detectNameSquatting packageName index →
  sq_candidate s ∈ (pp_name <$> px_popularPackages index) ∧ sq_candidate s ≠ packageName ∧ sq_reasons s ≠ [] ∧
  isTrustedScopeMirror (splitPackageName packageName) (splitPackageName (sq_candidate s)) = false.
Proof.
  intros (c & Hc & Hne & Hm & -> & Hr)%elem_of_detect. split; [by apply (list_elem_of_fmap_2 pp_name)|]. done.
Qed.

(** ** The stored index *)

(** A package the parser takes: a name, downloads that are not negative, aliases that are
    not empty. *)
Record package_ok (p : PopularPackage) : Prop := {
  pk_name : pp_name p ≠ "";
  pk_downloads : ∀ n, pp_weeklyDownloads p = Some n → isFinite n = true ∧ num_ltb n (int 0) = false;
  pk_aliases : ∀ l, pp_aliases p = Some l → "" ∉ l;
}.

(** Such packages, and confusions of distinct names in lower case with packages. *)
Record index_ok (index : PopularPackageIndex) : Prop := {
  ik_packages : Forall package_ok (px_popularPackages index);
  ik_lower : Forall (λ kv, toLowerCase kv.1 = kv.1 ∧ kv.2 ≠ "") (px_knownConfusions index);
  ik_distinct : NoDup (px_knownConfusions index).*1;
}.

Lemma text_of_str s : s ≠ "" → text_of (Some (JStr s)) = Some s.
Proof. intros H. cbn. by rewrite (proj2 (String.eqb_neq s "")). Qed.

Lemma texts_of_strs l : "" ∉ l → texts_of (JStr <$> l) = Some l.
Proof.
  induction l as [|s l IH]; [done|]. intros [Hs Hl]%not_elem_of_cons. cbn [fmap list_fmap texts_of].
  rewrite text_of_str by done. by rewrite IH.
Qed.

Lemma package_roundtrip p : package_ok p → parsePopularPackage (package_json p) = Ok p.
Proof.
  intros [Hn Hd Ha]. destruct p as [name downloads aliases]; cbn in Hn, Hd, Ha. unfold parsePopularPackage, package_json.
  cbn [isObject negb pp_name pp_weeklyDownloads pp_aliases app].
  assert (text_of (prop "name" (Some (JObj (("name", JStr name) ::
    optional "weeklyDownloads" JNum downloads ++ optional "aliases" (λ l, JArr (JStr <$> l)) aliases)))) = Some name)
    as -> by by apply text_of_str.
  destruct downloads as [n|]; cbn; [destruct (Hd n eq_refl) as [_ ->]|];
    (destruct aliases as [l|]; cbn; [by rewrite texts_of_strs by auto|done]).
Qed.

Lemma packages_roundtrip l : Forall package_ok l → parse_packages (package_json <$> l) = Ok l.
Proof.
  induction 1 as [|p l Hp _ IH]; [done|]. cbn [fmap list_fmap parse_packages].
  rewrite package_roundtrip by done. fold (fmap (M := list) package_json l). by rewrite IH.
Qed.

Lemma assoc_set_new {V} k (v : V) m : k ∉ m.*1 → assoc_set k v m = m ++ [(k, v)].
Proof.
  induction m as [|[k' v'] m IH]; [done|]. cbn. intros [Hne Hk]%not_elem_of_cons.
  rewrite (proj2 (String.eqb_neq k k')) by done. by rewrite IH.
Qed.

Lemma confusions_roundtrip l : ∀ acc,
  Forall (λ kv, toLowerCase kv.1 = kv.1 ∧ kv.2 ≠ "") l → NoDup (acc ++ l).*1 →
  parse_confusions acc ((λ kv, (kv.1, JStr kv.2)) <$> l) = Ok (acc ++ l).
Proof.
  induction l as [|[k v] l IH]; intros acc Hall Hnd; cbn [fmap list_fmap parse_confusions]; [by rewrite app_nil_r|].
  apply Forall_cons in Hall as [[Hk Hv] Hall]. cbn [fst snd] in *. rewrite text_of_str by done. rewrite Hk.
  rewrite assoc_set_new.
  2:{ rewrite fmap_app, NoDup_app in Hnd. destruct Hnd as (_ & Hd & _). intros Hin. apply (Hd k Hin). left. }
  fold (fmap (M := list) (λ kv : string * string, (kv.1, JStr kv.2)) l).
  rewrite IH; [by rewrite <- app_assoc|done|by rewrite <- app_assoc].
Qed.

(** An index that is encoded for the object store and parsed again is the index, under
    the source it was read from. *)
Theorem popular_index_roundtrip index source :
  index_ok index →
  parsePopularPackageIndex (index_json index) source =
  Ok {| px_generatedAt := px_generatedAt index; px_source := source;
        px_popularPackages := px_popularPackages index; px_knownConfusions := px_knownConfusions index |}.
Proof.
  intros [Hp Hl Hd]. destruct index as [generatedAt s packages confusions]; cbn in *.
  unfold parsePopularPackageIndex, index_json.
  destruct generatedAt as [g|]; cbn -[parse_packages parse_confusions fmap];
    by rewrite packages_roundtrip, (confusions_roundtrip confusions []).
Qed.

(** ** Concrete names *)

Definition lodash : PopularPackage := popular "lodash" 60000000.

Lemma detectNameSquatting_reports_witness :
  ∃ s, s ∈ detectNameSquatting "lodahs" defaultPopularPackageIndex ∧ sq_candidate s = "lodash" ∧
    "short_edit_distance" ∈ sq_reasons s.
Proof.
  assert (close_name "lodahs" lodash) as Hclose.
  { exists (damerauLevenshtein (normaliseName "lodahs") (normaliseName "lodash")).
    split; [apply distance_least|by vm_compute]. }
  destruct (detectNameSquatting_reports defaultPopularPackageIndex "lodahs" lodash) as (s & H1 & H2 & _ & _ & _ & H6 & _).
  - left.
  - done.
  - by vm_compute.
  - by left.
  - exists s. split; [done|]. split; [done|]. by apply H6.
Defined.

Definition loadash_signal : NameSquattingSignal := signal_for defaultPopularPackageIndex "loadash" lodash.

Lemma detectNameSquatting_sound_witness :
  sq_candidate loadash_signal ≠ "loadash" ∧ sq_reasons loadash_signal ≠ [].
Proof.
  destruct (detectNameSquatting_sound defaultPopularPackageIndex "loadash" loadash_signal) as (_ & H2 & H3 & _).
  - apply elem_of_detect. exists lodash. split; [left|]. split; [done|]. split; [by vm_compute|].
    split; [done|]. by vm_compute.
  - by split.
Defined.

Lemma popular_index_roundtrip_witness :
  parsePopularPackageIndex (index_json defaultPopularPackageIndex) "object:latest.json" =
  Ok {| px_generatedAt := None; px_source := "object:latest.json";
        px_popularPackages := defaultPopularPackages; px_knownConfusions := knownEcosystemConfusions |}.
Proof.
  apply (popular_index_roundtrip defaultPopularPackageIndex). split.
  - cbn. repeat (apply Forall_cons; split; [split; [done|intros n [= <-]; by split|done]|]). constructor.
  - cbn. repeat (apply Forall_cons; split; [by split|]). constructor.
  - apply (bool_decide_unpack _). by vm_compute.
Defined.
