(* ===== verification/WorkflowGraph.v ===== *)
(** * Desktop app: workflow graphs

    The graph part of [mezair-app/src/shared/workflow-orchestration.ts]: which nodes of a
    run are ready, how a graph is laid out in dependency columns, and the defaults and
    bounds of an orchestration; with their properties. *)

From stdpp Require Import base list strings gmap.
From Stdlib Require Import ZArith Ascii Lia.
From S2P Require Import Prelude JsString JsValue.

(** ** Data *)

(** A target policy: its kind and the fields of the kinds that have them; a list of
    capabilities is [None] when it is not an array. *)
Record WorkflowTargetPolicy := {
  tg_kind : string;
  tg_enrollmentId : option string;
  tg_environmentId : option string;
  tg_capabilities : option (list jsval);
  tg_provider : option string;
  tg_ttlSeconds : num;
}.

Record WorkflowAgentProfile := {
  pf_id : option string;
  pf_name : option string;
  pf_personaId : option string;
  pf_provider : string;
  pf_model : option string;
  pf_reasoningEffort : string;
  pf_capabilities : option (list jsval);
  pf_target : option WorkflowTargetPolicy;
}.

Record WorkflowOrchestration := {
  oc_maxConcurrency : num;
  oc_maxNodes : num;
  oc_maxDepth : num;
  oc_maxAttempts : num;
  oc_timeoutMinutes : num;
  oc_handoffChars : num;
  oc_profiles : list WorkflowAgentProfile;
}.

Inductive NodeRunStatus :=
| nr_waiting | nr_interrupted | nr_queued | nr_running | nr_completed | nr_failed | nr_skipped | nr_cancelled.

#[export] Instance NodeRunStatus_eq_dec : EqDecision NodeRunStatus.
Proof. solve_decision. Defined.

Record WorkflowEdge := { ed_id : string; ed_source : string; ed_target : string }.

(** A run, as scheduling reads it: node ids, edges, and the status of node runs. *)
Record WorkflowGraph := {
  gr_nodes : list string;
  gr_edges : list WorkflowEdge;
  gr_nodeRuns : list (string * NodeRunStatus);
}.

Definition into (id : string) (e : WorkflowEdge) : bool := String.eqb (ed_target e) id.

(** [edges.filter((edge) => edge.target === id)]. *)
Definition incoming (edges : list WorkflowEdge) (id : string) : list WorkflowEdge := List.filter (into id) edges.

(** [new Map(entries)]: a later entry replaces an earlier one. *)
Definition js_map {V} (entries : list (string * V)) : gmap string V :=
  fold_left (λ m kv, <[kv.1 := kv.2]> m) entries ∅.

Definition readyWorkflowNodes (run : WorkflowGraph) : list string :=
  let states := js_map (gr_nodeRuns run) in
  List.filter (λ id,
    bool_decide (states !! id = Some nr_queued) &&
    forallb (λ e, bool_decide (states !! ed_source e = Some nr_completed)) (incoming (gr_edges run) id))
    (gr_nodes run).

(** ** Layout *)

Definition has_depth (depths : gmap string Z) (id : string) : bool := bool_decide (is_Some (depths !! id)).

(** [Math.max(-1, ...depths) + 1]. *)
Definition next_depth (depths : gmap string Z) (edges : list WorkflowEdge) : Z :=
  fold_left Z.max ((λ e, default 0 (depths !! ed_source e)) <$> edges) (-1) + 1.

Definition place (edges : list WorkflowEdge) (acc : gmap string Z * bool) (id : string) : gmap string Z * bool :=
  let '(depths, changed) := acc in
  if has_depth depths id then (depths, changed)
  else
    let inc := incoming edges id in
    if forallb (λ e, has_depth depths (ed_source e)) inc
    then (<[id := next_depth depths inc]> depths, true)
    else (depths, changed).

Definition layout_pass (nodes : list string) (edges : list WorkflowEdge) (depths : gmap string Z) :
    gmap string Z * bool := fold_left (place edges) nodes (depths, false).

(** At most [passes] passes, until one changes nothing. *)
Fixpoint layout_passes (passes : nat) (nodes : list string) (edges : list WorkflowEdge)
    (depths : gmap string Z) : gmap string Z :=
  match passes with
  | O => depths
  | S passes' =>
      let '(depths', changed) := layout_pass nodes edges depths in
      if changed : bool then layout_passes passes' nodes edges depths' else depths'
  end.

Definition layout_depths (nodes : list string) (edges : list WorkflowEdge) : gmap string Z :=
  layout_passes (length nodes) nodes edges ∅.

(** The positions, in the order of the nodes. *)
Fixpoint layout_rows (depths : gmap string Z) (rows : gmap Z Z) (nodes : list string) :
    list (string * (Z * Z)) :=
  match nodes with
  | [] => []
  | id :: nodes' =>
      let column := default 0 (depths !! id) in
      let row := default 0 (rows !! column) in
      (id, (column * 340, row * 210)) :: layout_rows depths (<[column := row + 1]> rows) nodes'
  end.

Definition layoutWorkflowGraph (nodes : list string) (edges : list WorkflowEdge) : gmap string (Z * Z) :=
  js_map (layout_rows (layout_depths nodes edges) ∅ nodes).

(** ** Orchestration *)

Definition DEFAULT_ORCHESTRATION : WorkflowOrchestration := {|
  oc_maxConcurrency := int 1; oc_maxNodes := int 64; oc_maxDepth := int 3; oc_maxAttempts := int 3;
  oc_timeoutMinutes := int 30; oc_handoffChars := int 12000; oc_profiles := [] |}.

Definition orchestrationConfig (value : option WorkflowOrchestration) : WorkflowOrchestration :=
  default DEFAULT_ORCHESTRATION value.

Definition AGENT_PROVIDERS : list string := ["codex"; "openai"; "azure"; "cursor"; "devin"; "llmgateway"].

Definition ENVIRONMENT_PROVIDER_IDS : list string :=
  ["aws-lambda-microvm"; "cloudflare-sandbox"; "vercel-sandbox"; "mezair-managed"].

Definition reasoning_levels : list string :=
  ["none"; "minimal"; "low"; "medium"; "high"; "xhigh"; "max"; "ultra"].

Definition one_of (l : list string) (s : string) : bool := existsb (String.eqb s) l.

Definition plain_error (message : string) : JsError := MkError None message [].

(** [!x?.trim()]. *)
Definition empty_text (x : option string) : bool := match x with Some s => blank s | None => true end.

Definition is_text (v : jsval) : bool := match v with Some (JStr _) => true | _ => false end.
Definition is_blank_text (v : jsval) : bool := match v with Some (JStr s) => blank s | _ => true end.

Definition supportsRemoteWorkflowProvider (provider : string) : bool := one_of ["codex"; "azure"; "openai"] provider.

(** [Number.isInteger(v) && v >= min && v <= max]. *)
Definition integer_between (lo hi : Z) (v : num) : bool :=
  match num_to_Z v with Some z => (lo <=? z) && (z <=? hi) | None => false end.

Definition safe_integer_between (lo hi : Z) (v : num) : bool :=
  match safe_integer v with Some z => (lo <=? z) && (z <=? hi) | None => false end.

Definition validateWorkflowTarget (target : option WorkflowTargetPolicy) (provider : string) (name : option string) :
    outcome unit :=
  let fail text := Throw (plain_error (default "undefined" name +:+ text)) in
  match target with
  | None => Ok tt
  | Some t =>
      let kind k := String.eqb (tg_kind t) k in
      if negb (one_of ["local"; "device"; "auto"; "existing-environment"; "provisioned-environment"] (tg_kind t))
      then fail " has an unknown execution target."
      else if kind "local" then Ok tt
      else if negb (supportsRemoteWorkflowProvider provider)
      then fail " uses a provider that cannot run remotely in workflows."
      else if kind "device" && empty_text (tg_enrollmentId t) then fail " needs a device enrollment id."
      else if kind "existing-environment" && empty_text (tg_environmentId t) then fail " needs an environment id."
      else if kind "auto" && match tg_capabilities t with
                             | Some (c :: l) => existsb is_blank_text (c :: l)
                             | _ => true
                             end
      then fail " needs at least one automatic placement capability."
      else if kind "provisioned-environment" then
        if negb (match tg_provider t with Some p => one_of ENVIRONMENT_PROVIDER_IDS p | None => false end)
        then fail " needs a supported environment provider."
        else if negb (safe_integer_between 60 (7 * 24 * 60 * 60) (tg_ttlSeconds t))
        then fail " needs an environment lifetime between 60 seconds and 7 days."
        else Ok tt
      else Ok tt
  end.

Definition orchestration_bounds : list (string * (WorkflowOrchestration → num) * Z * Z) :=
  [("maxConcurrency", oc_maxConcurrency, 1, 16); ("maxNodes", oc_maxNodes, 1, 256);
   ("maxDepth", oc_maxDepth, 0, 6); ("maxAttempts", oc_maxAttempts, 1, 10);
   ("timeoutMinutes", oc_timeoutMinutes, 1, 1440); ("handoffChars", oc_handoffChars, 1000, 100000)].

Fixpoint check_bounds (config : WorkflowOrchestration)
    (bounds : list (string * (WorkflowOrchestration → num) * Z * Z)) : outcome unit :=
  match bounds with
  | [] => Ok tt
  | (key, field, lo, hi) :: bounds' =>
      if negb (integer_between lo hi (field config))
      then Throw (plain_error (key +:+ " must be an integer between " +:+ int_to_string lo +:+ " and "
                               +:+ int_to_string hi +:+ "."))
      else check_bounds config bounds'
  end.

Fixpoint check_profiles (ids : list string) (profiles : list WorkflowAgentProfile) : outcome unit :=
  match profiles with
  | [] => Ok tt
  | profile :: profiles' =>
      let id := default "" (trim <$> pf_id profile) in
      if String.eqb id "" || one_of ids id
      then Throw (plain_error "Specialist profile ids must be unique.")
      else
        match validateWorkflowTarget (pf_target profile) (pf_provider profile) (pf_name profile) with
        | Throw e => Throw e
        | Ok _ =>
            if empty_text (pf_name profile) || empty_text (pf_model profile) || empty_text (pf_personaId profile)
            then Throw (plain_error "Every specialist needs a name, persona, and model.")
            else if negb (one_of AGENT_PROVIDERS (pf_provider profile))
            then Throw (plain_error "Unknown specialist provider.")
            else if negb (one_of reasoning_levels (pf_reasoningEffort profile))
            then Throw (plain_error "Unknown specialist reasoning level.")
            else if match pf_capabilities profile with
                    | Some l => existsb (λ c, negb (is_text c)) l
                    | None => true
                    end
            then Throw (plain_error "Capabilities must be strings.")
            else check_profiles (id :: ids) profiles'
        end
  end.

Definition validateOrchestration (value : option WorkflowOrchestration) : outcome unit :=
  let config := orchestrationConfig value in
  match check_bounds config orchestration_bounds with
  | Throw e => Throw e
  | Ok _ =>
      if (32 <? length (oc_profiles config))%nat
      then Throw (plain_error "Use at most 32 specialist profiles.")
      else check_profiles [] (oc_profiles config)
  end.

(** ** Properties of workflow graphs *)

(** ** Maps built from entries *)

Section Entries.
Context {V : Type}.
Implicit Types m : gmap string V.

Lemma fold_insert_lookup entries : ∀ m k v,
  fold_left (λ m kv, <[kv.1 := kv.2]> m) entries m !! k = Some v → (k, v) ∈ entries ∨ m !! k = Some v.
Proof.
  induction entries as [|[k0 v0] l IH]; intros m k v Hk; cbn in Hk; [by right|].
  destruct (IH _ _ _ Hk) as [Hin|Hm]; [left; by right|]. cbn in Hm.
  apply lookup_insert_Some in Hm as [[-> ->]|[_ Hm]]; [left; left|by right].
Qed.

Lemma fold_insert_keep entries : ∀ m k v,
  m !! k = Some v → k ∉ entries.*1 → fold_left (λ m kv, <[kv.1 := kv.2]> m) entries m !! k = Some v.
Proof.
  induction entries as [|[k0 v0] l IH]; intros m k v Hm Hk; cbn; [done|].
  apply not_elem_of_cons in Hk as [Hne Hk]. apply IH; [|done]. by rewrite lookup_insert_ne.
Qed.

Lemma js_map_elem entries k (v : V) : js_map entries !! k = Some v → (k, v) ∈ entries.
Proof. intros [H|H]%fold_insert_lookup; [done|by rewrite lookup_empty in H]. Qed.

Lemma fold_insert_found entries : ∀ m k v,
  NoDup entries.*1 → (k, v) ∈ entries → fold_left (λ m kv, <[kv.1 := kv.2]> m) entries m !! k = Some v.
Proof.
  induction entries as [|[k0 v0] l IH]; intros m k v Hnd Hin; [by apply elem_of_nil in Hin|].
  cbn in Hnd. apply NoDup_cons in Hnd as [Hk0 Hnd]. cbn. apply elem_of_cons in Hin as [[= -> ->]|Hin].
  - apply fold_insert_keep; [apply lookup_insert_eq|done].
  - by apply IH.
Qed.

Lemma js_map_found entries k (v : V) : NoDup entries.*1 → (k, v) ∈ entries → js_map entries !! k = Some v.
Proof. apply fold_insert_found. Qed.
End Entries.

(** ** Depths *)

Lemma size_list_to_set_le (l : list string) : (size (list_to_set l : gset string) <= length l)%nat.
Proof.
  induction l as [|x l IH]; cbn; [by rewrite size_empty|].
  rewrite size_union_alt, size_singleton.
  pose proof (subseteq_size ((list_to_set l : gset string) ∖ {[x]}) (list_to_set l) ltac:(set_solver)). lia.
Qed.

Lemma fold_max_ge l : ∀ a, a <= fold_left Z.max l a ∧ ∀ x, x ∈ l → x <= fold_left Z.max l a.
Proof.
  induction l as [|y l IH]; intros a; cbn; [by split; [|intros x ?%elem_of_nil]|].
  destruct (IH (Z.max a y)) as [H1 H2]. split; [lia|]. intros x [->|Hx]%elem_of_cons; [lia|auto].
Qed.

Lemma elem_of_incoming edges id e : e ∈ incoming edges id ↔ e ∈ edges ∧ ed_target e = id.
Proof.
  unfold incoming, into. rewrite !list_elem_of_In, filter_In.
  by rewrite String.eqb_eq.
Qed.

Lemma has_depth_spec depths id : has_depth depths id = true ↔ is_Some (depths !! id).
Proof. unfold has_depth. by rewrite bool_decide_eq_true. Qed.

Section Depths.
Context (nodes : list string) (edges : list WorkflowEdge).
Implicit Types d : gmap string Z.

(** Every edge into a placed node comes from a node placed further left. *)
Definition depths_ok d : Prop :=
  (∀ id, is_Some (d !! id) → id ∈ nodes) ∧
  ∀ id n e, d !! id = Some n → e ∈ incoming edges id → ∃ m, d !! ed_source e = Some m ∧ m < n.

Definition stuck d (l : list string) : Prop :=
  ∀ id, id ∈ l → has_depth d id = true ∨ ∃ e, e ∈ incoming edges id ∧ has_depth d (ed_source e) = false.

Lemma next_depth_gt d inc e m : e ∈ inc → d !! ed_source e = Some m → m < next_depth d inc.
Proof.
  intros He Hm. unfold next_depth.
  destruct (fold_max_ge ((λ e, default 0 (d !! ed_source e)) <$> inc) (-1)) as [_ Hx].
  assert (m ∈ (λ e, default 0 (d !! ed_source e)) <$> inc) as Hin.
  { apply list_elem_of_fmap. exists e. by rewrite Hm. }
  specialize (Hx m Hin). lia.
Qed.

Lemma place_spec d c id d' c' :
  id ∈ nodes → depths_ok d → place edges (d, c) id = (d', c') →
  depths_ok d' ∧ (size d <= size d')%nat ∧
  (c' = true → c = true ∨ (size d < size d')%nat) ∧
  (c' = false → c = false ∧ d' = d ∧ stuck d [id]).
Proof.
  intros Hid [Hk Hd]. unfold place. destruct (has_depth d id) eqn:Eh.
  { intros [= <- <-]. split; [done|]. split; [done|]. split; [by left|]. intros ->.
    split; [done|]. split; [done|]. intros x ->%list_elem_of_singleton. by left. }
  assert (d !! id = None) as Hnone.
  { destruct (d !! id) eqn:E; [|done]. unfold has_depth in Eh. rewrite E in Eh. by vm_compute in Eh. }
  destruct (forallb _ (incoming edges id)) eqn:Ef; intros [= <- <-].
  - rewrite forallb_forall in Ef.
    assert (size (<[id:=next_depth d (incoming edges id)]> d) = S (size d)) as Hsize by by apply map_size_insert_None.
    split; [|split; [lia|split; [right; lia|done]]]. split.
    + intros x. destruct (decide (x = id)) as [->|Hne]; [done|]. rewrite lookup_insert_ne by done. apply Hk.
    + intros x n e Hx He.
      assert (∀ y m, d !! y = Some m → <[id:=next_depth d (incoming edges id)]> d !! y = Some m) as Hkeep.
      { intros y m Hy. rewrite lookup_insert_ne; [done|]. intros ->. congruence. }
      destruct (decide (x = id)) as [->|Hne].
      * rewrite lookup_insert_eq in Hx. injection Hx as <-.
        pose proof (Ef e (proj1 (list_elem_of_In _ _) He)) as [m Hm]%has_depth_spec.
        exists m. split; [by apply Hkeep|by eapply next_depth_gt].
      * rewrite lookup_insert_ne in Hx by done. destruct (Hd x n e Hx He) as (m & Hm & Hlt).
        exists m. split; [by apply Hkeep|done].
  - split; [done|]. split; [done|]. split; [by left|]. intros ->. split; [done|]. split; [done|].
    intros x ->%list_elem_of_singleton. right. apply not_true_iff_false in Ef. rewrite forallb_forall in Ef.
    destruct (existsb (λ e, negb (has_depth d (ed_source e))) (incoming edges id)) eqn:Ee.
    + apply existsb_exists in Ee as (e & He & Hn). exists e.
      split; [by apply list_elem_of_In|by apply negb_true_iff].
    + destruct Ef. intros e He. apply not_false_iff_true. intros Hf.
      assert (existsb (λ e, negb (has_depth d (ed_source e))) (incoming edges id) = true) as Ht; [|congruence].
      apply existsb_exists. exists e. by rewrite Hf.
Qed.

Lemma pass_spec l : ∀ d c d' c',
  (∀ id, id ∈ l → id ∈ nodes) → depths_ok d → fold_left (place edges) l (d, c) = (d', c') →
  depths_ok d' ∧ (size d <= size d')%nat ∧
  (c' = true → c = true ∨ (size d < size d')%nat) ∧
  (c' = false → c = false ∧ d' = d ∧ stuck d l).
Proof.
  induction l as [|id l IH]; intros d c d' c' Hl Hok Hfold.
  { injection Hfold as <- <-. split; [done|]. split; [done|]. split; [by left|]. intros ->.
    split; [done|]. split; [done|]. by intros x ?%elem_of_nil. }
  cbn [fold_left] in Hfold. destruct (place edges (d, c) id) as [d1 c1] eqn:Ep.
  destruct (place_spec _ _ _ _ _ (Hl id (list_elem_of_here _ _)) Hok Ep) as (Hok1 & Hs1 & Ht1 & Hf1).
  destruct (IH d1 c1 d' c' (λ x Hx, Hl x (list_elem_of_further _ _ _ Hx)) Hok1 Hfold) as (Hok2 & Hs2 & Ht2 & Hf2).
  split; [done|]. split; [lia|]. split.
  - intros E. destruct (Ht2 E) as [E1|Hlt]; [|right; lia].
    destruct (Ht1 E1) as [?|Hlt]; [by left|right; lia].
  - intros E. destruct (Hf2 E) as (E1 & -> & Hst). destruct (Hf1 E1) as (E0 & -> & Hst0).
    split; [done|]. split; [done|]. intros x [->|Hx]%elem_of_cons; [|by apply Hst].
    apply Hst0. left.
Qed.

(** Acyclic: the edges go up in a rank, and start at nodes. *)
Context (rank : string → nat)
  (acyclic : ∀ e, e ∈ edges → ed_source e ∈ nodes ∧ (rank (ed_source e) < rank (ed_target e))%nat).

Lemma stuck_all d : stuck d nodes → ∀ k id, (rank id < k)%nat → id ∈ nodes → is_Some (d !! id).
Proof using acyclic.
  intros Hs. induction k as [|k IH]; intros id Hk Hid; [lia|].
  destruct (Hs id Hid) as [Hd|(e & He & Hn)]; [by apply has_depth_spec|].
  apply elem_of_incoming in He as [He <-]. destruct (acyclic e He) as [Hsrc Hlt].
  assert (is_Some (d !! ed_source e)) as Hd by (apply IH; [lia|done]).
  apply has_depth_spec in Hd. congruence.
Qed.

Lemma full_all d : depths_ok d → (length nodes <= size d)%nat → ∀ id, id ∈ nodes → is_Some (d !! id).
Proof.
  intros [Hk _] Hsz id Hid. apply elem_of_dom.
  assert (dom d = list_to_set nodes) as ->; [|by apply elem_of_list_to_set].
  apply set_subseteq_size_eq.
  - intros x Hx. apply elem_of_list_to_set, Hk. by apply elem_of_dom.
  - rewrite size_dom. pose proof (size_list_to_set_le nodes). lia.
Qed.

Lemma passes_spec n : ∀ d,
  depths_ok d → (length nodes <= n + size d)%nat →
  let d' := layout_passes n nodes edges d in
  depths_ok d' ∧ ∀ id, id ∈ nodes → is_Some (d' !! id).
Proof using acyclic.
  induction n as [|n IH]; intros d Hok Hn; cbn [layout_passes].
  { split; [done|]. apply full_all; [done|]. cbn in Hn. lia. }
  destruct (layout_pass nodes edges d) as [d1 c1] eqn:E.
  destruct (pass_spec nodes d false d1 c1 (λ _ H, H) Hok E) as (Hok1 & Hs1 & Ht1 & Hf1).
  destruct c1.
  - apply IH; [done|]. destruct (Ht1 eq_refl) as [?|Hlt]; [done|lia].
  - destruct (Hf1 eq_refl) as (_ & -> & Hst). split; [done|]. intros id Hid.
    by apply (stuck_all d Hst (S (rank id))); [lia|].
Qed.

Lemma depths_placed :
  depths_ok (layout_depths nodes edges) ∧
  ∀ id, id ∈ nodes → is_Some (layout_depths nodes edges !! id).
Proof using acyclic.
  apply passes_spec; [|lia]. split.
  - intros id [x Hx]. by rewrite lookup_empty in Hx.
  - intros id n e Hx. by rewrite lookup_empty in Hx.
Qed.
End Depths.

(** ** Rows *)

Lemma rows_keys depths nodes : ∀ rows, (layout_rows depths rows nodes).*1 = nodes.
Proof. induction nodes as [|id l IH]; intros rows; cbn; [done|]. by rewrite IH. Qed.

Lemma rows_above depths nodes : ∀ rows id p, (id, p) ∈ layout_rows depths rows nodes →
  ∃ c r, p = (c * 340, r * 210) ∧ c = default 0 (depths !! id) ∧ default 0 (rows !! c) <= r.
Proof.
  induction nodes as [|id l IH]; intros rows id' p Hin; [by apply elem_of_nil in Hin|].
  cbn [layout_rows] in Hin. apply elem_of_cons in Hin as [[= -> ->]|Hin].
  { eexists _, _. split; [done|]. by split. }
  destruct (IH _ _ _ Hin) as (c & r & -> & Hc & Hr). exists c, r. split; [done|]. split; [done|].
  destruct (decide (c = default 0 (depths !! id))) as [->|Hne].
  - rewrite lookup_insert_eq in Hr. cbn in Hr. lia.
  - by rewrite lookup_insert_ne in Hr.
Qed.

Lemma rows_distinct depths nodes : ∀ rows, NoDup (layout_rows depths rows nodes).*2.
Proof.
  induction nodes as [|id l IH]; intros rows; cbn [layout_rows]; [constructor|].
  rewrite fmap_cons. apply NoDup_cons. split; [|apply IH].
  intros ([id' p] & E & Hin)%list_elem_of_fmap. cbn in E. subst p.
  destruct (rows_above _ _ _ _ _ Hin) as (c & r & [= E1 E2] & Hc & Hr).
  assert (c = default 0 (depths !! id)) as -> by lia.
  rewrite lookup_insert_eq in Hr. cbn in Hr. lia.
Qed.

(** The layout of a graph with distinct node ids gives every node a position of its
    own; and when the edges are acyclic and start at nodes, it terminates with every
    node placed and each edge leading at least one column, 340 units, to the right. *)
Theorem layoutWorkflowGraph_exact nodes edges (rank : string → nat) :
  NoDup nodes →
  let layout := layoutWorkflowGraph nodes edges in
  (∀ id, id ∈ nodes → is_Some (layout !! id)) ∧
  (∀ id1 id2 p, layout !! id1 = Some p → layout !! id2 = Some p → id1 = id2) ∧
  ((∀ e, e ∈ edges → ed_source e ∈ nodes ∧ (rank (ed_source e) < rank (ed_target e))%nat) →
   ∀ e p q, e ∈ edges → layout !! ed_source e = Some p → layout !! ed_target e = Some q →
   p.1 + 340 <= q.1).
Proof.
  intros Hnd. cbn zeta. unfold layoutWorkflowGraph. set (d := layout_depths nodes edges).
  assert (NoDup (layout_rows d ∅ nodes).*1) as Hk by by rewrite rows_keys.
  split; [|split].
  - intros id Hid. rewrite <- (rows_keys d nodes ∅) in Hid.
    apply list_elem_of_fmap in Hid as ([id' p] & -> & Hin). exists p. by apply js_map_found.
  - intros id1 id2 p H1%js_map_elem H2%js_map_elem.
    apply list_elem_of_lookup in H1 as [i Hi], H2 as [j Hj].
    assert (i = j) as <-; [|congruence].
    eapply (NoDup_lookup _ _ _ p (rows_distinct d nodes ∅)); rewrite list_lookup_fmap; by rewrite ?Hi, ?Hj.
  - intros Hac e p q He Hp%js_map_elem Hq%js_map_elem.
    destruct (depths_placed nodes edges rank Hac) as [[_ Hok] Hall]. fold d in Hok, Hall.
    destruct (rows_above _ _ _ _ _ Hp) as (c & r & -> & Hc & _).
    destruct (rows_above _ _ _ _ _ Hq) as (c' & r' & -> & Hc' & _). cbn.
    assert (ed_target e ∈ nodes) as Ht.
    { rewrite <- (rows_keys d nodes ∅). apply list_elem_of_fmap. by exists (ed_target e, (c' * 340, r' * 210)). }
    destruct (Hall _ Ht) as [n Hn]. destruct (Hok _ _ e Hn) as (m & Hm & Hlt); [by apply elem_of_incoming|].
    rewrite Hn in Hc'. rewrite Hm in Hc. cbn in Hc, Hc'. lia.
Qed.

(** ** Ready nodes *)

Lemma elem_of_ready run id :
  id ∈ readyWorkflowNodes run ↔ id ∈ gr_nodes run ∧ js_map (gr_nodeRuns run) !! id = Some nr_queued ∧
    ∀ e, e ∈ gr_edges run → ed_target e = id → js_map (gr_nodeRuns run) !! ed_source e = Some nr_completed.
Proof.
  unfold readyWorkflowNodes. rewrite !list_elem_of_In, filter_In, andb_true_iff.
  rewrite bool_decide_eq_true, forallb_forall. setoid_rewrite bool_decide_eq_true.
  split; (intros (H1 & H2 & H3); split; [done|split; [done|]]).
  - intros e He Ht. apply H3, list_elem_of_In. by apply elem_of_incoming.
  - intros e He. apply list_elem_of_In, elem_of_incoming in He as [He Ht]. by apply H3.
Qed.

(** A node is ready exactly when it is queued and every step it depends on is
    completed; and a run with an acyclic graph whose nodes are all queued or completed
    always has a ready node while one is queued, so it cannot get stuck. *)
Theorem readyWorkflowNodes_exact run (rank : string → nat) :
  let status id := js_map (gr_nodeRuns run) !! id in
  (∀ id, id ∈ readyWorkflowNodes run ↔ id ∈ gr_nodes run ∧ status id = Some nr_queued ∧
     ∀ e, e ∈ gr_edges run → ed_target e = id → status (ed_source e) = Some nr_completed) ∧
  ((∀ e, e ∈ gr_edges run → ed_source e ∈ gr_nodes run ∧ (rank (ed_source e) < rank (ed_target e))%nat) →
   (∀ id, id ∈ gr_nodes run → status id = Some nr_queued ∨ status id = Some nr_completed) →
   (∃ id, id ∈ gr_nodes run ∧ status id = Some nr_queued) → readyWorkflowNodes run ≠ []).
Proof.
  cbn zeta.
  pose proof (elem_of_ready run) as Hready.
  split; [exact Hready|]. intros Hac Hst (id & Hid & Hq) Hnil.
  assert (∀ k id, (rank id < k)%nat → id ∈ gr_nodes run → js_map (gr_nodeRuns run) !! id ≠ Some nr_queued) as Hno.
  { clear id Hid Hq. induction k as [|k IH]; intros id Hk Hid Hq; [lia|].
    assert (id ∈ readyWorkflowNodes run) as Hin; [|rewrite Hnil in Hin; by apply elem_of_nil in Hin].
    apply Hready. split; [done|]. split; [done|]. intros e He <-. destruct (Hac e He) as [Hsrc Hlt].
    destruct (Hst _ Hsrc) as [Hs|Hs]; [|done]. destruct (IH (ed_source e)); [lia|done|done]. }
  by apply (Hno (S (rank id)) id); [lia|..].
Qed.

(** ** Orchestration bounds *)

(** The value is an integer in a range. *)
Definition int_in (lo hi : Z) (v : num) : Prop := ∃ z, num_to_Z v = Some z ∧ lo <= z <= hi.

(** A text that is not blank. *)
Definition says_something (x : option string) : Prop := ∃ s, x = Some s ∧ blank s = false.

(** The places a step may run: here; or, for a provider that can run remotely, on a
    named device, in a named environment, wherever given capabilities are, or in an
    environment provisioned for 60 seconds to 7 days. *)
Definition target_ok (provider : string) (target : option WorkflowTargetPolicy) : Prop :=
  match target with
  | None => True
  | Some t =>
      tg_kind t = "local" ∨
      provider ∈ ["codex"; "azure"; "openai"] ∧
      ((tg_kind t = "device" ∧ says_something (tg_enrollmentId t)) ∨
       (tg_kind t = "existing-environment" ∧ says_something (tg_environmentId t)) ∨
       (tg_kind t = "auto" ∧ ∃ l, tg_capabilities t = Some l ∧ l ≠ [] ∧
          Forall (λ c, ∃ s, c = Some (JStr s) ∧ blank s = false) l) ∨
       (tg_kind t = "provisioned-environment" ∧
          (∃ p, tg_provider t = Some p ∧ p ∈ ENVIRONMENT_PROVIDER_IDS) ∧
          ∃ z, safe_integer (tg_ttlSeconds t) = Some z ∧ 60 <= z <= 604800))
  end.

Definition profile_id (p : WorkflowAgentProfile) : string := default "" (trim <$> pf_id p).

Record profile_ok (p : WorkflowAgentProfile) : Prop := {
  po_id : profile_id p ≠ "";
  po_target : target_ok (pf_provider p) (pf_target p);
  po_name : says_something (pf_name p);
  po_model : says_something (pf_model p);
  po_persona : says_something (pf_personaId p);
  po_provider : pf_provider p ∈ AGENT_PROVIDERS;
  po_reasoning : pf_reasoningEffort p ∈ reasoning_levels;
  po_capabilities : ∃ l, pf_capabilities p = Some l ∧ Forall (λ c, ∃ s, c = Some (JStr s)) l;
}.

Lemma one_of_spec l s : one_of l s = true ↔ s ∈ l.
Proof.
  unfold one_of. rewrite existsb_exists. split.
  - intros (x & Hx & E). apply String.eqb_eq in E. subst. by apply list_elem_of_In.
  - intros Hs. exists s. split; [by apply list_elem_of_In|apply String.eqb_refl].
Qed.

Lemma integer_between_spec lo hi v : integer_between lo hi v = true ↔ int_in lo hi v.
Proof.
  unfold integer_between, int_in. destruct (num_to_Z v) as [z|]; [|by split; [|intros (z & ? & _)]].
  rewrite andb_true_iff, !Z.leb_le. split; [by intros; exists z|by intros (z' & [=->] & ?)].
Qed.

Lemma empty_text_spec x : empty_text x = false ↔ says_something x.
Proof. unfold empty_text, says_something. destruct x as [s|]; [|by split; [|intros (? & ? & _)]]. naive_solver. Qed.

Lemma existsb_negb {A} (p : A → bool) (P : A → Prop) l :
  (∀ x, p x = false ↔ P x) → existsb p l = false ↔ Forall P l.
Proof.
  intros Hp. induction l as [|x l IH]; cbn; [done|]. by rewrite orb_false_iff, Forall_cons, Hp, IH.
Qed.

Lemma text_spec c : negb (is_text c) = false ↔ ∃ s, c = Some (JStr s).
Proof. destruct c as [[]|]; cbn; (split; [try done|by intros [? ?]]). by intros _; eexists. Qed.

Lemma blank_text_spec c : is_blank_text c = false ↔ ∃ s, c = Some (JStr s) ∧ blank s = false.
Proof.
  destruct c as [[| | |s| |]|]; cbn; try (split; [done|by intros (? & [=] & _)]).
  split; [by intros; exists s|by intros (? & [= <-] & ?)].
Qed.

Lemma safe_between_spec lo hi v :
  safe_integer_between lo hi v = true ↔ ∃ z, safe_integer v = Some z ∧ lo <= z <= hi.
Proof.
  unfold safe_integer_between. destruct (safe_integer v) as [z|]; [|by split; [|intros (z & ? & _)]].
  rewrite andb_true_iff, !Z.leb_le. split; [by intros; exists z|by intros (z' & [=->] & ?)].
Qed.

Lemma target_spec target provider name :
  validateWorkflowTarget target provider name = Ok tt ↔ target_ok provider target.
Proof.
  unfold validateWorkflowTarget, target_ok. destruct target as [t|]; [|done].
  destruct (one_of ["local"; _; _; _; _] (tg_kind t)) eqn:Ek; cbn [negb].
  2:{ split; [done|]. apply not_true_iff_false in Ek. intros Ht. destruct Ek. apply one_of_spec.
      rewrite !elem_of_cons. destruct Ht as [E|(_ & [(E & _)|[(E & _)|[(E & _)|(E & _)]]])]; rewrite E; tauto. }
  pose proof (one_of_spec ["codex"; "azure"; "openai"] provider) as Hrem.
  change (one_of ["codex"; "azure"; "openai"] provider) with (supportsRemoteWorkflowProvider provider) in Hrem.
  apply one_of_spec in Ek.
  destruct (String.eqb_spec (tg_kind t) "local") as [El|El]; [split; [by left|done]|].
  destruct (supportsRemoteWorkflowProvider provider); cbn [negb].
  2:{ split; [done|]. intros [?|[Hp _]]; [done|]. by apply Hrem in Hp. }
  pose proof (proj1 Hrem eq_refl) as Hp. clear Hrem.
  assert (∀ P, (tg_kind t = "local" ∨ provider ∈ ["codex"; "azure"; "openai"] ∧ P) ↔ P) as ->.
  { intros P. split; [by intros [?|[_ ?]]|by right]. }
  repeat (apply elem_of_cons in Ek as [Ek|Ek]); [done|..|by apply elem_of_nil in Ek]; rewrite Ek;
    cbn -[blank empty_text existsb one_of is_blank_text]; clear El.
  - rewrite <- empty_text_spec. destruct (empty_text _); split; try done; [|by left].
    intros [[_ ?]|[[? _]|[[? _]|[? _]]]]; done.
  - transitivity (∃ l, tg_capabilities t = Some l ∧ l ≠ [] ∧
          Forall (λ c, ∃ s, c = Some (JStr s) ∧ blank s = false) l).
    2:{ split; [by right; right; left|]. by intros [[? _]|[[? _]|[[_ ?]|[? _]]]]. }
    destruct (tg_capabilities t) as [[|c l]|]; [by split; [|intros (? & [= <-] & ? & _)]| |by split; [|intros (? & ? & _)]].
    pose proof (existsb_negb is_blank_text _ (c :: l) blank_text_spec) as Hb.
    destruct (existsb is_blank_text (c :: l)).
    + split; [done|]. intros (l' & [= <-] & _ & HF). by apply Hb in HF.
    + split; [|done]. intros _. exists (c :: l). split; [done|]. split; [done|]. by apply Hb.
  - rewrite <- (empty_text_spec (tg_environmentId t)). destruct (empty_text (tg_environmentId t)); split; try done; [|by right; left].
    intros [[? _]|[[_ ?]|[[? _]|[? _]]]]; done.
  - change (7 * 24 * 60 * 60) with 604800. pose proof (safe_between_spec 60 604800 (tg_ttlSeconds t)) as Hz.
    transitivity ((∃ p, tg_provider t = Some p ∧ p ∈ ENVIRONMENT_PROVIDER_IDS) ∧
          ∃ z, safe_integer (tg_ttlSeconds t) = Some z ∧ 60 <= z <= 604800).
    2:{ split; [by right; right; right|]. by intros [[? _]|[[? _]|[[? _]|[_ ?]]]]. }
    destruct (tg_provider t) as [p|]; [|by split; [|intros [(? & ? & _) _]]].
    pose proof (one_of_spec ENVIRONMENT_PROVIDER_IDS p) as Hone.
    destruct (one_of ENVIRONMENT_PROVIDER_IDS p); cbn [negb].
    2:{ split; [done|]. intros [(? & [= <-] & Hin) _]. by apply Hone in Hin. }
    destruct (safe_integer_between 60 604800 (tg_ttlSeconds t)); cbn [negb].
    + split; [|done]. intros _. split; [exists p; split; [done|by apply Hone]|by apply Hz].
    + split; [done|]. intros [_ HF]. by apply Hz in HF.
Qed.

Lemma not_one_of l s : one_of l s = false ↔ s ∉ l.
Proof. rewrite <- one_of_spec. by destruct (one_of l s). Qed.

Lemma profiles_spec profiles : ∀ ids,
  check_profiles ids profiles = Ok tt ↔
  Forall profile_ok profiles ∧ NoDup (profile_id <$> profiles) ∧
  ∀ p, p ∈ profiles → profile_id p ∉ ids.
Proof.
  induction profiles as [|p l IH]; intros ids; cbn [check_profiles].
  { split; [|done]. intros _. split; [done|]. split; [constructor|]. by intros p ?%elem_of_nil. }
  rewrite Forall_cons, fmap_cons, NoDup_cons. fold (profile_id p).
  destruct (String.eqb_spec (profile_id p) "") as [E|Hne]; cbn [orb].
  { split; [done|]. by intros ([[Hi] _] & _). }
  destruct (one_of ids (profile_id p)) eqn:Eo; cbn [orb].
  { split; [done|]. intros (_ & _ & Hall). apply one_of_spec in Eo. destruct (Hall p); [left|done]. }
  apply not_one_of in Eo.
  destruct (validateWorkflowTarget _ _ _) as [[]|e] eqn:Et.
  2:{ split; [done|]. intros ([[_ Ht] _] & _). apply (target_spec _ _ (pf_name p)) in Ht. congruence. }
  apply target_spec in Et.
  destruct (empty_text (pf_name p) || empty_text (pf_model p) || empty_text (pf_personaId p)) eqn:Ee.
  { split; [done|]. intros ([[_ _ Hn Hm Hp _ _ _] _] & _). apply empty_text_spec in Hn, Hm, Hp.
    by rewrite Hn, Hm, Hp in Ee. }
  apply orb_false_iff in Ee as [[En Em]%orb_false_iff Ep]. apply empty_text_spec in En, Em, Ep.
  destruct (one_of AGENT_PROVIDERS (pf_provider p)) eqn:Ea; cbn [negb].
  2:{ split; [done|]. intros ([[_ _ _ _ _ Ha _ _] _] & _). apply one_of_spec in Ha. congruence. }
  destruct (one_of reasoning_levels (pf_reasoningEffort p)) eqn:Er; cbn [negb].
  2:{ split; [done|]. intros ([[_ _ _ _ _ _ Hr _] _] & _). apply one_of_spec in Hr. congruence. }
  apply one_of_spec in Ea, Er.
  destruct (pf_capabilities p) as [caps|] eqn:Ec.
  2:{ split; [done|]. intros ([[_ _ _ _ _ _ _ (c & Hc & _)] _] & _). congruence. }
  pose proof (existsb_negb (λ c, negb (is_text c)) _ caps text_spec) as Hcaps.
  destruct (existsb _ caps).
  { split; [done|]. intros ([[_ _ _ _ _ _ _ (c & Hc & HF)] _] & _). rewrite Ec in Hc. injection Hc as <-.
    by apply Hcaps in HF. }
  rewrite IH. split.
  - intros (Hall & Hnd & Hids). split; [split; [|done]|split; [split; [|done]|]].
    + constructor; try done. exists caps. split; [done|]. by apply Hcaps.
    + intros (q & Eq & Hq)%list_elem_of_fmap. apply (Hids q Hq). rewrite <- Eq. left.
    + intros q [->|Hq]%elem_of_cons; [done|]. intros Hin. apply (Hids q Hq). by right.
  - intros ([_ Hall] & [Hnin Hnd] & Hids). split; [done|]. split; [done|]. intros q Hq [E|Hin]%elem_of_cons.
    + apply Hnin, list_elem_of_fmap. by exists q.
    + apply (Hids q); [by right|done].
Qed.

Lemma bounds_spec config l :
  check_bounds config l = Ok tt ↔ Forall (λ b, int_in b.1.2 b.2 (b.1.1.2 config)) l.
Proof.
  induction l as [|[[[key field] lo] hi] l IH]; cbn [check_bounds]; [done|].
  rewrite Forall_cons. cbn [fst snd]. rewrite <- integer_between_spec.
  destruct (integer_between lo hi (field config)); cbn [negb]; [by rewrite IH; split; [|intros [_ ?]]|by split; [|intros [? _]]].
Qed.

(** [validateOrchestration] accepts exactly the configurations whose six limits are
    integers in their ranges, with at most 32 specialists, of distinct non-blank ids,
    each with a name, model and persona, a known provider and reasoning level, textual
    capabilities, and a target its provider can run on. *)
Lemma validateOrchestration_exact value :
  let c := orchestrationConfig value in
  validateOrchestration value = Ok tt ↔
  (int_in 1 16 (oc_maxConcurrency c) ∧ int_in 1 256 (oc_maxNodes c) ∧ int_in 0 6 (oc_maxDepth c) ∧
   int_in 1 10 (oc_maxAttempts c) ∧ int_in 1 1440 (oc_timeoutMinutes c) ∧
   int_in 1000 100000 (oc_handoffChars c)) ∧
  (length (oc_profiles c) <= 32)%nat ∧ NoDup (profile_id <$> oc_profiles c) ∧
  Forall profile_ok (oc_profiles c).
Proof.
  cbn zeta. set (c := orchestrationConfig value). unfold validateOrchestration. fold c.
  pose proof (bounds_spec c orchestration_bounds) as Hb. unfold orchestration_bounds in Hb at 2.
  rewrite !Forall_cons in Hb. cbn [fst snd] in Hb.
  destruct (check_bounds c orchestration_bounds) as [[]|e].
  2:{ split; [done|]. intros ((H1 & H2 & H3 & H4 & H5 & H6) & _).
      assert (Throw (A := unit) e = Ok tt) as Hx; [|done]. apply Hb. by repeat split. }
  pose proof (proj1 Hb eq_refl) as (H1 & H2 & H3 & H4 & H5 & H6 & _).
  destruct (Nat.ltb_spec 32 (length (oc_profiles c))) as [Hl|Hl].
  { split; [done|]. intros (_ & Hle & _). lia. }
  rewrite profiles_spec. split.
  - intros (Hall & Hnd & _). by repeat split.
  - intros (_ & _ & Hnd & Hall). split; [done|]. split; [done|]. by intros p _ ?%elem_of_nil.
Qed.

(** ** A concrete graph *)

Definition demo_nodes : list string := ["review"; "plan"; "build"; "accept"].
Definition demo_edges : list WorkflowEdge :=
  [{| ed_id := ""; ed_source := "plan"; ed_target := "build" |}; {| ed_id := ""; ed_source := "build"; ed_target := "review" |};
   {| ed_id := ""; ed_source := "plan"; ed_target := "review" |}; {| ed_id := ""; ed_source := "review"; ed_target := "accept" |}].

Definition demo_rank (id : string) : nat :=
  if String.eqb id "plan" then 0 else if String.eqb id "build" then 1 else if String.eqb id "review" then 2 else 3.

Lemma demo_acyclic e : e ∈ demo_edges → ed_source e ∈ demo_nodes ∧ (demo_rank (ed_source e) < demo_rank (ed_target e))%nat.
Proof.
  intros He. repeat (apply elem_of_cons in He as [->|He]); [..|by apply elem_of_nil in He];
    (split; [apply one_of_spec; by vm_compute|vm_compute; lia]).
Qed.

Lemma layoutWorkflowGraph_exact_witness :
  layoutWorkflowGraph demo_nodes demo_edges !! "build" = Some (340, 0) ∧
  layoutWorkflowGraph demo_nodes demo_edges !! "review" = Some (680, 0) ∧ 340 + 340 <= 680.
Proof.
  assert (NoDup demo_nodes) as Hnd by (apply (bool_decide_unpack _); by vm_compute).
  destruct (layoutWorkflowGraph_exact demo_nodes demo_edges demo_rank Hnd) as (_ & _ & H).
  assert (layoutWorkflowGraph demo_nodes demo_edges !! "build" = Some (340, 0)) as E1 by by vm_compute.
  assert (layoutWorkflowGraph demo_nodes demo_edges !! "review" = Some (680, 0)) as E2 by by vm_compute.
  split; [exact E1|]. split; [exact E2|].
  apply (H demo_acyclic {| ed_id := ""; ed_source := "build"; ed_target := "review" |} (340, 0) (680, 0)); [right; left|exact E1|exact E2].
Defined.
