(* ===== verification/WorkflowTeam.v ===== *)
(** * Desktop app: workflow runs and team expansion

    The data of a workflow run, [mezair-app/src/shared/types.ts]; delegation and
    specialists, [shared/workflow-orchestration.ts]; reasoning levels,
    [shared/codex-models.ts]; and the operations on a run that do not wait,
    [main/services/workflow-runtime.ts].  Times are milliseconds; [JSON.parse] is a
    parameter. *)

From stdpp Require Import base list strings.
From Stdlib Require Import ZArith Ascii.
From S2P Require Import Prelude JsString JsValue WorkflowGraph.

(** ** Data *)

Inductive RunStatus := run_queued | run_running | run_paused | run_completed | run_failed | run_cancelled.
Inductive AttemptStatus :=
| att_running | att_waiting | att_attention | att_completed | att_failed | att_cancelled | att_interrupted.
Inductive EventType := ev_run | ev_dispatch | ev_completed | ev_failed | ev_delegated | ev_decision | ev_retry.

#[export] Instance RunStatus_eq_dec : EqDecision RunStatus.
Proof. solve_decision. Defined.
#[export] Instance AttemptStatus_eq_dec : EqDecision AttemptStatus.
Proof. solve_decision. Defined.

Record WorkflowNode := {
  nd_id : string;
  nd_name : string;
  nd_prompt : string;
  nd_personaId : string;
  nd_provider : option string;
  nd_model : string;
  nd_reasoningEffort : string;
  nd_executionStrategy : string;
  nd_position : Z * Z;
  nd_kind : option string;
  nd_teamStrategy : option string;
  nd_teamProfileIds : option (list string);
  nd_parentNodeId : option string;
  nd_depth : option Z;
  nd_target : option WorkflowTargetPolicy;
  nd_permissionMode : option string;
  nd_requiresValidation : bool;
}.

Record RemoteExecution := { rm_dispatchId : string; rm_state : string }.

Record WorkflowAttempt := {
  wa_id : string;
  wa_startedAt : Z;
  wa_completedAt : option Z;
  wa_status : AttemptStatus;
  wa_provider : string;
  wa_model : string;
  wa_reasoningEffort : string;
  wa_threadId : option string;
  wa_sessionId : option string;
  wa_output : option string;
  wa_error : option string;
  wa_remote : option RemoteExecution;
}.

Record NodeRun := {
  ns_nodeId : string;
  ns_status : NodeRunStatus;
  ns_attempts : list WorkflowAttempt;
  ns_teamExpanded : bool;
  ns_delegationCount : Z;
  ns_threadId : option string;
  ns_sessionId : option string;
  ns_output : option string;
  ns_error : option string;
  ns_startedAt : option Z;
  ns_completedAt : option Z;
  ns_remote : option RemoteExecution;
  ns_decision : option (bool * string * Z);
}.

Record RuntimeEvent := {
  re_id : string; re_at : Z; re_type : EventType; re_message : string; re_nodeId : option string;
}.

Record WorkflowRun := {
  ru_nodes : list WorkflowNode;
  ru_edges : list WorkflowEdge;
  ru_nodeRuns : list NodeRun;
  ru_status : RunStatus;
  ru_error : option string;
  ru_startedAt : option Z;
  ru_deadlineAt : option Z;
  ru_completedAt : option Z;
  ru_events : list RuntimeEvent;
  ru_orchestration : option WorkflowOrchestration;
}.

Definition graph_of (r : WorkflowRun) : WorkflowGraph := {|
  gr_nodes := nd_id <$> ru_nodes r; gr_edges := ru_edges r;
  gr_nodeRuns := (λ s, (ns_nodeId s, ns_status s)) <$> ru_nodeRuns r |}.

(** [readyWorkflowNodes(run)]. *)
Definition ready_nodes (r : WorkflowRun) : list WorkflowNode :=
  List.filter (λ n, one_of (readyWorkflowNodes (graph_of r)) (nd_id n)) (ru_nodes r).

(** [run.nodeRuns.find((item) => item.nodeId === id)]. *)
Definition find_run (id : string) (r : WorkflowRun) : option NodeRun :=
  find_first (λ s, String.eqb (ns_nodeId s) id) (ru_nodeRuns r).

(** ** Setters *)

Definition set_graph (nodes : list WorkflowNode) (edges : list WorkflowEdge) (runs : list NodeRun)
    (r : WorkflowRun) : WorkflowRun :=
  {| ru_nodes := nodes; ru_edges := edges; ru_nodeRuns := runs; ru_status := ru_status r;
     ru_error := ru_error r; ru_startedAt := ru_startedAt r; ru_deadlineAt := ru_deadlineAt r;
     ru_completedAt := ru_completedAt r; ru_events := ru_events r; ru_orchestration := ru_orchestration r |}.

Definition set_nodeRuns (runs : list NodeRun) (r : WorkflowRun) : WorkflowRun :=
  set_graph (ru_nodes r) (ru_edges r) runs r.

Definition set_runStatus (status : RunStatus) (error : option string) (r : WorkflowRun) : WorkflowRun :=
  {| ru_nodes := ru_nodes r; ru_edges := ru_edges r; ru_nodeRuns := ru_nodeRuns r; ru_status := status;
     ru_error := error; ru_startedAt := ru_startedAt r; ru_deadlineAt := ru_deadlineAt r;
     ru_completedAt := ru_completedAt r; ru_events := ru_events r; ru_orchestration := ru_orchestration r |}.

Definition set_times (started deadline completed : option Z) (r : WorkflowRun) : WorkflowRun :=
  {| ru_nodes := ru_nodes r; ru_edges := ru_edges r; ru_nodeRuns := ru_nodeRuns r; ru_status := ru_status r;
     ru_error := ru_error r; ru_startedAt := started; ru_deadlineAt := deadline;
     ru_completedAt := completed; ru_events := ru_events r; ru_orchestration := ru_orchestration r |}.

Definition add_event (e : RuntimeEvent) (r : WorkflowRun) : WorkflowRun :=
  {| ru_nodes := ru_nodes r; ru_edges := ru_edges r; ru_nodeRuns := ru_nodeRuns r; ru_status := ru_status r;
     ru_error := ru_error r; ru_startedAt := ru_startedAt r; ru_deadlineAt := ru_deadlineAt r;
     ru_completedAt := ru_completedAt r; ru_events := ru_events r ++ [e];
     ru_orchestration := ru_orchestration r |}.

(** Change the node run found under an id. *)
Fixpoint update_run (id : string) (f : NodeRun → NodeRun) (runs : list NodeRun) : list NodeRun :=
  match runs with
  | [] => []
  | s :: runs' => if String.eqb (ns_nodeId s) id then f s :: runs' else s :: update_run id f runs'
  end.

Definition on_run (id : string) (f : NodeRun → NodeRun) (r : WorkflowRun) : WorkflowRun :=
  set_nodeRuns (update_run id f (ru_nodeRuns r)) r.

Definition ns_set_status (status : NodeRunStatus) (error : option string) (s : NodeRun) : NodeRun :=
  {| ns_nodeId := ns_nodeId s; ns_status := status; ns_attempts := ns_attempts s;
     ns_teamExpanded := ns_teamExpanded s; ns_delegationCount := ns_delegationCount s;
     ns_threadId := ns_threadId s; ns_sessionId := ns_sessionId s; ns_output := ns_output s;
     ns_error := error; ns_startedAt := ns_startedAt s; ns_completedAt := ns_completedAt s;
     ns_remote := ns_remote s; ns_decision := ns_decision s |}.

Definition ns_set_expanded (s : NodeRun) : NodeRun :=
  {| ns_nodeId := ns_nodeId s; ns_status := nr_queued; ns_attempts := ns_attempts s;
     ns_teamExpanded := true; ns_delegationCount := ns_delegationCount s + 1;
     ns_threadId := ns_threadId s; ns_sessionId := ns_sessionId s; ns_output := ns_output s;
     ns_error := ns_error s; ns_startedAt := ns_startedAt s; ns_completedAt := ns_completedAt s;
     ns_remote := ns_remote s; ns_decision := ns_decision s |}.

Definition ns_set_attempts (attempts : list WorkflowAttempt) (s : NodeRun) : NodeRun :=
  {| ns_nodeId := ns_nodeId s; ns_status := ns_status s; ns_attempts := attempts;
     ns_teamExpanded := ns_teamExpanded s; ns_delegationCount := ns_delegationCount s;
     ns_threadId := ns_threadId s; ns_sessionId := ns_sessionId s; ns_output := ns_output s;
     ns_error := ns_error s; ns_startedAt := ns_startedAt s; ns_completedAt := ns_completedAt s;
     ns_remote := ns_remote s; ns_decision := ns_decision s |}.

Definition ns_set_started (startedAt : Z) (s : NodeRun) : NodeRun :=
  {| ns_nodeId := ns_nodeId s; ns_status := nr_running; ns_attempts := ns_attempts s;
     ns_teamExpanded := ns_teamExpanded s; ns_delegationCount := ns_delegationCount s;
     ns_threadId := ns_threadId s; ns_sessionId := ns_sessionId s; ns_output := ns_output s;
     ns_error := None; ns_startedAt := Some startedAt; ns_completedAt := None; ns_remote := ns_remote s; ns_decision := ns_decision s |}.

Definition ns_set_completedAt (t : Z) (s : NodeRun) : NodeRun :=
  {| ns_nodeId := ns_nodeId s; ns_status := ns_status s; ns_attempts := ns_attempts s;
     ns_teamExpanded := ns_teamExpanded s; ns_delegationCount := ns_delegationCount s;
     ns_threadId := ns_threadId s; ns_sessionId := ns_sessionId s; ns_output := ns_output s;
     ns_error := ns_error s; ns_startedAt := ns_startedAt s; ns_completedAt := Some t;
     ns_remote := ns_remote s; ns_decision := ns_decision s |}.

Definition ns_set_result (output : string) (remote : option RemoteExecution) (sessionId threadId : option string)
    (s : NodeRun) : NodeRun :=
  {| ns_nodeId := ns_nodeId s; ns_status := ns_status s; ns_attempts := ns_attempts s;
     ns_teamExpanded := ns_teamExpanded s; ns_delegationCount := ns_delegationCount s;
     ns_threadId := match threadId with Some t => Some t | None => ns_threadId s end;
     ns_sessionId := sessionId; ns_output := Some output;
     ns_error := ns_error s; ns_startedAt := ns_startedAt s; ns_completedAt := ns_completedAt s;
     ns_remote := remote; ns_decision := ns_decision s |}.

Definition ns_set_waiting (error : option string) (remote : option RemoteExecution) (s : NodeRun) : NodeRun :=
  {| ns_nodeId := ns_nodeId s; ns_status := nr_waiting; ns_attempts := ns_attempts s;
     ns_teamExpanded := ns_teamExpanded s; ns_delegationCount := ns_delegationCount s;
     ns_threadId := ns_threadId s; ns_sessionId := ns_sessionId s; ns_output := ns_output s;
     ns_error := error; ns_startedAt := ns_startedAt s; ns_completedAt := ns_completedAt s;
     ns_remote := remote; ns_decision := ns_decision s |}.

(** ** Reasoning levels *)

Definition DEFAULT_CODEX_REASONING_EFFORT : string := "medium".

(** The levels and the default of each documented model. *)
Definition CODEX_MODEL_OPTIONS : list (string * (list string * string)) :=
  [("gpt-5.6-sol", (reasoning_levels, "medium")); ("gpt-5.6-terra", (reasoning_levels, "medium"));
   ("gpt-5.6-luna", (reasoning_levels, "low"));
   ("gpt-5.5", (["none"; "minimal"; "low"; "medium"; "high"; "xhigh"], "medium"));
   ("gpt-5.3-codex-spark", (["low"; "medium"; "high"; "xhigh"], "low"))].

Definition getCodexModelReasoningOptions (modelId : string) : list string * string :=
  default (reasoning_levels, DEFAULT_CODEX_REASONING_EFFORT) (assoc_get modelId CODEX_MODEL_OPTIONS).

Definition normaliseReasoningEffort (effort fallback : string) : string :=
  if one_of reasoning_levels effort then effort else fallback.

(** Without detected models, as the scheduler calls it. *)
Definition resolveCodexReasoningEffort (modelId effort : string) : string :=
  let '(supported, fallback) := getCodexModelReasoningOptions modelId in
  let normalised := normaliseReasoningEffort effort fallback in
  if one_of supported normalised then normalised else fallback.

(** ** Delegation *)

Record DelegatedTask := { dt_profileId : string; dt_name : string; dt_prompt : string }.

Definition fence : list ascii := chars "```".
Definition newline : ascii := ascii_of_N 10.

(** The position where the closing fence line begins: what follows the newline and the
    fence is white space to the end. *)
Fixpoint close_position (l : list ascii) : option nat :=
  match l with
  | [] => None
  | c :: l' =>
      if Ascii.eqb c newline && prefix_of fence l' && forallb is_space (drop 3 l') then Some 0%nat
      else S <$> close_position l'
  end.

(** The content after the white space that ends in a newline, as far on as the closing
    fence allows. *)
Fixpoint after_newline (l : list ascii) : option (list ascii) :=
  match l with
  | [] => None
  | c :: l' =>
      if is_space c then
        match after_newline l' with
        | Some content => Some content
        | None =>
            if Ascii.eqb c newline then match close_position l' with Some n => Some (take n l') | None => None end
            else None
        end
      else None
  end.

(** [output.match(/```mezair-delegate\s*\n([\s\S]*?)\n```\s*$/)?.[1]]. *)
Fixpoint match_delegation (l : list ascii) : option (list ascii) :=
  let here :=
    if prefix_of (chars "```mezair-delegate") l then after_newline (drop 18 l) else None in
  match here with
  | Some content => Some content
  | None => match l with [] => None | _ :: l' => match_delegation l' end
  end.

Section Delegation.
Context (json_parse : string → outcome json).

Definition delegation_error : JsError := plain_error "Delegation requires between 1 and 16 tasks.".
Definition task_error : JsError :=
  plain_error "Each delegated task needs a profileId, name, and instruction of at most 24000 characters.".

Definition parse_task (task : json) : outcome DelegatedTask :=
  match task with
  | JObj fields =>
      match assoc_get "profileId" fields, assoc_get "name" fields, assoc_get "prompt" fields with
      | Some (JStr profileId), Some (JStr name), Some (JStr prompt) =>
          if blank name || blank prompt || (24000 <? slen prompt) then Throw task_error
          else Ok {| dt_profileId := profileId; dt_name := slice_to 160 (trim name); dt_prompt := trim prompt |}
      | _, _, _ => Throw task_error
      end
  | _ => Throw task_error
  end.

Fixpoint parse_tasks (tasks : list json) : outcome (list DelegatedTask) :=
  match tasks with
  | [] => Ok []
  | t :: tasks' =>
      match parse_task t with
      | Throw e => Throw e
      | Ok d => match parse_tasks tasks' with Throw e => Throw e | Ok ds => Ok (d :: ds) end
      end
  end.

Definition parseDelegation (output : string) : outcome (option (list DelegatedTask)) :=
  match match_delegation (chars output) with
  | None => Ok None
  | Some content =>
      match json_parse (of_chars content) with
      | Throw e => Throw e
      | Ok parsed =>
          match prop "tasks" (Some parsed) with
          | Some (JArr tasks) =>
              if (length tasks =? 0)%nat || (16 <? length tasks)%nat then Throw delegation_error
              else match parse_tasks tasks with Throw e => Throw e | Ok ds => Ok (Some ds) end
          | _ => Throw delegation_error
          end
      end
  end.
End Delegation.

Definition specialistNode (profile : WorkflowAgentProfile) (id name prompt : string) : WorkflowNode := {|
  nd_id := id; nd_name := name; nd_prompt := prompt;
  nd_personaId := default "" (pf_personaId profile); nd_provider := Some (pf_provider profile);
  nd_model := default "" (pf_model profile); nd_reasoningEffort := pf_reasoningEffort profile;
  nd_executionStrategy := "focused"; nd_position := (0, 0); nd_kind := None; nd_teamStrategy := None;
  nd_teamProfileIds := None; nd_parentNodeId := None; nd_depth := None;
  nd_target := pf_target profile; nd_permissionMode := None; nd_requiresValidation := false |}.

(** ** Operations on a run *)

Record SFrame (W : Type) := MkSF { sf_run : WorkflowRun; sf_ext : W }.
Arguments MkSF {W} _ _.
Arguments sf_run {W} _.
Arguments sf_ext {W} _.

(** The clock, [randomUUID] and the persist hook. *)
Record SchedulerHost (W : Type) := {
  sh_now : W → Z * W;
  sh_uuid : W → string * W;
  sh_persist : WorkflowRun → W → W;
}.
Arguments sh_now {W} _ _.
Arguments sh_uuid {W} _ _.
Arguments sh_persist {W} _ _ _.

(** [randomUUID] never repeats itself: the identifiers in use, here, are those it has
    answered with and those the run started with. *)
Class FreshIds {W} (host : SchedulerHost W) := {
  used : W → string → Prop;
  uuid_fresh w : ¬ used w (sh_uuid host w).1;
  uuid_used w : used (sh_uuid host w).2 (sh_uuid host w).1;
  uuid_keeps w i : used w i → used (sh_uuid host w).2 i;
  now_keeps w i : used w i → used (sh_now host w).2 i;
  persist_keeps r w i : used w i → used (sh_persist host r w) i;
}.

Section Operations.
Context {W : Type} (host : SchedulerHost W).
Notation F := (SFrame W).

Definition s_now : M F Z := λ f, let '(t, w) := sh_now host (sf_ext f) in (Ok t, MkSF (sf_run f) w).
Definition s_uuid : M F string := λ f, let '(i, w) := sh_uuid host (sf_ext f) in (Ok i, MkSF (sf_run f) w).
Definition s_persist : M F unit := λ f, (Ok tt, MkSF (sf_run f) (sh_persist host (sf_run f) (sf_ext f))).
Definition s_change (g : WorkflowRun → WorkflowRun) : M F unit := modify (λ f, MkSF (g (sf_run f)) (sf_ext f)).
Definition s_run : M F WorkflowRun := gets sf_run.

Definition recordWorkflowEvent (type : EventType) (message : string) (nodeId : option string) : M F unit :=
  id ← s_uuid; t ← s_now;
  s_change (add_event {| re_id := id; re_at := t; re_type := type; re_message := message; re_nodeId := nodeId |}).

Definition profile_is (id : string) (p : WorkflowAgentProfile) : bool := bool_decide (pf_id p = Some id).

(** The profile of a task, if the parent's pool allows it. *)
Definition task_profile (config : WorkflowOrchestration) (parent : WorkflowNode) (task : DelegatedTask) :
    outcome WorkflowAgentProfile :=
  let refused := Throw (plain_error ("Specialist " +:+ dt_profileId task +:+ " is not allowed for this step.")) in
  match find_first (profile_is (dt_profileId task)) (oc_profiles config) with
  | None => refused
  | Some profile =>
      match nd_teamProfileIds parent with
      | Some (i :: l) => if one_of (i :: l) (default "" (pf_id profile)) then Ok profile else refused
      | _ => Ok profile
      end
  end.

Fixpoint task_profiles (config : WorkflowOrchestration) (parent : WorkflowNode) (tasks : list DelegatedTask) :
    outcome (list (DelegatedTask * WorkflowAgentProfile)) :=
  match tasks with
  | [] => Ok []
  | t :: tasks' =>
      match task_profile config parent t with
      | Throw e => Throw e
      | Ok p => match task_profiles config parent tasks' with Throw e => Throw e | Ok l => Ok ((t, p) :: l) end
      end
  end.

Definition is_local (target : option WorkflowTargetPolicy) : bool :=
  match target with None => true | Some t => String.eqb (tg_kind t) "local" end.

Definition child_node (parent : WorkflowNode) (index : Z) (id : string) (task : DelegatedTask)
    (profile : WorkflowAgentProfile) : WorkflowNode :=
  let n := specialistNode profile id (dt_name task) (dt_prompt task) in
  {| nd_id := nd_id n; nd_name := nd_name n; nd_prompt := nd_prompt n; nd_personaId := nd_personaId n;
     nd_provider := nd_provider n; nd_model := nd_model n; nd_reasoningEffort := nd_reasoningEffort n;
     nd_executionStrategy := nd_executionStrategy n;
     nd_position := ((nd_position parent).1 - 330, (nd_position parent).2 + (index + 1) * 190);
     nd_kind := nd_kind n;
     nd_teamStrategy :=
       Some (if bool_decide (nd_teamStrategy parent = Some "autonomous") && is_local (pf_target profile)
             then "autonomous" else "manual");
     nd_teamProfileIds := nd_teamProfileIds parent; nd_parentNodeId := Some (nd_id parent);
     nd_depth := Some (default 0 (nd_depth parent) + 1); nd_target := nd_target n;
     nd_permissionMode := nd_permissionMode parent;
     nd_requiresValidation := nd_requiresValidation n |}.

Definition queued_run (id : string) : NodeRun := {|
  ns_nodeId := id; ns_status := nr_queued; ns_attempts := []; ns_teamExpanded := false;
  ns_delegationCount := 0; ns_threadId := None; ns_sessionId := None; ns_output := None; ns_error := None;
  ns_startedAt := None; ns_completedAt := None; ns_remote := None; ns_decision := None |}.

Definition add_edge (source target : string) : M F unit :=
  id ← s_uuid;
  s_change (λ r, set_graph (ru_nodes r) (ru_edges r ++ [{| ed_id := id; ed_source := source; ed_target := target |}])
                           (ru_nodeRuns r) r).

(** One task of [tasks.forEach]. *)
Definition add_child (parent : WorkflowNode) (inc : list WorkflowEdge)
    (task : Z * (DelegatedTask * WorkflowAgentProfile)) : M F unit :=
  let '(index, (task, profile)) := task in
  id ← s_uuid;
  s_change (λ r, set_graph (ru_nodes r ++ [child_node parent index id task profile]) (ru_edges r)
                           (ru_nodeRuns r ++ [queued_run id]) r) ;;
  for_each inc (λ e _, add_edge (ed_source e) id) tt ;;
  add_edge id (nd_id parent).

Fixpoint numbered {A} (i : Z) (l : list A) : list (Z * A) :=
  match l with [] => [] | x :: l' => (i, x) :: numbered (i + 1) l' end.

Definition expandWorkflowTeam (parent : WorkflowNode) (tasks : list DelegatedTask) : M F unit :=
  r ← s_run;
  let config := orchestrationConfig (ru_orchestration r) in
  let count := default 0 (ns_delegationCount <$> find_run (nd_id parent) r) in
  if num_leb (oc_maxDepth config) (int (default 0 (nd_depth parent)))
  then throw (plain_error "Maximum delegation depth reached.")
  else if num_ltb (oc_maxNodes config) (int (Z.of_nat (length (ru_nodes r) + length tasks)))
  then throw (plain_error "Maximum workflow node count reached.")
  else if num_leb (oc_maxAttempts config) (int count)
  then throw (plain_error "Delegation round limit reached.")
  else
    profiles ← from_outcome (task_profiles config parent tasks);
    let inc := incoming (ru_edges r) (nd_id parent) in
    for_each (numbered 0 profiles) (λ task _, add_child parent inc task) tt ;;
    s_change (on_run (nd_id parent) ns_set_expanded) ;;
    recordWorkflowEvent ev_delegated
      (nd_name parent +:+ " delegated " +:+ int_to_string (Z.of_nat (length tasks)) +:+ " task"
        +:+ (if (length tasks =? 1)%nat then "" else "s") +:+ ".") (Some (nd_id parent)).
End Operations.
