(* ===== verification/WorkflowTeamProps.v ===== *)
(** * Desktop app: properties of team expansion

    What the operations on one node of a run leave of it: [near]; and what
    [expandWorkflowTeam] does, exactly. *)

From stdpp Require Import base list strings.
From Stdlib Require Import ZArith Ascii Lia.
From S2P Require Import Prelude JsString JsValue WorkflowGraph WorkflowTeam.

(** ** Changing one node run *)

Lemma find_run_elem id r s : find_run id r = Some s → s ∈ ru_nodeRuns r ∧ ns_nodeId s = id.
Proof. intros [Hs E%String.eqb_eq]%find_first_Some. done. Qed.

Section UpdateRun.
Implicit Types l k : list NodeRun.

Definition run_of (id : string) (s : NodeRun) : bool := String.eqb (ns_nodeId s) id.

Lemma find_has_id id l : id ∈ ns_nodeId <$> l → is_Some (find_first (run_of id) l).
Proof.
  intros (s & -> & Hs)%list_elem_of_fmap. destruct (find_first _ l) eqn:E; [done|].
  pose proof (find_first_None _ _ E s Hs) as Hn. unfold run_of in Hn. by rewrite String.eqb_refl in Hn.
Qed.

Lemma update_run_ids id f l : (∀ s, ns_nodeId (f s) = ns_nodeId s ∨ ns_nodeId (f s) = id) →
  ns_nodeId <$> update_run id f l = ns_nodeId <$> l.
Proof.
  intros Hf. induction l as [|s l IH]; cbn; [done|].
  destruct (String.eqb_spec (ns_nodeId s) id) as [E|]; cbn; [|by rewrite IH].
  destruct (Hf s) as [->| ->]; by rewrite ?E.
Qed.

Lemma update_run_const id s g l : ns_nodeId s = id →
  update_run id g (update_run id (λ _, s) l) = update_run id (λ _, g s) l.
Proof.
  intros E. induction l as [|t l IH]; cbn; [done|].
  destruct (String.eqb_spec (ns_nodeId t) id) as [|Hne]; cbn.
  - by rewrite E, String.eqb_refl.
  - destruct (String.eqb_spec (ns_nodeId t) id); [done|]. by rewrite IH.
Qed.

Lemma update_run_app id g l k : id ∈ ns_nodeId <$> l → update_run id g (l ++ k) = update_run id g l ++ k.
Proof.
  induction l as [|t l IH]; cbn; [by intros ?%elem_of_nil|].
  destruct (String.eqb_spec (ns_nodeId t) id) as [|Hne]; [done|].
  intros [?|Hin]%elem_of_cons; [congruence|]. cbn. by rewrite IH.
Qed.

Lemma update_run_same id s l : find_first (run_of id) l = Some s → update_run id (λ _, s) l = l.
Proof.
  induction l as [|t l IH]; cbn; [done|]. unfold run_of at 1.
  destruct (String.eqb (ns_nodeId t) id); [by intros [= ->]|]. intros E. by rewrite IH.
Qed.

Lemma find_update id s l k : id ∈ ns_nodeId <$> l → ns_nodeId s = id →
  find_first (run_of id) (update_run id (λ _, s) l ++ k) = Some s.
Proof.
  intros Hin E. induction l as [|t l IH]; cbn; [by apply elem_of_nil in Hin|].
  destruct (String.eqb_spec (ns_nodeId t) id) as [|Hne]; cbn; unfold run_of at 1.
  - by rewrite E, String.eqb_refl.
  - destruct (String.eqb_spec (ns_nodeId t) id); [done|]. apply IH.
    by apply elem_of_cons in Hin as [?|?]; [congruence|].
Qed.

Lemma find_update_ne id j g l : j ≠ id → (∀ s, ns_nodeId s = id → ns_nodeId (g s) = id) →
  find_first (run_of j) (update_run id g l) = find_first (run_of j) l.
Proof.
  intros Hj Hg. induction l as [|t l IH]; cbn; [done|].
  destruct (String.eqb_spec (ns_nodeId t) id) as [E|Hne]; cbn; unfold run_of at 1 3.
  - rewrite (Hg t E). rewrite E. by destruct (String.eqb_spec id j).
  - by destruct (String.eqb (ns_nodeId t) j).
Qed.

Lemma find_app_first j l k : j ∈ ns_nodeId <$> l → find_first (run_of j) (l ++ k) = find_first (run_of j) l.
Proof.
  induction l as [|t l IH]; cbn; [by intros ?%elem_of_nil|]. unfold run_of at 1 3.
  destruct (String.eqb_spec (ns_nodeId t) j); [done|]. intros [?|?]%elem_of_cons; [congruence|auto].
Qed.
End UpdateRun.

(** ** One node worked on *)

Section Near.
Context {W : Type} (host : SchedulerHost W) `{!FreshIds host}.
Notation F := (SFrame W).
Implicit Types f : F.

Definition noerr : JsError → F → Prop := λ _ _, False.

(** [f] is [f0] with the run of node [id] replaced by [s], nodes [cs] with queued runs and
    edges [es] added, and events; the rest of the run is as it was. *)
Record near (f0 : F) (id : string) (s : NodeRun) (cs : list WorkflowNode) (es : list WorkflowEdge) (f : F) : Prop := {
  near_nodes : ru_nodes (sf_run f) = ru_nodes (sf_run f0) ++ cs;
  near_edges : ru_edges (sf_run f) = ru_edges (sf_run f0) ++ es;
  near_runs : ru_nodeRuns (sf_run f) =
    update_run id (λ _, s) (ru_nodeRuns (sf_run f0)) ++ (queued_run <$> (nd_id <$> cs));
  near_state : ru_status (sf_run f) = ru_status (sf_run f0) ∧ ru_error (sf_run f) = ru_error (sf_run f0);
  near_times : ru_startedAt (sf_run f) = ru_startedAt (sf_run f0) ∧
    ru_deadlineAt (sf_run f) = ru_deadlineAt (sf_run f0) ∧ ru_completedAt (sf_run f) = ru_completedAt (sf_run f0);
  near_config : ru_orchestration (sf_run f) = ru_orchestration (sf_run f0);
  near_events : ∃ evs, ru_events (sf_run f) = ru_events (sf_run f0) ++ evs;
  near_used : ∀ i, used (sf_ext f0) i → used (sf_ext f) i;
  near_fresh : Forall (λ i, used (sf_ext f) i ∧ ¬ used (sf_ext f0) i) (nd_id <$> cs);
  near_nodup : NoDup (nd_id <$> cs);
}.

Definition knows (f0 : F) (id : string) : Prop := id ∈ ns_nodeId <$> ru_nodeRuns (sf_run f0).

Lemma near_refl f id s : find_run id (sf_run f) = Some s → near f id s [] [] f.
Proof.
  intros E. split; cbn; rewrite ?app_nil_r; try done.
  - by rewrite (update_run_same _ _ _ E).
  - exists []. by rewrite app_nil_r.
  - constructor.
Qed.

Context (f0 : F) (id : string) (Hknown : knows f0 id).

Lemma near_find s cs es f : ns_nodeId s = id → near f0 id s cs es f → find_run id (sf_run f) = Some s.
Proof using Hknown. intros E H. unfold find_run. rewrite (near_runs _ _ _ _ _ _ H). by apply find_update. Qed.

(** A step that only touches the world. *)
Lemma near_world s cs es f w :
  near f0 id s cs es f → (∀ i, used (sf_ext f) i → used w i) → near f0 id s cs es (MkSF (sf_run f) w).
Proof.
  intros [] Hw. split; cbn; try done; [by auto|].
  eapply Forall_impl; [done|]. cbn. intros i [? ?]. by auto.
Qed.

Lemma near_now s cs es : triple (near f0 id s cs es) (s_now host) (λ _, near f0 id s cs es) noerr.
Proof.
  intros f H. unfold s_now. pose proof (now_keeps (sf_ext f)) as Hk. destruct (sh_now host (sf_ext f)).
  by apply near_world.
Qed.

Lemma near_persist s cs es : triple (near f0 id s cs es) (s_persist host) (λ _, near f0 id s cs es) noerr.
Proof. intros f H. apply near_world; [done|]. intros i. apply persist_keeps. Qed.

Lemma near_uuid s cs es :
  triple (near f0 id s cs es) (s_uuid host)
    (λ i f, near f0 id s cs es f ∧ used (sf_ext f) i ∧ ¬ used (sf_ext f0) i ∧ i ∉ nd_id <$> cs) noerr.
Proof.
  intros f H. unfold s_uuid. pose proof (uuid_fresh (sf_ext f)) as Hf. pose proof (uuid_used (sf_ext f)) as Hu.
  pose proof (uuid_keeps (sf_ext f)) as Hk. destruct (sh_uuid host (sf_ext f)) as [i w]. cbn in *.
  split; [by apply near_world|]. split; [done|]. split.
  - intros Hi. by apply Hf, (near_used _ _ _ _ _ _ H).
  - intros Hi. apply Hf. by apply (proj1 (Forall_forall _ _) (near_fresh _ _ _ _ _ _ H) i Hi).
Qed.

Lemma near_event s cs es type message node :
  triple (near f0 id s cs es) (recordWorkflowEvent host type message node) (λ _, near f0 id s cs es) noerr.
Proof.
  eapply triple_bind; [apply near_uuid|]. intros i. cbn beta.
  eapply triple_pre; [|intros f H; exact (proj1 H)].
  eapply triple_bind; [apply near_now|]. intros t f []. split; cbn; try done.
  destruct near_events0 as [evs ->]. eexists (evs ++ [_]). by rewrite app_assoc.
Qed.

Lemma near_change s cs es g :
  ns_nodeId s = id →
  triple (near f0 id s cs es) (s_change (on_run id g)) (λ _, near f0 id (g s) cs es) noerr.
Proof using Hknown.
  intros E f []. split; cbn; try done.
  rewrite near_runs0, update_run_app, update_run_const; [done..|].
  rewrite update_run_ids; [done|]. intros t. by right.
Qed.

(** ** Adding the nodes of a team *)

Definition edge_ends (e : WorkflowEdge) : string * string := (ed_source e, ed_target e).

Lemma near_edge s cs es source target :
  triple (near f0 id s cs es) (add_edge host source target)
    (λ _ f, ∃ e, near f0 id s cs (es ++ [e]) f ∧ edge_ends e = (source, target)) noerr.
Proof.
  eapply triple_bind; [apply near_uuid|]. intros i f ([] & _).
  exists {| ed_id := i; ed_source := source; ed_target := target |}.
  split; [|reflexivity]. split; cbn; try done. by rewrite near_edges0, app_assoc.
Qed.

Lemma near_edges_of s cs inc child : ∀ es,
  triple (near f0 id s cs es) (for_each inc (λ e _, add_edge host (ed_source e) child) tt)
    (λ _ f, ∃ es', near f0 id s cs (es ++ es') f ∧
       edge_ends <$> es' = (λ e, (ed_source e, child)) <$> inc) noerr.
Proof.
  induction inc as [|e inc IH]; intros es; cbn [for_each].
  { intros f H. exists []. by rewrite app_nil_r. }
  eapply triple_bind; [apply near_edge|]. intros [] f (e' & H & E).
  specialize (IH _ _ H). destruct (for_each inc _ tt f) as [[[]|err] f']; [|done].
  destruct IH as (es' & H' & E'). exists (e' :: es'). rewrite <- app_assoc in H'.
  split; [done|]. cbn. by rewrite E, E'.
Qed.

(** The edges of one child: what the parent waits for, and the parent waits for it. *)
Definition child_ends (inc : list WorkflowEdge) (parent child : string) : list (string * string) :=
  ((λ e, (ed_source e, child)) <$> inc) ++ [(child, parent)].

Lemma near_child s cs es parent inc index task profile :
  triple (near f0 id s cs es) (add_child host parent inc (index, (task, profile)))
    (λ _ f, ∃ i es', near f0 id s (cs ++ [child_node parent index i task profile]) (es ++ es') f ∧
       edge_ends <$> es' = child_ends inc (nd_id parent) i) noerr.
Proof using Hknown.
  eapply triple_bind; [apply near_uuid|]. intros i. cbn beta.
  set (child := child_node parent index i task profile).
  eapply triple_bind with (R := λ _, near f0 id s (cs ++ [child]) es).
  { intros f ([] & Hu & Hn & Hc). split; cbn; try done.
    - by rewrite near_nodes0, app_assoc.
    - by rewrite near_runs0, !fmap_app, app_assoc.
    - rewrite fmap_app. apply Forall_app. split; [done|]. by repeat constructor.
    - rewrite fmap_app. apply NoDup_app. split; [done|]. split; [|apply NoDup_singleton].
      intros x Hx ->%list_elem_of_singleton. done. }
  intros []. eapply triple_bind; [apply near_edges_of|].
  intros [] f (es' & H & E). pose proof (near_edge s (cs ++ [child]) (es ++ es') i (nd_id parent) f H) as He.
  destruct (add_edge host i (nd_id parent) f) as [[[]|err] f']; [|done].
  destruct He as (e & He & Ee). exists i, (es' ++ [e]). rewrite app_assoc. split; [done|].
  rewrite fmap_app, E. cbn. by rewrite Ee.
Qed.

(** The nodes of a team, of given ids. *)
Fixpoint children (parent : WorkflowNode) (index : Z) (ids : list string)
    (tasks : list (DelegatedTask * WorkflowAgentProfile)) : list WorkflowNode :=
  match ids, tasks with
  | i :: ids', (t, p) :: tasks' => child_node parent index i t p :: children parent (index + 1) ids' tasks'
  | _, _ => []
  end.

Lemma children_ids parent tasks : ∀ index ids, length ids = length tasks →
  nd_id <$> children parent index ids tasks = ids.
Proof.
  induction tasks as [|[t p] tasks IH]; intros index [|i ids] [=]; cbn; [done|]. by rewrite IH.
Qed.

Lemma near_children s parent inc tasks : ∀ cs es index,
  triple (near f0 id s cs es) (for_each (numbered index tasks) (λ task _, add_child host parent inc task) tt)
    (λ _ f, ∃ ids es', length ids = length tasks ∧
       near f0 id s (cs ++ children parent index ids tasks) (es ++ es') f ∧
       edge_ends <$> es' = concat (child_ends inc (nd_id parent) <$> ids)) noerr.
Proof using Hknown.
  induction tasks as [|[t p] tasks IH]; intros cs es index; cbn [numbered for_each].
  { intros f H. exists [], []. by rewrite !app_nil_r. }
  eapply triple_bind; [apply near_child|]. intros [] f (i & es' & H & E).
  specialize (IH _ _ (index + 1) _ H). destruct (for_each _ _ tt f) as [[[]|err] f']; [|done].
  destruct IH as (ids & es'' & Hl & H' & E'). exists (i :: ids), (es' ++ es'').
  split; [cbn; by rewrite Hl|]. split; [|by rewrite fmap_app, E, E']. cbn.
  by rewrite <- !app_assoc in H'.
Qed.
End Near.

(** ** Expansion *)

(** The profile of a task exists and the parent's pool, if it has one, names it. *)
Definition profile_allowed (config : WorkflowOrchestration) (parent : WorkflowNode) (task : DelegatedTask) : Prop :=
  ∃ p, find_first (profile_is (dt_profileId task)) (oc_profiles config) = Some p ∧
    (nd_teamProfileIds parent = None ∨ nd_teamProfileIds parent = Some [] ∨
     ∃ l, nd_teamProfileIds parent = Some l ∧ dt_profileId task ∈ l).

Lemma task_profile_spec config parent task p :
  task_profile config parent task = Ok p →
  find_first (profile_is (dt_profileId task)) (oc_profiles config) = Some p ∧ profile_allowed config parent task.
Proof.
  unfold task_profile. destruct (find_first _ _) as [q|] eqn:E; [|done]. intros Hp.
  assert (pf_id q = Some (dt_profileId task)) as Hq.
  { apply find_first_Some in E as [_ E]. by apply bool_decide_eq_true in E. }
  destruct (nd_teamProfileIds parent) as [[|i l]|] eqn:El.
  - injection Hp as ->. split; [done|]. exists p. by rewrite El; auto.
  - destruct (one_of (i :: l) _) eqn:Eo; [|done]. injection Hp as ->. split; [done|]. exists p. split; [done|].
    right. right. exists (i :: l). split; [done|]. rewrite Hq in Eo. by apply one_of_spec in Eo.
  - injection Hp as ->. split; [done|]. exists p. rewrite El. by auto.
Qed.

Lemma task_profile_refused config parent task e :
  task_profile config parent task = Throw e → ¬ profile_allowed config parent task.
Proof.
  unfold task_profile. intros He (p & Hp & Hl). rewrite Hp in He.
  assert (pf_id p = Some (dt_profileId task)) as Hq.
  { apply find_first_Some in Hp as [_ E]. by apply bool_decide_eq_true in E. }
  destruct (nd_teamProfileIds parent) as [[|i l]|] eqn:El; [done| |done].
  destruct Hl as [?|[?|(l' & [= <-] & Hin)]]; [done..|].
  apply one_of_spec in Hin. rewrite Hq in He.
  change (default "" (Some (dt_profileId task))) with (dt_profileId task) in He. by rewrite Hin in He.
Qed.

Lemma task_profiles_spec config parent tasks :
  match task_profiles config parent tasks with
  | Ok l => l.*1 = tasks ∧ Forall (profile_allowed config parent) tasks ∧
      Forall (λ tp, find_first (profile_is (dt_profileId tp.1)) (oc_profiles config) = Some tp.2) l
  | Throw _ => ¬ Forall (profile_allowed config parent) tasks
  end.
Proof.
  induction tasks as [|t tasks IH]; cbn [task_profiles]; [by repeat constructor|].
  destruct (task_profile config parent t) as [p|e] eqn:Et.
  - destruct (task_profiles config parent tasks) as [l|e].
    + destruct IH as (El & Ha & Hl). apply task_profile_spec in Et as [Hf Hp]. cbn. rewrite El.
      by repeat constructor.
    + by intros [_ ?]%Forall_cons.
  - apply task_profile_refused in Et. by intros [? _]%Forall_cons.
Qed.

(** The integer a limit is. *)
Definition limit (v : num) : Z := default 0 (num_to_Z v).

Lemma limit_spec lo hi v : int_in lo hi v → lo <= limit v <= hi ∧
  (∀ k, num_leb v (int k) = (limit v <=? k)) ∧ ∀ k, num_ltb v (int k) = (limit v <? k).
Proof.
  intros (z & Hz & Hb). unfold limit. rewrite Hz. split; [done|]. split; intros k.
  - by apply num_leb_to_Z.
  - by apply num_ltb_to_Z.
Qed.

(** Whether a parent may delegate: below the limits of depth, nodes and rounds, to
    specialists it may use. *)
Record may_expand (r : WorkflowRun) (parent : WorkflowNode) (tasks : list DelegatedTask) : Prop := {
  me_depth : default 0 (nd_depth parent) < limit (oc_maxDepth (orchestrationConfig (ru_orchestration r)));
  me_nodes : Z.of_nat (length (ru_nodes r) + length tasks) <=
    limit (oc_maxNodes (orchestrationConfig (ru_orchestration r)));
  me_rounds : default 0 (ns_delegationCount <$> find_run (nd_id parent) r) <
    limit (oc_maxAttempts (orchestrationConfig (ru_orchestration r)));
  me_profiles : Forall (profile_allowed (orchestrationConfig (ru_orchestration r)) parent) tasks;
}.

(** The nodes and edges of a team: a specialist for each task, which waits for what the
    parent waits for, and for which the parent waits. *)
Definition team_of (r : WorkflowRun) (parent : WorkflowNode) (tasks : list DelegatedTask)
    (cs : list WorkflowNode) (es : list WorkflowEdge) : Prop :=
  ∃ ids profiles,
    length ids = length tasks ∧ profiles.*1 = tasks ∧
    Forall (λ tp, find_first (profile_is (dt_profileId tp.1))
      (oc_profiles (orchestrationConfig (ru_orchestration r))) = Some tp.2) profiles ∧
    cs = children parent 0 ids profiles ∧
    edge_ends <$> es = concat (child_ends (incoming (ru_edges r) (nd_id parent)) (nd_id parent) <$> ids).

(** The six limits are integers in their ranges. *)
Record limits_ok (config : WorkflowOrchestration) : Prop := {
  lo_concurrency : int_in 1 16 (oc_maxConcurrency config);
  lo_nodes : int_in 1 256 (oc_maxNodes config);
  lo_depth : int_in 0 6 (oc_maxDepth config);
  lo_attempts : int_in 1 10 (oc_maxAttempts config);
}.

Section Expand.
Context {W : Type} (host : SchedulerHost W) `{!FreshIds host}.
Context (f0 : SFrame W) (parent : WorkflowNode) (Hknown : knows f0 (nd_id parent)).
Context (Hlimits : limits_ok (orchestrationConfig (ru_orchestration (sf_run f0)))).

(** Expansion of a run that has changed in the parent's node run only. *)
Lemma near_expand s tasks f :
  ns_nodeId s = nd_id parent → near host f0 (nd_id parent) s [] [] f →
  match expandWorkflowTeam host parent tasks f with
  | (Ok _, f') => may_expand (sf_run f) parent tasks ∧
      ∃ cs es, team_of (sf_run f) parent tasks cs es ∧ near host f0 (nd_id parent) (ns_set_expanded s) cs es f'
  | (Throw _, f') => f' = f ∧ ¬ may_expand (sf_run f) parent tasks
  end.
Proof using Hknown Hlimits.
  intros Es H. pose proof (near_find host f0 _ Hknown s [] [] f Es H) as Hs.
  pose proof (near_config _ _ _ _ _ _ _ H) as Hc.
  unfold expandWorkflowTeam, mbind, M_bind at 1, s_run, gets. rewrite Hs. cbn [fmap option_fmap option_map].
  set (config := orchestrationConfig (ru_orchestration (sf_run f))).
  destruct Hlimits as [_ Hn Hd Hk]. rewrite <- Hc in Hn, Hd, Hk. fold config in Hn, Hd, Hk.
  apply limit_spec in Hn as (_ & _ & Hn), Hd as (_ & Hd & _), Hk as (_ & Hk & _). rewrite Hd, Hn, Hk.
  destruct (Z.leb_spec (limit (oc_maxDepth config)) (default 0 (nd_depth parent))) as [|Hdepth].
  { split; [done|]. intros [Hx _ _ _]. fold config in Hx. lia. }
  destruct (Z.ltb_spec (limit (oc_maxNodes config)) (Z.of_nat (length (ru_nodes (sf_run f)) + length tasks))) as [|Hnodes].
  { split; [done|]. intros [_ Hx _ _]. fold config in Hx. lia. }
  change (default 0 (Some (ns_delegationCount s))) with (ns_delegationCount s).
  destruct (Z.leb_spec (limit (oc_maxAttempts config)) (ns_delegationCount s)) as [|Hrounds].
  { split; [done|]. intros [_ _ Hx _]. fold config in Hx. rewrite Hs in Hx. cbn in Hx. lia. }
  pose proof (task_profiles_spec config parent tasks) as Hp. unfold from_outcome.
  destruct (task_profiles config parent tasks) as [l|e].
  2:{ split; [done|]. intros [_ _ _ Hx]. by apply Hp. }
  destruct Hp as (El & Ha & Hl).
  assert (may_expand (sf_run f) parent tasks) as Hmay.
  { split; fold config; [done|lia|by rewrite Hs|done]. }
  assert (triple (near host f0 (nd_id parent) s [] [])
    (for_each (numbered 0 l) (λ task _, add_child host parent (incoming (ru_edges (sf_run f)) (nd_id parent)) task) tt ;;
     s_change (on_run (nd_id parent) ns_set_expanded) ;;
     recordWorkflowEvent host ev_delegated
       (nd_name parent +:+ " delegated " +:+ int_to_string (Z.of_nat (length tasks)) +:+ " task"
         +:+ (if (length tasks =? 1)%nat then "" else "s") +:+ ".") (Some (nd_id parent)))
    (λ _ f', ∃ cs es, team_of (sf_run f) parent tasks cs es ∧ near host f0 (nd_id parent) (ns_set_expanded s) cs es f')
    noerr) as Ht.
  { eapply triple_bind; [by apply near_children|]. intros [] f1 (ids & es & Hids & H1 & Ee). cbn [app] in H1.
    pose proof (near_change host f0 _ Hknown _ _ _ ns_set_expanded Es f1 H1) as H2.
    unfold mbind, M_bind. destruct (s_change _ f1) as [[[]|e] f2]; [|done].
    eapply triple_conseq; [apply near_event|exact (λ f H, H)| |done|exact H2].
    intros [] f3 H3. exists (children parent 0 ids l), es. split; [|exact H3].
    exists ids, l. rewrite Hids. split; [by rewrite <- El, length_fmap|]. done. }
  specialize (Ht f H). unfold mbind, M_bind in Ht.
  destruct (_ : outcome unit * SFrame W) as [[[]|e] f'] in Ht |- *; [by split|done].
Qed.
End Expand.

(** ** Delegation *)

Definition header : list ascii := chars "```mezair-delegate".

(** The closing fence: a newline, the fence, and white space to the end. *)
Definition closes (tail : list ascii) : Prop := ∃ rest, tail = newline :: fence ++ rest ∧ forallb is_space rest = true.

(** What follows a header: white space up to a newline, the content, a closing fence. *)
Definition opens (l space content tail : list ascii) : Prop :=
  l = space ++ newline :: content ++ tail ∧ forallb is_space space = true ∧ closes tail.

(** A match of the expression in a text. *)
Definition block (l before space content tail : list ascii) : Prop :=
  ∃ l', l = before ++ header ++ l' ∧ opens l' space content tail.

(** The match the expression finds, by its content: the one whose header is leftmost, of
    these the one with the longest white space, and of these the one with the shortest
    content. *)
Definition delegated (l content : list ascii) : Prop :=
  ∃ before space tail, block l before space content tail ∧
    ∀ before' space' content' tail', block l before' space' content' tail' →
      (length before < length before')%nat ∨ (before' = before ∧
        ((length space' < length space)%nat ∨ (space' = space ∧ (length content <= length content')%nat))).

Lemma closes_bool l :
  match l with [] => false | c :: l' => Ascii.eqb c newline && prefix_of fence l' && forallb is_space (drop 3 l') end = true ↔ closes l.
Proof.
  unfold closes. destruct l as [|c l']; [split; [done|by intros (? & ? & _)]|]. rewrite !andb_true_iff, Ascii.eqb_eq, prefix_of_spec.
  split.
  - intros [[-> [t ->]] Hs]. by exists t.
  - intros (rest & [= -> ->] & Hs). split; [split; [done|by exists rest]|done].
Qed.

(** The first closing fence of a text, and its absence. *)
Lemma close_position_spec l :
  match close_position l with
  | Some n => closes (drop n l) ∧ (n <= length l)%nat ∧
      ∀ content tail, l = content ++ tail → closes tail → (n <= length content)%nat
  | None => ∀ content tail, l = content ++ tail → ¬ closes tail
  end.
Proof.
  induction l as [|c l IH]; cbn [close_position].
  { intros content tail [-> ->]%eq_sym%app_eq_nil (? & ? & _). done. }
  destruct (Ascii.eqb c newline && _ && _) eqn:E.
  - split; [by apply (closes_bool (c :: l))|]. split; [cbn; lia|]. intros; cbn; lia.
  - assert (Hno : ¬ closes (c :: l)) by (intros H%closes_bool; congruence).
    destruct (close_position l) as [n|]; cbn [fmap option_fmap option_map].
    + destruct IH as (Hc & Hn & Hmin). split; [done|]. split; [cbn; lia|]. intros [|a content] tail Heq Ht; cbn in Heq.
      * by subst tail.
      * injection Heq as _ Heq. cbn. specialize (Hmin _ _ Heq Ht). lia.
    + intros [|a content] tail Heq Ht; cbn in Heq; [by subst tail|]. injection Heq as _ Heq. by eapply IH.
Qed.

(** The content after a header, and its absence. *)
Lemma after_newline_spec l :
  match after_newline l with
  | Some content => ∃ space tail, opens l space content tail ∧
      ∀ space' content' tail', opens l space' content' tail' →
        (length space' < length space)%nat ∨ (space' = space ∧ (length content <= length content')%nat)
  | None => ∀ space content tail, ¬ opens l space content tail
  end.
Proof.
  induction l as [|c l IH]; cbn [after_newline].
  { intros [|? ?] content tail (? & _ & _); done. }
  assert (Hcons : ∀ space content tail, opens (c :: l) space content tail →
    (space = [] ∧ c = newline ∧ ∃ rest, l = content ++ rest ∧ rest = tail ∧ closes tail) ∨
    (∃ space', space = c :: space' ∧ is_space c = true ∧ opens l space' content tail)).
  { intros [|a space] content tail (Heq & Hs & Hc); cbn in Heq; injection Heq as -> ->; [left; eauto 8|].
    cbn in Hs. apply andb_true_iff in Hs as [Ha Hs]. right. exists space. by split_and!. }
  destruct (is_space c) eqn:Hsp.
  2:{ intros space content tail [(-> & -> & _)|(? & _ & ? & _)]%Hcons; [done|congruence]. }
  destruct (after_newline l) as [content|].
  - destruct IH as (space & tail & (-> & Hs & Hc) & Hmin). exists (c :: space), tail. split.
    + split; [done|]. split; [cbn; by rewrite Hsp|done].
    + intros space' content' tail' [(-> & -> & _)|(sp & -> & _ & Ho)]%Hcons; [left; cbn; lia|].
      destruct (Hmin _ _ _ Ho) as [?|[-> ?]]; [left; cbn; lia|by right].
  - destruct (Ascii.eqb_spec c newline) as [->|Hne].
    + pose proof (close_position_spec l) as Hp. destruct (close_position l) as [n|].
      * destruct Hp as (Hc & Hn & Hmin). exists [], (drop n l). split.
        -- split; [cbn; by rewrite take_drop|done].
        -- intros space' content' tail' [(-> & _ & rest & -> & -> & Ht)|(sp & _ & _ & Ho)]%Hcons; [|by destruct (IH _ _ _ Ho)].
           right. split; [done|]. rewrite length_take. specialize (Hmin content' tail' eq_refl Ht). lia.
      * intros space content tail [(_ & _ & rest & -> & -> & Ht)|(sp & _ & _ & Ho)]%Hcons; [by eapply Hp|by destruct (IH _ _ _ Ho)].
    + intros space content tail [(_ & ? & _)|(sp & _ & _ & Ho)]%Hcons; [done|by destruct (IH _ _ _ Ho)].
Qed.

Lemma block_cons c l before space content tail : block (c :: l) before space content tail →
  (before = [] ∧ ∃ l', c :: l = header ++ l' ∧ opens l' space content tail) ∨
  (∃ before', before = c :: before' ∧ block l before' space content tail).
Proof.
  intros (l' & Heq & Ho). destruct before as [|a before]; [left; eauto|]. right. cbn in Heq. injection Heq as <- ->.
  exists before. split; [done|]. by exists l'.
Qed.

(** The search finds the match that the expression prefers, if there is any. *)
Lemma match_delegation_spec l :
  match match_delegation l with
  | Some content => delegated l content
  | None => ∀ before space content tail, ¬ block l before space content tail
  end.
Proof.
  induction l as [|c l IH]; cbn [match_delegation]; change (chars "```mezair-delegate") with header.
  { intros before space content tail (l' & Heq & _). apply (f_equal length) in Heq. rewrite !length_app in Heq. cbn in Heq. lia. }
  destruct (prefix_of header (c :: l)) eqn:Hp.
  - apply prefix_of_spec in Hp as [t Ht]. assert (drop 18 (c :: l) = t) as -> by by rewrite Ht.
    assert (Hhere : ∀ l', c :: l = header ++ l' → l' = t) by (intros l' Hl; rewrite Ht in Hl; by apply app_inv_head in Hl).
    pose proof (after_newline_spec t) as Ha. destruct (after_newline t) as [content|].
    + destruct Ha as (space & tail & Ho & Hmin). exists [], space, tail. split; [by exists t|].
      intros before' space' content' tail' [(-> & l' & ->%Hhere & Ho')|(b & -> & _)]%block_cons; [right|left; cbn; lia].
      split; [done|]. by eapply Hmin.
    + assert (Hno : ∀ l' space content tail, c :: l = header ++ l' → ¬ opens l' space content tail) by (intros * ->%Hhere; apply Ha).
      revert IH. destruct (match_delegation l) as [content|]; intros IH.
      * destruct IH as (before & space & tail & (l' & -> & Ho) & Hmin). exists (c :: before), space, tail. split; [by exists l'|].
        intros before' space' content' tail' [(-> & l2 & Hl2 & Ho2)|(b & -> & Hb)]%block_cons; [by destruct (Hno _ _ _ _ Hl2 Ho2)|].
        destruct (Hmin _ _ _ _ Hb) as [?|[-> ?]]; [left; cbn; lia|by right].
      * intros before space content tail [(-> & l2 & Hl2 & Ho2)|(b & -> & Hb)]%block_cons; [by destruct (Hno _ _ _ _ Hl2 Ho2)|by eapply IH].
  - assert (Hno : ∀ l', c :: l ≠ header ++ l') by (intros l' Hl; assert (prefix_of header (c :: l) = true) by (apply prefix_of_spec; eauto); congruence).
    revert IH. destruct (match_delegation l) as [content|]; intros IH.
    + destruct IH as (before & space & tail & (l' & -> & Ho) & Hmin). exists (c :: before), space, tail. split; [by exists l'|].
      intros before' space' content' tail' [(-> & l2 & Hl2 & _)|(b & -> & Hb)]%block_cons; [by destruct (Hno l2)|].
      destruct (Hmin _ _ _ _ Hb) as [?|[-> ?]]; [left; cbn; lia|by right].
    + intros before space content tail [(-> & l2 & Hl2 & _)|(b & -> & Hb)]%block_cons; [by destruct (Hno l2)|by eapply IH].
Qed.

(** The preferred match is one. *)
Lemma delegated_unique l content content' : delegated l content → delegated l content' → content = content'.
Proof.
  intros (b & sp & t & Hb & Hmin) (b' & sp' & t' & Hb' & Hmin').
  destruct (Hmin _ _ _ _ Hb') as [?|[-> H1]]; [destruct (Hmin' _ _ _ _ Hb) as [?|[-> _]]; lia|].
  destruct (Hmin' _ _ _ _ Hb) as [?|[_ H2]]; [lia|].
  destruct H1 as [?|[-> H1]]; [destruct H2 as [?|[-> _]]; lia|]. destruct H2 as [?|[_ H2]]; [lia|].
  destruct Hb as (l1 & Hl1 & (-> & _)), Hb' as (l2 & -> & (-> & _)).
  apply app_inv_head, app_inv_head, app_inv_head in Hl1. injection Hl1 as Hl1. apply app_inj_1 in Hl1 as [? _]; [done|lia].
Qed.

Lemma match_delegation_Some l content : match_delegation l = Some content ↔ delegated l content.
Proof.
  pose proof (match_delegation_spec l) as H. split; [by intros E; rewrite E in H|]. intros Hd.
  destruct (match_delegation l) as [c|]; [by rewrite (delegated_unique _ _ _ Hd H)|].
  destruct Hd as (b & sp & t & Hb & _). by destruct (H _ _ _ _ Hb).
Qed.

Lemma match_delegation_None l : match_delegation l = None ↔ ¬ ∃ before space content tail, block l before space content tail.
Proof.
  pose proof (match_delegation_spec l) as H. split.
  - intros E (b & sp & c & t & Hb). rewrite E in H. by eapply H.
  - intros Hno. destruct (match_delegation l) as [c|]; [|done]. destruct H as (b & sp & t & Hb & _). destruct Hno. eauto.
Qed.

(** A task of the payload and what is made of it. *)
Definition task_ok (t : json) (d : DelegatedTask) : Prop :=
  ∃ fields name prompt,
    t = JObj fields ∧ assoc_get "profileId" fields = Some (JStr (dt_profileId d)) ∧
    assoc_get "name" fields = Some (JStr name) ∧ assoc_get "prompt" fields = Some (JStr prompt) ∧
    blank name = false ∧ blank prompt = false ∧ slen prompt <= 24000 ∧
    dt_name d = slice_to 160 (trim name) ∧ dt_prompt d = trim prompt.

Lemma parse_task_spec t d : parse_task t = Ok d ↔ task_ok t d.
Proof.
  unfold task_ok. split.
  - destruct t as [| | | |l|fields]; try done. cbn [parse_task].
    destruct (assoc_get "profileId" fields) as [[| | |i| |]|] eqn:Ei; try done.
    destruct (assoc_get "name" fields) as [[| | |n| |]|] eqn:En; try done.
    destruct (assoc_get "prompt" fields) as [[| | |p| |]|] eqn:Ep; try done.
    destruct (blank n || blank p || (24000 <? slen p)) eqn:E; [done|]. intros [= <-]. reflect_bools.
    exists fields, n, p. by repeat split.
  - intros (fields & n & p & -> & Ei & En & Ep & Hn & Hp & Hl & Ed & Et). cbn [parse_task].
    rewrite Ei, En, Ep, Hn, Hp. cbn [orb]. destruct (Z.ltb_spec 24000 (slen p)); [lia|].
    destruct d; cbn in *; by subst.
Qed.

Lemma parse_tasks_spec ts ds : parse_tasks ts = Ok ds ↔ Forall2 task_ok ts ds.
Proof.
  revert ds. induction ts as [|t ts IH]; intros ds; cbn [parse_tasks].
  { split; [by intros [= <-]|by intros ->%Forall2_nil_inv_l]. }
  destruct (parse_task t) as [d|e] eqn:Et.
  - apply parse_task_spec in Et as Hd. destruct (parse_tasks ts) as [ds'|e] eqn:Ets.
    + split; [intros [= <-]; constructor; [done|by apply IH]|].
      intros (d' & ds'' & Hd' & Hds & ->)%Forall2_cons_inv_l.
      apply parse_task_spec in Hd'. apply IH in Hds. congruence.
    + split; [done|]. intros (d' & ds'' & Hd' & Hds & ->)%Forall2_cons_inv_l. by apply IH in Hds.
  - split; [done|]. intros (d' & ds'' & Hd' & Hds & ->)%Forall2_cons_inv_l.
    apply parse_task_spec in Hd'. congruence.
Qed.
