(* ===== verification/WorkflowScheduler.v ===== *)
(** * Desktop app: the workflow scheduler

    [runWorkflowRuntime] of [mezair-app/src/main/services/workflow-runtime.ts] as the
    pieces that run between two awaits: what [execute] does before and after it awaits
    the execution hook, a turn of the loop, and the beginning and end of the function.
    The persist hook does not throw. *)

From stdpp Require Import base list strings.
From Stdlib Require Import ZArith Ascii.
From S2P Require Import Prelude JsString JsValue WorkflowGraph WorkflowTeam.

(** ** Execution of one node *)

Inductive ResultOutcome := out_completed | out_waiting | out_attention.

#[export] Instance ResultOutcome_eq_dec : EqDecision ResultOutcome.
Proof. solve_decision. Defined.

Record ExecuteResult := {
  xr_output : string;
  xr_sessionId : option string;
  xr_threadId : option string;
  xr_outcome : option ResultOutcome;
  xr_error : option string;
  xr_remote : option RemoteExecution;
}.

Definition either_of {A} (x y : option A) : option A := match x with Some a => Some a | None => y end.

(** [Object.assign(attempt, result, { status, completedAt })]. *)
Definition assign_result (result : ExecuteResult) (status : AttemptStatus) (completedAt : option Z)
    (a : WorkflowAttempt) : WorkflowAttempt :=
  {| wa_id := wa_id a; wa_startedAt := wa_startedAt a; wa_completedAt := completedAt; wa_status := status;
     wa_provider := wa_provider a; wa_model := wa_model a; wa_reasoningEffort := wa_reasoningEffort a;
     wa_threadId := either_of (xr_threadId result) (wa_threadId a);
     wa_sessionId := either_of (xr_sessionId result) (wa_sessionId a);
     wa_output := Some (xr_output result);
     wa_error := either_of (xr_error result) (wa_error a);
     wa_remote := either_of (xr_remote result) (wa_remote a) |}.

Definition end_attempt (status : AttemptStatus) (error : option string) (t : Z) (a : WorkflowAttempt) :
    WorkflowAttempt :=
  {| wa_id := wa_id a; wa_startedAt := wa_startedAt a; wa_completedAt := Some t; wa_status := status;
     wa_provider := wa_provider a; wa_model := wa_model a; wa_reasoningEffort := wa_reasoningEffort a;
     wa_threadId := wa_threadId a; wa_sessionId := wa_sessionId a; wa_output := wa_output a;
     wa_error := either_of error (wa_error a); wa_remote := wa_remote a |}.

Definition wa_set_thread (thread : option string) (a : WorkflowAttempt) : WorkflowAttempt :=
  {| wa_id := wa_id a; wa_startedAt := wa_startedAt a; wa_completedAt := wa_completedAt a;
     wa_status := wa_status a; wa_provider := wa_provider a; wa_model := wa_model a;
     wa_reasoningEffort := wa_reasoningEffort a; wa_threadId := thread; wa_sessionId := wa_sessionId a;
     wa_output := wa_output a; wa_error := wa_error a; wa_remote := wa_remote a |}.

Definition wa_set_remote (remote : option RemoteExecution) (a : WorkflowAttempt) : WorkflowAttempt :=
  {| wa_id := wa_id a; wa_startedAt := wa_startedAt a; wa_completedAt := wa_completedAt a;
     wa_status := wa_status a; wa_provider := wa_provider a; wa_model := wa_model a;
     wa_reasoningEffort := wa_reasoningEffort a; wa_threadId := wa_threadId a; wa_sessionId := wa_sessionId a;
     wa_output := wa_output a; wa_error := wa_error a; wa_remote := remote |}.

Definition ns_set_thread (thread : option string) (s : NodeRun) : NodeRun :=
  {| ns_nodeId := ns_nodeId s; ns_status := ns_status s; ns_attempts := ns_attempts s;
     ns_teamExpanded := ns_teamExpanded s; ns_delegationCount := ns_delegationCount s;
     ns_threadId := thread; ns_sessionId := ns_sessionId s; ns_output := ns_output s;
     ns_error := ns_error s; ns_startedAt := ns_startedAt s; ns_completedAt := ns_completedAt s;
     ns_remote := ns_remote s; ns_decision := ns_decision s |}.

Definition ns_set_remote (remote : option RemoteExecution) (s : NodeRun) : NodeRun :=
  {| ns_nodeId := ns_nodeId s; ns_status := ns_status s; ns_attempts := ns_attempts s;
     ns_teamExpanded := ns_teamExpanded s; ns_delegationCount := ns_delegationCount s;
     ns_threadId := ns_threadId s; ns_sessionId := ns_sessionId s; ns_output := ns_output s;
     ns_error := ns_error s; ns_startedAt := ns_startedAt s; ns_completedAt := ns_completedAt s;
     ns_remote := remote; ns_decision := ns_decision s |}.

(** Change the last attempt. *)
Fixpoint update_last {A} (f : A → A) (l : list A) : list A :=
  match l with
  | [] => []
  | [a] => [f a]
  | a :: l' => a :: update_last f l'
  end.

(** The previous attempt is picked up again when its remote execution is still open. *)
Definition reusable (prior : option WorkflowAttempt) : option WorkflowAttempt :=
  match prior with
  | Some a =>
      if (bool_decide (wa_status a = att_running) || bool_decide (wa_status a = att_waiting)) &&
         match wa_remote a with
         | Some r => one_of ["awaiting-key-delivery"; "awaiting-approval"; "queued"; "running"] (rm_state r)
         | None => false
         end
      then Some a else None
  | None => None
  end.

Definition team_strategies : list string := ["map-reduce"; "review"; "debate"].
Definition is_team (s : option string) : bool := one_of team_strategies (default "" s).

Section Execute.
Context {W : Type} (host : SchedulerHost W) (json_parse : string → outcome json).
Notation F := (SFrame W).

Definition state_of (id : string) : M F NodeRun :=
  gets (λ f, default (queued_run id) (find_run id (sf_run f))).

Definition change_state (id : string) (g : NodeRun → NodeRun) : M F unit := s_change (on_run id g).

Definition team_role (node : WorkflowNode) (index : Z) (count : nat) : string :=
  let strategy := default "" (nd_teamStrategy node) in
  if String.eqb strategy "map-reduce" then
    "Own share " +:+ int_to_string (index + 1) +:+ " of " +:+ int_to_string (Z.of_nat count)
      +:+ "; focus on your capabilities and clearly state your scope."
  else if String.eqb strategy "debate" then
    "Develop an independent alternative. Explain assumptions, supporting evidence, and weaknesses."
  else "Review independently. Report concrete findings with evidence and distinguish observed results from assumptions.".

Definition capability_text (v : jsval) : string := match v with Some (JStr s) => s | _ => "" end.
Definition newline_text : string := of_chars [newline].

Definition team_task (node : WorkflowNode) (count : nat) (p : Z * WorkflowAgentProfile) : DelegatedTask :=
  let '(index, profile) := p in
  let name := default "" (pf_name profile) in
  {| dt_profileId := default "" (pf_id profile);
     dt_name := nd_name node +:+ " / " +:+ name;
     dt_prompt := nd_prompt node +:+ newline_text +:+ newline_text +:+ "Your role: " +:+ name
       +:+ ". Capabilities: " +:+ join ", " (capability_text <$> default [] (pf_capabilities profile)) +:+ "."
       +:+ newline_text +:+ team_role node index count |}.

(** The specialists of the node's pool, in the order of the configuration. *)
Definition team_profiles (config : WorkflowOrchestration) (node : WorkflowNode) : list WorkflowAgentProfile :=
  List.filter (λ p, one_of (default [] (nd_teamProfileIds node)) (default "" (pf_id p))) (oc_profiles config).

Definition new_attempt (node : WorkflowNode) (id : string) (t : Z) : WorkflowAttempt := {|
  wa_id := id; wa_startedAt := t; wa_completedAt := None; wa_status := att_running;
  wa_provider := default "codex" (nd_provider node); wa_model := nd_model node;
  wa_reasoningEffort := if bool_decide (nd_provider node = Some "cursor") then nd_reasoningEffort node
                        else resolveCodexReasoningEffort (nd_model node) (nd_reasoningEffort node);
  wa_threadId := None; wa_sessionId := None; wa_output := None; wa_error := None; wa_remote := None |}.

(** Up to [await hooks.execute(...)]: whether the node is now executing. *)
Definition begin_node (config : WorkflowOrchestration) (node : WorkflowNode) : M F bool :=
  let id := nd_id node in
  s ← state_of id;
  if bool_decide (nd_kind node = Some "human") then
    change_state id (λ s, ns_set_status nr_waiting (ns_error s) s) ;;
    recordWorkflowEvent host ev_decision (nd_name node +:+ " is waiting for a human decision.") (Some id) ;;
    mret false
  else if negb (ns_teamExpanded s) && is_team (nd_teamStrategy node) then
    match team_profiles config node with
    | [] => throw (plain_error "Choose at least one specialist for this team.")
    | profiles =>
        expandWorkflowTeam host node (team_task node (length profiles) <$> numbered 0 profiles) ;;
        mret false
    end
  else if num_leb (oc_maxAttempts config) (int (Z.of_nat (length (ns_attempts s))))
  then throw (plain_error "Maximum attempts reached for this step.")
  else
    attempt ← match reusable (last (ns_attempts s)) with
              | Some a => mret a
              | None =>
                  i ← s_uuid host; t ← s_now host;
                  let a := new_attempt node i t in
                  change_state id (ns_set_attempts (ns_attempts s ++ [a])) ;; mret a
              end;
    change_state id (ns_set_started (wa_startedAt attempt)) ;;
    recordWorkflowEvent host ev_dispatch
      (nd_name node +:+ ": " +:+ wa_provider attempt +:+ " / " +:+ nd_model node +:+ " / "
        +:+ nd_reasoningEffort node) (Some id) ;;
    s_persist host ;;
    mret true.

(** The outer [catch]: the node fails, or is cancelled when the run is. *)
Definition fail_node (aborted : bool) (node : WorkflowNode) (e : JsError) : M F unit :=
  change_state (nd_id node) (ns_set_status (if aborted then nr_cancelled else nr_failed) (Some (err_message e))) ;;
  recordWorkflowEvent host ev_failed (nd_name node +:+ ": " +:+ err_message e) (Some (nd_id node)).

(** The [finally]. *)
Definition close_node (id : string) : M F unit :=
  s ← state_of id;
  (if negb (bool_decide (ns_status s = nr_queued)) && negb (bool_decide (ns_status s = nr_waiting))
   then t ← s_now host; change_state id (ns_set_completedAt t)
   else mret tt) ;;
  s_persist host.

(** [execute(node)] until it awaits or returns: whether it is executing. *)
Definition start_node (config : WorkflowOrchestration) (aborted : bool) (node : WorkflowNode) : M F bool :=
  executing ← try_catch (begin_node config node) (λ e, fail_node aborted node e ;; mret false);
  (if executing : bool then mret tt else close_node (nd_id node)) ;;
  mret executing.

Definition set_last (id : string) (g : WorkflowAttempt → WorkflowAttempt) : M F unit :=
  change_state id (λ s, ns_set_attempts (update_last g (ns_attempts s)) s).

(** After the hook answered with a result. *)
Definition take_result (config : WorkflowOrchestration) (aborted : bool) (node : WorkflowNode)
    (result : ExecuteResult) : M F unit :=
  let id := nd_id node in
  s ← state_of id;
  r ← s_run;
  match last (ns_attempts s) with
  | None => throw (plain_error "Workflow attempt state is missing.")
  | Some _ =>
      if aborted || bool_decide (ru_status r = run_cancelled) then
        t ← s_now host;
        set_last id (end_attempt att_cancelled None t) ;;
        change_state id (λ s, ns_set_status nr_cancelled (ns_error s) s)
      else
        match xr_outcome result with
        | Some out_waiting | Some out_attention =>
            let status := if bool_decide (xr_outcome result = Some out_waiting) then att_waiting else att_attention in
            set_last id (assign_result result status None) ;;
            change_state id (ns_set_waiting (xr_error result) (xr_remote result)) ;;
            recordWorkflowEvent host ev_decision
              (nd_name node +:+ ": " +:+ default "Attention required." (xr_error result)) (Some id)
        | _ =>
            t ← s_now host;
            set_last id (assign_result result att_completed (Some t)) ;;
            change_state id (ns_set_result (xr_output result) (xr_remote result) (xr_sessionId result)
              (xr_threadId result)) ;;
            tasks ← (if bool_decide (nd_teamStrategy node = Some "autonomous")
                     then from_outcome (parseDelegation json_parse (xr_output result)) else mret None);
            match tasks with
            | Some tasks =>
                if num_leb (oc_maxAttempts config) (int (Z.of_nat (length (ns_attempts s))))
                then throw (plain_error "Delegation needs a remaining attempt for synthesis.")
                else expandWorkflowTeam host node tasks
            | None =>
                change_state id (λ s, ns_set_status nr_completed (ns_error s) s) ;;
                recordWorkflowEvent host ev_completed (nd_name node +:+ " completed.") (Some id)
            end
        end
  end.

(** The inner [catch] marks the attempt and throws again. *)
Definition fail_attempt {A} (aborted : bool) (id : string) (e : JsError) : M F A :=
  s ← state_of id;
  match last (ns_attempts s) with
  | None => throw (plain_error "Workflow attempt state is missing.")
  | Some _ =>
      t ← s_now host;
      set_last id (end_attempt (if aborted then att_cancelled else att_failed) (Some (err_message e)) t) ;;
      throw e
  end.

(** [execute(node)] from the hook's answer to its end. *)
Definition finish_node (config : WorkflowOrchestration) (aborted : bool) (node : WorkflowNode)
    (answer : outcome ExecuteResult) : M F unit :=
  try_catch
    (try_catch (result ← from_outcome answer; take_result config aborted node result)
       (fail_attempt aborted (nd_id node)))
    (fail_node aborted node) ;;
  close_node (nd_id node).

(** ** The loop *)

Inductive Job := job_executing | job_settled.

Inductive Phase := ph_turn | ph_waiting (woken : bool) | ph_done.

Record Sched := {
  sc_frame : F;
  sc_jobs : list (string * Job);
  sc_aborted : bool;
  sc_phase : Phase;
}.

Definition sc_run (s : Sched) : WorkflowRun := sf_run (sc_frame s).

Definition exec_unit {A} (m : M F A) (f : F) : F := (m f).2.

(** [for (const node of readyWorkflowNodes(run))]. *)
Fixpoint dispatch (config : WorkflowOrchestration) (aborted : bool) (nodes : list WorkflowNode)
    (f : F) (jobs : list (string * Job)) : F * list (string * Job) :=
  match nodes with
  | [] => (f, jobs)
  | node :: nodes' =>
      if num_leb (oc_maxConcurrency config) (int (Z.of_nat (length jobs))) then (f, jobs)
      else
        let '(o, f') := start_node config aborted node f in
        let job := match o with Ok true => job_executing | _ => job_settled end in
        dispatch config aborted nodes' f' (assoc_set (nd_id node) job jobs)
  end.

Definition dead_statuses : list NodeRunStatus := [nr_failed; nr_skipped; nr_cancelled; nr_interrupted].

(** An edge into the node comes from a step that will not complete. *)
Definition blocked (r : WorkflowRun) (id : string) : bool :=
  existsb (λ e, into id e &&
    match find_run (ed_source e) r with Some s => bool_decide (ns_status s ∈ dead_statuses) | None => false end)
    (ru_edges r).

Definition is_queued (s : NodeRun) : bool := bool_decide (ns_status s = nr_queued).

Definition skip_one (acc : WorkflowRun * bool) (id : string) : WorkflowRun * bool :=
  let '(r, changed) := acc in
  if blocked r id
  then (on_run id (ns_set_status nr_skipped (Some "An upstream step did not complete.")) r, true)
  else (r, changed).

(** One pass of [while (changed)] over the queued node runs. *)
Definition skip_pass (r : WorkflowRun) : WorkflowRun * bool :=
  fold_left skip_one (ns_nodeId <$> List.filter is_queued (ru_nodeRuns r)) (r, false).

Fixpoint propagate (passes : nat) (r : WorkflowRun) : WorkflowRun :=
  match passes with
  | O => r
  | S passes' => let '(r', changed) := skip_pass r in if changed : bool then propagate passes' r' else r'
  end.

Definition has_run_status (status : NodeRunStatus) (s : NodeRun) : bool := bool_decide (ns_status s = status).

Definition remote_wait (s : NodeRun) : bool :=
  has_run_status nr_waiting s &&
  match ns_remote s with Some r => negb (String.eqb (rm_state r) "unknown-outcome") | None => false end.

(** The status the run is left with. *)
Definition end_run (r : WorkflowRun) : M F unit :=
  if existsb (has_run_status nr_waiting) (ru_nodeRuns r) then
    s_change (λ r, set_runStatus run_paused (ru_error r) r) ;;
    recordWorkflowEvent host ev_run
      (if existsb remote_wait (ru_nodeRuns r) then "Waiting for remote execution attention."
       else "Waiting for a human decision.") None
  else if existsb (λ s, negb (has_run_status nr_completed s)) (ru_nodeRuns r) then
    s_change (set_runStatus run_failed (Some "Some steps failed or remain blocked. Inspect the run before retrying."))
  else s_change (set_runStatus run_completed None).

(** When nothing is ready and nothing runs. *)
Definition conclude : M F unit :=
  s_change (λ r, propagate (S (length (ru_nodeRuns r))) r) ;;
  r ← s_run;
  end_run r.

Definition cancel_statuses : list NodeRunStatus := [nr_queued; nr_running; nr_waiting].

Definition cancel_nodes (statuses : list NodeRunStatus) (r : WorkflowRun) : WorkflowRun :=
  set_nodeRuns
    ((λ s, if bool_decide (ns_status s ∈ statuses) then ns_set_status nr_cancelled (ns_error s) s else s)
      <$> ru_nodeRuns r) r.

Definition status_text (s : RunStatus) : string :=
  match s with
  | run_queued => "queued" | run_running => "running" | run_paused => "paused"
  | run_completed => "completed" | run_failed => "failed" | run_cancelled => "cancelled"
  end.

(** The [finally] of the loop. *)
Definition finalize (aborted : bool) : M F unit :=
  (if aborted then
     s_change (λ r, if bool_decide (ru_status r = run_running) || bool_decide (ru_status r = run_paused)
                    then set_runStatus run_cancelled (ru_error r) r else r) ;;
     s_change (cancel_nodes cancel_statuses)
   else mret tt) ;;
  r ← s_run;
  (if bool_decide (ru_status r ∈ [run_completed; run_failed; run_cancelled])
   then t ← s_now host; s_change (λ r, set_times (ru_startedAt r) (ru_deadlineAt r) (Some t) r)
   else mret tt) ;;
  r ← s_run;
  recordWorkflowEvent host ev_run ("Run " +:+ status_text (ru_status r) +:+ ".") None ;;
  s_persist host.

Definition active (s : Sched) : bool := bool_decide (ru_status (sc_run s) = run_running) && negb (sc_aborted s).

Definition done_with (s : Sched) (m : M F unit) : Sched :=
  {| sc_frame := exec_unit (m ;; finalize (sc_aborted s)) (sc_frame s); sc_jobs := sc_jobs s;
     sc_aborted := sc_aborted s; sc_phase := ph_done |}.

(** One iteration of [while (true)]. *)
Definition turn (config : WorkflowOrchestration) (s : Sched) : Sched :=
  let '(f, jobs) :=
    if active s then dispatch config (sc_aborted s) (ready_nodes (sc_run s)) (sc_frame s) (sc_jobs s)
    else (sc_frame s, sc_jobs s) in
  let s' := {| sc_frame := f; sc_jobs := jobs; sc_aborted := sc_aborted s; sc_phase := ph_turn |} in
  match jobs with
  | _ :: _ => {| sc_frame := f; sc_jobs := jobs; sc_aborted := sc_aborted s; sc_phase := ph_waiting false |}
  | [] =>
      if negb (active s') then done_with s' (mret tt)
      else match ready_nodes (sc_run s') with
           | _ :: _ => s'
           | [] => done_with s' conclude
           end
  end.

(** The beginning of [runWorkflowRuntime]. *)
Definition begin_run (f : F) (aborted : bool) : Sched :=
  let r := sf_run f in
  if aborted || bool_decide (ru_status r = run_cancelled) then
    {| sc_frame := exec_unit
         (s_change (λ r, set_runStatus run_cancelled (ru_error r) r) ;;
          t ← s_now host;
          s_change (λ r, set_times (ru_startedAt r) (ru_deadlineAt r) (Some t) r) ;;
          s_change (cancel_nodes cancel_statuses) ;;
          s_persist host) f;
       sc_jobs := []; sc_aborted := aborted; sc_phase := ph_done |}
  else
    let config := orchestrationConfig (ru_orchestration r) in
    {| sc_frame := exec_unit
         (s_change (λ r, set_runStatus run_running (ru_error r) r) ;;
          t ← s_now host;
          s_change (λ r, set_times (Some (default t (ru_startedAt r))) (ru_deadlineAt r) (ru_completedAt r) r) ;;
          t ← s_now host;
          s_change (λ r, set_times (ru_startedAt r)
            (Some (default (t + default 0 (num_to_Z (oc_timeoutMinutes config)) * 60000) (ru_deadlineAt r)))
            (ru_completedAt r) r) ;;
          recordWorkflowEvent host ev_run "Scheduler started." None ;;
          s_persist host) f;
       sc_jobs := []; sc_aborted := false; sc_phase := ph_turn |}.
End Execute.

Arguments Sched W : clear implicits.
Arguments sc_frame {W} _.
Arguments sc_jobs {W} _.
Arguments sc_aborted {W} _.
Arguments sc_phase {W} _.
