(* ===== verification/WorkflowSchedulerProps.v ===== *)
(** * Desktop app: what the scheduler does to one node

    [start_node] and [finish_node] in terms of [near]: the node alone changes, within its
    attempts, or it gets a team and is queued again. *)

From stdpp Require Import base list strings.
From Stdlib Require Import ZArith Ascii Lia.
From S2P Require Import Prelude JsString JsValue WorkflowGraph WorkflowTeam WorkflowTeamProps WorkflowScheduler.

(** ** Budgets of a node run *)

(** Within the attempts and delegation rounds of the configuration. *)
Record budget (config : WorkflowOrchestration) (s : NodeRun) : Prop := {
  bu_attempts : Z.of_nat (length (ns_attempts s)) <= limit (oc_maxAttempts config);
  bu_rounds : ns_delegationCount s <= limit (oc_maxAttempts config);
}.

Lemma update_last_length {A} (g : A → A) l : length (update_last g l) = length l.
Proof. induction l as [|a [|b l] IH]; cbn in *; [done..|]. by rewrite IH. Qed.

Lemma update_last_nil {A} (g : A → A) l : update_last g l = [] ↔ l = [].
Proof. by rewrite <- !length_zero_iff_nil, update_last_length. Qed.

Section Node.
Context {W : Type} (host : SchedulerHost W) `{!FreshIds host} (json_parse : string → outcome json).
Notation F := (SFrame W).
Context (f0 : F) (node : WorkflowNode) (Hknown : knows f0 (nd_id node)).
Notation id := (nd_id node).
Notation r0 := (sf_run f0).
Notation config := (orchestrationConfig (ru_orchestration r0)).
Context (Hlimits : limits_ok config).

(** The node run alone has changed. *)
Definition alone (P : NodeRun → Prop) (f : F) : Prop :=
  ∃ s, ns_nodeId s = id ∧ budget config s ∧ P s ∧ near host f0 id s [] [] f.

(** The node has got a team, of at least one, and is queued to integrate its results. *)
Definition teamed (f : F) : Prop :=
  ∃ s cs es tasks, ns_nodeId s = id ∧ budget config s ∧ ns_status s = nr_queued ∧
    tasks ≠ [] ∧ team_of r0 node tasks cs es ∧
    default 0 (nd_depth node) < limit (oc_maxDepth config) ∧
    Z.of_nat (length (ru_nodes r0) + length tasks) <= limit (oc_maxNodes config) ∧
    near host f0 id s cs es f.

Definition queued (s : NodeRun) : Prop := ns_status s = nr_queued.
Definition waiting (s : NodeRun) : Prop := ns_status s = nr_waiting.
Definition broken (s : NodeRun) : Prop := ns_status s = nr_failed ∨ ns_status s = nr_cancelled.
Definition at_rest (s : NodeRun) : Prop := ns_status s ≠ nr_queued ∧ ns_status s ≠ nr_running.

Lemma alone_mono (P Q : NodeRun → Prop) f : (∀ s, P s → Q s) → alone P f → alone Q f.
Proof. intros H (s & E & B & HP & Hn). exists s. by auto. Qed.

(** Steps that keep the node run. *)
Lemma alone_keep {A} P (m : M F A) :
  (∀ s, triple (near host f0 id s [] []) m (λ _, near host f0 id s [] []) noerr) →
  triple (alone P) m (λ _, alone P) noerr.
Proof.
  intros Hm f (s & E & B & HP & Hn). specialize (Hm s f Hn). destruct (m f) as [[a|e] f']; [|done].
  by exists s.
Qed.

Lemma alone_event P type message n : triple (alone P) (recordWorkflowEvent host type message n) (λ _, alone P) noerr.
Proof. apply alone_keep. intros s. by apply near_event. Qed.

Lemma alone_now P : triple (alone P) (s_now host) (λ _, alone P) noerr.
Proof. apply alone_keep. intros s. by apply near_now. Qed.

Lemma alone_uuid P : triple (alone P) (s_uuid host) (λ _, alone P) noerr.
Proof.
  apply alone_keep. intros s. eapply triple_conseq; [apply (near_uuid host f0 id s [] [])|done| |done].
  by intros i f [H _].
Qed.

Lemma alone_persist P : triple (alone P) (s_persist host) (λ _, alone P) noerr.
Proof. apply alone_keep. intros s. by apply near_persist. Qed.

(** A step that changes it. *)
Lemma alone_change (P Q : NodeRun → Prop) g :
  (∀ s, ns_nodeId s = id → budget config s → P s → ns_nodeId (g s) = id ∧ budget config (g s) ∧ Q (g s)) →
  triple (alone P) (change_state id g) (λ _, alone Q) noerr.
Proof using Hknown.
  intros Hg f (s & E & B & HP & Hn). destruct (Hg s E B HP) as (E' & B' & HQ).
  pose proof (near_change host f0 id Hknown s [] [] g E f Hn) as Hc. unfold change_state.
  destruct (s_change _ f) as [[a|e] f']; [|done]. by exists (g s).
Qed.

Lemma alone_state P : triple (alone P) (state_of id) (λ s, alone (λ s', s' = s ∧ P s)) noerr.
Proof using Hknown.
  intros f (s & E & B & HP & Hn). unfold state_of, gets.
  rewrite (near_find host f0 id Hknown s [] [] f E Hn). by exists s.
Qed.

(** Sequencing after a step that does not throw. *)
Lemma then_safe {A B} P (m : M F A) (k : A → M F B) R Q E :
  triple P m R noerr → (∀ a, triple (R a) (k a) Q E) → triple P (m ≫= k) Q E.
Proof. intros Hm Hk. eapply triple_bind; [|exact Hk]. eapply triple_conseq; [exact Hm|done..]. Qed.

Lemma safe_any {A} P (m : M F A) Q E : triple P m Q noerr → triple P m Q E.
Proof. intros Hm. eapply triple_conseq; [exact Hm|done..]. Qed.

(** Expansion, from a node alone. *)
Lemma alone_expand P tasks :
  tasks ≠ [] →
  triple (alone P) (expandWorkflowTeam host node tasks) (λ _, teamed) (λ _, alone P).
Proof using Hknown Hlimits.
  intros Htasks f (s & E & B & HP & Hn).
  pose proof (near_expand host f0 node Hknown Hlimits s tasks f E Hn) as He.
  destruct (expandWorkflowTeam host node tasks f) as [[[]|e] f'].
  - destruct He as ([Hd Hs Hr Hp] & cs & es & Ht & Hn').
    rewrite (near_config _ _ _ _ _ _ _ Hn) in Hd, Hs, Hr.
    rewrite (near_find host f0 id Hknown s [] [] f E Hn) in Hr. cbn in Hr.
    rewrite (near_nodes _ _ _ _ _ _ _ Hn), app_nil_r in Hs.
    exists (ns_set_expanded s), cs, es, tasks. split; [done|]. split.
    { destruct B. split; cbn in *; lia. }
    split; [done|]. split; [done|]. split; [|done].
    unfold team_of in *. rewrite (near_config _ _ _ _ _ _ _ Hn), (near_edges _ _ _ _ _ _ _ Hn), app_nil_r in Ht. done.
  - destruct He as [-> _]. by exists s.
Qed.

(** ** Starting a step *)

Definition launched (b : bool) (f : F) : Prop :=
  if b then alone (λ s, ns_status s = nr_running ∧ ns_attempts s ≠ []) f
  else alone waiting f ∨ teamed f.

Lemma begin_node_spec :
  triple (alone queued) (begin_node host config node) launched
    (λ _, alone queued).
Proof using Hknown Hlimits.
  unfold begin_node. eapply then_safe; [apply alone_state|]. intros s. cbn beta.
  destruct (bool_decide (nd_kind node = Some "human")).
  { eapply then_safe; [apply (alone_change _ waiting)|].
    { intros s' E [] _. split; [done|]. split; [by split|]. done. }
    intros []. eapply then_safe; [apply alone_event|]. intros [] f H. by left. }
  destruct (negb (ns_teamExpanded s) && is_team (nd_teamStrategy node)).
  { destruct (team_profiles config node) as [|p l].
    { intros f H. eapply alone_mono; [|exact H]. by intros s' [-> ?]. }
    eapply triple_bind.
    - eapply triple_conseq; [apply (alone_expand (λ s', s' = s ∧ queued s))|done|done|].
      { done. } intros e f H. eapply alone_mono; [|exact H]. by intros s' [-> ?].
    - intros [] f H. by right. }
  pose proof (limit_spec _ _ _ (lo_attempts _ Hlimits)) as (_ & Hmax & _). rewrite Hmax.
  destruct (Z.leb_spec (limit (oc_maxAttempts config)) (Z.of_nat (length (ns_attempts s)))) as [_|Hlt].
  { intros f H. eapply alone_mono; [|exact H]. by intros s' [-> ?]. }
  eapply then_safe with (R := λ a, alone (λ s', ns_attempts s' ≠ [])).
  { destruct (reusable (last (ns_attempts s))) as [a|] eqn:Er.
    - intros f H. eapply alone_mono; [|exact H]. intros s' [-> _] E. rewrite E in Er. discriminate Er.
    - eapply then_safe; [apply alone_uuid|]. intros i. eapply then_safe; [apply alone_now|]. intros t.
      eapply then_safe; [apply (alone_change _ (λ s', ns_attempts s' ≠ []))|by intros [] f H].
      intros s' E [] [-> _]. split; [done|]. split; [split; cbn; [rewrite length_app; cbn; lia|done]|].
      cbn. by intros [_ ?]%app_nil. }
  intros a. cbn beta.
  eapply then_safe; [apply (alone_change _ (λ s', ns_status s' = nr_running ∧ ns_attempts s' ≠ []))|].
  { intros s' E [] Hs. split; [done|]. by split. }
  intros []. eapply then_safe; [apply alone_event|]. intros []. eapply then_safe; [apply alone_persist|].
  intros [] f H. exact H.
Qed.

Lemma fail_node_spec P aborted e :
  triple (alone P) (fail_node host aborted node e) (λ _, alone broken) noerr.
Proof using Hknown.
  unfold fail_node. eapply then_safe; [apply (alone_change _ broken)|by intros []; apply alone_event].
  intros s E [] _. split; [done|]. split; [by split|]. destruct aborted; [by right|by left].
Qed.

Lemma close_node_spec P (Q : NodeRun → Prop) :
  (∀ s t, P s → Q (ns_set_completedAt t s)) → (∀ s, P s → Q s) →
  triple (alone P) (close_node host id) (λ _, alone Q) noerr.
Proof using Hknown.
  intros HQ HPQ. unfold close_node. eapply then_safe; [apply alone_state|]. intros s. cbn beta.
  eapply then_safe with (R := λ _, alone Q); [|by intros []; apply alone_persist].
  destruct (negb (bool_decide (ns_status s = nr_queued)) && _) eqn:E.
  - eapply then_safe; [apply alone_now|]. intros t. apply alone_change.
    intros s' Ei [] [-> Hs]. split; [done|]. split; [by split|]. by apply HQ.
  - intros f H. eapply alone_mono; [|exact H]. intros s' [-> Hs]. by apply HPQ.
Qed.

Lemma near_state_of s cs es f :
  ns_nodeId s = id → near host f0 id s cs es f → state_of id f = (Ok s, f).
Proof using Hknown.
  intros E H. unfold state_of, gets. by rewrite (near_find host f0 id Hknown s cs es f E H).
Qed.

(** The [finally] leaves a queued node as it is. *)
Lemma close_teamed : triple teamed (close_node host id) (λ _, teamed) noerr.
Proof using Hknown.
  intros f (s & cs & es & tasks & E & B & Hq & Ht & Hteam & Hd & Hs & Hn).
  unfold close_node, mbind, M_bind. rewrite (near_state_of s cs es f E Hn), Hq.
  change (negb (bool_decide (nr_queued = nr_queued))) with false. cbn [andb mret M_ret].
  pose proof (near_persist host f0 id s cs es f Hn) as Hp. destruct (s_persist host f) as [[[]|e] f']; [|done].
  by exists s, cs, es, tasks.
Qed.

Lemma broken_rest s : broken s → at_rest s.
Proof. by intros [E|E]; split; rewrite E. Qed.

Lemma close_rest : triple (alone at_rest) (close_node host id) (λ _, alone at_rest) noerr.
Proof using Hknown. by apply close_node_spec. Qed.

(** Starting a ready step: it executes, or it is done with for now. *)
Lemma start_node_spec aborted :
  triple (alone queued) (start_node host config aborted node)
    (λ b f, if b : bool then alone (λ s, ns_status s = nr_running ∧ ns_attempts s ≠ []) f
            else alone at_rest f ∨ teamed f) noerr.
Proof using Hknown Hlimits.
  unfold start_node.
  eapply triple_bind with (R := λ b f, if b : bool then alone (λ s, ns_status s = nr_running ∧ ns_attempts s ≠ []) f
            else alone at_rest f ∨ teamed f).
  - eapply triple_try; [eapply triple_conseq; [apply begin_node_spec|done| |intros e f H; exact H]|].
    + intros [] f H; [exact H|]. destruct H as [H|H]; [left|by right].
      eapply alone_mono; [|exact H]. intros s E. split; by rewrite E.
    + intros e. eapply then_safe; [apply fail_node_spec|]. intros [] f H. left.
      eapply alone_mono; [apply broken_rest|exact H].
  - intros []; cbn beta iota.
    + intros f H. exact H.
    + intros f [H|H].
      * pose proof (close_rest f H) as Hc. unfold mbind, M_bind.
        destruct (close_node host id f) as [[[]|e] f']; [by left|done].
      * pose proof (close_teamed f H) as Hc. unfold mbind, M_bind.
        destruct (close_node host id f) as [[[]|e] f']; [by right|done].
Qed.

(** ** The end of a step *)

Definition busy (s : NodeRun) : Prop := ns_attempts s ≠ [].

Lemma alone_last P g : (∀ s, P s → busy s) → triple (alone P) (set_last id g) (λ _, alone busy) noerr.
Proof using Hknown.
  intros HP. apply alone_change. intros s E [] Hs. split; [done|]. split.
  - split; cbn; [by rewrite update_last_length|done].
  - unfold busy. cbn. rewrite update_last_nil. by apply HP.
Qed.

Lemma alone_to P (Q : NodeRun → Prop) g :
  (∀ s, P s → ns_nodeId (g s) = ns_nodeId s ∧ ns_attempts (g s) = ns_attempts s ∧
        ns_delegationCount (g s) = ns_delegationCount s ∧ Q (g s)) →
  triple (alone P) (change_state id g) (λ _, alone Q) noerr.
Proof using Hknown.
  intros Hg. apply alone_change. intros s E [] HP. destruct (Hg s HP) as (-> & Ea & Ed & HQ).
  split; [done|]. split; [by split; rewrite ?Ea, ?Ed|done].
Qed.

Lemma fail_attempt_spec {A} aborted e (Q : A → F → Prop) :
  triple (alone busy) (fail_attempt host aborted id e) Q (λ _, alone busy).
Proof using Hknown.
  unfold fail_attempt. eapply then_safe; [apply alone_state|]. intros s. cbn beta.
  destruct (last (ns_attempts s)).
  - eapply then_safe; [apply alone_now|]. intros t. eapply then_safe; [apply alone_last; by intros s' [-> ?]|].
    intros [] f H. exact H.
  - intros f H. eapply alone_mono; [|exact H]. by intros s' [-> ?].
Qed.

Lemma parse_tasks_length tasks l : parse_tasks tasks = Ok l → length l = length tasks.
Proof. intros H%parse_tasks_spec. by rewrite (Forall2_length _ _ _ H). Qed.

(** A delegation has tasks. *)
Lemma parseDelegation_some output tasks : parseDelegation json_parse output = Ok (Some tasks) → tasks ≠ [].
Proof.
  unfold parseDelegation. destruct (match_delegation _); [|done]. destruct (json_parse _); [|done].
  destruct (prop "tasks" _) as [[| | | |ts|]|]; try done.
  destruct ((length ts =? 0)%nat || (16 <? length ts)%nat) eqn:El; [done|].
  destruct (parse_tasks ts) as [ds|] eqn:Ep; [|done]. intros [= <-] ->.
  apply parse_tasks_length in Ep. apply orb_false_iff in El as [El _]. rewrite <- Ep in El. done.
Qed.

Definition stopped (f : F) : Prop := alone at_rest f ∨ teamed f.

Lemma take_result_spec aborted result :
  triple (alone busy) (take_result host json_parse config aborted node result) (λ _, stopped) (λ _, alone busy).
Proof using Hknown Hlimits.
  unfold take_result. eapply then_safe; [apply alone_state|]. intros s. cbn beta.
  eapply then_safe with (R := λ _, alone (λ s', s' = s ∧ busy s)); [by intros f H|]. intros r.
  destruct (last (ns_attempts s)).
  2:{ intros f H. eapply alone_mono; [|exact H]. by intros s' [-> ?]. }
  destruct (aborted || _).
  { eapply then_safe; [apply alone_now|]. intros t.
    eapply then_safe; [apply alone_last; by intros s' [-> ?]|]. intros [].
    eapply triple_conseq; [apply (alone_to busy at_rest)|done|by intros; left|done]. by intros s'. }
  cbn beta.
  assert (∀ f, alone at_rest f → stopped f) as Hstop by by left.
  assert (∀ status t, triple (alone (λ s', s' = s ∧ busy s)) (set_last id (assign_result result status t))
    (λ _, alone busy) noerr) as Hset by by intros; apply alone_last; intros s' [-> ?].
  assert (triple (alone (λ s', s' = s ∧ busy s))
    (t ← s_now host;
     set_last id (assign_result result att_completed (Some t)) ;;
     change_state id (ns_set_result (xr_output result) (xr_remote result) (xr_sessionId result) (xr_threadId result)) ;;
     tasks ← (if bool_decide (nd_teamStrategy node = Some "autonomous")
              then from_outcome (parseDelegation json_parse (xr_output result)) else mret None);
     match tasks with
     | Some tasks =>
         if num_leb (oc_maxAttempts config) (int (Z.of_nat (length (ns_attempts s))))
         then throw (plain_error "Delegation needs a remaining attempt for synthesis.")
         else expandWorkflowTeam host node tasks
     | None =>
         change_state id (λ s, ns_set_status nr_completed (ns_error s) s) ;;
         recordWorkflowEvent host ev_completed (nd_name node +:+ " completed.") (Some id)
     end) (λ _, stopped) (λ _, alone busy)) as Hcompleted.
  { eapply then_safe; [apply alone_now|]. intros t. eapply then_safe; [apply Hset|]. intros [].
    eapply then_safe; [apply (alone_to busy busy); by intros s'|]. intros [].
    eapply triple_bind with (R := λ tasks f, alone busy f ∧ tasks ≠ Some []).
    { destruct (bool_decide _); [|by intros f H].
      apply triple_outcome; [|done]. intros tasks E f H. split; [done|]. intros ->.
      by apply parseDelegation_some in E. }
    intros [tasks|].
    - destruct (num_leb _ _); [by intros f [H _]|]. intros f [H Hne].
      assert (tasks ≠ []) as Htasks by congruence.
      eapply triple_conseq; [apply (alone_expand busy tasks Htasks)|intros f' H'; exact H'| |done|exact H].
      by right.
    - eapply triple_pre; [|intros f [H _]; exact H].
      eapply then_safe; [apply (alone_to busy at_rest); by intros s'|]. intros [].
      eapply triple_conseq; [apply (alone_event at_rest)|done|by intros; left|done]. }
  assert (∀ status error, triple (alone (λ s', s' = s ∧ busy s))
    (set_last id (assign_result result status None) ;;
     change_state id (ns_set_waiting error (xr_remote result)) ;;
     recordWorkflowEvent host ev_decision (nd_name node +:+ ": " +:+ default "Attention required." error) (Some id))
    (λ _, stopped) (λ _, alone busy)) as Hwaiting.
  { intros status error. eapply then_safe; [apply Hset|]. intros [].
    eapply then_safe; [apply (alone_to busy at_rest); by intros s'|]. intros [].
    eapply triple_conseq; [apply (alone_event at_rest)|done|by intros; left|done]. }
  destruct (xr_outcome result) as [[]|]; auto.
Qed.

Lemma finish_node_spec aborted answer :
  triple (alone busy) (finish_node host json_parse config aborted node answer) (λ _, stopped) noerr.
Proof using Hknown Hlimits.
  unfold finish_node. eapply triple_bind with (R := λ _, stopped).
  - eapply triple_try with (R := λ _, alone busy).
    + eapply triple_try with (R := λ _, alone busy).
      * apply triple_outcome_bind; [|done]. intros result _. apply take_result_spec.
      * intros e. apply fail_attempt_spec.
    + intros e. eapply triple_conseq; [apply (fail_node_spec busy)|done| |done].
      intros a f H. left. eapply alone_mono; [apply broken_rest|exact H].
  - intros [] f [H|H].
    + eapply triple_conseq; [apply close_rest|done|by intros; left|done|exact H].
    + eapply triple_conseq; [apply close_teamed|done|by intros; right|done|exact H].
Qed.
End Node.
