(* ===== verification/WorkflowCommands.v ===== *)
(** * Desktop app: commands on workflow runs, and the scheduler as a step relation

    Pause, cancel, decide, inspect, retry and resume of
    [mezair-app/src/main/services/workflow.service.ts], what its execution hook reports
    while a step runs, and the wall-clock timer of [workflow-runtime.ts]; then the life of
    a run as a step relation.  What runs between two awaits is one step: a turn of the
    scheduler loop, the end of a step's execution, the microtask that drops a finished
    job, an abort, the timer, a command.  The hook may answer anything at any time.  A run
    with no scheduler is one whose phase is [ph_done]. *)

From stdpp Require Import base list strings.
From Stdlib Require Import ZArith Ascii.
From S2P Require Import Prelude JsString JsValue WorkflowGraph WorkflowTeam WorkflowScheduler.

Section Commands.
Context {W : Type} (host : SchedulerHost W) (json_parse : string → outcome json).
Notation F := (SFrame W).

Definition pauseWorkflowRun : M F unit :=
  s_change (λ r, set_runStatus run_paused (ru_error r) r) ;;
  recordWorkflowEvent host ev_run "Dispatch paused. Active agents will finish their current attempts." None ;;
  s_persist host.

Definition cancelled_with (t : Z) (statuses : list NodeRunStatus) (r : WorkflowRun) : WorkflowRun :=
  set_nodeRuns
    ((λ s, if bool_decide (ns_status s ∈ statuses)
           then ns_set_completedAt t (ns_set_status nr_cancelled (ns_error s) s) else s) <$> ru_nodeRuns r) r.

Definition cancelWorkflowRun : M F unit :=
  s_change (λ r, set_runStatus run_cancelled (ru_error r) r) ;;
  t ← s_now host;
  s_change (λ r, set_times (ru_startedAt r) (ru_deadlineAt r) (Some t) r) ;;
  s_change (cancelled_with t (cancel_statuses ++ [nr_interrupted])) ;;
  recordWorkflowEvent host ev_run "Cancelled by user." None ;;
  s_persist host.

Definition wall_clock : M F unit :=
  s_change (set_runStatus run_failed (Some "Workflow wall-clock limit reached.")) ;;
  recordWorkflowEvent host ev_failed "Workflow wall-clock limit reached." None ;;
  s_persist host.

(** The check at the head of a command that throws. *)
Definition require (b : bool) (message : string) : M F unit :=
  if b then mret tt else throw (plain_error message).

Definition ns_set_decision (d : bool * string * Z) (output : string) (s : NodeRun) : NodeRun :=
  {| ns_nodeId := ns_nodeId s; ns_status := if d.1.1 then nr_completed else nr_failed;
     ns_attempts := ns_attempts s;
     ns_teamExpanded := ns_teamExpanded s; ns_delegationCount := ns_delegationCount s;
     ns_threadId := ns_threadId s; ns_sessionId := ns_sessionId s; ns_output := Some output;
     ns_error := ns_error s; ns_startedAt := ns_startedAt s; ns_completedAt := Some d.2;
     ns_remote := ns_remote s; ns_decision := Some d |}.

Definition open_run (r : WorkflowRun) : bool :=
  bool_decide (ru_status r = run_paused) || bool_decide (ru_status r = run_running).

Definition decideWorkflowNode (nodeId : string) (approved : bool) (note : string) : M F unit :=
  require (slen note <=? 12000) "Invalid human decision." ;;
  r ← s_run;
  require (open_run r && match find_run nodeId r with Some s => has_run_status nr_waiting s | None => false end)
    "This step is not waiting for a decision." ;;
  t ← s_now host;
  let output := "Human " +:+ (if approved then "accepted" else "rejected") +:+ ": "
                +:+ (if String.eqb note "" then "No note supplied." else note) in
  change_state nodeId (ns_set_decision (approved, note, t) output) ;;
  recordWorkflowEvent host ev_decision output (Some nodeId) ;;
  s_persist host.

Definition inspectable (s : NodeRun) : bool :=
  has_run_status nr_waiting s &&
  match ns_remote s with Some m => String.eqb (rm_state m) "unknown-outcome" | None => false end &&
  match last (ns_attempts s) with Some a => bool_decide (wa_status a = att_attention) | None => false end.

Definition inspectWorkflowNode (nodeId : string) : M F unit :=
  r ← s_run;
  require (open_run r && match find_run nodeId r with Some s => inspectable s | None => false end)
    "This step has no unknown remote outcome to inspect." ;;
  let message := "Unknown remote outcome inspected. Queue a retry only after reviewing the dispatch." in
  change_state nodeId (ns_set_status nr_failed (Some message)) ;;
  t ← s_now host;
  change_state nodeId (ns_set_completedAt t) ;;
  recordWorkflowEvent host ev_decision message (Some nodeId) ;;
  s_persist host.

(** One pass over the edges, then passes until one adds nothing. *)
Definition descend (acc : list string * bool) (e : WorkflowEdge) : list string * bool :=
  let '(found, changed) := acc in
  if one_of found (ed_source e) && negb (one_of found (ed_target e)) then (ed_target e :: found, true)
  else (found, changed).

Fixpoint descendants (passes : nat) (edges : list WorkflowEdge) (found : list string) : list string :=
  match passes with
  | O => found
  | S passes' =>
      let '(found', changed) := fold_left descend edges (found, false) in
      if changed : bool then descendants passes' edges found' else found'
  end.

Definition ns_set_retried (s : NodeRun) : NodeRun :=
  {| ns_nodeId := ns_nodeId s; ns_status := nr_queued; ns_attempts := ns_attempts s;
     ns_teamExpanded := ns_teamExpanded s; ns_delegationCount := ns_delegationCount s;
     ns_threadId := ns_threadId s; ns_sessionId := ns_sessionId s; ns_output := ns_output s;
     ns_error := None; ns_startedAt := ns_startedAt s; ns_completedAt := None;
     ns_remote := match ns_remote s with
                  | Some m => if String.eqb (rm_state m) "unknown-outcome" then None else Some m
                  | None => None
                  end; ns_decision := ns_decision s |}.

(** Skipped steps below a retried one are eligible again. *)
Definition requeue (below : list string) (r : WorkflowRun) : WorkflowRun :=
  set_nodeRuns
    ((λ s, if one_of below (ns_nodeId s) && has_run_status nr_skipped s
           then ns_set_status nr_queued None s else s) <$> ru_nodeRuns r) r.

Definition find_node (id : string) (r : WorkflowRun) : option WorkflowNode :=
  find_first (λ n, String.eqb (nd_id n) id) (ru_nodes r).

Definition retriable (nodeId : string) (r : WorkflowRun) : bool :=
  match find_run nodeId r, find_node nodeId r with
  | Some s, Some n => negb (bool_decide (nd_kind n = Some "human")) &&
                      (has_run_status nr_failed s || has_run_status nr_interrupted s)
  | _, _ => false
  end.

(** With no scheduler active on the run. *)
Definition retryWorkflowNode (nodeId : string) : M F unit :=
  r ← s_run;
  require (bool_decide (ru_status r = run_failed) || bool_decide (ru_status r = run_paused))
    "Retry is available after active agents stop." ;;
  require (retriable nodeId r) "Choose a failed or interrupted agent step." ;;
  s ← state_of nodeId;
  require (negb (num_leb (oc_maxAttempts (orchestrationConfig (ru_orchestration r)))
                         (int (Z.of_nat (length (ns_attempts s))))))
    "Attempt budget exhausted. Start a new run." ;;
  change_state nodeId ns_set_retried ;;
  s_change (λ r, requeue (descendants (S (length (ru_edges r))) (ru_edges r) [nodeId]) r) ;;
  s_change (set_runStatus run_paused None) ;;
  s_change (λ r, set_times (ru_startedAt r) (ru_deadlineAt r) None r) ;;
  recordWorkflowEvent host ev_retry "Retry queued after user inspection. Resume to execute." (Some nodeId) ;;
  s_persist host.

Definition remote_waiting (s : NodeRun) : bool :=
  match ns_remote s with
  | Some m => one_of ["awaiting-key-delivery"; "awaiting-approval"] (rm_state m)
  | None => false
  end.

Definition requeue_remote (r : WorkflowRun) : WorkflowRun :=
  set_nodeRuns
    ((λ s, if has_run_status nr_waiting s && remote_waiting s then ns_set_status nr_queued None s else s)
      <$> ru_nodeRuns r) r.

(** With no scheduler active on the run; the scheduler then starts. *)
Definition resumeWorkflowRun : M F unit :=
  r ← s_run;
  require (bool_decide (ru_status r = run_paused)) "Only a paused workflow can be resumed." ;;
  require (negb (existsb (has_run_status nr_interrupted) (ru_nodeRuns r)))
    "Inspect interrupted attempts and retry them explicitly." ;;
  require (negb (existsb (λ s, has_run_status nr_waiting s && negb (remote_waiting s)) (ru_nodeRuns r)))
    "Resolve pending human decisions before resuming." ;;
  s_change requeue_remote ;;
  t ← s_now host;
  require (match ru_deadlineAt r with Some d => t <? d | None => true end)
    "This run has exhausted its wall-clock budget. Start a new run." ;;
  s_change (λ r, set_runStatus run_queued (ru_error r) r) ;;
  s_persist host.

(** What the execution hook writes while a step runs: its thread, or the state of its
    remote dispatch. *)
Definition reportThread (id thread : string) : M F unit :=
  change_state id (ns_set_thread (Some thread)) ;;
  set_last id (wa_set_thread (Some thread)) ;;
  s_persist host.

Definition updateRemote (id : string) (remote : RemoteExecution) : M F unit :=
  change_state id (ns_set_remote (Some remote)) ;;
  set_last id (wa_set_remote (Some remote)) ;;
  s_persist host.

Definition with_frame (f : F) (s : Sched W) : Sched W :=
  {| sc_frame := f; sc_jobs := sc_jobs s; sc_aborted := sc_aborted s; sc_phase := sc_phase s |}.

Definition abort (s : Sched W) : Sched W :=
  {| sc_frame := sc_frame s; sc_jobs := sc_jobs s; sc_aborted := true; sc_phase := sc_phase s |}.

(** The hook of an executing job answers. *)
Definition settle (config : WorkflowOrchestration) (id : string) (answer : outcome ExecuteResult) (s : Sched W) : Sched W :=
  match find_node id (sc_run s) with
  | Some node =>
      {| sc_frame := exec_unit (finish_node host json_parse config (sc_aborted s) node answer) (sc_frame s);
         sc_jobs := assoc_set id job_settled (sc_jobs s);
         sc_aborted := sc_aborted s; sc_phase := sc_phase s |}
  | None => s
  end.

(** [running.delete(node.id)], which also resolves the race. *)
Definition collect (id : string) (s : Sched W) : Sched W :=
  {| sc_frame := sc_frame s; sc_jobs := List.filter (λ j, negb (String.eqb j.1 id)) (sc_jobs s);
     sc_aborted := sc_aborted s; sc_phase := ph_waiting true |}.

(** The race is won: [continue]. *)
Definition wake (s : Sched W) : Sched W :=
  {| sc_frame := sc_frame s; sc_jobs := sc_jobs s; sc_aborted := sc_aborted s; sc_phase := ph_turn |}.

(** What the hook may report while a step executes, and what a person may decide. *)
Inductive report (id : string) : M F unit → Prop :=
| report_thread thread : report id (reportThread id thread)
| report_remote remote : report id (updateRemote id remote).

Inductive human_command : M F unit → Prop :=
| human_decide id approved note : human_command (decideWorkflowNode id approved note)
| human_inspect id : human_command (inspectWorkflowNode id).

(** What goes on by itself once the hook answers. *)
Inductive internal_step (config : WorkflowOrchestration) : Sched W → Sched W → Prop :=
| step_turn s : sc_phase s = ph_turn → internal_step config s (turn host config s)
| step_settle s id answer woken :
    sc_phase s = ph_waiting woken → assoc_get id (sc_jobs s) = Some job_executing →
    internal_step config s (settle config id answer s)
| step_collect s id woken :
    sc_phase s = ph_waiting woken → assoc_get id (sc_jobs s) = Some job_settled →
    internal_step config s (collect id s)
| step_wake s : sc_phase s = ph_waiting true → internal_step config s (wake s).

(** Interventions while the scheduler waits, and commands on a run without one. *)
Inductive command_step : Sched W → Sched W → Prop :=
| step_abort s woken : sc_phase s = ph_waiting woken → command_step s (abort s)
| step_wall_clock s woken :
    sc_phase s = ph_waiting woken →
    command_step s (abort (with_frame (exec_unit wall_clock (sc_frame s)) s))
| step_pause s woken :
    sc_phase s = ph_waiting woken → ru_status (sc_run s) = run_running →
    command_step s (with_frame (exec_unit pauseWorkflowRun (sc_frame s)) s)
| step_cancel s woken :
    sc_phase s = ph_waiting woken → ru_status (sc_run s) ∈ [run_queued; run_running; run_paused] →
    command_step s (abort (with_frame (exec_unit cancelWorkflowRun (sc_frame s)) s))
| step_report s id woken m :
    sc_phase s = ph_waiting woken → assoc_get id (sc_jobs s) = Some job_executing → report id m →
    command_step s (with_frame (exec_unit m (sc_frame s)) s)
| step_human s m f :
    sc_phase s ≠ ph_turn → human_command m → m (sc_frame s) = (Ok tt, f) → command_step s (with_frame f s)
| step_retry s id f :
    sc_phase s = ph_done → retryWorkflowNode id (sc_frame s) = (Ok tt, f) → command_step s (with_frame f s)
| step_resume s f :
    sc_phase s = ph_done → resumeWorkflowRun (sc_frame s) = (Ok tt, f) → command_step s (begin_run host f false)
| step_cancel_idle s :
    sc_phase s = ph_done → ru_status (sc_run s) ∈ [run_queued; run_running; run_paused] →
    command_step s (with_frame (exec_unit cancelWorkflowRun (sc_frame s)) s).

Definition step (config : WorkflowOrchestration) (s s' : Sched W) : Prop :=
  internal_step config s s' ∨ command_step s s'.

(** What can become of the run that [startPreparedWorkflowRun] launches. *)
Inductive reachable (config : WorkflowOrchestration) (f : F) : Sched W → Prop :=
| reach_start aborted : reachable config f (begin_run host f aborted)
| reach_step s s' : reachable config f s → step config s s' → reachable config f s'.
End Commands.
