(* ===== verification/WorkflowSafety.v ===== *)
(** * Desktop app: the invariant of the workflow scheduler

    What holds in every state a run can reach, through any interleaving of agents ending,
    timers and commands: limits, dependencies, and the graph staying acyclic. *)

From stdpp Require Import base list strings.
From Stdlib Require Import ZArith Ascii Lia.
From S2P Require Import Prelude JsString JsValue WorkflowGraph WorkflowTeam WorkflowTeamProps WorkflowScheduler WorkflowSchedulerProps WorkflowCommands.

(** ** Runs *)

Definition ids_of (r : WorkflowRun) : list string := nd_id <$> ru_nodes r.

(** The edges go up in a rank, between nodes of the run. *)
Definition acyclic (r : WorkflowRun) : Prop :=
  ∃ rank : string → nat, ∀ e, e ∈ ru_edges r →
    ed_source e ∈ ids_of r ∧ ed_target e ∈ ids_of r ∧ (rank (ed_source e) < rank (ed_target e))%nat.

Record graph_ok (config : WorkflowOrchestration) (r : WorkflowRun) : Prop := {
  rk_config : orchestrationConfig (ru_orchestration r) = config;
  rk_runs : ns_nodeId <$> ru_nodeRuns r = ids_of r;
  rk_nodup : NoDup (ids_of r);
  rk_acyclic : acyclic r;
  rk_budget : Forall (budget config) (ru_nodeRuns r);
  rk_size : Z.of_nat (length (ru_nodes r)) <= limit (oc_maxNodes config);
  rk_depth : Forall (λ n, default 0 (nd_depth n) <= limit (oc_maxDepth config)) (ru_nodes r);
}.

Definition status_at (r : WorkflowRun) (id : string) : option NodeRunStatus := ns_status <$> find_run id r.

(** Every step the node depends on is completed. *)
Definition deps_done (r : WorkflowRun) (id : string) : Prop :=
  ∀ e, e ∈ ru_edges r → ed_target e = id → status_at r (ed_source e) = Some nr_completed.

Lemma find_run_known r id : id ∈ ns_nodeId <$> ru_nodeRuns r → is_Some (find_run id r).
Proof. apply find_has_id. Qed.

Lemma find_run_in r st : NoDup (ns_nodeId <$> ru_nodeRuns r) → st ∈ ru_nodeRuns r → find_run (ns_nodeId st) r = Some st.
Proof.
  unfold find_run. induction (ru_nodeRuns r) as [|t l IH]; intros Hnd Hin; [by apply elem_of_nil in Hin|].
  cbn in *. apply NoDup_cons in Hnd as [Ht Hnd]. apply elem_of_cons in Hin as [->|Hin]; [by rewrite String.eqb_refl|].
  destruct (String.eqb_spec (ns_nodeId t) (ns_nodeId st)) as [E|]; [|by apply IH].
  destruct Ht. rewrite E. by apply list_elem_of_fmap_2.
Qed.

(** The run after node [id] was worked on. *)
Section Worked.
Context {W : Type} (host : SchedulerHost W) `{!FreshIds host}.
Context (config : WorkflowOrchestration) (f0 f : SFrame W) (node : WorkflowNode).
Notation id := (nd_id node).
Notation r0 := (sf_run f0).
Notation r := (sf_run f).
Context (Hok : graph_ok config r0) (Hused : Forall (used (sf_ext f0)) (ids_of r0)).
Context (Hnode : id ∈ ids_of r0).

Lemma known_id : knows f0 id.
Proof using Hok Hnode. unfold knows. by rewrite (rk_runs _ _ Hok). Qed.

Lemma fresh_not_old s cs es i : near host f0 id s cs es f → i ∈ nd_id <$> cs → i ∉ ids_of r0.
Proof using Hused.
  intros H Hi Hold. destruct (proj1 (Forall_forall _ _) (near_fresh _ _ _ _ _ _ _ H) i Hi) as [_ Hn].
  by apply Hn, (proj1 (Forall_forall _ _) Hused).
Qed.

Lemma near_ids s cs es : near host f0 id s cs es f → ids_of r = ids_of r0 ++ (nd_id <$> cs).
Proof. intros H. unfold ids_of. by rewrite (near_nodes _ _ _ _ _ _ _ H), fmap_app. Qed.

Lemma near_used_all s cs es : near host f0 id s cs es f → Forall (used (sf_ext f)) (ids_of r).
Proof using Hused.
  intros H. rewrite (near_ids _ _ _ H). apply Forall_app. split.
  - eapply Forall_impl; [exact Hused|]. apply (near_used _ _ _ _ _ _ _ H).
  - eapply Forall_impl; [apply (near_fresh _ _ _ _ _ _ _ H)|]. by intros i [? _].
Qed.

Lemma near_find_other s cs es j : ns_nodeId s = id →
  near host f0 id s cs es f → j ≠ id → j ∈ ids_of r0 → find_run j r = find_run j r0.
Proof using Hok.
  intros E H Hj Hin. unfold find_run. rewrite (near_runs _ _ _ _ _ _ _ H).
  assert (ns_nodeId <$> update_run id (λ _, s) (ru_nodeRuns r0) = ids_of r0) as Hids.
  { rewrite update_run_ids; [apply (rk_runs _ _ Hok)|]. by right. }
  fold (run_of j). rewrite find_app_first by by rewrite Hids.
  by apply find_update_ne.
Qed.

Lemma near_status s cs es j : ns_nodeId s = id →
  near host f0 id s cs es f → j ∈ ids_of r0 → j ≠ id → status_at r j = status_at r0 j.
Proof using Hok. intros E H Hin Hj. unfold status_at. by rewrite (near_find_other s cs es). Qed.

(** Node runs and budgets. *)
Lemma near_runs_ok s cs es :
  ns_nodeId s = id → budget config s → near host f0 id s cs es f →
  ns_nodeId <$> ru_nodeRuns r = ids_of r ∧ NoDup (ids_of r) ∧ Forall (budget config) (ru_nodeRuns r).
Proof using Hok Hused Hnode.
  intros E B H. rewrite (near_ids _ _ _ H), (near_runs _ _ _ _ _ _ _ H). split; [|split].
  - rewrite fmap_app, update_run_ids by by right. rewrite (rk_runs _ _ Hok). f_equal.
    induction (nd_id <$> cs) as [|i l IH]; [done|]. cbn. by f_equal.
  - apply NoDup_app. split; [apply (rk_nodup _ _ Hok)|]. split; [|apply (near_nodup _ _ _ _ _ _ _ H)].
    intros i Hi Hc. by apply (fresh_not_old s cs es i H Hc).
  - apply Forall_app. split.
    + pose proof (rk_budget _ _ Hok) as Hb. induction Hb as [|t l Ht Hl IH]; cbn; [done|].
      destruct (String.eqb _ _); by constructor.
    + apply Forall_forall. intros t (i & -> & _)%list_elem_of_fmap.
      assert (0 <= limit (oc_maxAttempts config)) as Hpos; [|by split].
      pose proof (rk_budget _ _ Hok) as Hb. destruct (find_run_known r0 id known_id) as [t Ht].
      apply find_run_elem in Ht as [Ht _]. rewrite Forall_forall in Hb. destruct (Hb t Ht). lia.
Qed.

Lemma alone_ok P :
  alone host f0 node P f → graph_ok config r ∧ Forall (used (sf_ext f)) (ids_of r) ∧ ru_edges r = ru_edges r0 ∧
    ids_of r = ids_of r0.
Proof using Hok Hused Hnode.
  intros (s & E & B & _ & H). rewrite (rk_config _ _ Hok) in B.
  destruct (near_runs_ok s [] [] E B H) as (Hr & Hnd & Hb).
  pose proof (near_edges _ _ _ _ _ _ _ H) as He. rewrite app_nil_r in He.
  pose proof (near_nodes _ _ _ _ _ _ _ H) as Hn. rewrite app_nil_r in Hn.
  assert (ids_of r = ids_of r0) as Hids by (unfold ids_of; by rewrite Hn).
  split; [|split; [by eapply near_used_all|done]]. split; try done.
  - rewrite (near_config _ _ _ _ _ _ _ H). apply (rk_config _ _ Hok).
  - destruct (rk_acyclic _ _ Hok) as [rank Hr']. exists rank. by rewrite He, Hids.
  - rewrite Hn. apply (rk_size _ _ Hok).
  - rewrite Hn. apply (rk_depth _ _ Hok).
Qed.

(** Edges of a team: to a child from what the parent waits for, or from a child to the parent. *)
Lemma team_edge tasks cs es e :
  team_of r0 node tasks cs es → e ∈ es →
  (∃ e0, e0 ∈ ru_edges r0 ∧ ed_target e0 = id ∧ ed_source e = ed_source e0 ∧ ed_target e ∈ nd_id <$> cs) ∨
  (ed_source e ∈ nd_id <$> cs ∧ ed_target e = id).
Proof.
  intros (ids & profiles & Hl & Hp & _ & -> & He) Hin.
  assert (length ids = length profiles) as Hl' by by rewrite Hl, <- Hp, length_fmap.
  rewrite children_ids by done.
  assert (edge_ends e ∈ edge_ends <$> es) as Hends by by apply list_elem_of_fmap_2.
  rewrite He in Hends. apply list_elem_of_In, in_concat in Hends as (l & Hl1 & Hl2).
  apply list_elem_of_In, list_elem_of_fmap in Hl1 as (child & -> & Hchild).
  apply list_elem_of_In in Hl2. unfold child_ends in Hl2. apply elem_of_app in Hl2 as [Hl2|Hl2].
  - apply list_elem_of_fmap in Hl2 as (e0 & [= Es Et] & He0). apply elem_of_incoming in He0 as [He0 Ht0].
    left. exists e0. by rewrite Et.
  - apply list_elem_of_singleton in Hl2 as [= -> ->]. by right.
Qed.

Lemma team_children tasks cs es c : team_of r0 node tasks cs es → c ∈ cs → nd_depth c = Some (default 0 (nd_depth node) + 1).
Proof.
  intros (ids & profiles & _ & _ & _ & -> & _). generalize 0 at 1. revert profiles.
  induction ids as [|i ids IH]; intros [|[t p] profiles] index; cbn; try by intros ?%elem_of_nil.
  intros [->|Hin]%elem_of_cons; [done|by eapply IH].
Qed.

Lemma team_length tasks cs es : team_of r0 node tasks cs es → length cs = length tasks.
Proof.
  intros (ids & profiles & Hl & Hp & _ & -> & _). rewrite <- (length_fmap nd_id), children_ids; [done|].
  by rewrite Hl, <- Hp, length_fmap.
Qed.

Lemma teamed_ok :
  teamed host f0 node f → graph_ok config r ∧ Forall (used (sf_ext f)) (ids_of r) ∧
    (∃ l, ids_of r = ids_of r0 ++ l) ∧ status_at r id = Some nr_queued ∧
    ∀ j e, j ∈ ids_of r0 → j ≠ id → e ∈ ru_edges r → ed_target e = j → e ∈ ru_edges r0.
Proof using Hok Hused Hnode.
  intros (s & cs & es & tasks & E & B & Hq & Hne & Hteam & Hdep & Hsz & H). rewrite (rk_config _ _ Hok) in B, Hdep, Hsz.
  destruct (near_runs_ok s cs es E B H) as (Hr & Hnd & Hb).
  pose proof (near_edges _ _ _ _ _ _ _ H) as He. pose proof (near_nodes _ _ _ _ _ _ _ H) as Hn.
  pose proof (near_ids s cs es H) as Hids.
  assert (∀ i, i ∈ nd_id <$> cs → i ∉ ids_of r0) as Hfresh by (intros i; by eapply fresh_not_old).
  split; [split; try done|split; [by eapply near_used_all|split; [by eexists|split]]].
  - rewrite (near_config _ _ _ _ _ _ _ H). apply (rk_config _ _ Hok).
  - destruct (rk_acyclic _ _ Hok) as [rank Hrank].
    exists (λ i, if bool_decide (i ∈ nd_id <$> cs) then (2 * rank id)%nat else S (2 * rank i)).
    intros e. rewrite He, Hids, !elem_of_app. intros [Hold|Hnew].
    + destruct (Hrank e Hold) as (Hs & Ht & Hlt).
      rewrite !bool_decide_eq_false_2 by (intros Hc; by apply (Hfresh _ Hc)). split; [by left|]. split; [by left|lia].
    + destruct (team_edge _ _ _ _ Hteam Hnew) as [(e0 & He0 & Ht0 & -> & Hc)|[Hc ->]].
      * destruct (Hrank e0 He0) as (Hs & _ & Hlt). rewrite Ht0 in Hlt.
        rewrite (bool_decide_eq_true_2 (ed_target e ∈ _)) by done.
        rewrite bool_decide_eq_false_2 by (intros Hc'; by apply (Hfresh _ Hc')).
        split; [by left|]. split; [by right|lia].
      * rewrite (bool_decide_eq_true_2 (ed_source e ∈ _)) by done.
        rewrite bool_decide_eq_false_2 by (intros Hc'; by apply (Hfresh _ Hc')).
        split; [by right|]. split; [by left|lia].
  - rewrite Hn, length_app, (team_length _ _ _ Hteam). exact Hsz.
  - rewrite Hn. apply Forall_app. split; [apply (rk_depth _ _ Hok)|]. apply Forall_forall. intros c Hc.
    rewrite (team_children _ _ _ _ Hteam Hc). cbn. lia.
  - unfold status_at. rewrite (near_find host f0 id known_id s cs es f E H). cbn. by rewrite Hq.
  - intros j e Hj Hne' . rewrite He, elem_of_app. intros [Hin|Hnew] Ht; [done|].
    destruct (team_edge _ _ _ _ Hteam Hnew) as [(e0 & _ & _ & _ & Hc)|[_ Hc]]; [|congruence].
    destruct (Hfresh (ed_target e) Hc). by rewrite Ht.
Qed.

Lemma worked_run P :
  alone host f0 node P f ∨ teamed host f0 node f → ru_status r = ru_status r0.
Proof.
  by intros [(s & _ & _ & _ & H)|(s & cs & es & tasks & _ & _ & _ & _ & _ & _ & _ & H)]; destruct (near_state _ _ _ _ _ _ _ H).
Qed.

(** What work on a node that is not completed leaves of the others. *)
Lemma worked_others P j :
  alone host f0 node P f ∨ teamed host f0 node f →
  status_at r0 id ≠ Some nr_completed → j ∈ ids_of r0 → j ≠ id →
  find_run j r = find_run j r0 ∧ (deps_done r0 j → deps_done r j).
Proof using Hok Hused Hnode.
  intros Hw Hst Hj Hne.
  assert (∀ k, k ∈ ids_of r0 → k ≠ id → find_run k r = find_run k r0) as Hfind.
  { intros k Hk Hk'. destruct Hw as [(s & E & _ & _ & H)|(s & cs & es & tasks & E & _ & _ & _ & _ & _ & _ & H)];
      by eapply near_find_other. }
  split; [by apply Hfind|]. intros Hdeps e He Ht.
  assert (e ∈ ru_edges r0) as He0.
  { destruct Hw as [Hw|Hw].
    - apply alone_ok in Hw as (_ & _ & Hedges & _). by rewrite <- Hedges.
    - apply teamed_ok in Hw as (_ & _ & _ & _ & Hedges). by eapply Hedges. }
  pose proof (Hdeps e He0 Ht) as Hs. destruct (rk_acyclic _ _ Hok) as [rank Hrank].
  destruct (Hrank e He0) as (Hsrc & _ & _). unfold status_at. rewrite Hfind; [exact Hs|done|].
  intros Heq. by rewrite Heq in Hs.
Qed.

(** New nodes are queued. *)
Lemma worked_new P j :
  alone host f0 node P f ∨ teamed host f0 node f → j ∉ ids_of r0 →
  status_at r j = Some nr_queued ∨ status_at r j = None.
Proof using Hok.
  intros Hw Hj.
  assert (∃ s cs es, ns_nodeId s = id ∧ near host f0 id s cs es f) as (s & cs & es & E & H).
  { destruct Hw as [(s & E & _ & _ & H)|(s & cs & es & tasks & E & _ & _ & _ & _ & _ & _ & H)]; eauto. }
  unfold status_at. destruct (find_run j r) as [t|] eqn:Ht; [|by right]. left.
  apply find_run_elem in Ht as [Hin Et]. rewrite (near_runs _ _ _ _ _ _ _ H) in Hin.
  apply elem_of_app in Hin as [Hin|Hin].
  - destruct Hj. rewrite <- (rk_runs _ _ Hok), <- (update_run_ids id (λ _, s)) by by right.
    rewrite <- Et. by apply list_elem_of_fmap_2.
  - apply list_elem_of_fmap in Hin as (i & -> & _). done.
Qed.

Lemma alone_deps P : alone host f0 node P f → deps_done r0 id → deps_done r id.
Proof using Hok Hused Hnode.
  intros Hw Hdeps e He Ht. destruct (alone_ok _ Hw) as (_ & _ & Hedges & _). rewrite Hedges in He.
  destruct (rk_acyclic _ _ Hok) as [rank Hrank]. destruct (Hrank e He) as (Hsrc & _ & Hlt). rewrite Ht in Hlt.
  destruct Hw as (s & E & _ & _ & H). unfold status_at.
  rewrite (near_find_other s [] [] (ed_source e) E H); [by apply Hdeps| |done]. intros Heq. rewrite Heq in Hlt. lia.
Qed.

Lemma alone_find P : alone host f0 node P f → ∃ s, find_run id r = Some s ∧ P s.
Proof using Hok Hnode.
  intros (s & E & _ & HP & H). exists s. split; [by apply (near_find host f0 id known_id s [] [])|done].
Qed.

Lemma alone_start P : (∀ s, find_run id r0 = Some s → P s) → alone host f0 node P f0.
Proof using Hok Hnode.
  intros HP. destruct (find_run_known r0 id known_id) as [s Hs]. exists s.
  destruct (find_run_elem _ _ _ Hs) as [Hin E]. split; [done|]. split; [|split; [by apply HP|by apply near_refl]].
  rewrite (rk_config _ _ Hok). pose proof (rk_budget _ _ Hok) as Hb. rewrite Forall_forall in Hb. by apply Hb.
Qed.
End Worked.

(** ** Jobs *)

Section Jobs.
Context {W : Type} (host : SchedulerHost W) `{!FreshIds host} (json_parse : string → outcome json).
Context (config : WorkflowOrchestration) (Hlimits : limits_ok config).
Notation F := (SFrame W).

(** A step that executes: it has an attempt, it is running or was cancelled meanwhile, and
    what it depends on is completed. *)
Definition executing_ok (r : WorkflowRun) (id : string) : Prop :=
  id ∈ ids_of r ∧ deps_done r id ∧
  ∃ s, find_run id r = Some s ∧ busy s ∧ (ns_status s = nr_running ∨ ns_status s = nr_cancelled).

Record jobs_ok (f : F) (jobs : list (string * Job)) : Prop := {
  jo_run : graph_ok config (sf_run f);
  jo_used : Forall (used (sf_ext f)) (ids_of (sf_run f));
  jo_nodup : NoDup jobs.*1;
  jo_bound : Z.of_nat (length jobs) <= limit (oc_maxConcurrency config);
  jo_executing : ∀ id, assoc_get id jobs = Some job_executing → executing_ok (sf_run f) id;
  jo_running : ∀ id, status_at (sf_run f) id = Some nr_running → assoc_get id jobs = Some job_executing;
}.

Lemma assoc_set_length {V} k (v : V) m : k ∉ m.*1 → length (assoc_set k v m) = S (length m).
Proof.
  induction m as [|[k' v'] m IH]; [done|]. cbn. intros [Hne Hk]%not_elem_of_cons.
  destruct (String.eqb_spec k k'); [done|]. cbn. by rewrite IH.
Qed.

Lemma assoc_set_length_le {V} k (v : V) m : (length (assoc_set k v m) <= S (length m))%nat.
Proof. induction m as [|[k' v'] m IH]; cbn; [lia|]. destruct (String.eqb k k'); cbn; lia. Qed.

Lemma assoc_set_length_in {V} k (v : V) m : k ∈ m.*1 → length (assoc_set k v m) = length m.
Proof.
  induction m as [|[k' v'] m IH]; cbn; [by intros ?%elem_of_nil|].
  destruct (String.eqb_spec k k') as [->|Hne]; [done|]. intros [?|Hin]%elem_of_cons; [done|]. cbn. by rewrite IH.
Qed.

Lemma assoc_get_in {V} k (v : V) m : assoc_get k m = Some v → k ∈ m.*1.
Proof. intros H%assoc_get_elem. apply list_elem_of_fmap. by exists (k, v). Qed.

Lemma executing_status r id : executing_ok r id → status_at r id = Some nr_running ∨ status_at r id = Some nr_cancelled.
Proof. intros (_ & _ & s & Hs & _ & Hst). unfold status_at. rewrite Hs. cbn. by destruct Hst as [-> | ->]; auto. Qed.

(** After the node of a job was worked on, the job is as its run says. *)
Lemma jobs_worked f f' node job jobs :
  jobs_ok f jobs → nd_id node ∈ ids_of (sf_run f) → status_at (sf_run f) (nd_id node) ≠ Some nr_completed →
  Z.of_nat (length (assoc_set (nd_id node) job jobs)) <= limit (oc_maxConcurrency config) →
  match job with
  | job_executing => deps_done (sf_run f) (nd_id node) ∧ alone host f node (λ s, ns_status s = nr_running ∧ busy s) f'
  | job_settled => stopped host f node f'
  end →
  jobs_ok f' (assoc_set (nd_id node) job jobs).
Proof using Hlimits.
  intros [Hok Hu Hnd Hb Hex Hrun] Hid Hst Hb' Hw.
  assert (alone host f node (λ _, True) f' ∨ teamed host f node f') as Hw'.
  { destruct job; [left; eapply alone_mono; [|apply Hw]; done|].
    destruct Hw as [Hw|Hw]; [left; eapply alone_mono; [|exact Hw]; done|by right]. }
  assert (graph_ok config (sf_run f') ∧ Forall (used (sf_ext f')) (ids_of (sf_run f')) ∧
          ∃ l, ids_of (sf_run f') = ids_of (sf_run f) ++ l) as (Hok' & Hu' & l & Hids).
  { destruct Hw' as [Hw'|Hw'].
    - edestruct (alone_ok host config f f' node Hok Hu Hid _ Hw') as (? & ? & _ & E). split; [done|]. split; [done|].
      exists []. by rewrite app_nil_r.
    - edestruct (teamed_ok host config f f' node Hok Hu Hid Hw') as (? & ? & E & _). done. }
  split; try done.
  - by apply assoc_set_NoDup.
  - intros j Hj. rewrite assoc_get_set in Hj. destruct (String.eqb_spec j (nd_id node)) as [Ej|Hne].
    + subst j. injection Hj as ->. destruct Hw as [Hdeps Hw]. split; [rewrite Hids; apply elem_of_app; by left|].
      split; [by eapply (alone_deps host config f f' node)|].
      destruct (alone_find host config f f' node Hok Hid _ Hw) as (s & Hs & E & Hbusy). exists s. by auto.
    + destruct (Hex j Hj) as (Hin & Hdeps & s & Hs & Hbusy).
      destruct (worked_others host config f f' node Hok Hu Hid _ j Hw' Hst Hin Hne) as [Hfind Hdeps'].
      split; [rewrite Hids; apply elem_of_app; by left|]. split; [by apply Hdeps'|]. exists s. by rewrite Hfind.
  - intros j Hj. rewrite assoc_get_set. destruct (String.eqb_spec j (nd_id node)) as [Ej|Hne].
    + subst j. destruct job; [done|]. exfalso. destruct Hw as [Hw|Hw].
      * destruct (alone_find host config f f' node Hok Hid _ Hw) as (s & Hs & _ & Hr).
        unfold status_at in Hj.  rewrite Hs in Hj. by injection Hj.
      * edestruct (teamed_ok host config f f' node Hok Hu Hid Hw) as (_ & _ & _ & E & _).  congruence.
    + apply Hrun. unfold status_at in *. destruct (decide (j ∈ ids_of (sf_run f))) as [Hin|Hout].
      * destruct (worked_others host config f f' node Hok Hu Hid _ j Hw' Hst Hin Hne) as [Hfind _]. by rewrite <- Hfind.
      * exfalso. destruct (worked_new host config f f' node Hok _ j Hw' Hout) as [E|E]; unfold status_at in E; by rewrite E in Hj.
Qed.

(** ** Ready nodes *)

(** Queued, and all it depends on completed. *)
Definition pending (f : F) (n : WorkflowNode) : Prop :=
  nd_id n ∈ ids_of (sf_run f) ∧ status_at (sf_run f) (nd_id n) = Some nr_queued ∧ deps_done (sf_run f) (nd_id n).

Lemma status_map r id v :
  graph_ok config r → js_map (gr_nodeRuns (graph_of r)) !! id = Some v ↔ status_at r id = Some v.
Proof.
  intros Hok. pose proof (rk_nodup _ _ Hok) as Hnd. rewrite <- (rk_runs _ _ Hok) in Hnd. unfold status_at. split.
  - intros Hv%js_map_elem. apply list_elem_of_fmap in Hv as (s & [= -> ->] & Hs). by rewrite (find_run_in r s).
  - destruct (find_run id r) as [s|] eqn:Hs; [|done]. intros [= <-]. apply find_run_elem in Hs as [Hs <-].
    apply js_map_found; cbn.
    + rewrite <- list_fmap_compose. exact Hnd.
    + apply list_elem_of_fmap. by exists s.
Qed.

Lemma filter_NoDup {A B} (g : A → B) (p : A → bool) l : NoDup (g <$> l) → NoDup (g <$> List.filter p l).
Proof.
  induction l as [|x l IH]; cbn; [done|]. intros [Hx Hl]%NoDup_cons. destruct (p x); [|by apply IH].
  cbn. apply NoDup_cons. split; [|by apply IH]. intros (y & Ey & Hy)%list_elem_of_fmap. apply Hx.
  apply list_elem_of_fmap. exists y. split; [done|]. apply list_elem_of_In in Hy. apply list_elem_of_In.
  by apply filter_In in Hy as [? _].
Qed.

Lemma elem_of_ready_nodes r n : graph_ok config r →
  n ∈ ready_nodes r ↔ n ∈ ru_nodes r ∧ status_at r (nd_id n) = Some nr_queued ∧ deps_done r (nd_id n).
Proof.
  intros Hok. unfold ready_nodes. rewrite list_elem_of_In, filter_In, <- list_elem_of_In.
  rewrite one_of_spec, elem_of_ready. unfold deps_done. setoid_rewrite <- (status_map r _ _ Hok).
  split; [by intros (? & _ & ? & ?)|]. intros (? & ? & ?). repeat split; try done. cbn. by apply list_elem_of_fmap_2.
Qed.

Lemma ready_pending f : graph_ok config (sf_run f) →
  Forall (pending f) (ready_nodes (sf_run f)) ∧ NoDup (nd_id <$> ready_nodes (sf_run f)).
Proof.
  intros Hok. split.
  - apply Forall_forall. intros n Hn. apply (elem_of_ready_nodes _ _ Hok) in Hn as (Hin & Hs & Hd).
    split; [by apply list_elem_of_fmap_2|done].
  - apply filter_NoDup, (rk_nodup _ _ Hok).
Qed.

(** ** Energy: what is left to dispatch *)

Definition count_queued (l : list NodeRun) : Z := Z.of_nat (length (List.filter is_queued l)).

Definition energy (r : WorkflowRun) : Z :=
  3 * (limit (oc_maxNodes config) - Z.of_nat (length (ru_nodes r))) + count_queued (ru_nodeRuns r).

Lemma energy_nonneg r : graph_ok config r → 0 <= energy r.
Proof. intros Hok. pose proof (rk_size _ _ Hok). unfold energy, count_queued. lia. Qed.

Lemma count_update id s s0 l :
  find_first (run_of id) l = Some s0 →
  count_queued (update_run id (λ _, s) l) = count_queued l - Z.b2z (is_queued s0) + Z.b2z (is_queued s).
Proof.
  unfold count_queued. induction l as [|t l IH]; [done|]. cbn [find_first update_run]. unfold run_of at 1.
  destruct (String.eqb (ns_nodeId t) id).
  - intros [= ->]. cbn [List.filter]. destruct (is_queued s), (is_queued s0); cbn [length Z.b2z]; lia.
  - intros Hf. specialize (IH Hf). cbn [List.filter]. destruct (is_queued t); cbn [length]; lia.
Qed.

Lemma count_new ids : count_queued (queued_run <$> ids) = Z.of_nat (length ids).
Proof.
  unfold count_queued. induction ids as [|i ids IH]; [done|]. rewrite fmap_cons. cbn [List.filter length].
  change (is_queued (queued_run i)) with true. cbn [length]. lia.
Qed.

Lemma near_count f0 id s s0 cs es f :
  near host f0 id s cs es f → find_run id (sf_run f0) = Some s0 →
  count_queued (ru_nodeRuns (sf_run f)) =
    count_queued (ru_nodeRuns (sf_run f0)) - Z.b2z (is_queued s0) + Z.b2z (is_queued s) + Z.of_nat (length cs).
Proof.
  intros H Hs. rewrite (near_runs _ _ _ _ _ _ _ H). rewrite <- (count_update id s s0) by done.
  unfold count_queued. rewrite List.filter_app, length_app, Nat2Z.inj_add. f_equal.
  pose proof (count_new (nd_id <$> cs)) as Hc. by rewrite length_fmap in Hc.
Qed.

(** Work on a node: the energy never grows, and drops when the node was queued. *)
Lemma worked_energy f f' node s0 :
  graph_ok config (sf_run f) → find_run (nd_id node) (sf_run f) = Some s0 →
  alone host f node (λ s, ns_status s ≠ nr_queued) f' ∨ teamed host f node f' →
  energy (sf_run f') + Z.b2z (is_queued s0) <= energy (sf_run f).
Proof.
  intros Hok Hs0 [(s & E & B & Hs & H)|(s & cs & es & tasks & E & B & Hq & Hne & Hteam & Hdep & Hsz & H)]; unfold energy;
    rewrite (near_count _ _ _ _ _ _ _ H Hs0), (near_nodes _ _ _ _ _ _ _ H), length_app.
  - assert (is_queued s = false) as -> by by apply bool_decide_eq_false. cbn [length Z.b2z]. lia.
  - assert (is_queued s = true) as -> by by apply bool_decide_eq_true.
    rewrite (team_length _ _ _ _ _ Hteam). destruct tasks; [done|]. cbn [length Z.b2z].
    destruct (is_queued s0); cbn [Z.b2z]; lia.
Qed.

(** ** Dispatch *)

Lemma stopped_not_queued f f' node : stopped host f node f' →
  alone host f node (λ s, ns_status s ≠ nr_queued) f' ∨ teamed host f node f'.
Proof. intros [H|H]; [left|by right]. eapply alone_mono; [|exact H]. by intros s []. Qed.

Lemma stopped_any f f' node : stopped host f node f' →
  alone host f node (λ _, True) f' ∨ teamed host f node f'.
Proof. intros [H|H]; [left|by right]. by eapply alone_mono; [|exact H]. Qed.

Definition job_of (o : outcome bool) : Job := match o with Ok true => job_executing | _ => job_settled end.

Lemma dispatch_node f jobs node aborted o f' :
  jobs_ok f jobs → pending f node → Z.of_nat (length jobs) < limit (oc_maxConcurrency config) →
  start_node host config aborted node f = (o, f') →
  jobs_ok f' (assoc_set (nd_id node) (job_of o) jobs) ∧ energy (sf_run f') < energy (sf_run f) ∧
  ru_status (sf_run f') = ru_status (sf_run f) ∧
  ∀ n, pending f n → nd_id n ≠ nd_id node → pending f' n.
Proof using Hlimits.
  intros Hj (Hid & Hst & Hdeps) Hlt E. pose proof (jo_run _ _ Hj) as Hok. pose proof (jo_used _ _ Hj) as Hu.
  assert (status_at (sf_run f) (nd_id node) ≠ Some nr_completed) as Hnc by congruence.
  destruct (find_run_known (sf_run f) (nd_id node) ltac:(by rewrite (rk_runs _ _ Hok))) as [s0 Hs0].
  assert (ns_status s0 = nr_queued) as Hq by (unfold status_at in Hst; rewrite Hs0 in Hst; by injection Hst).
  pose proof (start_node_spec host f node (known_id config f node Hok Hid)) as Hspec.
  rewrite (rk_config _ _ Hok) in Hspec. specialize (Hspec Hlimits aborted f).
  rewrite E in Hspec.
  assert (alone host f node queued f) as Hstart.
  { apply (alone_start host config f node Hok Hid). intros s Hs. congruence. }
  specialize (Hspec Hstart). destruct o as [b|e]; [|done].
  pose proof (assoc_set_length_le (nd_id node) (job_of (Ok b)) jobs) as Hlen.
  assert (alone host f node (λ s, ns_status s ≠ nr_queued) f' ∨ teamed host f node f') as Hw.
  { destruct b; [left; eapply alone_mono; [|exact Hspec]; intros s [-> _]; done|by apply stopped_not_queued]. }
  assert (alone host f node (λ _, True) f' ∨ teamed host f node f') as Hw'.
  { destruct Hw as [Hw|Hw]; [left; by eapply alone_mono; [|exact Hw]|by right]. }
  split; [|split; [|split; [by eapply worked_run|]]].
  - apply (jobs_worked f f' node); [done..|lia|]. destruct b; [|exact Hspec]. split; [done|].
    eapply alone_mono; [|exact Hspec]. by intros s.
  - pose proof (worked_energy f f' node s0 Hok Hs0 Hw) as He.
    assert (is_queued s0 = true) as Eq by by apply bool_decide_eq_true. rewrite Eq in He. cbn in He. lia.
  - intros n (Hn & Hns & Hnd) Hne.
    destruct (worked_others host config f f' node Hok Hu Hid _ _ Hw' Hnc Hn Hne) as [Hfind Hdeps'].
    split; [|split; [|by apply Hdeps']]; [|unfold status_at in *; by rewrite Hfind].
    destruct Hw' as [Hw'|Hw'].
    + destruct (alone_ok host config f f' node Hok Hu Hid _ Hw') as (_ & _ & _ & ->). done.
    + destruct (teamed_ok host config f f' node Hok Hu Hid Hw') as (_ & _ & [l ->] & _). apply elem_of_app. by left.
Qed.

Lemma assoc_set_nonempty {V} k (v : V) m : assoc_set k v m ≠ [].
Proof. destruct m as [|[k' v'] m]; cbn; [done|]. by destruct (String.eqb k k'). Qed.

(** What the jobs still cost: to settle and be collected. *)
Definition job_weight (j : Job) : Z := match j with job_executing => 4 | job_settled => 3 end.
Fixpoint weight (jobs : list (string * Job)) : Z :=
  match jobs with [] => 0 | j :: jobs' => job_weight j.2 + weight jobs' end.

Lemma job_weight_bounds j : 3 <= job_weight j <= 4.
Proof. by destruct j. Qed.

Lemma weight_bounds jobs : 0 <= weight jobs <= 4 * Z.of_nat (length jobs).
Proof.
  induction jobs as [|[id j] jobs IH]; [done|]. cbn [weight length snd]. pose proof (job_weight_bounds j). lia.
Qed.

Lemma weight_set id j jobs : weight (assoc_set id j jobs) <= weight jobs + 4.
Proof.
  pose proof (job_weight_bounds j). induction jobs as [|[id' j'] jobs IH]; cbn [assoc_set weight snd]; [lia|].
  pose proof (job_weight_bounds j'). destruct (String.eqb id id'); cbn [weight snd]; lia.
Qed.

(** A dispatch of ready nodes. *)
Lemma dispatch_spec aborted nodes : ∀ f jobs f' jobs',
  jobs_ok f jobs → Forall (pending f) nodes → NoDup (nd_id <$> nodes) →
  dispatch host config aborted nodes f jobs = (f', jobs') →
  jobs_ok f' jobs' ∧ (nodes ≠ [] ∨ jobs ≠ [] → jobs' ≠ []) ∧
  5 * energy (sf_run f') + weight jobs' <= 5 * energy (sf_run f) + weight jobs ∧
  ru_status (sf_run f') = ru_status (sf_run f) ∧ (nodes = [] → f' = f ∧ jobs' = jobs).
Proof using Hlimits.
  pose proof (limit_spec _ _ _ (lo_concurrency _ Hlimits)) as (Hpos & Hleb & _).
  induction nodes as [|node nodes IH]; intros f jobs f' jobs' Hj Hp Hnd E; cbn [dispatch] in E.
  { injection E as <- <-. split; [done|]. split; [by intros [|]|]. by split; [lia|]. }
  rewrite Hleb in E. destruct (Z.leb_spec (limit (oc_maxConcurrency config)) (Z.of_nat (length jobs))) as [Hge|Hlt].
  { injection E as <- <-. split; [done|]. split; [|by split; [lia|]]. intros _ ->. cbn in Hge. lia. }
  destruct (start_node host config aborted node f) as [o f1] eqn:Es.
  apply Forall_cons in Hp as [Hnode Hp]. rewrite fmap_cons in Hnd. apply NoDup_cons in Hnd as [Hnin Hnd].
  destruct (dispatch_node f jobs node aborted o f1 Hj Hnode Hlt Es) as (Hj1 & He1 & Hst1 & Hp1).
  assert (Forall (pending f1) nodes) as Hp'.
  { rewrite Forall_forall in Hp |- *. intros n Hn. apply Hp1; [by apply Hp|]. intros Heq. apply Hnin. rewrite <- Heq.
    by apply list_elem_of_fmap_2. }
  destruct (IH f1 _ f' jobs' Hj1 Hp' Hnd E) as (Hj' & Hne & He' & Hst' & _).
  pose proof (weight_set (nd_id node) (job_of o) jobs).
  split; [done|]. split; [intros _; apply Hne; right; apply assoc_set_nonempty|]. split; [lia|].
  split; [congruence|done].
Qed.
End Jobs.
