(* ===== verification/WorkflowCalm.v ===== *)
(** * Desktop app: changes that leave work in progress alone

    Every command on a run, and what ends the scheduler, is calm: it keeps the graph and
    the attempts, a completed step stays completed, nothing starts running, and what runs
    runs on or is cancelled.  Calm changes keep the invariant of [WorkflowSafety]. *)

From stdpp Require Import base list strings.
From Stdlib Require Import ZArith Ascii Lia.
From S2P Require Import Prelude JsString JsValue WorkflowGraph WorkflowTeam WorkflowTeamProps WorkflowScheduler WorkflowSchedulerProps WorkflowCommands WorkflowSafety.

(** ** Calm changes *)

(** A change of a node run that leaves work in progress alone: a completed step stays
    completed, nothing starts running, and what runs runs on or is cancelled. *)
Record calm (s s' : NodeRun) : Prop := {
  ca_id : ns_nodeId s' = ns_nodeId s;
  ca_attempts : length (ns_attempts s') = length (ns_attempts s);
  ca_rounds : ns_delegationCount s' = ns_delegationCount s;
  ca_done : ns_status s = nr_completed → ns_status s' = nr_completed;
  ca_run : ns_status s' = nr_running → ns_status s = nr_running;
  ca_live : ns_status s = nr_running ∨ ns_status s = nr_cancelled → ns_status s' = nr_running ∨ ns_status s' = nr_cancelled;
}.

#[export] Instance calm_refl : Reflexive calm.
Proof. by intros s; split. Qed.

#[export] Instance calm_trans : Transitive calm.
Proof. intros s t u [] []. split; try congruence; auto. Qed.

(** A change of status alone. *)
Lemma calm_status s s' :
  ns_nodeId s' = ns_nodeId s → ns_attempts s' = ns_attempts s → ns_delegationCount s' = ns_delegationCount s →
  ns_status s' = ns_status s ∨
    ns_status s ≠ nr_completed ∧ ns_status s' ≠ nr_running ∧
    (ns_status s' = nr_cancelled ∨ ns_status s ≠ nr_running ∧ ns_status s ≠ nr_cancelled) →
  calm s s'.
Proof. intros E1 E2 E3 Hs. split; try congruence; destruct Hs as [->|(H1 & H2 & [H3|[H3 H4]])]; intuition congruence. Qed.

Record calm_run (r r' : WorkflowRun) : Prop := {
  cr_nodes : ru_nodes r' = ru_nodes r;
  cr_edges : ru_edges r' = ru_edges r;
  cr_config : ru_orchestration r' = ru_orchestration r;
  cr_runs : Forall2 calm (ru_nodeRuns r) (ru_nodeRuns r');
}.

#[export] Instance calm_run_refl : Reflexive calm_run.
Proof. intros r. by split. Qed.

#[export] Instance calm_run_trans : Transitive calm_run.
Proof. intros r r' r'' [] []. split; try congruence. by etransitivity. Qed.

Lemma calm_same r r' :
  ru_nodes r' = ru_nodes r → ru_edges r' = ru_edges r → ru_orchestration r' = ru_orchestration r →
  ru_nodeRuns r' = ru_nodeRuns r → calm_run r r'.
Proof. intros ? ? ? E. split; try done. by rewrite E. Qed.

Lemma calm_map g r : (∀ s, s ∈ ru_nodeRuns r → calm s (g s)) → calm_run r (set_nodeRuns (g <$> ru_nodeRuns r) r).
Proof.
  intros Hg. split; try done. cbn. apply Forall2_fmap_r, Forall_Forall2_diag, Forall_forall. exact Hg.
Qed.

Lemma calm_on_run id g r : (∀ s, find_run id r = Some s → calm s (g s)) → calm_run r (on_run id g r).
Proof.
  unfold find_run. intros Hg. split; try done. cbn. induction (ru_nodeRuns r) as [|t l IH]; cbn in *; [constructor|].
  destruct (String.eqb (ns_nodeId t) id); constructor; [by apply Hg|reflexivity|reflexivity|by apply IH].
Qed.

Lemma calm_find r r' id : calm_run r r' →
  match find_run id r, find_run id r' with
  | Some s, Some s' => calm s s'
  | None, None => True
  | _, _ => False
  end.
Proof.
  intros [_ _ _ Hr]. unfold find_run. induction Hr as [|s s' l l' Hs Hl IH]; cbn; [done|].
  rewrite (ca_id _ _ Hs). by destruct (String.eqb (ns_nodeId s) id).
Qed.

Lemma calm_graph_ok config r r' : calm_run r r' → graph_ok config r → graph_ok config r'.
Proof.
  intros Hc [Hcfg Hruns Hnd Hac Hb Hs Hd]. pose proof (cr_nodes _ _ Hc) as En. pose proof (cr_edges _ _ Hc) as Ee.
  assert (ids_of r' = ids_of r) as Ei by (unfold ids_of; by rewrite En).
  split; rewrite ?Ei, ?En; try done.
  - by rewrite (cr_config _ _ Hc).
  - rewrite <- Hruns. clear -Hc. destruct Hc as [_ _ _ Hr]. induction Hr as [|s s' l l' Hs Hl IH]; [done|].
    rewrite !fmap_cons, IH. f_equal. by destruct Hs.
  - destruct Hac as [rank Hr]. exists rank. by rewrite Ee, Ei.
  - destruct Hc as [_ _ _ Hr]. clear -Hb Hr. induction Hr as [|s s' l l' Hs Hl IH]; [done|].
    apply Forall_cons in Hb as [[Ha Hn] Hb]. constructor; [|by apply IH]. destruct Hs. split; congruence.
Qed.

Section Calm.
Context {W : Type} (host : SchedulerHost W) `{!FreshIds host} (json_parse : string → outcome json).
Notation F := (SFrame W).

(** Reached from a frame by calm changes; identifiers in use stay so. *)
Definition calm_from (f0 f : F) : Prop :=
  calm_run (sf_run f0) (sf_run f) ∧ ∀ i, used (sf_ext f0) i → used (sf_ext f) i.

Lemma calm_from_refl f : calm_from f f.
Proof. by split. Qed.

Lemma calm_from_trans f f' f'' : calm_from f f' → calm_from f' f'' → calm_from f f''.
Proof. intros [H1 H2] [H3 H4]. split; [by etransitivity|auto]. Qed.

Definition is_calm {A} (m : M F A) : Prop := ∀ f, calm_from f (m f).2.

Lemma calm_ret {A} (a : A) : is_calm (mret a).
Proof. intros f. apply calm_from_refl. Qed.

Lemma calm_throw {A} e : is_calm (throw (A := A) e).
Proof. intros f. apply calm_from_refl. Qed.

Lemma calm_bind {A B} (m : M F A) (k : A → M F B) : is_calm m → (∀ a, is_calm (k a)) → is_calm (m ≫= k).
Proof.
  intros Hm Hk f. unfold mbind, M_bind. specialize (Hm f). destruct (m f) as [[a|e] f']; [|done].
  eapply calm_from_trans; [exact Hm|apply Hk].
Qed.

Lemma calm_run_get : is_calm (s_run (W := W)).
Proof. intros f. apply calm_from_refl. Qed.

Lemma calm_state id : is_calm (state_of (W := W) id).
Proof. intros f. apply calm_from_refl. Qed.

Lemma calm_now : is_calm (s_now host).
Proof.
  intros f. unfold s_now. pose proof (now_keeps (sf_ext f)) as H. by destruct (sh_now host (sf_ext f)).
Qed.

Lemma calm_persist : is_calm (s_persist host).
Proof. intros f. split; [reflexivity|]. intros i. apply persist_keeps. Qed.

Lemma calm_change g : (∀ r, calm_run r (g r)) → is_calm (s_change (W := W) g).
Proof. intros Hg f. by split. Qed.

Lemma calm_event type message n : is_calm (recordWorkflowEvent host type message n).
Proof.
  apply calm_bind.
  { intros f. unfold s_uuid. pose proof (uuid_keeps (sf_ext f)) as H. by destruct (sh_uuid host (sf_ext f)). }
  intros i. apply calm_bind; [apply calm_now|]. intros t. by apply calm_change.
Qed.

Lemma calm_change_state id g : (∀ s, calm s (g s)) → is_calm (change_state (W := W) id g).
Proof. intros Hg. apply calm_change. intros r. apply calm_on_run. auto. Qed.

Lemma calm_require b message : is_calm (require (W := W) b message).
Proof. unfold require. destruct b; [apply calm_ret|apply calm_throw]. Qed.

(** Sequencing that remembers the state. *)
Lemma calm_get_at (k : WorkflowRun → M F unit) f :
  calm_from f (k (sf_run f) f).2 → calm_from f ((s_run ≫= k) f).2.
Proof. done. Qed.

Lemma calm_state_at id (k : NodeRun → M F unit) f :
  (∀ s, calm_from f (k s f).2) → calm_from f ((state_of id ≫= k) f).2.
Proof. intros Hk. unfold mbind, M_bind, state_of, gets. apply Hk. Qed.

Lemma calm_require_at b message (k : M F unit) f :
  (b = true → calm_from f (k f).2) → calm_from f ((require b message ;; k) f).2.
Proof.
  intros Hk. unfold mbind, M_bind, require. destruct b; [by apply Hk|apply calm_from_refl].
Qed.

(** A change allowed in the state it is made in. *)
Lemma calm_then id g (k : M F unit) f :
  (∀ s, find_run id (sf_run f) = Some s → calm s (g s)) → is_calm k → calm_from f ((change_state id g ;; k) f).2.
Proof.
  intros Hg Hk. unfold mbind, M_bind, change_state, s_change, modify. eapply calm_from_trans; [|apply Hk].
  split; [by apply calm_on_run|done].
Qed.

Lemma calm_then_now (k : Z → M F unit) f :
  (∀ t f', sf_run f' = sf_run f → calm_from f' (k t f').2) → calm_from f ((s_now host ≫= k) f).2.
Proof.
  intros Hk. unfold mbind, M_bind, s_now. pose proof (now_keeps (sf_ext f)) as H. destruct (sh_now host (sf_ext f)) as [t w].
  eapply calm_from_trans; [|by apply Hk]. by split.
Qed.
End Calm.

(** Steps through a command whose changes are calm by themselves. *)
Ltac calm := repeat (first
  [ apply calm_event | apply calm_persist | apply calm_now | apply calm_ret | apply calm_require
  | apply calm_run_get | apply calm_state
  | apply calm_change; intros ?; by apply calm_same
  | apply calm_bind; [|intros ?] ]).

(** ** Commands *)

Section Commands.
Context {W : Type} (host : SchedulerHost W) `{!FreshIds host}.
Notation F := (SFrame W).

Lemma calm_decide id approved note : is_calm host (decideWorkflowNode host id approved note).
Proof.
  unfold decideWorkflowNode. apply calm_bind; [apply calm_require|intros _].
  intros f. apply calm_get_at, calm_require_at. intros Hg. apply calm_then_now. intros t f' Ef. cbn zeta. apply calm_then; [|calm].
  intros s Hs. rewrite Ef in Hs. apply andb_true_iff in Hg as [_ Hg]. rewrite Hs in Hg. apply bool_decide_eq_true in Hg.
  apply calm_status; try done. right. rewrite Hg. cbn. destruct approved; cbn; naive_solver.
Qed.

Lemma calm_inspect id : is_calm host (inspectWorkflowNode host id).
Proof.
  unfold inspectWorkflowNode. intros f. apply calm_get_at, calm_require_at. intros Hg. apply calm_then.
  - intros s Hs. apply andb_true_iff in Hg as [_ Hg]. rewrite Hs in Hg. unfold inspectable in Hg.
    apply andb_true_iff in Hg as [[Hg _]%andb_true_iff _]. apply bool_decide_eq_true in Hg.
    apply calm_status; try done. right. rewrite Hg. cbn. naive_solver.
  - calm. by apply calm_change_state.
Qed.

Lemma calm_cancel : is_calm host (cancelWorkflowRun host).
Proof.
  unfold cancelWorkflowRun. calm. apply calm_change. intros r. apply calm_map. intros s _.
  destruct (bool_decide _) eqn:Hin; [|reflexivity]. apply calm_status; try done. right. cbn.
  split; [|naive_solver]. intros E. by rewrite E in Hin.
Qed.

Lemma calm_cancel_nodes r : calm_run r (cancel_nodes cancel_statuses r).
Proof.
  apply calm_map. intros s _. destruct (bool_decide _) eqn:Hin; [|reflexivity]. apply calm_status; try done. right.
  cbn. split; [|naive_solver]. intros E. by rewrite E in Hin.
Qed.

Lemma calm_pause : is_calm host (pauseWorkflowRun host).
Proof. unfold pauseWorkflowRun. calm. Qed.

Lemma calm_wall_clock : is_calm host (wall_clock host).
Proof. unfold wall_clock. calm. Qed.

Lemma calm_set_last id g : is_calm host (set_last (W := W) id g).
Proof. apply calm_change_state. intros s. split; try done. cbn. apply update_last_length. Qed.

Lemma calm_report id m : report host id m → is_calm host m.
Proof.
  intros []; unfold reportThread, updateRemote;
    (apply calm_bind; [by apply calm_change_state|intros _; apply calm_bind; [apply calm_set_last|intros _; calm]]).
Qed.

Lemma calm_human m : human_command host m → is_calm host m.
Proof. intros []; [apply calm_decide|apply calm_inspect]. Qed.

Lemma calm_requeue below r : calm_run r (requeue below r).
Proof.
  apply calm_map. intros s _. destruct (_ && _) eqn:E; [|reflexivity]. unfold has_run_status in E. reflect_bools.
  apply calm_status; try done. right. cbn. intuition congruence.
Qed.

Lemma calm_retry id : is_calm host (retryWorkflowNode host id).
Proof.
  unfold retryWorkflowNode. intros f. apply calm_get_at, calm_require_at. intros _.
  apply calm_require_at. intros Hr. apply calm_state_at. intros s'. apply calm_require_at. intros _.
  apply calm_then.
  - intros s Hs. unfold retriable in Hr. rewrite Hs in Hr. destruct (find_node _ _); [|done].
    apply andb_true_iff in Hr as [_ Hr]. apply calm_status; try done. right. cbn.
    unfold has_run_status in Hr. apply orb_true_iff in Hr as [Hr|Hr]; apply bool_decide_eq_true in Hr; rewrite Hr; naive_solver.
  - apply calm_bind; [apply calm_change; intros r; apply calm_requeue|intros _; calm].
Qed.

Lemma calm_resume : is_calm host (resumeWorkflowRun host).
Proof.
  unfold resumeWorkflowRun. apply calm_bind; [calm|intros r]. do 3 (apply calm_bind; [calm|intros _]).
  apply calm_bind; [|intros _; calm]. apply calm_change. intros r'. apply calm_map. intros s _.
  destruct (_ && _) eqn:E; [|reflexivity]. unfold has_run_status in E. reflect_bools. apply calm_status; try done. right. cbn. intuition congruence.
Qed.


Lemma calm_finalize aborted : is_calm host (finalize host aborted).
Proof.
  unfold finalize. apply calm_bind.
  - destruct aborted; [|calm]. apply calm_bind; [apply calm_change|intros _; apply calm_change, calm_cancel_nodes].
    intros r. destruct (_ || _); [by apply calm_same|reflexivity].
  - intros _. calm. destruct (bool_decide _); calm.
Qed.
End Commands.

(** ** Skipping what cannot run *)

Definition upstream_error : option string := Some "An upstream step did not complete.".

(** Some queued steps were skipped, and nothing else. *)
Record skips (r r' : WorkflowRun) : Prop := {
  sk_run : r' = set_nodeRuns (ru_nodeRuns r') r;
  sk_runs : Forall2 (λ s s', s' = s ∨ is_queued s = true ∧ s' = ns_set_status nr_skipped upstream_error s)
    (ru_nodeRuns r) (ru_nodeRuns r');
}.

#[export] Instance skips_refl : Reflexive skips.
Proof. intros r. split; [by destruct r|]. apply Forall_Forall2_diag, Forall_forall. by left. Qed.

#[export] Instance skips_trans : Transitive skips.
Proof.
  intros r1 r2 r3 [E1 H1] [E2 H2]. split; [by rewrite E2, E1|].
  clear -H1 H2. revert H2. generalize (ru_nodeRuns r3). induction H1 as [|s1 s2 l1 l2 Hs Hl IH]; intros l3 H2.
  - apply Forall2_nil_inv_l in H2 as ->. constructor.
  - apply Forall2_cons_inv_l in H2 as (s3 & l & Hs' & Hl' & ->). constructor; [|by apply IH].
    destruct Hs as [->|[Hq ->]]; [done|]. destruct Hs' as [->|[Hq' ->]]; by right.
Qed.

Lemma skips_calm r r' : skips r r' → calm_run r r'.
Proof.
  intros [E Hr]. split; try by rewrite E.
  eapply Forall2_impl; [exact Hr|]. intros s s' [->|[Hq ->]]; [reflexivity|].
  apply bool_decide_eq_true in Hq. apply calm_status; try done. right. cbn. intuition congruence.
Qed.

(** A status after skipping is the one before, or skipped instead of queued. *)
Lemma skips_status r r' id : skips r r' →
  status_at r' id = status_at r id ∨ status_at r id = Some nr_queued ∧ status_at r' id = Some nr_skipped.
Proof.
  intros [_ Hr]. unfold status_at, find_run. induction Hr as [|s s' l l' Hs Hl IH]; cbn; [by left|].
  destruct Hs as [->|[Hq ->]]; cbn; destruct (String.eqb (ns_nodeId s) id); auto. right.
  apply bool_decide_eq_true in Hq. cbn. by rewrite Hq.
Qed.

Lemma skip_on_run id r :
  status_at r id = Some nr_queued →
  let r' := on_run id (ns_set_status nr_skipped upstream_error) r in
  skips r r' ∧ count_queued (ru_nodeRuns r') = count_queued (ru_nodeRuns r) - 1 ∧
  ∀ j, j ≠ id → status_at r' j = status_at r j.
Proof.
  intros Hst. unfold status_at, find_run in *. cbn zeta. split; [split; [done|]|split].
  - cbn. induction (ru_nodeRuns r) as [|s l IH]; [constructor|]. cbn in *.
    destruct (String.eqb (ns_nodeId s) id); constructor; auto.
    + right. split; [|done]. injection Hst as Hst. by apply bool_decide_eq_true.
    + apply Forall_Forall2_diag, Forall_forall. by left.
  - cbn. unfold count_queued. induction (ru_nodeRuns r) as [|s l IH]; [done|]. cbn [find_first update_run] in *.
    destruct (String.eqb (ns_nodeId s) id) eqn:E; cbn [List.filter].
    + injection Hst as Hst. assert (is_queued s = true) as -> by by apply bool_decide_eq_true.
      change (is_queued (ns_set_status nr_skipped upstream_error s)) with false. cbn [length]. lia.
    + specialize (IH Hst). destruct (is_queued s); cbn [length]; lia.
  - intros j Hj. cbn. f_equal. apply (find_update_ne id j); [done|]. by intros s <-.
Qed.

Lemma skip_fold ids : ∀ r b r' b',
  NoDup ids → Forall (λ id, status_at r id = Some nr_queued) ids →
  fold_left skip_one ids (r, b) = (r', b') →
  skips r r' ∧ count_queued (ru_nodeRuns r') <= count_queued (ru_nodeRuns r) ∧
  (b' = true → b = true ∨ count_queued (ru_nodeRuns r') < count_queued (ru_nodeRuns r)) ∧
  (b' = false → b = false ∧ r' = r ∧ Forall (λ id, blocked r id = false) ids).
Proof.
  induction ids as [|id ids IH]; intros r b r' b' Hnd Hq E.
  { injection E as <- <-. split; [reflexivity|]. split; [lia|]. split; [by left|done]. }
  apply NoDup_cons in Hnd as [Hid Hnd]. apply Forall_cons in Hq as [Hst Hq]. cbn [fold_left] in E.
  unfold skip_one at 2 in E. change (Some "An upstream step did not complete.") with upstream_error in E.
  destruct (blocked r id) eqn:Eb.
  - destruct (skip_on_run id r Hst) as (Hs & Hc & Ho). cbn zeta in Hs, Hc, Ho.
    assert (Forall (λ id', status_at (on_run id (ns_set_status nr_skipped upstream_error) r) id' = Some nr_queued) ids) as Hq'.
    { rewrite Forall_forall in Hq |- *. intros j Hj. rewrite Ho; [by apply Hq|]. by intros ->. }
    destruct (IH _ true r' b' Hnd Hq' E) as (Hs' & Hc' & Ht & Hf).
    split; [by etransitivity|]. split; [lia|]. split; [intros; right; lia|]. intros ->. by destruct (Hf eq_refl).
  - destruct (IH r b r' b' Hnd Hq E) as (Hs' & Hc' & Ht & Hf). split; [done|]. split; [done|]. split; [done|].
    intros Eb'. destruct (Hf Eb') as (? & ? & ?). split; [done|]. split; [done|]. by constructor.
Qed.

(** The loop ends, with no queued step behind a dead one. *)
Lemma propagate_spec passes : ∀ r,
  NoDup (ns_nodeId <$> ru_nodeRuns r) → (count_queued (ru_nodeRuns r) < Z.of_nat passes) →
  skips r (propagate passes r) ∧
  ∀ id, status_at (propagate passes r) id = Some nr_queued → blocked (propagate passes r) id = false.
Proof.
  induction passes as [|passes IH]; intros r Hnd Hc; [unfold count_queued in Hc; lia|]. cbn [propagate].
  destruct (skip_pass r) as [r' b] eqn:E. unfold skip_pass in E.
  apply skip_fold in E as (Hs & Hle & Ht & Hf).
  - destruct b.
    + destruct (Ht eq_refl) as [?|Hlt]; [done|].
      assert (NoDup (ns_nodeId <$> ru_nodeRuns r')) as Hnd'.
      { destruct Hs as [_ Hs]. clear -Hnd Hs.
        replace (ns_nodeId <$> ru_nodeRuns r') with (ns_nodeId <$> ru_nodeRuns r); [done|].
        clear Hnd. induction Hs as [|s s' l l' Hs Hl IH]; [done|]. rewrite !fmap_cons, IH. f_equal.
        by destruct Hs as [->|[_ ->]]. }
      destruct (IH r' Hnd' ltac:(lia)) as [Hs' Hb]. split; [by etransitivity|done].
    + destruct (Hf eq_refl) as (_ & -> & Hb). split; [reflexivity|]. intros id Hst. rewrite Forall_forall in Hb.
      apply Hb. unfold status_at in Hst. destruct (find_run id r) as [s|] eqn:Hs'; [|done]. injection Hst as Hst.
      apply find_run_elem in Hs' as [Hin <-]. apply list_elem_of_fmap_2, list_elem_of_In, filter_In.
      split; [by apply list_elem_of_In|by apply bool_decide_eq_true].
  - by apply filter_NoDup.
  - apply Forall_forall. intros id (s & -> & Hs)%list_elem_of_fmap. apply list_elem_of_In, filter_In in Hs as [Hs Hq].
    unfold status_at. rewrite (find_run_in r s Hnd) by by apply list_elem_of_In. apply bool_decide_eq_true in Hq. cbn. by rewrite Hq.
Qed.
