(* ===== verification/WorkflowLife.v ===== *)
(** * Desktop app: the life of a workflow run

    The invariant over everything that can happen to a run, what a run ends in, and that
    the scheduler ends. *)

From stdpp Require Import base list strings relations pretty.
From Stdlib Require Import ZArith Ascii Lia.
From S2P Require Import Prelude JsString JsValue WorkflowGraph WorkflowTeam WorkflowTeamProps WorkflowScheduler WorkflowSchedulerProps WorkflowCommands WorkflowSafety WorkflowCalm.

Section Life.
Context {W : Type} (host : SchedulerHost W) `{!FreshIds host} (json_parse : string → outcome json).
Context (config : WorkflowOrchestration) (Hlimits : limits_ok config).
Notation F := (SFrame W).
Implicit Types s : Sched W.

(** ** The invariant *)

Record sched_ok s : Prop := {
  so_jobs : jobs_ok host config (sc_frame s) (sc_jobs s);
  so_phase : match sc_phase s with
             | ph_done => sc_jobs s = []
             | ph_waiting false => sc_jobs s ≠ []
             | _ => True
             end;
  so_status : sc_phase s ≠ ph_done →
    ru_status (sc_run s) = run_running ∨ ru_status (sc_run s) = run_paused ∨
    sc_aborted s = true ∧ (ru_status (sc_run s) = run_failed ∨ ru_status (sc_run s) = run_cancelled);
}.

Lemma calm_status_at r r' id : calm_run r r' →
  (status_at r id = Some nr_completed → status_at r' id = Some nr_completed) ∧
  (status_at r' id = Some nr_running → status_at r id = Some nr_running).
Proof.
  intros Hc. pose proof (calm_find r r' id Hc) as H. unfold status_at.
  destruct (find_run id r) as [t|], (find_run id r') as [t'|]; try done. destruct H. cbn.
  split; intros [= E]; f_equal; auto.
Qed.

Lemma calm_jobs_ok f f' jobs : calm_from host f f' → jobs_ok host config f jobs → jobs_ok host config f' jobs.
Proof.
  intros [Hc Hu] [Hok Hused Hnd Hb Hex Hrun]. pose proof (cr_nodes _ _ Hc) as En.
  assert (ids_of (sf_run f') = ids_of (sf_run f)) as Ei by (unfold ids_of; by rewrite En).
  split; try done.
  - by eapply calm_graph_ok.
  - rewrite Ei. eapply Forall_impl; [exact Hused|exact Hu].
  - intros id Hid. destruct (Hex id Hid) as (Hin & Hd & t & Ht & Hbusy & Hlive).
    split; [by rewrite Ei|]. split.
    + intros e He Hte. rewrite (cr_edges _ _ Hc) in He. apply (calm_status_at _ _ _ Hc). by apply Hd.
    + pose proof (calm_find _ _ id Hc) as H. rewrite Ht in H. destruct (find_run id (sf_run f')) as [t'|]; [|done].
      destruct H. exists t'. split; [done|]. split; [|by apply ca_live].
      unfold busy in *. intros E. rewrite E in ca_attempts. destruct (ns_attempts t); [done|discriminate].
  - intros id Hid. apply Hrun. by apply (calm_status_at _ _ id Hc).
Qed.

(** A run that may be launched. *)
Record start_ok (f : F) : Prop := {
  st_run : graph_ok config (sf_run f);
  st_used : Forall (used (sf_ext f)) (ids_of (sf_run f));
  st_idle : ∀ id, status_at (sf_run f) id ≠ Some nr_running;
}.

Lemma start_jobs f : start_ok f → jobs_ok host config f [].
Proof using Hlimits.
  intros [Hok Hu Hi]. split; try done; [constructor| |].
  - pose proof (limit_spec _ _ _ (lo_concurrency _ Hlimits)) as (? & _). cbn. lia.
  - intros id Hid. by destruct (Hi id).
Qed.

Lemma jobs_start f : jobs_ok host config f [] → start_ok f.
Proof. intros [Hok Hu _ _ _ Hr]. split; try done. intros id Hid. by specialize (Hr id Hid). Qed.

(** ** What does not touch node runs *)

(** The graph, node runs and status are as before. *)
Record still (r r' : WorkflowRun) : Prop := {
  qu_nodes : ru_nodes r' = ru_nodes r;
  qu_edges : ru_edges r' = ru_edges r;
  qu_runs : ru_nodeRuns r' = ru_nodeRuns r;
  qu_status : ru_status r' = ru_status r;
}.

Definition is_still {A} (m : M F A) : Prop := ∀ f, ∃ a f', m f = (Ok a, f') ∧ still (sf_run f) (sf_run f').

Lemma still_refl r : still r r.
Proof. by split. Qed.

Lemma still_now : is_still (s_now host).
Proof. intros f. unfold s_now. destruct (sh_now host (sf_ext f)) as [t w]. by exists t, (MkSF (sf_run f) w). Qed.

Lemma still_persist : is_still (s_persist host).
Proof. intros f. by eexists _, _. Qed.

Lemma still_bind {A B} (m : M F A) (k : A → M F B) : is_still m → (∀ a, is_still (k a)) → is_still (m ≫= k).
Proof.
  intros Hm Hk f. destruct (Hm f) as (a & f1 & E & Q1). destruct (Hk a f1) as (b & f2 & E2 & Q2).
  exists b, f2. unfold mbind, M_bind. rewrite E. split; [done|]. destruct Q1, Q2. split; congruence.
Qed.

Lemma still_change g : (∀ r, still r (g r)) → is_still (s_change (W := W) g).
Proof. intros Hg f. by eexists _, _. Qed.

Lemma still_event type message n : is_still (recordWorkflowEvent host type message n).
Proof.
  apply still_bind.
  { intros f. unfold s_uuid. destruct (sh_uuid host (sf_ext f)) as [i w]. by exists i, (MkSF (sf_run f) w). }
  intros i. apply still_bind; [apply still_now|]. intros t. by apply still_change.
Qed.

Lemma exec_bind {A} (m : M F A) (k : A → M F unit) f a f' : m f = (Ok a, f') → exec_unit (m ≫= k) f = exec_unit (k a) f'.
Proof. intros E. unfold exec_unit, mbind, M_bind. by rewrite E. Qed.

(** What [finalize] makes of a run. *)
Definition finalized (aborted : bool) (r : WorkflowRun) : WorkflowRun :=
  if aborted
  then cancel_nodes cancel_statuses
         (if bool_decide (ru_status r = run_running) || bool_decide (ru_status r = run_paused)
          then set_runStatus run_cancelled (ru_error r) r else r)
  else r.

Lemma finalize_spec aborted f : still (finalized aborted (sf_run f)) (sf_run (exec_unit (finalize host aborted) f)).
Proof.
  unfold finalize.
  set (tail := r ← s_run; (if bool_decide (ru_status r ∈ [run_completed; run_failed; run_cancelled])
     then t ← s_now host; s_change (λ r, set_times (ru_startedAt r) (ru_deadlineAt r) (Some t) r) else mret tt) ;;
     r ← s_run; recordWorkflowEvent host ev_run ("Run " +:+ status_text (ru_status r) +:+ ".") None ;; s_persist host).
  assert (is_still tail) as Htail.
  { unfold tail. apply still_bind; [by intros f'; eexists _, _|]. intros r. apply still_bind.
    - destruct (bool_decide _); [|by intros f'; eexists _, _]. apply still_bind; [apply still_now|]. intros t.
      by apply still_change.
    - intros _. apply still_bind; [by intros f'; eexists _, _|]. intros r'.
      apply still_bind; [apply still_event|intros _; apply still_persist]. }
  set (f1 := MkSF (finalized aborted (sf_run f)) (sf_ext f)).
  rewrite (exec_bind _ _ f tt f1).
  - destruct (Htail f1) as (a & f2 & E & Q). unfold exec_unit. rewrite E. exact Q.
  - unfold f1. destruct f as [r w]. by destruct aborted.
Qed.

(** What [conclude] decides after the propagation. *)
Definition ended (r : WorkflowRun) : WorkflowRun :=
  if existsb (has_run_status nr_waiting) (ru_nodeRuns r) then set_runStatus run_paused (ru_error r) r
  else if existsb (λ t, negb (has_run_status nr_completed t)) (ru_nodeRuns r)
  then set_runStatus run_failed (Some "Some steps failed or remain blocked. Inspect the run before retrying.") r
  else set_runStatus run_completed None r.

Lemma end_run_spec f : ∃ f', end_run host (sf_run f) f = (Ok tt, f') ∧ still (ended (sf_run f)) (sf_run f').
Proof.
  unfold end_run, ended. destruct (existsb (has_run_status nr_waiting) _).
  - match goal with |- context [recordWorkflowEvent host ev_run ?m None] =>
      destruct (still_event ev_run m None (MkSF (set_runStatus run_paused (ru_error (sf_run f)) (sf_run f)) (sf_ext f)))
        as ([] & f' & E & Q) end.
    exists f'. split; [exact E|exact Q].
  - destruct (existsb _ _); eexists; (split; [reflexivity|apply still_refl]).
Qed.

Lemma end_run_calm r : is_calm host (end_run host r).
Proof. unfold end_run. destruct (existsb _ _); [calm|]. destruct (existsb _ _); calm. Qed.

Definition propagated (r : WorkflowRun) : WorkflowRun := propagate (S (length (ru_nodeRuns r))) r.

Lemma propagated_spec r : graph_ok config r →
  skips r (propagated r) ∧ ∀ id, status_at (propagated r) id = Some nr_queued → blocked (propagated r) id = false.
Proof.
  intros Hok. apply propagate_spec; [by rewrite (rk_runs _ _ Hok); apply (rk_nodup _ _ Hok)|].
  unfold count_queued. pose proof (List.filter_length_le is_queued (ru_nodeRuns r)). lia.
Qed.

Lemma conclude_run f : conclude host f = end_run host (propagated (sf_run f)) (MkSF (propagated (sf_run f)) (sf_ext f)).
Proof. done. Qed.

Lemma conclude_calm f : graph_ok config (sf_run f) → calm_from host f (conclude host f).2.
Proof.
  intros Hok. rewrite conclude_run.
  eapply calm_from_trans with (f' := MkSF (propagated (sf_run f)) (sf_ext f)); [|apply end_run_calm].
  split; [|done]. by apply skips_calm, propagated_spec.
Qed.

(** ** Steps *)

Lemma done_ok s m :
  jobs_ok host config (sc_frame s) (sc_jobs s) → sc_jobs s = [] → calm_from host (sc_frame s) (m (sc_frame s)).2 →
  sched_ok (done_with host s m).
Proof.
  intros Hj Hnil Hm. split; cbn; [|done|done]. eapply calm_jobs_ok; [|exact Hj].
  assert (∀ f, calm_from host (sc_frame s) f → ∀ k : M F unit, is_calm host k → calm_from host (sc_frame s) (k f).2) as Hk.
  { intros f Hf k Hk'. eapply calm_from_trans; [exact Hf|apply Hk']. }
  unfold exec_unit, mbind, M_bind. destruct (m (sc_frame s)) as [[[]|e] f]; [|done].
  apply Hk; [done|apply calm_finalize].
Qed.

(** A turn: the jobs after it, and when it ends the scheduler. *)
Lemma turn_cases s :
  sched_ok s → sc_phase s = ph_turn →
  (∃ f jobs, turn host config s = {| sc_frame := f; sc_jobs := jobs; sc_aborted := sc_aborted s; sc_phase := ph_waiting false |} ∧
     jobs_ok host config f jobs ∧ jobs ≠ [] ∧
     5 * energy config (sf_run f) + weight jobs <= 5 * energy config (sc_run s) + weight (sc_jobs s) ∧
     ru_status (sf_run f) = ru_status (sc_run s)) ∨
  (sc_jobs s = [] ∧ active s = false ∧ turn host config s = done_with host s (mret tt)) ∨
  (sc_jobs s = [] ∧ active s = true ∧ ready_nodes (sc_run s) = [] ∧ turn host config s = done_with host s (conclude host)).
Proof using FreshIds0 Hlimits.
  intros [Hj _ _] Hph. unfold turn. destruct (active s) eqn:Ea.
  - destruct (dispatch host config (sc_aborted s) (ready_nodes (sc_run s)) (sc_frame s) (sc_jobs s)) as [f jobs] eqn:E.
    pose proof (ready_pending config _ (jo_run _ _ _ _ Hj)) as [Hp Hnd].
    destruct (dispatch_spec host config Hlimits _ _ _ _ _ _ Hj Hp Hnd E) as (Hj' & Hne & He & Hst & Hsame).
    destruct jobs as [|j jobs]; [|by left; eexists _, _].
    right. right. fold (sc_run s) in *. destruct (ready_nodes (sc_run s)) as [|n nodes] eqn:Er; [|exfalso; refine (Hne (or_introl _) eq_refl); discriminate].
    destruct (sc_jobs s) eqn:Ej; [|exfalso; refine (Hne (or_intror _) eq_refl); discriminate]. destruct (Hsame eq_refl) as [-> _].
    split; [done|]. split; [done|]. split; [done|].
    replace {| sc_frame := sc_frame s; sc_jobs := []; sc_aborted := sc_aborted s; sc_phase := ph_turn |} with s
      by (destruct s; cbn in *; by subst).
    by rewrite Ea, Er.
  - destruct (sc_jobs s) as [|j jobs] eqn:Ej.
    + right. left. split; [done|]. split; [done|].
      replace {| sc_frame := sc_frame s; sc_jobs := []; sc_aborted := sc_aborted s; sc_phase := ph_turn |} with s
        by (destruct s; cbn in *; by subst).
      by rewrite Ea.
    + left. exists (sc_frame s), (j :: jobs). split; [done|]. split; [done|]. split; [done|].
      split; [unfold sc_run; lia|done].
Qed.

(** *** The end of a step, and its collection *)

Lemma weight_settle id jobs :
  assoc_get id jobs = Some job_executing → weight (assoc_set id job_settled jobs) = weight jobs - 1.
Proof.
  induction jobs as [|[k j] jobs IH]; cbn [assoc_get assoc_set weight snd]; [done|].
  destruct (String.eqb id k); [intros [= ->]; cbn; lia|]. intros E. cbn [weight snd]. rewrite (IH E). lia.
Qed.

Definition other_jobs (id : string) (jobs : list (string * Job)) : list (string * Job) :=
  List.filter (λ j, negb (String.eqb j.1 id)) jobs.

Lemma weight_others id jobs : weight (other_jobs id jobs) <= weight jobs.
Proof.
  unfold other_jobs. induction jobs as [|[k j] jobs IH]; cbn; [done|]. pose proof (job_weight_bounds j).
  destruct (String.eqb k id); cbn; lia.
Qed.

Lemma weight_collect id jobs :
  assoc_get id jobs = Some job_settled → weight (other_jobs id jobs) <= weight jobs - 3.
Proof.
  induction jobs as [|[k j] jobs IH]; cbn [assoc_get weight snd]; [done|].
  destruct (String.eqb_spec id k) as [->|Hne].
  - intros [= ->]. unfold other_jobs. cbn. rewrite String.eqb_refl. cbn. pose proof (weight_others k jobs) as H. unfold other_jobs in H. lia.
  - intros E. specialize (IH E). unfold other_jobs in *. cbn. destruct (String.eqb_spec k id); [congruence|]. cbn. lia.
Qed.

Lemma assoc_get_others id j jobs : j ≠ id → assoc_get j (other_jobs id jobs) = assoc_get j jobs.
Proof.
  intros Hne. unfold other_jobs. induction jobs as [|[k v] jobs IH]; cbn; [done|].
  destruct (String.eqb_spec k id) as [->|]; cbn.
  - rewrite IH. by destruct (String.eqb_spec j id).
  - by destruct (String.eqb j k).
Qed.

Lemma find_node_known id r : id ∈ ids_of r → ∃ n, find_node id r = Some n ∧ nd_id n = id.
Proof.
  intros (n & -> & Hn)%list_elem_of_fmap. unfold find_node. destruct (find_first _ _) as [m|] eqn:E.
  - exists m. split; [done|]. apply find_first_Some in E as [_ E]. by apply String.eqb_eq in E.
  - pose proof (find_first_None _ _ E n Hn) as Hf. cbn in Hf. by rewrite String.eqb_refl in Hf.
Qed.

Lemma settle_ok s id answer woken :
  sched_ok s → sc_phase s = ph_waiting woken → assoc_get id (sc_jobs s) = Some job_executing →
  let s' := settle host json_parse config id answer s in
  sched_ok s' ∧ sc_phase s' = ph_waiting woken ∧ weight (sc_jobs s') = weight (sc_jobs s) - 1 ∧
  energy config (sc_run s') <= energy config (sc_run s).
Proof using FreshIds0 Hlimits.
  intros [Hj Hp Hs] Hph Hget. cbn zeta. pose proof (jo_run _ _ _ _ Hj) as Hok. pose proof (jo_used _ _ _ _ Hj) as Hu.
  destruct (jo_executing _ _ _ _ Hj id Hget) as (Hid & Hdeps & st & Hst & Hbusy & Hlive).
  destruct (find_node_known id _ Hid) as (node & Hnode & <-). unfold settle, sc_run. rewrite Hnode.
  pose proof (finish_node_spec host json_parse (sc_frame s) node (known_id config _ node Hok Hid)) as Hspec.
  rewrite (rk_config _ _ Hok) in Hspec. specialize (Hspec Hlimits (sc_aborted s) answer (sc_frame s)).
  assert (alone host (sc_frame s) node busy (sc_frame s)) as Hstart.
  { apply (alone_start host config _ node Hok Hid). intros st' Hst'. congruence. }
  specialize (Hspec Hstart). unfold exec_unit.
  destruct (finish_node _ _ _ _ _ _ _) as [[[]|e] f] eqn:E; [|done].
  assert (status_at (sf_run (sc_frame s)) (nd_id node) ≠ Some nr_completed) as Hnc.
  { unfold status_at. rewrite Hst. cbn. destruct Hlive as [-> | ->]; congruence. }
  pose proof (stopped_not_queued host _ _ _ Hspec) as Hw.
  assert (alone host (sc_frame s) node (λ _, True) f ∨ teamed host (sc_frame s) node f) as Hw'
    by by apply stopped_any.
  cbn [snd sc_frame sc_jobs sc_aborted sc_phase]. split; [split|split; [done|split; [by apply weight_settle|]]].
  - apply (jobs_worked host config Hlimits (sc_frame s)); [done..| |exact Hspec].
    rewrite assoc_set_length_in by by eapply assoc_get_in. apply (jo_bound _ _ _ _ Hj).
  - cbn. rewrite Hph. destruct woken; [done|apply assoc_set_nonempty].
  - cbn. intros _. unfold sc_run. cbn. rewrite (worked_run host (sc_frame s) f node _ Hw'). apply Hs. by rewrite Hph.
  - cbn. pose proof (worked_energy host config (sc_frame s) f node st Hok Hst Hw).
    destruct (is_queued st); cbn [Z.b2z] in *; lia.
Qed.

Lemma collect_ok s id woken :
  sched_ok s → sc_phase s = ph_waiting woken → assoc_get id (sc_jobs s) = Some job_settled →
  sched_ok (collect id s).
Proof.
  intros [[Hok Hu Hnd Hb Hex Hrun] Hp Hs] Hph Hget. fold (other_jobs id (sc_jobs s)).
  split; cbn; [split; try done| done |].
  - by apply filter_NoDup.
  - fold (other_jobs id (sc_jobs s)). pose proof (List.filter_length_le (λ j : string * Job, negb (String.eqb j.1 id)) (sc_jobs s)).
    unfold other_jobs. lia.
  - fold (other_jobs id (sc_jobs s)). intros j Hj. apply Hex. destruct (decide (j = id)) as [->|Hne].
    + exfalso. apply assoc_get_elem in Hj. unfold other_jobs in Hj. apply list_elem_of_In, filter_In in Hj as [_ Hj].
      cbn in Hj. by rewrite String.eqb_refl in Hj.
    + by rewrite assoc_get_others in Hj.
  - fold (other_jobs id (sc_jobs s)). intros j Hj. pose proof (Hrun j Hj) as Hj'. rewrite assoc_get_others; [done|]. congruence.
  - intros _. apply Hs. by rewrite Hph.
Qed.

(** *** Commands *)

(** The status of the run is kept. *)
Definition is_steady {A} (m : M F A) : Prop := ∀ f, ru_status (sf_run (m f).2) = ru_status (sf_run f).

Lemma steady_bind {A B} (m : M F A) (k : A → M F B) : is_steady m → (∀ a, is_steady (k a)) → is_steady (m ≫= k).
Proof.
  intros Hm Hk f. unfold mbind, M_bind. specialize (Hm f). destruct (m f) as [[a|e] f']; [|done]. by rewrite (Hk a f').
Qed.

Lemma steady_still {A} (m : M F A) : is_still m → is_steady m.
Proof. intros Hm f. destruct (Hm f) as (a & f' & E & Q). rewrite E. apply Q. Qed.

Lemma steady_change_state id g : is_steady (change_state (W := W) id g).
Proof. by intros f. Qed.

Lemma steady_require b message : is_steady (require (W := W) b message).
Proof. by destruct b. Qed.

Lemma steady_report id m : report host id m → is_steady m.
Proof.
  intros []; unfold reportThread, updateRemote, set_last;
    (apply steady_bind; [apply steady_change_state|intros _]);
    (apply steady_bind; [apply steady_change_state|intros _]); apply steady_still, still_persist.
Qed.

Lemma steady_human m : human_command host m → is_steady m.
Proof.
  assert (is_steady (s_run (W := W))) as Hrun by by intros f.
  intros [id approved note|id].
  - unfold decideWorkflowNode. repeat (apply steady_bind; [first [apply steady_require|exact Hrun|apply steady_change_state|apply steady_still, still_now]|intros ?]).
    apply steady_bind; [apply steady_still, still_event|intros _]. apply steady_still, still_persist.
  - unfold inspectWorkflowNode. repeat (apply steady_bind; [first [apply steady_require|exact Hrun|apply steady_change_state|apply steady_still, still_now]|intros ?]).
    apply steady_bind; [apply steady_still, still_event|intros _]. apply steady_still, still_persist.
Qed.

Lemma exec_change_still g (m : M F unit) f :
  is_still m → ru_status (sf_run (exec_unit (s_change g ;; m) f)) = ru_status (g (sf_run f)).
Proof.
  intros Hm. rewrite (exec_bind _ _ f tt (MkSF (g (sf_run f)) (sf_ext f)) eq_refl).
  destruct (Hm (MkSF (g (sf_run f)) (sf_ext f))) as (a & f' & E & Q). unfold exec_unit. rewrite E. apply Q.
Qed.

Lemma cancel_status f : ru_status (sf_run (exec_unit (cancelWorkflowRun host) f)) = run_cancelled.
Proof.
  unfold cancelWorkflowRun.
  rewrite (exec_bind _ _ f tt (MkSF (set_runStatus run_cancelled (ru_error (sf_run f)) (sf_run f)) (sf_ext f)) eq_refl).
  match goal with |- ru_status (sf_run (exec_unit ?k ?f1)) = _ => assert (is_steady k) as Hk; [|apply (Hk f1)] end.
  apply steady_bind; [apply steady_still, still_now|intros t].
  apply steady_bind; [by intros f'|intros _]. apply steady_bind; [by intros f'|intros _].
  apply steady_bind; [apply steady_still, still_event|intros _]. apply steady_still, still_persist.
Qed.

(** A frame reached calmly, with the jobs and phase as they were. *)
Lemma calm_sched s f aborted :
  sched_ok s → calm_from host (sc_frame s) f →
  (sc_phase s ≠ ph_done → ru_status (sf_run f) = run_running ∨ ru_status (sf_run f) = run_paused ∨
     aborted = true ∧ (ru_status (sf_run f) = run_failed ∨ ru_status (sf_run f) = run_cancelled)) →
  sched_ok {| sc_frame := f; sc_jobs := sc_jobs s; sc_aborted := aborted; sc_phase := sc_phase s |}.
Proof. intros [Hj Hp Hs] Hc Hst. split; [by eapply calm_jobs_ok|done|done]. Qed.

Lemma calm_exec {A} (m : M F A) f : is_calm host m → calm_from host f (exec_unit m f).
Proof. intros Hm. apply Hm. Qed.

(** Same status, same standing. *)
Lemma steady_sched s f :
  sched_ok s → calm_from host (sc_frame s) f → ru_status (sf_run f) = ru_status (sc_run s) →
  sched_ok (with_frame f s).
Proof.
  intros Hok Hc Hst. apply calm_sched; [done|done|]. intros Hph. rewrite Hst. by apply so_status.
Qed.

Lemma begin_ok f aborted : start_ok f → sched_ok (begin_run host f aborted).
Proof using FreshIds0 Hlimits.
  intros Hst. pose proof (start_jobs f Hst) as Hj. unfold begin_run.
  destruct (aborted || bool_decide (ru_status (sf_run f) = run_cancelled)).
  - split; [|done|done]. eapply calm_jobs_ok; [|exact Hj]. apply calm_exec.
    apply calm_bind; [apply calm_change; intros r; by apply calm_same|intros _]. calm. apply calm_change, calm_cancel_nodes.
  - split; [|done|].
    + eapply calm_jobs_ok; [|exact Hj]. apply calm_exec. calm.
    + intros _. left. unfold sc_run. cbn [sc_frame]. rewrite exec_change_still; [done|].
      do 4 (apply still_bind; [first [apply still_now|by apply still_change]|intros ?]).
      apply still_bind; [apply still_event|intros _; apply still_persist].
Qed.

Lemma command_ok s s' : sched_ok s → command_step host s s' → sched_ok s'.
Proof using FreshIds0 Hlimits.
  intros Hok Hstep. destruct Hstep as [s woken Hph|s woken Hph|s woken Hph Hr|s woken Hph Hr|s id woken m Hph Hget Hm
    |s m f Hph Hm E|s id f Hph E|s f Hph E|s Hph Hr].
  - apply (calm_sched s (sc_frame s) true); [done|apply calm_from_refl|]. intros Hp. destruct (so_status _ Hok Hp) as [?|[?|[_ ?]]]; auto.
  - apply (calm_sched s _ true); [done|apply calm_exec, calm_wall_clock|]. intros _. right. right. split; [done|]. left. cbn.
    unfold wall_clock. rewrite exec_change_still; [done|]. apply still_bind; [apply still_event|intros _; apply still_persist].
  - apply (calm_sched s); [done|apply calm_exec, calm_pause|]. intros _. right. left.
    unfold pauseWorkflowRun. rewrite exec_change_still; [done|]. apply still_bind; [apply still_event|intros _; apply still_persist].
  - apply (calm_sched s _ true); [done|apply calm_exec, calm_cancel|]. intros _. right. right. split; [done|]. right. cbn.
    apply cancel_status.
  - apply steady_sched; [done|by eapply calm_exec, calm_report|]. by apply (steady_report id m).
  - pose proof (calm_human host m Hm (sc_frame s)) as Hc. pose proof (steady_human m Hm (sc_frame s)) as Hs.
    rewrite E in Hc, Hs. by apply steady_sched.
  - pose proof (calm_retry host id (sc_frame s)) as Hc. rewrite E in Hc. by apply (calm_sched s).
  - pose proof (calm_resume host (sc_frame s)) as Hc. rewrite E in Hc. apply begin_ok, jobs_start.
    pose proof (so_phase _ Hok) as Hnil. rewrite Hph in Hnil. rewrite <- Hnil. eapply calm_jobs_ok; [exact Hc|apply Hok].
  - apply (calm_sched s); [done|apply calm_exec, calm_cancel|done].
Qed.

Lemma internal_ok s s' : sched_ok s → internal_step host json_parse config s s' → sched_ok s'.
Proof using FreshIds0 Hlimits.
  intros Hok Hstep. destruct Hstep as [s Hph|s id answer woken Hph Hget|s id woken Hph Hget|s Hph].
  - destruct (turn_cases s Hok Hph) as [(f & jobs & -> & Hj & Hne & _ & Hst)|[(Hnil & _ & ->)|(Hnil & _ & _ & ->)]].
    + split; [done|done|]. intros _. unfold sc_run. cbn. rewrite Hst. apply so_status; [done|by rewrite Hph].
    + apply done_ok; [apply Hok|done|apply calm_from_refl].
    + apply done_ok; [apply Hok|done|]. apply conclude_calm. apply (jo_run _ _ _ _ (so_jobs _ Hok)).
  - by eapply settle_ok.
  - by eapply collect_ok.
  - destruct Hok as [Hj Hp Hs]. split; [done|done|]. intros _. apply Hs. by rewrite Hph.
Qed.

Lemma reach_ok f s : start_ok f → reachable host json_parse config f s → sched_ok s.
Proof using FreshIds0 Hlimits.
  intros Hst. induction 1 as [aborted|s s' _ IH [Hstep|Hstep]]; [by apply begin_ok|by eapply internal_ok|by eapply command_ok].
Qed.
End Life.

(** ** A concrete workflow run

    A host that numbers its identifiers and a run of three steps, on which the properties
    of the scheduler are evaluated. *)

(** ** The host: its world counts the identifiers issued *)

Definition demo_uuid (n : N) : string := "uuid-" +:+ pretty n.

Definition demo_host : SchedulerHost N := {|
  sh_now := λ n, (1000, n);
  sh_uuid := λ n, (demo_uuid n, N.succ n);
  sh_persist := λ _ n, n |}.

Lemma demo_uuid_inj n m : demo_uuid n = demo_uuid m → n = m.
Proof. unfold demo_uuid. intros [=]. by apply (inj pretty). Qed.

#[export] Program Instance demo_fresh : FreshIds demo_host := {|
  used n i := ∀ m, (n <= m)%N → i ≠ demo_uuid m |}.
Next Obligation. cbn. intros n H. by apply (H n). Qed.
Next Obligation. cbn. intros n m Hm E%demo_uuid_inj. lia. Qed.
Next Obligation. cbn. intros n i H m Hm. apply H. lia. Qed.
Next Obligation. cbn. auto. Qed.
Next Obligation. cbn. auto. Qed.

(** ** Configuration and run *)

Definition demo_profile : WorkflowAgentProfile := {|
  pf_id := Some "reviewer"; pf_name := Some "Reviewer"; pf_personaId := Some "coder"; pf_provider := "openai";
  pf_model := Some "gpt-5.6-terra"; pf_reasoningEffort := "high";
  pf_capabilities := Some [Some (JStr "review")]; pf_target := None |}.

Definition demo_config : WorkflowOrchestration := {|
  oc_maxConcurrency := int 2; oc_maxNodes := int 64; oc_maxDepth := int 3; oc_maxAttempts := int 3;
  oc_timeoutMinutes := int 30; oc_handoffChars := int 12000; oc_profiles := [demo_profile] |}.

Definition demo_node (id : string) (strategy : option string) : WorkflowNode := {|
  nd_id := id; nd_name := id; nd_prompt := "Do " +:+ id; nd_personaId := "coder"; nd_provider := Some "codex";
  nd_model := "gpt-5.6-terra"; nd_reasoningEffort := "medium"; nd_executionStrategy := "focused";
  nd_position := (400, 0); nd_kind := None; nd_teamStrategy := strategy; nd_teamProfileIds := None;
  nd_parentNodeId := None; nd_depth := None; nd_target := None; nd_permissionMode := None;
  nd_requiresValidation := false |}.

Definition demo_run (nodes : list WorkflowNode) (edges : list WorkflowEdge) : WorkflowRun := {|
  ru_nodes := nodes; ru_edges := edges; ru_nodeRuns := queued_run <$> (nd_id <$> nodes);
  ru_status := run_queued; ru_error := None; ru_startedAt := None; ru_deadlineAt := None; ru_completedAt := None;
  ru_events := []; ru_orchestration := Some demo_config |}.

Definition demo_edge (source target : string) : WorkflowEdge :=
  {| ed_id := source +:+ target; ed_source := source; ed_target := target |}.

(** Two independent steps and one that integrates them. *)
Definition three_steps : SFrame N :=
  MkSF (demo_run [demo_node "plan" None; demo_node "build" (Some "autonomous"); demo_node "review" None]
                 [demo_edge "plan" "review"; demo_edge "build" "review"]) 0%N.

Definition one_step : SFrame N := MkSF (demo_run [demo_node "plan" None] []) 0%N.

Lemma demo_limits : limits_ok demo_config.
Proof. split; eexists; (split; [by vm_compute|lia]). Qed.

Lemma demo_used id n : ("u" =? String.substring 0 1 id)%string = false → used (host := demo_host) n id.
Proof. intros Hid m _ ->. by vm_compute in Hid. Qed.

Lemma demo_budget : budget demo_config (queued_run "").
Proof. by split; vm_compute. Qed.

Lemma three_steps_start : start_ok demo_host demo_config three_steps.
Proof.
  split.
  - split; cbn; try done.
    + apply (bool_decide_unpack _). by vm_compute.
    + exists (λ id, if String.eqb id "review" then 1%nat else 0%nat). cbn.
      intros e He. repeat (apply elem_of_cons in He as [->|He]); [..|by apply elem_of_nil in He];
        (split; [apply one_of_spec; by vm_compute|split; [apply one_of_spec; by vm_compute|vm_compute; lia]]).
    + repeat constructor; by vm_compute.
    + by repeat constructor.
  - cbn. repeat constructor; by apply demo_used.
  - intros id. unfold status_at, find_run. cbn -[String.eqb]. by repeat destruct (String.eqb _ id).
Qed.

Lemma one_step_start : start_ok demo_host demo_config one_step.
Proof.
  split.
  - split; cbn; try done.
    + apply (bool_decide_unpack _). by vm_compute.
    + exists (λ _, 0%nat). intros e He. by apply elem_of_nil in He.
    + repeat constructor; by vm_compute.
    + by repeat constructor.
  - cbn. repeat constructor; by apply demo_used.
  - intros id. unfold status_at, find_run. cbn -[String.eqb]. by repeat destruct (String.eqb _ id).
Qed.

(** A parser that knows one delegation. *)
Definition demo_payload : string := of_chars (chars "{}").
Definition demo_tasks : json :=
  JObj [("tasks", JArr [JObj [("profileId", JStr "reviewer"); ("name", JStr " Audit "); ("prompt", JStr "Inspect")]])].
Definition demo_parse (text : string) : outcome json :=
  if String.eqb text demo_payload then Ok demo_tasks else Throw (plain_error "Unexpected token").
