(* ===== verification/WorkflowLifeProps.v ===== *)
(** * Desktop app: properties of workflow runs

    Safety, outcome and termination of the scheduler, over every interleaving; what team
    expansion and delegation do, exactly; and two behaviours that go against what the code
    means to do.  Each is evaluated on the run of [WorkflowLife]. *)

From stdpp Require Import base list strings relations.
From Stdlib Require Import ZArith Ascii Lia.
From S2P Require Import Prelude JsString JsValue WorkflowGraph WorkflowTeam WorkflowTeamProps WorkflowScheduler WorkflowSchedulerProps WorkflowCommands WorkflowSafety WorkflowCalm WorkflowLife.

Section Properties.
Context {W : Type} (host : SchedulerHost W) `{!FreshIds host} (json_parse : string → outcome json).
Context (config : WorkflowOrchestration).
Notation F := (SFrame W).
Implicit Types s : Sched W.

(** ** Termination *)

Definition phase_weight (p : Phase) : Z :=
  match p with ph_turn => 1 | ph_waiting true => 2 | ph_waiting false => 0 | ph_done => 0 end.

(** What is left to do before the scheduler is done. *)
Definition left_over s : Z :=
  match sc_phase s with
  | ph_done => 0
  | p => 5 * energy config (sc_run s) + weight (sc_jobs s) + phase_weight p
  end.

Lemma left_over_nonneg s : sched_ok host config s → 0 <= left_over s.
Proof.
  intros Hok. pose proof (energy_nonneg config _ (jo_run _ _ _ _ (so_jobs _ _ _ Hok))) as He.
  pose proof (weight_bounds (sc_jobs s)). unfold left_over, sc_run. destruct (sc_phase s) as [|[]|]; cbn; lia.
Qed.

Lemma internal_decreases s s' :
  limits_ok config → sched_ok host config s → internal_step host json_parse config s s' → left_over s' < left_over s.
Proof.
  intros Hl Hok Hstep. pose proof (energy_nonneg config _ (jo_run _ _ _ _ (so_jobs _ _ _ Hok))) as He.
  fold (sc_run s) in He. pose proof (weight_bounds (sc_jobs s)) as Hw.
  destruct Hstep as [s Hph|s id answer woken Hph Hget|s id woken Hph Hget|s Hph]; unfold left_over at 2; rewrite Hph.
  - destruct (turn_cases host config Hl s Hok Hph) as [(f & jobs & -> & _ & _ & Hle & _)|[(_ & _ & ->)|(_ & _ & _ & ->)]].
    + unfold left_over. cbn in *. unfold sc_run at 1. cbn. lia.
    + unfold left_over. cbn. lia.
    + unfold left_over. cbn. lia.
  - destruct (settle_ok host json_parse config Hl s id answer woken Hok Hph Hget) as (_ & Hph' & Hwt & Hen).
    unfold left_over. rewrite Hph'. destruct woken; cbn; lia.
  - unfold left_over, collect, sc_run. cbn. pose proof (weight_collect id (sc_jobs s) Hget) as Hc. unfold other_jobs in Hc.
    destruct woken; cbn; unfold sc_run; lia.
  - unfold left_over, wake, sc_run. cbn. lia.
Qed.

Lemma internal_bound n s s' :
  limits_ok config → sched_ok host config s → nsteps (internal_step host json_parse config) n s s' →
  sched_ok host config s' ∧ Z.of_nat n + left_over s' <= left_over s.
Proof.
  intros Hl Hok Hn. revert Hok. induction Hn as [s|n s s1 s2 Hs Hn IH]; intros Hok; [split; [done|lia]|].
  pose proof (internal_decreases s s1 Hl Hok Hs). destruct IH as [Hok' Hle]; [by eapply internal_ok|].
  split; [done|]. lia.
Qed.

(** A scheduler that is not done can go on once agents answer. *)
Lemma can_step s (answer : outcome ExecuteResult) :
  sched_ok host config s → sc_phase s ≠ ph_done → ∃ s', internal_step host json_parse config s s'.
Proof.
  intros Hok Hph. destruct (sc_phase s) as [|[]|] eqn:E; [|..|done].
  - eexists. by apply step_turn.
  - eexists. by apply step_wake.
  - pose proof (so_phase _ _ _ Hok) as Hne. rewrite E in Hne.
    destruct (sc_jobs s) as [|[id j] jobs] eqn:Ej; [done|].
    assert (assoc_get id (sc_jobs s) = Some j) as Hget by (rewrite Ej; cbn; by rewrite String.eqb_refl).
    destruct j; eexists; [by eapply (step_settle _ _ _ s id answer)|by eapply step_collect].
Qed.

(** C19: The scheduler of a workflow terminates: from every state its run can reach, if
    agents answer and nobody intervenes, it is done after at most 15 steps for each node
    and 4 for each agent the limits allow, and two more; until then there is always a next
    step, so it never waits for nothing and never spins. *)
Theorem scheduler_terminates f s n s' :
  limits_ok config → start_ok host config f → reachable host json_parse config f s →
  nsteps (internal_step host json_parse config) n s s' →
  Z.of_nat n <= 15 * limit (oc_maxNodes config) + 4 * limit (oc_maxConcurrency config) + 2 ∧
  (sc_phase s' ≠ ph_done → ∃ s'', internal_step host json_parse config s' s'').
Proof.
  intros Hl Hst Hr Hn. pose proof (reach_ok host json_parse config Hl f s Hst Hr) as Hok.
  destruct (internal_bound n s s' Hl Hok Hn) as [Hok' Hle].
  split; [|apply (can_step s' (Throw delegation_error) Hok')].
  pose proof (left_over_nonneg s' Hok') as Hpos. pose proof (weight_bounds (sc_jobs s)) as Hw.
  destruct Hok as [[Hrun _ _ Hb _ _] _ _]. assert (left_over s <= 5 * energy config (sc_run s) + weight (sc_jobs s) + 2) as Hm.
  { pose proof (energy_nonneg config _ Hrun) as He. fold (sc_run s) in He.
    unfold left_over. destruct (sc_phase s) as [|[]|]; cbn; lia. }
  assert (count_queued (ru_nodeRuns (sc_run s)) <= Z.of_nat (length (ru_nodes (sc_run s)))) as Hq.
  { unfold count_queued. pose proof (List.filter_length_le is_queued (ru_nodeRuns (sc_run s))) as Hf.
    pose proof (f_equal length (rk_runs _ _ Hrun)) as El. unfold ids_of in El. rewrite !length_fmap in El.
    fold (sc_run s) in El. lia. }
  unfold energy in Hm. lia.
Qed.

(** ** Safety *)

(** C15: Whatever agents answer, and whoever pauses, cancels, decides, inspects, retries
    or resumes: in every state a run can reach, at most the allowed number of agents
    work, no step twice at once; an agent works only on a step all of whose dependencies
    are completed, and every running step has its agent; the graph has distinct ids and
    is acyclic, within the limits of nodes and depth, and no step is over its attempts or
    delegation rounds. *)
Theorem scheduler_safe f s :
  limits_ok config → start_ok host config f → reachable host json_parse config f s →
  Z.of_nat (length (sc_jobs s)) <= limit (oc_maxConcurrency config) ∧ NoDup (sc_jobs s).*1 ∧
  (∀ id, assoc_get id (sc_jobs s) = Some job_executing →
     id ∈ ids_of (sc_run s) ∧
     ∀ e, e ∈ ru_edges (sc_run s) → ed_target e = id → status_at (sc_run s) (ed_source e) = Some nr_completed) ∧
  (∀ id, status_at (sc_run s) id = Some nr_running → assoc_get id (sc_jobs s) = Some job_executing) ∧
  graph_ok config (sc_run s).
Proof.
  intros Hl Hst Hr. destruct (reach_ok host json_parse config Hl f s Hst Hr) as [[Hok Hu Hnd Hb Hex Hrun] _ _].
  split; [done|]. split; [done|]. split; [|by split].
  intros id Hid. by destruct (Hex id Hid) as (Hin & Hd & _).
Qed.

(** ** Outcome *)

(** No step of the run has one of the statuses. *)
Definition none_in (l : list NodeRunStatus) (r : WorkflowRun) : Prop :=
  ∀ id status, status_at r id = Some status → status ∉ l.

Lemma still_status r r' id : still r r' → status_at r' id = status_at r id.
Proof. intros [_ _ E _]. unfold status_at, find_run. by rewrite E. Qed.

Lemma cancelled_none r : none_in cancel_statuses (cancel_nodes cancel_statuses r).
Proof.
  intros id status. unfold status_at, find_run, cancel_nodes. cbn [ru_nodeRuns set_nodeRuns set_graph].
  induction (ru_nodeRuns r) as [|t l IH]; [done|]. rewrite fmap_cons. cbn [find_first].
  destruct (bool_decide (ns_status t ∈ cancel_statuses)) eqn:E; cbn [ns_nodeId ns_set_status];
    destruct (String.eqb (ns_nodeId t) id); try exact IH; intros [= <-].
  - by apply (bool_decide_eq_false (nr_cancelled ∈ cancel_statuses)).
  - by apply bool_decide_eq_false in E.
Qed.

(** Some run has the status, as the code looks for it. *)
Lemma exists_status status r : graph_ok config r →
  existsb (has_run_status status) (ru_nodeRuns r) = true ↔ ∃ id, status_at r id = Some status.
Proof.
  intros Hok. rewrite existsb_exists. split.
  - intros (t & Ht & E). apply bool_decide_eq_true in E. exists (ns_nodeId t). unfold status_at.
    rewrite (find_run_in r t); [cbn; by rewrite E|rewrite (rk_runs _ _ Hok); apply (rk_nodup _ _ Hok)|by apply list_elem_of_In].
  - intros (id & Hid). unfold status_at in Hid. destruct (find_run id r) as [t|] eqn:Ht; [|done]. injection Hid as E.
    apply find_run_elem in Ht as [Ht _]. exists t. split; [by apply list_elem_of_In|by apply bool_decide_eq_true].
Qed.

Lemma all_completed r : graph_ok config r →
  existsb (λ t, negb (has_run_status nr_completed t)) (ru_nodeRuns r) = false →
  ∀ id, id ∈ ids_of r → status_at r id = Some nr_completed.
Proof.
  intros Hok Hall id Hid. rewrite <- (rk_runs _ _ Hok) in Hid. destruct (find_run_known r id Hid) as [t Ht].
  unfold status_at. rewrite Ht. apply find_run_elem in Ht as [Ht _]. cbn.
  destruct (has_run_status nr_completed t) eqn:E; [apply bool_decide_eq_true in E; by rewrite E|].
  assert (existsb (λ t, negb (has_run_status nr_completed t)) (ru_nodeRuns r) = true); [|congruence].
  apply existsb_exists. exists t. split; [by apply list_elem_of_In|by rewrite E].
Qed.

Lemma in_dead_statuses status : status ∈ dead_statuses ↔ status ≠ nr_waiting ∧ status ≠ nr_queued ∧ status ≠ nr_running ∧ status ≠ nr_completed.
Proof.
  rewrite <- (bool_decide_eq_true (status ∈ dead_statuses)). by destruct status; vm_compute; split; try done; intros (?&?&?&?).
Qed.

(** With nothing ready or running and nobody waiting, nothing is queued any more. *)
Lemma propagated_stuck r :
  graph_ok config r → ready_nodes r = [] → none_in [nr_running] r → none_in [nr_waiting] (propagated r) →
  none_in [nr_queued] (propagated r).
Proof.
  intros Hok Hready Hrun Hwait. destruct (propagated_spec config r Hok) as [Hsk Hblocked].
  destruct (rk_acyclic _ _ Hok) as [rank Hrank].
  assert (∀ k id, (rank id < k)%nat → status_at (propagated r) id ≠ Some nr_queued) as Hno.
  { induction k as [|k IH]; intros id Hk Hq; [lia|].
    assert (status_at r id = Some nr_queued) as Hq0.
    { destruct (skips_status _ _ id Hsk) as [E|[E E']]; congruence. }
    destruct (find_run_known r id) as [t Ht].
    { unfold status_at in Hq0. destruct (find_run id r) as [t|] eqn:Ht; [|done]. apply find_run_elem in Ht as [Ht <-].
      by apply list_elem_of_fmap_2. }
    assert (id ∈ ids_of r) as Hid.
    { rewrite <- (rk_runs _ _ Hok). apply find_run_elem in Ht as [Ht <-]. by apply list_elem_of_fmap_2. }
    apply list_elem_of_fmap in Hid as (n & -> & Hn).
    assert (n ∉ ready_nodes r) as Hnr by (rewrite Hready; apply not_elem_of_nil).
    apply Hnr, (elem_of_ready_nodes config r n Hok). split; [done|]. split; [done|]. intros e He Hte.
    destruct (Hrank e He) as (Hsrc & _ & Hlt). rewrite Hte in Hlt. rewrite <- (rk_runs _ _ Hok) in Hsrc.
    destruct (find_run_known r _ Hsrc) as [t' Ht']. 
    assert (∃ st, status_at r (ed_source e) = Some st) as [st Hst] by (unfold status_at; rewrite Ht'; by eexists).
    pose proof (Hblocked _ Hq) as Hb. unfold blocked in Hb. rewrite Hst. f_equal.
    assert (∀ st', status_at (propagated r) (ed_source e) = Some st' → st' ∉ dead_statuses) as Hlive.
    { intros st' Hst' Hdead. apply not_true_iff_false in Hb. apply Hb, existsb_exists. exists e.
      destruct Hsk as [Er _]. assert (ru_edges (propagated r) = ru_edges r) as -> by by rewrite Er.
      split; [by apply list_elem_of_In|]. unfold into. rewrite Hte, String.eqb_refl. cbn [andb].
      unfold status_at in Hst'. destruct (find_run (ed_source e) (propagated r)); [|done]. injection Hst' as ->.
      by apply bool_decide_eq_true. }
    destruct (skips_status _ _ (ed_source e) Hsk) as [E|[E E']].
    - rewrite E in Hlive. specialize (Hlive st Hst). rewrite in_dead_statuses in Hlive.
      destruct (decide (st = nr_completed)) as [->|Hnc]; [done|]. exfalso. apply Hlive.
      split; [intros Est; apply (Hwait (ed_source e) nr_waiting); [by rewrite E, Hst, Est|left]|].
      split; [intros Est; apply (IH (ed_source e)); [lia|by rewrite E, Hst, Est]|].
      split; [intros Est; apply (Hrun (ed_source e) nr_running); [by rewrite Hst, Est|left]|done].
    - exfalso. apply (Hlive _ E'). rewrite in_dead_statuses. done. }
  intros id st Hst ->%list_elem_of_singleton. by apply (Hno (S (rank id)) id); [lia|].
Qed.

(** The run after the end of the scheduler. *)
Lemma done_run s (m : M F unit) f :
  m (sc_frame s) = (Ok tt, f) → still (finalized (sc_aborted s) (sf_run f)) (sc_run (done_with host s m)).
Proof.
  intros E. unfold done_with, sc_run. cbn [sc_frame]. rewrite (exec_bind _ _ _ tt f E). apply finalize_spec.
Qed.

Lemma none_in_still l r r' : still r r' → none_in l r → none_in l r'.
Proof. intros Q H id st. rewrite (still_status r r' id Q). apply H. Qed.

(** The end of a run that was aborted or paused. *)
Lemma idle_outcome s :
  sched_ok host config s → sc_phase s ≠ ph_done → active s = false →
  let r := sc_run (done_with host s (mret tt)) in
  if sc_aborted s then
    (ru_status r = run_failed ∨ ru_status r = run_cancelled) ∧ none_in cancel_statuses r
  else
    (ru_status r = run_completed ∧ ∀ id, id ∈ ids_of r → status_at r id = Some nr_completed) ∨
    (ru_status r = run_failed ∧ none_in cancel_statuses r ∧ ∃ id status, status_at r id = Some status ∧ status ≠ nr_completed) ∨
    (ru_status r = run_paused ∧ (ru_status (sc_run s) = run_paused ∨ ∃ id, status_at r id = Some nr_waiting)).
Proof.
  intros Hok Hph Ha. pose proof (so_status _ _ _ Hok Hph) as Hst. pose proof (done_run s (mret tt) (sc_frame s) eq_refl) as Q.
  cbn zeta. fold (sc_run s) in Q. unfold finalized in Q. unfold active in Ha. destruct (sc_aborted s) eqn:Eab.
  - split; [|eapply none_in_still; [exact Q|apply cancelled_none]]. rewrite (qu_status _ _ Q).
    destruct Hst as [Es|[Es|[_ [Es|Es]]]]; rewrite Es; cbn; rewrite ?Es; auto.
  - right. right. rewrite (qu_status _ _ Q). destruct Hst as [Es|[Es|[? _]]]; [by rewrite Es in Ha|by auto|done].
Qed.

(** The end of a run with nothing ready. *)
Lemma conclude_outcome s :
  sched_ok host config s → sc_jobs s = [] → ready_nodes (sc_run s) = [] → sc_aborted s = false →
  let r := sc_run (done_with host s (conclude host)) in
  (ru_status r = run_completed ∧ ∀ id, id ∈ ids_of r → status_at r id = Some nr_completed) ∨
  (ru_status r = run_failed ∧ none_in cancel_statuses r ∧ ∃ id status, status_at r id = Some status ∧ status ≠ nr_completed) ∨
  (ru_status r = run_paused ∧ (ru_status (sc_run s) = run_paused ∨ ∃ id, status_at r id = Some nr_waiting)).
Proof.
  intros Hok Hnil Hready Hab. destruct (so_jobs _ _ _ Hok) as [Hrun _ _ _ _ Hidle]. fold (sc_run s) in *.
  set (p := propagated (sc_run s)).
  destruct (end_run_spec host (MkSF p (sf_ext (sc_frame s)))) as (f & E & Q1). cbn [sf_run] in E, Q1.
  pose proof (done_run s (conclude host) f) as Q2. rewrite Hab in Q2. specialize (Q2 E). cbn [finalized] in Q2.
  set (r := sc_run (done_with host s (conclude host))) in *. cbn zeta.
  assert (still (ended p) r) as Q by (destruct Q1, Q2; split; congruence). clear Q1 Q2 E f.
  assert (graph_ok config p) as Hp by (eapply calm_graph_ok; [apply skips_calm, (propagated_spec config _ Hrun)|done]).
  assert (∀ id, status_at r id = status_at p id) as Hstat.
  { intros id. rewrite (still_status _ _ id Q). unfold ended. by repeat destruct (existsb _ _). }
  assert (ids_of r = ids_of p) as Hids.
  { unfold ids_of. rewrite (qu_nodes _ _ Q). unfold ended. by repeat destruct (existsb _ _). }
  rewrite (qu_status _ _ Q). rewrite Hids. setoid_rewrite Hstat. unfold none_in. setoid_rewrite Hstat. fold (none_in cancel_statuses p).
  unfold ended. destruct (existsb (has_run_status nr_waiting) (ru_nodeRuns p)) eqn:Ew.
  { right. right. split; [done|]. right. by apply (exists_status nr_waiting p Hp). }
  destruct (existsb (λ t, negb (has_run_status nr_completed t)) (ru_nodeRuns p)) eqn:Ec.
  2:{ left. split; [done|]. by apply all_completed. }
  right. left. split; [done|]. assert (none_in [nr_waiting] p) as Hnw.
  { intros id st Hid ->%list_elem_of_singleton. apply not_true_iff_false in Ew. apply Ew, (exists_status _ _ Hp). by exists id. }
  assert (none_in [nr_running] (sc_run s)) as Hnr.
  { intros id st Hid ->%list_elem_of_singleton. specialize (Hidle id Hid). by rewrite Hnil in Hidle. }
  pose proof (propagated_stuck (sc_run s) Hrun Hready Hnr Hnw) as Hnq. split.
  - intros id st Hid Hin. repeat (apply elem_of_cons in Hin as [->|Hin]); [..|by apply elem_of_nil in Hin].
    + by apply (Hnq id nr_queued Hid); left.
    + apply (Hnr id nr_running); [|left].
      destruct (skips_status _ _ id (proj1 (propagated_spec config _ Hrun))) as [E|[_ E]]; fold p in E; congruence.
    + by apply (Hnw id nr_waiting Hid); left.
  - apply existsb_exists in Ec as (t & Ht & Ec). apply list_elem_of_In in Ht. exists (ns_nodeId t), (ns_status t).
    split; [|by apply negb_true_iff, bool_decide_eq_false in Ec]. unfold status_at. rewrite (find_run_in p t); [done| |done].
    rewrite (rk_runs _ _ Hp). apply (rk_nodup _ _ Hp).
Qed.

(** C20: When the scheduler is done with a run, nothing runs any more, and the run is
    completed only if all its steps are; failed, without an intervention, only if some
    step is not completed and none is left queued, waiting or running; paused only if it
    was paused or a step waits; and after an abort it is failed or cancelled with no step
    left queued, waiting or running. *)
Theorem scheduler_outcome f s :
  limits_ok config → start_ok host config f → reachable host json_parse config f s → sc_phase s = ph_turn →
  let r := sc_run (turn host config s) in
  sc_phase (turn host config s) = ph_done →
  none_in [nr_running] r ∧
  if sc_aborted s then
    (ru_status r = run_failed ∨ ru_status r = run_cancelled) ∧ none_in cancel_statuses r
  else
    (ru_status r = run_completed ∧ ∀ id, id ∈ ids_of r → status_at r id = Some nr_completed) ∨
    (ru_status r = run_failed ∧ none_in cancel_statuses r ∧ ∃ id status, status_at r id = Some status ∧ status ≠ nr_completed) ∨
    (ru_status r = run_paused ∧ (ru_status (sc_run s) = run_paused ∨ ∃ id, status_at r id = Some nr_waiting)).
Proof.
  intros Hl Hst Hr Hph. cbn zeta. intros Hdone. pose proof (reach_ok host json_parse config Hl f s Hst Hr) as Hok.
  assert (reachable host json_parse config f (turn host config s)) as Hr' by (eapply reach_step; [exact Hr|left; by apply step_turn]).
  pose proof (reach_ok host json_parse config Hl f _ Hst Hr') as Hok'.
  assert (none_in [nr_running] (sc_run (turn host config s))) as Hidle.
  { intros id st Hid ->%list_elem_of_singleton. pose proof (jo_running _ _ _ _ (so_jobs _ _ _ Hok') id Hid) as Hj.
    pose proof (so_phase _ _ _ Hok') as Hp. rewrite Hdone in Hp. by rewrite Hp in Hj. }
  split; [done|].
  destruct (turn_cases host config Hl s Hok Hph) as [(f' & jobs & E & _)|[(Hnil & Ha & E)|(Hnil & Ha & Hready & E)]];
    [by rewrite E in Hdone|..]; rewrite E in *; clear E.
  - apply idle_outcome; [done|by rewrite Hph|done].
  - unfold active in Ha. apply andb_true_iff in Ha as [Hrun%bool_decide_eq_true Hab%negb_true_iff]. rewrite Hab.
    by eapply conclude_outcome.
Qed.

(** ** Teams *)

(** [expandWorkflowTeam] is all or nothing: when the parent is at the depth limit, the
    team would exceed the node limit, its delegation rounds are spent, or a task names a
    specialist it may not use, it throws and changes nothing; otherwise it adds exactly
    one queued node of the specialist for each task, which waits for all the parent waits
    for, makes the parent wait for each of them, and queues the parent again. *)
Theorem expandWorkflowTeam_exact f parent tasks st :
  find_run (nd_id parent) (sf_run f) = Some st →
  limits_ok (orchestrationConfig (ru_orchestration (sf_run f))) →
  match expandWorkflowTeam host parent tasks f with
  | (Ok _, f') => may_expand (sf_run f) parent tasks ∧
      ∃ cs es, team_of (sf_run f) parent tasks cs es ∧ near host f (nd_id parent) (ns_set_expanded st) cs es f'
  | (Throw _, f') => f' = f ∧ ¬ may_expand (sf_run f) parent tasks
  end.
Proof.
  intros Hf Hl. destruct (find_run_elem _ _ _ Hf) as [Hin E]. apply near_expand; [|done|done|by apply near_refl].
  unfold knows. rewrite <- E. by apply list_elem_of_fmap_2.
Qed.

(** ** Findings *)

Lemma fail_and_close f node st message :
  knows f (nd_id node) → ns_nodeId st = nd_id node → near host f (nd_id node) st [] [] f →
  ∃ f' t, (fail_node host false node (plain_error message) ;; close_node host (nd_id node)) f = (Ok tt, f') ∧
    near host f (nd_id node) (ns_set_completedAt t (ns_set_status nr_failed (Some message) st)) [] [] f'.
Proof.
  intros Hknown Eid Hn. set (st1 := ns_set_status nr_failed (Some message) st).
  assert (triple (near host f (nd_id node) st [] []) (fail_node host false node (plain_error message) ;; close_node host (nd_id node))
    (λ _ f', ∃ t, near host f (nd_id node) (ns_set_completedAt t st1) [] [] f') noerr) as Ht.
  { eapply triple_bind with (R := λ _, near host f (nd_id node) st1 [] []).
    - eapply triple_bind; [by apply near_change|]. intros []. apply near_event.
    - intros []. eapply triple_bind with (R := λ st' f', st' = st1 ∧ near host f (nd_id node) st1 [] [] f').
      { intros f1 H1. by rewrite (near_state_of host f node Hknown st1 [] [] f1 Eid H1). }
      intros st' f1 [-> H1]. revert f1 H1.
      change (triple (near host f (nd_id node) st1 [] [])
        ((t ← s_now host; change_state (nd_id node) (ns_set_completedAt t)) ;; s_persist host)
        (λ _ f', ∃ t, near host f (nd_id node) (ns_set_completedAt t st1) [] [] f') noerr).
      eapply triple_bind with (R := λ _ f', ∃ t, near host f (nd_id node) (ns_set_completedAt t st1) [] [] f').
      + eapply triple_bind; [apply near_now|]. intros t f1 H1. exists t.
        by apply (near_change host f (nd_id node) Hknown st1 [] [] (ns_set_completedAt t) Eid f1 H1).
      + intros [] f1 [t H1]. exists t. by apply (near_persist host f (nd_id node) (ns_set_completedAt t st1) [] [] f1 H1). }
  specialize (Ht f Hn).
  destruct ((fail_node host false node (plain_error message) ;; close_node host (nd_id node)) f) as [[[]|e] f']; [|done]. destruct Ht as [t Ht]. by exists f', t.
Qed.

(** The attempt limit is checked before a remote attempt is picked up again: a step
    whose last allowed attempt still has an open remote execution, and which is queued to
    go on with it, fails with its attempts as they were. *)
Theorem open_remote_attempt_lost f node st a :
  find_run (nd_id node) (sf_run f) = Some st → limits_ok config → nd_kind node ≠ Some "human" →
  is_team (nd_teamStrategy node) = false → reusable (last (ns_attempts st)) = Some a →
  limit (oc_maxAttempts config) <= Z.of_nat (length (ns_attempts st)) →
  let result := start_node host config false node f in
  result.1 = Ok false ∧
  ∃ st', find_run (nd_id node) (sf_run result.2) = Some st' ∧ ns_status st' = nr_failed ∧
    ns_error st' = Some "Maximum attempts reached for this step." ∧ ns_attempts st' = ns_attempts st.
Proof.
  intros Hf Hl Hk Ht Ha Hm. cbn zeta. set (e := plain_error "Maximum attempts reached for this step.").
  destruct (find_run_elem _ _ _ Hf) as [Hin Eid].
  assert (knows f (nd_id node)) as Hknown by (unfold knows; rewrite <- Eid; by apply list_elem_of_fmap_2).
  assert (begin_node host config node f = (Throw e, f)) as Hb.
  { unfold begin_node, state_of, gets, mbind, M_bind. rewrite Hf, bool_decide_eq_false_2, Ht, andb_false_r by done.
    cbn [default from_option]. pose proof (limit_spec _ _ _ (lo_attempts _ Hl)) as (_ & Hle & _). unfold id. rewrite Hle.
    by rewrite (proj2 (Z.leb_le _ _) Hm). }
  destruct (fail_and_close f node st "Maximum attempts reached for this step." Hknown Eid (near_refl host f _ _ Hf)) as (f' & t & E & Hn).
  unfold start_node, try_catch, mbind, M_bind. rewrite Hb.
  unfold mbind, M_bind in E. fold e in E. destruct (fail_node host false node e f) as [[[]|e'] f1]; [|done]. cbn [mret M_ret].
  destruct (close_node host (nd_id node) f1) as [[[]|e'] f2]; [|done]. injection E as ->. cbn [mret M_ret fst snd].
  split; [done|]. eexists. split; [refine (near_find host f (nd_id node) Hknown _ [] [] f' _ Hn); exact Eid|done].
Qed.

Lemma wall_clock_run (f : F) :
  ru_status (sf_run (exec_unit (wall_clock host) f)) = run_failed ∧
  ru_error (sf_run (exec_unit (wall_clock host) f)) = Some "Workflow wall-clock limit reached.".
Proof.
  unfold wall_clock, exec_unit, recordWorkflowEvent, s_uuid, s_now, s_change, s_persist, modify, mbind, M_bind. cbn.
  destruct (sh_uuid host (sf_ext f)) as [i w]. cbn. destruct (sh_now host w) as [t w']. by split.
Qed.

(** The wall-clock timer does not look at the status of the run: while a cancelled
    run's agent has yet to end, the timer still fires, and the run that was cancelled by
    the user becomes failed, with the timer's error. *)
Theorem timer_overwrites_cancel s woken :
  sc_phase s = ph_waiting woken → ru_status (sc_run s) = run_running →
  ∃ s1 s2, command_step host s s1 ∧ ru_status (sc_run s1) = run_cancelled ∧
    command_step host s1 s2 ∧ ru_status (sc_run s2) = run_failed ∧
    ru_error (sc_run s2) = Some "Workflow wall-clock limit reached.".
Proof.
  intros Hph Hr. eexists (abort (with_frame (exec_unit (cancelWorkflowRun host) (sc_frame s)) s)), _.
  split; [apply (step_cancel host s woken Hph); rewrite Hr; right; left|].
  split; [unfold sc_run; cbn; apply cancel_status|].
  split; [by apply step_wall_clock with woken|].
  unfold sc_run. cbn [sc_frame abort with_frame]. apply wall_clock_run.
Qed.
End Properties.

(** C32: A reply delegates tasks iff the regular expression matches it and the content of the
    match is the JSON of an object with 1 to 16 tasks, each with a profile and a non-blank
    name and instruction of at most 24000 characters; then every task carries its trimmed
    instruction and at most 160 characters of its name.  The match is the one the expression
    prefers: the leftmost header (even one quoted before the final block), the longest white
    space after it up to a newline, and the shortest content before a closing fence that ends
    the reply.  A reply delegates nothing, and nothing fails, iff the expression matches
    nowhere in it. *)
Theorem parseDelegation_exact json_parse output :
  (∀ ds, parseDelegation json_parse output = Ok (Some ds) ↔
     ∃ content fields tasks, delegated (chars output) content ∧ json_parse (of_chars content) = Ok (JObj fields) ∧
       assoc_get "tasks" fields = Some (JArr tasks) ∧ (1 <= length tasks <= 16)%nat ∧ Forall2 task_ok tasks ds) ∧
  (parseDelegation json_parse output = Ok None ↔
     ¬ ∃ before space content tail, block (chars output) before space content tail).
Proof.
  rewrite <- match_delegation_None. unfold parseDelegation. destruct (match_delegation (chars output)) as [content|] eqn:Hm.
  2:{ split; [|done]. intros ds. split; [done|]. intros (content & _ & _ & Hd%match_delegation_Some & _). congruence. }
  split; [intros ds; split|].
  - intros H. destruct (json_parse (of_chars content)) as [v|e] eqn:Hj; [|done].
    destruct v as [| | | | |fields]; try done. cbn [prop] in H.
    destruct (assoc_get "tasks" fields) as [[| | | |tasks|]|] eqn:Ht; try done.
    destruct ((length tasks =? 0)%nat || (16 <? length tasks)%nat) eqn:Hl; [done|].
    destruct (parse_tasks tasks) as [ds'|] eqn:Hds; [|done]. injection H as <-. apply parse_tasks_spec in Hds.
    apply orb_false_iff in Hl as [Hl1%Nat.eqb_neq Hl2%Nat.ltb_ge]. exists content, fields, tasks.
    split_and!; [by apply match_delegation_Some|done|done|lia|lia|done].
  - intros (content' & fields & tasks & Hd%match_delegation_Some & Hj & Ht & [Hl1 Hl2] & Hds%parse_tasks_spec).
    assert (content' = content) as -> by congruence. rewrite Hj. cbn [prop]. rewrite Ht.
    replace ((length tasks =? 0)%nat || (16 <? length tasks)%nat) with false; [by rewrite Hds|].
    symmetry. apply orb_false_iff. split; [apply Nat.eqb_neq|apply Nat.ltb_ge]; lia.
  - split; [|done]. by repeat case_match.
Qed.

(** ** The properties on concrete runs *)

Notation team_step := (internal_step demo_host demo_parse demo_config).
Notation demo_reach := (reachable demo_host demo_parse demo_config).

Definition begun : Sched N := begin_run demo_host three_steps false.

Lemma begun_reach : demo_reach three_steps begun.
Proof. apply reach_start. Qed.

Lemma scheduler_terminates_witness :
  nsteps team_step 1 begun (turn demo_host demo_config begun) ∧
  1 <= 15 * 64 + 4 * 2 + 2 ∧ ∃ s, team_step (turn demo_host demo_config begun) s.
Proof.
  assert (nsteps team_step 1 begun (turn demo_host demo_config begun)) as Hn
    by (refine (nsteps_l _ 0 begun _ _ (step_turn demo_host demo_parse demo_config begun _) (nsteps_O _ _)); by vm_compute).
  destruct (scheduler_terminates demo_host demo_parse demo_config three_steps begun 1 _ demo_limits three_steps_start
    begun_reach Hn) as [Hb Hp].
  split; [exact Hn|]. split; [exact Hb|]. apply Hp. by vm_compute.
Defined.

Definition working : Sched N := turn demo_host demo_config begun.

Lemma working_reach : demo_reach three_steps working.
Proof.
  refine (reach_step _ _ _ _ begun working begun_reach (or_introl _)).
  refine (step_turn demo_host demo_parse demo_config begun _). by vm_compute.
Qed.

Lemma scheduler_safe_witness :
  sc_jobs working = [("plan", job_executing); ("build", job_executing)] ∧ Z.of_nat (length (sc_jobs working)) <= 2 ∧
  graph_ok demo_config (sc_run working).
Proof.
  pose proof (scheduler_safe demo_host demo_parse demo_config three_steps working demo_limits three_steps_start working_reach)
    as (Hb & _ & _ & _ & Hok).
  split; [by vm_compute|]. split; [exact Hb|exact Hok].
Defined.

(** One step, from dispatch to the end of the run. *)
Definition answer : outcome ExecuteResult :=
  Ok {| xr_output := "planned"; xr_sessionId := None; xr_threadId := None; xr_outcome := None; xr_error := None;
        xr_remote := None |}.
Definition single : Sched N := turn demo_host demo_config (begin_run demo_host one_step false).
Definition answered : Sched N := settle demo_host demo_parse demo_config "plan" answer single.
Definition finishing : Sched N := wake (collect "plan" answered).

Lemma finishing_reach : demo_reach one_step finishing.
Proof.
  refine (reach_step _ _ _ _ (collect "plan" answered) _ _ (or_introl _));
    [|refine (step_wake demo_host demo_parse demo_config (collect "plan" answered) _); by vm_compute].
  refine (reach_step _ _ _ _ answered _ _ (or_introl _));
    [|refine (step_collect demo_host demo_parse demo_config answered "plan" false _ _); by vm_compute].
  refine (reach_step _ _ _ _ single _ _ (or_introl _));
    [|refine (step_settle demo_host demo_parse demo_config single "plan" answer false _ _); by vm_compute].
  refine (reach_step _ _ _ _ (begin_run demo_host one_step false) _ (reach_start _ _ _ _ false) (or_introl _)).
  refine (step_turn demo_host demo_parse demo_config _ _). by vm_compute.
Qed.

Lemma scheduler_outcome_witness :
  ru_status (sc_run (turn demo_host demo_config finishing)) = run_completed ∧
  none_in [nr_running] (sc_run (turn demo_host demo_config finishing)).
Proof.
  split; [by vm_compute|].
  apply (scheduler_outcome demo_host demo_parse demo_config one_step finishing demo_limits one_step_start finishing_reach);
    by vm_compute.
Defined.

Definition audit : DelegatedTask := {| dt_profileId := "reviewer"; dt_name := "Audit"; dt_prompt := "Inspect" |}.

Lemma expandWorkflowTeam_exact_witness :
  (expandWorkflowTeam demo_host (demo_node "build" (Some "autonomous")) [audit] three_steps).1 = Ok tt ∧
  may_expand (sf_run three_steps) (demo_node "build" (Some "autonomous")) [audit].
Proof.
  split; [by vm_compute|].
  pose proof (expandWorkflowTeam_exact demo_host three_steps (demo_node "build" (Some "autonomous")) [audit] _ eq_refl demo_limits) as H.
  assert ((expandWorkflowTeam demo_host (demo_node "build" (Some "autonomous")) [audit] three_steps).1 = Ok tt) as E
    by by vm_compute.
  destruct (expandWorkflowTeam _ _ _ _) as [[[]|e] f]; [apply H|done].
Defined.

(** A step whose third and last attempt waits for approval on another device. *)
Definition waiting_attempt : WorkflowAttempt :=
  wa_set_remote (Some {| rm_dispatchId := "dispatch"; rm_state := "awaiting-approval" |})
    (new_attempt (demo_node "plan" None) "attempt" 0).
Definition last_attempt : NodeRun := ns_set_attempts [waiting_attempt; waiting_attempt; waiting_attempt] (queued_run "plan").
Definition resumed : SFrame N := MkSF (set_nodeRuns [last_attempt] (sf_run one_step)) 0%N.

Lemma open_remote_attempt_lost_witness :
  reusable (last (ns_attempts last_attempt)) = Some waiting_attempt ∧
  (start_node demo_host demo_config false (demo_node "plan" None) resumed).1 = Ok false.
Proof.
  split; [by vm_compute|].
  apply (open_remote_attempt_lost demo_host demo_config resumed (demo_node "plan" None) last_attempt waiting_attempt);
    [done|apply demo_limits|done|done|by vm_compute|by vm_compute].
Defined.

Lemma timer_overwrites_cancel_witness :
  ∃ s1 s2, command_step demo_host single s1 ∧ ru_status (sc_run s1) = run_cancelled ∧
    command_step demo_host s1 s2 ∧ ru_status (sc_run s2) = run_failed ∧
    ru_error (sc_run s2) = Some "Workflow wall-clock limit reached.".
Proof. apply (timer_overwrites_cancel demo_host single false); by vm_compute. Defined.

(** A reply that quotes the protocol before its block: the match starts at the quoted header. *)
Definition plain_reply : string := "On it. " +:+ of_chars (header ++ newline :: chars "{}" ++ newline :: fence) +:+ " ".
Definition quoting_reply : string := of_chars (header ++ newline :: chars "first") +:+ plain_reply.

Lemma parseDelegation_exact_witness :
  (∃ content, delegated (chars plain_reply) content ∧ of_chars content = "{}") ∧
  (∃ content, delegated (chars quoting_reply) content ∧ of_chars content ≠ "{}") ∧
  parseDelegation demo_parse plain_reply = Ok (Some [audit]) ∧
  parseDelegation demo_parse quoting_reply ≠ Ok None.
Proof.
  assert (Hd : delegated (chars plain_reply) (chars "{}")) by (apply match_delegation_Some; by vm_compute).
  assert (Hq : ∃ content, delegated (chars quoting_reply) content ∧ of_chars content ≠ "{}").
  { eexists. split; [apply match_delegation_Some; vm_compute; reflexivity|by vm_compute]. }
  split; [by exists (chars "{}")|]. split; [exact Hq|]. split.
  - apply (parseDelegation_exact demo_parse plain_reply). eexists (chars "{}"), _, _. split; [exact Hd|]. split; [done|]. split; [done|].
    split; [cbn; lia|]. constructor; [|constructor]. eexists _, _, _. by repeat split.
  - intros E. apply (parseDelegation_exact demo_parse quoting_reply) in E. destruct Hq as (c & (b & sp & t & Hb & _) & _).
    apply E. by exists b, sp, c, t.
Defined.
