(* ===== verification/WorkflowValidate.v ===== *)
(** * Desktop app: workflow templates

    What a workflow template must satisfy before it is saved or run, and the run it
    starts: [mezair-app/src/main/services/workflow.service.ts], with the permission modes
    of [mezair-app/cloud/contract/permissions.ts].  The catalogue of personas is a
    parameter. *)

From stdpp Require Import base list strings.
From Stdlib Require Import ZArith Ascii.
From S2P Require Import Prelude JsString JsValue WorkflowGraph WorkflowTeam.

(** ** Permission modes *)

Definition PERMISSION_MODES : list string := ["read-only"; "on-request"; "workspace-auto"; "full-access"].

(** [xs.indexOf(x)], -1 when absent, and [xs[i]], undefined when out of range. *)
Fixpoint index_from (i : Z) (x : string) (l : list string) : Z :=
  match l with
  | [] => -1
  | y :: l' => if String.eqb y x then i else index_from (i + 1) x l'
  end.
Definition indexOf (x : string) (l : list string) : Z := index_from 0 x l.
Definition at_index (l : list string) (i : Z) : option string := if i <? 0 then None else l !! Z.to_nat i.

Definition constrainPermissionMode (requested maximum : string) : option string :=
  at_index PERMISSION_MODES (Z.min (indexOf requested PERMISSION_MODES) (indexOf maximum PERMISSION_MODES)).

(** ** Validation *)

Record WorkflowTemplate := {
  tp_orchestration : option WorkflowOrchestration;
  tp_name : string;
  tp_nodes : list WorkflowNode;
  tp_edges : list WorkflowEdge;
}.

Definition isAcpAgentProvider (provider : option string) : bool :=
  match provider with Some p => one_of ["cursor"; "devin"] p | None => false end.

Definition truthy_text (x : option string) : option string :=
  match x with Some s => if String.eqb s "" then None else Some s | None => None end.

(** [for (const x of xs) check(x)] where the check may throw. *)
Fixpoint each {A} (check : A → outcome unit) (l : list A) : outcome unit :=
  match l with
  | [] => Ok tt
  | x :: l' => match check x with Throw e => Throw e | Ok _ => each check l' end
  end.

Definition provider_of (node : WorkflowNode) : string := default "codex" (nd_provider node).

Section Validation.
Context (persona_known : string → bool).

(** The body of the loop over the nodes, when [ids] have been seen. *)
Definition validate_node (ids : list string) (node : WorkflowNode) : outcome unit :=
  let fail message := Throw (plain_error message) in
  if blank (nd_id node) then fail "Every workflow step needs an id."
  else if one_of ids (nd_id node) then fail ("Duplicate workflow step id: " +:+ nd_id node)
  else if blank (nd_name node) then fail "Every workflow step needs a name."
  else if blank (nd_prompt node) then fail (nd_name node +:+ " needs an instruction.")
  else if blank (nd_model node) then fail (nd_name node +:+ " needs a model.")
  else if match truthy_text (nd_provider node) with Some p => negb (one_of AGENT_PROVIDERS p) | None => false end
  then fail "Unknown workflow provider."
  else if negb (persona_known (nd_personaId node)) then fail ("Unknown persona: " +:+ nd_personaId node)
  else match validateWorkflowTarget (nd_target node) (provider_of node) (Some (nd_name node)) with
       | Throw e => Throw e
       | Ok _ =>
           if nd_requiresValidation node && (isAcpAgentProvider (nd_provider node) || negb (is_local (nd_target node)))
           then fail (nd_name node +:+ " needs a local provider with inline validation tools.")
           else if negb (is_local (nd_target node)) && bool_decide (nd_teamStrategy node = Some "autonomous")
           then fail (nd_name node +:+ " cannot use autonomous delegation on a remote target.")
           else Ok tt
       end.

Fixpoint validate_nodes (ids : list string) (nodes : list WorkflowNode) : outcome unit :=
  match nodes with
  | [] => Ok tt
  | node :: nodes' =>
      match validate_node ids node with
      | Throw e => Throw e
      | Ok _ => validate_nodes (nd_id node :: ids) nodes'
      end
  end.

(** The body of the loop over the edges; a connection is the pair its JSON text spells. *)
Definition validate_edge (ids edgeIds : list string) (connections : list (string * string)) (edge : WorkflowEdge) :
    outcome unit :=
  let connection := (ed_source edge, ed_target edge) in
  if String.eqb (ed_id edge) "" || one_of edgeIds (ed_id edge) || bool_decide (connection ∈ connections)
  then Throw (plain_error "Workflow connections must be unique.")
  else if negb (one_of ids (ed_source edge)) || negb (one_of ids (ed_target edge))
  then Throw (plain_error "Every connection must point to an existing step.")
  else if String.eqb (ed_source edge) (ed_target edge)
  then Throw (plain_error "A workflow step cannot connect to itself.")
  else Ok tt.

Fixpoint validate_edges (ids edgeIds : list string) (connections : list (string * string))
    (edges : list WorkflowEdge) : outcome unit :=
  match edges with
  | [] => Ok tt
  | edge :: edges' =>
      match validate_edge ids edgeIds connections edge with
      | Throw e => Throw e
      | Ok _ => validate_edges ids (ed_id edge :: edgeIds) ((ed_source edge, ed_target edge) :: connections) edges'
      end
  end.

(** [outgoing.get(id)]. *)
Definition outgoing (edges : list WorkflowEdge) (id : string) : list string :=
  ed_target <$> List.filter (λ e, String.eqb (ed_source e) id) edges.

Definition cycle_error : JsError := plain_error "Workflow cycles are not supported yet.".

(** [for (const target of targets) visit(target)]; the visited ids, latest first. *)
Fixpoint visit_each (visit : string → list string → outcome (list string)) (targets visited : list string) :
    outcome (list string) :=
  match targets with
  | [] => Ok visited
  | t :: targets' =>
      match visit t visited with
      | Throw e => Throw e
      | Ok visited' => visit_each visit targets' visited'
      end
  end.

(** [visit(nodeId)].  [visiting] are the ids on the way to this one: what is added before
    the recursion is deleted after it.  The fuel bounds the depth. *)
Fixpoint visit (edges : list WorkflowEdge) (fuel : nat) (visiting : list string) (id : string)
    (visited : list string) : outcome (list string) :=
  if one_of visiting id then Throw cycle_error
  else if one_of visited id then Ok visited
  else match fuel with
       | O => Throw (plain_error "Maximum call stack size exceeded")
       | S fuel' =>
           match visit_each (visit edges fuel' (id :: visiting)) (outgoing edges id) visited with
           | Throw e => Throw e
           | Ok visited' => Ok (id :: visited')
           end
       end.

Definition validate_acyclic (nodes : list WorkflowNode) (edges : list WorkflowEdge) : outcome (list string) :=
  visit_each (visit edges (length nodes) []) (nd_id <$> nodes) [].

Definition validateWorkflowGraph (nodes : list WorkflowNode) (edges : list WorkflowEdge) : outcome unit :=
  match nodes with
  | [] => Throw (plain_error "Add at least one step before saving this workflow.")
  | _ =>
      match validate_nodes [] nodes with
      | Throw e => Throw e
      | Ok _ =>
          match validate_edges (nd_id <$> nodes) [] [] edges with
          | Throw e => Throw e
          | Ok _ => match validate_acyclic nodes edges with Throw e => Throw e | Ok _ => Ok tt end
          end
      end
  end.

Definition TEAM_STRATEGIES : list string := ["manual"; "map-reduce"; "review"; "debate"; "autonomous"].

Definition no_items (l : option (list string)) : bool := match l with Some (_ :: _) => false | _ => true end.

(** The checks on one node against the configuration. *)
Definition validate_team (config : WorkflowOrchestration) (node : WorkflowNode) : outcome unit :=
  let fail message := Throw (plain_error message) in
  if match truthy_text (nd_teamStrategy node) with Some s => negb (one_of TEAM_STRATEGIES s) | None => false end
  then fail "Unknown team strategy."
  else if match truthy_text (nd_kind node) with Some k => negb (one_of ["agent"; "human"] k) | None => false end
  then fail "Unknown step kind."
  else if existsb (λ id, negb (existsb (profile_is id) (oc_profiles config))) (default [] (nd_teamProfileIds node))
  then fail "A step references a missing specialist."
  else if one_of ["map-reduce"; "review"; "debate"] (default "" (nd_teamStrategy node)) &&
          no_items (nd_teamProfileIds node)
  then fail (nd_name node +:+ " needs a specialist team.")
  else if bool_decide (nd_teamStrategy node = Some "autonomous") && match oc_profiles config with [] => true | _ => false end
  then fail (nd_name node +:+ " needs an approved specialist pool.")
  else Ok tt.

Definition validate_persona (profile : WorkflowAgentProfile) : outcome unit :=
  let id := default "undefined" (pf_personaId profile) in
  if persona_known id then Ok tt else Throw (plain_error ("Unknown specialist persona: " +:+ id)).

Definition validateWorkflowConfiguration (template : WorkflowTemplate) : outcome unit :=
  match validateOrchestration (tp_orchestration template) with
  | Throw e => Throw e
  | Ok _ =>
      let config := orchestrationConfig (tp_orchestration template) in
      if num_ltb (oc_maxNodes config) (int (Z.of_nat (length (tp_nodes template))))
      then Throw (plain_error "The graph exceeds the node limit.")
      else match each validate_persona (oc_profiles config) with
           | Throw e => Throw e
           | Ok _ => each (validate_team config) (tp_nodes template)
           end
  end.

(** ** Starting a run *)

Record WorkItemRef := { wi_id : jsval; wi_connectionId : jsval; wi_provider : string }.

Definition valid_work_item (ref : WorkItemRef) : bool :=
  negb (is_blank_text (wi_id ref)) && negb (is_blank_text (wi_connectionId ref)) &&
  one_of ["ado"; "linear"; "jira"; "github"] (wi_provider ref).

Definition set_permission (mode : option string) (n : WorkflowNode) : WorkflowNode := {|
  nd_id := nd_id n; nd_name := nd_name n; nd_prompt := nd_prompt n; nd_personaId := nd_personaId n;
  nd_provider := nd_provider n; nd_model := nd_model n; nd_reasoningEffort := nd_reasoningEffort n;
  nd_executionStrategy := nd_executionStrategy n; nd_position := nd_position n; nd_kind := nd_kind n;
  nd_teamStrategy := nd_teamStrategy n; nd_teamProfileIds := nd_teamProfileIds n;
  nd_parentNodeId := nd_parentNodeId n; nd_depth := nd_depth n; nd_target := nd_target n;
  nd_permissionMode := mode; nd_requiresValidation := nd_requiresValidation n |}.

Definition set_provider (provider : option string) (n : WorkflowNode) : WorkflowNode := {|
  nd_id := nd_id n; nd_name := nd_name n; nd_prompt := nd_prompt n; nd_personaId := nd_personaId n;
  nd_provider := provider; nd_model := nd_model n; nd_reasoningEffort := nd_reasoningEffort n;
  nd_executionStrategy := nd_executionStrategy n; nd_position := nd_position n; nd_kind := nd_kind n;
  nd_teamStrategy := nd_teamStrategy n; nd_teamProfileIds := nd_teamProfileIds n;
  nd_parentNodeId := nd_parentNodeId n; nd_depth := nd_depth n; nd_target := nd_target n;
  nd_permissionMode := nd_permissionMode n; nd_requiresValidation := nd_requiresValidation n |}.

Definition normaliseWorkflowNodes (nodes : list WorkflowNode) (fallback : string) : list WorkflowNode :=
  (λ n, set_provider (match nd_provider n with
                      | Some p => if one_of AGENT_PROVIDERS p then Some p else Some fallback
                      | None => Some fallback
                      end) n) <$> nodes.

(** A node under a ceiling; [codexMode] is the setting. *)
Definition cap_node (codexMode : option string) (maximum : string) (n : WorkflowNode) : WorkflowNode :=
  let requested := match nd_permissionMode n with
                   | Some m => m
                   | None => default "on-request" codexMode
                   end in
  set_permission (constrainPermissionMode requested maximum) n.

(** The ceiling, when there is one, applied to every node. *)
Definition apply_ceiling (codexMode ceiling : option string) (template : WorkflowTemplate) : WorkflowTemplate :=
  match truthy_text ceiling with
  | None => template
  | Some maximum =>
      {| tp_orchestration := tp_orchestration template; tp_name := tp_name template;
         tp_nodes := cap_node codexMode maximum <$> tp_nodes template; tp_edges := tp_edges template |}
  end.

(** The mode the agent of a node runs in: [accessMode] of [runCodexThread]. *)
Definition access_mode (codexMode mode : option string) : option string :=
  let setting := default "on-request" codexMode in
  constrainPermissionMode (default setting mode) setting.

(** What [startPreparedWorkflowRun] checks before it creates anything: the template as
    the run will have it. *)
Definition check_start (codexMode ceiling : option string) (workItem : option WorkItemRef) (kickoff : string)
    (saved : WorkflowTemplate) : outcome WorkflowTemplate :=
  if match workItem with Some ref => negb (valid_work_item ref) | None => false end
  then Throw (plain_error "Work Item reference requires an id, connection and supported provider.")
  else
    let template := apply_ceiling codexMode ceiling saved in
    if blank kickoff then Throw (plain_error "Tell the workflow what you want it to do.")
    else match validateWorkflowGraph (tp_nodes template) (tp_edges template) with
         | Throw e => Throw e
         | Ok _ => match validateWorkflowConfiguration template with Throw e => Throw e | Ok _ => Ok template end
         end.

(** The run it stores, as [getWorkflowRun] reads it back. *)
Definition new_run (template : WorkflowTemplate) : WorkflowRun := {|
  ru_nodes := normaliseWorkflowNodes (tp_nodes template) "codex"; ru_edges := tp_edges template;
  ru_nodeRuns := (λ n, queued_run (nd_id n)) <$> tp_nodes template;
  ru_status := run_queued; ru_error := None; ru_startedAt := None; ru_deadlineAt := None; ru_completedAt := None;
  ru_events := []; ru_orchestration := Some (orchestrationConfig (tp_orchestration template)) |}.
End Validation.
