(* ===== verification/WorkflowValidateProps.v ===== *)
(** * Desktop app: properties of workflow templates

    What validation accepts, that its search for cycles ends and is exact, and that an
    accepted template starts a run the scheduler's invariant holds of. *)

From stdpp Require Import base list strings relations.
From Stdlib Require Import ZArith Ascii Lia.
From S2P Require Import Prelude JsString JsValue WorkflowGraph WorkflowTeam WorkflowTeamProps WorkflowScheduler WorkflowSchedulerProps WorkflowCommands WorkflowSafety WorkflowCalm WorkflowLife WorkflowValidate.

(** ** The search for cycles *)

(** An edge from one step to another. *)
Definition linked (edges : list WorkflowEdge) (x y : string) : Prop :=
  ∃ e, e ∈ edges ∧ ed_source e = x ∧ ed_target e = y.

Definition cyclic (edges : list WorkflowEdge) : Prop := ∃ x, tc (linked edges) x x.

Lemma elem_of_outgoing edges x y : y ∈ outgoing edges x ↔ linked edges x y.
Proof.
  unfold outgoing, linked. rewrite list_elem_of_fmap. split.
  - intros (e & -> & He). apply list_elem_of_In, filter_In in He as [He Es]. apply String.eqb_eq in Es.
    exists e. by rewrite list_elem_of_In.
  - intros (e & He & <- & <-). exists e. split; [done|]. apply list_elem_of_In, filter_In.
    by rewrite <- list_elem_of_In, String.eqb_eq.
Qed.

(** Ids in the order their visits end, the latest first: every edge leads further down. *)
Inductive finished (edges : list WorkflowEdge) : list string → Prop :=
| finished_nil : finished edges []
| finished_cons x l :
    x ∉ l → finished edges l → (∀ y, linked edges x y → y ∈ l) → finished edges (x :: l).

Lemma finished_closed edges l x y : finished edges l → x ∈ l → linked edges x y → y ∈ l.
Proof.
  induction 1 as [|z l Hz _ IH Hsucc]; [by intros ?%elem_of_nil|].
  intros [->|Hx]%elem_of_cons Hl; right; auto.
Qed.

Lemma finished_rank edges l : finished edges l →
  ∃ rank : string → nat, (∀ x, x ∈ l → (rank x < length l)%nat) ∧
    ∀ x y, x ∈ l → linked edges x y → (rank y < rank x)%nat.
Proof.
  induction 1 as [|x l Hx Hfin (rank & Hlt & Hdown) Hsucc]; [by exists (λ _, 0%nat); split; [intros x ?%elem_of_nil|intros x y ?%elem_of_nil]|].
  exists (λ z, if String.eqb z x then length l else rank z).
  assert (∀ z, z ∈ l → (z =? x)%string = false) as Hne.
  { intros z Hz. apply String.eqb_neq. by intros ->. }
  split.
  - intros z [->|Hz]%elem_of_cons; cbn [length]; [rewrite String.eqb_refl; lia|].
    rewrite (Hne z Hz). specialize (Hlt z Hz). lia.
  - intros z y [->|Hz]%elem_of_cons Hl.
    + pose proof (Hsucc y Hl) as Hy. rewrite String.eqb_refl, (Hne y Hy). by apply Hlt.
    + rewrite (Hne z Hz), (Hne y (finished_closed _ _ _ _ Hfin Hz Hl)). by apply Hdown.
Qed.

Lemma rank_acyclic edges (rank : string → nat) :
  (∀ x y, linked edges x y → (rank y < rank x)%nat) → ¬ cyclic edges.
Proof.
  intros Hdown [x Hx].
  assert (∀ a b, tc (linked edges) a b → (rank b < rank a)%nat) as H; [|specialize (H x x Hx); lia].
  induction 1 as [a b Hab|a b c Hab _ IH]; [by apply Hdown|]. specialize (Hdown a b Hab). lia.
Qed.

Section Search.
Context (edges : list WorkflowEdge) (known : list string).
Context (Hknown : ∀ x y, linked edges x y → y ∈ known).

(** What holds of the visited ids while those of [visiting] are on the way. *)
Definition searched (visiting visited : list string) : Prop :=
  finished edges visited ∧ ∀ x, x ∈ visiting → x ∉ visited.

(** What a visit of [id] may end in. *)
Definition visit_good (visiting visited : list string) (id : string) (r : outcome (list string)) : Prop :=
  match r with
  | Ok visited' => searched visiting visited' ∧ visited ⊆ visited' ∧ id ∈ visited'
  | Throw e => e = cycle_error ∧ cyclic edges
  end.

Lemma visit_each_good visiting f targets : ∀ visited,
  (∀ t visited, t ∈ targets → searched visiting visited → visit_good visiting visited t (f t visited)) →
  searched visiting visited →
  match visit_each f targets visited with
  | Ok visited' => searched visiting visited' ∧ visited ⊆ visited' ∧ targets ⊆ visited'
  | Throw e => e = cycle_error ∧ cyclic edges
  end.
Proof using.
  clear Hknown. induction targets as [|t l IH]; intros visited Hf Hs; cbn [visit_each].
  { split; [done|]. split; [done|apply list_subseteq_nil]. }
  pose proof (Hf t visited (list_elem_of_here _ _) Hs) as Ht.
  destruct (f t visited) as [v1|e]; [|done]. destruct Ht as (Hs1 & Hsub1 & Hin1).
  assert (∀ t visited, t ∈ l → searched visiting visited → visit_good visiting visited t (f t visited)) as Hf'.
  { intros t' v' Ht'. apply Hf. by right. }
  specialize (IH v1 Hf' Hs1).
  destruct (visit_each f l v1) as [v2|e]; [|done]. destruct IH as (Hs2 & Hsub2 & Hin2).
  split; [done|]. split; [by transitivity v1|]. intros z [->|Hz]%elem_of_cons; auto.
Qed.

Lemma visit_spec fuel : ∀ visiting id visited,
  NoDup visiting → visiting ⊆ known → id ∈ known → (∀ v, v ∈ visiting → tc (linked edges) v id) →
  (length known <= length visiting + fuel)%nat → searched visiting visited →
  visit_good visiting visited id (visit edges fuel visiting id visited).
Proof using Hknown.
  induction fuel as [|fuel IH]; intros visiting id visited Hnd Hsub Hid Hpath Hlen Hs; cbn [visit];
    (destruct (one_of visiting id) eqn:Eo;
      [apply one_of_spec in Eo; split; [done|exists id; by apply Hpath]|apply not_one_of in Eo]);
    (destruct (one_of visited id) eqn:Ev;
      [apply one_of_spec in Ev; by split|apply not_one_of in Ev]).
  - exfalso. assert (length (id :: visiting) <= length known)%nat as Hle; [|cbn in Hle; lia].
    apply NoDup_incl_length; [by apply NoDup_ListNoDup, NoDup_cons|].
    intros z Hz%list_elem_of_In. apply list_elem_of_In. apply elem_of_cons in Hz as [->|Hz]; [done|by apply Hsub].
  - assert (∀ t v, t ∈ outgoing edges id → searched (id :: visiting) v →
      visit_good (id :: visiting) v t (visit edges fuel (id :: visiting) t v)) as Hf.
    { intros t v Ht%elem_of_outgoing Hsv. apply IH; [by apply NoDup_cons| |by eapply Hknown| |cbn; lia|done].
      - intros z [->|Hz]%elem_of_cons; [done|by apply Hsub].
      - intros z [->|Hz]%elem_of_cons; [by apply tc_once|]. eapply tc_r; [by apply Hpath|done]. }
    assert (searched (id :: visiting) visited) as Hs'.
    { destruct Hs as [Hfin Hdis]. split; [done|]. intros z [->|Hz]%elem_of_cons; auto. }
    pose proof (visit_each_good _ _ _ visited Hf Hs') as He.
    destruct (visit_each _ _ visited) as [v|e]; [|done]. destruct He as ([Hfin Hdis] & Hsub' & Hall).
    split; [|split; [intros z Hz; right; auto|left]]. split.
    + constructor; [apply Hdis; left|done|]. intros y Hy. by apply Hall, elem_of_outgoing.
    + intros z Hz [->|Hzv]%elem_of_cons; [done|]. apply (Hdis z); [by right|done].
Qed.

(** Visiting every step ends, in the order of an acyclic graph or in the cycle error. *)
Lemma visit_all_spec :
  match visit_each (visit edges (length known) []) known [] with
  | Ok l => finished edges l ∧ known ⊆ l
  | Throw e => e = cycle_error ∧ cyclic edges
  end.
Proof using Hknown.
  assert (∀ t v, t ∈ known → searched [] v → visit_good [] v t (visit edges (length known) [] t v)) as Hf.
  { intros t v Ht Hs. apply visit_spec; try done; [constructor|apply list_subseteq_nil|by intros ? ?%elem_of_nil]. }
  assert (searched [] []) as Hs by (split; [constructor|by intros x ?%elem_of_nil]).
  pose proof (visit_each_good [] _ _ [] Hf Hs) as H.
  destruct (visit_each _ known []) as [l|e]; [|done]. by destruct H as ([Hfin _] & _ & Hall).
Qed.
End Search.

(** ** What is accepted *)

Section Accepted.
Context (persona_known : string → bool).

Record node_valid (n : WorkflowNode) : Prop := {
  nv_id : blank (nd_id n) = false;
  nv_name : blank (nd_name n) = false;
  nv_prompt : blank (nd_prompt n) = false;
  nv_model : blank (nd_model n) = false;
  nv_provider : ∀ p, nd_provider n = Some p → p = "" ∨ p ∈ AGENT_PROVIDERS;
  nv_persona : persona_known (nd_personaId n) = true;
  nv_target : target_ok (provider_of n) (nd_target n);
  nv_validation : nd_requiresValidation n = true →
    is_local (nd_target n) = true ∧ nd_provider n ∉ [Some "cursor"; Some "devin"];
  nv_autonomous : nd_teamStrategy n = Some "autonomous" → is_local (nd_target n) = true;
}.

Record edge_valid (ids : list string) (e : WorkflowEdge) : Prop := {
  vd_id : ed_id e ≠ "";
  vd_source : ed_source e ∈ ids;
  vd_target : ed_target e ∈ ids;
  vd_loop : ed_source e ≠ ed_target e;
}.

Definition ends (e : WorkflowEdge) : string * string := (ed_source e, ed_target e).

(** A graph that validation accepts, cycles apart. *)
Record graph_valid (nodes : list WorkflowNode) (edges : list WorkflowEdge) : Prop := {
  gv_some : nodes ≠ [];
  gv_nodes : Forall node_valid nodes;
  gv_ids : NoDup (nd_id <$> nodes);
  gv_edges : Forall (edge_valid (nd_id <$> nodes)) edges;
  gv_edge_ids : NoDup (ed_id <$> edges);
  gv_ends : NoDup (ends <$> edges);
}.

Lemma truthy_known l (x : option string) :
  match truthy_text x with Some p => negb (one_of l p) | None => false end = false ↔
  ∀ p, x = Some p → p = "" ∨ p ∈ l.
Proof.
  destruct x as [p|]; cbn [truthy_text]; [|done].
  destruct (String.eqb_spec p "") as [->|Hp]; [split; [intros _ q [= <-]; by left|done]|].
  rewrite negb_false_iff, one_of_spec. split; [intros H q [= <-]; by right|].
  intros H. by destruct (H p eq_refl).
Qed.

Lemma acp_spec x : isAcpAgentProvider x = true ↔ x ∈ [Some "cursor"; Some "devin"].
Proof.
  rewrite !elem_of_cons, elem_of_nil. destruct x as [p|]; [|by split; [|intros [?|[?|?]]]].
  cbn [isAcpAgentProvider]. rewrite one_of_spec, !elem_of_cons, elem_of_nil.
  split; intros [E|[E|E]]; try done; [left|right; left|left|right; left]; congruence.
Qed.

Lemma validate_node_spec ids n : validate_node persona_known ids n = Ok tt ↔ node_valid n ∧ nd_id n ∉ ids.
Proof.
  unfold validate_node.
  destruct (blank (nd_id n)) eqn:E1; [by split; [|intros [[] _]; congruence]|].
  destruct (one_of ids (nd_id n)) eqn:E2; [apply one_of_spec in E2; by split; [|intros [_ ?]]|].
  apply not_one_of in E2.
  destruct (blank (nd_name n)) eqn:E3; [by split; [|intros [[] _]; congruence]|].
  destruct (blank (nd_prompt n)) eqn:E4; [by split; [|intros [[] _]; congruence]|].
  destruct (blank (nd_model n)) eqn:E5; [by split; [|intros [[] _]; congruence]|].
  pose proof (truthy_known AGENT_PROVIDERS (nd_provider n)) as Hp.
  destruct (match truthy_text (nd_provider n) with Some p => _ | None => false end).
  { split; [done|]. intros [[] _]. by assert (true = false) by by apply Hp. }
  pose proof (proj1 Hp eq_refl) as Hp'. clear Hp.
  destruct (persona_known (nd_personaId n)) eqn:E6; cbn [negb]; [|by split; [|intros [[] _]; congruence]].
  destruct (validateWorkflowTarget _ _ _) as [[]|e] eqn:Et.
  2:{ split; [done|]. intros [[] _]. by rewrite (proj2 (target_spec _ _ _)) in Et. }
  apply target_spec in Et. pose proof (acp_spec (nd_provider n)) as Hacp.
  destruct (nd_requiresValidation n && _) eqn:Ev.
  { split; [done|]. intros [[] _]. apply andb_true_iff in Ev as [Er Eo].
    destruct (nv_validation0 Er) as [El Hn]. rewrite El, orb_false_r in Eo. by apply Hacp in Eo. }
  destruct (negb (is_local (nd_target n)) && _) eqn:Ea.
  { split; [done|]. intros [[] _]. apply andb_true_iff in Ea as [El Es]. apply bool_decide_eq_true in Es.
    rewrite nv_autonomous0 in El by done. done. }
  split; [|done]. intros _. split; [|done]. split; try done.
  - intros Er. rewrite Er in Ev. cbn in Ev. apply orb_false_iff in Ev as [Ec El%negb_false_iff].
    split; [done|]. intros H. apply Hacp in H. congruence.
  - intros Es. destruct (is_local (nd_target n)); [done|]. cbn in Ea. by apply bool_decide_eq_false in Ea.
Qed.

Lemma validate_nodes_spec nodes : ∀ ids,
  validate_nodes persona_known ids nodes = Ok tt ↔
  Forall node_valid nodes ∧ NoDup (nd_id <$> nodes) ∧ ∀ n, n ∈ nodes → nd_id n ∉ ids.
Proof.
  induction nodes as [|n l IH]; intros ids; cbn [validate_nodes].
  { split; [|done]. intros _. split; [done|]. split; [constructor|]. by intros n ?%elem_of_nil. }
  rewrite Forall_cons, fmap_cons, NoDup_cons. pose proof (validate_node_spec ids n) as Hn.
  destruct (validate_node persona_known ids n) as [[]|e].
  2:{ split; [done|]. intros ([Hv _] & _ & Hd). enough (@Throw unit e = Ok tt) by done.
      apply Hn. split; [done|]. apply Hd. left. }
  destruct (proj1 Hn eq_refl) as [Hv Hid]. rewrite IH. split.
  - intros (Hall & Hnd & Hd). split; [done|]. split.
    + split; [|done]. intros (m & Em & Hm)%list_elem_of_fmap. apply (Hd m Hm). rewrite Em. left.
    + intros m [->|Hm]%elem_of_cons; [done|]. intros Hin. apply (Hd m Hm). by right.
  - intros ([_ Hall] & [Hnin Hnd] & Hd). split; [done|]. split; [done|].
    intros m Hm [E|Hin]%elem_of_cons; [|by apply (Hd m); [right|]].
    apply Hnin. rewrite <- E. by apply list_elem_of_fmap_2.
Qed.

Lemma validate_edge_spec ids edgeIds connections e :
  validate_edge ids edgeIds connections e = Ok tt ↔
  edge_valid ids e ∧ (ed_id e ∉ edgeIds) ∧ ends e ∉ connections.
Proof.
  unfold validate_edge. fold (ends e).
  destruct (String.eqb_spec (ed_id e) "") as [|E1]; [by split; [|intros [[] _]]|].
  destruct (one_of edgeIds (ed_id e)) eqn:E2; [apply one_of_spec in E2; by split; [|intros (_ & ? & _)]|].
  apply not_one_of in E2.
  destruct (bool_decide_reflect (ends e ∈ connections)) as [|E3]; [by split; [|intros (_ & _ & ?)]|].
  destruct (one_of ids (ed_source e)) eqn:E4; [apply one_of_spec in E4|apply not_one_of in E4; by split; [|intros [[] _]]].
  destruct (one_of ids (ed_target e)) eqn:E5; [apply one_of_spec in E5|apply not_one_of in E5; by split; [|intros [[] _]]].
  cbn. destruct (String.eqb_spec (ed_source e) (ed_target e)); [by split; [|intros [[] _]]|].
  by repeat split.
Qed.

Lemma validate_edges_spec ids edges : ∀ edgeIds connections,
  validate_edges ids edgeIds connections edges = Ok tt ↔
  Forall (edge_valid ids) edges ∧ NoDup (ed_id <$> edges) ∧ NoDup (ends <$> edges) ∧
  ∀ e, e ∈ edges → (ed_id e ∉ edgeIds) ∧ ends e ∉ connections.
Proof.
  induction edges as [|e l IH]; intros edgeIds connections; cbn [validate_edges].
  { split; [|done]. intros _. split; [done|]. split; [constructor|]. split; [constructor|]. by intros e ?%elem_of_nil. }
  rewrite Forall_cons, !fmap_cons, !NoDup_cons. pose proof (validate_edge_spec ids edgeIds connections e) as He.
  destruct (validate_edge ids edgeIds connections e) as [[]|x].
  2:{ split; [done|]. intros ([Hv _] & _ & _ & Hd). enough (@Throw unit x = Ok tt) by done.
      apply He. destruct (Hd e); [left|done]. }
  destruct (proj1 He eq_refl) as (Hv & Hid & Hc). rewrite IH. fold (ends e). split.
  - intros (Hall & Hnd & Hnc & Hd). split; [done|]. split.
    { split; [|done]. intros (m & Em & Hm)%list_elem_of_fmap. apply (proj1 (Hd m Hm)). rewrite Em. left. }
    split.
    { split; [|done]. intros (m & Em & Hm)%list_elem_of_fmap. apply (proj2 (Hd m Hm)). rewrite Em. left. }
    intros m [->|Hm]%elem_of_cons; [done|]. destruct (Hd m Hm) as [H1 H2]. by split; intros ?; [apply H1|apply H2]; right.
  - intros ([_ Hall] & [Hn1 Hnd] & [Hn2 Hnc] & Hd). split; [done|]. split; [done|]. split; [done|].
    intros m Hm. destruct (Hd m) as [H1 H2]; [by right|]. split.
    + intros [E|?]%elem_of_cons; [|done]. apply Hn1. rewrite <- E. by apply list_elem_of_fmap_2.
    + intros [E|?]%elem_of_cons; [|done]. apply Hn2. rewrite <- E. by apply (list_elem_of_fmap_2 ends).
Qed.

(** The search, once nodes and edges are valid. *)
Lemma validate_acyclic_spec nodes edges : Forall (edge_valid (nd_id <$> nodes)) edges →
  match validate_acyclic nodes edges with
  | Ok l => finished edges l ∧ (nd_id <$> nodes) ⊆ l
  | Throw e => e = cycle_error ∧ cyclic edges
  end.
Proof.
  intros He. unfold validate_acyclic. rewrite <- (length_fmap nd_id nodes). apply visit_all_spec.
  intros x y (e & Hin & _ & <-). rewrite Forall_forall in He. by destruct (He e Hin).
Qed.

Lemma finished_acyclic ids edges l :
  Forall (edge_valid ids) edges → finished edges l → ids ⊆ l →
  ∃ rank : string → nat, ∀ x y, linked edges x y → (rank y < rank x)%nat.
Proof.
  intros He Hfin Hsub. destruct (finished_rank _ _ Hfin) as (rank & _ & Hdown). exists rank.
  intros x y Hl. pose proof Hl as (e & Hin & <- & _). apply Hdown; [|done]. apply Hsub.
  rewrite Forall_forall in He. by destruct (He e Hin).
Qed.

Lemma validateWorkflowGraph_spec nodes edges :
  match validateWorkflowGraph persona_known nodes edges with
  | Ok _ => graph_valid nodes edges ∧ ¬ cyclic edges
  | Throw e => ¬ graph_valid nodes edges ∨ e = cycle_error ∧ cyclic edges
  end.
Proof.
  unfold validateWorkflowGraph. destruct nodes as [|n0 nodes0]; [left; by intros []|].
  set (nodes := n0 :: nodes0). pose proof (validate_nodes_spec nodes []) as Hn.
  destruct (validate_nodes persona_known [] nodes) as [[]|e].
  2:{ left. intros []. enough (@Throw unit e = Ok tt) by done. apply Hn.
      split; [done|]. split; [done|]. by intros m _ ?%elem_of_nil. }
  destruct (proj1 Hn eq_refl) as (Hv & Hids & _). pose proof (validate_edges_spec (nd_id <$> nodes) edges [] []) as He.
  destruct (validate_edges (nd_id <$> nodes) [] [] edges) as [[]|e].
  2:{ left. intros []. enough (@Throw unit e = Ok tt) by done. apply He.
      split; [done|]. split; [done|]. split; [done|]. by split; intros ?%elem_of_nil. }
  destruct (proj1 He eq_refl) as (Hev & Hei & Hee & _). pose proof (validate_acyclic_spec nodes edges Hev) as Ha.
  destruct (validate_acyclic nodes edges) as [l|e]; [|by right]. destruct Ha as [Hfin Hsub].
  split; [by split|]. destruct (finished_acyclic _ _ _ Hev Hfin Hsub) as [rank Hr]. by eapply rank_acyclic.
Qed.

(** ** Configurations *)

Record team_valid (config : WorkflowOrchestration) (n : WorkflowNode) : Prop := {
  tv_strategy : ∀ s, nd_teamStrategy n = Some s → s = "" ∨ s ∈ TEAM_STRATEGIES;
  tv_kind : ∀ k, nd_kind n = Some k → k = "" ∨ k ∈ ["agent"; "human"];
  tv_members : ∀ ids id, nd_teamProfileIds n = Some ids → id ∈ ids →
    Some id ∈ (pf_id <$> oc_profiles config);
  tv_team : ∀ s, nd_teamStrategy n = Some s → s ∈ ["map-reduce"; "review"; "debate"] →
    ∃ id ids, nd_teamProfileIds n = Some (id :: ids);
  tv_pool : nd_teamStrategy n = Some "autonomous" → oc_profiles config ≠ [];
}.

Lemma members_spec (profiles : list WorkflowAgentProfile) (ids : option (list string)) :
  existsb (λ id, negb (existsb (profile_is id) profiles)) (default [] ids) = false ↔
  ∀ l id, ids = Some l → id ∈ l → Some id ∈ (pf_id <$> profiles).
Proof.
  assert (∀ id, existsb (profile_is id) profiles = true ↔ Some id ∈ (pf_id <$> profiles)) as Hp.
  { intros id. rewrite existsb_exists, list_elem_of_fmap. unfold profile_is.
    setoid_rewrite bool_decide_eq_true. setoid_rewrite list_elem_of_In. naive_solver. }
  rewrite (existsb_negb _ (λ id, Some id ∈ (pf_id <$> profiles))), Forall_forall.
  2:{ intros id. by rewrite negb_false_iff. }
  destruct ids as [l|]; cbn; [|by split; [|intros _ id ?%elem_of_nil]].
  split; [by intros H k id [= <-]; apply H|]. intros H id. by apply H.
Qed.

Lemma no_items_spec ids : no_items ids = false ↔ ∃ id l, ids = Some (id :: l).
Proof. destruct ids as [[|id l]|]; cbn; [by split; [|intros (? & ? & ?)]|by split; eauto|by split; [|intros (? & ? & ?)]]. Qed.

Lemma validate_team_spec config n : validate_team config n = Ok tt ↔ team_valid config n.
Proof.
  unfold validate_team.
  pose proof (truthy_known TEAM_STRATEGIES (nd_teamStrategy n)) as Hs.
  destruct (match truthy_text (nd_teamStrategy n) with Some p => _ | None => false end).
  { split; [done|]. intros []. by assert (true = false) by by apply Hs. }
  pose proof (proj1 Hs eq_refl) as Hs'. clear Hs.
  pose proof (truthy_known ["agent"; "human"] (nd_kind n)) as Hk.
  destruct (match truthy_text (nd_kind n) with Some p => _ | None => false end).
  { split; [done|]. intros []. by assert (true = false) by by apply Hk. }
  pose proof (proj1 Hk eq_refl) as Hk'. clear Hk.
  pose proof (members_spec (oc_profiles config) (nd_teamProfileIds n)) as Hm.
  destruct (existsb _ _); [split; [done|]; intros []; by assert (true = false) by by apply Hm|].
  pose proof (proj1 Hm eq_refl) as Hm'. clear Hm.
  destruct (one_of _ _ && no_items _) eqn:Et.
  { split; [done|]. intros []. apply andb_true_iff in Et as [Eo En]. apply one_of_spec in Eo.
    destruct (nd_teamStrategy n) as [s|]; [|by apply one_of_spec in Eo].
    by rewrite (proj2 (no_items_spec _) (tv_team0 s eq_refl Eo)) in En. }
  destruct (bool_decide (nd_teamStrategy n = Some "autonomous") && _) eqn:Ea.
  { split; [done|]. intros []. apply andb_true_iff in Ea as [Es%bool_decide_eq_true Ep].
    destruct (oc_profiles config); [|done]. by destruct (tv_pool0 Es). }
  split; [|done]. intros _. split; try done.
  - intros s Es Hin. apply no_items_spec. rewrite Es in Et. change (default "" (Some s)) with s in Et.
    apply one_of_spec in Hin. by rewrite Hin in Et.
  - intros Es Ep. rewrite Ep, bool_decide_eq_true_2 in Ea; done.
Qed.

Lemma each_spec {A} (check : A → outcome unit) l : each check l = Ok tt ↔ Forall (λ x, check x = Ok tt) l.
Proof.
  induction l as [|x l IH]; cbn [each]; [done|]. rewrite Forall_cons, <- IH.
  destruct (check x) as [[]|e]; [by split; [|intros [_ ?]]|by split; [|intros [? _]]].
Qed.

(** A configuration within its bounds, of specialists that can be run. *)
Record orchestration_valid (c : WorkflowOrchestration) : Prop := {
  ov_limits : limits_ok c;
  ov_timeout : int_in 1 1440 (oc_timeoutMinutes c);
  ov_handoff : int_in 1000 100000 (oc_handoffChars c);
  ov_count : (length (oc_profiles c) <= 32)%nat;
  ov_ids : NoDup (profile_id <$> oc_profiles c);
  ov_profiles : Forall profile_ok (oc_profiles c);
}.

Lemma validateOrchestration_spec value :
  validateOrchestration value = Ok tt ↔ orchestration_valid (orchestrationConfig value).
Proof.
  rewrite validateOrchestration_exact. split.
  - intros ((H1 & H2 & H3 & H4 & H5 & H6) & Hl & Hi & Hp). by repeat split.
  - intros [[H1 H2 H3 H4] H5 H6 Hl Hi Hp]. done.
Qed.

Lemma validate_persona_spec p : says_something (pf_personaId p) →
  validate_persona persona_known p = Ok tt ↔ persona_known (default "" (pf_personaId p)) = true.
Proof. intros (id & E & _). unfold validate_persona. rewrite E. cbn. by destruct (persona_known id). Qed.

Record config_valid (template : WorkflowTemplate) : Prop := {
  cv_orchestration : orchestration_valid (orchestrationConfig (tp_orchestration template));
  cv_size : Z.of_nat (length (tp_nodes template)) <= limit (oc_maxNodes (orchestrationConfig (tp_orchestration template)));
  cv_personas : Forall (λ p, persona_known (default "" (pf_personaId p)) = true)
                  (oc_profiles (orchestrationConfig (tp_orchestration template)));
  cv_teams : Forall (team_valid (orchestrationConfig (tp_orchestration template))) (tp_nodes template);
}.

Lemma validateWorkflowConfiguration_spec template :
  validateWorkflowConfiguration persona_known template = Ok tt ↔ config_valid template.
Proof.
  unfold validateWorkflowConfiguration. pose proof (validateOrchestration_spec (tp_orchestration template)) as Ho.
  destruct (validateOrchestration _) as [[]|e].
  2:{ split; [done|]. intros []. enough (@Throw unit e = Ok tt) by done. by apply Ho. }
  pose proof (proj1 Ho eq_refl) as Hov. clear Ho. set (c := orchestrationConfig _) in *.
  pose proof (limit_spec _ _ _ (lo_nodes _ (ov_limits _ Hov))) as (_ & _ & ->).
  destruct (Z.ltb_spec (limit (oc_maxNodes c)) (Z.of_nat (length (tp_nodes template)))) as [Hl|Hl].
  { split; [done|]. intros [_ Hs _ _]. fold c in Hs. lia. }
  assert (each (validate_persona persona_known) (oc_profiles c) = Ok tt ↔
    Forall (λ p, persona_known (default "" (pf_personaId p)) = true) (oc_profiles c)) as Hp.
  { rewrite each_spec. pose proof (ov_profiles _ Hov) as Hall. rewrite !Forall_forall in *.
    split; intros H p Hin; apply (validate_persona_spec p (po_persona _ (Hall p Hin))); auto. }
  destruct (each _ (oc_profiles c)) as [[]|e].
  2:{ split; [done|]. intros [_ _ Hps _]. enough (@Throw unit e = Ok tt) by done. by apply Hp. }
  rewrite each_spec. pose proof (proj1 Hp eq_refl) as Hps. split.
  - intros Ht. split; [done|done|done|]. eapply Forall_impl; [exact Ht|]. intros n. apply validate_team_spec.
  - intros [_ _ _ Ht]. eapply Forall_impl; [exact Ht|]. intros n. apply validate_team_spec.
Qed.
End Accepted.

(** ** The run it starts *)

Lemma normalised_ids nodes fallback : nd_id <$> normaliseWorkflowNodes nodes fallback = nd_id <$> nodes.
Proof. unfold normaliseWorkflowNodes. rewrite <- list_fmap_compose. by apply list_fmap_ext. Qed.

Lemma normalised_depths nodes fallback (P : option Z → Prop) :
  Forall (λ n, P (nd_depth n)) nodes → Forall (λ n, P (nd_depth n)) (normaliseWorkflowNodes nodes fallback).
Proof. intros H. unfold normaliseWorkflowNodes. rewrite Forall_fmap. eapply Forall_impl; [exact H|]. by intros n. Qed.

Section Start.
Context {W : Type} (host : SchedulerHost W) `{!FreshIds host} (persona_known : string → bool).

Lemma new_run_start (t : WorkflowTemplate) (w : W) :
  let config := orchestrationConfig (tp_orchestration t) in
  graph_valid persona_known (tp_nodes t) (tp_edges t) → ¬ cyclic (tp_edges t) →
  config_valid persona_known t →
  Forall (used w) (nd_id <$> tp_nodes t) →
  Forall (λ n, default 0 (nd_depth n) <= limit (oc_maxDepth config)) (tp_nodes t) →
  start_ok host config (MkSF (new_run t) w).
Proof.
  intros config [_ _ Hids Hedges _ _] Hcyc [[Hlim _ _ _ _ _] Hsize _ _] Hused Hdepth.
  assert (ids_of (new_run t) = nd_id <$> tp_nodes t) as Ei by apply normalised_ids.
  split; cbn [sf_run sf_ext]; [|by rewrite Ei|].
  - split; rewrite ?Ei; try done.
    + cbn. by rewrite <- list_fmap_compose.
    + pose proof (validate_acyclic_spec (tp_nodes t) (tp_edges t) Hedges) as Ha.
      destruct (validate_acyclic _ _) as [l|e]; [|by destruct Ha]. destruct Ha as [Hfin Hsub].
      destruct (finished_rank _ _ Hfin) as (rank & Hlt & Hdown).
      exists (λ x, length l - rank x)%nat. intros e He. rewrite Ei.
      pose proof Hedges as Hall. rewrite Forall_forall in Hall. destruct (Hall e He) as [_ Hs Ht _].
      split; [done|]. split; [done|].
      pose proof (Hdown (ed_source e) (ed_target e) (Hsub _ Hs) ltac:(by exists e)).
      pose proof (Hlt (ed_source e) (Hsub _ Hs)). pose proof (Hlt (ed_target e) (Hsub _ Ht)). lia.
    + cbn. rewrite Forall_fmap, Forall_forall. intros n _. pose proof (limit_spec _ _ _ (lo_attempts _ Hlim)) as (? & _).
      split; cbn [compose queued_run ns_attempts ns_delegationCount length]; unfold config; lia.
    + cbn. unfold normaliseWorkflowNodes. by rewrite length_fmap.
    + cbn. by apply (normalised_depths _ _ (λ d, default 0 d <= limit (oc_maxDepth config))).
  - intros id. unfold status_at, find_run. cbn. clear. induction (tp_nodes t) as [|n l IH]; cbn; [done|].
    by destruct (String.eqb (nd_id n) id).
Qed.
End Start.

Lemma ceiling_nodes codexMode ceiling t (P : string → option Z → Prop) :
  Forall (λ n, P (nd_id n) (nd_depth n)) (tp_nodes t) →
  Forall (λ n, P (nd_id n) (nd_depth n)) (tp_nodes (apply_ceiling codexMode ceiling t)).
Proof.
  intros H. unfold apply_ceiling. destruct (truthy_text ceiling) as [m|]; [|done].
  cbn. rewrite Forall_fmap. eapply Forall_impl; [exact H|]. by intros n.
Qed.

Lemma ceiling_orchestration codexMode ceiling t :
  tp_orchestration (apply_ceiling codexMode ceiling t) = tp_orchestration t.
Proof. unfold apply_ceiling. by destruct (truthy_text ceiling). Qed.

(** The level of a mode among [PERMISSION_MODES]. *)
Definition level (mode : string) : Z := indexOf mode PERMISSION_MODES.

Lemma index_from_absent x l : ∀ i, x ∉ l → index_from i x l = -1.
Proof.
  induction l as [|y l IH]; intros i Hx; [done|]. apply not_elem_of_cons in Hx as [Hne Hx]. cbn.
  destruct (String.eqb_spec y x); [by subst|by apply IH].
Qed.

Lemma constrain_unknown a b : a ∉ PERMISSION_MODES → constrainPermissionMode a b = None.
Proof.
  intros Ha. unfold constrainPermissionMode, indexOf at 1. rewrite index_from_absent by done.
  unfold at_index. by rewrite (proj2 (Z.ltb_lt (Z.min (-1) _) 0)) by lia.
Qed.

(** Both sides known: the lower mode. *)
Lemma constrain_known a b : a ∈ PERMISSION_MODES → b ∈ PERMISSION_MODES →
  ∃ m, constrainPermissionMode a b = Some m ∧ m ∈ PERMISSION_MODES ∧ level m = Z.min (level a) (level b).
Proof.
  intros Ha Hb. unfold PERMISSION_MODES in Ha, Hb. set_unfold in Ha. set_unfold in Hb.
  destruct Ha as [->|[->|[->|[->|[]]]]], Hb as [->|[->|[->|[->|[]]]]];
    (eexists; split; [by vm_compute|]; split; [apply one_of_spec|]; by vm_compute).
Qed.

(** ** The theorems *)

(** C30: [validateWorkflowGraph] ends on every graph.  It accepts exactly the graphs with at
    least one step, steps of distinct ids that each name an instruction, a model, a known
    persona and provider and a target the step can run on, and edges of distinct ids and
    ends between distinct known steps, that have no cycle; a graph at fault for a cycle
    only is refused with the cycle error. *)
Theorem validateWorkflowGraph_exact persona_known nodes edges :
  (validateWorkflowGraph persona_known nodes edges = Ok tt ↔
   graph_valid persona_known nodes edges ∧ ¬ cyclic edges) ∧
  (graph_valid persona_known nodes edges → cyclic edges →
   validateWorkflowGraph persona_known nodes edges = Throw cycle_error).
Proof.
  pose proof (validateWorkflowGraph_spec persona_known nodes edges) as H.
  destruct (validateWorkflowGraph _ _ _) as [[]|e]; [by split; [|intros _ ?; destruct H]|].
  split; [split; [done|intros [Hv Hc]; by destruct H as [?|[_ ?]]]|].
  intros Hv _. by destruct H as [?|[-> _]].
Qed.

(** [validateWorkflowConfiguration] accepts exactly the templates whose orchestration
    keeps its six limits and has at most 32 distinct, complete specialists of known
    personas, with no more steps than the node limit, where every step's strategy and kind
    are known, its specialists are in the pool, a fixed team is not empty, and autonomous
    delegation has a pool. *)
Theorem validateWorkflowConfiguration_exact persona_known template :
  validateWorkflowConfiguration persona_known template = Ok tt ↔ config_valid persona_known template.
Proof. apply validateWorkflowConfiguration_spec. Qed.

(** A template that passes the checks of [startPreparedWorkflowRun] starts a run on
    which the scheduler's invariant holds, so that everything proved of reachable states
    applies to it: limits within their ranges, one queued node run for each step of the
    saved template and an acyclic graph between them. *)
Theorem checked_run_starts {W} (host : SchedulerHost W) `{!FreshIds host} persona_known codexMode ceiling
    workItem kickoff saved t (w : W) :
  let config := orchestrationConfig (tp_orchestration saved) in
  check_start persona_known codexMode ceiling workItem kickoff saved = Ok t →
  Forall (λ n, used w (nd_id n) ∧ default 0 (nd_depth n) <= limit (oc_maxDepth config)) (tp_nodes saved) →
  limits_ok config ∧ start_ok host config (MkSF (new_run t) w).
Proof.
  intros config Hcheck Hnodes. unfold check_start in Hcheck.
  destruct (match workItem with Some _ => _ | None => _ end); [done|].
  set (t' := apply_ceiling codexMode ceiling saved) in *. destruct (blank kickoff); [done|].
  pose proof (validateWorkflowGraph_spec persona_known (tp_nodes t') (tp_edges t')) as Hg.
  destruct (validateWorkflowGraph _ _ _) as [[]|e]; [|done]. destruct Hg as [Hg Hcyc].
  destruct (validateWorkflowConfiguration persona_known t') as [[]|e] eqn:Ec; [|done]. injection Hcheck as <-.
  apply validateWorkflowConfiguration_spec in Ec.
  assert (orchestrationConfig (tp_orchestration t') = config) as Econf by (unfold t'; by rewrite ceiling_orchestration).
  apply (ceiling_nodes codexMode ceiling saved (λ i d, used w i ∧ default 0 d <= limit (oc_maxDepth config))) in Hnodes.
  fold t' in Hnodes. apply Forall_and in Hnodes as [Hused Hdepth].
  rewrite <- Econf. split; [apply (cv_orchestration _ _ Ec)|].
  apply (new_run_start host persona_known t' w); try done; [by rewrite Forall_fmap|by rewrite Econf].
Qed.

(** C31: A permission ceiling bounds the mode a step's agent runs in: it is the least of the
    mode asked for, the ceiling and the setting.  Only a mode that is none of the four
    escapes it: the step then runs in the setting, whatever the ceiling. *)
Theorem permission_ceiling codexMode maximum n :
  let setting := default "on-request" codexMode in
  let requested := default setting (nd_permissionMode n) in
  setting ∈ PERMISSION_MODES → maximum ∈ PERMISSION_MODES →
  ∃ mode, access_mode codexMode (nd_permissionMode (cap_node codexMode maximum n)) = Some mode ∧
    mode ∈ PERMISSION_MODES ∧
    level mode = if decide (requested ∈ PERMISSION_MODES)
                 then Z.min (Z.min (level requested) (level maximum)) (level setting)
                 else level setting.
Proof.
  intros setting requested Hs Hm. unfold access_mode, cap_node. fold setting. cbn [nd_permissionMode set_permission].
  assert (match nd_permissionMode n with Some m => m | None => setting end = requested) as ->
    by by unfold requested; destruct (nd_permissionMode n).
  destruct (decide (requested ∈ PERMISSION_MODES)) as [Hr|Hr].
  - destruct (constrain_known _ _ Hr Hm) as (m & -> & Hin & <-). by apply constrain_known.
  - rewrite (constrain_unknown requested) by done. cbn [default]. destruct (constrain_known _ _ Hs Hs) as (m & E & Hin & El).
    exists m. split; [done|]. split; [done|]. rewrite El. apply Z.min_id.
Qed.

(** ** Concrete templates *)

Definition demo_template : WorkflowTemplate := {|
  tp_orchestration := Some demo_config; tp_name := "Build and review";
  tp_nodes := [demo_node "plan" None; demo_node "build" (Some "autonomous"); demo_node "review" None];
  tp_edges := [demo_edge "plan" "review"; demo_edge "build" "review"] |}.

Definition demo_personas (id : string) : bool := one_of ["coder"] id.

Example demo_template_accepted :
  validateWorkflowGraph demo_personas (tp_nodes demo_template) (tp_edges demo_template) = Ok tt ∧
  validateWorkflowConfiguration demo_personas demo_template = Ok tt ∧
  validateWorkflowGraph demo_personas (tp_nodes demo_template)
    (demo_edge "plan" "build" :: tp_edges demo_template) = Ok tt.
Proof. split; [|split]; by vm_compute. Qed.

Definition demo_checked : WorkflowTemplate := apply_ceiling (Some "full-access") (Some "read-only") demo_template.

Lemma checked_run_starts_witness :
  check_start demo_personas (Some "full-access") (Some "read-only") None "Ship it" demo_template = Ok demo_checked ∧
  limits_ok demo_config ∧ start_ok demo_host demo_config (MkSF (new_run demo_checked) 0%N).
Proof.
  assert (check_start demo_personas (Some "full-access") (Some "read-only") None "Ship it" demo_template =
    Ok demo_checked) as E by by vm_compute.
  split; [exact E|].
  apply (checked_run_starts demo_host demo_personas (Some "full-access") (Some "read-only") None "Ship it"
           demo_template demo_checked 0%N E).
  cbn. repeat constructor; try (by vm_compute); by apply demo_used.
Defined.

Lemma permission_ceiling_witness :
  ∃ mode, access_mode (Some "full-access")
      (nd_permissionMode (cap_node (Some "full-access") "read-only" (set_permission (Some "admin") (demo_node "plan" None))))
      = Some mode ∧ mode ∈ PERMISSION_MODES ∧ level mode = 3.
Proof.
  refine (permission_ceiling (Some "full-access") "read-only" (set_permission (Some "admin") (demo_node "plan" None)) _ _);
    apply one_of_spec; by vm_compute.
Defined.

Definition looped : list WorkflowEdge := demo_edge "review" "plan" :: tp_edges demo_template.

Lemma looped_valid : graph_valid demo_personas (tp_nodes demo_template) looped.
Proof.
  assert (validate_nodes demo_personas [] (tp_nodes demo_template) = Ok tt) as Hn by by vm_compute.
  assert (validate_edges (nd_id <$> tp_nodes demo_template) [] [] looped = Ok tt) as He by by vm_compute.
  apply validate_nodes_spec in Hn as (Hv & Hi & _). apply validate_edges_spec in He as (Hev & Hei & Hee & _).
  by split.
Qed.

Lemma looped_cyclic : cyclic looped.
Proof.
  exists "plan". apply (tc_l _ _ "review"); [|apply tc_once]; unfold linked, looped.
  - exists (demo_edge "plan" "review"). split; [right; left|done].
  - exists (demo_edge "review" "plan"). split; [left|done].
Qed.

Lemma validateWorkflowGraph_exact_witness :
  validateWorkflowGraph demo_personas (tp_nodes demo_template) looped = Throw cycle_error.
Proof.
  apply (proj2 (validateWorkflowGraph_exact demo_personas (tp_nodes demo_template) looped)).
  - exact looped_valid.
  - exact looped_cyclic.
Defined.
