(* ===== verification/DeviceSession.v ===== *)
(** * Desktop app cloud: device sessions

    The credentials of enrolled devices, [mezair-app/cloud/backend/src/session-coordinator.ts]:
    enrollment codes, enrollment, rotating refresh tokens with replay and reuse detection,
    validation, revocation, account deletion and the sweep.  Mutating routes run one after
    another ([blockConcurrencyWhile]).  Times are milliseconds; SHA-256, random tokens, the
    clock and the calls to the account's object are parameters.  The clock of a Worker
    advances only at I/O, so a check that reads it twice in a row reads it once here, and
    may read it where the code would not have needed it. *)

From stdpp Require Import base list strings.
From Stdlib Require Import ZArith Ascii.
From S2P Require Import Prelude JsString JsValue.

(** ** Tables *)

Inductive EnrollmentClass := class_device | class_ephemeral.
Inductive TrustState := trust_pending | trust_trusted | trust_revoked.

#[export] Instance EnrollmentClass_eq_dec : EqDecision EnrollmentClass.
Proof. solve_decision. Defined.
#[export] Instance TrustState_eq_dec : EqDecision TrustState.
Proof. solve_decision. Defined.

(** What a client holds; the dates are in milliseconds. *)
Record DeviceSession := {
  ds_accessToken : string;
  ds_accessExpiresAt : Z;
  ds_refreshToken : string;
  ds_credentialGeneration : Z;
  ds_enrollmentId : string;
  ds_accountId : string;
  ds_datasetEpoch : string;
  ds_displayName : option string;
  ds_enrollmentClass : option EnrollmentClass;
  ds_enrollmentExpiresAt : option num;
  ds_environmentId : option string;
}.

Record SessionRow := {
  dr_enrollment_id : string;
  dr_account_id : string;
  dr_installation_id : string;
  dr_display_name : option string;
  dr_credential_generation : Z;
  dr_access_token_hash : string;
  dr_access_expires_at : Z;
  dr_refresh_token_hash : string;
  dr_prev_refresh_token_hash : option string;
  dr_prev_refresh_grace_until : option Z;
  dr_pending_rotated_session : option DeviceSession;
  dr_revoked_at : option Z;
  dr_created_at : Z;
  dr_enrollment_class : EnrollmentClass;
  dr_provider : option string;
  dr_created_by : option string;
  dr_enrollment_expires_at : option num;
  dr_environment_id : option string;
  dr_proof_method : string;
  dr_trust_state : TrustState;
  dr_trusted_at : option Z;
  dr_trust_source : option string;
  dr_trust_generation : option Z;
}.

Record CodeRow := {
  cr_code_hash : string;
  cr_account_id : string;
  cr_issued_by : string;
  cr_display_name : option string;
  cr_expires_at : Z;
  cr_consumed_at : option Z;
  cr_created_at : Z;
  cr_enrollment_class : EnrollmentClass;
  cr_provider : option string;
  cr_session_ttl_ms : option num;
  cr_environment_id : option string;
  cr_pairing : bool;
}.

(** The columns of [account_security] the calls here read or write. *)
Record SecurityRow := {
  sy_account_id : string;
  sy_policy : string;
  sy_revision : Z;
  sy_generation : Z;
  sy_recovery_revision : Z;
  sy_recovery_verifier : option string;
  sy_recovery_invalidated_at : option Z;
  sy_bootstrap : option string;
  sy_updated_at : Z;
}.

Record AuditRow := {
  au_id : string; au_account_id : string; au_enrollment_id : option string; au_action : string; au_created_at : Z;
}.

(** Challenges are only dropped here: an identity challenge is its account, enrollment and
    expiry, a security challenge its account, its expiry and when it was used. *)
Record Db := {
  db_sessions : list SessionRow;
  db_codes : list CodeRow;
  db_security : list SecurityRow;
  db_audit : list AuditRow;
  db_deletions : list string;
  db_identity_challenges : list (string * string * Z);
  db_security_challenges : list (string * Z * option Z);
}.

Definition empty_db : Db := {|
  db_sessions := []; db_codes := []; db_security := []; db_audit := []; db_deletions := [];
  db_identity_challenges := []; db_security_challenges := [] |}.

Definition set_sessions (l : list SessionRow) (d : Db) : Db :=
  {| db_sessions := l; db_codes := db_codes d; db_security := db_security d; db_audit := db_audit d;
     db_deletions := db_deletions d; db_identity_challenges := db_identity_challenges d;
     db_security_challenges := db_security_challenges d |}.
Definition set_codes (l : list CodeRow) (d : Db) : Db :=
  {| db_sessions := db_sessions d; db_codes := l; db_security := db_security d; db_audit := db_audit d;
     db_deletions := db_deletions d; db_identity_challenges := db_identity_challenges d;
     db_security_challenges := db_security_challenges d |}.
Definition set_security (l : list SecurityRow) (a : list AuditRow) (d : Db) : Db :=
  {| db_sessions := db_sessions d; db_codes := db_codes d; db_security := l; db_audit := a;
     db_deletions := db_deletions d; db_identity_challenges := db_identity_challenges d;
     db_security_challenges := db_security_challenges d |}.
Definition set_deletions (l : list string) (d : Db) : Db :=
  {| db_sessions := db_sessions d; db_codes := db_codes d; db_security := db_security d; db_audit := db_audit d;
     db_deletions := l; db_identity_challenges := db_identity_challenges d;
     db_security_challenges := db_security_challenges d |}.
Definition set_challenges (i : list (string * string * Z)) (s : list (string * Z * option Z)) (d : Db) : Db :=
  {| db_sessions := db_sessions d; db_codes := db_codes d; db_security := db_security d; db_audit := db_audit d;
     db_deletions := db_deletions d; db_identity_challenges := i; db_security_challenges := s |}.

(** [UPDATE ... WHERE p]. *)
Definition update_where {A} (p : A → bool) (f : A → A) (l : list A) : list A := (λ r, if p r then f r else r) <$> l.

Definition has_enrollment (id : string) (r : SessionRow) : bool := String.eqb (dr_enrollment_id r) id.
Definition on_account (id : string) (r : SessionRow) : bool := String.eqb (dr_account_id r) id.

(** ** Rows *)

Definition enrollmentExpired (r : SessionRow) (now : Z) : bool :=
  match dr_enrollment_expires_at r with Some t => num_leb t (int now) | None => false end.

Definition is_revoked (r : SessionRow) : bool := match dr_revoked_at r with Some _ => true | None => false end.

Definition trustState (r : SessionRow) : TrustState :=
  if is_revoked r || bool_decide (dr_trust_state r = trust_revoked) then trust_revoked else dr_trust_state r.

(** [revoked_at = COALESCE(revoked_at, now), trust_state = 'revoked']. *)
Definition revoke_row (now : Z) (r : SessionRow) : SessionRow := {|
  dr_enrollment_id := dr_enrollment_id r; dr_account_id := dr_account_id r;
  dr_installation_id := dr_installation_id r; dr_display_name := dr_display_name r;
  dr_credential_generation := dr_credential_generation r; dr_access_token_hash := dr_access_token_hash r;
  dr_access_expires_at := dr_access_expires_at r; dr_refresh_token_hash := dr_refresh_token_hash r;
  dr_prev_refresh_token_hash := dr_prev_refresh_token_hash r;
  dr_prev_refresh_grace_until := dr_prev_refresh_grace_until r;
  dr_pending_rotated_session := dr_pending_rotated_session r;
  dr_revoked_at := Some (default now (dr_revoked_at r)); dr_created_at := dr_created_at r;
  dr_enrollment_class := dr_enrollment_class r; dr_provider := dr_provider r; dr_created_by := dr_created_by r;
  dr_enrollment_expires_at := dr_enrollment_expires_at r; dr_environment_id := dr_environment_id r;
  dr_proof_method := dr_proof_method r; dr_trust_state := trust_revoked; dr_trusted_at := dr_trusted_at r;
  dr_trust_source := dr_trust_source r; dr_trust_generation := dr_trust_generation r |}.

(** The columns that rotation and the sweep set. *)
Definition set_credentials (generation : Z) (access : string) (accessExpires : Z) (refresh : string)
    (prev : option string) (grace : option Z) (pending : option DeviceSession) (r : SessionRow) : SessionRow := {|
  dr_enrollment_id := dr_enrollment_id r; dr_account_id := dr_account_id r;
  dr_installation_id := dr_installation_id r; dr_display_name := dr_display_name r;
  dr_credential_generation := generation; dr_access_token_hash := access;
  dr_access_expires_at := accessExpires; dr_refresh_token_hash := refresh;
  dr_prev_refresh_token_hash := prev; dr_prev_refresh_grace_until := grace; dr_pending_rotated_session := pending;
  dr_revoked_at := dr_revoked_at r; dr_created_at := dr_created_at r;
  dr_enrollment_class := dr_enrollment_class r; dr_provider := dr_provider r; dr_created_by := dr_created_by r;
  dr_enrollment_expires_at := dr_enrollment_expires_at r; dr_environment_id := dr_environment_id r;
  dr_proof_method := dr_proof_method r; dr_trust_state := dr_trust_state r; dr_trusted_at := dr_trusted_at r;
  dr_trust_source := dr_trust_source r; dr_trust_generation := dr_trust_generation r |}.

Definition clear_grace (r : SessionRow) : SessionRow :=
  set_credentials (dr_credential_generation r) (dr_access_token_hash r) (dr_access_expires_at r)
    (dr_refresh_token_hash r) None None None r.

Definition consume_code (now : Z) (r : CodeRow) : CodeRow := {|
  cr_code_hash := cr_code_hash r; cr_account_id := cr_account_id r; cr_issued_by := cr_issued_by r;
  cr_display_name := cr_display_name r; cr_expires_at := cr_expires_at r; cr_consumed_at := Some now;
  cr_created_at := cr_created_at r; cr_enrollment_class := cr_enrollment_class r; cr_provider := cr_provider r;
  cr_session_ttl_ms := cr_session_ttl_ms r; cr_environment_id := cr_environment_id r; cr_pairing := cr_pairing r |}.

(** The session of a row and its tokens: [toDeviceSession]. *)
Definition toDeviceSession (r : SessionRow) (generation : Z) (access refresh : string) (accessExpires : Z)
    (epoch : string) : DeviceSession :=
  let ephemeral := bool_decide (dr_enrollment_class r = class_ephemeral) in {|
  ds_accessToken := access; ds_accessExpiresAt := accessExpires; ds_refreshToken := refresh;
  ds_credentialGeneration := generation; ds_enrollmentId := dr_enrollment_id r; ds_accountId := dr_account_id r;
  ds_datasetEpoch := epoch; ds_displayName := dr_display_name r;
  ds_enrollmentClass := if ephemeral then Some class_ephemeral else None;
  ds_enrollmentExpiresAt := if ephemeral then dr_enrollment_expires_at r else None;
  ds_environmentId := dr_environment_id r |}.

(** ** Constants *)

Definition ACCESS_TTL_MS : Z := 15 * 60 * 1000.
Definition REFRESH_GRACE_MS : Z := 30 * 1000.
Definition CODE_TTL_MS : Z := 10 * 60 * 1000.
Definition MAX_ACTIVE_CODES_PER_ACCOUNT : Z := 20.
Definition MAX_EPHEMERAL_SESSIONS_PER_ACCOUNT : Z := 20.
Definition EPHEMERAL_DEFAULT_SESSION_TTL_MS : Z := 4 * 60 * 60 * 1000.
Definition EPHEMERAL_MAX_SESSION_TTL_MS : Z := 24 * 60 * 60 * 1000.
Definition EPHEMERAL_MIN_SESSION_TTL_MS : Z := 60 * 1000.
Definition MAX_PROVIDER_ID_CHARS : Z := 128.
Definition REVOKED_SESSION_RETENTION_MS : Z := 30 * 24 * 60 * 60 * 1000.
Definition SECURITY_AUDIT_RETENTION : nat := 200.
Definition CODE_ALPHABET : string := "ABCDEFGHJKMNPQRSTUVWXYZ23456789".

(** ** Enrollment codes as text *)

Definition is_alnum (c : ascii) : bool := is_digit c || is_upper c || is_lower c.
Definition upper_char (c : ascii) : ascii := if is_lower c then ascii_of_N (N_of_ascii c - 32) else c.

Definition normalizeEnrollmentCode (code : string) : string :=
  let t := trim code in
  let rest := if String.eqb (toLowerCase (slice_to 10 t)) "mezair-ec-" then slice_from 10 t else t in
  of_chars (map upper_char (List.filter is_alnum (chars rest))).

(** [generateEnrollmentCode] from its 20 random bytes: the code shown and the one hashed. *)
Definition generateEnrollmentCode (bytes : list Z) : string * string :=
  let raw := of_chars ((λ b, nth (Z.to_nat (b mod slen CODE_ALPHABET)) (chars CODE_ALPHABET) zero) <$> bytes) in
  let part i := of_chars (take 5 (drop i (chars raw))) in
  ("mezair-ec-" +:+ part 0%nat +:+ "-" +:+ part 5%nat +:+ "-" +:+ part 10%nat +:+ "-" +:+ part 15%nat, raw).

(** ** The coordinator *)

(** The clock, [generateDeviceToken], random bytes, [randomUUID], [sha256Hex], the epoch of
    an account's data set, which its object answers or fails to, the best-effort call that
    closes an enrollment's sockets, and the purge of an account's shares and data. *)
Record CloudHost (W : Type) := {
  ch_now : W → Z * W;
  ch_token : string → W → string * W;
  ch_bytes : W → list Z * W;
  ch_uuid : W → string * W;
  ch_sha256 : string → string;
  ch_epoch : string → W → outcome string * W;
  ch_close : string → string → W → W;
  ch_purge : string → W → outcome unit * W;
}.
Arguments ch_now {W} _ _.
Arguments ch_token {W} _ _ _.
Arguments ch_bytes {W} _ _.
Arguments ch_uuid {W} _ _.
Arguments ch_sha256 {W} _ _.
Arguments ch_epoch {W} _ _ _.
Arguments ch_close {W} _ _ _ _.
Arguments ch_purge {W} _ _ _.

(** The deployment: whether it has a hosted database, its issuer is WorkOS, it enforces
    device limits, at which limit, and its admin token. *)
Record CloudEnv := {
  ev_hosted_db : bool; ev_workos : bool; ev_enforced : bool; ev_devices : Z; ev_admin_token : option string;
}.

Inductive Response :=
| rsp_session (s : DeviceSession)
| rsp_revoked (enrollmentId : option string)
| rsp_identity (accountId enrollmentId : string) (class : EnrollmentClass) (proof : string) (trust : TrustState)
    (environmentId : option string)
| rsp_code (code : string) (expiresAt : Z) (accountId : string)
| rsp_deleting (accountId : string)
| rsp_error (code : string) (reason : option string).

Record DF (W : Type) := MkDF { df_db : Db; df_ext : W }.
Arguments MkDF {W} _ _.
Arguments df_db {W} _.
Arguments df_ext {W} _.

Section Coordinator.
Context {W : Type} (host : CloudHost W) (env : CloudEnv).
Notation F := (DF W).

Definition ext {A} (f : W → A * W) : M F A := λ s, let '(a, w) := f (df_ext s) in (Ok a, MkDF (df_db s) w).
Definition d_now : M F Z := ext (ch_now host).
Definition generateDeviceToken (kind : string) : M F string := ext (ch_token host kind).
Definition d_uuid : M F string := ext (ch_uuid host).
Definition sha256Hex : string → string := ch_sha256 host.
Definition d_db : M F Db := gets df_db.
Definition d_change (f : Db → Db) : M F unit := modify (λ s, MkDF (f (df_db s)) (df_ext s)).

(** An [INSERT] whose primary key is taken. *)
Definition key_taken {A} (column : string) : M F A := throw (MkError None ("UNIQUE constraint failed: " +:+ column) []).

Definition datasetEpoch (accountId : string) : M F string := λ s,
  let '(o, w) := ch_epoch host accountId (df_ext s) in (o, MkDF (df_db s) w).
Definition close_sockets (accountId enrollmentId : string) : M F unit := λ s,
  (Ok tt, MkDF (df_db s) (ch_close host accountId enrollmentId (df_ext s))).

Definition purge_account (accountId : string) : M F unit := λ s,
  let '(o, w) := ch_purge host accountId (df_ext s) in (o, MkDF (df_db s) w).

Definition authError (code : string) : M F Response := mret (rsp_error code None).
Definition forbidden (reason : string) : M F Response := mret (rsp_error "forbidden" (Some reason)).

Definition sessionByEnrollment (id : string) (d : Db) : option SessionRow := find_first (has_enrollment id) (db_sessions d).
Definition sessionByAccessHash (hash : string) (d : Db) : option SessionRow :=
  find_first (λ r, String.eqb (dr_access_token_hash r) hash) (db_sessions d).
Definition deleted (accountId : string) (d : Db) : bool := existsb (String.eqb accountId) (db_deletions d).

Definition change_sessions (p : SessionRow → bool) (f : SessionRow → SessionRow) : M F unit :=
  d_change (λ d, set_sessions (update_where p f (db_sessions d)) d).

(** ** Security rows *)

(** An audit row, without its outcome and metadata; of the account's rows the newest
    [SECURITY_AUDIT_RETENTION] stay, the later of two with the same time. *)
Definition securityAudit (accountId action : string) (enrollment : option SessionRow) : M F unit :=
  id ← d_uuid; now ← d_now;
  d_change (λ d,
    let rows := db_audit d ++ [{| au_id := id; au_account_id := accountId;
                                  au_enrollment_id := dr_enrollment_id <$> enrollment;
                                  au_action := action; au_created_at := now |}] in
    let mine := List.filter (λ a, String.eqb (au_account_id a) accountId) rows in
    let excess := (length mine - SECURITY_AUDIT_RETENTION)%nat in
    let old := au_id <$> take excess mine in
    set_security (db_security d) (List.filter (λ a, negb (existsb (String.eqb (au_id a)) old)) rows) d).

Definition invalidate_row (invalidated updated : Z) (s : SecurityRow) : SecurityRow := {|
  sy_account_id := sy_account_id s; sy_policy := sy_policy s; sy_revision := sy_revision s + 1;
  sy_generation := sy_generation s + 1; sy_recovery_revision := sy_recovery_revision s + 1;
  sy_recovery_verifier := sy_recovery_verifier s; sy_recovery_invalidated_at := Some invalidated;
  sy_bootstrap := sy_bootstrap s; sy_updated_at := updated |}.

Definition recoverable (accountId : string) (s : SecurityRow) : bool :=
  String.eqb (sy_account_id s) accountId &&
  match sy_recovery_verifier s, sy_recovery_invalidated_at s with Some _, None => true | _, _ => false end.

Definition invalidateRecoveryOnTrustedRevoke (accountId : string) (row : SessionRow) : M F unit :=
  if negb (bool_decide (trustState row = trust_trusted)) then mret tt
  else
    invalidated ← d_now; updated ← d_now; d ← d_db;
    if existsb (recoverable accountId) (db_security d) then
      d_change (λ d, set_security (update_where (recoverable accountId) (invalidate_row invalidated updated) (db_security d)) (db_audit d) d) ;;
      securityAudit accountId "recovery-invalidated" (Some row)
    else mret tt.

Definition accountSecurity (accountId : string) (d : Db) : option SecurityRow :=
  find_first (λ s, String.eqb (sy_account_id s) accountId) (db_security d).

Definition new_security (accountId policy : string) (now : Z) : SecurityRow := {|
  sy_account_id := accountId; sy_policy := policy; sy_revision := 1; sy_generation := 1; sy_recovery_revision := 0;
  sy_recovery_verifier := None; sy_recovery_invalidated_at := None; sy_bootstrap := None; sy_updated_at := now |}.

Definition set_bootstrap (id : string) (now : Z) (s : SecurityRow) : SecurityRow := {|
  sy_account_id := sy_account_id s; sy_policy := sy_policy s; sy_revision := sy_revision s;
  sy_generation := sy_generation s; sy_recovery_revision := sy_recovery_revision s;
  sy_recovery_verifier := sy_recovery_verifier s; sy_recovery_invalidated_at := sy_recovery_invalidated_at s;
  sy_bootstrap := Some id; sy_updated_at := now |}.

(** Earlier rows first, by creation and then by enrollment id. *)
Definition earlier (a b : SessionRow) : bool :=
  if dr_created_at a <? dr_created_at b then true
  else if dr_created_at b <? dr_created_at a then false
  else str_leb (dr_enrollment_id a) (dr_enrollment_id b).

Definition device_rows (accountId : string) (d : Db) : list SessionRow :=
  List.filter (λ r, on_account accountId r && bool_decide (dr_enrollment_class r = class_device)) (db_sessions d).

Definition ensureAccountSecurity (accountId : string) (now : Z) (policy : string) : M F SecurityRow :=
  d ← d_db;
  match accountSecurity accountId d with
  | Some _ => mret tt
  | None => d_change (λ d, set_security (db_security d ++ [new_security accountId policy now]) (db_audit d) d)
  end ;;
  d ← d_db;
  match accountSecurity accountId d with
  | None => throw (MkError None "security policy insert failed" [])
  | Some row =>
      match sy_bootstrap row, head (sort_by earlier (device_rows accountId d)) with
      | None, Some r =>
          let set := set_bootstrap (dr_enrollment_id r) now in
          d_change (λ d, set_security
            (update_where (λ s, String.eqb (sy_account_id s) accountId) set (db_security d)) (db_audit d) d) ;;
          mret (set row)
      | _, _ => mret row
      end
  end.

(** ** Enrollment *)

(** What a code carries into the session it is redeemed for. *)
Record CodeGrant := {
  cg_class : EnrollmentClass; cg_provider : option string; cg_session_ttl_ms : option num;
  cg_issued_by : option string; cg_environment_id : option string; cg_pairing : bool;
}.

Definition issueTokens (row : string → string → Z → Z → SessionRow) : M F Response :=
  access ← generateDeviceToken "at";
  refresh ← generateDeviceToken "rt";
  now ← d_now;
  let r := row (sha256Hex access) (sha256Hex refresh) (now + ACCESS_TTL_MS) now in
  d ← d_db;
  if existsb (has_enrollment (dr_enrollment_id r)) (db_sessions d) then key_taken "device_sessions.enrollment_id"
  else
    d_change (λ d, set_sessions (db_sessions d ++ [r]) d) ;;
    try_catch
      (epoch ← datasetEpoch (dr_account_id r);
       mret (rsp_session (toDeviceSession r (dr_credential_generation r) access refresh (now + ACCESS_TTL_MS) epoch)))
      (λ e, d_change (λ d, set_sessions
              (List.filter (λ x, negb (has_enrollment (dr_enrollment_id r) x)) (db_sessions d)) d) ;;
            throw e).

Definition activeDevices (accountId : string) (d : Db) : Z :=
  Z.of_nat (length (List.filter (λ r, negb (is_revoked r)) (device_rows accountId d))).

Definition humanEnrollmentCodesDisabled : bool := ev_hosted_db env || ev_workos env.

(** The trust of a new enrollment and its source. *)
Definition initial_trust (d : Db) (accountId proof : string) (security : SecurityRow) (g : CodeGrant) :
    TrustState * option string :=
  let device := bool_decide (cg_class g = class_device) in
  let isFirstDevice := match device_rows accountId d, sy_bootstrap security with [], None => true | _, _ => false end in
  if device && isFirstDevice then (trust_trusted, Some "first-device")
  else if device && negb (String.eqb proof "enrollment-code") && String.eqb (sy_policy security) "auto-trust-authenticated"
  then (trust_trusted, Some "automatic-auth")
  else if device && cg_pairing g then
    match cg_issued_by g with
    | None => (trust_pending, None)
    | Some id =>
        match sessionByEnrollment id d with
        | Some issuer =>
            if on_account accountId issuer && negb (is_revoked issuer) && bool_decide (trustState issuer = trust_trusted)
            then (trust_trusted, Some "pairing") else (trust_pending, None)
        | None => (trust_pending, None)
        end
    end
  else (trust_pending, None).

(** The rest of [handleEnroll] once the proof has given an account. *)
Definition register (accountId installationId proof : string) (displayName : option string) (now : Z) (g : CodeGrant) :
    M F Response :=
  d ← d_db;
  if bool_decide (cg_class g = class_device) && ev_enforced env && (ev_devices env <=? activeDevices accountId d)
  then authError "device-limit"
  else
    let workosAuthenticated := negb (String.eqb proof "enrollment-code") && ev_workos env in
    security ← ensureAccountSecurity accountId now
      (if workosAuthenticated then "auto-trust-authenticated" else "require-approval");
    d ← d_db;
    let '(trust, source) := initial_trust d accountId proof security g in
    uuid ← d_uuid;
    let enrollmentExpiresAt :=
      if bool_decide (cg_class g = class_ephemeral)
      then Some (num_add (int now) (num_min (num_max (default (int EPHEMERAL_DEFAULT_SESSION_TTL_MS) (cg_session_ttl_ms g))
                                                     (int 0)) (int EPHEMERAL_MAX_SESSION_TTL_MS)))
      else None in
    let trusted := bool_decide (trust = trust_trusted) in
    issueTokens (λ access refresh accessExpires created, {|
      dr_enrollment_id := "enr_" +:+ uuid; dr_account_id := accountId; dr_installation_id := installationId;
      dr_display_name := displayName; dr_credential_generation := 1; dr_access_token_hash := access;
      dr_access_expires_at := accessExpires; dr_refresh_token_hash := refresh; dr_prev_refresh_token_hash := None;
      dr_prev_refresh_grace_until := None; dr_pending_rotated_session := None; dr_revoked_at := None;
      dr_created_at := created; dr_enrollment_class := cg_class g; dr_provider := cg_provider g;
      dr_created_by := cg_issued_by g; dr_enrollment_expires_at := enrollmentExpiresAt;
      dr_environment_id := cg_environment_id g; dr_proof_method := proof; dr_trust_state := trust;
      dr_trusted_at := if trusted then Some now else None; dr_trust_source := source;
      dr_trust_generation := if trusted then Some (sy_generation security) else None |}).

Definition optional_text (v : jsval) : option string := match v with Some (JStr s) => Some s | _ => None end.

(** [handleEnroll] with an enrollment code. *)
Definition enrollWithCode (code : string) (installationId : string) (displayName : option string) : M F Response :=
  now ← d_now;
  if String.eqb code "" then authError "invalid-proof"
  else
    let codeHash := sha256Hex (normalizeEnrollmentCode code) in
    let is_code r := String.eqb (cr_code_hash r) codeHash in
    d ← d_db;
    match find_first is_code (db_codes d) with
    | None => authError "enrollment-code-used"
    | Some row =>
        if match cr_consumed_at row with Some _ => true | None => false end || (cr_expires_at row <=? now)
        then authError "enrollment-code-used"
        else
          d_change (λ d, set_codes (update_where is_code (consume_code now) (db_codes d)) d) ;;
          if bool_decide (cr_enrollment_class row = class_device) && humanEnrollmentCodesDisabled
          then forbidden "provider-sign-in-required"
          else if deleted (cr_account_id row) d then forbidden "account-deleted"
          else register (cr_account_id row) installationId "enrollment-code" displayName now
                 {| cg_class := cr_enrollment_class row; cg_provider := cr_provider row;
                    cg_session_ttl_ms := cr_session_ttl_ms row; cg_issued_by := Some (cr_issued_by row);
                    cg_environment_id := cr_environment_id row; cg_pairing := cr_pairing row |}
    end.

(** [handleEnroll] after a provider has confirmed who signs in, as [accountId]. *)
Definition enrollSignedIn (accountId proof installationId : string) (displayName : option string) : M F Response :=
  now ← d_now;
  register accountId installationId proof displayName now
    {| cg_class := class_device; cg_provider := None; cg_session_ttl_ms := None; cg_issued_by := None;
       cg_environment_id := None; cg_pairing := false |}.

(** ** Refresh *)

(** A new pair of tokens for the current one; nothing is stored if the epoch is not known. *)
Definition rotate (row : SessionRow) (now : Z) : M F Response :=
  access ← generateDeviceToken "at";
  refresh ← generateDeviceToken "rt";
  let accessExpiresAt := now + ACCESS_TTL_MS in
  let generation := dr_credential_generation row + 1 in
  epoch ← datasetEpoch (dr_account_id row);
  let session := toDeviceSession row generation access refresh accessExpiresAt epoch in
  change_sessions (has_enrollment (dr_enrollment_id row))
    (set_credentials generation (sha256Hex access) accessExpiresAt (sha256Hex refresh)
       (Some (dr_refresh_token_hash row)) (Some (now + REFRESH_GRACE_MS)) (Some session)) ;;
  mret (rsp_session session).

(** [handleRefresh] on a live row, when there is no response to replay. *)
Definition refresh_row (row : SessionRow) (presented : string) (superseded graced : bool) (now : Z) : M F Response :=
  if negb (String.eqb (dr_refresh_token_hash row) presented) then
    if superseded && negb graced then
      change_sessions (has_enrollment (dr_enrollment_id row)) (revoke_row now) ;;
      invalidateRecoveryOnTrustedRevoke (dr_account_id row) row ;;
      authError "refresh-reuse-detected"
    else authError "invalid-proof"
  else rotate row now.

Definition handleRefresh (body : jsval) : M F Response :=
  match prop "refreshToken" body, prop "enrollmentId" body with
  | Some (JStr refreshToken), Some (JStr enrollmentId) =>
      d ← d_db; t ← d_now;
      match sessionByEnrollment enrollmentId d with
      | None => authError "invalid-proof"
      | Some row =>
          if is_revoked row || enrollmentExpired row t then authError "invalid-proof"
          else
            now ← d_now;
            let presented := sha256Hex refreshToken in
            let superseded := bool_decide (dr_prev_refresh_token_hash row = Some presented) in
            let graced := match dr_prev_refresh_grace_until row with Some g => now <? g | None => false end in
            match dr_pending_rotated_session row with
            | Some session =>
                if superseded && graced then mret (rsp_session session)
                else refresh_row row presented superseded graced now
            | None => refresh_row row presented superseded graced now
            end
      end
  | _, _ => authError "malformed-request"
  end.

(** ** Validation *)

Definition handleValidate (body : jsval) : M F Response :=
  match prop "accessToken" body with
  | Some (JStr accessToken) =>
      d ← d_db; now ← d_now;
      match sessionByAccessHash (sha256Hex accessToken) d with
      | None => authError "unauthenticated"
      | Some row =>
          if is_revoked row || (dr_access_expires_at row <=? now) || enrollmentExpired row now
          then authError "unauthenticated"
          else mret (rsp_identity (dr_account_id row) (dr_enrollment_id row) (dr_enrollment_class row)
                       (dr_proof_method row) (trustState row) (dr_environment_id row))
      end
  | _ => authError "malformed-request"
  end.

(** ** Revocation *)

(** The row revoked, its challenges dropped, recovery invalidated and the sockets closed. *)
Definition revoke_session (row : SessionRow) : M F unit :=
  now ← d_now;
  change_sessions (has_enrollment (dr_enrollment_id row)) (revoke_row now) ;;
  d_change (λ d, set_challenges
    (List.filter (λ c, negb (String.eqb c.1.2 (dr_enrollment_id row))) (db_identity_challenges d))
    (db_security_challenges d) d) ;;
  invalidateRecoveryOnTrustedRevoke (dr_account_id row) row ;;
  close_sockets (dr_account_id row) (dr_enrollment_id row).

(** [bearer] is the token of the Authorization header, if it has one. *)
Definition handleRevoke (bearer : option string) (body : jsval) : M F Response :=
  match prop "enrollmentId" body with
  | Some (JStr enrollmentId) =>
      d ← d_db;
      match sessionByEnrollment enrollmentId d with
      | None => mret (rsp_revoked None)
      | Some row =>
          t ← d_now;
          let byRefresh := match prop "refreshToken" body with
                           | Some (JStr token) =>
                               String.eqb (sha256Hex token) (dr_refresh_token_hash row) ||
                               bool_decide (dr_prev_refresh_token_hash row = Some (sha256Hex token))
                           | _ => false
                           end in
          let byBearer := match bearer with
                          | Some token => String.eqb (sha256Hex token) (dr_access_token_hash row) &&
                                          negb (is_revoked row) && negb (enrollmentExpired row t)
                          | None => false
                          end in
          if byRefresh || byBearer then revoke_session row ;; mret (rsp_revoked None)
          else authError "unauthenticated"
      end
  | _ => authError "malformed-request"
  end.

Definition revokeDeviceOnAccount (accountId enrollmentId : string) : M F Response :=
  d ← d_db;
  match sessionByEnrollment enrollmentId d with
  | Some row =>
      if on_account accountId row then revoke_session row ;; mret (rsp_revoked (Some enrollmentId))
      else authError "not-found"
  | None => authError "not-found"
  end.

(** The caller the worker has verified, if its row is still live and no environment. *)
Definition verifiedCaller (verified : option (string * string)) : M F (option (string * string)) :=
  match verified with
  | None => mret None
  | Some (accountId, enrollmentId) =>
      d ← d_db; now ← d_now;
      match sessionByEnrollment enrollmentId d with
      | Some row =>
          if negb (on_account accountId row) || is_revoked row ||
             bool_decide (dr_enrollment_class row = class_ephemeral) || enrollmentExpired row now
          then mret None else mret (Some (accountId, enrollmentId))
      | None => mret None
      end
  end.

Definition handleDeviceRevoke (verified : option (string * string)) (body : jsval) : M F Response :=
  caller ← verifiedCaller verified;
  match caller with
  | None => authError "unauthenticated"
  | Some (accountId, _) =>
      match prop "enrollmentId" body with
      | Some (JStr enrollmentId) => revokeDeviceOnAccount accountId enrollmentId
      | _ => authError "malformed-request"
      end
  end.

Definition deleteAccountById (accountId : string) : M F Response :=
  now ← d_now;
  d_change (λ d, if deleted accountId d then d else set_deletions (db_deletions d ++ [accountId]) d) ;;
  change_sessions (on_account accountId) (revoke_row now) ;;
  d_change (λ d, set_challenges
    (List.filter (λ c, negb (String.eqb c.1.1 accountId)) (db_identity_challenges d))
    (List.filter (λ c, negb (String.eqb c.1.1 accountId)) (db_security_challenges d)) d) ;;
  d_change (λ d, set_security
    (List.filter (λ s, negb (String.eqb (sy_account_id s) accountId)) (db_security d))
    (List.filter (λ a, negb (String.eqb (au_account_id a) accountId)) (db_audit d)) d) ;;
  purge_account accountId ;;
  mret (rsp_deleting accountId).

Definition handleAccountDelete (verified : option (string * string)) : M F Response :=
  caller ← verifiedCaller verified;
  match caller with
  | None => authError "unauthenticated"
  | Some (accountId, _) => deleteAccountById accountId
  end.

(** ** Issuing codes *)

Record IssueOptions := {
  io_class : EnrollmentClass; io_provider : option string; io_ttl : option num; io_environment : option string;
  io_pairing : bool;
}.

Definition short_text (v : jsval) : bool :=
  match v with None => true | Some (JStr s) => slen s <=? MAX_PROVIDER_ID_CHARS | _ => false end.

Definition parseIssueOptions (body : jsval) : option IssueOptions :=
  let class := prop "enrollmentClass" body in
  let ttl := prop "sessionTtlSeconds" body in
  let mode := prop "trustMode" body in
  if negb (is_undefined class || is_str "device" class || is_str "ephemeral" class) then None
  else if negb (short_text (prop "provider" body)) then None
  else if negb (match ttl with None => true | Some (JNum n) => isFinite n && num_ltb (int 0) n | _ => false end) then None
  else if negb (short_text (prop "environmentId" body)) then None
  else if negb (is_undefined mode || is_str "pending" mode || is_str "pairing" mode) then None
  else Some {| io_class := if is_str "ephemeral" class then class_ephemeral else class_device;
               io_provider := optional_text (prop "provider" body);
               io_ttl := match ttl with Some (JNum n) => Some n | _ => None end;
               io_environment := optional_text (prop "environmentId" body);
               io_pairing := is_str "pairing" mode |}.

Definition active_code (accountId : string) (now : Z) (r : CodeRow) : bool :=
  String.eqb (cr_account_id r) accountId && match cr_consumed_at r with None => true | Some _ => false end &&
  (now <? cr_expires_at r).

Definition live_environment (accountId : string) (now : Z) (r : SessionRow) : bool :=
  on_account accountId r && bool_decide (dr_enrollment_class r = class_ephemeral) && negb (is_revoked r) &&
  match dr_enrollment_expires_at r with None => true | Some t => num_ltb (int now) t end.

(** [SELECT COUNT ... WHERE p]. *)
Definition count_where {A} (p : A → bool) (l : list A) : Z := Z.of_nat (length (List.filter p l)).

Definition session_ttl (o : IssueOptions) : option num :=
  if negb (bool_decide (io_class o = class_ephemeral)) then None
  else match io_ttl o with
       | Some ttl => Some (num_min (num_max (num_mul ttl (int 1000)) (int EPHEMERAL_MIN_SESSION_TTL_MS))
                                   (int EPHEMERAL_MAX_SESSION_TTL_MS))
       | None => Some (int EPHEMERAL_DEFAULT_SESSION_TTL_MS)
       end.

Definition issueCodeForAccount (accountId : string) (displayName : option string) (issuedBy : string)
    (o : IssueOptions) : M F Response :=
  d ← d_db;
  if deleted accountId d then forbidden "account-deleted"
  else
    now ← d_now;
    if MAX_ACTIVE_CODES_PER_ACCOUNT <=? count_where (active_code accountId now) (db_codes d) then authError "throttled"
    else if bool_decide (io_class o = class_ephemeral) &&
            (MAX_EPHEMERAL_SESSIONS_PER_ACCOUNT <=? count_where (live_environment accountId now) (db_sessions d))
    then authError "throttled"
    else
      bytes ← ext (ch_bytes host);
      let '(code, normalized) := generateEnrollmentCode bytes in
      let ephemeral := bool_decide (io_class o = class_ephemeral) in
      let row := {|
        cr_code_hash := sha256Hex normalized; cr_account_id := accountId; cr_issued_by := issuedBy;
        cr_display_name := displayName; cr_expires_at := now + CODE_TTL_MS; cr_consumed_at := None;
        cr_created_at := now; cr_enrollment_class := io_class o; cr_provider := io_provider o;
        cr_session_ttl_ms := session_ttl o; cr_environment_id := if ephemeral then io_environment o else None;
        cr_pairing := negb ephemeral && io_pairing o |} in
      if existsb (λ r, String.eqb (cr_code_hash r) (cr_code_hash row)) (db_codes d)
      then key_taken "enrollment_codes.code_hash"
      else
        d_change (λ d, set_codes (db_codes d ++ [row]) d) ;;
        mret (rsp_code code (now + CODE_TTL_MS) accountId).

Definition text_or_none (key : string) (body : jsval) : option string := optional_text (prop key body).

(** The rest of [handleIssueCode] once the issuer and the account are known. *)
Definition issue_code_as (body : jsval) (accountId issuedBy : string) : M F Response :=
  match parseIssueOptions body with
  | None => authError "malformed-request"
  | Some o =>
      if bool_decide (io_class o = class_device) && humanEnrollmentCodesDisabled
      then forbidden "provider-sign-in-required"
      else issueCodeForAccount accountId (text_or_none "displayName" body) issuedBy o
  end.

(** [handleIssueCode]: by the deployment's admin or by a device. *)
Definition handleIssueCode (header bearer : option string) (body : jsval) : M F Response :=
  if negb (isObject body) then authError "malformed-request"
  else
    if match ev_admin_token env with
       | Some token => negb (String.eqb token "") && bool_decide (header = Some ("Bearer " +:+ token))
       | None => false
       end
    then match prop "accountId" body with
         | Some (JStr accountId) =>
             if String.eqb accountId "" then authError "malformed-request" else issue_code_as body accountId "admin"
         | _ => authError "malformed-request"
         end
    else match bearer with
         | None => authError "unauthenticated"
         | Some token =>
             d ← d_db; now ← d_now;
             match sessionByAccessHash (sha256Hex token) d with
             | None => authError "unauthenticated"
             | Some session =>
                 if is_revoked session || (dr_access_expires_at session <=? now) || enrollmentExpired session now
                 then authError "unauthenticated"
                 else if bool_decide (dr_enrollment_class session = class_ephemeral) then mret (rsp_error "forbidden" None)
                 else issue_code_as body (dr_account_id session) (dr_enrollment_id session)
             end
         end.

(** [handleInternalIssueCode]: by the worker itself. *)
Definition handleInternalIssueCode (body : jsval) : M F Response :=
  match prop "accountId" body with
  | Some (JStr accountId) =>
      if String.eqb accountId "" then authError "malformed-request"
      else
        let issuedBy := match prop "issuedBy" body with
                        | Some (JStr s) => if String.eqb s "" then "internal" else s
                        | _ => "internal"
                        end in
        match parseIssueOptions body with
        | None => authError "malformed-request"
        | Some o => issueCodeForAccount accountId (text_or_none "displayName" body) issuedBy o
        end
  | _ => authError "malformed-request"
  end.

(** ** The sweep *)

(** The transaction of [runSweep]. *)
Definition runSweep (now : Z) (d : Db) : Db :=
  let codes := List.filter (λ r, negb ((cr_expires_at r <? now) &&
                                       match cr_consumed_at r with None => true | Some _ => false end)) (db_codes d) in
  let lapsed r := match dr_prev_refresh_grace_until r with Some g => g <? now | None => false end in
  let old r := match dr_revoked_at r with Some t => t <? now - REVOKED_SESSION_RETENTION_MS | None => false end in
  let sessions := List.filter (λ r, negb (old r)) (update_where lapsed clear_grace (db_sessions d)) in
  let used c := match c.2 with Some t => t <? now - REVOKED_SESSION_RETENTION_MS | None => false end in
  set_challenges (List.filter (λ c : string * string * Z, negb (c.2 <=? now)) (db_identity_challenges d))
    (List.filter (λ c : string * Z * option Z, negb ((c.1.2 <? now) || used c)) (db_security_challenges d))
    (set_codes codes
      (set_sessions (update_where (λ r, enrollmentExpired r now) (revoke_row now) sessions) d)).

Definition alarm : M F unit := now ← d_now; d_change (runSweep now).

(** ** Calls *)

(** The requests the coordinator answers, and its alarm. *)
Inductive Call :=
| call_enroll_code (code installationId : string) (displayName : option string)
| call_enroll_signed_in (accountId proof installationId : string) (displayName : option string)
| call_refresh (body : jsval)
| call_validate (body : jsval)
| call_revoke (bearer : option string) (body : jsval)
| call_device_revoke (verified : option (string * string)) (body : jsval)
| call_account_revoke (accountId enrollmentId : string)
| call_delete (verified : option (string * string))
| call_issue (header bearer : option string) (body : jsval)
| call_internal_issue (body : jsval)
| call_alarm.

Definition run_call (c : Call) : M F Response :=
  match c with
  | call_enroll_code code installationId displayName => enrollWithCode code installationId displayName
  | call_enroll_signed_in accountId proof installationId displayName =>
      enrollSignedIn accountId proof installationId displayName
  | call_refresh body => handleRefresh body
  | call_validate body => handleValidate body
  | call_revoke bearer body => handleRevoke bearer body
  | call_device_revoke verified body => handleDeviceRevoke verified body
  | call_account_revoke accountId enrollmentId => revokeDeviceOnAccount accountId enrollmentId
  | call_delete verified => handleAccountDelete verified
  | call_issue header bearer body => handleIssueCode header bearer body
  | call_internal_issue body => handleInternalIssueCode body
  | call_alarm => alarm ;; mret (rsp_revoked None)
  end.
End Coordinator.
