(* ===== verification/DeviceSessionEffect.v ===== *)
(** * Desktop app cloud: what each call does to sessions and codes

    An abstract machine of sessions and enrollment codes, and that every call of the
    coordinator is one of its steps. *)

From stdpp Require Import base list strings.
From Stdlib Require Import ZArith Ascii Lia.
From S2P Require Import Prelude JsString JsValue DeviceSession.

(** What the coordinator relies on: SHA-256 does not collide, random tokens and ids never
    repeat, and the clock does not run backwards. *)
Class CloudLaws {W} (host : CloudHost W) := {
  known : W → string → Prop;
  clock : W → Z;
  later (w w' : W) : Prop := (∀ x, known w x → known w' x) ∧ clock w <= clock w';
  cl_hash :: Inj eq eq (ch_sha256 host);
  cl_now w t w' : ch_now host w = (t, w') → later w w' ∧ clock w <= t <= clock w';
  cl_token kind w t w' : ch_token host kind w = (t, w') → later w w' ∧ ¬ known w t ∧ known w' t;
  cl_bytes w b w' : ch_bytes host w = (b, w') → later w w';
  cl_uuid w i w' : ch_uuid host w = (i, w') → later w w' ∧ ¬ known w i ∧ known w' i;
  cl_epoch a w o w' : ch_epoch host a w = (o, w') → later w w';
  cl_close a e w : later w (ch_close host a e w);
  cl_purge a w o w' : ch_purge host a w = (o, w') → later w w';
}.

Section Effect.
Context {W : Type} (host : CloudHost W) `{!CloudLaws host} (env : CloudEnv).
Notation F := (DF W).
Notation sha := (ch_sha256 host).

Lemma later_refl w : later w w.
Proof. by split. Qed.

Lemma later_trans w1 w2 w3 : later w1 w2 → later w2 w3 → later w1 w3.
Proof. intros [H1 H2] [H3 H4]. split; [auto|lia]. Qed.

(** ** Calls that leave sessions and codes alone *)

(** The tables as they were, the world not earlier. *)
Record aside (s s' : F) : Prop := {
  as_sessions : db_sessions (df_db s') = db_sessions (df_db s);
  as_codes : db_codes (df_db s') = db_codes (df_db s);
  as_later : later (df_ext s) (df_ext s');
}.

Lemma aside_refl s : aside s s.
Proof. split; [done..|apply later_refl]. Qed.

Lemma aside_trans s1 s2 s3 : aside s1 s2 → aside s2 s3 → aside s1 s3.
Proof. intros [] []. split; [congruence..|by eapply later_trans]. Qed.

Definition bystander {A} (m : M F A) : Prop := ∀ s, aside s (m s).2.

Lemma bystander_ret {A} (a : A) : bystander (mret a).
Proof. intros s. apply aside_refl. Qed.

Lemma bystander_throw {A} e : bystander (@throw F A e).
Proof. intros s. apply aside_refl. Qed.

Lemma bystander_bind {A B} (m : M F A) (k : A → M F B) : bystander m → (∀ a, bystander (k a)) → bystander (m ≫= k).
Proof.
  intros Hm Hk s. specialize (Hm s). unfold mbind, M_bind. destruct (m s) as [[a|e] s1]; [|done].
  eapply aside_trans; [exact Hm|]. apply Hk.
Qed.

Lemma bystander_db {A} (f : Db → A) : bystander (gets (λ s : F, f (df_db s))).
Proof. intros s. apply aside_refl. Qed.

Lemma bystander_d_db : bystander (d_db (W := W)).
Proof. apply (bystander_db (λ d, d)). Qed.

Lemma bystander_change f : (∀ d, db_sessions (f d) = db_sessions d ∧ db_codes (f d) = db_codes d) →
  bystander (d_change (W := W) f).
Proof. intros Hf s. destruct (Hf (df_db s)). split; [done..|apply later_refl]. Qed.

Lemma bystander_now : bystander (d_now host).
Proof.
  intros s. unfold d_now, ext. destruct (ch_now host (df_ext s)) as [t w] eqn:E. split; [done..|]. exact (proj1 (cl_now _ _ _ E)).
Qed.

Lemma bystander_uuid : bystander (d_uuid host).
Proof.
  intros s. unfold d_uuid, ext. destruct (ch_uuid host (df_ext s)) as [t w] eqn:E. split; [done..|]. exact (proj1 (cl_uuid _ _ _ E)).
Qed.

Lemma bystander_close a e : bystander (close_sockets host a e).
Proof. intros s. split; [done..|]. apply cl_close. Qed.

Lemma bystander_purge a : bystander (purge_account host a).
Proof.
  intros s. unfold purge_account. destruct (ch_purge host a (df_ext s)) as [o w] eqn:E. split; [done..|].
  exact (cl_purge _ _ _ _ E).
Qed.

Create HintDb bystander.
#[local] Hint Resolve bystander_ret bystander_throw bystander_db bystander_d_db bystander_now bystander_uuid
  bystander_close bystander_purge : bystander.
#[local] Hint Extern 1 (bystander (d_change _)) => (apply bystander_change; done) : bystander.
#[local] Hint Extern 2 (bystander (_ ≫= _)) => (apply bystander_bind; [|intros ?]) : bystander.
#[local] Hint Extern 3 (bystander (if ?c then _ else _)) => (destruct c) : bystander.
#[local] Hint Extern 3 (bystander (match ?c with _ => _ end)) => (destruct c) : bystander.

Lemma bystander_audit a act r : bystander (securityAudit host a act r).
Proof. unfold securityAudit. auto 10 with bystander. Qed.
#[local] Hint Resolve bystander_audit : bystander.

Lemma bystander_invalidate a r : bystander (invalidateRecoveryOnTrustedRevoke host a r).
Proof. unfold invalidateRecoveryOnTrustedRevoke. auto 10 with bystander. Qed.
#[local] Hint Resolve bystander_invalidate : bystander.

Lemma bystander_ensure a now p : bystander (ensureAccountSecurity (W := W) a now p).
Proof. unfold ensureAccountSecurity. auto 15 with bystander. Qed.
#[local] Hint Resolve bystander_ensure : bystander.

Lemma bystander_caller v : bystander (verifiedCaller host v).
Proof. unfold verifiedCaller. auto 15 with bystander. Qed.
#[local] Hint Resolve bystander_caller : bystander.

(** ** The abstract machine *)

(** A response that hands out no session, identity or code. *)
Definition quiet (o : outcome Response) : Prop :=
  match o with Ok (rsp_session _) | Ok (rsp_identity _ _ _ _ _ _) | Ok (rsp_code _ _ _) => False | _ => True end.

(** Strings drawn for the first time between two worlds. *)
Definition drawn (w w' : W) (x : string) : Prop := ¬ known w x ∧ known w' x.

(** A time at which the clock may have been read between two states. *)
Definition during (s s' : F) (now : Z) : Prop := clock (df_ext s) <= now <= clock (df_ext s').

Definition live (row : SessionRow) (now : Z) : Prop := dr_revoked_at row = None ∧ enrollmentExpired row now = false.

(** The two fields of a refresh request. *)
Definition refresh_request (c : Call) (token enrollment : string) : Prop :=
  ∃ body, c = call_refresh body ∧ prop "refreshToken" body = Some (JStr token) ∧
    prop "enrollmentId" body = Some (JStr enrollment).

(** The row is superseded by the token, within its grace or not. *)
Definition superseded (row : SessionRow) (token : string) : Prop := dr_prev_refresh_token_hash row = Some (sha token).
Definition in_grace (row : SessionRow) (now : Z) : Prop := ∃ g, dr_prev_refresh_grace_until row = Some g ∧ now < g.

Definition is_code (code : string) (r : CodeRow) : bool :=
  String.eqb (cr_code_hash r) (sha (normalizeEnrollmentCode code)).

(** A new row of the table and the tokens it was made for. *)
Record new_row (w w' : W) (accountId : string) (class : EnrollmentClass) (r : SessionRow) (access refresh : string) :
    Prop := {
  nw_enrollment : ∃ uuid, dr_enrollment_id r = "enr_" +:+ uuid ∧ drawn w w' uuid;
  nw_access : dr_access_token_hash r = sha access ∧ drawn w w' access;
  nw_refresh : dr_refresh_token_hash r = sha refresh ∧ drawn w w' refresh;
  nw_distinct : access ≠ refresh;
  nw_account : dr_account_id r = accountId;
  nw_class : dr_enrollment_class r = class;
  nw_generation : dr_credential_generation r = 1;
  nw_prev : dr_prev_refresh_token_hash r = None;
  nw_grace : dr_prev_refresh_grace_until r = None;
  nw_pending : dr_pending_rotated_session r = None;
  nw_revoked : dr_revoked_at r = None;
  nw_expires : clock w <= dr_created_at r <= clock w' ∧ dr_access_expires_at r = dr_created_at r + ACCESS_TTL_MS;
}.

(** What an enrollment redeems: its code, or the provider's word. *)
Definition redeems (c : Call) (now : Z) (codes codes' : list CodeRow) (accountId : string) (class : EnrollmentClass) :
    Prop :=
  match c with
  | call_enroll_code code _ _ =>
      ∃ row, find_first (is_code code) codes = Some row ∧ cr_consumed_at row = None ∧ now < cr_expires_at row ∧
        codes' = update_where (is_code code) (consume_code now) codes ∧
        accountId = cr_account_id row ∧ class = cr_enrollment_class row
  | call_enroll_signed_in a _ _ _ => codes' = codes ∧ accountId = a ∧ class = class_device
  | _ => False
  end.

Inductive effect (s s' : F) (c : Call) : outcome Response → Prop :=
| eff_aside o : aside s s' → quiet o → effect s s' c o
| eff_valid body token row now :
    c = call_validate body → prop "accessToken" body = Some (JStr token) →
    sessionByAccessHash (sha token) (df_db s) = Some row → live row now → now < dr_access_expires_at row →
    aside s s' → during s s' now →
    effect s s' c (Ok (rsp_identity (dr_account_id row) (dr_enrollment_id row) (dr_enrollment_class row)
                     (dr_proof_method row) (trustState row) (dr_environment_id row)))
| eff_replay token enrollment row session now :
    refresh_request c token enrollment → sessionByEnrollment enrollment (df_db s) = Some row → dr_revoked_at row = None →
    superseded row token → in_grace row now → dr_pending_rotated_session row = Some session →
    aside s s' → during s s' now → effect s s' c (Ok (rsp_session session))
| eff_rotate token enrollment row access refresh epoch now :
    refresh_request c token enrollment → sessionByEnrollment enrollment (df_db s) = Some row → dr_revoked_at row = None →
    dr_refresh_token_hash row = sha token →
    drawn (df_ext s) (df_ext s') access → drawn (df_ext s) (df_ext s') refresh → access ≠ refresh →
    let session := toDeviceSession row (dr_credential_generation row + 1) access refresh (now + ACCESS_TTL_MS) epoch in
    db_sessions (df_db s') = update_where (has_enrollment enrollment)
      (set_credentials (dr_credential_generation row + 1) (sha access) (now + ACCESS_TTL_MS) (sha refresh)
         (Some (dr_refresh_token_hash row)) (Some (now + REFRESH_GRACE_MS)) (Some session)) (db_sessions (df_db s)) →
    db_codes (df_db s') = db_codes (df_db s) → later (df_ext s) (df_ext s') → during s s' now →
    effect s s' c (Ok (rsp_session session))
| eff_revoke enrollment now o :
    db_sessions (df_db s') = update_where (has_enrollment enrollment) (revoke_row now) (db_sessions (df_db s)) →
    db_codes (df_db s') = db_codes (df_db s) → later (df_ext s) (df_ext s') → during s s' now → quiet o →
    effect s s' c o
| eff_delete account now o :
    db_sessions (df_db s') = update_where (on_account account) (revoke_row now) (db_sessions (df_db s)) →
    db_codes (df_db s') = db_codes (df_db s) → later (df_ext s) (df_ext s') → during s s' now → quiet o →
    effect s s' c o
| eff_burn now account class o :
    redeems c now (db_codes (df_db s)) (db_codes (df_db s')) account class →
    db_sessions (df_db s') = db_sessions (df_db s) → later (df_ext s) (df_ext s') → during s s' now → quiet o →
    effect s s' c o
| eff_enroll now account class r access refresh epoch :
    redeems c now (db_codes (df_db s)) (db_codes (df_db s')) account class →
    new_row (df_ext s) (df_ext s') account class r access refresh →
    db_sessions (df_db s') = db_sessions (df_db s) ++ [r] → later (df_ext s) (df_ext s') → during s s' now →
    effect s s' c (Ok (rsp_session (toDeviceSession r 1 access refresh (dr_access_expires_at r) epoch)))
| eff_enroll_undone now account class r access refresh e :
    redeems c now (db_codes (df_db s)) (db_codes (df_db s')) account class →
    new_row (df_ext s) (df_ext s') account class r access refresh →
    db_sessions (df_db s') =
      List.filter (λ x, negb (has_enrollment (dr_enrollment_id r) x)) (db_sessions (df_db s) ++ [r]) →
    later (df_ext s) (df_ext s') → during s s' now → effect s s' c (Throw e)
| eff_issue now row bytes :
    (∀ r, r ∈ db_codes (df_db s) → cr_code_hash r ≠ cr_code_hash row) →
    cr_code_hash row = sha (generateEnrollmentCode bytes).2 → cr_consumed_at row = None →
    cr_expires_at row = now + CODE_TTL_MS →
    count_where (active_code (cr_account_id row) now) (db_codes (df_db s)) < MAX_ACTIVE_CODES_PER_ACCOUNT →
    db_sessions (df_db s') = db_sessions (df_db s) → db_codes (df_db s') = db_codes (df_db s) ++ [row] →
    later (df_ext s) (df_ext s') → during s s' now →
    effect s s' c (Ok (rsp_code (generateEnrollmentCode bytes).1 (cr_expires_at row) (cr_account_id row)))
| eff_sweep now o :
    db_sessions (df_db s') = db_sessions (runSweep now (df_db s)) → db_codes (df_db s') = db_codes (runSweep now (df_db s)) →
    later (df_ext s) (df_ext s') → during s s' now → quiet o → effect s s' c o.

(** ** Running the monad *)

(** Unfold the primitives and run them on the state at hand. *)
Ltac exec :=
  unfold mbind, M_bind, mret, M_ret, d_db, gets, d_now, d_uuid, generateDeviceToken, ext, d_change, modify,
    change_sessions, authError, forbidden;
  cbn [df_db df_ext fst snd].

(** Read the clock. *)
Ltac tick t H :=
  match goal with
  | |- context [ch_now host ?w] =>
      let w' := fresh "w" in let E := fresh "E" in
      destruct (ch_now host w) as [t w'] eqn:E; pose proof (cl_now _ _ _ E) as H; clear E; cbn [df_db df_ext fst snd] in *
  end.

Lemma eff_idle s s' c o : db_sessions (df_db s') = db_sessions (df_db s) → db_codes (df_db s') = db_codes (df_db s) →
  later (df_ext s) (df_ext s') → quiet o → effect s s' c o.
Proof. intros. by apply eff_aside. Qed.

Lemma validate_effect body s :
  effect s (handleValidate host body s).2 (call_validate body) (handleValidate host body s).1.
Proof.
  unfold handleValidate.
  destruct (prop "accessToken" body) as [[| | |token| |]|] eqn:Ep; try (apply eff_aside; [apply aside_refl|done]).
  exec. tick now H. destruct H as [Hl Hn].
  destruct (sessionByAccessHash (sha256Hex host token) (df_db s)) as [row|] eqn:Er; [|by apply eff_idle].
  destruct (is_revoked row || (dr_access_expires_at row <=? now) || enrollmentExpired row now) eqn:Ec; [by apply eff_idle|].
  apply orb_false_iff in Ec as [[Erev Exp]%orb_false_iff Ee]. unfold is_revoked in Erev. reflect_bools.
  apply eff_valid with body token now; try done. split; [|done]. by destruct (dr_revoked_at row).
Qed.

Lemma rotate_effect c s s1 token enrollment row now :
  refresh_request c token enrollment → sessionByEnrollment enrollment (df_db s) = Some row → dr_revoked_at row = None →
  dr_refresh_token_hash row = sha token →
  df_db s1 = df_db s → later (df_ext s) (df_ext s1) → clock (df_ext s) <= now <= clock (df_ext s1) →
  effect s (rotate host row now s1).2 c (rotate host row now s1).1.
Proof.
  intros Hreq Hrow Hrev Hhash Edb Hl Hnow. unfold rotate. exec.
  destruct (ch_token host "at" (df_ext s1)) as [access w1] eqn:E1. apply cl_token in E1 as (L1 & F1 & K1).
  cbn [df_db df_ext]. destruct (ch_token host "rt" w1) as [refresh w2] eqn:E2. apply cl_token in E2 as (L2 & F2 & K2).
  unfold datasetEpoch. cbn [df_db df_ext]. destruct (ch_epoch host (dr_account_id row) w2) as [o w3] eqn:E3.
  apply cl_epoch in E3. assert (later (df_ext s) w3) as Hl3.
  { eapply later_trans; [exact Hl|]. eapply later_trans; [exact L1|]. by eapply later_trans. }
  assert (now <= clock w3) as Hn3. { destruct L1 as [_ ?], L2 as [_ ?], E3 as [_ ?]. lia. }
  destruct o as [epoch|e]; cbn [df_db df_ext].
  2:{ apply eff_idle; cbn [df_db df_ext fst snd]; rewrite ?Edb; try done. }
  eapply eff_rotate with (now := now); try done; cbn [df_db df_ext fst snd].
  - split; [|by apply E3, L2]. intros Hk. by apply F1, Hl.
  - split; [|by apply E3]. intros Hk. by apply F2, L1, Hl.
  - intros ->. by apply F2.
  - rewrite Edb. apply find_first_Some in Hrow as [_ He]. apply String.eqb_eq in He. by rewrite <- He.
  - by rewrite Edb.
  - split; cbn; lia.
Qed.

Definition quiet_m (m : M F Response) : Prop := ∀ s, quiet (m s).1.

Lemma quiet_m_bind {A} (m : M F A) (k : A → M F Response) : (∀ a, quiet_m (k a)) → quiet_m (m ≫= k).
Proof. intros Hk s. unfold mbind, M_bind. destruct (m s) as [[a|e] s1]; [apply Hk|done]. Qed.

Lemma quiet_error code : quiet_m (authError code).
Proof. by intros s. Qed.

(** Rows are revoked and what follows is quiet and stands aside. *)
Lemma revoke_then c s s1 p now (k : M F Response) :
  aside s s1 → during s s1 now → bystander k → quiet_m k →
  (∀ s' o, db_sessions (df_db s') = update_where p (revoke_row now) (db_sessions (df_db s)) →
     db_codes (df_db s') = db_codes (df_db s) → later (df_ext s) (df_ext s') → during s s' now → quiet o →
     effect s s' c o) →
  effect s ((change_sessions p (revoke_row now) ≫= λ _, k) s1).2 c ((change_sessions p (revoke_row now) ≫= λ _, k) s1).1.
Proof.
  intros [Es Ec Hl] Hn Hk Hq Heff. unfold mbind, M_bind, change_sessions, d_change, modify.
  set (s2 := MkDF _ _). pose proof (Hk s2) as [Es2 Ec2 Hl2]. apply Heff.
  - rewrite Es2. unfold s2. cbn [df_db]. by rewrite <- Es.
  - rewrite Ec2. unfold s2. cbn [df_db]. by rewrite <- Ec.
  - eapply later_trans; [exact Hl|exact Hl2].
  - destruct Hl2 as [_ Hc]. unfold during in *. cbn in Hc. lia.
  - apply Hq.
Qed.

Lemma refresh_row_effect c s s1 token enrollment row now gr :
  refresh_request c token enrollment → sessionByEnrollment enrollment (df_db s) = Some row → dr_revoked_at row = None →
  df_db s1 = df_db s → later (df_ext s) (df_ext s1) → during s s1 now →
  let m := refresh_row host row (sha token) (bool_decide (dr_prev_refresh_token_hash row = Some (sha token))) gr now in
  effect s (m s1).2 c (m s1).1.
Proof.
  intros Hreq Hrow Hrev Edb Hl Hn m. unfold m, refresh_row.
  destruct (String.eqb_spec (dr_refresh_token_hash row) (sha token)) as [Eh|_]; cbn [negb].
  { by eapply rotate_effect. }
  destruct (_ && _).
  - apply find_first_Some in Hrow as [_ He]. apply String.eqb_eq in He. rewrite He.
    apply revoke_then; [split; by rewrite ?Edb|done|auto with bystander| |].
    + apply quiet_m_bind. intros _. apply quiet_error.
    + intros. by eapply eff_revoke.
  - apply eff_idle; cbn; by rewrite ?Edb.
Qed.

Lemma refresh_effect body s :
  effect s (handleRefresh host body s).2 (call_refresh body) (handleRefresh host body s).1.
Proof.
  unfold handleRefresh.
  destruct (prop "refreshToken" body) as [[| | |token| |]|] eqn:Et; try (apply eff_aside; [apply aside_refl|done]).
  destruct (prop "enrollmentId" body) as [[| | |enrollment| |]|] eqn:Ee; try (apply eff_aside; [apply aside_refl|done]).
  assert (refresh_request (call_refresh body) token enrollment) as Hreq by by exists body.
  exec. tick t H. destruct H as [Hl Ht].
  destruct (sessionByEnrollment enrollment (df_db s)) as [row|] eqn:Er; [|by apply eff_idle].
  destruct (is_revoked row || enrollmentExpired row t) eqn:Ec; [by apply eff_idle|].
  apply orb_false_iff in Ec as [Erev _]. unfold is_revoked in Erev.
  assert (dr_revoked_at row = None) as Hrev by by destruct (dr_revoked_at row).
  tick now H. destruct H as [Hl2 Hn].
  assert (later (df_ext s) w0) as Hl3 by by eapply later_trans.
  assert (clock (df_ext s) <= now <= clock w0) as Hdur. { destruct Hl as [_ ?]. lia. }
  set (s1 := MkDF (df_db s) w0). unfold sha256Hex.
  set (gr := match dr_prev_refresh_grace_until row with Some g => now <? g | None => false end).
  pose proof (refresh_row_effect (call_refresh body) s s1 token enrollment row now gr Hreq Er Hrev eq_refl Hl3 Hdur) as Hrow.
  destruct (dr_pending_rotated_session row) as [session|] eqn:Ep; [|exact Hrow].
  destruct (bool_decide (dr_prev_refresh_token_hash row = Some (sha token))) eqn:Es; cbn [andb]; [|exact Hrow].
  destruct gr eqn:Eg; [|exact Hrow]. apply bool_decide_eq_true in Es. unfold gr in Eg.
  destruct (dr_prev_refresh_grace_until row) as [g|] eqn:Egr; [|done]. apply Z.ltb_lt in Eg.
  eapply eff_replay with (now := now); try done. by exists g.
Qed.

(** ** Stages of a call

    A stage of a call that started in [s] is what is known of the states in between: it
    survives what stands aside, and a quiet answer may end the call there. *)
Record stage (s : F) (c : Call) (R : F → Prop) : Prop := {
  st_later s1 : R s1 → later (df_ext s) (df_ext s1);
  st_aside s1 s2 : R s1 → aside s1 s2 → R s2;
  st_quiet s1 o : R s1 → quiet o → effect s s1 c o;
}.

(** From the stage [R], [m] ends the call with an effect on [s]. *)
Definition does (s : F) (c : Call) (R : F → Prop) (m : M F Response) : Prop := ∀ s1, R s1 → effect s (m s1).2 c (m s1).1.

Lemma stage_aside s c : stage s c (aside s).
Proof. split; [by intros ? []|intros; by eapply aside_trans|intros; by apply eff_aside]. Qed.

Lemma stage_and s c R (P : F → Prop) :
  stage s c R → (∀ s1 s2, P s1 → later (df_ext s1) (df_ext s2) → P s2) → stage s c (λ s1, R s1 ∧ P s1).
Proof.
  intros [Hl Ha Hq] HP. split.
  - intros ? []; auto.
  - intros s1 s2 [H1 H2] Has. split; [by eapply Ha|]. eapply HP; [done|apply Has].
  - intros s1 o [] ?. auto.
Qed.

Lemma during_later s s1 s2 now : during s s1 now → later (df_ext s1) (df_ext s2) → during s s2 now.
Proof. unfold during. intros ? [_ ?]. lia. Qed.

Lemma drawn_later s s1 s2 x :
  drawn (df_ext s) (df_ext s1) x → later (df_ext s1) (df_ext s2) → drawn (df_ext s) (df_ext s2) x.
Proof. intros [? ?] [Hk _]. split; auto. Qed.

Lemma stage_during s c R now : stage s c R → stage s c (λ s1, R s1 ∧ during s s1 now).
Proof. intros HR. apply (stage_and _ _ _ _ HR). intros ??. apply during_later. Qed.

Lemma stage_drawn s c R x : stage s c R → stage s c (λ s1, R s1 ∧ drawn (df_ext s) (df_ext s1) x).
Proof. intros HR. apply (stage_and _ _ _ _ HR). intros ??. apply drawn_later. Qed.

Section Does.
Variables (s : F) (c : Call) (R : F → Prop).
Hypothesis HR : stage s c R.

Lemma does_quiet m : bystander m → quiet_m m → does s c R m.
Proof using HR. intros Hb Hq s1 H1. apply (st_quiet _ _ _ HR); [|apply Hq]. by eapply (st_aside _ _ _ HR). Qed.

Lemma does_throw m : does s c R (throw m).
Proof using HR. intros s1 H1. by apply (st_quiet _ _ _ HR). Qed.

(** A step that leads to the next stage. *)
Lemma does_step {A} (m : M F A) (k : A → M F Response) R' : stage s c R' → (∀ s1, R s1 → R' (m s1).2) →
  (∀ a, does s c R' (k a)) → does s c R (m ≫= k).
Proof using Type.
  intros HR' Hm Hk s1 H1. specialize (Hm s1 H1). unfold mbind, M_bind. destruct (m s1) as [[a|e] s2]; [by apply Hk|].
  by apply (st_quiet _ _ _ HR').
Qed.

Lemma does_bind {A} (m : M F A) (k : A → M F Response) :
  bystander m → (∀ a, does s c R (k a)) → does s c R (m ≫= k).
Proof using HR. intros Hm. apply does_step; [done|]. intros s1 H1. by eapply (st_aside _ _ _ HR). Qed.

Lemma does_db (k : Db → M F Response) :
  (∀ s1, R s1 → does s c R (k (df_db s1))) → does s c R (d_db ≫= k).
Proof using Type. intros Hk s1 H1. by apply (Hk s1 H1). Qed.

Lemma does_now (k : Z → M F Response) :
  (∀ now, does s c (λ s1, R s1 ∧ during s s1 now) (k now)) → does s c R (d_now host ≫= k).
Proof using HR.
  intros Hk s1 H1. exec. tick now Hn. destruct Hn as [Hl Hn]. apply Hk.
  split; [by apply (st_aside _ _ _ HR s1)|]. apply (st_later _ _ _ HR) in H1 as [_ ?]. unfold during. cbn. lia.
Qed.

Lemma does_uuid (k : string → M F Response) :
  (∀ x, does s c (λ s1, R s1 ∧ drawn (df_ext s) (df_ext s1) x) (k x)) → does s c R (d_uuid host ≫= k).
Proof using HR.
  intros Hk s1 H1. exec. destruct (ch_uuid host (df_ext s1)) as [x w] eqn:E. apply cl_uuid in E as (Hl & Hf & Hx).
  apply Hk. split; [by apply (st_aside _ _ _ HR s1)|]. split; [|done]. intros Hk1. by apply Hf, (st_later _ _ _ HR _ H1).
Qed.
End Does.

(** ** Revocation *)

(** The sessions that [p] picks have been revoked, and nothing else was done. *)
Definition revoked (s : F) (p : SessionRow → bool) (s1 : F) : Prop :=
  ∃ now, db_sessions (df_db s1) = update_where p (revoke_row now) (db_sessions (df_db s)) ∧
    db_codes (df_db s1) = db_codes (df_db s) ∧ later (df_ext s) (df_ext s1) ∧ during s s1 now.

Lemma revoked_aside s p s1 s2 : revoked s p s1 → aside s1 s2 → revoked s p s2.
Proof.
  intros (now & Es & Ec & Hl & Hn) [? ? Hl2]. exists now. split_and!; [congruence..|by eapply later_trans|].
  by eapply during_later.
Qed.

Lemma stage_revoked s c enrollment : stage s c (revoked s (has_enrollment enrollment)).
Proof.
  split; [by intros ? (? & _ & _ & ? & _)|intros ??; apply revoked_aside|].
  intros s1 o (now & ? & ? & ? & ?) ?. by eapply eff_revoke.
Qed.

Lemma stage_deleted s c account : stage s c (revoked s (on_account account)).
Proof.
  split; [by intros ? (? & _ & _ & ? & _)|intros ??; apply revoked_aside|].
  intros s1 o (now & ? & ? & ? & ?) ?. by eapply eff_delete.
Qed.

Lemma change_sessions_revoked s p now s1 :
  aside s s1 ∧ during s s1 now → revoked s p (change_sessions p (revoke_row now) s1).2.
Proof.
  intros [[Es Ec Hl] Hn]. exists now. unfold change_sessions, d_change, modify. cbn [df_db df_ext snd].
  split_and!; [by cbn; rewrite Es|by cbn; rewrite Ec|done..].
Qed.

Lemma revoke_session_revoked s row s1 :
  aside s s1 → revoked s (has_enrollment (dr_enrollment_id row)) (revoke_session host row s1).2.
Proof.
  intros Ha. unfold revoke_session. exec. tick now Hn. destruct Hn as [Hl Hn]. eapply revoked_aside.
  - apply (change_sessions_revoked s _ now (MkDF (df_db s1) w)).
    split; [by eapply aside_trans|]. destruct Ha as [_ _ [_ ?]]. unfold during. cbn. lia.
  - exec. eapply aside_trans; [|apply (bystander_bind (invalidateRecoveryOnTrustedRevoke host _ _)
      (λ _, close_sockets host _ _)); [auto with bystander|intros _; apply bystander_close]].
    split; [done..|apply later_refl].
Qed.

Lemma revoke_session_does s c row k : bystander k → quiet_m k → does s c (aside s) (revoke_session host row ;; k).
Proof.
  intros Hb Hq. eapply does_step; [apply stage_revoked|intros s1; apply revoke_session_revoked|].
  intros _. apply does_quiet; [apply stage_revoked|done..].
Qed.

Lemma quiet_m_ret o : quiet (Ok o) → quiet_m (mret o).
Proof. by intros H s. Qed.
#[local] Hint Resolve stage_aside stage_during stage_drawn stage_revoked stage_deleted quiet_error : bystander.
#[local] Hint Extern 1 (quiet_m (mret _)) => (apply quiet_m_ret; exact I) : bystander.
#[local] Hint Extern 1 (quiet_m (forbidden _)) => (apply quiet_m_ret; exact I) : bystander.
#[local] Hint Extern 1 (bystander (authError _)) => (apply bystander_ret) : bystander.
#[local] Hint Extern 1 (bystander (forbidden _)) => (apply bystander_ret) : bystander.

Ltac still := solve [apply does_quiet; auto 15 with bystander].

Lemma revoke_does bearer body s : does s (call_revoke bearer body) (aside s) (handleRevoke host bearer body).
Proof.
  unfold handleRevoke. destruct (prop "enrollmentId" body) as [[| | |enrollment| |]|]; try still.
  apply does_db. intros s1 H1. destruct (sessionByEnrollment _ _) as [row|]; [|still].
  apply does_bind; auto with bystander. intros t. destruct (_ || _); [|still].
  apply revoke_session_does; auto with bystander.
Qed.

Lemma account_revoke_does c account enrollment s : does s c (aside s) (revokeDeviceOnAccount host account enrollment).
Proof.
  unfold revokeDeviceOnAccount. apply does_db. intros s1 _. destruct (sessionByEnrollment _ _) as [row|]; [|still].
  destruct (on_account _ _); [|still]. apply revoke_session_does; auto with bystander.
Qed.

Lemma device_revoke_does verified body s :
  does s (call_device_revoke verified body) (aside s) (handleDeviceRevoke host verified body).
Proof.
  unfold handleDeviceRevoke. apply does_bind; auto with bystander. intros [[account ?]|]; [|still].
  destruct (prop "enrollmentId" body) as [[| | |enrollment| |]|]; try still. apply account_revoke_does.
Qed.

Lemma delete_does c account s : does s c (aside s) (deleteAccountById host account).
Proof.
  unfold deleteAccountById. apply does_now; auto with bystander. intros now.
  apply does_bind; auto with bystander.
  { apply bystander_change. intros d. by destruct (deleted account d). }
  intros _. eapply does_step; [apply stage_deleted|intros s1; apply change_sessions_revoked|]. intros _.
  repeat (apply does_bind; auto with bystander; intros _). still.
Qed.

Lemma account_delete_does verified s : does s (call_delete verified) (aside s) (handleAccountDelete host verified).
Proof.
  unfold handleAccountDelete. apply does_bind; auto with bystander. intros [[account ?]|]; [|still]. apply delete_does.
Qed.

(** ** Enrollment *)

(** The proof of an enrollment has been accepted: a code is consumed. *)
Definition redeemed (s : F) (c : Call) (account : string) (class : EnrollmentClass) (s1 : F) : Prop :=
  ∃ now, redeems c now (db_codes (df_db s)) (db_codes (df_db s1)) account class ∧
    db_sessions (df_db s1) = db_sessions (df_db s) ∧ later (df_ext s) (df_ext s1) ∧ during s s1 now.

Lemma stage_redeemed s c account class : stage s c (redeemed s c account class).
Proof.
  split; [by intros ? (? & _ & _ & ? & _)| |intros s1 o (now & ? & ? & ? & ?) ?; by eapply eff_burn].
  intros s1 s2 (now & Hr & Es & Hl & Hn) [Es2 Ec2 Hl2]. exists now. rewrite Ec2, Es2.
  split_and!; [done..|by eapply later_trans|by eapply during_later].
Qed.
#[local] Hint Resolve stage_redeemed : bystander.

Lemma issueTokens_does s c account class uuid (row : string → string → Z → Z → SessionRow) :
  (∀ w access refresh now, clock (df_ext s) <= now <= clock w → drawn (df_ext s) w uuid →
     drawn (df_ext s) w access → drawn (df_ext s) w refresh → access ≠ refresh →
     new_row (df_ext s) w account class (row (sha access) (sha refresh) (now + ACCESS_TTL_MS) now) access refresh) →
  (∀ access refresh expires now, dr_access_expires_at (row access refresh expires now) = expires) →
  does s c (λ s1, redeemed s c account class s1 ∧ drawn (df_ext s) (df_ext s1) uuid) (issueTokens host row).
Proof.
  intros Hnew Hexp s1 [(now0 & Hred & Es & Hl & Hn0) Hu]. unfold issueTokens. exec.
  destruct (ch_token host "at" (df_ext s1)) as [access w1] eqn:E1. apply cl_token in E1 as (L1 & F1 & K1). cbn [df_db df_ext].
  destruct (ch_token host "rt" w1) as [refresh w2] eqn:E2. apply cl_token in E2 as (L2 & F2 & K2). cbn [df_db df_ext].
  tick now Hn. destruct Hn as [L3 Hn]. set (r := row _ _ _ _).
  destruct (existsb (has_enrollment _) _).
  { unfold key_taken, throw. cbn [fst snd]. apply (st_quiet _ _ _ (stage_redeemed s c account class)); [|done].
    apply (st_aside _ _ _ (stage_redeemed s c account class) s1); [by exists now0|]. split; [done..|].
    eapply later_trans; [exact L1|]. by eapply later_trans. }
  unfold try_catch, datasetEpoch, sha256Hex. cbn [df_db df_ext].
  destruct (ch_epoch host (dr_account_id r) w) as [o w4] eqn:E4. apply cl_epoch in E4.
  assert (later (df_ext s) w1) as Ls1 by by eapply later_trans.
  assert (later (df_ext s) w2) as Ls2 by by eapply later_trans.
  assert (later w1 w4) as L14 by (eapply later_trans; [exact L2|]; by eapply later_trans).
  assert (later w2 w4) as L24 by by eapply later_trans.
  assert (later (df_ext s) w4) as Ls4 by by eapply later_trans.
  assert (new_row (df_ext s) w4 account class r access refresh) as Hr.
  { apply Hnew.
    - destruct Ls2 as [_ ?], E4 as [_ ?]. lia.
    - apply (drawn_later s s1 (MkDF (df_db s) w4)); [done|]. by eapply later_trans.
    - split; [|by apply L14]. intros Hk. by apply F1, Hl.
    - split; [|by apply L24]. intros Hk. by apply F2, Ls1.
    - intros ->. by apply F2. }
  assert (during s (MkDF (df_db s1) w4) now0) as Hd.
  { apply (during_later s s1); [done|]. by eapply later_trans. }
  destruct o as [epoch|e]; cbn [df_db df_ext fst snd].
  - rewrite (nw_generation _ _ _ _ _ _ _ Hr), <- (Hexp (sha access) (sha refresh) (now + ACCESS_TTL_MS) now). fold r.
    eapply eff_enroll with (now := now0); try done. by rewrite <- Es.
  - eapply eff_enroll_undone with (now := now0); try done. by rewrite <- Es.
Qed.

Lemma register_does s c account inst proof name now g :
  does s c (redeemed s c account (cg_class g)) (register host env account inst proof name now g).
Proof.
  unfold register. apply does_db. intros s1 _. destruct (_ && _); [still|].
  apply does_bind; auto with bystander. intros security. apply does_db. intros s2 _.
  destruct (initial_trust _ _ _ _ _) as [trust source]. apply does_uuid; auto with bystander. intros uuid.
  apply issueTokens_does; [|done]. intros. by constructor; cbn; eauto.
Qed.

Lemma enroll_code_does s code inst name :
  does s (call_enroll_code code inst name) (aside s) (enrollWithCode host env code inst name).
Proof.
  unfold enrollWithCode. apply does_now; auto with bystander. intros now.
  destruct (String.eqb code ""); [still|]. apply does_db. intros s1 [[Es Ec Hl] Hn].
  destruct (find_first _ _) as [row|] eqn:Er; [|still].
  destruct (_ || _) eqn:Ev; [still|]. apply orb_false_iff in Ev as [Eused Eexp%Z.leb_gt].
  eapply does_step; [apply (stage_redeemed _ _ (cr_account_id row) (cr_enrollment_class row))| |].
  - intros s2 [[Es2 Ec2 Hl2] Hn2]. exists now. unfold d_change, modify. cbn [df_db df_ext snd db_codes db_sessions set_codes].
    split_and!; [|done..]. exists row. rewrite Ec2. rewrite Ec in Er. by destruct (cr_consumed_at row).
  - intros _. destruct (_ && _); [still|]. destruct (deleted _ _); [still|].
    apply (register_does _ _ _ _ _ _ _ (Build_CodeGrant _ _ _ _ _ _)).
Qed.

Lemma enroll_signed_in_does s account proof inst name :
  does s (call_enroll_signed_in account proof inst name) (aside s) (enrollSignedIn host env account proof inst name).
Proof.
  unfold enrollSignedIn. apply does_now; auto with bystander. intros now s1 [[Es Ec Hl] Hn].
  apply (register_does _ _ _ _ _ _ _ (Build_CodeGrant _ _ _ _ _ _)). exists now. cbn. by rewrite Ec.
Qed.

(** ** Codes and the sweep *)

Lemma issue_does s c account name by_ o : does s c (aside s) (issueCodeForAccount host account name by_ o).
Proof.
  unfold issueCodeForAccount. apply does_db. intros s1 Hs1. destruct (deleted _ _); [still|].
  apply does_now; auto with bystander. intros now.
  destruct (_ <=? _) eqn:En; [still|]. apply Z.leb_gt in En. destruct (_ && _); [still|].
  intros s2 [[Es Ec Hl] Hn]. exec. destruct (ch_bytes host (df_ext s2)) as [bytes w] eqn:Eb.
  apply cl_bytes in Eb as Lb. destruct (generateEnrollmentCode bytes) as [code normal] eqn:Eg.
  cbn [df_db df_ext fst snd db_codes db_sessions set_codes] in *.
  assert ((code, normal).1 = (generateEnrollmentCode bytes).1 ∧ (code, normal).2 = (generateEnrollmentCode bytes).2) as [Ecode Enorm]
    by by rewrite Eg.
  cbn in Ecode, Enorm. rewrite Ecode. cbn [cr_code_hash].
  destruct (existsb _ _) eqn:Ek.
  { apply eff_idle; cbn; [done..|by eapply later_trans|done]. }
  eapply (eff_issue _ _ _ now (Build_CodeRow _ _ _ _ _ _ _ _ _ _ _ _) bytes); cbn; rewrite <- ?Enorm; try done.
  - intros r Hr E. rewrite <- (as_codes _ _ Hs1) in Hr. apply not_true_iff_false in Ek. destruct Ek.
    apply existsb_exists. exists r. split; [by apply list_elem_of_In|]. by apply String.eqb_eq.
  - by rewrite <- (as_codes _ _ Hs1).
  - by rewrite Ec.
  - by eapply later_trans.
  - by apply (during_later s s2).
Qed.

Lemma issue_code_does header bearer body s :
  does s (call_issue header bearer body) (aside s) (handleIssueCode host env header bearer body).
Proof.
  unfold handleIssueCode. destruct (negb _); [still|].
  assert (∀ account by_, does s (call_issue header bearer body) (aside s) (issue_code_as host env body account by_)) as Hc.
  { intros account by_. unfold issue_code_as. destruct (parseIssueOptions body) as [o|]; [|still].
    destruct (_ && _); [still|]. apply issue_does. }
  destruct (match ev_admin_token env with Some _ => _ | None => _ end).
  - destruct (prop "accountId" body) as [[| | |account| |]|]; try still. destruct (String.eqb _ _); [still|]. apply Hc.
  - destruct bearer as [token|]; [|still]. apply does_db. intros s1 _. apply does_bind; auto with bystander. intros now.
    destruct (sessionByAccessHash _ _) as [row|]; [|still]. destruct (_ || _); [still|]. destruct (bool_decide _); [still|].
    apply Hc.
Qed.

Lemma internal_issue_does body s : does s (call_internal_issue body) (aside s) (handleInternalIssueCode host body).
Proof.
  unfold handleInternalIssueCode. destruct (prop "accountId" body) as [[| | |account| |]|]; try still.
  destruct (String.eqb _ _); [still|]. destruct (parseIssueOptions body) as [o|]; [|still]. apply issue_does.
Qed.

Lemma alarm_does s : does s call_alarm (aside s) (alarm host ;; mret (rsp_revoked None)).
Proof.
  intros s1 [Es Ec Hl]. unfold alarm. exec. tick now Hn. destruct Hn as [Ln Hn].
  apply eff_sweep with now; cbn; rewrite ?Es, ?Ec; try done; [by eapply later_trans|].
  destruct Hl as [_ ?]. unfold during. cbn. lia.
Qed.

(** Every call is a step of the abstract machine. *)
Lemma call_effect c s : effect s (run_call host env c s).2 c (run_call host env c s).1.
Proof.
  destruct c; cbn [run_call].
  3: apply refresh_effect.
  3: apply validate_effect.
  all: match goal with |- effect ?s (?m ?s).2 ?c _ => enough (does s c (aside s) m) as H by (apply H, aside_refl) end.
  - apply enroll_code_does.
  - apply enroll_signed_in_does.
  - apply revoke_does.
  - apply device_revoke_does.
  - apply account_revoke_does.
  - apply account_delete_does.
  - apply issue_code_does.
  - apply internal_issue_does.
  - apply alarm_does.
Qed.
End Effect.
