(* ===== verification/DeviceSessionHistory.v ===== *)
(** * Desktop app cloud: what the session tables say of the calls made

    Runs of the coordinator, the sessions they handed out, and the invariant that ties the
    tables to them: every row is the latest session handed out for its enrollment. *)

From stdpp Require Import base list strings sets.
From Stdlib Require Import ZArith Ascii Lia.
From S2P Require Import Prelude JsString JsValue DeviceSession DeviceSessionEffect.

(** ** Runs *)

Definition Log := list (Call * outcome Response).

Definition handed (o : outcome Response) : option DeviceSession :=
  match o with Ok (rsp_session x) => Some x | _ => None end.

(** The sessions handed out, the oldest first. *)
Definition sessions_of (log : Log) : list DeviceSession := omap (λ p, handed p.2) log.

(** The last of an enrollment. *)
Definition latest (e : string) (log : Log) : option DeviceSession :=
  last (List.filter (λ x, String.eqb (ds_enrollmentId x) e) (sessions_of log)).

Section Runs.
Context {W : Type} (host : CloudHost W) (env : CloudEnv).
Notation F := (DF W).

Inductive runs (s : F) : Log → F → Prop :=
| runs_none : runs s [] s
| runs_call log s1 c : runs s log s1 →
    runs s (log ++ [(c, (run_call host env c s1).1)]) (run_call host env c s1).2.

(** The log and the state of a coordinator that began with no sessions and no codes. *)
Definition reached (log : Log) (s : F) : Prop :=
  ∃ s0, db_sessions (df_db s0) = [] ∧ db_codes (df_db s0) = [] ∧ runs s0 log s.

Lemma runs_app s log1 s1 log2 s2 : runs s log1 s1 → runs s1 log2 s2 → runs s (log1 ++ log2) s2.
Proof.
  intros H1. induction 1 as [|log2 s2 c H2 IH]; [by rewrite app_nil_r|]. rewrite app_assoc. by constructor.
Qed.
End Runs.

(** ** Lists *)

Lemma update_where_ids {A B} (f : A → B) p (g : A → A) l : (∀ x, f (g x) = f x) → f <$> update_where p g l = f <$> l.
Proof.
  intros H. unfold update_where. rewrite <- list_fmap_compose. apply list_fmap_ext. intros i x _. cbn. by destruct (p x).
Qed.

Lemma elem_of_update_where {A} p (g : A → A) l y :
  y ∈ update_where p g l ↔ ∃ x, x ∈ l ∧ y = if p x then g x else x.
Proof. unfold update_where. rewrite list_elem_of_fmap. naive_solver. Qed.

Lemma latest_snoc e log c o :
  latest e (log ++ [(c, o)]) =
    match handed o with Some x => if String.eqb (ds_enrollmentId x) e then Some x else latest e log | None => latest e log end.
Proof.
  unfold latest, sessions_of. rewrite omap_app, List.filter_app. cbn. destruct (handed o) as [x|]; cbn.
  - destruct (String.eqb _ _); [by rewrite last_snoc|by rewrite app_nil_r].
  - by rewrite app_nil_r.
Qed.

Lemma latest_elem e log x : latest e log = Some x → x ∈ sessions_of log ∧ ds_enrollmentId x = e.
Proof.
  unfold latest. intros H. apply last_Some_elem_of in H. apply list_elem_of_In, List.filter_In in H as [H E].
  apply list_elem_of_In in H. by apply String.eqb_eq in E.
Qed.

Lemma sessions_snoc log c o : sessions_of (log ++ [(c, o)]) = sessions_of log ++ match handed o with Some x => [x] | None => [] end.
Proof. unfold sessions_of. rewrite omap_app. cbn. by destruct (handed o). Qed.

Lemma quiet_handed o : quiet o → handed o = None.
Proof. by destruct o as [[]|]. Qed.

Lemma append_inj (p a b : string) : p +:+ a = p +:+ b → a = b.
Proof. induction p; cbn; [done|]. intros [=]. auto. Qed.

(** ** The invariant *)

Section Invariant.
Context {W : Type} (host : CloudHost W) `{!CloudLaws host} (env : CloudEnv).
Notation F := (DF W).
Notation sha := (ch_sha256 host).
Notation drawn := (drawn host).
Notation effect := (effect host).
Notation aside := (aside host).

Definition known_id (w : W) (id : string) : Prop := ∃ u, id = "enr_" +:+ u ∧ known w u.
Definition known_hash (w : W) (h : string) : Prop := ∃ x, h = sha x ∧ known w x.

(** The row is of the session [cur]; what it keeps of the rotation that made [cur] is its
    predecessor's token, the end of the grace period and [cur] itself, all or nothing. *)
Record shows (log : Log) (cur : DeviceSession) (r : SessionRow) : Prop := {
  sh_enrollment : ds_enrollmentId cur = dr_enrollment_id r;
  sh_account : ds_accountId cur = dr_account_id r;
  sh_access : dr_access_token_hash r = sha (ds_accessToken cur);
  sh_refresh : dr_refresh_token_hash r = sha (ds_refreshToken cur);
  sh_expires : dr_access_expires_at r = ds_accessExpiresAt cur;
  sh_generation : dr_credential_generation r = ds_credentialGeneration cur;
  sh_prev :
    match dr_prev_refresh_token_hash r, dr_prev_refresh_grace_until r, dr_pending_rotated_session r with
    | None, None, None => True
    | Some h, Some g, Some x =>
        x = cur ∧ g = ds_accessExpiresAt cur - ACCESS_TTL_MS + REFRESH_GRACE_MS ∧
        ∃ old, old ∈ sessions_of log ∧ ds_enrollmentId old = ds_enrollmentId cur ∧
          ds_credentialGeneration cur = ds_credentialGeneration old + 1 ∧ h = sha (ds_refreshToken old) ∧
          ds_refreshToken old ≠ ds_refreshToken cur
    | _, _, _ => False
    end;
}.

Record represents (w : W) (log : Log) (r : SessionRow) : Prop := {
  rp_id : known_id w (dr_enrollment_id r);
  rp_hash : known_hash w (dr_access_token_hash r);
  rp_refresh : known_hash w (dr_refresh_token_hash r);
  rp_latest : ∃ cur, latest (dr_enrollment_id r) log = Some cur ∧ shows log cur r;
}.

Record sound (log : Log) (s : F) : Prop := {
  so_ids : NoDup (dr_enrollment_id <$> db_sessions (df_db s));
  so_rows r : r ∈ db_sessions (df_db s) → represents (df_ext s) log r;
  so_access r1 r2 : r1 ∈ db_sessions (df_db s) → r2 ∈ db_sessions (df_db s) →
    dr_access_token_hash r1 = dr_access_token_hash r2 → dr_enrollment_id r1 = dr_enrollment_id r2;
  so_log x : x ∈ sessions_of log → known_id (df_ext s) (ds_enrollmentId x);
}.

Lemma known_id_later w w' id : known_id w id → later w w' → known_id w' id.
Proof. intros (u & -> & Hu) [Hl _]. exists u. auto. Qed.

Lemma known_hash_later w w' h : known_hash w h → later w w' → known_hash w' h.
Proof. intros (u & -> & Hu) [Hl _]. exists u. auto. Qed.

Lemma fresh_id w w' u : drawn w w' u → ¬ known_id w ("enr_" +:+ u).
Proof. intros [Hf _] (u' & E & Hu). apply append_inj in E as <-. done. Qed.

Lemma fresh_hash w w' x : drawn w w' x → ¬ known_hash w (sha x).
Proof. intros [Hf _] (x' & E & Hx). apply (inj sha) in E as <-. done. Qed.

Lemma shows_log log log' cur r : shows log cur r → (∀ x, x ∈ sessions_of log → x ∈ sessions_of log') → shows log' cur r.
Proof.
  intros [] Hsub. split; [done..|]. destruct (dr_prev_refresh_token_hash r), (dr_prev_refresh_grace_until r),
    (dr_pending_rotated_session r); try done.
  destruct sh_prev0 as (? & ? & old & ? & ? & ? & ? & ?). split_and!; [done..|]. exists old. auto.
Qed.

(** ** Rows that stay *)

(** A row with the credentials it had; only a sweep drops what it kept of its last
    rotation, once the grace period was over, before the time [k]. *)
Record descends (k : Z) (r r' : SessionRow) : Prop := {
  de_id : dr_enrollment_id r' = dr_enrollment_id r;
  de_account : dr_account_id r' = dr_account_id r;
  de_access : dr_access_token_hash r' = dr_access_token_hash r;
  de_refresh : dr_refresh_token_hash r' = dr_refresh_token_hash r;
  de_expires : dr_access_expires_at r' = dr_access_expires_at r;
  de_generation : dr_credential_generation r' = dr_credential_generation r;
  de_revoked : is_Some (dr_revoked_at r) → is_Some (dr_revoked_at r');
  de_prev : (dr_prev_refresh_token_hash r', dr_prev_refresh_grace_until r', dr_pending_rotated_session r') =
      (dr_prev_refresh_token_hash r, dr_prev_refresh_grace_until r, dr_pending_rotated_session r) ∨
    (dr_prev_refresh_token_hash r', dr_prev_refresh_grace_until r', dr_pending_rotated_session r') = (None, None, None) ∧
    ∃ g, dr_prev_refresh_grace_until r = Some g ∧ g < k;
}.

Definition kept (k : Z) (l l' : list SessionRow) : Prop :=
  (dr_enrollment_id <$> l') `sublist_of` (dr_enrollment_id <$> l) ∧ ∀ r', r' ∈ l' → ∃ r, r ∈ l ∧ descends k r r'.

Lemma descends_refl k r : descends k r r.
Proof. split; auto. Qed.

Lemma descends_trans k r1 r2 r3 : descends k r1 r2 → descends k r2 r3 → descends k r1 r3.
Proof.
  intros [? ? ? ? ? ? ? P1] [? ? ? ? ? ? ? P2]. split; [congruence..|auto|].
  destruct P2 as [->|(-> & g & Eg & Hg)]; [done|].
  destruct P1 as [[= _ E2 _]|(_ & P1)]; [|by right]. right. split; [done|]. exists g. split; [congruence|done].
Qed.

Lemma descends_revoke k now r : descends k r (revoke_row now r).
Proof. split; cbn; auto. Qed.

Lemma kept_refl k l : kept k l l.
Proof. split; [done|]. intros r ?. exists r. split; [done|apply descends_refl]. Qed.

Lemma kept_trans k l1 l2 l3 : kept k l1 l2 → kept k l2 l3 → kept k l1 l3.
Proof.
  intros [S1 H1] [S2 H2]. split; [by etrans|]. intros r (r2 & Hr2 & D2)%H2. apply H1 in Hr2 as (r1 & ? & D1).
  exists r1. split; [done|]. by eapply descends_trans.
Qed.

Lemma kept_update k p f l : (∀ r, dr_enrollment_id (f r) = dr_enrollment_id r) →
  (∀ r, p r = true → descends k r (f r)) → kept k l (update_where p f l).
Proof.
  intros Hid Hf. split; [by rewrite update_where_ids|].
  intros r' (r & ? & ->)%elem_of_update_where. exists r. split; [done|].
  destruct (p r) eqn:E; [by apply Hf|apply descends_refl].
Qed.

Lemma kept_revoke k p now l : kept k l (update_where p (revoke_row now) l).
Proof. apply kept_update; [done|]. intros r _. apply descends_revoke. Qed.

Lemma sublist_filter {A} p (l : list A) : List.filter p l `sublist_of` l.
Proof. induction l as [|x l IH]; cbn; [done|]. by destruct (p x); constructor. Qed.

Lemma kept_filter k p l : kept k l (List.filter p l).
Proof.
  split; [apply fmap_sublist, sublist_filter|]. intros r Hr. exists r. split; [|apply descends_refl].
  apply list_elem_of_In, List.filter_In in Hr as [? _]. by apply list_elem_of_In.
Qed.

Lemma kept_sweep k now d : now <= k → kept k (db_sessions d) (db_sessions (runSweep now d)).
Proof.
  intros Hk. cbn. eapply kept_trans; [|apply kept_revoke]. eapply kept_trans; [|apply kept_filter].
  apply kept_update; [done|]. intros r Hl. destruct (dr_prev_refresh_grace_until r) as [g|] eqn:Eg; [|done].
  apply Z.ltb_lt in Hl. split; cbn; auto. right. split; [done|]. exists g. split; [done|lia].
Qed.

Lemma represents_descends k w log r r' : represents w log r → descends k r r' → represents w log r'.
Proof.
  intros [Hid Hh Hf (cur & Hl & [Sh1 Sh2 Sh3 Sh4 Sh5 Sh6 Sh7])] [D1 D2 D3 D4 D5 D6 _ D7].
  split; [by rewrite D1|by rewrite D3|by rewrite D4|]. exists cur. rewrite D1. split; [done|].
  split; [congruence..|]. by destruct D7 as [[= -> -> ->]|[[= -> -> ->] _]].
Qed.

(** A quiet answer that leaves the rows or takes from them. *)
Lemma sound_kept k log s s' c o :
  sound log s → kept k (db_sessions (df_db s)) (db_sessions (df_db s')) → later (df_ext s) (df_ext s') → handed o = None →
  sound (log ++ [(c, o)]) s'.
Proof.
  intros [Hids Hrows Hacc Hlog] [Hsub Hk] Hl Ho.
  assert (∀ e, latest e (log ++ [(c, o)]) = latest e log) as Elat by (intros e; by rewrite latest_snoc, Ho).
  assert (sessions_of (log ++ [(c, o)]) = sessions_of log) as Eses by by rewrite sessions_snoc, Ho, app_nil_r.
  split.
  - by eapply sublist_NoDup.
  - intros r' (r & Hr & D)%Hk. destruct (represents_descends _ _ _ _ _ (Hrows r Hr) D) as [Hid Hh Hf (cur & Hc & Hs)].
    split; [by eapply known_id_later|by eapply known_hash_later..|]. exists cur. rewrite Elat. split; [done|].
    apply (shows_log log); [done|]. by rewrite Eses.
  - intros r1 r2 (r1' & ? & [-> _ -> _ _ _ _ _])%Hk (r2' & ? & [-> _ -> _ _ _ _ _])%Hk. by apply Hacc.
  - rewrite Eses. intros x Hx. eapply known_id_later; [by apply Hlog|done].
Qed.

(** ** Rows that change *)

Lemma row_unique log s r1 r2 : sound log s → r1 ∈ db_sessions (df_db s) → r2 ∈ db_sessions (df_db s) →
  dr_enrollment_id r1 = dr_enrollment_id r2 → r1 = r2.
Proof.
  intros Hs (i & Hi)%list_elem_of_lookup (j & Hj)%list_elem_of_lookup E.
  pose proof (so_ids _ _ Hs) as Hnd. enough (i = j) as -> by congruence.
  apply (NoDup_lookup _ i j (dr_enrollment_id r1)) in Hnd; [done|by rewrite list_lookup_fmap, Hi|].
  by rewrite list_lookup_fmap, Hj, E.
Qed.

Lemma session_elem e d row : sessionByEnrollment e d = Some row → row ∈ db_sessions d ∧ dr_enrollment_id row = e.
Proof. intros [? H]%find_first_Some. by apply String.eqb_eq in H. Qed.

(** A row of the table and what was handed out for it. *)
Lemma sound_row log s e row : sound log s → sessionByEnrollment e (df_db s) = Some row →
  known_id (df_ext s) e ∧ ∃ cur, latest e log = Some cur ∧ shows log cur row.
Proof.
  intros Hs [Hin <-]%session_elem. destruct (so_rows _ _ Hs _ Hin) as [? _ _ ?]. by split.
Qed.

(** What was handed out for the other enrollments stands. *)
Lemma represents_other w w' log c o x r : represents w log r → later w w' → handed o = Some x →
  ds_enrollmentId x ≠ dr_enrollment_id r → represents w' (log ++ [(c, o)]) r.
Proof.
  intros [Hid Hh Hf (cur & Hl & Hs)] Hlater Ho Hne.
  split; [by eapply known_id_later|by eapply known_hash_later..|]. exists cur. rewrite latest_snoc, Ho.
  destruct (String.eqb_spec (ds_enrollmentId x) (dr_enrollment_id r)) as [|_]; [done|]. split; [done|].
  apply (shows_log log); [done|]. intros y Hy. rewrite sessions_snoc. set_solver.
Qed.

Lemma sound_log_snoc log w w' c o x : (∀ y, y ∈ sessions_of log → known_id w (ds_enrollmentId y)) → later w w' →
  handed o = Some x → known_id w' (ds_enrollmentId x) →
  ∀ y, y ∈ sessions_of (log ++ [(c, o)]) → known_id w' (ds_enrollmentId y).
Proof.
  intros Hlog Hl Ho Hx y. rewrite sessions_snoc, Ho. intros [Hy|Hy]%elem_of_app.
  - eapply known_id_later; [by apply Hlog|done].
  - by apply list_elem_of_singleton in Hy as ->.
Qed.

Lemma sound_replay log s s' c row e x : sound log s → sessionByEnrollment e (df_db s) = Some row →
  dr_pending_rotated_session row = Some x → db_sessions (df_db s') = db_sessions (df_db s) → later (df_ext s) (df_ext s') →
  sound (log ++ [(c, Ok (rsp_session x))]) s'.
Proof.
  intros Hs Hrow Hp Es Hl. destruct (sound_row _ _ _ _ Hs Hrow) as (Hid & cur & Hcur & Sh).
  assert (x = cur) as ->.
  { destruct Sh as [_ _ _ _ _ _ Sp]. rewrite Hp in Sp.
    destruct (dr_prev_refresh_token_hash row), (dr_prev_refresh_grace_until row); try done. by destruct Sp. }
  pose proof (latest_elem _ _ _ Hcur) as [_ Hce].
  split; rewrite ?Es.
  - apply Hs.
  - intros r Hr. destruct (String.eqb_spec e (dr_enrollment_id r)) as [->|Hne].
    + destruct (so_rows _ _ Hs _ Hr) as [? ? ? (cur' & Hl' & Sh')]. assert (cur' = cur) as -> by congruence.
      split; [by eapply known_id_later|by eapply known_hash_later..|]. exists cur. rewrite latest_snoc. cbn.
      rewrite Hce, String.eqb_refl. split; [done|]. apply (shows_log log); [done|]. intros y Hy.
      rewrite sessions_snoc. set_solver.
    + eapply represents_other; [by apply (so_rows _ _ Hs)|done|done|congruence].
  - apply Hs.
  - eapply sound_log_snoc; [apply Hs|done|done|]. rewrite Hce. by eapply known_id_later.
Qed.

Lemma sound_rotate log s s' c row access refresh epoch now :
  sound log s → sessionByEnrollment (dr_enrollment_id row) (df_db s) = Some row →
  drawn (df_ext s) (df_ext s') access → drawn (df_ext s) (df_ext s') refresh → later (df_ext s) (df_ext s') →
  let session := toDeviceSession row (dr_credential_generation row + 1) access refresh (now + ACCESS_TTL_MS) epoch in
  db_sessions (df_db s') = update_where (has_enrollment (dr_enrollment_id row))
    (set_credentials (dr_credential_generation row + 1) (sha access) (now + ACCESS_TTL_MS) (sha refresh)
       (Some (dr_refresh_token_hash row)) (Some (now + REFRESH_GRACE_MS)) (Some session)) (db_sessions (df_db s)) →
  sound (log ++ [(c, Ok (rsp_session session))]) s'.
Proof.
  intros Hs Hrow Ha Hf Hl session Es. destruct (sound_row _ _ _ _ Hs Hrow) as (Hid & cur & Hcur & Sh).
  pose proof (session_elem _ _ _ Hrow) as [Hin _].
  assert (∀ r, r ∈ db_sessions (df_db s) → dr_access_token_hash r ≠ sha access) as Hfresh.
  { intros r Hr E. apply (fresh_hash _ _ _ Ha). rewrite <- E. apply (so_rows _ _ Hs _ Hr). }
  split; rewrite ?Es.
  - rewrite update_where_ids; [apply Hs|done].
  - intros r' (r & Hr & ->)%elem_of_update_where. unfold has_enrollment.
    destruct (String.eqb_spec (dr_enrollment_id r) (dr_enrollment_id row)) as [E|Hne].
    + pose proof (row_unique _ _ _ _ Hs Hr Hin E) as ->. split; cbn.
      * by eapply known_id_later.
      * exists access. split; [done|apply Ha].
      * exists refresh. split; [done|apply Hf].
      * exists session. rewrite latest_snoc. cbn. rewrite String.eqb_refl. split; [done|]. split; cbn; try done.
        split_and!; [done|lia|]. exists cur. rewrite sessions_snoc. cbn.
        pose proof (latest_elem _ _ _ Hcur) as [Hc _]. destruct Sh as [? ? ? Sr ? ? _]. split_and!; [set_solver|done|lia|done|].
        intros Eq. apply (fresh_hash _ _ _ Hf). cbn in Eq. rewrite <- Eq, <- Sr. apply (so_rows _ _ Hs _ Hin).
    + eapply represents_other; [by apply (so_rows _ _ Hs)|done|done|]. cbn. congruence.
  - intros r1' r2' (r1 & H1 & ->)%elem_of_update_where (r2 & H2 & ->)%elem_of_update_where. unfold has_enrollment.
    destruct (String.eqb_spec (dr_enrollment_id r1) (dr_enrollment_id row)),
      (String.eqb_spec (dr_enrollment_id r2) (dr_enrollment_id row)); cbn.
    + congruence.
    + intros E. by destruct (Hfresh r2).
    + intros E. by destruct (Hfresh r1).
    + by apply (so_access _ _ Hs).
  - eapply sound_log_snoc; [apply Hs|done|done|]. by eapply known_id_later.
Qed.

Lemma sound_enroll log s s' c account class r access refresh epoch :
  sound log s → new_row host (df_ext s) (df_ext s') account class r access refresh → later (df_ext s) (df_ext s') →
  db_sessions (df_db s') = db_sessions (df_db s) ++ [r] →
  sound (log ++ [(c, Ok (rsp_session (toDeviceSession r 1 access refresh (dr_access_expires_at r) epoch)))]) s'.
Proof.
  intros Hs Hnew Hl Es. destruct Hnew as [(u & Eid & Hu) [Eacc Ha] [Eref Href] _ _ _ Egen Ep Eg Epend _ _].
  assert (∀ r', r' ∈ db_sessions (df_db s) → dr_enrollment_id r' ≠ dr_enrollment_id r) as Hnew.
  { intros r' Hr E. apply (fresh_id _ _ _ Hu). rewrite <- Eid, <- E. apply (so_rows _ _ Hs _ Hr). }
  assert (∀ r', r' ∈ db_sessions (df_db s) → dr_access_token_hash r' ≠ dr_access_token_hash r) as Hfresh.
  { intros r' Hr E. apply (fresh_hash _ _ _ Ha). rewrite <- Eacc, <- E. apply (so_rows _ _ Hs _ Hr). }
  assert (known_id (df_ext s') (dr_enrollment_id r)) as Hid by (exists u; split; [done|apply Hu]).
  split; rewrite ?Es.
  - rewrite fmap_app. cbn. apply NoDup_app. split_and!; [apply Hs| |apply NoDup_singleton].
    intros x (r' & -> & Hr)%list_elem_of_fmap. rewrite list_elem_of_singleton. by apply Hnew.
  - intros r' [Hr|Hr]%elem_of_app.
    + eapply represents_other; [by apply (so_rows _ _ Hs)|done|done|]. cbn. intros E. by destruct (Hnew r').
    + apply list_elem_of_singleton in Hr as ->. split; [done|exists access; split; [done|apply Ha]|exists refresh; split; [done|apply Href]|].
      eexists. rewrite latest_snoc. cbn. rewrite String.eqb_refl. split; [done|]. split; cbn; try done.
      by rewrite Ep, Eg, Epend.
  - intros r1 r2 [H1|H1]%elem_of_app [H2|H2]%elem_of_app.
    + by apply (so_access _ _ Hs).
    + apply list_elem_of_singleton in H2 as ->. intros E. by destruct (Hfresh r1).
    + apply list_elem_of_singleton in H1 as ->. intros E. by destruct (Hfresh r2).
    + apply list_elem_of_singleton in H1 as ->. by apply list_elem_of_singleton in H2 as ->.
  - by eapply sound_log_snoc; [apply Hs|..].
Qed.

(** An enrollment that failed leaves the rows as they were. *)
Lemma kept_undone k l r : kept k l (List.filter (λ x, negb (has_enrollment (dr_enrollment_id r) x)) (l ++ [r])).
Proof.
  rewrite List.filter_app. cbn. unfold has_enrollment at 2. rewrite String.eqb_refl. cbn. rewrite app_nil_r. apply kept_filter.
Qed.

Definition enrolls (c : Call) : Prop :=
  match c with call_enroll_code _ _ _ | call_enroll_signed_in _ _ _ _ => True | _ => False end.

(** What an effect does to the rows: it hands out no session and they stay, it hands out
    the session of a row again, renews it, or adds a row for it. *)
Inductive change (s s' : F) (c : Call) : outcome Response → Prop :=
| change_kept o : handed o = None → kept (clock (df_ext s')) (db_sessions (df_db s)) (db_sessions (df_db s')) → change s s' c o
| change_replay token enrollment row session now :
    refresh_request c token enrollment → sessionByEnrollment enrollment (df_db s) = Some row → dr_revoked_at row = None →
    superseded host row token → in_grace row now → dr_pending_rotated_session row = Some session →
    during host s s' now → db_sessions (df_db s') = db_sessions (df_db s) → change s s' c (Ok (rsp_session session))
| change_rotate token row access refresh epoch now :
    refresh_request c token (dr_enrollment_id row) → sessionByEnrollment (dr_enrollment_id row) (df_db s) = Some row →
    dr_revoked_at row = None → dr_refresh_token_hash row = sha token →
    drawn (df_ext s) (df_ext s') access → drawn (df_ext s) (df_ext s') refresh → during host s s' now →
    let session := toDeviceSession row (dr_credential_generation row + 1) access refresh (now + ACCESS_TTL_MS) epoch in
    db_sessions (df_db s') = update_where (has_enrollment (dr_enrollment_id row))
      (set_credentials (dr_credential_generation row + 1) (sha access) (now + ACCESS_TTL_MS) (sha refresh)
         (Some (dr_refresh_token_hash row)) (Some (now + REFRESH_GRACE_MS)) (Some session)) (db_sessions (df_db s)) →
    change s s' c (Ok (rsp_session session))
| change_enroll account class r access refresh epoch :
    enrolls c →
    new_row host (df_ext s) (df_ext s') account class r access refresh →
    db_sessions (df_db s') = db_sessions (df_db s) ++ [r] →
    change s s' c (Ok (rsp_session (toDeviceSession r 1 access refresh (dr_access_expires_at r) epoch))).

Lemma effect_change s s' c o : effect s s' c o → change s s' c o ∧ later (df_ext s) (df_ext s').
Proof.
  intros [o' Ha Hq|? ? ? ? ? ? ? ? ? Ha ?|? ? row ? ? ? ? ? ? ? ? Ha ?|? ? row ? ? ? ? ? Hrow ? ? ? ? ? ? Es ? ? ?
    |? ? ? Es ? ? [_ ?] Hq|? ? ? Es ? ? [_ ?] Hq|? ? ? ? ? Es ? ? Hq|? ? ? ? ? ? ? ? ? Es ? ?|? ? ? ? ? ? ? ? ? Es ? ?
    |? ? ? ? ? ? ? ? Es ? ? ?|? ? Es ? ? [_ ?] Hq]; (split; [|try done; apply Ha]).
  - apply change_kept; [by apply quiet_handed|]. rewrite (as_sessions _ _ _ Ha). apply kept_refl.
  - apply change_kept; [done|]. rewrite (as_sessions _ _ _ Ha). apply kept_refl.
  - eapply change_replay; eauto. apply Ha.
  - pose proof (session_elem _ _ _ Hrow) as [_ <-]. by eapply change_rotate.
  - apply change_kept; [by apply quiet_handed|]. rewrite Es. apply kept_revoke.
  - apply change_kept; [by apply quiet_handed|]. rewrite Es. apply kept_revoke.
  - apply change_kept; [by apply quiet_handed|]. rewrite Es. apply kept_refl.
  - eapply change_enroll; [|done..]. by destruct c.
  - apply change_kept; [done|]. rewrite Es. apply kept_undone.
  - apply change_kept; [done|]. rewrite Es. apply kept_refl.
  - apply change_kept; [by apply quiet_handed|]. rewrite Es. by apply kept_sweep.
Qed.

Lemma step_change c s :
  change s (run_call host env c s).2 c (run_call host env c s).1 ∧ later (df_ext s) (df_ext (run_call host env c s).2).
Proof. apply effect_change, call_effect. Qed.

Lemma step_sound log c s : sound log s → sound (log ++ [(c, (run_call host env c s).1)]) (run_call host env c s).2.
Proof.
  intros Hs. destruct (step_change c s) as [[] Hl].
  - by eapply sound_kept.
  - by eapply sound_replay.
  - by eapply sound_rotate.
  - by eapply sound_enroll.
Qed.

Lemma runs_sound s log0 log s' : sound log0 s → runs host env s log s' → sound (log0 ++ log) s'.
Proof.
  intros Hs. induction 1 as [|log s1 c H IH]; [by rewrite app_nil_r|]. rewrite app_assoc.
  by apply step_sound.
Qed.

Lemma reached_sound log s : reached host env log s → sound log s.
Proof.
  intros (s0 & Es & _ & H). apply (runs_sound s0 []); [|done]. split; rewrite ?Es; cbn; try constructor; set_solver.
Qed.
End Invariant.
