(* ===== verification/DeviceSessionFixtures.v ===== *)
(** * Desktop app cloud: a concrete coordinator, and runs of it *)

From stdpp Require Import base list strings.
From Stdlib Require Import ZArith Ascii Lia.
From S2P Require Import Prelude JsString JsValue DeviceSession DeviceSessionEffect DeviceSessionHistory.

(** Strings drawn are ever longer, and reading the clock takes ten seconds. *)
Record DemoWorld := { dw_length : nat; dw_time : Z }.

Fixpoint pad (n : nat) : string := match n with O => "" | S n => String "x" (pad n) end.

Definition draw (kind : string) (w : DemoWorld) : string * DemoWorld :=
  let x := kind +:+ pad (S (dw_length w)) in (x, {| dw_length := String.length x; dw_time := dw_time w |}).

Definition demo_cloud : CloudHost DemoWorld := {|
  ch_now w := (dw_time w, {| dw_length := dw_length w; dw_time := dw_time w + 10000 |});
  ch_token := draw;
  ch_bytes w := (replicate 20 (Z.of_nat (dw_length w) mod 256), w);
  ch_uuid := draw "";
  ch_sha256 x := "#" +:+ x;
  ch_epoch a w := (Ok ("epoch-" +:+ a), w);
  ch_close a e w := w;
  ch_purge a w := (Ok tt, w);
|}.

Definition demo_known (w : DemoWorld) (x : string) : Prop := (String.length x <= dw_length w)%nat.

Lemma length_app_string a b : String.length (a +:+ b) = (String.length a + String.length b)%nat.
Proof. induction a as [|c a IH]; [done|]. exact (f_equal S IH). Qed.

Lemma pad_length n : String.length (pad n) = n.
Proof. induction n as [|n IH]; cbn; [done|]. by rewrite IH. Qed.

Lemma draw_spec kind w t w' : draw kind w = (t, w') →
  ((∀ x, demo_known w x → demo_known w' x) ∧ dw_time w <= dw_time w') ∧ ¬ demo_known w t ∧ demo_known w' t.
Proof.
  unfold draw, demo_known. assert (dw_length w < String.length (kind +:+ pad (S (dw_length w))))%nat as Hl.
  { rewrite length_app_string, pad_length. lia. }
  revert Hl. generalize (kind +:+ pad (S (dw_length w))). intros x Hl [= <- <-]. cbn [dw_length dw_time].
  split_and!; [intros y Hy|..]; lia.
Qed.

#[export, refine] Instance demo_laws : CloudLaws demo_cloud := {| known := demo_known; clock := dw_time |}.
Proof.
  - intros w t w' [= <- <-]. cbn. split; [split; [done|lia]|lia].
  - intros kind w t w'. apply draw_spec.
  - intros w b w' [= <- <-]. split; [done|lia].
  - intros w t w'. apply draw_spec.
  - intros a w o w' [= <- <-]. split; [done|lia].
  - intros a e w. split; [done|cbn; lia].
  - intros a w o w' [= <- <-]. split; [done|lia].
Defined.

(** A deployment that takes enrollment codes. *)
Definition demo_env : CloudEnv := {|
  ev_hosted_db := false; ev_workos := false; ev_enforced := false; ev_devices := 5; ev_admin_token := Some "root" |}.

(** The log and the state after calls made one after another. *)
Fixpoint run_from (log : Log) (s : DF DemoWorld) (cs : list Call) : Log * DF DemoWorld :=
  match cs with
  | [] => (log, s)
  | c :: cs => let '(o, s') := run_call demo_cloud demo_env c s in run_from (log ++ [(c, o)]) s' cs
  end.

Lemma run_from_runs s0 cs log s : runs demo_cloud demo_env s0 log s →
  runs demo_cloud demo_env s0 (run_from log s cs).1 (run_from log s cs).2.
Proof.
  revert log s. induction cs as [|c cs IH]; intros log s H; cbn; [done|].
  destruct (run_call demo_cloud demo_env c s) as [o s'] eqn:E. apply IH.
  assert (o = (run_call demo_cloud demo_env c s).1 ∧ s' = (run_call demo_cloud demo_env c s).2) as [-> ->] by by rewrite E.
  by constructor.
Qed.

Lemma run_from_start s cs : runs demo_cloud demo_env s (run_from [] s cs).1 (run_from [] s cs).2.
Proof. apply run_from_runs, runs_none. Qed.

Definition demo_start : DF DemoWorld := MkDF empty_db {| dw_length := 0; dw_time := 1000000 |}.

Lemma demo_reached cs : reached demo_cloud demo_env (run_from [] demo_start cs).1 (run_from [] demo_start cs).2.
Proof. exists demo_start. split_and!; [done..|]. apply run_from_start. Qed.

(** ** Requests *)

Definition refresh_body (x : DeviceSession) : jsval :=
  Some (JObj [("refreshToken", JStr (ds_refreshToken x)); ("enrollmentId", JStr (ds_enrollmentId x))]).
Lemma refresh_body_request x : refresh_request (call_refresh (refresh_body x)) (ds_refreshToken x) (ds_enrollmentId x).
Proof. by exists (refresh_body x). Qed.

Definition validate_body (x : DeviceSession) : jsval := Some (JObj [("accessToken", JStr (ds_accessToken x))]).
Definition issue_body : jsval := Some (JObj [("accountId", JStr "acct")]).

Definition session_at (e : string) (p : Log * DF DemoWorld) : option DeviceSession := latest e p.1.

(** A code is issued and redeemed, and the session renewed. *)
Definition demo_code : string :=
  match (run_from [] demo_start [call_internal_issue issue_body]).1 with
  | [(_, Ok (rsp_code code _ _))] => code
  | _ => ""
  end.
Definition demo_enroll : list Call :=
  [call_internal_issue issue_body; call_enroll_code demo_code "laptop" (Some "Laptop"); call_enroll_code demo_code "thief" None].
Definition demo_nobody : DeviceSession :=
  {| ds_accessToken := ""; ds_accessExpiresAt := 0; ds_refreshToken := ""; ds_credentialGeneration := 0;
     ds_enrollmentId := ""; ds_accountId := ""; ds_datasetEpoch := ""; ds_displayName := None;
     ds_enrollmentClass := None; ds_enrollmentExpiresAt := None; ds_environmentId := None |}.
Definition newest (p : Log * DF DemoWorld) : DeviceSession := default demo_nobody (last (sessions_of p.1)).

Definition demo_first : DeviceSession := newest (run_from [] demo_start demo_enroll).
Definition demo_refresh : list Call := demo_enroll ++ [call_refresh (refresh_body demo_first)].
Definition demo_second : DeviceSession := newest (run_from [] demo_start demo_refresh).

Example demo_generations :
  (ds_credentialGeneration demo_first, ds_credentialGeneration demo_second, ds_accountId demo_second) = (1, 2, "acct").
Proof. vm_compute. reflexivity. Qed.

(** The row of an enrollment, which these runs always find. *)
Definition no_row : SessionRow := {|
  dr_enrollment_id := ""; dr_account_id := ""; dr_installation_id := ""; dr_display_name := None;
  dr_credential_generation := 0; dr_access_token_hash := ""; dr_access_expires_at := 0; dr_refresh_token_hash := "";
  dr_prev_refresh_token_hash := None; dr_prev_refresh_grace_until := None; dr_pending_rotated_session := None;
  dr_revoked_at := None; dr_created_at := 0; dr_enrollment_class := class_device; dr_provider := None;
  dr_created_by := None; dr_enrollment_expires_at := None; dr_environment_id := None; dr_proof_method := "";
  dr_trust_state := trust_pending; dr_trusted_at := None; dr_trust_source := None; dr_trust_generation := None |}.

Definition row_of (x : DeviceSession) (s : DF DemoWorld) : SessionRow :=
  default no_row (sessionByEnrollment (ds_enrollmentId x) (df_db s)).
