(* ===== verification/DeviceSessionProps.v ===== *)
(** * Desktop app cloud: theorems on device sessions *)

From stdpp Require Import base list strings sets.
From Stdlib Require Import ZArith Ascii Lia.
From S2P Require Import Prelude JsString JsValue DeviceSession DeviceSessionEffect DeviceSessionHistory DeviceSessionFixtures.

Section Theorems.
Context {W : Type} (host : CloudHost W) `{!CloudLaws host} (env : CloudEnv).
Notation F := (DF W).
Notation sha := (ch_sha256 host).
Notation aside := (aside host).
Notation effect := (effect host).
Notation change := (change host).
Notation known_id := (known_id host).
Notation reached := (reached host env).
Notation runs := (runs host env).

(** ** Access *)

Lemma hash_session log s h row : sound host log s → row ∈ db_sessions (df_db s) → dr_access_token_hash row = h →
  sessionByAccessHash h (df_db s) = Some row.
Proof.
  intros Hs Hin Hh. unfold sessionByAccessHash. destruct (find_first _ _) as [r|] eqn:E.
  - apply find_first_Some in E as [Hr Er%String.eqb_eq]. f_equal. apply (row_unique host log s); try done.
    apply (so_access _ _ _ Hs); [done..|congruence].
  - apply (find_first_None _ _) with (x := row) in E; [|done]. apply String.eqb_neq in E. by subst h.
Qed.

Definition accepts (row : SessionRow) : Response :=
  rsp_identity (dr_account_id row) (dr_enrollment_id row) (dr_enrollment_class row) (dr_proof_method row) (trustState row)
    (dr_environment_id row).

(** C21: An access token is accepted exactly when it is that of the latest session handed
    out for an enrollment, has not expired, and the enrollment is neither revoked nor past
    its own end; the answer then names that session's account and enrollment. *)
Theorem validate_exact log s body token : reached log s → prop "accessToken" body = Some (JStr token) →
  let now := (ch_now host (df_ext s)).1 in
  (∀ row cur, row ∈ db_sessions (df_db s) → latest (dr_enrollment_id row) log = Some cur → live row now →
     token = ds_accessToken cur → now < ds_accessExpiresAt cur →
     (run_call host env (call_validate body) s).1 = Ok (accepts row)) ∧
  (∀ a e cl p t v, (run_call host env (call_validate body) s).1 = Ok (rsp_identity a e cl p t v) →
     ∃ row cur, row ∈ db_sessions (df_db s) ∧ dr_enrollment_id row = e ∧ live row now ∧ latest e log = Some cur ∧
       token = ds_accessToken cur ∧ now < ds_accessExpiresAt cur ∧ a = ds_accountId cur).
Proof.
  intros Hr Htok now. pose proof (reached_sound host env _ _ Hr) as Hs. unfold now. clear now. unfold run_call, handleValidate. rewrite Htok.
  unfold mbind, M_bind, d_db, gets, d_now, ext. destruct (ch_now host (df_ext s)) as [now w]. cbn [fst snd df_db df_ext].
  split.
  - intros row cur Hin Hcur [Hrev Hend] -> Hexp. destruct (so_rows _ _ _ Hs _ Hin) as [_ _ _ (cur' & Hcur' & Sh)].
    assert (cur' = cur) as -> by congruence. unfold sha256Hex.
    rewrite (hash_session log s _ row Hs Hin (sh_access _ _ _ _ Sh)). unfold is_revoked.
    rewrite Hrev, Hend, (sh_expires _ _ _ _ Sh). by destruct (Z.leb_spec (ds_accessExpiresAt cur) now); [lia|].
  - intros a e cl p t v. destruct (sessionByAccessHash _ _) as [row|] eqn:Er; [|done].
    destruct (_ || _) eqn:Ec; [done|]. intros [= <- <- _ _ _ _].
    apply orb_false_iff in Ec as [[Erev Exp%Z.leb_gt]%orb_false_iff Ee].
    apply find_first_Some in Er as [Hin Hh%String.eqb_eq]. destruct (so_rows _ _ _ Hs _ Hin) as [_ _ _ (cur & Hcur & [])].
    exists row, cur. split_and!; try done; [|apply (inj sha); unfold sha256Hex in Hh; congruence|lia].
    split; [|done]. unfold is_revoked in Erev. by destruct (dr_revoked_at row).
Qed.

(** ** Refresh *)

(** A refresh that succeeds either renews the latest session of its enrollment, for
    that session's own refresh token, with the next generation and tokens never seen
    before; or, for the refresh token of the session before and within the grace period, it
    answers the latest session once more. *)
Theorem refresh_renews_latest log s body x : reached log s →
  (run_call host env (call_refresh body) s).1 = Ok (rsp_session x) →
  ∃ token e cur, refresh_request (call_refresh body) token e ∧ latest e log = Some cur ∧
    ds_enrollmentId x = e ∧ ds_accountId x = ds_accountId cur ∧
    ((token = ds_refreshToken cur ∧ ds_credentialGeneration x = ds_credentialGeneration cur + 1 ∧
      ¬ known (df_ext s) (ds_accessToken x) ∧ ¬ known (df_ext s) (ds_refreshToken x)) ∨
     (x = cur ∧ clock (df_ext s) < ds_accessExpiresAt cur - ACCESS_TTL_MS + REFRESH_GRACE_MS ∧
      ∃ old, old ∈ sessions_of log ∧ ds_enrollmentId old = e ∧ token = ds_refreshToken old ∧
        ds_credentialGeneration cur = ds_credentialGeneration old + 1)).
Proof.
  intros Hlog Ho. pose proof (reached_sound host env _ _ Hlog) as Hs. destruct (step_change host env (call_refresh body) s) as [Hc _]. rewrite Ho in Hc.
  remember (call_refresh body) as c eqn:Ec. remember (Ok (rsp_session x)) as o eqn:Eo.
  destruct Hc as [o Hq _|token e row x' now Hreq Hrow _ Hsup Hgr Hp Hd _|
    token row access refresh epoch now Hreq Hrow _ Hh Ha Hr _ session _|account class r access refresh epoch He _ _].
  - by rewrite Eo in Hq.
  - injection Eo as ->. destruct (sound_row _ _ _ _ _ Hs Hrow) as (_ & cur & Hcur & Sh).
    pose proof (latest_elem _ _ _ Hcur) as [_ Hce]. destruct Hgr as (g & Hg & Hnow). destruct Sh as [_ _ _ _ _ _ Sp].
    rewrite Hsup, Hg, Hp in Sp. destruct Sp as (-> & -> & old & Hold & Hoe & Hgen & Hh & _). apply (inj sha) in Hh as ->.
    exists (ds_refreshToken old), e, cur. split_and!; try done. right. split_and!; [done|unfold during in Hd; lia|].
    exists old. split_and!; try done. congruence.
  - injection Eo as <-. destruct (sound_row _ _ _ _ _ Hs Hrow) as (_ & cur & Hcur & Sh).
    exists token, (dr_enrollment_id row), cur. split_and!; try done; [cbn; by rewrite (sh_account _ _ _ _ Sh)|].
    left. split_and!; [|cbn; by rewrite (sh_generation _ _ _ _ Sh)|apply Ha|apply Hr].
    apply (inj sha). by rewrite <- Hh, (sh_refresh _ _ _ _ Sh).
  - by rewrite Ec in He.
Qed.

Definition grace_end (x : DeviceSession) : Z := ds_accessExpiresAt x - ACCESS_TTL_MS + REFRESH_GRACE_MS.

(** The rotation that made [x] of the token hashed to [h] can still be replayed, unless [x]
    has been renewed or its grace period is over. *)
Definition keeps (h : string) (x : DeviceSession) (s : F) : Prop := ∀ r, r ∈ db_sessions (df_db s) →
  dr_enrollment_id r = ds_enrollmentId x → ds_credentialGeneration x <= dr_credential_generation r ∧
    (dr_credential_generation r = ds_credentialGeneration x →
     (dr_prev_refresh_token_hash r, dr_prev_refresh_grace_until r, dr_pending_rotated_session r) =
       (Some h, Some (grace_end x), Some x) ∨ grace_end x < clock (df_ext s)).

Lemma keeps_step log h x s s' c o : sound host log s → known_id (df_ext s) (ds_enrollmentId x) → keeps h x s →
  change s s' c o → later (df_ext s) (df_ext s') → keeps h x s'.
Proof.
  intros Hs Hid Hk Hc [_ Hclock]. destruct Hc as [o _ [_ Hkept]|? ? ? ? ? _ _ _ _ _ _ _ Es|
    token row access refresh epoch now _ Hrow _ _ _ _ _ session Es|account class r access refresh epoch _ Hnew Es].
  - intros r' Hr' He. destruct (Hkept _ Hr') as (r & Hr & [D1 _ _ _ _ D2 _ D3]).
    rewrite D1 in He. destruct (Hk r Hr He) as [Hle Heq]. rewrite D2. split; [done|]. intros Hg.
    destruct (Heq Hg) as [Hp|?]; [|right; lia]. destruct D3 as [->|(_ & g & Eg & Hlt)]; [by left|].
    right. injection Hp as _ Hg' _. rewrite Hg' in Eg. injection Eg as ->. lia.
  - intros r Hr He. rewrite Es in Hr. destruct (Hk r Hr He) as [Hle Heq].
    split; [done|]. intros Hg. destruct (Heq Hg); [by left|right; lia].
  - intros r' Hr'. rewrite Es in Hr'. apply elem_of_update_where in Hr' as (r & Hr & ->). intros He. unfold has_enrollment in *.
    pose proof (session_elem _ _ _ Hrow) as [Hin _].
    destruct (String.eqb_spec (dr_enrollment_id r) (dr_enrollment_id row)) as [E|_]; cbn in *.
    + pose proof (row_unique host _ _ _ _ Hs Hr Hin E) as ->. destruct (Hk row Hin He) as [Hle _]. lia.
    + destruct (Hk r Hr He) as [Hle Heq]. split; [done|]. intros Hg. destruct (Heq Hg); [by left|right; lia].
  - intros r' Hr' He. rewrite Es in Hr'. apply elem_of_app in Hr' as [Hr|Hr].
    + destruct (Hk r' Hr He) as [Hle Heq]. split; [done|]. intros Hg. destruct (Heq Hg); [by left|right; lia].
    + apply list_elem_of_singleton in Hr as ->. destruct Hnew as [(u & Eu & Hu) _ _ _ _ _ _ _ _ _ _ _].
      rewrite <- He, Eu in Hid. by apply (fresh_id host _ _ _ Hu) in Hid.
Qed.

Lemma keeps_runs log0 h x s log s' : sound host log0 s → known_id (df_ext s) (ds_enrollmentId x) → keeps h x s →
  runs s log s' → keeps h x s' ∧ known_id (df_ext s') (ds_enrollmentId x).
Proof.
  intros Hs Hid Hk. induction 1 as [|log s1 c Hr [IH1 IH2]]; [done|]. destruct (step_change host env c s1) as [Hc Hl].
  split; [|by eapply known_id_later]. eapply (keeps_step (log0 ++ log) h x s1 _ c); try done. by apply (runs_sound host env s).
Qed.

Lemma refresh_keeps log s s' token e x c : sound host log s → change s s' c (Ok (rsp_session x)) →
  refresh_request c token e → ds_enrollmentId x = e ∧ keeps (sha token) x s'.
Proof.
  intros Hs Hc Hreq. remember (Ok (rsp_session x)) as o eqn:Eo.
  assert (∀ t' e', refresh_request c t' e' → t' = token ∧ e' = e) as Huniq.
  { destruct Hreq as (body & -> & Ht & He). intros t' e' (body' & [= <-] & Ht' & He'). split; congruence. }
  destruct Hc as [o Hq _|token' e' row x' now Hreq' Hrow _ Hsup Hgr Hp Hd Es|
    token' row access refresh epoch now Hreq' Hrow _ Hh Ha Hr _ session Es|account class r access refresh epoch He _ _].
  - by rewrite Eo in Hq.
  - injection Eo as ->. destruct (Huniq _ _ Hreq') as [-> ->].
    destruct (sound_row _ _ _ _ _ Hs Hrow) as (_ & cur & Hcur & Sh). pose proof (latest_elem _ _ _ Hcur) as [_ Hce].
    destruct Hgr as (g & Hg & _). pose proof (sh_prev _ _ _ _ Sh) as Sp. rewrite Hsup, Hg, Hp in Sp.
    destruct Sp as (-> & -> & _). split; [done|].
    pose proof (session_elem _ _ _ Hrow) as [Hin Hre]. intros r Hr He. rewrite Es in Hr.
    assert (r = row) as -> by (apply (row_unique host log s); [done..|congruence]).
    split; [rewrite (sh_generation _ _ _ _ Sh); lia|]. intros _. left. by rewrite Hsup, Hg, Hp.
  - injection Eo as <-. destruct (Huniq _ _ Hreq') as [-> <-]. split; [done|].
    pose proof (session_elem _ _ _ Hrow) as [Hin _]. intros r' Hr' He. rewrite Es in Hr'.
    apply elem_of_update_where in Hr' as (r & Hr' & ->). cbn in He. unfold has_enrollment in *.
    destruct (String.eqb_spec (dr_enrollment_id r) (dr_enrollment_id row)) as [E|]; [|done].
    split; cbn; [lia|]. intros _. left. rewrite Hh. repeat f_equal. unfold grace_end. cbn. lia.
  - destruct Hreq as (body & -> & _). done.
Qed.

(** A client that loses the response to a refresh gets it again: repeating the request
    within the grace period answers the very same session, whatever other calls were made
    in between, as long as the enrollment is live and the new session has not itself been
    renewed. *)
Theorem lost_response_replayed log s body token e x log2 s2 row t w now w' :
  reached log s → refresh_request (call_refresh body) token e →
  (run_call host env (call_refresh body) s).1 = Ok (rsp_session x) →
  runs (run_call host env (call_refresh body) s).2 log2 s2 →
  latest e (log ++ [(call_refresh body, Ok (rsp_session x))] ++ log2) = Some x →
  sessionByEnrollment e (df_db s2) = Some row → dr_revoked_at row = None →
  ch_now host (df_ext s2) = (t, w) → enrollmentExpired row t = false → ch_now host w = (now, w') →
  now < ds_accessExpiresAt x - ACCESS_TTL_MS + REFRESH_GRACE_MS →
  (run_call host env (call_refresh body) s2).1 = Ok (rsp_session x) ∧
  df_db (run_call host env (call_refresh body) s2).2 = df_db s2.
Proof.
  intros Hlog Hreq Ho Hruns Hlast Hrow Hrev Et Hend En Hnow. pose proof (reached_sound host env _ _ Hlog) as Hs.
  destruct (step_change host env (call_refresh body) s) as [Hc _]. rewrite Ho in Hc.
  destruct (refresh_keeps _ _ _ _ _ _ _ Hs Hc Hreq) as [He Hk].
  pose proof (step_sound host env _ (call_refresh body) _ Hs) as Hs1. rewrite Ho in Hs1.
  assert (known_id (df_ext (run_call host env (call_refresh body) s).2) (ds_enrollmentId x)) as Hid.
  { apply (so_log _ _ _ Hs1). rewrite sessions_snoc. set_solver. }
  destruct (keeps_runs _ _ _ _ _ _ Hs1 Hid Hk Hruns) as [Hk2 _].
  pose proof (runs_sound host env _ _ _ _ Hs1 Hruns) as Hs2. rewrite <- app_assoc in Hs2.
  destruct (sound_row _ _ _ _ _ Hs2 Hrow) as (_ & cur & Hcur & Sh). assert (cur = x) as -> by congruence.
  pose proof (session_elem _ _ _ Hrow) as [Hin Hre]. destruct (Hk2 row Hin) as [_ Hp]; [congruence|].
  pose proof (cl_now _ _ _ Et) as [_ Ht]. pose proof (cl_now _ _ _ En) as [_ Hn].
  destruct (Hp (sh_generation _ _ _ _ Sh)) as [[= Hprev Hgr Hpend]|Hlt]; [|unfold grace_end in Hlt; lia].
  destruct Hreq as (body' & [= <-] & Htok & Henr).
  unfold run_call, handleRefresh. rewrite Htok, Henr. unfold mbind, M_bind, d_db, gets, d_now, ext. cbn [df_ext df_db].
  rewrite Et. cbn [df_ext df_db]. rewrite Hrow. unfold is_revoked. rewrite Hrev, Hend. cbn [orb df_ext df_db]. rewrite En.
  rewrite Hpend, Hprev, Hgr. unfold sha256Hex. rewrite bool_decide_true by done.
  destruct (Z.ltb_spec now (grace_end x)) as [_|Hge]; [done|]. unfold grace_end in Hge. lia.
Qed.

(** ** Revocation *)

(** No row of the enrollment is live, and none can be made. *)
Definition gone (e : string) (s : F) : Prop :=
  known_id (df_ext s) e ∧ ∀ r, r ∈ db_sessions (df_db s) → dr_enrollment_id r = e → is_Some (dr_revoked_at r).

(** The answer lets a client act for the enrollment. *)
Definition names (e : string) (o : outcome Response) : Prop :=
  match o with
  | Ok (rsp_session x) => ds_enrollmentId x = e
  | Ok (rsp_identity _ id _ _ _ _) => id = e
  | _ => False
  end.

(** The call was answered as one that ends the enrollment: revoked by itself, by a device of
    its account or by the account's object, its account deleted, or reuse detected. *)
Definition ends (log : Log) (e : string) (c : Call) (o : outcome Response) : Prop :=
  match c, o with
  | call_revoke _ body, Ok (rsp_revoked _) | call_device_revoke _ body, Ok (rsp_revoked _) =>
      prop "enrollmentId" body = Some (JStr e)
  | call_account_revoke _ id, Ok (rsp_revoked _) => id = e
  | call_delete _, Ok (rsp_deleting a) => ∃ x, latest e log = Some x ∧ ds_accountId x = a
  | call_refresh body, Ok (rsp_error code _) =>
      prop "enrollmentId" body = Some (JStr e) ∧ code = "refresh-reuse-detected"
  | _, _ => False
  end.

Lemma identity_row s s' c a e cl p t v : effect s s' c (Ok (rsp_identity a e cl p t v)) →
  ∃ row, row ∈ db_sessions (df_db s) ∧ dr_enrollment_id row = e ∧ dr_revoked_at row = None.
Proof.
  remember (Ok (rsp_identity a e cl p t v)) as o eqn:Eo. intros He.
  destruct He as [o' _ Hq|? ? row ? ? ? Hrow Hlive| | |? ? o' _ _ _ _ Hq|? ? o' _ _ _ _ Hq|? ? ? o' _ _ _ _ Hq| | | |? o' _ _ _ _ Hq];
    try discriminate; try (by subst o'). injection Eo as _ <- _ _ _ _.
  apply find_first_Some in Hrow as [Hin _]. exists row. split_and!; [done..|apply Hlive].
Qed.

Lemma gone_step log e s c : sound host log s → gone e s →
  gone e (run_call host env c s).2 ∧ ¬ names e (run_call host env c s).1.
Proof.
  intros Hs [Hid Hdead]. destruct (step_change host env c s) as [Hc Hl]. pose proof (call_effect host env c s) as He.
  revert Hc Hl He. generalize (run_call host env c s).2, (run_call host env c s).1. intros s' o Hc Hl He.
  assert (known_id (df_ext s') e) as Hid' by by eapply known_id_later.
  destruct Hc as [o Ho [_ Hkept]|? e' row x now _ Hrow Hrev _ _ Hp _ Es|
    ? row access refresh epoch now _ Hrow Hrev _ _ _ _ session Es|account class r access refresh epoch _ Hnew Es].
  - split; [split; [done|]|].
    + intros r' (r & Hr & D)%Hkept Er. apply (de_revoked _ _ _ D). apply Hdead; [done|]. by rewrite <- (de_id _ _ _ D).
    + destruct o as [[]|]; try done; try (by intros []). intros [= ->]. apply identity_row in He as (row & Hin & Eid & Hrev).
      destruct (Hdead row Hin Eid) as [? E]. congruence.
  - destruct (sound_row _ _ _ _ _ Hs Hrow) as (_ & cur & Hcur & Sh). pose proof (session_elem _ _ _ Hrow) as [Hin Hre].
    assert (ds_enrollmentId x = e') as Hx.
    { pose proof (sh_prev _ _ _ _ Sh) as Sp. rewrite Hp in Sp.
      destruct (dr_prev_refresh_token_hash row), (dr_prev_refresh_grace_until row); try done.
      destruct Sp as (-> & _). by eapply latest_elem. }
    split; [split; [done|by rewrite Es]|]. cbn. intros E. destruct (Hdead row Hin) as [? ?]; congruence.
  - pose proof (session_elem _ _ _ Hrow) as [Hin _].
    assert (dr_enrollment_id row ≠ e) as Hne by (intros E; destruct (Hdead row Hin E); congruence).
    split; [split; [done|]|by cbn]. intros r' Hr'. rewrite Es in Hr'.
    apply elem_of_update_where in Hr' as (r & Hr & ->). unfold has_enrollment.
    destruct (String.eqb_spec (dr_enrollment_id r) (dr_enrollment_id row)) as [E|_]; [|by apply Hdead].
    cbn. intros Er. by apply Hdead.
  - destruct Hnew as [(u & Eu & Hu) _ _ _ _ _ _ _ _ _ _ _].
    assert (dr_enrollment_id r ≠ e) as Hne by (rewrite Eu; intros <-; by apply (fresh_id host _ _ _ Hu)).
    split; [split; [done|]|by cbn]. intros r' Hr' Er. rewrite Es in Hr'. apply elem_of_app in Hr' as [Hr|Hr].
    + by apply Hdead.
    + by apply list_elem_of_singleton in Hr as ->.
Qed.

Lemma gone_runs log0 e s log s' : sound host log0 s → gone e s → runs s log s' →
  gone e s' ∧ ∀ c o, (c, o) ∈ log → ¬ names e o.
Proof.
  intros Hs Hg. induction 1 as [|log s1 c Hr [IH1 IH2]]; [split; [done|]; intros ? ? ?%not_elem_of_nil; done|].
  destruct (gone_step (log0 ++ log) e s1 c) as [H1 H2]; [by apply (runs_sound host env s)|done|].
  split; [done|]. intros c' o [Hin|Hin]%elem_of_app; [by eapply IH2|].
  apply list_elem_of_singleton in Hin as [= -> ->]. done.
Qed.

(** ** What ends an enrollment *)

Definition all_revoked (e : string) (s : F) : Prop :=
  ∀ r, r ∈ db_sessions (df_db s) → dr_enrollment_id r = e → is_Some (dr_revoked_at r).

Lemma revoked_all s p s1 e : revoked host s p s1 →
  (∀ r, r ∈ db_sessions (df_db s) → dr_enrollment_id r = e → p r = true) → all_revoked e s1.
Proof.
  intros (now & Es & _) Hp r' Hr'. rewrite Es in Hr'. apply elem_of_update_where in Hr' as (r & Hr & ->).
  destruct (p r) eqn:E; [by cbn; eauto|]. intros Er. by rewrite (Hp r Hr Er) in E.
Qed.

Lemma absent_all e s : sessionByEnrollment e (df_db s) = None → all_revoked e s.
Proof. intros H r Hr Er. apply (find_first_None _ _ H) in Hr. apply String.eqb_neq in Hr. done. Qed.

Lemma revoke_session_all row s s' : aside s s → (revoke_session host row s).2 = s' → all_revoked (dr_enrollment_id row) s'.
Proof.
  intros Ha <-. apply (revoked_all s (has_enrollment (dr_enrollment_id row))); [by apply revoke_session_revoked|].
  intros r _ <-. apply String.eqb_refl.
Qed.

Lemma account_revoke_all a e s o s' : revokeDeviceOnAccount host a e s = (Ok (rsp_revoked o), s') → all_revoked e s'.
Proof.
  unfold revokeDeviceOnAccount. intros (d & s1 & [= <- <-] & H)%bind_Ok.
  destruct (sessionByEnrollment e (df_db s)) as [row|] eqn:Er; [|done]. destruct (on_account a row); [|done].
  apply bind_Ok in H as (u & s1 & H1 & [= _ <-]). pose proof (session_elem _ _ _ Er) as [_ <-].
  eapply revoke_session_all; [apply aside_refl|by rewrite H1].
Qed.

Lemma self_revoke_all bearer body e s o s' : prop "enrollmentId" body = Some (JStr e) →
  handleRevoke host bearer body s = (Ok (rsp_revoked o), s') → all_revoked e s'.
Proof.
  unfold handleRevoke. intros ->. intros (d & s1 & [= <- <-] & H)%bind_Ok.
  destruct (sessionByEnrollment e (df_db s)) as [row|] eqn:Er; [|injection H as _ <-; by apply absent_all].
  pose proof (session_elem _ _ _ Er) as [_ <-]. apply bind_Ok in H as (t & s1 & _ & H). destruct (_ || _); [|done].
  apply bind_Ok in H as (u & s2 & H2 & [= _ <-]). eapply revoke_session_all; [apply aside_refl|by rewrite H2].
Qed.

Lemma reuse_all body e s r s' : prop "enrollmentId" body = Some (JStr e) →
  handleRefresh host body s = (Ok (rsp_error "refresh-reuse-detected" r), s') → all_revoked e s'.
Proof.
  unfold handleRefresh. intros ->. destruct (prop "refreshToken" body) as [[| | |token| |]|]; try done.
  intros (d & s1 & [= <- <-] & H)%bind_Ok. apply bind_Ok in H as (t & s1 & H1 & H).
  destruct (sessionByEnrollment e (df_db s)) as [row|] eqn:Er; [|done]. destruct (_ || _); [done|].
  apply bind_Ok in H as (now & s2 & H2 & H). pose proof (session_elem _ _ _ Er) as [_ <-].
  assert (∀ b g, refresh_row host row (sha256Hex host token) b g now s2 = (Ok (rsp_error "refresh-reuse-detected" r), s') →
    all_revoked (dr_enrollment_id row) s') as Hrow.
  { intros b g. unfold refresh_row. destruct (negb _).
    - destruct (b && negb g); [|done]. intros (u & s3 & H3 & H4)%bind_Ok. apply bind_Ok in H4 as (u' & s4 & H4 & [= _ <-]).
      pose proof (bystander_invalidate host (dr_account_id row) row s3) as Ha. rewrite H4 in Ha. cbn in Ha.
      intros r' Hr'. rewrite (as_sessions _ _ _ Ha) in Hr'. injection H3 as _ <-.
      apply elem_of_update_where in Hr' as (r0 & Hr0 & ->). unfold has_enrollment.
      destruct (String.eqb_spec (dr_enrollment_id r0) (dr_enrollment_id row)); cbn; [by eauto|done].
    - unfold rotate. intros (? & ? & _ & K)%bind_Ok. apply bind_Ok in K as (? & ? & _ & K).
      apply bind_Ok in K as (? & ? & _ & K). by apply bind_Ok in K as (? & ? & _ & K). }
  destruct (dr_pending_rotated_session row) as [x|]; [|by eapply Hrow]. destruct (_ && _); [done|by eapply Hrow].
Qed.

Lemma delete_all log e verified x s s' : sound host log s → latest e log = Some x →
  handleAccountDelete host verified s = (Ok (rsp_deleting (ds_accountId x)), s') → all_revoked e s'.
Proof.
  intros Hs Hx. unfold handleAccountDelete. intros ([[a ?]|] & s1 & H1 & H)%bind_Ok; [|done].
  pose proof (bystander_caller host verified s) as Ha. rewrite H1 in Ha. cbn in Ha.
  revert H. unfold deleteAccountById. intros (now & s2 & H2 & H)%bind_Ok.
  pose proof (bystander_now host s1) as Ha2. rewrite H2 in Ha2. cbn in Ha2.
  apply bind_Ok in H as (u & s3 & H3 & H). apply bind_Ok in H as (u4 & s4 & H4 & H).
  apply bind_Ok in H as (u5 & s5 & H5 & H). apply bind_Ok in H as (u6 & s6 & H6 & H).
  apply bind_Ok in H as (u7 & s7 & H7 & [= -> <-]).
  pose proof (bystander_purge host (ds_accountId x) s6) as Ha7. rewrite H7 in Ha7. cbn in Ha7.
  intros r' Hr'. rewrite (as_sessions _ _ _ Ha7) in Hr'. injection H6 as _ <-. injection H5 as _ <-. injection H4 as _ <-.
  injection H3 as _ <-. cbn in Hr'. apply elem_of_update_where in Hr' as (r & Hr & ->).
  destruct (on_account _ r) eqn:Eon; cbn; [by eauto|]. intros Er.
  assert (r ∈ db_sessions (df_db s)) as Hin.
  { rewrite <- (as_sessions _ _ _ Ha), <- (as_sessions _ _ _ Ha2). by destruct (deleted _ _) in Hr. }
  destruct (so_rows _ _ _ Hs _ Hin) as [_ _ _ (cur & Hcur & Sh)]. rewrite Er in Hcur. assert (cur = x) as -> by congruence.
  unfold on_account in Eon. by rewrite <- (sh_account _ _ _ _ Sh), String.eqb_refl in Eon.
Qed.

Lemma ends_all log e c s : sound host log s → ends log e c (run_call host env c s).1 → all_revoked e (run_call host env c s).2.
Proof.
  intros Hs. destruct (run_call host env c s) as [o s'] eqn:Erun. cbn. intros He.
  destruct c as [| |body| |bearer body|verified body|a id|verified| | |]; try done; destruct o as [[]|]; try done; cbn in *.
  - destruct He as [He ->]. by eapply reuse_all.
  - by eapply self_revoke_all.
  - unfold handleDeviceRevoke in Erun. apply bind_Ok in Erun as ([[a ?]|] & s1 & _ & H); [|done].
    rewrite He in H. by eapply account_revoke_all.
  - subst id. by eapply account_revoke_all.
  - destruct He as (x & Hx & <-). by eapply delete_all.
Qed.

(** C22: Revocation is final: once a call was answered as one that ends an enrollment,
    no later call hands out a session of it or accepts one, whatever calls are made. *)
Theorem revocation_final log s e c log2 s2 c' o : reached log s → (∃ x, x ∈ sessions_of log ∧ ds_enrollmentId x = e) →
  ends log e c (run_call host env c s).1 → runs (run_call host env c s).2 log2 s2 → (c', o) ∈ log2 → ¬ names e o.
Proof.
  intros Hlog (x & Hx & <-) Hends Hruns. pose proof (reached_sound host env _ _ Hlog) as Hs.
  pose proof (step_sound host env _ c _ Hs) as Hs1. destruct (step_change host env c s) as [_ Hl].
  assert (gone (ds_enrollmentId x) (run_call host env c s).2) as Hg.
  { split; [|by eapply ends_all]. eapply known_id_later; [by apply (so_log _ _ _ Hs)|done]. }
  apply (gone_runs _ _ _ _ _ Hs1 Hg Hruns).
Qed.

(** ** Enrollment codes *)

Lemma find_first_update {A} (p q : A → bool) f (l : list A) : (∀ x, p (f x) = p x) →
  find_first p (update_where q f l) = (λ x, if q x then f x else x) <$> find_first p l.
Proof.
  intros H. induction l as [|x l IH]; cbn; [done|].
  assert (p (if q x then f x else x) = p x) as -> by by destruct (q x). by destruct (p x).
Qed.

Lemma find_first_keep {A} (p q : A → bool) l x : find_first p l = Some x → q x = true → find_first p (List.filter q l) = Some x.
Proof.
  induction l as [|y l IH]; cbn; [done|]. destruct (p y) eqn:Ep; [intros [= ->] ->; cbn; by rewrite Ep|].
  intros Hf Hq. specialize (IH Hf Hq). destruct (q y); cbn; [by rewrite Ep|done].
Qed.

(** The call is a successful enrollment with the code [y]. *)
Definition enrolled (y : string) (p : Call * outcome Response) : bool :=
  match p.1, handed p.2 with
  | call_enroll_code code _ _, Some _ => String.eqb (normalizeEnrollmentCode code) y
  | _, _ => false
  end.

Definition of_code (y : string) (r : CodeRow) : bool := String.eqb (cr_code_hash r) (sha y).

Definition spent (y : string) (codes : list CodeRow) : Prop :=
  ∃ r, find_first (of_code y) codes = Some r ∧ is_Some (cr_consumed_at r).

Lemma redeem_spent c now codes codes' account class y : redeems host c now codes codes' account class →
  (spent y codes → spent y codes') ∧ (∀ o, enrolled y (c, o) = true → spent y codes' ∧ ¬ spent y codes).
Proof.
  destruct c as [code ? ?|? ? ? ?| | | | | | | | |]; cbn; try done.
  - intros (row & Hf & Hun & _ & -> & _).
    assert (∀ z, find_first (of_code z) (update_where (is_code host code) (consume_code now) codes) =
      (λ x, if is_code host code x then consume_code now x else x) <$> find_first (of_code z) codes) as Hup.
    { intros z. by apply find_first_update. }
    split_and!.
    + intros (r & Hr & Hc). eexists. rewrite Hup, Hr. split; [done|]. destruct (is_code host code r); cbn; eauto.
    + intros o. unfold enrolled. cbn. destruct (handed o); [|done]. intros <-%String.eqb_eq.
      change (of_code (normalizeEnrollmentCode code)) with (is_code host code). split.
      * eexists. rewrite (Hup (normalizeEnrollmentCode code)). change (of_code (normalizeEnrollmentCode code)) with (is_code host code).
        rewrite Hf. split; [done|]. apply find_first_Some in Hf as [_ ->]. cbn. eauto.
      * intros (r & Hr & [? ?]). change (of_code (normalizeEnrollmentCode code)) with (is_code host code) in Hr. congruence.
  - intros (-> & _). by split.
Qed.

(** A code spent stays so, and enrolls no more; one that enrolls is spent. *)
Definition spends (y : string) (s s' : F) (c : Call) (o : outcome Response) : Prop :=
  (spent y (db_codes (df_db s)) → spent y (db_codes (df_db s')) ∧ enrolled y (c, o) = false) ∧
  (enrolled y (c, o) = true → spent y (db_codes (df_db s'))).

Lemma enrolled_no y c o : handed o = None → enrolled y (c, o) = false.
Proof. unfold enrolled. cbn. intros ->. by destruct c. Qed.

Lemma spends_still y s s' c o : db_codes (df_db s') = db_codes (df_db s) → enrolled y (c, o) = false → spends y s s' c o.
Proof. intros Es He. split; [by rewrite Es|by rewrite He]. Qed.

Lemma spends_redeem y s s' c o now account class :
  redeems host c now (db_codes (df_db s)) (db_codes (df_db s')) account class → spends y s s' c o.
Proof.
  intros Hr. destruct (redeem_spent _ _ _ _ _ _ y Hr) as [H1 H2]. split; [|by intros [? _]%H2].
  intros Hs. split; [auto|]. destruct (enrolled y (c, o)) eqn:E; [|done]. by apply H2 in E as [_ ?].
Qed.

Lemma effect_spends y s s' c o : effect s s' c o → spends y s s' c o.
Proof.
  intros He. destruct He as [o Ha Hq|body token row now Ec _ _ _ _ Ha _|token e row x now Hreq _ _ _ _ _ Ha _|
    token e row access refresh epoch now Hreq _ _ _ _ _ _ session _ Es Hl _|? ? o _ Es Hl _ Hq|? ? o _ Es Hl _ Hq|
    ? ? ? o Hr _ Hl _ _|? ? ? ? ? ? ? Hr _ _ Hl _|? ? ? ? ? ? e Hr _ _ Hl _|now row bytes Hy Hh Hun _ _ _ Es Hl _|now o _ Es Hl _ Hq].
  - apply spends_still; [apply Ha|]. by apply enrolled_no, quiet_handed.
  - apply spends_still; [apply Ha|]. by apply enrolled_no.
  - apply spends_still; [apply Ha|]. destruct Hreq as (? & -> & _). done.
  - apply spends_still; [done|]. destruct Hreq as (? & -> & _). done.
  - apply spends_still; [done|]. by apply enrolled_no, quiet_handed.
  - apply spends_still; [done|]. by apply enrolled_no, quiet_handed.
  - by eapply spends_redeem.
  - by eapply spends_redeem.
  - by eapply spends_redeem.
  - split; [intros (r & Hr & Hcon); split; [|by apply enrolled_no]|by rewrite enrolled_no].
    exists r. by rewrite Es, find_first_app, Hr.
  - split; [intros (r & Hr & Hcon); split; [|by apply enrolled_no, quiet_handed]|].
    + exists r. rewrite Es. split; [|done]. cbn. apply find_first_keep; [done|].
      destruct Hcon as [? ->]. by rewrite andb_false_r.
    + by rewrite (enrolled_no _ _ _ (quiet_handed _ Hq)).
Qed.

(** C23: An enrollment code enrolls at most one device: of all the calls ever made, at most
    one that presents the code, in whatever spelling, hands out a session. *)
Theorem code_enrolls_once log s y : reached log s → (length (List.filter (enrolled y) log) <= 1)%nat.
Proof.
  intros (s0 & _ & _ & Hruns).
  enough ((length (List.filter (enrolled y) log) <= 1)%nat ∧
    (length (List.filter (enrolled y) log) = 1%nat → spent y (db_codes (df_db s)))) as H by apply H.
  induction Hruns as [|log s1 c _ (Hle & Hone)]; [split; [cbn; lia|done]|].
  destruct (effect_spends y _ _ _ _ (call_effect host env c s1)) as (Hs & He). rewrite List.filter_app, length_app. cbn [List.filter].
  destruct (enrolled y (c, _)) eqn:E; cbn [length].
  - destruct (List.filter (enrolled y) log) as [|a [|b l]] eqn:Ef; cbn in *; [split; [lia|auto]| |lia].
    destruct Hs as [_ Hs]; [by apply Hone|congruence].
  - rewrite Nat.add_0_r. split; [done|]. intros H1. by apply Hs, Hone.
Qed.

(** ** Reuse of a superseded token *)

Lemma invalidate_Ok a row s : ∃ s', invalidateRecoveryOnTrustedRevoke host a row s = (Ok tt, s').
Proof.
  unfold invalidateRecoveryOnTrustedRevoke. destruct (negb _); [by eexists|].
  unfold securityAudit, mbind, M_bind, d_now, d_uuid, ext, d_db, gets, d_change, modify.
  destruct (ch_now host (df_ext s)) as [n w]. cbn [df_ext df_db]. destruct (ch_now host w) as [n2 w2]. cbn [df_ext df_db].
  destruct (existsb _ _); [|by eexists]. cbn [df_ext df_db].
  destruct (ch_uuid host w2) as [i w3]. cbn [df_ext df_db]. destruct (ch_now host w3) as [n3 w4]. by eexists.
Qed.

(** The refresh token of a live row's predecessor is not its own. *)
Lemma superseded_other log s e row h : sound host log s → sessionByEnrollment e (df_db s) = Some row →
  dr_prev_refresh_token_hash row = Some h → dr_refresh_token_hash row ≠ h.
Proof.
  intros Hs Hrow Hp. destruct (sound_row _ _ _ _ _ Hs Hrow) as (_ & cur & _ & [_ _ _ -> _ _ Sp]). rewrite Hp in Sp.
  destruct (dr_prev_refresh_grace_until row), (dr_pending_rotated_session row); try done.
  destruct Sp as (_ & _ & old & _ & _ & _ & -> & Hne). intros E%(inj sha). congruence.
Qed.

(** A live row after the sweep, once its grace period is over. *)
Lemma swept_row e d row g now : sessionByEnrollment e d = Some row → dr_revoked_at row = None →
  dr_prev_refresh_grace_until row = Some g → g < now → enrollmentExpired row now = false →
  sessionByEnrollment e (runSweep now d) = Some (clear_grace row).
Proof.
  intros Hrow Hrev Hg Hlt Hend. unfold sessionByEnrollment. cbn. rewrite find_first_update by done.
  erewrite find_first_keep; [..|rewrite find_first_update by done; unfold sessionByEnrollment in Hrow; by rewrite Hrow|].
  - cbn. rewrite Hg. destruct (Z.ltb_spec g now) as [_|]; [|lia]. change (enrollmentExpired (clear_grace row) now) with
      (enrollmentExpired row now). by rewrite Hend.
  - rewrite Hg. destruct (Z.ltb_spec g now) as [_|]; [|lia]. cbn. by rewrite Hrev.
Qed.

(** C36: A superseded refresh token presented after its grace period revokes the enrollment,
    but only until the next sweep: the sweep forgets the token, which is then answered as
    any invalid one, and the enrollment and its current credentials stay live. *)
Theorem superseded_token_after_sweep log s body token e row g t w now w' :
  reached log s → refresh_request (call_refresh body) token e → sessionByEnrollment e (df_db s) = Some row →
  dr_revoked_at row = None → dr_prev_refresh_token_hash row = Some (sha token) → dr_prev_refresh_grace_until row = Some g →
  ch_now host (df_ext s) = (t, w) → enrollmentExpired row t = false → g < t →
  ch_now host w = (now, w') → enrollmentExpired row now = false →
  (run_call host env (call_refresh body) s).1 = Ok (rsp_error "refresh-reuse-detected" None) ∧
  all_revoked e (run_call host env (call_refresh body) s).2 ∧
  let s1 := (run_call host env call_alarm s).2 in
  (run_call host env (call_refresh body) s1).1 = Ok (rsp_error "invalid-proof" None) ∧
  df_db (run_call host env (call_refresh body) s1).2 = df_db s1 ∧
  ∃ row', sessionByEnrollment e (df_db s1) = Some row' ∧ dr_revoked_at row' = None ∧
    dr_access_token_hash row' = dr_access_token_hash row ∧ dr_refresh_token_hash row' = dr_refresh_token_hash row.
Proof.
  intros Hlog (body' & [= <-] & Htok & Henr) Hrow Hrev Hp Hg Et Hend Hlt En Hend2.
  pose proof (reached_sound host env _ _ Hlog) as Hs.
  pose proof (superseded_other _ _ _ _ _ Hs Hrow Hp) as Hne. apply String.eqb_neq in Hne.
  pose proof (cl_now _ _ _ Et) as [_ Ht]. pose proof (cl_now _ _ _ En) as [_ Hn].
  assert ((run_call host env (call_refresh body) s).1 = Ok (rsp_error "refresh-reuse-detected" None)) as Hreuse.
  { unfold run_call, handleRefresh. rewrite Htok, Henr. unfold mbind, M_bind, d_db, gets, d_now, ext. cbn [df_ext df_db].
    rewrite Et. cbn [df_ext df_db]. rewrite Hrow. unfold is_revoked. rewrite Hrev, Hend. cbn [orb df_ext df_db]. rewrite En.
    unfold sha256Hex. rewrite Hp, Hg, bool_decide_true by done. destruct (Z.ltb_spec now g); [lia|].
    assert (∀ s1, (refresh_row host row (sha token) true false now s1).1 = Ok (rsp_error "refresh-reuse-detected" None)) as H1.
    { intros s1. unfold refresh_row. rewrite Hne. cbn [negb andb].
      unfold mbind, M_bind, change_sessions, d_change, modify. set (s2 := MkDF _ _).
      destruct (invalidate_Ok (dr_account_id row) row s2) as [s3 ->]. done. }
    destruct (dr_pending_rotated_session row); apply H1. }
  split_and!; [done|by eapply reuse_all; [|rewrite <- Hreuse; apply surjective_pairing]|].
  assert ((run_call host env call_alarm s).2 = MkDF (runSweep t (df_db s)) w) as ->.
  { unfold run_call, alarm, mbind, M_bind, d_now, ext, d_change, modify. by rewrite Et. }
  pose proof (swept_row _ _ _ _ _ Hrow Hrev Hg Hlt Hend) as Hrow1. cbv zeta.
  split_and!; [| |exists (clear_grace row); by split_and!]; unfold run_call, handleRefresh; rewrite Htok, Henr;
    unfold mbind, M_bind, d_db, gets, d_now, ext; cbn [df_ext df_db]; rewrite En; cbn [df_ext df_db]; rewrite Hrow1;
    (assert (is_revoked (clear_grace row) || enrollmentExpired (clear_grace row) now = false) as ->
      by (unfold is_revoked; cbn [dr_revoked_at clear_grace set_credentials]; by rewrite Hrev));
    cbn [df_ext df_db]; destruct (ch_now host w') as [now2 w2]; unfold refresh_row, sha256Hex;
    cbn [clear_grace set_credentials dr_pending_rotated_session dr_refresh_token_hash dr_prev_refresh_token_hash];
    rewrite Hne; done.
Qed.
End Theorems.

(** ** The theorems at concrete runs *)

Notation demo cs := (run_from [] demo_start cs).
Notation demo_call := (run_call demo_cloud demo_env).

Lemma validate_exact_witness :
  (demo_call (call_validate (validate_body demo_second)) (demo demo_refresh).2).1 =
    Ok (accepts (row_of demo_second (demo demo_refresh).2)).
Proof.
  destruct (validate_exact demo_cloud demo_env _ _ (validate_body demo_second) (ds_accessToken demo_second)
    (demo_reached demo_refresh) eq_refl) as [H _].
  apply (H _ demo_second); [vm_compute; left|by vm_compute..].
Defined.

Lemma refresh_renews_latest_witness : ∃ cur, latest (ds_enrollmentId demo_second) (demo demo_enroll).1 = Some cur ∧
  ds_accountId demo_second = ds_accountId cur.
Proof.
  assert ((demo_call (call_refresh (refresh_body demo_first)) (demo demo_enroll).2).1 = Ok (rsp_session demo_second)) as H
    by by vm_compute.
  destruct (refresh_renews_latest demo_cloud demo_env _ _ _ _ (demo_reached demo_enroll) H)
    as (token & e & cur & _ & Hcur & He & Ha & _).
  exists cur. rewrite He. exact (conj Hcur Ha).
Defined.

(** The response to the refresh is lost and the request repeated after another call. *)
Notation demo_after := (demo_call (call_refresh (refresh_body demo_first)) (demo demo_enroll).2).2.
Definition demo_between : list Call := [call_account_revoke "other" "enr_other"].
Notation demo_again := (run_from [] demo_after demo_between).

Lemma lost_response_replayed_witness :
  (demo_call (call_refresh (refresh_body demo_first)) demo_again.2).1 = Ok (rsp_session demo_second) ∧
  df_db (demo_call (call_refresh (refresh_body demo_first)) demo_again.2).2 = df_db demo_again.2.
Proof.
  apply (lost_response_replayed demo_cloud demo_env (demo demo_enroll).1 (demo demo_enroll).2
    (refresh_body demo_first) (ds_refreshToken demo_first) (ds_enrollmentId demo_first) demo_second
    demo_again.1 demo_again.2 (row_of demo_first demo_again.2)
    (ch_now demo_cloud (df_ext demo_again.2)).1 (ch_now demo_cloud (df_ext demo_again.2)).2
    (ch_now demo_cloud (ch_now demo_cloud (df_ext demo_again.2)).2).1
    (ch_now demo_cloud (ch_now demo_cloud (df_ext demo_again.2)).2).2 (demo_reached demo_enroll)).
  - apply refresh_body_request.
  - by vm_compute.
  - exact (run_from_start demo_after demo_between).
  - by vm_compute.
  - by vm_compute.
  - by vm_compute.
  - by vm_compute.
  - by vm_compute.
  - by vm_compute.
  - by vm_compute.
Defined.

Definition demo_revoke : Call := call_account_revoke "acct" (ds_enrollmentId demo_first).
Notation demo_revoked := (demo_call demo_revoke (demo demo_refresh).2).2.

Lemma revocation_final_witness :
  ¬ names (ds_enrollmentId demo_first) (demo_call (call_validate (validate_body demo_second)) demo_revoked).1.
Proof.
  apply (revocation_final demo_cloud demo_env _ _ (ds_enrollmentId demo_first) demo_revoke
    (run_from [] demo_revoked [call_validate (validate_body demo_second)]).1
    (run_from [] demo_revoked [call_validate (validate_body demo_second)]).2
    (call_validate (validate_body demo_second)) _ (demo_reached demo_refresh)).
  - exists demo_first. split; [vm_compute; left|exact eq_refl].
  - by vm_compute.
  - exact (run_from_start demo_revoked [call_validate (validate_body demo_second)]).
  - vm_compute. left.
Defined.

Lemma code_enrolls_once_witness :
  (length (List.filter (enrolled (normalizeEnrollmentCode demo_code)) (demo demo_enroll).1) <= 1)%nat ∧
  length (List.filter (enrolled (normalizeEnrollmentCode demo_code)) (demo demo_enroll).1) = 1%nat.
Proof.
  split; [|by vm_compute].
  exact (code_enrolls_once demo_cloud demo_env _ _ _ (demo_reached demo_enroll)).
Defined.

(** The grace period passes with a few validations. *)
Definition demo_late : list Call := demo_refresh ++ replicate 4 (call_validate (validate_body demo_second)).

Lemma superseded_token_after_sweep_witness :
  (demo_call (call_refresh (refresh_body demo_first)) (demo demo_late).2).1 = Ok (rsp_error "refresh-reuse-detected" None) ∧
  (demo_call (call_refresh (refresh_body demo_first)) (demo_call call_alarm (demo demo_late).2).2).1 =
    Ok (rsp_error "invalid-proof" None).
Proof.
  destruct (superseded_token_after_sweep demo_cloud demo_env (demo demo_late).1 (demo demo_late).2
    (refresh_body demo_first) (ds_refreshToken demo_first) (ds_enrollmentId demo_first)
    (row_of demo_first (demo demo_late).2) (default 0 (dr_prev_refresh_grace_until (row_of demo_first (demo demo_late).2)))
    (ch_now demo_cloud (df_ext (demo demo_late).2)).1 (ch_now demo_cloud (df_ext (demo demo_late).2)).2
    (ch_now demo_cloud (ch_now demo_cloud (df_ext (demo demo_late).2)).2).1
    (ch_now demo_cloud (ch_now demo_cloud (df_ext (demo demo_late).2)).2).2 (demo_reached demo_late))
    as (H1 & _ & H2 & _); 
    [apply refresh_body_request|by vm_compute..|]. exact (conj H1 H2).
Defined.
