(* ===== verification/SyncWire.v ===== *)
(** * Desktop app cloud: sync requests on the wire

    What an account's coordinator reads from a sync request before it touches its tables,
    [mezair-app/cloud/backend/src/account-coordinator.ts]: pending changes, the structural
    checks of key-distribution records and sealed envelopes
    ([mezair-app/cloud/contract/sealed.ts]), the canonical text a change is hashed by
    ([mezair-app/cloud/contract/sync.ts]), cursors and the parameters of each call.
    [Date.parse] of arbitrary text is a parameter. *)

From stdpp Require Import base list strings.
From Stdlib Require Import ZArith Ascii Lia.
From S2P Require Import Prelude Transactions JsString JsValue.

(** ** Failures *)

(** [new RpcFailure(code, details)]; numbers of the details are their decimal text. *)
Definition RpcFailure (code : string) (details : list (string * string)) : JsError :=
  MkError (Some code) code details.

Definition malformed (reason : string) : JsError := RpcFailure "malformed-request" [("reason", reason)].

(** [if (!ok) throw new RpcFailure('malformed-request', { reason })]. *)
Definition require (ok : bool) (reason : string) : outcome unit := if ok then Ok tt else Throw (malformed reason).

Definition isRecord : jsval → bool := isObject.

(** ** Values read from JSON *)

(** [typeof v === 'string' && v.length > 0], with the string. *)
Definition nonempty_string (v : jsval) (reason : string) : outcome string :=
  match v with
  | Some (JStr s) => if slen s =? 0 then Throw (malformed reason) else Ok s
  | _ => Throw (malformed reason)
  end.

(** [typeof v === 'number' && Number.isInteger(v)], with the integer. *)
Definition integer_of (v : jsval) : option Z := match v with Some (JNum n) => num_to_Z n | _ => None end.

Definition positive_integer (v : jsval) (reason : string) : outcome Z :=
  match integer_of v with
  | Some z => if z <? 1 then Throw (malformed reason) else Ok z
  | None => Throw (malformed reason)
  end.

(** [v === k] for an integer [k]. *)
Definition is_int (k : Z) (v : jsval) : bool := match integer_of v with Some z => z =? k | None => false end.

(** ** Pending changes *)

Inductive SyncOperation := op_create | op_update | op_delete.

#[export] Instance SyncOperation_eq_dec : EqDecision SyncOperation.
Proof. solve_decision. Defined.

Definition operation_text (o : SyncOperation) : string :=
  match o with op_create => "create" | op_update => "update" | op_delete => "delete" end.

(** [isSyncOperation(value)], with the operation. *)
Definition isSyncOperation (v : jsval) : option SyncOperation :=
  match v with
  | Some (JStr s) =>
      if String.eqb s "create" then Some op_create
      else if String.eqb s "update" then Some op_update
      else if String.eqb s "delete" then Some op_delete else None
  | _ => None
  end.

Record PendingChange := {
  pc_changeId : string;
  pc_enrollmentSequence : Z;
  pc_entityType : string;
  pc_entityId : string;
  pc_schemaVersion : Z;
  pc_baseRevision : option Z;
  pc_operation : SyncOperation;
  pc_payload : jsval;
  pc_payloadHash : string;
}.

(** [HASH_PATTERN]: 64 lower-case hexadecimal digits. *)
Definition is_hash (s : string) : bool :=
  (slen s =? 64) && forallb (λ c, is_digit c || in_range 97 102 c) (chars s).

(** [baseRevision === null || Number.isInteger(baseRevision)]. *)
Definition base_revision_of (v : jsval) : outcome (option Z) :=
  match v with
  | Some JNull => Ok None
  | _ => match integer_of v with Some z => Ok (Some z) | None => Throw (malformed "baseRevision") end
  end.

Definition parsePendingChange (input : json) : outcome PendingChange :=
  let field k := prop k (Some input) in
  _ ← require (isRecord (Some input)) "change-object";
  changeId ← nonempty_string (field "changeId") "changeId";
  enrollmentSequence ← positive_integer (field "enrollmentSequence") "enrollmentSequence";
  entityType ← nonempty_string (field "entityType") "entityType";
  entityId ← nonempty_string (field "entityId") "entityId";
  schemaVersion ← positive_integer (field "schemaVersion") "schemaVersion";
  baseRevision ← base_revision_of (field "baseRevision");
  match isSyncOperation (field "operation") with
  | None => Throw (malformed "operation")
  | Some operation =>
      match field "payloadHash" with
      | Some (JStr payloadHash) =>
          _ ← require (is_hash payloadHash) "payloadHash";
          let hasPayload := negb (is_undefined (field "payload")) in
          let change payload := {|
            pc_changeId := changeId; pc_enrollmentSequence := enrollmentSequence; pc_entityType := entityType;
            pc_entityId := entityId; pc_schemaVersion := schemaVersion; pc_baseRevision := baseRevision;
            pc_operation := operation; pc_payload := payload; pc_payloadHash := payloadHash |} in
          match operation with
          | op_delete =>
              _ ← require (negb (bool_decide (baseRevision = None))) "delete-base";
              _ ← require (negb hasPayload) "delete-payload";
              Ok (change None)
          | _ =>
              _ ← require (negb (bool_decide (operation = op_create) && negb (bool_decide (baseRevision = None))))
                    "create-base";
              _ ← require (negb (bool_decide (operation = op_update) && bool_decide (baseRevision = None)))
                    "update-base";
              _ ← require hasPayload "payload-required";
              Ok (change (field "payload"))
          end
      | _ => Throw (malformed "payloadHash")
      end
  end.

Definition assertPendingChange (change : PendingChange) : outcome unit :=
  match pc_operation change with
  | op_create => require (bool_decide (pc_baseRevision change = None)) "create-base"
  | op_update => require (negb (bool_decide (pc_baseRevision change = None))) "update-base"
  | op_delete => require (negb (bool_decide (pc_baseRevision change = None))) "delete-base"
  end.

(** ** The canonical text of a change *)

Definition json_of_base (b : option Z) : json := match b with Some z => JNum (int z) | None => JNull end.

Definition canonicalChangeHashInput (change : PendingChange) : string :=
  canonicalJson (JObj [
    ("baseRevision", json_of_base (pc_baseRevision change));
    ("entityId", JStr (pc_entityId change));
    ("entityType", JStr (pc_entityType change));
    ("operation", JStr (operation_text (pc_operation change)));
    ("payload", default JNull (pc_payload change));
    ("schemaVersion", JNum (int (pc_schemaVersion change)))]).

Definition utf8ByteLength (s : string) : Z := Z.of_nat (length (utf8 s)).

(** ** Base64 *)

Definition base64_char (c : ascii) : bool :=
  is_upper c || is_lower c || is_digit c || is_char 43 c || is_char 47 c.

Definition is_equals (c : ascii) : bool := is_char 61 c.

(** [/^[A-Za-z0-9+/]*={0,2}$/] and a length divisible by four. *)
Definition base64ByteLength (value : string) : option Z :=
  let l := rev (chars value) in
  let body := drop_while is_equals l in
  let padding := Z.of_nat (length l - length body) in
  if (padding <=? 2) && forallb base64_char body && (slen value mod 4 =? 0)
  then Some (slen value / 4 * 3 - padding)
  else None.

Definition base64ByteLengthValue (v : jsval) (expected : Z) (issue : string) : option string :=
  match v with
  | Some (JStr s) => if bool_decide (base64ByteLength s = Some expected) then None else Some issue
  | _ => Some issue
  end.

Definition base64ByteLengthAtLeast (v : jsval) (minimum : Z) (issue : string) : option string :=
  match v with
  | Some (JStr s) => if minimum <=? default (-1) (base64ByteLength s) then None else Some issue
  | _ => Some issue
  end.

Definition base64url_char (c : ascii) : bool :=
  is_upper c || is_lower c || is_digit c || is_char 45 c || is_char 95 c.

Definition base64UrlByteLength (v : jsval) : option Z :=
  match v with
  | Some (JStr s) =>
      if (slen s =? 0) || negb (forallb base64url_char (chars s)) || (slen s mod 4 =? 1) then None
      else
        let swapped := of_chars (map (λ c, if is_char 45 c then "+"%char else if is_char 95 c then "/"%char else c)
                                     (chars s)) in
        base64ByteLength (swapped +:+ of_chars (replicate (Z.to_nat ((4 - slen s mod 4) mod 4)) "="%char))
  | _ => None
  end.

(** ** Sealed envelopes and key-distribution records *)

Definition SEALED_NONCE_BYTES : Z := 12.
Definition MAX_ID_FIELD_LENGTH : Z := 128.
Definition MAX_ROTATION_REVOKED_IDS : Z := 128.

Definition isSealedEntityPayload (value : json) : bool := is_str "aes-256-gcm" (prop "enc" (Some value)).

Definition sealedEnvelopeIssue (value : json) : option string :=
  let field k := prop k (Some value) in
  if negb (isObject (Some value)) then Some "envelope-not-object"
  else if negb (is_str "aes-256-gcm" (field "enc")) then Some "envelope-unknown-alg"
  else match integer_of (field "keyVersion") with
  | None => Some "envelope-bad-key-version"
  | Some v =>
      if v <? 1 then Some "envelope-bad-key-version"
      else match field "nonce" with
      | Some (JStr nonce) =>
          if negb (bool_decide (base64ByteLength nonce = Some SEALED_NONCE_BYTES)) then Some "envelope-bad-nonce"
          else match field "ct" with
          | Some (JStr ct) =>
              if slen ct =? 0 then Some "envelope-bad-ct"
              else match base64ByteLength ct with
                   | Some n => if n <? 16 then Some "envelope-bad-ct" else None
                   | None => Some "envelope-bad-ct"
                   end
          | _ => Some "envelope-bad-ct"
          end
      | _ => Some "envelope-bad-nonce"
      end
  end.

Definition isCryptoBoundaryEntityType (t : string) : bool :=
  String.eqb t "device-identity" || String.eqb t "keyring-wrap" || String.eqb t "keyring-pairing" ||
  String.eqb t "keyring-rotation" || String.eqb t "keyring-paired".

Definition isBoundedId (v : jsval) : bool :=
  match v with Some (JStr s) => (0 <? slen s) && (slen s <=? MAX_ID_FIELD_LENGTH) | _ => false end.

(** A bounded id equal to the record's own id. *)
Definition own_id (v : jsval) (entityId : string) : bool := isBoundedId v && is_str entityId v.

(** The first issue of a list of checks, in order. *)
Definition first_issue (l : list (option string)) : option string :=
  foldr (λ i rest, match i with Some s => Some s | None => rest end) None l.

Definition unless (ok : bool) (issue : string) : option string := if ok then None else Some issue.

Definition positive_safe (v : jsval) : bool :=
  match safe_integer_of v with Some z => negb (z <? 1) | None => false end.

Section Crypto.
Context (date_parse : string → option Z).

Definition cryptoBoundaryPayloadIssue (entityType entityId : string) (payload : jsval) : option string :=
  let field k := prop k payload in
  if negb (isCryptoBoundaryEntityType entityType) then None
  else if negb (isRecord payload) then Some "payload-object"
  else if String.eqb entityType "device-identity" then
    first_issue [
      unless (is_int 1 (field "v")) "device-identity-version";
      unless (own_id (field "enrollmentId") entityId) "device-identity-enrollment";
      base64ByteLengthValue (field "pub") 32 "device-identity-pub"]
  else if String.eqb entityType "keyring-wrap" then
    first_issue [
      unless (is_int 1 (field "v") && is_str "x25519-aes-256-gcm" (field "enc")) "keyring-wrap-version";
      unless (positive_safe (field "keyVersion")) "keyring-wrap-key-version";
      base64ByteLengthValue (field "ephPub") 32 "keyring-wrap-eph-pub";
      base64ByteLengthValue (field "nonce") SEALED_NONCE_BYTES "keyring-wrap-nonce";
      base64ByteLengthAtLeast (field "ct") 16 "keyring-wrap-ct";
      unless (isBoundedId (field "senderEnrollmentId")) "keyring-wrap-sender";
      base64ByteLengthValue (field "senderPub") 32 "keyring-wrap-sender-pub";
      unless (bool_decide (base64UrlByteLength (field "senderMac") = Some 32)) "keyring-wrap-sender-mac"]
  else if String.eqb entityType "keyring-pairing" then
    first_issue [
      unless (is_int 1 (field "v") && is_str "pairing-aes-256-gcm" (field "enc")) "keyring-pairing-version";
      base64ByteLengthValue (field "nonce") SEALED_NONCE_BYTES "keyring-pairing-nonce";
      base64ByteLengthAtLeast (field "ct") 16 "keyring-pairing-ct"]
  else if String.eqb entityType "keyring-paired" then
    first_issue [
      unless (is_int 1 (field "v")) "keyring-paired-version";
      unless (own_id (field "enrollmentId") entityId) "keyring-paired-enrollment";
      base64ByteLengthValue (field "pub") 32 "keyring-paired-pub";
      unless (isBoundedId (field "proofNonce")) "keyring-paired-proof";
      unless (bool_decide (base64UrlByteLength (field "mac") = Some 32)) "keyring-paired-mac"]
  else if String.eqb entityType "keyring-rotation" then
    first_issue [
      unless (is_int 1 (field "v")) "keyring-rotation-version";
      unless (own_id (field "rotationId") entityId) "keyring-rotation-id";
      unless (isBoundedId (field "rotorEnrollmentId")) "keyring-rotation-rotor";
      unless (positive_safe (field "fromVersion") && positive_safe (field "toVersion")) "keyring-rotation-version-range";
      unless (match field "revokedEnrollmentIds" with
              | Some (JArr ids) =>
                  (Z.of_nat (length ids) <=? MAX_ROTATION_REVOKED_IDS) && forallb (λ v, isBoundedId (Some v)) ids
              | _ => false
              end) "keyring-rotation-revoked";
      unless (match field "rotatedAt" with
              | Some (JStr s) => negb (bool_decide (date_parse s = None))
              | _ => false
              end) "keyring-rotation-time"]
  else None.
End Crypto.

(** ** Limits *)

Definition LIMIT_entityBytes : Z := 65536.
Definition LIMIT_pageBytes : Z := 262144.
Definition LIMIT_batchChanges : Z := 50.

(** ** Parameters of the calls *)

Definition map_outcome {A B} (f : A → outcome B) : list A → outcome (list B) :=
  foldr (λ a rest, b ← f a; bs ← rest; Ok (b :: bs)) (Ok []).

Definition parseSpikePushParams (params : json) : outcome (list PendingChange * option string) :=
  match prop "changes" (Some params) with
  | Some (JArr entries) =>
      epoch ← match prop "epoch" (Some params) with
              | None => Ok None
              | Some (JStr s) => Ok (Some s)
              | Some _ => Throw (malformed "epoch-type")
              end;
      changes ← map_outcome parsePendingChange entries;
      Ok (changes, epoch)
  | _ => Throw (malformed "changes-required")
  end.

Record PullParams := { pl_cursor : Z; pl_maxBytes : Z; pl_maxChanges : option Z }.

(** [null], the empty string and a decimal numeral of a safe integer. *)
Definition parse_cursor (v : jsval) : outcome Z :=
  match v with
  | None => Throw (malformed "cursor-required")
  | Some JNull => Ok 0
  | Some (JStr s) =>
      if slen s =? 0 then Ok 0
      else if negb (forallb is_digit (chars s)) then Throw (malformed "cursor-format")
      else match safe_integer (string_to_num s) with
           | Some z => Ok z
           | None => Throw (malformed "cursor-range")
           end
  | Some _ => Throw (malformed "cursor-type")
  end.

Definition parseSpikePullParams (params : json) : outcome PullParams :=
  _ ← require (isRecord (Some params)) "pull-params";
  cursor ← parse_cursor (prop "cursor" (Some params));
  maxBytes ← positive_integer (prop "maxBytes" (Some params)) "maxBytes";
  match prop "maxChanges" (Some params) with
  | None => Ok {| pl_cursor := cursor; pl_maxBytes := maxBytes; pl_maxChanges := None |}
  | v =>
      maxChanges ← positive_integer v "maxChanges";
      Ok {| pl_cursor := cursor; pl_maxBytes := maxBytes; pl_maxChanges := Some maxChanges |}
  end.

(** The epoch the client expects; [None] for [null] and for none. *)
Definition parseScanBeginParams (params : json) : outcome (option string) :=
  _ ← require (isRecord (Some params)) "scan-begin-params";
  match prop "epoch" (Some params) with
  | None | Some JNull => Ok None
  | Some (JStr s) => Ok (Some s)
  | Some _ => Throw (malformed "epoch-type")
  end.

Record ScanPageParams := { sp_scanId : string; sp_cursor : option string; sp_maxBytes : Z }.

Definition parseScanPageParams (params : json) : outcome ScanPageParams :=
  _ ← require (isRecord (Some params)) "scan-page-params";
  scanId ← nonempty_string (prop "scanId" (Some params)) "scanId";
  cursor ← match prop "cursor" (Some params) with
           | None => Throw (malformed "cursor-required")
           | Some JNull => Ok None
           | Some (JStr s) => if slen s =? 0 then Throw (malformed "cursor-format") else Ok (Some s)
           | Some _ => Throw (malformed "cursor-type")
           end;
  maxBytes ← positive_integer (prop "maxBytes" (Some params)) "maxBytes";
  Ok {| sp_scanId := scanId; sp_cursor := cursor; sp_maxBytes := maxBytes |}.

Definition parseScanFinishParams (params : json) : outcome string :=
  _ ← require (isRecord (Some params)) "scan-finish-params";
  nonempty_string (prop "scanId" (Some params)) "scanId".

Record ExportPageParams := { xp_operationId : string; xp_cursor : option string; xp_maxBytes : Z }.

Definition parseDataExportPageParams (params : json) : outcome ExportPageParams :=
  _ ← require (isRecord (Some params)) "export-page-params";
  operationId ← nonempty_string (prop "operationId" (Some params)) "operationId";
  cursor ← match prop "cursor" (Some params) with
           | None | Some JNull => Ok None
           | Some (JStr s) => Ok (Some s)
           | Some _ => Throw (malformed "cursor-type")
           end;
  maxBytes ← match prop "maxBytes" (Some params) with
             | None => Ok LIMIT_pageBytes
             | v => positive_integer v "maxBytes"
             end;
  Ok {| xp_operationId := operationId; xp_cursor := cursor; xp_maxBytes := maxBytes |}.

Record ExportedEntity := {
  xe_entityType : string; xe_entityId : string; xe_revision : num; xe_schemaVersion : num; xe_payload : json;
}.

Definition parseExportedEntity (input : json) : outcome ExportedEntity :=
  let field k := prop k (Some input) in
  match field "entityType", field "entityId", field "revision", field "schemaVersion", field "payload" with
  | Some (JStr t), Some (JStr i), Some (JNum r), Some (JNum v), Some p =>
      Ok {| xe_entityType := t; xe_entityId := i; xe_revision := r; xe_schemaVersion := v; xe_payload := p |}
  | _, _, _, _, _ => Throw (malformed "entity-shape")
  end.

Definition DATA_EXPORT_FORMAT_VERSION : Z := 1.

Definition parseDataImportPreviewParams (params : json) : outcome (list ExportedEntity) :=
  _ ← require (isRecord (Some params)) "import-preview-params";
  if negb (is_int DATA_EXPORT_FORMAT_VERSION (prop "formatVersion" (Some params))) then
    Throw (RpcFailure "malformed-request" [("reason", "unsupported-format-version");
             ("expected", int_to_string DATA_EXPORT_FORMAT_VERSION)])
  else
    let failure := RpcFailure "malformed-request" [("reason", "entities"); ("limit", int_to_string LIMIT_batchChanges)] in
    match prop "entities" (Some params) with
    | Some (JArr raw) =>
        if LIMIT_batchChanges <? Z.of_nat (length raw) then Throw failure else map_outcome parseExportedEntity raw
    | _ => Throw failure
    end.

Definition parseDataImportCommitParams (params : json) : outcome string :=
  _ ← require (isRecord (Some params)) "import-commit-params";
  nonempty_string (prop "operationId" (Some params)) "operationId".

(** ** Entity cursors: the JSON text of a pair of strings *)

Definition encodeEntityCursor (entityType entityId : string) : string :=
  JSON_stringify (JArr [JStr entityType; JStr entityId]).

Definition json_space (c : ascii) : bool := is_char 32 c || is_char 9 c || is_char 10 c || is_char 13 c.
Definition skip_space : list ascii → list ascii := drop_while json_space.

Definition hex_digits (l : list ascii) : option Z :=
  if forallb (λ c, digit_value c <? 16) l then Some (foldl (λ a c, a * 16 + digit_value c) 0 l) else None.

(** The units of a JSON string after its opening quote, and what follows its closing one. *)
Fixpoint read_json_chars (l : list ascii) : option (list ascii * list ascii) :=
  let keep c r := match r with Some (s, rest) => Some (c :: s, rest) | None => None end in
  match l with
  | [] => None
  | c :: l' =>
      if code c =? 34 then Some ([], l')
      else if code c <? 32 then None
      else if code c =? 92 then
        match l' with
        | [] => None
        | d :: l'' =>
            if (code d =? 34) || (code d =? 92) || (code d =? 47) then keep d (read_json_chars l'')
            else if code d =? 98 then keep (ascii_of_nat 8) (read_json_chars l'')
            else if code d =? 116 then keep (ascii_of_nat 9) (read_json_chars l'')
            else if code d =? 110 then keep (ascii_of_nat 10) (read_json_chars l'')
            else if code d =? 102 then keep (ascii_of_nat 12) (read_json_chars l'')
            else if code d =? 114 then keep (ascii_of_nat 13) (read_json_chars l'')
            else if code d =? 117 then
              match l'' with
              | h1 :: h2 :: h3 :: h4 :: rest =>
                  match hex_digits [h1; h2; h3; h4] with
                  | Some v => if v <? 256 then keep (ascii_of_N (Z.to_N v)) (read_json_chars rest) else None
                  | None => None
                  end
              | _ => None
              end
            else None
        end
      else keep c (read_json_chars l')
  end.

(** One token, spaces skipped before it. *)
Definition read_token (t : ascii) (l : list ascii) : option (list ascii) :=
  match skip_space l with c :: l' => if Ascii.eqb c t then Some l' else None | [] => None end.

Definition read_json_string (l : list ascii) : option (string * list ascii) :=
  l' ← read_token (ascii_of_nat 34) l; '(s, rest) ← read_json_chars l'; Some (of_chars s, rest).

(** [JSON.parse] of text that is an array of exactly two strings. *)
Definition read_pair (l : list ascii) : option (string * string) :=
  l ← read_token "["%char l;
  '(a, l) ← read_json_string l;
  l ← read_token ","%char l;
  '(b, l) ← read_json_string l;
  l ← read_token "]"%char l;
  match skip_space l with [] => Some (a, b) | _ => None end.

Definition decodeEntityCursor (cursor : string) : outcome (string * string) :=
  match read_pair (chars cursor) with
  | Some (t, i) => if (slen t =? 0) || (slen i =? 0) then Throw (malformed "cursor-format") else Ok (t, i)
  | None => Throw (malformed "cursor-format")
  end.

(** ** Lemmas *)

Lemma read_escaped s rest : read_json_chars (escaped s ++ ascii_of_nat 34 :: rest) = Some (chars s, rest).
Proof.
  unfold escaped. generalize (chars s) as l. induction l as [|c l IH]; [reflexivity|].
  cbn [flat_map]. rewrite <- app_assoc.
  assert (∀ r, read_json_chars (chars (escape_char c) ++ r) =
    match read_json_chars r with Some (s, rest) => Some (c :: s, rest) | None => None end) as ->.
  { intros r. destruct c as [[] [] [] [] [] [] [] []]; reflexivity. }
  by rewrite IH.
Qed.

Lemma read_quoted s rest : read_json_string (chars (quote s) ++ rest) = Some (s, rest).
Proof.
  unfold read_json_string. rewrite chars_quote. cbn [app]. rewrite <- app_assoc. cbn [app].
  change (read_token (ascii_of_nat 34) (ascii_of_nat 34 :: ?l)) with (Some l).
  cbn [mbind option_bind]. rewrite read_escaped. cbn [mbind option_bind]. by rewrite of_chars_chars.
Qed.

(** Reading back the cursor of an entity gives the entity's key. *)
Lemma decode_encode t i : t ≠ "" → i ≠ "" → decodeEntityCursor (encodeEntityCursor t i) = Ok (t, i).
Proof.
  intros Ht Hi. unfold decodeEntityCursor, encodeEntityCursor. cbn [JSON_stringify map join].
  rewrite !chars_app. change (chars "[") with ["["%char]. change (chars ",") with [","%char].
  change (chars "]") with ["]"%char]. cbn [app]. unfold read_pair.
  change (read_token "["%char ("["%char :: ?l)) with (Some l). cbn [mbind option_bind].
  rewrite <- !app_assoc. rewrite read_quoted. cbn [mbind option_bind app].
  change (read_token ","%char (","%char :: ?l)) with (Some l). cbn [mbind option_bind].
  rewrite read_quoted. cbn [mbind option_bind].
  change (read_token "]"%char ["]"%char]) with (Some (@nil ascii)). cbn [mbind option_bind skip_space drop_while].
  assert (∀ s, s ≠ "" → (slen s =? 0) = false) as Hn.
  { intros [|c s] Hs; [done|]. apply Z.eqb_neq. unfold slen. cbn [String.length]. lia. }
  by rewrite (Hn t Ht), (Hn i Hi).
Qed.

(** A cursor that is read is no negative number. *)
Lemma parse_cursor_nonneg v z : parse_cursor v = Ok z → 0 ≤ z.
Proof.
  unfold parse_cursor. destruct v as [[]|]; try done; [by intros [= <-]|].
  destruct (slen s =? 0) eqn:E; [by intros [= <-]|]. destruct (forallb is_digit (chars s)) eqn:Ed; [|done]. cbn [negb].
  assert (Forall (λ c, is_digit c = true) (chars s)) as Hd.
  { apply Forall_forall. intros c Hc. rewrite forallb_forall in Ed. apply Ed. by apply list_elem_of_In. }
  destruct (read_all_digits (chars s) 0 0 Hd ltac:(lia)) as (n & Hn & Hr).
  destruct (length (chars s)) as [|k] eqn:El.
  { destruct s; [done|]. cbn in El. lia. }
  rewrite (string_to_num_digits s n k Hd Hr). unfold safe_integer. rewrite num_to_Z_int.
  destruct (safe_Z n); [|done]. by intros [= <-].
Qed.

(** The cursor a page answers with is read back. *)
Lemma parse_cursor_text z : 0 ≤ z → safe_Z z = true → parse_cursor (Some (JStr (int_to_string z))) = Ok z.
Proof.
  intros Hz Hs. unfold parse_cursor. destruct (pretty_nat_reads z Hz) as (k & Hd & Hr).
  destruct (chars (int_to_string z)) as [|c l] eqn:E; [done|].
  assert ((slen (int_to_string z) =? 0) = false) as ->.
  { apply Z.eqb_neq. unfold slen. destruct (int_to_string z); [done|]. cbn [String.length]. lia. }
  assert (forallb is_digit (c :: l) = true) as ->.
  { apply forallb_forall. intros x Hx%list_elem_of_In. by eapply Forall_forall in Hd. }
  cbn [negb]. rewrite string_to_num_pretty by done. unfold safe_integer. by rewrite num_to_Z_int, Hs.
Qed.
