(* ===== verification/SyncTables.v ===== *)
(** * Desktop app cloud: the tables of an account

    The SQL tables an account's coordinator keeps for synchronisation,
    [mezair-app/cloud/backend/src/schema.ts]: [sync_meta], enrollments, entities, the
    journal of changes, push receipts, scans, data operations and compact snapshots.  A
    table with a primary key is a finite map from it; text columns that hold JSON are the
    value they encode; [sync_meta], whose keys are fixed, is a record. *)

From stdpp Require Import base list strings gmap.
From Stdlib Require Import ZArith Ascii.
From S2P Require Import Prelude Transactions JsString JsValue SyncWire.

(** ** Rows *)

(** An entity's type and id. *)
Abbreviation EntityKey := (string * string)%type.

Record EnrollmentRow := {
  en_account_id : string;
  en_high_water : Z;
  en_created_at : Z;
  en_class : string;
  en_environment_id : option string;
}.

Record EntityRow := {
  er_revision : Z;
  er_operation : SyncOperation;
  er_schema_version : Z;
  er_payload : jsval;
  er_sequence : Z;
  er_updated_at : Z;
}.

Record ChangeRow := {
  lg_entity : EntityKey;
  lg_revision : Z;
  lg_operation : SyncOperation;
  lg_schema_version : Z;
  lg_payload : jsval;
  lg_created_at : Z;
}.

(** What a push answers for one change. *)
Inductive SyncPushItemResult :=
| push_accepted (changeId : string) (revision : Z) (content : jsval)
| push_conflict (changeId : string) (remoteRevision : Z) (remoteContent : json)
| push_rejected (changeId : string) (reason : string)
| push_reset_required (changeId : string) (epoch : string)
| push_receipt_expired (changeId : string).

Definition push_status (r : SyncPushItemResult) : string :=
  match r with
  | push_accepted _ _ _ => "accepted"
  | push_conflict _ _ _ => "conflict"
  | push_rejected _ _ => "rejected"
  | push_reset_required _ _ => "reset-required"
  | push_receipt_expired _ => "receipt-expired"
  end.

Record ReceiptRow := {
  rc_change_id : string;
  rc_status : string;
  rc_revision : option Z;
  rc_content_hash : string;
  rc_result : SyncPushItemResult;
  rc_created_at : Z;
}.

Record ScannedEntity := {
  se_entity : EntityKey;
  se_revision : Z;
  se_operation : SyncOperation;
  se_schemaVersion : Z;
  se_payload : jsval;
}.

Record SyncScanPageResult := {
  pg_entities : list ScannedEntity;
  pg_nextCursor : option string;
  pg_done : bool;
}.

Record ScanRow := {
  sc_watermark_start : Z;
  sc_epoch : string;
  sc_created_at : Z;
  sc_done : bool;
  sc_entity_cursor : option string;
  sc_watermark_end : option Z;
  sc_page_request_cursor : option string;
  sc_page_result : option SyncScanPageResult;
}.

(** ** Data operations *)

Inductive ImportOutcome := im_create | im_identical | im_conflict | im_invalid.

#[export] Instance ImportOutcome_eq_dec : EqDecision ImportOutcome.
Proof. solve_decision. Defined.

Record ImportPlanEntry := { pe_entity : ExportedEntity; pe_outcome : ImportOutcome; pe_reason : option string }.

Record DataImportCommitResult := { ic_operationId : string; ic_applied : Z; ic_conflicts : Z; ic_skipped : Z }.

Record DataOperationRow := {
  dop_kind : string;
  dop_state : string;
  dop_enrollment_id : string;
  dop_created_at : Z;
  dop_watermark : option Z;
  dop_entity_cursor : option string;
  dop_plan : option (list ImportPlanEntry);
  dop_result : option DataImportCommitResult;
  dop_finished_at : option Z;
}.

(** ** Compact snapshots *)

Record ChunkDescriptor := { cd_index : Z; cd_byteLength : Z; cd_sha256 : string }.

#[export] Instance ChunkDescriptor_eq_dec : EqDecision ChunkDescriptor.
Proof. solve_decision. Defined.

Inductive PublicationState := ps_uploading | ps_verified | ps_committed | ps_expired.
Inductive SnapshotState := ss_active | ss_retained.
Inductive ChunkState := cs_uploading | cs_uploaded | cs_deleting.

#[export] Instance PublicationState_eq_dec : EqDecision PublicationState.
Proof. solve_decision. Defined.
#[export] Instance SnapshotState_eq_dec : EqDecision SnapshotState.
Proof. solve_decision. Defined.
#[export] Instance ChunkState_eq_dec : EqDecision ChunkState.
Proof. solve_decision. Defined.

Record PublicationRow := {
  pb_publisher : string;
  pb_scan_id : string;
  pb_expected_generation : Z;
  pb_dataset_epoch : string;
  pb_key_version : Z;
  pb_schema_version : Z;
  pb_committed_cursor : Z;
  pb_entity_count : Z;
  pb_tombstone_count : Z;
  pb_manifest_sha256 : string;
  pb_chunks : list ChunkDescriptor;
  pb_state : PublicationState;
  pb_created_at : Z;
  pb_upload_expires_at : Z;
  pb_verified_at : option Z;
  pb_committed_at : option Z;
  pb_previous_generation : option Z;
}.

Record SnapshotRow := {
  sn_generation : Z;
  sn_dataset_epoch : string;
  sn_key_version : Z;
  sn_schema_version : Z;
  sn_committed_cursor : Z;
  sn_entity_count : Z;
  sn_tombstone_count : Z;
  sn_manifest_sha256 : string;
  sn_chunks : list ChunkDescriptor;
  sn_state : SnapshotState;
  sn_created_at : Z;
  sn_retain_until : option Z;
}.

Record ChunkRow := {
  ck_r2_key : string;
  ck_sha256 : string;
  ck_byte_length : Z;
  ck_state : ChunkState;
  ck_uploaded_at : Z;
}.

(** ** The database *)

(** An operator's notice that restricts an account; [restrictAt] is a date in text. *)
Record FairUseNotice := { fu_code : string; fu_message : string; fu_restrictAt : string }.

Record SyncMeta := {
  sm_epoch : string;
  sm_next_sequence : Z;
  sm_retention_floor : Z;
  sm_key_version : Z;
  sm_history_bytes : Z;
  sm_compaction_target : option Z;
  sm_fair_use : option FairUseNotice;
}.

Record SyncDb := {
  sd_meta : SyncMeta;
  sd_enrollments : gmap string EnrollmentRow;
  sd_entities : gmap EntityKey EntityRow;
  sd_changes : gmap Z ChangeRow;
  sd_receipts : gmap (string * Z) ReceiptRow;
  sd_scans : gmap string ScanRow;
  sd_operations : gmap string DataOperationRow;
  sd_publications : gmap string PublicationRow;
  sd_snapshots : gmap string SnapshotRow;
  sd_chunks : gmap (string * Z) ChunkRow;
  sd_counters : gmap string Z;
}.

Definition INITIAL_EPOCH : string := "spike-epoch-1".

Definition initial_db : SyncDb := {|
  sd_meta := {| sm_epoch := INITIAL_EPOCH; sm_next_sequence := 1; sm_retention_floor := 0; sm_key_version := 0;
                sm_history_bytes := 0; sm_compaction_target := None; sm_fair_use := None |};
  sd_enrollments := ∅; sd_entities := ∅; sd_changes := ∅; sd_receipts := ∅; sd_scans := ∅; sd_operations := ∅;
  sd_publications := ∅; sd_snapshots := ∅; sd_chunks := ∅; sd_counters := ∅ |}.

Definition set_next_sequence (v : Z) (m : SyncMeta) : SyncMeta := {|
  sm_epoch := sm_epoch m; sm_next_sequence := v; sm_retention_floor := sm_retention_floor m;
  sm_key_version := sm_key_version m; sm_history_bytes := sm_history_bytes m;
  sm_compaction_target := sm_compaction_target m; sm_fair_use := sm_fair_use m |}.
Definition set_retention_floor (v : Z) (m : SyncMeta) : SyncMeta := {|
  sm_epoch := sm_epoch m; sm_next_sequence := sm_next_sequence m; sm_retention_floor := v;
  sm_key_version := sm_key_version m; sm_history_bytes := sm_history_bytes m;
  sm_compaction_target := sm_compaction_target m; sm_fair_use := sm_fair_use m |}.
Definition set_key_version (v : Z) (m : SyncMeta) : SyncMeta := {|
  sm_epoch := sm_epoch m; sm_next_sequence := sm_next_sequence m; sm_retention_floor := sm_retention_floor m;
  sm_key_version := v; sm_history_bytes := sm_history_bytes m; sm_compaction_target := sm_compaction_target m;
  sm_fair_use := sm_fair_use m |}.
Definition set_history_bytes (v : Z) (m : SyncMeta) : SyncMeta := {|
  sm_epoch := sm_epoch m; sm_next_sequence := sm_next_sequence m; sm_retention_floor := sm_retention_floor m;
  sm_key_version := sm_key_version m; sm_history_bytes := v; sm_compaction_target := sm_compaction_target m;
  sm_fair_use := sm_fair_use m |}.
Definition set_compaction_target (v : option Z) (m : SyncMeta) : SyncMeta := {|
  sm_epoch := sm_epoch m; sm_next_sequence := sm_next_sequence m; sm_retention_floor := sm_retention_floor m;
  sm_key_version := sm_key_version m; sm_history_bytes := sm_history_bytes m; sm_compaction_target := v;
  sm_fair_use := sm_fair_use m |}.
Definition set_fair_use (v : option FairUseNotice) (m : SyncMeta) : SyncMeta := {|
  sm_epoch := sm_epoch m; sm_next_sequence := sm_next_sequence m; sm_retention_floor := sm_retention_floor m;
  sm_key_version := sm_key_version m; sm_history_bytes := sm_history_bytes m;
  sm_compaction_target := sm_compaction_target m; sm_fair_use := v |}.
Definition set_meta (v : SyncMeta) (s : SyncDb) : SyncDb := {|
  sd_meta := v; sd_enrollments := sd_enrollments s; sd_entities := sd_entities s; sd_changes := sd_changes s;
  sd_receipts := sd_receipts s; sd_scans := sd_scans s; sd_operations := sd_operations s;
  sd_publications := sd_publications s; sd_snapshots := sd_snapshots s; sd_chunks := sd_chunks s;
  sd_counters := sd_counters s |}.
Definition set_enrollments (v : gmap string EnrollmentRow) (s : SyncDb) : SyncDb := {|
  sd_meta := sd_meta s; sd_enrollments := v; sd_entities := sd_entities s; sd_changes := sd_changes s;
  sd_receipts := sd_receipts s; sd_scans := sd_scans s; sd_operations := sd_operations s;
  sd_publications := sd_publications s; sd_snapshots := sd_snapshots s; sd_chunks := sd_chunks s;
  sd_counters := sd_counters s |}.
Definition set_entities (v : gmap EntityKey EntityRow) (s : SyncDb) : SyncDb := {|
  sd_meta := sd_meta s; sd_enrollments := sd_enrollments s; sd_entities := v; sd_changes := sd_changes s;
  sd_receipts := sd_receipts s; sd_scans := sd_scans s; sd_operations := sd_operations s;
  sd_publications := sd_publications s; sd_snapshots := sd_snapshots s; sd_chunks := sd_chunks s;
  sd_counters := sd_counters s |}.
Definition set_changes (v : gmap Z ChangeRow) (s : SyncDb) : SyncDb := {|
  sd_meta := sd_meta s; sd_enrollments := sd_enrollments s; sd_entities := sd_entities s; sd_changes := v;
  sd_receipts := sd_receipts s; sd_scans := sd_scans s; sd_operations := sd_operations s;
  sd_publications := sd_publications s; sd_snapshots := sd_snapshots s; sd_chunks := sd_chunks s;
  sd_counters := sd_counters s |}.
Definition set_receipts (v : gmap (string * Z) ReceiptRow) (s : SyncDb) : SyncDb := {|
  sd_meta := sd_meta s; sd_enrollments := sd_enrollments s; sd_entities := sd_entities s;
  sd_changes := sd_changes s; sd_receipts := v; sd_scans := sd_scans s; sd_operations := sd_operations s;
  sd_publications := sd_publications s; sd_snapshots := sd_snapshots s; sd_chunks := sd_chunks s;
  sd_counters := sd_counters s |}.
Definition set_scans (v : gmap string ScanRow) (s : SyncDb) : SyncDb := {|
  sd_meta := sd_meta s; sd_enrollments := sd_enrollments s; sd_entities := sd_entities s;
  sd_changes := sd_changes s; sd_receipts := sd_receipts s; sd_scans := v; sd_operations := sd_operations s;
  sd_publications := sd_publications s; sd_snapshots := sd_snapshots s; sd_chunks := sd_chunks s;
  sd_counters := sd_counters s |}.
Definition set_operations (v : gmap string DataOperationRow) (s : SyncDb) : SyncDb := {|
  sd_meta := sd_meta s; sd_enrollments := sd_enrollments s; sd_entities := sd_entities s;
  sd_changes := sd_changes s; sd_receipts := sd_receipts s; sd_scans := sd_scans s; sd_operations := v;
  sd_publications := sd_publications s; sd_snapshots := sd_snapshots s; sd_chunks := sd_chunks s;
  sd_counters := sd_counters s |}.
Definition set_publications (v : gmap string PublicationRow) (s : SyncDb) : SyncDb := {|
  sd_meta := sd_meta s; sd_enrollments := sd_enrollments s; sd_entities := sd_entities s;
  sd_changes := sd_changes s; sd_receipts := sd_receipts s; sd_scans := sd_scans s;
  sd_operations := sd_operations s; sd_publications := v; sd_snapshots := sd_snapshots s;
  sd_chunks := sd_chunks s; sd_counters := sd_counters s |}.
Definition set_snapshots (v : gmap string SnapshotRow) (s : SyncDb) : SyncDb := {|
  sd_meta := sd_meta s; sd_enrollments := sd_enrollments s; sd_entities := sd_entities s;
  sd_changes := sd_changes s; sd_receipts := sd_receipts s; sd_scans := sd_scans s;
  sd_operations := sd_operations s; sd_publications := sd_publications s; sd_snapshots := v;
  sd_chunks := sd_chunks s; sd_counters := sd_counters s |}.
Definition set_chunks (v : gmap (string * Z) ChunkRow) (s : SyncDb) : SyncDb := {|
  sd_meta := sd_meta s; sd_enrollments := sd_enrollments s; sd_entities := sd_entities s;
  sd_changes := sd_changes s; sd_receipts := sd_receipts s; sd_scans := sd_scans s;
  sd_operations := sd_operations s; sd_publications := sd_publications s; sd_snapshots := sd_snapshots s;
  sd_chunks := v; sd_counters := sd_counters s |}.
Definition set_counters (v : gmap string Z) (s : SyncDb) : SyncDb := {|
  sd_meta := sd_meta s; sd_enrollments := sd_enrollments s; sd_entities := sd_entities s;
  sd_changes := sd_changes s; sd_receipts := sd_receipts s; sd_scans := sd_scans s;
  sd_operations := sd_operations s; sd_publications := sd_publications s; sd_snapshots := sd_snapshots s;
  sd_chunks := sd_chunks s; sd_counters := v |}.

(** ** Statements *)

Abbreviation T A := (M SyncDb A).

Definition get_meta {A} (f : SyncMeta → A) : T A := gets (λ s, f (sd_meta s)).
Definition put_meta (f : SyncMeta → SyncMeta) : T unit := modify (λ s, set_meta (f (sd_meta s)) s).

(** ** The orders of the queries *)

(** [ORDER BY entity_type ASC, entity_id ASC]. *)
Definition ekey_leb (a b : EntityKey) : bool :=
  if String.eqb a.1 b.1 then str_leb a.2 b.2 else str_leb a.1 b.1.

(** [entity_type > t OR (entity_type = t AND entity_id > i)]. *)
Definition ekey_after (cursor : EntityKey) (k : EntityKey) : bool :=
  negb (str_leb k.1 cursor.1) || (String.eqb k.1 cursor.1 && negb (str_leb k.2 cursor.2)).

(** All rows of [entities] in order, and those after a cursor. *)
Definition entity_rows (entities : gmap EntityKey EntityRow) : list (EntityKey * EntityRow) :=
  sort_by (λ a b, ekey_leb a.1 b.1) (map_to_list entities).

Definition entity_rows_after (after : option EntityKey) (entities : gmap EntityKey EntityRow) :
    list (EntityKey * EntityRow) :=
  match after with
  | None => entity_rows entities
  | Some cursor => List.filter (λ r, ekey_after cursor r.1) (entity_rows entities)
  end.

(** [SELECT * FROM changes WHERE p ORDER BY sequence ASC]. *)
Definition change_rows (p : Z → ChangeRow → bool) (changes : gmap Z ChangeRow) : list (Z * ChangeRow) :=
  List.filter (λ r, p r.1 r.2) (sort_by (λ a b, a.1 <=? b.1) (map_to_list changes)).
