(* ===== verification/SyncLog.v ===== *)
(** * Desktop app cloud: push, pull and scan

    How an account's coordinator accepts changes from devices into its journal, serves the
    journal from a cursor, and serves a scan of all entities,
    [mezair-app/cloud/backend/src/account-coordinator.ts].  [now] is [Date.now()], which
    in a Worker does not advance within a request; fresh ids are arguments.  SHA-256 and
    [Date.parse] are parameters, and so is whether the account is hosted.  Messages to
    sockets, metrics and the alarm are left out. *)

From stdpp Require Import base list strings gmap.
From Stdlib Require Import ZArith Ascii.
From S2P Require Import Prelude Transactions JsString JsValue SyncWire SyncTables.

Record SpikeAuth := {
  sa_accountId : string;
  sa_enrollmentId : string;
  sa_enrollmentClass : option string;
  sa_environmentId : option string;
}.

Record PreparedChange := {
  pp_change : PendingChange;
  pp_payload : jsval;
  pp_entityBytes : Z;
  pp_computedHash : string;
}.

Record PushBatchOutcome := { po_results : list SyncPushItemResult; po_acceptedWatermark : option Z }.

Definition HISTORY_QUOTA_BYTES : Z := 64 * 1024 * 1024.
Definition SYNC_SNAPSHOT_MAX_KEY_VERSION : Z := 2 ^ 31 - 1.
Definition SNAPSHOT_LIFETIME_MS : Z := 15 * 60 * 1000.

(** ** Helpers of all calls *)

Definition readEntity (k : EntityKey) : T (option EntityRow) := gets (λ s, sd_entities s !! k).

Definition readHistoryBytes : T Z := get_meta sm_history_bytes.

Definition addHistoryBytes (delta : Z) : T unit :=
  put_meta (λ m, set_history_bytes (Z.max 0 (sm_history_bytes m + delta)) m).

Definition bumpCounter (key : string) (by_ : Z) : T unit :=
  if by_ =? 0 then mret tt
  else modify (λ s, set_counters (<[key := default 0 (sd_counters s !! key) + by_]> (sd_counters s)) s).

Definition currentWatermark : T Z :=
  get_meta (λ m, if 1 <? sm_next_sequence m then sm_next_sequence m - 1 else 0).

Definition readRetentionFloor : T Z := get_meta sm_retention_floor.

Definition provisionEnrollment (now : Z) (auth : SpikeAuth) : T unit :=
  modify (λ s, match sd_enrollments s !! sa_enrollmentId auth with
    | Some _ => s
    | None => set_enrollments (<[sa_enrollmentId auth := {|
        en_account_id := sa_accountId auth; en_high_water := 0; en_created_at := now;
        en_class := default "device" (sa_enrollmentClass auth); en_environment_id := sa_environmentId auth |}]>
        (sd_enrollments s)) s
    end).

(** [.one()] throws without a row. *)
Definition no_row : JsError := MkError None "Expected exactly one result" [].

Definition readHighWater (enrollmentId : string) : T Z := λ s,
  match sd_enrollments s !! enrollmentId with
  | Some r => (Ok (en_high_water r), s)
  | None => (Throw no_row, s)
  end.

Definition with_high_water (v : Z) (r : EnrollmentRow) : EnrollmentRow := {|
  en_account_id := en_account_id r; en_high_water := v; en_created_at := en_created_at r;
  en_class := en_class r; en_environment_id := en_environment_id r |}.

Definition advanceHighWater (enrollmentId : string) (sequence : Z) : T unit :=
  modify (λ s, set_enrollments (alter (λ r, if en_high_water r <? sequence then with_high_water sequence r else r)
                                  enrollmentId (sd_enrollments s)) s).

Definition writeReceipt (now : Z) (enrollmentId : string) (item : PreparedChange) (result : SyncPushItemResult) : T unit :=
  insert_row sd_receipts set_receipts (enrollmentId, pc_enrollmentSequence (pp_change item)) {|
    rc_change_id := pc_changeId (pp_change item); rc_status := push_status result;
    rc_revision := match result with push_accepted _ r _ => Some r | _ => None end;
    rc_content_hash := pc_payloadHash (pp_change item); rc_result := result; rc_created_at := now |}.

(** Tracks the highest version of a sealed envelope; no payload is opened. *)
Definition observeSyncKeyVersion (payload : jsval) : T unit :=
  match safe_integer_of (prop "keyVersion" payload) with
  | Some version =>
      if (version <? 1) || (SYNC_SNAPSHOT_MAX_KEY_VERSION <? version) then mret tt
      else put_meta (λ m, if sm_key_version m <? version then set_key_version version m else m)
  | None => mret tt
  end.

(** [UPDATE changes SET payload = ? WHERE sequence = ? AND payload IS NULL], for the row of
    an entity's previous content. *)
Definition fill_payload (payload : jsval) (r : ChangeRow) : ChangeRow :=
  match lg_payload r with
  | None => {| lg_entity := lg_entity r; lg_revision := lg_revision r; lg_operation := lg_operation r;
               lg_schema_version := lg_schema_version r; lg_payload := payload; lg_created_at := lg_created_at r |}
  | Some _ => r
  end.

Definition materialise (existing : option EntityRow) : T unit :=
  match existing with
  | Some e =>
      if negb (bool_decide (er_operation e = op_delete)) && negb (is_undefined (er_payload e)) then
        modify (λ s, set_changes (alter (fill_payload (er_payload e)) (er_sequence e) (sd_changes s)) s)
      else mret tt
  | None => mret tt
  end.

Definition next_sequence_is (sequence : Z) : T unit := put_meta (set_next_sequence sequence).

Section Coordinator.
Context (sha256Hex : string → string) (date_parse : string → option Z) (hosted : bool).

(** ** Fair use *)

Definition activeFairUseRestriction (now : Z) : T (option FairUseNotice) :=
  get_meta (λ m,
    if negb hosted then None
    else match sm_fair_use m with
         | Some notice =>
             match date_parse (fu_restrictAt notice) with
             | Some t => if t <=? now then Some notice else None
             | None => None
             end
         | None => None
         end).

Definition fair_use_failure (notice : FairUseNotice) : JsError :=
  RpcFailure "forbidden" [("reason", "fair-use-restricted"); ("code", fu_code notice); ("message", fu_message notice);
    ("restrictAt", fu_restrictAt notice)].

Definition assertFairUseWritesAllowed (now : Z) : T unit :=
  notice ← activeFairUseRestriction now;
  match notice with Some n => throw (fair_use_failure n) | None => mret tt end.

(** ** Push *)

Definition too_large (details : list (string * string)) : JsError := RpcFailure "payload-too-large" details.

Definition prepare (change : PendingChange) : PreparedChange :=
  let payload := if bool_decide (pc_operation change = op_delete) then None else pc_payload change in {|
    pp_change := change;
    pp_payload := payload;
    pp_entityBytes := match payload with Some p => utf8ByteLength (JSON_stringify p) | None => 0 end;
    pp_computedHash := sha256Hex (canonicalChangeHashInput change) |}.

(** The checks of one change of a batch. *)
Definition assertItem (item : PreparedChange) : outcome unit :=
  let change := pp_change item in
  let failure details := RpcFailure "malformed-request" (details ++ [("changeId", pc_changeId change)]) in
  _ ← assertPendingChange change;
  match (if bool_decide (pc_operation change = op_delete) then None
         else cryptoBoundaryPayloadIssue date_parse (pc_entityType change) (pc_entityId change) (pc_payload change)) with
  | Some issue =>
      Throw (failure [("reason", "crypto-boundary-invalid"); ("entityType", pc_entityType change); ("issue", issue)])
  | None =>
      let sealed_issue :=
        match pc_payload change with
        | Some (JObj l) =>
            if is_undefined (prop "enc" (Some (JObj l))) then None else sealedEnvelopeIssue (JObj l)
        | _ => None
        end in
      if negb (isCryptoBoundaryEntityType (pc_entityType change)) && negb (bool_decide (sealed_issue = None)) then
        Throw (failure [("reason", "envelope-invalid")])
      else if negb (String.eqb (pp_computedHash item) (pc_payloadHash change)) then
        Throw (failure [("reason", "payload-hash-mismatch")])
      else if LIMIT_entityBytes <? pp_entityBytes item then
        Throw (too_large [("limitBytes", int_to_string LIMIT_entityBytes);
          ("actualBytes", int_to_string (pp_entityBytes item)); ("entityType", pc_entityType change)])
      else Ok tt
  end.

Definition total_bytes (prepared : list PreparedChange) : Z := foldr (λ i n, pp_entityBytes i + n) 0 prepared.

Definition assertBatchStructure (prepared : list PreparedChange) : outcome unit :=
  if LIMIT_batchChanges <? Z.of_nat (length prepared) then
    Throw (too_large [("limit", int_to_string LIMIT_batchChanges); ("actual", int_to_string (Z.of_nat (length prepared)))])
  else
    _ ← map_outcome assertItem prepared;
    if LIMIT_pageBytes <? total_bytes prepared then
      Throw (too_large [("limitBytes", int_to_string LIMIT_pageBytes);
        ("actualBytes", int_to_string (total_bytes prepared))])
    else Ok tt.

(** What a change's base revision conflicts with, if it does. *)
Definition compareBaseRevision (change : PendingChange) (existing : option EntityRow) : option SyncPushItemResult :=
  let conflict_with e := push_conflict (pc_changeId change) (er_revision e) (default JNull (er_payload e)) in
  match pc_operation change with
  | op_create => conflict_with <$> existing
  | op_update | op_delete =>
      match existing with
      | None => Some (push_conflict (pc_changeId change) 0 JNull)
      | Some e => if bool_decide (pc_baseRevision change = Some (er_revision e)) then None else Some (conflict_with e)
      end
  end.

(** The answer, and the sequence if the change was accepted. *)
Definition applyPrepared (now : Z) (auth : SpikeAuth) (item : PreparedChange) : T (SyncPushItemResult * option Z) :=
  let change := pp_change item in
  let enrollment := sa_enrollmentId auth in
  let sequence_of := pc_enrollmentSequence change in
  let settle result := _ ← writeReceipt now enrollment item result; _ ← advanceHighWater enrollment sequence_of;
                       mret (result, None) in
  receipt ← gets (λ s, sd_receipts s !! (enrollment, sequence_of));
  match receipt with
  | Some r =>
      if String.eqb (rc_content_hash r) (pc_payloadHash change) then mret (rc_result r, None)
      else mret (push_rejected (pc_changeId change) "changed-content", None)
  | None =>
      highWater ← readHighWater enrollment;
      if sequence_of <=? highWater then
        let expired := push_receipt_expired (pc_changeId change) in
        _ ← writeReceipt now enrollment item expired;
        mret (expired, None)
      else
        historyBytes ← readHistoryBytes;
        if negb hosted && (HISTORY_QUOTA_BYTES <? historyBytes + pp_entityBytes item) then
          settle (push_rejected (pc_changeId change) "quota-exceeded")
        else
          let k := (pc_entityType change, pc_entityId change) in
          existing ← readEntity k;
          match compareBaseRevision change existing with
          | Some compared => settle compared
          | None =>
              sequence ← get_meta sm_next_sequence;
              let revision := match existing with None => 1 | Some e => er_revision e + 1 end in
              _ ← materialise existing;
              _ ← modify (λ s, set_entities (<[k := {|
                    er_revision := revision; er_operation := pc_operation change;
                    er_schema_version := pc_schemaVersion change; er_payload := pp_payload item;
                    er_sequence := sequence; er_updated_at := now |}]> (sd_entities s)) s);
              _ ← insert_row sd_changes set_changes sequence {|
                    lg_entity := k; lg_revision := revision; lg_operation := pc_operation change;
                    lg_schema_version := pc_schemaVersion change; lg_payload := None; lg_created_at := now |};
              let accepted := push_accepted (pc_changeId change) revision
                    (if bool_decide (pc_operation change = op_delete) then None else pc_payload change) in
              _ ← writeReceipt now enrollment item accepted;
              _ ← next_sequence_is (sequence + 1);
              _ ← advanceHighWater enrollment sequence_of;
              _ ← addHistoryBytes (pp_entityBytes item);
              _ ← (if bool_decide (pc_operation change = op_delete) then mret tt
                   else observeSyncKeyVersion (pc_payload change));
              mret (accepted, Some sequence)
          end
  end.

(** One change of the loop: its result is appended to those of the batch. *)
Definition push_item (now : Z) (auth : SpikeAuth) (storedEpoch : string) (item : PreparedChange)
    (acc : PushBatchOutcome) : T PushBatchOutcome :=
  '(result, accepted) ←
    (if String.eqb storedEpoch INITIAL_EPOCH then
       '(result, accepted) ← applyPrepared now auth item;
       match accepted with
       | Some sequence => _ ← bumpCounter "bytes_accepted" (pp_entityBytes item); mret (result, accepted)
       | None => mret (result, None)
       end
     else
       let result := push_reset_required (pc_changeId (pp_change item)) storedEpoch in
       _ ← writeReceipt now (sa_enrollmentId auth) item result;
       _ ← advanceHighWater (sa_enrollmentId auth) (pc_enrollmentSequence (pp_change item));
       mret (result, None));
  _ ← bumpCounter ("push_" +:+ push_status result) 1;
  mret {| po_results := po_results acc ++ [result];
          po_acceptedWatermark := match accepted with Some s => Some s | None => po_acceptedWatermark acc end |}.

Definition epoch_mismatch (expected actual : string) : JsError :=
  RpcFailure "epoch-mismatch" [("expected", expected); ("actual", actual)].

Definition is_write (change : PendingChange) : bool := negb (bool_decide (pc_operation change = op_delete)).

Definition pushInTransaction (now : Z) (auth : SpikeAuth) (epoch : option string) (prepared : list PreparedChange) :
    T PushBatchOutcome :=
  _ ← provisionEnrollment now auth;
  _ ← from_outcome (assertBatchStructure prepared);
  storedEpoch ← get_meta sm_epoch;
  _ ← (match epoch with
       | Some e => if String.eqb e storedEpoch then mret tt else throw (epoch_mismatch storedEpoch e)
       | None => mret tt
       end);
  _ ← (if existsb (λ i, is_write (pp_change i)) prepared then assertFairUseWritesAllowed now else mret tt);
  for_each prepared (push_item now auth storedEpoch) {| po_results := []; po_acceptedWatermark := None |}.

Definition handlePush (now : Z) (auth : SpikeAuth) (params : json) : T PushBatchOutcome :=
  '(changes, epoch) ← from_outcome (parseSpikePushParams params);
  notice ← activeFairUseRestriction now;
  match notice with
  | Some n =>
      if existsb is_write changes then throw (fair_use_failure n)
      else commit (pushInTransaction now auth epoch (map prepare changes))
  | None => commit (pushInTransaction now auth epoch (map prepare changes))
  end.

(** ** Pull *)

Record SyncedChange := {
  sy_entity : EntityKey;
  sy_revision : Z;
  sy_operation : SyncOperation;
  sy_schemaVersion : Z;
  sy_sequence : Z;
  sy_payload : jsval;
}.

Definition optional_payload (p : jsval) : list (string * json) :=
  match p with Some v => [("payload", v)] | None => [] end.

(** A change as the object a device sends. *)
Definition pending_json (c : PendingChange) : json := JObj ([
  ("baseRevision", json_of_base (pc_baseRevision c)); ("changeId", JStr (pc_changeId c));
  ("enrollmentSequence", JNum (int (pc_enrollmentSequence c))); ("entityId", JStr (pc_entityId c));
  ("entityType", JStr (pc_entityType c)); ("operation", JStr (operation_text (pc_operation c)))] ++
  optional_payload (pc_payload c) ++
  [("payloadHash", JStr (pc_payloadHash c)); ("schemaVersion", JNum (int (pc_schemaVersion c)))]).

Definition synced_json (c : SyncedChange) : json := JObj ([
  ("entityType", JStr (sy_entity c).1); ("entityId", JStr (sy_entity c).2); ("revision", JNum (int (sy_revision c)));
  ("operation", JStr (operation_text (sy_operation c))); ("schemaVersion", JNum (int (sy_schemaVersion c)));
  ("sequence", JNum (int (sy_sequence c)))] ++ optional_payload (sy_payload c)).

Definition json_bytes (j : json) : Z := utf8ByteLength (JSON_stringify j).

Record SyncPullResult := {
  pr_changes : list SyncedChange;
  pr_nextCursor : Z;
  pr_hasMore : bool;
  pr_recoveryFloor : Z;
}.

(** The payload of a journal row: its own, or that of the entity it is the head of. *)
Definition row_payload (entities : gmap EntityKey EntityRow) (sequence : Z) (row : ChangeRow) : outcome jsval :=
  if bool_decide (lg_operation row = op_delete) then Ok None
  else match lg_payload row with
  | Some p => Ok (Some p)
  | None =>
      let missing := Throw (RpcFailure "unavailable" [("reason", "compacted-change-payload-missing");
                       ("sequence", int_to_string sequence)]) in
      match e ← entities !! lg_entity row; if er_sequence e =? sequence then er_payload e else None with
      | Some p => Ok (Some p)
      | None => missing
      end
  end.

Definition synced_change (sequence : Z) (row : ChangeRow) (payload : jsval) : SyncedChange := {|
  sy_entity := lg_entity row; sy_revision := lg_revision row; sy_operation := lg_operation row;
  sy_schemaVersion := lg_schema_version row; sy_sequence := sequence; sy_payload := payload |}.

(** The changes of a page, the last sequence in it, and whether it was cut short. *)
Fixpoint pull_rows (entities : gmap EntityKey EntityRow) (maxBytes maxChanges : Z) (rows : list (Z * ChangeRow))
    (changes : list SyncedChange) (usedBytes lastSequence : Z) : outcome (list SyncedChange * Z * bool) :=
  match rows with
  | [] => Ok (changes, lastSequence, false)
  | (sequence, row) :: rows' =>
      payload ← row_payload entities sequence row;
      let synced := synced_change sequence row payload in
      let size := json_bytes (synced_json synced) in
      let count := Z.of_nat (length changes) in
      if ((0 <? count) && (maxBytes <? usedBytes + size)) || (maxChanges <=? count) then Ok (changes, lastSequence, true)
      else pull_rows entities maxBytes maxChanges rows' (changes ++ [synced]) (usedBytes + size) sequence
  end.

(** The page of a pull from the tables. *)
Definition pull_page (s : SyncDb) (pull : PullParams) : outcome SyncPullResult :=
  let after := pl_cursor pull in
  let maxChanges := default LIMIT_batchChanges (pl_maxChanges pull) in
  let maxBytes := Z.min (pl_maxBytes pull) LIMIT_pageBytes in
  let rows := change_rows (λ n _, after <? n) (sd_changes s) in
  '(changes, lastSequence, remaining) ← pull_rows (sd_entities s) maxBytes maxChanges rows [] 0 after;
  Ok {| pr_changes := changes; pr_nextCursor := lastSequence;
        pr_hasMore := remaining || (Z.of_nat (length changes) <? Z.of_nat (length rows));
        pr_recoveryFloor := sm_retention_floor (sd_meta s) |}.

Definition readActiveSyncSnapshot : T (option (string * SnapshotRow)) :=
  gets (λ s, find_first (λ r, bool_decide (sn_state r.2 = ss_active)) (map_to_list (sd_snapshots s))).

Definition handlePull (params : json) : T SyncPullResult :=
  pull ← from_outcome (parseSpikePullParams params);
  _ ← bumpCounter "pulls" 1;
  floor ← readRetentionFloor;
  if pl_cursor pull <? floor then
    snapshot ← readActiveSyncSnapshot;
    throw (RpcFailure "reset-required" ([("reason", "snapshot-required"); ("floor", int_to_string floor);
      ("cursor", int_to_string (pl_cursor pull))] ++
      match snapshot with
      | Some (id, r) => [("snapshotId", id); ("committedCursor", int_to_string (sn_committed_cursor r))]
      | None => []
      end))
  else
    s ← get_state;
    from_outcome (pull_page s pull).

(** ** Scans *)

Record SyncScanBeginResult := { sb_scanId : string; sb_watermarkStart : Z; sb_resumeCursor : Z; sb_epoch : string }.

Definition retention_floor_failure (floor watermarkStart : Z) : JsError :=
  RpcFailure "reset-required" [("reason", "retention-floor"); ("floor", int_to_string floor);
    ("watermarkStart", int_to_string watermarkStart)].

Definition beginScan (now : Z) (uuid : string) (epoch : option string) : T SyncScanBeginResult :=
  storedEpoch ← get_meta sm_epoch;
  _ ← (match epoch with
       | Some e => if String.eqb e storedEpoch then mret tt else throw (epoch_mismatch storedEpoch e)
       | None => mret tt
       end);
  watermarkStart ← currentWatermark;
  floor ← readRetentionFloor;
  _ ← ensure (floor <=? watermarkStart) (retention_floor_failure floor watermarkStart);
  _ ← insert_row sd_scans set_scans uuid {|
        sc_watermark_start := watermarkStart; sc_epoch := storedEpoch; sc_created_at := now; sc_done := false;
        sc_entity_cursor := None; sc_watermark_end := None; sc_page_request_cursor := None; sc_page_result := None |};
  mret {| sb_scanId := uuid; sb_watermarkStart := watermarkStart; sb_resumeCursor := watermarkStart;
          sb_epoch := storedEpoch |}.

Definition handleScanBegin (now : Z) (uuid : string) (params : json) : T SyncScanBeginResult :=
  epoch ← from_outcome (parseScanBeginParams params);
  _ ← bumpCounter "scan_begins" 1;
  commit (beginScan now uuid epoch).

Definition not_found (reason : string) : JsError := RpcFailure "not-found" [("reason", reason)].

Definition loadScan (now : Z) (scanId : string) : T ScanRow := λ s,
  match sd_scans s !! scanId with
  | None => (Throw (not_found "scan"), s)
  | Some scan =>
      if SNAPSHOT_LIFETIME_MS <? now - sc_created_at scan then (Throw (not_found "scan-expired"), s) else (Ok scan, s)
  end.

Definition assertScanEpochAndRetention (scan : ScanRow) : T unit :=
  storedEpoch ← get_meta sm_epoch;
  _ ← ensure (String.eqb (sc_epoch scan) storedEpoch) (epoch_mismatch storedEpoch (sc_epoch scan));
  floor ← readRetentionFloor;
  ensure (floor <=? sc_watermark_start scan) (retention_floor_failure floor (sc_watermark_start scan)).

Definition scanned (r : EntityKey * EntityRow) : ScannedEntity := {|
  se_entity := r.1; se_revision := er_revision r.2; se_operation := er_operation r.2;
  se_schemaVersion := er_schema_version r.2; se_payload := er_payload r.2 |}.

Definition scanned_json (e : ScannedEntity) : json := JObj ([
  ("entityType", JStr (se_entity e).1); ("entityId", JStr (se_entity e).2); ("revision", JNum (int (se_revision e)));
  ("operation", JStr (operation_text (se_operation e))); ("schemaVersion", JNum (int (se_schemaVersion e)))] ++
  optional_payload (se_payload e)).

(** The rows that fit a page, at least one, and whether the page was cut short. *)
Fixpoint take_page {A} (encode : A → json) (maxBytes : Z) (rows page : list A) (usedBytes : Z) : list A * bool :=
  match rows with
  | [] => (page, false)
  | row :: rows' =>
      let size := json_bytes (encode row) in
      if (0 <? Z.of_nat (length page)) && (maxBytes <? usedBytes + size) then (page, true)
      else take_page encode maxBytes rows' (page ++ [row]) (usedBytes + size)
  end.

Definition with_page (cursor nextCursor : option string) (page : SyncScanPageResult) (scan : ScanRow) : ScanRow := {|
  sc_watermark_start := sc_watermark_start scan; sc_epoch := sc_epoch scan; sc_created_at := sc_created_at scan;
  sc_done := pg_done page; sc_entity_cursor := nextCursor; sc_watermark_end := sc_watermark_end scan;
  sc_page_request_cursor := cursor; sc_page_result := Some page |}.

Definition update_scan (scanId : string) (f : ScanRow → ScanRow) : T unit :=
  modify (λ s, set_scans (alter f scanId (sd_scans s)) s).

(** The cursor of the last row of a page, and that of the scan without one. *)
Definition page_cursor {A} (key : A → EntityKey) (page : list A) (old : option string) : option string :=
  match last page with
  | Some e => Some (encodeEntityCursor (key e).1 (key e).2)
  | None => old
  end.

Definition decode_after (cursor : option string) : outcome (option EntityKey) :=
  match cursor with None => Ok None | Some c => k ← decodeEntityCursor c; Ok (Some k) end.

Definition pageScan (now : Z) (scanId : string) (cursor : option string) (requestedMaxBytes : Z) : T SyncScanPageResult :=
  scan ← loadScan now scanId;
  _ ← assertScanEpochAndRetention scan;
  match (if bool_decide (sc_page_request_cursor scan = cursor) then sc_page_result scan else None) with
  | Some stored => mret stored
  | None =>
      _ ← ensure (bool_decide (cursor = sc_entity_cursor scan))
            (RpcFailure "conflict" [("reason", "scan-cursor-mismatch");
               ("expectedCursor", default "null" (sc_entity_cursor scan))]);
      if sc_done scan then mret {| pg_entities := []; pg_nextCursor := None; pg_done := true |}
      else
        after ← from_outcome (decode_after cursor);
        entities ← gets sd_entities;
        let rows := map scanned (entity_rows_after after entities) in
        let '(page, cut) := take_page scanned_json (Z.min requestedMaxBytes LIMIT_pageBytes) rows [] 0 in
        let remaining := cut || (Z.of_nat (length page) <? Z.of_nat (length rows)) in
        let entityCursor := page_cursor se_entity page (sc_entity_cursor scan) in
        let result := {| pg_entities := page; pg_nextCursor := if remaining then entityCursor else None;
                         pg_done := negb remaining |} in
        _ ← update_scan scanId (with_page cursor entityCursor result);
        mret result
  end.

Definition handleScanPage (now : Z) (params : json) : T SyncScanPageResult :=
  page ← from_outcome (parseScanPageParams params);
  commit (pageScan now (sp_scanId page) (sp_cursor page) (sp_maxBytes page)).

Record SyncScanFinishResult := { sf_scanId : string; sf_watermarkEnd : Z; sf_epoch : string; sf_nextCursor : Z }.

Definition with_watermark_end (v : Z) (scan : ScanRow) : ScanRow := {|
  sc_watermark_start := sc_watermark_start scan; sc_epoch := sc_epoch scan; sc_created_at := sc_created_at scan;
  sc_done := sc_done scan; sc_entity_cursor := sc_entity_cursor scan; sc_watermark_end := Some v;
  sc_page_request_cursor := sc_page_request_cursor scan; sc_page_result := sc_page_result scan |}.

Definition finishScan (now : Z) (scanId : string) : T SyncScanFinishResult :=
  scan ← loadScan now scanId;
  _ ← assertScanEpochAndRetention scan;
  _ ← ensure (sc_done scan) (malformed "scan-incomplete");
  watermarkEnd ← (match sc_watermark_end scan with
                  | Some w => mret w
                  | None => w ← currentWatermark; _ ← update_scan scanId (with_watermark_end w); mret w
                  end);
  epoch ← get_meta sm_epoch;
  mret {| sf_scanId := scanId; sf_watermarkEnd := watermarkEnd; sf_epoch := epoch; sf_nextCursor := watermarkEnd |}.

Definition handleScanFinish (now : Z) (params : json) : T SyncScanFinishResult :=
  scanId ← from_outcome (parseScanFinishParams params);
  commit (finishScan now scanId).
End Coordinator.
