(* ===== verification/SyncData.v ===== *)
(** * Desktop app cloud: export, import and retention of an account's entities

    Paged export of live entities, import of a previewed plan, and the part of the sweep
    that expires journal rows, receipts, scans, data operations and snapshot uploads,
    [mezair-app/cloud/backend/src/account-coordinator.ts].  Queries without an order take
    rows in some order. *)

From stdpp Require Import base list strings gmap.
From Stdlib Require Import ZArith Ascii.
From S2P Require Import Prelude Transactions JsString JsValue SyncWire SyncTables SyncLog.

Definition RETENTION_MS : Z := 90 * 24 * 60 * 60 * 1000.
Definition SWEEP_BATCH_ROWS : nat := 500.
Definition DATA_IMPORT_PREVIEW_ENTRY_CAP : nat := 200.

Definition invalid_transition (reason state : string) : JsError :=
  RpcFailure "invalid-transition" [("reason", reason); ("state", state)].

Definition loadDataOperation (now : Z) (operationId kind : string) : T DataOperationRow := λ s,
  match sd_operations s !! operationId with
  | None => (Throw (not_found "data-operation"), s)
  | Some op =>
      if negb (String.eqb (dop_kind op) kind) then (Throw (malformed "operation-kind-mismatch"), s)
      else if SNAPSHOT_LIFETIME_MS <? now - dop_created_at op then (Throw (not_found "operation-expired"), s)
      else (Ok op, s)
  end.

Definition update_operation (id : string) (f : DataOperationRow → DataOperationRow) : T unit :=
  modify (λ s, set_operations (alter f id (sd_operations s)) s).

(** ** Export *)

Record DataExportBeginResult := { xb_operationId : string; xb_epoch : string; xb_watermarkStart : Z }.

Definition handleDataExportBegin (now : Z) (uuid : string) (auth : SpikeAuth) : T DataExportBeginResult :=
  epoch ← get_meta sm_epoch;
  watermark ← currentWatermark;
  let operationId := "exp_" +:+ uuid in
  _ ← insert_row sd_operations set_operations operationId {|
        dop_kind := "export"; dop_state := "open"; dop_enrollment_id := sa_enrollmentId auth; dop_created_at := now;
        dop_watermark := Some watermark; dop_entity_cursor := None; dop_plan := None; dop_result := None;
        dop_finished_at := None |};
  mret {| xb_operationId := operationId; xb_epoch := epoch; xb_watermarkStart := watermark |}.

Definition exported (r : EntityKey * EntityRow) : ExportedEntity := {|
  xe_entityType := r.1.1; xe_entityId := r.1.2; xe_revision := int (er_revision r.2);
  xe_schemaVersion := int (er_schema_version r.2); xe_payload := default JNull (er_payload r.2) |}.

Definition exported_json (e : ExportedEntity) : json := JObj [
  ("entityType", JStr (xe_entityType e)); ("entityId", JStr (xe_entityId e)); ("revision", JNum (xe_revision e));
  ("schemaVersion", JNum (xe_schemaVersion e)); ("payload", xe_payload e)].

Record DataExportPageResult := { xr_entities : list ExportedEntity; xr_nextCursor : option string; xr_done : bool }.

Definition with_export_page (now : Z) (cursor : option string) (remaining : bool) (op : DataOperationRow) :
    DataOperationRow := {|
  dop_kind := dop_kind op; dop_state := if remaining then "open" else "done"; dop_enrollment_id := dop_enrollment_id op;
  dop_created_at := dop_created_at op; dop_watermark := dop_watermark op; dop_entity_cursor := cursor;
  dop_plan := dop_plan op; dop_result := dop_result op; dop_finished_at := if remaining then None else Some now |}.

Definition is_live (r : EntityKey * EntityRow) : bool := negb (bool_decide (er_operation r.2 = op_delete)).

Definition exportPage (now : Z) (operationId : string) (cursor : option string) (requestedMaxBytes : Z) :
    T DataExportPageResult :=
  op ← loadDataOperation now operationId "export";
  if String.eqb (dop_state op) "done" then mret {| xr_entities := []; xr_nextCursor := None; xr_done := true |}
  else if negb (String.eqb (dop_state op) "open") then throw (invalid_transition "export-not-open" (dop_state op))
  else
    after ← from_outcome (decode_after cursor);
    entities ← gets sd_entities;
    let rows := map exported (List.filter is_live (entity_rows_after after entities)) in
    let '(page, cut) := take_page exported_json (Z.min requestedMaxBytes LIMIT_pageBytes) rows [] 0 in
    let remaining := cut || (Z.of_nat (length page) <? Z.of_nat (length rows)) in
    let nextCursor := page_cursor (λ e, (xe_entityType e, xe_entityId e)) page (dop_entity_cursor op) in
    _ ← update_operation operationId (with_export_page now nextCursor remaining);
    mret {| xr_entities := page; xr_nextCursor := if remaining then nextCursor else None; xr_done := negb remaining |}.

Definition handleDataExportPage (now : Z) (params : json) : T DataExportPageResult :=
  page ← from_outcome (parseDataExportPageParams params);
  commit (exportPage now (xp_operationId page) (xp_cursor page) (xp_maxBytes page)).

(** ** Import *)

Definition positive_integral (n : num) : bool := match num_to_Z n with Some z => negb (z <? 1) | None => false end.

(** An entity against the stored one. *)
Definition classify (existing : option EntityRow) (entity : ExportedEntity) : ImportPlanEntry :=
  let entry outcome reason := {| pe_entity := entity; pe_outcome := outcome; pe_reason := reason |} in
  if (slen (xe_entityType entity) =? 0) || (slen (xe_entityId entity) =? 0) || (128 <? slen (xe_entityType entity)) ||
     (512 <? slen (xe_entityId entity)) || negb (positive_integral (xe_revision entity)) ||
     negb (positive_integral (xe_schemaVersion entity))
  then entry im_invalid (Some "malformed-entity")
  else if LIMIT_entityBytes <? json_bytes (xe_payload entity) then entry im_invalid (Some "payload-too-large")
  else match existing with
  | None => entry im_create None
  | Some e =>
      if bool_decide (er_operation e = op_delete) then entry im_create None
      else if match er_payload e with
              | Some p => String.eqb (JSON_stringify p) (JSON_stringify (xe_payload entity))
              | None => false
              end then entry im_identical None
      else entry im_conflict (Some "exists-different-content")
  end.

Definition entity_key (e : ExportedEntity) : EntityKey := (xe_entityType e, xe_entityId e).

Definition classifyImportEntity (entity : ExportedEntity) : T ImportPlanEntry :=
  existing ← readEntity (entity_key entity); mret (classify existing entity).

Record ImportSummary := { is_creates : Z; is_identical : Z; is_conflicts : Z; is_invalid : Z }.

Definition count_outcome (o : ImportOutcome) (plan : list ImportPlanEntry) : Z :=
  Z.of_nat (length (List.filter (λ e, bool_decide (pe_outcome e = o)) plan)).

Record DataImportPreviewResult := {
  iv_operationId : string; iv_summary : ImportSummary; iv_entries : list ImportPlanEntry; iv_truncated : bool;
}.

Definition previewImport (now : Z) (uuid : string) (auth : SpikeAuth) (entities : list ExportedEntity) :
    T DataImportPreviewResult :=
  plan ← map_M classifyImportEntity entities;
  let operationId := "imp_" +:+ uuid in
  _ ← insert_row sd_operations set_operations operationId {|
        dop_kind := "import"; dop_state := "previewed"; dop_enrollment_id := sa_enrollmentId auth; dop_created_at := now;
        dop_watermark := None; dop_entity_cursor := None; dop_plan := Some plan; dop_result := None;
        dop_finished_at := None |};
  mret {| iv_operationId := operationId;
          iv_summary := {| is_creates := count_outcome im_create plan; is_identical := count_outcome im_identical plan;
                           is_conflicts := count_outcome im_conflict plan; is_invalid := count_outcome im_invalid plan |};
          iv_entries := take DATA_IMPORT_PREVIEW_ENTRY_CAP plan;
          iv_truncated := Nat.ltb DATA_IMPORT_PREVIEW_ENTRY_CAP (length plan) |}.

Definition handleDataImportPreview (now : Z) (uuid : string) (auth : SpikeAuth) (params : json) :
    T DataImportPreviewResult :=
  entities ← from_outcome (parseDataImportPreviewParams params);
  commit (previewImport now uuid auth entities).

(** How many entries were applied, conflicted and skipped, and the last sequence used. *)
Record ImportTally := { it_applied : Z; it_conflicts : Z; it_skipped : Z; it_watermark : option Z }.

(** An entry the plan or the commit does not create. *)
Definition tally_other (o : ImportOutcome) (t : ImportTally) : ImportTally :=
  if bool_decide (o = im_conflict)
  then {| it_applied := it_applied t; it_conflicts := it_conflicts t + 1; it_skipped := it_skipped t;
          it_watermark := it_watermark t |}
  else {| it_applied := it_applied t; it_conflicts := it_conflicts t; it_skipped := it_skipped t + 1;
          it_watermark := it_watermark t |}.

Definition import_entry (now : Z) (entry : ImportPlanEntry) (t : ImportTally) : T ImportTally :=
  let entity := pe_entity entry in
  let k := entity_key entity in
  if negb (bool_decide (pe_outcome entry = im_create)) then mret (tally_other (pe_outcome entry) t)
  else
    current ← classifyImportEntity entity;
    if negb (bool_decide (pe_outcome current = im_create)) then mret (tally_other (pe_outcome current) t)
    else
      previousEntity ← readEntity k;
      sequence ← get_meta sm_next_sequence;
      let schemaVersion := default 0 (num_to_Z (xe_schemaVersion entity)) in
      _ ← materialise previousEntity;
      _ ← insert_row sd_entities set_entities k {|
            er_revision := 1; er_operation := op_create; er_schema_version := schemaVersion;
            er_payload := Some (xe_payload entity); er_sequence := sequence; er_updated_at := now |};
      _ ← insert_row sd_changes set_changes sequence {|
            lg_entity := k; lg_revision := 1; lg_operation := op_create; lg_schema_version := schemaVersion;
            lg_payload := None; lg_created_at := now |};
      _ ← next_sequence_is (sequence + 1);
      _ ← addHistoryBytes (json_bytes (xe_payload entity));
      _ ← observeSyncKeyVersion (Some (xe_payload entity));
      mret {| it_applied := it_applied t + 1; it_conflicts := it_conflicts t; it_skipped := it_skipped t;
              it_watermark := Some sequence |}.

Definition with_import_result (now : Z) (r : DataImportCommitResult) (op : DataOperationRow) : DataOperationRow := {|
  dop_kind := dop_kind op; dop_state := "committed"; dop_enrollment_id := dop_enrollment_id op;
  dop_created_at := dop_created_at op; dop_watermark := dop_watermark op; dop_entity_cursor := dop_entity_cursor op;
  dop_plan := dop_plan op; dop_result := Some r; dop_finished_at := Some now |}.

Definition empty_tally : ImportTally := {| it_applied := 0; it_conflicts := 0; it_skipped := 0; it_watermark := None |}.

(** A retried commit returns the stored result. *)
Definition commitImport (now : Z) (auth : SpikeAuth) (operationId : string) : T (DataImportCommitResult * option Z) :=
  op ← loadDataOperation now operationId "import";
  match (if String.eqb (dop_state op) "committed" then dop_result op else None) with
  | Some r => mret (r, None)
  | None =>
      if negb (String.eqb (dop_state op) "previewed") then throw (invalid_transition "import-not-previewed" (dop_state op))
      else
        _ ← provisionEnrollment now auth;
        t ← for_each (default [] (dop_plan op)) (import_entry now) empty_tally;
        let result := {| ic_operationId := operationId; ic_applied := it_applied t; ic_conflicts := it_conflicts t;
                         ic_skipped := it_skipped t |} in
        _ ← update_operation operationId (with_import_result now result);
        mret (result, it_watermark t)
  end.

Definition handleDataImportCommit (now : Z) (auth : SpikeAuth) (params : json) :
    T (DataImportCommitResult * option Z) :=
  operationId ← from_outcome (parseDataImportCommitParams params);
  commit (commitImport now auth operationId).

(** ** The sweep *)

(** [length(cast(payload AS blob))], zero for a row without one. *)
Definition row_bytes (r : ChangeRow) : Z := match lg_payload r with Some p => json_bytes p | None => 0 end.

Definition freed_bytes (rows : list (Z * ChangeRow)) : Z := foldr (λ r n, row_bytes r.2 + n) 0 rows.

Definition delete_changes (rows : list (Z * ChangeRow)) : T unit :=
  modify (λ s, set_changes (foldr (λ r, delete r.1) (sd_changes s) rows) s).

(** Rows older than the retention window, oldest sequence first; the floor rises to the
    last one deleted. *)
Definition sweep_expired (cutoff : Z) : T Z :=
  expired ← gets (λ s, take SWEEP_BATCH_ROWS (change_rows (λ _ r, lg_created_at r <? cutoff) (sd_changes s)));
  _ ← delete_changes expired;
  _ ← (match last expired with
       | Some r => put_meta (λ m, if sm_retention_floor m <? r.1 then set_retention_floor r.1 m else m)
       | None => mret tt
       end);
  mret (freed_bytes expired).

(** Rows that a published snapshot covers. *)
Definition sweep_compaction : T Z :=
  snapshotTarget ← get_meta (λ m, default 0 (sm_compaction_target m));
  currentFloor ← readRetentionFloor;
  if snapshotTarget <=? currentFloor then mret 0
  else
    compactable ← gets (λ s, take SWEEP_BATCH_ROWS
                     (change_rows (λ n _, (currentFloor <? n) && (n <=? snapshotTarget)) (sd_changes s)));
    _ ← delete_changes compactable;
    let newFloor := match last compactable with Some r => r.1 | None => snapshotTarget end in
    _ ← put_meta (set_retention_floor (Z.max currentFloor newFloor));
    _ ← (if snapshotTarget <=? newFloor then put_meta (set_compaction_target None) else mret tt);
    mret (freed_bytes compactable).

(** [SELECT key FROM table WHERE p LIMIT n], and the deletion of those rows. *)
Definition some_rows `{Countable K} {A} (p : K → A → bool) (m : gmap K A) : list (K * A) :=
  take SWEEP_BATCH_ROWS (List.filter (λ r, p r.1 r.2) (map_to_list m)).

Definition delete_rows `{Countable K} {A} (rows : list (K * A)) (m : gmap K A) : gmap K A :=
  foldr (λ r, delete r.1) m rows.

Definition sweep_receipts (cutoff : Z) : T unit :=
  modify (λ s, set_receipts (delete_rows (some_rows (λ _ r, rc_created_at r <? cutoff) (sd_receipts s)) (sd_receipts s)) s).

Definition sweep_scans (cutoff : Z) : T unit :=
  modify (λ s, set_scans (delete_rows (some_rows (λ _ r, sc_done r && (sc_created_at r <? cutoff)) (sd_scans s))
                            (sd_scans s)) s).

Definition sweep_operations (now : Z) : T unit :=
  modify (λ s, set_operations (filter (λ r, now - SNAPSHOT_LIFETIME_MS ≤ dop_created_at r.2) (sd_operations s)) s).

(** An unfinished upload that nothing published refers to. *)
Definition open_upload (snapshots : gmap string SnapshotRow) (id : string) (p : PublicationRow) (now : Z) : bool :=
  (bool_decide (pb_state p = ps_uploading) || bool_decide (pb_state p = ps_verified)) &&
  bool_decide (pb_committed_at p = None) && (pb_upload_expires_at p <=? now) && bool_decide (snapshots !! id = None).

Definition with_state (st : PublicationState) (p : PublicationRow) : PublicationRow := {|
  pb_publisher := pb_publisher p; pb_scan_id := pb_scan_id p; pb_expected_generation := pb_expected_generation p;
  pb_dataset_epoch := pb_dataset_epoch p; pb_key_version := pb_key_version p; pb_schema_version := pb_schema_version p;
  pb_committed_cursor := pb_committed_cursor p; pb_entity_count := pb_entity_count p;
  pb_tombstone_count := pb_tombstone_count p; pb_manifest_sha256 := pb_manifest_sha256 p; pb_chunks := pb_chunks p;
  pb_state := st; pb_created_at := pb_created_at p; pb_upload_expires_at := pb_upload_expires_at p;
  pb_verified_at := pb_verified_at p; pb_committed_at := pb_committed_at p;
  pb_previous_generation := pb_previous_generation p |}.

Definition sweep_uploads (now : Z) : T unit :=
  modify (λ s, set_publications (foldr (λ r, alter (with_state ps_expired) r.1) (sd_publications s)
    (some_rows (λ id p, open_upload (sd_snapshots s) id p now) (sd_publications s))) s).

Definition with_chunk_state (st : ChunkState) (at_ : Z) (c : ChunkRow) : ChunkRow := {|
  ck_r2_key := ck_r2_key c; ck_sha256 := ck_sha256 c; ck_byte_length := ck_byte_length c; ck_state := st;
  ck_uploaded_at := at_ |}.

Definition expired_chunk (s : SyncDb) (now : Z) (k : string * Z) (c : ChunkRow) : bool :=
  negb (bool_decide (ck_state c = cs_deleting)) &&
  match sd_publications s !! k.1 with
  | Some p => bool_decide (pb_state p = ps_expired) && bool_decide (pb_committed_at p = None) &&
              (pb_upload_expires_at p <=? now) && bool_decide (sd_snapshots s !! k.1 = None)
  | None => false
  end.

Definition sweep_chunks (now : Z) : T unit :=
  modify (λ s, set_chunks (foldr (λ r, alter (λ c, with_chunk_state cs_deleting (ck_uploaded_at c) c) r.1) (sd_chunks s)
    (some_rows (expired_chunk s now) (sd_chunks s))) s).

(** The part of [runSweep] that concerns synchronisation, one transaction. *)
Definition sweepSync (now : Z) : T unit :=
  let cutoff := now - RETENTION_MS in
  commit (
    freedExpired ← sweep_expired cutoff;
    freedCompacted ← sweep_compaction;
    _ ← sweep_receipts cutoff;
    _ ← sweep_scans cutoff;
    _ ← sweep_operations now;
    _ ← sweep_uploads now;
    _ ← sweep_chunks now;
    if 0 <? freedExpired + freedCompacted then addHistoryBytes (- (freedExpired + freedCompacted)) else mret tt).
