(* ===== verification/SyncSnapshot.v ===== *)
(** * Desktop app cloud: compact snapshots

    Publication of encrypted snapshots of an account's entities: a reservation against a
    finished scan, upload of its chunks to the object store, verification, and the commit
    that makes it the recovery image and lets the sweep compact the journal,
    [mezair-app/cloud/backend/src/account-coordinator.ts] and [compact-sync.ts].  A call
    that awaits the object store is a sequence of transactions, between which other calls
    may run; [atob], [btoa] and SHA-256 are parameters.  Of the details of a failure only the
    reason is kept. *)

From stdpp Require Import base list strings gmap.
From Stdlib Require Import ZArith Ascii.
From S2P Require Import Prelude Transactions JsString JsValue SyncWire SyncTables SyncLog SyncData.

Definition SYNC_SNAPSHOT_SCHEMA_VERSION : Z := 2.
Definition SYNC_SNAPSHOT_CHUNK_MAX_BYTES : Z := 256 * 1024.
Definition SYNC_SNAPSHOT_CHUNK_MAX_COUNT : Z := 1024.
Definition SYNC_SNAPSHOT_MAX_BYTES : Z := SYNC_SNAPSHOT_CHUNK_MAX_BYTES * SYNC_SNAPSHOT_CHUNK_MAX_COUNT.
Definition SYNC_SNAPSHOT_MAX_ENTITY_COUNT : Z := 1000000.
Definition SYNC_SNAPSHOT_UPLOAD_TTL_MS : Z := 30 * 60 * 1000.
Definition SYNC_SNAPSHOT_MAX_OPEN_UPLOADS : Z := 2.

(** ** Parameters of the calls *)

Definition is_hex (c : ascii) : bool := is_digit c || in_range 97 102 c.
Definition is_hex_any (c : ascii) : bool := is_hex c || in_range 65 70 c.

(** Matches a list of one-unit patterns exactly. *)
Fixpoint matches (ps : list (ascii → bool)) (l : list ascii) : bool :=
  match ps, l with
  | [], [] => true
  | p :: ps', c :: l' => p c && matches ps' l'
  | _, _ => false
  end.

Definition UUID_PATTERN : list (ascii → bool) :=
  let dash := is_char 45 in
  let hex (n : nat) := replicate n is_hex_any in
  hex 8%nat ++ [dash] ++ hex 4%nat ++ [dash] ++ [in_range 49 56] ++ hex 3%nat ++ [dash] ++
  [λ c, is_char 56 c || is_char 57 c || is_char 97 c || is_char 98 c || is_char 65 c || is_char 66 c] ++ hex 3%nat ++
  [dash] ++ hex 12%nat.

Definition is_uuid (s : string) : bool := matches UUID_PATTERN (chars s).

(** [isNonNegativeInteger] and [isPositiveInteger], with the integer. *)
Definition nonnegative_of (v : jsval) : option Z := z ← safe_integer_of v; if 0 <=? z then Some z else None.
Definition positive_of (v : jsval) : option Z := z ← safe_integer_of v; if 0 <? z then Some z else None.

Definition get_or (o : option Z) (reason : string) : outcome Z :=
  match o with Some z => Ok z | None => Throw (malformed reason) end.

Definition get_string (v : jsval) (ok : string → bool) (reason : string) : outcome string :=
  match v with
  | Some (JStr s) => if ok s then Ok s else Throw (malformed reason)
  | _ => Throw (malformed reason)
  end.

(** A decimal numeral without leading zeros. *)
Definition numeral (s : string) : bool :=
  match chars s with
  | [] => false
  | c :: l => forallb is_digit (c :: l) && (negb (is_char 48 c) || match l with [] => true | _ => false end)
  end.

Definition parseSnapshotCursor (v : jsval) : outcome Z :=
  match v with
  | Some (JStr s) =>
      if numeral s then
        match safe_integer (string_to_num s) with Some z => Ok z | None => Throw (malformed "committedCursor") end
      else Throw (malformed "committedCursor")
  | _ => Throw (malformed "committedCursor")
  end.

Definition chunk_size_failure : JsError :=
  RpcFailure "payload-too-large" [("reason", "snapshot-chunk-size"); ("limitBytes", int_to_string SYNC_SNAPSHOT_CHUNK_MAX_BYTES)].

Definition parseChunkDescriptor (value : json) (expectedIndex : Z) : outcome ChunkDescriptor :=
  let field k := prop k (Some value) in
  _ ← require (isRecord (Some value)) "chunk-descriptor";
  _ ← require (bool_decide (nonnegative_of (field "index") = Some expectedIndex)) "chunk-order";
  match positive_of (field "byteLength") with
  | Some byteLength =>
      if SYNC_SNAPSHOT_CHUNK_MAX_BYTES <? byteLength then Throw chunk_size_failure
      else
        sha256 ← get_string (field "sha256") is_hash "chunk-sha256";
        Ok {| cd_index := expectedIndex; cd_byteLength := byteLength; cd_sha256 := sha256 |}
  | None => Throw chunk_size_failure
  end.

Fixpoint parse_chunks (index : Z) (l : list json) : outcome (list ChunkDescriptor) :=
  match l with
  | [] => Ok []
  | v :: l' => d ← parseChunkDescriptor v index; ds ← parse_chunks (index + 1) l'; Ok (d :: ds)
  end.

Record SyncSnapshotBeginParams := {
  bp_publicationId : string;
  bp_scanId : string;
  bp_expectedGeneration : Z;
  bp_datasetEpoch : string;
  bp_keyVersion : Z;
  bp_committedCursor : Z;
  bp_entityCount : Z;
  bp_tombstoneCount : Z;
  bp_manifestSha256 : string;
  bp_chunks : list ChunkDescriptor;
}.

Definition chunk_bytes (chunks : list ChunkDescriptor) : Z := foldr (λ c n, cd_byteLength c + n) 0 chunks.

Definition parseSyncSnapshotBeginParams (value : json) : outcome SyncSnapshotBeginParams :=
  let field k := prop k (Some value) in
  _ ← require (isRecord (Some value)) "snapshot-begin";
  cursor ← parseSnapshotCursor (field "committedCursor");
  publicationId ← get_string (field "publicationId") is_uuid "publicationId";
  scanId ← get_string (field "scanId") is_uuid "scanId";
  expectedGeneration ← get_or (nonnegative_of (field "expectedGeneration")) "expectedGeneration";
  datasetEpoch ← get_string (field "datasetEpoch") (λ s, (1 <=? slen s) && (slen s <=? 128)) "datasetEpoch";
  keyVersion ← get_or (positive_of (field "keyVersion")) "keyVersion";
  _ ← require (keyVersion <=? SYNC_SNAPSHOT_MAX_KEY_VERSION) "keyVersion";
  _ ← require (is_int SYNC_SNAPSHOT_SCHEMA_VERSION (field "schemaVersion")) "schemaVersion";
  entityCount ← get_or (nonnegative_of (field "entityCount")) "coverage-count";
  tombstoneCount ← get_or (nonnegative_of (field "tombstoneCount")) "coverage-count";
  _ ← require (entityCount + tombstoneCount <=? SYNC_SNAPSHOT_MAX_ENTITY_COUNT) "coverage-count";
  manifestSha256 ← get_string (field "manifestSha256") is_hash "manifestSha256";
  let count_failure := RpcFailure "payload-too-large" [("reason", "snapshot-chunk-count");
                         ("limit", int_to_string SYNC_SNAPSHOT_CHUNK_MAX_COUNT)] in
  match field "chunks" with
  | Some (JArr l) =>
      let n := Z.of_nat (length l) in
      if (n <? 1) || (SYNC_SNAPSHOT_CHUNK_MAX_COUNT <? n) then Throw count_failure
      else
        chunks ← parse_chunks 0 l;
        if SYNC_SNAPSHOT_MAX_BYTES <? chunk_bytes chunks then
          Throw (RpcFailure "payload-too-large" [("reason", "snapshot-size");
            ("limitBytes", int_to_string SYNC_SNAPSHOT_MAX_BYTES); ("actualBytes", int_to_string (chunk_bytes chunks))])
        else Ok {| bp_publicationId := publicationId; bp_scanId := scanId; bp_expectedGeneration := expectedGeneration;
                   bp_datasetEpoch := datasetEpoch; bp_keyVersion := keyVersion; bp_committedCursor := cursor;
                   bp_entityCount := entityCount; bp_tombstoneCount := tombstoneCount;
                   bp_manifestSha256 := manifestSha256; bp_chunks := chunks |}
  | _ => Throw count_failure
  end.

(** ** The manifest a publication is hashed by *)

Definition chunk_json (c : ChunkDescriptor) : json := JObj [
  ("index", JNum (int (cd_index c))); ("byteLength", JNum (int (cd_byteLength c))); ("sha256", JStr (cd_sha256 c))].

Definition canonicalSyncSnapshotManifestHashInput (b : SyncSnapshotBeginParams) : string :=
  canonicalJson (JObj [
    ("chunks", JArr (map chunk_json (bp_chunks b)));
    ("committedCursor", JStr (int_to_string (bp_committedCursor b)));
    ("datasetEpoch", JStr (bp_datasetEpoch b));
    ("entityCount", JNum (int (bp_entityCount b)));
    ("expectedGeneration", JNum (int (bp_expectedGeneration b)));
    ("keyVersion", JNum (int (bp_keyVersion b)));
    ("scanId", JStr (bp_scanId b));
    ("schemaVersion", JNum (int SYNC_SNAPSHOT_SCHEMA_VERSION));
    ("tombstoneCount", JNum (int (bp_tombstoneCount b)))]).

Definition conflict_failure (reason : string) : JsError := RpcFailure "conflict" [("reason", reason)].

(** ** Reading *)

Definition readSyncSnapshotPublication (id : string) : T (option PublicationRow) := gets (λ s, sd_publications s !! id).

(** [ORDER BY generation DESC LIMIT 1] of the retained ones. *)
Definition latest_retained (s : SyncDb) : option (string * SnapshotRow) :=
  head (sort_by (λ a b, sn_generation b.2 <=? sn_generation a.2)
          (List.filter (λ r, bool_decide (sn_state r.2 = ss_retained)) (map_to_list (sd_snapshots s)))).

Record SyncSnapshotGetResult := {
  sg_manifest : option (string * SnapshotRow);
  sg_previousManifest : option (string * SnapshotRow);
  sg_datasetEpoch : string;
  sg_keyVersion : Z;
  sg_currentCursor : Z;
  sg_recoveryFloor : Z;
}.

(** The manifest is that of the row; its state is active or retained. *)
Definition handleSyncSnapshotGet (params : json) : T SyncSnapshotGetResult :=
  match params with
  | JObj [] =>
      active ← readActiveSyncSnapshot;
      previous ← gets (λ s, match active with Some _ => latest_retained s | None => None end);
      epoch ← get_meta sm_epoch;
      keyVersion ← get_meta sm_key_version;
      cursor ← currentWatermark;
      floor ← readRetentionFloor;
      mret {| sg_manifest := active; sg_previousManifest := previous; sg_datasetEpoch := epoch;
              sg_keyVersion := keyVersion; sg_currentCursor := cursor; sg_recoveryFloor := floor |}
  | _ => throw (malformed "snapshot-get")
  end.

(** ** Who may publish *)

(** The class of an enrollment: ephemeral when the request or the pinned row says so. *)
Definition effectiveEnrollmentClass (auth : SpikeAuth) : T string :=
  if bool_decide (sa_enrollmentClass auth = Some "ephemeral") then mret "ephemeral"
  else gets (λ s, match sd_enrollments s !! sa_enrollmentId auth with
                  | Some r => if String.eqb (en_class r) "ephemeral" then "ephemeral" else "device"
                  | None => "device"
                  end).

Definition requireSnapshotPublisher (auth : SpikeAuth) : T unit :=
  class ← effectiveEnrollmentClass auth;
  ensure (negb (String.eqb class "ephemeral")) (RpcFailure "forbidden" [("reason", "snapshot-publisher-device-required")]).

(** ** Reservation *)

Definition same_intent (auth : SpikeAuth) (b : SyncSnapshotBeginParams) (p : PublicationRow) : bool :=
  String.eqb (pb_publisher p) (sa_enrollmentId auth) && String.eqb (pb_scan_id p) (bp_scanId b) &&
  (pb_expected_generation p =? bp_expectedGeneration b) && String.eqb (pb_dataset_epoch p) (bp_datasetEpoch b) &&
  (pb_key_version p =? bp_keyVersion b) && (pb_schema_version p =? SYNC_SNAPSHOT_SCHEMA_VERSION) &&
  (pb_committed_cursor p =? bp_committedCursor b) && (pb_entity_count p =? bp_entityCount b) &&
  (pb_tombstone_count p =? bp_tombstoneCount b) && String.eqb (pb_manifest_sha256 p) (bp_manifestSha256 b) &&
  bool_decide (pb_chunks p = bp_chunks b).

Definition open_uploads (now : Z) (s : SyncDb) : Z :=
  Z.of_nat (length (List.filter (λ r, (bool_decide (pb_state r.2 = ps_uploading) || bool_decide (pb_state r.2 = ps_verified))
                                      && (now <? pb_upload_expires_at r.2)) (map_to_list (sd_publications s)))).

(** The generation and cursor of the active snapshot a publication must follow. *)
Definition check_generation (expected cursor : Z) : T (option (string * SnapshotRow)) :=
  active ← readActiveSyncSnapshot;
  let generation := match active with Some (_, r) => sn_generation r | None => 0 end in
  _ ← ensure (expected =? generation) (conflict_failure "snapshot-generation-mismatch");
  _ ← ensure (match active with Some (_, r) => sn_committed_cursor r <=? cursor | None => true end)
        (conflict_failure "snapshot-cursor-regression");
  mret active.

(** The time until which chunks may be uploaded. *)
Definition beginPublication (now : Z) (auth : SpikeAuth) (b : SyncSnapshotBeginParams) : T Z :=
  _ ← provisionEnrollment now auth;
  existing ← readSyncSnapshotPublication (bp_publicationId b);
  match existing with
  | Some p =>
      _ ← ensure (same_intent auth b p) (conflict_failure "snapshot-publication-id-reused");
      _ ← ensure (negb (bool_decide (pb_state p = ps_expired)) && (now <? pb_upload_expires_at p))
            (conflict_failure "snapshot-upload-expired");
      mret (pb_upload_expires_at p)
  | None =>
      datasetEpoch ← get_meta sm_epoch;
      _ ← ensure (String.eqb (bp_datasetEpoch b) datasetEpoch) (epoch_mismatch datasetEpoch (bp_datasetEpoch b));
      current ← currentWatermark;
      floor ← readRetentionFloor;
      scan ← loadScan now (bp_scanId b);
      _ ← assertScanEpochAndRetention scan;
      _ ← ensure (sc_done scan && bool_decide (sc_watermark_end scan = Some (bp_committedCursor b)) &&
                  String.eqb (sc_epoch scan) (bp_datasetEpoch b))
            (conflict_failure "snapshot-scan-incomplete-or-mismatched");
      _ ← ensure (bp_committedCursor b <=? current) (conflict_failure "snapshot-cursor-ahead");
      _ ← ensure (floor <=? bp_committedCursor b)
            (RpcFailure "reset-required" [("reason", "snapshot-cursor-before-floor")]);
      _ ← check_generation (bp_expectedGeneration b) (bp_committedCursor b);
      keyVersion ← get_meta sm_key_version;
      _ ← ensure ((keyVersion =? 0) || (bp_keyVersion b =? keyVersion)) (conflict_failure "snapshot-key-version-mismatch");
      _ ← (if keyVersion =? 0 then put_meta (set_key_version (bp_keyVersion b)) else mret tt);
      uploads ← gets (open_uploads now);
      _ ← ensure (uploads <? SYNC_SNAPSHOT_MAX_OPEN_UPLOADS) (RpcFailure "throttled" [("reason", "snapshot-upload-capacity")]);
      let expires := now + SYNC_SNAPSHOT_UPLOAD_TTL_MS in
      _ ← insert_row sd_publications set_publications (bp_publicationId b) {|
            pb_publisher := sa_enrollmentId auth; pb_scan_id := bp_scanId b;
            pb_expected_generation := bp_expectedGeneration b; pb_dataset_epoch := bp_datasetEpoch b;
            pb_key_version := bp_keyVersion b; pb_schema_version := SYNC_SNAPSHOT_SCHEMA_VERSION;
            pb_committed_cursor := bp_committedCursor b; pb_entity_count := bp_entityCount b;
            pb_tombstone_count := bp_tombstoneCount b; pb_manifest_sha256 := bp_manifestSha256 b;
            pb_chunks := bp_chunks b; pb_state := ps_uploading; pb_created_at := now; pb_upload_expires_at := expires;
            pb_verified_at := None; pb_committed_at := None; pb_previous_generation := None |};
      mret expires
  end.

(** ** Upload *)

Definition uploadable (p : PublicationRow) : bool :=
  bool_decide (pb_state p = ps_uploading) || bool_decide (pb_state p = ps_verified).

Definition syncSnapshotObjectKey (accountId publicationId : string) (index : Z) (sha256 : string) : string :=
  "sync-snapshots/" +:+ accountId +:+ "/" +:+ publicationId +:+ "/" +:+ int_to_string index +:+ "-" +:+ sha256.

(** The publication of the caller that still takes chunks. *)
Definition open_publication (now : Z) (auth : SpikeAuth) (publicationId : string) (s : SyncDb) : option PublicationRow :=
  p ← sd_publications s !! publicationId;
  if String.eqb (pb_publisher p) (sa_enrollmentId auth) && uploadable p && (now <? pb_upload_expires_at p)
  then Some p else None.

(** The first transaction of a chunk's upload: its descriptor, its object key and whether
    it is there already. *)
Definition reserveChunk (now : Z) (auth : SpikeAuth) (publicationId : string) (index byteLength : Z) (digest : string) :
    T (ChunkDescriptor * string * bool) :=
  publication ← gets (open_publication now auth publicationId);
  match publication with
  | None => throw (not_found "snapshot-upload")
  | Some p =>
      match pb_chunks p !! Z.to_nat index with
      | None => throw (not_found "snapshot-chunk")
      | Some descriptor =>
          _ ← ensure ((cd_byteLength descriptor =? byteLength) && String.eqb (cd_sha256 descriptor) digest)
                (conflict_failure "snapshot-chunk-digest");
          let r2Key := syncSnapshotObjectKey (sa_accountId auth) publicationId index (cd_sha256 descriptor) in
          existing ← gets (λ s, sd_chunks s !! (publicationId, index));
          match existing with
          | Some c =>
              _ ← ensure (String.eqb (ck_r2_key c) r2Key && String.eqb (ck_sha256 c) (cd_sha256 descriptor) &&
                          (ck_byte_length c =? cd_byteLength descriptor)) (conflict_failure "snapshot-chunk-slot-reused");
              mret (descriptor, r2Key, bool_decide (ck_state c = cs_uploaded))
          | None =>
              _ ← insert_row sd_chunks set_chunks (publicationId, index) {|
                    ck_r2_key := r2Key; ck_sha256 := cd_sha256 descriptor; ck_byte_length := cd_byteLength descriptor;
                    ck_state := cs_uploading; ck_uploaded_at := now |};
              mret (descriptor, r2Key, false)
          end
      end
  end.

(** The second one: whether the chunk counts as uploaded, or its object is deleted again. *)
Definition acceptChunk (now : Z) (auth : SpikeAuth) (publicationId : string) (index : Z) : T bool :=
  publication ← gets (open_publication now auth publicationId);
  row ← gets (λ s, sd_chunks s !! (publicationId, index));
  match publication, row with
  | Some _, Some _ =>
      _ ← modify (λ s, set_chunks (alter (with_chunk_state cs_uploaded now) (publicationId, index) (sd_chunks s)) s);
      mret true
  | _, _ => mret false
  end.

(** ** Verification *)

(** [ORDER BY chunk_index ASC] of a publication's chunks. *)
Definition publication_chunks (id : string) (s : SyncDb) : list (Z * ChunkRow) :=
  sort_by (λ a b, a.1 <=? b.1)
    (map (λ r, (r.1.2, r.2)) (List.filter (λ r, String.eqb r.1.1 id) (map_to_list (sd_chunks s)))).

Definition chunk_ready (d : ChunkDescriptor) (index : Z) (c : Z * ChunkRow) : bool :=
  (c.1 =? index) && bool_decide (ck_state c.2 = cs_uploaded) && String.eqb (ck_sha256 c.2) (cd_sha256 d) &&
  (ck_byte_length c.2 =? cd_byteLength d).

Fixpoint chunks_ready (index : Z) (ds : list ChunkDescriptor) (cs : list (Z * ChunkRow)) : bool :=
  match ds, cs with
  | [], [] => true
  | d :: ds', c :: cs' => chunk_ready d index c && chunks_ready (index + 1) ds' cs'
  | _, _ => false
  end.

(** The first transaction of a verification: the chunks to look up in the object store,
    none when it was verified before. *)
Definition checkUpload (now : Z) (auth : SpikeAuth) (publicationId manifestSha256 : string) : T (option (list ChunkRow)) :=
  publication ← readSyncSnapshotPublication publicationId;
  match publication with
  | Some p =>
      _ ← ensure (String.eqb (pb_publisher p) (sa_enrollmentId auth) && (now <? pb_upload_expires_at p))
            (not_found "snapshot-upload");
      _ ← ensure (String.eqb (pb_manifest_sha256 p) manifestSha256) (conflict_failure "snapshot-manifest-hash");
      match pb_state p with
      | ps_verified | ps_committed => mret None
      | ps_expired => throw (conflict_failure "snapshot-upload-state")
      | ps_uploading =>
          chunks ← gets (publication_chunks publicationId);
          _ ← ensure (chunks_ready 0 (pb_chunks p) chunks) (conflict_failure "snapshot-chunks-incomplete");
          mret (Some (map snd chunks))
      end
  | None => throw (not_found "snapshot-upload")
  end.

Definition verified_now (now : Z) (p : PublicationRow) : PublicationRow := {|
  pb_publisher := pb_publisher p; pb_scan_id := pb_scan_id p; pb_expected_generation := pb_expected_generation p;
  pb_dataset_epoch := pb_dataset_epoch p; pb_key_version := pb_key_version p; pb_schema_version := pb_schema_version p;
  pb_committed_cursor := pb_committed_cursor p; pb_entity_count := pb_entity_count p;
  pb_tombstone_count := pb_tombstone_count p; pb_manifest_sha256 := pb_manifest_sha256 p; pb_chunks := pb_chunks p;
  pb_state := ps_verified; pb_created_at := pb_created_at p; pb_upload_expires_at := pb_upload_expires_at p;
  pb_verified_at := Some now; pb_committed_at := pb_committed_at p; pb_previous_generation := pb_previous_generation p |}.

(** The second one, after the objects were found. *)
Definition markVerified (now : Z) (auth : SpikeAuth) (publicationId manifestSha256 : string) : T unit :=
  fresh ← readSyncSnapshotPublication publicationId;
  match fresh with
  | Some p =>
      _ ← ensure (String.eqb (pb_publisher p) (sa_enrollmentId auth) && (now <? pb_upload_expires_at p) &&
                  String.eqb (pb_manifest_sha256 p) manifestSha256) (conflict_failure "snapshot-upload-expired");
      match pb_state p with
      | ps_uploading =>
          modify (λ s, set_publications (alter (verified_now now) publicationId (sd_publications s)) s)
      | ps_verified | ps_committed => mret tt
      | ps_expired => throw (conflict_failure "snapshot-upload-state")
      end
  | None => throw (conflict_failure "snapshot-upload-expired")
  end.

(** ** Commit *)

Definition retained (until : Z) (r : SnapshotRow) : SnapshotRow := {|
  sn_generation := sn_generation r; sn_dataset_epoch := sn_dataset_epoch r; sn_key_version := sn_key_version r;
  sn_schema_version := sn_schema_version r; sn_committed_cursor := sn_committed_cursor r;
  sn_entity_count := sn_entity_count r; sn_tombstone_count := sn_tombstone_count r;
  sn_manifest_sha256 := sn_manifest_sha256 r; sn_chunks := sn_chunks r; sn_state := ss_retained;
  sn_created_at := sn_created_at r; sn_retain_until := Some until |}.

Definition committed_now (now : Z) (previous : option Z) (p : PublicationRow) : PublicationRow := {|
  pb_publisher := pb_publisher p; pb_scan_id := pb_scan_id p; pb_expected_generation := pb_expected_generation p;
  pb_dataset_epoch := pb_dataset_epoch p; pb_key_version := pb_key_version p; pb_schema_version := pb_schema_version p;
  pb_committed_cursor := pb_committed_cursor p; pb_entity_count := pb_entity_count p;
  pb_tombstone_count := pb_tombstone_count p; pb_manifest_sha256 := pb_manifest_sha256 p; pb_chunks := pb_chunks p;
  pb_state := ps_committed; pb_created_at := pb_created_at p; pb_upload_expires_at := pb_upload_expires_at p;
  pb_verified_at := pb_verified_at p; pb_committed_at := Some now; pb_previous_generation := previous |}.

(** The snapshot row a publication becomes. *)
Definition published (now generation : Z) (p : PublicationRow) : SnapshotRow := {|
  sn_generation := generation; sn_dataset_epoch := pb_dataset_epoch p; sn_key_version := pb_key_version p;
  sn_schema_version := pb_schema_version p; sn_committed_cursor := pb_committed_cursor p;
  sn_entity_count := pb_entity_count p; sn_tombstone_count := pb_tombstone_count p;
  sn_manifest_sha256 := pb_manifest_sha256 p; sn_chunks := pb_chunks p; sn_state := ss_active; sn_created_at := now;
  sn_retain_until := None |}.

Definition queueSyncSnapshotDeletion (id : string) (s : SyncDb) : SyncDb :=
  set_publications (alter (with_state ps_expired) id (sd_publications s))
    (set_snapshots (delete id (sd_snapshots s))
       (set_chunks (map_imap (λ k c, Some (if String.eqb k.1 id then with_chunk_state cs_deleting (ck_uploaded_at c) c else c))
                      (sd_chunks s)) s)).

(** The generation committed and the one before it. *)
Definition commitPublication (now : Z) (auth : SpikeAuth) (publicationId : string) : T (Z * option Z) :=
  publication ← readSyncSnapshotPublication publicationId;
  match publication with
  | None => throw (not_found "snapshot-upload")
  | Some p =>
      _ ← ensure (String.eqb (pb_publisher p) (sa_enrollmentId auth)) (not_found "snapshot-upload");
      if bool_decide (pb_state p = ps_committed) then
        prior ← gets (λ s, sd_snapshots s !! publicationId);
        match prior with
        | Some r => mret (sn_generation r, pb_previous_generation p)
        | None => throw (RpcFailure "unavailable" [("reason", "snapshot-corrupt")])
        end
      else
        _ ← ensure (bool_decide (pb_state p = ps_verified) && (now <? pb_upload_expires_at p))
              (conflict_failure "snapshot-not-verified");
        epoch ← get_meta sm_epoch;
        _ ← ensure (String.eqb (pb_dataset_epoch p) epoch) (epoch_mismatch epoch (pb_dataset_epoch p));
        keyVersion ← get_meta sm_key_version;
        _ ← ensure (pb_key_version p =? keyVersion) (conflict_failure "snapshot-key-version-mismatch");
        current ← currentWatermark;
        floor ← readRetentionFloor;
        _ ← ensure ((pb_committed_cursor p <=? current) && (floor <=? pb_committed_cursor p))
              (RpcFailure "reset-required" [("reason", "snapshot-cursor-no-longer-recoverable")]);
        active ← check_generation (pb_expected_generation p) (pb_committed_cursor p);
        chunks ← gets (publication_chunks publicationId);
        _ ← ensure (chunks_ready 0 (pb_chunks p) chunks) (conflict_failure "snapshot-chunks-incomplete");
        let generation := match active with Some (_, r) => sn_generation r | None => 0 end in
        let previous := match active with Some (_, r) => Some (sn_generation r) | None => None end in
        _ ← (match active with
             | Some (id, _) => modify (λ s, set_snapshots (alter (retained (now + RETENTION_MS)) id (sd_snapshots s)) s)
             | None => mret tt
             end);
        _ ← insert_row sd_snapshots set_snapshots publicationId (published now (generation + 1) p);
        _ ← modify (λ s, set_publications (alter (committed_now now previous) publicationId (sd_publications s)) s);
        let targetCursor := match active with Some (_, r) => sn_committed_cursor r | None => pb_committed_cursor p end in
        _ ← put_meta (λ m, if default 0 (sm_compaction_target m) <? targetCursor
                           then set_compaction_target (Some targetCursor) m else m);
        older ← gets (λ s, List.filter (λ r, bool_decide (sn_state r.2 = ss_retained) &&
                         negb (bool_decide (Some r.1 = fst <$> active))) (map_to_list (sd_snapshots s)));
        _ ← modify (λ s, foldr (λ r, queueSyncSnapshotDeletion r.1) s older);
        mret (generation + 1, previous)
  end.

(** Rows of deleted objects go once the object store has confirmed. *)
Definition dropDeletedChunks (completed : list (string * Z)) : T unit :=
  modify (λ s, set_chunks (foldr (λ k m, match m !! k with
      | Some c => if bool_decide (ck_state c = cs_deleting) then delete k m else m
      | None => m
      end) (sd_chunks s) completed) s).

(** ** The calls *)

(** An object of the store: its size and the digest in its metadata. *)
Record R2Object := { ob_bytes : list Z; ob_sha256 : string }.

(** The account's tables and the object store. *)
Record Cloud := { cl_db : SyncDb; cl_objects : gmap string R2Object }.

Definition on_db {A} (m : T A) : M Cloud A := λ c,
  let '(r, s) := m (cl_db c) in (r, {| cl_db := s; cl_objects := cl_objects c |}).

Definition r2_head (key : string) : M Cloud (option R2Object) := gets (λ c, cl_objects c !! key).
Definition r2_put (key : string) (o : R2Object) : M Cloud unit :=
  modify (λ c, {| cl_db := cl_db c; cl_objects := <[key := o]> (cl_objects c) |}).
Definition r2_delete (key : string) : M Cloud unit :=
  modify (λ c, {| cl_db := cl_db c; cl_objects := delete key (cl_objects c) |}).

Definition object_matches (d_bytes : Z) (d_sha : string) (o : option R2Object) : bool :=
  match o with Some o => (Z.of_nat (length (ob_bytes o)) =? d_bytes) && String.eqb (ob_sha256 o) d_sha | None => false end.

Definition unavailable (reason : string) : JsError := RpcFailure "unavailable" [("reason", reason)].

Section Calls.
Context (sha256Hex : string → string) (sha256Bytes : list Z → string) (atob : string → list Z) (btoa : list Z → string).

Definition handleSyncSnapshotBegin (now : Z) (auth : SpikeAuth) (params : json) : T Z :=
  b ← from_outcome (parseSyncSnapshotBeginParams params);
  _ ← requireSnapshotPublisher auth;
  _ ← ensure (String.eqb (sha256Hex (canonicalSyncSnapshotManifestHashInput b)) (bp_manifestSha256 b))
        (malformed "snapshot-manifest-hash");
  commit (beginPublication now auth b).

(** [BASE64_PATTERN]. *)
Definition base64_pattern (s : string) : bool := negb (bool_decide (base64ByteLength s = None)).

Definition decodeCanonicalBase64 (value : string) : outcome (list Z) :=
  _ ← require (base64_pattern value) "base64";
  let bytes := atob value in
  _ ← require (String.eqb (btoa bytes) value) "base64-canonical";
  Ok bytes.

Definition handleSyncSnapshotChunkPut (now : Z) (auth : SpikeAuth) (publicationId : string) (index : Z)
    (bytesBase64 : string) : M Cloud bool :=
  _ ← on_db (requireSnapshotPublisher auth);
  bytes ← from_outcome (decodeCanonicalBase64 bytesBase64);
  '(descriptor, r2Key, alreadyUploaded) ←
    on_db (commit (reserveChunk now auth publicationId index (Z.of_nat (length bytes)) (sha256Bytes bytes)));
  object ← r2_head r2Key;
  if (alreadyUploaded : bool) then
    if object_matches (cd_byteLength descriptor) (cd_sha256 descriptor) object then mret true
    else throw (unavailable "snapshot-chunk-integrity")
  else
    _ ← (match object with
         | Some _ =>
             if object_matches (cd_byteLength descriptor) (cd_sha256 descriptor) object then mret tt
             else throw (unavailable "snapshot-object-immutable-conflict")
         | None => r2_put r2Key {| ob_bytes := bytes; ob_sha256 := cd_sha256 descriptor |}
         end);
    accepted ← on_db (commit (acceptChunk now auth publicationId index));
    if (accepted : bool) then mret false
    else _ ← r2_delete r2Key; throw (conflict_failure "snapshot-upload-expired").

Definition handleSyncSnapshotVerify (now : Z) (auth : SpikeAuth) (publicationId manifestSha256 : string) : M Cloud unit :=
  _ ← on_db (requireSnapshotPublisher auth);
  upload ← on_db (commit (checkUpload now auth publicationId manifestSha256));
  match upload with
  | None => mret tt
  | Some chunks =>
      found ← gets (λ c, forallb (λ k, object_matches (ck_byte_length k) (ck_sha256 k) (cl_objects c !! ck_r2_key k)) chunks);
      if (found : bool) then on_db (commit (markVerified now auth publicationId manifestSha256))
      else throw (unavailable "snapshot-chunk-missing")
  end.

Definition handleSyncSnapshotCommit (now : Z) (auth : SpikeAuth) (publicationId : string) : T (Z * option Z) :=
  _ ← requireSnapshotPublisher auth;
  commit (commitPublication now auth publicationId).
End Calls.
