(* ===== verification/SyncHistory.v ===== *)
(** * Desktop app cloud: the history an account's tables stand for

    The abstract state of synchronisation is the list of all accepted changes, with their
    content.  The tables are a compact form of it: an entity's row holds its last content,
    a journal row holds its content only once the entity has moved on, and the oldest rows
    are deleted.  [represents H s] says that the tables [s] stand for the history [H]. *)

From stdpp Require Import base list strings gmap.
From Stdlib Require Import ZArith Ascii Lia.
From S2P Require Import Prelude Transactions JsString JsValue SyncWire SyncTables SyncLog.

(** ** Histories *)

(** An accepted change: the entity's key and its content from then on. *)
Abbreviation History := (list ScannedEntity).

Definition len (H : History) : Z := Z.of_nat (length H).

(** The change with sequence [n]; the first one is 1. *)
Definition entry_at (H : History) (n : Z) : option ScannedEntity :=
  if 0 <? n then H !! Z.to_nat (n - 1) else None.

(** The changes up to a cursor. *)
Definition upto (c : Z) (H : History) : History := take (Z.to_nat c) H.

Definition numbered (H : History) : list (Z * ScannedEntity) := imap (λ i e, (Z.of_nat i + 1, e)) H.

(** The last change of every entity, with its sequence. *)
Definition heads (H : History) : gmap EntityKey (Z * ScannedEntity) :=
  foldl (λ m p, <[se_entity p.2 := p]> m) ∅ (numbered H).

(** The revision the next change of an entity gets. *)
Definition next_revision (H : History) (k : EntityKey) : Z :=
  match heads H !! k with Some (_, e) => se_revision e + 1 | None => 1 end.

(** A key with a type and an id. *)
Definition named (k : EntityKey) : Prop := k.1 ≠ "" ∧ k.2 ≠ "".

(** Revisions count an entity's changes, the first one creates it, exactly deletions have no
    content, and entities have names. *)
Definition extends (H : History) (e : ScannedEntity) : Prop :=
  se_revision e = next_revision H (se_entity e) ∧
  (se_payload e = None ↔ se_operation e = op_delete) ∧
  (se_operation e = op_create ↔ heads H !! se_entity e = None) ∧
  named (se_entity e).

Inductive wf_history : History → Prop :=
| wf_nil : wf_history []
| wf_snoc H e : wf_history H → extends H e → wf_history (H ++ [e]).

(** ** The tables of a history *)

Definition same_change (row : ChangeRow) (e : ScannedEntity) : Prop :=
  lg_entity row = se_entity e ∧ lg_revision row = se_revision e ∧ lg_operation row = se_operation e ∧
  lg_schema_version row = se_schemaVersion e.

(** A journal row stands for an entry: it holds its content, or the entity's row does. *)
Definition row_of (H : History) (n : Z) (row : ChangeRow) (e : ScannedEntity) : Prop :=
  entry_at H n = Some e ∧ same_change row e ∧
  (lg_payload row = se_payload e ∨ (lg_payload row = None ∧ heads H !! se_entity e = Some (n, e))).

Record represents (H : History) (s : SyncDb) : Prop := {
  rp_wf : wf_history H;
  rp_next : sm_next_sequence (sd_meta s) = len H + 1;
  rp_floor : 0 ≤ sm_retention_floor (sd_meta s) ≤ len H;
  rp_target : ∀ t, sm_compaction_target (sd_meta s) = Some t → t ≤ len H;
  rp_heads : ∀ k, heads H !! k = (λ r, (er_sequence r, scanned (k, r))) <$> sd_entities s !! k;
  rp_rows : ∀ n row, sd_changes s !! n = Some row → ∃ e, row_of H n row e;
  rp_kept : ∀ n, sm_retention_floor (sd_meta s) < n ≤ len H → is_Some (sd_changes s !! n);
}.

(** ** Lemmas on histories *)

Lemma len_snoc H e : len (H ++ [e]) = len H + 1.
Proof. unfold len. rewrite length_app. cbn [length]. lia. Qed.

Lemma len_nonneg H : 0 ≤ len H.
Proof. unfold len. lia. Qed.

Lemma numbered_snoc H e : numbered (H ++ [e]) = numbered H ++ [(len H + 1, e)].
Proof.
  unfold numbered. rewrite imap_app. cbn [imap]. f_equal. f_equal. f_equal.
  unfold compose, len. lia.
Qed.

Lemma heads_snoc H e : heads (H ++ [e]) = <[se_entity e := (len H + 1, e)]> (heads H).
Proof. unfold heads. by rewrite numbered_snoc, foldl_app. Qed.

Lemma heads_nil : heads [] = ∅.
Proof. reflexivity. Qed.

Lemma entry_at_app H H' n : n ≤ len H → entry_at (H ++ H') n = entry_at H n.
Proof.
  intros Hn. unfold entry_at. destruct (Z.ltb_spec 0 n); [|done].
  apply lookup_app_l. unfold len in Hn. lia.
Qed.

Lemma entry_at_snoc H e : entry_at (H ++ [e]) (len H + 1) = Some e.
Proof.
  unfold entry_at, len. destruct (Z.ltb_spec 0 (Z.of_nat (length H) + 1)); [|lia].
  rewrite lookup_app_r by lia. by replace (Z.to_nat _ - length H)%nat with 0%nat by lia.
Qed.

Lemma entry_at_range H n e : entry_at H n = Some e → 1 ≤ n ≤ len H.
Proof.
  unfold entry_at, len. destruct (Z.ltb_spec 0 n); [|done]. intros He%lookup_lt_Some. lia.
Qed.

Lemma entry_at_is_Some H n : 1 ≤ n ≤ len H → is_Some (entry_at H n).
Proof.
  intros Hn. unfold entry_at, len in *. destruct (Z.ltb_spec 0 n); [|lia].
  apply lookup_lt_is_Some. lia.
Qed.

Lemma heads_entry H k n e : heads H !! k = Some (n, e) → entry_at H n = Some e ∧ se_entity e = k.
Proof.
  revert n e. induction H as [|x H IH] using rev_ind; intros n e; [by rewrite heads_nil, lookup_empty|].
  rewrite heads_snoc. destruct (decide (se_entity x = k)) as [Hk|Hk].
  - rewrite Hk, lookup_insert_eq. intros [= <- <-]. split; [apply entry_at_snoc|done].
  - rewrite lookup_insert_ne by done. intros He. destruct (IH _ _ He) as [Hn Hx]. split; [|done].
    rewrite entry_at_app; [done|]. by apply entry_at_range in Hn as [_ ?].
Qed.

Lemma heads_range H k n e : heads H !! k = Some (n, e) → 1 ≤ n ≤ len H.
Proof. intros [He _]%heads_entry. by apply entry_at_range in He. Qed.

(** The head of an entity is its last change. *)
Lemma heads_last H n e : entry_at H n = Some e →
  ∃ n' e', heads H !! se_entity e = Some (n', e') ∧ n ≤ n' ∧ (n = n' → e = e').
Proof.
  induction H as [|x H IH] using rev_ind; intros He.
  - apply entry_at_range in He. unfold len in He. cbn in He. lia.
  - pose proof (entry_at_range _ _ _ He) as Hr. rewrite len_snoc in Hr. rewrite heads_snoc.
    destruct (decide (n = len H + 1)) as [->|Hn].
    + rewrite entry_at_snoc in He. injection He as ->. exists (len H + 1), e. by rewrite lookup_insert_eq.
    + rewrite entry_at_app in He by lia. destruct (IH He) as (n' & e' & Hh & Hle & Heq).
      destruct (decide (se_entity x = se_entity e)) as [Hx|Hx].
      * rewrite Hx, lookup_insert_eq. exists (len H + 1), x. split_and!; [done|lia|lia].
      * rewrite lookup_insert_ne by done. eauto.
Qed.

Lemma wf_snoc_inv H e : wf_history (H ++ [e]) → wf_history H ∧ extends H e.
Proof.
  intros Hinv. inversion Hinv as [Hn|H1 e1 Hw Hx Heq]; [by destruct H|]. by apply app_inj_tail in Heq as [-> ->].
Qed.

(** Prefixes of histories are histories. *)
Lemma wf_prefix H H' : wf_history (H ++ H') → wf_history H.
Proof.
  induction H' as [|x H' IH] using rev_ind; [by rewrite app_nil_r|].
  rewrite app_assoc. intros [Hw _]%wf_snoc_inv. by apply IH.
Qed.

Lemma wf_upto c H : wf_history H → wf_history (upto c H).
Proof. intros Hw. unfold upto. rewrite <- (take_drop (Z.to_nat c) H) in Hw. by apply wf_prefix in Hw. Qed.

Lemma upto_all c H : len H ≤ c → upto c H = H.
Proof. intros Hc. unfold upto. apply take_ge. unfold len in Hc. lia. Qed.

Lemma upto_app c H H' : c ≤ len H → upto c (H ++ H') = upto c H.
Proof. intros Hc. unfold upto. apply take_app_le. unfold len in Hc. lia. Qed.

Lemma upto_len H : upto (len H) H = H.
Proof. by apply upto_all. Qed.

Lemma len_upto c H : 0 ≤ c ≤ len H → len (upto c H) = c.
Proof. intros Hc. unfold upto, len in *. rewrite length_take. lia. Qed.

Lemma upto_succ c H e : 0 ≤ c → entry_at H (c + 1) = Some e → upto (c + 1) H = upto c H ++ [e].
Proof.
  intros Hc He. unfold upto, entry_at in *. destruct (Z.ltb_spec 0 (c + 1)); [|lia].
  replace (Z.to_nat (c + 1)) with (S (Z.to_nat c)) by lia. apply take_S_r.
  by replace (Z.to_nat c) with (Z.to_nat (c + 1 - 1)) by lia.
Qed.

Lemma entry_upto H n c : 0 ≤ c ≤ len H → n ≤ c → entry_at (upto c H) n = entry_at H n.
Proof.
  intros Hc Hn. rewrite <- (take_drop (Z.to_nat c) H) at 2. fold (upto c H). symmetry. apply entry_at_app.
  by rewrite len_upto.
Qed.

(** An entity's head at a later cursor is the same one or has a greater revision. *)
Lemma heads_mono H H' (k : EntityKey) n e : wf_history (H ++ H') → heads H !! k = Some (n, e) →
  ∃ n' e', heads (H ++ H') !! k = Some (n', e') ∧ n ≤ n' ∧
    ((n', e') = (n, e) ∨ (n < n' ∧ se_revision e < se_revision e')).
Proof.
  intros Hw Hh. induction H' as [|x H' IH] using rev_ind.
  - rewrite app_nil_r. exists n, e. split_and!; [done..|by left].
  - rewrite app_assoc in *. apply wf_snoc_inv in Hw as [Hw (Hrev & _ & _)].
    destruct (IH Hw) as (n' & e' & Hh' & Hle & Hcase). rewrite heads_snoc.
    destruct (decide (se_entity x = k)) as [Hk|Hk].
    + rewrite Hk, lookup_insert_eq. eexists _, _. split_and!; [done| |].
      * pose proof (heads_range _ _ _ _ Hh'). lia.
      * right. pose proof (heads_range _ _ _ _ Hh'). unfold next_revision in Hrev. rewrite Hk, Hh' in Hrev.
        destruct Hcase as [[= -> ->]|[? ?]]; lia.
    + rewrite lookup_insert_ne by done. eauto.
Qed.

Lemma heads_same_revision H c k n e n' e' : wf_history H → 0 ≤ c ≤ len H →
  heads (upto c H) !! k = Some (n, e) → heads H !! k = Some (n', e') → se_revision e' ≤ se_revision e →
  (n', e') = (n, e).
Proof.
  intros Hw Hc Hh Hh' Hr. rewrite <- (take_drop (Z.to_nat c) H) in Hw, Hh'. fold (upto c H) in Hw, Hh'.
  destruct (heads_mono _ _ _ _ _ Hw Hh) as (n2 & e2 & Hh2 & _ & [Heq|[_ Hlt]]); simplify_eq; [done|lia].
Qed.

Lemma wf_has_payload H n e : wf_history H → entry_at H n = Some e → se_operation e ≠ op_delete →
  is_Some (se_payload e).
Proof.
  intros Hw He Hop. induction H as [|x H IH] using rev_ind.
  - apply entry_at_range in He. unfold len in He. cbn in He. lia.
  - apply wf_snoc_inv in Hw as [Hw (_ & Hp & _)]. pose proof (entry_at_range _ _ _ He) as Hr.
    rewrite len_snoc in Hr. destruct (decide (n = len H + 1)) as [->|Hn].
    + rewrite entry_at_snoc in He. injection He as ->. destruct (se_payload e); [done|]. by destruct (Hop (proj1 Hp eq_refl)).
    + rewrite entry_at_app in He by lia. by apply IH.
Qed.

Lemma wf_delete_payload H n e : wf_history H → entry_at H n = Some e → se_operation e = op_delete → se_payload e = None.
Proof.
  intros Hw He Hop. induction H as [|x H IH] using rev_ind.
  - apply entry_at_range in He. unfold len in He. cbn in He. lia.
  - apply wf_snoc_inv in Hw as [Hw (_ & Hp & _)]. pose proof (entry_at_range _ _ _ He) as Hr.
    rewrite len_snoc in Hr. destruct (decide (n = len H + 1)) as [->|Hn].
    + rewrite entry_at_snoc in He. injection He as ->. by apply Hp.
    + rewrite entry_at_app in He by lia. by apply IH.
Qed.

Lemma wf_named H n e : wf_history H → entry_at H n = Some e → named (se_entity e).
Proof.
  intros Hw He. induction H as [|x H IH] using rev_ind.
  - apply entry_at_range in He. unfold len in He. cbn in He. lia.
  - apply wf_snoc_inv in Hw as [Hw (_ & _ & _ & Hn)]. pose proof (entry_at_range _ _ _ He) as Hr.
    rewrite len_snoc in Hr. destruct (decide (n = len H + 1)) as [->|Hne].
    + rewrite entry_at_snoc in He. by injection He as ->.
    + rewrite entry_at_app in He by lia. by apply IH.
Qed.

(** ** Lemmas on the relation *)

(** The relation reads only the journal, the entities and part of the metadata. *)
Lemma represents_ext H s s' :
  sd_entities s' = sd_entities s → sd_changes s' = sd_changes s →
  sm_next_sequence (sd_meta s') = sm_next_sequence (sd_meta s) →
  sm_retention_floor (sd_meta s') = sm_retention_floor (sd_meta s) →
  sm_compaction_target (sd_meta s') = sm_compaction_target (sd_meta s) →
  represents H s → represents H s'.
Proof.
  intros He Hc Hn Hf Ht [Hw Hnx Hfl Htg Hh Hr Hk].
  split; rewrite ?He, ?Hc, ?Hn, ?Hf, ?Ht; done.
Qed.

Lemma represents_initial : represents [] initial_db.
Proof.
  split; cbn; [constructor|done|unfold len; cbn; lia|done|done| |unfold len; cbn; lia].
  intros n row Hr. by rewrite lookup_empty in Hr.
Qed.

(** The head of an entity, from its row. *)
Lemma represents_entity H s k r : represents H s → sd_entities s !! k = Some r →
  heads H !! k = Some (er_sequence r, scanned (k, r)).
Proof. intros Hs Hr. by rewrite (rp_heads _ _ Hs), Hr. Qed.

Lemma represents_no_entity H s k : represents H s → sd_entities s !! k = None → heads H !! k = None.
Proof. intros Hs Hr. by rewrite (rp_heads _ _ Hs), Hr. Qed.

Lemma next_revision_entity H s k : represents H s →
  next_revision H k = match sd_entities s !! k with None => 1 | Some e => er_revision e + 1 end.
Proof. intros Hs. unfold next_revision. rewrite (rp_heads _ _ Hs). by destruct (sd_entities s !! k). Qed.

Lemma represents_fresh H s : represents H s → sd_changes s !! sm_next_sequence (sd_meta s) = None.
Proof.
  intros Hs. destruct (sd_changes s !! _) as [row|] eqn:E; [|done].
  destruct (rp_rows _ _ Hs _ _ E) as (e & He & _). apply entry_at_range in He.
  rewrite (rp_next _ _ Hs) in He. lia.
Qed.
