(* ===== verification/SyncPush.v ===== *)
(** * Desktop app cloud: what a push does to the history

    One lemma per way a pushed change may end, and the lemma both push and import rest on:
    appending an entry to the tables appends it to the history they stand for; then what
    every call keeps. *)

From stdpp Require Import base list strings gmap relations.
From Stdlib Require Import ZArith Ascii Lia.
From S2P Require Import Prelude Transactions JsString JsValue SyncWire SyncTables SyncLog SyncData SyncSnapshot SyncHistory.

(** ** Appending an entry *)

Definition materialised (existing : option EntityRow) (changes : gmap Z ChangeRow) : gmap Z ChangeRow :=
  match existing with
  | Some e =>
      if negb (bool_decide (er_operation e = op_delete)) && negb (is_undefined (er_payload e))
      then alter (fill_payload (er_payload e)) (er_sequence e) changes else changes
  | None => changes
  end.

Lemma materialise_run existing s : materialise existing s = (Ok tt, set_changes (materialised existing (sd_changes s)) s).
Proof. destruct s, existing as [e|]; [|done]. unfold materialise, materialised. by destruct (negb _ && negb _). Qed.

(** Rows keep what they stand for: a row that is no head any more has got its content. *)
Lemma materialised_row H s k e n row : represents H s → extends H e → se_entity e = k →
  materialised (sd_entities s !! k) (sd_changes s) !! n = Some row → ∃ e0, row_of (H ++ [e]) n row e0.
Proof.
  intros Hs He Hk Hrow.
  assert (∃ row0, sd_changes s !! n = Some row0 ∧
    (row = row0 ∨ ∃ ex, sd_entities s !! k = Some ex ∧ n = er_sequence ex ∧ row = fill_payload (er_payload ex) row0) ∧
    (∀ ex, sd_entities s !! k = Some ex → n = er_sequence ex → er_operation ex ≠ op_delete → is_Some (er_payload ex) →
       row = fill_payload (er_payload ex) row0)) as (row0 & Hrow0 & Hcase & Hfill).
  { unfold materialised in Hrow. destruct (sd_entities s !! k) as [ex|]; [|by exists row; split_and!; [|left|]].
    destruct (negb _ && negb _) eqn:Et.
    - rewrite lookup_alter in Hrow. case_decide as Hn.
      + subst n. destruct (sd_changes s !! er_sequence ex) as [row0|]; [|done]. injection Hrow as <-.
        exists row0. split_and!; [done|right; by exists ex|by intros ? [= <-]].
      + exists row. split_and!; [done|by left|]. intros ? [= <-] ->. done.
    - exists row. split_and!; [done|by left|]. intros ? [= <-] _ Hop [p Hp]. exfalso. revert Et. rewrite Hp.
      by rewrite bool_decide_eq_false_2. }
  destruct (rp_rows _ _ Hs _ _ Hrow0) as (e0 & Hn & (Hs1 & Hs2 & Hs3 & Hs4) & Hpay). exists e0.
  pose proof (entry_at_range _ _ _ Hn) as Hr.
  assert (same_change row e0) as Hsame.
  { destruct Hcase as [->|(ex & _ & _ & ->)]; [done|]. unfold same_change, fill_payload.
    by destruct (lg_payload row0). }
  split_and!; [by rewrite entry_at_app by lia|done|].
  (* the entry of the entity's head, if this is its row *)
  assert (∀ ex, sd_entities s !! k = Some ex → n = er_sequence ex → e0 = scanned (k, ex)) as Hhead.
  { intros ex Hex ->. apply (represents_entity _ _ _ _ Hs) in Hex. apply heads_entry in Hex as [Hex _]. congruence. }
  destruct Hpay as [Hpay|[Hnone Hh]].
  - left. destruct Hcase as [->|(ex & Hex & Hnx & ->)]; [done|]. unfold fill_payload.
    destruct (lg_payload row0) eqn:E; [by rewrite E|]. cbn. by rewrite (Hhead ex Hex Hnx).
  - destruct (decide (se_entity e0 = k)) as [Hek|Hek].
    + left. rewrite Hek, (rp_heads _ _ Hs) in Hh. destruct (sd_entities s !! k) as [ex|] eqn:Hex; [|done].
      injection Hh as Hnx Hsc.
      destruct (decide (er_operation ex = op_delete)) as [Hd|Hd].
      * assert (se_payload e0 = None) as ->.
        { eapply wf_delete_payload; [apply Hs|done|]. by rewrite <- Hsc. }
        destruct Hcase as [->|(ex' & [= <-] & _ & ->)]; [done|]. unfold fill_payload. rewrite Hnone. cbn.
        change (se_payload (scanned (k, ex)) = None). rewrite Hsc. eapply wf_delete_payload; [apply Hs|done|]. by rewrite <- Hsc.
      * assert (is_Some (er_payload ex)) as Hp.
        { change (is_Some (se_payload (scanned (k, ex)))). rewrite Hsc. eapply wf_has_payload; [apply Hs|done|].
          by rewrite <- Hsc. }
        rewrite (Hfill ex eq_refl (eq_sym Hnx) Hd Hp). unfold fill_payload. rewrite Hnone. cbn. by rewrite <- Hsc.
    + right. destruct Hcase as [->|(ex & Hex & Hnx & ->)].
      * split; [done|]. rewrite heads_snoc, lookup_insert_ne by congruence. done.
      * exfalso. apply Hek. by rewrite (Hhead ex Hex Hnx).
Qed.

Lemma append_entry H s s' e row crow :
  represents H s → extends H e →
  er_sequence row = len H + 1 → scanned (se_entity e, row) = e → same_change crow e → lg_payload crow = None →
  sd_entities s' = <[se_entity e := row]> (sd_entities s) →
  sd_changes s' = <[len H + 1 := crow]> (materialised (sd_entities s !! se_entity e) (sd_changes s)) →
  sm_next_sequence (sd_meta s') = len H + 2 →
  sm_retention_floor (sd_meta s') = sm_retention_floor (sd_meta s) →
  sm_compaction_target (sd_meta s') = sm_compaction_target (sd_meta s) →
  represents (H ++ [e]) s'.
Proof.
  intros Hs He Hseq Hsc Hsame Hnone Hent Hch Hnext Hfl Htg. pose proof (rp_floor _ _ Hs) as Hf.
  split; rewrite ?Hnext, ?Hfl, ?Htg, ?len_snoc.
  - constructor; [apply Hs|done].
  - lia.
  - lia.
  - intros t Ht. pose proof (rp_target _ _ Hs t Ht). lia.
  - intros k. rewrite heads_snoc, Hent. destruct (decide (se_entity e = k)) as [<-|Hk].
    + rewrite !lookup_insert_eq. cbn. by rewrite Hseq, Hsc.
    + rewrite !lookup_insert_ne by done. apply Hs.
  - intros n r. rewrite Hch. destruct (decide (n = len H + 1)) as [->|Hn].
    + rewrite lookup_insert_eq. intros [= <-]. exists e. split_and!; [apply entry_at_snoc|done|].
      right. by rewrite heads_snoc, lookup_insert_eq.
    + rewrite lookup_insert_ne by done. by apply materialised_row.
  - intros n Hn. rewrite Hch. destruct (decide (n = len H + 1)) as [->|Hne]; [by rewrite lookup_insert_eq|].
    rewrite lookup_insert_ne by done. destruct (rp_kept _ _ Hs n) as [r Hr]; [lia|].
    unfold materialised. destruct (sd_entities s !! _) as [ex|]; [|by exists r].
    destruct (negb _ && negb _); [|by exists r]. rewrite lookup_alter.
    case_decide as Hx; [rewrite Hx|]; rewrite Hr; by eexists.
Qed.

(** ** How a pushed change ends *)

Section Push.
Context (sha256Hex : string → string) (date_parse : string → option Z) (hosted : bool).
Notation applyPrepared := (applyPrepared hosted).

Definition change_key (c : PendingChange) : EntityKey := (pc_entityType c, pc_entityId c).

(** The receipt of an item, and the row it is stored in. *)
Definition receipt_key (auth : SpikeAuth) (item : PreparedChange) : string * Z :=
  (sa_enrollmentId auth, pc_enrollmentSequence (pp_change item)).

Definition receipt_row (now : Z) (item : PreparedChange) (result : SyncPushItemResult) : ReceiptRow := {|
  rc_change_id := pc_changeId (pp_change item); rc_status := push_status result;
  rc_revision := match result with push_accepted _ r _ => Some r | _ => None end;
  rc_content_hash := pc_payloadHash (pp_change item); rc_result := result; rc_created_at := now |}.

Definition put_receipt (now : Z) (auth : SpikeAuth) (item : PreparedChange) (result : SyncPushItemResult) (s : SyncDb) : SyncDb :=
  set_receipts (<[receipt_key auth item := receipt_row now item result]> (sd_receipts s)) s.

Definition advance (auth : SpikeAuth) (item : PreparedChange) (s : SyncDb) : SyncDb :=
  set_enrollments (alter (λ r, if en_high_water r <? pc_enrollmentSequence (pp_change item)
                               then with_high_water (pc_enrollmentSequence (pp_change item)) r else r)
                     (sa_enrollmentId auth) (sd_enrollments s)) s.

Lemma writeReceipt_run now auth item result s : sd_receipts s !! receipt_key auth item = None →
  writeReceipt now (sa_enrollmentId auth) item result s = (Ok tt, put_receipt now auth item result s).
Proof. unfold writeReceipt, insert_row, put_receipt, receipt_key. by intros ->. Qed.

(** The content an accepted change leaves, and its answer. *)
Definition accepted_row (now sequence : Z) (item : PreparedChange) (existing : option EntityRow) : EntityRow := {|
  er_revision := match existing with None => 1 | Some e => er_revision e + 1 end;
  er_operation := pc_operation (pp_change item); er_schema_version := pc_schemaVersion (pp_change item);
  er_payload := pp_payload item; er_sequence := sequence; er_updated_at := now |}.

Definition accepted_change (now : Z) (item : PreparedChange) (existing : option EntityRow) : ChangeRow := {|
  lg_entity := change_key (pp_change item);
  lg_revision := match existing with None => 1 | Some e => er_revision e + 1 end;
  lg_operation := pc_operation (pp_change item); lg_schema_version := pc_schemaVersion (pp_change item);
  lg_payload := None; lg_created_at := now |}.

Definition accepted_answer (item : PreparedChange) (existing : option EntityRow) : SyncPushItemResult :=
  push_accepted (pc_changeId (pp_change item)) (match existing with None => 1 | Some e => er_revision e + 1 end)
    (if bool_decide (pc_operation (pp_change item) = op_delete) then None else pc_payload (pp_change item)).

(** The key version an accepted change may raise, and its bytes. *)
Definition observed (payload : jsval) (m : SyncMeta) : SyncMeta :=
  match safe_integer_of (prop "keyVersion" payload) with
  | Some version =>
      if (version <? 1) || (SYNC_SNAPSHOT_MAX_KEY_VERSION <? version) then m
      else if sm_key_version m <? version then set_key_version version m else m
  | None => m
  end.

Definition accepted_meta (item : PreparedChange) (m : SyncMeta) : SyncMeta :=
  let m1 := set_next_sequence (sm_next_sequence m + 1) m in
  let m2 := set_history_bytes (Z.max 0 (sm_history_bytes m1 + pp_entityBytes item)) m1 in
  if bool_decide (pc_operation (pp_change item) = op_delete) then m2 else observed (pc_payload (pp_change item)) m2.

Definition accepted_db (now : Z) (auth : SpikeAuth) (item : PreparedChange) (s : SyncDb) : SyncDb :=
  let k := change_key (pp_change item) in
  let existing := sd_entities s !! k in
  let sequence := sm_next_sequence (sd_meta s) in
  set_meta (accepted_meta item (sd_meta s))
    (advance auth item (put_receipt now auth item (accepted_answer item existing)
      (set_changes (<[sequence := accepted_change now item existing]> (materialised existing (sd_changes s)))
        (set_entities (<[k := accepted_row now sequence item existing]> (sd_entities s)) s)))).

Section Item.
Context (now : Z) (auth : SpikeAuth) (item : PreparedChange) (s : SyncDb).

Lemma apply_replay r : sd_receipts s !! receipt_key auth item = Some r →
  applyPrepared now auth item s =
    (Ok (if String.eqb (rc_content_hash r) (pc_payloadHash (pp_change item)) then rc_result r
         else push_rejected (pc_changeId (pp_change item)) "changed-content", None), s).
Proof.
  unfold receipt_key. intros Hr. unfold applyPrepared. cbn [mbind M_bind gets]. unfold gets, mbind, M_bind.
  rewrite Hr. by destruct (String.eqb _ _).
Qed.

Context (Hnew : sd_receipts s !! receipt_key auth item = None).
Context (enrollment : EnrollmentRow) (Henr : sd_enrollments s !! sa_enrollmentId auth = Some enrollment).

Ltac start := unfold applyPrepared, gets, mbind, M_bind; unfold receipt_key in Hnew; rewrite Hnew; cbv beta iota zeta;
  unfold readHighWater; rewrite Henr.

Lemma apply_expired : pc_enrollmentSequence (pp_change item) ≤ en_high_water enrollment →
  applyPrepared now auth item s =
    (Ok (push_receipt_expired (pc_changeId (pp_change item)), None),
     put_receipt now auth item (push_receipt_expired (pc_changeId (pp_change item))) s).
Proof. intros Hle%Z.leb_le. start. rewrite Hle. by rewrite writeReceipt_run. Qed.

Context (Hfresh : en_high_water enrollment < pc_enrollmentSequence (pp_change item)).

Definition settled (result : SyncPushItemResult) : SyncDb := advance auth item (put_receipt now auth item result s).

Definition over_quota : bool :=
  negb hosted && (HISTORY_QUOTA_BYTES <? sm_history_bytes (sd_meta s) + pp_entityBytes item).

Lemma apply_quota : over_quota = true →
  applyPrepared now auth item s =
    (Ok (push_rejected (pc_changeId (pp_change item)) "quota-exceeded", None),
     settled (push_rejected (pc_changeId (pp_change item)) "quota-exceeded")).
Proof.
  intros Hq. start. apply Z.leb_gt in Hfresh. rewrite Hfresh. unfold readHistoryBytes, get_meta, gets.
  unfold over_quota in Hq. rewrite Hq. by rewrite writeReceipt_run.
Qed.

Context (Hquota : over_quota = false).

Lemma apply_conflict result : compareBaseRevision (pp_change item) (sd_entities s !! change_key (pp_change item)) = Some result →
  applyPrepared now auth item s = (Ok (result, None), settled result).
Proof.
  intros Hc. start. apply Z.leb_gt in Hfresh. rewrite Hfresh. unfold readHistoryBytes, get_meta, gets.
  unfold over_quota in Hquota. rewrite Hquota. unfold readEntity, gets. unfold change_key in Hc. rewrite Hc.
  by rewrite writeReceipt_run.
Qed.

Lemma apply_accepted : compareBaseRevision (pp_change item) (sd_entities s !! change_key (pp_change item)) = None →
  materialised (sd_entities s !! change_key (pp_change item)) (sd_changes s) !! sm_next_sequence (sd_meta s) = None →
  applyPrepared now auth item s =
    (Ok (accepted_answer item (sd_entities s !! change_key (pp_change item)), Some (sm_next_sequence (sd_meta s))),
     accepted_db now auth item s).
Proof.
  intros Hc Hm. start. apply Z.leb_gt in Hfresh. rewrite Hfresh. unfold readHistoryBytes, get_meta, gets.
  unfold over_quota in Hquota. rewrite Hquota. unfold readEntity, gets. unfold change_key in Hc, Hm.
  rewrite Hc, materialise_run. unfold modify, insert_row. cbn [sd_changes set_changes set_entities].
  rewrite Hm. rewrite writeReceipt_run by done.
  unfold next_sequence_is, advanceHighWater, addHistoryBytes, put_meta, modify, observeSyncKeyVersion, accepted_db,
    accepted_meta, accepted_answer, observed, settled. fold (change_key (pp_change item)).
  destruct s as [m ? ? ? ? ? ? ? ? ? ?]. cbn -[Z.max Z.add].
  destruct (bool_decide (pc_operation (pp_change item) = op_delete)); [reflexivity|].
  destruct (safe_integer_of _) as [v|]; [|reflexivity]. destruct (_ || _); [reflexivity|].
  unfold put_meta, modify. cbn -[Z.max Z.add]. destruct (sm_key_version m <? v); reflexivity.
Qed.
End Item.
End Push.

(** ** Every call extends the history

    The calls on an account's tables, in any order and from anyone, and what all of them
    keep: the tables always stand for some history, which every call leaves as it is or
    extends; and an enrollment's high-water mark never falls. *)

(** ** Queries *)

Lemma reads_get_meta {A} (f : SyncMeta → A) : reads (get_meta f). Proof. done. Qed.
Lemma reads_high_water e : reads (readHighWater e).
Proof. intros s. unfold readHighWater. by destruct (_ !! _). Qed.
Lemma reads_loadScan now id : reads (loadScan now id).
Proof. intros s. unfold loadScan. destruct (_ !! _); [by destruct (_ <? _)|done]. Qed.
Lemma reads_loadDataOperation now id k : reads (loadDataOperation now id k).
Proof. intros s. unfold loadDataOperation. destruct (_ !! _); [|done]. destruct (negb _); [done|by destruct (_ <? _)]. Qed.

#[export] Hint Resolve reads_get_meta reads_high_water reads_loadScan reads_loadDataOperation : moves.

(** ** A relation that ignores the tables a call leaves alone *)

(** Equal journal, entities and sequence; the enrollments are compared by [mono]. *)
Definition same_journal (s s' : SyncDb) : Prop :=
  sd_entities s' = sd_entities s ∧ sd_changes s' = sd_changes s ∧
  sm_next_sequence (sd_meta s') = sm_next_sequence (sd_meta s) ∧
  sm_retention_floor (sd_meta s') = sm_retention_floor (sd_meta s) ∧
  sm_compaction_target (sd_meta s') = sm_compaction_target (sd_meta s).

#[export] Instance same_journal_preorder : PreOrder same_journal.
Proof.
  split; [by intros s|]. intros a b c (H1 & H2 & H3 & H4 & H5) (K1 & K2 & K3 & K4 & K5).
  split_and!; congruence.
Qed.

(** High-water marks only rise, and enrollments stay. *)
Definition mono (s s' : SyncDb) : Prop :=
  ∀ id r, sd_enrollments s !! id = Some r → ∃ r', sd_enrollments s' !! id = Some r' ∧ en_high_water r ≤ en_high_water r'.

#[export] Instance mono_preorder : PreOrder mono.
Proof.
  split; [intros s id r Hr; exists r; by split|].
  intros a b c Hab Hbc id r Hr. destruct (Hab _ _ Hr) as (r1 & Hr1 & ?). destruct (Hbc _ _ Hr1) as (r2 & Hr2 & ?).
  exists r2. split; [done|lia].
Qed.

(** The tables of a history become those of a longer one. *)
Definition grows (s s' : SyncDb) : Prop := ∀ H, represents H s → ∃ H', represents (H ++ H') s'.

#[export] Instance grows_preorder : PreOrder grows.
Proof.
  split; [intros s H Hs; exists []; by rewrite app_nil_r|].
  intros a b c Hab Hbc H Ha. destruct (Hab _ Ha) as [H1 Hb]. destruct (Hbc _ Hb) as [H2 Hc].
  exists (H1 ++ H2). by rewrite app_assoc.
Qed.

(** What every call does. *)
Definition evolves (s s' : SyncDb) : Prop := grows s s' ∧ mono s s'.

#[export] Instance evolves_preorder : PreOrder evolves.
Proof. split; [by intros s; split|]. intros a b c [? ?] [? ?]. split; by etrans. Qed.

Lemma same_journal_represents H s s' : same_journal s s' → represents H s → represents H s'.
Proof. intros (He & Hc & Hn & Hf & Ht). by apply represents_ext. Qed.

Lemma same_journal_grows s s' : same_journal s s' → grows s s'.
Proof. intros Hss H Hs. exists []. rewrite app_nil_r. by apply (same_journal_represents H s). Qed.

Definition quiet (s s' : SyncDb) : Prop := same_journal s s' ∧ mono s s'.

#[export] Instance quiet_preorder : PreOrder quiet.
Proof. split; [by intros s; split|]. intros a b c [? ?] [? ?]. split; by etrans. Qed.

Lemma quiet_evolves s s' : quiet s s' → evolves s s'.
Proof. intros [Hs Hm]. split; [by apply same_journal_grows|done]. Qed.

Lemma moves_weaken (R R' : relation SyncDb) {A} (m : T A) : (∀ s s', R s s' → R' s s') → moves R m → moves R' m.
Proof. intros HR Hm s. apply HR, Hm. Qed.
Lemma moves_ok_weaken (R R' : relation SyncDb) {A} (m : T A) : (∀ s s', R s s' → R' s s') → moves_ok R m → moves_ok R' m.
Proof. intros HR Hm s a s' Hs. by eapply HR, Hm. Qed.

(** ** Calls that leave the journal alone *)

Lemma quiet_same s s' : sd_meta s' = sd_meta s → sd_enrollments s' = sd_enrollments s →
  sd_entities s' = sd_entities s → sd_changes s' = sd_changes s → quiet s s'.
Proof.
  intros Hm He Hn Hc. split.
  - unfold same_journal. by rewrite Hm, Hn, Hc.
  - intros id r Hr. rewrite He. exists r. by split.
Qed.

Lemma quiet_counter k n : moves quiet (bumpCounter k n).
Proof. unfold bumpCounter. destruct (n =? 0); [by intros s|]. intros s. by apply quiet_same. Qed.

Lemma quiet_provision now auth : moves quiet (provisionEnrollment now auth).
Proof.
  intros s. cbn. destruct (sd_enrollments s !! sa_enrollmentId auth) eqn:E; [done|]. split; [done|].
  intros id r Hr. exists r. split; [|done]. cbn.
  rewrite lookup_insert_ne; [done|]. intros <-. by rewrite E in Hr.
Qed.

Lemma quiet_advance e n : moves quiet (advanceHighWater e n).
Proof.
  intros s. split; [done|]. intros id r Hr. cbn. rewrite lookup_alter. case_decide as He.
  - subst id. rewrite Hr. cbn. destruct (Z.ltb_spec (en_high_water r) n); eexists; (split; [done|cbn; lia]).
  - exists r. by split.
Qed.

(** Changes of the metadata other than the journal's. *)
Lemma quiet_meta f : (∀ m, sm_next_sequence (f m) = sm_next_sequence m) →
  (∀ m, sm_retention_floor (f m) = sm_retention_floor m) → (∀ m, sm_compaction_target (f m) = sm_compaction_target m) →
  moves quiet (put_meta f).
Proof. intros Hn Hf Ht s. split; [by split_and!; cbn|]. intros id r Hr. exists r. by split. Qed.

Lemma quiet_history n : moves quiet (addHistoryBytes n).
Proof. by apply quiet_meta. Qed.

Lemma quiet_observe p : moves quiet (observeSyncKeyVersion p).
Proof.
  unfold observeSyncKeyVersion. destruct (safe_integer_of _) as [v|]; [|by intros s]. destruct (_ || _); [by intros s|].
  apply quiet_meta; intros m; by destruct (sm_key_version m <? v).
Qed.

Lemma quiet_receipt now e item r : moves quiet (writeReceipt now e item r).
Proof. apply moves_insert; [apply _|]. intros s v. by apply quiet_same. Qed.

(** Steps that write tables the journal does not depend on. *)
Ltac quiet_step :=
  first
    [ apply moves_ok_reads; [apply _|solve [eauto with moves]]
    | apply moves_reads; [apply _|solve [eauto with moves]]
    | apply moves_ok_bind; [apply _| |intros ?]
    | apply moves_bind; [apply _| |intros ?]
    | apply moves_moves_ok, quiet_counter | apply quiet_counter
    | apply moves_moves_ok, quiet_provision | apply quiet_provision
    | apply moves_moves_ok, quiet_observe | apply moves_moves_ok, quiet_history
    | apply moves_moves_ok, quiet_advance | apply moves_moves_ok, quiet_receipt
    | apply moves_commit; [apply _|]
    | apply moves_moves_ok, moves_insert; [apply _|intros ? ?; by apply quiet_same]
    | apply moves_insert; [apply _|intros ? ?; by apply quiet_same]
    | apply moves_moves_ok, moves_modify; intros ?; by apply quiet_same ].

Ltac quiet_call := repeat (cbv zeta; first [quiet_step | split_match]).

Section Calls.
Context (sha256Hex : string → string) (sha256Bytes : list Z → string) (date_parse : string → option Z) (hosted : bool).

Lemma quiet_watermark : reads currentWatermark. Proof. done. Qed.
Lemma quiet_assert scan : reads (assertScanEpochAndRetention scan).
Proof. unfold assertScanEpochAndRetention. repeat (apply reads_bind; [eauto with moves|intros ?]). eauto with moves. Qed.
Lemma quiet_active : reads readActiveSyncSnapshot. Proof. done. Qed.
Lemma quiet_floor : reads readRetentionFloor. Proof. done. Qed.
Lemma quiet_readEntity k : reads (readEntity k). Proof. done. Qed.
Lemma quiet_publication k : reads (readSyncSnapshotPublication k). Proof. done. Qed.
Lemma quiet_generation a b : reads (check_generation a b).
Proof. unfold check_generation. repeat (apply reads_bind; [done || eauto with moves|intros ?]). eauto with moves. Qed.
Lemma quiet_publisher a : reads (requireSnapshotPublisher a).
Proof.
  unfold requireSnapshotPublisher, effectiveEnrollmentClass. apply reads_bind; [by destruct (bool_decide _)|].
  intros c. eauto with moves.
Qed.
Hint Resolve quiet_watermark quiet_assert quiet_active quiet_floor quiet_readEntity quiet_publication quiet_generation
  quiet_publisher : moves.

Lemma pull_quiet params : moves quiet (handlePull params).
Proof. unfold handlePull. quiet_call. Qed.

Lemma scan_begin_quiet now uuid params : moves quiet (handleScanBegin now uuid params).
Proof. unfold handleScanBegin, beginScan. quiet_call. Qed.

Lemma pageScan_quiet now id cursor n : moves_ok quiet (pageScan now id cursor n).
Proof. unfold pageScan, update_scan. quiet_call. Qed.

Lemma scan_page_quiet now params : moves quiet (handleScanPage now params).
Proof. unfold handleScanPage. quiet_step; [quiet_step|]. quiet_step. apply pageScan_quiet. Qed.

Lemma finishScan_quiet now id : moves_ok quiet (finishScan now id).
Proof. unfold finishScan, update_scan. quiet_call. Qed.

Lemma scan_finish_quiet now params : moves quiet (handleScanFinish now params).
Proof. unfold handleScanFinish. quiet_step; [quiet_step|]. quiet_step. apply finishScan_quiet. Qed.

Lemma export_begin_quiet now uuid auth : moves quiet (handleDataExportBegin now uuid auth).
Proof. unfold handleDataExportBegin. quiet_call. Qed.

Lemma export_page_quiet now params : moves quiet (handleDataExportPage now params).
Proof. unfold handleDataExportPage, exportPage, update_operation. quiet_call. Qed.

Lemma import_preview_quiet now uuid auth params : moves quiet (handleDataImportPreview now uuid auth params).
Proof.
  unfold handleDataImportPreview, previewImport. quiet_step; [quiet_step|]. quiet_step. quiet_step.
  - apply moves_map_M; [apply _|]. intros x. unfold classifyImportEntity. quiet_call.
  - quiet_call.
Qed.

Lemma snapshot_begin_quiet now auth params : moves quiet (handleSyncSnapshotBegin sha256Hex now auth params).
Proof.
  unfold handleSyncSnapshotBegin, beginPublication. quiet_call.
  apply moves_moves_ok, quiet_meta; done.
Qed.

Lemma snapshot_reserve_quiet now auth id i n d : moves quiet (commit (reserveChunk now auth id i n d)).
Proof. unfold reserveChunk. quiet_call. Qed.

Lemma snapshot_accept_quiet now auth id i : moves quiet (commit (acceptChunk now auth id i)).
Proof. unfold acceptChunk. quiet_call. Qed.

Lemma snapshot_check_quiet now auth id m : moves quiet (commit (checkUpload now auth id m)).
Proof. unfold checkUpload. quiet_call. Qed.

Lemma snapshot_mark_quiet now auth id m : moves quiet (commit (markVerified now auth id m)).
Proof. unfold markVerified. quiet_call. Qed.
End Calls.
