(* ===== verification/SyncGrowth.v ===== *)
(** * Desktop app cloud: how push, import, the sweep and snapshots extend the history *)

From stdpp Require Import base list strings gmap relations sorting.
From Stdlib Require Import ZArith Ascii Lia.
From S2P Require Import Prelude Transactions JsString JsValue SyncWire SyncTables SyncLog SyncData SyncSnapshot SyncHistory SyncPush.

(** ** Changes read from the wire *)

(** What operation, base revision and payload of a change have to do with each other. *)
Definition shape_ok (c : PendingChange) : Prop :=
  match pc_operation c with
  | op_create => pc_baseRevision c = None ∧ is_Some (pc_payload c)
  | op_update => is_Some (pc_baseRevision c) ∧ is_Some (pc_payload c)
  | op_delete => is_Some (pc_baseRevision c) ∧ pc_payload c = None
  end.

(** The changes that are read from the wire. *)
Record change_ok (c : PendingChange) : Prop := {
  co_id : pc_changeId c ≠ "";
  co_sequence : 1 ≤ pc_enrollmentSequence c;
  co_type : pc_entityType c ≠ "";
  co_entity : pc_entityId c ≠ "";
  co_schema : 1 ≤ pc_schemaVersion c;
  co_hash : is_hash (pc_payloadHash c) = true;
  co_shape : shape_ok c;
}.

Lemma require_Ok b r u : require b r = Ok u → b = true.
Proof. by destruct b. Qed.

Ltac outcome_back H := repeat (apply outcome_bind_Ok in H as (? & ? & H); cbv beta in H).

Lemma nonempty_string_Ok v r s : nonempty_string v r = Ok s → v = Some (JStr s) ∧ s ≠ "".
Proof.
  unfold nonempty_string. destruct v as [[]|]; try done. destruct (slen s0 =? 0) eqn:E; [done|]. intros [= <-].
  split; [done|]. by intros ->.
Qed.

Lemma positive_integer_Ok v r z : positive_integer v r = Ok z → integer_of v = Some z ∧ 1 ≤ z.
Proof.
  unfold positive_integer. destruct (integer_of v) as [y|]; [|done]. destruct (Z.ltb_spec y 1); [done|]. by intros [= <-].
Qed.

Lemma parsePendingChange_ok input c : parsePendingChange input = Ok c → change_ok c.
Proof.
  unfold parsePendingChange. intros H.
  apply outcome_bind_Ok in H as (? & _ & H). apply outcome_bind_Ok in H as (i & [_ Hi]%nonempty_string_Ok & H).
  apply outcome_bind_Ok in H as (n & [_ Hn]%positive_integer_Ok & H).
  apply outcome_bind_Ok in H as (ty & [_ Ht]%nonempty_string_Ok & H).
  apply outcome_bind_Ok in H as (en & [_ He]%nonempty_string_Ok & H).
  apply outcome_bind_Ok in H as (v & [_ Hv]%positive_integer_Ok & H).
  apply outcome_bind_Ok in H as (base & _ & H).
  destruct (isSyncOperation _) as [op|]; [|done]. destruct (prop "payloadHash" _) as [[]|]; try done.
  apply outcome_bind_Ok in H as (? & Hh%require_Ok & H). cbv zeta in H.
  generalize dependent (prop "payload" (Some input)). intros payload H.
  assert (∀ p, shape_ok {| pc_changeId := i; pc_enrollmentSequence := n; pc_entityType := ty; pc_entityId := en;
      pc_schemaVersion := v; pc_baseRevision := base; pc_operation := op; pc_payload := p; pc_payloadHash := s |} →
    change_ok {| pc_changeId := i; pc_enrollmentSequence := n; pc_entityType := ty; pc_entityId := en;
      pc_schemaVersion := v; pc_baseRevision := base; pc_operation := op; pc_payload := p; pc_payloadHash := s |}) as Hok by by split.
  destruct op; outcome_back H; injection H as <-; apply Hok; unfold shape_ok; cbn;
    repeat match goal with Hr : require _ _ = Ok _ |- _ => apply require_Ok in Hr; cbn in Hr end;
    destruct base as [b|], payload as [p|]; cbn in *; try done; by split.
Qed.

Lemma map_outcome_Forall {A B} (f : A → outcome B) (P : B → Prop) l ys :
  (∀ x y, f x = Ok y → P y) → map_outcome f l = Ok ys → Forall P ys.
Proof.
  intros Hf. revert ys. induction l as [|x l IH]; intros ys H; cbn in H; [injection H as <-; constructor|].
  outcome_back H. injection H as <-. constructor; [by eapply Hf|by apply IH].
Qed.

Lemma push_params_ok params changes epoch : parseSpikePushParams params = Ok (changes, epoch) → Forall change_ok changes.
Proof.
  unfold parseSpikePushParams. destruct (prop "changes" _) as [[]|]; try done. intros H. outcome_back H.
  injection H as <- <-. by eapply map_outcome_Forall; [apply parsePendingChange_ok|].
Qed.

Definition item_ok (item : PreparedChange) : Prop :=
  (pp_payload item = None ↔ pc_operation (pp_change item) = op_delete) ∧ named (change_key (pp_change item)).

Lemma prepare_ok sha c : change_ok c → item_ok (prepare sha c).
Proof.
  intros [_ _ Ht He _ _ Hs]. split; [|done]. unfold shape_ok, prepare in *. cbn.
  destruct (pc_operation c) eqn:E; destruct Hs as [_ Hp]; cbn;
    rewrite ?bool_decide_eq_false_2, ?bool_decide_eq_true_2 by done; [destruct Hp as [p ->]; by split..|done].
Qed.

(** ** Push *)

Section Push.
Context (sha256Hex : string → string) (date_parse : string → option Z) (hosted : bool).
Notation applyPrepared := (applyPrepared hosted).

(** The entry an accepted change adds. *)
Definition accepted_entry (item : PreparedChange) (existing : option EntityRow) : ScannedEntity :=
  scanned (change_key (pp_change item), accepted_row 0 0 item existing).

Lemma compare_extends H s item : represents H s → item_ok item →
  compareBaseRevision (pp_change item) (sd_entities s !! change_key (pp_change item)) = None →
  extends H (accepted_entry item (sd_entities s !! change_key (pp_change item))).
Proof.
  intros Hs Hok Hc. unfold extends, accepted_entry. cbn. split_and!.
  - by rewrite (next_revision_entity _ _ _ Hs).
  - apply Hok.
  - unfold compareBaseRevision in Hc. rewrite (rp_heads _ _ Hs).
    destruct (pc_operation (pp_change item)), (sd_entities s !! _); by cbn in *.
  - apply Hok.
Qed.

Lemma accepted_represents H s now auth item : represents H s → item_ok item →
  compareBaseRevision (pp_change item) (sd_entities s !! change_key (pp_change item)) = None →
  represents (H ++ [accepted_entry item (sd_entities s !! change_key (pp_change item))]) (accepted_db now auth item s).
Proof.
  intros Hs Hok Hc. pose proof (rp_next _ _ Hs) as Hn.
  assert (∀ m, sm_next_sequence (accepted_meta item m) = sm_next_sequence m + 1 ∧
    sm_retention_floor (accepted_meta item m) = sm_retention_floor m ∧
    sm_compaction_target (accepted_meta item m) = sm_compaction_target m) as Hmeta.
  { intros m. unfold accepted_meta, observed. destruct (bool_decide _); [done|]. destruct (safe_integer_of _); [|done].
    destruct (_ || _); [done|]. by destruct (_ <? z). }
  destruct (Hmeta (sd_meta s)) as (M1 & M2 & M3).
  eapply append_entry with (row := accepted_row now (sm_next_sequence (sd_meta s)) item _)
    (crow := accepted_change now item _); [done|by apply compare_extends|done|done|done|done|done| | | |].
  - cbn. by rewrite Hn.
  - cbn. lia.
  - done.
  - done.
Qed.

(** The ways a change may end, with the answer and the tables it leaves. *)
Inductive item_end (now : Z) (auth : SpikeAuth) (item : PreparedChange) (H : History) (s : SyncDb) :
    SyncPushItemResult * option Z → SyncDb → Prop :=
| end_replay rc : sd_receipts s !! receipt_key auth item = Some rc →
    item_end now auth item H s
      (if String.eqb (rc_content_hash rc) (pc_payloadHash (pp_change item)) then rc_result rc
       else push_rejected (pc_changeId (pp_change item)) "changed-content", None) s
| end_expired en : sd_receipts s !! receipt_key auth item = None →
    sd_enrollments s !! sa_enrollmentId auth = Some en → pc_enrollmentSequence (pp_change item) ≤ en_high_water en →
    item_end now auth item H s (push_receipt_expired (pc_changeId (pp_change item)), None)
      (put_receipt now auth item (push_receipt_expired (pc_changeId (pp_change item))) s)
| end_settled en result : sd_receipts s !! receipt_key auth item = None →
    sd_enrollments s !! sa_enrollmentId auth = Some en → en_high_water en < pc_enrollmentSequence (pp_change item) →
    (over_quota hosted item s = true ∧ result = push_rejected (pc_changeId (pp_change item)) "quota-exceeded" ∨
     over_quota hosted item s = false ∧
       compareBaseRevision (pp_change item) (sd_entities s !! change_key (pp_change item)) = Some result) →
    item_end now auth item H s (result, None) (settled now auth item s result)
| end_accepted en : sd_receipts s !! receipt_key auth item = None →
    sd_enrollments s !! sa_enrollmentId auth = Some en → en_high_water en < pc_enrollmentSequence (pp_change item) →
    over_quota hosted item s = false →
    compareBaseRevision (pp_change item) (sd_entities s !! change_key (pp_change item)) = None →
    item_end now auth item H s
      (accepted_answer item (sd_entities s !! change_key (pp_change item)), Some (len H + 1)) (accepted_db now auth item s).

(** On tables that stand for a history, a change of a known enrollment always ends. *)
Lemma applyPrepared_total H s now auth item en : represents H s → sd_enrollments s !! sa_enrollmentId auth = Some en →
  ∃ r s', applyPrepared now auth item s = (Ok r, s') ∧ item_end now auth item H s r s'.
Proof.
  intros Hs Een. destruct (sd_receipts s !! receipt_key auth item) as [rc|] eqn:Erc.
  { rewrite (apply_replay _ _ _ _ _ _ Erc). eexists _, _. split; [done|by apply end_replay]. }
  destruct (Z.le_gt_cases (pc_enrollmentSequence (pp_change item)) (en_high_water en)) as [Hle|Hgt].
  { rewrite (apply_expired _ _ _ _ _ Erc _ Een Hle). eexists _, _. split; [done|by eapply end_expired]. }
  destruct (over_quota hosted item s) eqn:Eq.
  { rewrite (apply_quota _ _ _ _ _ Erc _ Een Hgt Eq). eexists _, _. split; [done|]. eapply end_settled; eauto. }
  destruct (compareBaseRevision (pp_change item) (sd_entities s !! change_key (pp_change item))) as [res|] eqn:Ec.
  { rewrite (apply_conflict _ _ _ _ _ Erc _ Een Hgt Eq _ Ec). eexists _, _. split; [done|]. eapply end_settled; eauto. }
  rewrite (apply_accepted _ _ _ _ _ Erc _ Een Hgt Eq Ec).
  - rewrite (rp_next _ _ Hs). eexists _, _. split; [done|]. by eapply end_accepted.
  - rewrite (rp_next _ _ Hs). unfold materialised. pose proof (represents_fresh _ _ Hs) as Hf. rewrite (rp_next _ _ Hs) in Hf.
    destruct (sd_entities s !! _) as [ex|]; [|done]. destruct (negb _ && negb _); [|done].
    rewrite lookup_alter. case_decide as Hx; [rewrite Hx|]; by rewrite Hf.
Qed.

Lemma applyPrepared_ends H s now auth item r s' : represents H s →
  applyPrepared now auth item s = (Ok r, s') → item_end now auth item H s r s'.
Proof.
  intros Hs Hap. destruct (sd_enrollments s !! sa_enrollmentId auth) as [en|] eqn:Een.
  - destruct (applyPrepared_total H s now auth item en Hs Een) as (r1 & s1 & Hap1 & Hend).
    rewrite Hap in Hap1. by injection Hap1 as -> ->.
  - destruct (sd_receipts s !! receipt_key auth item) as [rc|] eqn:Erc.
    + rewrite (apply_replay _ _ _ _ _ _ Erc) in Hap. injection Hap as <- <-. by apply end_replay.
    + exfalso. revert Hap. unfold SyncLog.applyPrepared, gets, mbind, M_bind. unfold receipt_key in Erc.
      rewrite Erc. cbv beta iota zeta. unfold readHighWater. by rewrite Een.
Qed.

Lemma put_receipt_quiet now auth item result s : quiet s (put_receipt now auth item result s).
Proof. by apply quiet_same. Qed.

Lemma settled_quiet now auth item s result : quiet s (settled now auth item s result).
Proof.
  etrans; [apply put_receipt_quiet|]. apply (quiet_advance (sa_enrollmentId auth) (pc_enrollmentSequence (pp_change item))).
Qed.

Lemma applyPrepared_grows now auth item : item_ok item → moves_ok grows (applyPrepared now auth item).
Proof.
  intros Hok s r s' Hap H Hs. destruct (applyPrepared_ends _ _ _ _ _ _ _ Hs Hap) as [rc _|en _ _ _|en result _ _ _ _|en _ _ _ _ Hc].
  - exists []. by rewrite app_nil_r.
  - apply (same_journal_grows s); [apply put_receipt_quiet|done].
  - apply (same_journal_grows s); [apply settled_quiet|done].
  - eexists. by apply accepted_represents.
Qed.

(** High-water marks only rise, whatever happens. *)
Lemma mono_same s s' : sd_enrollments s' = sd_enrollments s → mono s s'.
Proof. intros He id r Hr. rewrite He. exists r. by split. Qed.

Lemma quiet_mono s s' : quiet s s' → mono s s'.
Proof. by intros [_ ?]. Qed.

Ltac mono_step :=
  first
    [ apply moves_ok_reads; [apply _|solve [eauto with moves]]
    | apply moves_reads; [apply _|solve [eauto with moves]]
    | apply moves_ok_bind; [apply _| |intros ?]
    | apply moves_bind; [apply _| |intros ?]
    | apply (moves_ok_weaken quiet); [apply quiet_mono|]; first
        [ apply moves_moves_ok, quiet_counter | apply moves_moves_ok, quiet_provision
        | apply moves_moves_ok, quiet_observe | apply moves_moves_ok, quiet_history
        | apply moves_moves_ok, quiet_advance | apply moves_moves_ok, quiet_receipt ]
    | apply moves_moves_ok, moves_insert; [apply _|intros ? ?; by apply mono_same]
    | apply moves_moves_ok, moves_modify; intros ?; by apply mono_same ].

Ltac mono_call := repeat (cbv zeta; first [mono_step | split_match]).

Lemma quiet_read_history : reads readHistoryBytes. Proof. done. Qed.
Hint Resolve quiet_read_history quiet_readEntity quiet_watermark quiet_floor quiet_active : moves.

Lemma materialise_mono ex : moves_ok mono (materialise ex).
Proof. intros s a s'. rewrite materialise_run. intros [= <- <-]. by apply mono_same. Qed.

Lemma put_meta_mono f : moves_ok mono (put_meta f).
Proof. intros s a s' [= <- <-]. by apply mono_same. Qed.

Lemma applyPrepared_mono now auth item : moves_ok mono (applyPrepared now auth item).
Proof. unfold SyncLog.applyPrepared, next_sequence_is. repeat (cbv zeta; first [apply materialise_mono | apply put_meta_mono | mono_step | split_match]). Qed.

Lemma moves_ok_and (R1 R2 : relation SyncDb) {A} (m : T A) : moves_ok R1 m → moves_ok R2 m →
  moves_ok (λ s s', R1 s s' ∧ R2 s s') m.
Proof. intros H1 H2 s a s' Hs. split; eauto. Qed.

Lemma applyPrepared_evolves now auth item : item_ok item → moves_ok evolves (applyPrepared now auth item).
Proof. intros Hok. apply moves_ok_and; [by apply applyPrepared_grows|apply applyPrepared_mono]. Qed.

Lemma quiet_to_evolves {A} (m : T A) : moves quiet m → moves_ok evolves m.
Proof. intros Hm. eapply moves_ok_weaken; [apply quiet_evolves|]. by apply moves_moves_ok. Qed.

Lemma push_item_evolves now auth epoch item acc : item_ok item →
  moves_ok evolves (push_item hosted now auth epoch item acc).
Proof.
  intros Hok. unfold push_item. apply moves_ok_bind; [apply _| |].
  - destruct (String.eqb epoch INITIAL_EPOCH).
    + apply moves_ok_bind; [apply _|by apply applyPrepared_evolves|]. intros [r [n|]].
      * apply moves_ok_bind; [apply _|apply quiet_to_evolves, quiet_counter|]. intros _. apply moves_ok_reads; [apply _|done].
      * apply moves_ok_reads; [apply _|done].
    + apply moves_ok_bind; [apply _|apply quiet_to_evolves, quiet_receipt|]. intros _.
      apply moves_ok_bind; [apply _|apply quiet_to_evolves, quiet_advance|]. intros _. apply moves_ok_reads; [apply _|done].
  - intros [r a]. apply moves_ok_bind; [apply _|apply quiet_to_evolves, quiet_counter|]. intros _.
    apply moves_ok_reads; [apply _|done].
Qed.

Lemma reads_fair_use now : reads (activeFairUseRestriction date_parse hosted now). Proof. done. Qed.

Lemma pushInTransaction_evolves now auth epoch prepared : Forall item_ok prepared →
  moves_ok evolves (pushInTransaction date_parse hosted now auth epoch prepared).
Proof.
  intros Hok. unfold pushInTransaction. apply moves_ok_bind; [apply _|apply quiet_to_evolves, quiet_provision|]. intros _.
  apply moves_ok_bind; [apply _|apply moves_ok_reads; [apply _|done]|]. intros _.
  apply moves_ok_bind; [apply _|apply moves_ok_reads; [apply _|done]|]. intros e.
  apply moves_ok_bind; [apply _| |intros _].
  { apply moves_ok_reads; [apply _|]. destruct epoch as [x|]; [|done]. by destruct (String.eqb x e). }
  apply moves_ok_bind; [apply _| |intros _].
  { apply moves_ok_reads; [apply _|]. destruct (existsb _ _); [|done]. unfold assertFairUseWritesAllowed.
    apply reads_bind; [apply reads_fair_use|]. by intros [n|]. }
  apply moves_for_each; [apply _|]. intros item acc Hin. apply push_item_evolves. by eapply Forall_forall in Hok.
Qed.

Lemma push_evolves now auth params : moves evolves (handlePush sha256Hex date_parse hosted now auth params).
Proof.
  unfold handlePush. apply moves_outcome_bind; [apply _|]. intros [changes epoch] E.
  assert (Forall item_ok (map (prepare sha256Hex) changes)) as Hok.
  { apply Forall_map. eapply Forall_impl; [by eapply push_params_ok|]. intros c. apply prepare_ok. }
  assert (moves evolves (commit (pushInTransaction date_parse hosted now auth epoch (map (prepare sha256Hex) changes)))).
  { apply moves_commit; [apply _|]. by apply pushInTransaction_evolves. }
  apply (moves_bind evolves); [by apply moves_reads; [apply _|]|].
  intros [n|]; [|done]. destruct (existsb _ _); [|done]. by apply moves_reads; [apply _|].
Qed.
End Push.
