(* ===== verification/SyncCalls.v ===== *)
(** * Desktop app cloud: all calls of an account, and the states they reach

    Import, the sweep and the commit of a snapshot extend the history too; [SyncCall] is
    the list of all calls and [reachable] the states they lead to from an empty account. *)

From stdpp Require Import base list strings gmap relations sorting.
From Stdlib Require Import ZArith Ascii Lia.
From S2P Require Import Prelude Transactions JsString JsValue SyncWire SyncTables SyncLog SyncData SyncSnapshot SyncHistory SyncPush SyncGrowth.

(** ** Import *)

Definition imported_entry (entity : ExportedEntity) : ScannedEntity := {|
  se_entity := entity_key entity; se_revision := 1; se_operation := op_create;
  se_schemaVersion := default 0 (num_to_Z (xe_schemaVersion entity)); se_payload := Some (xe_payload entity) |}.

Lemma insert_row_Ok `{Countable K} {A} (get : SyncDb → gmap K A) set k row s u s' :
  insert_row get set k row s = (Ok u, s') → get s !! k = None ∧ s' = set (<[k := row]> (get s)) s.
Proof. unfold insert_row. by destruct (get s !! k); intros [= <- <-]. Qed.

Lemma observe_journal payload s : same_journal s (observeSyncKeyVersion payload s).2.
Proof. apply quiet_observe. Qed.

Lemma classify_named existing entity : pe_outcome (classify existing entity) = im_create → named (entity_key entity).
Proof.
  unfold classify. destruct ((slen (xe_entityType entity) =? 0) || (slen (xe_entityId entity) =? 0) || _ || _ || _ || _) eqn:E; [done|].
  intros _. repeat (apply orb_false_iff in E as [E ?]). split; cbn; intros Hx; rewrite Hx in *; done.
Qed.

Lemma import_entry_grows now entry t : moves_ok grows (import_entry now entry t).
Proof.
  unfold import_entry. cbv zeta. destruct (negb _); [by apply moves_ok_reads; [apply _|]|].
  intros s a s' Hrun H Hs. set (entity := pe_entity entry) in *.
  step_back Hrun current s1 Hcur. injection Hcur as Hcur <-.
  destruct (negb (bool_decide (pe_outcome current = im_create))) eqn:Ecur; [injection Hrun as _ <-; exists []; by rewrite app_nil_r|].
  apply negb_false_iff, bool_decide_eq_true in Ecur. rewrite <- Hcur in Ecur. apply classify_named in Ecur.
  step_back Hrun prev s1 Hp. injection Hp as <- <-.
  step_back Hrun sequence s1 Hq. injection Hq as <- <-.
  step_back Hrun u s1 Hm. rewrite materialise_run in Hm. injection Hm as _ <-.
  step_back Hrun u1 s2 Hi. apply insert_row_Ok in Hi as [Hfree ->]. cbn in Hfree.
  step_back Hrun u2 s3 Hj. apply insert_row_Ok in Hj as [_ ->].
  step_back Hrun u3 s4 Hk. injection Hk as _ <-.
  step_back Hrun u4 s5 Hl. injection Hl as _ <-.
  step_back Hrun u5 s6 Ho. injection Hrun as _ <-.
  match type of Ho with observeSyncKeyVersion _ ?x = _ =>
    pose proof (observe_journal (Some (xe_payload entity)) x) as Hsame end.
  rewrite Ho in Hsame. exists [imported_entry entity]. apply (same_journal_represents _ _ _ Hsame).
  pose proof (rp_next _ _ Hs) as Hn.
  eapply append_entry with (row := {| er_revision := 1; er_operation := op_create;
      er_schema_version := default 0 (num_to_Z (xe_schemaVersion entity)); er_payload := Some (xe_payload entity);
      er_sequence := sm_next_sequence (sd_meta s); er_updated_at := now |})
    (crow := {| lg_entity := entity_key entity; lg_revision := 1; lg_operation := op_create;
      lg_schema_version := default 0 (num_to_Z (xe_schemaVersion entity)); lg_payload := None; lg_created_at := now |});
    try done.
  - unfold extends. cbn. rewrite (next_revision_entity _ _ _ Hs), Hfree. split_and!; [done|by split..| |done].
    split; [|done]. intros _. by apply (represents_no_entity _ _ _ Hs).
  - cbn. by rewrite Hn.
  - cbn. rewrite Hn. lia.
Qed.

Lemma classify_reads entity : reads (classifyImportEntity entity). Proof. done. Qed.

Lemma import_entry_mono now entry t : moves_ok mono (import_entry now entry t).
Proof.
  unfold import_entry. cbv zeta. destruct (negb _); [by apply moves_ok_reads; [apply _|]|].
  apply moves_ok_bind; [apply _|by apply moves_ok_reads; [apply _|]|]. intros current.
  destruct (negb _); [by apply moves_ok_reads; [apply _|]|].
  apply moves_ok_bind; [apply _|by apply moves_ok_reads; [apply _|]|]. intros prev.
  apply moves_ok_bind; [apply _|by apply moves_ok_reads; [apply _|]|]. intros sequence.
  apply moves_ok_bind; [apply _|apply materialise_mono|]. intros _.
  apply moves_ok_bind; [apply _|apply moves_moves_ok, moves_insert; [apply _|intros; by apply mono_same]|]. intros _.
  apply moves_ok_bind; [apply _|apply moves_moves_ok, moves_insert; [apply _|intros; by apply mono_same]|]. intros _.
  apply moves_ok_bind; [apply _|apply put_meta_mono|]. intros _.
  apply moves_ok_bind; [apply _|apply put_meta_mono|]. intros _.
  apply moves_ok_bind; [apply _| |intros _; by apply moves_ok_reads; [apply _|]].
  eapply moves_ok_weaken; [apply quiet_mono|]. apply moves_moves_ok, quiet_observe.
Qed.

Lemma import_commit_evolves now auth params : moves evolves (handleDataImportCommit now auth params).
Proof.
  unfold handleDataImportCommit. apply moves_outcome_bind; [apply _|]. intros id _. apply moves_commit; [apply _|].
  unfold commitImport. apply moves_ok_bind; [apply _|by apply moves_ok_reads; [apply _|apply reads_loadDataOperation]|].
  intros op. destruct (if String.eqb _ _ then _ else _) as [r|]; [by apply moves_ok_reads; [apply _|]|].
  destruct (negb _); [by apply moves_ok_reads; [apply _|]|].
  apply moves_ok_bind; [apply _|apply quiet_to_evolves, quiet_provision|]. intros _.
  apply moves_ok_bind; [apply _| |].
  - apply moves_for_each; [apply _|]. intros e t _. apply moves_ok_and; [apply import_entry_grows|apply import_entry_mono].
  - intros t. cbv zeta. apply moves_ok_bind; [apply _| |intros _; by apply moves_ok_reads; [apply _|]].
    apply quiet_to_evolves. intros s. by apply quiet_same.
Qed.

(** ** The sweep *)

(** Journal rows at or below a new floor may go. *)
Lemma shrink H s s' : represents H s →
  sd_entities s' = sd_entities s → sm_next_sequence (sd_meta s') = sm_next_sequence (sd_meta s) →
  (∀ n row, sd_changes s' !! n = Some row → sd_changes s !! n = Some row) →
  sm_retention_floor (sd_meta s) ≤ sm_retention_floor (sd_meta s') ≤ len H →
  (∀ n, sm_retention_floor (sd_meta s') < n → sd_changes s' !! n = sd_changes s !! n) →
  (∀ t, sm_compaction_target (sd_meta s') = Some t → t ≤ len H) → represents H s'.
Proof.
  intros Hs He Hn Hsub Hf Hkeep Ht. pose proof (rp_floor _ _ Hs) as Hf0. split; rewrite ?He, ?Hn.
  - apply Hs.
  - apply Hs.
  - lia.
  - done.
  - apply Hs.
  - intros n row Hr%Hsub. by apply Hs.
  - intros n Hr. rewrite Hkeep by lia. apply (rp_kept _ _ Hs). lia.
Qed.

Lemma foldr_delete_lookup `{Countable K} {A B} (f : B → K) (l : list B) (m : gmap K A) k :
  foldr (λ r, delete (f r)) m l !! k = if bool_decide (k ∈ f <$> l) then None else m !! k.
Proof.
  induction l as [|r l IH]; cbn; [by rewrite bool_decide_eq_false_2 by apply not_elem_of_nil|].
  destruct (decide (f r = k)) as [Hk|Hk].
  - subst k. rewrite lookup_delete_eq, bool_decide_eq_true_2; [done|by left].
  - rewrite lookup_delete_ne, IH by done. destruct (decide (k ∈ f <$> l)) as [Hin|Hin].
    + rewrite !bool_decide_eq_true_2; [done|by right|done].
    + rewrite !bool_decide_eq_false_2; [done| |done]. by intros [?|?]%elem_of_cons.
Qed.

Lemma change_rows_elem p c n row : (n, row) ∈ change_rows p c ↔ c !! n = Some row ∧ p n row = true.
Proof.
  unfold change_rows. rewrite list_elem_of_In, filter_In, <- list_elem_of_In, elem_of_sort_by, elem_of_map_to_list. done.
Qed.

Lemma change_rows_sorted p c : StronglySorted (λ a b, a.1 ≤ b.1) (change_rows p c).
Proof.
  unfold change_rows. set (leb := λ a b : Z * ChangeRow, a.1 <=? b.1).
  assert (StronglySorted (λ a b, leb a b = true) (sort_by leb (map_to_list c))) as Hs.
  { apply sort_by_sorted; unfold leb; [intros a b; rewrite Z.leb_gt, Z.leb_le; lia|intros a b d; rewrite !Z.leb_le; lia]. }
  revert Hs. generalize (sort_by leb (map_to_list c)). intros l. induction 1 as [|x l Hl IH Hx]; cbn; [constructor|].
  destruct (p x.1 x.2); [|done]. constructor; [done|]. apply Forall_forall. intros y Hy%list_elem_of_In%filter_In.
  destruct Hy as [Hy%list_elem_of_In _]. eapply Forall_forall in Hx; [|done]. by apply Z.leb_le.
Qed.

Lemma sorted_take {A} (R : A → A → Prop) n (l : list A) : StronglySorted R l → StronglySorted R (take n l).
Proof.
  intros Hs. revert n. induction Hs as [|x l Hl IH Hx]; intros [|n]; cbn; try constructor; [done|].
  apply Forall_forall. intros y Hy%elem_of_take. eapply Forall_forall in Hx; [done|]. destruct Hy as (i & Hy & _).
  by eapply list_elem_of_lookup_2.
Qed.

Lemma sorted_last {A} (f : A → Z) (l : list A) x y : StronglySorted (λ a b, f a ≤ f b) l → last l = Some x → y ∈ l → f y ≤ f x.
Proof.
  induction 1 as [|z l Hl IH Hz]; [done|]. destruct l as [|w l]; intros Hlast Hy.
  - cbn in Hlast. injection Hlast as <-. apply list_elem_of_singleton in Hy as ->. lia.
  - cbn [last] in Hlast. apply elem_of_cons in Hy as [->|Hy]; [|by apply IH].
    eapply Forall_forall in Hz; [exact Hz|]. by apply last_Some_elem_of.
Qed.

Lemma take_elem {A} n (l : list A) x : x ∈ take n l → x ∈ l.
Proof. intros (i & Hi & _)%elem_of_take. by eapply list_elem_of_lookup_2. Qed.

(** Deleting rows of the journal up to the last of them. *)
Lemma delete_changes_lookup (rows : list (Z * ChangeRow)) (c : gmap Z ChangeRow) n :
  foldr (λ r, delete r.1) c rows !! n = if bool_decide (n ∈ fst <$> rows) then None else c !! n.
Proof. apply foldr_delete_lookup. Qed.

(** Rows taken from the journal in order, the last of which becomes the floor unless it is higher. *)
Lemma sweep_represents H s s' p newFloor rows : represents H s →
  rows = take SWEEP_BATCH_ROWS (change_rows p (sd_changes s)) →
  sd_entities s' = sd_entities s → sm_next_sequence (sd_meta s') = sm_next_sequence (sd_meta s) →
  sd_changes s' = foldr (λ r, delete r.1) (sd_changes s) rows →
  sm_retention_floor (sd_meta s') = Z.max (sm_retention_floor (sd_meta s)) newFloor →
  (match last rows with Some r => newFloor = r.1 | None => newFloor ≤ len H end) →
  (∀ t, sm_compaction_target (sd_meta s') = Some t → t ≤ len H) → represents H s'.
Proof.
  intros Hs Hrows He Hn Hc Hf Hlast Ht. pose proof (rp_floor _ _ Hs) as Hf0.
  assert (∀ r, r ∈ rows → sd_changes s !! r.1 = Some r.2 ∧ r.1 ≤ len H) as Hin.
  { intros [n row] Hr. rewrite Hrows in Hr. apply take_elem, change_rows_elem in Hr as [Hr _]. split; [done|].
    destruct (rp_rows _ _ Hs _ _ Hr) as (e & Hen & _). by apply entry_at_range in Hen as [_ ?]. }
  assert (∀ r, r ∈ rows → r.1 ≤ newFloor) as Hle.
  { intros r Hr. destruct (last rows) as [x|] eqn:El.
    - subst newFloor. eapply (sorted_last fst rows); [|done..]. rewrite Hrows. apply sorted_take, change_rows_sorted.
    - apply last_None in El. rewrite El in Hr. by apply not_elem_of_nil in Hr. }
  assert (newFloor ≤ len H) as Hnf.
  { destruct (last rows) as [x|] eqn:El; [|done]. subst newFloor. apply Hin. by apply last_Some_elem_of. }
  eapply shrink; try done; rewrite ?Hf.
  - intros n row. rewrite Hc, delete_changes_lookup. by destruct (bool_decide _).
  - lia.
  - intros n Hlt. rewrite Hc, delete_changes_lookup. rewrite bool_decide_eq_false_2; [done|].
    intros (r & -> & Hr)%list_elem_of_fmap. specialize (Hle r Hr). lia.
Qed.

Lemma sweep_expired_grows cutoff : moves_ok grows (sweep_expired cutoff).
Proof.
  intros s a s' Hrun H Hs. unfold sweep_expired in Hrun.
  step_back Hrun expired s1 Hg. injection Hg as Hexp <-.
  step_back Hrun u s1 Hd. injection Hd as _ <-. step_back Hrun u1 s2 Hf. injection Hrun as _ <-.
  exists []. rewrite app_nil_r. pose proof (rp_target _ _ Hs) as Ht.
  destruct (last expired) as [r|] eqn:El; injection Hf as _ <-.
  - eapply (sweep_represents H s _ _ r.1 expired); try done; rewrite ?El; try done.
    + cbn. destruct (Z.ltb_spec (sm_retention_floor (sd_meta s)) r.1); cbn; lia.
    + cbn. destruct (Z.ltb_spec (sm_retention_floor (sd_meta s)) r.1); cbn; lia.
    + intros t. cbn. destruct (_ <? _); apply Ht.
  - pose proof (rp_floor _ _ Hs). eapply (sweep_represents H s _ _ (sm_retention_floor (sd_meta s)) expired); try done.
    + cbn. lia.
    + rewrite El. lia.
Qed.

Lemma sweep_compaction_grows : moves_ok grows sweep_compaction.
Proof.
  intros s a s' Hrun H Hs. unfold sweep_compaction in Hrun.
  step_back Hrun target s1 Hg. injection Hg as Htg <-. step_back Hrun cur s1 Hg. injection Hg as Hfl <-.
  exists []. rewrite app_nil_r. destruct (Z.leb_spec target cur) as [Hle|Hgt]; [by injection Hrun as _ <-|].
  pose proof (rp_target _ _ Hs) as Ht. pose proof (rp_floor _ _ Hs) as Hf0.
  assert (target ≤ len H) as Htl.
  { destruct (sm_compaction_target (sd_meta s)) as [t|] eqn:E; cbn in Htg; [rewrite <- Htg; by apply Ht|lia]. }
  step_back Hrun rows s1 Hg. injection Hg as Hrows <-. step_back Hrun u s1 Hd. injection Hd as _ <-.
  step_back Hrun u1 s2 Hp. injection Hp as _ <-. step_back Hrun u2 s3 Hc. injection Hrun as _ <-.
  set (newFloor := match last rows with Some r => r.1 | None => target end) in *.
  assert (∀ s4, sd_entities s4 = sd_entities s → sm_next_sequence (sd_meta s4) = sm_next_sequence (sd_meta s) →
    sd_changes s4 = foldr (λ r, delete r.1) (sd_changes s) rows →
    sm_retention_floor (sd_meta s4) = Z.max (sm_retention_floor (sd_meta s)) newFloor →
    (∀ t, sm_compaction_target (sd_meta s4) = Some t → t ≤ len H) → represents H s4) as Hrep.
  { intros s4 ? ? ? ? ?. apply (sweep_represents H s s4 _ newFloor rows Hs (eq_sym Hrows)); try done.
    unfold newFloor. by destruct (last rows). }
  destruct (target <=? newFloor); injection Hc as _ <-; apply Hrep; try done; cbn; by rewrite ?Hfl.
Qed.

Lemma sweep_expired_mono cutoff : moves_ok mono (sweep_expired cutoff).
Proof.
  unfold sweep_expired. apply moves_ok_bind; [apply _|by apply moves_ok_reads; [apply _|]|]. intros rows.
  apply moves_ok_bind; [apply _|intros s a s' [= _ <-]; by apply mono_same|]. intros _.
  apply moves_ok_bind; [apply _| |intros _; by apply moves_ok_reads; [apply _|]].
  destruct (last rows); [apply put_meta_mono|by apply moves_ok_reads; [apply _|]].
Qed.

Lemma sweep_compaction_mono : moves_ok mono sweep_compaction.
Proof.
  unfold sweep_compaction. apply moves_ok_bind; [apply _|by apply moves_ok_reads; [apply _|]|]. intros target.
  apply moves_ok_bind; [apply _|by apply moves_ok_reads; [apply _|]|]. intros floor.
  destruct (target <=? floor); [by apply moves_ok_reads; [apply _|]|].
  apply moves_ok_bind; [apply _|by apply moves_ok_reads; [apply _|]|]. intros rows.
  apply moves_ok_bind; [apply _|intros s a s' [= _ <-]; by apply mono_same|]. intros _. cbv zeta.
  apply moves_ok_bind; [apply _|apply put_meta_mono|]. intros _.
  apply moves_ok_bind; [apply _| |intros _; by apply moves_ok_reads; [apply _|]].
  destruct (_ <=? _); [apply put_meta_mono|by apply moves_ok_reads; [apply _|]].
Qed.

Lemma modify_quiet f : (∀ s, quiet s (f s)) → moves_ok evolves (modify f).
Proof. intros Hf. apply quiet_to_evolves. intros s. apply Hf. Qed.

Lemma sweep_evolves now : moves evolves (sweepSync now).
Proof.
  unfold sweepSync. cbv zeta. apply moves_commit; [apply _|].
  apply moves_ok_bind; [apply _|apply moves_ok_and; [apply sweep_expired_grows|apply sweep_expired_mono]|]. intros f1.
  apply moves_ok_bind; [apply _|apply moves_ok_and; [apply sweep_compaction_grows|apply sweep_compaction_mono]|]. intros f2.
  do 5 (apply moves_ok_bind; [apply _|apply modify_quiet; intros; by apply quiet_same|]; intros _).
  destruct (0 <? f1 + f2); [apply quiet_to_evolves, quiet_history|by apply moves_ok_reads; [apply _|]].
Qed.

(** ** The commit of a snapshot *)

(** Equal journal but for the compaction target. *)
Definition same_rows (s s' : SyncDb) : Prop :=
  sd_entities s' = sd_entities s ∧ sd_changes s' = sd_changes s ∧ sd_enrollments s' = sd_enrollments s ∧
  sm_next_sequence (sd_meta s') = sm_next_sequence (sd_meta s) ∧
  sm_retention_floor (sd_meta s') = sm_retention_floor (sd_meta s).

Lemma same_rows_represents H s s' : same_rows s s' →
  (∀ t, sm_compaction_target (sd_meta s') = Some t → t ≤ len H) → represents H s → represents H s'.
Proof. intros (He & Hc & _ & Hn & Hf) Ht [Hw Hnx Hfl _ Hh Hr Hk]. split; rewrite ?He, ?Hc, ?Hn, ?Hf; done. Qed.

Lemma queue_rows l s : let s' := foldr (λ r : string * SnapshotRow, queueSyncSnapshotDeletion r.1) s l in
  sd_meta s' = sd_meta s ∧ sd_entities s' = sd_entities s ∧ sd_changes s' = sd_changes s ∧
  sd_enrollments s' = sd_enrollments s.
Proof. induction l as [|r l (H1 & H2 & H3 & H4)]; [done|]. cbn in *. by rewrite H1, H2, H3, H4. Qed.

Lemma commitPublication_evolves now auth id : moves_ok evolves (commitPublication now auth id).
Proof.
  intros s a s' Hrun. unfold commitPublication in Hrun.
  step_back Hrun publication s0 Hg. injection Hg as Hpub <-. destruct publication as [p|]; [|done].
  step_back Hrun u s0 Hg. apply ensure_Ok in Hg as [_ ->]. destruct (bool_decide _).
  { step_back Hrun prior s0 Hg. injection Hg as _ <-. destruct prior; [|done]. injection Hrun as _ <-. done. }
  step_back Hrun u1 s0 Hg. apply ensure_Ok in Hg as [_ ->]. step_back Hrun epoch s0 Hg. injection Hg as _ <-.
  step_back Hrun u2 s0 Hg. apply ensure_Ok in Hg as [_ ->]. step_back Hrun keyVersion s0 Hg. injection Hg as _ <-.
  step_back Hrun u3 s0 Hg. apply ensure_Ok in Hg as [_ ->]. step_back Hrun current s0 Hg. injection Hg as Hcur <-.
  step_back Hrun low s0 Hg. injection Hg as _ <-. step_back Hrun u4 s0 Hg. apply ensure_Ok in Hg as [Hbound ->].
  step_back Hrun active s0 Hg. pose proof (read_Ok _ _ _ _ (quiet_generation _ _) Hg) as ->.
  assert (match active with Some (_, r) => sn_committed_cursor r ≤ pb_committed_cursor p | None => True end) as Hact.
  { unfold check_generation in Hg. step_back Hg x s0 Hx. step_back Hg u5 s5 He. apply ensure_Ok in He as [_ ->].
    step_back Hg u6 s6 He. apply ensure_Ok in He as [He ->]. injection Hg as <- _.
    destruct x as [[i r]|]; [|done]. by apply Z.leb_le in He. }
  step_back Hrun chunks s0 Hc. injection Hc as _ <-. step_back Hrun u5 s0 Hc. apply ensure_Ok in Hc as [_ ->].
  cbv zeta in Hrun. step_back Hrun u6 s1 Hret. step_back Hrun u7 s2 Hins. apply insert_row_Ok in Hins as [_ ->].
  step_back Hrun u8 s3 Hm. injection Hm as _ <-. step_back Hrun u9 s4 Htg. injection Htg as _ <-.
  step_back Hrun older s5 Ho. injection Ho as _ <-. step_back Hrun u10 s6 Hq. injection Hq as _ <-.
  injection Hrun as _ <-.
  assert (sd_meta s1 = sd_meta s ∧ same_rows s s1) as [Hm1 (R1 & R2 & R3 & R4 & R5)].
  { destruct active as [[i r]|]; injection Hret as _ <-; by split. }
  match goal with |- evolves _ (foldr _ ?x _) => set (s4 := x) end.
  destruct (queue_rows older s4) as (Q1 & Q2 & Q3 & Q4).
  set (target := match active with Some (_, r) => sn_committed_cursor r | None => pb_committed_cursor p end) in *.
  assert (sd_entities s4 = sd_entities s ∧ sd_changes s4 = sd_changes s ∧ sd_enrollments s4 = sd_enrollments s ∧
    sm_next_sequence (sd_meta s4) = sm_next_sequence (sd_meta s) ∧
    sm_retention_floor (sd_meta s4) = sm_retention_floor (sd_meta s) ∧
    (sm_compaction_target (sd_meta s4) = Some target ∨ sm_compaction_target (sd_meta s4) = sm_compaction_target (sd_meta s)))
    as (K1 & K2 & K3 & K4 & K5 & K6).
  { clear - Hm1 R1 R2 R3. subst s4. cbn. rewrite R1, R2, R3, Hm1.
    split_and!; try done; destruct (_ <? target); try done; first [by left | by right]. }
  split.
  - intros H Hs. exists []. rewrite app_nil_r. apply (same_rows_represents H s); [|intros t; rewrite Q1; intros Ht|done].
    + unfold same_rows. rewrite Q1, Q2, Q3, Q4. done.
    + destruct K6 as [K6|K6]; rewrite K6 in Ht; [|by apply (rp_target _ _ Hs)]. injection Ht as <-.
      assert (current ≤ len H) as Hc.
      { rewrite <- Hcur, (rp_next _ _ Hs). pose proof (len_nonneg H). destruct (Z.ltb_spec 1 (len H + 1)); lia. }
      reflect_bools. unfold target. destruct active as [[i r]|]; lia.
  - apply mono_same. by rewrite Q4.
Qed.

(** ** All calls *)

(** The calls on an account's tables.  A call that awaits the object store is one call for
    each of its transactions; [call_fair_use] is what the operator's command stores. *)
Inductive SyncCall :=
| call_push (now : Z) (auth : SpikeAuth) (params : json)
| call_pull (params : json)
| call_scan_begin (now : Z) (uuid : string) (params : json)
| call_scan_page (now : Z) (params : json)
| call_scan_finish (now : Z) (params : json)
| call_export_begin (now : Z) (uuid : string) (auth : SpikeAuth)
| call_export_page (now : Z) (params : json)
| call_import_preview (now : Z) (uuid : string) (auth : SpikeAuth) (params : json)
| call_import_commit (now : Z) (auth : SpikeAuth) (params : json)
| call_snapshot_begin (now : Z) (auth : SpikeAuth) (params : json)
| call_chunk_reserve (now : Z) (auth : SpikeAuth) (id : string) (index bytes : Z) (digest : string)
| call_chunk_accept (now : Z) (auth : SpikeAuth) (id : string) (index : Z)
| call_snapshot_check (now : Z) (auth : SpikeAuth) (id manifest : string)
| call_snapshot_mark (now : Z) (auth : SpikeAuth) (id manifest : string)
| call_snapshot_commit (now : Z) (auth : SpikeAuth) (id : string)
| call_chunks_deleted (completed : list (string * Z))
| call_fair_use (notice : option FairUseNotice)
| call_sweep (now : Z).

Section Reach.
Context (sha256Hex : string → string) (date_parse : string → option Z) (hosted : bool).

Definition run_call (c : SyncCall) (s : SyncDb) : SyncDb :=
  match c with
  | call_push now auth params => (handlePush sha256Hex date_parse hosted now auth params s).2
  | call_pull params => (handlePull params s).2
  | call_scan_begin now uuid params => (handleScanBegin now uuid params s).2
  | call_scan_page now params => (handleScanPage now params s).2
  | call_scan_finish now params => (handleScanFinish now params s).2
  | call_export_begin now uuid auth => (handleDataExportBegin now uuid auth s).2
  | call_export_page now params => (handleDataExportPage now params s).2
  | call_import_preview now uuid auth params => (handleDataImportPreview now uuid auth params s).2
  | call_import_commit now auth params => (handleDataImportCommit now auth params s).2
  | call_snapshot_begin now auth params => (handleSyncSnapshotBegin sha256Hex now auth params s).2
  | call_chunk_reserve now auth id index bytes digest => (commit (reserveChunk now auth id index bytes digest) s).2
  | call_chunk_accept now auth id index => (commit (acceptChunk now auth id index) s).2
  | call_snapshot_check now auth id manifest => (commit (checkUpload now auth id manifest) s).2
  | call_snapshot_mark now auth id manifest => (commit (markVerified now auth id manifest) s).2
  | call_snapshot_commit now auth id => (handleSyncSnapshotCommit now auth id s).2
  | call_chunks_deleted completed => (dropDeletedChunks completed s).2
  | call_fair_use notice => (put_meta (set_fair_use notice) s).2
  | call_sweep now => (sweepSync now s).2
  end.

Definition run_calls (cs : list SyncCall) (s : SyncDb) : SyncDb := foldl (λ s c, run_call c s) s cs.

(** The states some calls lead to. *)
Definition reachable (s : SyncDb) : Prop := ∃ cs, s = run_calls cs initial_db.

Lemma quiet_call_evolves {A} (m : T A) s : moves quiet m → evolves s (m s).2.
Proof. intros Hm. apply quiet_evolves, Hm. Qed.

Lemma snapshot_commit_evolves now auth id : moves evolves (handleSyncSnapshotCommit now auth id).
Proof.
  unfold handleSyncSnapshotCommit. apply moves_bind; [apply _|apply moves_reads; [apply _|apply quiet_publisher]|].
  intros _. apply moves_commit; [apply _|]. apply commitPublication_evolves.
Qed.

Lemma call_evolves c s : evolves s (run_call c s).
Proof.
  destruct c; cbn [run_call];
    try (apply quiet_call_evolves;
      first [ apply pull_quiet | apply scan_begin_quiet | apply scan_page_quiet | apply scan_finish_quiet
            | apply export_begin_quiet | apply export_page_quiet | apply import_preview_quiet | apply snapshot_begin_quiet
            | apply snapshot_reserve_quiet | apply snapshot_accept_quiet | apply snapshot_check_quiet
            | apply snapshot_mark_quiet ]).
  - apply push_evolves.
  - apply import_commit_evolves.
  - apply snapshot_commit_evolves.
  - apply quiet_evolves. by apply quiet_same.
  - apply quiet_evolves. by apply quiet_meta.
  - apply sweep_evolves.
Qed.

Lemma calls_evolve cs s : evolves s (run_calls cs s).
Proof.
  revert s. induction cs as [|c cs IH]; intros s; [done|]. cbn. etrans; [apply call_evolves|apply IH].
Qed.

Lemma reachable_represents s : reachable s → ∃ H, represents H s.
Proof.
  intros [cs ->]. destruct (calls_evolve cs initial_db) as [Hg _].
  destruct (Hg _ represents_initial) as [H Hs]. by exists H.
Qed.
End Reach.
