(* ===== verification/SyncPull.v ===== *)
(** * Desktop app cloud: a pull reads the history

    The page a pull takes from the tables is the page of the history after the cursor. *)

From stdpp Require Import base list strings gmap sorting.
From Stdlib Require Import ZArith Ascii Lia.
From S2P Require Import Prelude Transactions JsString JsValue SyncWire SyncTables SyncLog SyncHistory SyncPush SyncGrowth SyncCalls.

(** ** Pages of the history *)

Definition synced_entry (p : Z * ScannedEntity) : SyncedChange := {|
  sy_entity := se_entity p.2; sy_revision := se_revision p.2; sy_operation := se_operation p.2;
  sy_schemaVersion := se_schemaVersion p.2; sy_sequence := p.1; sy_payload := se_payload p.2 |}.

(** The changes after a cursor. *)
Definition changes_from (H : History) (after : Z) : list SyncedChange :=
  map synced_entry (drop (Z.to_nat after) (numbered H)).

(** The longest prefix within the limits of a page, whose first change always fits the
    byte limit. *)
Fixpoint page_of (maxBytes maxChanges : Z) (l : list SyncedChange) (count usedBytes : Z) : list SyncedChange :=
  match l with
  | [] => []
  | c :: l' =>
      let size := json_bytes (synced_json c) in
      if ((0 <? count) && (maxBytes <? usedBytes + size)) || (maxChanges <=? count) then []
      else c :: page_of maxBytes maxChanges l' (count + 1) (usedBytes + size)
  end.

Definition history_page (H : History) (pull : PullParams) : list SyncedChange :=
  page_of (Z.min (pl_maxBytes pull) LIMIT_pageBytes) (default LIMIT_batchChanges (pl_maxChanges pull))
    (changes_from H (pl_cursor pull)) 0 0.

(** What a pull answers, told from the history. *)
Definition history_pull (H : History) (floor : Z) (pull : PullParams) : SyncPullResult :=
  let page := history_page H pull in {|
    pr_changes := page;
    pr_nextCursor := pl_cursor pull + Z.of_nat (length page);
    pr_hasMore := bool_decide (length page < length (changes_from H (pl_cursor pull)))%nat;
    pr_recoveryFloor := floor |}.

(** ** Lemmas on pages *)

Lemma page_of_prefix b m l count used : ∃ rest, l = page_of b m l count used ++ rest.
Proof.
  revert count used. induction l as [|c l IH]; intros count used; cbn; [by exists []|].
  destruct (_ || _); [by exists (c :: l)|]. destruct (IH (count + 1) (used + json_bytes (synced_json c))) as [rest Hr].
  exists rest. cbn. by rewrite <- Hr.
Qed.

Lemma page_of_take b m l count used : page_of b m l count used = take (length (page_of b m l count used)) l.
Proof.
  destruct (page_of_prefix b m l count used) as [rest Hr]. set (page := page_of _ _ _ _ _) in *.
  rewrite Hr. symmetry. apply take_app_length.
Qed.

(** A page of changes there are is not empty. *)
Lemma page_of_nonempty b m c l : 1 ≤ m → page_of b m (c :: l) 0 0 ≠ [].
Proof. intros Hm. cbn. destruct (Z.leb_spec m 0); [lia|]. done. Qed.

Lemma page_of_count b m l count used : 0 ≤ count ≤ m → count + Z.of_nat (length (page_of b m l count used)) ≤ m.
Proof.
  revert count used. induction l as [|c l IH]; intros count used Hm; cbn; [lia|].
  destruct (_ || _) eqn:E; [cbn; lia|]. reflect_bools. cbn [length]. specialize (IH (count + 1) (used + json_bytes (synced_json c))). lia.
Qed.

Lemma numbered_lookup H i : numbered H !! i = (λ e, (Z.of_nat i + 1, e)) <$> H !! i.
Proof. unfold numbered. by rewrite list_lookup_imap. Qed.

Lemma changes_from_lookup H c i : 0 ≤ c →
  changes_from H c !! i = (λ e, synced_entry (c + Z.of_nat i + 1, e)) <$> entry_at H (c + Z.of_nat i + 1).
Proof.
  intros Hc. unfold changes_from, entry_at. rewrite list_lookup_fmap, lookup_drop, numbered_lookup.
  destruct (Z.ltb_spec 0 (c + Z.of_nat i + 1)); [|lia].
  replace (Z.to_nat (c + Z.of_nat i + 1 - 1)) with (Z.to_nat c + i)%nat by lia.
  destruct (H !! (Z.to_nat c + i)%nat); cbn; [|done]. do 3 f_equal. lia.
Qed.

Lemma changes_from_length H c : length (changes_from H c) = (length H - Z.to_nat c)%nat.
Proof. unfold changes_from, numbered. by rewrite length_map, length_drop, length_imap. Qed.

(** ** The rows of the journal after a cursor *)

Lemma change_rows_NoDup p c : NoDup (fst <$> change_rows p c).
Proof.
  unfold change_rows. set (leb := λ a b : Z * ChangeRow, a.1 <=? b.1).
  assert (NoDup (fst <$> sort_by leb (map_to_list c))) as Hn.
  { rewrite sort_by_Permutation. apply NoDup_fst_map_to_list. }
  revert Hn. generalize (sort_by leb (map_to_list c)). induction l as [|[n r] l IH]; cbn; [done|].
  intros [Hx Hl]%NoDup_cons. destruct (p n r); cbn; [|by apply IH].
  apply NoDup_cons. split; [|by apply IH]. intros (y & -> & Hy)%list_elem_of_fmap. apply Hx.
  apply list_elem_of_fmap_2. by apply list_elem_of_In, filter_In in Hy as [Hy%list_elem_of_In _].
Qed.

Lemma sorted_fmap {A} (f : A → Z) l : StronglySorted (λ a b, f a ≤ f b) l → StronglySorted Z.le (f <$> l).
Proof.
  induction 1 as [|x l Hl IH Hx]; cbn; constructor; [done|]. apply Forall_fmap. eapply Forall_impl; [done|]. done.
Qed.

Lemma seqZ_sorted m n : StronglySorted Z.le (seqZ m n).
Proof.
  unfold seqZ. generalize 0%nat. induction (Z.to_nat n) as [|k IH]; intros i; cbn; constructor; [apply IH|].
  apply Forall_fmap, Forall_forall. intros j [Hj _]%elem_of_seq. cbn. lia.
Qed.

(** They are exactly those with the sequences from the next one to the last. *)
Lemma journal_rows H s after : represents H s → sm_retention_floor (sd_meta s) ≤ after →
  fst <$> change_rows (λ n _, after <? n) (sd_changes s) = seqZ (after + 1) (len H - after).
Proof.
  intros Hs Hfl. eapply (StronglySorted_unique Z.le).
  - apply sorted_fmap, change_rows_sorted.
  - apply seqZ_sorted.
  - apply NoDup_Permutation; [apply change_rows_NoDup|apply NoDup_seqZ|].
    intros n. rewrite elem_of_seqZ. split.
    + intros ([n' row] & -> & Hr%change_rows_elem)%list_elem_of_fmap. destruct Hr as [Hr Hlt%Z.ltb_lt]. cbn.
      destruct (rp_rows _ _ Hs _ _ Hr) as (e & He & _). apply entry_at_range in He. lia.
    + intros Hn. destruct (rp_kept _ _ Hs n) as [row Hr]; [lia|]. apply list_elem_of_fmap. exists (n, row).
      split; [done|]. apply change_rows_elem. split; [done|]. apply Z.ltb_lt. lia.
Qed.

(** The content of a row is that of the entry it stands for. *)
Lemma row_payload_ok H s n row e : represents H s → row_of H n row e →
  row_payload (sd_entities s) n row = Ok (se_payload e) ∧ synced_change n row (se_payload e) = synced_entry (n, e).
Proof.
  intros Hs (Hn & (H1 & H2 & H3 & H4) & Hp). split; [|unfold synced_change, synced_entry; cbn; congruence].
  unfold row_payload. rewrite H3. destruct (decide (se_operation e = op_delete)) as [Hd|Hd].
  - rewrite bool_decide_eq_true_2 by done. by rewrite (wf_delete_payload _ _ _ (rp_wf _ _ Hs) Hn Hd).
  - rewrite bool_decide_eq_false_2 by done. destruct (wf_has_payload _ _ _ (rp_wf _ _ Hs) Hn Hd) as [p Hpay].
    destruct Hp as [->|[-> Hh]]; rewrite Hpay; [done|].
    rewrite (rp_heads _ _ Hs), <- H1 in Hh. destruct (sd_entities s !! lg_entity row) as [er|]; [|done].
    injection Hh as Hseq Hsc. cbn. apply Z.eqb_eq in Hseq. rewrite Hseq.
    assert (er_payload er = Some p) as ->; [|done]. by rewrite <- Hpay, <- Hsc.
Qed.

Lemma pull_rows_page H s b m rows entries changes used lst : represents H s →
  Forall2 (λ r p, r.1 = p.1 ∧ row_of H r.1 r.2 p.2) rows entries →
  ∃ flag, let page := page_of b m (map synced_entry entries) (Z.of_nat (length changes)) used in
    pull_rows (sd_entities s) b m rows changes used lst =
      Ok (changes ++ page, default lst (sy_sequence <$> last page), flag) ∧
    (flag = true ↔ (length page < length entries)%nat).
Proof.
  intros Hs Hall. revert changes used lst.
  induction Hall as [|[n row] [n' e] rows entries [Hn Hrow] Hall IH]; intros changes used lst; cbn in *.
  { exists false. rewrite app_nil_r. split; [done|]. split; [done|lia]. }
  subst n'. destruct (row_payload_ok _ _ _ _ _ Hs Hrow) as [Hp Hc]. rewrite Hp. cbn. rewrite Hc.
  destruct ((0 <? Z.of_nat (length changes)) && (b <? used + json_bytes (synced_json (synced_entry (n, e)))) ||
    (m <=? Z.of_nat (length changes))) eqn:E.
  { exists true. rewrite app_nil_r. split; [done|]. split; [cbn; lia|done]. }
  destruct (IH (changes ++ [synced_entry (n, e)]) (used + json_bytes (synced_json (synced_entry (n, e)))) n) as (flag & Hr & Hf).
  exists flag. rewrite length_app in Hr, Hf. cbn [length] in Hr, Hf.
  replace (Z.of_nat (length changes + 1)) with (Z.of_nat (length changes) + 1) in Hr, Hf by lia.
  rewrite Hr, <- app_assoc. cbn [app length map]. split; [|rewrite Hf; lia].
  set (page := page_of _ _ _ _ _). rewrite last_cons. by destruct (last page).
Qed.

Lemma rows_entries H s after : represents H s → 0 ≤ after → sm_retention_floor (sd_meta s) ≤ after →
  Forall2 (λ r p, r.1 = p.1 ∧ row_of H r.1 r.2 p.2)
    (change_rows (λ n _, after <? n) (sd_changes s)) (drop (Z.to_nat after) (numbered H)).
Proof.
  intros Hs Ha Hf. pose proof (journal_rows _ _ _ Hs Hf) as Hrows.
  set (rows := change_rows _ _) in *.
  assert (length rows = length (drop (Z.to_nat after) (numbered H))) as Hlen.
  { rewrite <- (length_fmap fst), Hrows, length_seqZ, length_drop. unfold numbered, len. rewrite length_imap. lia. }
  apply Forall2_same_length_lookup_2; [done|]. intros i [n row] [n' e] Hr Hp.
  assert ((fst <$> rows) !! i = Some n) as Hfst by (by rewrite list_lookup_fmap, Hr).
  rewrite Hrows in Hfst. apply lookup_seqZ in Hfst as [-> Hi].
  rewrite lookup_drop, numbered_lookup in Hp. destruct (H !! _) as [e'|] eqn:He; [|done]. injection Hp as <- <-. cbn.
  split; [lia|]. assert ((after + 1 + Z.of_nat i, row) ∈ rows) as [Hin _]%change_rows_elem by by eapply list_elem_of_lookup_2.
  destruct (rp_rows _ _ Hs _ _ Hin) as (e0 & He0 & Hrest). enough (e0 = e') by (subst; by split).
  unfold entry_at in He0. destruct (0 <? _); [|done].
  replace (Z.to_nat (after + 1 + Z.of_nat i - 1)) with (Z.to_nat after + i)%nat in He0 by lia. congruence.
Qed.

(** Sequences of a page are consecutive. *)
Lemma page_last H c page n : 0 ≤ c → page = take n (changes_from H c) →
  default c (sy_sequence <$> last page) = c + Z.of_nat (length page).
Proof.
  intros Hc Hp. destruct (last page) as [x|] eqn:E.
  - assert (page ≠ []) as Hne by (by intros ->). cbn. rewrite last_lookup, Hp, lookup_take_Some in E. destruct E as [E Hlt]. rewrite <- Hp in E, Hlt.
    rewrite changes_from_lookup in E by done. destruct (entry_at H _) as [e|]; [|done]. injection E as <-. cbn.
    destruct page; [done|cbn in *; lia].
  - apply last_None in E as ->. cbn. lia.
Qed.

(** A pull from a retained cursor is the page of the history. *)
Lemma pull_page_history H s pull : represents H s → 0 ≤ pl_cursor pull → sm_retention_floor (sd_meta s) ≤ pl_cursor pull →
  pull_page s pull = Ok (history_pull H (sm_retention_floor (sd_meta s)) pull).
Proof.
  intros Hs Hc Hf. unfold pull_page, history_pull, history_page.
  pose proof (rows_entries _ _ _ Hs Hc Hf) as Hall. cbv zeta.
  destruct (pull_rows_page H s (Z.min (pl_maxBytes pull) LIMIT_pageBytes) (default LIMIT_batchChanges (pl_maxChanges pull))
    _ _ [] 0 (pl_cursor pull) Hs Hall) as (flag & Hr & Hflag).
  cbv zeta in Hr, Hflag. cbn [length app] in Hr, Hflag. rewrite Hr. cbn [mbind outcome_bind].
  fold (changes_from H (pl_cursor pull)) in *. change (Z.of_nat 0) with 0 in *.
  set (page := page_of _ _ _ _ _) in *. f_equal.
  assert (length (change_rows (λ n _, pl_cursor pull <? n) (sd_changes s)) = length (changes_from H (pl_cursor pull))) as Hlen.
  { unfold changes_from. rewrite length_map. by eapply Forall2_length. }
  assert (length (drop (Z.to_nat (pl_cursor pull)) (numbered H)) = length (changes_from H (pl_cursor pull))) as Hlen'.
  { unfold changes_from. by rewrite length_map. }
  rewrite Hlen' in Hflag. rewrite Hlen. f_equal.
  - eapply page_last; [done|]. apply page_of_take.
  - apply eq_true_iff_eq. rewrite orb_true_iff, Hflag, Z.ltb_lt, bool_decide_eq_true. lia.
Qed.

(** ** The answer of a pull *)

(** What a pull answers, told from the history and the floor. *)
Definition pull_from (H : History) (floor : Z) (params : json) (answer : outcome SyncPullResult) : Prop :=
  match parseSpikePullParams params with
  | Throw e => answer = Throw e
  | Ok pull =>
      if pl_cursor pull <? floor then ∃ e, answer = Throw e ∧ err_code e = Some "reset-required"
      else answer = Ok (history_pull H floor pull)
  end.

Lemma parse_pull_cursor params pull : parseSpikePullParams params = Ok pull → 0 ≤ pl_cursor pull.
Proof.
  unfold parseSpikePullParams. intros H. apply outcome_bind_Ok in H as (u & _ & H).
  apply outcome_bind_Ok in H as (c & Hc & H). apply parse_cursor_nonneg in Hc.
  apply outcome_bind_Ok in H as (b & _ & H). destruct (prop "maxChanges" _) as [v|].
  - apply outcome_bind_Ok in H as (m & _ & H). by injection H as <-.
  - by injection H as <-.
Qed.

Lemma pull_answer H s params : represents H s →
  pull_from H (sm_retention_floor (sd_meta s)) params (handlePull params s).1.
Proof.
  intros Hs. unfold pull_from, handlePull, mbind, M_bind, from_outcome.
  destruct (parseSpikePullParams params) as [pull|e] eqn:Ep; [|done].
  change (bumpCounter "pulls" 1 s) with (Ok tt, set_counters (<["pulls" := default 0 (sd_counters s !! "pulls") + 1]> (sd_counters s)) s).
  cbv beta iota. unfold readRetentionFloor, get_meta, gets. cbn [sd_meta set_counters].
  destruct (Z.ltb_spec (pl_cursor pull) (sm_retention_floor (sd_meta s))) as [Hlt|Hge]; [cbn; by eexists|].
  unfold get_state. cbn [fst]. unfold get_state, gets.
  change (pull_page (set_counters ?c s) pull) with (pull_page s pull).
  rewrite (pull_page_history H s pull Hs (parse_pull_cursor _ _ Ep) Hge). done.
Qed.
