(* ===== verification/SyncReceipts.v ===== *)
(** * Desktop app cloud: receipts

    What all calls do to the receipts of pushed changes: only a sweep removes one, once it
    is as old as the retention window, and a receipt's sequence is never above its
    enrollment's high-water mark.  So a batch that is sent again gets the answers it got,
    and never adds to the journal, however late it comes. *)

From stdpp Require Import base list strings gmap relations.
From Stdlib Require Import ZArith Ascii Lia.
From S2P Require Import Prelude Transactions JsString JsValue SyncWire SyncTables SyncLog SyncData SyncSnapshot SyncHistory SyncPush SyncGrowth SyncCalls.

(** ** What calls do to receipts *)

Definition receipts_below (s : SyncDb) : Prop :=
  ∀ e n r, sd_receipts s !! (e, n) = Some r → ∃ en, sd_enrollments s !! e = Some en ∧ n ≤ en_high_water en.

Definition same_receipts (s s' : SyncDb) : Prop :=
  sd_receipts s' = sd_receipts s ∧ sm_epoch (sd_meta s') = sm_epoch (sd_meta s).

#[export] Instance same_receipts_preorder : PreOrder same_receipts.
Proof. split; [by intros s|]. intros a b c [H1 H2] [K1 K2]. split; congruence. Qed.

(** Receipts that are not older than [t] are kept, and so are the epoch and the bound. *)
Definition keeps (t : Z) (s s' : SyncDb) : Prop :=
  (∀ k r, sd_receipts s !! k = Some r → t ≤ rc_created_at r → sd_receipts s' !! k = Some r) ∧
  sm_epoch (sd_meta s') = sm_epoch (sd_meta s) ∧ (mono s s' ∧ (receipts_below s → receipts_below s')).

#[export] Instance keeps_preorder t : PreOrder (keeps t).
Proof.
  split; [by intros s; split_and!|]. intros a b c (H1 & H2 & H3 & H4) (K1 & K2 & K3 & K4).
  split_and!; [|congruence|by etrans|auto]. intros k r Hr Ht. by apply K1; [apply H1|].
Qed.

Lemma keeps_same t s s' : same_receipts s s' → mono s s' → keeps t s s'.
Proof.
  intros [Hr He] Hm. split_and!; [|done|done|].
  - intros k r Hk _. by rewrite Hr.
  - intros Hb e n r Hk. rewrite Hr in Hk. destruct (Hb _ _ _ Hk) as (en & Hen & Hn).
    destruct (Hm _ _ Hen) as (en' & Hen' & ?). exists en'. split; [done|lia].
Qed.

(** ** Calls that write no receipts *)

Section Calls.
Context (sha256Hex : string → string) (date_parse : string → option Z) (hosted : bool).

Ltac receipts_step :=
  first
    [ apply moves_ok_reads; [apply _|solve [eauto with moves]]
    | apply moves_reads; [apply _|solve [eauto with moves]]
    | apply moves_ok_bind; [apply _| |intros ?]
    | apply moves_bind; [apply _| |intros ?]
    | apply moves_commit; [apply _|]
    | apply moves_for_each; [apply _|intros ? ? _]
    | apply moves_map_M; [apply _|intros ?]
    | apply moves_moves_ok, moves_insert; [apply _|by split]
    | apply moves_insert; [apply _|by split]
    | apply moves_moves_ok, moves_modify; intros ?; by split ].

Hint Resolve quiet_watermark quiet_assert quiet_active quiet_floor quiet_readEntity quiet_publication quiet_generation
  quiet_publisher classify_reads : moves.

Lemma receipts_counter k n : moves same_receipts (bumpCounter k n).
Proof. intros s. unfold bumpCounter. by destruct (n =? 0). Qed.

Lemma receipts_provision now auth : moves same_receipts (provisionEnrollment now auth).
Proof. intros s. cbn. by destruct (sd_enrollments s !! _). Qed.

Lemma receipts_meta f : (∀ m, sm_epoch (f m) = sm_epoch m) → moves same_receipts (put_meta f).
Proof. intros Hf s. by split; cbn. Qed.

Lemma receipts_observe p : moves same_receipts (observeSyncKeyVersion p).
Proof.
  unfold observeSyncKeyVersion. destruct (safe_integer_of _) as [v|]; [|by apply moves_reads; [apply _|]].
  destruct (_ || _); [by apply moves_reads; [apply _|]|]. apply receipts_meta. intros m. by destruct (_ <? _).
Qed.

Lemma receipts_materialise e : moves same_receipts (materialise e).
Proof. intros s. by rewrite materialise_run. Qed.

Lemma receipts_queue l : moves same_receipts (modify (λ s, foldr (λ r : string * SnapshotRow, queueSyncSnapshotDeletion r.1) s l)).
Proof. intros s. cbn. induction l as [|r l [IH1 IH2]]; [done|]. by split; cbn in *. Qed.

Ltac receipts_base := first
  [ apply receipts_counter | apply receipts_provision | apply receipts_observe | apply receipts_materialise
  | apply receipts_queue | apply receipts_meta; intros ?; first [done | by split_match] ].

Ltac receipts_call := repeat (cbv zeta; first
  [ receipts_base | apply moves_moves_ok; receipts_base | receipts_step | split_match ]).

Lemma receipts_call_same c s : (∀ now auth params, c ≠ call_push now auth params) → (∀ now, c ≠ call_sweep now) →
  same_receipts s (run_call sha256Hex date_parse hosted c s).
Proof.
  intros Hp Hs. destruct c; cbn [run_call]; try (by edestruct Hp); try (by edestruct Hs); try done; revert s.
  - change (moves same_receipts (handlePull params)). unfold handlePull. receipts_call.
  - change (moves same_receipts (handleScanBegin now uuid params)). unfold handleScanBegin, beginScan. receipts_call.
  - change (moves same_receipts (handleScanPage now params)). unfold handleScanPage, pageScan, update_scan. receipts_call.
  - change (moves same_receipts (handleScanFinish now params)). unfold handleScanFinish, finishScan, update_scan. receipts_call.
  - change (moves same_receipts (handleDataExportBegin now uuid auth)). unfold handleDataExportBegin. receipts_call.
  - change (moves same_receipts (handleDataExportPage now params)). unfold handleDataExportPage, exportPage, update_operation.
    receipts_call.
  - change (moves same_receipts (handleDataImportPreview now uuid auth params)).
    unfold handleDataImportPreview, previewImport, classifyImportEntity. receipts_call.
  - change (moves same_receipts (handleDataImportCommit now auth params)).
    unfold handleDataImportCommit, commitImport, import_entry, classifyImportEntity, next_sequence_is, addHistoryBytes, update_operation.
    receipts_call.
  - change (moves same_receipts (handleSyncSnapshotBegin sha256Hex now auth params)).
    unfold handleSyncSnapshotBegin, beginPublication. receipts_call.
  - change (moves same_receipts (commit (reserveChunk now auth id index bytes digest))). unfold reserveChunk. receipts_call.
  - change (moves same_receipts (commit (acceptChunk now auth id index))). unfold acceptChunk. receipts_call.
  - change (moves same_receipts (commit (checkUpload now auth id manifest))). unfold checkUpload. receipts_call.
  - change (moves same_receipts (commit (markVerified now auth id manifest))). unfold markVerified. receipts_call.
  - change (moves same_receipts (handleSyncSnapshotCommit now auth id)). unfold handleSyncSnapshotCommit, commitPublication.
    receipts_call.
Qed.
End Calls.

(** ** Push *)

Definition INITIAL (s : SyncDb) : Prop := sm_epoch (sd_meta s) = INITIAL_EPOCH.

(** What a call does to tables that stand for a history. *)
Definition stays (t : Z) (s s' : SyncDb) : Prop :=
  evolves s s' ∧ ∀ H, represents H s → INITIAL s → keeps t s s'.

#[export] Instance stays_preorder t : PreOrder (stays t).
Proof.
  split; [by intros s; split|]. intros a b c [Hab Kab] [Hbc Kbc]. split; [by etrans|].
  intros H Ha Hi. pose proof (Kab H Ha Hi) as K. destruct (proj1 Hab H Ha) as [H' Hb]. etrans; [done|].
  apply (Kbc _ Hb). unfold INITIAL. by rewrite (proj1 (proj2 K)).
Qed.

Lemma stays_same t s s' : evolves s s' → same_receipts s s' → stays t s s'.
Proof. intros He Hr. split; [done|]. intros H Hs _. apply keeps_same; [done|apply He]. Qed.

Lemma quiet_stays t {A} (m : T A) : moves quiet m → moves same_receipts m → moves_ok (stays t) m.
Proof. intros Hq Hr. apply moves_moves_ok. intros s. apply stays_same; [by apply quiet_evolves|done]. Qed.

(** A receipt put where there was none. *)
Lemma put_keeps t s s' k row : sd_receipts s !! k = None → sd_receipts s' = <[k := row]> (sd_receipts s) →
  sm_epoch (sd_meta s') = sm_epoch (sd_meta s) → mono s s' →
  (∃ en, sd_enrollments s' !! k.1 = Some en ∧ k.2 ≤ en_high_water en) → keeps t s s'.
Proof.
  intros Hk Hr He Hm Hen. split_and!; [|done|done|].
  - intros k' r Hk' _. rewrite Hr, lookup_insert_ne; [done|]. intros <-. by rewrite Hk in Hk'.
  - intros Hb e n r. rewrite Hr. destruct (decide (k = (e, n))) as [->|Hne]; [by intros _|].
    rewrite lookup_insert_ne by done. intros Hk'. destruct (Hb _ _ _ Hk') as (en & He1 & Hn).
    destruct (Hm _ _ He1) as (en' & He2 & ?). exists en'. split; [done|lia].
Qed.

Lemma advance_high auth item s en : sd_enrollments s !! sa_enrollmentId auth = Some en →
  ∃ en', sd_enrollments (advance auth item s) !! sa_enrollmentId auth = Some en' ∧
    pc_enrollmentSequence (pp_change item) ≤ en_high_water en'.
Proof.
  intros He. cbn. rewrite lookup_alter_eq, He. cbn.
  destruct (Z.ltb_spec (en_high_water en) (pc_enrollmentSequence (pp_change item))); eexists; (split; [done|cbn; lia]).
Qed.

Section Push.
Context (sha256Hex : string → string) (date_parse : string → option Z) (hosted : bool) (t : Z).

Lemma accepted_mono now auth item s : mono s (accepted_db now auth item s).
Proof. apply (quiet_advance (sa_enrollmentId auth) (pc_enrollmentSequence (pp_change item)) s). Qed.

Lemma accepted_epoch item m : sm_epoch (accepted_meta item m) = sm_epoch m.
Proof.
  unfold accepted_meta, observed. destruct (bool_decide _); [done|]. destruct (safe_integer_of _); [|done].
  destruct (_ || _); [done|]. by destruct (_ <? z).
Qed.

Lemma item_end_keeps now auth item H s r s' : item_end hosted now auth item H s r s' → keeps t s s'.
Proof.
  intros [rc _|en Hr He Hle|en result Hr He Hgt _|en Hr He Hgt _ _]; [done|eapply put_keeps; try done..].
  - by apply put_receipt_quiet.
  - by exists en.
  - by apply settled_quiet.
  - by eapply (advance_high auth item (put_receipt now auth item result s)).
  - apply accepted_epoch.
  - apply accepted_mono.
  - by eapply (advance_high auth item s).
Qed.

Lemma applyPrepared_stays now auth item : item_ok item → moves_ok (stays t) (applyPrepared hosted now auth item).
Proof.
  intros Hok s r s' Hap. split; [by eapply applyPrepared_evolves|]. intros H Hs _.
  eapply item_end_keeps. by eapply applyPrepared_ends.
Qed.

Lemma push_item_stays now auth item acc : item_ok item →
  moves_ok (stays t) (push_item hosted now auth INITIAL_EPOCH item acc).
Proof.
  intros Hok. unfold push_item. rewrite String.eqb_refl.
  apply moves_ok_bind; [apply _| |].
  - apply moves_ok_bind; [apply _|by apply applyPrepared_stays|]. intros [r [n|]].
    + apply moves_ok_bind; [apply _|apply quiet_stays; [apply quiet_counter|apply receipts_counter]|]. intros _. by apply moves_ok_reads; [apply _|].
    + by apply moves_ok_reads; [apply _|].
  - intros [r a]. apply moves_ok_bind; [apply _|apply quiet_stays; [apply quiet_counter|apply receipts_counter]|]. intros _.
    by apply moves_ok_reads; [apply _|].
Qed.

Lemma items_stay now auth prepared acc : Forall item_ok prepared →
  moves_ok (stays t) (for_each prepared (push_item hosted now auth INITIAL_EPOCH) acc).
Proof.
  intros Hok. apply moves_for_each; [apply _|]. intros item acc' Hin. apply push_item_stays. by eapply Forall_forall in Hok.
Qed.
End Push.

(** ** All calls *)

Section Reach.
Context (sha256Hex : string → string) (date_parse : string → option Z) (hosted : bool).
Notation run_call := (run_call sha256Hex date_parse hosted).
Notation run_calls := (run_calls sha256Hex date_parse hosted).

Definition empty_outcome : PushBatchOutcome := {| po_results := []; po_acceptedWatermark := None |}.

(** What lets a batch through to its items. *)
Definition admitted (now : Z) (epoch : option string) (prepared : list PreparedChange) (s : SyncDb) : Prop :=
  assertBatchStructure date_parse prepared = Ok tt ∧
  (∀ e, epoch = Some e → e = sm_epoch (sd_meta s)) ∧
  (existsb (λ i, is_write (pp_change i)) prepared = true → (activeFairUseRestriction date_parse hosted now s).1 = Ok None).

Definition provisioned (now : Z) (auth : SpikeAuth) (s : SyncDb) : SyncDb := (provisionEnrollment now auth s).2.

Lemma provisioned_meta now auth s : sd_meta (provisioned now auth s) = sd_meta s.
Proof. unfold provisioned. cbn. by destruct (sd_enrollments s !! _). Qed.

Lemma push_in now auth epoch prepared s o s' :
  pushInTransaction date_parse hosted now auth epoch prepared s = (Ok o, s') →
  admitted now epoch prepared s ∧
  for_each prepared (push_item hosted now auth (sm_epoch (sd_meta s))) empty_outcome (provisioned now auth s) = (Ok o, s').
Proof.
  intros H. unfold pushInTransaction in H. pose proof (provisioned_meta now auth s) as Hm.
  step_back H u s0 Hp. assert (s0 = provisioned now auth s) as -> by (unfold provisioned; by rewrite Hp).
  step_back H u1 s1 Ha. injection Ha as Ha <-. step_back H stored s1 Hg. injection Hg as Hstored <-. rewrite Hm in Hstored.
  subst stored. step_back H u2 s1 He. step_back H u3 s2 Hf.
  assert ((∀ e, epoch = Some e → e = sm_epoch (sd_meta s)) ∧ s1 = provisioned now auth s) as [He1 ->].
  { destruct epoch as [e|]; [|by injection He as _ <-]. destruct (String.eqb_spec e (sm_epoch (sd_meta s))); [|done].
    injection He as _ <-. split; [|done]. by intros ? [= <-]. }
  assert ((existsb (λ i, is_write (pp_change i)) prepared = true →
    (activeFairUseRestriction date_parse hosted now s).1 = Ok None) ∧ s2 = provisioned now auth s) as [Hf1 ->].
  { destruct (existsb _ _); [|by injection Hf as _ <-]. unfold assertFairUseWritesAllowed in Hf.
    step_back Hf n s3 Hn. unfold activeFairUseRestriction, get_meta, gets in *. cbn in *. injection Hn as Hn <-. rewrite Hm in Hn.
    rewrite Hn. by destruct n; [|injection Hf as _ <-]. }
  split; [|done]. destruct u1. by split_and!.
Qed.

Lemma push_through now auth epoch prepared s :
  admitted now epoch prepared s →
  pushInTransaction date_parse hosted now auth epoch prepared s =
  for_each prepared (push_item hosted now auth (sm_epoch (sd_meta s))) empty_outcome (provisioned now auth s).
Proof.
  intros (Ha & He & Hf). unfold pushInTransaction. pose proof (provisioned_meta now auth s) as Hm.
  unfold mbind at 1, M_bind at 1.
  assert (provisionEnrollment now auth s = (Ok tt, provisioned now auth s)) as -> by done.
  unfold mbind at 1, M_bind at 1. unfold from_outcome. rewrite Ha.
  unfold mbind at 1, M_bind at 1. unfold get_meta at 1, gets at 1. rewrite Hm.
  unfold mbind at 1, M_bind at 1.
  assert ((match epoch with
     | Some e => if String.eqb e (sm_epoch (sd_meta s)) then mret () else throw (epoch_mismatch (sm_epoch (sd_meta s)) e)
     | None => mret ()
     end) (provisioned now auth s) = (Ok (), provisioned now auth s)) as ->.
  { destruct epoch as [e|]; [|done]. by rewrite (He e eq_refl), String.eqb_refl. }
  unfold mbind at 1, M_bind at 1.
  assert ((if existsb (λ i, is_write (pp_change i)) prepared then assertFairUseWritesAllowed date_parse hosted now else mret ())
    (provisioned now auth s) = (Ok (), provisioned now auth s)) as ->; [|done].
  destruct (existsb _ _); [|done]. unfold assertFairUseWritesAllowed, mbind, M_bind, activeFairUseRestriction, get_meta, gets in *.
  cbn in Hf. rewrite Hm. specialize (Hf eq_refl). injection Hf as Hf. by rewrite Hf.
Qed.

Lemma provisioned_quiet now auth s : quiet s (provisioned now auth s).
Proof. apply quiet_provision. Qed.

Lemma provisioned_receipts now auth s : same_receipts s (provisioned now auth s).
Proof. apply receipts_provision. Qed.

Lemma provisioned_stays t now auth s : stays t s (provisioned now auth s).
Proof. apply stays_same; [apply quiet_evolves, provisioned_quiet|apply provisioned_receipts]. Qed.

(** A batch that is answered, in a given state. *)
Lemma push_answered now auth params s o s' : handlePush sha256Hex date_parse hosted now auth params s = (Ok o, s') →
  ∃ changes epoch, parseSpikePushParams params = Ok (changes, epoch) ∧
    pushInTransaction date_parse hosted now auth epoch (map (prepare sha256Hex) changes) s = (Ok o, s').
Proof.
  intros H. unfold handlePush in H. step_back H p s0 Hp. destruct p as [changes epoch]. injection Hp as Hp <-.
  exists changes, epoch. split; [done|]. step_back H n s0 Hn. injection Hn as _ <-.
  destruct n as [n|]; [destruct (existsb _ _); [done|]|]; by apply commit_Ok.
Qed.

Lemma prepared_ok params changes epoch : parseSpikePushParams params = Ok (changes, epoch) →
  Forall item_ok (map (prepare sha256Hex) changes).
Proof.
  intros H. apply Forall_map. eapply Forall_impl; [by eapply push_params_ok|]. intros c. apply prepare_ok.
Qed.

(** A push that throws changes nothing. *)
Lemma push_thrown now auth params s e s' : handlePush sha256Hex date_parse hosted now auth params s = (Throw e, s') → s' = s.
Proof.
  intros E. unfold handlePush, mbind, M_bind, from_outcome in E.
  destruct (parseSpikePushParams params) as [[changes epoch]|]; [|by injection E as _ <-].
  unfold activeFairUseRestriction, get_meta, gets in E.
  destruct (if negb hosted then _ else _) as [n|]; [destruct (existsb _ _); [by injection E as _ <-|]|]; by eapply commit_Throw.
Qed.

Lemma push_stays t now auth params s : INITIAL s → stays t s (handlePush sha256Hex date_parse hosted now auth params s).2.
Proof.
  intros Hi. destruct (handlePush _ _ _ _ _ _ s) as [[o|e] s'] eqn:E; cbn [snd].
  - apply push_answered in E as (changes & epoch & Hp & [_ Hrun]%push_in). rewrite Hi in Hrun.
    etrans; [apply provisioned_stays|]. eapply items_stay; [by eapply prepared_ok|done].
  - by rewrite (push_thrown _ _ _ _ _ _ E).
Qed.

(** A sweep is not so late that it expires receipts made at [t]. *)
Definition sweeps_by (t : Z) (c : SyncCall) : Prop := match c with call_sweep now => now ≤ t + RETENTION_MS | _ => True end.

Lemma delete_some_lookup `{Countable K} {A} (p : K → A → bool) (m : gmap K A) k :
  delete_rows (some_rows p m) m !! k = m !! k ∨
  (delete_rows (some_rows p m) m !! k = None ∧ ∃ r, m !! k = Some r ∧ p k r = true).
Proof.
  unfold delete_rows. rewrite foldr_delete_lookup. case_bool_decide as Hin; [|by left]. right. split; [done|].
  apply list_elem_of_fmap in Hin as ([k' r] & -> & Hin). exists r. unfold some_rows in Hin.
  apply take_elem, list_elem_of_In, filter_In in Hin as [Hin%list_elem_of_In%elem_of_map_to_list Hp]. done.
Qed.

Lemma sweep_keeps t now : now ≤ t + RETENTION_MS → moves_ok (keeps t) (sweep_receipts (now - RETENTION_MS)).
Proof.
  intros Hn s a s' [= _ <-].
  set (p := λ (_ : string * Z) r, rc_created_at r <? now - RETENTION_MS).
  pose proof (λ k, delete_some_lookup p (sd_receipts s) k) as Hd.
  split_and!; [|done|by intros id r Hr; exists r|].
  - intros k r Hr Ht. change (delete_rows (some_rows p (sd_receipts s)) (sd_receipts s) !! k = Some r).
    destruct (Hd k) as [->|(_ & r' & Hr' & Hp)]; [done|]. rewrite Hr in Hr'. injection Hr' as <-.
    apply Z.ltb_lt in Hp. lia.
  - intros Hb e n r. change (delete_rows (some_rows p (sd_receipts s)) (sd_receipts s) !! (e, n) = Some r → ∃ en,
      sd_enrollments s !! e = Some en ∧ n ≤ en_high_water en).
    destruct (Hd (e, n)) as [->|(-> & _)]; [apply Hb|done].
Qed.

Lemma moves_keeps_same t {A} (m : T A) : moves same_receipts m → moves mono m → moves_ok (keeps t) m.
Proof. intros Hr Hm. apply moves_moves_ok. intros s. by apply keeps_same. Qed.

Lemma sweep_call_keeps t now : now ≤ t + RETENTION_MS → moves (keeps t) (sweepSync now).
Proof.
  intros Hn. unfold sweepSync. cbv zeta. apply moves_commit; [apply _|].
  apply moves_ok_bind; [apply _| |intros f1].
  { intros s a s' Hs. apply keeps_same; [|by eapply sweep_expired_mono]. revert s a s' Hs.
    change (moves_ok same_receipts (sweep_expired (now - RETENTION_MS))). unfold sweep_expired, delete_changes.
    apply moves_ok_bind; [apply _|by apply moves_ok_reads; [apply _|]|]. intros rows.
    apply moves_ok_bind; [apply _|intros s a s' [= _ <-]; by split|]. intros _.
    apply moves_ok_bind; [apply _| |intros _; by apply moves_ok_reads; [apply _|]].
    destruct (last rows); [|by apply moves_ok_reads; [apply _|]]. apply moves_moves_ok, receipts_meta. intros m. by destruct (_ <? _). }
  apply moves_ok_bind; [apply _| |intros f2].
  { intros s a s' Hs. apply keeps_same; [|by eapply sweep_compaction_mono]. revert s a s' Hs.
    change (moves_ok same_receipts sweep_compaction). unfold sweep_compaction, delete_changes.
    apply moves_ok_bind; [apply _|by apply moves_ok_reads; [apply _|]|]. intros target.
    apply moves_ok_bind; [apply _|by apply moves_ok_reads; [apply _|]|]. intros floor.
    destruct (target <=? floor); [by apply moves_ok_reads; [apply _|]|].
    apply moves_ok_bind; [apply _|by apply moves_ok_reads; [apply _|]|]. intros rows.
    apply moves_ok_bind; [apply _|intros s a s' [= _ <-]; by split|]. intros _. cbv zeta.
    apply moves_ok_bind; [apply _|by apply moves_moves_ok, receipts_meta|]. intros _.
    apply moves_ok_bind; [apply _| |intros _; by apply moves_ok_reads; [apply _|]].
    destruct (_ <=? _); [by apply moves_moves_ok, receipts_meta|by apply moves_ok_reads; [apply _|]]. }
  apply moves_ok_bind; [apply _|by apply sweep_keeps|intros _].
  do 4 (apply moves_ok_bind; [apply _|apply moves_keeps_same; [by split|intros s; by apply mono_same]|intros _]).
  destruct (0 <? f1 + f2); [apply moves_keeps_same; [by apply receipts_meta|by intros s; apply quiet_history]|by apply moves_ok_reads; [apply _|]].
Qed.

Lemma call_stays t c s : sweeps_by t c → INITIAL s → stays t s (run_call c s).
Proof.
  intros Hc Hi. split; [apply call_evolves|]. intros H Hs _.
  destruct c; try (apply keeps_same; [by apply receipts_call_same|by apply call_evolves]).
  - by eapply push_stays.
  - by apply sweep_call_keeps.
Qed.

Lemma calls_stay t cs s : Forall (sweeps_by t) cs → INITIAL s → stays t s (run_calls cs s).
Proof.
  intros Hcs. revert s. induction Hcs as [|c cs Hc Hcs IH]; intros s Hi; [by split|].
  split; [apply calls_evolve|]. intros H Hs _. destruct (call_stays t c s Hc Hi) as [He K]. specialize (K H Hs Hi).
  destruct (proj1 He H Hs) as [H' Hs']. cbn. assert (INITIAL (run_call c s)) as Hi' by (unfold INITIAL; by rewrite (proj1 (proj2 K))).
  etrans; [exact K|]. by eapply IH.
Qed.

(** For any calls there is a time they keep receipts from. *)
Lemma sweeps_bound cs : ∃ t, Forall (sweeps_by t) cs.
Proof.
  induction cs as [|c cs [t IH]]; [by exists 0|].
  exists (match c with call_sweep now => Z.max t (now - RETENTION_MS) | _ => t end). constructor.
  - destruct c; cbn; try done. lia.
  - eapply Forall_impl; [done|]. intros [] Hc; cbn in *; try done. destruct c; lia.
Qed.

(** What holds of all reachable states. *)
Record settled_state (s : SyncDb) : Prop := {
  st_history : ∃ H, represents H s;
  st_epoch : INITIAL s;
  st_below : receipts_below s;
}.

Lemma initial_settled : settled_state initial_db.
Proof. split; [by exists []; apply represents_initial|done|]. intros e n r Hr. cbn in Hr. by rewrite lookup_empty in Hr. Qed.

Lemma calls_settled cs s : settled_state s → settled_state (run_calls cs s).
Proof.
  intros [[H Hs] Hi Hb]. destruct (sweeps_bound cs) as [t Ht]. destruct (calls_stay t cs s Ht Hi) as [[Hg _] K].
  destruct (Hg H Hs) as [H' Hs']. destruct (K H Hs Hi) as (_ & He & _ & Hb'). split; [by exists (H ++ H')|unfold INITIAL; by rewrite He|by apply Hb'].
Qed.

Lemma reachable_settled cs : settled_state (run_calls cs initial_db).
Proof. apply calls_settled, initial_settled. Qed.
End Reach.

(** ** A batch sent again

    The items of a batch that is sent again are answered from their receipts, or as
    expired once these are gone; either way the journal stays as it is. *)

Section Resend.
Context (sha256Hex : string → string) (date_parse : string → option Z) (hosted : bool).

(** The answer a receipt gives an item. *)
Definition receipt_answer (rc : ReceiptRow) (item : PreparedChange) : SyncPushItemResult :=
  if String.eqb (rc_content_hash rc) (pc_payloadHash (pp_change item)) then rc_result rc
  else push_rejected (pc_changeId (pp_change item)) "changed-content".

Definition answered (s : SyncDb) (auth : SpikeAuth) (item : PreparedChange) (result : SyncPushItemResult) : Prop :=
  ∃ rc, sd_receipts s !! receipt_key auth item = Some rc ∧ result = receipt_answer rc item.

(** Two states that differ in their counters only. *)
Definition same_but_counters (s s' : SyncDb) : Prop := s' = set_counters (sd_counters s') s.

Lemma same_but_counters_refl s : same_but_counters s s.
Proof. by destruct s. Qed.

Lemma same_but_counters_trans a b c : same_but_counters a b → same_but_counters b c → same_but_counters a c.
Proof. unfold same_but_counters. intros -> Hc. rewrite Hc. done. Qed.

Lemma item_end_answered now auth item H s result w s' : item_end hosted now auth item H s (result, w) s' → answered s' auth item result.
Proof.
  intros Hend. inversion Hend as [rc Hr Heq1 Heq2|en Hr He Hle Heq1 Heq2|en res Hr He Hgt Hc Heq1 Heq2|en Hr He Hgt Hq Hc Heq1 Heq2]; subst.
  - by exists rc.
  - eexists. split; [cbn; apply lookup_insert_eq|]. unfold receipt_answer. cbn. by rewrite String.eqb_refl.
  - eexists. split; [cbn; apply lookup_insert_eq|]. unfold receipt_answer. cbn. by rewrite String.eqb_refl.
  - eexists. split; [cbn; apply lookup_insert_eq|]. unfold receipt_answer. cbn. by rewrite String.eqb_refl.
Qed.

(** An item that is let in. *)
Lemma push_item_run now auth item acc s o s' : push_item hosted now auth INITIAL_EPOCH item acc s = (Ok o, s') →
  ∃ result w s1, applyPrepared hosted now auth item s = (Ok (result, w), s1) ∧ same_but_counters s1 s' ∧
    po_results o = po_results acc ++ [result] ∧
    po_acceptedWatermark o = match w with Some n => Some n | None => po_acceptedWatermark acc end.
Proof.
  intros H. unfold push_item in H. rewrite String.eqb_refl in H. step_back H p s1 Hp. step_back Hp q s2 Hq.
  destruct q as [result w]. exists result, w, s2. split; [done|].
  assert (∀ k n a b u, bumpCounter k n a = (Ok u, b) → same_but_counters a b) as Hb.
  { intros k n a b u. unfold bumpCounter. destruct (n =? 0); intros [= _ <-]; [apply same_but_counters_refl|by destruct a]. }
  destruct w as [n|].
  - step_back Hp u s3 Hu. injection Hp as <- <-. step_back H u1 s4 Hv. injection H as <- <-.
    split_and!; [|done..]. eapply same_but_counters_trans; eauto.
  - injection Hp as <- <-. step_back H u1 s4 Hv. injection H as <- <-. split_and!; [|done..]. eauto.
Qed.

Lemma counters_answered s s' auth item result : same_but_counters s s' → answered s auth item result → answered s' auth item result.
Proof. by intros ->. Qed.

Lemma items_answered H s now auth prepared acc o s' : represents H s → INITIAL s → Forall item_ok prepared →
  for_each prepared (push_item hosted now auth INITIAL_EPOCH) acc s = (Ok o, s') →
  ∃ results, po_results o = po_results acc ++ results ∧ Forall2 (answered s' auth) prepared results.
Proof.
  intros Hs Hi Hok. revert H s acc Hs Hi. induction Hok as [|item prepared Hit Hok IH]; intros H s acc Hs Hi Hrun; cbn in Hrun.
  - injection Hrun as <- <-. exists []. by rewrite app_nil_r.
  - step_back Hrun acc1 s1 Hp. destruct (push_item_run _ _ _ _ _ _ _ Hp) as (result & w & s2 & Hap & Hcnt & Hres & _).
    destruct (push_item_stays hosted 0 now auth item acc Hit s acc1 s1 Hp) as [Hg Hk].
    destruct (proj1 Hg H Hs) as [H' Hs1]. specialize (Hk H Hs Hi).
    assert (INITIAL s1) as Hi1 by (unfold INITIAL; by rewrite (proj1 (proj2 Hk))).
    destruct (IH _ s1 acc1 Hs1 Hi1 Hrun) as (results & Hr & Hall). exists (result :: results). split.
    + rewrite Hr, Hres, <- app_assoc. done.
    + constructor; [|done]. pose proof (applyPrepared_ends _ _ _ _ _ _ _ _ Hs Hap) as (rc & Hrc & ->)%item_end_answered.
      assert (answered s1 auth item (receipt_answer rc item)) as (rc1 & Hrc1 & Heq).
      { eapply counters_answered; [done|]. by exists rc. }
      exists rc1. split; [|done]. destruct (items_stay hosted (rc_created_at rc1) now auth prepared acc1 Hok s1 o s' Hrun) as [_ K].
      by apply (K _ Hs1 Hi1).
Qed.

(** Items with receipts are answered from them. *)
Lemma items_resent now auth prepared results acc s : Forall2 (answered s auth) prepared results →
  ∃ s', for_each prepared (push_item hosted now auth INITIAL_EPOCH) acc s =
    (Ok {| po_results := po_results acc ++ results; po_acceptedWatermark := po_acceptedWatermark acc |}, s') ∧
    same_but_counters s s'.
Proof.
  intros Hall. revert s acc results Hall. induction prepared as [|item prepared IH]; intros s acc results Hall;
    inversion Hall as [|? result ? results' Hans Hrest]; subst.
  - exists s. split; [|apply same_but_counters_refl]. cbn. rewrite app_nil_r. by destruct acc.
  - destruct Hans as (rc & Hrc & ->). cbn [for_each]. unfold mbind at 1, M_bind at 1.
    assert (∃ s1, push_item hosted now auth INITIAL_EPOCH item acc s =
      (Ok {| po_results := po_results acc ++ [receipt_answer rc item]; po_acceptedWatermark := po_acceptedWatermark acc |}, s1) ∧
      same_but_counters s s1) as (s1 & Hp & Hc).
    { unfold push_item. rewrite String.eqb_refl. unfold mbind, M_bind.
      rewrite (apply_replay hosted now auth item s rc Hrc). fold (receipt_answer rc item). cbn [mret M_ret].
      unfold bumpCounter. cbn. eexists. split; [reflexivity|]. by destruct s. }
    rewrite Hp. destruct (IH s1 {| po_results := po_results acc ++ [receipt_answer rc item];
      po_acceptedWatermark := po_acceptedWatermark acc |} results') as (s2 & Hrun & Hc2).
    { eapply Forall2_impl; [exact Hrest|]. intros x y. by apply counters_answered. }
    exists s2. rewrite Hrun. cbn [po_results po_acceptedWatermark]. rewrite <- app_assoc. split; [done|]. by eapply same_but_counters_trans.
Qed.

(** Items whose sequences are used add nothing to the journal. *)
Definition used (s : SyncDb) (auth : SpikeAuth) (item : PreparedChange) : Prop :=
  ∃ en, sd_enrollments s !! sa_enrollmentId auth = Some en ∧ pc_enrollmentSequence (pp_change item) ≤ en_high_water en.

Lemma used_mono s s' auth item : mono s s' → used s auth item → used s' auth item.
Proof. intros Hm (en & He & Hle). destruct (Hm _ _ He) as (en' & He' & ?). exists en'. split; [done|lia]. Qed.

Lemma answered_used s auth item result : receipts_below s → answered s auth item result → used s auth item.
Proof. intros Hb (rc & Hrc & _). by apply (Hb _ _ _ Hrc). Qed.

Lemma items_used H s now auth prepared acc o s' : represents H s → receipts_below s → Forall (used s auth) prepared →
  for_each prepared (push_item hosted now auth INITIAL_EPOCH) acc s = (Ok o, s') → quiet s s'.
Proof.
  intros Hs Hb Hall. revert H s acc Hs Hb Hall. induction prepared as [|item prepared IH]; intros H s acc Hs Hb Hall Hrun; cbn in Hrun.
  - by injection Hrun as _ <-.
  - apply Forall_cons in Hall as [Hu Hall]. step_back Hrun acc1 s1 Hp.
    destruct (push_item_run _ _ _ _ _ _ _ Hp) as (result & w & s2 & Hap & Hcnt & _).
    pose proof (applyPrepared_ends _ _ _ _ _ _ _ _ Hs Hap) as Hend.
    assert (quiet s s2 ∧ receipts_below s2) as [Hq Hb2].
    { pose proof (item_end_keeps hosted 0 now auth item H s _ _ Hend) as (_ & _ & _ & Hbelow). split; [|by apply Hbelow].
      destruct Hu as (en & He & Hle).
      inversion Hend as [rc Hr Heq1 Heq2|en' Hr He' Hle' Heq1 Heq2|en' res Hr He' Hgt Hc Heq1 Heq2|en' Hr He' Hgt Hqt Hc Heq1 Heq2];
        simplify_eq; [done|apply put_receipt_quiet|lia|lia]. }
    assert (quiet s s1) as Hq1.
    { etrans; [exact Hq|]. rewrite Hcnt. by apply quiet_same. }
    etrans; [exact Hq1|]. eapply (IH H s1); [|by rewrite Hcnt| |done].
    + eapply same_journal_represents; [apply Hq1|done].
    + eapply Forall_impl; [done|]. intros x. apply used_mono. apply Hq1.
Qed.
End Resend.
