(* ===== verification/SyncProps.v ===== *)
(** * Desktop app cloud: properties of push and pull *)

From stdpp Require Import base list strings gmap relations.
From Stdlib Require Import ZArith Ascii Lia.
From S2P Require Import Prelude Transactions JsString JsValue SyncWire SyncTables SyncLog SyncData SyncSnapshot SyncHistory SyncPush SyncGrowth SyncCalls SyncPull SyncReceipts.

(** ** Concrete calls of synchronisation

    Devices, changes and requests for the witnesses and examples of the theorems on
    synchronisation. *)

(** A digest that is a digest's shape, and the same for every text. *)
Definition fixture_digest : string := of_chars (replicate 64 "0"%char).
Definition fixture_sha256 (_ : string) : string := fixture_digest.
Definition fixture_date (_ : string) : option Z := None.

Definition laptop : SpikeAuth := {|
  sa_accountId := "acc"; sa_enrollmentId := "laptop"; sa_enrollmentClass := None; sa_environmentId := None |}.
Definition desktop : SpikeAuth := {|
  sa_accountId := "acc"; sa_enrollmentId := "desktop"; sa_enrollmentClass := None; sa_environmentId := None |}.

Definition change_json (n : Z) (entityId operation : string) (base : json) (payload : option json) : json := JObj ([
  ("changeId", JStr ("c" +:+ int_to_string n)); ("enrollmentSequence", JNum (int n)); ("entityType", JStr "note");
  ("entityId", JStr entityId); ("schemaVersion", JNum (int 1)); ("baseRevision", base); ("operation", JStr operation);
  ("payloadHash", JStr fixture_digest)] ++ optional_payload payload).

Definition push_json (changes : list json) : json := JObj [("changes", JArr changes)].

Definition pull_json (cursor : string) : json := JObj [("cursor", JStr cursor); ("maxBytes", JNum (int 65536))].

Definition create_a : json := change_json 1 "a" "create" JNull (Some (JStr "one")).
Definition create_b : json := change_json 2 "b" "create" JNull (Some (JStr "two")).
Definition update_a : json := change_json 3 "a" "update" (JNum (int 1)) (Some (JStr "three")).
Definition delete_b : json := change_json 4 "b" "delete" (JNum (int 1)) None.

Notation fixture_push := (handlePush fixture_sha256 fixture_date false).
Notation fixture_run := (run_calls fixture_sha256 fixture_date false).

(** Two devices write, one of them over a stale base. *)
Definition two_devices : list SyncCall := [
  call_push 1000 laptop (push_json [create_a; create_b]);
  call_push 2000 desktop (push_json [change_json 1 "a" "update" (JNum (int 1)) (Some (JStr "five"))]);
  call_push 3000 laptop (push_json [update_a; delete_b])].

(** ** Changes on the wire *)

Lemma nonempty_string_text s r : s ≠ "" → nonempty_string (Some (JStr s)) r = Ok s.
Proof.
  intros Hs. unfold nonempty_string. destruct s; [done|].
  assert ((slen (String a s) =? 0) = false) as ->; [|done]. apply Z.eqb_neq. unfold slen. cbn [String.length]. lia.
Qed.

Lemma positive_integer_int z r : 1 ≤ z → positive_integer (Some (JNum (int z))) r = Ok z.
Proof. intros Hz. unfold positive_integer, integer_of. rewrite num_to_Z_int. by destruct (Z.ltb_spec z 1); [lia|]. Qed.

Lemma base_revision_text b : base_revision_of (Some (json_of_base b)) = Ok b.
Proof. destruct b as [z|]; [|done]. unfold json_of_base, base_revision_of, integer_of. by rewrite num_to_Z_int. Qed.

Lemma parse_pending_json c : change_ok c → parsePendingChange (pending_json c) = Ok c.
Proof.
  intros [Hi Hs Ht He Hv Hh Hshape]. unfold parsePendingChange.
  assert (∀ A B (x : A) (k : A → outcome B), (Ok x ≫= k) = k x) as Hbind by done.
  assert (∀ k v, prop k (Some (pending_json c)) = v → prop k (Some (pending_json c)) = v) as Hprop by done.
  rewrite (Hprop "changeId" (Some (JStr (pc_changeId c)))), nonempty_string_text by done.
  rewrite (Hprop "enrollmentSequence" (Some (JNum (int (pc_enrollmentSequence c))))), positive_integer_int by done.
  rewrite (Hprop "entityType" (Some (JStr (pc_entityType c)))), nonempty_string_text by done.
  rewrite (Hprop "entityId" (Some (JStr (pc_entityId c)))), nonempty_string_text by done.
  rewrite (Hprop "schemaVersion" (Some (JNum (int (pc_schemaVersion c))))), positive_integer_int by (done || (unfold pending_json; by destruct (pc_payload c))).
  rewrite (Hprop "baseRevision" (Some (json_of_base (pc_baseRevision c)))), base_revision_text by done.
  rewrite (Hprop "operation" (Some (JStr (operation_text (pc_operation c))))) by done.
  rewrite (Hprop "payloadHash" (Some (JStr (pc_payloadHash c)))) by (unfold pending_json; by destruct (pc_payload c)).
  rewrite (Hprop "payload" (pc_payload c)) by (unfold pending_json; by destruct (pc_payload c)).
  change (isRecord (Some (pending_json c))) with true. cbn [require]. rewrite !Hbind.
  assert (isSyncOperation (Some (JStr (operation_text (pc_operation c)))) = Some (pc_operation c)) as -> by by destruct (pc_operation c).
  unfold shape_ok in Hshape. destruct c as [i n t e v b o p h]. cbn in Hh, Hshape |- *. rewrite Hh.
  destruct o; destruct Hshape as [Hb Hp]; cbn; destruct b as [z|]; try (by destruct Hb); destruct p as [j|]; try done; by destruct Hp.
Qed.

(** C33: the changes that are ever read from the wire are exactly the well-formed ones: they
    have an id, a positive sequence and schema version, a named entity and a digest; a
    creation has a payload and no base revision, an update both, a deletion only a base. *)
Theorem parsePendingChange_typed c : (∃ input, parsePendingChange input = Ok c) ↔ change_ok c.
Proof.
  split; [by intros [input Hc%parsePendingChange_ok]|]. intros Hc. exists (pending_json c). by apply parse_pending_json.
Qed.

Section Props.
Context (sha256Hex : string → string) (date_parse : string → option Z) (hosted : bool).
Notation run_calls := (run_calls sha256Hex date_parse hosted).
Notation handlePush := (handlePush sha256Hex date_parse hosted).

(** C3: in every state the calls of any devices lead to, the tables stand for a history of
    accepted changes, which further calls only append to; every pull whose cursor is not
    below the retention floor answers exactly the page of that history after the cursor,
    with each change's own content although the tables keep most of it once, and every
    other pull asks for a reset. *)
Theorem pull_serves_history cs cs' :
  let s := run_calls cs initial_db in
  let s' := run_calls cs' s in
  ∃ H H', represents H s ∧ represents (H ++ H') s' ∧
    (∀ params, pull_from H (sm_retention_floor (sd_meta s)) params (handlePull params s).1) ∧
    (∀ params, pull_from (H ++ H') (sm_retention_floor (sd_meta s')) params (handlePull params s').1).
Proof.
  intros s s'. destruct (st_history _ (reachable_settled sha256Hex date_parse hosted cs)) as [H Hs].
  destruct (proj1 (calls_evolve sha256Hex date_parse hosted cs' s) H Hs) as [H' Hs'].
  exists H, H'. split_and!; [done..|intros; by apply pull_answer|intros; by apply pull_answer].
Qed.
(** ** Writing *)

(** What a change is answered and what it adds to the history, told from the history, the
    enrollment's high-water mark, the stored bytes and the receipt of its sequence. *)
Definition judge (H : History) (highWater bytes : Z) (receipt : option ReceiptRow) (item : PreparedChange) :
    SyncPushItemResult * option ScannedEntity :=
  let change := pp_change item in
  let conflict e := (push_conflict (pc_changeId change) (se_revision e) (default JNull (se_payload e)), None) in
  let accept revision :=
    (push_accepted (pc_changeId change) revision (pp_payload item),
     Some {| se_entity := change_key change; se_revision := revision; se_operation := pc_operation change;
             se_schemaVersion := pc_schemaVersion change; se_payload := pp_payload item |}) in
  match receipt with
  | Some rc => (receipt_answer rc item, None)
  | None =>
      if pc_enrollmentSequence change <=? highWater then (push_receipt_expired (pc_changeId change), None)
      else if negb hosted && (HISTORY_QUOTA_BYTES <? bytes + pp_entityBytes item) then
        (push_rejected (pc_changeId change) "quota-exceeded", None)
      else match pc_operation change, heads H !! change_key change with
      | op_create, None => accept 1
      | op_create, Some (_, e) => conflict e
      | _, None => (push_conflict (pc_changeId change) 0 JNull, None)
      | _, Some (_, e) =>
          if bool_decide (pc_baseRevision change = Some (se_revision e)) then accept (se_revision e + 1) else conflict e
      end
  end.

Lemma compare_judged H s item receipt highWater bytes :
  represents H s → receipt = None → highWater < pc_enrollmentSequence (pp_change item) →
  negb hosted && (HISTORY_QUOTA_BYTES <? bytes + pp_entityBytes item) = false →
  pp_payload item = (if bool_decide (pc_operation (pp_change item) = op_delete) then None else pc_payload (pp_change item)) →
  judge H highWater bytes receipt item =
    match compareBaseRevision (pp_change item) (sd_entities s !! change_key (pp_change item)) with
    | Some r => (r, None)
    | None => (accepted_answer item (sd_entities s !! change_key (pp_change item)),
               Some (accepted_entry item (sd_entities s !! change_key (pp_change item))))
    end.
Proof.
  intros Hs -> Hgt%Z.leb_gt Hq Hp. unfold judge. rewrite Hgt, Hq, (rp_heads _ _ Hs).
  unfold compareBaseRevision, accepted_answer, accepted_entry, scanned, accepted_row. rewrite <- Hp. clear Hp. cbn.
  destruct (sd_entities s !! change_key (pp_change item)) as [e|]; cbn; destruct (pc_operation (pp_change item)); try done;
    by case_bool_decide.
Qed.

(** C11: in every reachable state a change is answered exactly as its receipt, the
    high-water mark of its enrollment, the self-host quota and the head of its entity in
    the history decide, in this order: it is accepted only over the current revision of the
    entity (a create only where there never was one), it then gets the next revision and
    the next sequence of the journal and becomes the head, and otherwise the history stays
    as it is. *)
Theorem change_judged cs now auth change en :
  let s := run_calls cs initial_db in
  let item := prepare sha256Hex change in
  change_ok change → sd_enrollments s !! sa_enrollmentId auth = Some en →
  ∃ H s', represents H s ∧
    let '(result, new) := judge H (en_high_water en) (sm_history_bytes (sd_meta s)) (sd_receipts s !! receipt_key auth item) item in
    applyPrepared hosted now auth item s = (Ok (result, (λ _, len H + 1) <$> new), s') ∧
    represents (H ++ option_list new) s'.
Proof.
  intros s item Hok Hen. destruct (st_history _ (reachable_settled sha256Hex date_parse hosted cs)) as [H Hs].
  pose proof (prepare_ok sha256Hex change Hok) as Hitem. fold item in Hitem.
  destruct (applyPrepared_total hosted H s now auth item en Hs Hen) as (r & s' & Hrun & Hend).
  exists H, s'. split; [done|]. rewrite Hrun.
  destruct Hend as [rc Hr|en' Hr He Hle|en' result Hr He Hgt Hc|en' Hr He Hgt Hq Hc]; simplify_eq.
  - unfold judge. rewrite Hr. cbn. by rewrite app_nil_r.
  - unfold judge. rewrite Hr. apply Z.leb_le in Hle. rewrite Hle. cbn. rewrite app_nil_r. split; [done|].
    by eapply same_journal_represents; [apply put_receipt_quiet|].
  - destruct Hc as [[Hq ->]|[Hq Hc]].
    + unfold judge. rewrite Hr. apply Z.leb_gt in Hgt. unfold over_quota in Hq. rewrite Hgt, Hq. cbn. rewrite app_nil_r. split; [done|].
      by eapply same_journal_represents; [apply settled_quiet|].
    + rewrite (compare_judged H s item _ _ _ Hs Hr Hgt Hq) by done. rewrite Hc. cbn. rewrite app_nil_r. split; [done|].
      by eapply same_journal_represents; [apply settled_quiet|].
  - rewrite (compare_judged H s item _ _ _ Hs Hr Hgt Hq) by done. rewrite Hc. cbn. split; [done|]. by apply accepted_represents.
Qed.

Lemma sent_batch cs now auth params o s1 :
  handlePush now auth params (run_calls cs initial_db) = (Ok o, s1) →
  ∃ changes epoch, parseSpikePushParams params = Ok (changes, epoch) ∧ settled_state s1 ∧
    assertBatchStructure date_parse (map (prepare sha256Hex) changes) = Ok tt ∧
    (∀ e, epoch = Some e → e = INITIAL_EPOCH) ∧ is_Some (sd_enrollments s1 !! sa_enrollmentId auth) ∧
    Forall2 (answered s1 auth) (map (prepare sha256Hex) changes) (po_results o).
Proof.
  intros Hrun. set (s := run_calls cs initial_db) in *.
  pose proof (reachable_settled sha256Hex date_parse hosted cs) as Hset. fold s in Hset.
  assert (settled_state s1) as Hset1.
  { pose proof (calls_settled sha256Hex date_parse hosted [call_push now auth params] s Hset) as Hc. cbn in Hc.
    by rewrite Hrun in Hc. }
  destruct (push_answered _ _ _ _ _ _ _ _ _ Hrun) as (changes & epoch & Hp & Hin). apply push_in in Hin as [(Ha & He & _) Hfor].
  exists changes, epoch. rewrite (st_epoch _ Hset) in He, Hfor. destruct Hset as [[H Hs] Hi Hb].
  assert (represents H (provisioned now auth s)) as Hs0 by (eapply same_journal_represents; [apply provisioned_quiet|done]).
  assert (INITIAL (provisioned now auth s)) as Hi0 by (unfold INITIAL; by rewrite provisioned_meta).
  pose proof (prepared_ok sha256Hex _ _ _ Hp) as Hok.
  destruct (items_answered hosted H _ now auth _ _ o s1 Hs0 Hi0 Hok Hfor) as (results & Hres & Hall). cbn in Hres. subst results.
  split_and!; try done.
  destruct (items_stay hosted 0 now auth _ _ Hok _ _ _ Hfor) as [[_ Hm] _].
  assert (is_Some (sd_enrollments (provisioned now auth s) !! sa_enrollmentId auth)) as [en Hen].
  { unfold provisioned. cbn. destruct (sd_enrollments s !! sa_enrollmentId auth) eqn:E; [by rewrite E|]. cbn. by rewrite lookup_insert_eq. }
  destruct (Hm _ _ Hen) as (en' & Hen' & _). by exists en'.
Qed.

Lemma provisioned_known now auth s : is_Some (sd_enrollments s !! sa_enrollmentId auth) → provisioned now auth s = s.
Proof. intros [en Hen]. unfold provisioned. cbn. by rewrite Hen. Qed.

(** The restriction on writes reads the state only. *)
Lemma fair_use_reads now s : ∃ notice, activeFairUseRestriction date_parse hosted now s = (Ok notice, s).
Proof. by eexists. Qed.

Lemma existsb_prepare changes :
  existsb (λ i, is_write (pp_change i)) (map (prepare sha256Hex) changes) = existsb is_write changes.
Proof. induction changes as [|c changes IH]; cbn; [done|]. by rewrite IH. Qed.

(** C12: a batch that was answered may be sent again, after any calls of any devices, as long
    as no sweep has run that is late enough to expire a receipt of one of its changes.  Unless
    the account is then under a fair-use restriction, or if the batch only deletes, it gets
    the same answers and nothing changes but counters; under a restriction a batch that writes
    is refused with the notice, before its receipts are looked at, and nothing changes. *)
Theorem push_retry_replays cs cs' now now' auth params o s1 t :
  let s2 := run_calls cs' s1 in
  handlePush now auth params (run_calls cs initial_db) = (Ok o, s1) → Forall (sweeps_by t) cs' →
  ∃ changes epoch notice, parseSpikePushParams params = Ok (changes, epoch) ∧
    (activeFairUseRestriction date_parse hosted now' s2).1 = Ok notice ∧
    match (if existsb is_write changes then notice else None) with
    | Some n => handlePush now' auth params s2 = (Throw (fair_use_failure n), s2)
    | None =>
        (∀ c r, c ∈ changes → sd_receipts s1 !! (sa_enrollmentId auth, pc_enrollmentSequence c) = Some r → t ≤ rc_created_at r) →
        ∃ s3, handlePush now' auth params s2 = (Ok {| po_results := po_results o; po_acceptedWatermark := None |}, s3) ∧
          same_but_counters s2 s3
    end.
Proof.
  intros s2 Hrun Hsw. destruct (sent_batch _ _ _ _ _ _ Hrun) as (changes & epoch & Hp & [[H Hs] Hi Hb] & Ha & He & Hen & Hall).
  destruct (calls_stay sha256Hex date_parse hosted t cs' s1 Hsw Hi) as [[Hg Hm] K]. fold s2 in Hg, Hm, K.
  destruct (K H Hs Hi) as (Hkeep & Hepoch & _). destruct (fair_use_reads now' s2) as [notice Hfair].
  exists changes, epoch, notice. split; [done|]. split; [by rewrite Hfair|].
  assert (Hpush : handlePush now' auth params s2 =
    match (if existsb is_write changes then notice else None) with
    | Some n => (Throw (fair_use_failure n), s2)
    | None => commit (pushInTransaction date_parse hosted now' auth epoch (map (prepare sha256Hex) changes)) s2
    end).
  { unfold SyncLog.handlePush. rewrite Hp. rewrite (bind_run _ _ _ (changes, epoch) s2) by done. cbv beta iota.
    rewrite (bind_run _ _ _ _ _ Hfair). destruct notice, (existsb is_write changes); done. }
  rewrite Hpush. destruct (if existsb is_write changes then notice else None) as [n|] eqn:Hn; [done|]. intros Hage.
  assert (is_Some (sd_enrollments s2 !! sa_enrollmentId auth)) as Hen2.
  { destruct Hen as [en Hen]. destruct (Hm _ _ Hen) as (en' & Hen' & _). by exists en'. }
  assert (Forall2 (answered s2 auth) (map (prepare sha256Hex) changes) (po_results o)) as Hall2.
  { apply Forall2_same_length_lookup in Hall as [Hlen Hall]. apply Forall2_same_length_lookup_2; [done|].
    intros i item res Hi1 Hi2. destruct (Hall _ _ _ Hi1 Hi2) as (rc & Hrc & ->). exists rc. split; [|done].
    apply list_elem_of_lookup_2, list_elem_of_fmap in Hi1 as (c & -> & Hc). apply Hkeep; [done|]. by eapply Hage. }
  assert (admitted date_parse hosted now' epoch (map (prepare sha256Hex) changes) s2) as Hadm.
  { split_and!; [done| |].
    - intros e ->. rewrite Hepoch. rewrite Hi. by apply He.
    - rewrite Hfair, existsb_prepare. intros Hw. rewrite Hw in Hn. by rewrite Hn. }
  destruct (items_resent hosted now' auth _ _ empty_outcome s2 Hall2) as (s3 & Hfor & Hc). exists s3. split; [|done].
  unfold commit. by rewrite (push_through date_parse hosted now' auth epoch _ s2 Hadm), (provisioned_known _ _ _ Hen2), Hepoch, Hi, Hfor.
Qed.

(** A batch that was answered never adds to the journal again, however often and however
    late it is sent, sweeps of its receipts included. *)
Theorem push_again_adds_nothing cs cs' now now' auth params o s1 :
  handlePush now auth params (run_calls cs initial_db) = (Ok o, s1) →
  same_journal (run_calls cs' s1) (handlePush now' auth params (run_calls cs' s1)).2.
Proof.
  intros Hrun. destruct (sent_batch _ _ _ _ _ _ Hrun) as (changes & epoch & Hp & Hset & Ha & He & Hen & Hall).
  pose proof (calls_settled sha256Hex date_parse hosted cs' s1 Hset) as Hset2.
  destruct (calls_evolve sha256Hex date_parse hosted cs' s1) as [_ Hm]. set (s2 := run_calls cs' s1) in *.
  assert (Forall (used s2 auth) (map (prepare sha256Hex) changes)) as Hused.
  { apply Forall_forall. intros item Hin. apply list_elem_of_lookup in Hin as [i Hi]. destruct (Forall2_lookup_l _ _ _ _ _ Hall Hi) as (res & _ & Hans).
    eapply used_mono; [exact Hm|]. eapply answered_used; [apply Hset|done]. }
  destruct (handlePush now' auth params s2) as [[o'|e] s3] eqn:E; cbn [snd].
  - destruct (push_answered _ _ _ _ _ _ _ _ _ E) as (changes' & epoch' & Hp' & Hin). rewrite Hp in Hp'. injection Hp' as <- <-.
    apply push_in in Hin as [_ Hfor]. destruct Hset2 as [[H Hs] Hi Hb]. rewrite Hi in Hfor.
    assert (is_Some (sd_enrollments s2 !! sa_enrollmentId auth)) as Hen2.
    { destruct Hen as [en Hen]. destruct (Hm _ _ Hen) as (en' & Hen' & _). by exists en'. }
    rewrite (provisioned_known _ _ _ Hen2) in Hfor. by apply (items_used hosted H s2 now' auth _ _ _ _ Hs Hb Hused Hfor).
  - by rewrite (push_thrown _ _ _ _ _ _ _ _ _ E).
Qed.
End Props.

(** ** Concrete runs *)

Definition parsed (input : json) : PendingChange :=
  match parsePendingChange input with
  | Ok c => c
  | Throw _ => {| pc_changeId := ""; pc_enrollmentSequence := 0; pc_entityType := ""; pc_entityId := ""; pc_schemaVersion := 0;
                  pc_baseRevision := None; pc_operation := op_create; pc_payload := None; pc_payloadHash := "" |}
  end.

Definition laptop_row : EnrollmentRow :=
  {| en_account_id := "acc"; en_high_water := 4; en_created_at := 1000; en_class := "device"; en_environment_id := None |}.

(** A later update over the current revision, and what it is judged. *)
Definition next_update : PendingChange := parsed (change_json 5 "a" "update" (JNum (int 2)) (Some (JStr "six"))).

Lemma change_judged_witness :
  let s := fixture_run two_devices initial_db in
  let item := prepare fixture_sha256 next_update in
  ∃ H s', represents H s ∧
    let '(result, new) := judge false H (en_high_water laptop_row) (sm_history_bytes (sd_meta s))
      (sd_receipts s !! receipt_key laptop item) item in
    applyPrepared false 4000 laptop item s = (Ok (result, (λ _, len H + 1) <$> new), s') ∧
    represents (H ++ option_list new) s'.
Proof.
  apply (change_judged fixture_sha256 fixture_date false two_devices 4000 laptop next_update laptop_row).
  - apply (parsePendingChange_ok (change_json 5 "a" "update" (JNum (int 2)) (Some (JStr "six")))). vm_compute. reflexivity.
  - vm_compute. reflexivity.
Defined.

Definition first_batch : json := push_json [create_a; create_b].

Definition first_outcome : PushBatchOutcome := {|
  po_results := [push_accepted "c1" 1 (Some (JStr "one")); push_accepted "c2" 1 (Some (JStr "two"))];
  po_acceptedWatermark := Some 2 |}.

Definition after_first : SyncDb := (fixture_push 1000 laptop first_batch initial_db).2.

Lemma first_answered : fixture_push 1000 laptop first_batch (fixture_run [] initial_db) = (Ok first_outcome, after_first).
Proof.
  enough ((fixture_push 1000 laptop first_batch (fixture_run [] initial_db)).1 = Ok first_outcome) as Hfst.
  - unfold after_first. change (fixture_run [] initial_db) with initial_db in *.
    destruct (fixture_push 1000 laptop first_batch initial_db) as [r s]. cbn in *. by rewrite Hfst.
  - vm_compute. reflexivity.
Defined.

(** Where writes are restricted meanwhile the batch is refused, and answered as before once
    they are not. *)
Definition writes_stopped : FairUseNotice := {| fu_code := "storage"; fu_message := "too much"; fu_restrictAt := "soon" |}.
Definition soon (text : string) : option Z := Some 5000.

Lemma push_retry_replays_witness :
  let calls := drop 1 two_devices ++ [call_fair_use (Some writes_stopped)] in
  let s2 := run_calls fixture_sha256 soon true calls after_first in
  (∃ s3, handlePush fixture_sha256 soon true 4999 laptop first_batch s2 =
    (Ok {| po_results := po_results first_outcome; po_acceptedWatermark := None |}, s3) ∧ same_but_counters s2 s3) ∧
  handlePush fixture_sha256 soon true 5000 laptop first_batch s2 = (Throw (fair_use_failure writes_stopped), s2).
Proof.
  cbv zeta. assert (H : handlePush fixture_sha256 soon true 1000 laptop first_batch (run_calls fixture_sha256 soon true [] initial_db)
    = (Ok first_outcome, after_first)) by (rewrite <- first_answered; vm_compute; reflexivity).
  assert (Hsw : Forall (sweeps_by 1000) (drop 1 two_devices ++ [call_fair_use (Some writes_stopped)])) by repeat constructor.
  split.
  - destruct (push_retry_replays fixture_sha256 soon true [] (drop 1 two_devices ++ [call_fair_use (Some writes_stopped)])
      1000 4999 laptop first_batch first_outcome after_first 1000 H Hsw) as (changes & epoch & notice & _ & Hn & Hend).
    vm_compute in Hn. injection Hn as <-. replace (if existsb is_write changes then None else None) with (@None FairUseNotice)
      in Hend by (by destruct (existsb is_write changes)). apply Hend. intros c r _ Hr.
    assert (map_Forall (λ _ r, 1000 ≤ rc_created_at r) (sd_receipts after_first)) as Hall.
    { apply (bool_decide_unpack _). vm_compute. exact I. }
    exact (Hall _ r Hr).
  - destruct (push_retry_replays fixture_sha256 soon true [] (drop 1 two_devices ++ [call_fair_use (Some writes_stopped)])
      1000 5000 laptop first_batch first_outcome after_first 1000 H Hsw) as (changes & epoch & notice & Hp & Hn & Hend).
    vm_compute in Hn. injection Hn as <-. vm_compute in Hp. injection Hp as <- <-. exact Hend.
Defined.

Lemma push_again_adds_nothing_witness :
  let s2 := fixture_run (drop 1 two_devices ++ [call_sweep (1000 + RETENTION_MS + 10)]) after_first in
  same_journal s2 (fixture_push 9000 laptop first_batch s2).2.
Proof.
  apply (push_again_adds_nothing fixture_sha256 fixture_date false [] (drop 1 two_devices ++ [call_sweep (1000 + RETENTION_MS + 10)])
    1000 9000 laptop first_batch first_outcome after_first).
  exact first_answered.
Defined.
