(* ===== verification/SyncScan.v ===== *)
(** * Desktop app cloud: pages of a scan

    The order of entity keys, what a page of a scan holds, and that calls of others leave a
    scan's session alone. *)

From stdpp Require Import base list strings gmap relations sorting.
From Stdlib Require Import ZArith Ascii Lia.
From S2P Require Import Prelude Transactions JsString JsValue SyncWire SyncTables SyncLog SyncData SyncSnapshot SyncHistory SyncPush SyncGrowth SyncCalls SyncPull SyncReceipts.

(** ** The order of keys *)

Lemma ekey_total a b : ekey_leb a b = false → ekey_leb b a = true.
Proof.
  unfold ekey_leb. rewrite (String.eqb_sym b.1). destruct (String.eqb_spec a.1 b.1); [apply str_leb_total|apply str_leb_total].
Qed.

Lemma ekey_trans a b c : ekey_leb a b = true → ekey_leb b c = true → ekey_leb a c = true.
Proof.
  unfold ekey_leb. destruct (String.eqb_spec a.1 b.1) as [E1|E1], (String.eqb_spec b.1 c.1) as [E2|E2],
    (String.eqb_spec a.1 c.1) as [E3|E3]; try congruence; intros H1 H2.
  - by eapply str_leb_trans.
  - rewrite E3 in H1. destruct E2. by apply str_leb_antisym.
  - by eapply str_leb_trans.
Qed.

Lemma ekey_antisym a b : ekey_leb a b = true → ekey_leb b a = true → a = b.
Proof.
  destruct a as [a1 a2], b as [b1 b2]. unfold ekey_leb. cbn. rewrite (String.eqb_sym b1).
  destruct (String.eqb_spec a1 b1) as [->|E]; intros H1 H2; [f_equal; by apply str_leb_antisym|].
  destruct E. by apply str_leb_antisym.
Qed.

Lemma ekey_after_leb c k : ekey_after c k = negb (ekey_leb k c).
Proof.
  unfold ekey_after, ekey_leb. destruct (String.eqb_spec k.1 c.1) as [->|E].
  - assert (str_leb c.1 c.1 = true) as ->; [|done].
    destruct (str_leb c.1 c.1) eqn:Er; [done|]. by apply str_leb_total in Er as Er'; rewrite Er in Er'.
  - cbn. by rewrite orb_false_r.
Qed.

Lemma ekey_refl a : ekey_leb a a = true.
Proof. destruct (ekey_leb a a) eqn:E; [done|]. pose proof (ekey_total _ _ E). congruence. Qed.

(** A key is still to come after a cursor. *)
Definition key_after (after : option EntityKey) (k : EntityKey) : bool :=
  match after with None => true | Some c => ekey_after c k end.

(** ** Rows in order *)

Definition row_le (a b : EntityKey * EntityRow) : Prop := ekey_leb a.1 b.1 = true.

Lemma rows_after_elem after entities k r :
  (k, r) ∈ entity_rows_after after entities ↔ entities !! k = Some r ∧ key_after after k = true.
Proof.
  unfold entity_rows_after, entity_rows, key_after. destruct after as [c|].
  - rewrite list_elem_of_In, filter_In, <- list_elem_of_In. unfold entity_rows. by rewrite elem_of_sort_by, elem_of_map_to_list.
  - unfold entity_rows. rewrite elem_of_sort_by, elem_of_map_to_list. naive_solver.
Qed.

Lemma filter_sorted {A} (R : A → A → Prop) (p : A → bool) l : StronglySorted R l → StronglySorted R (List.filter p l).
Proof.
  induction 1 as [|x l Hl IH Hx]; cbn; [constructor|]. destruct (p x); [|done]. constructor; [done|].
  rewrite Forall_forall in Hx |- *. intros y [Hy _]%list_elem_of_In%filter_In. apply Hx. by apply list_elem_of_In.
Qed.

Lemma rows_after_sorted after entities : StronglySorted row_le (entity_rows_after after entities).
Proof.
  assert (StronglySorted row_le (entity_rows entities)) as Hs.
  { unfold entity_rows. apply sort_by_sorted; [intros a b; apply ekey_total|intros a b c; apply ekey_trans]. }
  unfold entity_rows_after. destruct after; [by apply filter_sorted|done].
Qed.

Lemma filter_NoDup_fst {A B} (p : A * B → bool) (l : list (A * B)) : NoDup (fst <$> l) → NoDup (fst <$> List.filter p l).
Proof.
  induction l as [|[a b] l IH]; cbn; [done|]. intros [Hx Hl]%NoDup_cons. destruct (p (a, b)); cbn; [|by apply IH].
  apply NoDup_cons. split; [|by apply IH]. intros (y & -> & Hy)%list_elem_of_fmap. apply Hx. apply list_elem_of_fmap_2.
  by apply list_elem_of_In, filter_In in Hy as [Hy%list_elem_of_In _].
Qed.

Lemma rows_after_NoDup after entities : NoDup (fst <$> entity_rows_after after entities).
Proof.
  assert (NoDup (fst <$> entity_rows entities)) as Hn.
  { unfold entity_rows. rewrite sort_by_Permutation. apply NoDup_fst_map_to_list. }
  unfold entity_rows_after. destruct after; [by apply filter_NoDup_fst|done].
Qed.

(** What comes after the last row of a page was not on it. *)
Lemma page_boundary (page rest : list (EntityKey * EntityRow)) l : StronglySorted row_le (page ++ rest) →
  NoDup (fst <$> page ++ rest) → last page = Some l →
  (∀ r, r ∈ page → ekey_after l.1 r.1 = false) ∧ (∀ r, r ∈ rest → ekey_after l.1 r.1 = true).
Proof.
  intros Hs Hn Hl. apply last_Some in Hl as [page' ->]. rewrite <- app_assoc in Hs, Hn. cbn [app] in Hs, Hn.
  assert (∀ (x y : list (EntityKey * EntityRow)), StronglySorted row_le (x ++ l :: y) →
    (∀ r, r ∈ x → ekey_leb r.1 l.1 = true) ∧ (∀ r, r ∈ y → ekey_leb l.1 r.1 = true)) as Hsplit.
  { intros x. induction x as [|z x IH]; intros y Hxy; cbn in Hxy.
    - split; [by intros r ?%not_elem_of_nil|]. intros r Hr. inversion Hxy as [|? ? _ Hall]. by eapply Forall_forall in Hall.
    - inversion Hxy as [|? ? Hxy' Hall]. destruct (IH y Hxy') as [H1 H2]. split; [|done].
      intros r [->|Hr]%elem_of_cons; [|by apply H1]. eapply Forall_forall in Hall; [exact Hall|].
      apply elem_of_app. right. by left. }
  destruct (Hsplit page' rest Hs) as [H1 H2]. split.
  - intros r [Hr| ->%list_elem_of_singleton]%elem_of_app; rewrite ekey_after_leb; [by rewrite H1|by rewrite ekey_refl].
  - intros r Hr. rewrite ekey_after_leb. destruct (ekey_leb r.1 l.1) eqn:E; [|done]. exfalso.
    rewrite fmap_app in Hn. apply NoDup_app in Hn as (_ & _ & Hn). cbn in Hn. apply NoDup_cons in Hn as [Hn _]. apply Hn.
    rewrite (ekey_antisym _ _ (H2 r Hr) E). by apply list_elem_of_fmap_2.
Qed.

(** ** Pages *)

Lemma take_page_split {A} (encode : A → json) maxBytes rows acc used page cut :
  take_page encode maxBytes rows acc used = (page, cut) →
  ∃ here rest, rows = here ++ rest ∧ page = acc ++ here ∧ (cut = true ↔ rest ≠ []) ∧ (acc = [] → rows ≠ [] → here ≠ []).
Proof.
  revert acc used. induction rows as [|row rows IH]; intros acc used; cbn; intros Htake.
  - injection Htake as <- <-. exists [], []. split_and!; [done|by rewrite app_nil_r|by split|done].
  - destruct ((0 <? Z.of_nat (length acc)) && (maxBytes <? used + json_bytes (encode row))) eqn:E.
    + injection Htake as <- <-. exists [], (row :: rows). rewrite app_nil_r. split_and!; try done.
      intros ->. apply andb_true_iff in E as [E _]. done.
    + destruct (IH _ _ Htake) as (here & rest & -> & -> & Hcut & _). exists (row :: here), rest.
      rewrite <- app_assoc. split_and!; done.
Qed.

(** The page taken and the rows that are left. *)
Lemma take_page_rows {A} (encode : A → json) maxBytes rows page cut : take_page encode maxBytes rows [] 0 = (page, cut) →
  ∃ rest, rows = page ++ rest ∧ (rows ≠ [] → page ≠ []) ∧
    (cut || (Z.of_nat (length page) <? Z.of_nat (length rows)) = true ↔ rest ≠ []).
Proof.
  intros (here & rest & -> & -> & Hcut & Hne)%take_page_split. exists rest. split_and!; [done|by apply Hne|].
  rewrite orb_true_iff, Hcut, Z.ltb_lt, !length_app. destruct rest as [|x rest]; cbn [length app]; [|split; [done|by left]].
  split; [intros [?|?]; [done|lia]|done].
Qed.

(** ** Calls of others *)

(** A call that uses a scan's id. *)
Definition names (id : string) (c : SyncCall) : Prop :=
  match c with
  | call_scan_begin _ uuid _ => uuid = id
  | call_scan_page _ params => ∃ p, parseScanPageParams params = Ok p ∧ sp_scanId p = id
  | call_scan_finish _ params => parseScanFinishParams params = Ok id
  | _ => False
  end.

(** A scan's row stays as it is until it is deleted. *)
Definition scan_kept (id : string) (s s' : SyncDb) : Prop :=
  sd_scans s' !! id = sd_scans s !! id ∨ sd_scans s' !! id = None.

#[export] Instance scan_kept_preorder id : PreOrder (scan_kept id).
Proof.
  split; [by left|]. intros a b c [H1|H1] [H2|H2]; [left; congruence|by right|right; congruence|by right].
Qed.

Section Others.
Context (sha256Hex : string → string) (date_parse : string → option Z) (hosted : bool) (id : string).

Hint Resolve quiet_watermark quiet_assert quiet_active quiet_floor quiet_readEntity quiet_publication quiet_generation
  quiet_publisher classify_reads quiet_read_history reads_fair_use : moves.

Lemma kept_counter k n : moves (scan_kept id) (bumpCounter k n).
Proof. intros s. unfold bumpCounter. by destruct (n =? 0); left. Qed.
Lemma kept_provision now auth : moves (scan_kept id) (provisionEnrollment now auth).
Proof. intros s. left. cbn. by destruct (sd_enrollments s !! _). Qed.
Lemma kept_observe p : moves (scan_kept id) (observeSyncKeyVersion p).
Proof.
  intros s. left. unfold observeSyncKeyVersion. destruct (safe_integer_of _) as [v|]; [|done]. by destruct (_ || _).
Qed.
Lemma kept_materialise e : moves (scan_kept id) (materialise e).
Proof. intros s. rewrite materialise_run. by left. Qed.
Lemma kept_queue l : moves (scan_kept id) (modify (λ s, foldr (λ r : string * SnapshotRow, queueSyncSnapshotDeletion r.1) s l)).
Proof. intros s. cbn. induction l as [|r l IH]; [by left|]. by etrans; [|by left]. Qed.
Lemma scan_kept_update id' f : id' ≠ id → moves (scan_kept id) (update_scan id' f).
Proof. intros Hne s. left. cbn. by rewrite lookup_alter_ne. Qed.
Lemma kept_insert id' row : id' ≠ id → moves (scan_kept id) (insert_row sd_scans set_scans id' row).
Proof. intros Hne s. left. unfold insert_row. destruct (sd_scans s !! id'); [done|]. cbn. by rewrite lookup_insert_ne. Qed.
Lemma kept_meta f : moves (scan_kept id) (put_meta f).
Proof. intros s. by left. Qed.
Lemma scan_kept_sweep cutoff : moves (scan_kept id) (sweep_scans cutoff).
Proof.
  intros s. unfold sweep_scans, modify, scan_kept. cbn [snd sd_scans set_scans].
  destruct (delete_some_lookup (λ _ r, sc_done r && (sc_created_at r <? cutoff)) (sd_scans s) id) as [H|[H _]]; [by left|by right].
Qed.

Ltac kept_base := first
  [ apply kept_counter | apply kept_provision | apply kept_observe | apply kept_materialise | apply kept_queue
  | apply kept_meta | apply scan_kept_sweep | (apply scan_kept_update; assumption) | (apply kept_insert; assumption) ].

Ltac kept_step :=
  first
    [ kept_base | apply moves_moves_ok; kept_base
    | apply moves_ok_reads; [apply _|solve [eauto with moves]]
    | apply moves_reads; [apply _|solve [eauto with moves]]
    | apply moves_ok_bind; [apply _| |intros ?]
    | apply moves_bind; [apply _| |intros ?]
    | apply moves_commit; [apply _|]
    | apply moves_for_each; [apply _|intros ? ? _]
    | apply moves_map_M; [apply _|intros ?]
    | apply moves_moves_ok, moves_insert; [apply _|by left]
    | apply moves_insert; [apply _|by left]
    | apply moves_moves_ok, moves_modify; intros ?; by left ].

Ltac kept_call := repeat (cbv zeta; first [kept_step | split_match]).

Lemma call_kept c s : ¬ names id c → scan_kept id s (run_call sha256Hex date_parse hosted c s).
Proof.
  intros Hn. destruct c; cbn [run_call]; try (by left); revert s.
  - change (moves (scan_kept id) (handlePush sha256Hex date_parse hosted now auth params)).
    unfold handlePush, pushInTransaction, assertFairUseWritesAllowed, push_item, applyPrepared, writeReceipt, next_sequence_is,
      advanceHighWater, addHistoryBytes. kept_call.
  - change (moves (scan_kept id) (handlePull params)). unfold handlePull. kept_call.
  - change (moves (scan_kept id) (handleScanBegin now uuid params)). unfold handleScanBegin, beginScan. cbn in Hn. kept_call.
  - change (moves (scan_kept id) (handleScanPage now params)). unfold handleScanPage.
    apply moves_outcome_bind; [apply _|]. intros p Hp. assert (sp_scanId p ≠ id) by (intros Hid; apply Hn; by exists p).
    unfold pageScan. kept_call.
  - change (moves (scan_kept id) (handleScanFinish now params)). unfold handleScanFinish.
    apply moves_outcome_bind; [apply _|]. intros p Hp. assert (p ≠ id) by (intros ->; by apply Hn). unfold finishScan. kept_call.
  - change (moves (scan_kept id) (handleDataExportBegin now uuid auth)). unfold handleDataExportBegin. kept_call.
  - change (moves (scan_kept id) (handleDataExportPage now params)). unfold handleDataExportPage, exportPage, update_operation. kept_call.
  - change (moves (scan_kept id) (handleDataImportPreview now uuid auth params)).
    unfold handleDataImportPreview, previewImport, classifyImportEntity. kept_call.
  - change (moves (scan_kept id) (handleDataImportCommit now auth params)).
    unfold handleDataImportCommit, commitImport, import_entry, classifyImportEntity, next_sequence_is, addHistoryBytes, update_operation.
    kept_call.
  - change (moves (scan_kept id) (handleSyncSnapshotBegin sha256Hex now auth params)).
    unfold handleSyncSnapshotBegin, beginPublication. kept_call.
  - change (moves (scan_kept id) (commit (reserveChunk now auth id0 index bytes digest))). unfold reserveChunk. kept_call.
  - change (moves (scan_kept id) (commit (acceptChunk now auth id0 index))). unfold acceptChunk. kept_call.
  - change (moves (scan_kept id) (commit (checkUpload now auth id0 manifest))). unfold checkUpload. kept_call.
  - change (moves (scan_kept id) (commit (markVerified now auth id0 manifest))). unfold markVerified. kept_call.
  - change (moves (scan_kept id) (handleSyncSnapshotCommit now auth id0)). unfold handleSyncSnapshotCommit, commitPublication. kept_call.
  - change (moves (scan_kept id) (sweepSync now)). unfold sweepSync, sweep_expired, sweep_compaction, delete_changes, sweep_receipts,
      sweep_operations, sweep_uploads, sweep_chunks, addHistoryBytes. kept_call.
Qed.

Lemma calls_kept cs s : Forall (λ c, ¬ names id c) cs → scan_kept id s (run_calls sha256Hex date_parse hosted cs s).
Proof.
  intros Hcs. revert s. induction Hcs as [|c cs Hc Hcs IH]; intros s; [by left|]. cbn. etrans; [by apply call_kept|apply IH].
Qed.
End Others.
