(* ===== verification/SyncClient.v ===== *)
(** * Desktop app: the staged rebuild of a device

    How a device that cannot go on from its cursor rebuilds the account's entities,
    [mezair-app/src/main/services/sync-engine.service.ts]: it scans all entities page by
    page into a staging table, while other devices go on writing, and then replays the
    journal between the watermarks of the scan onto it.  Requests and the entities and
    changes of the answers travel as JSON; before each request other devices' calls run on
    the account's tables.  The table is that of [sync-persistence.service.ts].  The keys a
    device holds at a time, AES-GCM and [JSON.parse] are parameters; the keyring's own
    handling of key-distribution records, the publication of the snapshot and its
    activation are left out. *)

From stdpp Require Import base list strings gmap.
From Stdlib Require Import ZArith Ascii.
From S2P Require Import Prelude Transactions JsString JsValue SyncWire SyncTables SyncLog SyncCalls.

Definition SyncEngineError (message code : string) (retryable : bool) : JsError :=
  MkError (Some code) message [("retryable", if retryable then "true" else "false")].

Definition SCAN_PAGE_LIMIT : nat := 500.
Definition CATCHUP_PAGE_LIMIT : nat := 500.

(** Zero, or digits that do not start with one, and a safe integer. *)
Definition syncCursorNumber (cursor : string) : option Z :=
  let digits := chars cursor in
  if match digits with
     | [] => false
     | c :: l => forallb is_digit digits && (negb (is_char 48 c) || Nat.eqb (length l) 0)
     end
  then safe_integer (string_to_num cursor) else None.

(** ** The staging table *)

Record StagedRow := {
  sr_revision : Z;
  sr_schemaVersion : Z;
  sr_operation : SyncOperation;
  sr_payloadJson : option string;
  sr_wirePayloadJson : option string;
}.

(** [sync_scan_staging] and the row of [sync_scan_runs] for a scope. *)
Record ScanStaging := { sg_rows : gmap EntityKey StagedRow; sg_run : option (string * Z) }.

Definition beginScanStaging (scanId : string) (watermarkStart : Z) (_ : ScanStaging) : ScanStaging :=
  {| sg_rows := ∅; sg_run := Some (scanId, watermarkStart) |}.

(** [INSERT ... ON CONFLICT ... DO UPDATE ... WHERE excluded.revision > revision]. *)
Definition stage_row (k : EntityKey) (row : StagedRow) (rows : gmap EntityKey StagedRow) : gmap EntityKey StagedRow :=
  match rows !! k with
  | Some old => if sr_revision old <? sr_revision row then <[k := row]> rows else rows
  | None => <[k := row]> rows
  end.

Definition stageScanEntities (entities : list (EntityKey * StagedRow)) (st : ScanStaging) : ScanStaging :=
  {| sg_rows := foldl (λ m e, stage_row e.1 e.2 m) (sg_rows st) entities; sg_run := sg_run st |}.

Definition stageScanChange (e : EntityKey * StagedRow) (st : ScanStaging) : ScanStaging :=
  {| sg_rows := stage_row e.1 e.2 (sg_rows st); sg_run := sg_run st |}.

(** [ORDER BY entity_type ASC, entity_id ASC]. *)
Definition listScanStaging (st : ScanStaging) : list (EntityKey * StagedRow) :=
  sort_by (λ a b, ekey_leb a.1 b.1) (map_to_list (sg_rows st)).

(** ** A device among others *)

(** The account's tables, the device's staging table, and how many requests it has sent. *)
Record World := { wd_db : SyncDb; wd_staging : ScanStaging; wd_tick : nat }.

Definition stage (f : ScanStaging → ScanStaging) : M World unit :=
  modify (λ w, {| wd_db := wd_db w; wd_staging := f (wd_staging w); wd_tick := wd_tick w |}).

(** The change of a pulled page, as the device reads it. *)
Definition toSyncedChange (value : json) : option SyncedChange :=
  let field k := prop k (Some value) in
  match field "entityType", field "entityId", integer_of (field "revision"), integer_of (field "schemaVersion"),
    integer_of (field "sequence"), isSyncOperation (field "operation") with
  | Some (JStr t), Some (JStr i), Some r, Some v, Some n, Some o =>
      if (slen t =? 0) || (slen i =? 0) then None
      else Some {| sy_entity := (t, i); sy_revision := r; sy_operation := o; sy_schemaVersion := v; sy_sequence := n;
                   sy_payload := field "payload" |}
  | _, _, _, _, _, _ => None
  end.

(** ** Opening payloads *)

Inductive WireDomainResult :=
| wire_domain (domain : option string)
| wire_quarantined (reason rawJson : string).

Section Client.
Context (backendId accountId datasetEpoch : string) (pageBytes : Z).
(** The account key of a version when the device has sent so many requests. *)
Context (accountKeyFor : nat → Z → option string).
Context (gcmOpen : string → string → string → string → option string) (JSON_parse : string → option json).

Definition entitySealAssociatedData (k : EntityKey) (keyVersion : Z) : string :=
  join "|" ["mezair/entity-seal/v1"; backendId; accountId; k.1; k.2; int_to_string keyVersion].

(** The payload, or the reason of an [UnsealError]. *)
Definition unsealEntityPayload (tick : nat) (k : EntityKey) (envelope : json) : json + string :=
  if negb (isSealedEntityPayload envelope) || negb (bool_decide (sealedEnvelopeIssue envelope = None))
  then inr "malformed-envelope"
  else match integer_of (prop "keyVersion" (Some envelope)), prop "nonce" (Some envelope), prop "ct" (Some envelope) with
  | Some keyVersion, Some (JStr nonce), Some (JStr ct) =>
      match accountKeyFor tick keyVersion with
      | None => inr "unknown-key-version"
      | Some key =>
          match gcmOpen key (entitySealAssociatedData k keyVersion) nonce ct with
          | None => inr "auth-failed"
          | Some plaintext =>
              match JSON_parse plaintext with Some v => inl v | None => inr "malformed-plaintext" end
          end
      end
  | _, _, _ => inr "malformed-envelope"
  end.

Definition wirePayloadToDomain (tick : nat) (k : EntityKey) (payload : jsval) : WireDomainResult :=
  match payload with
  | None => wire_domain None
  | Some p =>
      if isCryptoBoundaryEntityType k.1 then wire_domain (Some (canonicalJson p))
      else if negb (isSealedEntityPayload p) then wire_quarantined "unsealed-payload" (canonicalJson p)
      else match unsealEntityPayload tick k p with
      | inl domain => wire_domain (Some (canonicalJson domain))
      | inr reason => wire_quarantined ("unseal-" +:+ reason) (canonicalJson p)
      end
  end.

(** What a quarantined payload is staged as; parsing its canonical text gives it back. *)
Definition quarantine_json (payload : jsval) (revision schemaVersion : Z) : string :=
  canonicalJson (JObj [("envelope", default JNull payload); ("revision", JNum (int revision));
    ("schemaVersion", JNum (int schemaVersion))]).

(** The row of a scanned or pulled content. *)
Definition staged_row (tick : nat) (k : EntityKey) (operation : SyncOperation) (revision schemaVersion : Z)
    (payload : jsval) : StagedRow :=
  let row domain wire := {| sr_revision := revision; sr_schemaVersion := schemaVersion; sr_operation := operation;
    sr_payloadJson := domain; sr_wirePayloadJson := wire |} in
  if bool_decide (operation = op_delete) then row None None
  else if isCryptoBoundaryEntityType k.1 then row (canonicalJson <$> payload) (canonicalJson <$> payload)
  else match wirePayloadToDomain tick k payload with
  | wire_domain domain => row domain (canonicalJson <$> payload)
  | wire_quarantined _ _ => row (Some (quarantine_json payload revision schemaVersion)) (canonicalJson <$> payload)
  end.

(** The entities of a page that have the shape of one. *)
Definition stagedEntitiesForWire (tick : nat) (value : list json) : list (EntityKey * StagedRow) :=
  omap (λ item,
    let field k := prop k (Some item) in
    match field "entityType", field "entityId", integer_of (field "revision"), integer_of (field "schemaVersion"),
      isSyncOperation (field "operation") with
    | Some (JStr t), Some (JStr i), Some r, Some v, Some o =>
        if (slen t =? 0) || (slen i =? 0) then None else Some ((t, i), staged_row tick (t, i) o r v (field "payload"))
    | _, _, _, _, _ => None
    end) value.

Definition stagePulledChange (tick : nat) (change : SyncedChange) : ScanStaging → ScanStaging :=
  stageScanChange (sy_entity change,
    staged_row tick (sy_entity change) (sy_operation change) (sy_revision change) (sy_schemaVersion change) (sy_payload change)).

(** ** Requests *)

Context (sha256Hex : string → string) (date_parse : string → option Z) (hosted : bool).
(** The calls of others before the device's n-th request, and the server's time of it. *)
Context (others : nat → list SyncCall) (clock : nat → Z) (uuid : string).

Definition before (w : World) : SyncDb := run_calls sha256Hex date_parse hosted (others (wd_tick w)) (wd_db w).

Definition rpc {A} (call : Z → T A) : M World A := λ w,
  let '(r, s') := call (clock (wd_tick w)) (before w) in
  (r, {| wd_db := s'; wd_staging := wd_staging w; wd_tick := S (wd_tick w) |}).

Definition json_cursor (cursor : option string) : json := match cursor with Some c => JStr c | None => JNull end.

Definition scan_begin_json : json := JObj [("epoch", JStr datasetEpoch)].
Definition scan_page_json (scanId : string) (cursor : option string) : json :=
  JObj [("scanId", JStr scanId); ("cursor", json_cursor cursor); ("maxBytes", JNum (int pageBytes))].
Definition scan_finish_json (scanId : string) : json := JObj [("scanId", JStr scanId)].
Definition catch_up_json (cursor : string) : json := JObj [("cursor", JStr cursor); ("maxBytes", JNum (int pageBytes))].

(** The pages of a scan; [pages] of them are left. *)
Fixpoint scan_pages (pages : nat) (scanId : string) (cursor : option string) : M World unit :=
  match pages with
  | O => mret tt
  | S rest =>
      scanned ← rpc (λ now, handleScanPage now (scan_page_json scanId cursor));
      tick ← gets wd_tick;
      _ ← stage (stageScanEntities (stagedEntitiesForWire tick (map scanned_json (pg_entities scanned))));
      if pg_done scanned then mret tt
      else match pg_nextCursor scanned with
      | None => throw (SyncEngineError "sync.scan.page omitted nextCursor before done" "malformed" false)
      | Some next =>
          if Nat.eqb rest 0 then
            throw (SyncEngineError "sync.scan.page exceeded the page safety limit" "malformed" true)
          else scan_pages rest scanId (Some next)
      end
  end.

(** The changes of a page up to the finish, staged; whether one was past it. *)
Fixpoint stage_changes (finish : Z) (changes : list json) : M World bool :=
  match changes with
  | [] => mret false
  | raw :: rest =>
      match toSyncedChange raw with
      | None => throw (SyncEngineError "sync.pull returned a malformed catch-up change" "malformed" false)
      | Some change =>
          if finish <? sy_sequence change then mret true
          else
            tick ← gets wd_tick;
            _ ← stage (stagePulledChange tick change);
            stage_changes finish rest
      end
  end.

Fixpoint catch_up_pages (pages : nat) (finish : Z) (cursor : string) : M World bool :=
  match pages with
  | O => mret false
  | S rest =>
      result ← rpc (λ _, handlePull (catch_up_json cursor));
      sawPastFinish ← stage_changes finish (map synced_json (pr_changes result));
      let next := int_to_string (pr_nextCursor result) in
      if (sawPastFinish : bool) || match syncCursorNumber next with Some n => finish <=? n | None => false end then mret true
      else if negb (pr_hasMore result) then mret false
      else if Nat.eqb rest 0 then
        throw (SyncEngineError "snapshot catch-up exceeded the page safety limit" "malformed" true)
      else catch_up_pages rest finish next
  end.

Definition catchUpStagedState (startCursor finishCursor : string) : M World bool :=
  match syncCursorNumber finishCursor, syncCursorNumber startCursor with
  | Some finish, Some _ => catch_up_pages CATCHUP_PAGE_LIMIT finish startCursor
  | _, _ => mret false
  end.

(** The cycle up to its staging table being complete; the watermark it stands at. *)
Definition scanCycle : M World Z :=
  begin ← rpc (λ now, handleScanBegin now uuid scan_begin_json);
  if negb (String.eqb (sb_epoch begin) datasetEpoch) then
    throw (SyncEngineError "backend dataset epoch changed" "epoch-mismatch" false)
  else
    _ ← stage (beginScanStaging (sb_scanId begin) (sb_watermarkStart begin));
    _ ← scan_pages SCAN_PAGE_LIMIT (sb_scanId begin) None;
    finish ← rpc (λ now, handleScanFinish now (scan_finish_json (sb_scanId begin)));
    if negb (String.eqb (sf_epoch finish) datasetEpoch) then
      throw (SyncEngineError "backend dataset epoch changed during scan" "epoch-mismatch" false)
    else
      caughtUp ← catchUpStagedState (int_to_string (sb_resumeCursor begin)) (int_to_string (sf_nextCursor finish));
      if (caughtUp : bool) then mret (sf_watermarkEnd finish)
      else throw (SyncEngineError "scan catch-up did not reach its finish watermark" "malformed" true).
End Client.
