(* ===== verification/SyncCycle.v ===== *)
(** * Desktop app: a whole rebuild among other devices' calls

    What a scan stages against the history that goes on growing, and what the catch-up makes
    of it. *)

From stdpp Require Import base list strings gmap relations sorting.
From Stdlib Require Import ZArith Ascii Lia.
From S2P Require Import Prelude Transactions JsString JsValue SyncWire SyncTables SyncLog SyncHistory SyncPush SyncGrowth SyncCalls SyncPull SyncReceipts SyncScan SyncClient.

(** ** The staged rebuild converges

    What a device has staged while it scans, against the history that other devices go on
    extending: every entity it has passed is staged as of some moment since the scan began,
    and replaying the journal moves that moment forward for all entities to the watermark
    the scan finished at. *)

(** ** Reading what the server sent *)

Lemma wire_string_named s : s ≠ "" → (slen s =? 0) = false.
Proof. intros Hs. apply Z.eqb_neq. destruct s; [done|]. unfold slen. cbn [String.length]. lia. Qed.

Lemma toSyncedChange_json c : named (sy_entity c) → toSyncedChange (synced_json c) = Some c.
Proof.
  intros [Ht Hi]. destruct c as [[t i] r o v n p]. cbn in Ht, Hi. unfold toSyncedChange, synced_json. cbn [sy_entity fst snd
    sy_revision sy_operation sy_schemaVersion sy_sequence sy_payload].
  match goal with |- context [prop "payload" (Some ?j)] => assert (prop "payload" (Some j) = p) as Hp by (by destruct p);
    set (obj := j) in * end.
  change (prop "entityType" (Some obj)) with (Some (JStr t)). change (prop "entityId" (Some obj)) with (Some (JStr i)).
  change (prop "revision" (Some obj)) with (Some (JNum (int r))).
  change (prop "schemaVersion" (Some obj)) with (Some (JNum (int v))).
  change (prop "sequence" (Some obj)) with (Some (JNum (int n))).
  change (prop "operation" (Some obj)) with (Some (JStr (operation_text o))).
  unfold integer_of. rewrite !num_to_Z_int. assert (isSyncOperation (Some (JStr (operation_text o))) = Some o) as -> by by destruct o.
  rewrite !wire_string_named by done. cbn [orb]. by rewrite Hp.
Qed.

Section Client.
Context (backendId accountId datasetEpoch : string) (pageBytes : Z).
Context (accountKeyFor : nat → Z → option string).
Context (gcmOpen : string → string → string → string → option string) (JSON_parse : string → option json).
Notation staged_row := (staged_row backendId accountId accountKeyFor gcmOpen JSON_parse).
Notation stagedEntitiesForWire := (stagedEntitiesForWire backendId accountId accountKeyFor gcmOpen JSON_parse).
Notation stagePulledChange := (stagePulledChange backendId accountId accountKeyFor gcmOpen JSON_parse).

(** The row an entry is staged as, with the keys of a time. *)
Definition row_at (tick : nat) (e : ScannedEntity) : StagedRow :=
  staged_row tick (se_entity e) (se_operation e) (se_revision e) (se_schemaVersion e) (se_payload e).

Lemma row_at_revision tick e : sr_revision (row_at tick e) = se_revision e.
Proof.
  unfold row_at, SyncClient.staged_row. destruct (bool_decide _); [done|]. destruct (isCryptoBoundaryEntityType _); [done|].
  by destruct (wirePayloadToDomain _ _ _ _ _ _ _ _).
Qed.

Lemma staged_wire tick l : Forall (λ e, named (se_entity e)) l →
  stagedEntitiesForWire tick (map scanned_json l) = map (λ e, (se_entity e, row_at tick e)) l.
Proof.
  induction 1 as [|e l [Ht Hi] Hl IH]; [done|]. cbn [map]. unfold SyncClient.stagedEntitiesForWire in *. cbn [omap list_omap].
  rewrite IH. destruct e as [[t i] r o v p]. cbn in Ht, Hi.
  match goal with |- context [prop "payload" (Some ?j)] => assert (prop "payload" (Some j) = p) as Hp by (by destruct p);
    set (obj := j) in * end.
  change (prop "entityType" (Some obj)) with (Some (JStr t)). change (prop "entityId" (Some obj)) with (Some (JStr i)).
  change (prop "revision" (Some obj)) with (Some (JNum (int r))).
  change (prop "schemaVersion" (Some obj)) with (Some (JNum (int v))).
  change (prop "operation" (Some obj)) with (Some (JStr (operation_text o))).
  unfold integer_of. rewrite !num_to_Z_int. assert (isSyncOperation (Some (JStr (operation_text o))) = Some o) as -> by by destruct o.
  rewrite !wire_string_named by done. cbn [orb]. by rewrite Hp.
Qed.

(** ** Staged rows against histories *)

(** A staged row is that of the head, opened at some time; no row stands for no head. *)
Definition staged_as (o : option StagedRow) (h : option (Z * ScannedEntity)) : Prop :=
  match o, h with
  | None, None => True
  | Some row, Some (_, e) => ∃ tick, row = row_at tick e
  | _, _ => False
  end.

(** The entity is staged as of some moment between two cursors. *)
Definition staged_between (from to : Z) (H : History) (G : gmap EntityKey StagedRow) (k : EntityKey) : Prop :=
  ∃ j, from ≤ j ≤ to ∧ staged_as (G !! k) (heads (upto j H) !! k).

Lemma staged_between_grow from to to' H H' G k : to ≤ to' → to ≤ len H →
  staged_between from to H G k → staged_between from to' (H ++ H') G k.
Proof. intros Ht Hl (j & Hj & Hs). exists j. split; [lia|]. by rewrite upto_app by lia. Qed.

(** Replaying the next change moves every entity's moment past it. *)
Lemma replay_step w H G c e tick : wf_history H → 0 ≤ c → c < w ≤ len H → entry_at H (c + 1) = Some e →
  (∀ k, staged_between c w H G k) →
  ∀ k, staged_between (c + 1) w H (stage_row (se_entity e) (row_at tick e) G) k.
Proof.
  intros Hw Hc Hr He Hall k. pose proof (upto_succ c H e Hc He) as Hup.
  assert (wf_history (upto (c + 1) H)) as Hw1 by by apply wf_upto.
  assert (heads (upto (c + 1) H) = <[se_entity e := (c + 1, e)]> (heads (upto c H))) as Hheads.
  { rewrite Hup, heads_snoc, len_upto by lia. done. }
  destruct (Hall k) as (j & Hj & Hs). destruct (decide (j = c)) as [->|Hjc].
  - exists (c + 1). split; [lia|]. rewrite Hheads. unfold stage_row. destruct (decide (se_entity e = k)) as [<-|Hk].
    + rewrite lookup_insert_eq. rewrite Hup in Hw1. apply wf_snoc_inv in Hw1 as [_ (Hrev & _)]. unfold next_revision in Hrev.
      destruct (G !! se_entity e) as [old|] eqn:Hg.
      * destruct (heads (upto c H) !! se_entity e) as [[n e0]|] eqn:Hh; [|done]. destruct Hs as [tick0 ->].
        rewrite !row_at_revision. destruct (Z.ltb_spec (se_revision e0) (se_revision e)); [|lia].
        rewrite lookup_insert_eq. by exists tick.
      * rewrite lookup_insert_eq. by exists tick.
    + rewrite lookup_insert_ne by done. destruct (G !! se_entity e) as [old|]; [destruct (_ <? _)|];
        rewrite ?lookup_insert_ne by done; done.
  - exists j. split; [lia|]. unfold stage_row. destruct (decide (se_entity e = k)) as [<-|Hk].
    + assert (heads (upto (c + 1) H) !! se_entity e = Some (c + 1, e)) as Hh1 by by rewrite Hheads, lookup_insert_eq.
      assert (upto j H = upto (c + 1) H ++ drop (Z.to_nat (c + 1)) (upto j H)) as Hsplit.
      { rewrite <- (take_drop (Z.to_nat (c + 1)) (upto j H)) at 1. f_equal. unfold upto. rewrite take_take. f_equal. lia. }
      assert (wf_history (upto j H)) as Hwj by by apply wf_upto. rewrite Hsplit in Hwj.
      destruct (heads_mono _ _ _ _ _ Hwj Hh1) as (n2 & e2 & Hh2 & _ & Hcase). rewrite <- Hsplit in Hh2. rewrite Hh2 in *.
      destruct (G !! se_entity e) as [old|] eqn:Hg; [|done]. destruct Hs as [tick0 ->]. rewrite !row_at_revision.
      assert ((se_revision e2 <? se_revision e) = false) as ->.
      { apply Z.ltb_ge. destruct Hcase as [[= -> ->]|[_ Hlt]]; lia. }
      rewrite Hg. by exists tick0.
    + destruct (G !! se_entity e) as [old|]; [destruct (_ <? _)|]; rewrite ?lookup_insert_ne by done; done.
Qed.

(** Staging rows of entities that are not staged yet. *)
Lemma stage_rows_lookup (l : list (EntityKey * StagedRow)) G k : NoDup (fst <$> l) →
  (∀ k', k' ∈ (fst <$> l) → G !! k' = None) →
  ((k ∉ (fst <$> l)) ∧ foldl (λ m e, stage_row e.1 e.2 m) G l !! k = G !! k) ∨
  (∃ row, (k, row) ∈ l ∧ foldl (λ m e, stage_row e.1 e.2 m) G l !! k = Some row).
Proof.
  revert G. induction l as [|[k0 row0] l IH]; intros G Hn Hnone; cbn [foldl].
  - left. split; [apply not_elem_of_nil|done].
  - cbn in Hn. apply NoDup_cons in Hn as [Hx Hn]. cbn [fst snd].
    assert (stage_row k0 row0 G = <[k0 := row0]> G) as ->.
    { unfold stage_row. rewrite Hnone; [done|]. by left. }
    destruct (IH (<[k0 := row0]> G) Hn) as [[Hk Heq]|(row & Hin & Heq)].
    + intros k' Hk'. rewrite lookup_insert_ne by (intros ->; done). apply Hnone. by right.
    + rewrite Heq. destruct (decide (k0 = k)) as [->|Hne].
      * right. exists row0. split; [by left|]. by rewrite lookup_insert_eq.
      * left. rewrite lookup_insert_ne by done. split; [|done]. by apply not_elem_of_cons.
    + right. exists row. split; [by right|done].
Qed.
End Client.

(** ** The session of a scan *)

Definition cursor_text (after : option EntityKey) : option string := (λ k, encodeEntityCursor k.1 k.2) <$> after.

(** The session of an unfinished scan, if it is still there. *)
Definition scan_open (id : string) (from : Z) (after : option EntityKey) (s : SyncDb) : Prop :=
  ∀ row, sd_scans s !! id = Some row →
    sc_watermark_start row = from ∧ sc_done row = false ∧ sc_entity_cursor row = cursor_text after ∧
    sc_watermark_end row = None ∧ (sc_page_request_cursor row = cursor_text after → sc_page_result row = None).

Definition scan_paged (id : string) (s : SyncDb) : Prop :=
  ∀ row, sd_scans s !! id = Some row → sc_watermark_end row = None.

Lemma scan_open_kept id from after s s' : scan_kept id s s' → scan_open id from after s → scan_open id from after s'.
Proof. intros [Hk|Hk] Ho row Hr; rewrite Hk in Hr; [by apply Ho|done]. Qed.

Lemma scan_paged_kept id s s' : scan_kept id s s' → scan_paged id s → scan_paged id s'.
Proof. intros [Hk|Hk] Ho row Hr; rewrite Hk in Hr; [by apply Ho|done]. Qed.

Lemma cursor_text_inj a b : (∀ k, a = Some k → named k) → (∀ k, b = Some k → named k) →
  cursor_text a = cursor_text b → a = b.
Proof.
  intros Ha Hb. destruct a as [[t i]|], b as [[t' i']|]; try done. intros Heq%(inj Some).
  change (encodeEntityCursor t i = encodeEntityCursor t' i') in Heq.
  destruct (Ha _ eq_refl) as [H1 H2], (Hb _ eq_refl) as [H3 H4]. cbn in H1, H2, H3, H4.
  pose proof (decode_encode t i H1 H2) as D. rewrite Heq, (decode_encode t' i' H3 H4) in D. injection D as -> ->. done.
Qed.

(** ** A page of a scan *)

Lemma parse_scan_page pageBytes id after p :
  parseScanPageParams (scan_page_json pageBytes id (cursor_text after)) = Ok p →
  sp_scanId p = id ∧ sp_cursor p = cursor_text after.
Proof.
  intros H. unfold parseScanPageParams in H. apply outcome_bind_Ok in H as (u & _ & H).
  apply outcome_bind_Ok in H as (i & [Hi _]%nonempty_string_Ok & H). apply outcome_bind_Ok in H as (c & Hc & H).
  apply outcome_bind_Ok in H as (b & _ & H). injection H as <-. cbn [sp_scanId sp_cursor].
  change (prop "scanId" _) with (Some (JStr id)) in Hi. injection Hi as <-. split; [done|].
  change (prop "cursor" _) with (Some (json_cursor (cursor_text after))) in Hc. destruct (cursor_text after) as [c'|]; cbn in Hc.
  - destruct (slen c' =? 0); [done|]. by injection Hc as <-.
  - by injection Hc as <-.
Qed.

Lemma decode_cursor_text after : (∀ k, after = Some k → named k) → decode_after (cursor_text after) = Ok after.
Proof.
  intros Hn. destruct after as [[t i]|]; [|done]. destruct (Hn _ eq_refl) as [H1 H2].
  change (decode_after (cursor_text (Some (t, i)))) with (k ← decodeEntityCursor (encodeEntityCursor t i); Ok (Some k)).
  by rewrite (decode_encode t i H1 H2).
Qed.

(** The rows a page holds, with those it leaves, of a scan that goes on from a key. *)
Lemma page_rows now pageBytes id from after s page s' :
  (∀ k, after = Some k → named k) → scan_open id from after s →
  (∀ k r, sd_entities s !! k = Some r → named k) →
  handleScanPage now (scan_page_json pageBytes id (cursor_text after)) s = (Ok page, s') →
  ∃ here rest, entity_rows_after after (sd_entities s) = here ++ rest ∧ pg_entities page = map scanned here ∧
    if pg_done page then rest = [] ∧ scan_paged id s'
    else rest ≠ [] ∧ ∃ l, last here = Some l ∧ named l.1 ∧ pg_nextCursor page = cursor_text (Some l.1) ∧ scan_open id from (Some l.1) s'.
Proof.
  intros Hafter Hopen Hnamed Hrun. unfold handleScanPage in Hrun.
  step_back Hrun p s0 Hp. injection Hp as Hp <-. apply parse_scan_page in Hp as [Hid Hcur]. apply commit_Ok in Hrun.
  rewrite Hid, Hcur in Hrun. unfold pageScan in Hrun.
  step_back Hrun row s0 Hl. unfold loadScan in Hl. destruct (sd_scans s !! id) as [row'|] eqn:Erow; [|done].
  destruct (_ <? _); [done|]. injection Hl as -> <-. destruct (Hopen _ Erow) as (Hstart & Hdone & Hent & Hend & Hreq).
  step_back Hrun u s0 Ha. pose proof (read_Ok _ _ _ _ (quiet_assert row) Ha) as ->.
  assert ((if bool_decide (sc_page_request_cursor row = cursor_text after) then sc_page_result row else None) = None) as Hstored.
  { case_bool_decide; [by apply Hreq|done]. }
  rewrite Hstored in Hrun. step_back Hrun u1 s0 Hb. apply ensure_Ok in Hb as [_ ->]. rewrite Hdone in Hrun.
  step_back Hrun after' s0 Hd. injection Hd as Hd <-. rewrite decode_cursor_text in Hd by done. injection Hd as <-.
  step_back Hrun entities s0 He. injection He as <- <-. cbv zeta in Hrun.
  set (rows := entity_rows_after after (sd_entities s)) in *.
  destruct (take_page scanned_json _ (map scanned rows) [] 0) as [ents cut] eqn:Etake.
  destruct (take_page_rows _ _ _ _ _ Etake) as (restE & Hsplit & Hne & Hrem).
  apply map_eq_app in Hsplit as (here & rest & Hrows & <- & <-).
  exists here, rest. split; [done|].
  set (remaining := cut || _) in *. clearbody remaining. step_back Hrun u2 s0 Hu. injection Hu as _ <-. injection Hrun as <- <-.
  cbn [pg_entities pg_done pg_nextCursor]. split; [done|]. destruct remaining eqn:Er; cbn [negb].
  - assert (rest ≠ []) as Hrest by (intros ->; by apply (proj1 Hrem)).
    assert (here ≠ []) as Hhere.
    { intros ->. apply Hne; [|done]. intros Hx. rewrite Hrows in Hx. by destruct rest. }
    destruct (last here) as [l|] eqn:El; [|by apply last_None in El].
    assert (named l.1) as Hln.
    { apply last_Some_elem_of in El. assert ((l.1, l.2) ∈ rows) as [Hl _]%rows_after_elem.
      { rewrite Hrows. apply elem_of_app. left. by destruct l. }
      by eapply Hnamed. }
    split; [done|]. exists l. split; [done|]. split; [done|].
    assert (page_cursor se_entity (map scanned here) (sc_entity_cursor row) = cursor_text (Some l.1)) as Hpc.
    { unfold page_cursor. rewrite (fmap_last scanned here : last (map scanned here) = _), El. done. }
    rewrite Hpc. split; [done|]. intros row' Hr'. cbn in Hr'. rewrite lookup_alter_eq, Erow in Hr'. injection Hr' as <-. cbn.
    split_and!; try done. intros Heq. exfalso. apply (cursor_text_inj after (Some l.1)) in Heq; [|done|by intros k [= <-]].
    subst after. apply last_Some_elem_of in El. assert ((l.1, l.2) ∈ rows) as [_ Hl]%rows_after_elem.
    { rewrite Hrows. apply elem_of_app. left. by destruct l. }
    cbn in Hl. by rewrite ekey_after_leb, ekey_refl in Hl.
  - split. { destruct rest; [done|]. assert (false = true) by (by apply Hrem). done. }
    intros row' Hr'. cbn in Hr'. rewrite lookup_alter_eq, Erow in Hr'. by injection Hr' as <-.
Qed.

(** ** The device's world *)

Section World.
Context (backendId accountId datasetEpoch : string) (pageBytes : Z).
Context (accountKeyFor : nat → Z → option string).
Context (gcmOpen : string → string → string → string → option string) (JSON_parse : string → option json).
Context (sha256Hex : string → string) (date_parse : string → option Z) (hosted : bool).
Context (others : nat → list SyncCall) (clock : nat → Z) (uuid : string).
Context (Hothers : ∀ n, Forall (λ c, ¬ names uuid c) (others n)).

Notation staged_as := (staged_as backendId accountId accountKeyFor gcmOpen JSON_parse).
Notation staged_between := (staged_between backendId accountId accountKeyFor gcmOpen JSON_parse).
Notation row_at := (row_at backendId accountId accountKeyFor gcmOpen JSON_parse).
Notation before := (before sha256Hex date_parse hosted others).
Notation rpc := (rpc sha256Hex date_parse hosted others clock).
Notation scan_pages := (scan_pages backendId accountId pageBytes accountKeyFor gcmOpen JSON_parse sha256Hex date_parse hosted others clock).
Notation stage_changes := (stage_changes backendId accountId accountKeyFor gcmOpen JSON_parse).
Notation catch_up_pages := (catch_up_pages backendId accountId pageBytes accountKeyFor gcmOpen JSON_parse sha256Hex date_parse hosted others clock).
Notation scanCycle := (scanCycle backendId accountId datasetEpoch pageBytes accountKeyFor gcmOpen JSON_parse sha256Hex date_parse hosted others clock uuid).

Definition rows_of (w : World) : gmap EntityKey StagedRow := sg_rows (wd_staging w).

Lemma rpc_Ok {A} (call : Z → T A) w a w' : rpc call w = (Ok a, w') →
  ∃ s', call (clock (wd_tick w)) (before w) = (Ok a, s') ∧
    w' = {| wd_db := s'; wd_staging := wd_staging w; wd_tick := S (wd_tick w) |}.
Proof. unfold SyncClient.rpc. destruct (call _ _) as [r s']. intros [= -> <-]. by exists s'. Qed.

Lemma before_grows H w : represents H (wd_db w) → ∃ H', represents (H ++ H') (before w).
Proof. intros Hs. by apply (proj1 (calls_evolve sha256Hex date_parse hosted (others (wd_tick w)) (wd_db w))). Qed.

Lemma before_kept w : scan_kept uuid (wd_db w) (before w).
Proof. by apply calls_kept. Qed.

Lemma represents_named H s k r : represents H s → sd_entities s !! k = Some r → named k.
Proof.
  intros Hs Hr. apply (represents_entity _ _ _ _ Hs), heads_entry in Hr as [He Hk]. rewrite <- Hk. eapply wf_named; [apply Hs|done].
Qed.

(** ** Scanning *)

(** Entities up to the cursor are staged, those after it are not. *)
Record scanning (from : Z) (after : option EntityKey) (H : History) (w : World) : Prop := {
  sn_history : represents H (wd_db w);
  sn_from : 0 ≤ from ≤ len H;
  sn_open : scan_open uuid from after (wd_db w);
  sn_after : ∀ k, after = Some k → named k;
  sn_passed : ∀ k, key_after after k = false → staged_between from (len H) H (rows_of w) k;
  sn_ahead : ∀ k, key_after after k = true → rows_of w !! k = None;
}.

Record scanned_all (from : Z) (H : History) (w : World) : Prop := {
  sa_history : represents H (wd_db w);
  sa_from : 0 ≤ from ≤ len H;
  sa_paged : scan_paged uuid (wd_db w);
  sa_all : ∀ k, staged_between from (len H) H (rows_of w) k;
}.

(** Staging the rows of a page that a key of the history's heads is on, or is not. *)
Lemma stage_page H s after here rest G tick from k : represents H s → 0 ≤ from ≤ len H →
  entity_rows_after after (sd_entities s) = here ++ rest →
  (∀ k', key_after after k' = true → G !! k' = None) →
  (k ∈ (fst <$> here) ∨ (key_after after k = true ∧ k ∉ (fst <$> rest))) →
  staged_between from (len H) H
    (foldl (λ m e, stage_row e.1 e.2 m) G (map (λ e, (se_entity e, row_at tick e)) (map scanned here))) k.
Proof.
  intros Hs Hf Hrows Hnone Hk. pose proof (rows_after_NoDup after (sd_entities s)) as Hnd. rewrite Hrows in Hnd.
  rewrite map_map. set (l := map _ here).
  assert (fst <$> l = fst <$> here) as Hfst by (unfold l; rewrite <- list_fmap_compose; done).
  assert (∀ k' r, (k', r) ∈ here ++ rest → sd_entities s !! k' = Some r ∧ key_after after k' = true) as Hin.
  { intros k' r Hr. rewrite <- Hrows in Hr. by apply rows_after_elem. }
  assert (heads (upto (len H) H) !! k = (λ r, (er_sequence r, scanned (k, r))) <$> sd_entities s !! k) as Hheads.
  { rewrite upto_len. apply Hs. }
  exists (len H). split; [lia|]. rewrite Hheads.
  destruct (stage_rows_lookup l G k) as [[Hnot ->]|(row & Hrow & ->)].
  - rewrite Hfst. by apply NoDup_fmap_app_l in Hnd || (rewrite fmap_app in Hnd; by apply NoDup_app in Hnd as [? _]).
  - intros k'. rewrite Hfst. intros ([k2 r] & -> & Hr)%list_elem_of_fmap. apply Hnone. eapply (Hin k2 r), elem_of_app. by left.
  - rewrite Hfst in Hnot. destruct Hk as [?|[Hafter Hrest]]; [done|]. rewrite Hnone by done.
    destruct (sd_entities s !! k) as [r|] eqn:Er; [|done]. exfalso.
    assert ((k, r) ∈ here ++ rest) as [Hx|Hx]%elem_of_app by (rewrite <- Hrows; by apply rows_after_elem).
    + apply Hnot. by apply (list_elem_of_fmap_2 fst _ (k, r)).
    + apply Hrest. by apply (list_elem_of_fmap_2 fst _ (k, r)).
  - unfold l in Hrow. apply list_elem_of_fmap in Hrow as ([k2 r] & [= -> ->] & Hr).
    destruct (Hin k2 r) as [-> _]; [apply elem_of_app; by left|]. cbn. by exists tick.
Qed.

Lemma stage_page_other here G tick k : k ∉ (fst <$> here) → NoDup (fst <$> here) →
  (∀ k', k' ∈ (fst <$> here) → G !! k' = None) →
  foldl (λ m e, stage_row e.1 e.2 m) G (map (λ e, (se_entity e, row_at tick e)) (map scanned here)) !! k = G !! k.
Proof.
  intros Hk Hnd Hnone. rewrite map_map. set (l := map _ here).
  assert (fst <$> l = fst <$> here) as Hfst by (unfold l; rewrite <- list_fmap_compose; done).
  destruct (stage_rows_lookup l G k) as [[_ ->]|(row & Hrow & _)]; [by rewrite Hfst|by rewrite Hfst|done|].
  destruct Hk. rewrite <- Hfst. by apply (list_elem_of_fmap_2 fst _ (k, row)).
Qed.
Lemma scan_page_step from after H w page s' : scanning from after H w →
  handleScanPage (clock (wd_tick w)) (scan_page_json pageBytes uuid (cursor_text after)) (before w) = (Ok page, s') →
  let w' := {| wd_db := s';
    wd_staging := stageScanEntities (stagedEntitiesForWire backendId accountId accountKeyFor gcmOpen JSON_parse (S (wd_tick w))
      (map scanned_json (pg_entities page))) (wd_staging w); wd_tick := S (wd_tick w) |} in
  if pg_done page then ∃ H', scanned_all from H' w'
  else ∃ H' l, pg_nextCursor page = cursor_text (Some l) ∧ scanning from (Some l) H' w'.
Proof.
  intros [Hs Hf Hopen Hafter Hpassed Hahead] Hrun w'. destruct (before_grows H w Hs) as [Hx Hs1]. set (H1 := H ++ Hx) in *.
  assert (len H ≤ len H1) as Hlen by (unfold H1, len; rewrite length_app; lia).
  assert (∀ k r, sd_entities (before w) !! k = Some r → named k) as Hnamed by (intros; by eapply represents_named).
  destruct (page_rows _ _ _ _ _ _ _ _ Hafter (scan_open_kept _ _ _ _ _ (before_kept w) Hopen) Hnamed Hrun)
    as (here & rest & Hrows & Hents & Hdone).
  assert (represents H1 s') as Hs2.
  { pose proof (scan_page_quiet (clock (wd_tick w)) (scan_page_json pageBytes uuid (cursor_text after)) (before w)) as [Hq _].
    rewrite Hrun in Hq. by eapply same_journal_represents. }
  pose proof (rows_after_NoDup after (sd_entities (before w))) as Hnd. rewrite Hrows in Hnd.
  pose proof (rows_after_sorted after (sd_entities (before w))) as Hsort. rewrite Hrows in Hsort.
  assert (∀ k r, (k, r) ∈ here ++ rest → sd_entities (before w) !! k = Some r ∧ key_after after k = true) as Hin.
  { intros k r Hr. rewrite <- Hrows in Hr. by apply rows_after_elem. }
  assert (∀ k, k ∈ (fst <$> here) → key_after after k = true) as Hfirst.
  { intros k ([k2 r] & -> & Hr)%list_elem_of_fmap. eapply (Hin k2 r), elem_of_app. by left. }
  assert (NoDup (fst <$> here)) as Hnd1 by (rewrite fmap_app in Hnd; by apply NoDup_app in Hnd as [? _]).
  assert (rows_of w' = foldl (λ m e, stage_row e.1 e.2 m) (rows_of w)
    (map (λ e, (se_entity e, row_at (S (wd_tick w)) e)) (map scanned here))) as Hrows'.
  { unfold rows_of, w'. cbn [wd_staging sg_rows stageScanEntities]. rewrite Hents, staged_wire; [done|].
    apply Forall_map, Forall_forall. intros [k r] Hr. eapply (Hnamed k r), Hin, elem_of_app. by left. }
  assert (∀ k, k ∈ (fst <$> here) ∨ (key_after after k = true ∧ k ∉ (fst <$> rest)) →
    staged_between from (len H1) H1 (rows_of w') k) as Hnew.
  { intros k Hk. rewrite Hrows'. eapply stage_page; [exact Hs1|lia|exact Hrows|exact Hahead|exact Hk]. }
  assert (∀ k, key_after after k = false → staged_between from (len H1) H1 (rows_of w') k) as Hold.
  { intros k Hk. destruct (Hpassed k Hk) as (j & Hj & Has). exists j. split; [lia|]. unfold H1. rewrite upto_app by lia.
    rewrite Hrows', stage_page_other; [done| |done|by intros; apply Hahead, Hfirst].
    intros Hx1%Hfirst. congruence. }
  destruct (pg_done page).
  - destruct Hdone as [-> Hpaged]. exists H1. split; [done|lia|done|]. intros k.
    destruct (key_after after k) eqn:Ek; [|by apply Hold]. apply Hnew. right. split; [done|apply not_elem_of_nil].
  - destruct Hdone as (_ & l & Hl & Hln & Hnext & Hopen'). exists H1, l.1. split; [done|].
    destruct (page_boundary here rest l Hsort Hnd Hl) as [Hle Hgt].
    assert (key_after after l.1 = true) as Hal by (apply Hfirst, list_elem_of_fmap_2; by apply last_Some_elem_of).
    assert (∀ k, key_after (Some l.1) k = true → key_after after k = true) as Htrans.
    { intros k. cbn. destruct after as [c|]; [|done]. cbn in *. rewrite !ekey_after_leb in *. intros Hk.
      apply negb_true_iff in Hk, Hal. apply negb_true_iff. destruct (ekey_leb k c) eqn:Ekc; [|done].
      pose proof (ekey_total _ _ Hal) as Hcl. rewrite (ekey_trans _ _ _ Ekc Hcl) in Hk. done. }
    split; [done|lia|done|by intros k [= <-]| |].
    + intros k Hk. destruct (key_after after k) eqn:Ek; [|by apply Hold]. apply Hnew. right. split; [done|].
      intros (r & -> & Hr)%list_elem_of_fmap. cbn in Hk. rewrite Hgt in Hk; done.
    + intros k Hk. rewrite Hrows', stage_page_other; [by apply Hahead, Htrans| |done|by intros; apply Hahead, Hfirst].
      intros (r & -> & Hr)%list_elem_of_fmap. cbn in Hk. by rewrite Hle in Hk.
Qed.

Lemma scan_pages_all pages from after H w w' : pages ≠ 0%nat → scanning from after H w →
  scan_pages pages uuid (cursor_text after) w = (Ok tt, w') → ∃ H', scanned_all from H' w'.
Proof.
  revert after H w. induction pages as [|rest IH]; intros after H w Hp Hscan Hrun; [done|]. cbn [SyncClient.scan_pages] in Hrun.
  step_back Hrun page w1 Hpage. apply rpc_Ok in Hpage as (s' & Hpage & ->).
  step_back Hrun tick w2 Hg. injection Hg as <- <-. step_back Hrun u w2 Hst. injection Hst as _ <-.
  cbn [wd_tick wd_staging wd_db] in Hrun. pose proof (scan_page_step _ _ _ _ _ _ Hscan Hpage) as Hstep. cbv zeta in Hstep.
  destruct (pg_done page).
  - injection Hrun as <-. done.
  - destruct Hstep as (H' & l & Hnext & Hscan'). rewrite Hnext in Hrun. change (cursor_text (Some l)) with (Some (encodeEntityCursor l.1 l.2)) in Hrun.
    cbv beta iota in Hrun. destruct (Nat.eqb_spec rest 0) as [|Hrest]; [done|]. by eapply (IH (Some l)).
Qed.
(** ** Replaying the journal *)

Record caught (c finish : Z) (H : History) (w : World) : Prop := {
  ct_history : represents H (wd_db w);
  ct_range : 0 ≤ c ≤ finish ∧ finish ≤ len H;
  ct_all : ∀ k, staged_between c finish H (rows_of w) k;
}.

Lemma changes_from_step H c : 0 ≤ c →
  changes_from H c = match entry_at H (c + 1) with Some e => synced_entry (c + 1, e) :: changes_from H (c + 1) | None => [] end.
Proof.
  intros Hc. pose proof (changes_from_lookup H c 0 Hc) as H0. rewrite Z.add_0_r in H0.
  destruct (entry_at H (c + 1)) as [e|] eqn:He; cbn in H0.
  - apply list_eq. intros [|i]; [by rewrite H0|]. cbn. rewrite !changes_from_lookup by lia.
    by replace (c + Z.of_nat (S i) + 1) with (c + 1 + Z.of_nat i + 1) by lia.
  - destruct (changes_from H c) as [|x l]; [done|]. done.
Qed.

(** Consecutive changes from a cursor on are staged up to the finish. *)
Lemma stage_changes_caught n c finish H w past w' : caught c finish H w →
  stage_changes finish (map synced_json (take n (changes_from H c))) w = (Ok past, w') →
  ∃ c', caught c' finish H w' ∧ if (past : bool) then c' = finish else c' = c + Z.of_nat (length (take n (changes_from H c))).
Proof.
  revert c w. induction n as [|n IH]; intros c w Hc Hrun; cbn [take firstn map SyncClient.stage_changes length] in *.
  - injection Hrun as <- <-. exists c. split; [done|]. change (take 0 (changes_from H c)) with (@nil SyncedChange). cbn. lia.
  - destruct (ct_range _ _ _ _ Hc) as [Hr Hl]. rewrite changes_from_step in Hrun |- * by lia.
    destruct (entry_at H (c + 1)) as [e|] eqn:He; cbn [take firstn map SyncClient.stage_changes length] in *; last first.
    { injection Hrun as <- <-. exists c. split; [done|lia]. }
    assert (named (se_entity e)) as Hn by (eapply wf_named; [apply (ct_history _ _ _ _ Hc)|done]).
    rewrite toSyncedChange_json in Hrun by done. cbn [sy_sequence synced_entry fst] in Hrun.
    destruct (Z.ltb_spec finish (c + 1)) as [Hlt|Hge].
    { injection Hrun as <- <-. exists finish. split; [|done]. assert (c = finish) as <- by lia. done. }
    step_back Hrun tick w1 Hg. injection Hg as <- <-. step_back Hrun u w1 Hst. injection Hst as _ <-.
    edestruct (IH (c + 1)) as (c' & Hc' & Hpast); [|exact Hrun|].
    + split; [apply Hc|lia|].
      assert (0 ≤ c < finish) by lia. intros k. cbn [wd_staging rows_of].
      apply (replay_step backendId accountId accountKeyFor gcmOpen JSON_parse finish H (rows_of w) c e (wd_tick w)
        (rp_wf _ _ (ct_history _ _ _ _ Hc)) ltac:(lia) ltac:(lia) He (ct_all _ _ _ _ Hc) k).
    + exists c'. split; [done|]. destruct past; [done|]. lia.
Qed.

Lemma syncCursorNumber_text z n : 0 ≤ z → syncCursorNumber (int_to_string z) = Some n → n = z.
Proof.
  intros Hz. unfold syncCursorNumber. destruct (match chars _ with [] => _ | _ :: _ => _ end); [|done].
  rewrite string_to_num_pretty by done. unfold safe_integer. rewrite num_to_Z_int. destruct (safe_Z z); [|done]. by intros [= <-].
Qed.

Lemma parse_pull_text c pull : 0 ≤ c → parseSpikePullParams (catch_up_json pageBytes (int_to_string c)) = Ok pull → pl_cursor pull = c.
Proof.
  intros Hc H. unfold parseSpikePullParams in H. apply outcome_bind_Ok in H as (u & _ & H).
  apply outcome_bind_Ok in H as (z & Hz & H). apply outcome_bind_Ok in H as (b & _ & H).
  change (prop "maxChanges" _) with (@None json) in H. injection H as <-. cbn.
  change (prop "cursor" _) with (Some (JStr (int_to_string c))) in Hz. unfold parse_cursor in Hz.
  destruct (pretty_nat_reads c Hc) as (k & _ & Hr). destruct (slen (int_to_string c) =? 0) eqn:El.
  { exfalso. rewrite wire_string_named in El; [done|]. intros Hx. by rewrite Hx in Hr. }
  destruct (negb _); [done|]. rewrite string_to_num_pretty in Hz by done. unfold safe_integer in Hz. rewrite num_to_Z_int in Hz.
  destruct (safe_Z c); [|done]. by injection Hz as <-.
Qed.

Lemma caught_before c finish H w : caught c finish H w →
  ∃ H', caught c finish H' {| wd_db := before w; wd_staging := wd_staging w; wd_tick := S (wd_tick w) |}.
Proof.
  intros [Hs Hr Hall]. destruct (before_grows H w Hs) as [Hx Hs']. exists (H ++ Hx). split; [done| |].
  - unfold len. rewrite length_app. unfold len in Hr. lia.
  - intros k. apply (staged_between_grow _ _ _ _ _ c finish finish); [lia|lia|apply Hall].
Qed.

Lemma catch_up_caught pages c finish H w w' : caught c finish H w →
  catch_up_pages pages finish (int_to_string c) w = (Ok true, w') → ∃ H', caught finish finish H' w'.
Proof.
  revert c H w. induction pages as [|rest IH]; intros c H w Hc Hrun; [done|]. cbn [SyncClient.catch_up_pages] in Hrun.
  step_back Hrun answer w1 Hpull. apply rpc_Ok in Hpull as (s' & Hpull & ->).
  destruct (caught_before _ _ _ _ Hc) as [H1 Hc1]. destruct (ct_range _ _ _ _ Hc1) as [Hr Hl].
  pose proof (pull_answer H1 (before w) (catch_up_json pageBytes (int_to_string c)) (ct_history _ _ _ _ Hc1)) as Hans.
  rewrite Hpull in Hans. unfold pull_from in Hans. cbn [fst] in Hans.
  destruct (parseSpikePullParams _) as [pull|] eqn:Ep; [|done]. apply parse_pull_text in Ep; [|lia].
  destruct (_ <? _); [by destruct Hans as (e & ? & _)|]. injection Hans as ->.
  assert (represents H1 s') as Hs'.
  { pose proof (pull_quiet (catch_up_json pageBytes (int_to_string c)) (before w)) as [Hq _]. rewrite Hpull in Hq.
    by eapply same_journal_represents; [|apply Hc1]. }
  step_back Hrun past w2 Hst. cbn [pr_changes history_pull] in Hst. unfold history_page in Hst. rewrite page_of_take, Ep in Hst.
  set (page := page_of _ _ _ _ _) in Hst.
  edestruct stage_changes_caught as (c' & Hc' & Hpast); [|exact Hst|].
  { split; [exact Hs'|done|]. apply Hc1. }
  cbn [pr_nextCursor pr_hasMore history_pull] in Hrun. unfold history_page in Hrun. rewrite Ep in Hrun. fold page in Hrun.
  assert (take (length page) (changes_from H1 c) = page) as Htake by (symmetry; apply page_of_take).
  rewrite Htake in Hpast. destruct past; cbn [orb] in Hrun.
  - injection Hrun as <-. subst c'. by exists H1.
  - subst c'. destruct (ct_range _ _ _ _ Hc') as [Hr' _].
    destruct (match syncCursorNumber _ with Some n => _ | None => _ end) eqn:En.
    + injection Hrun as <-. destruct (syncCursorNumber _) as [n|] eqn:E; [|done]. apply syncCursorNumber_text in E; [|lia].
      apply Z.leb_le in En. assert (c + Z.of_nat (length page) = finish) as Heq by lia. rewrite Heq in Hc'. by exists H1.
    + destruct (negb _); [done|]. destruct (Nat.eqb rest 0); [done|]. by eapply (IH _ H1).
Qed.

(** ** The whole cycle *)

Lemma begin_scanning H w s' begin : represents H (before w) →
  handleScanBegin (clock (wd_tick w)) uuid (scan_begin_json datasetEpoch) (before w) = (Ok begin, s') →
  sb_scanId begin = uuid ∧ 0 ≤ sb_resumeCursor begin ∧ sb_watermarkStart begin = sb_resumeCursor begin ∧
  scanning (sb_resumeCursor begin) None H
    {| wd_db := s'; wd_staging := beginScanStaging (sb_scanId begin) (sb_watermarkStart begin) (wd_staging w); wd_tick := S (wd_tick w) |}.
Proof.
  intros Hs Hrun.
  assert (represents H s') as Hs'.
  { pose proof (scan_begin_quiet (clock (wd_tick w)) uuid (scan_begin_json datasetEpoch) (before w)) as [Hq _].
    rewrite Hrun in Hq. by eapply same_journal_represents. }
  unfold handleScanBegin in Hrun. step_back Hrun ep s0 Hp. injection Hp as _ <-. step_back Hrun u s0 Hb.
  assert (sd_meta s0 = sd_meta (before w) ∧ sd_scans s0 = sd_scans (before w)) as [Hm Hsc].
  { unfold bumpCounter in Hb. injection Hb as _ <-. done. }
  apply commit_Ok in Hrun. unfold beginScan in Hrun. step_back Hrun stored s1 Hg. injection Hg as _ <-.
  step_back Hrun u1 s1 He. assert (s1 = s0) as ->.
  { destruct ep as [e|]; [destruct (String.eqb _ _); [|done]|]; by injection He as _ <-. }
  step_back Hrun start s1 Hw. injection Hw as Hw <-. step_back Hrun fl s1 Hfl. injection Hfl as _ <-.
  step_back Hrun u2 s1 Hen. apply ensure_Ok in Hen as [_ ->]. step_back Hrun u3 s1 Hi. apply insert_row_Ok in Hi as [_ ->].
  injection Hrun as <- <-. cbn [sb_scanId sb_resumeCursor sb_watermarkStart].
  assert (start = len H) as ->.
  { rewrite <- Hw, Hm, (rp_next _ _ Hs). pose proof (len_nonneg H). destruct (Z.ltb_spec 1 (len H + 1)); lia. }
  pose proof (len_nonneg H). split_and!; [done|lia|done|]. split; [done|lia| |done|done|].
  - intros row Hr. cbn in Hr. rewrite lookup_insert_eq in Hr. injection Hr as <-. by split_and!.
  - intros k _. apply lookup_empty.
Qed.

Lemma finish_caught from H w s' finish : scanned_all from H w → 
  handleScanFinish (clock (wd_tick w)) (scan_finish_json uuid) (before w) = (Ok finish, s') →
  sf_nextCursor finish = sf_watermarkEnd finish ∧
  ∃ H', caught from (sf_watermarkEnd finish) H' {| wd_db := s'; wd_staging := wd_staging w; wd_tick := S (wd_tick w) |}.
Proof.
  intros [Hs Hf Hpaged Hall] Hrun. destruct (before_grows H w Hs) as [Hx Hs1].
  assert (represents (H ++ Hx) s') as Hs'.
  { pose proof (scan_finish_quiet (clock (wd_tick w)) (scan_finish_json uuid) (before w)) as [Hq _].
    rewrite Hrun in Hq. by eapply same_journal_represents. }
  unfold handleScanFinish in Hrun. step_back Hrun scanId s0 Hp. injection Hp as Hp <-. unfold parseScanFinishParams in Hp.
  apply outcome_bind_Ok in Hp as (u & _ & Hp). apply nonempty_string_Ok in Hp as [Hid _].
  change (prop "scanId" _) with (Some (JStr uuid)) in Hid. injection Hid as <-.
  apply commit_Ok in Hrun. unfold finishScan in Hrun. step_back Hrun row s0 Hl. unfold loadScan in Hl.
  destruct (sd_scans (before w) !! uuid) as [row'|] eqn:Erow; [|done]. destruct (_ <? _); [done|]. injection Hl as -> <-.
  pose proof (scan_paged_kept _ _ _ (before_kept w) Hpaged _ Erow) as Hend.
  step_back Hrun u1 s0 Ha. pose proof (read_Ok _ _ _ _ (quiet_assert row) Ha) as ->.
  step_back Hrun u2 s0 Hd. apply ensure_Ok in Hd as [_ ->]. rewrite Hend in Hrun.
  step_back Hrun wend s0 Hw. step_back Hw cur s1 Hc. injection Hc as Hc <-. step_back Hw u3 s1 Hu. injection Hw as <- <-.
  step_back Hrun ep s2 He. injection He as _ <-. injection Hrun as <- _. cbn [sf_nextCursor sf_watermarkEnd]. split; [done|].
  assert (cur = len (H ++ Hx)) as ->.
  { rewrite <- Hc, (rp_next _ _ Hs1). pose proof (len_nonneg (H ++ Hx)). destruct (Z.ltb_spec 1 (len (H ++ Hx) + 1)); lia. }
  assert (len H ≤ len (H ++ Hx)) as Hle by (unfold len; rewrite length_app; lia).
  exists (H ++ Hx). split; [done|lia|]. intros k. apply (staged_between_grow _ _ _ _ _ from (len H)); [lia|lia|apply Hall].
Qed.

(** What a returning cycle leaves. *)
Lemma scanCycle_caught H w finish w' : represents H (wd_db w) → scanCycle w = (Ok finish, w') →
  ∃ H', caught finish finish H' w'.
Proof.
  intros Hs Hrun. unfold SyncClient.scanCycle in Hrun. step_back Hrun begin w1 Hb. apply rpc_Ok in Hb as (s1 & Hb & ->).
  destruct (before_grows H w Hs) as [Hx Hs1]. destruct (begin_scanning _ _ _ _ Hs1 Hb) as (Hid & Hpos & Hstart & Hscan).
  destruct (negb _); [done|]. step_back Hrun u w1 Hst. injection Hst as _ <-. cbn [wd_db wd_staging wd_tick] in Hrun.
  rewrite Hid in Hrun, Hscan. step_back Hrun u1 w1 Hp. destruct u1.
  apply (scan_pages_all SCAN_PAGE_LIMIT _ None _ _ _ ltac:(done) Hscan) in Hp as [H1 Hall].
  step_back Hrun done_at w2 Hf. apply rpc_Ok in Hf as (s2 & Hf & ->). destruct (finish_caught _ _ _ _ _ Hall Hf) as [Hnext [H2 Hc]].
  destruct (negb _); [done|]. step_back Hrun ok w2 Hcu. destruct ok; [|done]. injection Hrun as <- <-.
  destruct (ct_range _ _ _ _ Hc) as [Hr _]. rewrite Hnext in Hcu. unfold catchUpStagedState in Hcu.
  destruct (syncCursorNumber (int_to_string (sf_watermarkEnd done_at))) as [z|] eqn:Ez; [|done]. apply syncCursorNumber_text in Ez; [|lia].
  subst z. destruct (syncCursorNumber _); [|done]. by eapply catch_up_caught.
Qed.
End World.
