(* ===== verification/SyncLive.v ===== *)
(** * Desktop app: a rebuild ends on a quiet account

    With nobody else writing, every request of the rebuild is answered and each page of the
    scan makes progress, so a device whose account has at most as many entities as the scan
    has pages always ends, with exactly the heads of the history. *)

From stdpp Require Import base list strings gmap relations sorting.
From Stdlib Require Import ZArith Ascii Lia.
From S2P Require Import Prelude Transactions JsString JsValue SyncWire SyncTables SyncLog SyncHistory SyncPush SyncGrowth SyncCalls SyncPull SyncReceipts SyncScan SyncClient SyncCycle.

(** ** Cursors as text *)

Lemma pretty_go_head x s : (0 < x)%N → ∃ c l, chars (pretty.pretty_N_go x s) = c :: l ∧ is_char 48 c = false.
Proof.
  revert s. induction (N.lt_wf_0 x) as [x _ IH]. intros s Hx. rewrite pretty.pretty_N_go_step by done.
  destruct (decide (0 < x `div` 10)%N) as [Hd|Hd].
  - apply IH; [by apply N.div_lt|done].
  - assert (x `div` 10 = 0)%N as Hz by (destruct (x `div` 10)%N; [done|by destruct Hd]). rewrite Hz, pretty.pretty_N_go_0. eexists _, _. split; [reflexivity|].
    assert (x < 10)%N as Hlt by (by apply N.div_small_iff in Hz).
    rewrite N.mod_small by done.
    assert (x = 1 ∨ x = 2 ∨ x = 3 ∨ x = 4 ∨ x = 5 ∨ x = 6 ∨ x = 7 ∨ x = 8 ∨ x = 9)%N as Hc by lia.
    by repeat destruct Hc as [->|Hc]; try subst.
Qed.

Lemma syncCursorNumber_int z : 0 ≤ z → safe_Z z = true → syncCursorNumber (int_to_string z) = Some z.
Proof.
  intros Hz Hs. destruct (pretty_nat_reads z Hz) as (k & Hd & Hr). unfold syncCursorNumber.
  assert (match chars (int_to_string z) with [] => false
    | c :: l => forallb is_digit (chars (int_to_string z)) && (negb (is_char 48 c) || Nat.eqb (length l) 0) end = true) as ->.
  { destruct (chars (int_to_string z)) as [|c l] eqn:E; [done|]. apply andb_true_iff. split.
    - apply forallb_forall. intros x Hx%list_elem_of_In. by eapply Forall_forall in Hd.
    - unfold int_to_string, pretty, pretty.pretty_Z in E. destruct z as [|p|p]; [|clear Hd|lia].
      + injection E as <- <-. done.
      + unfold pretty, pretty.pretty_N in E. destruct (decide (N.pos p = 0)%N); [done|].
        destruct (pretty_go_head (N.pos p) "" ltac:(lia)) as (c' & l' & E' & Hc).
        assert (c :: l = c' :: l') as Hcl by (rewrite <- E, <- E'; done). injection Hcl as -> ->.
        by rewrite Hc. }
  rewrite string_to_num_pretty by done. unfold safe_integer. by rewrite num_to_Z_int, Hs.
Qed.

(** ** A page is answered *)

(** The session of a scan that has not run out. *)
Record session (clock : nat → Z) (from : Z) (s : SyncDb) (row : ScanRow) : Prop := {
  ss_fresh : ∀ n, clock n - sc_created_at row ≤ SNAPSHOT_LIFETIME_MS;
  ss_epoch : sc_epoch row = sm_epoch (sd_meta s);
  ss_start : sc_watermark_start row = from;
  ss_floor : sm_retention_floor (sd_meta s) ≤ from;
}.

Definition live (clock : nat → Z) (id : string) (from : Z) (is_done : bool) (s : SyncDb) : Prop :=
  ∃ row, sd_scans s !! id = Some row ∧ session clock from s row ∧ sc_done row = is_done.

Lemma load_live clock id from d s n : live clock id from d s →
  ∃ row, sd_scans s !! id = Some row ∧ loadScan (clock n) id s = (Ok row, s) ∧
    assertScanEpochAndRetention row s = (Ok tt, s) ∧ sc_done row = d ∧ session clock from s row.
Proof.
  intros (row & Hrow & [Hf He Hst Hfl] & Hd). exists row. split; [done|]. split.
  - unfold loadScan. rewrite Hrow. destruct (Z.ltb_spec SNAPSHOT_LIFETIME_MS (clock n - sc_created_at row)); [|done].
    specialize (Hf n). lia.
  - split; [|by split]. unfold assertScanEpochAndRetention, mbind, M_bind, get_meta, gets, readRetentionFloor.
    rewrite He, String.eqb_refl. cbn [ensure]. unfold get_meta, gets, mret, M_ret. rewrite Hst.
    by destruct (Z.leb_spec (sm_retention_floor (sd_meta s)) from); [|lia].
Qed.

Lemma page_answered clock n pageBytes id from after s : id ≠ "" → 1 ≤ pageBytes → (∀ k, after = Some k → named k) →
  live clock id from false s → scan_open id from after s →
  ∃ page s', handleScanPage (clock n) (scan_page_json pageBytes id (cursor_text after)) s = (Ok page, s') ∧
    sd_meta s' = sd_meta s ∧ sd_entities s' = sd_entities s ∧ live clock id from (pg_done page) s'.
Proof.
  intros Hid Hb Hafter Hlive Hopen. destruct (load_live _ _ _ _ _ n Hlive) as (row & Hrow & Hload & Hassert & Hd & Hses).
  destruct (Hopen _ Hrow) as (_ & _ & Hent & _ & Hreq).
  assert (parseScanPageParams (scan_page_json pageBytes id (cursor_text after)) =
    Ok {| sp_scanId := id; sp_cursor := cursor_text after; sp_maxBytes := pageBytes |}) as Hp.
  { unfold parseScanPageParams. change (isRecord _) with true. cbn [require].
    assert (∀ A B (x : A) (k : A → outcome B), (Ok x ≫= k) = k x) as Hbind by done. rewrite Hbind.
    change (prop "scanId" _) with (Some (JStr id)). unfold nonempty_string. rewrite wire_string_named, Hbind by done.
    change (prop "cursor" _) with (Some (json_cursor (cursor_text after))).
    change (prop "maxBytes" _) with (Some (JNum (int pageBytes))). unfold positive_integer, integer_of. rewrite num_to_Z_int.
    destruct (Z.ltb_spec pageBytes 1); [lia|]. destruct after as [k|]; [|done].
    change (json_cursor (cursor_text (Some k))) with (JStr (encodeEntityCursor k.1 k.2)). cbv iota.
    rewrite wire_string_named by done. done. }
  unfold handleScanPage, mbind, M_bind, from_outcome. rewrite Hp. unfold commit, pageScan, mbind, M_bind.
  cbn [sp_scanId sp_cursor sp_maxBytes]. rewrite Hload, Hassert.
  assert ((if bool_decide (sc_page_request_cursor row = cursor_text after) then sc_page_result row else None) = None) as ->.
  { case_bool_decide; [by apply Hreq|done]. }
  rewrite <- Hent, bool_decide_eq_true_2 by done. cbn [ensure]. rewrite Hd. rewrite Hent. unfold from_outcome, gets, mret, M_ret, update_scan, modify.
  cbv beta iota. rewrite decode_cursor_text by done. cbv zeta.
  destruct (take_page scanned_json (Z.min pageBytes LIMIT_pageBytes) (map scanned (entity_rows_after after (sd_entities s))) [] 0)
    as [ents cut].
  eexists _, _. split; [reflexivity|]. cbn [sd_meta sd_entities set_scans pg_done]. split; [done|]. split; [done|].
  eexists. cbn [sd_scans set_scans]. rewrite lookup_alter_eq, Hrow. split; [reflexivity|]. split; [|done].
  by destruct Hses; split.
Qed.

Lemma rows_left (here rest : list (EntityKey * EntityRow)) after l entities : entity_rows_after after entities = here ++ rest →
  last here = Some l → (length (entity_rows_after (Some l.1) entities) < length (entity_rows_after after entities))%nat.
Proof.
  intros Hrows Hl. pose proof (rows_after_NoDup after entities) as Hnd. pose proof (rows_after_sorted after entities) as Hsort.
  rewrite Hrows in Hnd, Hsort |- *. destruct (page_boundary here rest l Hsort Hnd Hl) as [Hle _].
  assert (entity_rows_after (Some l.1) entities ⊆+ rest) as Hsub%submseteq_length.
  { apply NoDup_submseteq; [eapply (NoDup_fmap_1 fst), rows_after_NoDup|]. intros [k r] [Hr Hk]%rows_after_elem.
    assert (key_after after k = true) as Hak.
    { destruct after as [c|]; [|done]. cbn [key_after] in Hk |- *. rewrite !ekey_after_leb in *. apply negb_true_iff. apply negb_true_iff in Hk.
      assert ((l.1, l.2) ∈ entity_rows_after (Some c) entities) as [_ Hlc]%rows_after_elem.
      { rewrite Hrows. apply elem_of_app. left. destruct l. by apply last_Some_elem_of. }
      cbn in Hlc. rewrite ekey_after_leb in Hlc. apply negb_true_iff in Hlc.
      destruct (ekey_leb k c) eqn:Ekc; [|done]. by rewrite (ekey_trans _ _ _ Ekc (ekey_total _ _ Hlc)) in Hk. }
    assert ((k, r) ∈ here ++ rest) as [Hx|Hx]%elem_of_app by (rewrite <- Hrows; by apply rows_after_elem); [|done].
    apply Hle in Hx. cbn in Hx, Hk. congruence. }
  rewrite length_app. destruct here; [done|]. cbn [length]. lia.
Qed.

Section World.
Context (backendId accountId datasetEpoch : string) (pageBytes : Z).
Context (accountKeyFor : nat → Z → option string).
Context (gcmOpen : string → string → string → string → option string) (JSON_parse : string → option json).
Context (sha256Hex : string → string) (date_parse : string → option Z) (hosted : bool).
Context (clock : nat → Z) (uuid : string).
Context (Hbytes : 1 ≤ pageBytes) (Huuid : uuid ≠ "").

Notation quiet_world := (λ _ : nat, @nil SyncCall).
Notation scan_pages := (scan_pages backendId accountId pageBytes accountKeyFor gcmOpen JSON_parse sha256Hex date_parse hosted quiet_world clock).
Notation catch_up_pages := (catch_up_pages backendId accountId pageBytes accountKeyFor gcmOpen JSON_parse sha256Hex date_parse hosted quiet_world clock).
Notation catchUpStagedState := (catchUpStagedState backendId accountId pageBytes accountKeyFor gcmOpen JSON_parse sha256Hex date_parse hosted quiet_world clock).
Notation scanCycle := (scanCycle backendId accountId datasetEpoch pageBytes accountKeyFor gcmOpen JSON_parse sha256Hex date_parse hosted quiet_world clock uuid).

Lemma scan_pages_end pages from after s st tick H : (length (entity_rows_after after (sd_entities s)) ≤ pages)%nat → pages ≠ 0%nat →
  represents H s → (∀ k, after = Some k → named k) → live clock uuid from false s → scan_open uuid from after s →
  ∃ w', scan_pages pages uuid (cursor_text after) {| wd_db := s; wd_staging := st; wd_tick := tick |} = (Ok tt, w') ∧
    sd_meta (wd_db w') = sd_meta s ∧ sd_entities (wd_db w') = sd_entities s ∧ represents H (wd_db w') ∧ live clock uuid from true (wd_db w') ∧ scan_paged uuid (wd_db w').
Proof.
  revert after s st tick. induction pages as [|rest IH]; intros after s st tick Hlen Hp Hs Hafter Hlive Hopen; [done|].
  destruct (page_answered clock tick pageBytes uuid from after s Huuid Hbytes Hafter Hlive Hopen) as (page & s' & Hrun & Hm & He & Hlive').
  destruct (page_rows _ _ _ _ _ _ _ _ Hafter Hopen (λ k r, represents_named H s k r Hs) Hrun) as (here & more & Hrows & _ & Hdone).
  assert (represents H s') as Hs'.
  { pose proof (scan_page_quiet (clock tick) (scan_page_json pageBytes uuid (cursor_text after)) s) as [Hq _].
    rewrite Hrun in Hq. by eapply same_journal_represents. }
  cbn [SyncClient.scan_pages]. unfold mbind at 1, M_bind at 1. unfold rpc at 1, before at 1. cbn [wd_tick wd_db run_calls foldl].
  rewrite Hrun. unfold mbind at 1, M_bind at 1. unfold gets at 1. unfold mbind at 1, M_bind at 1. unfold stage at 1, modify at 1.
  cbn [wd_db wd_staging wd_tick]. destruct (pg_done page).
  - destruct Hdone as [_ Hpaged]. eexists. split; [reflexivity|]. by cbn [wd_db].
  - destruct Hdone as (Hmore & l & Hl & Hln & Hnext & Hopen'). rewrite Hnext.
    change (cursor_text (Some l.1)) with (Some (encodeEntityCursor l.1.1 l.1.2)). cbv beta iota.
    pose proof (rows_left _ _ _ _ _ Hrows Hl) as Hless.
    destruct (Nat.eqb_spec rest 0) as [->|Hrest].
    { exfalso. rewrite Hrows, length_app in Hlen. destruct here; [done|]. destruct more; [done|]. cbn [length] in Hlen. lia. }
    change (Some (encodeEntityCursor l.1.1 l.1.2)) with (cursor_text (Some l.1)).
    edestruct (IH (Some l.1) s') as (w' & Hw & Hm' & He' & Hr' & Hl' & Hp'); [rewrite He; lia|done|done|by intros k [= <-]|done|done|].
    exists w'. rewrite Hw, Hm', Hm, He', He. done.
Qed.
Lemma begin_answered n s H : represents H s → INITIAL s → datasetEpoch = INITIAL_EPOCH → sd_scans s !! uuid = None →
  (∀ m, clock m - clock n ≤ SNAPSHOT_LIFETIME_MS) →
  ∃ s', handleScanBegin (clock n) uuid (scan_begin_json datasetEpoch) s =
    (Ok {| sb_scanId := uuid; sb_watermarkStart := len H; sb_resumeCursor := len H; sb_epoch := INITIAL_EPOCH |}, s') ∧
    sd_meta s' = sd_meta s ∧ sd_entities s' = sd_entities s ∧ live clock uuid (len H) false s' ∧ scan_open uuid (len H) None s'.
Proof.
  intros Hs Hi Hep Hnew Hclock. unfold handleScanBegin, beginScan, mbind, M_bind, from_outcome.
  assert (parseScanBeginParams (scan_begin_json datasetEpoch) = Ok (Some datasetEpoch)) as -> by done.
  change (bumpCounter "scan_begins" 1 s) with
    (Ok tt, set_counters (<["scan_begins" := default 0 (sd_counters s !! "scan_begins") + 1]> (sd_counters s)) s).
  unfold commit, get_meta, gets, currentWatermark, readRetentionFloor, get_meta, gets. cbn [sd_meta set_counters].
  rewrite Hi, Hep, String.eqb_refl. unfold mret, M_ret. cbn [sd_meta set_counters].
  assert ((if 1 <? sm_next_sequence (sd_meta s) then sm_next_sequence (sd_meta s) - 1 else 0) = len H) as ->.
  { rewrite (rp_next _ _ Hs). pose proof (len_nonneg H). destruct (Z.ltb_spec 1 (len H + 1)); lia. }
  pose proof (rp_floor _ _ Hs) as Hf. destruct (Z.leb_spec (sm_retention_floor (sd_meta s)) (len H)); [|lia]. cbn [ensure].
  unfold insert_row, mret, M_ret. cbn [sd_scans set_counters]. rewrite Hnew.
  eexists. split; [reflexivity|]. cbn [sd_meta sd_entities set_scans set_counters]. split; [done|]. split; [done|]. split; last first.
  { intros row. cbn [sd_scans set_scans]. rewrite lookup_insert_eq. by intros [= <-]. }
  eexists. cbn [sd_scans set_scans]. rewrite lookup_insert_eq. split; [reflexivity|]. split; [|done]. split; cbn; [done|by rewrite Hi|done|lia].
Qed.

Lemma finish_answered n from s H : represents H s → INITIAL s → live clock uuid from true s → scan_paged uuid s →
  ∃ s', handleScanFinish (clock n) (scan_finish_json uuid) s =
    (Ok {| sf_scanId := uuid; sf_watermarkEnd := len H; sf_epoch := INITIAL_EPOCH; sf_nextCursor := len H |}, s').
Proof.
  intros Hs Hi Hlive Hpaged. destruct (load_live _ _ _ _ _ n Hlive) as (row & Hrow & Hload & Hassert & Hd & _).
  assert (parseScanFinishParams (scan_finish_json uuid) = Ok uuid) as Hp.
  { unfold parseScanFinishParams. change (isRecord _) with true. cbn [require].
    change (prop "scanId" _) with (Some (JStr uuid)). unfold nonempty_string. by rewrite wire_string_named. }
  unfold handleScanFinish, mbind, M_bind, from_outcome. rewrite Hp. unfold commit, finishScan, mbind, M_bind.
  rewrite Hload, Hassert, Hd. cbn [ensure]. unfold mret, M_ret. rewrite (Hpaged _ Hrow).
  unfold currentWatermark, get_meta, gets, update_scan, modify. cbn [sd_meta set_scans]. rewrite Hi.
  assert ((if 1 <? sm_next_sequence (sd_meta s) then sm_next_sequence (sd_meta s) - 1 else 0) = len H) as ->.
  { rewrite (rp_next _ _ Hs). pose proof (len_nonneg H). destruct (Z.ltb_spec 1 (len H + 1)); lia. }
  by eexists.
Qed.

Lemma pull_at_end H s : represents H s → safe_Z (len H) = true →
  ∃ s', handlePull (catch_up_json pageBytes (int_to_string (len H))) s =
    (Ok {| pr_changes := []; pr_nextCursor := len H; pr_hasMore := false; pr_recoveryFloor := sm_retention_floor (sd_meta s) |}, s').
Proof.
  intros Hs Hsafe. pose proof (len_nonneg H) as Hl.
  pose proof (pull_answer H s (catch_up_json pageBytes (int_to_string (len H))) Hs) as Hans. unfold pull_from in Hans.
  assert (parseSpikePullParams (catch_up_json pageBytes (int_to_string (len H))) =
    Ok {| pl_cursor := len H; pl_maxBytes := pageBytes; pl_maxChanges := None |}) as Hp.
  { unfold parseSpikePullParams. change (isRecord _) with true. cbn [require].
    assert (∀ A B (x : A) (k : A → outcome B), (Ok x ≫= k) = k x) as Hbind by done. rewrite Hbind.
    change (prop "cursor" _) with (Some (JStr (int_to_string (len H)))). rewrite parse_cursor_text, Hbind by done.
    change (prop "maxBytes" _) with (Some (JNum (int pageBytes))). unfold positive_integer, integer_of. rewrite num_to_Z_int.
    by destruct (Z.ltb_spec pageBytes 1); [lia|]. }
  rewrite Hp in Hans. cbn [pl_cursor] in Hans. pose proof (rp_floor _ _ Hs) as Hf.
  destruct (Z.ltb_spec (len H) (sm_retention_floor (sd_meta s))); [lia|].
  destruct (handlePull _ s) as [r s']. cbn [fst] in Hans. exists s'. rewrite Hans. unfold history_pull, history_page. cbn [pl_cursor].
  assert (changes_from H (len H) = []) as ->.
  { apply nil_length_inv. rewrite changes_from_length. unfold len. lia. }
  cbn. by rewrite Z.add_0_r.
Qed.

Lemma catch_up_end H s st tick : represents H s → safe_Z (len H) = true →
  ∃ w', catchUpStagedState (int_to_string (len H)) (int_to_string (len H)) {| wd_db := s; wd_staging := st; wd_tick := tick |} =
    (Ok true, w') ∧ same_journal s (wd_db w').
Proof.
  intros Hs Hsafe. pose proof (len_nonneg H) as Hpos. destruct (pull_at_end H s Hs Hsafe) as (s4 & Hpull).
  unfold SyncClient.catchUpStagedState. rewrite syncCursorNumber_int by done. change CATCHUP_PAGE_LIMIT with (S 499).
  cbn [SyncClient.catch_up_pages].
  erewrite (bind_run (rpc _ _ _ _ _ _)); [|unfold rpc, before; cbn [run_calls foldl wd_db wd_tick]; rewrite Hpull; reflexivity].
  cbn [pr_changes map SyncClient.stage_changes]. erewrite (bind_run (mret false)); [|reflexivity].
  cbn [pr_nextCursor]. rewrite syncCursorNumber_int by done. rewrite Z.leb_refl. cbn [orb]. eexists. split; [reflexivity|].
  pose proof (pull_quiet (catch_up_json pageBytes (int_to_string (len H))) s) as [Hq _]. by rewrite Hpull in Hq.
Qed.

(** The cycle ends. *)
Lemma scanCycle_ends H s st tick : represents H s → INITIAL s → datasetEpoch = INITIAL_EPOCH → sd_scans s !! uuid = None →
  (∀ n m, clock n - clock m ≤ SNAPSHOT_LIFETIME_MS) → (size (sd_entities s) ≤ SCAN_PAGE_LIMIT)%nat → safe_Z (len H) = true →
  ∃ w', scanCycle {| wd_db := s; wd_staging := st; wd_tick := tick |} = (Ok (len H), w') ∧
    sd_entities (wd_db w') = sd_entities s ∧ sm_next_sequence (sd_meta (wd_db w')) = sm_next_sequence (sd_meta s).
Proof.
  intros Hs Hi Hep Hnew Hclock Hsize Hsafe. pose proof (len_nonneg H) as Hpos.
  destruct (begin_answered tick s H Hs Hi Hep Hnew (λ m, Hclock m tick)) as (s1 & Hbegin & Hm1 & He1 & Hlive1 & Hopen1).
  assert (represents H s1) as Hs1.
  { pose proof (scan_begin_quiet (clock tick) uuid (scan_begin_json datasetEpoch) s) as [Hq _]. rewrite Hbegin in Hq.
    by eapply same_journal_represents. }
  unfold SyncClient.scanCycle.
  erewrite (bind_run (rpc _ _ _ _ _ _)); [|unfold rpc, before; cbn [wd_tick wd_db run_calls foldl]; rewrite Hbegin; reflexivity].
  cbn [sb_epoch sb_scanId sb_watermarkStart sb_resumeCursor]. rewrite Hep, String.eqb_refl. cbn [negb].
  erewrite (bind_run (stage _)); [|reflexivity]. cbn [wd_db wd_staging wd_tick].
  edestruct (scan_pages_end SCAN_PAGE_LIMIT (len H) None s1) as (w2 & Hpages & Hm2 & He2 & Hs2 & Hlive2 & Hpaged2).
  { unfold entity_rows_after, entity_rows. rewrite sort_by_Permutation, length_map_to_list, He1. exact Hsize. }
  { done. } { exact Hs1. } { done. } { exact Hlive1. } { exact Hopen1. }
  erewrite (bind_run (scan_pages _ _ _)); [|exact Hpages].
  assert (INITIAL (wd_db w2)) as Hi2 by (unfold INITIAL; by rewrite Hm2, Hm1).
  destruct (finish_answered (wd_tick w2) _ _ H Hs2 Hi2 Hlive2 Hpaged2) as (s3 & Hfinish).
  assert (same_journal (wd_db w2) s3) as Hq3.
  { pose proof (scan_finish_quiet (clock (wd_tick w2)) (scan_finish_json uuid) (wd_db w2)) as [Hq _]. by rewrite Hfinish in Hq. }
  pose proof (same_journal_represents _ _ _ Hq3 Hs2) as Hs3.
  erewrite (bind_run (rpc _ _ _ _ _ _)); [|unfold rpc, before; cbn [run_calls foldl]; rewrite Hfinish; reflexivity].
  cbn [sf_epoch sf_nextCursor sf_watermarkEnd]. rewrite String.eqb_refl. cbn [negb].
  destruct (catch_up_end H s3 (wd_staging w2) (S (wd_tick w2)) Hs3 Hsafe) as (w3 & Hcaught & Hq4).
  exists w3. split.
  - erewrite (bind_run (catchUpStagedState _ _)); [|exact Hcaught]. reflexivity.
  - destruct Hq3 as (E1 & _ & E2 & _), Hq4 as (F1 & _ & F2 & _). by rewrite F1, E1, He2, He1, F2, E2, Hm2, Hm1.
Qed.
End World.
