(* ===== verification/SyncRebuildProps.v ===== *)
(** * Desktop app: properties of the staged rebuild *)

From stdpp Require Import base list strings gmap.
From Stdlib Require Import ZArith Ascii Lia.
From S2P Require Import Prelude Transactions JsString JsValue SyncWire SyncTables SyncLog SyncHistory SyncPush SyncGrowth SyncCalls SyncPull SyncReceipts SyncProps SyncScan SyncClient SyncCycle SyncLive.

Section Rebuild.
Context (backendId accountId : string) (pageBytes : Z).
Context (accountKeyFor : nat → Z → option string).
Context (gcmOpen : string → string → string → string → option string) (JSON_parse : string → option json).
Context (sha256Hex : string → string) (date_parse : string → option Z) (hosted : bool).
Context (clock : nat → Z) (uuid : string).
Notation staged_as := (staged_as backendId accountId accountKeyFor gcmOpen JSON_parse).
Notation scanCycle := (scanCycle backendId accountId INITIAL_EPOCH pageBytes accountKeyFor gcmOpen JSON_parse sha256Hex date_parse hosted).

(** C2: whatever other devices write, import, publish or sweep between the requests of a
    rebuild, if the rebuild comes to its end its staging table holds exactly the state of
    the account at the watermark the scan finished at: for every entity the last change up
    to it, as the device could open it, tombstones included, and no other entity. *)
Theorem rebuild_exact others cs st tick finish w' :
  (∀ n, Forall (λ c, ¬ names uuid c) (others n)) →
  scanCycle others clock uuid {| wd_db := run_calls sha256Hex date_parse hosted cs initial_db; wd_staging := st; wd_tick := tick |}
    = (Ok finish, w') →
  ∃ H, represents H (wd_db w') ∧ 0 ≤ finish ≤ len H ∧
    ∀ k, staged_as (sg_rows (wd_staging w') !! k) (heads (upto finish H) !! k).
Proof.
  intros Hothers Hrun. destruct (st_history _ (reachable_settled sha256Hex date_parse hosted cs)) as [H Hs].
  eapply (scanCycle_caught _ _ _ _ _ _ _ _ _ _ _ _ _ Hothers H) in Hrun; [|exact Hs].
  destruct Hrun as [H' [Hs' Hr Hall]]. exists H'. split_and!; [done|lia..|].
  intros k. destruct (Hall k) as (j & Hj & Has). by replace finish with j by lia.
Qed.

(** C24: while nobody else calls, a rebuild under a fresh scan id always ends, for an account of
    at most as many entities as the scan may take pages and requests within the lifetime
    of a scan, and stages exactly the entities of the account. *)
Theorem rebuild_ends cs st tick :
  let s := run_calls sha256Hex date_parse hosted cs initial_db in
  1 ≤ pageBytes → uuid ≠ "" → sd_scans s !! uuid = None → (∀ n m, clock n - clock m ≤ SNAPSHOT_LIFETIME_MS) →
  (size (sd_entities s) ≤ SCAN_PAGE_LIMIT)%nat → sm_next_sequence (sd_meta s) ≤ MAX_SAFE_INTEGER →
  ∃ w', scanCycle (λ _, []) clock uuid {| wd_db := s; wd_staging := st; wd_tick := tick |} =
      (Ok (sm_next_sequence (sd_meta s) - 1), w') ∧
    ∀ k, staged_as (sg_rows (wd_staging w') !! k) ((λ r, (er_sequence r, scanned (k, r))) <$> sd_entities s !! k).
Proof.
  intros s Hb Huuid Hnew Hclock Hsize Hsafe.
  destruct (reachable_settled sha256Hex date_parse hosted cs) as [[H Hs] Hi _]. fold s in Hs, Hi.
  assert (safe_Z (len H) = true) as Hsafe'.
  { rewrite (rp_next _ _ Hs) in Hsafe. pose proof (len_nonneg H). unfold safe_Z, MAX_SAFE_INTEGER in *.
    apply andb_true_iff. rewrite !Z.leb_le. lia. }
  edestruct (scanCycle_ends backendId accountId INITIAL_EPOCH pageBytes accountKeyFor gcmOpen JSON_parse sha256Hex date_parse hosted
    clock uuid Hb Huuid H s st tick Hs Hi eq_refl Hnew Hclock Hsize Hsafe') as (w' & Hrun & He & Hn).
  exists w'. split; [by rewrite (rp_next _ _ Hs), Hrun, Z.add_simpl_r|].
  edestruct (scanCycle_caught backendId accountId INITIAL_EPOCH pageBytes accountKeyFor gcmOpen JSON_parse sha256Hex date_parse hosted
    (λ _, []) clock uuid (λ n, Forall_nil_2 _) H {| wd_db := s; wd_staging := st; wd_tick := tick |} _ _ Hs Hrun) as [H' [Hs' Hr Hall]].
  intros k. destruct (Hall k) as (j & Hj & Has).
  assert (len H' = len H) as Hlen by (pose proof (rp_next _ _ Hs'); pose proof (rp_next _ _ Hs); lia).
  rewrite upto_all in Has by lia. by rewrite (rp_heads _ _ Hs'), He in Has.
Qed.
End Rebuild.

(** ** A rebuild while two devices write *)

Definition writers (n : nat) : list SyncCall :=
  match n with 0%nat => take 1 two_devices | 2%nat => drop 1 two_devices | _ => [] end.

Definition fixture_clock (n : nat) : Z := 5000 + Z.of_nat (Nat.min n 100).

Notation fixture_cycle := (scanCycle "backend" "acc" INITIAL_EPOCH 50 (λ _ _, None) (λ _ _ _ _, None) (λ _, None)
  fixture_sha256 fixture_date false).
Notation fixture_staged := (staged_as "backend" "acc" (λ _ _, None) (λ _ _ _ _, None) (λ _, None)).

Definition empty_staging : ScanStaging := {| sg_rows := ∅; sg_run := None |}.

(** The scan starts at sequence 2 and finishes at 4, after an update of one entity and the
    deletion of the other. *)
Lemma rebuild_exact_witness :
  ∃ w', fixture_cycle writers fixture_clock "scan-1" {| wd_db := initial_db; wd_staging := empty_staging; wd_tick := 0 |} = (Ok 4, w') ∧
    ∃ H, represents H (wd_db w') ∧ 0 ≤ 4 ≤ len H ∧
      ∀ k, fixture_staged (sg_rows (wd_staging w') !! k) (heads (upto 4 H) !! k).
Proof.
  set (w' := (fixture_cycle writers fixture_clock "scan-1"
    {| wd_db := initial_db; wd_staging := empty_staging; wd_tick := 0 |}).2).
  assert (fixture_cycle writers fixture_clock "scan-1" {| wd_db := initial_db; wd_staging := empty_staging; wd_tick := 0 |} = (Ok 4, w'))
    as Hrun.
  { enough ((fixture_cycle writers fixture_clock "scan-1"
      {| wd_db := initial_db; wd_staging := empty_staging; wd_tick := 0 |}).1 = Ok 4) as Hfst.
    - unfold w'. destruct (fixture_cycle _ _ _ _) as [r w2]. cbn in *. by rewrite Hfst.
    - vm_compute. reflexivity. }
  exists w'. split; [exact Hrun|].
  apply (rebuild_exact "backend" "acc" 50 (λ _ _, None) (λ _ _ _ _, None) (λ _, None) fixture_sha256 fixture_date false
    fixture_clock "scan-1" writers [] empty_staging 0 4 w'); [|exact Hrun].
  intros [|[|[|n]]]; repeat constructor; cbn; tauto.
Defined.

Lemma rebuild_ends_witness :
  let s := fixture_run two_devices initial_db in
  ∃ w', fixture_cycle (λ _, []) fixture_clock "scan-1" {| wd_db := s; wd_staging := empty_staging; wd_tick := 0 |} =
      (Ok (sm_next_sequence (sd_meta s) - 1), w') ∧
    ∀ k, fixture_staged (sg_rows (wd_staging w') !! k) ((λ r, (er_sequence r, scanned (k, r))) <$> sd_entities s !! k).
Proof.
  apply (rebuild_ends "backend" "acc" 50 (λ _ _, None) (λ _ _ _ _, None) (λ _, None) fixture_sha256 fixture_date false
    fixture_clock "scan-1" two_devices empty_staging 0).
  - lia.
  - discriminate.
  - vm_compute. reflexivity.
  - intros n m. unfold fixture_clock, SNAPSHOT_LIFETIME_MS. lia.
  - apply Nat.leb_le. vm_compute. reflexivity.
  - apply Z.leb_le. vm_compute. reflexivity.
Defined.
