(* ===== verification/SyncOutbox.v ===== *)
(** * Desktop app: a device's outbox and conflicts

    The tables a device keeps for the synchronisation of an account and the operations on
    them, [mezair-app/src/main/services/sync-persistence.service.ts]: bindings of entities to
    the last revision acknowledged, the outbox of changes recorded locally, unresolved
    conflicts, the cursor.  One scope (backend, account and epoch) is modelled; what other
    scopes bind is a set of keys.  A row's [updated_at] is left out, times are milliseconds,
    [randomUUID] and the nonces of seals are the next of a sequence of ids, and a missing row
    of [sync_state] reads as the initial one.  [JSON.parse] and SHA-256 are parameters. *)

From stdpp Require Import base list strings gmap.
From Stdlib Require Import ZArith Ascii.
From S2P Require Import Prelude Transactions JsString JsValue SyncWire SyncTables SyncLog SyncClient.

(** ** Tables *)

Inductive OutboxState := os_pending | os_dispatched | os_acknowledged | os_conflict | os_rejected.
#[export] Instance OutboxState_eq_dec : EqDecision OutboxState.
Proof. solve_decision. Defined.

Record OutboxRow := {
  ob_enrollment_id : string;
  ob_enrollment_sequence : option Z;
  ob_entity : EntityKey;
  ob_schema_version : Z;
  ob_base_revision : option Z;
  ob_operation : SyncOperation;
  ob_payload_json : option string;
  ob_payload_hash : string;
  ob_local_edit_generation : Z;
  ob_state : OutboxState;
  ob_created_at : Z;
  ob_dispatched_at : option Z;
  ob_result_json : option string;
  ob_sealed_json : option string;
  ob_rowid : nat;
}.

Record SyncBinding := {
  bi_baseRevision : option Z;
  bi_basePayloadJson : option string;
  bi_localEditGeneration : Z;
  bi_acknowledgedGeneration : Z;
  bi_quarantineJson : option string;
}.

Inductive SyncConflictKind := ck_edit_edit | ck_edit_delete | ck_delete_edit.
Inductive SyncConflictResolution := rs_keep_local | rs_use_remote | rs_save_copy.

Record SyncConflict := {
  cf_entity : EntityKey;
  cf_basePayloadJson : option string;
  cf_localPayloadJson : option string;
  cf_remotePayloadJson : option string;
  cf_baseRevision : option Z;
  cf_remoteRevision : option Z;
  cf_kind : SyncConflictKind;
  cf_createdAt : Z;
  cf_resolvedAt : option Z;
  cf_resolution : option SyncConflictResolution;
}.

Inductive SyncEnrollmentState := es_active | es_revoked | es_pending.
#[export] Instance SyncEnrollmentState_eq_dec : EqDecision SyncEnrollmentState.
Proof. solve_decision. Defined.

Record DeviceEnrollment := {
  dn_nextSequence : Z;
  dn_state : SyncEnrollmentState;
  dn_updatedAt : Z;
  dn_revokedAt : option Z;
}.

Record SyncStateRow := {
  st_cursor : option string;
  st_lastPullAt : option Z;
  st_lastPushAt : option Z;
  st_resetRequired : bool;
}.

Record PausedInboundChange := { pi_revision : Z; pi_changeJson : string }.

Record SyncStore := {
  ss_enrollments : gmap string DeviceEnrollment;
  ss_bindings : gmap EntityKey SyncBinding;
  ss_foreign : gset EntityKey;
  ss_outbox : gmap string OutboxRow;
  ss_conflicts : gmap string SyncConflict;
  ss_paused : gmap EntityKey PausedInboundChange;
  ss_staging : ScanStaging;
  ss_state : SyncStateRow;
  ss_ids : nat;
}.

Definition put_enrollments v s := {| ss_enrollments := v; ss_bindings := ss_bindings s; ss_foreign := ss_foreign s;
  ss_outbox := ss_outbox s; ss_conflicts := ss_conflicts s; ss_paused := ss_paused s; ss_staging := ss_staging s;
  ss_state := ss_state s; ss_ids := ss_ids s |}.
Definition put_bindings v s := {| ss_enrollments := ss_enrollments s; ss_bindings := v; ss_foreign := ss_foreign s;
  ss_outbox := ss_outbox s; ss_conflicts := ss_conflicts s; ss_paused := ss_paused s; ss_staging := ss_staging s;
  ss_state := ss_state s; ss_ids := ss_ids s |}.
Definition put_outbox v s := {| ss_enrollments := ss_enrollments s; ss_bindings := ss_bindings s; ss_foreign := ss_foreign s;
  ss_outbox := v; ss_conflicts := ss_conflicts s; ss_paused := ss_paused s; ss_staging := ss_staging s;
  ss_state := ss_state s; ss_ids := ss_ids s |}.
Definition put_conflicts v s := {| ss_enrollments := ss_enrollments s; ss_bindings := ss_bindings s; ss_foreign := ss_foreign s;
  ss_outbox := ss_outbox s; ss_conflicts := v; ss_paused := ss_paused s; ss_staging := ss_staging s;
  ss_state := ss_state s; ss_ids := ss_ids s |}.
Definition put_paused v s := {| ss_enrollments := ss_enrollments s; ss_bindings := ss_bindings s; ss_foreign := ss_foreign s;
  ss_outbox := ss_outbox s; ss_conflicts := ss_conflicts s; ss_paused := v; ss_staging := ss_staging s;
  ss_state := ss_state s; ss_ids := ss_ids s |}.
Definition put_staging v s := {| ss_enrollments := ss_enrollments s; ss_bindings := ss_bindings s; ss_foreign := ss_foreign s;
  ss_outbox := ss_outbox s; ss_conflicts := ss_conflicts s; ss_paused := ss_paused s; ss_staging := v;
  ss_state := ss_state s; ss_ids := ss_ids s |}.
Definition put_state v s := {| ss_enrollments := ss_enrollments s; ss_bindings := ss_bindings s; ss_foreign := ss_foreign s;
  ss_outbox := ss_outbox s; ss_conflicts := ss_conflicts s; ss_paused := ss_paused s; ss_staging := ss_staging s;
  ss_state := v; ss_ids := ss_ids s |}.
Definition put_ids v s := {| ss_enrollments := ss_enrollments s; ss_bindings := ss_bindings s; ss_foreign := ss_foreign s;
  ss_outbox := ss_outbox s; ss_conflicts := ss_conflicts s; ss_paused := ss_paused s; ss_staging := ss_staging s;
  ss_state := ss_state s; ss_ids := v |}.

Abbreviation LS := (M SyncStore).

Definition set_outbox (f : gmap string OutboxRow → gmap string OutboxRow) : LS unit := modify (λ s, put_outbox (f (ss_outbox s)) s).
Definition set_bindings (f : gmap EntityKey SyncBinding → gmap EntityKey SyncBinding) : LS unit :=
  modify (λ s, put_bindings (f (ss_bindings s)) s).
Definition set_conflicts (f : gmap string SyncConflict → gmap string SyncConflict) : LS unit :=
  modify (λ s, put_conflicts (f (ss_conflicts s)) s).

(** [UPDATE ... SET f WHERE p]. *)
Definition update_rows {K A} `{Countable K} (p : A → bool) (f : A → A) (m : gmap K A) : gmap K A :=
  (λ r, if p r then f r else r) <$> m.

(** [DELETE FROM ... WHERE p]. *)
Definition delete_where {K A} `{Countable K} (p : A → bool) (m : gmap K A) : gmap K A := filter (λ r, p r.2 = false) m.

(** The rows in an order given by a pair of numbers. *)
Definition rows_by {A} (key : A → Z * Z) (p : A → bool) (m : gmap string A) : list (string * A) :=
  sort_by (λ a b, let '(a1, a2) := key a.2 in let '(b1, b2) := key b.2 in (a1 <? b1) || ((a1 =? b1) && (a2 <=? b2)))
    (List.filter (λ r, p r.2) (map_to_list m)).

(** [ORDER BY created_at ASC, rowid ASC]. *)
Definition outbox_rows : (OutboxRow → bool) → gmap string OutboxRow → list (string * OutboxRow) :=
  rows_by (λ r, (ob_created_at r, Z.of_nat (ob_rowid r))).

Definition is_row (k : EntityKey) (states : list OutboxState) (r : OutboxRow) : bool :=
  bool_decide (ob_entity r = k) && bool_decide (ob_state r ∈ states).

Definition with_result (st : OutboxState) (result : option string) (r : OutboxRow) : OutboxRow := {|
  ob_enrollment_id := ob_enrollment_id r; ob_enrollment_sequence := ob_enrollment_sequence r; ob_entity := ob_entity r;
  ob_schema_version := ob_schema_version r; ob_base_revision := ob_base_revision r; ob_operation := ob_operation r;
  ob_payload_json := ob_payload_json r; ob_payload_hash := ob_payload_hash r;
  ob_local_edit_generation := ob_local_edit_generation r; ob_state := st; ob_created_at := ob_created_at r;
  ob_dispatched_at := ob_dispatched_at r; ob_result_json := result; ob_sealed_json := ob_sealed_json r;
  ob_rowid := ob_rowid r |}.

Definition rejected_json (reason : string) : option string :=
  Some (JSON_stringify (JObj [("status", JStr "rejected"); ("reason", JStr reason)])).

(** ** Bindings *)

Definition getBinding (k : EntityKey) : LS (option SyncBinding) := gets (λ s, ss_bindings s !! k).

Definition binding_error (k : EntityKey) : JsError :=
  MkError None ("Failed to persist binding for " +:+ k.1 +:+ ":" +:+ k.2 +:+ ".") [].

(** A patch replaces only what it gives. *)
Definition upsertBinding (k : EntityKey) (baseRevision : option Z) (basePayloadJson quarantineJson : option string) : LS SyncBinding :=
  existing ← getBinding k;
  let row := match existing with
    | None => {| bi_baseRevision := baseRevision; bi_basePayloadJson := basePayloadJson; bi_localEditGeneration := 0;
                 bi_acknowledgedGeneration := 0; bi_quarantineJson := quarantineJson |}
    | Some b => {| bi_baseRevision := if baseRevision is Some r then Some r else bi_baseRevision b;
                   bi_basePayloadJson := if basePayloadJson is Some p then Some p else bi_basePayloadJson b;
                   bi_localEditGeneration := bi_localEditGeneration b;
                   bi_acknowledgedGeneration := bi_acknowledgedGeneration b;
                   bi_quarantineJson := if quarantineJson is Some q then Some q else bi_quarantineJson b |}
    end in
  _ ← set_bindings <[k := row]>;
  binding ← getBinding k;
  match binding with Some b => mret b | None => throw (binding_error k) end.

Definition with_base (revision : option Z) (payload : option string) (b : SyncBinding) : SyncBinding := {|
  bi_baseRevision := revision; bi_basePayloadJson := payload; bi_localEditGeneration := bi_localEditGeneration b;
  bi_acknowledgedGeneration := bi_acknowledgedGeneration b; bi_quarantineJson := bi_quarantineJson b |}.
Definition with_quarantine (q : option string) (b : SyncBinding) : SyncBinding := {|
  bi_baseRevision := bi_baseRevision b; bi_basePayloadJson := bi_basePayloadJson b;
  bi_localEditGeneration := bi_localEditGeneration b; bi_acknowledgedGeneration := bi_acknowledgedGeneration b;
  bi_quarantineJson := q |}.
Definition with_generations (local acknowledged : Z) (b : SyncBinding) : SyncBinding := {|
  bi_baseRevision := bi_baseRevision b; bi_basePayloadJson := bi_basePayloadJson b; bi_localEditGeneration := local;
  bi_acknowledgedGeneration := acknowledged; bi_quarantineJson := bi_quarantineJson b |}.

(** Sets the base, also to none. *)
Definition setBindingBase (k : EntityKey) (baseRevision : option Z) (basePayloadJson : option string) : LS unit :=
  binding ← getBinding k;
  match binding with
  | None => _ ← upsertBinding k baseRevision basePayloadJson None; mret tt
  | Some _ => set_bindings (alter (with_base baseRevision basePayloadJson) k)
  end.

Definition setBindingQuarantine (k : EntityKey) (quarantineJson : option string) : LS unit :=
  binding ← getBinding k;
  match binding with
  | None => _ ← upsertBinding k None None quarantineJson; mret tt
  | Some _ => set_bindings (alter (with_quarantine quarantineJson) k)
  end.

Definition acknowledgeBindingLocalEdits (k : EntityKey) : LS unit :=
  set_bindings (alter (λ b, with_generations (bi_localEditGeneration b) (bi_localEditGeneration b) b) k).

Definition deleteBinding (k : EntityKey) : LS unit := set_bindings (delete k).

(** [listSyncScopesForEntity(...).length > 0]. *)
Definition bound_anywhere (k : EntityKey) (s : SyncStore) : bool :=
  bool_decide (is_Some (ss_bindings s !! k)) || bool_decide (k ∈ ss_foreign s).

(** ** The cursor and the reset flag *)

Record SyncStatePatch := {
  sp_patch_cursor : option string;
  sp_patch_lastPullAt : option Z;
  sp_patch_lastPushAt : option Z;
  sp_patch_resetRequired : option bool;
}.

Definition updateSyncState (patch : SyncStatePatch) : LS unit :=
  modify (λ s, let row := ss_state s in put_state {|
    st_cursor := if sp_patch_cursor patch is Some c then Some c else st_cursor row;
    st_lastPullAt := if sp_patch_lastPullAt patch is Some t then Some t else st_lastPullAt row;
    st_lastPushAt := if sp_patch_lastPushAt patch is Some t then Some t else st_lastPushAt row;
    st_resetRequired := default (st_resetRequired row) (sp_patch_resetRequired patch) |} s).

Definition patch_cursor (c : string) (pulled : option Z) (reset : option bool) : SyncStatePatch :=
  {| sp_patch_cursor := Some c; sp_patch_lastPullAt := pulled; sp_patch_lastPushAt := None; sp_patch_resetRequired := reset |}.
Definition patch_pushed (now : Z) : SyncStatePatch :=
  {| sp_patch_cursor := None; sp_patch_lastPullAt := None; sp_patch_lastPushAt := Some now; sp_patch_resetRequired := None |}.
Definition patch_reset : SyncStatePatch :=
  {| sp_patch_cursor := None; sp_patch_lastPullAt := None; sp_patch_lastPushAt := None; sp_patch_resetRequired := Some true |}.

(** ** Enrollments *)

(** [... state = 'active' ORDER BY updated_at DESC LIMIT 1]. *)
Definition getActiveEnrollment (s : SyncStore) : option string :=
  fst <$> head (sort_by (λ a b, dn_updatedAt b.2 <=? dn_updatedAt a.2)
    (List.filter (λ e, bool_decide (dn_state e.2 = es_active)) (map_to_list (ss_enrollments s)))).

Definition upsertEnrollment (now : Z) (id : string) (state : SyncEnrollmentState) : LS unit :=
  modify (λ s, put_enrollments (<[id := {|
    dn_nextSequence := match ss_enrollments s !! id with Some e => dn_nextSequence e | None => 1 end;
    dn_state := state; dn_updatedAt := now;
    dn_revokedAt := match ss_enrollments s !! id with
                    | Some _ => if bool_decide (state = es_revoked) then Some now else None
                    | None => None end |}]> (ss_enrollments s)) s).

Definition revokeEnrollment (now : Z) (id : string) : LS unit :=
  enrollments ← gets ss_enrollments;
  match enrollments !! id with
  | None => throw (MkError None ("Unknown enrollment " +:+ id +:+ ".") [])
  | Some e => modify (put_enrollments (<[id := {| dn_nextSequence := dn_nextSequence e; dn_state := es_revoked;
                dn_updatedAt := now; dn_revokedAt := Some now |}]> enrollments))
  end.

(** ** Conflicts *)

Definition is_unresolved (k : EntityKey) (c : SyncConflict) : bool :=
  bool_decide (cf_entity c = k) && bool_decide (cf_resolvedAt c = None).

(** [... resolved_at IS NULL ORDER BY created_at ASC LIMIT 1]. *)
Definition unresolved_conflict (k : EntityKey) (m : gmap string SyncConflict) : option (string * SyncConflict) :=
  head (rows_by (λ c, (cf_createdAt c, 0)) (is_unresolved k) m).

Definition getUnresolvedConflict (k : EntityKey) : LS (option (string * SyncConflict)) :=
  gets (λ s, unresolved_conflict k (ss_conflicts s)).

Definition with_remote (payload : option string) (revision : option Z) (kind : SyncConflictKind) (c : SyncConflict) : SyncConflict := {|
  cf_entity := cf_entity c; cf_basePayloadJson := cf_basePayloadJson c; cf_localPayloadJson := cf_localPayloadJson c;
  cf_remotePayloadJson := payload; cf_baseRevision := cf_baseRevision c; cf_remoteRevision := revision; cf_kind := kind;
  cf_createdAt := cf_createdAt c; cf_resolvedAt := cf_resolvedAt c; cf_resolution := cf_resolution c |}.

Definition with_resolution (now : Z) (resolution : SyncConflictResolution) (c : SyncConflict) : SyncConflict := {|
  cf_entity := cf_entity c; cf_basePayloadJson := cf_basePayloadJson c; cf_localPayloadJson := cf_localPayloadJson c;
  cf_remotePayloadJson := cf_remotePayloadJson c; cf_baseRevision := cf_baseRevision c;
  cf_remoteRevision := cf_remoteRevision c; cf_kind := cf_kind c; cf_createdAt := cf_createdAt c;
  cf_resolvedAt := Some now; cf_resolution := Some resolution |}.

Definition resolveConflict (now : Z) (id : string) (resolution : SyncConflictResolution) : LS unit :=
  conflicts ← gets ss_conflicts;
  match conflicts !! id with
  | None => throw (MkError None ("Unknown conflict " +:+ id +:+ ".") [])
  | Some c =>
      if negb (bool_decide (cf_resolvedAt c = None)) then
        throw (MkError None ("Conflict " +:+ id +:+ " is already resolved.") [])
      else set_conflicts (alter (with_resolution now resolution) id)
  end.

(** ** Rows of the outbox, for an entity *)

Definition mutable_states : list OutboxState := [os_pending; os_dispatched; os_conflict].

(** Rows that can still change outcome. *)
Definition listMutableOutboxRows (k : EntityKey) (s : SyncStore) : list (string * OutboxRow) :=
  outbox_rows (is_row k mutable_states) (ss_outbox s).

Definition deleteMutableOutboxRows (k : EntityKey) : LS unit := set_outbox (delete_where (is_row k mutable_states)).
Definition deletePendingOutboxRows (k : EntityKey) : LS unit := set_outbox (delete_where (is_row k [os_pending])).

Definition rejectDispatchedRows (k : EntityKey) (reason : string) : LS unit :=
  set_outbox (update_rows (is_row k [os_dispatched]) (with_result os_rejected (rejected_json reason))).
Definition rejectConflictedOutboxRows (k : EntityKey) (reason : string) : LS unit :=
  set_outbox (update_rows (is_row k [os_conflict]) (with_result os_rejected (rejected_json reason))).

(** ** Changes deferred while a workspace is paused *)

(** The newest one, or one that replaces it. *)
Definition storePausedInboundChange (k : EntityKey) (change : PausedInboundChange) (replace : bool) : LS unit :=
  modify (λ s, match ss_paused s !! k with
    | Some old => if (pi_revision old <? pi_revision change) || replace then put_paused (<[k := change]> (ss_paused s)) s else s
    | None => put_paused (<[k := change]> (ss_paused s)) s
    end).

Definition deletePausedInboundChange (k : EntityKey) : LS unit := modify (λ s, put_paused (delete k (ss_paused s)) s).

(** ** Retention *)

Definition LOCAL_SYNC_RETENTION_MS : Z := 90 * 24 * 60 * 60 * 1000.

Definition sweepLocalSyncRetention (now : Z) : LS unit :=
  let cutoff := now - LOCAL_SYNC_RETENTION_MS in
  _ ← set_outbox (delete_where (λ r, bool_decide (ob_state r ∈ [os_acknowledged; os_rejected]) &&
                                     (default (ob_created_at r) (ob_dispatched_at r) <? cutoff)));
  set_conflicts (delete_where (λ c, match cf_resolvedAt c with Some t => t <? cutoff | None => false end)).

(** ** Recording, dispatching and settling changes *)

(** The first upload of an entity is a creation. *)
Definition syncOperationForBinding (baseRevision : option Z) (operation : SyncOperation) : SyncOperation :=
  match operation with
  | op_delete => op_delete
  | _ => if baseRevision is Some _ then operation else op_create
  end.

Record RecordLocalChangeInput := {
  rl_entity : EntityKey;
  rl_schemaVersion : Z;
  rl_operation : SyncOperation;
  rl_payload : jsval;
}.

Record SealInput := { sl_entity : EntityKey; sl_operation : SyncOperation; sl_schemaVersion : Z; sl_payload : json }.

Record NextBatchOptions := {
  nb_maxChanges : Z;
  nb_maxBytes : Z;
  nb_entityBytes : Z;
  nb_shouldDispatch : EntityKey → bool;
  nb_onlyEntity : option EntityKey;
  (** [Ok None] defers a change. *)
  nb_seal : option (SealInput → LS (option json));
}.

Inductive PushResult :=
| pu_accepted (changeId : string) (revision : option Z)
| pu_conflict (changeId : string) (remotePayload : jsval) (remoteRevision : option Z)
| pu_rejected (changeId : string) (reason : option string)
| pu_reset_required (changeId : string)
| pu_receipt_expired (changeId : string).

Definition pu_changeId (r : PushResult) : string :=
  match r with
  | pu_accepted id _ | pu_conflict id _ _ | pu_rejected id _ | pu_reset_required id | pu_receipt_expired id => id
  end.

Record InsertConflictInput := {
  ii_entity : EntityKey;
  ii_basePayloadJson : option string;
  ii_localPayloadJson : option string;
  ii_remotePayloadJson : option string;
  ii_baseRevision : option Z;
  ii_remoteRevision : option Z;
  ii_kind : SyncConflictKind;
  ii_remoteSnapshotIsAuthoritative : bool;
}.

(** What [nextBatch] has chosen so far. *)
Record Filling := {
  fl_seen : list EntityKey;
  fl_batch : list (string * OutboxRow);
  fl_bytes : Z;
  fl_nextSequence : Z;
}.

Definition json_opt {A} (f : A → json) (o : option A) : json := match o with Some a => f a | None => JNull end.

Section Outbox.
Context (uuid : nat → string) (sha256Hex : string → string) (JSON_parse : string → option json).

Definition randomUUID : LS string := λ s, (Ok (uuid (ss_ids s)), put_ids (S (ss_ids s)) s).

Definition parse_json (text : string) : LS json :=
  match JSON_parse text with Some v => mret v | None => throw (MkError None "Unexpected token in JSON" []) end.

(** [null] for no text. *)
Definition parse_json_or_null (text : option string) : LS json :=
  match text with Some t => parse_json t | None => mret JNull end.

Definition computePayloadHash (k : EntityKey) (operation : SyncOperation) (schemaVersion : Z) (baseRevision : option Z)
    (payload : json) : string :=
  sha256Hex (canonicalChangeHashInput {|
    pc_changeId := ""; pc_enrollmentSequence := 0; pc_entityType := k.1; pc_entityId := k.2; pc_schemaVersion := schemaVersion;
    pc_baseRevision := baseRevision; pc_operation := operation; pc_payload := Some payload; pc_payloadHash := "" |}).

(** *** [recordLocalChange] *)

Definition with_coalesced (operation : SyncOperation) (payload : option string) (hash : string) (generation : Z)
    (r : OutboxRow) : OutboxRow := {|
  ob_enrollment_id := ob_enrollment_id r; ob_enrollment_sequence := ob_enrollment_sequence r; ob_entity := ob_entity r;
  ob_schema_version := ob_schema_version r; ob_base_revision := ob_base_revision r; ob_operation := operation;
  ob_payload_json := payload; ob_payload_hash := hash; ob_local_edit_generation := generation; ob_state := ob_state r;
  ob_created_at := ob_created_at r; ob_dispatched_at := ob_dispatched_at r; ob_result_json := ob_result_json r;
  ob_sealed_json := ob_sealed_json r; ob_rowid := ob_rowid r |}.

(** What a pending operation followed by another becomes. *)
Definition coalesced_operation (baseRevision : option Z) (pending input : SyncOperation) : SyncOperation :=
  if bool_decide (pending = op_delete) || bool_decide (input = op_delete) then
    if bool_decide (input = op_delete) then op_delete else syncOperationForBinding baseRevision op_update
  else syncOperationForBinding baseRevision pending.

(** A change joins the pending one of its entity. *)
Definition coalesce (input : RecordLocalChangeInput) (binding : SyncBinding) (generation : Z) (payloadJson : option string)
    (id : string) (row : OutboxRow) : LS (option string) :=
  if bool_decide (ob_operation row = op_create) && bool_decide (rl_operation input = op_delete) then
    _ ← set_outbox (delete id); mret None
  else
    let operation := coalesced_operation (bi_baseRevision binding) (ob_operation row) (rl_operation input) in
    let finalPayloadJson := if bool_decide (rl_operation input = op_delete) then None else payloadJson in
    payload ← parse_json_or_null finalPayloadJson;
    let hash := computePayloadHash (rl_entity input) operation (rl_schemaVersion input) (ob_base_revision row) payload in
    _ ← set_outbox (alter (with_coalesced operation finalPayloadJson hash generation) id);
    mret (Some id).

(** A new row; behind a dispatched one it waits for its base. *)
Definition enqueue (now : Z) (input : RecordLocalChangeInput) (binding : SyncBinding) (generation : Z)
    (payloadJson : option string) : LS (option string) :=
  let k := rl_entity input in
  dispatched ← gets (λ s, negb (Nat.eqb (length (outbox_rows (is_row k [os_dispatched]) (ss_outbox s))) 0));
  changeId ← randomUUID;
  let baseRevision := if (dispatched : bool) then None else bi_baseRevision binding in
  let operation := if dispatched then rl_operation input
                   else syncOperationForBinding (bi_baseRevision binding) (rl_operation input) in
  payload ← parse_json_or_null payloadJson;
  s ← get_state;
  _ ← insert_row ss_outbox put_outbox changeId {|
        ob_enrollment_id := default "" (getActiveEnrollment s); ob_enrollment_sequence := None; ob_entity := k;
        ob_schema_version := rl_schemaVersion input; ob_base_revision := baseRevision; ob_operation := operation;
        ob_payload_json := payloadJson;
        ob_payload_hash := computePayloadHash k operation (rl_schemaVersion input) baseRevision payload;
        ob_local_edit_generation := generation; ob_state := os_pending; ob_created_at := now; ob_dispatched_at := None;
        ob_result_json := None; ob_sealed_json := None; ob_rowid := ss_ids s |};
  mret (Some changeId).

Definition recordLocalChange (now : Z) (input : RecordLocalChangeInput) : LS (option string) :=
  let k := rl_entity input in
  bound ← getBinding k;
  binding ← (match bound with Some b => mret b | None => upsertBinding k None None None end);
  let generation := bi_localEditGeneration binding + 1 in
  _ ← set_bindings (alter (λ b, with_generations generation (bi_acknowledgedGeneration b) b) k);
  let payloadJson := canonicalJson <$> rl_payload input in
  pending ← gets (λ s, head (outbox_rows (is_row k [os_pending]) (ss_outbox s)));
  match pending with
  | Some (id, row) => coalesce input binding generation payloadJson id row
  | None => enqueue now input binding generation payloadJson
  end.

(** *** [nextBatch] *)

Definition toPendingChange (id : string) (row : OutboxRow) : LS PendingChange :=
  match ob_enrollment_sequence row with
  | None => throw (MkError None ("Change " +:+ id +:+ " was not sequenced.") [])
  | Some sequence =>
      let wireJson := if ob_sealed_json row is Some t then Some t else ob_payload_json row in
      payload ← (if bool_decide (ob_operation row = op_delete) then mret None
                 else match wireJson with None => mret None | Some t => v ← parse_json t; mret (Some v) end);
      mret {| pc_changeId := id; pc_enrollmentSequence := sequence; pc_entityType := (ob_entity row).1;
              pc_entityId := (ob_entity row).2; pc_schemaVersion := ob_schema_version row;
              pc_baseRevision := ob_base_revision row; pc_operation := ob_operation row; pc_payload := payload;
              pc_payloadHash := ob_payload_hash row |}
  end.

(** An unresolved conflict over the entity of a row, unless there is one. *)
Definition conflict_once (k : EntityKey) (conflict : SyncConflict) : LS unit :=
  unresolved ← getUnresolvedConflict k;
  match unresolved with
  | Some _ => mret tt
  | None => id ← randomUUID; insert_row ss_conflicts put_conflicts id conflict
  end.

(** The row's version against one the device does not know yet. *)
Definition conflict_over (now : Z) (row : OutboxRow) (binding : option SyncBinding) (remotePayload : option string)
    (remoteRevision : option Z) (kind : SyncConflictKind) : SyncConflict := {|
  cf_entity := ob_entity row; cf_basePayloadJson := binding ≫= bi_basePayloadJson;
  cf_localPayloadJson := ob_payload_json row; cf_remotePayloadJson := remotePayload;
  cf_baseRevision := match binding ≫= bi_baseRevision with Some r => Some r | None => ob_base_revision row end;
  cf_remoteRevision := remoteRevision; cf_kind := kind; cf_createdAt := now; cf_resolvedAt := None; cf_resolution := None |}.

Definition fence_row (now : Z) (r : string * OutboxRow) : LS unit :=
  let '(id, row) := r in
  let k := ob_entity row in
  _ ← set_outbox (alter (with_result os_rejected (rejected_json "enrollment-superseded")) id);
  binding ← getBinding k;
  conflict_once k (conflict_over now row binding None None
    (if bool_decide (ob_operation row = op_delete) then ck_delete_edit else ck_edit_edit)).

Definition orphaned (enrollmentId : string) (r : OutboxRow) : bool :=
  bool_decide (ob_state r = os_dispatched) && negb (String.eqb (ob_enrollment_id r) enrollmentId).

Definition fenceOrphanedDispatches (now : Z) (enrollmentId : string) : LS unit :=
  rows ← gets (λ s, outbox_rows (orphaned enrollmentId) (ss_outbox s));
  for_each rows (λ r _, fence_row now r) tt.

(** The row as it is sent: on the current base. *)
Definition with_dispatch (baseRevision : option Z) (operation : SyncOperation) (hash : string) (sequence : Z)
    (sealed : option string) (r : OutboxRow) : OutboxRow := {|
  ob_enrollment_id := ob_enrollment_id r; ob_enrollment_sequence := Some sequence; ob_entity := ob_entity r;
  ob_schema_version := ob_schema_version r; ob_base_revision := baseRevision; ob_operation := operation;
  ob_payload_json := ob_payload_json r; ob_payload_hash := hash; ob_local_edit_generation := ob_local_edit_generation r;
  ob_state := ob_state r; ob_created_at := ob_created_at r; ob_dispatched_at := ob_dispatched_at r;
  ob_result_json := ob_result_json r; ob_sealed_json := sealed; ob_rowid := ob_rowid r |}.

Definition reject_row (id : string) (reason : string) : LS unit :=
  set_outbox (alter (with_result os_rejected (rejected_json reason)) id).

(** The wire form of a row's payload: none to defer the row, [null] for no payload. *)
Definition wire_payload (options : NextBatchOptions) (row : OutboxRow) (operation : SyncOperation) (payload : json) :
    LS (option json) :=
  if bool_decide (operation = op_delete) then mret (Some JNull)
  else match payload, nb_seal options with
  | JNull, _ | _, None => mret (Some payload)
  | _, Some seal => seal {| sl_entity := ob_entity row; sl_operation := operation;
                            sl_schemaVersion := ob_schema_version row; sl_payload := payload |}
  end.

Definition change_size (id : string) (row : OutboxRow) (wire : json) : Z :=
  utf8ByteLength (JSON_stringify (JObj ([
    ("baseRevision", json_of_base (ob_base_revision row)); ("changeId", JStr id);
    ("enrollmentSequence", json_opt (JNum ∘ int) (ob_enrollment_sequence row)); ("entityId", JStr (ob_entity row).2);
    ("entityType", JStr (ob_entity row).1); ("operation", JStr (operation_text (ob_operation row)));
    ("payloadHash", JStr (ob_payload_hash row)); ("schemaVersion", JNum (int (ob_schema_version row)))] ++
    match wire with JNull => [] | _ => [("payload", wire)] end))).

Definition add_row (id : string) (row : OutboxRow) (size : Z) (f : Filling) : Filling := {|
  fl_seen := ob_entity row :: fl_seen f; fl_batch := fl_batch f ++ [(id, row)]; fl_bytes := fl_bytes f + size;
  fl_nextSequence := fl_nextSequence f + 1 |}.

(** The operation of a row on the base its binding has now; none if there is nothing to delete. *)
Definition rebased_operation (baseRevision : option Z) (operation : SyncOperation) : option SyncOperation :=
  match baseRevision, operation with
  | None, op_delete => None
  | None, _ => Some op_create
  | Some _, op_create => Some op_update
  | Some _, _ => Some operation
  end.

Fixpoint fill_batch (options : NextBatchOptions) (candidates : list (string * OutboxRow)) (f : Filling) : LS Filling :=
  match candidates with
  | [] => mret f
  | (id, row) :: rest =>
      let k := ob_entity row in
      if bool_decide (k ∈ fl_seen f) then fill_batch options rest f
      else
        binding ← getBinding k;
        let baseRevision := binding ≫= bi_baseRevision in
        match rebased_operation baseRevision (ob_operation row) with
        | None => _ ← set_outbox (delete id); fill_batch options rest f
        | Some operation =>
            payload ← parse_json_or_null (ob_payload_json row);
            wirePayload ← wire_payload options row operation payload;
            match wirePayload with
            | None => fill_batch options rest f
            | Some wire =>
                let sealedJson := match wire with JNull => None | _ => Some (canonicalJson wire) end in
                let payloadHash := computePayloadHash k operation (ob_schema_version row) baseRevision wire in
                let sent := with_dispatch baseRevision operation payloadHash (fl_nextSequence f) sealedJson row in
                let text := if sealedJson is Some t then t else default "" (ob_payload_json row) in
                let size := change_size id sent wire in
                if nb_entityBytes options <? utf8ByteLength text then
                  _ ← reject_row id "entity-too-large"; fill_batch options rest f
                else if nb_maxBytes options <? size then
                  _ ← reject_row id "change-too-large"; fill_batch options rest f
                else if nb_maxChanges options <=? Z.of_nat (length (fl_batch f)) then mret f
                else if nb_maxBytes options <? fl_bytes f + size then fill_batch options rest f
                else fill_batch options rest (add_row id sent size f)
            end
        end
  end.

Definition dispatched_row (now : Z) (enrollmentId : string) (sent r : OutboxRow) : OutboxRow := {|
  ob_enrollment_id := enrollmentId; ob_enrollment_sequence := ob_enrollment_sequence sent; ob_entity := ob_entity r;
  ob_schema_version := ob_schema_version r; ob_base_revision := ob_base_revision sent; ob_operation := ob_operation sent;
  ob_payload_json := ob_payload_json r; ob_payload_hash := ob_payload_hash sent;
  ob_local_edit_generation := ob_local_edit_generation r; ob_state := os_dispatched; ob_created_at := ob_created_at r;
  ob_dispatched_at := Some now; ob_result_json := ob_result_json r; ob_sealed_json := ob_sealed_json sent;
  ob_rowid := ob_rowid r |}.

(** The update of one row, under the unique index on the dispatched rows of an entity. *)
Definition dispatch_row (now : Z) (enrollmentId : string) (r : string * OutboxRow) : LS unit :=
  let '(id, sent) := r in
  taken ← gets (λ s, bool_decide (map_Exists (λ other row,
    other ≠ id ∧ is_row (ob_entity sent) [os_dispatched] row = true) (ss_outbox s)));
  _ ← ensure (negb taken) unique_violation;
  set_outbox (alter (dispatched_row now enrollmentId sent) id).

Definition only_entity (options : NextBatchOptions) (k : EntityKey) : bool :=
  match nb_onlyEntity options with Some only => bool_decide (k = only) | None => true end.

(** Rows already dispatched under the enrollment, [ORDER BY enrollment_sequence ASC]. *)
Definition outstanding (enrollmentId : string) (m : gmap string OutboxRow) : list (string * OutboxRow) :=
  rows_by (λ r, (default 0 (ob_enrollment_sequence r), 0))
    (λ r, bool_decide (ob_state r = os_dispatched) && String.eqb (ob_enrollment_id r) enrollmentId) m.

(** Pending rows of entities without an unresolved conflict that may be sent. *)
Definition candidate_rows (options : NextBatchOptions) (s : SyncStore) : list (string * OutboxRow) :=
  List.filter (λ r, bool_decide (unresolved_conflict (ob_entity r.2) (ss_conflicts s) = None) &&
                    only_entity options (ob_entity r.2) && nb_shouldDispatch options (ob_entity r.2))
    (outbox_rows (λ r, bool_decide (ob_state r = os_pending)) (ss_outbox s)).

Definition set_next (now sequence : Z) (e : DeviceEnrollment) : DeviceEnrollment := {|
  dn_nextSequence := sequence; dn_state := dn_state e; dn_updatedAt := now; dn_revokedAt := dn_revokedAt e |}.

(** A new batch, dispatched. *)
Definition fresh_batch (now : Z) (enrollmentId : string) (options : NextBatchOptions) : LS (list PendingChange) :=
  candidates ← gets (candidate_rows options);
  enrollment ← gets (λ s, ss_enrollments s !! enrollmentId);
  match enrollment with
  | None => throw (MkError None ("Unknown enrollment " +:+ enrollmentId +:+ ".") [])
  | Some e =>
      f ← fill_batch options candidates
            {| fl_seen := []; fl_batch := []; fl_bytes := 0; fl_nextSequence := dn_nextSequence e |};
      _ ← (match fl_batch f with
           | [] => mret tt
           | _ =>
               _ ← modify (λ s, put_enrollments (alter (set_next now (fl_nextSequence f)) enrollmentId (ss_enrollments s)) s);
               _ ← for_each (fl_batch f) (λ r _, dispatch_row now enrollmentId r) tt;
               updateSyncState (patch_pushed now)
           end);
      map_M (λ r, toPendingChange r.1 r.2) (fl_batch f)
  end.

Definition nextBatch (now : Z) (enrollmentId : string) (options : NextBatchOptions) : LS (list PendingChange) :=
  commit (
    _ ← (if nb_onlyEntity options is None then fenceOrphanedDispatches now enrollmentId else mret tt);
    dispatched ← gets (λ s, outstanding enrollmentId (ss_outbox s));
    if negb (forallb (λ r, only_entity options (ob_entity r.2)) dispatched) then mret []
    else match dispatched with
    | [] => fresh_batch now enrollmentId options
    | _ => map_M (λ r, toPendingChange r.1 r.2) dispatched
    end).

(** *** [applyPushResults] *)

(** The base moves forward only. *)
Definition advance_base (revision : option Z) (row : OutboxRow) (b : SyncBinding) : SyncBinding :=
  let forward := match bi_baseRevision b, revision with
                 | None, _ => true
                 | Some old, Some new => old <? new
                 | Some _, None => false
                 end in {|
  bi_baseRevision := if forward then revision else bi_baseRevision b;
  bi_basePayloadJson := if forward then ob_payload_json row else bi_basePayloadJson b;
  bi_localEditGeneration := bi_localEditGeneration b;
  bi_acknowledgedGeneration := Z.max (bi_acknowledgedGeneration b) (ob_local_edit_generation row);
  bi_quarantineJson := bi_quarantineJson b |}.

Definition settle_row (id : string) (st : OutboxState) (result : option json) : LS unit :=
  set_outbox (alter (with_result st (JSON_stringify <$> result)) id).

Definition apply_result (now : Z) (result : PushResult) : LS unit :=
  let id := pu_changeId result in
  row ← gets (λ s, ss_outbox s !! id);
  match row with
  | None => throw (MkError None ("Unknown change " +:+ id +:+ ".") [])
  | Some row =>
      let k := ob_entity row in
      let rejection reason := JObj [("status", JStr "rejected"); ("reason", reason)] in
      match result with
      | pu_accepted _ revision =>
          let revision' := if revision is Some r then Some r else ob_base_revision row in
          _ ← set_bindings (alter (advance_base revision' row) k);
          settle_row id os_acknowledged ((λ r, JObj [("revision", JNum (int r))]) <$> revision)
      | pu_conflict _ remotePayload remoteRevision =>
          binding ← getBinding k;
          let remotePayloadJson := canonicalJson <$> remotePayload in
          let kind := if bool_decide (ob_operation row = op_delete) then ck_delete_edit
                      else if remotePayloadJson is Some _ then ck_edit_edit else ck_edit_delete in
          _ ← conflict_once k (conflict_over now row binding remotePayloadJson remoteRevision kind);
          settle_row id os_conflict (Some (JObj [("remoteRevision", json_opt (JNum ∘ int) remoteRevision); ("status", JStr "conflict")]))
      | pu_rejected _ reason => settle_row id os_rejected (Some (rejection (json_opt JStr reason)))
      | pu_reset_required _ =>
          _ ← updateSyncState patch_reset; settle_row id os_rejected (Some (rejection (JStr "reset-required")))
      | pu_receipt_expired _ =>
          _ ← updateSyncState patch_reset; settle_row id os_rejected (Some (rejection (JStr "receipt-expired")))
      end
  end.

Definition applyPushResults (now : Z) (results : list PushResult) : LS unit :=
  commit (for_each results (λ r _, apply_result now r) tt).

(** *** [insertUnresolvedConflict] *)

(** A newer observation refreshes the remote side of an open conflict. *)
Definition refreshes (input : InsertConflictInput) (existing : SyncConflict) : bool :=
  ii_remoteSnapshotIsAuthoritative input ||
  match ii_remoteRevision input, cf_remoteRevision existing with
  | Some new, Some old => old <=? new
  | _, _ => true
  end.

Definition insertUnresolvedConflict (now : Z) (input : InsertConflictInput) : LS unit :=
  existing ← getUnresolvedConflict (ii_entity input);
  match existing with
  | Some (id, c) =>
      if refreshes input c then
        set_conflicts (alter (with_remote (ii_remotePayloadJson input) (ii_remoteRevision input) (ii_kind input)) id)
      else mret tt
  | None =>
      id ← randomUUID;
      insert_row ss_conflicts put_conflicts id {|
        cf_entity := ii_entity input; cf_basePayloadJson := ii_basePayloadJson input;
        cf_localPayloadJson := ii_localPayloadJson input; cf_remotePayloadJson := ii_remotePayloadJson input;
        cf_baseRevision := ii_baseRevision input; cf_remoteRevision := ii_remoteRevision input; cf_kind := ii_kind input;
        cf_createdAt := now; cf_resolvedAt := None; cf_resolution := None |}
  end.

End Outbox.
