(* ===== verification/SyncOutboxSound.v ===== *)
(** * Desktop app: the invariant of a device's outbox

    Lemmas on the tables of a device, the invariant of the outbox under every operation on
    them, and the batch that a request dispatches. *)

From stdpp Require Import base list strings gmap relations sorting.
From Stdlib Require Import ZArith Ascii Lia.
From S2P Require Import Prelude Transactions JsString JsValue SyncWire SyncTables SyncLog SyncClient SyncOutbox.

(** ** Queries *)

Lemma rows_by_elem {A} (key : A → Z * Z) p (m : gmap string A) id r :
  (id, r) ∈ rows_by key p m ↔ m !! id = Some r ∧ p r = true.
Proof.
  unfold rows_by. rewrite elem_of_sort_by, list_elem_of_In, filter_In, <- list_elem_of_In, elem_of_map_to_list. done.
Qed.

Lemma rows_by_head {A} (key : A → Z * Z) p (m : gmap string A) x :
  head (rows_by key p m) = Some x → m !! x.1 = Some x.2 ∧ p x.2 = true.
Proof.
  intros H. destruct x as [id r]. apply (rows_by_elem key). destruct (rows_by key p m) as [|y l]; [done|]. injection H as ->. by left.
Qed.

Lemma rows_by_none {A} (key : A → Z * Z) p (m : gmap string A) :
  head (rows_by key p m) = None ↔ ∀ id r, m !! id = Some r → p r = false.
Proof.
  split.
  - intros H id r Hr. destruct (p r) eqn:Hp; [|done]. assert (Hin : (id, r) ∈ rows_by key p m) by by apply rows_by_elem.
    destruct (rows_by key p m); [|done]. by apply not_elem_of_nil in Hin.
  - intros H. destruct (rows_by key p m) as [|[id r] l] eqn:Hl; [done|].
    assert (Hin : (id, r) ∈ rows_by key p m) by (rewrite Hl; by left). apply rows_by_elem in Hin as [Hr Hp].
    by rewrite (H _ _ Hr) in Hp.
Qed.

Lemma rows_by_empty {A} (key : A → Z * Z) p (m : gmap string A) :
  Nat.eqb (length (rows_by key p m)) 0 = true ↔ ∀ id r, m !! id = Some r → p r = false.
Proof. rewrite <- (rows_by_none key). by destruct (rows_by key p m). Qed.

Lemma is_row_spec k states r : is_row k states r = true ↔ ob_entity r = k ∧ ob_state r ∈ states.
Proof. unfold is_row. by rewrite andb_true_iff, !bool_decide_eq_true. Qed.

Lemma is_unresolved_spec k c : is_unresolved k c = true ↔ cf_entity c = k ∧ cf_resolvedAt c = None.
Proof. unfold is_unresolved. by rewrite andb_true_iff, !bool_decide_eq_true. Qed.

Lemma unresolved_some k m id c : unresolved_conflict k m = Some (id, c) → m !! id = Some c ∧ cf_entity c = k ∧ cf_resolvedAt c = None.
Proof. intros [Hc Hu]%rows_by_head. cbn in *. by apply is_unresolved_spec in Hu. Qed.

Lemma unresolved_none k m : unresolved_conflict k m = None ↔ ∀ id c, m !! id = Some c → cf_entity c = k → cf_resolvedAt c ≠ None.
Proof.
  unfold unresolved_conflict. rewrite rows_by_none. split; intros H id c Hc.
  - intros Hk Hr. specialize (H _ _ Hc). assert (Hu : is_unresolved k c = true) by by apply is_unresolved_spec. congruence.
  - destruct (is_unresolved k c) eqn:Hu; [|done]. apply is_unresolved_spec in Hu as [Hk Hr]. by destruct (H _ _ Hc Hk).
Qed.

Lemma update_rows_lookup {A} (p : A → bool) f (m : gmap string A) id :
  update_rows p f m !! id = (λ r, if p r then f r else r) <$> m !! id.
Proof. apply lookup_fmap. Qed.

Lemma delete_where_lookup {A} (p : A → bool) (m : gmap string A) id r :
  delete_where p m !! id = Some r ↔ m !! id = Some r ∧ p r = false.
Proof. unfold delete_where. by rewrite map_lookup_filter_Some. Qed.

Lemma filter_fst_NoDup {A B} (p : A * B → bool) (l : list (A * B)) : NoDup (fst <$> l) → NoDup (fst <$> List.filter p l).
Proof.
  induction l as [|x l IH]; cbn; [done|]. rewrite NoDup_cons. intros [Hx Hl]. destruct (p x); [|by apply IH].
  cbn. constructor; [|by apply IH]. intros (y & Hy & Hin)%list_elem_of_fmap. apply Hx. apply list_elem_of_fmap.
  exists y. split; [done|]. apply list_elem_of_In, filter_In in Hin as [Hin _]. by apply list_elem_of_In.
Qed.

Lemma upsert_conflicts k base payload q s : ss_conflicts (upsertBinding k base payload q s).2 = ss_conflicts s.
Proof. unfold upsertBinding, getBinding, gets, mbind, M_bind. cbn. by rewrite lookup_insert_eq. Qed.

(** ** Rows of the outbox *)

Definition settled_states : list OutboxState := [os_acknowledged; os_rejected].
Definition flight_states : list OutboxState := [os_dispatched; os_conflict].

Lemma flight_unsettled st : st ∈ flight_states → st ∉ settled_states.
Proof. unfold flight_states, settled_states. intros H. destruct st; compute_done || (exfalso; revert H; compute_done). Qed.
Lemma pending_unsettled : os_pending ∉ settled_states.
Proof. compute_done. Qed.
Lemma dispatched_flight : os_dispatched ∈ flight_states.
Proof. compute_done. Qed.
Lemma conflict_flight : os_conflict ∈ flight_states.
Proof. compute_done. Qed.
#[local] Hint Resolve flight_unsettled pending_unsettled dispatched_flight conflict_flight : core.

(** What a row may become while nothing is dispatched: settled, or it keeps its place. *)
Definition traced (r r' : OutboxRow) : Prop :=
  ob_entity r' = ob_entity r ∧
  (ob_state r' ∈ settled_states ∨
   (ob_state r' = ob_state r ∧ ob_enrollment_id r' = ob_enrollment_id r ∧ ob_enrollment_sequence r' = ob_enrollment_sequence r)).

#[export] Instance traced_preorder : PreOrder traced.
Proof.
  split; [intros r; split; [done|by right]|]. intros a b c [H1 H2] [K1 K2]. split; [congruence|].
  destruct K2 as [K2|(K2 & K3 & K4)]; [by left|]. rewrite K2. destruct H2 as [H2|(H2 & H3 & H4)]; [by left|]. right. by split_and!; congruence.
Qed.

Lemma traced_state r r' st : traced r r' → ob_state r' = st → st ∉ settled_states →
  ob_state r = st ∧ ob_enrollment_id r' = ob_enrollment_id r ∧ ob_enrollment_sequence r' = ob_enrollment_sequence r.
Proof. intros [_ [H|(H1 & H2 & H3)]] <- Hst; [done|]. by rewrite H1. Qed.

Definition one_open (m : gmap string SyncConflict) : Prop :=
  ∀ id c id' c', m !! id = Some c → m !! id' = Some c' → cf_entity c = cf_entity c' → cf_resolvedAt c = None →
    cf_resolvedAt c' = None → id = id'.

(** A step that dispatches and queues nothing and resolves nothing. *)
Record tame (s s' : SyncStore) : Prop := {
  ta_rows : ∀ id r', ss_outbox s' !! id = Some r' → ∃ r, ss_outbox s !! id = Some r ∧ traced r r';
  ta_open : ∀ k, unresolved_conflict k (ss_conflicts s) ≠ None → unresolved_conflict k (ss_conflicts s') ≠ None;
  ta_one : one_open (ss_conflicts s) → one_open (ss_conflicts s');
  ta_ids : (ss_ids s ≤ ss_ids s')%nat;
  ta_enrollments : ∀ e d, ss_enrollments s !! e = Some d →
    ∃ d', ss_enrollments s' !! e = Some d' ∧ dn_nextSequence d ≤ dn_nextSequence d';
}.

#[export] Instance tame_preorder : PreOrder tame.
Proof.
  split.
  - intros s. split; try done; [by intros id r Hr; exists r|intros e d Hd; exists d; split; [done|lia]].
  - intros a b c [H1 H2 H3 H4 H5] [K1 K2 K3 K4 K5]. split; [|by auto|by auto|lia|].
    + intros id r Hr. destruct (K1 _ _ Hr) as (r1 & Hr1 & T1). destruct (H1 _ _ Hr1) as (r2 & Hr2 & T2). exists r2. split; [done|by etrans].
    + intros e d Hd. destruct (H5 _ _ Hd) as (d1 & Hd1 & L1). destruct (K5 _ _ Hd1) as (d2 & Hd2 & L2). exists d2. split; [done|lia].
Qed.

(** The invariant of the outbox.  Of an entity, at most one change is pending and at most one
    is in flight or in conflict, and the latter only while a conflict is open, of which there
    is at most one; dispatched changes have sequences their enrollment has given out, each
    once.  [batch] are the ids of changes that await an answer. *)
Record sound (uuid : nat → string) (batch : list string) (s : SyncStore) : Prop := {
  so_pending : ∀ id r id' r', ss_outbox s !! id = Some r → ss_outbox s !! id' = Some r' → ob_entity r = ob_entity r' →
    ob_state r = os_pending → ob_state r' = os_pending → id = id';
  so_flight : ∀ id r id' r', ss_outbox s !! id = Some r → ss_outbox s !! id' = Some r' → ob_entity r = ob_entity r' →
    ob_state r ∈ flight_states → ob_state r' ∈ flight_states → id = id';
  so_conflict : ∀ id r, ss_outbox s !! id = Some r → ob_state r = os_conflict → unresolved_conflict (ob_entity r) (ss_conflicts s) ≠ None;
  so_open : one_open (ss_conflicts s);
  so_sequence : ∀ id r, ss_outbox s !! id = Some r → ob_state r = os_dispatched →
    ∃ n d, ob_enrollment_sequence r = Some n ∧ ss_enrollments s !! ob_enrollment_id r = Some d ∧ n < dn_nextSequence d;
  so_distinct : ∀ id r id' r', ss_outbox s !! id = Some r → ss_outbox s !! id' = Some r' → ob_state r = os_dispatched →
    ob_state r' = os_dispatched → ob_enrollment_id r = ob_enrollment_id r' → ob_enrollment_sequence r = ob_enrollment_sequence r' → id = id';
  so_issued : ∀ id r, ss_outbox s !! id = Some r → ∃ n, (n < ss_ids s)%nat ∧ id = uuid n;
  so_batch : ∀ id, id ∈ batch → ∃ n, (n < ss_ids s)%nat ∧ id = uuid n;
  so_alone : ∀ id r id' r', id ∈ batch → ss_outbox s !! id = Some r → ss_outbox s !! id' = Some r' → ob_entity r = ob_entity r' →
    ob_state r' ∈ flight_states ∨ id' ∈ batch → id = id';
}.

Lemma sound_tame uuid batch s s' : tame s s' → sound uuid batch s → sound uuid batch s'.
Proof.
  intros [T1 T2 T3 T4 T5] [S1 S2 S3 S4 S5 S6 S7 S8 S9].
  assert (Hs : ∀ id r' st, ss_outbox s' !! id = Some r' → ob_state r' = st → st ∉ settled_states →
    ∃ r, ss_outbox s !! id = Some r ∧ ob_entity r' = ob_entity r ∧ ob_state r = st ∧ ob_enrollment_id r' = ob_enrollment_id r ∧
      ob_enrollment_sequence r' = ob_enrollment_sequence r).
  { intros id r' st Hr Hst Hn. destruct (T1 _ _ Hr) as (r & Hr0 & Ht). exists r. split; [done|]. split; [apply Ht|].
    by apply (traced_state r r' st). }
  assert (Hf : ∀ id r', ss_outbox s' !! id = Some r' → ob_state r' ∈ flight_states →
    ∃ r, ss_outbox s !! id = Some r ∧ ob_entity r' = ob_entity r ∧ ob_state r ∈ flight_states).
  { intros id r' Hr Hst. destruct (Hs _ _ _ Hr eq_refl) as (r & Hr0 & He & Hst0 & _).
    - by apply flight_unsettled.
    - exists r. by rewrite Hst0. }
  split.
  - intros id r id' r' Hr Hr' He Hp Hp'. destruct (Hs _ _ _ Hr Hp) as (q & Hq & Hqe & Hqs & _); [by auto|].
    destruct (Hs _ _ _ Hr' Hp') as (q' & Hq' & Hqe' & Hqs' & _); [by auto|]. apply (S1 id q id' q'); congruence.
  - intros id r id' r' Hr Hr' He Hp Hp'. destruct (Hf _ _ Hr Hp) as (q & Hq & Hqe & Hqs).
    destruct (Hf _ _ Hr' Hp') as (q' & Hq' & Hqe' & Hqs'). apply (S2 id q id' q'); congruence.
  - intros id r Hr Hc. destruct (Hs _ _ _ Hr Hc) as (q & Hq & Hqe & Hqs & _); [by auto|]. rewrite Hqe. apply T2. by eapply S3.
  - by apply T3.
  - intros id r Hr Hd. destruct (Hs _ _ _ Hr Hd) as (q & Hq & Hqe & Hqs & He & Hsq); [by auto|].
    destruct (S5 _ _ Hq Hqs) as (n & d & Hn & Hd' & Hlt). destruct (T5 _ _ Hd') as (d' & Hd'' & Hle). exists n, d'.
    rewrite Hsq, He. split_and!; [done|done|lia].
  - intros id r id' r' Hr Hr' Hp Hp' He Hn. destruct (Hs _ _ _ Hr Hp) as (q & Hq & Hqe & Hqs & H1 & H2); [by auto|].
    destruct (Hs _ _ _ Hr' Hp') as (q' & Hq' & Hqe' & Hqs' & H1' & H2'); [by auto|]. apply (S6 id q id' q'); congruence.
  - intros id r Hr. destruct (T1 _ _ Hr) as (r0 & Hr0 & _). destruct (S7 _ _ Hr0) as (n & Hn & ->). exists n. split; [lia|done].
  - intros id Hid. destruct (S8 _ Hid) as (n & Hn & ->). exists n. split; [lia|done].
  - intros id r id' r' Hid Hr Hr' He Hp'. destruct (T1 _ _ Hr) as (q & Hq & Ht & _). destruct (T1 _ _ Hr') as (q' & Hq' & Ht' & _).
    apply (S9 id q id' q'); [done..|congruence|]. destruct Hp' as [Hp'|]; [|by right]. destruct (Hf _ _ Hr' Hp') as (q2 & Hq2 & _ & Hqs').
    left. congruence.
Qed.

(** ** Steps that are tame *)

(** A step that leaves outbox, conflicts and enrollments alone. *)
Lemma tame_same s s' : ss_outbox s' = ss_outbox s → ss_conflicts s' = ss_conflicts s → ss_ids s' = ss_ids s →
  ss_enrollments s' = ss_enrollments s → tame s s'.
Proof.
  intros Ho Hc Hi He. split; rewrite ?Ho, ?Hc, ?Hi, ?He; try done; [intros id r Hr; by exists r|intros e d Hd; exists d; split; [done|lia]].
Qed.

Lemma tame_outbox f : (∀ m id r', f m !! id = Some r' → ∃ r, m !! id = Some r ∧ traced r r') → moves tame (set_outbox f).
Proof. intros Hf s. split; cbn; try done; [apply Hf|intros e d Hd; exists d; split; [done|lia]]. Qed.

Lemma tame_alter_row f id : (∀ r, traced r (f r)) → moves tame (set_outbox (alter f id)).
Proof.
  intros Hf. apply tame_outbox. intros m j r'. destruct (decide (id = j)) as [<-|Hj]; [|rewrite lookup_alter_ne by done; intros Hr; by exists r'].
  rewrite lookup_alter_eq. intros (r & Hr & ->)%fmap_Some. by exists r.
Qed.

Lemma tame_update_rows p f : (∀ r, p r = true → traced r (f r)) → moves tame (set_outbox (update_rows p f)).
Proof.
  intros Hf. apply tame_outbox. intros m j r'. rewrite update_rows_lookup. intros (r & Hr & ->)%fmap_Some. exists r. split; [done|].
  destruct (p r) eqn:E; [by apply Hf|done].
Qed.

Lemma tame_delete_where p : moves tame (set_outbox (delete_where p)).
Proof. apply tame_outbox. intros m j r' [Hr _]%delete_where_lookup. by exists r'. Qed.

Lemma tame_delete_row id : moves tame (set_outbox (delete id)).
Proof. apply tame_outbox. intros m j r' [_ Hr]%lookup_delete_Some. by exists r'. Qed.

Lemma tame_bindings f : moves tame (set_bindings f).
Proof. intros s. by apply tame_same. Qed.

Lemma tame_upsert k base payload q : moves tame (upsertBinding k base payload q).
Proof.
  unfold upsertBinding. apply moves_bind; [apply _|easy|]. intros existing. apply moves_bind; [apply _|apply tame_bindings|].
  intros _. apply moves_bind; [apply _|easy|]. intros [b|]; easy.
Qed.

Lemma tame_set_base k revision payload : moves tame (setBindingBase k revision payload).
Proof.
  unfold setBindingBase. apply moves_bind; [apply _|easy|]. intros [b|]; [apply tame_bindings|].
  apply moves_bind; [apply _|apply tame_upsert|easy].
Qed.

Lemma tame_set_quarantine k q : moves tame (setBindingQuarantine k q).
Proof.
  unfold setBindingQuarantine. apply moves_bind; [apply _|easy|]. intros [b|]; [apply tame_bindings|].
  apply moves_bind; [apply _|apply tame_upsert|easy].
Qed.

Lemma tame_state patch : moves tame (updateSyncState patch).
Proof. intros s. by apply tame_same. Qed.

Lemma tame_paused k p b : moves tame (storePausedInboundChange k p b).
Proof. intros s. unfold storePausedInboundChange, modify. cbn. destruct (ss_paused s !! k); [destruct (_ || _)|]; by apply tame_same. Qed.

Lemma tame_delete_paused k : moves tame (deletePausedInboundChange k).
Proof. intros s. by apply tame_same. Qed.

Lemma tame_parse JSON_parse text : moves tame (parse_json JSON_parse text).
Proof. intros s. unfold parse_json. by destruct (JSON_parse text). Qed.

Lemma tame_parse_null JSON_parse text : moves tame (parse_json_or_null JSON_parse text).
Proof. destruct text; [apply tame_parse|easy]. Qed.

Lemma tame_uuid uuid : moves tame (randomUUID uuid).
Proof. intros s. split; cbn; try done; [intros id r Hr; by exists r|lia|intros e d Hd; exists d; split; [done|lia]]. Qed.

Lemma tame_enroll now id state : moves tame (upsertEnrollment now id state).
Proof.
  intros s. split; cbn; try done; [intros j r Hr; by exists r|]. intros e d Hd. destruct (decide (id = e)) as [<-|Hne].
  - rewrite lookup_insert_eq, Hd. eexists. split; [done|]. cbn. lia.
  - rewrite lookup_insert_ne by done. exists d. split; [done|lia].
Qed.

Lemma tame_revoke now id : moves tame (revokeEnrollment now id).
Proof.
  intros s. unfold revokeEnrollment, gets, mbind, M_bind. destruct (ss_enrollments s !! id) as [x|] eqn:E; [|done].
  split; cbn; try done; [intros j r Hr; by exists r|]. intros e d Hd. destruct (decide (id = e)) as [<-|Hne].
  - rewrite lookup_insert_eq. eexists. split; [done|]. cbn. replace d with x by congruence. lia.
  - rewrite lookup_insert_ne by done. exists d. split; [done|lia].
Qed.

(** A conflict is inserted when none is open. *)
Lemma tame_insert uuid c : cf_resolvedAt c = None → moves_ok tame (conflict_once uuid (cf_entity c) c).
Proof.
  intros Hc s u s'. unfold conflict_once, getUnresolvedConflict, gets, mbind, M_bind.
  destruct (unresolved_conflict _ _) as [x|] eqn:Hu; [by intros [= _ <-]|]. unfold randomUUID, insert_row. cbn.
  destruct (ss_conflicts s !! uuid (ss_ids s)) eqn:Hf; [done|]. intros [= _ <-]. rewrite unresolved_none in Hu.
  split; cbn; [intros j r Hr; by exists r| | |lia|intros e d Hd; exists d; split; [done|lia]].
  - intros k Hk. rewrite unresolved_none. contradict Hk. rewrite unresolved_none. intros id c' Hc'. apply (Hk id).
    rewrite lookup_insert_ne; [done|]. congruence.
  - intros Ho id1 c1 id2 c2 [[<- <-]|[H1 H1']]%lookup_insert_Some [[<- <-]|[H2 H2']]%lookup_insert_Some He R1 R2; [done|..].
    + by destruct (Hu _ _ H2').
    + by destruct (Hu _ _ H1').
    + by eapply (Ho id1 c1 id2 c2).
Qed.

(** What a change of a conflict's content keeps. *)
Lemma open_alter f id m k : (∀ c, cf_entity (f c) = cf_entity c ∧ cf_resolvedAt (f c) = cf_resolvedAt c) →
  unresolved_conflict k m ≠ None → unresolved_conflict k (alter f id m) ≠ None.
Proof.
  intros Hf Hk. contradict Hk. rewrite unresolved_none in Hk |- *. intros j c Hc He. destruct (Hf c) as [H1 H2].
  destruct (decide (id = j)) as [<-|Hj].
  - rewrite <- H2. apply (Hk id); [by rewrite lookup_alter_eq, Hc|congruence].
  - apply (Hk j); [by rewrite lookup_alter_ne|done].
Qed.

Lemma one_alter f id m : (∀ c, cf_entity (f c) = cf_entity c ∧ (cf_resolvedAt (f c) = None → cf_resolvedAt c = None)) →
  one_open m → one_open (alter f id m).
Proof.
  intros Hf Ho. assert (Hl : ∀ j c', alter f id m !! j = Some c' → ∃ c, m !! j = Some c ∧ cf_entity c' = cf_entity c ∧
    (cf_resolvedAt c' = None → cf_resolvedAt c = None)).
  { intros j c'. destruct (decide (id = j)) as [<-|Hj]; [|rewrite lookup_alter_ne by done; intros Hc; by exists c'].
    rewrite lookup_alter_eq. intros (c & Hc & ->)%fmap_Some. exists c. split; [done|apply Hf]. }
  intros id1 c1 id2 c2 H1 H2 He R1 R2. destruct (Hl _ _ H1) as (d1 & D1 & E1 & F1). destruct (Hl _ _ H2) as (d2 & D2 & E2 & F2).
  apply (Ho id1 d1 id2 d2); [done|done|congruence|auto|auto].
Qed.

Lemma tame_insert_unresolved uuid now input : moves tame (insertUnresolvedConflict uuid now input).
Proof.
  intros s. unfold insertUnresolvedConflict. set (c := Build_SyncConflict _ _ _ _ _ _ _ _ _ _).
  pose proof (tame_insert uuid c eq_refl s) as Hc. unfold conflict_once in Hc.
  unfold getUnresolvedConflict, gets, mbind, M_bind in *. change (cf_entity c) with (ii_entity input) in Hc.
  destruct (unresolved_conflict _ _) as [[id x]|] eqn:Hu.
  - destruct (refreshes input x); [|done]. split; cbn; [intros j r Hr; by exists r| | |lia|intros e d Hd; exists d; split; [done|lia]].
    + intros k. by apply open_alter.
    + by apply one_alter.
  - unfold randomUUID, insert_row in *. cbn in Hc |- *. destruct (ss_conflicts s !! uuid (ss_ids s)); [apply (tame_uuid uuid)|].
    by eapply Hc.
Qed.

(** A conflict keeps its entity. *)
Lemma insert_entity uuid now input id s : (∀ c, ss_conflicts s !! id = Some c → cf_entity c = ii_entity input) →
  ∀ c, ss_conflicts (insertUnresolvedConflict uuid now input s).2 !! id = Some c → cf_entity c = ii_entity input.
Proof.
  intros Hid c. unfold insertUnresolvedConflict, getUnresolvedConflict, gets, mbind, M_bind.
  destruct (unresolved_conflict _ _) as [[i x]|].
  - destruct (refreshes input x); [|apply Hid]. cbn. destruct (decide (i = id)) as [->|Hi]; [|rewrite lookup_alter_ne by done; apply Hid].
    rewrite lookup_alter_eq. intros (y & Hy & ->)%fmap_Some. exact (Hid y Hy).
  - unfold randomUUID, insert_row. cbn. destruct (ss_conflicts s !! uuid (ss_ids s)); [apply Hid|]. cbn.
    intros [[_ <-]|[_ Hc]]%lookup_insert_Some; [done|by apply Hid].
Qed.

Lemma result_traced st result r : st ∈ settled_states → traced r (with_result st result r).
Proof. by split; [|left]. Qed.

Lemma tame_reject_dispatched k reason : moves tame (rejectDispatchedRows k reason).
Proof. apply tame_update_rows. intros r _. by apply result_traced; compute_done. Qed.
Lemma tame_reject_conflicted k reason : moves tame (rejectConflictedOutboxRows k reason).
Proof. apply tame_update_rows. intros r _. by apply result_traced; compute_done. Qed.
Lemma tame_reject_row id reason : moves tame (reject_row id reason).
Proof. apply tame_alter_row. intros r. by apply result_traced; compute_done. Qed.

Lemma tame_sweep now : moves tame (sweepLocalSyncRetention now).
Proof.
  unfold sweepLocalSyncRetention. apply moves_bind; [apply _|apply tame_delete_where|]. intros _ s.
  split; cbn; [intros j r Hr; by exists r| | |lia|intros e d Hd; exists d; split; [done|lia]].
  - intros k Hk. contradict Hk. rewrite unresolved_none in Hk |- *. intros id c Hc He Hr. apply (Hk id c); [|done..].
    apply delete_where_lookup. by rewrite Hr.
  - intros Ho id1 c1 id2 c2 [H1 _]%delete_where_lookup [H2 _]%delete_where_lookup. by apply Ho.
Qed.

Lemma tame_fence uuid now enrollmentId : moves_ok tame (fenceOrphanedDispatches uuid now enrollmentId).
Proof.
  unfold fenceOrphanedDispatches. apply moves_ok_bind; [apply _|apply moves_ok_reads; [apply _|by intros ?]|]. intros rows.
  apply moves_for_each; [apply _|]. intros [id row] _ _. cbn.
  apply moves_ok_bind; [apply _| |]; [apply moves_moves_ok, (tame_reject_row id "enrollment-superseded")|]. intros _.
  apply moves_ok_bind; [apply _|apply moves_ok_reads; [apply _|by intros ?]|]. intros binding. by apply (tame_insert uuid (conflict_over _ _ _ _ _ _)).
Qed.

Create HintDb tame discriminated.
#[export] Hint Resolve tame_bindings tame_upsert tame_set_base tame_set_quarantine tame_state tame_paused tame_delete_paused tame_parse
  tame_parse_null tame_uuid tame_enroll tame_revoke tame_insert_unresolved tame_reject_dispatched tame_reject_conflicted tame_reject_row
  tame_sweep tame_delete_where tame_delete_row : tame.

(** ** Queueing a change *)

Section Invariant.
Context (uuid : nat → string) `{!Inj (=) (=) uuid} (sha256Hex : string → string) (JSON_parse : string → option json).
Context (batch : list string).
Notation sound := (sound uuid batch).

Definition keeps (s s' : SyncStore) : Prop := sound s → sound s'.

#[export] Instance keeps_preorder : PreOrder keeps.
Proof. split; [intros s Hs; exact Hs|]. intros a b c H1 H2 Ha. auto. Qed.

Lemma tame_keeps {A} (m : LS A) : moves tame m → moves keeps m.
Proof using Type. intros Hm s. unfold keeps. apply sound_tame, Hm. Qed.

Definition no_pending (k : EntityKey) (s : SyncStore) : Prop :=
  ∀ id r, ss_outbox s !! id = Some r → ob_entity r = k → ob_state r ≠ os_pending.
Definition no_conflict (k : EntityKey) (s : SyncStore) : Prop :=
  ∀ id r, ss_outbox s !! id = Some r → ob_entity r = k → ob_state r ≠ os_conflict.

Lemma pending_none k s : head (outbox_rows (is_row k [os_pending]) (ss_outbox s)) = None ↔ no_pending k s.
Proof using Type.
  unfold outbox_rows. rewrite rows_by_none. split; intros H id r Hr.
  - intros Hk Hs. specialize (H _ _ Hr). assert (Ht : is_row k [os_pending] r = true); [|congruence].
    apply is_row_spec. split; [done|]. rewrite Hs. by left.
  - destruct (is_row k [os_pending] r) eqn:E; [|done]. apply is_row_spec in E as [Hk Hs%list_elem_of_singleton]. by destruct (H _ _ Hr Hk).
Qed.

(** A new pending row of an entity that has none. *)
Lemma insert_sound s row : sound s → ob_state row = os_pending → no_pending (ob_entity row) s → ss_outbox s !! uuid (ss_ids s) = None →
  sound (put_outbox (<[uuid (ss_ids s) := row]> (ss_outbox s)) (put_ids (S (ss_ids s)) s)).
Proof using Inj0.
  intros [S1 S2 S3 S4 S5 S6 S7 S8 S9] Hst Hnp Hid. set (i := uuid (ss_ids s)) in *.
  assert (Hcase : ∀ j r, <[i := row]> (ss_outbox s) !! j = Some r → (j = i ∧ r = row) ∨ (j ≠ i ∧ ss_outbox s !! j = Some r)).
  { intros j r [[<- <-]|[H1 H2]]%lookup_insert_Some; [by left|by right]. }
  assert (Hnf : ob_state row ∉ flight_states) by (rewrite Hst; compute_done).
  split; cbn; try done.
  - intros j r j' r' [[-> ->]|[Hj Hr]]%Hcase [[-> ->]|[Hj' Hr']]%Hcase He Hp Hp'; [done|..].
    + by destruct (Hnp _ _ Hr').
    + by destruct (Hnp _ _ Hr).
    + by eapply S1.
  - intros j r j' r' [[-> ->]|[Hj Hr]]%Hcase [[-> ->]|[Hj' Hr']]%Hcase He Hp Hp'; try done. by eapply S2.
  - intros j r [[-> ->]|[Hj Hr]]%Hcase Hc; [by rewrite Hst in Hc|by eapply S3].
  - intros j r [[-> ->]|[Hj Hr]]%Hcase Hc; [by rewrite Hst in Hc|by eapply S5].
  - intros j r j' r' [[-> ->]|[Hj Hr]]%Hcase [[-> ->]|[Hj' Hr']]%Hcase Hp Hp'; try (rewrite Hst in Hp || rewrite Hst in Hp'; done). by eapply S6.
  - intros j r [[-> ->]|[Hj Hr]]%Hcase; [exists (ss_ids s); split; [lia|done]|]. destruct (S7 _ _ Hr) as (n & Hn & ->). exists n. split; [lia|done].
  - intros j Hj. destruct (S8 _ Hj) as (n & Hn & ->). exists n. split; [lia|done].
  - assert (Hi : i ∉ batch) by (intros Hin; destruct (S8 _ Hin) as (n & Hn & Heq%Inj0); lia).
    intros j r j' r' Hin [[-> ->]|[Hj Hr]]%Hcase [[-> ->]|[Hj' Hr']]%Hcase He Hf; try done; [|by eapply S9]. by destruct Hf.
Qed.

(** What [enqueue] does when it returns. *)
Lemma enqueue_run now input binding generation payload s a s' :
  enqueue uuid sha256Hex JSON_parse now input binding generation payload s = (Ok a, s') →
  ∃ row, ob_state row = os_pending ∧ ob_entity row = rl_entity input ∧ ss_outbox s !! uuid (ss_ids s) = None ∧
    s' = put_outbox (<[uuid (ss_ids s) := row]> (ss_outbox s)) (put_ids (S (ss_ids s)) s).
Proof using Type.
  unfold enqueue. intros H. step_back H d s1 H1. injection H1 as _ <-. step_back H i s2 H2. injection H2 as <- <-.
  step_back H p s3 H3. assert (s3 = put_ids (S (ss_ids s)) s) as ->.
  { revert H3. destruct payload as [t|]; [|by intros [= _ <-]]. cbn. unfold parse_json. by destruct (JSON_parse t); intros [= _ <-]. }
  step_back H st s4 H4. injection H4 as <- <-. step_back H u s5 H5. injection H as _ <-.
  unfold insert_row in H5. cbn in H5. destruct (ss_outbox s !! uuid (ss_ids s)) eqn:E; [done|]. injection H5 as _ <-. eexists.
  split_and!; [| |done|reflexivity]; done.
Qed.

(** Tame, and conflicts and enrollments stay. *)
Definition kept (s s' : SyncStore) : Prop :=
  tame s s' ∧ ss_conflicts s' = ss_conflicts s ∧ ss_enrollments s' = ss_enrollments s.

#[export] Instance kept_preorder : PreOrder kept.
Proof. split; [intros s; by split|]. intros a b c (H1 & H2 & H3) (K1 & K2 & K3). split_and!; [by etrans|congruence|congruence]. Qed.

Lemma kept_same s s' : ss_outbox s' = ss_outbox s → ss_conflicts s' = ss_conflicts s → ss_ids s' = ss_ids s →
  ss_enrollments s' = ss_enrollments s → kept s s'.
Proof using Type. intros. split; [by apply tame_same|done]. Qed.

Lemma kept_outbox f : moves tame (set_outbox f) → moves kept (set_outbox f).
Proof using Type. intros Hf s. split; [apply Hf|done]. Qed.

Lemma kept_upsert k base payload q : moves kept (upsertBinding k base payload q).
Proof using Type.
  intros s. split_and!; [apply tame_upsert|apply upsert_conflicts|]. unfold upsertBinding, getBinding, gets, mbind, M_bind. cbn.
  by rewrite lookup_insert_eq.
Qed.

Lemma kept_bindings f : moves kept (set_bindings f).
Proof using Type. intros s. by apply kept_same. Qed.

Lemma kept_set_base k revision payload : moves kept (setBindingBase k revision payload).
Proof using Type.
  unfold setBindingBase. apply moves_bind; [apply _|easy|]. intros [b|]; [apply kept_bindings|].
  apply moves_bind; [apply _|apply kept_upsert|easy].
Qed.

Lemma kept_state patch : moves kept (updateSyncState patch).
Proof using Type. intros s. by apply kept_same. Qed.

Lemma kept_parse text : moves kept (parse_json JSON_parse text).
Proof using Type. intros s. unfold parse_json. by destruct (JSON_parse text). Qed.

Lemma kept_parse_null text : moves kept (parse_json_or_null JSON_parse text).
Proof using Type. destruct text; [apply kept_parse|easy]. Qed.

Lemma kept_no_conflict k s s' : tame s s' → no_conflict k s → no_conflict k s'.
Proof using Type.
  intros [T _ _ _ _] Hn id r Hr Hk Hc. destruct (T _ _ Hr) as (r0 & Hr0 & Ht). apply (Hn id r0 Hr0); [rewrite <- Hk; symmetry; apply Ht|].
  destruct (traced_state r0 r os_conflict Ht Hc) as [Hs _]; auto.
Qed.

Lemma coalesce_kept input binding generation payload id row : moves kept (coalesce sha256Hex JSON_parse input binding generation payload id row).
Proof using Type.
  unfold coalesce. destruct (_ && _).
  - apply moves_bind; [apply _|apply kept_outbox, tame_delete_row|easy].
  - apply moves_bind; [apply _|apply kept_parse_null|]. intros p. apply moves_bind; [apply _| |easy].
    apply kept_outbox, tame_alter_row. intros r. split; [done|by right].
Qed.

(** What recording a change leaves of the invariant and of conflicts. *)
Record recorded (s s' : SyncStore) : Prop := {
  re_sound : sound s → sound s';
  re_conflicts : ss_conflicts s' = ss_conflicts s;
  re_no_conflict : ∀ k, no_conflict k s → no_conflict k s';
}.

#[export] Instance recorded_preorder : PreOrder recorded.
Proof. split; [intros s; by split|]. intros a b c [H1 H2 H3] [K1 K2 K3]. split; [auto|congruence|auto]. Qed.

Lemma kept_recorded s s' : kept s s' → recorded s s'.
Proof using Type. intros (Ht & Hc & _). split; [by apply sound_tame|done|]. intros k. by apply kept_no_conflict. Qed.

Lemma record_ok now input : moves_ok recorded (recordLocalChange uuid sha256Hex JSON_parse now input).
Proof using Inj0.
  intros s a s' H. unfold recordLocalChange in H. set (k := rl_entity input) in *.
  step_back H bound s0 H0. injection H0 as _ <-.
  step_back H b s1 H1. assert (K1 : kept s s1).
  { destruct bound as [b0|]; [by injection H1 as _ <-|]. pose proof (kept_upsert k None None None s) as Hc. by rewrite H1 in Hc. }
  step_back H u s2 H2. assert (K2 : kept s1 s2) by (injection H2 as _ <-; by apply kept_same).
  step_back H pending s3 H3. injection H3 as Hpend <-. transitivity s2; [apply kept_recorded; by etrans|].
  destruct pending as [[id row]|].
  { apply kept_recorded. pose proof (coalesce_kept input b (bi_localEditGeneration b + 1) (canonicalJson <$> rl_payload input) id row s2) as Hc.
    by rewrite H in Hc. }
  rewrite pending_none in Hpend. apply enqueue_run in H as (row & Hst & Hk & Hid & ->). split; [|done|].
  - intros Hs. apply insert_sound; [done|done|by rewrite Hk|done].
  - intros k' Hn id r Hr. apply (lookup_insert_Some (ss_outbox s2)) in Hr as [[<- <-]|[_ Hr]]; [by rewrite Hst|by apply (Hn id)].
Qed.

(** ** Settling changes *)

(** A conflict is resolved once no row of its entity is in conflict. *)
Lemma resolve_sound now id resolution s a s' : resolveConflict now id resolution s = (Ok a, s') →
  (∀ c, ss_conflicts s !! id = Some c → no_conflict (cf_entity c) s) → sound s → sound s'.
Proof using Type.
  unfold resolveConflict, gets, mbind, M_bind. destruct (ss_conflicts s !! id) as [c|] eqn:E; [|done].
  destruct (negb _); [done|]. intros [= _ <-] Hn [S1 S2 S3 S4 S5 S6 S7 S8 S9]. specialize (Hn _ eq_refl). split; cbn; try done.
  - intros j r Hr Hc Hu. apply (S3 _ _ Hr Hc). rewrite unresolved_none in Hu |- *. intros i c' Hc' He.
    destruct (decide (i = id)) as [->|Hi]; [|by apply (Hu i); [rewrite lookup_alter_ne|]].
    replace c' with c in He by congruence. by destruct (Hn _ _ Hr).
  - apply one_alter; [|done]. by split.
Qed.

Lemma alter_row_lookup (f : OutboxRow → OutboxRow) id (m : gmap string OutboxRow) j r' : alter f id m !! j = Some r' →
  ∃ r, m !! j = Some r ∧ r' = (if decide (j = id) then f r else r).
Proof using Type.
  destruct (decide (j = id)) as [->|Hj]; [rewrite lookup_alter_eq|rewrite lookup_alter_ne by done; intros Hr; by exists r'].
  intros (r & Hr & ->)%fmap_Some. by exists r.
Qed.

(** The row of an answered change is in conflict from then on. *)
Lemma conflict_sound id result s : sound s → id ∈ batch →
  (∀ r, ss_outbox s !! id = Some r → unresolved_conflict (ob_entity r) (ss_conflicts s) ≠ None) →
  sound (put_outbox (alter (with_result os_conflict result) id (ss_outbox s)) s).
Proof using Type.
  intros [S1 S2 S3 S4 S5 S6 S7 S8 S9] Hid Ho.
  assert (Hl : ∀ j r', alter (with_result os_conflict result) id (ss_outbox s) !! j = Some r' → ∃ r, ss_outbox s !! j = Some r ∧
    ob_entity r' = ob_entity r ∧ ((j = id ∧ ob_state r' = os_conflict) ∨ (j ≠ id ∧ r' = r))).
  { intros j r' (r & Hr & ->)%alter_row_lookup. exists r. split; [done|]. case_decide; [split; [done|by left]|split; [done|by right]]. }
  split; cbn; try done.
  - intros j r j' r' (q & Hq & He & Hc)%Hl (q' & Hq' & He' & Hc')%Hl Heq Hp Hp'.
    destruct Hc as [[_ Hc]|[_ ->]]; [congruence|]. destruct Hc' as [[_ Hc]|[_ ->]]; [congruence|]. by eapply S1.
  - intros j r j' r' (q & Hq & He & Hc)%Hl (q' & Hq' & He' & Hc')%Hl Heq Hp Hp'.
    destruct Hc as [[-> _]|[_ ->]], Hc' as [[-> _]|[_ ->]]; [done| | |by eapply S2].
    + apply (S9 id q j' q'); [done..|congruence|by left].
    + symmetry. apply (S9 id q' j q); [done..|congruence|by left].
  - intros j r (q & Hq & He & Hc)%Hl Hs. rewrite He. destruct Hc as [[-> _]|[_ ->]]; [by apply Ho|by eapply S3].
  - intros j r (q & Hq & He & Hc)%Hl Hs. destruct Hc as [[_ Hc]|[_ ->]]; [congruence|by eapply S5].
  - intros j r j' r' (q & Hq & He & Hc)%Hl (q' & Hq' & He' & Hc')%Hl Hp Hp'.
    destruct Hc as [[_ Hc]|[_ ->]]; [congruence|]. destruct Hc' as [[_ Hc]|[_ ->]]; [congruence|]. by eapply S6.
  - intros j r (q & Hq & _)%Hl. by eapply S7.
  - intros j r j' r' Hj (q & Hq & He & Hc)%Hl (q' & Hq' & He' & Hc')%Hl Heq Hp'.
    apply (S9 j q j' q'); [done..|congruence|]. destruct Hp' as [Hp'|Hp']; [|by right]. destruct Hc' as [[-> _]|[_ ->]]; [by right|by left].
Qed.

Lemma once_opens c s u s' : cf_resolvedAt c = None → conflict_once uuid (cf_entity c) c s = (Ok u, s') →
  unresolved_conflict (cf_entity c) (ss_conflicts s') ≠ None.
Proof using Type.
  intros Hc. unfold conflict_once, getUnresolvedConflict, gets, mbind, M_bind.
  destruct (unresolved_conflict _ _) eqn:Hu; [intros [= _ <-]; congruence|]. unfold randomUUID, insert_row. cbn.
  destruct (ss_conflicts s !! uuid (ss_ids s)); [done|]. intros [= _ <-] Hn. rewrite unresolved_none in Hn.
  apply (Hn (uuid (ss_ids s)) c); [apply lookup_insert_eq|done|done].
Qed.

Lemma tame_settle id st result : st ∈ settled_states → moves tame (settle_row id st result).
Proof using Type. intros Hst. apply tame_alter_row. intros r. by apply result_traced. Qed.

Lemma ok_tame {A} (m : LS A) s a s' : moves tame m → m s = (Ok a, s') → sound s → sound s'.
Proof using Type. intros Hm H. specialize (Hm s). rewrite H in Hm. by apply sound_tame. Qed.

Lemma apply_result_ok now result : (∀ id p r, result = pu_conflict id p r → id ∈ batch) → moves_ok keeps (apply_result uuid now result).
Proof using Type.
  intros Hid s a s' H. unfold keeps, apply_result in *. step_back H row s0 H0. injection H0 as Hrow <-. destruct row as [row|]; [|done].
  destruct result as [id revision|id p r|id reason|id|id]; cbn in Hrow.
  - revert H. apply ok_tame. apply moves_bind; [apply _|apply tame_bindings|intros _]. apply tame_settle. compute_done.
  - intros Hs. step_back H binding s1 H1. injection H1 as _ <-. step_back H u s2 H2. injection H as _ <-.
    pose proof H2 as Ht. apply (tame_insert uuid (conflict_over _ _ _ _ _ _)) in Ht; [|done]. apply conflict_sound; [by eapply sound_tame|by eapply Hid|].
    intros q Hq. destruct (ta_rows _ _ Ht _ _ Hq) as (q0 & Hq0 & Ht0 & _). rewrite Hrow in Hq0. injection Hq0 as <-. rewrite Ht0.
    by apply (once_opens (conflict_over _ _ _ _ _ _)) in H2.
  - revert H. apply ok_tame, tame_settle. compute_done.
  - revert H. apply ok_tame. apply moves_bind; [apply _|apply tame_state|intros _]. apply tame_settle. compute_done.
  - revert H. apply ok_tame. apply moves_bind; [apply _|apply tame_state|intros _]. apply tame_settle. compute_done.
Qed.

Lemma apply_results_keep now results : (∀ id p r, pu_conflict id p r ∈ results → id ∈ batch) → moves keeps (applyPushResults uuid now results).
Proof using Type.
  intros Hid. apply moves_commit; [apply _|]. apply moves_for_each; [apply _|]. intros x _ Hx. apply apply_result_ok.
  intros id p r ->. by eapply Hid.
Qed.
End Invariant.

(** ** A new batch *)

Section Dispatch.
Context (uuid : nat → string) (sha256Hex : string → string) (JSON_parse : string → option json).

(** Only new ids are taken. *)
Definition issues (s s' : SyncStore) : Prop := (ss_ids s ≤ ss_ids s')%nat ∧ s' = put_ids (ss_ids s') s.

#[export] Instance issues_preorder : PreOrder issues.
Proof. split; [intros s; split; [lia|by destruct s]|]. intros a b c [H1 H2] [K1 K2]. split; [lia|]. rewrite K2, H2. done. Qed.

Definition seals (options : NextBatchOptions) : Prop :=
  ∀ seal input, nb_seal options = Some seal → moves issues (seal input).

Lemma issues_uuid : moves issues (randomUUID uuid).
Proof. intros s. split; [cbn; lia|done]. Qed.
Lemma issues_parse text : moves issues (parse_json JSON_parse text).
Proof. intros s. unfold parse_json. by destruct (JSON_parse text). Qed.
Lemma issues_parse_null text : moves issues (parse_json_or_null JSON_parse text).
Proof. destruct text; [apply issues_parse|easy]. Qed.

Lemma issues_wire options row operation payload : seals options → moves issues (wire_payload options row operation payload).
Proof.
  intros Hs. unfold wire_payload. destruct (bool_decide _); [easy|].
  destruct (nb_seal options) as [seal|] eqn:E; destruct payload; try easy; by apply Hs.
Qed.

Lemma issues_kept s s' : issues s s' → kept s s'.
Proof.
  intros [Hi ->]. split_and!; [|done..]. split; cbn; try done; [intros j r Hr; by exists r|intros e d Hd; exists d; split; [done|lia]].
Qed.

(** A row as it is sent. *)
Definition sends (row sent : OutboxRow) : Prop :=
  ∃ base operation hash sequence sealed, sent = with_dispatch base operation hash sequence sealed row.

(** What is chosen so far, of rows that are all still there, from sequence [n]. *)
Record chosen (n : Z) (s : SyncStore) (candidates : list (string * OutboxRow)) (f : Filling) : Prop := {
  ch_seen : list_to_set (C := gset EntityKey) (fl_seen f) = list_to_set (map (λ r, ob_entity r.2) (fl_batch f));
  ch_distinct : NoDup (map (λ r, ob_entity r.2) (fl_batch f));
  ch_sequence : ∀ i r, fl_batch f !! i = Some r → ob_enrollment_sequence r.2 = Some (n + Z.of_nat i);
  ch_next : fl_nextSequence f = n + Z.of_nat (length (fl_batch f));
  ch_sent : ∀ r, r ∈ fl_batch f → ∃ row, ss_outbox s !! r.1 = Some row ∧ sends row r.2 ∧
    ob_state row = os_pending ∧ unresolved_conflict (ob_entity row) (ss_conflicts s) = None;
  ch_ids : NoDup (map fst (candidates ++ fl_batch f));
  ch_rest : ∀ r, r ∈ candidates → ss_outbox s !! r.1 = Some r.2 ∧ ob_state r.2 = os_pending ∧
    unresolved_conflict (ob_entity r.2) (ss_conflicts s) = None;
}.

(** A candidate is passed over; its row may be gone. *)
Lemma chosen_skip n s s' id row rest f : chosen n s ((id, row) :: rest) f → ss_conflicts s' = ss_conflicts s →
  (∀ j, j ≠ id → ss_outbox s' !! j = ss_outbox s !! j) → chosen n s' rest f.
Proof.
  intros [C1 C2 C3 C4 C5 C6 C7] Hc Ho. cbn in C6. apply NoDup_cons in C6 as [Hid C6]. split; try done.
  - intros r Hr. rewrite Ho, Hc; [by apply C5|]. intros <-. apply Hid. apply list_elem_of_fmap. exists r. split; [done|]. set_solver.
  - intros r Hr. rewrite Ho, Hc; [apply C7; by right|]. intros <-. apply Hid. apply list_elem_of_fmap. exists r. split; [done|]. set_solver.
Qed.

Lemma chosen_add n s id row rest f sent size : chosen n s ((id, row) :: rest) f → ob_entity row ∉ fl_seen f → sends row sent →
  ob_enrollment_sequence sent = Some (fl_nextSequence f) → chosen n s rest (add_row id sent size f).
Proof.
  intros [C1 C2 C3 C4 C5 C6 C7] Hnew Hs Hseq. cbn in C6. assert (He : ob_entity sent = ob_entity row) by by destruct Hs as (?&?&?&?&?&->).
  split; cbn.
  - rewrite map_app, list_to_set_app_L, <- C1. cbn. set_solver.
  - rewrite map_app. apply NoDup_app. split_and!; [done| |cbn; apply NoDup_singleton]. intros k Hk ->%list_elem_of_singleton. apply Hnew.
    cbn in Hk. rewrite He in Hk. set_solver.
  - intros i r [Hr|[Hlen Hr]]%lookup_app_Some; [by apply C3|]. apply list_lookup_singleton_Some in Hr as [Hi <-]. cbn. rewrite Hseq, C4.
    f_equal. lia.
  - rewrite length_app, C4. cbn. lia.
  - intros r [Hr| ->%list_elem_of_singleton]%elem_of_app; [by apply C5|]. cbn. exists row. destruct (C7 (id, row)) as (H1 & H2 & H3); [by left|].
    by split_and!.
  - assert (Hp : map fst (rest ++ fl_batch f ++ [(id, sent)]) ≡ₚ id :: map fst (rest ++ fl_batch f)); [|by rewrite Hp].
    rewrite app_assoc, map_app. cbn. by rewrite Permutation_app_comm.
  - intros r Hr. apply C7. by right.
Qed.

Lemma fill_ok options n candidates f s f' s' : seals options → chosen n s candidates f →
  fill_batch sha256Hex JSON_parse options candidates f s = (Ok f', s') → kept s s' ∧ ∃ rest, chosen n s' rest f'.
Proof.
  intros Hseal. revert f s f' s'. induction candidates as [|[id row] rest IH]; intros f s f' s' Hc H; cbn [fill_batch] in H.
  { injection H as <- <-. split; [done|by exists []]. }
  destruct (bool_decide_reflect (ob_entity row ∈ fl_seen f)) as [Hin|Hnew].
  { apply IH in H; [done|]. by eapply chosen_skip. }
  step_back H binding s0 H0. injection H0 as _ <-. destruct (rebased_operation _ _) as [operation|].
  2:{ step_back H u s1 H1. injection H1 as _ <-. apply IH in H as [Hk Hf]; [split; [|done]|].
    - etrans; [|exact Hk]. by apply (kept_outbox (delete id)), tame_delete_row.
    - eapply chosen_skip; [exact Hc|done|]. intros j Hj. by apply lookup_delete_ne. }
  step_back H payload s1 H1. step_back H wire s2 H2.
  assert (Hi : issues s s2).
  { transitivity s1; [pose proof (issues_parse_null (ob_payload_json row) s) as K; by rewrite H1 in K|].
    pose proof (issues_wire options row operation payload Hseal s1) as K. by rewrite H2 in K. }
  assert (Hc2 : chosen n s2 ((id, row) :: rest) f) by (destruct Hi as [_ ->]; by destruct Hc).
  assert (Hk2 := issues_kept _ _ Hi). clear H1 H2 Hi.
  assert (Hskip : ∀ g s3, fill_batch sha256Hex JSON_parse options rest f s2 = (Ok g, s3) → kept s s3 ∧ ∃ rest', chosen n s3 rest' g).
  { intros g s3 K. apply IH in K as [Hk Hf]; [split; [by etrans|done]|]. by eapply chosen_skip. }
  assert (Hrej : ∀ reason g s3, (reject_row id reason ≫= λ _, fill_batch sha256Hex JSON_parse options rest f) s2 = (Ok g, s3) →
    kept s s3 ∧ ∃ rest', chosen n s3 rest' g).
  { intros reason g s3 K. step_back K u s4 H4. pose proof (kept_outbox _ (tame_reject_row id reason) s2) as Hk. unfold reject_row in H4.
    rewrite H4 in Hk. injection H4 as _ <-. apply IH in K as [Hk' Hf]; [split; [by do 2 (etrans; [eassumption|])|done]|].
    eapply chosen_skip; [exact Hc2|done|]. intros j Hj. by apply lookup_alter_ne. }
  destruct wire as [wire|]; [|by apply Hskip]. cbv zeta in H. destruct (_ <? utf8ByteLength _); [by eapply Hrej|].
  destruct (_ <? change_size _ _ _); [by eapply Hrej|]. destruct (_ <=? _).
  { injection H as <- <-. split; [done|by eexists]. }
  destruct (_ <? _); [by apply Hskip|]. apply IH in H as [Hk Hf]; [split; [by etrans|done]|].
  eapply chosen_add; [exact Hc2|done| |done]. by repeat eexists.
Qed.

(** *** Dispatching *)

Lemma dispatch_run now e id sent s u s' : dispatch_row now e (id, sent) s = (Ok u, s') →
  (∀ other row, ss_outbox s !! other = Some row → other ≠ id → ob_entity row = ob_entity sent → ob_state row ≠ os_dispatched) ∧
  s' = put_outbox (alter (dispatched_row now e sent) id (ss_outbox s)) s.
Proof.
  unfold dispatch_row. intros H. step_back H taken s0 H0. injection H0 as Ht <-. step_back H v s1 H1. apply ensure_Ok in H1 as [Hn ->].
  injection H as _ <-. split; [|done]. intros other row Hr Hne He Hs. apply negb_true_iff in Hn. subst taken. apply bool_decide_eq_false in Hn. apply Hn.
  exists other, row. split; [done|]. split; [done|]. apply is_row_spec. split; [done|]. rewrite Hs. by left.
Qed.

Lemma dispatch_sound now e id sent row n d s : sound uuid [] s → ss_outbox s !! id = Some row → ob_entity sent = ob_entity row →
  ob_enrollment_sequence sent = Some n → unresolved_conflict (ob_entity row) (ss_conflicts s) = None →
  (∀ other row', ss_outbox s !! other = Some row' → other ≠ id → ob_entity row' = ob_entity sent → ob_state row' ≠ os_dispatched) →
  ss_enrollments s !! e = Some d → n < dn_nextSequence d →
  (∀ j r, ss_outbox s !! j = Some r → ob_state r = os_dispatched → ob_enrollment_id r = e → j ≠ id → ob_enrollment_sequence r ≠ Some n) →
  sound uuid [] (put_outbox (alter (dispatched_row now e sent) id (ss_outbox s)) s).
Proof.
  intros [S1 S2 S3 S4 S5 S6 S7 S8 S9] Hid He Hn Hu Hother Hd Hlt Hseq.
  assert (Hl : ∀ j r', alter (dispatched_row now e sent) id (ss_outbox s) !! j = Some r' →
    (j = id ∧ r' = dispatched_row now e sent row) ∨ (j ≠ id ∧ ss_outbox s !! j = Some r')).
  { intros j r' (r & Hr & ->)%alter_row_lookup. case_decide as Hj; [left; subst; split; [done|congruence]|by right]. }
  assert (Hfl : ∀ j r, j ≠ id → ss_outbox s !! j = Some r → ob_entity r = ob_entity row → ob_state r ∈ flight_states → False).
  { intros j r Hj Hr Hk Hf. unfold flight_states in Hf. apply elem_of_cons in Hf as [Hf|Hf%list_elem_of_singleton].
    - eapply (Hother j r); [done..|congruence|done].
    - by apply (S3 _ _ Hr Hf); rewrite Hk. }
  split; cbn; try done.
  - intros j r j' r' [[-> ->]|[Hj Hr]]%Hl [[-> ->]|[Hj' Hr']]%Hl Hk Hp Hp'; try done. by eapply S1.
  - intros j r j' r' [[-> ->]|[Hj Hr]]%Hl [[-> ->]|[Hj' Hr']]%Hl Hk Hp Hp'; try done; [|by destruct (Hfl _ _ Hj Hr Hk)|by eapply S2].
    by destruct (Hfl _ _ Hj' Hr').
  - intros j r [[-> ->]|[Hj Hr]]%Hl Hc; [done|by eapply S3].
  - intros j r [[-> ->]|[Hj Hr]]%Hl Hc; [exists n, d; by split_and!|by eapply S5].
  - intros j r j' r' [[-> ->]|[Hj Hr]]%Hl [[-> ->]|[Hj' Hr']]%Hl Hp Hp' Hee Hnn; [done| | |by eapply S6]; cbn in *.
    + destruct (Hseq _ _ Hr' Hp'); [done|done|congruence].
    + destruct (Hseq _ _ Hr Hp); [done|done|congruence].
  - intros j r [[-> ->]|[Hj Hr]]%Hl; by eapply S7.
  - by intros j r j' r' ?%not_elem_of_nil.
Qed.

Lemma dispatch_loop now e n d l s u s' : sound uuid [] s → for_each l (λ r _, dispatch_row now e r) tt s = (Ok u, s') →
  (∀ r, r ∈ l → ∃ row, ss_outbox s !! r.1 = Some row ∧ sends row r.2 ∧ ob_state row = os_pending ∧
    unresolved_conflict (ob_entity row) (ss_conflicts s) = None) →
  NoDup (map fst l) → (∀ i r, l !! i = Some r → ob_enrollment_sequence r.2 = Some (n + Z.of_nat i)) →
  ss_enrollments s !! e = Some d → n + Z.of_nat (length l) ≤ dn_nextSequence d →
  (∀ j r m, ss_outbox s !! j = Some r → ob_state r = os_dispatched → ob_enrollment_id r = e → ob_enrollment_sequence r = Some m → m < n) →
  sound uuid [] s' ∧ s' = put_outbox (ss_outbox s') s ∧ (∀ j, j ∉ map fst l → ss_outbox s' !! j = ss_outbox s !! j) ∧
  (∀ r, r ∈ l → ∃ row, ss_outbox s !! r.1 = Some row ∧ ss_outbox s' !! r.1 = Some (dispatched_row now e r.2 row)).
Proof.
  revert n s. induction l as [|[id sent] l IH]; intros n s Hs H Hl Hnd Hseq Hd Hle Hold; cbn [for_each] in H.
  { injection H as _ <-. split_and!; [done|by destruct s|done|by intros r ?%not_elem_of_nil]. }
  cbn in Hnd. apply NoDup_cons in Hnd as [Hid Hnd]. step_back H v s1 H1. apply dispatch_run in H1 as [Hother ->]. destruct v.
  destruct (Hl (id, sent)) as (row & Hrow & (base & op & hash & sq & sealed & Hsent) & Hst & Hu); [by left|]. cbn in Hrow, Hsent.
  assert (Hsq : ob_enrollment_sequence sent = Some n) by (specialize (Hseq 0%nat (id, sent) eq_refl); cbn in Hseq; rewrite Hseq; f_equal; lia).
  cbn [length] in Hle. set (s1 := put_outbox _ s) in *. assert (Hs1 : sound uuid [] s1).
  { eapply (dispatch_sound now e id sent row n d); try done; [by subst sent|lia|]. intros j r Hr Hds He _ Hn. specialize (Hold _ _ _ Hr Hds He Hn). lia. }
  apply (IH (n + 1)) in H as (R1 & R2 & R3 & R4); [|done| |done| |done|lia|].
  - split_and!; [done|by rewrite R2| |].
    + intros j Hj. cbn in Hj. apply not_elem_of_cons in Hj as [Hj1 Hj2]. rewrite R3 by done. by apply lookup_alter_ne.
    + intros r [->|Hr]%elem_of_cons; cbn.
      * exists row. split; [done|]. rewrite R3 by done. cbn. by rewrite lookup_alter_eq, Hrow.
      * destruct (R4 _ Hr) as (row' & Hrow' & Hd'). exists row'. split; [|done]. cbn in Hrow'. rewrite lookup_alter_ne in Hrow'; [done|].
        intros ->. apply Hid. apply list_elem_of_fmap. by exists r.
  - intros r Hr. destruct (Hl r) as (row' & Hrow' & Hx); [by right|]. exists row'. split; [|done]. cbn. rewrite lookup_alter_ne; [done|].
    intros ->. apply Hid. apply list_elem_of_fmap. by exists r.
  - intros i r Hr. rewrite (Hseq (S i) r) by done. f_equal. lia.
  - intros j r m (q & Hq & ->)%alter_row_lookup Hds He Hm. revert Hds He Hm. case_decide as Hj; intros Hds He Hm; cbn in *.
    + rewrite Hsq in Hm. injection Hm as <-. lia.
    + specialize (Hold _ _ _ Hq Hds He Hm). lia.
Qed.

(** *** The batch that awaits an answer *)

(** The changes of rows, as they are sent. *)
Definition wire_rows (l : list (string * OutboxRow)) : LS (list PendingChange) := map_M (λ r, toPendingChange JSON_parse r.1 r.2) l.

(** [batch] is what the enrollment's dispatched rows are sent as. *)
Definition awaits (e : string) (batch : list PendingChange) (s : SyncStore) : Prop :=
  ∀ s0, wire_rows (outstanding e (ss_outbox s)) s0 = (Ok batch, s0).

Lemma reads_pending id row : reads (toPendingChange JSON_parse id row).
Proof.
  intros s. unfold toPendingChange. destruct (ob_enrollment_sequence row); [|done]. cbv zeta. destruct (bool_decide _); [done|].
  destruct (match ob_sealed_json row with Some t => Some t | None => ob_payload_json row end) as [t|]; [|done].
  unfold mbind, M_bind, parse_json. by destruct (JSON_parse t).
Qed.

Lemma reads_wire l : reads (wire_rows l).
Proof.
  unfold wire_rows. induction l as [|r l IH]; [done|]. apply reads_bind; [apply reads_pending|]. intros c. by apply reads_bind.
Qed.

Lemma pending_any id row s s0 c s' : toPendingChange JSON_parse id row s = (Ok c, s') → toPendingChange JSON_parse id row s0 = (Ok c, s0).
Proof.
  unfold toPendingChange. destruct (ob_enrollment_sequence row); [|done]. cbv zeta. destruct (bool_decide _); [by intros [= <- _]|].
  destruct (match ob_sealed_json row with Some t => Some t | None => ob_payload_json row end) as [t|]; [|by intros [= <- _]].
  unfold mbind, M_bind, parse_json. destruct (JSON_parse t); by intros [= <- _].
Qed.

Lemma pending_id id row s c s' : toPendingChange JSON_parse id row s = (Ok c, s') → pc_changeId c = id.
Proof.
  unfold toPendingChange. destruct (ob_enrollment_sequence row); [|done]. cbv zeta. intros H. step_back H p s1 H1. by injection H as <- _.
Qed.

Lemma wire_any l s cs s' s0 : wire_rows l s = (Ok cs, s') → wire_rows l s0 = (Ok cs, s0) ∧ s' = s ∧ map pc_changeId cs = map fst l.
Proof.
  unfold wire_rows. revert cs s s'. induction l as [|[id row] l IH]; intros cs s s' H; cbn [map_M] in *; [by injection H as <- <-|].
  step_back H c s1 H1. pose proof (read_Ok _ _ _ _ (reads_pending id row) H1) as ->. step_back H cs' s2 H2.
  injection H as <- <-. destruct (IH _ _ _ H2) as (K & -> & Hids). split_and!; [|done|].
  - rewrite (bind_run _ _ _ _ _ (pending_any _ _ _ s0 _ _ H1)). by rewrite (bind_run _ _ _ _ _ K).
  - cbn. f_equal; [by eapply pending_id|done].
Qed.

Lemma sent_any now e l l' s : (∀ i r, l !! i = Some r → ∃ row, l' !! i = Some (r.1, dispatched_row now e r.2 row) ∧ sends row r.2) →
  length l' = length l → wire_rows l' s = wire_rows l s.
Proof.
  unfold wire_rows. revert l'. induction l as [|[id sent] l IH]; intros l' Hl Hlen; [by destruct l'|].
  destruct l' as [|x l']; [done|]. destruct (Hl 0%nat (id, sent) eq_refl) as (row & [= ->] & (base & op & hash & sq & sealed & Hsent)). cbn in Hsent.
  cbn [map_M]. unfold mbind at 1 3, M_bind at 1 3. cbn [fst snd].
  assert (toPendingChange JSON_parse id (dispatched_row now e sent row) s = toPendingChange JSON_parse id sent s) as -> by by subst sent.
  pose proof (reads_pending id sent s) as Hr. destruct (toPendingChange JSON_parse id sent s) as [[c|err] s1]; [|done]. cbn in Hr. subst s1.
  unfold mbind, M_bind. rewrite IH; [done| |by injection Hlen]. intros i r Hi. by apply (Hl (S i)).
Qed.

Lemma outstanding_elem e m id r : (id, r) ∈ outstanding e m ↔ m !! id = Some r ∧ ob_state r = os_dispatched ∧ ob_enrollment_id r = e.
Proof. unfold outstanding. rewrite rows_by_elem, andb_true_iff, bool_decide_eq_true, String.eqb_eq. done. Qed.

Lemma outstanding_NoDup e m : NoDup (outstanding e m).
Proof. unfold outstanding, rows_by. rewrite sort_by_Permutation. apply NoDup_ListNoDup, List.NoDup_filter, NoDup_ListNoDup, NoDup_map_to_list. Qed.

Definition sequence_le (a b : string * OutboxRow) : Prop :=
  default 0 (ob_enrollment_sequence a.2) ≤ default 0 (ob_enrollment_sequence b.2).

Lemma outstanding_sorted e m : StronglySorted sequence_le (outstanding e m).
Proof.
  unfold outstanding, rows_by. set (leb := λ a b : string * OutboxRow, _). set (l := List.filter _ _).
  assert (Hleb : ∀ a b, leb a b = true ↔ sequence_le a b).
  { intros a b. unfold leb, sequence_le. rewrite orb_true_iff, andb_true_iff, Z.ltb_lt, Z.eqb_eq. split; [lia|]. intros. lia. }
  assert (Hs : StronglySorted (λ a b, leb a b = true) (sort_by leb l)).
  { apply sort_by_sorted.
    - intros a b Hn. apply Hleb. unfold sequence_le. apply not_true_iff_false in Hn. rewrite Hleb in Hn. unfold sequence_le in Hn. lia.
    - intros a b c. rewrite !Hleb. unfold sequence_le. lia. }
  revert Hs. generalize (sort_by leb l). induction 1 as [|x xs Hx IH Hall]; constructor; [done|]. eapply Forall_impl; [exact Hall|].
  intros y. apply Hleb.
Qed.

(** Rows with increasing sequences are the outstanding ones in order. *)
Lemma outstanding_unique e m l n : NoDup (map fst l) → (∀ id r, (id, r) ∈ l ↔ m !! id = Some r ∧ ob_state r = os_dispatched ∧ ob_enrollment_id r = e) →
  (∀ i r, l !! i = Some r → ob_enrollment_sequence r.2 = Some (n + Z.of_nat i)) → outstanding e m = l.
Proof.
  intros Hnd Hl Hseq. assert (Hss : StronglySorted sequence_le l).
  { clear Hl Hnd. revert n Hseq. induction l as [|x l IH]; intros n Hseq; constructor.
    - apply (IH (n + 1)). intros i r Hr. rewrite (Hseq (S i) r Hr). f_equal. lia.
    - apply Forall_forall. intros y [i Hy]%list_elem_of_lookup. unfold sequence_le. rewrite (Hseq 0%nat x eq_refl), (Hseq (S i) y Hy). cbn. lia. }
  assert (Hp : outstanding e m ≡ₚ l).
  { apply NoDup_Permutation; [apply outstanding_NoDup|by eapply NoDup_fmap_1|]. intros [id r]. by rewrite outstanding_elem, Hl. }
  eapply StronglySorted_unique_strong; [|apply outstanding_sorted|exact Hss|done].
  intros x y Hx Hy H1 H2. rewrite Hp in Hx. apply list_elem_of_lookup in Hx as [i Hi]. apply list_elem_of_lookup in Hy as [j Hj].
  unfold sequence_le in *. rewrite (Hseq _ _ Hi), (Hseq _ _ Hj) in *. cbn in *. assert (i = j) as -> by lia. congruence.
Qed.

(** No change of an enrollment is in flight. *)
Definition grounded (e : string) (s : SyncStore) : Prop := outstanding e (ss_outbox s) = [].

Lemma grounded_none e s id r : grounded e s → ss_outbox s !! id = Some r → ob_state r = os_dispatched → ob_enrollment_id r = e → False.
Proof. intros Hg Hr Hd He. assert (Hin : (id, r) ∈ outstanding e (ss_outbox s)) by by apply outstanding_elem. rewrite Hg in Hin. by apply not_elem_of_nil in Hin. Qed.

Lemma candidate_elem options s id r : (id, r) ∈ candidate_rows options s →
  ss_outbox s !! id = Some r ∧ ob_state r = os_pending ∧ unresolved_conflict (ob_entity r) (ss_conflicts s) = None.
Proof.
  unfold candidate_rows. intros [Hin Hc]%list_elem_of_In%filter_In. apply list_elem_of_In, rows_by_elem in Hin as [Hr Hp].
  rewrite !andb_true_iff, !bool_decide_eq_true in *. cbn in *. tauto.
Qed.

Lemma candidate_NoDup options s : NoDup (map fst (candidate_rows options s)).
Proof.
  unfold candidate_rows, outbox_rows, rows_by. apply filter_fst_NoDup. rewrite sort_by_Permutation. apply filter_fst_NoDup, NoDup_fst_map_to_list.
Qed.

(** The ids of a batch may be awaited: its rows are the only ones of their entities in flight. *)
Lemma await_sound ids s : sound uuid [] s → (∀ id, id ∈ ids → ∃ r, ss_outbox s !! id = Some r ∧ ob_state r = os_dispatched) → sound uuid ids s.
Proof.
  intros [S1 S2 S3 S4 S5 S6 S7 S8 S9] Hids. split; try done.
  - intros id (r & Hr & _)%Hids. by eapply S7.
  - intros id r id' r' Hid Hr Hr' He Hf. destruct (Hids _ Hid) as (q & Hq & Hd). assert (q = r) as -> by congruence.
    apply (S2 id r id' r'); [done..|by rewrite Hd|]. destruct Hf as [Hf|Hf]; [done|]. destruct (Hids _ Hf) as (q & Hq' & Hd').
    assert (q = r') as -> by congruence. by rewrite Hd'.
Qed.

Lemma sound_batch ids ids' s : sound uuid ids s → (∀ id, id ∈ ids' → id ∈ ids) → sound uuid ids' s.
Proof.
  intros [S1 S2 S3 S4 S5 S6 S7 S8 S9] Hi. split; try done; [intros id Hid; by apply S8, Hi|].
  intros id r id' r' Hid Hr Hr' He Hf. eapply S9; eauto. destruct Hf; [by left|right; by apply Hi].
Qed.

Lemma awaits_sound e batch s : sound uuid [] s → awaits e batch s → sound uuid (map pc_changeId batch) s.
Proof.
  intros Hs Ha. destruct (wire_any _ _ _ _ s (Ha s)) as (_ & _ & ->). apply await_sound; [done|].
  intros id ([id' r] & -> & Hr)%list_elem_of_fmap. apply outstanding_elem in Hr as (Hr & Hd & _). by exists r.
Qed.

Lemma next_tame now e d n s : ss_enrollments s !! e = Some d → dn_nextSequence d ≤ n →
  tame s (put_enrollments (alter (set_next now n) e (ss_enrollments s)) s).
Proof.
  intros Hd Hn. split; cbn; try done; [intros j r Hr; by exists r|]. intros x dx Hx. destruct (decide (e = x)) as [<-|Hne].
  - rewrite lookup_alter_eq, Hx. eexists. split; [done|]. cbn. replace dx with d by congruence. done.
  - rewrite lookup_alter_ne by done. exists dx. split; [done|lia].
Qed.

(** A new batch: its rows, in their order, are what the enrollment has in flight. *)
Lemma tame_dispatched s s' id r : tame s s' → ss_outbox s' !! id = Some r → ob_state r = os_dispatched →
  ∃ r0, ss_outbox s !! id = Some r0 ∧ ob_state r0 = os_dispatched ∧ ob_enrollment_id r0 = ob_enrollment_id r.
Proof.
  intros [T _ _ _ _] Hr Hd. destruct (T _ _ Hr) as (r0 & Hr0 & Ht). exists r0.
  destruct (traced_state r0 r os_dispatched Ht Hd) as (? & ? & _); [auto|done].
Qed.

Lemma tame_grounded e s s' : tame s s' → grounded e s → grounded e s'.
Proof.
  intros Ht Hg. unfold grounded. destruct (outstanding e (ss_outbox s')) as [|[id r] l] eqn:E; [done|exfalso].
  assert (Hin : (id, r) ∈ outstanding e (ss_outbox s')) by (rewrite E; by left). apply outstanding_elem in Hin as (Hr & Hd & He).
  destruct (tame_dispatched _ _ _ _ Ht Hr Hd) as (r0 & Hr0 & Hd0 & He0). eapply grounded_none; [exact Hg|exact Hr0|done|congruence].
Qed.

(** The rows of a batch as they are stored once it is dispatched. *)
Definition stored_rows (m : gmap string OutboxRow) (l : list (string * OutboxRow)) : list (string * OutboxRow) :=
  (λ r : string * OutboxRow, (r.1, default r.2 (m !! r.1))) <$> l.

Definition is_dispatched (now : Z) (e : string) (m : gmap string OutboxRow) (l : list (string * OutboxRow)) : Prop :=
  ∀ r, r ∈ l → ∃ row, sends row r.2 ∧ m !! r.1 = Some (dispatched_row now e r.2 row).

(** Of the enrollment exactly the batch is in flight, in its order. *)
Lemma outstanding_dispatched now e n l s m : grounded e s → is_dispatched now e m l → NoDup (map fst l) →
  (∀ i r, l !! i = Some r → ob_enrollment_sequence r.2 = Some (n + Z.of_nat i)) →
  (∀ id, id ∉ map fst l → m !! id = ss_outbox s !! id) → outstanding e m = stored_rows m l.
Proof.
  intros Hg Hl Hnd Hseq Hrest. apply (outstanding_unique e _ _ n).
  - unfold stored_rows. by rewrite <- list_fmap_compose.
  - intros id r. split.
    + intros ([id' sent] & [= -> ->] & Hr)%list_elem_of_fmap. destruct (Hl _ Hr) as (row & _ & Hrow). cbn in *. by rewrite Hrow.
    + intros (Hr & Hd & He). destruct (decide (id ∈ map fst l)) as [([id' sent] & -> & Hin)%list_elem_of_fmap|Hn].
      * apply list_elem_of_fmap. exists (id', sent). split; [|done]. cbn in *. by rewrite Hr.
      * rewrite Hrest in Hr by done. by destruct (grounded_none e s id r Hg Hr Hd He).
  - intros i r. unfold stored_rows. rewrite list_lookup_fmap. intros (x & Hx & ->)%fmap_Some. cbn.
    destruct (Hl x) as (row & _ & Hrow); [by eapply list_elem_of_lookup_2|]. rewrite Hrow. cbn. by apply Hseq.
Qed.

(** They go over the wire as the batch does. *)
Lemma stored_wire now e m l s : is_dispatched now e m l → wire_rows (stored_rows m l) s = wire_rows l s.
Proof.
  intros Hl. apply (sent_any now e l); [|by unfold stored_rows; rewrite length_fmap]. intros i r Hr.
  destruct (Hl r) as (row & Hsd & Hrow); [by eapply list_elem_of_lookup_2|]. exists row. split; [|done].
  unfold stored_rows. rewrite list_lookup_fmap, Hr. cbn. by rewrite Hrow.
Qed.

(** What the dispatch of a batch that was chosen leaves. *)
Lemma dispatched_ok now e d f rest s u s' : sound uuid [] s → grounded e s → ss_enrollments s !! e = Some d →
  chosen (dn_nextSequence d) s rest f →
  (for_each (fl_batch f) (λ r _, dispatch_row now e r) tt)
    (put_enrollments (alter (set_next now (fl_nextSequence f)) e (ss_enrollments s)) s) = (Ok u, s') →
  sound uuid [] s' ∧ is_dispatched now e (ss_outbox s') (fl_batch f) ∧
  (∀ id, id ∉ map fst (fl_batch f) → ss_outbox s' !! id = ss_outbox s !! id) ∧ outstanding e (ss_outbox s') = stored_rows (ss_outbox s') (fl_batch f).
Proof.
  intros Hs Hg He [_ _ C3 C4 C5 C6 _] H. rewrite map_app in C6. apply NoDup_app in C6 as (_ & _ & C6).
  eapply (dispatch_loop now e (dn_nextSequence d) (set_next now (fl_nextSequence f) d)) in H as (R1 & R2 & R3 & R4).
  - assert (Hl : is_dispatched now e (ss_outbox s') (fl_batch f)).
    { intros r Hr. destruct (C5 _ Hr) as (row & Hrow & Hsd & _). destruct (R4 _ Hr) as (row' & Hrow' & Hd'). exists row.
      split; [done|]. cbn in Hrow'. by replace row with row' by congruence. }
    split_and!; [done|done|done|]. by apply (outstanding_dispatched now e (dn_nextSequence d) (fl_batch f) s).
  - eapply sound_tame; [|exact Hs]. eapply next_tame; [done|]. rewrite C4. lia.
  - done.
  - done.
  - done.
  - cbn. by rewrite lookup_alter_eq, He.
  - cbn. lia.
  - cbn. intros j r m Hr Hds Hee. by destruct (grounded_none e s j r Hg Hr Hds Hee).
Qed.

Lemma chosen_start n options s : chosen n s (candidate_rows options s) {| fl_seen := []; fl_batch := []; fl_bytes := 0; fl_nextSequence := n |}.
Proof.
  split; cbn; [done|constructor|done|lia|by intros r ?%not_elem_of_nil| |].
  - rewrite app_nil_r. apply candidate_NoDup.
  - intros [id r] Hr. by apply candidate_elem in Hr.
Qed.

Lemma fresh_ok now e options s batch s' : seals options → sound uuid [] s → grounded e s →
  fresh_batch sha256Hex JSON_parse now e options s = (Ok batch, s') →
  sound uuid [] s' ∧ awaits e batch s' ∧
  ∀ id r, ss_outbox s' !! id = Some r → ob_state r = os_dispatched → ob_enrollment_id r ≠ e →
    ∃ r0, ss_outbox s !! id = Some r0 ∧ ob_state r0 = os_dispatched ∧ ob_enrollment_id r0 ≠ e.
Proof.
  intros Hseal Hs Hg H. unfold fresh_batch in H. step_back H candidates s0 H0. injection H0 as <- <-.
  step_back H enrollment s0 H0. injection H0 as He <-. destruct enrollment as [d|]; [|done].
  step_back H f s1 H1. destruct (fill_ok _ _ _ _ _ _ _ Hseal (chosen_start _ options s) H1) as [[Ht [Hcf Hen]] [rest Hc]]. clear H1.
  assert (Hs1 : sound uuid [] s1) by by eapply sound_tame. assert (Hg1 : grounded e s1) by by eapply tame_grounded.
  step_back H u s2 H2. destruct (fl_batch f) as [|b0 l0] eqn:Ef.
  { injection H2 as _ <-. injection H as <- <-. split_and!; [done| |].
    - intros s0. unfold grounded in Hg1. by rewrite Hg1.
    - intros id r Hr Hd Hne. destruct (tame_dispatched _ _ _ _ Ht Hr Hd) as (r0 & Hr0 & Hd0 & He0). exists r0. split_and!; [done|done|congruence]. }
  rewrite <- Ef in *. clear b0 l0 Ef. step_back H2 v2 s3 H3. injection H3 as _ <-. step_back H2 v3 s4 H4.
  assert (Hd1 : ss_enrollments s1 !! e = Some d) by by rewrite Hen.
  destruct (dispatched_ok now e d f rest s1 v3 s4 Hs1 Hg1 Hd1 Hc H4) as (R1 & R2 & R3 & R4).
  assert (Hs4 : sound uuid [] s2) by (revert H2 R1; apply ok_tame, tame_state). assert (Ho : ss_outbox s2 = ss_outbox s4) by by injection H2 as _ <-.
  destruct (wire_any _ _ _ _ s2 H) as (Hw & -> & _). split; [done|]. split.
  - intros s0. rewrite Ho, R4, (stored_wire now e) by done. by destruct (wire_any _ _ _ _ s0 Hw).
  - intros id r Hr Hd Hne. rewrite Ho in Hr. destruct (decide (id ∈ map fst (fl_batch f))) as [(x & -> & Hin)%list_elem_of_fmap|Hn].
    + destruct (R2 _ Hin) as (row & _ & Hrow). rewrite Hrow in Hr. by injection Hr as <-.
    + rewrite R3 in Hr by done. destruct (tame_dispatched _ _ _ _ Ht Hr Hd) as (r0 & Hr0 & Hd0 & He0). exists r0. split_and!; [done|done|congruence].
Qed.

(** Nothing is in flight under another enrollment. *)
Definition lone (e : string) (s : SyncStore) : Prop :=
  ∀ id r, ss_outbox s !! id = Some r → ob_state r = os_dispatched → ob_enrollment_id r = e.

Lemma tame_lone e s s' : tame s s' → lone e s → lone e s'.
Proof. intros Ht Hl id r Hr Hd. destruct (tame_dispatched _ _ _ _ Ht Hr Hd) as (r0 & Hr0 & Hd0 & <-). by eapply Hl. Qed.

Lemma fence_row_grounds now id row s u s' r : fence_row uuid now (id, row) s = (Ok u, s') → tame s s' ∧ (ss_outbox s' !! id = Some r → ob_state r ≠ os_dispatched).
Proof.
  cbn. intros H. step_back H v s1 H1. injection H1 as _ <-. step_back H binding s2 H2. injection H2 as _ <-.
  pose proof (tame_reject_row id "enrollment-superseded" s) as T1. cbn in T1.
  apply (tame_insert uuid (conflict_over _ _ _ _ _ _)) in H; [|done]. split; [by etrans|]. intros Hr Hd.
  destruct (tame_dispatched _ _ _ _ H Hr Hd) as (r0 & Hr0 & Hd0 & _). cbn in Hr0. rewrite lookup_alter_eq in Hr0.
  destruct (ss_outbox s !! id); [|done]. by injection Hr0 as <-.
Qed.

Lemma fence_grounds now rows s u s' : for_each rows (λ r _, fence_row uuid now r) tt s = (Ok u, s') →
  tame s s' ∧ ∀ x r, x ∈ rows → ss_outbox s' !! x.1 = Some r → ob_state r ≠ os_dispatched.
Proof.
  revert s. induction rows as [|[id row] rows IH]; intros s H; cbn [for_each] in H; [injection H as _ <-; split; [done|by intros x r ?%not_elem_of_nil]|].
  step_back H v s1 H1. destruct v. pose proof (fence_row_grounds _ _ _ _ _ _ row H1) as [T1 _]. destruct (IH _ H) as [T2 Hx]. split; [by etrans|].
  intros x r [->|Hin]%elem_of_cons Hr; [|by eapply Hx]. intros Hd. destruct (tame_dispatched _ _ _ _ T2 Hr Hd) as (r0 & Hr0 & Hd0 & _).
  by destruct (fence_row_grounds _ _ _ _ _ _ r0 H1) as [_ Hn]; apply Hn.
Qed.

Lemma fence_lone now e s u s' : fenceOrphanedDispatches uuid now e s = (Ok u, s') → tame s s' ∧ lone e s'.
Proof.
  unfold fenceOrphanedDispatches. intros H. step_back H rows s0 H0. injection H0 as <- <-. destruct (fence_grounds _ _ _ _ _ H) as [Ht Hx].
  split; [done|]. intros id r Hr Hd. destruct (decide (ob_enrollment_id r = e)) as [|Hne]; [done|exfalso].
  destruct (tame_dispatched _ _ _ _ Ht Hr Hd) as (r0 & Hr0 & Hd0 & He0). apply (Hx (id, r0) r); [|done|done].
  apply rows_by_elem. split; [done|]. unfold orphaned. rewrite Hd0, bool_decide_true by done. apply negb_true_iff, String.eqb_neq. congruence.
Qed.

Lemma fence_nothing now e s : lone e s → fenceOrphanedDispatches uuid now e s = (Ok tt, s).
Proof.
  intros Hl. unfold fenceOrphanedDispatches, gets, mbind, M_bind. destruct (outbox_rows _ _) as [|[id r] l] eqn:E; [done|exfalso].
  assert (Hin : (id, r) ∈ outbox_rows (orphaned e) (ss_outbox s)) by (rewrite E; by left). apply rows_by_elem in Hin as [Hr Ho].
  unfold orphaned in Ho. apply andb_true_iff in Ho as [Hd%bool_decide_eq_true Hn%negb_true_iff%String.eqb_neq]. by apply Hn, (Hl id).
Qed.

(** What a request leaves, and that the next one finds the same batch. *)
Lemma nextBatch_ok now e options s batch s' : seals options → sound uuid [] s →
  nextBatch uuid sha256Hex JSON_parse now e options s = (Ok batch, s') →
  sound uuid [] s' ∧ (batch = [] ∨ awaits e batch s') ∧ (nb_onlyEntity options = None → lone e s').
Proof.
  intros Hseal Hs H. apply commit_Ok in H. step_back H u s1 H1.
  assert (Hf : tame s s1 ∧ (nb_onlyEntity options = None → lone e s1)).
  { destruct (nb_onlyEntity options); [by injection H1 as _ <-|]. destruct (fence_lone _ _ _ _ _ H1). done. }
  destruct Hf as [Ht Hl]. assert (Hs1 : sound uuid [] s1) by by eapply sound_tame.
  step_back H dispatched s2 H2. injection H2 as <- <-. destruct (negb _).
  { injection H as <- <-. split_and!; [done|by left|done]. }
  destruct (outstanding e (ss_outbox s1)) as [|r l] eqn:E.
  - destruct (fresh_ok _ _ _ _ _ _ Hseal Hs1 E H) as (K1 & K2 & K3). split_and!; [done|by right|]. intros Ho id x Hx Hd.
    destruct (decide (ob_enrollment_id x = e)) as [|Hne]; [done|]. destruct (K3 _ _ Hx Hd Hne) as (r0 & Hr0 & Hd0 & Hne0).
    by destruct Hne0; apply (Hl Ho id).
  - fold (wire_rows (r :: l)) in H. rewrite <- E in H. destruct (wire_any _ _ _ _ s H) as (_ & -> & _). split_and!; [done| |done].
    right. intros s0. by destruct (wire_any _ _ _ _ s0 H).
Qed.

(** A batch that awaits its answer is sent again. *)
Lemma nextBatch_again now e options s batch : lone e s → awaits e batch s → batch ≠ [] → nb_onlyEntity options = None →
  nextBatch uuid sha256Hex JSON_parse now e options s = (Ok batch, s).
Proof.
  intros Hl Ha Hne Ho. unfold nextBatch, commit. rewrite Ho. rewrite (bind_run _ _ _ _ _ (fence_nothing now e s Hl)).
  unfold gets at 1, mbind, M_bind. assert (forallb (λ r, only_entity options (ob_entity r.2)) (outstanding e (ss_outbox s)) = true) as ->.
  { apply forallb_forall. intros x _. unfold only_entity. by rewrite Ho. }
  cbn [negb]. specialize (Ha s). destruct (outstanding e (ss_outbox s)) as [|r l] eqn:E; [injection Ha as <-; done|].
  unfold wire_rows in Ha. by rewrite Ha.
Qed.
End Dispatch.
