(* ===== verification/SyncDevice.v ===== *)
(** * Desktop app: synchronisation of a device

    What a device does with the answers of an account, with the user's edits and with
    conflicts, [mezair-app/src/main/services/sync-engine.service.ts]: pushing the outbox,
    applying pulled changes, activating a staged rebuild, resolving conflicts, and the
    re-sealing of outbox rows by [sync-keyring.service.ts].  The tables of the entities
    themselves, [sync-entity-domain.ts], are an interface with the laws the engine relies on.
    What the keyring does with a key-distribution record is left out; the changes it records
    are calls of their own.  The device's keys, AES-GCM, [JSON.parse] and SHA-256 are
    parameters. *)

From stdpp Require Import base list strings gmap.
From Stdlib Require Import ZArith Ascii.
From S2P Require Import Prelude Transactions JsString JsValue SyncWire SyncTables SyncLog SyncCalls SyncClient SyncOutbox.

(** ** Entities *)

Definition SYNC_ENTITY_WORKSPACE_DEFINITION : string := "workspace-definition".

(** [SYNC_ENTITY_TYPES] with [SYNC_ENTITY_SCHEMA_VERSIONS]. *)
Definition SYNC_ENTITY_SCHEMA_VERSIONS : list (string * Z) :=
  [("workflow-template", 1); ("editable-agent", 1); (SYNC_ENTITY_WORKSPACE_DEFINITION, 1); ("settings", 1)].

Definition schema_version_of (entityType : string) : option Z :=
  snd <$> find (λ p, String.eqb p.1 entityType) SYNC_ENTITY_SCHEMA_VERSIONS.

Definition isSupportedEntityType (entityType : string) : bool := bool_decide (is_Some (schema_version_of entityType)).

(** The tables of entities, as the engine uses them. *)
Class EntityDomain (D : Type) := {
  readEntityPayloadJson : D → EntityKey → option string;
  applyRemoteEntityPayload : EntityKey → jsval → D → D;
  deleteLocalEntity : EntityKey → D → D;
  (** A copy under a fresh id, with its payload. *)
  persistConflictCopy : string → string → json → D → option (string * json * D);
  isWorkspaceSyncPaused : D → string → bool;
  entityPayloadIssue : string → json → option string;
  (** The types of which a well-formed payload is applied whole, and what is then read. *)
  applied_whole : string → bool;
  projected : EntityKey → json → option string;
  (** Laws: other entities stay as they are. *)
  apply_other : ∀ k k' p d, k ≠ k' → readEntityPayloadJson (applyRemoteEntityPayload k p d) k' = readEntityPayloadJson d k';
  delete_other : ∀ k k' d, k ≠ k' → readEntityPayloadJson (deleteLocalEntity k d) k' = readEntityPayloadJson d k';
  apply_read : ∀ k p d, applied_whole k.1 = true → entityPayloadIssue k.1 p = None →
    readEntityPayloadJson (applyRemoteEntityPayload k (Some p) d) k = projected k p;
  delete_read : ∀ k d, applied_whole k.1 = true → readEntityPayloadJson (deleteLocalEntity k d) k = None;
  (** A payload that is not well-formed is ignored. *)
  apply_malformed : ∀ k p d, applied_whole k.1 = true → entityPayloadIssue k.1 p ≠ None → applyRemoteEntityPayload k (Some p) d = d;
}.

Record Device (D : Type) := { dv_store : SyncStore; dv_domain : D }.
Arguments dv_store {D} _.
Arguments dv_domain {D} _.
Arguments Build_Device {D} _ _.

Abbreviation V D := (M (Device D)).

Definition on_store {D A} (m : LS A) : V D A := λ v, let '(r, s) := m (dv_store v) in (r, {| dv_store := s; dv_domain := dv_domain v |}).
Definition on_domain {D} (f : D → D) : V D unit := modify (λ v, {| dv_store := dv_store v; dv_domain := f (dv_domain v) |}).

Definition CRYPTO_ENTITY_DEVICE_IDENTITY : string := "device-identity".

Section Device.
Context {D : Type} `{!EntityDomain D}.
Context (uuid : nat → string) (sha256Hex : string → string) (JSON_parse : string → option json).
Context (backendId accountId : string) (gcmOpen : string → string → string → string → option string)
  (gcmSeal : string → string → string → string → string).

(** ** Wire form *)

(** An account key by its version. *)
Abbreviation Keys := (Z → option string).

Definition to_domain (keys : Keys) : EntityKey → jsval → WireDomainResult :=
  wirePayloadToDomain backendId accountId (λ _, keys) gcmOpen JSON_parse 0.

(** The payload sealed under the current key; none while there is no key. *)
Definition sealEntityPayload (current : option (Z * string)) (k : EntityKey) (payload : json) : LS (option json) :=
  match current with
  | None => mret None
  | Some (version, key) =>
      nonce ← randomUUID uuid;
      mret (Some (JObj [("enc", JStr "aes-256-gcm"); ("keyVersion", JNum (int version)); ("nonce", JStr nonce);
        ("ct", JStr (gcmSeal key (entitySealAssociatedData backendId accountId k version) nonce (canonicalJson payload)))]))
  end.

Definition sealWirePayload (current : option (Z * string)) (input : SealInput) : LS (option json) :=
  if isCryptoBoundaryEntityType (sl_entity input).1 then mret (Some (sl_payload input))
  else sealEntityPayload current (sl_entity input) (sl_payload input).

(** ** Push *)

Definition push_options (d : D) (current : option (Z * string)) (enrollmentId : string) (metadataOnly : bool)
    (entityBytes pageBytes batchChanges : Z) : NextBatchOptions := {|
  nb_maxChanges := batchChanges; nb_maxBytes := pageBytes; nb_entityBytes := entityBytes;
  nb_seal := Some (sealWirePayload current);
  nb_shouldDispatch := λ k,
    negb (String.eqb k.1 SYNC_ENTITY_WORKSPACE_DEFINITION && isWorkspaceSyncPaused d k.2) &&
    (negb metadataOnly || (String.eqb k.1 CRYPTO_ENTITY_DEVICE_IDENTITY && String.eqb k.2 enrollmentId));
  nb_onlyEntity := if metadataOnly then Some (CRYPTO_ENTITY_DEVICE_IDENTITY, enrollmentId) else None |}.

Definition malformed_answer (message : string) : JsError := SyncEngineError message "malformed" false.

(** The answer to a change, its content opened if the device can. *)
Definition mapPushItemResult (keys : Keys) (batch : list PendingChange) (item : SyncPushItemResult) : outcome PushResult :=
  match item with
  | push_accepted changeId revision _ => Ok (pu_accepted changeId (Some revision))
  | push_conflict changeId remoteRevision remoteContent =>
      match find (λ c, String.eqb (pc_changeId c) changeId) batch with
      | None => Throw (malformed_answer "sync.push conflict referenced an unknown change")
      | Some c =>
          let k := (pc_entityType c, pc_entityId c) in
          let present := match remoteContent with JNull => false | _ => true end in
          if present && negb (isCryptoBoundaryEntityType k.1) && negb (isSealedEntityPayload remoteContent) then
            Throw (malformed_answer "sync.push conflict returned an unsealed domain payload")
          else
            let remotePayload :=
              if present && negb (isCryptoBoundaryEntityType k.1) then
                match unsealEntityPayload backendId accountId (λ _, keys) gcmOpen JSON_parse 0 k remoteContent with
                | inl domain => domain
                | inr _ => remoteContent
                end
              else remoteContent in
            Ok (pu_conflict changeId (Some remotePayload) (Some remoteRevision))
      end
  | push_rejected changeId reason => Ok (pu_rejected changeId (Some reason))
  | push_reset_required changeId _ => Ok (pu_reset_required changeId)
  | push_receipt_expired changeId => Ok (pu_receipt_expired changeId)
  end.

(** The part of [pushCycle] before its request, and the part after the answer. *)
Definition push_request (now : Z) (current : option (Z * string)) (enrollmentId : string) (metadataOnly : bool)
    (entityBytes pageBytes batchChanges : Z) : V D (list PendingChange) :=
  d ← gets dv_domain;
  on_store (nextBatch uuid sha256Hex JSON_parse now enrollmentId
    (push_options d current enrollmentId metadataOnly entityBytes pageBytes batchChanges)).

Definition settle_push (now : Z) (keys : Keys) (batch : list PendingChange) (items : list SyncPushItemResult) : V D unit :=
  results ← from_outcome (map_outcome (mapPushItemResult keys batch) items);
  _ ← on_store (applyPushResults uuid now results);
  on_store (updateSyncState (patch_pushed now)).

(** ** Conflicts *)

Definition local_payload (k : EntityKey) : V D (option string) := gets (λ v, readEntityPayloadJson (dv_domain v) k).

Definition insert_conflict (now : Z) (k : EntityKey) (base : option Z * option string) (localPayload : option string)
    (remote : option Z * option string) (kind : SyncConflictKind) (authoritative : bool) : V D unit :=
  on_store (insertUnresolvedConflict uuid now {|
    ii_entity := k; ii_basePayloadJson := base.2; ii_localPayloadJson := localPayload; ii_remotePayloadJson := remote.2;
    ii_baseRevision := base.1; ii_remoteRevision := remote.1; ii_kind := kind;
    ii_remoteSnapshotIsAuthoritative := authoritative |}).

(** How a remote and a local payload conflict. *)
Definition conflict_kind (remote localPayload : option string) : SyncConflictKind :=
  match remote, localPayload with
  | None, Some _ => ck_edit_delete
  | Some _, None => ck_delete_edit
  | _, _ => ck_edit_edit
  end.

(** ** Pull *)

(** Why an entity cannot be applied, if it cannot. *)
Definition entityQuarantineReason (entityType : string) (schemaVersion : Z) (payloadJson : option string) : option string :=
  match schema_version_of entityType with
  | None => Some "unsupported-entity-type"
  | Some v =>
      if negb (schemaVersion =? v) then Some "unsupported-schema-version"
      else match payloadJson with
      | None => None
      | Some text => match JSON_parse text with
                     | None => Some "malformed-payload"
                     | Some parsed => entityPayloadIssue entityType parsed
                     end
      end
  end.

Definition parse_payload (payloadJson : option string) : V D jsval :=
  match payloadJson with
  | None => mret None
  | Some text => v ← on_store (parse_json JSON_parse text); mret (Some v)
  end.

Definition applyDomainProjection (k : EntityKey) (operation : SyncOperation) (payload : jsval) : V D unit :=
  on_domain (match operation with
    | op_create | op_update => applyRemoteEntityPayload k payload
    | op_delete => deleteLocalEntity k
    end).

Definition writeBindingBase (k : EntityKey) (revision : Z) (payloadJson : option string) : V D unit :=
  _ ← on_store (setBindingBase k (Some revision) payloadJson);
  on_store (acknowledgeBindingLocalEdits k).

(** Local work on an entity that the account has not taken. *)
Definition unsynced (k : EntityKey) (binding : SyncBinding) (s : SyncStore) : bool :=
  (bi_acknowledgedGeneration binding <? bi_localEditGeneration binding) ||
  negb (Nat.eqb (length (listMutableOutboxRows k s)) 0).

Definition seen_revision (revision : Z) (binding : option SyncBinding) : bool :=
  match binding ≫= bi_baseRevision with Some b => revision <=? b | None => false end.

Definition is_paused_workspace (d : D) (k : EntityKey) : bool :=
  String.eqb k.1 SYNC_ENTITY_WORKSPACE_DEFINITION && isWorkspaceSyncPaused d k.2.

(** A pulled change of a bound entity. *)
Definition apply_bound (now : Z) (change : SyncedChange) (binding : SyncBinding) (payloadJson quarantineReason : option string) :
    V D unit :=
  let k := sy_entity change in
  let revision := sy_revision change in
  if seen_revision revision (Some binding) then mret tt
  else
    openConflict ← on_store (getUnresolvedConflict k);
    match openConflict with
    | Some (_, conflict) =>
        localPayload ← local_payload k;
        insert_conflict now k (cf_baseRevision conflict, cf_basePayloadJson conflict) (cf_localPayloadJson conflict)
          (Some revision, payloadJson) (conflict_kind payloadJson localPayload) false
    | None =>
        s ← gets dv_store;
        if unsynced k binding s && (negb (bool_decide (bi_baseRevision binding = Some revision)) ||
                                    negb (bool_decide (payloadJson = bi_basePayloadJson binding))) then
          localPayload ← local_payload k;
          insert_conflict now k (bi_baseRevision binding, bi_basePayloadJson binding) localPayload
            (Some revision, payloadJson) (conflict_kind payloadJson localPayload) false
        else
          _ ← writeBindingBase k revision payloadJson;
          match quarantineReason with
          | Some _ => on_store (setBindingQuarantine k payloadJson)
          | None =>
              _ ← on_store (setBindingQuarantine k None);
              payload ← parse_payload payloadJson;
              applyDomainProjection k (sy_operation change) payload
          end
    end.

(** A pulled change of an entity without a binding. *)
Definition apply_unbound (now : Z) (change : SyncedChange) (payloadJson quarantineReason : option string) : V D unit :=
  let k := sy_entity change in
  let adopt quarantine := on_store (upsertBinding k (Some (sy_revision change)) payloadJson quarantine) in
  if bool_decide (sy_operation change = op_delete) then mret tt
  else match quarantineReason with
  | Some _ => _ ← adopt payloadJson; mret tt
  | None =>
      domainJson ← local_payload k;
      foreignBound ← gets (λ v, bound_anywhere k (dv_store v));
      match domainJson, foreignBound with
      | None, false =>
          _ ← adopt None;
          payload ← parse_payload payloadJson;
          applyDomainProjection k (sy_operation change) payload
      | _, _ =>
          _ ← adopt None;
          if bool_decide (domainJson = None) || bool_decide (domainJson = payloadJson) then mret tt
          else insert_conflict now k (None, None) domainJson (Some (sy_revision change), payloadJson) ck_edit_edit false
      end
  end.

Definition applySyncedChange (now : Z) (keys : Keys) (change : SyncedChange) : V D unit :=
  let k := sy_entity change in
  let revision := sy_revision change in
  if isCryptoBoundaryEntityType k.1 then mret tt
  else
    d ← gets dv_domain;
    binding ← on_store (getBinding k);
    if is_paused_workspace d k then
      if seen_revision revision binding then mret tt
      else on_store (storePausedInboundChange k {| pi_revision := revision; pi_changeJson := canonicalJson (synced_json change) |} false)
    else match to_domain keys k (sy_payload change) with
    | wire_quarantined _ _ =>
        let quarantine := Some (quarantine_json (sy_payload change) revision (sy_schemaVersion change)) in
        if seen_revision revision binding then mret tt
        else match binding with
        | None => _ ← on_store (upsertBinding k None None quarantine); mret tt
        | Some _ => on_store (setBindingQuarantine k quarantine)
        end
    | wire_domain payloadJson =>
        let quarantineReason :=
          if bool_decide (sy_operation change = op_delete)
          then if isSupportedEntityType k.1 then None else Some "unsupported-entity-type"
          else entityQuarantineReason k.1 (sy_schemaVersion change) payloadJson in
        match binding with
        | Some b => apply_bound now change b payloadJson quarantineReason
        | None => apply_unbound now change payloadJson quarantineReason
        end
    end.

(** A page in one transaction, with the cursor after it. *)
Definition applyPullPage (now : Z) (keys : Keys) (changes : list json) (nextCursor : string) : V D unit :=
  commit (
    _ ← for_each changes (λ raw _, match toSyncedChange raw with
          | None => throw (malformed_answer "sync.pull returned a malformed change")
          | Some change => applySyncedChange now keys change
          end) tt;
    on_store (updateSyncState (patch_cursor nextCursor (Some now) None))).

(** The deferred changes of workspaces that are no longer paused, taken in some order. *)
Definition apply_paused (now : Z) (keys : Keys) (paused : EntityKey * PausedInboundChange) (applied : Z) : V D Z :=
  let '(k, p) := paused in
  d ← gets dv_domain;
  if negb (String.eqb k.1 SYNC_ENTITY_WORKSPACE_DEFINITION) || isWorkspaceSyncPaused d k.2 then mret applied
  else
    let malformed_change := malformed_answer "stored paused workspace change is malformed" in
    match JSON_parse (pi_changeJson p) ≫= toSyncedChange with
    | None => throw malformed_change
    | Some change =>
        if bool_decide (sy_entity change = k) && (sy_revision change =? pi_revision p) then
          _ ← applySyncedChange now keys change;
          _ ← on_store (deletePausedInboundChange k);
          mret (applied + 1)
        else throw malformed_change
    end.

Definition applyPausedWorkspaceChanges (now : Z) (keys : Keys) : V D Z :=
  commit (paused ← gets (λ v, map_to_list (ss_paused (dv_store v)));
          for_each paused (apply_paused now keys) 0).

(** ** Activation of a staged rebuild *)

(** The change a paused workspace keeps for an entity, with its revision for a sequence. *)
Definition deferred_change (k : EntityKey) (revision schemaVersion : Z) (operation : SyncOperation) (payload : jsval) :
    PausedInboundChange := {|
  pi_revision := revision;
  pi_changeJson := canonicalJson (synced_json {| sy_entity := k; sy_revision := revision; sy_operation := operation;
    sy_schemaVersion := schemaVersion; sy_sequence := revision; sy_payload := payload |}) |}.

(** A quarantined payload gives its envelope back. *)
Definition unwrap_envelope (payload : jsval) : jsval :=
  if isRecord payload && isRecord (prop "envelope" payload) then prop "envelope" payload else payload.

Definition resolveConvergedConflict (now : Z) (conflict : option (string * SyncConflict)) (remotePayloadJson : option string)
    (remoteRevision : option Z) : V D unit :=
  match conflict with
  | None => mret tt
  | Some (id, c) =>
      _ ← insert_conflict now (cf_entity c) (cf_baseRevision c, cf_basePayloadJson c) (cf_localPayloadJson c)
            (remoteRevision, remotePayloadJson) (cf_kind c) true;
      on_store (resolveConflict now id rs_use_remote)
  end.

(** A staged entity the scope has no binding for. *)
Definition activate_unbound (now : Z) (k : EntityKey) (row : StagedRow) (quarantined : bool) : V D unit :=
  let adopt payload quarantine := on_store (upsertBinding k (Some (sr_revision row)) payload quarantine) in
  if quarantined then _ ← adopt (sr_payloadJson row) (sr_payloadJson row); mret tt
  else
    domainJson ← local_payload k;
    foreignBound ← gets (λ v, bound_anywhere k (dv_store v));
    if bool_decide (sr_operation row = op_delete) then
      _ ← adopt None None;
      match domainJson, foreignBound with
      | Some text, false => insert_conflict now k (None, None) (Some text) (Some (sr_revision row), None) ck_edit_delete true
      | _, _ => mret tt
      end
    else match domainJson, foreignBound with
    | None, false =>
        _ ← adopt (sr_payloadJson row) None;
        payload ← parse_payload (sr_payloadJson row);
        applyDomainProjection k (sr_operation row) payload
    | _, _ =>
        _ ← adopt (sr_payloadJson row) None;
        if bool_decide (domainJson = None) || bool_decide (domainJson = sr_payloadJson row) then mret tt
        else insert_conflict now k (None, None) domainJson (Some (sr_revision row), sr_payloadJson row) ck_edit_edit true
    end.

(** A staged entity against its binding. *)
Definition activate_bound (now : Z) (k : EntityKey) (row : StagedRow) (binding : SyncBinding) (quarantined : bool)
    (openConflict : option (string * SyncConflict)) : V D unit :=
  let set_base := on_store (setBindingBase k (Some (sr_revision row)) (sr_payloadJson row)) in
  if quarantined then _ ← set_base; on_store (setBindingQuarantine k (sr_payloadJson row))
  else
    domainJson ← local_payload k;
    s ← gets dv_store;
    if negb (negb (bool_decide (openConflict = None)) || unsynced k binding s) then
      _ ← set_base;
      _ ← on_store (setBindingQuarantine k None);
      if bool_decide (domainJson = sr_payloadJson row) then mret tt
      else
        payload ← parse_payload (sr_payloadJson row);
        applyDomainProjection k (if bool_decide (sr_operation row = op_delete) then op_delete
                                 else if domainJson is Some _ then op_update else op_create) payload
    else if negb (bool_decide (domainJson = None)) && bool_decide (domainJson = sr_payloadJson row) then
      _ ← set_base;
      _ ← on_store (acknowledgeBindingLocalEdits k);
      _ ← on_store (deletePendingOutboxRows k);
      _ ← on_store (rejectDispatchedRows k "reset-uncertain");
      _ ← on_store (rejectConflictedOutboxRows k "reset-converged");
      resolveConvergedConflict now openConflict (sr_payloadJson row) (Some (sr_revision row))
    else
      _ ← insert_conflict now k (bi_baseRevision binding, bi_basePayloadJson binding) domainJson
            (Some (sr_revision row), sr_payloadJson row)
            (if bool_decide (sr_operation row = op_delete) then ck_edit_delete
             else if domainJson is Some _ then ck_edit_edit else ck_delete_edit) true;
      _ ← set_base;
      on_store (rejectDispatchedRows k "reset-uncertain").

Definition activate_entity (now : Z) (bindings : gmap EntityKey SyncBinding) (entity : EntityKey * StagedRow) : V D unit :=
  let '(k, row) := entity in
  d ← gets dv_domain;
  if is_paused_workspace d k then
    payload ← parse_payload (sr_payloadJson row);
    on_store (storePausedInboundChange k
      (deferred_change k (sr_revision row) (sr_schemaVersion row) (sr_operation row) (unwrap_envelope payload)) true)
  else
    openConflict ← on_store (getUnresolvedConflict k);
    let quarantined := negb (bool_decide (entityQuarantineReason k.1 (sr_schemaVersion row) (sr_payloadJson row) = None)) in
    match bindings !! k with
    | None => activate_unbound now k row quarantined
    | Some b => activate_bound now k row b quarantined openConflict
    end.

(** A bound entity the rebuilt account does not have. *)
Definition activate_absent (now : Z) (bound : EntityKey * SyncBinding) : V D unit :=
  let '(k, binding) := bound in
  d ← gets dv_domain;
  if is_paused_workspace d k then
    let revision := default 0 (bi_baseRevision binding) + 1 in
    on_store (storePausedInboundChange k
      (deferred_change k revision (default 1 (schema_version_of SYNC_ENTITY_WORKSPACE_DEFINITION)) op_delete None) true)
  else
    openConflict ← on_store (getUnresolvedConflict k);
    domainJson ← local_payload k;
    s ← gets dv_store;
    if negb (negb (bool_decide (openConflict = None)) || unsynced k binding s) then
      _ ← on_store (deleteBinding k);
      elsewhere ← gets (λ v, bound_anywhere k (dv_store v));
      if (elsewhere : bool) then mret tt else on_domain (deleteLocalEntity k)
    else match domainJson with
    | None =>
        _ ← on_store (deleteMutableOutboxRows k);
        _ ← on_store (deleteBinding k);
        resolveConvergedConflict now openConflict None None
    | Some _ =>
        _ ← insert_conflict now k (bi_baseRevision binding, bi_basePayloadJson binding) domainJson (None, None) ck_edit_delete false;
        _ ← on_store (setBindingBase k None None);
        on_store (rejectDispatchedRows k "reset-uncertain")
    end.

Definition activateStagedScan (now : Z) (nextCursor : string) : V D unit :=
  commit (
    staged ← gets (λ v, listScanStaging (ss_staging (dv_store v)));
    bindings ← gets (λ v, ss_bindings (dv_store v));
    _ ← for_each staged (λ e _, activate_entity now bindings e) tt;
    _ ← for_each (List.filter (λ b, negb (bool_decide (b.1 ∈ fst <$> staged))) (map_to_list bindings))
          (λ b _, activate_absent now b) tt;
    _ ← on_store (updateSyncState (patch_cursor nextCursor None (Some false)));
    on_store (modify (put_staging {| sg_rows := ∅; sg_run := None |}))).

(** ** Resolution of conflicts *)

Definition requeued (r : OutboxRow) : OutboxRow := {|
  ob_enrollment_id := ob_enrollment_id r; ob_enrollment_sequence := None; ob_entity := ob_entity r;
  ob_schema_version := ob_schema_version r; ob_base_revision := ob_base_revision r; ob_operation := ob_operation r;
  ob_payload_json := ob_payload_json r; ob_payload_hash := ob_payload_hash r;
  ob_local_edit_generation := ob_local_edit_generation r; ob_state := os_pending; ob_created_at := ob_created_at r;
  ob_dispatched_at := None; ob_result_json := ob_result_json r; ob_sealed_json := ob_sealed_json r; ob_rowid := ob_rowid r |}.

(** The remote observation becomes the base, and the local change is queued again. *)
Definition requeueEntityForKeepLocal (now : Z) (k : EntityKey) (conflict : SyncConflict) : V D unit :=
  let in_conflict := is_row k [os_conflict] in
  _ ← on_store (setBindingBase k (cf_remoteRevision conflict) (cf_remotePayloadJson conflict));
  pending ← gets (λ v, outbox_rows (is_row k [os_pending]) (ss_outbox (dv_store v)));
  if negb (Nat.eqb (length pending) 0) then
    on_store (set_outbox (update_rows in_conflict (with_result os_rejected (rejected_json "superseded-by-local-edit"))))
  else
    conflicted ← gets (λ v, outbox_rows in_conflict (ss_outbox (dv_store v)));
    _ ← for_each conflicted (λ r _,
          if bool_decide (ob_operation r.2 = op_delete) && bool_decide (cf_remotePayloadJson conflict = None)
          then on_store (set_outbox (delete_where in_conflict))
          else on_store (set_outbox (update_rows in_conflict requeued))) tt;
    match conflicted, cf_localPayloadJson conflict with
    | [], Some text =>
        payload ← on_store (parse_json JSON_parse text);
        _ ← on_store (recordLocalChange uuid sha256Hex JSON_parse now {|
              rl_entity := k; rl_schemaVersion := 1;
              rl_operation := if cf_remotePayloadJson conflict is Some _ then op_update else op_create;
              rl_payload := Some payload |});
        mret tt
    | _, _ => mret tt
    end.

Definition conflict_error (message : string) : JsError := MkError None message [("retryable", "false")].

(** The local version becomes an entity of its own. *)
Definition saveLocalConflictCopy (now : Z) (conflict : SyncConflict) : V D unit :=
  let '(t, i) := cf_entity conflict in
  here ← local_payload (t, i);
  match (if cf_localPayloadJson conflict is Some text then Some text else here) with
  | None => throw (conflict_error "save-copy requires a local version to preserve")
  | Some text =>
      payload ← on_store (parse_json JSON_parse text);
      if negb (isRecord (Some payload)) then throw (conflict_error "Local payload is not an object")
      else
        id ← on_store (randomUUID uuid);
        d ← gets dv_domain;
        match persistConflictCopy id t payload d with
        | None => throw (conflict_error ("save-copy is not supported for entity type " +:+ t))
        | Some (copyId, copy, d') =>
            _ ← on_domain (λ _, d');
            _ ← on_store (upsertBinding (t, copyId) None None None);
            _ ← on_store (recordLocalChange uuid sha256Hex JSON_parse now {|
                  rl_entity := (t, copyId); rl_schemaVersion := default 1 (schema_version_of t);
                  rl_operation := op_create; rl_payload := Some copy |});
            mret tt
        end
  end.

(** The remote version replaces the local one. *)
Definition take_remote (k : EntityKey) (conflict : SyncConflict) : V D unit :=
  _ ← on_store (deleteMutableOutboxRows k);
  match cf_remotePayloadJson conflict with
  | None =>
      _ ← on_store (deleteBinding k);
      elsewhere ← gets (λ v, bound_anywhere k (dv_store v));
      if (elsewhere : bool) then mret tt else on_domain (deleteLocalEntity k)
  | Some text =>
      payload ← on_store (parse_json JSON_parse text);
      _ ← applyDomainProjection k op_update (Some payload);
      writeBindingBase k (default 0 (cf_remoteRevision conflict)) (Some text)
  end.

Definition resolveSyncConflict (now : Z) (conflictId : string) (resolution : SyncConflictResolution) : V D unit :=
  row ← gets (λ v, ss_conflicts (dv_store v) !! conflictId);
  match row with
  | None => throw (conflict_error ("Unknown conflict " +:+ conflictId))
  | Some c =>
      if negb (bool_decide (cf_resolvedAt c = None)) then
        throw (conflict_error ("Conflict " +:+ conflictId +:+ " is already resolved"))
      else commit (
        _ ← match resolution with
            | rs_keep_local => requeueEntityForKeepLocal now (cf_entity c) c
            | rs_use_remote => take_remote (cf_entity c) c
            | rs_save_copy => _ ← saveLocalConflictCopy now c; take_remote (cf_entity c) c
            end;
        on_store (resolveConflict now conflictId resolution))
  end.

(** ** Local edits *)

(** The domain write of an edit, and its record if the entity is bound in the scope; of other
    scopes the same. *)
Definition withSyncedEntityWrite (now : Z) (k : EntityKey) (schemaVersion : Z) (operation : SyncOperation)
    (buildPayload : D → option json) (domainWrite : D → D) : V D unit :=
  _ ← on_domain domainWrite;
  binding ← on_store (getBinding k);
  match binding with
  | None => mret tt
  | Some _ =>
      d ← gets dv_domain;
      _ ← on_store (recordLocalChange uuid sha256Hex JSON_parse now
            {| rl_entity := k; rl_schemaVersion := schemaVersion; rl_operation := operation; rl_payload := buildPayload d |});
      mret tt
  end.

(** ** Re-sealing after a lost rotation of keys *)

Definition with_sealed (sealed : string) (r : OutboxRow) : OutboxRow := {|
  ob_enrollment_id := ob_enrollment_id r; ob_enrollment_sequence := ob_enrollment_sequence r; ob_entity := ob_entity r;
  ob_schema_version := ob_schema_version r; ob_base_revision := ob_base_revision r; ob_operation := ob_operation r;
  ob_payload_json := ob_payload_json r; ob_payload_hash := ob_payload_hash r;
  ob_local_edit_generation := ob_local_edit_generation r; ob_state := ob_state r; ob_created_at := ob_created_at r;
  ob_dispatched_at := ob_dispatched_at r; ob_result_json := ob_result_json r; ob_sealed_json := Some sealed;
  ob_rowid := ob_rowid r |}.

(** The content of a row sealed under the losing key. *)
Definition opened_under (losing : Z * string) (k : EntityKey) (text : string) : option string :=
  match JSON_parse text with
  | None => None
  | Some envelope =>
      if negb (is_int losing.1 (prop "keyVersion" (Some envelope))) then None
      else match prop "nonce" (Some envelope), prop "ct" (Some envelope) with
      | Some (JStr nonce), Some (JStr ct) => gcmOpen losing.2 (entitySealAssociatedData backendId accountId k losing.1) nonce ct
      | _, _ => None
      end
  end.

Definition resealed (winner : Z * string) (nonce : string) (k : EntityKey) (plain : string) : string :=
  JSON_stringify (JObj [("enc", JStr "aes-256-gcm"); ("keyVersion", JNum (int winner.1)); ("nonce", JStr nonce);
    ("ct", JStr (gcmSeal winner.2 (entitySealAssociatedData backendId accountId k winner.1) nonce plain))]).

(** Every row of the entity gets the envelope of this one; its hash stays. *)
Definition reseal_row (losing winner : Z * string) (r : string * OutboxRow) : LS unit :=
  let k := ob_entity r.2 in
  match ob_sealed_json r.2 ≫= opened_under losing k with
  | None => mret tt
  | Some plain =>
      nonce ← randomUUID uuid;
      set_outbox (update_rows (λ row, bool_decide (ob_entity row = k)) (with_sealed (resealed winner nonce k plain)))
  end.

(** The part of the loser's reconciliation that concerns the outbox. *)
Definition resealOutbox (losing winner : Z * string) : V D unit :=
  rows ← gets (λ v, outbox_rows (λ r, negb (bool_decide (ob_sealed_json r = None))) (ss_outbox (dv_store v)));
  for_each rows (λ r _, on_store (reseal_row losing winner r)) tt.

(** ** A device and its account

    One cycle of a scope runs at a time: a request, its answer and what the device does with
    it come in this order, while the user and the keyring act on the device and other devices
    on the account at any time.  A request or an answer may be lost. *)

Inductive LocalCall :=
| lc_enroll (now : Z) (id : string) (state : SyncEnrollmentState)
| lc_revoke (now : Z) (id : string)
| lc_record (now : Z) (input : RecordLocalChangeInput)
| lc_edit (now : Z) (k : EntityKey) (schemaVersion : Z) (operation : SyncOperation)
    (buildPayload : D → option json) (domainWrite : D → D)
| lc_resolve (now : Z) (conflictId : string) (resolution : SyncConflictResolution)
| lc_unpause (now : Z) (keys : Keys)
| lc_reseal (losing winner : Z * string)
| lc_sweep (now : Z).

Definition run_local (c : LocalCall) (v : Device D) : Device D :=
  match c with
  | lc_enroll now id state => (on_store (upsertEnrollment now id state) v).2
  | lc_revoke now id => (on_store (revokeEnrollment now id) v).2
  | lc_record now input => (commit (on_store (recordLocalChange uuid sha256Hex JSON_parse now input)) v).2
  | lc_edit now k version operation build write => (commit (withSyncedEntityWrite now k version operation build write) v).2
  | lc_resolve now id resolution => (resolveSyncConflict now id resolution v).2
  | lc_unpause now keys => (applyPausedWorkspaceChanges now keys v).2
  | lc_reseal losing winner => (resealOutbox losing winner v).2
  | lc_sweep now => (on_store (sweepLocalSyncRetention now) v).2
  end.

Inductive Phase :=
| ph_idle
| ph_pushing (batch : list PendingChange)
| ph_answered (batch : list PendingChange) (items : list SyncPushItemResult)
| ph_pulled (page : SyncPullResult).

Record Site := { si_db : SyncDb; si_device : Device D; si_phase : Phase }.

Definition push_request_json (batch : list PendingChange) (epoch : string) : json :=
  JObj [("changes", JArr (map pending_json batch)); ("epoch", JStr epoch)].

Definition pull_request_json (cursor : option string) (pageBytes : Z) : json :=
  JObj [("cursor", json_cursor cursor); ("maxBytes", JNum (int pageBytes))].

Inductive SiteEvent :=
| sx_account (c : SyncCall)
| sx_local (c : LocalCall)
| sx_request (now : Z) (current : option (Z * string)) (enrollmentId : string) (metadataOnly : bool)
    (entityBytes pageBytes batchChanges : Z)
| sx_push (now : Z) (auth : SpikeAuth) (epoch : string)
| sx_settle (now : Z) (keys : Keys)
| sx_pull (pageBytes : Z)
| sx_apply (now : Z) (keys : Keys)
| sx_lost
| sx_rebuild (now : Z) (staging : ScanStaging) (nextCursor : string).

Context (date_parse : string → option Z) (hosted : bool).

(** Errors that ask for a rebuild set its flag. *)
Definition flag_reset (codes : list string) (e : JsError) (v : Device D) : Device D :=
  if match err_code e with Some c => bool_decide (c ∈ codes) | None => false end
  then (on_store (updateSyncState patch_reset) v).2 else v.

Definition push_reset_codes : list string := ["reset-required"; "receipt-expired"; "epoch-mismatch"].
Definition pull_reset_codes : list string := ["reset-required"].

Definition site_step (e : SiteEvent) (w : Site) : Site :=
  let on_device v phase := {| si_db := si_db w; si_device := v; si_phase := phase |} in
  match e, si_phase w with
  | sx_account c, phase => {| si_db := run_call sha256Hex date_parse hosted c (si_db w); si_device := si_device w; si_phase := phase |}
  | sx_local c, phase => on_device (run_local c (si_device w)) phase
  | sx_request now current enrollmentId metadataOnly entityBytes pageBytes batchChanges, ph_idle =>
      match push_request now current enrollmentId metadataOnly entityBytes pageBytes batchChanges (si_device w) with
      | (Ok [], v) | (Throw _, v) => on_device v ph_idle
      | (Ok batch, v) => on_device v (ph_pushing batch)
      end
  | sx_push now auth epoch, ph_pushing batch =>
      match handlePush sha256Hex date_parse hosted now auth (push_request_json batch epoch) (si_db w) with
      | (Ok outcome, s) => {| si_db := s; si_device := si_device w; si_phase := ph_answered batch (po_results outcome) |}
      | (Throw e, s) => {| si_db := s; si_device := flag_reset push_reset_codes e (si_device w); si_phase := ph_idle |}
      end
  | sx_settle now keys, ph_answered batch items => on_device (settle_push now keys batch items (si_device w)).2 ph_idle
  | sx_pull pageBytes, ph_idle =>
      match handlePull (pull_request_json (st_cursor (ss_state (dv_store (si_device w)))) pageBytes) (si_db w) with
      | (Ok page, s) => {| si_db := s; si_device := si_device w; si_phase := ph_pulled page |}
      | (Throw e, s) => {| si_db := s; si_device := flag_reset pull_reset_codes e (si_device w); si_phase := ph_idle |}
      end
  | sx_apply now keys, ph_pulled page =>
      on_device (applyPullPage now keys (map synced_json (pr_changes page)) (int_to_string (pr_nextCursor page)) (si_device w)).2 ph_idle
  | sx_lost, _ => on_device (si_device w) ph_idle
  | sx_rebuild now staging nextCursor, ph_idle =>
      on_device (activateStagedScan now nextCursor
        {| dv_store := put_staging staging (dv_store (si_device w)); dv_domain := dv_domain (si_device w) |}).2 ph_idle
  | _, _ => w
  end.

Definition run_site (es : list SiteEvent) (w : Site) : Site := foldl (λ w e, site_step e w) w es.

End Device.

(** A device that has just joined. *)
Definition initial_store : SyncStore := {|
  ss_enrollments := ∅; ss_bindings := ∅; ss_foreign := ∅; ss_outbox := ∅; ss_conflicts := ∅; ss_paused := ∅;
  ss_staging := {| sg_rows := ∅; sg_run := None |};
  ss_state := {| st_cursor := None; st_lastPullAt := None; st_lastPushAt := None; st_resetRequired := false |};
  ss_ids := 0 |}.

Definition initial_site {D} (d : D) : Site := {|
  si_db := initial_db; si_device := {| dv_store := initial_store; dv_domain := d |}; si_phase := ph_idle |}.
