(* ===== verification/SyncDeviceSound.v ===== *)
(** * Desktop app: what a device's calls keep

    What an operation on one entity leaves of the others, and that local work is neither
    overwritten by what is pulled nor by a rebuild. *)

From stdpp Require Import base list strings gmap relations.
From Stdlib Require Import ZArith Ascii Lia.
From S2P Require Import Prelude Transactions JsString JsValue SyncWire SyncTables SyncLog SyncCalls SyncClient SyncOutbox SyncOutboxSound SyncDevice.

(** ** What leaves an entity alone *)

(** Rows of an entity by their key. *)
Definition same_rows_of {A} (entity : A → EntityKey) (k : EntityKey) (m m' : gmap string A) : Prop :=
  ∀ id r, entity r = k → m' !! id = Some r ↔ m !! id = Some r.

Section SameRows.
Context {A : Type} (entity : A → EntityKey) (k : EntityKey).
Implicit Types m : gmap string A.

#[export] Instance same_rows_preorder : PreOrder (same_rows_of entity k).
Proof. split; [by intros m id r _|]. intros a b c H1 H2 id r Hk. by rewrite (H2 _ _ Hk), (H1 _ _ Hk). Qed.

Lemma same_alter f id m : (∀ r, entity (f r) = entity r) → (∀ r, m !! id = Some r → entity r ≠ k) →
  same_rows_of entity k m (alter f id m).
Proof.
  intros Hf Hid j r Hk. destruct (decide (id = j)) as [<-|Hj]; [|by rewrite lookup_alter_ne].
  rewrite lookup_alter_eq. destruct (m !! id) as [r0|] eqn:E; [|done]. specialize (Hid _ eq_refl). split; intros [= Hr].
  - exfalso. apply Hid. by rewrite <- (Hf r0), Hr.
  - by subst.
Qed.

Lemma same_insert id r m : m !! id = None → entity r ≠ k → same_rows_of entity k m (<[id := r]> m).
Proof.
  intros Hid Hr j r' Hk. destruct (decide (id = j)) as [<-|Hj]; [|by rewrite lookup_insert_ne].
  rewrite lookup_insert_eq, Hid. split; [|done]. by intros [= <-].
Qed.

Lemma same_delete id m : (∀ r, m !! id = Some r → entity r ≠ k) → same_rows_of entity k m (delete id m).
Proof.
  intros Hid j r Hk. destruct (decide (id = j)) as [<-|Hj]; [|by rewrite lookup_delete_ne].
  rewrite lookup_delete_eq. split; [done|]. intros Hr. by destruct (Hid _ Hr).
Qed.

Lemma same_update p f m : (∀ r, entity (f r) = entity r) → (∀ r, p r = true → entity r ≠ k) →
  same_rows_of entity k m (update_rows p f m).
Proof.
  intros Hf Hp j r Hk. rewrite update_rows_lookup. destruct (m !! j) as [r0|]; [|done]. cbn. destruct (p r0) eqn:E; [|done].
  specialize (Hp _ E). split; intros [= Hr]; subst; [by rewrite Hf in Hp|done].
Qed.

Lemma same_delete_where p m : (∀ r, p r = true → entity r ≠ k) → same_rows_of entity k m (delete_where p m).
Proof.
  intros Hp j r Hk. rewrite delete_where_lookup. split; [by intros [? _]|]. intros Hr. split; [done|].
  destruct (p r) eqn:E; [|done]. by destruct (Hp _ E).
Qed.
End SameRows.

(** The parts of a store that concern an entity. *)
Record spares (k : EntityKey) (s s' : SyncStore) : Prop := {
  sa_binding : ss_bindings s' !! k = ss_bindings s !! k;
  sa_outbox : same_rows_of ob_entity k (ss_outbox s) (ss_outbox s');
  sa_conflicts : same_rows_of cf_entity k (ss_conflicts s) (ss_conflicts s');
  sa_foreign : ss_foreign s' = ss_foreign s;
  sa_cursor : st_cursor (ss_state s') = st_cursor (ss_state s);
}.

#[export] Instance spares_preorder k : PreOrder (spares k).
Proof. split; [by split|]. intros a b c [H1 H2 H3 H4 H5] [K1 K2 K3 K4 K5]. split; [congruence|by etrans|by etrans|congruence..]. Qed.

Section Spares.
Context (k : EntityKey).

Lemma spares_bindings f s : f (ss_bindings s) !! k = ss_bindings s !! k → spares k s (put_bindings (f (ss_bindings s)) s).
Proof. by split. Qed.

Lemma moves_bindings f : (∀ m, f m !! k = m !! k) → moves (spares k) (set_bindings f).
Proof. intros Hf s. apply spares_bindings, Hf. Qed.

Lemma spares_getBinding k' : moves (spares k) (getBinding k').
Proof. done. Qed.

Lemma spares_upsert k' base payload quarantine : k' ≠ k → moves (spares k) (upsertBinding k' base payload quarantine).
Proof.
  intros Hk. unfold upsertBinding. apply moves_bind; [apply _|done|]. intros existing. apply moves_bind; [apply _| |].
  - apply moves_bindings. intros m. by rewrite lookup_insert_ne.
  - intros _. apply moves_bind; [apply _|done|]. by intros [b|].
Qed.

Lemma spares_setBase k' revision payload : k' ≠ k → moves (spares k) (setBindingBase k' revision payload).
Proof.
  intros Hk. unfold setBindingBase. apply moves_bind; [apply _|done|]. intros [b|].
  - apply moves_bindings. intros m. by rewrite lookup_alter_ne.
  - apply moves_bind; [apply _|by apply spares_upsert|done].
Qed.

Lemma spares_setQuarantine k' q : k' ≠ k → moves (spares k) (setBindingQuarantine k' q).
Proof.
  intros Hk. unfold setBindingQuarantine. apply moves_bind; [apply _|done|]. intros [b|].
  - apply moves_bindings. intros m. by rewrite lookup_alter_ne.
  - apply moves_bind; [apply _|by apply spares_upsert|done].
Qed.

Lemma spares_acknowledge k' : k' ≠ k → moves (spares k) (acknowledgeBindingLocalEdits k').
Proof. intros Hk. apply moves_bindings. intros m. by rewrite lookup_alter_ne. Qed.

Lemma spares_paused k' p b : moves (spares k) (storePausedInboundChange k' p b).
Proof. intros s. unfold storePausedInboundChange, modify. cbn. destruct (ss_paused s !! k'); [destruct (_ || _)|]; by split. Qed.

Lemma spares_insert_conflict uuid now input : ii_entity input ≠ k → moves (spares k) (insertUnresolvedConflict uuid now input).
Proof.
  intros Hk s. unfold insertUnresolvedConflict, getUnresolvedConflict, gets, mbind, M_bind.
  destruct (unresolved_conflict _ _) as [[id c]|] eqn:Hu.
  - apply unresolved_some in Hu as (Hc & He & _). destruct (refreshes _ _); [|done]. split; cbn; [done..| |done|done].
    apply same_alter; [done|]. intros r Hr. congruence.
  - unfold randomUUID, insert_row. cbn. destruct (ss_conflicts s !! uuid (ss_ids s)) eqn:Hf; [by split|].
    split; cbn; [done..| |done|done]. by apply same_insert.
Qed.

Lemma spares_parse JSON_parse text : moves (spares k) (parse_json JSON_parse text).
Proof. intros s. unfold parse_json. by destruct (JSON_parse text). Qed.
End Spares.

(** ** Pulled changes *)

Section Pull.
Context {D : Type} `{!EntityDomain D}.
Context (uuid : nat → string) (sha256Hex : string → string) (JSON_parse : string → option json).
Context (backendId accountId : string) (gcmOpen : string → string → string → string → option string).

Lemma run_gets {A B} (f : Device D → A) (m : A → V D B) v : (gets f ≫= m) v = m (f v) v.
Proof. done. Qed.

Lemma run_store_gets {A B} (f : SyncStore → A) (m : A → V D B) v : (on_store (gets f) ≫= m) v = m (f (dv_store v)) v.
Proof. by destruct v. Qed.

Lemma run_local_payload {B} k (m : option string → V D B) v : (local_payload k ≫= m) v = m (readEntityPayloadJson (dv_domain v) k) v.
Proof. done. Qed.

Record spared (k : EntityKey) (v v' : Device D) : Prop := {
  sp_store : spares k (dv_store v) (dv_store v');
  sp_domain : readEntityPayloadJson (dv_domain v') k = readEntityPayloadJson (dv_domain v) k;
}.

#[export] Instance spared_preorder k : PreOrder (spared k).
Proof. split; [by split|]. intros a b c [H1 H2] [K1 K2]. split; [by etrans|congruence]. Qed.

Lemma spared_on_store {A} k (m : LS A) : moves (spares k) m → moves (spared k) (on_store m).
Proof. intros Hm v. unfold on_store. specialize (Hm (dv_store v)). destruct (m (dv_store v)). by split. Qed.

Lemma spared_reads {A} k (m : V D A) : reads m → moves (spared k) m.
Proof. intros Hm v. by rewrite Hm. Qed.

Lemma spared_projection k k' op payload : k' ≠ k → moves (spared k) (applyDomainProjection k' op payload).
Proof.
  intros Hk v. split; [done|]. cbn. destruct op; [by apply apply_other|by apply apply_other|by apply delete_other].
Qed.

Lemma spared_parse k text : moves (spared k) (parse_payload (D := D) JSON_parse text).
Proof.
  unfold parse_payload. destruct text as [t|]; [|done].
  apply moves_bind; [apply _| |done]. apply spared_on_store, spares_parse.
Qed.

Lemma spared_conflict k now k' base l remote kind b : k' ≠ k →
  moves (spared k) (insert_conflict (D := D) uuid now k' base l remote kind b).
Proof. intros Hk. by apply spared_on_store, spares_insert_conflict. Qed.

Lemma spared_write_base k k' revision payload : k' ≠ k → moves (spared k) (writeBindingBase (D := D) k' revision payload).
Proof.
  intros Hk. unfold writeBindingBase. apply moves_bind; [apply _| |]; [by apply spared_on_store, spares_setBase|].
  intros _. by apply spared_on_store, spares_acknowledge.
Qed.

#[local] Hint Resolve spared_conflict spared_write_base spared_projection spared_parse : moves.

Ltac spare := repeat first
  [ done
  | apply moves_bind; [apply _| |intros]
  | apply spared_reads; done
  | solve [auto with moves]
  | apply spared_on_store; first [done|by apply spares_setQuarantine|by apply spares_setBase|by apply spares_acknowledge|by apply spares_upsert|apply spares_paused]
  | case_match ].

Lemma apply_spares k now keys change : sy_entity change ≠ k →
  moves (spared k) (applySyncedChange uuid JSON_parse backendId accountId gcmOpen now keys change).
Proof.
  intros Hk. unfold applySyncedChange. case_match; [done|]. apply moves_bind; [apply _|done|intros d].
  apply moves_bind; [apply _|done|intros binding]. case_match; [spare|]. destruct (to_domain _ _ _ _ _ _ _) as [text|? ?]; [|spare].
  destruct binding as [b|]; unfold apply_bound, apply_unbound, local_payload; cbv zeta; spare.
Qed.

(** *** Entities with local work *)

(** A bound entity with edits, queued changes or an open conflict. *)
Definition protected (k : EntityKey) (s : SyncStore) : Prop :=
  ∃ b, ss_bindings s !! k = Some b ∧ (unsynced k b s = true ∨ unresolved_conflict k (ss_conflicts s) ≠ None).

Lemma mutable_none k s : Nat.eqb (length (listMutableOutboxRows k s)) 0 = true ↔
  ∀ id r, ss_outbox s !! id = Some r → ob_entity r = k → ob_state r ∉ mutable_states.
Proof.
  unfold listMutableOutboxRows, outbox_rows. rewrite rows_by_empty. split; intros H id r Hr.
  - intros Hk Hs. specialize (H _ _ Hr). assert (Ht : is_row k mutable_states r = true) by by apply is_row_spec. congruence.
  - destruct (is_row k mutable_states r) eqn:E; [|done]. apply is_row_spec in E as [Hk Hs]. by destruct (H _ _ Hr Hk).
Qed.

Lemma mutable_same k s s' : same_rows_of ob_entity k (ss_outbox s) (ss_outbox s') →
  Nat.eqb (length (listMutableOutboxRows k s')) 0 = Nat.eqb (length (listMutableOutboxRows k s)) 0.
Proof.
  intros Hs. apply eq_true_iff_eq. rewrite !mutable_none. split; intros H id r Hr Hk; apply (H id r); [|done| |done]; by apply (Hs id r Hk).
Qed.

Lemma unresolved_same k m m' : same_rows_of cf_entity k m m' → unresolved_conflict k m' = None ↔ unresolved_conflict k m = None.
Proof.
  intros Hs. rewrite !unresolved_none. split; intros H id c Hc Hk; apply (H id c); [|done| |done]; by apply (Hs id c Hk).
Qed.

Lemma unsynced_same k b s s' : same_rows_of ob_entity k (ss_outbox s) (ss_outbox s') → unsynced k b s' = unsynced k b s.
Proof. intros Hs. unfold unsynced. by rewrite (mutable_same _ _ _ Hs). Qed.

(** What becomes of protected work: nothing but that a conflict may be opened or its remote
    side refreshed. *)
Record guarded (k : EntityKey) (v v' : Device D) : Prop := {
  gd_binding : ∀ b, ss_bindings (dv_store v) !! k = Some b →
    ∃ q, ss_bindings (dv_store v') !! k = Some (with_quarantine q b);
  gd_outbox : same_rows_of ob_entity k (ss_outbox (dv_store v)) (ss_outbox (dv_store v'));
  gd_open : unresolved_conflict k (ss_conflicts (dv_store v)) ≠ None → unresolved_conflict k (ss_conflicts (dv_store v')) ≠ None;
  gd_domain : readEntityPayloadJson (dv_domain v') k = readEntityPayloadJson (dv_domain v) k;
}.

#[export] Instance guarded_preorder k : PreOrder (guarded k).
Proof.
  split.
  - intros v. split; [|done..]. intros b Hb. exists (bi_quarantineJson b). by destruct b.
  - intros a b c [H1 H2 H3 H4] [K1 K2 K3 K4]. split; [|by etrans|auto|congruence].
    intros x Hx. destruct (H1 _ Hx) as [q Hq]. destruct (K1 _ Hq) as [q' Hq']. by exists q'.
Qed.

Lemma spared_guarded k v v' : spared k v v' → guarded k v v'.
Proof.
  intros [[H1 H2 H3 _ _] H4]. split; [|done| |done].
  - intros b Hb. exists (bi_quarantineJson b). rewrite H1, Hb. by destruct b.
  - by rewrite (unresolved_same _ _ _ H3).
Qed.

Lemma guarded_protected k v v' : guarded k v v' → protected k (dv_store v) → protected k (dv_store v').
Proof.
  intros [H1 H2 H3 _] (b & Hb & Hp). destruct (H1 _ Hb) as [q Hq]. exists (with_quarantine q b). split; [done|].
  destruct Hp as [Hp|Hp]; [left|right; auto]. rewrite <- Hp.
  change (unsynced k (with_quarantine q b) (dv_store v')) with (unsynced k b (dv_store v')). by apply unsynced_same.
Qed.

Lemma quarantine_guarded k q v : is_Some (ss_bindings (dv_store v) !! k) → guarded k v ((on_store (setBindingQuarantine k q)) v).2.
Proof.
  intros [b Hb]. unfold on_store, setBindingQuarantine, getBinding, gets, mbind, M_bind. rewrite Hb. cbn. split; [|done..].
  cbn. intros b' Hb'. exists q. by rewrite lookup_alter_eq, Hb'.
Qed.

Lemma insert_opens now input s : unresolved_conflict (ii_entity input) (ss_conflicts s) ≠ None →
  unresolved_conflict (ii_entity input) (ss_conflicts (insertUnresolvedConflict uuid now input s).2) ≠ None.
Proof.
  intros Ho. unfold insertUnresolvedConflict, getUnresolvedConflict, gets, mbind, M_bind.
  destruct (unresolved_conflict _ _) as [[id c]|] eqn:Hu; [|done]. destruct (refreshes _ _); [|cbn; congruence].
  apply unresolved_some in Hu as (Hc & Hk & Hr). cbn. intros Hn. rewrite unresolved_none in Hn.
  apply (Hn id (with_remote (ii_remotePayloadJson input) (ii_remoteRevision input) (ii_kind input) c)); [|done..].
  by rewrite lookup_alter_eq, Hc.
Qed.

Lemma conflict_guarded k now base l remote kind b v :
  guarded k v (insert_conflict (D := D) uuid now k base l remote kind b v).2.
Proof.
  unfold insert_conflict, on_store. set (input := Build_InsertConflictInput _ _ _ _ _ _ _ _).
  assert (Hopen := insert_opens now input (dv_store v)).
  assert (Hs : ss_bindings (insertUnresolvedConflict uuid now input (dv_store v)).2 = ss_bindings (dv_store v) ∧
    ss_outbox (insertUnresolvedConflict uuid now input (dv_store v)).2 = ss_outbox (dv_store v)).
  { unfold insertUnresolvedConflict, getUnresolvedConflict, gets, mbind, M_bind.
    destruct (unresolved_conflict _ _) as [[id c]|]; [by destruct (refreshes _ _)|].
    unfold randomUUID, insert_row. cbn. by destruct (ss_conflicts _ !! _). }
  destruct (insertUnresolvedConflict uuid now input (dv_store v)) as [r s] eqn:E. cbn in *. destruct Hs as [Hb Ho].
  split; cbn; [|by rewrite Ho|done|done]. intros b' Hb'. exists (bi_quarantineJson b'). rewrite Hb, Hb'. by destruct b'.
Qed.

(** A change of an entity with local work opens a conflict at most. *)
Lemma apply_guards k now keys change v : protected k (dv_store v) →
  guarded k v (applySyncedChange uuid JSON_parse backendId accountId gcmOpen now keys change v).2.
Proof.
  intros Hp. destruct (decide (sy_entity change = k)) as [Hk|Hk]; [|by apply spared_guarded, apply_spares].
  destruct Hp as (b & Hb & Hp). unfold applySyncedChange. rewrite Hk. case_match; [done|].
  rewrite run_gets. unfold getBinding. rewrite run_store_gets, Hb. case_match.
  - case_match; [done|]. unfold on_store, storePausedInboundChange, modify.
    destruct (ss_paused (dv_store v) !! k); [destruct (_ || _)|]; apply spared_guarded; by split.
  - destruct (to_domain _ _ _ _ _ _ _) as [text|? ?].
    2:{ case_match; [done|]. apply quarantine_guarded. by exists b. }
    unfold apply_bound. rewrite Hk. destruct (seen_revision _ _) eqn:Hseen; [done|].
    unfold getUnresolvedConflict. rewrite run_store_gets.
    destruct (unresolved_conflict k (ss_conflicts (dv_store v))) as [[id c]|] eqn:Hu;
      [rewrite run_local_payload; apply conflict_guarded|].
    destruct Hp as [Hp|Hp]; [|done]. rewrite run_gets, Hp. cbn [andb].
    destruct (negb _ || negb _) eqn:E; [rewrite run_local_payload; apply conflict_guarded|].
    exfalso. apply orb_false_iff in E as [E _]. apply negb_false_iff, bool_decide_eq_true in E.
    unfold seen_revision in Hseen. cbn in Hseen. rewrite E in Hseen. lia.
Qed.

Definition keeps_work (k : EntityKey) (v v' : Device D) : Prop := protected k (dv_store v) → guarded k v v'.

#[export] Instance keeps_work_preorder k : PreOrder (keeps_work k).
Proof.
  split; [by intros v _|]. intros a b c H1 H2 Hp. specialize (H1 Hp). etrans; [exact H1|]. apply H2.
  by eapply guarded_protected.
Qed.

Lemma page_keeps_work k now keys changes cursor :
  moves (keeps_work k) (applyPullPage uuid JSON_parse backendId accountId gcmOpen now keys changes cursor).
Proof.
  apply moves_commit; [apply _|]. apply moves_ok_bind; [apply _| |].
  - apply moves_for_each; [apply _|]. intros raw _ _. apply moves_moves_ok. destruct (toSyncedChange raw); [|by intros v _].
    intros v Hp. by apply apply_guards.
  - intros _. apply moves_moves_ok. intros v _. split; cbn; [|done..]. intros b Hb. exists (bi_quarantineJson b). rewrite Hb. by destruct b.
Qed.

(** ** Activation of a rebuild *)

(** An operation on other entities that leaves conflicts alone. *)
Definition quiet_on (k : EntityKey) (v v' : Device D) : Prop :=
  spared k v v' ∧ ss_conflicts (dv_store v') = ss_conflicts (dv_store v).

#[export] Instance quiet_on_preorder k : PreOrder (quiet_on k).
Proof. split; [by intros v|]. intros a b c [H1 H2] [K1 K2]. split; [by etrans|congruence]. Qed.

(** A quiet step, and then any step that spares the entity. *)
Lemma quiet_then {A B} k (m : V D A) (f : A → V D B) v : moves (quiet_on k) m →
  (∀ a v', quiet_on k v v' → spared k v' (f a v').2) → spared k v ((m ≫= f) v).2.
Proof.
  intros Hm Hf. unfold mbind, M_bind. specialize (Hm v). destruct (m v) as [[a|e] v'] eqn:E; cbn in *; [|by apply Hm].
  etrans; [apply Hm|by apply Hf].
Qed.

Lemma quiet_on_store {A} k (m : LS A) : moves (spares k) m → (∀ s, ss_conflicts (m s).2 = ss_conflicts s) → moves (quiet_on k) (on_store m).
Proof.
  intros Hm Hc v. split; [by apply spared_on_store|]. unfold on_store. specialize (Hc (dv_store v)). by destruct (m (dv_store v)).
Qed.

Lemma spares_set_outbox k f : (∀ m, same_rows_of ob_entity k m (f m)) → moves (spares k) (set_outbox f).
Proof. intros Hf s. split; [done|apply Hf|done..]. Qed.

Lemma is_row_other k k' states r : k' ≠ k → is_row k' states r = true → ob_entity r ≠ k.
Proof. intros Hk [He _]%is_row_spec. congruence. Qed.

Lemma quiet_outbox k f : (∀ m, same_rows_of ob_entity k m (f m)) → moves (quiet_on k) (on_store (D := D) (set_outbox f)).
Proof. intros Hf. apply quiet_on_store; [by apply spares_set_outbox|done]. Qed.

Lemma quiet_reject_dispatched k k' reason : k' ≠ k → moves (quiet_on k) (on_store (D := D) (rejectDispatchedRows k' reason)).
Proof. intros Hk. apply quiet_outbox. intros m. apply same_update; [done|]. intros r. by apply is_row_other. Qed.
Lemma quiet_reject_conflicted k k' reason : k' ≠ k → moves (quiet_on k) (on_store (D := D) (rejectConflictedOutboxRows k' reason)).
Proof. intros Hk. apply quiet_outbox. intros m. apply same_update; [done|]. intros r. by apply is_row_other. Qed.
Lemma quiet_delete_pending k k' : k' ≠ k → moves (quiet_on k) (on_store (D := D) (deletePendingOutboxRows k')).
Proof. intros Hk. apply quiet_outbox. intros m. apply same_delete_where. intros r. by apply is_row_other. Qed.
Lemma quiet_delete_mutable k k' : k' ≠ k → moves (quiet_on k) (on_store (D := D) (deleteMutableOutboxRows k')).
Proof. intros Hk. apply quiet_outbox. intros m. apply same_delete_where. intros r. by apply is_row_other. Qed.

Lemma quiet_set_base k k' revision payload : k' ≠ k → moves (quiet_on k) (on_store (D := D) (setBindingBase k' revision payload)).
Proof.
  intros Hk. apply quiet_on_store; [by apply spares_setBase|]. intros s. unfold setBindingBase, getBinding, gets, mbind at 1, M_bind at 1.
  destruct (ss_bindings s !! k'); [done|]. unfold mbind, M_bind. pose proof (upsert_conflicts k' revision payload None s).
  by destruct (upsertBinding _ _ _ _ s) as [[] ?].
Qed.
Lemma quiet_acknowledge k k' : k' ≠ k → moves (quiet_on k) (on_store (D := D) (acknowledgeBindingLocalEdits k')).
Proof. intros Hk. apply quiet_on_store; [by apply spares_acknowledge|done]. Qed.
Lemma quiet_delete_binding k k' : k' ≠ k → moves (quiet_on k) (on_store (D := D) (deleteBinding k')).
Proof. intros Hk. apply quiet_on_store; [|done]. apply moves_bindings. intros m. by rewrite lookup_delete_ne. Qed.

Lemma spared_resolve k now id resolution v : (∀ c, ss_conflicts (dv_store v) !! id = Some c → cf_entity c ≠ k) →
  spared k v (on_store (resolveConflict now id resolution) v).2.
Proof.
  intros Hc. unfold on_store, resolveConflict, gets, mbind, M_bind. destruct v as [s d]. cbn in *.
  destruct (ss_conflicts s !! id) as [c|] eqn:E; [|done]. destruct (negb _); [done|]. split; [|done].
  split; cbn; [done..| |done|done]. apply same_alter; [done|]. intros c' Hc'. apply Hc; congruence.
Qed.

Lemma spared_converged k k' now conflict payload revision v : k' ≠ k →
  (∀ id c, conflict = Some (id, c) → cf_entity c = k' ∧ ∀ c', ss_conflicts (dv_store v) !! id = Some c' → cf_entity c' = k') →
  spared k v (resolveConvergedConflict uuid now conflict payload revision v).2.
Proof.
  intros Hk Hc. unfold resolveConvergedConflict. destruct conflict as [[id c]|]; [|done]. destruct (Hc _ _ eq_refl) as [He Hid].
  unfold mbind, M_bind. pose proof (spared_conflict k now (cf_entity c) (cf_baseRevision c, cf_basePayloadJson c)
    (cf_localPayloadJson c) (revision, payload) (cf_kind c) true) as Hm. rewrite He in Hm. specialize (Hm Hk v). rewrite <- He in Hm.
  destruct (insert_conflict uuid now _ _ _ _ _ _ v) as [[u|e] v'] eqn:E; [|done]. etrans; [exact Hm|].
  apply spared_resolve. intros c' Hc'. enough (cf_entity c' = k') as -> by done.
  unfold insert_conflict, on_store, insertUnresolvedConflict, getUnresolvedConflict, gets, mbind, M_bind in E.
  destruct v as [s d]. cbn in E, Hid. destruct (unresolved_conflict _ _) as [[id2 c2]|] eqn:Hu.
  - cbn in E. injection E as _ <-. cbn in Hc'.
    destruct (decide (id2 = id)) as [->|Hne]; [|rewrite lookup_alter_ne in Hc' by done; by apply Hid].
    rewrite lookup_alter_eq in Hc'. destruct (ss_conflicts s !! id) as [c3|] eqn:E3; [|done]. injection Hc' as <-. exact (Hid _ eq_refl).
  - unfold randomUUID, insert_row in E. cbn in E. destruct (ss_conflicts s !! uuid (ss_ids s)); [done|]. injection E as _ <-. cbn in Hc'.
    destruct (decide (uuid (ss_ids s) = id)) as [<-|Hne]; [rewrite lookup_insert_eq in Hc'; injection Hc' as <-; done|].
    rewrite lookup_insert_ne in Hc' by done. by apply Hid.
Qed.

Ltac quiet := apply quiet_then; [by auto using quiet_set_base, quiet_acknowledge, quiet_delete_pending, quiet_reject_dispatched,
  quiet_reject_conflicted, quiet_delete_binding, quiet_delete_mutable|intros].

(** A conflict of an entity that was open when its turn came. *)
Definition open_of (k : EntityKey) (openConflict : option (string * SyncConflict)) (v : Device D) : Prop :=
  ∀ id c, openConflict = Some (id, c) → cf_entity c = k ∧ ∀ c', ss_conflicts (dv_store v) !! id = Some c' → cf_entity c' = k.

Lemma open_of_found k v : open_of k (unresolved_conflict k (ss_conflicts (dv_store v))) v.
Proof. intros id c (Hc & Hk & _)%unresolved_some. split; [done|]. intros c' Hc'. congruence. Qed.

Lemma open_of_quiet k o v v' : ss_conflicts (dv_store v') = ss_conflicts (dv_store v) → open_of k o v → open_of k o v'.
Proof. intros Hc Ho id c Hoc. rewrite Hc. by apply Ho. Qed.

Lemma unbound_spares k now k' row q : k' ≠ k → moves (spared k) (activate_unbound uuid JSON_parse now k' row q).
Proof. intros Hk. unfold activate_unbound, local_payload. cbv zeta. spare. Qed.

Lemma bound_spares k now k' row b q o v : k' ≠ k → open_of k' o v →
  spared k v (activate_bound uuid JSON_parse now k' row b q o v).2.
Proof.
  intros Hk Ho. unfold activate_bound. cbv zeta. destruct q.
  { quiet. by apply spared_on_store, spares_setQuarantine. }
  rewrite run_local_payload, run_gets. case_match.
  { quiet. match goal with |- spared k ?w (?m ?w).2 => refine ((_ : moves (spared k) m) w) end. spare. }
  case_match.
  - quiet. quiet. quiet. quiet. quiet. apply (spared_converged k k'); [done|]. apply (open_of_quiet k' o v); [|done].
    repeat match goal with H : quiet_on _ _ _ |- _ => destruct H as [_ ->] end. done.
  - match goal with |- spared k ?w (?m ?w).2 => refine ((_ : moves (spared k) m) w) end.
    apply moves_bind; [apply _|by apply spared_conflict|intros _]. intros v'. quiet. by apply (quiet_reject_dispatched k k').
Qed.

Lemma absent_spares k now x v : x.1 ≠ k → spared k v (activate_absent uuid now x v).2.
Proof.
  destruct x as [k' b]. cbn. intros Hk. rewrite run_gets. case_match.
  { apply spared_on_store, spares_paused. }
  unfold getUnresolvedConflict. rewrite run_store_gets, run_local_payload, run_gets. case_match.
  { quiet. rewrite run_gets. case_match; [done|]. split; [done|]. by apply delete_other. }
  case_match.
  - match goal with |- spared k ?w (?m ?w).2 => refine ((_ : moves (spared k) m) w) end.
    apply moves_bind; [apply _|by apply spared_conflict|intros _]. intros v'. quiet. by apply (quiet_reject_dispatched k k').
  - quiet. quiet. apply (spared_converged k k'); [done|]. apply (open_of_quiet k' _ v); [|apply open_of_found].
    repeat match goal with H : quiet_on _ _ _ |- _ => destruct H as [_ ->] end. done.
Qed.

Lemma entity_spares k now bindings x v : x.1 ≠ k → spared k v (activate_entity uuid JSON_parse now bindings x v).2.
Proof.
  destruct x as [k' row]. cbn. intros Hk. rewrite run_gets. case_match.
  { match goal with |- spared k ?w (?m ?w).2 => refine ((_ : moves (spared k) m) w) end. spare. }
  unfold getUnresolvedConflict. rewrite run_store_gets. case_match; [|by apply unbound_spares].
  apply bound_spares; [done|apply open_of_found].
Qed.

(** A step on the device's own tables. *)
Lemma store_domain {A} (m : LS A) (v : Device D) : dv_domain (on_store m v).2 = dv_domain v.
Proof. unfold on_store. by destruct (m (dv_store v)). Qed.

Definition same_domain (v v' : Device D) : Prop := dv_domain v' = dv_domain v.
#[export] Instance same_domain_preorder : PreOrder same_domain.
Proof. split; [done|]. intros a b c H1 H2. unfold same_domain in *. congruence. Qed.

Ltac keep_domain := repeat first
  [ done
  | apply moves_bind; [apply _| |intros]
  | intros ?; apply store_domain
  | case_match ].

Lemma bound_domain now k row b q o v : o ≠ None ∨ unsynced k b (dv_store v) = true →
  dv_domain (activate_bound uuid JSON_parse now k row b q o v).2 = dv_domain v.
Proof.
  intros Hd. unfold activate_bound. cbv zeta. destruct q.
  { match goal with |- dv_domain (?m ?w).2 = _ => refine ((_ : moves same_domain m) w) end. keep_domain. }
  rewrite run_local_payload, run_gets. assert (negb (negb (bool_decide (o = None)) || unsynced k b (dv_store v)) = false) as ->.
  { destruct Hd as [Ho| ->]; [rewrite (bool_decide_false _ Ho); done|by rewrite orb_true_r]. }
  case_match;
    match goal with |- dv_domain (?m ?w).2 = _ => refine ((_ : moves same_domain m) w) end; keep_domain.
  unfold resolveConvergedConflict. keep_domain.
Qed.

Lemma absent_domain now k b v : unresolved_conflict k (ss_conflicts (dv_store v)) ≠ None ∨ unsynced k b (dv_store v) = true →
  dv_domain (activate_absent uuid now (k, b) v).2 = dv_domain v.
Proof.
  intros Hd. unfold activate_absent. rewrite run_gets. case_match; [apply store_domain|].
  unfold getUnresolvedConflict. rewrite run_store_gets, run_local_payload, run_gets.
  assert (negb (negb (bool_decide (unresolved_conflict k (ss_conflicts (dv_store v)) = None)) || unsynced k b (dv_store v)) = false) as ->.
  { destruct Hd as [Ho| ->]; [rewrite (bool_decide_false _ Ho); done|by rewrite orb_true_r]. }
  match goal with |- dv_domain (?m ?w).2 = _ => refine ((_ : moves same_domain m) w) end. keep_domain.
  unfold resolveConvergedConflict. keep_domain.
Qed.

Lemma entity_domain now bindings k row b v : bindings !! k = Some b →
  unresolved_conflict k (ss_conflicts (dv_store v)) ≠ None ∨ unsynced k b (dv_store v) = true →
  dv_domain (activate_entity uuid JSON_parse now bindings (k, row) v).2 = dv_domain v.
Proof.
  intros Hb Hd. unfold activate_entity. rewrite run_gets. case_match.
  - match goal with |- dv_domain (?m ?w).2 = _ => refine ((_ : moves same_domain m) w) end. unfold parse_payload. keep_domain.
  - unfold getUnresolvedConflict. rewrite run_store_gets, Hb. by apply bound_domain.
Qed.

Lemma loop_spared {X} k (f : X → V D unit) l v : (∀ x v, x ∈ l → spared k v (f x v).2) →
  spared k v (for_each l (λ x _, f x) tt v).2.
Proof.
  revert v. induction l as [|x l IH]; intros v Hf; cbn [for_each]; [done|]. unfold mbind, M_bind.
  pose proof (Hf x v ltac:(left)) as Hx. destruct (f x v) as [[[]|e] v'] eqn:E; [|done]. etrans; [exact Hx|].
  apply IH. intros y w Hy. apply Hf. by right.
Qed.

(** A loop over distinct entities that leaves the content of one of them. *)
Lemma loop_keyed {X} (key : X → EntityKey) k (f : X → V D unit) l v : NoDup (key <$> l) →
  (∀ x v, key x ≠ k → spared k v (f x v).2) →
  (∀ x v', x ∈ l → key x = k → spared k v v' → readEntityPayloadJson (dv_domain (f x v').2) k = readEntityPayloadJson (dv_domain v') k) →
  readEntityPayloadJson (dv_domain (for_each l (λ x _, f x) tt v).2) k = readEntityPayloadJson (dv_domain v) k.
Proof.
  intros Hnd Hother. revert v. induction l as [|x l IH]; intros v Hf; cbn [for_each]; [done|].
  cbn in Hnd. apply NoDup_cons in Hnd as [Hx Hnd]. unfold mbind, M_bind. destruct (decide (key x = k)) as [Hk|Hk].
  - pose proof (Hf x v ltac:(left) Hk ltac:(done)) as Hr. destruct (f x v) as [[[]|e] v'] eqn:E; [|done]. cbn in Hr.
    rewrite <- Hr. apply sp_domain. apply loop_spared. intros y w Hy. apply Hother. intros Hyk. apply Hx. apply list_elem_of_fmap.
    exists y. split; [congruence|done].
  - pose proof (Hother x v Hk) as Hs. destruct (f x v) as [[[]|e] v'] eqn:E; [|apply Hs]. cbn in Hs.
    rewrite <- (sp_domain _ _ _ Hs). apply IH; [done|]. intros y w Hy Hyk Hw. apply Hf; [by right|done|by etrans].
Qed.

Lemma staged_NoDup st : NoDup (fst <$> listScanStaging st).
Proof. unfold listScanStaging. rewrite (sort_by_Permutation _ _). apply NoDup_fst_map_to_list. Qed.

Lemma spared_dirty k b v v' : spared k v v' →
  unresolved_conflict k (ss_conflicts (dv_store v)) ≠ None ∨ unsynced k b (dv_store v) = true →
  unresolved_conflict k (ss_conflicts (dv_store v')) ≠ None ∨ unsynced k b (dv_store v') = true.
Proof.
  intros [[_ Ho Hc _] _]. rewrite (unresolved_same _ _ _ Hc), (unsynced_same _ _ _ _ Ho). done.
Qed.

(** The activation of a rebuild keeps the content of entities with local work. *)
Lemma activation_keeps k now cursor v : protected k (dv_store v) →
  readEntityPayloadJson (dv_domain (activateStagedScan uuid JSON_parse now cursor v).2) k = readEntityPayloadJson (dv_domain v) k.
Proof.
  intros (b & Hb & Hd). assert (Hd' : unresolved_conflict k (ss_conflicts (dv_store v)) ≠ None ∨ unsynced k b (dv_store v) = true) by tauto.
  clear Hd. unfold activateStagedScan, commit. rewrite !run_gets. set (staged := listScanStaging _).
  set (absent := List.filter _ _). set (bindings := ss_bindings (dv_store v)) in *.
  match goal with |- context [let (_, _) := ?x in _] => destruct x as [[u|e] v'] eqn:E end; [|done].
  cbn [snd].
  apply bind_Ok in E as ([] & v1 & H1 & E). apply bind_Ok in E as ([] & v2 & H2 & E).
  assert (Hend : dv_domain v' = dv_domain v2).
  { apply bind_Ok in E as ([] & v3 & H3 & E). pose proof (store_domain (updateSyncState (patch_cursor cursor None (Some false))) v2) as K.
    rewrite H3 in K. pose proof (store_domain (modify (put_staging {| sg_rows := ∅; sg_run := None |})) v3) as K'.
    rewrite E in K'. cbn in K, K'. congruence. }
  rewrite Hend. destruct (decide (k ∈ staged.*1)) as [Hk|Hk].
  - assert (Hs : spared k v1 v2).
    { pose proof (loop_spared k (activate_absent uuid now) absent v1) as Hl. rewrite H2 in Hl. apply Hl. intros x w Hx.
      apply absent_spares. intros Hxk. apply list_elem_of_In, filter_In in Hx as [_ Hx]. rewrite Hxk, bool_decide_true in Hx by done. done. }
    rewrite (sp_domain _ _ _ Hs). pose proof (loop_keyed fst k (activate_entity uuid JSON_parse now bindings) staged v) as Hl.
    rewrite H1 in Hl. apply Hl; [apply staged_NoDup|intros x w Hx; by apply entity_spares|].
    intros [k' row] w _ Hx Hw. cbn in Hx. subst k'. f_equal. eapply entity_domain; [exact Hb|]. by eapply spared_dirty.
  - assert (Hs : spared k v v1).
    { pose proof (loop_spared k (activate_entity uuid JSON_parse now bindings) staged v) as Hl. rewrite H1 in Hl. apply Hl.
      intros x w Hx. apply entity_spares. intros <-. apply Hk. apply list_elem_of_fmap. by exists x. }
    rewrite <- (sp_domain _ _ _ Hs). pose proof (loop_keyed fst k (activate_absent uuid now) absent v1) as Hl.
    rewrite H2 in Hl. apply Hl; [apply filter_fst_NoDup, NoDup_fst_map_to_list|intros x w Hx; by apply absent_spares|].
    intros [k' b'] w Hin Hx Hw. cbn in Hx. subst k'. f_equal. apply absent_domain.
    apply list_elem_of_In, filter_In in Hin as [Hin%list_elem_of_In%elem_of_map_to_list _]. assert (b' = b) as -> by congruence.
    eapply spared_dirty; [|exact Hd']. by etrans.
Qed.
End Pull.
