(* ===== verification/SyncDeviceRun.v ===== *)
(** * Desktop app: a device's outbox among everything that happens

    The invariant of the outbox over every step of a device and its account, and the batch
    that is sent until it is answered. *)

From stdpp Require Import base list strings gmap relations.
From Stdlib Require Import ZArith Ascii Lia.
From S2P Require Import Prelude Transactions JsString JsValue SyncWire SyncTables SyncLog SyncGrowth SyncCalls SyncClient SyncOutbox SyncOutboxSound SyncDevice SyncDeviceSound.

(** ** What a computation ensures when it returns *)

Section Ensures.
Context {St : Type}.
Implicit Types P : St → Prop.

Definition ensures {A} P (m : M St A) (Q : A → St → Prop) : Prop := ∀ s a s', P s → m s = (Ok a, s') → Q a s'.

Lemma ensures_bind {A B} P (m : M St A) (k : A → M St B) R Q :
  ensures P m R → (∀ a, ensures (R a) (k a) Q) → ensures P (m ≫= k) Q.
Proof. intros Hm Hk s b s' Hs H. step_back H a s1 Ha. eapply Hk; [|exact H]. by eapply Hm. Qed.

Lemma ensures_weaken {A} P P' (m : M St A) (Q Q' : A → St → Prop) :
  ensures P m Q → (∀ s, P' s → P s) → (∀ a s, Q a s → Q' a s) → ensures P' m Q'.
Proof. intros Hm HP HQ s a s' Hs H. eapply HQ, Hm; [|exact H]. auto. Qed.

Lemma ensures_moves {A} (R : relation St) P (m : M St A) : moves_ok R m → (∀ s s', R s s' → P s → P s') → ensures P m (λ _, P).
Proof. intros Hm HP s a s' Hs H. by eapply HP; [eapply Hm|]. Qed.

Lemma ensures_ret {A} P (a : A) : ensures P (mret a) (λ b s, b = a ∧ P s).
Proof. by intros s b s' Hs [= <- <-]. Qed.

Lemma ensures_gets {A} P (f : St → A) : ensures P (gets f) (λ a s, a = f s ∧ P s).
Proof. by intros s b s' Hs [= <- <-]. Qed.

Lemma ensures_throw {A} P e (Q : A → St → Prop) : ensures P (throw e) Q.
Proof. by intros s a s' _ [=]. Qed.

Lemma ensures_for_each {A B} P (xs : list A) (body : A → B → M St B) acc :
  (∀ x b, x ∈ xs → ensures P (body x b) (λ _, P)) → ensures P (for_each xs body acc) (λ _, P).
Proof.
  revert acc. induction xs as [|x xs IH]; intros acc Hb; cbn [for_each]; [by intros s a s' Hs [= _ <-]|].
  eapply ensures_bind; [apply Hb; left|]. intros b. apply IH. intros y b' Hy. apply Hb. by right.
Qed.

Lemma ensures_commit {A} P (m : M St A) s : ensures P m (λ _, P) → P s → P (commit m s).2.
Proof. intros Hm Hs. unfold commit. destruct (m s) as [[a|e] s'] eqn:E; [|done]. by eapply Hm. Qed.
End Ensures.


(** ** Steps of a device that are tame *)

Section Run.
Context {D : Type} `{!EntityDomain D}.
Context (uuid : nat → string) (sha256Hex : string → string) (JSON_parse : string → option json).
Context (backendId accountId : string) (gcmOpen : string → string → string → string → option string)
  (gcmSeal : string → string → string → string → string).

(** A relation of stores as one of devices. *)
Definition stored (R : relation SyncStore) : relation (Device D) := λ v v', R (dv_store v) (dv_store v').

#[export] Instance stored_preorder R : PreOrder R → PreOrder (stored R).
Proof. intros HR. split; [intros v; unfold stored; reflexivity|]. intros a b c H1 H2. unfold stored in *. by etrans. Qed.

Lemma stored_on_store {A} R (m : LS A) : moves R m → moves (stored R) (on_store m).
Proof. intros Hm v. unfold on_store, stored. specialize (Hm (dv_store v)). by destruct (m (dv_store v)). Qed.

Lemma stored_on_store_ok {A} R (m : LS A) : moves_ok R m → moves_ok (stored R) (on_store m).
Proof. intros Hm v a v'. unfold on_store, stored. destruct (m (dv_store v)) as [r s] eqn:E. intros [= -> <-]. by eapply Hm. Qed.

Lemma stored_domain R `{!PreOrder R} f : moves (stored R) (on_domain f).
Proof. intros v. unfold stored. reflexivity. Qed.

Lemma tame_conflict now k base l remote kind b : moves (stored tame) (insert_conflict uuid now k base l remote kind b).
Proof. apply stored_on_store, tame_insert_unresolved. Qed.

Lemma tame_projection k op payload : moves (stored tame) (applyDomainProjection k op payload).
Proof. apply stored_domain, _. Qed.

Lemma tame_payload text : moves (stored tame) (parse_payload (D := D) JSON_parse text).
Proof. destruct text; [|easy]. apply moves_bind; [apply _|apply stored_on_store, tame_parse|easy]. Qed.

Lemma tame_acknowledge k : moves tame (acknowledgeBindingLocalEdits k).
Proof. apply tame_bindings. Qed.

Lemma tame_write_base k revision payload : moves (stored tame) (writeBindingBase (D := D) k revision payload).
Proof.
  apply moves_bind; [apply _|apply stored_on_store, tame_set_base|]. intros _. apply stored_on_store, tame_acknowledge.
Qed.

Lemma tame_delete_binding k : moves tame (deleteBinding k).
Proof. apply tame_bindings. Qed.

#[local] Hint Resolve tame_conflict tame_projection tame_payload tame_write_base tame_acknowledge tame_delete_binding : tame.

Ltac tamely := repeat first
  [ easy
  | apply moves_bind; [apply _| |intros]
  | solve [auto with tame]
  | apply stored_on_store; first [easy|solve [auto with tame]]
  | apply stored_domain, _
  | case_match ].

Lemma apply_tame now keys change : moves (stored tame) (applySyncedChange uuid JSON_parse backendId accountId gcmOpen now keys change).
Proof. unfold applySyncedChange, apply_bound, apply_unbound, local_payload. cbv zeta. tamely. Qed.

Lemma page_tame now keys changes cursor : moves (stored tame) (applyPullPage uuid JSON_parse backendId accountId gcmOpen now keys changes cursor).
Proof.
  apply moves_commit; [apply _|]. apply moves_ok_bind; [apply _| |].
  - apply moves_for_each; [apply _|]. intros raw _ _. apply moves_moves_ok. destruct (toSyncedChange raw); [apply apply_tame|easy].
  - intros _. apply moves_moves_ok, stored_on_store, tame_state.
Qed.

Lemma paused_tame now keys : moves (stored tame) (applyPausedWorkspaceChanges uuid JSON_parse backendId accountId gcmOpen now keys).
Proof.
  apply moves_commit; [apply _|]. apply moves_ok_bind; [apply _|apply moves_ok_reads; [apply _|by intros ?]|]. intros paused.
  apply moves_for_each; [apply _|]. intros [k p] n _. apply moves_moves_ok. unfold apply_paused.
  apply moves_bind; [apply _|easy|intros d]. destruct (_ || _); [easy|]. cbv zeta. destruct (_ ≫= _) as [change|]; [|easy].
  destruct (_ && _); [|easy]. apply moves_bind; [apply _|apply apply_tame|intros _]. tamely.
Qed.

Lemma for_each_moves {St A B} (R : relation St) `{!PreOrder R} (xs : list A) (body : A → B → M St B) acc :
  (∀ x b, x ∈ xs → moves R (body x b)) → moves R (for_each xs body acc).
Proof.
  revert acc. induction xs as [|x xs IH]; intros acc Hb; cbn [for_each]; [intros s; reflexivity|].
  apply moves_bind; [apply _|apply Hb; left|intros b; apply IH]. intros y b' Hy. apply Hb. by right.
Qed.

Lemma reseal_tame losing winner : moves (stored tame) (resealOutbox (D := D) uuid JSON_parse backendId accountId gcmOpen gcmSeal losing winner).
Proof.
  unfold resealOutbox. apply moves_bind; [apply _|easy|intros rows]. apply for_each_moves; [apply _|]. intros r _ _. apply stored_on_store.
  unfold reseal_row. destruct (_ ≫= _); [|easy]. apply moves_bind; [apply _|apply tame_uuid|intros nonce]. apply tame_update_rows. intros row _. split; [done|by right].
Qed.

(** ** Resolution and activation *)

Context `{!Inj (=) (=) uuid}.
Context (ids : list string).
Notation sound := (sound uuid ids).
Notation recorded := (recorded uuid ids).

Definition safe (v : Device D) : Prop := sound (dv_store v).

Lemma store_run {A} (m : LS A) (v : Device D) a v' : on_store m v = (Ok a, v') → m (dv_store v) = (Ok a, dv_store v').
Proof. unfold on_store. destruct (m (dv_store v)) as [r s]. by intros [= -> <-]. Qed.

Lemma kept_run {A} (m : LS A) (v : Device D) a v' : moves kept m → on_store m v = (Ok a, v') → kept (dv_store v) (dv_store v').
Proof. intros Hm H%store_run. specialize (Hm (dv_store v)). by rewrite H in Hm. Qed.

Lemma tame_run {A} (m : V D A) v a v' : moves (stored tame) m → m v = (Ok a, v') → safe v → safe v'.
Proof. intros Hm H. specialize (Hm v). rewrite H in Hm. by apply sound_tame. Qed.

(** An open conflict that is closed because both sides are equal. *)
Lemma converged_ok now conflict payload revision v u v' : resolveConvergedConflict uuid now conflict payload revision v = (Ok u, v') →
  (∀ id c, conflict = Some (id, c) → no_conflict (cf_entity c) (dv_store v) ∧
    ∀ c', ss_conflicts (dv_store v) !! id = Some c' → cf_entity c' = cf_entity c) →
  safe v → safe v'.
Proof.
  unfold resolveConvergedConflict. destruct conflict as [[id c]|]; [|by intros [= _ <-]]. intros H Hc Hs.
  destruct (Hc _ _ eq_refl) as [Hn He]. step_back H w v1 H1. pose proof (tame_run _ _ _ _ (tame_conflict _ _ _ _ _ _ _) H1 Hs) as Hs1.
  apply store_run in H, H1. match type of H1 with insertUnresolvedConflict _ _ ?i _ = _ => set (input := i) in * end.
  pose proof (insert_entity uuid now input id (dv_store v) He) as Hi. pose proof (tame_insert_unresolved uuid now input (dv_store v)) as Ht.
  rewrite H1 in Hi, Ht. cbn [snd] in Hi, Ht. change (ii_entity input) with (cf_entity c) in Hi.
  eapply resolve_sound; [exact H| |exact Hs1]. intros c' Hc'. rewrite (Hi _ Hc'). by eapply kept_no_conflict.
Qed.

(** Rows of an entity leave the conflict state. *)
Lemma reject_conflicted_none k reason s : no_conflict k (rejectConflictedOutboxRows k reason s).2.
Proof.
  intros id r Hr. cbn in Hr. rewrite update_rows_lookup in Hr. apply fmap_Some in Hr as (q & Hq & ->).
  destruct (is_row k [os_conflict] q) eqn:E; [done|]. intros Hk Hc. assert (is_row k [os_conflict] q = true); [|congruence].
  apply is_row_spec. split; [done|]. rewrite Hc. by left.
Qed.

Lemma delete_mutable_none k s : no_conflict k (deleteMutableOutboxRows k s).2.
Proof.
  intros id r Hr Hk Hc. cbn in Hr. apply delete_where_lookup in Hr as [_ Hr]. assert (is_row k mutable_states r = true); [|congruence].
  apply is_row_spec. split; [done|]. rewrite Hc. compute_done.
Qed.

Lemma open_of_kept k o (v v' : Device D) : kept (dv_store v) (dv_store v') → open_of k o v → open_of k o v'.
Proof. intros (_ & Hc & _). by apply open_of_quiet. Qed.

Lemma bound_ok now k row b q o : moves_ok (λ v v', open_of k o v → safe v → safe v') (activate_bound uuid JSON_parse now k row b q o).
Proof.
  intros v a v' H Ho Hs. unfold activate_bound, local_payload in H. cbv zeta in H. destruct q.
  { revert H Hs. apply tame_run. tamely. }
  step_back H domainJson v0 H0. injection H0 as <- <-. step_back H s v0 H0. injection H0 as <- <-. destruct (negb _).
  { revert H Hs. apply tame_run. tamely. }
  destruct (negb _ && _); [|revert H Hs; apply tame_run; tamely].
  step_back H u1 v1 H1. apply kept_run in H1; [|apply kept_set_base]. step_back H u2 v2 H2. apply kept_run in H2; [|apply kept_bindings].
  step_back H u3 v3 H3. apply kept_run in H3; [|apply kept_outbox, tame_delete_where].
  step_back H u4 v4 H4. apply kept_run in H4; [|apply kept_outbox, tame_reject_dispatched]. step_back H u5 v5 H5.
  pose proof (reject_conflicted_none k "reset-converged" (dv_store v4)) as Hn. rewrite (store_run _ _ _ _ H5) in Hn.
  apply kept_run in H5; [|apply kept_outbox, tame_reject_conflicted].
  assert (Hk : kept (dv_store v) (dv_store v5)) by (do 4 (etrans; [eassumption|]); done). revert H.
  intros H. eapply converged_ok; [exact H| |by apply (kept_recorded uuid ids) in Hk; apply Hk].
  intros id c Hc. destruct (open_of_kept _ _ _ _ Hk Ho id c Hc) as [-> Hid]. split; [done|]. intros c' Hc'. by apply Hid.
Qed.

(** Safe is kept by what returns. *)
Abbreviation keeps_safe := (λ v v', safe v → safe v').

#[local] Instance keeps_safe_preorder : PreOrder keeps_safe.
Proof. split; [intros v Hv; exact Hv|]. intros a b c H1 H2 Ha. auto. Qed.

Lemma tame_safe {A} (m : V D A) : moves (stored tame) m → moves_ok keeps_safe m.
Proof. intros Hm v a v' H. by apply (tame_run m v a v'). Qed.

Lemma absent_ok now x : moves_ok keeps_safe (activate_absent uuid now x).
Proof.
  destruct x as [k b]. intros v a v' H Hs. unfold activate_absent, local_payload in H.
  step_back H d v0 H0. injection H0 as _ <-. destruct (is_paused_workspace d k); [revert H Hs; apply tame_run; tamely|].
  step_back H o v0 H0. apply store_run in H0 as H0'. injection H0' as Ho Hv0.
  assert (v0 = v) as -> by (unfold on_store in H0; by destruct v; injection H0 as _ <-).
  step_back H domainJson v0 H1. injection H1 as _ <-. step_back H s v0 H1. injection H1 as _ <-.
  destruct (negb _); [revert H Hs; apply tame_run; tamely|]. destruct domainJson as [text|]; [revert H Hs; apply tame_run; tamely|].
  step_back H u1 v1 H1. pose proof (delete_mutable_none k (dv_store v)) as Hn. rewrite (store_run _ _ _ _ H1) in Hn.
  apply kept_run in H1; [|apply kept_outbox, tame_delete_where]. step_back H u2 v2 H2. apply kept_run in H2; [|apply kept_bindings].
  assert (Hk : kept (dv_store v) (dv_store v2)) by (by etrans). eapply converged_ok; [exact H| |by apply (kept_recorded uuid ids) in Hk; apply Hk].
  intros id c ->. apply unresolved_some in Ho as (Hc & <- & _). split; [by apply (kept_no_conflict _ _ _ (proj1 H2))|].
  destruct Hk as (_ & -> & _). intros c' Hc'. congruence.
Qed.

Lemma entity_ok now bindings x : moves_ok keeps_safe (activate_entity uuid JSON_parse now bindings x).
Proof.
  destruct x as [k row]. intros v a v' H Hs. unfold activate_entity in H.
  step_back H d v0 H0. injection H0 as _ <-. destruct (is_paused_workspace d k); [revert H Hs; apply tame_run; tamely|].
  step_back H o v0 H0. apply store_run in H0 as H0'. injection H0' as Ho _.
  assert (v0 = v) as -> by (unfold on_store in H0; by destruct v; injection H0 as _ <-).
  destruct (bindings !! k) as [b|]; [|revert H Hs; apply tame_run; unfold activate_unbound, local_payload; tamely].
  eapply bound_ok; [exact H| |exact Hs]. rewrite <- Ho. apply open_of_found.
Qed.

Lemma activation_ok now cursor : moves keeps_safe (activateStagedScan uuid JSON_parse now cursor).
Proof.
  apply moves_commit; [apply _|]. apply moves_ok_bind; [apply _|apply moves_ok_reads; [apply _|by intros ?]|]. intros staged.
  apply moves_ok_bind; [apply _|apply moves_ok_reads; [apply _|by intros ?]|]. intros bindings.
  apply moves_ok_bind; [apply _| |].
  { apply moves_for_each; [apply _|]. intros x _ _. apply entity_ok. }
  intros _. apply moves_ok_bind; [apply _| |].
  { apply moves_for_each; [apply _|]. intros x _ _. apply absent_ok. }
  intros _. apply tame_safe. apply moves_bind; [apply _|apply stored_on_store, tame_state|intros _].
  apply stored_on_store. intros s. by apply tame_same.
Qed.

(** *** Conflicts *)

(** Queued again, conflicting rows are pending; there is one at most, and nothing else pending. *)
Lemma requeue_sound k s : sound s → no_pending k s ∨ no_conflict k s →
  let s' := (set_outbox (update_rows (is_row k [os_conflict]) requeued) s).2 in sound s' ∧ no_conflict k s'.
Proof.
  intros [S1 S2 S3 S4 S5 S6 S7 S8 S9] Hp. cbv zeta. cbn.
  assert (Hl : ∀ j r', update_rows (is_row k [os_conflict]) requeued (ss_outbox s) !! j = Some r' → ∃ r, ss_outbox s !! j = Some r ∧
    ob_entity r' = ob_entity r ∧ ((ob_entity r = k ∧ ob_state r = os_conflict ∧ ob_state r' = os_pending) ∨
      (r' = r ∧ (ob_entity r = k → ob_state r ≠ os_conflict)))).
  { intros j r'. rewrite update_rows_lookup. intros (r & Hr & ->)%fmap_Some. exists r. split; [done|].
    destruct (is_row k [os_conflict] r) eqn:E; (split; [done|]).
    - apply is_row_spec in E as [? ?%list_elem_of_singleton]. by left.
    - right. split; [done|]. intros Hk Hc. assert (is_row k [os_conflict] r = true); [|congruence]. apply is_row_spec. split; [done|].
      rewrite Hc. by left. }
  split; [|intros j r (q & Hq & He & [(_ & _ & Hst)|[-> Hn]])%Hl Hk; [by rewrite Hst|by apply Hn]].
  assert (Hb : ∀ j r' st, update_rows (is_row k [os_conflict]) requeued (ss_outbox s) !! j = Some r' → ob_state r' = st → st ≠ os_pending →
    ss_outbox s !! j = Some r').
  { intros j r' st (q & Hq & He & [(_ & _ & Hst)|[-> _]])%Hl Hs Hn; [congruence|done]. }
  assert (Hf : ∀ st, st ∈ flight_states → st ≠ os_pending) by (intros st Hst ->; revert Hst; compute_done).
  split; cbn; try done.
  - intros j r j' r' (q & Hq & He & Hc)%Hl (q' & Hq' & He' & Hc')%Hl Hk Hst Hst'.
    destruct Hc as [(Hqk & Hqs & _)|[-> _]], Hc' as [(Hqk' & Hqs' & _)|[-> _]].
    + apply (S2 j q j' q'); [done..|congruence|rewrite Hqs; compute_done|rewrite Hqs'; compute_done].
    + destruct Hp as [Hp|Hp]; [by destruct (Hp _ _ Hq'); [congruence|]|by destruct (Hp _ _ Hq)].
    + destruct Hp as [Hp|Hp]; [by destruct (Hp _ _ Hq); [congruence|]|by destruct (Hp _ _ Hq')].
    + by eapply S1.
  - intros j r j' r' Hr Hr' Hk Hs Hs'. eapply (S2 j r j' r'); [by eapply Hb; auto..|done|done|done].
  - intros j r Hr Hs. by apply (S3 j); [eapply Hb|].
  - intros j r Hr Hs. by apply (S5 j); [eapply Hb|].
  - intros j r j' r' Hr Hr' Hs Hs'. by apply (S6 j r j' r'); [eapply Hb|eapply Hb|..].
  - intros j r (q & Hq & _)%Hl. by eapply S7.
  - intros j r j' r' Hj (q & Hq & He & _)%Hl (q' & Hq' & He' & Hc')%Hl Hk Hs. apply (S9 j q j' q'); [done..|congruence|].
    destruct Hs as [Hs|]; [left|by right]. destruct Hc' as [(_ & _ & Hst)|[-> _]]; [by destruct (Hf _ Hs)|done].
Qed.

(** Nothing pending, or nothing in conflict, of an entity. *)
Definition one_queue (k : EntityKey) (v : Device D) : Prop := safe v ∧ (no_pending k (dv_store v) ∨ no_conflict k (dv_store v)).

Lemma requeue_loop k l (body : string * OutboxRow → V D unit) v u v' :
  (∀ r v u v', one_queue k v → body r v = (Ok u, v') → safe v' ∧ no_conflict k (dv_store v') ∧ ss_conflicts (dv_store v') = ss_conflicts (dv_store v)) →
  for_each l (λ r _, body r) tt v = (Ok u, v') → one_queue k v → (l = [] → no_conflict k (dv_store v)) →
  safe v' ∧ no_conflict k (dv_store v') ∧ ss_conflicts (dv_store v') = ss_conflicts (dv_store v).
Proof.
  intros Hb. revert v. induction l as [|r l IH]; intros v H Hq Hn; cbn [for_each] in H; [injection H as _ <-; split_and!; [apply Hq|by apply Hn|done]|].
  step_back H w v1 H1. destruct w. destruct (Hb _ _ _ _ Hq H1) as (Hs1 & Hn1 & Hc1).
  destruct (IH v1 H) as (Hs2 & Hn2 & Hc2); [split; [done|by right]|done|]. split_and!; [done|done|congruence].
Qed.

Lemma conflict_rows_none k s : outbox_rows (is_row k [os_conflict]) (ss_outbox s) = [] → no_conflict k s.
Proof.
  intros Hl id r Hr Hk Hc. assert (Hin : (id, r) ∈ outbox_rows (is_row k [os_conflict]) (ss_outbox s)).
  { apply rows_by_elem. split; [done|]. apply is_row_spec. split; [done|]. rewrite Hc. by left. }
  rewrite Hl in Hin. by apply not_elem_of_nil in Hin.
Qed.

Lemma conflict_rows_gone k result s :
  no_conflict k (set_outbox (update_rows (is_row k [os_conflict]) (with_result os_rejected result)) s).2.
Proof.
  intros id r Hr Hk Hc. cbn in Hr. rewrite update_rows_lookup in Hr. apply fmap_Some in Hr as (q & Hq & ->).
  destruct (is_row k [os_conflict] q) eqn:E; [done|]. assert (is_row k [os_conflict] q = true); [|congruence].
  apply is_row_spec. split; [done|]. rewrite Hc. by left.
Qed.

(** What may be resolved: nothing of the entity is in conflict, and conflicts are as before. *)
Definition ready (k : EntityKey) (v v' : Device D) : Prop :=
  safe v' ∧ no_conflict k (dv_store v') ∧ ss_conflicts (dv_store v') = ss_conflicts (dv_store v).

Lemma recorded_run {A} (m : LS A) (v : Device D) a v' : moves_ok recorded m → on_store m v = (Ok a, v') → recorded (dv_store v) (dv_store v').
Proof. intros Hm H%store_run. by eapply Hm. Qed.

Lemma recorded_ready k v v1 v2 : ready k v v1 → recorded (dv_store v1) (dv_store v2) → ready k v v2.
Proof. intros (H1 & H2 & H3) [K1 K2 K3]. split_and!; [by apply K1|by apply K3|congruence]. Qed.

Lemma requeue_ready now k c v u v' : safe v → requeueEntityForKeepLocal uuid sha256Hex JSON_parse now k c v = (Ok u, v') → ready k v v'.
Proof.
  intros Hs H. unfold requeueEntityForKeepLocal in H. cbv zeta in H. step_back H u1 v1 H1. apply kept_run in H1; [|apply kept_set_base].
  apply (kept_recorded uuid ids) in H1. destruct H1 as [K1 K2 _]. step_back H pending v0 H0. injection H0 as Hpend <-.
  destruct (negb _) eqn:E.
  - pose proof (conflict_rows_gone k (rejected_json "superseded-by-local-edit") (dv_store v1)) as Hn. rewrite (store_run _ _ _ _ H) in Hn.
    apply kept_run in H; [|apply kept_outbox, (tame_reject_conflicted k "superseded-by-local-edit")].
    apply (kept_recorded uuid ids) in H. destruct H as [R1 R2 _]. split_and!; [by apply R1, K1|done|congruence].
  - step_back H conflicted v0 H0. injection H0 as Hconf <-. step_back H u2 v2 H2.
    assert (Hr : safe v2 ∧ no_conflict k (dv_store v2) ∧ ss_conflicts (dv_store v2) = ss_conflicts (dv_store v1)).
    { eapply requeue_loop; [|exact H2| |by intros Hl; apply conflict_rows_none; rewrite Hconf].
      - intros r w x w' [Hw Hone] Hrun. destruct (_ && _).
        + apply store_run in Hrun. pose proof (tame_delete_where (is_row k [os_conflict]) (dv_store w)) as Ht. injection Hrun as _ Hrun.
          assert (Hn : no_conflict k (dv_store w')).
          { rewrite <- Hrun. intros id q Hq Hk Hc. apply delete_where_lookup in Hq as [_ Hq]. assert (is_row k [os_conflict] q = true); [|congruence].
            apply is_row_spec. split; [done|]. rewrite Hc. by left. }
          split_and!; [|done|by rewrite <- Hrun]. unfold safe. rewrite <- Hrun. by eapply sound_tame.
        + apply store_run in Hrun. injection Hrun as _ Hrun. destruct (requeue_sound k (dv_store w) Hw Hone) as [R1 R2]. cbn in R1, R2.
          rewrite Hrun in R1, R2. split_and!; [done|done|by rewrite <- Hrun].
      - split; [by apply K1|]. left. apply negb_false_iff in E. rewrite <- Hpend in E. apply pending_none. by destruct (outbox_rows _ _). }
    assert (Hr2 : ready k v v2) by (destruct Hr as (R1 & R2 & R3); split_and!; [done|done|congruence]). clear H2 Hr.
    destruct conflicted; [|by injection H as _ <-]. destruct (cf_localPayloadJson c) as [text|]; [|by injection H as _ <-].
    step_back H payload v3 H3. apply kept_run in H3; [|apply kept_parse]. step_back H o v4 H4. injection H as _ <-.
    eapply recorded_ready; [eapply recorded_ready; [exact Hr2|by apply kept_recorded]|]. eapply recorded_run; [|exact H4]. by apply record_ok.
Qed.

Lemma take_remote_ready k c v u v' : safe v → take_remote JSON_parse k c v = (Ok u, v') → ready k v v'.
Proof.
  intros Hs H. unfold take_remote in H. step_back H u1 v1 H1. pose proof (delete_mutable_none k (dv_store v)) as Hn.
  rewrite (store_run _ _ _ _ H1) in Hn. apply kept_run in H1; [|apply kept_outbox, tame_delete_where].
  apply (kept_recorded uuid ids) in H1. destruct H1 as [K1 K2 _]. assert (Hr : ready k v v1) by (split_and!; [by apply K1|done|done]).
  destruct (cf_remotePayloadJson c) as [text|].
  - step_back H payload v2 H2. apply kept_run in H2; [|apply kept_parse]. step_back H u3 v3 H3. injection H3 as _ <-.
    step_back H u4 v4 H4. apply kept_run in H4; [|apply kept_set_base]. apply kept_run in H; [|apply kept_bindings].
    eapply recorded_ready; [exact Hr|]. apply kept_recorded. by do 2 (etrans; [eassumption|]).
  - step_back H u2 v2 H2. apply kept_run in H2; [|apply kept_bindings]. step_back H e v3 H3. injection H3 as _ <-.
    apply (kept_recorded uuid ids) in H2. pose proof (recorded_ready _ _ _ _ Hr H2) as Hr2. destruct e; injection H as _ <-; done.
Qed.

Lemma save_copy_recorded now c v u v' : saveLocalConflictCopy uuid sha256Hex JSON_parse now c v = (Ok u, v') → recorded (dv_store v) (dv_store v').
Proof.
  intros H. unfold saveLocalConflictCopy in H. destruct (cf_entity c) as [t i]. step_back H here v0 H0. injection H0 as _ <-.
  destruct (match cf_localPayloadJson c with Some text => Some text | None => here end) as [text|]; [|done].
  step_back H payload v1 H1. apply kept_run in H1; [|apply kept_parse]. destruct (negb _); [done|]. step_back H newId v2 H2.
  pose proof (issues_kept _ _ (issues_uuid uuid (dv_store v1))) as K2. rewrite (store_run _ _ _ _ H2) in K2. cbn [snd] in K2.
  step_back H d v3 H3. injection H3 as _ <-. destruct (persistConflictCopy newId t payload d) as [[[copyId copy] d']|]; [|done].
  step_back H u4 v4 H4. injection H4 as _ <-. step_back H b v5 H5. apply kept_run in H5; [|apply kept_upsert]. cbn in H5.
  step_back H o v6 H6. injection H as _ <-. transitivity (dv_store v5); [apply kept_recorded; by do 2 (etrans; [eassumption|])|].
  eapply recorded_run; [|exact H6]. by apply record_ok.
Qed.

Lemma resolve_safe now id resolution : moves keeps_safe (resolveSyncConflict uuid sha256Hex JSON_parse now id resolution).
Proof.
  intros v Hs. unfold resolveSyncConflict, gets, mbind at 1, M_bind at 1. destruct (ss_conflicts (dv_store v) !! id) as [c|] eqn:Hc; [|done].
  destruct (negb _); [done|]. unfold commit. match goal with |- safe (let (_, _) := ?x in _).2 => destruct x as [[a|e] v'] eqn:H end; [|done].
  cbn [snd]. step_back H u v1 H1. enough (Hr : ready (cf_entity c) v v1).
  { destruct Hr as (R1 & R2 & R3). apply store_run in H. eapply resolve_sound; [exact H| |exact R1]. intros c' Hc'. rewrite R3 in Hc'.
    by replace c' with c by congruence. }
  destruct resolution.
  - by eapply requeue_ready.
  - by eapply take_remote_ready.
  - step_back H1 w v2 H2. apply save_copy_recorded in H2 as [K1 K2 _]. destruct (take_remote_ready _ _ _ _ _ (K1 Hs) H1) as (R1 & R2 & R3).
    split_and!; [done|done|congruence].
Qed.

(** ** Answers *)

Lemma mapped_conflict keys batch item id p r : mapPushItemResult JSON_parse backendId accountId gcmOpen keys batch item = Ok (pu_conflict id p r) →
  id ∈ map pc_changeId batch.
Proof.
  destruct item as [i n w|i n content|i reason|i e|i]; cbn; try done. destruct (find _ batch) as [c|] eqn:E; [|done].
  apply find_some in E as [Hin Heq%String.eqb_eq]. destruct (_ && _); [done|]. intros [= <- _ _]. rewrite <- Heq. apply list_elem_of_fmap.
  exists c. split; [done|]. by apply list_elem_of_In.
Qed.

Lemma settle_safe now keys batch items v : (∀ id, id ∈ map pc_changeId batch → id ∈ ids) →
  safe v → safe (settle_push uuid JSON_parse backendId accountId gcmOpen now keys batch items v).2.
Proof.
  intros Hb Hs. unfold settle_push, mbind at 1, M_bind at 1, from_outcome. destruct (map_outcome _ _) as [results|e] eqn:E; [|done].
  assert (Hk : moves (stored (keeps uuid ids)) (on_store (applyPushResults uuid now results))).
  { apply stored_on_store, apply_results_keep. intros id p r Hin. apply Hb.
    eapply map_outcome_Forall in E; [|intros item y Hy; exact (λ i q n (Hq : y = pu_conflict i q n), mapped_conflict keys batch item i q n (eq_trans Hy (f_equal Ok Hq)))].
    rewrite Forall_forall in E. by eapply E. }
  refine ((_ : moves keeps_safe _) v Hs). apply moves_bind; [apply _|exact Hk|]. intros _ w. apply sound_tame.
  exact (stored_on_store tame _ (tame_state _) w).
Qed.

(** ** Everything that happens to a device *)

Lemma local_safe c v : safe v → safe (run_local uuid sha256Hex JSON_parse backendId accountId gcmOpen gcmSeal c v).
Proof.
  intros Hs. assert (Ht : ∀ A (m : V D A), moves (stored tame) m → safe (m v).2) by (intros A m Hm; by eapply sound_tame; [apply Hm|]).
  destruct c; cbn [run_local].
  - apply Ht, stored_on_store, tame_enroll.
  - apply Ht, stored_on_store, tame_revoke.
  - refine ((_ : moves keeps_safe (commit _)) v Hs). apply moves_commit; [apply _|]. intros w a w' H. apply recorded_run in H; [apply H|by apply record_ok].
  - refine ((_ : moves keeps_safe (commit _)) v Hs). apply moves_commit; [apply _|]. intros w a w' H Hw. unfold withSyncedEntityWrite in H.
    step_back H u w1 H1. injection H1 as _ <-. step_back H b w2 H2. apply store_run in H2. injection H2 as _ H2.
    destruct b as [b|]; [|injection H as _ <-; unfold safe; by rewrite <- H2]. step_back H d w3 H3. injection H3 as _ <-. step_back H o w4 H4. injection H as _ <-.
    apply recorded_run in H4; [|by apply record_ok]. apply H4. unfold safe. by rewrite <- H2.
  - by apply resolve_safe.
  - apply Ht, paused_tame.
  - apply Ht, reseal_tame.
  - apply Ht, stored_on_store, tame_sweep.
Qed.
End Run.

(** ** Steps that leave the changes in flight *)

Definition same_flight (s s' : SyncStore) : Prop :=
  ∀ id r, ob_state r = os_dispatched → ss_outbox s' !! id = Some r ↔ ss_outbox s !! id = Some r.

#[export] Instance same_flight_preorder : PreOrder same_flight.
Proof. split; [by intros s id r _|]. intros a b c H1 H2 id r Hr. by rewrite (H2 _ _ Hr), (H1 _ _ Hr). Qed.

Lemma flight_same s s' : ss_outbox s' = ss_outbox s → same_flight s s'.
Proof. intros H id r _. by rewrite H. Qed.

Lemma flight_rows p f s : (∀ r, p r = true → ob_state r ≠ os_dispatched ∧ ob_state (f r) ≠ os_dispatched) →
  same_flight s (put_outbox (update_rows p f (ss_outbox s)) s).
Proof.
  intros Hp id r Hr. cbn. rewrite update_rows_lookup. destruct (ss_outbox s !! id) as [q|]; [|done]. cbn. destruct (p q) eqn:E; [|done].
  destruct (Hp _ E) as [H1 H2]. split; intros [= Heq]; exfalso; [apply H2|apply H1]; congruence.
Qed.

Lemma flight_delete p s : (∀ r, p r = true → ob_state r ≠ os_dispatched) → same_flight s (put_outbox (delete_where p (ss_outbox s)) s).
Proof.
  intros Hp id r Hr. cbn. rewrite delete_where_lookup. split; [by intros [? _]|]. intros H. split; [done|].
  destruct (p r) eqn:E; [|done]. by destruct (Hp _ E).
Qed.

Lemma flight_upsert k base payload q : moves same_flight (upsertBinding k base payload q).
Proof.
  unfold upsertBinding. apply moves_bind; [apply _|easy|]. intros existing. apply moves_bind; [apply _|intros s; by apply flight_same|].
  intros _. apply moves_bind; [apply _|easy|]. intros [b|]; easy.
Qed.

Lemma flight_set_base k revision payload : moves same_flight (setBindingBase k revision payload).
Proof.
  unfold setBindingBase. apply moves_bind; [apply _|easy|]. intros [b|]; [intros s; by apply flight_same|].
  apply moves_bind; [apply _|apply flight_upsert|easy].
Qed.

Lemma flight_set_quarantine k q : moves same_flight (setBindingQuarantine k q).
Proof.
  unfold setBindingQuarantine. apply moves_bind; [apply _|easy|]. intros [b|]; [intros s; by apply flight_same|].
  apply moves_bind; [apply _|apply flight_upsert|easy].
Qed.

Lemma flight_acknowledge k : moves same_flight (acknowledgeBindingLocalEdits k).
Proof. intros s. by apply flight_same. Qed.
Lemma flight_state patch : moves same_flight (updateSyncState patch).
Proof. intros s. by apply flight_same. Qed.
Lemma flight_paused k p b : moves same_flight (storePausedInboundChange k p b).
Proof. intros s. unfold storePausedInboundChange, modify. cbn. destruct (ss_paused s !! k); [destruct (_ || _)|]; by apply flight_same. Qed.
Lemma flight_delete_paused k : moves same_flight (deletePausedInboundChange k).
Proof. intros s. by apply flight_same. Qed.
Lemma flight_parse JSON_parse text : moves same_flight (parse_json JSON_parse text).
Proof. intros s. unfold parse_json. by destruct (JSON_parse text). Qed.

Lemma parse_null_reads JSON_parse text : reads (parse_json_or_null JSON_parse text).
Proof. destruct text as [t|]; [|done]. intros s. cbn. unfold parse_json. by destruct (JSON_parse t). Qed.

Lemma flight_insert uuid now input : moves same_flight (insertUnresolvedConflict uuid now input).
Proof.
  intros s. apply flight_same. unfold insertUnresolvedConflict, getUnresolvedConflict, gets, mbind, M_bind.
  destruct (unresolved_conflict _ _) as [[id x]|]; [by destruct (refreshes input x)|]. unfold randomUUID, insert_row. cbn.
  by destruct (ss_conflicts s !! uuid (ss_ids s)).
Qed.

Create HintDb flight discriminated.
#[export] Hint Resolve flight_upsert flight_set_base flight_set_quarantine flight_acknowledge flight_state flight_paused flight_delete_paused
  flight_parse flight_insert : flight.

Section Flight.
Context {D : Type} `{!EntityDomain D}.
Context (uuid : nat → string) (sha256Hex : string → string) (JSON_parse : string → option json).

Lemma record_flight now input : moves_ok same_flight (recordLocalChange uuid sha256Hex JSON_parse now input).
Proof.
  intros s a s' H. unfold recordLocalChange in H. step_back H bound s0 H0. injection H0 as _ <-. step_back H b s1 H1.
  assert (K1 : same_flight s s1).
  { destruct bound as [b0|]; [by injection H1 as _ <-|]. pose proof (flight_upsert (rl_entity input) None None None s) as Hc. by rewrite H1 in Hc. }
  step_back H u s2 H2. assert (K2 : same_flight s1 s2) by (injection H2 as _ <-; by apply flight_same).
  step_back H pending s3 H3. injection H3 as Hpend <-. transitivity s2; [by etrans|]. clear K1 K2. destruct pending as [[id row]|].
  - apply rows_by_head in Hpend as [Hrow Hst%is_row_spec]. cbn in Hrow, Hst. destruct Hst as [_ Hst%list_elem_of_singleton].
    unfold coalesce in H. destruct (_ && _).
    + step_back H v s3 H3. injection H3 as _ <-. injection H as _ <-. intros j r Hr. cbn. rewrite lookup_delete_Some. split; [tauto|].
      intros Hj. split; [|done]. intros <-. congruence.
    + step_back H p s3 H3. apply (read_Ok _ _ _ _ (parse_null_reads _ _)) in H3 as ->.
      step_back H v s4 H4. injection H4 as _ <-. injection H as _ <-. intros j r Hr. cbn. destruct (decide (id = j)) as [<-|Hj]; [|by rewrite lookup_alter_ne].
      rewrite lookup_alter_eq, Hrow. split; intros [= Heq]; subst; cbn in *; congruence.
  - apply enqueue_run in H as (row & Hst & _ & Hid & ->). intros j r Hr. cbn. destruct (decide (uuid (ss_ids s2) = j)) as [<-|Hj]; [|by rewrite lookup_insert_ne].
    rewrite lookup_insert_eq, Hid. split; [intros [= ->]; congruence|done].
Qed.

Lemma flight_domain f : moves (stored same_flight) (on_domain (D := D) f).
Proof. apply stored_domain, _. Qed.

Lemma flight_projection k op payload : moves (stored same_flight) (applyDomainProjection k op payload).
Proof. apply flight_domain. Qed.

Lemma flight_conflict now k base l remote kind b : moves (stored same_flight) (insert_conflict (D := D) uuid now k base l remote kind b).
Proof. apply stored_on_store, flight_insert. Qed.

Lemma flight_payload text : moves (stored same_flight) (parse_payload (D := D) JSON_parse text).
Proof. destruct text; [|easy]. apply moves_bind; [apply _|apply stored_on_store, flight_parse|easy]. Qed.

Lemma flight_write_base k revision payload : moves (stored same_flight) (writeBindingBase (D := D) k revision payload).
Proof. apply moves_bind; [apply _|apply stored_on_store, flight_set_base|]. intros _. apply stored_on_store, flight_acknowledge. Qed.

#[local] Hint Resolve flight_domain flight_projection flight_conflict flight_payload flight_write_base : flight.

Ltac fly := repeat first
  [ easy
  | apply moves_bind; [apply _| |intros]
  | solve [auto with flight]
  | apply stored_on_store; first [easy|solve [auto with flight]]
  | case_match ].

Lemma resolve_flight now id resolution : moves same_flight (resolveConflict now id resolution).
Proof.
  intros s. unfold resolveConflict, gets, mbind, M_bind. destruct (ss_conflicts s !! id); [|done]. destruct (negb _); [done|]. by apply flight_same.
Qed.

Lemma in_conflict_flight k r : is_row k [os_conflict] r = true → ob_state r ≠ os_dispatched.
Proof. intros [_ ->%list_elem_of_singleton]%is_row_spec. done. Qed.

Lemma requeue_flight now k c : moves_ok (stored same_flight) (requeueEntityForKeepLocal (D := D) uuid sha256Hex JSON_parse now k c).
Proof.
  unfold requeueEntityForKeepLocal. cbv zeta. apply moves_ok_bind; [apply _|apply moves_moves_ok, stored_on_store, flight_set_base|]. intros _.
  apply moves_ok_bind; [apply _|apply moves_ok_reads; [apply _|by intros ?]|]. intros pending. destruct (negb _).
  - apply moves_moves_ok, stored_on_store. intros s. apply flight_rows. intros r Hr. split; [by eapply in_conflict_flight|done].
  - apply moves_ok_bind; [apply _|apply moves_ok_reads; [apply _|by intros ?]|]. intros conflicted. apply moves_ok_bind; [apply _| |].
    + apply moves_for_each; [apply _|]. intros r _ _. apply moves_moves_ok. destruct (_ && _); apply stored_on_store; intros s.
      * apply flight_delete. intros q. apply in_conflict_flight.
      * apply flight_rows. intros q Hq. split; [by eapply in_conflict_flight|done].
    + intros _. destruct conflicted; [|apply moves_ok_reads; [apply _|by intros ?]]. destruct (cf_localPayloadJson c); [|apply moves_ok_reads; [apply _|by intros ?]].
      apply moves_ok_bind; [apply _|apply moves_moves_ok, stored_on_store, flight_parse|]. intros payload.
      apply moves_ok_bind; [apply _|apply stored_on_store_ok, record_flight|]. intros _. apply moves_ok_reads; [apply _|by intros ?].
Qed.

Lemma keep_local_flight now id : moves (stored same_flight) (resolveSyncConflict (D := D) uuid sha256Hex JSON_parse now id rs_keep_local).
Proof.
  unfold resolveSyncConflict. apply moves_bind; [apply _|easy|]. intros [c|]; [|easy]. destruct (negb _); [easy|].
  apply moves_commit; [apply _|]. apply moves_ok_bind; [apply _|apply requeue_flight|]. intros _.
  apply moves_moves_ok, stored_on_store, resolve_flight.
Qed.

Lemma edit_flight now k version operation build write :
  moves (stored same_flight) (commit (withSyncedEntityWrite (D := D) uuid sha256Hex JSON_parse now k version operation build write)).
Proof.
  apply moves_commit; [apply _|]. unfold withSyncedEntityWrite. apply moves_ok_bind; [apply _|apply moves_moves_ok, flight_domain|]. intros _.
  apply moves_ok_bind; [apply _|apply moves_moves_ok, stored_on_store; easy|]. intros [b|]; [|apply moves_ok_reads; [apply _|by intros ?]].
  apply moves_ok_bind; [apply _|apply moves_ok_reads; [apply _|by intros ?]|]. intros d.
  apply moves_ok_bind; [apply _|apply stored_on_store_ok, record_flight|]. intros _. apply moves_ok_reads; [apply _|by intros ?].
Qed.

Lemma sweep_flight now : moves same_flight (sweepLocalSyncRetention now).
Proof.
  unfold sweepLocalSyncRetention. apply moves_bind; [apply _| |intros _ s; by apply flight_same]. intros s. apply flight_delete.
  intros r [Hr%bool_decide_eq_true _]%andb_true_iff Hd. rewrite Hd in Hr. revert Hr. compute_done.
Qed.
Context (backendId accountId : string) (gcmOpen : string → string → string → string → option string).

Lemma apply_flight now keys change : moves (stored same_flight) (applySyncedChange uuid JSON_parse backendId accountId gcmOpen now keys change).
Proof. unfold applySyncedChange, apply_bound, apply_unbound, local_payload. cbv zeta. fly. Qed.

Lemma page_flight now keys changes cursor :
  moves (stored same_flight) (applyPullPage uuid JSON_parse backendId accountId gcmOpen now keys changes cursor).
Proof.
  apply moves_commit; [apply _|]. apply moves_ok_bind; [apply _| |].
  - apply moves_for_each; [apply _|]. intros raw _ _. apply moves_moves_ok. destruct (toSyncedChange raw); [apply apply_flight|easy].
  - intros _. apply moves_moves_ok, stored_on_store, flight_state.
Qed.

Lemma paused_flight now keys : moves (stored same_flight) (applyPausedWorkspaceChanges uuid JSON_parse backendId accountId gcmOpen now keys).
Proof.
  apply moves_commit; [apply _|]. apply moves_ok_bind; [apply _|apply moves_ok_reads; [apply _|by intros ?]|]. intros paused.
  apply moves_for_each; [apply _|]. intros [k p] n _. apply moves_moves_ok. unfold apply_paused.
  apply moves_bind; [apply _|easy|intros d]. destruct (_ || _); [easy|]. cbv zeta. destruct (_ ≫= _) as [change|]; [|easy].
  destruct (_ && _); [|easy]. apply moves_bind; [apply _|apply apply_flight|intros _]. fly.
Qed.

End Flight.

(** ** A device and its account *)

Section SiteRun.
Context {D : Type} `{!EntityDomain D}.
Context (uuid : nat → string) `{!Inj (=) (=) uuid} (sha256Hex : string → string) (JSON_parse : string → option json).
Context (backendId accountId : string) (gcmOpen : string → string → string → string → option string)
  (gcmSeal : string → string → string → string → string) (date_parse : string → option Z) (hosted : bool).
Notation site_step := (site_step uuid sha256Hex JSON_parse backendId accountId gcmOpen gcmSeal date_parse hosted).
Notation run_site := (run_site uuid sha256Hex JSON_parse backendId accountId gcmOpen gcmSeal date_parse hosted).
Notation push_request := (push_request uuid sha256Hex JSON_parse backendId accountId gcmSeal).
Implicit Types (w : Site (D := D)) (v : Device D).

(** The changes that await an answer. *)
Definition phase_ids (p : Phase) : list string :=
  match p with
  | ph_pushing batch | ph_answered batch _ => map pc_changeId batch
  | ph_idle | ph_pulled _ => []
  end.

Definition site_sound w : Prop := sound uuid (phase_ids (si_phase w)) (dv_store (si_device w)).

Lemma push_seals d current e metadataOnly entityBytes pageBytes batchChanges :
  seals (push_options uuid backendId accountId gcmSeal d current e metadataOnly entityBytes pageBytes batchChanges).
Proof.
  intros seal input [= <-]. unfold sealWirePayload. destruct (isCryptoBoundaryEntityType _); [easy|]. unfold sealEntityPayload.
  destruct current as [[version key]|]; [|easy]. apply moves_bind; [apply _|apply issues_uuid|easy].
Qed.

(** What a request leaves. *)
Lemma request_ok now current e metadataOnly entityBytes pageBytes batchChanges v batch v' : sound uuid [] (dv_store v) →
  push_request now current e metadataOnly entityBytes pageBytes batchChanges v = (Ok batch, v') →
  sound uuid [] (dv_store v') ∧ (batch = [] ∨ awaits JSON_parse e batch (dv_store v')) ∧ (metadataOnly = false → lone e (dv_store v')).
Proof.
  intros Hs H. unfold SyncDevice.push_request in H. rewrite run_gets in H. apply store_run in H.
  apply nextBatch_ok in H as (K1 & K2 & K3); [|apply push_seals|done]. split_and!; [done|done|]. intros ->. by apply K3.
Qed.

Lemma request_thrown now current e metadataOnly entityBytes pageBytes batchChanges v err v' :
  push_request now current e metadataOnly entityBytes pageBytes batchChanges v = (Throw err, v') → dv_store v' = dv_store v.
Proof.
  unfold SyncDevice.push_request. rewrite run_gets. unfold on_store. intros H. destruct (nextBatch _ _ _ _ _ _ _) as [r s] eqn:E.
  injection H as -> <-. cbn. by apply commit_Throw in E.
Qed.

Lemma flag_tame codes e v : tame (dv_store v) (dv_store (flag_reset codes e v)).
Proof. unfold flag_reset. destruct (match err_code e with Some c => _ | None => _ end); [|done]. by apply (stored_on_store tame _ (tame_state _)). Qed.

Lemma sound_none ids s : sound uuid ids s → sound uuid [] s.
Proof. intros Hs. eapply sound_batch; [exact Hs|]. by intros id ?%not_elem_of_nil. Qed.

Lemma site_step_sound e w : site_sound w → site_sound (site_step e w).
Proof.
  unfold site_sound. intros Hs. destruct e as [c|c|now current en m eb pb bc|now auth epoch|now keys|pb|now keys| |now staging cursor]; cbn [SyncDevice.site_step].
  - done.
  - by apply local_safe.
  - destruct (si_phase w) eqn:Hp; try (cbn; rewrite Hp; done). destruct (push_request _ _ _ _ _ _ _ _) as [[[|c batch]|err] v] eqn:E; cbn.
    + by destruct (request_ok _ _ _ _ _ _ _ _ _ _ Hs E).
    + destruct (request_ok _ _ _ _ _ _ _ _ _ _ Hs E) as (K1 & [K2|K2] & _); [done|]. by apply (awaits_sound uuid JSON_parse en (c :: batch)).
    + by rewrite (request_thrown _ _ _ _ _ _ _ _ _ _ E).
  - destruct (si_phase w) eqn:Hp; try (cbn; rewrite Hp; done). destruct (handlePush _ _ _ _ _ _ _) as [[o|err] s] eqn:E; cbn; [done|].
    eapply sound_tame; [apply flag_tame|]. by eapply sound_none.
  - destruct (si_phase w) eqn:Hp; try (cbn; rewrite Hp; done). cbn. eapply sound_none, settle_safe; [|exact Hs]. done.
  - destruct (si_phase w) eqn:Hp; try (cbn; rewrite Hp; done). destruct (handlePull _ _) as [[page|err] s] eqn:E; cbn; [done|].
    eapply sound_tame; [apply flag_tame|done].
  - destruct (si_phase w) eqn:Hp; try (cbn; rewrite Hp; done). cbn. eapply sound_tame; [apply page_tame|done].
  - cbn. by eapply sound_none.
  - destruct (si_phase w) eqn:Hp; try (cbn; rewrite Hp; done). cbn. apply activation_ok. unfold safe. cbn. eapply sound_tame; [|exact Hs]. by apply tame_same.
Qed.

Lemma initial_sound (d : D) : site_sound (initial_site d).
Proof. split; cbn; try (intros; by rewrite lookup_empty in *); try done; by intros ? ?%not_elem_of_nil. Qed.

Lemma run_sound es w : site_sound w → site_sound (run_site es w).
Proof. revert w. induction es as [|e es IH]; intros w Hw; cbn; [done|]. by apply IH, site_step_sound. Qed.

(** *** A batch until its answer *)

Lemma outstanding_same ids e s s' : sound uuid ids s → same_flight s s' → outstanding e (ss_outbox s') = outstanding e (ss_outbox s).
Proof.
  intros Hs Hf. assert (Hp : outstanding e (ss_outbox s') ≡ₚ outstanding e (ss_outbox s)).
  { apply NoDup_Permutation; [apply outstanding_NoDup..|]. intros [id r]. rewrite !outstanding_elem. split; intros (H1 & H2 & H3);
      (split_and!; [by apply (Hf id r H2)|done|done]). }
  eapply StronglySorted_unique_strong; [|apply outstanding_sorted|apply outstanding_sorted|exact Hp].
  intros [id r] [id' r'] Hx Hy H1 H2. rewrite Hp in Hx. apply outstanding_elem in Hx as (Hx & Hxd & Hxe), Hy as (Hy & Hyd & Hye).
  destruct (so_sequence _ _ _ Hs _ _ Hx Hxd) as (n & d & Hn & _). destruct (so_sequence _ _ _ Hs _ _ Hy Hyd) as (n' & d' & Hn' & _).
  unfold sequence_le in *. cbn in *. rewrite Hn, Hn' in *. cbn in *. assert (n = n') as <- by lia.
  assert (id = id') as <- by (apply (so_distinct _ _ _ Hs id r id' r'); congruence). congruence.
Qed.

(** What may happen while an answer is lost: anything but the answer, a rebuild, a request of
    another enrollment, and that the user gives the local version of a conflict up or that
    rows are sealed again. *)
Definition harmless (e : string) (ev : SiteEvent (D := D)) : bool :=
  match ev with
  | sx_local (lc_resolve _ _ rs_keep_local) => true
  | sx_local (lc_resolve _ _ _) | sx_local (lc_reseal _ _) => false
  | sx_account _ | sx_local _ | sx_push _ _ _ | sx_pull _ | sx_apply _ _ | sx_lost => true
  | sx_request _ _ e' metadataOnly _ _ _ => String.eqb e' e && negb metadataOnly
  | sx_settle _ _ | sx_rebuild _ _ _ => false
  end.

(** A batch of an enrollment is out. *)
Record out (e : string) (batch : list PendingChange) w : Prop := {
  ou_sound : site_sound w;
  ou_lone : lone e (dv_store (si_device w));
  ou_awaits : awaits JSON_parse e batch (dv_store (si_device w));
}.

Lemma out_flight e batch w w' : out e batch w → site_sound w' → same_flight (dv_store (si_device w)) (dv_store (si_device w')) → out e batch w'.
Proof.
  intros [O1 O2 O3] Hs Hf. split; [done| |].
  - intros id r Hr Hd. apply (O2 id r); [by apply (Hf id r Hd)|done].
  - intros s0. rewrite (outstanding_same _ _ _ _ O1 Hf). apply O3.
Qed.

Lemma local_flight e c v : harmless e (sx_local c) = true →
  same_flight (dv_store v) (dv_store (run_local uuid sha256Hex JSON_parse backendId accountId gcmOpen gcmSeal c v)).
Proof.
  intros Hh. destruct c as [now id st|now id|now input|now k n op build write|now id r|now keys|losing winner|now]; cbn [run_local].
  - by apply flight_same.
  - unfold on_store, revokeEnrollment, gets, mbind, M_bind. destruct (ss_enrollments (dv_store v) !! id); [by apply flight_same|done].
  - refine ((_ : moves (stored same_flight) (commit _)) v). apply moves_commit; [apply _|]. apply stored_on_store_ok, record_flight.
  - apply (edit_flight uuid sha256Hex JSON_parse now k n op build write v).
  - destruct r; try done. apply (keep_local_flight uuid sha256Hex JSON_parse now id v).
  - apply (paused_flight uuid JSON_parse backendId accountId gcmOpen now keys v).
  - done.
  - apply (stored_on_store _ _ (sweep_flight now) v).
Qed.

Lemma out_request e batch w now current entityBytes pageBytes batchChanges : out e batch w → batch ≠ [] →
  push_request now current e false entityBytes pageBytes batchChanges (si_device w) = (Ok batch, si_device w).
Proof.
  intros [_ O2 O3] Hne. unfold SyncDevice.push_request. rewrite run_gets. unfold on_store.
  match goal with |- context [nextBatch _ _ _ _ _ ?o _] => rewrite (nextBatch_again uuid sha256Hex JSON_parse now e o _ batch O2 O3 Hne eq_refl) end.
  by destruct (si_device w).
Qed.

Lemma out_step e batch ev w : out e batch w → batch ≠ [] → harmless e ev = true → out e batch (site_step ev w).
Proof.
  intros Ho Hne Hh. eapply out_flight; [exact Ho|by apply site_step_sound, Ho|].
  destruct ev as [c|c|now current en m eb pb bc|now auth epoch|now keys|pb|now keys| |now staging cursor]; cbn [SyncDevice.site_step]; try easy.
  - by eapply local_flight.
  - destruct (si_phase w) eqn:Hp; try easy. apply andb_true_iff in Hh as [->%String.eqb_eq Hm]. destruct m; [done|].
    rewrite (out_request _ _ _ _ _ _ _ _ Ho Hne). by destruct batch.
  - destruct (si_phase w) eqn:Hp; try easy. destruct (handlePush _ _ _ _ _ _ _) as [[o|err] s]; [easy|]. cbn.
    unfold flag_reset. destruct (match err_code err with Some c => _ | None => _ end); [|easy]. by apply flight_same.
  - destruct (si_phase w) eqn:Hp; try easy. destruct (handlePull _ _) as [[page|err] s]; [easy|]. cbn.
    unfold flag_reset. destruct (match err_code err with Some c => _ | None => _ end); [|easy]. by apply flight_same.
  - destruct (si_phase w) eqn:Hp; try easy. cbn. apply (page_flight uuid JSON_parse backendId accountId gcmOpen now keys _ _ (si_device w)).
Qed.

Lemma out_run e batch es w : out e batch w → batch ≠ [] → forallb (harmless e) es = true → out e batch (run_site es w).
Proof.
  intros Ho Hne. revert w Ho. induction es as [|ev es IH]; intros w Ho; cbn; [done|]. intros [H1 H2]%andb_true_iff. apply IH; [by apply out_step|done].
Qed.
End SiteRun.
