(* ===== verification/SyncMirror.v ===== *)
(** * Desktop app: a device mirrors its account

    An entity that is edited elsewhere only: what a device holds of it is at every moment the
    content the account had at the device's cursor. *)

From stdpp Require Import base list strings gmap relations.
From Stdlib Require Import ZArith Ascii Lia.
From S2P Require Import Prelude Transactions JsString JsValue SyncWire SyncTables SyncLog SyncHistory SyncPush SyncGrowth SyncCalls SyncPull SyncReceipts SyncScan SyncClient SyncCycle SyncOutbox SyncOutboxSound SyncDevice SyncDeviceSound SyncDeviceRun.

(** ** An entity nobody works on *)

Section Idle.
Context (k : EntityKey) (uuid : nat → string) (sha256Hex : string → string) (JSON_parse : string → option json).

(** The entity has this binding, or none; no queued change, no conflict, and no other scope.
    The device is at a cursor. *)
Record idle_at (b : option SyncBinding * option string) (s : SyncStore) : Prop := {
  id_binding : ss_bindings s !! k = b.1;
  id_cursor : st_cursor (ss_state s) = b.2;
  id_foreign : k ∉ ss_foreign s;
  id_outbox : ∀ id r, ss_outbox s !! id = Some r → ob_entity r ≠ k;
  id_conflicts : ∀ id c, ss_conflicts s !! id = Some c → cf_entity c ≠ k;
}.

Definition rests (s s' : SyncStore) : Prop := ∀ b, idle_at b s → idle_at b s'.

#[export] Instance rests_preorder : PreOrder rests.
Proof. split; [intros s b Hs; exact Hs|]. intros x y z H1 H2 b Hx. by apply H2, H1. Qed.

Lemma rests_spares s s' : spares k s s' → rests s s'.
Proof.
  intros [S1 S2 S3 S4 S5] b [I1 I0 I2 I3 I4]. split; [congruence|congruence|by rewrite S4| |].
  - intros id r Hr He. apply (I3 id r); [|done]. by apply (S2 id r He).
  - intros id c Hc He. apply (I4 id c); [|done]. by apply (S3 id c He).
Qed.

Lemma rests_outbox f : (∀ m id r', f m !! id = Some r' → ∃ id0 r, m !! id0 = Some r ∧ ob_entity r' = ob_entity r) → moves rests (set_outbox f).
Proof.
  intros Hf s b [I1 I0 I2 I3 I4]. split; cbn; try done. intros id r' Hr. destruct (Hf _ _ _ Hr) as (id0 & r & Hr0 & ->). by eapply I3.
Qed.

Lemma rests_alter f id : (∀ r, ob_entity (f r) = ob_entity r) → moves rests (set_outbox (alter f id)).
Proof.
  intros Hf. apply rests_outbox. intros m j r' (r & Hr & ->)%alter_row_lookup. exists j, r. split; [done|]. by case_decide.
Qed.

Lemma rests_update p f : (∀ r, ob_entity (f r) = ob_entity r) → moves rests (set_outbox (update_rows p f)).
Proof.
  intros Hf. apply rests_outbox. intros m j r'. rewrite update_rows_lookup. intros (r & Hr & ->)%fmap_Some. exists j, r. split; [done|].
  by destruct (p r).
Qed.

Lemma rests_delete_where p : moves rests (set_outbox (delete_where p)).
Proof. apply rests_outbox. intros m j r' [Hr _]%delete_where_lookup. by exists j, r'. Qed.

Lemma rests_delete id : moves rests (set_outbox (delete id)).
Proof. apply rests_outbox. intros m j r' [_ Hr]%lookup_delete_Some. by exists j, r'. Qed.

Lemma rests_same s s' : ss_bindings s' = ss_bindings s → ss_foreign s' = ss_foreign s → ss_outbox s' = ss_outbox s →
  ss_conflicts s' = ss_conflicts s → st_cursor (ss_state s') = st_cursor (ss_state s) → rests s s'.
Proof. intros H1 H2 H3 H4 H5 b [I1 I0 I2 I3 I4]. split; rewrite ?H1, ?H2, ?H3, ?H4, ?H5; done. Qed.

Lemma rests_issues s s' : issues s s' → rests s s'.
Proof. intros [_ ->]. by apply rests_same. Qed.

Lemma rests_conflict id f : (∀ c, cf_entity (f c) = cf_entity c) → moves rests (set_conflicts (alter f id)).
Proof.
  intros Hf s b [I1 I0 I2 I3 I4]. split; cbn; try done. intros j c'. destruct (decide (id = j)) as [<-|Hj].
  - rewrite lookup_alter_eq. intros (c & Hc & ->)%fmap_Some. rewrite Hf. by eapply I4.
  - rewrite lookup_alter_ne by done. apply I4.
Qed.

Lemma rests_once c : cf_entity c ≠ k → moves rests (conflict_once uuid (cf_entity c) c).
Proof.
  intros Hc s. unfold conflict_once, getUnresolvedConflict, gets, mbind, M_bind. destruct (unresolved_conflict _ _); [easy|].
  unfold randomUUID, insert_row. cbn. destruct (ss_conflicts s !! uuid (ss_ids s)); [by apply rests_same|].
  intros b [I1 I0 I2 I3 I4]. split; cbn; try done. intros j c' [[_ <-]|[_ Hc']]%lookup_insert_Some; [done|by eapply I4].
Qed.

Lemma rests_resolve now id resolution : moves rests (resolveConflict now id resolution).
Proof.
  intros s. unfold resolveConflict, gets, mbind, M_bind. destruct (ss_conflicts s !! id); [|easy]. destruct (negb _); [easy|].
  by apply rests_conflict.
Qed.

Lemma rests_parse_null text : moves rests (parse_json_or_null JSON_parse text).
Proof. apply moves_reads; [apply _|]. apply parse_null_reads. Qed.

(** *** Recording, dispatching and settling changes of others *)

Lemma rests_coalesce input binding generation payload id row : moves rests (coalesce sha256Hex JSON_parse input binding generation payload id row).
Proof.
  unfold coalesce. destruct (_ && _).
  - apply moves_bind; [apply _|apply rests_delete|easy].
  - apply moves_bind; [apply _|apply rests_parse_null|]. intros p. apply moves_bind; [apply _|by apply rests_alter|easy].
Qed.

Lemma rests_enqueue now input binding generation payload : rl_entity input ≠ k → moves rests (enqueue uuid sha256Hex JSON_parse now input binding generation payload).
Proof.
  intros Hk. unfold enqueue. apply moves_bind; [apply _|easy|intros d].
  apply moves_bind; [apply _|intros s; apply rests_issues, issues_uuid|intros i]. apply moves_bind; [apply _|apply rests_parse_null|intros p].
  apply moves_bind; [apply _|easy|intros st]. apply moves_bind; [apply _| |easy]. intros s. unfold insert_row.
  destruct (ss_outbox s !! i); [easy|]. intros b [I1 I0 I2 I3 I4]. split; cbn; try done.
  intros j r [[_ <-]|[_ Hr]]%lookup_insert_Some; [done|by eapply I3].
Qed.

Lemma rests_record now input : rl_entity input ≠ k → moves rests (recordLocalChange uuid sha256Hex JSON_parse now input).
Proof.
  intros Hk. unfold recordLocalChange. apply moves_bind; [apply _|easy|intros bound].
  apply moves_bind; [apply _|destruct bound; [easy|intros s; by apply rests_spares, spares_upsert]|intros b].
  apply moves_bind; [apply _|intros s; apply rests_spares, moves_bindings; intros m; by apply lookup_alter_ne|intros _].
  apply moves_bind; [apply _|easy|intros pending]. destruct pending as [[id row]|]; [apply rests_coalesce|by apply rests_enqueue].
Qed.

Lemma rests_fill options candidates f : seals options → moves rests (fill_batch sha256Hex JSON_parse options candidates f).
Proof.
  intros Hs. revert f. induction candidates as [|[id row] rest IH]; intros f; cbn [fill_batch]; [easy|]. destruct (bool_decide _); [apply IH|].
  apply moves_bind; [apply _|easy|intros binding]. destruct (rebased_operation _ _) as [operation|].
  2:{ apply moves_bind; [apply _|apply rests_delete|intros _; apply IH]. }
  apply moves_bind; [apply _|apply rests_parse_null|intros payload].
  apply moves_bind; [apply _|intros s; by apply rests_issues, issues_wire|intros [wire|]]; [|apply IH]. cbv zeta.
  destruct (_ <? utf8ByteLength _); [apply moves_bind; [apply _|by apply rests_alter|intros _; apply IH]|].
  destruct (_ <? change_size _ _ _); [apply moves_bind; [apply _|by apply rests_alter|intros _; apply IH]|].
  destruct (_ <=? _); [easy|]. destruct (_ <? _); apply IH.
Qed.

Lemma rests_fence_row now r : ob_entity r.2 ≠ k → moves rests (fence_row uuid now r).
Proof.
  destruct r as [id row]. cbn. intros Hk. apply moves_bind; [apply _|by apply rests_alter|intros _].
  apply moves_bind; [apply _|easy|intros b]. by apply (rests_once (conflict_over _ _ _ _ _ _)).
Qed.

Lemma idle_rows b s p : idle_at b s → ∀ r, r ∈ outbox_rows p (ss_outbox s) → ob_entity r.2 ≠ k.
Proof. intros Hs [id r] [Hr _]%rows_by_elem. by eapply id_outbox. Qed.

Lemma rests_fence now e : moves rests (fenceOrphanedDispatches uuid now e).
Proof.
  intros s b Hs. unfold fenceOrphanedDispatches, gets, mbind, M_bind. refine ((_ : moves rests (for_each _ _ _)) s b Hs).
  apply for_each_moves; [apply _|]. intros r _ Hr. by eapply rests_fence_row, idle_rows.
Qed.

Lemma rests_fresh now e options : seals options → moves rests (fresh_batch sha256Hex JSON_parse now e options).
Proof.
  intros Hs. unfold fresh_batch. apply moves_bind; [apply _|easy|intros candidates]. apply moves_bind; [apply _|easy|intros [d|]]; [|easy].
  apply moves_bind; [apply _|by apply rests_fill|intros f]. apply moves_bind; [apply _| |intros _].
  - destruct (fl_batch f); [easy|]. apply moves_bind; [apply _|intros s; by apply rests_same|intros _].
    apply moves_bind; [apply _| |intros _ s; by apply rests_same]. apply for_each_moves; [apply _|]. intros [id sent] _ _. unfold dispatch_row.
    apply moves_bind; [apply _|easy|intros taken]. apply moves_bind; [apply _|destruct taken; easy|intros _]. by apply rests_alter.
  - apply moves_reads; [apply _|]. apply reads_wire.
Qed.

Lemma rests_nextBatch now e options : seals options → moves rests (nextBatch uuid sha256Hex JSON_parse now e options).
Proof.
  intros Hs. unfold nextBatch. apply moves_commit; [apply _|]. apply moves_moves_ok.
  apply moves_bind; [apply _|destruct (nb_onlyEntity options); [easy|apply rests_fence]|intros _].
  apply moves_bind; [apply _|easy|intros dispatched]. destruct (negb _); [easy|]. destruct dispatched as [|r l]; [by apply rests_fresh|].
  apply moves_reads; [apply _|]. apply (reads_wire JSON_parse (r :: l)).
Qed.

Lemma rests_result now result : moves rests (apply_result uuid now result).
Proof.
  intros s b Hs. unfold apply_result, gets, mbind at 1, M_bind at 1. destruct (ss_outbox s !! pu_changeId result) as [row|] eqn:Hrow; [|done].
  assert (Hk : ob_entity row ≠ k) by by eapply id_outbox. cbv zeta.
  assert (Hset : ∀ id st res, moves rests (settle_row id st res)) by (intros; by apply rests_alter).
  refine ((_ : moves rests _) s b Hs). destruct result as [id revision|id p n|id reason|id|id].
  - apply moves_bind; [apply _| |intros _; apply Hset]. intros x. apply rests_spares, moves_bindings. intros m. by apply lookup_alter_ne.
  - apply moves_bind; [apply _|easy|intros binding]. apply moves_bind; [apply _| |intros _; apply Hset].
    by apply (rests_once (conflict_over _ _ _ _ _ _)).
  - apply Hset.
  - apply moves_bind; [apply _|intros x; by apply rests_same|intros _; apply Hset].
  - apply moves_bind; [apply _|intros x; by apply rests_same|intros _; apply Hset].
Qed.

Lemma rests_results now results : moves rests (applyPushResults uuid now results).
Proof. apply moves_commit; [apply _|]. apply moves_moves_ok, for_each_moves; [apply _|]. intros x _ _. apply rests_result. Qed.

Lemma rests_sweep now : moves rests (sweepLocalSyncRetention now).
Proof.
  unfold sweepLocalSyncRetention. apply moves_bind; [apply _|apply rests_delete_where|intros _]. intros s b [I1 I0 I2 I3 I4]. split; cbn; try done.
  intros id c [Hc _]%delete_where_lookup. by eapply I4.
Qed.
End Idle.

(** ** A device that does not work on the entity *)

Section Mirror.
Context {D : Type} `{!EntityDomain D}.
Context (k : EntityKey) (uuid : nat → string) (sha256Hex : string → string) (JSON_parse : string → option json).
Context (backendId accountId : string) (gcmOpen : string → string → string → string → option string)
  (gcmSeal : string → string → string → string → string) (date_parse : string → option Z) (hosted : bool).

(** The entity rests and its content stays. *)
Definition calm (v v' : Device D) : Prop :=
  ∀ b, idle_at k b (dv_store v) → idle_at k b (dv_store v') ∧ readEntityPayloadJson (dv_domain v') k = readEntityPayloadJson (dv_domain v) k.

#[export] Instance calm_preorder : PreOrder calm.
Proof. split; [intros v b Hb; by split|]. intros x y z H1 H2 b Hx. destruct (H1 b Hx) as [Hy E1]. destruct (H2 b Hy) as [Hz E2]. split; [done|congruence]. Qed.

Lemma calm_store {A} (m : LS A) : moves (rests k) m → moves calm (on_store m).
Proof. intros Hm v b Hb. unfold on_store. specialize (Hm (dv_store v) b Hb). by destruct (m (dv_store v)). Qed.

Lemma calm_spared v v' : spared k v v' → calm v v'.
Proof. intros [Hs Hd] b Hb. split; [by eapply rests_spares|done]. Qed.

Lemma calm_reads {A} (m : V D A) : reads m → moves calm m.
Proof. intros Hm. apply moves_reads; [apply _|done]. Qed.

Lemma calm_idle {A} (m : V D A) v : ((∃ b, idle_at k b (dv_store v)) → calm v (m v).2) → calm v (m v).2.
Proof. intros H b Hb. apply H; [by exists b|done]. Qed.

Lemma calm_domain f : (∀ d, readEntityPayloadJson (f d) k = readEntityPayloadJson d k) → moves calm (on_domain f).
Proof. intros Hf v b Hb. split; [done|apply Hf]. Qed.

Lemma calm_paused now keys : k.1 ≠ SYNC_ENTITY_WORKSPACE_DEFINITION →
  moves calm (applyPausedWorkspaceChanges uuid JSON_parse backendId accountId gcmOpen now keys).
Proof.
  intros Hk. apply moves_commit; [apply _|]. apply moves_moves_ok. apply moves_bind; [apply _|easy|intros paused].
  apply for_each_moves; [apply _|]. intros [k' p] n _. unfold apply_paused. apply moves_bind; [apply _|easy|intros d].
  destruct (negb _ || _) eqn:E; [easy|]. apply orb_false_iff in E as [E _]. apply negb_false_iff, String.eqb_eq in E. cbv zeta.
  destruct (_ ≫= _) as [change|]; [|easy]. destruct (_ && _) eqn:Ec; [|easy]. apply andb_true_iff in Ec as [Ec%bool_decide_eq_true _].
  apply moves_bind; [apply _| |intros _].
  - intros v. apply calm_spared, apply_spares. rewrite Ec. congruence.
  - apply moves_bind; [apply _| |easy]. apply calm_store. intros s. by apply rests_same.
Qed.

Lemma calm_upsert k' base payload q : k' ≠ k → moves calm (on_store (upsertBinding k' base payload q)).
Proof. intros Hk. apply calm_store. intros s. by apply rests_spares, spares_upsert. Qed.
Lemma calm_set_base k' revision payload : k' ≠ k → moves calm (on_store (setBindingBase k' revision payload)).
Proof. intros Hk. apply calm_store. intros s. by apply rests_spares, spares_setBase. Qed.
Lemma calm_acknowledge k' : k' ≠ k → moves calm (on_store (acknowledgeBindingLocalEdits k')).
Proof. intros Hk. apply calm_store. intros s. by apply rests_spares, spares_acknowledge. Qed.
Lemma calm_parse text : moves calm (on_store (parse_json JSON_parse text)).
Proof. apply calm_store. intros s. apply rests_spares, spares_parse. Qed.
Lemma calm_record now input : rl_entity input ≠ k → moves calm (on_store (recordLocalChange uuid sha256Hex JSON_parse now input)).
Proof. intros Hk. by apply calm_store, rests_record. Qed.

Lemma calm_keep_local now k' c : k' ≠ k → moves calm (requeueEntityForKeepLocal uuid sha256Hex JSON_parse now k' c).
Proof.
  intros Hk. unfold requeueEntityForKeepLocal. cbv zeta. apply moves_bind; [apply _|by apply calm_set_base|intros _].
  apply moves_bind; [apply _|easy|intros pending]. destruct (negb _); [by apply calm_store, rests_update|].
  apply moves_bind; [apply _|easy|intros conflicted]. apply moves_bind; [apply _| |intros _].
  - apply for_each_moves; [apply _|]. intros r _ _. destruct (_ && _); apply calm_store; [apply rests_delete_where|by apply rests_update].
  - destruct conflicted; [|easy]. destruct (cf_localPayloadJson c); [|easy]. apply moves_bind; [apply _|apply calm_parse|intros payload].
    apply moves_bind; [apply _|by apply calm_record|easy].
Qed.

Lemma calm_take k' c : k' ≠ k → moves calm (take_remote JSON_parse k' c).
Proof.
  intros Hk. unfold take_remote. apply moves_bind; [apply _|apply calm_store, rests_delete_where|intros _].
  destruct (cf_remotePayloadJson c) as [text|].
  - apply moves_bind; [apply _|apply calm_parse|intros payload]. apply moves_bind; [apply _|by apply calm_domain; intros d; apply apply_other|intros _].
    apply moves_bind; [apply _|by apply calm_set_base|intros _]. by apply calm_acknowledge.
  - apply moves_bind; [apply _| |intros _].
    + apply calm_store. intros s. apply rests_spares, moves_bindings. intros m. by apply lookup_delete_ne.
    + apply moves_bind; [apply _|easy|intros [|]]; [easy|]. by apply calm_domain; intros d; apply delete_other.
Qed.

Lemma calm_resolve now id resolution : resolution ≠ rs_save_copy → moves calm (resolveSyncConflict uuid sha256Hex JSON_parse now id resolution).
Proof.
  intros Hr v b Hb. unfold resolveSyncConflict. rewrite run_gets. destruct (ss_conflicts (dv_store v) !! id) as [c|] eqn:Hc; [|split; [exact Hb|reflexivity]].
  assert (Hk : cf_entity c ≠ k) by by eapply id_conflicts. destruct (negb _); [split; [exact Hb|reflexivity]|]. refine ((_ : moves calm (commit _)) v b Hb).
  apply moves_commit; [apply _|]. apply moves_moves_ok, moves_bind; [apply _| |intros _; apply calm_store, rests_resolve].
  destruct resolution; [by apply calm_keep_local|by apply calm_take|done].
Qed.

Lemma calm_request now current e metadataOnly entityBytes pageBytes batchChanges :
  moves calm (push_request (D := D) uuid sha256Hex JSON_parse backendId accountId gcmSeal now current e metadataOnly entityBytes pageBytes batchChanges).
Proof. apply moves_bind; [apply _|easy|intros d]. apply calm_store, rests_nextBatch, push_seals. Qed.

Lemma calm_settle now keys batch items : moves calm (settle_push (D := D) uuid JSON_parse backendId accountId gcmOpen now keys batch items).
Proof.
  apply moves_outcome_bind; [apply _|]. intros results _. apply moves_bind; [apply _|apply calm_store, rests_results|intros _].
  apply calm_store. intros s. by apply rests_same.
Qed.

Lemma calm_reseal losing winner : moves calm (resealOutbox (D := D) uuid JSON_parse backendId accountId gcmOpen gcmSeal losing winner).
Proof.
  apply moves_bind; [apply _|easy|intros rows]. apply for_each_moves; [apply _|]. intros r _ _. apply calm_store. unfold reseal_row.
  destruct (_ ≫= _) as [plain|]; [|easy]. apply moves_bind; [apply _|intros s; apply rests_issues, issues_uuid|intros nonce]. by apply rests_update.
Qed.

(** *** What the user may do *)

(** Calls that do not work on the entity. *)
Definition elsewhere (c : LocalCall (D := D)) : Prop :=
  match c with
  | lc_record _ input => rl_entity input ≠ k
  | lc_edit _ k' _ _ _ domainWrite => k' ≠ k ∧ ∀ d, readEntityPayloadJson (domainWrite d) k = readEntityPayloadJson d k
  | lc_resolve _ _ resolution => resolution ≠ rs_save_copy
  | _ => True
  end.

Lemma calm_local c v : k.1 ≠ SYNC_ENTITY_WORKSPACE_DEFINITION → elsewhere c →
  calm v (run_local uuid sha256Hex JSON_parse backendId accountId gcmOpen gcmSeal c v).
Proof.
  intros Hw Hc. destruct c as [now id st|now id|now input|now k' n op build write|now id r|now keys|losing winner|now]; cbn [run_local elsewhere] in *.
  - refine ((_ : moves calm _) v). apply calm_store. intros s. by apply rests_same.
  - refine ((_ : moves calm _) v). apply calm_store. intros s. unfold revokeEnrollment, gets, mbind, M_bind.
    destruct (ss_enrollments s !! id); [by apply rests_same|easy].
  - refine ((_ : moves calm (commit _)) v). apply moves_commit; [apply _|]. apply moves_moves_ok. by apply calm_record.
  - destruct Hc as [Hk Hwr]. refine ((_ : moves calm (commit _)) v). apply moves_commit; [apply _|]. apply moves_moves_ok.
    apply moves_bind; [apply _|by apply calm_domain|intros _]. apply moves_bind; [apply _|by apply calm_store; easy|intros [b|]]; [|easy].
    apply moves_bind; [apply _|easy|intros d]. apply moves_bind; [apply _|by apply calm_record|easy].
  - by apply calm_resolve.
  - by apply calm_paused.
  - apply calm_reseal.
  - refine ((_ : moves calm _) v). apply calm_store, rests_sweep.
Qed.

(** ** Pulled changes of the entity *)

Context (clear : json → json).

(** What the account holds of the entity, as its devices read it. *)
Definition content (H : History) : option string :=
  match heads H !! k with Some (_, e) => se_payload e ≫= λ p, projected k (clear p) | None => None end.

(** The keys open the change, and it is one this version of the program knows. *)
Definition readable (keys : Z → option string) (change : SyncedChange) : Prop :=
  ∀ payload, sy_entity change = k → sy_payload change = Some payload →
    (∃ text, to_domain JSON_parse backendId accountId gcmOpen keys k (Some payload) = wire_domain (Some text) ∧ JSON_parse text = Some (clear payload)) ∧
    entityPayloadIssue k.1 (clear payload) = None ∧ schema_version_of k.1 = Some (sy_schemaVersion change).

(** The binding a device has of an entity at rest. *)
Definition bound_at (head : option (Z * ScannedEntity)) (b : option SyncBinding) : Prop :=
  match head, b with
  | None, None => True
  | Some (_, e), None => se_operation e = op_delete
  | Some (_, e), Some b => bi_baseRevision b = Some (se_revision e) ∧ bi_localEditGeneration b ≤ bi_acknowledgedGeneration b
  | None, Some _ => False
  end.

(** The device's copy is the content of the account. *)
Definition mirrors (H : History) (cur : option string) (v : Device D) : Prop :=
  ∃ b, idle_at k (b, cur) (dv_store v) ∧ bound_at (heads H !! k) b ∧ readEntityPayloadJson (dv_domain v) k = content H.

Lemma mirrors_calm H cur v v' : calm v v' → mirrors H cur v → mirrors H cur v'.
Proof. intros Hc (b & Hb & Hat & Hd). destruct (Hc _ Hb) as [Hb' Hd']. exists b. split_and!; [done|done|congruence]. Qed.

Lemma mirrors_other H e cur v : se_entity e ≠ k → mirrors H cur v → mirrors (H ++ [e]) cur v.
Proof. intros He (b & Hb & Hat & Hd). exists b. unfold content. rewrite heads_snoc, lookup_insert_ne by done. done. Qed.

Context (Hwhole : applied_whole k.1 = true) (Hcrypto : isCryptoBoundaryEntityType k.1 = false)
  (Hworkspace : k.1 ≠ SYNC_ENTITY_WORKSPACE_DEFINITION) (Hsupported : isSupportedEntityType k.1 = true).
Notation applySyncedChange := (applySyncedChange uuid JSON_parse backendId accountId gcmOpen).

Lemma idle_unsynced b cur s : idle_at k (Some b, cur) s → bi_localEditGeneration b ≤ bi_acknowledgedGeneration b → unsynced k b s = false.
Proof.
  intros [_ _ _ Ho _] Hg. unfold unsynced. destruct (Z.ltb_spec (bi_acknowledgedGeneration b) (bi_localEditGeneration b)); [lia|].
  cbn. apply negb_false_iff, mutable_none. intros id r Hr Hk. by destruct (Ho _ _ Hr).
Qed.

Lemma idle_resolved b s : idle_at k b s → unresolved_conflict k (ss_conflicts s) = None.
Proof. intros [_ _ _ _ Hc]. apply unresolved_none. intros id c Hc' Hk. by destruct (Hc _ _ Hc'). Qed.

(** Setting the base of an entity at rest, and its content. *)
Lemma adopt_bound b cur s revision payload : idle_at k (Some b, cur) s →
  idle_at k (Some (with_quarantine None (with_generations (bi_localEditGeneration b) (bi_localEditGeneration b) (with_base revision payload b))), cur)
    (put_bindings (alter (with_quarantine None) k (alter (λ b, with_generations (bi_localEditGeneration b) (bi_localEditGeneration b) b) k
      (alter (with_base revision payload) k (ss_bindings s)))) s).
Proof. intros [I1 I0 I2 I3 I4]. split; cbn; try done. by rewrite !lookup_alter_eq, I1. Qed.

Lemma adopt_new cur s base payload : idle_at k (None, cur) s → ∃ b, idle_at k (Some b, cur) (upsertBinding k base payload None s).2 ∧
  (upsertBinding k base payload None s).1 = Ok b ∧ bi_baseRevision b = base ∧ bi_localEditGeneration b = 0 ∧ bi_acknowledgedGeneration b = 0.
Proof.
  intros [I1 I0 I2 I3 I4]. unfold upsertBinding, getBinding, gets, mbind, M_bind. cbn. rewrite I1, lookup_insert_eq. cbn. eexists. split_and!; try done.
  split; cbn; try done. by rewrite lookup_insert_eq.
Qed.

Lemma set_base_run revision payload b cur (v : Device D) u v' : idle_at k (Some b, cur) (dv_store v) → on_store (setBindingBase k revision payload) v = (Ok u, v') →
  v' = {| dv_store := put_bindings (alter (with_base revision payload) k (ss_bindings (dv_store v))) (dv_store v); dv_domain := dv_domain v |}.
Proof.
  intros [I1 _ _ _ _]. unfold on_store, setBindingBase, getBinding, gets, mbind, M_bind. rewrite I1. cbn. by intros [= _ <-].
Qed.

Lemma set_quarantine_run q (v : Device D) u v' : is_Some (ss_bindings (dv_store v) !! k) → on_store (setBindingQuarantine k q) v = (Ok u, v') →
  v' = {| dv_store := put_bindings (alter (with_quarantine q) k (ss_bindings (dv_store v))) (dv_store v); dv_domain := dv_domain v |}.
Proof.
  intros [b Hb]. unfold on_store, setBindingQuarantine, getBinding, gets, mbind, M_bind. rewrite Hb. cbn. by intros [= _ <-].
Qed.

Lemma parse_run text (v : Device D) payload v' : parse_payload JSON_parse text v = (Ok payload, v') → payload = text ≫= JSON_parse ∧ v' = v.
Proof.
  destruct text as [t|]; cbn; [|by intros [= <- <-]]. unfold mbind, M_bind, on_store, parse_json. destruct v as [s d]. cbn.
  by destruct (JSON_parse t); intros [= <- <-].
Qed.

(** The content after a change. *)
Definition projection (operation : SyncOperation) (payload : jsval) : D → D :=
  match operation with op_delete => deleteLocalEntity k | _ => applyRemoteEntityPayload k payload end.

Definition adopted (revision : Z) (operation : SyncOperation) (text cur : option string) (v v' : Device D) : Prop :=
  ∃ b, idle_at k (Some b, cur) (dv_store v') ∧ bi_baseRevision b = Some revision ∧ bi_localEditGeneration b ≤ bi_acknowledgedGeneration b ∧
    dv_domain v' = projection operation (text ≫= JSON_parse) (dv_domain v).

(** A newer change of a bound entity at rest is applied. *)
Lemma bound_run now change b text cur v u v' : sy_entity change = k → idle_at k (Some b, cur) (dv_store v) →
  bi_localEditGeneration b ≤ bi_acknowledgedGeneration b → seen_revision (sy_revision change) (Some b) = false →
  apply_bound uuid JSON_parse now change b text None v = (Ok u, v') → adopted (sy_revision change) (sy_operation change) text cur v v'.
Proof.
  intros Hk Hb Hg Hseen H. unfold apply_bound in H. rewrite Hseen, Hk in H. unfold getUnresolvedConflict in H. rewrite run_store_gets, (idle_resolved _ _ Hb) in H.
  rewrite run_gets, (idle_unsynced _ _ _ Hb Hg) in H. cbn [andb] in H. unfold writeBindingBase in H.
  apply bind_Ok in H as (u1 & v2 & H2 & H). step_back H2 u0 v1 H1. apply (set_base_run _ _ _ _ _ _ _ Hb) in H1. subst v1.
  injection H2 as _ <-. step_back H u3 v3 H3.
  eapply set_quarantine_run in H3; [|cbn; rewrite !lookup_alter_eq, (id_binding _ _ _ Hb); by eexists]. subst v3.
  step_back H payload v4 H4. injection H as _ <-. apply parse_run in H4 as [-> ->].
  pose proof (adopt_bound b cur (dv_store v) (Some (sy_revision change)) text Hb) as Hi.
  eexists. split; [exact Hi|]. cbn. split_and!; [done|lia|]. by destruct (sy_operation change).
Qed.

(** A first change of an entity at rest is applied. *)
Lemma unbound_run now change text cur v u v' : sy_entity change = k → idle_at k (None, cur) (dv_store v) → sy_operation change ≠ op_delete →
  readEntityPayloadJson (dv_domain v) k = None →
  apply_unbound uuid JSON_parse now change text None v = (Ok u, v') → adopted (sy_revision change) (sy_operation change) text cur v v'.
Proof.
  intros Hk Hb Hop Hr H. unfold apply_unbound in H. rewrite Hk, bool_decide_false in H by done. rewrite run_local_payload, run_gets, Hr in H.
  assert (Hbound : bound_anywhere k (dv_store v) = false).
  { unfold bound_anywhere. rewrite (id_binding _ _ _ Hb), bool_decide_false by (by intros [? ?]). apply bool_decide_false, Hb. }
  rewrite Hbound in H. step_back H b v1 H1. destruct (adopt_new cur (dv_store v) (Some (sy_revision change)) text Hb) as (b' & K1 & K2 & K3 & K4 & K5).
  step_back H payload v2 H2. apply parse_run in H2 as [-> ->]. injection H as _ <-.
  assert (Hv1 : dv_store v1 = (upsertBinding k (Some (sy_revision change)) text None (dv_store v)).2 ∧ dv_domain v1 = dv_domain v).
  { unfold on_store in H1. destruct (upsertBinding _ _ _ _ _) as [r s]. by injection H1 as _ <-. }
  destruct Hv1 as [E1 E2]. exists b'. cbn. rewrite E1, E2. split_and!; [done|done|lia|]. by destruct (sy_operation change).
Qed.

(** The head after a change of the entity. *)
Lemma content_snoc H e : se_entity e = k → content (H ++ [e]) = se_payload e ≫= λ p, projected k (clear p).
Proof. intros He. unfold content. by rewrite heads_snoc, He, lookup_insert_eq. Qed.

Lemma adopted_mirrors H e text cur v v' : extends H e → se_entity e = k → adopted (se_revision e) (se_operation e) text cur v v' →
  (se_payload e = None → text = None) → (∀ p, se_payload e = Some p → ∃ t, text = Some t ∧ JSON_parse t = Some (clear p) ∧
    entityPayloadIssue k.1 (clear p) = None) →
  mirrors (H ++ [e]) cur v'.
Proof.
  intros (_ & Hp & _ & _) He (b & Hb & Hr & Hg & Hd) Hnone Hsome. exists (Some b). split; [done|]. split.
  - rewrite heads_snoc, He, lookup_insert_eq. done.
  - rewrite content_snoc, Hd by done. destruct (se_payload e) as [p|] eqn:Ep.
    + destruct (Hsome p eq_refl) as (t & -> & Ht & Hi). cbn. rewrite Ht. assert (Hop : se_operation e ≠ op_delete).
      { intros Ho. by apply Hp in Ho. }
      destruct (se_operation e); [by apply apply_read|by apply apply_read|done].
    + rewrite (Hnone eq_refl). assert (se_operation e = op_delete) as -> by by apply Hp. by apply delete_read.
Qed.

(** A change of the entity itself. *)
Lemma mirror_own now keys H n e cur v u v' : wf_history (H ++ [e]) → se_entity e = k → readable keys (synced_entry (n, e)) → mirrors H cur v →
  applySyncedChange now keys (synced_entry (n, e)) v = (Ok u, v') → mirrors (H ++ [e]) cur v'.
Proof.
  intros [Hw Hx]%wf_snoc_inv He Hread (b & Hb & Hat & Hd) Hrun. pose proof Hx as (Hrev & Hp & Hc & _). rewrite He in Hrev, Hc.
  unfold SyncDevice.applySyncedChange in Hrun. cbn [synced_entry sy_entity fst snd] in Hrun. rewrite He, Hcrypto in Hrun.
  rewrite run_gets in Hrun. unfold getBinding in Hrun. rewrite run_store_gets, (id_binding _ _ _ Hb) in Hrun.
  assert (is_paused_workspace (dv_domain v) k = false) as Hnp by (unfold is_paused_workspace; by rewrite (proj2 (String.eqb_neq _ _) Hworkspace)).
  rewrite Hnp in Hrun. cbn [synced_entry sy_payload sy_operation sy_schemaVersion fst snd] in Hrun.
  assert (∃ text, to_domain JSON_parse backendId accountId gcmOpen keys k (se_payload e) = wire_domain text ∧
    (se_payload e = None → text = None) ∧ (∀ p, se_payload e = Some p → ∃ t, text = Some t ∧ JSON_parse t = Some (clear p) ∧
      entityPayloadIssue k.1 (clear p) = None) ∧
    (if bool_decide (se_operation e = op_delete) then if isSupportedEntityType k.1 then None else Some "unsupported-entity-type"
     else entityQuarantineReason JSON_parse k.1 (se_schemaVersion e) text) = None) as (text & Ht & Hn & Hs & Hq).
  { destruct (se_payload e) as [p|] eqn:Ep.
    - destruct (Hread p He Ep) as ((text & Ht & Hj) & Hi & Hv). exists (Some text). split_and!; [done|done| |].
      + intros p' [= <-]. by exists text.
      + assert (Ho : se_operation e ≠ op_delete) by (intros Ho; by apply Hp in Ho). rewrite bool_decide_false by done.
        unfold entityQuarantineReason. rewrite Hv. cbn. by rewrite Z.eqb_refl, Hj.
    - exists None. split_and!; [done|done|done|]. rewrite bool_decide_true by by apply Hp. by rewrite Hsupported. }
  rewrite Ht, Hq in Hrun.
  destruct b as [b|].
  - destruct (heads H !! k) as [[m x]|] eqn:Eh; [|done]. destruct Hat as [Hbase Hg]. eapply adopted_mirrors; [done|done| |done|done].
    apply (bound_run now (synced_entry (n, e)) b text cur v u v'); [done|done|done| |done]. unfold seen_revision. cbn. rewrite Hbase.
    unfold next_revision in Hrev. rewrite Eh in Hrev. apply Z.leb_gt. lia.
  - assert (Hdel : se_operation e = op_delete ∨ readEntityPayloadJson (dv_domain v) k = None).
    { right. rewrite Hd. unfold content. destruct (heads H !! k) as [[m x]|] eqn:Eh; [|done]. cbn in Hat.
      apply heads_entry in Eh as [Ex _]. by rewrite (wf_delete_payload _ _ _ Hw Ex Hat). }
    destruct (decide (se_operation e = op_delete)) as [Ho|Ho].
    + unfold apply_unbound in Hrun. cbn [sy_operation synced_entry snd fst] in Hrun. rewrite bool_decide_true in Hrun by done. injection Hrun as _ <-.
      exists None. split; [done|]. rewrite content_snoc, heads_snoc, He, lookup_insert_eq by done. split; [done|].
      assert (se_payload e = None) as -> by by apply Hp. rewrite Hd. unfold content. cbn.
      destruct (heads H !! k) as [[m x]|] eqn:Eh; [|done]. apply heads_entry in Eh as [Ex _]. by rewrite (wf_delete_payload _ _ _ Hw Ex Hat).
    + destruct Hdel as [Hdel|Hdel]; [done|]. eapply adopted_mirrors; [done|done| |done|done].
      by apply (unbound_run now (synced_entry (n, e)) text cur v u v').
Qed.

(** A pulled page is the next part of the history. *)
Definition next_entries (H : History) (c : Z) (changes : list SyncedChange) : Prop :=
  ∀ i change, changes !! i = Some change → ∃ e, entry_at H (c + 1 + Z.of_nat i) = Some e ∧ change = synced_entry (c + 1 + Z.of_nat i, e).

Lemma mirror_entries now keys H c changes cur v u v' : wf_history H → 0 ≤ c → next_entries H c changes → Forall (readable keys) changes →
  mirrors (upto c H) cur v →
  for_each (map synced_json changes) (λ raw _, match toSyncedChange raw with
      | None => throw (malformed_answer "sync.pull returned a malformed change")
      | Some change => applySyncedChange now keys change end) tt v = (Ok u, v') →
  mirrors (upto (c + Z.of_nat (length changes)) H) cur v'.
Proof.
  intros Hw. revert c v. induction changes as [|change changes IH]; intros c v Hc Hn Hr Hm Hrun; cbn [map for_each] in Hrun.
  { injection Hrun as _ <-. cbn. by rewrite Z.add_0_r. }
  destruct (Hn 0%nat change eq_refl) as (e & He & ->). rewrite Z.add_0_r in He, Hrun, Hr. rewrite Z.add_0_r in Hn.
  rewrite toSyncedChange_json in Hrun by (by eapply wf_named). step_back Hrun w v1 H1. destruct w. inversion_clear Hr as [|? ? Hr1 Hr2].
  assert (Hu : upto (c + 1) H = upto c H ++ [e]) by by apply upto_succ.
  assert (Hm1 : mirrors (upto (c + 1) H) cur v1).
  { rewrite Hu. destruct (decide (se_entity e = k)) as [Hk|Hk].
    - eapply mirror_own; [rewrite <- Hu; by apply wf_upto|done|exact Hr1|exact Hm|exact H1].
    - apply mirrors_other; [done|]. eapply mirrors_calm; [|exact Hm]. apply calm_spared.
      pose proof (apply_spares uuid JSON_parse backendId accountId gcmOpen k now keys (synced_entry (c + 1, e)) Hk v) as Hs. by rewrite H1 in Hs. }
  cbn [length]. replace (c + Z.of_nat (S (length changes))) with (c + 1 + Z.of_nat (length changes)) by lia.
  apply (IH (c + 1) v1); [lia| |done|done|done]. intros i x Hx. destruct (Hn (S i) x Hx) as (e' & He' & ->).
  exists e'. replace (c + 1 + 1 + Z.of_nat i) with (c + 1 + Z.of_nat (S i)) by lia. done.
Qed.

(** ** A device that pulls *)

Notation site_step := (site_step uuid sha256Hex JSON_parse backendId accountId gcmOpen gcmSeal date_parse hosted).
Notation run_site := (run_site uuid sha256Hex JSON_parse backendId accountId gcmOpen gcmSeal date_parse hosted).
Implicit Types (w : Site (D := D)).

Definition at_cursor (c : Z) (cur : option string) : Prop :=
  match cur with None => c = 0 | Some t => t = int_to_string c end.

(** A page that has been pulled and is to be applied. *)
Definition page_next (H : History) (c : Z) (p : Phase) : Prop :=
  match p with
  | ph_pulled page => next_entries H c (pr_changes page) ∧ pr_nextCursor page = c + Z.of_nat (length (pr_changes page)) ∧
      c + Z.of_nat (length (pr_changes page)) ≤ len H
  | _ => True
  end.

(** The device's copy is the content of the account at the device's cursor. *)
Definition follows (H : History) (c : Z) w : Prop :=
  represents H (si_db w) ∧ 0 ≤ c ≤ len H ∧ page_next H c (si_phase w) ∧
  ∃ cur, at_cursor c cur ∧ mirrors (upto c H) cur (si_device w).

(** Events that leave the entity to other devices; pages of its changes can be read. *)
Definition leaves (e : SiteEvent (D := D)) w : Prop :=
  match e, si_phase w with
  | sx_local c, _ => elsewhere c
  | sx_rebuild _ _ _, _ => False
  | sx_apply _ keys, ph_pulled page => Forall (readable keys) (pr_changes page)
  | _, _ => True
  end.

Fixpoint leaves_all (es : list (SiteEvent (D := D))) w : Prop :=
  match es with [] => True | e :: es' => leaves e w ∧ leaves_all es' (site_step e w) end.

Lemma entries_grow H H' c changes : next_entries H c changes → next_entries (H ++ H') c changes.
Proof.
  intros Hn i change Hi. destruct (Hn i change Hi) as (e & He & ->). exists e. split; [|done]. pose proof (entry_at_range _ _ _ He).
  by rewrite entry_at_app by lia.
Qed.

Lemma page_grow H H' c p : page_next H c p → page_next (H ++ H') c p.
Proof.
  destruct p; try done. intros (Hn & Hc & Hl). split_and!; [by apply entries_grow|done|]. unfold len in *. rewrite length_app. lia.
Qed.

(** The account's history grows, and the device stays calm. *)
Lemma follows_step H c w w' : follows H c w → evolves (si_db w) (si_db w') → calm (si_device w) (si_device w') →
  (∀ H', page_next (H ++ H') c (si_phase w) → page_next (H ++ H') c (si_phase w')) → ∃ H', follows H' c w'.
Proof.
  intros (Hs & Hc & Hp & cur & Hcur & Hm) [Hg _] Hcalm Hph. destruct (Hg H Hs) as [H' Hs']. exists (H ++ H'). split_and!; [done|lia| | |].
  - unfold len in *. rewrite length_app. lia.
  - apply Hph. by apply page_grow.
  - exists cur. split; [done|]. rewrite upto_app by lia. by eapply mirrors_calm.
Qed.

Lemma idle_cursor b cur next now s : idle_at k (b, cur) s → idle_at k (b, Some next) (updateSyncState (patch_cursor next (Some now) None) s).2.
Proof. intros [I1 I0 I2 I3 I4]. by split. Qed.

(** Applying a page moves the cursor past it. *)
Lemma follows_apply now keys H c v cur page : wf_history H → 0 ≤ c → next_entries H c (pr_changes page) →
  pr_nextCursor page = c + Z.of_nat (length (pr_changes page)) → Forall (readable keys) (pr_changes page) →
  at_cursor c cur → mirrors (upto c H) cur v →
  let v' := (applyPullPage uuid JSON_parse backendId accountId gcmOpen now keys (map synced_json (pr_changes page)) (int_to_string (pr_nextCursor page)) v).2 in
  ∃ c' cur', (c' = c ∨ c' = pr_nextCursor page) ∧ at_cursor c' cur' ∧ mirrors (upto c' H) cur' v'.
Proof.
  intros Hw Hc Hn Hnext Hr Hcur Hm. cbv zeta. unfold applyPullPage, commit. match goal with |- context [let (_, _) := ?x in _] => destruct x as [[u|e] v'] eqn:E end.
  2:{ exists c, cur. cbn. by split_and!; [left|..]. }
  cbn [snd]. step_back E w v1 H1. destruct w. pose proof (mirror_entries _ _ _ _ _ _ _ _ _ Hw Hc Hn Hr Hm H1) as (b & Hb & Hat & Hd).
  rewrite <- Hnext in Hat, Hd. exists (pr_nextCursor page), (Some (int_to_string (pr_nextCursor page))). split_and!; [by right|done|].
  pose proof (idle_cursor b cur (int_to_string (pr_nextCursor page)) now (dv_store v1) Hb) as Hi.
  unfold on_store in E. destruct (updateSyncState _ (dv_store v1)) as [r s]. injection E as _ <-. by exists b.
Qed.

(** The page a pull answers is the next part of the history. *)
Lemma pull_next H s pageBytes c cur page s' : represents H s → 0 ≤ c ≤ len H → at_cursor c cur →
  handlePull (pull_request_json cur pageBytes) s = (Ok page, s') → page_next H c (ph_pulled page).
Proof.
  intros Hs Hc Hcur Hrun. pose proof (pull_answer H s (pull_request_json cur pageBytes) Hs) as Ha. rewrite Hrun in Ha. cbn [fst] in Ha.
  unfold pull_from in Ha. destruct (parseSpikePullParams (pull_request_json cur pageBytes)) as [pull|e] eqn:Ep; [|done].
  assert (Hp : pl_cursor pull = c).
  { destruct cur as [t|]; cbn in Hcur; [subst t; by apply (parse_pull_text pageBytes c pull); [lia|exact Ep]|subst c].
    unfold parseSpikePullParams in Ep. apply outcome_bind_Ok in Ep as (u & _ & Ep). apply outcome_bind_Ok in Ep as (z & Hz & Ep).
    injection Hz as <-. apply outcome_bind_Ok in Ep as (b & _ & Ep). by injection Ep as <-. }
  destruct (pl_cursor pull <? _) eqn:El; [by destruct Ha as (e & [=] & _)|]. injection Ha as ->. unfold history_pull. cbn [pr_changes pr_nextCursor].
  rewrite Hp. unfold history_page. rewrite Hp. match goal with |- context [page_of ?b ?m ?l 0 0] => destruct (page_of_prefix b m l 0 0) as [rest Hrest]; set (page := page_of b m l 0 0) in * end.
  split_and!; [|done|].
  - intros i change Hi. pose proof (changes_from_lookup H c i ltac:(lia)) as Hl. rewrite Hrest, (lookup_app_l_Some _ _ _ _ Hi) in Hl.
    replace (c + Z.of_nat i + 1) with (c + 1 + Z.of_nat i) in Hl by lia. destruct (entry_at H (c + 1 + Z.of_nat i)) as [e|]; [|done].
    injection Hl as ->. by exists e.
  - pose proof (changes_from_length H c) as Hlen. rewrite Hrest, length_app in Hlen. unfold len in *. cbn [pr_changes]. lia.
Qed.

Lemma same_evolves s : evolves s s.
Proof. done. Qed.

Lemma flag_calm codes e v : calm v (flag_reset codes e v).
Proof.
  unfold flag_reset. destruct (match err_code e with Some c => _ | None => _ end); [|easy].
  refine ((_ : moves calm _) v). apply calm_store. intros s. by apply rests_same.
Qed.

Lemma answer_evolves now auth params s : evolves s (handlePush sha256Hex date_parse hosted now auth params s).2.
Proof. apply (call_evolves sha256Hex date_parse hosted (call_push now auth params)). Qed.

Lemma page_evolves params s : evolves s (handlePull params s).2.
Proof. apply (call_evolves sha256Hex date_parse hosted (call_pull params)). Qed.

Lemma follows_any H c e w : follows H c w → leaves e w → ∃ H' c', follows H' c' (site_step e w).
Proof.
  intros Hf Hl. assert (Hcalm : ∀ w', evolves (si_db w) (si_db w') → calm (si_device w) (si_device w') →
    (∀ H', page_next (H ++ H') c (si_phase w) → page_next (H ++ H') c (si_phase w')) → ∃ H' c', follows H' c' w').
  { intros w' H1 H2 H3. destruct (follows_step H c w w' Hf H1 H2 H3) as [H' Hf']. by exists H', c. }
  destruct e as [call|call|now current en m eb pb bc|now auth epoch|now keys|pb|now keys| |now staging cursor]; cbn [SyncDevice.site_step leaves] in *.
  - apply Hcalm; [apply call_evolves|easy|done].
  - apply Hcalm; [easy|by apply calm_local|done].
  - destruct (si_phase w) eqn:Hp; try (apply Hcalm; rewrite ?Hp; easy).
    pose proof (calm_request now current en m eb pb bc (si_device w)) as Hk. destruct (push_request _ _ _ _ _ _ _ _ _ _ _ _ _ _) as [[[|x l]|err] v]; by apply Hcalm.
  - destruct (si_phase w) eqn:Hp; try (apply Hcalm; rewrite ?Hp; easy). pose proof (answer_evolves now auth (push_request_json batch epoch) (si_db w)) as Hk.
    destruct (handlePush _ _ _ _ _ _ _) as [[o|err] s]; [apply Hcalm; [done|easy|done]|apply Hcalm; [done|apply flag_calm|done]].
  - destruct (si_phase w) eqn:Hp; try (apply Hcalm; rewrite ?Hp; easy). apply Hcalm; [easy|apply calm_settle|done].
  - destruct (si_phase w) eqn:Hp; try (apply Hcalm; rewrite ?Hp; easy).
    pose proof (page_evolves (pull_request_json (st_cursor (ss_state (dv_store (si_device w)))) pb) (si_db w)) as Hk.
    destruct (handlePull _ _) as [[page|err] s] eqn:E; [|apply Hcalm; [done|apply flag_calm|done]].
    destruct Hf as (Hs & Hc & _ & cur & Hcur & Hm). pose proof Hm as (b & Hb & _). pose proof (id_cursor _ _ _ Hb) as Hst. cbn in Hst. rewrite Hst in E.
    pose proof (pull_next _ _ _ _ _ _ _ Hs Hc Hcur E) as Hn. destruct Hk as [Hg _]. destruct (Hg H Hs) as [H' Hs']. exists (H ++ H'), c.
    split_and!; [done|lia|unfold len in *; rewrite length_app; lia|by apply page_grow|]. exists cur. split; [done|]. by rewrite upto_app by lia.
  - destruct (si_phase w) as [| | |page] eqn:Hp; try (apply Hcalm; rewrite ?Hp; easy).
    destruct Hf as (Hs & Hc & Hn & cur & Hcur & Hm). rewrite Hp in Hn. destruct Hn as (Hn & Hnext & Hle).
    destruct (follows_apply now keys H c (si_device w) cur page (rp_wf _ _ Hs) ltac:(lia) Hn Hnext Hl Hcur Hm) as (c' & cur' & Hc' & Hcur' & Hm').
    exists H, c'. split_and!; [done|lia|lia|done|]. by exists cur'.
  - apply Hcalm; [easy|easy|done].
  - done.
Qed.

Lemma follows_run es : ∀ H c w, follows H c w → leaves_all es w → ∃ H' c', follows H' c' (run_site es w).
Proof.
  induction es as [|e es IH]; intros H c w Hf Hl; cbn; [by exists H, c|]. destruct Hl as [Hl Hls].
  destruct (follows_any _ _ _ _ Hf Hl) as (H1 & c1 & Hf1). by eapply IH.
Qed.

Lemma initial_follows (d : D) : readEntityPayloadJson d k = None → follows [] 0 (initial_site d).
Proof.
  intros Hd. split_and!; [apply represents_initial|done|done|done|]. exists None. split; [done|]. exists None. split; [|done]. split; cbn; try done.
Qed.
End Mirror.
