(* ===== verification/SyncEntities.v ===== *)
(** * Desktop app: the tables of workflow templates and editable agents

    Two of the four kinds of entities that are synchronised, [sync-entity-domain.ts]: what is
    sent of a row, what is stored of a payload, and that this is what the engine expects of
    the tables of entities.  Workspaces and settings are left out: a device without them. *)

From stdpp Require Import base list strings gmap.
From Stdlib Require Import ZArith Ascii.
From S2P Require Import Prelude Transactions JsString JsValue SyncWire SyncTables SyncLog SyncClient SyncOutbox SyncDevice.

Definition SYNC_ENTITY_WORKFLOW_TEMPLATE : string := "workflow-template".
Definition SYNC_ENTITY_EDITABLE_AGENT : string := "editable-agent".

(** ** Rows *)

Record TemplateRow := { wt_name : string; wt_description : string; wt_graph_json : string }.

Record EditableAgentRow := {
  ea_name : string;
  ea_description : string;
  ea_icon : string;
  ea_colour : string;
  ea_prompt_body : string;
  ea_can_write_files : bool;
  ea_can_run_commands : bool;
  ea_can_read_files : bool;
}.

Record Entities := { en_templates : gmap string TemplateRow; en_agents : gmap string EditableAgentRow }.

Definition put_templates f d := {| en_templates := f (en_templates d); en_agents := en_agents d |}.
Definition put_agents f d := {| en_templates := en_templates d; en_agents := f (en_agents d) |}.

(** A field of an object, [undefined] when it has none. *)
Definition field_of (k : string) (p : json) : jsval := prop k (Some p).
Definition optional_field (k : string) (v : jsval) : list (string * json) := match v with Some x => [(k, x)] | None => [] end.

Definition is_array (v : jsval) : bool := match v with Some (JArr _) => true | _ => false end.

Definition string_or (fallback : string) (v : jsval) : string := match v with Some (JStr s) => s | _ => fallback end.

Section Entities.
Context (JSON_parse : string → option json).

(** ** Workflow templates *)

(** [v ?? []]. *)
Definition or_empty (v : jsval) : json := match v with None | Some JNull => JArr [] | Some x => x end.

(** Nodes, edges and orchestration of a stored graph; none of them for a malformed one. *)
Definition stored_graph (graph_json : string) : json * json * jsval :=
  match JSON_parse graph_json with
  | Some graph =>
      if isRecord (Some graph)
      then (or_empty (field_of "nodes" graph), or_empty (field_of "edges" graph), field_of "orchestration" graph)
      else (JArr [], JArr [], None)
  | None => (JArr [], JArr [], None)
  end.

Definition buildWorkflowPayload (id : string) (d : Entities) : option json :=
  match en_templates d !! id with
  | None => None
  | Some row =>
      let '(nodes, edges, orchestration) := stored_graph (wt_graph_json row) in
      Some (JObj ([("id", JStr id); ("name", JStr (wt_name row)); ("description", JStr (wt_description row)); ("nodes", nodes);
        ("edges", edges)] ++ optional_field "orchestration" orchestration))
  end.

Definition validateWorkflowPayload (payload : jsval) : bool :=
  isRecord payload && is_array (prop "nodes" payload) && is_array (prop "edges" payload).

Definition template_row (payload : jsval) : TemplateRow := {|
  wt_name := string_or "" (prop "name" payload);
  wt_description := string_or "" (prop "description" payload);
  wt_graph_json := JSON_stringify (JObj (optional_field "nodes" (prop "nodes" payload) ++
    optional_field "edges" (prop "edges" payload) ++ optional_field "orchestration" (prop "orchestration" payload))) |}.

Definition applyWorkflowPayload (id : string) (payload : jsval) (d : Entities) : Entities :=
  if negb (validateWorkflowPayload payload) then d else put_templates <[id := template_row payload]> d.

(** ** Editable agents *)

Definition buildAgentPayload (id : string) (d : Entities) : option json :=
  match en_agents d !! id with
  | None => None
  | Some a => Some (JObj [("id", JStr id); ("name", JStr (ea_name a)); ("description", JStr (ea_description a));
      ("icon", JStr (ea_icon a)); ("colour", JStr (ea_colour a)); ("promptBody", JStr (ea_prompt_body a));
      ("capabilities", JObj [("canWriteFiles", JBool (ea_can_write_files a)); ("canRunCommands", JBool (ea_can_run_commands a));
        ("canReadFiles", JBool (ea_can_read_files a))])])
  end.

Definition validateAgentPayload (payload : jsval) : bool :=
  isRecord payload &&
  match prop "name" payload with Some (JStr name) => negb (String.eqb (trim name) "") | _ => false end &&
  match prop "promptBody" payload with Some (JStr _) => true | _ => false end &&
  match prop "capabilities" payload with None => true | caps => isRecord caps end.

(** [caps.name !== false]. *)
Definition allowed (name : string) (caps : jsval) : bool := match prop name caps with Some (JBool false) => false | _ => true end.

(** A text that is not blank, or the fallback. *)
Definition text_or (fallback : string) (v : jsval) : string :=
  match v with Some (JStr s) => if String.eqb (trim s) "" then fallback else s | _ => fallback end.

Definition agent_row (payload : jsval) : EditableAgentRow :=
  let caps := if isRecord (prop "capabilities" payload) then prop "capabilities" payload else Some (JObj []) in {|
  ea_name := trim (string_or "" (prop "name" payload));
  ea_description := string_or "" (prop "description" payload);
  ea_icon := text_or "Bot" (prop "icon" payload);
  ea_colour := text_or "#64748b" (prop "colour" payload);
  ea_prompt_body := string_or "" (prop "promptBody" payload);
  ea_can_write_files := allowed "canWriteFiles" caps;
  ea_can_run_commands := allowed "canRunCommands" caps;
  ea_can_read_files := allowed "canReadFiles" caps |}.

Definition applyAgentPayload (id : string) (payload : jsval) (d : Entities) : Entities :=
  if negb (validateAgentPayload payload) then d else put_agents <[id := agent_row payload]> d.

(** ** Dispatch by type *)

Definition buildEntityPayload (k : EntityKey) (d : Entities) : option json :=
  if String.eqb k.1 SYNC_ENTITY_WORKFLOW_TEMPLATE then buildWorkflowPayload k.2 d
  else if String.eqb k.1 SYNC_ENTITY_EDITABLE_AGENT then buildAgentPayload k.2 d
  else None.

Definition entities_read (d : Entities) (k : EntityKey) : option string := canonicalJson <$> buildEntityPayload k d.

Definition entities_issue (entityType : string) (payload : json) : option string :=
  if String.eqb entityType SYNC_ENTITY_WORKFLOW_TEMPLATE
  then if validateWorkflowPayload (Some payload) then None else Some "malformed-payload"
  else if String.eqb entityType SYNC_ENTITY_EDITABLE_AGENT
  then if validateAgentPayload (Some payload) then None else Some "malformed-payload"
  else Some "unsupported-entity-type".

Definition entities_apply (k : EntityKey) (payload : jsval) (d : Entities) : Entities :=
  if String.eqb k.1 SYNC_ENTITY_WORKFLOW_TEMPLATE then applyWorkflowPayload k.2 payload d
  else if String.eqb k.1 SYNC_ENTITY_EDITABLE_AGENT then applyAgentPayload k.2 payload d
  else d.

Definition entities_delete (k : EntityKey) (d : Entities) : Entities :=
  if String.eqb k.1 SYNC_ENTITY_WORKFLOW_TEMPLATE then put_templates (delete k.2) d
  else if String.eqb k.1 SYNC_ENTITY_EDITABLE_AGENT then put_agents (delete k.2) d
  else d.

(** [{ ...payload, name }]. *)
Definition with_name (name : string) (payload : json) : json :=
  match payload with
  | JObj l => JObj (if existsb (λ kv, String.eqb kv.1 "name") l
                    then map (λ kv, if String.eqb kv.1 "name" then ("name", JStr name) else kv) l
                    else l ++ [("name", JStr name)])
  | _ => payload
  end.

Definition entities_copy (copyId entityType : string) (payload : json) (d : Entities) : option (string * json * Entities) :=
  if String.eqb entityType SYNC_ENTITY_WORKFLOW_TEMPLATE || String.eqb entityType SYNC_ENTITY_EDITABLE_AGENT then
    let baseName := string_or "" (field_of "name" payload) in
    let copy := with_name ((if String.eqb baseName "" then "Entity" else baseName) +:+ " (local copy)") payload in
    Some (copyId, copy, entities_apply (entityType, copyId) (Some copy) d)
  else None.

Definition whole_types (entityType : string) : bool :=
  String.eqb entityType SYNC_ENTITY_WORKFLOW_TEMPLATE || String.eqb entityType SYNC_ENTITY_EDITABLE_AGENT.

(** What is read of an entity once a payload is stored. *)
Definition entities_projected (k : EntityKey) (payload : json) : option string :=
  entities_read (entities_apply k (Some payload) {| en_templates := ∅; en_agents := ∅ |}) k.

(** ** The tables are what the engine expects *)

Lemma read_templates_ne t i id row (d : Entities) : (t, i) ≠ (SYNC_ENTITY_WORKFLOW_TEMPLATE, id) →
  entities_read (put_templates (partial_alter (λ _, row) id) d) (t, i) = entities_read d (t, i).
Proof.
  intros Hne. unfold entities_read, buildEntityPayload, buildWorkflowPayload, put_templates. cbn. destruct (String.eqb_spec t SYNC_ENTITY_WORKFLOW_TEMPLATE) as [->|]; [|done].
  rewrite lookup_partial_alter_ne; [done|congruence].
Qed.

Lemma read_agents_ne t i id row (d : Entities) : (t, i) ≠ (SYNC_ENTITY_EDITABLE_AGENT, id) →
  entities_read (put_agents (partial_alter (λ _, row) id) d) (t, i) = entities_read d (t, i).
Proof.
  intros Hne. unfold entities_read, buildEntityPayload, buildAgentPayload, put_agents. cbn. destruct (String.eqb_spec t SYNC_ENTITY_WORKFLOW_TEMPLATE) as [->|]; [done|].
  destruct (String.eqb_spec t SYNC_ENTITY_EDITABLE_AGENT) as [->|]; [|done]. rewrite lookup_partial_alter_ne; [done|congruence].
Qed.

Lemma entities_apply_other k k' p d : k ≠ k' → entities_read (entities_apply k p d) k' = entities_read d k'.
Proof.
  destruct k as [t i], k' as [t' i']. intros Hne. unfold entities_apply. cbn. destruct (String.eqb_spec t SYNC_ENTITY_WORKFLOW_TEMPLATE) as [->|].
  - unfold applyWorkflowPayload. destruct (negb _); [done|]. apply read_templates_ne. congruence.
  - destruct (String.eqb_spec t SYNC_ENTITY_EDITABLE_AGENT) as [->|]; [|done].
    unfold applyAgentPayload. destruct (negb _); [done|]. apply read_agents_ne. congruence.
Qed.

Lemma entities_delete_other k k' d : k ≠ k' → entities_read (entities_delete k d) k' = entities_read d k'.
Proof.
  destruct k as [t i], k' as [t' i']. intros Hne. unfold entities_delete. cbn. destruct (String.eqb_spec t SYNC_ENTITY_WORKFLOW_TEMPLATE) as [->|].
  - apply read_templates_ne. congruence.
  - destruct (String.eqb_spec t SYNC_ENTITY_EDITABLE_AGENT) as [->|]; [|done]. apply read_agents_ne. congruence.
Qed.

Lemma entities_apply_read k p d : whole_types k.1 = true → entities_issue k.1 p = None →
  entities_read (entities_apply k (Some p) d) k = entities_projected k p.
Proof.
  destruct k as [t i]. unfold whole_types, entities_issue, entities_projected, entities_apply, entities_read, buildEntityPayload. cbn.
  destruct (String.eqb_spec t SYNC_ENTITY_WORKFLOW_TEMPLATE) as [->|].
  - unfold applyWorkflowPayload, buildWorkflowPayload. destruct (validateWorkflowPayload _); [|done]. cbn. by rewrite !lookup_insert_eq.
  - destruct (String.eqb_spec t SYNC_ENTITY_EDITABLE_AGENT) as [->|]; [|done].
    unfold applyAgentPayload, buildAgentPayload. destruct (validateAgentPayload _); [|done]. cbn. by rewrite !lookup_insert_eq.
Qed.

Lemma entities_delete_read k d : whole_types k.1 = true → entities_read (entities_delete k d) k = None.
Proof.
  destruct k as [t i]. unfold whole_types, entities_delete, entities_read, buildEntityPayload. cbn.
  destruct (String.eqb_spec t SYNC_ENTITY_WORKFLOW_TEMPLATE) as [->|].
  - unfold buildWorkflowPayload. cbn. by rewrite lookup_delete_eq.
  - destruct (String.eqb_spec t SYNC_ENTITY_EDITABLE_AGENT) as [->|]; [|done]. unfold buildAgentPayload. cbn. by rewrite lookup_delete_eq.
Qed.

Lemma entities_apply_malformed k p d : whole_types k.1 = true → entities_issue k.1 p ≠ None → entities_apply k (Some p) d = d.
Proof.
  destruct k as [t i]. unfold whole_types, entities_issue, entities_apply. cbn. destruct (String.eqb_spec t SYNC_ENTITY_WORKFLOW_TEMPLATE) as [->|].
  - unfold applyWorkflowPayload. by destruct (validateWorkflowPayload _).
  - destruct (String.eqb_spec t SYNC_ENTITY_EDITABLE_AGENT) as [->|]; [|done]. unfold applyAgentPayload. by destruct (validateAgentPayload _).
Qed.

#[export] Instance entities_domain : EntityDomain Entities := {
  readEntityPayloadJson := entities_read;
  applyRemoteEntityPayload := entities_apply;
  deleteLocalEntity := entities_delete;
  persistConflictCopy := entities_copy;
  isWorkspaceSyncPaused := λ _ _, false;
  entityPayloadIssue := entities_issue;
  applied_whole := whole_types;
  projected := entities_projected;
  apply_other := entities_apply_other;
  delete_other := entities_delete_other;
  apply_read := entities_apply_read;
  delete_read := entities_delete_read;
  apply_malformed := entities_apply_malformed;
}.
End Entities.
