(* ===== verification/SyncDeviceProps.v ===== *)
(** * Desktop app: properties of a device's synchronisation

    A concrete device and account, the theorems on a device that synchronises, and runs in
    which their hypotheses hold. *)

From stdpp Require Import base list strings pretty gmap relations.
From Stdlib Require Import ZArith Ascii Lia.
From S2P Require Import Prelude Transactions JsString JsValue SyncWire SyncTables SyncLog SyncHistory SyncPush SyncGrowth SyncCalls SyncReceipts SyncProps SyncClient SyncOutbox SyncOutboxSound SyncDevice SyncDeviceSound SyncDeviceRun SyncMirror SyncEntities.

(** ** A concrete device *)

Definition site_template (name : string) : json :=
  JObj [("id", JStr "t1"); ("name", JStr name); ("description", JStr ""); ("nodes", JArr []); ("edges", JArr [])].

(** Plaintexts, with the ciphertext of each. *)
Definition site_sealed : list (json * string) :=
  [(site_template "Plan", "AAAAAAAAAAAAAAAAAAAAAAAA"); (site_template "Review", "BBBBBBBBBBBBBBBBBBBBBBBB")].

Definition site_uuid (n : nat) : string := "AAAAAAAAAAAAAAA" +:+ pretty n.

#[export] Instance site_uuid_inj : Inj (=) (=) site_uuid.
Proof. intros m n H. by apply (inj (String.append _)), (inj pretty) in H. Qed.

Definition site_envelope (keyVersion : Z) (nonce ct : string) : json :=
  JObj [("enc", JStr "aes-256-gcm"); ("keyVersion", JNum (int keyVersion)); ("nonce", JStr nonce); ("ct", JStr ct)].

(** The texts that are parsed. *)
Definition site_texts : list json :=
  [JNull; JObj [("nodes", JArr []); ("edges", JArr [])]] ++ map fst site_sealed ++
  flat_map (λ version, flat_map (λ n, map (λ p, site_envelope version (site_uuid n) p.2) site_sealed) (seq 0 10)) [1; 10].

Definition site_parse (text : string) : option json :=
  find (λ j, String.eqb text (canonicalJson j) || String.eqb text (JSON_stringify j)) site_texts.

(** A digest by the length of the text. *)
Definition site_sha256 (text : string) : string :=
  of_chars (replicate 64 (ascii_of_nat (48 + String.length text mod 10))).

Definition site_seal (key aad nonce plain : string) : string :=
  default "" (snd <$> find (λ p, String.eqb plain (canonicalJson p.1)) site_sealed).
Definition site_open (key aad nonce ct : string) : option string :=
  canonicalJson ∘ fst <$> find (λ p, String.eqb ct p.2) site_sealed.
Definition site_keys (version : Z) : option string := if (version =? 1) || (version =? 10) then Some "key" else None.

Definition site_key : EntityKey := (SYNC_ENTITY_WORKFLOW_TEMPLATE, "t1").

#[local] Instance site_domain : EntityDomain Entities := entities_domain site_parse.

Definition no_entities : Entities := {| en_templates := ∅; en_agents := ∅ |}.

Notation on_site t := (t site_uuid site_sha256 site_parse "b" "acc" site_open site_seal fixture_date false).

(** What another device pushes of the template. *)
Definition site_change (n : Z) (operation : SyncOperation) (base : option Z) (payload : jsval) : PendingChange :=
  let change hash := {| pc_changeId := "c" +:+ int_to_string n; pc_enrollmentSequence := n; pc_entityType := site_key.1;
    pc_entityId := site_key.2; pc_schemaVersion := 1; pc_baseRevision := base; pc_operation := operation;
    pc_payload := payload; pc_payloadHash := hash |} in
  change (site_sha256 (canonicalChangeHashInput (change ""))).

Definition site_call (changes : list PendingChange) : SiteEvent (D := Entities) :=
  sx_account (call_push 1000 desktop (push_json (map pending_json changes))).

Definition site_pull : list (SiteEvent (D := Entities)) := [sx_pull 65536; sx_apply 2000 site_keys].

(** The device edits the template. *)
Definition site_edit (name : string) : SiteEvent (D := Entities) :=
  sx_local (lc_record 1500 {| rl_entity := site_key; rl_schemaVersion := 1; rl_operation := op_update; rl_payload := Some (site_template name) |}).

Definition site_request : SiteEvent (D := Entities) := sx_request 1600 (Some (1, "key")) "laptop" false 65536 262144 50.

Definition site_created : PendingChange := site_change 1 op_create None (Some (site_envelope 1 (site_uuid 0) "AAAAAAAAAAAAAAAAAAAAAAAA")).

(** Another device has created the template; this one has pulled it and edits it. *)
Definition site_edited : list (SiteEvent (D := Entities)) :=
  [site_call [site_created]] ++ site_pull ++ [sx_local (lc_enroll 1400 "laptop" es_active); site_edit "Review"].

(** The content of an envelope. *)
Definition site_clear (payload : json) : json :=
  match unsealEntityPayload "b" "acc" (λ _, site_keys) site_open site_parse 0 site_key payload with inl v => v | inr _ => JNull end.

Section Props.
Context {D : Type} `{!EntityDomain D}.
Context (uuid : nat → string) (sha256Hex : string → string) (JSON_parse : string → option json).
Context (backendId accountId : string) (gcmOpen : string → string → string → string → option string)
  (gcmSeal : string → string → string → string → string) (date_parse : string → option Z) (hosted : bool).
Notation site_step := (site_step uuid sha256Hex JSON_parse backendId accountId gcmOpen gcmSeal date_parse hosted).
Notation run_site := (run_site uuid sha256Hex JSON_parse backendId accountId gcmOpen gcmSeal date_parse hosted).
Notation leaves_all k := (leaves_all k uuid sha256Hex JSON_parse backendId accountId gcmOpen gcmSeal date_parse hosted).
Notation settle_push := (settle_push uuid JSON_parse backendId accountId gcmOpen).
Notation resolveSyncConflict := (resolveSyncConflict uuid sha256Hex JSON_parse).

(** C4: a device mirrors its account.  Of a workflow template or an agent that is worked on
    elsewhere only, a device that goes on from its cursor, and whose keys open the pages it
    applies, holds at every moment exactly the content the account had at that cursor,
    deletions included: whatever other devices push, import or compact in between, whatever
    the device itself does to other entities (but rebuilding them all, or saving a copy under
    a fresh id), whichever answers are lost and whichever pages fail. *)
Theorem device_mirrors k clear es (d : D) :
  applied_whole k.1 = true → isCryptoBoundaryEntityType k.1 = false → k.1 ≠ SYNC_ENTITY_WORKSPACE_DEFINITION →
  isSupportedEntityType k.1 = true → readEntityPayloadJson d k = None → leaves_all k clear es (initial_site d) →
  let w := run_site es (initial_site d) in
  ∃ H c, represents H (si_db w) ∧ 0 ≤ c ≤ len H ∧ at_cursor c (st_cursor (ss_state (dv_store (si_device w)))) ∧
    readEntityPayloadJson (dv_domain (si_device w)) k = content (D := D) k clear (upto c H).
Proof.
  intros Hwhole Hcrypto Hws Hsup Hd Hl. cbv zeta.
  destruct (follows_run _ _ _ _ _ _ _ _ _ _ _ Hwhole Hcrypto Hws Hsup es [] 0 _ (initial_follows _ _ d Hd) Hl)
    as (H & c & Hs & Hc & _ & cur & Hcur & b & Hb & _ & Hr).
  exists H, c. pose proof (id_cursor _ _ _ Hb) as Hs'. cbn in Hs'. rewrite Hs'. split_and!; [done|lia|lia|done|done].
Qed.

(** C5: the outbox of a device stays sound through everything that happens to it: edits,
    requests, answers and lost answers, pulled pages, rebuilds, new keys and enrollments,
    resolutions of conflicts.  Of an entity at most one change is pending and at most one is
    in flight or in conflict; it is in conflict only while a conflict of the entity is open,
    and of those there is at most one; every change in flight has a sequence its enrollment
    has given out, and no two share one. *)
Theorem outbox_sound `{!Inj (=) (=) uuid} es (d : D) : site_sound uuid (run_site es (initial_site d)).
Proof. apply run_sound; [done|apply initial_sound]. Qed.

Lemma request_out `{!Inj (=) (=) uuid} es (d : D) e now current eb pb bc batch :
  let w := run_site es (initial_site d) in
  let w1 := site_step (sx_request now current e false eb pb bc) w in
  si_phase w = ph_idle → si_phase w1 = ph_pushing batch → out uuid JSON_parse e batch w1.
Proof.
  intros w w1 Hidle Hpush. assert (Hs : site_sound uuid w) by (apply run_sound; [done|apply initial_sound]).
  assert (Hs1 : site_sound uuid w1) by by apply site_step_sound. unfold w1 in Hpush. cbn [SyncDevice.site_step] in Hpush. rewrite Hidle in Hpush.
  destruct (push_request _ _ _ _ _ _ _ _ _ _ _ _ _ _) as [[[|c l]|err] v] eqn:E; cbn in Hpush; try done. injection Hpush as <-.
  assert (Hv : dv_store (si_device w1) = dv_store v) by (unfold w1; cbn [SyncDevice.site_step]; by rewrite Hidle, E).
  unfold site_sound in Hs. rewrite Hidle in Hs. apply request_ok in E as (K1 & [K2|K2] & K3); [done| |done].
  split; [done|rewrite Hv; by apply K3|by rewrite Hv].
Qed.

(** C6: a batch that was sent and not answered is sent again as it was, with the same
    sequences, hashes and payloads, whatever happened in between except that its answer was
    handled, a rebuild, a request under another enrollment or restricted to the device's
    identity, that the user gave a local version up, and that rows were sealed again. *)
Theorem batch_resent `{!Inj (=) (=) uuid} es es' (d : D) e now current eb pb bc now' current' eb' pb' bc' batch :
  let w := run_site es (initial_site d) in
  let w1 := site_step (sx_request now current e false eb pb bc) w in
  let w2 := run_site es' w1 in
  si_phase w = ph_idle → si_phase w1 = ph_pushing batch → forallb (harmless e) es' = true → si_phase w2 = ph_idle →
  si_phase (site_step (sx_request now' current' e false eb' pb' bc') w2) = ph_pushing batch.
Proof.
  intros w w1 w2 Hidle Hpush Hes Hidle2. pose proof (request_out _ _ _ _ _ _ _ _ _ Hidle Hpush) as Ho. fold w w1 in Ho.
  assert (Hne : batch ≠ []).
  { intros ->. unfold w1 in Hpush. cbn [SyncDevice.site_step] in Hpush. rewrite Hidle in Hpush. by destruct (push_request _ _ _ _ _ _ _ _ _ _ _ _ _ _) as [[[|c l]|err] v]. }
  apply (out_run uuid sha256Hex JSON_parse backendId accountId gcmOpen gcmSeal date_parse hosted e _ es') in Ho; [|done|done]. fold w2 in Ho.
  cbn [SyncDevice.site_step]. rewrite Hidle2, (out_request uuid sha256Hex JSON_parse backendId accountId gcmSeal e batch w2 now' current' eb' pb' bc' Ho Hne).
  by destruct batch.
Qed.

(** *** Local work *)

Lemma request_domain now current e m eb pb bc v :
  dv_domain (push_request uuid sha256Hex JSON_parse backendId accountId gcmSeal now current e m eb pb bc v).2 = dv_domain (D := D) v.
Proof. unfold push_request. rewrite run_gets. apply store_domain. Qed.

Lemma flag_domain codes e v : dv_domain (flag_reset codes e v) = dv_domain (D := D) v.
Proof. unfold flag_reset. destruct (match err_code e with Some c => _ | None => _ end); [apply store_domain|done]. Qed.

Lemma settle_domain now keys batch items v : dv_domain (settle_push now keys batch items v).2 = dv_domain (D := D) v.
Proof.
  unfold SyncDevice.settle_push, from_outcome, mbind, M_bind. destruct (map_outcome _ items) as [results|err]; [|done]. cbn.
  pose proof (store_domain (applyPushResults uuid now results) v) as H1. destruct (on_store (applyPushResults uuid now results) v) as [[u|err] v1]; [|done].
  cbn in *. pose proof (store_domain (updateSyncState (patch_pushed now)) v1) as H2. by destruct (on_store (updateSyncState (patch_pushed now)) v1).
Qed.

(** C7: local work is not overwritten.  Of a bound entity with edits, queued changes or an open
    conflict, nothing but the user's own calls changes the content: neither a pulled page nor
    the activation of a rebuild, a request or an answer.  A page also leaves its queued
    changes and the base of its binding as they are; a conflict is opened at most. *)
Theorem local_work_kept k (e : SiteEvent (D := D)) w : protected k (dv_store (si_device w)) → (∀ c, e ≠ sx_local c) →
  let w' := site_step e w in
  readEntityPayloadJson (dv_domain (si_device w')) k = readEntityPayloadJson (dv_domain (si_device w)) k ∧
  match e with
  | sx_apply _ _ => protected k (dv_store (si_device w')) ∧ guarded k (si_device w) (si_device w')
  | _ => True
  end.
Proof.
  intros Hp Hnot. cbv zeta. destruct e as [c|c|now current en m eb pb bc|now auth epoch|now keys|pb|now keys| |now staging cursor]; cbn [SyncDevice.site_step].
  - done.
  - by destruct (Hnot c).
  - split; [|done]. f_equal. destruct (si_phase w); try done. pose proof (request_domain now current en m eb pb bc (si_device w)) as H.
    by destruct (push_request _ _ _ _ _ _ _ _ _ _ _ _ _ _) as [[[|x l]|err] v].
  - split; [|done]. f_equal. destruct (si_phase w); try done. destruct (handlePush _ _ _ _ _ _ _) as [[o|err] s]; [done|apply flag_domain].
  - split; [|done]. f_equal. destruct (si_phase w); try done. apply settle_domain.
  - split; [|done]. f_equal. destruct (si_phase w); try done. destruct (handlePull _ _) as [[o|err] s]; [done|apply flag_domain].
  - destruct (si_phase w); try done. cbn. pose proof (page_keeps_work uuid JSON_parse backendId accountId gcmOpen k now keys
      (map synced_json (pr_changes page)) (int_to_string (pr_nextCursor page)) (si_device w) Hp) as Hg.
    split_and!; [apply (gd_domain _ _ _ Hg)|by eapply guarded_protected|done].
  - done.
  - split; [|done]. destruct (si_phase w); try done. by apply (activation_keeps uuid sha256Hex JSON_parse backendId gcmOpen k now cursor (Build_Device (put_staging staging (dv_store (si_device w))) (dv_domain (si_device w)))).
Qed.

(** *** Answers that go wrong *)

(** What is read of a change on the wire is the change. *)
Lemma parse_pending_same c c' : parsePendingChange (pending_json c) = Ok c' → c' = c.
Proof.
  intros H. unfold parsePendingChange in H. cbn [isRecord pending_json require] in H.
  assert (Hp : prop "payload" (Some (pending_json c)) = pc_payload c) by (unfold pending_json; by destruct (pc_payload c)).
  rewrite Hp in H. apply outcome_bind_Ok in H as (? & _ & H).
  apply outcome_bind_Ok in H as (i & [[= Hi] _]%nonempty_string_Ok & H). apply outcome_bind_Ok in H as (n & [Hn _]%positive_integer_Ok & H).
  apply outcome_bind_Ok in H as (t & [[= Ht] _]%nonempty_string_Ok & H). apply outcome_bind_Ok in H as (e & [[= He] _]%nonempty_string_Ok & H).
  apply outcome_bind_Ok in H as (v & [Hv _]%positive_integer_Ok & H). apply outcome_bind_Ok in H as (b & Hb & H).
  assert (En : prop "enrollmentSequence" (Some (pending_json c)) = Some (JNum (int (pc_enrollmentSequence c)))) by done.
  assert (Ev : prop "schemaVersion" (Some (pending_json c)) = Some (JNum (int (pc_schemaVersion c)))) by (unfold pending_json; by destruct (pc_payload c)).
  assert (Eb : prop "baseRevision" (Some (pending_json c)) = Some (json_of_base (pc_baseRevision c))) by done.
  rewrite En in Hn. rewrite Ev in Hv. rewrite Eb, base_revision_text in Hb. injection Hb as <-.
  unfold integer_of in Hn, Hv. rewrite num_to_Z_int in Hn, Hv. injection Hn as <-. injection Hv as <-.
  change (prop "operation" (Some (pending_json c))) with (Some (JStr (operation_text (pc_operation c)))) in H.
  assert (Eh : prop "payloadHash" (Some (pending_json c)) = Some (JStr (pc_payloadHash c))) by (unfold pending_json; by destruct (pc_payload c)).
  rewrite Eh in H.
  assert (Hop : isSyncOperation (Some (JStr (operation_text (pc_operation c)))) = Some (pc_operation c)) by by destruct (pc_operation c).
  rewrite Hop in H. destruct c as [ci cn ct ce cv cb co cp ch]. cbn in *. subst.
  destruct co, cp; outcome_back H; try (injection H as <-; done); discriminate.
Qed.

Lemma map_outcome_same l l' : map_outcome parsePendingChange (map pending_json l) = Ok l' → l' = l.
Proof.
  revert l'. induction l as [|c l IH]; intros l' H; cbn in H; [by injection H as <-|]. outcome_back H. injection H as <-.
  f_equal; [by apply parse_pending_same|by apply IH].
Qed.

(** A change whose hash is not the one of its content. *)
Definition mismatched (c : PendingChange) : bool := negb (String.eqb (sha256Hex (canonicalChangeHashInput c)) (pc_payloadHash c)).

Lemma batch_hashes batch u : assertBatchStructure date_parse (map (prepare sha256Hex) batch) = Ok u → existsb mismatched batch = false.
Proof.
  unfold assertBatchStructure. destruct (_ <? _); [done|]. intros H. apply outcome_bind_Ok in H as (us & H & _). clear u. revert us H.
  induction batch as [|c batch IH]; intros us H; [done|]. cbn in H |- *. apply outcome_bind_Ok in H as (u & Hc & H).
  apply outcome_bind_Ok in H as (us' & H & _). apply IH in H as ->. rewrite orb_false_r. unfold mismatched.
  unfold assertItem in Hc. apply outcome_bind_Ok in Hc as (? & _ & Hc). destruct (if bool_decide _ then None else _); [done|]. cbv zeta in Hc.
  destruct (_ && _); [done|]. cbn in Hc. destruct (String.eqb _ _); [done|]. done.
Qed.

Lemma push_refused now auth batch epoch s : existsb mismatched batch = true →
  ∃ err, (handlePush sha256Hex date_parse hosted now auth (push_request_json batch epoch) s).1 = Throw err.
Proof.
  intros Hm. destruct (handlePush _ _ _ _ _ _ _) as [[o|err] s'] eqn:E; [|by exists err]. exfalso. unfold handlePush in E.
  step_back E p s1 H1. destruct p as [changes ep]. unfold from_outcome in H1. injection H1 as Hp <-.
  assert (Hb : changes = batch).
  { unfold parseSpikePushParams in Hp. cbn in Hp. apply outcome_bind_Ok in Hp as (l & Hl & Hp). injection Hp as <- _. by apply map_outcome_same. }
  subst changes. step_back E notice s1 H1. assert (Hc : commit (pushInTransaction date_parse hosted now auth ep (map (prepare sha256Hex) batch)) s1 = (Ok o, s')).
  { destruct notice as [n|]; [|done]. by destruct (existsb is_write batch). }
  apply commit_Ok in Hc. unfold pushInTransaction in Hc. step_back Hc u s2 H2. step_back Hc u' s3 H3. unfold from_outcome in H3. injection H3 as H3 <-.
  apply batch_hashes in H3. congruence.
Qed.

Lemma mismatched_run e batch es w : existsb mismatched batch = true → out uuid JSON_parse e batch w → forallb (harmless e) es = true → Inj (=) (=) uuid →
  (si_phase w = ph_pushing batch ∨ si_phase w = ph_idle ∨ ∃ page, si_phase w = ph_pulled page) →
  ∀ b items, si_phase (run_site es w) ≠ ph_answered b items.
Proof.
  intros Hm Ho Hes Hinj. assert (Hne : batch ≠ []) by by intros ->. revert w Ho Hes. induction es as [|ev es IH]; intros w Ho Hes Hp b items; cbn.
  { intros H. rewrite H in Hp. by destruct Hp as [?|[?|[? ?]]]. }
  cbn in Hes. apply andb_true_iff in Hes as [H1 H2]. apply IH; [by apply out_step|done|]. clear IH.
  destruct ev as [c|c|now current en m eb pb bc|now auth epoch|now keys|pb|now keys| |now staging cursor]; cbn [SyncDevice.site_step]; try done.
  - destruct Hp as [Hp|[Hp|[page Hp]]]; rewrite Hp; [left; done| |by right; right; exists page].
    apply andb_true_iff in H1 as [->%String.eqb_eq Hmo]. destruct m; [done|].
    rewrite (out_request uuid sha256Hex JSON_parse backendId accountId gcmSeal e batch w now current eb pb bc Ho Hne). left. by destruct batch.
  - destruct Hp as [Hp|[Hp|[page Hp]]]; rewrite Hp; [|by right; left|by right; right; exists page].
    destruct (push_refused now auth batch epoch (si_db w) Hm) as [err Herr]. destruct (handlePush _ _ _ _ _ _ _) as [r s]. cbn in Herr. subst r. by right; left.
  - destruct Hp as [Hp|[Hp|[page Hp]]]; rewrite Hp; [by left| |by right; right; exists page].
    destruct (handlePull _ _) as [[page|err] s]; [right; right; by exists page|by right; left].
  - destruct Hp as [Hp|[Hp|[page Hp]]]; rewrite Hp; [by left|by right; left|by right; left].
  - by right; left.
Qed.

(** C39: a change whose hash is not the one of its content stops the outbox.  The account
    refuses every batch it is in, and the batch is the one that is sent each time: whatever
    happens but what [harmless] excepts, no push of the enrollment is ever answered again.
    Rows that are sealed again while they are in flight are such changes, as in the witness:
    their envelope is replaced and their hash is not. *)
Theorem mismatched_batch_stuck `{!Inj (=) (=) uuid} es es' (d : D) e now current eb pb bc batch :
  let w := run_site es (initial_site d) in
  let w1 := site_step (sx_request now current e false eb pb bc) w in
  si_phase w = ph_idle → si_phase w1 = ph_pushing batch → existsb mismatched batch = true → forallb (harmless e) es' = true →
  ∀ b items, si_phase (run_site es' w1) ≠ ph_answered b items.
Proof.
  intros w w1 Hidle Hpush Hm Hes. eapply mismatched_run; [exact Hm| |exact Hes|done|by left]. by eapply request_out.
Qed.

(** *** A change of an entity that has been deleted elsewhere *)

Lemma unresolved_only k id c (m : gmap string SyncConflict) : unresolved_conflict k m = None → cf_entity c = k → cf_resolvedAt c = None →
  m !! id = None → unresolved_conflict k (<[id := c]> m) = Some (id, c).
Proof.
  intros Hn Hk Hr Hid. rewrite unresolved_none in Hn. destruct (unresolved_conflict k (<[id := c]> m)) as [[id' c']|] eqn:E.
  - apply unresolved_some in E as (Hc & Hk' & Hr'). apply lookup_insert_Some in Hc as [[-> ->]|[_ Hc]]; [done|]. by destruct (Hn _ _ Hc).
  - rewrite unresolved_none in E. destruct (E id c); [by rewrite lookup_insert_eq|done..].
Qed.

(** What the answer leaves. *)
Lemma settle_conflict now keys c revision row b (v : Device D) : ss_outbox (dv_store v) !! pc_changeId c = Some row → ob_operation row ≠ op_delete →
  ss_bindings (dv_store v) !! ob_entity row = Some b → unresolved_conflict (ob_entity row) (ss_conflicts (dv_store v)) = None →
  ss_conflicts (dv_store v) !! uuid (ss_ids (dv_store v)) = None →
  ∃ v1, settle_push now keys [c] [push_conflict (pc_changeId c) revision JNull] v = (Ok tt, v1) ∧ dv_domain v1 = dv_domain v ∧
    ss_bindings (dv_store v1) = ss_bindings (dv_store v) ∧
    ss_conflicts (dv_store v1) = <[uuid (ss_ids (dv_store v)) := conflict_over now row (Some b) (Some "null") (Some revision) ck_edit_edit]> (ss_conflicts (dv_store v)).
Proof.
  intros Hrow Hop Hb Hu Hid. unfold SyncDevice.settle_push, mapPushItemResult. cbn [map_outcome foldr find]. rewrite String.eqb_refl. cbn.
  unfold from_outcome, on_store, applyPushResults, commit, for_each, apply_result, getBinding, conflict_once, getUnresolvedConflict, randomUUID, insert_row,
    gets, mbind, M_bind. cbn. rewrite Hrow. cbn. rewrite Hb. cbn. rewrite Hu. cbn. rewrite Hid. cbn.
  rewrite (bool_decide_false (ob_operation row = op_delete)) by done. eexists. by split_and!.
Qed.

(** Taking a remote [null]. *)
Lemma take_null now id c revision b (v : Device D) : applied_whole (cf_entity c).1 = true → entityPayloadIssue (cf_entity c).1 JNull ≠ None →
  JSON_parse "null" = Some JNull → ss_conflicts (dv_store v) !! id = Some c → cf_resolvedAt c = None → cf_remotePayloadJson c = Some "null" →
  cf_remoteRevision c = Some revision → ss_bindings (dv_store v) !! cf_entity c = Some b →
  ∃ v2 b', resolveSyncConflict now id rs_use_remote v = (Ok tt, v2) ∧ dv_domain v2 = dv_domain v ∧
    ss_bindings (dv_store v2) !! cf_entity c = Some b' ∧ bi_baseRevision b' = Some revision ∧ bi_basePayloadJson b' = Some "null".
Proof.
  intros Hwhole Hissue Hnull Hc Hr Hp Hrev Hb. unfold SyncDevice.resolveSyncConflict, take_remote, on_store, parse_json, applyDomainProjection, on_domain,
    writeBindingBase, setBindingBase, getBinding, commit, deleteMutableOutboxRows, set_outbox, modify, gets, mbind, M_bind. cbn.
  rewrite Hc. cbn. rewrite Hr. cbn. rewrite Hp. cbn. rewrite Hnull. cbn. rewrite apply_malformed by done. unfold on_store, set_bindings, modify. cbn. rewrite Hb. cbn.
  unfold resolveConflict, gets, mbind, M_bind. cbn. rewrite Hc, Hr. cbn. eexists _, _. split_and!; [done|done|cbn; by rewrite !lookup_alter_eq, Hb|by rewrite Hrev|done].
Qed.

(** C40: the answer that an entity was deleted elsewhere is not one to a device.  Where the
    account holds a deletion of the entity of a change, its answer has no content; the device
    takes it for the content [null], records a conflict of two edits, and when the user takes
    the remote version the entity stays, on a base that is the deletion's revision. *)
Theorem deleted_remote_kept now now' keys c revision row b (v : Device D) :
  let k := ob_entity row in
  let id := uuid (ss_ids (dv_store v)) in
  applied_whole k.1 = true → entityPayloadIssue k.1 JNull ≠ None → JSON_parse "null" = Some JNull →
  ss_outbox (dv_store v) !! pc_changeId c = Some row → ob_operation row ≠ op_delete → ss_bindings (dv_store v) !! k = Some b →
  unresolved_conflict k (ss_conflicts (dv_store v)) = None → ss_conflicts (dv_store v) !! id = None →
  let '(r1, v1) := settle_push now keys [c] [push_conflict (pc_changeId c) revision JNull] v in
  let '(r2, v2) := resolveSyncConflict now' id rs_use_remote v1 in
  r1 = Ok tt ∧ r2 = Ok tt ∧
  (∃ cf, unresolved_conflict k (ss_conflicts (dv_store v1)) = Some (id, cf) ∧ cf_kind cf = ck_edit_edit ∧ cf_remotePayloadJson cf = Some "null") ∧
  readEntityPayloadJson (dv_domain v2) k = readEntityPayloadJson (dv_domain v) k ∧
  (∃ b', ss_bindings (dv_store v2) !! k = Some b' ∧ bi_baseRevision b' = Some revision ∧ bi_basePayloadJson b' = Some "null").
Proof.
  cbv zeta. intros Hwhole Hissue Hnull Hrow Hop Hb Hu Hid.
  destruct (settle_conflict now keys c revision row b v Hrow Hop Hb Hu Hid) as (v1 & -> & Hd & Hbs & Hcs).
  set (cf := conflict_over now row (Some b) (Some "null") (Some revision) ck_edit_edit) in Hcs.
  destruct (take_null now' (uuid (ss_ids (dv_store v))) cf revision b v1) as (v2 & b' & -> & Hd2 & Hb2 & Hr2 & Hp2); try done.
  { by rewrite Hcs, lookup_insert_eq. }
  { by rewrite Hbs. }
  split_and!; [done|done| |congruence|by exists b']. exists cf. split_and!; [|done|done]. rewrite Hcs. by apply unresolved_only.
Qed.
End Props.

(** ** Witnesses *)

Lemma outbox_sound_witness : site_sound site_uuid (on_site run_site (site_edited ++ [site_request]) (initial_site no_entities)).
Proof. apply (outbox_sound site_uuid). apply _. Defined.

(** That pages can be read, in a form that is evaluated. *)
Definition site_readable (change : SyncedChange) : Prop :=
  match sy_payload change with
  | None => True
  | Some p =>
      match to_domain site_parse "b" "acc" site_open site_keys site_key (Some p) with
      | wire_domain (Some text) => site_parse text = Some (site_clear p)
      | _ => False
      end ∧ entities_issue site_key.1 (site_clear p) = None ∧ schema_version_of site_key.1 = Some (sy_schemaVersion change)
  end.

Fixpoint site_leaves_all (es : list (SiteEvent (D := Entities))) (w : Site (D := Entities)) : Prop :=
  match es with
  | [] => True
  | e :: es' =>
      match e, si_phase w with
      | sx_local _, _ | sx_rebuild _ _ _, _ => False
      | sx_apply _ _, ph_pulled page => foldr and True (map site_readable (pr_changes page))
      | _, _ => True
      end ∧ site_leaves_all es' (on_site site_step e w)
  end.

Definition keys_are_site (e : SiteEvent (D := Entities)) : Prop := match e with sx_apply _ keys => keys = site_keys | _ => True end.

Lemma site_readable_ok change : site_readable change → readable site_key site_parse "b" "acc" site_open site_clear site_keys change.
Proof.
  unfold site_readable, readable. intros H p _ Hp. rewrite Hp in H. destruct H as (H1 & H2 & H3). split; [|done].
  destruct (to_domain _ _ _ _ _ _ _) as [[text|]|]; try done. by exists text.
Qed.

Lemma site_leaves_all_ok es : ∀ w, Forall keys_are_site es → site_leaves_all es w →
  leaves_all site_key site_uuid site_sha256 site_parse "b" "acc" site_open site_seal fixture_date false site_clear es w.
Proof.
  induction es as [|e es IH]; intros w Hk; cbn; [done|]. inversion_clear Hk as [|? ? He Hes]. intros [H1 H2]. split; [|by apply IH].
  unfold leaves. destruct e; try done. destruct (si_phase w); try done. cbn in He. subst keys.
  induction (pr_changes page) as [|x l IHl]; constructor; [by apply site_readable_ok, H1|apply IHl, H1].
Qed.

(** Another device creates the template, edits it while a page is under way, and deletes it. *)
Definition mirrored_events : list (SiteEvent (D := Entities)) :=
  [site_call [site_created]; sx_pull 65536;
   site_call [site_change 2 op_update (Some 1) (Some (site_envelope 1 (site_uuid 3) "BBBBBBBBBBBBBBBBBBBBBBBB"))];
   sx_apply 2000 site_keys] ++ site_pull ++ [site_call [site_change 3 op_delete (Some 2) None]] ++ site_pull.

Lemma device_mirrors_witness :
  readEntityPayloadJson (dv_domain (si_device (on_site run_site (take 6 mirrored_events) (initial_site no_entities)))) site_key =
    Some (canonicalJson (site_template "Review")) ∧
  (let w := on_site run_site mirrored_events (initial_site no_entities) in
  ∃ H c, represents H (si_db w) ∧ 0 ≤ c ≤ len H ∧ at_cursor c (st_cursor (ss_state (dv_store (si_device w)))) ∧
    readEntityPayloadJson (dv_domain (si_device w)) site_key = content (D := Entities) site_key site_clear (upto c H)).
Proof.
  split; [by vm_compute|]. apply (device_mirrors site_uuid); [by vm_compute..|].
  apply site_leaves_all_ok; [repeat constructor|]. vm_compute. by split_and!.
Defined.

Lemma batch_resent_witness :
  let w := on_site run_site site_edited (initial_site no_entities) in
  let w1 := on_site site_step site_request w in
  let w2 := on_site run_site [sx_push 1700 laptop INITIAL_EPOCH; sx_lost; site_edit "Plan"] w1 in
  ∃ batch, si_phase w1 = ph_pushing batch ∧ si_phase (on_site site_step site_request w2) = ph_pushing batch.
Proof. eexists. split; [by vm_compute|]. apply (batch_resent site_uuid); [apply _|by vm_compute..]. Defined.

Lemma local_work_kept_witness :
  let w := on_site run_site (site_edited ++ [site_call [site_change 2 op_update (Some 1) (Some (site_envelope 1 (site_uuid 3) "AAAAAAAAAAAAAAAAAAAAAAAA"))];
    sx_pull 65536]) (initial_site no_entities) in
  let w' := on_site site_step (sx_apply 2000 site_keys) w in
  readEntityPayloadJson (dv_domain (si_device w')) site_key = readEntityPayloadJson (dv_domain (si_device w)) site_key ∧
  protected site_key (dv_store (si_device w')) ∧ guarded site_key (si_device w) (si_device w').
Proof.
  apply (local_work_kept site_uuid site_sha256 site_parse "b" "acc" site_open site_seal fixture_date false site_key (sx_apply 2000 site_keys)); [|done].
  eexists. split; [by vm_compute|left; by vm_compute].
Defined.

(** The device's change is in flight when another device has deleted the template. *)
Definition site_in_flight : Device Entities := si_device (on_site run_site (site_edited ++ [site_request]) (initial_site no_entities)).

Lemma deleted_remote_kept_witness :
  ∃ row c, ss_outbox (dv_store site_in_flight) !! pc_changeId c = Some row ∧
  let id := site_uuid (ss_ids (dv_store site_in_flight)) in
  let '(r1, v1) := settle_push site_uuid site_parse "b" "acc" site_open 1800 site_keys [c] [push_conflict (pc_changeId c) 2 JNull] site_in_flight in
  let '(r2, v2) := resolveSyncConflict site_uuid site_sha256 site_parse 1900 id rs_use_remote v1 in
  r1 = Ok tt ∧ r2 = Ok tt ∧
  (∃ cf, unresolved_conflict (ob_entity row) (ss_conflicts (dv_store v1)) = Some (id, cf) ∧ cf_kind cf = ck_edit_edit ∧ cf_remotePayloadJson cf = Some "null") ∧
  readEntityPayloadJson (dv_domain v2) (ob_entity row) = readEntityPayloadJson (dv_domain site_in_flight) (ob_entity row) ∧
  (∃ b', ss_bindings (dv_store v2) !! ob_entity row = Some b' ∧ bi_baseRevision b' = Some 2 ∧ bi_basePayloadJson b' = Some "null").
Proof.
  eexists _, {| pc_changeId := site_uuid 0; pc_enrollmentSequence := 1; pc_entityType := site_key.1; pc_entityId := site_key.2; pc_schemaVersion := 1;
    pc_baseRevision := Some 1; pc_operation := op_update; pc_payload := None; pc_payloadHash := fixture_digest |}.
  split; [by vm_compute|]. eapply (deleted_remote_kept site_uuid); by vm_compute.
Defined.

Lemma mismatched_batch_stuck_witness :
  let w := on_site run_site (site_edited ++ [site_request; sx_lost; sx_local (lc_reseal (1, "key") (10, "key"))]) (initial_site no_entities) in
  let w1 := on_site site_step site_request w in
  ∃ batch, si_phase w1 = ph_pushing batch ∧ existsb (mismatched site_sha256) batch = true ∧
  ∀ b items, si_phase (on_site run_site [sx_push 1700 laptop INITIAL_EPOCH; site_edit "Plan"; site_request; sx_push 1800 laptop INITIAL_EPOCH] w1) ≠ ph_answered b items.
Proof.
  eexists. split; [by vm_compute|split; [by vm_compute|]]. eapply (mismatched_batch_stuck site_uuid); [apply _|by vm_compute..].
Defined.
