(* ===== verification/JobTables.v ===== *)
(** * Desktop app cloud: the tables of an account's jobs

    Workers, jobs, execution attempts, approvals and the journal of their events,
    [mezair-app/cloud/backend/src/schema.ts], with the states of jobs and attempts and their
    transitions, [mezair-app/cloud/contract/jobs.ts].  A table with a primary key is a finite
    map from it and a text column that holds JSON is the value it encodes; of the
    environments only the columns jobs depend on are kept. *)

From stdpp Require Import base list strings gmap.
From Stdlib Require Import ZArith Ascii.
From S2P Require Import Prelude Transactions JsString JsValue SyncWire SyncTables.

(** ** States *)

Inductive JobState :=
| job_queued | job_running | job_awaiting_approval | job_completed | job_failed | job_cancel_requested
| job_cancelled | job_unknown_outcome.

Inductive AttemptState :=
| at_claimed | at_preparing | at_running | at_stopping | at_completed | at_failed | at_cancelled
| at_unknown_outcome.

Inductive ApprovalState := ap_pending | ap_approved | ap_denied | ap_expired | ap_cancelled.

Inductive JobKind :=
| kind_diagnostic | kind_prepare_workspace | kind_start_session | kind_code_task | kind_workflow_node
| kind_provision_environment.

Inductive RetryPolicy := retry_safe | retry_inspect | retry_never.

#[export] Instance JobState_eq_dec : EqDecision JobState.
Proof. solve_decision. Defined.
#[export] Instance AttemptState_eq_dec : EqDecision AttemptState.
Proof. solve_decision. Defined.
#[export] Instance ApprovalState_eq_dec : EqDecision ApprovalState.
Proof. solve_decision. Defined.
#[export] Instance JobKind_eq_dec : EqDecision JobKind.
Proof. solve_decision. Defined.
#[export] Instance RetryPolicy_eq_dec : EqDecision RetryPolicy.
Proof. solve_decision. Defined.

Definition job_state_text (s : JobState) : string :=
  match s with
  | job_queued => "queued" | job_running => "running" | job_awaiting_approval => "awaiting-approval"
  | job_completed => "completed" | job_failed => "failed" | job_cancel_requested => "cancel-requested"
  | job_cancelled => "cancelled" | job_unknown_outcome => "unknown-outcome"
  end.

Definition attempt_state_text (s : AttemptState) : string :=
  match s with
  | at_claimed => "claimed" | at_preparing => "preparing" | at_running => "running" | at_stopping => "stopping"
  | at_completed => "completed" | at_failed => "failed" | at_cancelled => "cancelled"
  | at_unknown_outcome => "unknown-outcome"
  end.

Definition approval_state_text (s : ApprovalState) : string :=
  match s with
  | ap_pending => "pending" | ap_approved => "approved" | ap_denied => "denied" | ap_expired => "expired"
  | ap_cancelled => "cancelled"
  end.

Definition job_kind_text (k : JobKind) : string :=
  match k with
  | kind_diagnostic => "diagnostic" | kind_prepare_workspace => "prepare-workspace"
  | kind_start_session => "start-session" | kind_code_task => "code-task" | kind_workflow_node => "workflow-node"
  | kind_provision_environment => "provision-environment"
  end.

(** ** Transitions *)

Definition JOB_TRANSITIONS (from : JobState) : list JobState :=
  match from with
  | job_queued => [job_running; job_awaiting_approval; job_failed; job_cancel_requested; job_cancelled]
  | job_running =>
      [job_awaiting_approval; job_completed; job_failed; job_cancel_requested; job_unknown_outcome; job_queued]
  | job_awaiting_approval => [job_running; job_failed; job_cancel_requested; job_cancelled; job_unknown_outcome]
  | job_cancel_requested => [job_cancel_requested; job_cancelled; job_failed; job_unknown_outcome]
  | job_completed | job_failed | job_cancelled | job_unknown_outcome => []
  end.

Definition ATTEMPT_TRANSITIONS (from : AttemptState) : list AttemptState :=
  match from with
  | at_claimed => [at_preparing; at_stopping; at_cancelled; at_failed; at_unknown_outcome]
  | at_preparing => [at_running; at_stopping; at_cancelled; at_failed; at_unknown_outcome]
  | at_running => [at_stopping; at_completed; at_failed; at_unknown_outcome]
  | at_stopping => [at_cancelled; at_failed; at_unknown_outcome]
  | at_completed | at_failed | at_cancelled | at_unknown_outcome => []
  end.

Definition canTransitionJob (from to : JobState) : bool := bool_decide (to ∈ JOB_TRANSITIONS from).

Definition isTerminalJobState (s : JobState) : bool :=
  match s with job_completed | job_failed | job_cancelled | job_unknown_outcome => true | _ => false end.

(** [isActiveAttemptState], which is also the state filter of the queries. *)
Definition isActiveAttemptState (s : AttemptState) : bool :=
  match s with at_claimed | at_preparing | at_running | at_stopping => true | _ => false end.

(** One pass of the inner loop: [None] when the target was met. *)
Fixpoint visit_next (to : AttemptState) (nexts seen queue : list AttemptState) :
    option (list AttemptState * list AttemptState) :=
  match nexts with
  | [] => Some (seen, queue)
  | next :: rest =>
      if bool_decide (next = to) then None
      else if bool_decide (next ∈ seen) then visit_next to rest seen queue
      else visit_next to rest (seen ++ [next]) (queue ++ [next])
  end.

Fixpoint reach_from (fuel : nat) (to : AttemptState) (seen queue : list AttemptState) : bool :=
  match fuel, queue with
  | S fuel', current :: queue' =>
      match visit_next to (ATTEMPT_TRANSITIONS current) seen queue' with
      | None => true
      | Some (seen', queue'') => reach_from fuel' to seen' queue''
      end
  | _, _ => false
  end.

(** The search enters each of the eight states at most once. *)
Definition attemptTransitionReachable (from to : AttemptState) : bool := reach_from 9 to [from] [from].

(** ** What a job asks for *)

Record CapabilityRequirements := {
  rq_capabilities : list string;
  rq_os : option string;
  rq_cpu : option string;
  rq_memoryMb : option Z;
}.

Inductive TargetKind := target_device (enrollmentId : string) | target_auto | target_environment (environmentId : string).

Record RequestedTarget := { rt_kind : TargetKind; rt_requirements : option CapabilityRequirements }.

Record ExecutionManifest := {
  mf_workspaceDefinitionRevision : string;
  mf_repositories : list (string * string);
  mf_bootstrapDigest : string;
  mf_provider : string;
  mf_model : string;
  mf_configVersions : list (string * string);
  mf_inputs : json;
}.

(** ** Workers *)

Record DevicePolicy := {
  dp_allowJobs : bool;
  dp_maxPermissionMode : option string;
  dp_allowedSources : option (list string);
  dp_maxConcurrentJobs : option Z;
}.

Record WorkerCapabilities := {
  wc_os : string;
  wc_arch : string;
  wc_memoryMb : option Z;
  wc_capabilities : list string;
  wc_maxConcurrentJobs : option Z;
}.

(** Published capabilities, with the incarnation that published them. *)
Record StoredWorkerCapabilities := { st_capabilities : WorkerCapabilities; st_publishedForIncarnation : string }.

Record WorkerRow := {
  wk_account_id : string;
  wk_policy : DevicePolicy;
  wk_incarnation : option string;
  wk_capabilities : option StoredWorkerCapabilities;
  wk_connected_at : option Z;
  wk_last_seen_at : option Z;
  wk_lease_expires_at : option Z;
  wk_revoked_at : option Z;
  wk_created_at : Z;
}.

Record WorkerReplicaRow := {
  wr_definition_revision : string;
  wr_readiness : string;
  wr_observed_at : string;
  wr_updated_at : Z;
}.

(** ** Jobs and attempts *)

Record JobRow := {
  jb_account_id : string;
  jb_source_enrollment_id : string;
  jb_request_id : string;
  jb_payload_hash : string;
  jb_kind : JobKind;
  jb_requested_target : RequestedTarget;
  jb_target_enrollment_id : option string;
  jb_placement_explanation : string;
  jb_input_manifest : ExecutionManifest;
  jb_sealed_inputs : jsval;
  jb_result_recipients : option (list string);
  jb_state : JobState;
  jb_state_reason : option string;
  jb_queue_deadline : Z;
  jb_retry_policy : RetryPolicy;
  jb_retried : Z;
  jb_next_fence : Z;
  jb_active_attempt_id : option string;
  jb_terminal_at : option Z;
  jb_created_at : Z;
  jb_updated_at : Z;
}.

(** An outcome a worker reports. *)
Inductive AttemptOutcome := outcome_completed | outcome_failed.

#[export] Instance AttemptOutcome_eq_dec : EqDecision AttemptOutcome.
Proof. solve_decision. Defined.

(** A report that came too late, kept for inspection. *)
Record LateResult := { lr_outcome : AttemptOutcome; lr_result : jsval; lr_error : option string; lr_reportedAt : Z }.

Record AttemptRow := {
  att_job_id : string;
  att_worker_enrollment_id : string;
  att_worker_incarnation : string;
  att_fence : Z;
  att_state : AttemptState;
  att_lease_expires_at : Z;
  att_outcome : option AttemptOutcome;
  att_result : jsval;
  att_sealed_result : jsval;
  att_sealed_result_retention_until : option Z;
  att_error : option string;
  att_late_result : option LateResult;
  att_created_at : Z;
  att_updated_at : Z;
}.

Record ApprovalRow := {
  apr_account_id : string;
  apr_job_id : string;
  apr_attempt_id : string;
  apr_action_digest : string;
  apr_sealed_details : jsval;
  apr_generation : Z;
  apr_approver_enrollment_id : option string;
  apr_state : ApprovalState;
  apr_decided_by : option string;
  apr_decided_at : option Z;
  apr_expires_at : Z;
  apr_created_at : Z;
}.

(** The columns of an environment that jobs read. *)
Record EnvironmentRow := {
  env_account_id : string;
  env_provider : string;
  env_state : string;
  env_enrollment_id : option string;
  env_reaped_at : option Z;
}.

Record EventRow := {
  ev_attempt_id : string;
  ev_stream_id : string;
  ev_sequence : Z;
  ev_kind : string;
  ev_generation : Z;
  ev_payload : json;
  ev_created_at : Z;
}.

(** ** The database *)

(** The tables of an account that jobs use, next to those of synchronisation: the journal
    with, per job, the next event ([job_event_meta.next_event_seq]) and, per stream, the last
    sequence ([event_stream_cursors]). *)
Record JobDb := {
  jd_sync : SyncDb;
  jd_workers : gmap string WorkerRow;
  jd_replicas : gmap (string * string) WorkerReplicaRow;
  jd_jobs : gmap string JobRow;
  jd_attempts : gmap string AttemptRow;
  jd_approvals : gmap string ApprovalRow;
  jd_environments : gmap string EnvironmentRow;
  jd_bootstrap : gmap string string;
  jd_events : gmap (string * Z) EventRow;
  jd_next_event : gmap string Z;
  jd_cursors : gmap (string * string * string) Z;
}.

Definition initial_jobs : JobDb := {|
  jd_sync := initial_db; jd_workers := ∅; jd_replicas := ∅; jd_jobs := ∅; jd_attempts := ∅; jd_approvals := ∅;
  jd_environments := ∅; jd_bootstrap := ∅; jd_events := ∅; jd_next_event := ∅; jd_cursors := ∅ |}.

Definition put_sync (v : SyncDb) (s : JobDb) : JobDb := {|
  jd_sync := v; jd_workers := jd_workers s; jd_replicas := jd_replicas s; jd_jobs := jd_jobs s; jd_attempts :=
  jd_attempts s; jd_approvals := jd_approvals s; jd_environments := jd_environments s; jd_bootstrap :=
  jd_bootstrap s; jd_events := jd_events s; jd_next_event := jd_next_event s; jd_cursors := jd_cursors s |}.
Definition put_workers (v : gmap string WorkerRow) (s : JobDb) : JobDb := {|
  jd_sync := jd_sync s; jd_workers := v; jd_replicas := jd_replicas s; jd_jobs := jd_jobs s; jd_attempts :=
  jd_attempts s; jd_approvals := jd_approvals s; jd_environments := jd_environments s; jd_bootstrap :=
  jd_bootstrap s; jd_events := jd_events s; jd_next_event := jd_next_event s; jd_cursors := jd_cursors s |}.
Definition put_replicas (v : gmap (string * string) WorkerReplicaRow) (s : JobDb) : JobDb := {|
  jd_sync := jd_sync s; jd_workers := jd_workers s; jd_replicas := v; jd_jobs := jd_jobs s; jd_attempts :=
  jd_attempts s; jd_approvals := jd_approvals s; jd_environments := jd_environments s; jd_bootstrap :=
  jd_bootstrap s; jd_events := jd_events s; jd_next_event := jd_next_event s; jd_cursors := jd_cursors s |}.
Definition put_jobs (v : gmap string JobRow) (s : JobDb) : JobDb := {|
  jd_sync := jd_sync s; jd_workers := jd_workers s; jd_replicas := jd_replicas s; jd_jobs := v; jd_attempts :=
  jd_attempts s; jd_approvals := jd_approvals s; jd_environments := jd_environments s; jd_bootstrap :=
  jd_bootstrap s; jd_events := jd_events s; jd_next_event := jd_next_event s; jd_cursors := jd_cursors s |}.
Definition put_attempts (v : gmap string AttemptRow) (s : JobDb) : JobDb := {|
  jd_sync := jd_sync s; jd_workers := jd_workers s; jd_replicas := jd_replicas s; jd_jobs := jd_jobs s;
  jd_attempts := v; jd_approvals := jd_approvals s; jd_environments := jd_environments s; jd_bootstrap :=
  jd_bootstrap s; jd_events := jd_events s; jd_next_event := jd_next_event s; jd_cursors := jd_cursors s |}.
Definition put_approvals (v : gmap string ApprovalRow) (s : JobDb) : JobDb := {|
  jd_sync := jd_sync s; jd_workers := jd_workers s; jd_replicas := jd_replicas s; jd_jobs := jd_jobs s;
  jd_attempts := jd_attempts s; jd_approvals := v; jd_environments := jd_environments s; jd_bootstrap :=
  jd_bootstrap s; jd_events := jd_events s; jd_next_event := jd_next_event s; jd_cursors := jd_cursors s |}.
Definition put_environments (v : gmap string EnvironmentRow) (s : JobDb) : JobDb := {|
  jd_sync := jd_sync s; jd_workers := jd_workers s; jd_replicas := jd_replicas s; jd_jobs := jd_jobs s;
  jd_attempts := jd_attempts s; jd_approvals := jd_approvals s; jd_environments := v; jd_bootstrap := jd_bootstrap
  s; jd_events := jd_events s; jd_next_event := jd_next_event s; jd_cursors := jd_cursors s |}.
Definition put_bootstrap (v : gmap string string) (s : JobDb) : JobDb := {|
  jd_sync := jd_sync s; jd_workers := jd_workers s; jd_replicas := jd_replicas s; jd_jobs := jd_jobs s;
  jd_attempts := jd_attempts s; jd_approvals := jd_approvals s; jd_environments := jd_environments s; jd_bootstrap
  := v; jd_events := jd_events s; jd_next_event := jd_next_event s; jd_cursors := jd_cursors s |}.
Definition put_events (v : gmap (string * Z) EventRow) (s : JobDb) : JobDb := {|
  jd_sync := jd_sync s; jd_workers := jd_workers s; jd_replicas := jd_replicas s; jd_jobs := jd_jobs s;
  jd_attempts := jd_attempts s; jd_approvals := jd_approvals s; jd_environments := jd_environments s; jd_bootstrap
  := jd_bootstrap s; jd_events := v; jd_next_event := jd_next_event s; jd_cursors := jd_cursors s |}.
Definition put_next_event (v : gmap string Z) (s : JobDb) : JobDb := {|
  jd_sync := jd_sync s; jd_workers := jd_workers s; jd_replicas := jd_replicas s; jd_jobs := jd_jobs s;
  jd_attempts := jd_attempts s; jd_approvals := jd_approvals s; jd_environments := jd_environments s; jd_bootstrap
  := jd_bootstrap s; jd_events := jd_events s; jd_next_event := v; jd_cursors := jd_cursors s |}.
Definition put_cursors (v : gmap (string * string * string) Z) (s : JobDb) : JobDb := {|
  jd_sync := jd_sync s; jd_workers := jd_workers s; jd_replicas := jd_replicas s; jd_jobs := jd_jobs s;
  jd_attempts := jd_attempts s; jd_approvals := jd_approvals s; jd_environments := jd_environments s; jd_bootstrap
  := jd_bootstrap s; jd_events := jd_events s; jd_next_event := jd_next_event s; jd_cursors := v |}.

Abbreviation J A := (M JobDb A).

(** A statement on the tables of synchronisation. *)
Definition on_sync {A} (m : M SyncDb A) : J A := λ s, let '(r, d) := m (jd_sync s) in (r, put_sync d s).

Definition update_job (id : string) (f : JobRow → JobRow) : J unit :=
  modify (λ s, put_jobs (alter f id (jd_jobs s)) s).
Definition update_attempt (id : string) (f : AttemptRow → AttemptRow) : J unit :=
  modify (λ s, put_attempts (alter f id (jd_attempts s)) s).
Definition update_approval (id : string) (f : ApprovalRow → ApprovalRow) : J unit :=
  modify (λ s, put_approvals (alter f id (jd_approvals s)) s).
Definition update_worker (id : string) (f : WorkerRow → WorkerRow) : J unit :=
  modify (λ s, put_workers (alter f id (jd_workers s)) s).
