(* ===== verification/JobWire.v ===== *)
(** * Desktop app cloud: job requests on the wire

    The parameters of the calls on workers, jobs, attempts and approvals, as an account's
    coordinator parses them, [mezair-app/cloud/backend/src/account-coordinator.ts].
    [Date.parse] is a parameter. *)

From S2P Require Import WorkflowValidate.
From stdpp Require Import base list strings gmap.
From Stdlib Require Import ZArith Ascii.
From S2P Require Import Prelude Transactions JsString JsValue SyncWire SyncTables SyncLog JobTables.

(** ** Limits *)

Definition MAX_POLICY_SOURCES : Z := 100.
Definition MAX_CAPABILITY_ENTRIES : Z := 64.
Definition MAX_REPLICAS_PER_PUBLISH : Z := 256.
Definition MAX_CONCURRENT_JOBS : Z := 64.
Definition MAX_MANIFEST_REPOSITORIES : Z := 64.
Definition MAX_MANIFEST_CONFIG_ENTRIES : Z := 64.
Definition MAX_JOB_INPUTS_BYTES : Z := 32 * 1024.
Definition MAX_SEALED_JOB_INPUTS_BYTES : Z := 512 * 1024.
Definition MAX_MANIFEST_BYTES : Z := 64 * 1024.
Definition MAX_RESULT_RECIPIENTS : Z := 32.
Definition MAX_REPORT_RESULT_BYTES : Z := 64 * 1024.
Definition MAX_REPORT_ERROR_LENGTH : Z := 4096.
Definition MAX_ATTEMPT_RENEWALS : Z := 64.
Definition MAX_JOB_LIST_LIMIT : Z := 100.
Definition DEFAULT_JOB_LIST_LIMIT : Z := 50.
Definition MAX_APPROVAL_REASON_LENGTH : Z := 1024.

(** ** Values *)

Definition bounded_id (v : jsval) (failure : JsError) : outcome string :=
  match v with
  | Some (JStr s) => if isBoundedId v then Ok s else Throw failure
  | _ => Throw failure
  end.

(** An optional field: absent, or parsed. *)
Definition optionally {A} (parse : jsval → outcome A) (v : jsval) : outcome (option A) :=
  match v with None => Ok None | Some _ => a ← parse v; Ok (Some a) end.

Definition count (l : list json) : Z := Z.of_nat (length l).

(** The bounded ids of an array; [distinct] refuses one seen before. *)
Fixpoint bounded_ids (distinct : bool) (failure : JsError) (seen : list string) (l : list json) : outcome (list string) :=
  match l with
  | [] => Ok []
  | entry :: rest =>
      s ← bounded_id (Some entry) failure;
      if distinct && bool_decide (s ∈ seen) then Throw failure
      else ids ← bounded_ids distinct failure (s :: seen) rest; Ok (s :: ids)
  end.

Definition id_array (distinct : bool) (limit : Z) (failure : JsError) (v : jsval) : outcome (list string) :=
  match v with
  | Some (JArr l) => if limit <? count l then Throw failure else bounded_ids distinct failure [] l
  | _ => Throw failure
  end.

Definition integer_from (minimum : Z) (reason : string) (v : jsval) : outcome Z :=
  match integer_of v with
  | Some z => if z <? minimum then Throw (malformed reason) else Ok z
  | None => Throw (malformed reason)
  end.

Definition integer_range (minimum maximum : Z) (reason : string) (v : jsval) : outcome Z :=
  z ← integer_from minimum reason v;
  if maximum <? z then Throw (malformed reason) else Ok z.

(** ** Workers *)

Definition parseOptionalConcurrency (v : jsval) (reason : string) : outcome (option Z) :=
  optionally (integer_range 1 MAX_CONCURRENT_JOBS reason) v.

Definition isPermissionMode (v : jsval) : bool :=
  match v with Some (JStr s) => bool_decide (s ∈ PERMISSION_MODES) | _ => false end.

Definition permission_mode (v : jsval) : outcome string :=
  match v with
  | Some (JStr s) => if isPermissionMode v then Ok s else Throw (malformed "maxPermissionMode")
  | _ => Throw (malformed "maxPermissionMode")
  end.

Definition parseDevicePolicyParams (params : json) : outcome DevicePolicy :=
  _ ← require (isRecord (Some params)) "policy-params";
  let worker := prop "worker" (Some params) in
  _ ← require (isRecord worker) "worker-section-required";
  allowJobs ← match prop "allowJobs" worker with Some (JBool b) => Ok b | _ => Throw (malformed "allowJobs") end;
  mode ← optionally permission_mode (prop "maxPermissionMode" worker);
  sources ← optionally (id_array true MAX_POLICY_SOURCES (malformed "allowedSources")) (prop "allowedSources" worker);
  jobs ← parseOptionalConcurrency (prop "maxConcurrentJobs" worker) "maxConcurrentJobs";
  Ok {| dp_allowJobs := allowJobs; dp_maxPermissionMode := mode; dp_allowedSources := sources; dp_maxConcurrentJobs := jobs |}.

Definition parseWorkerCapabilitiesParams (params : json) : outcome WorkerCapabilities :=
  let field k := prop k (Some params) in
  _ ← require (isRecord (Some params)) "capabilities-params";
  os ← bounded_id (field "os") (malformed "os");
  arch ← bounded_id (field "arch") (malformed "arch");
  memoryMb ← optionally (integer_from 1 "memoryMb") (field "memoryMb");
  capabilities ← id_array true MAX_CAPABILITY_ENTRIES (malformed "capabilities") (field "capabilities");
  jobs ← parseOptionalConcurrency (field "maxConcurrentJobs") "maxConcurrentJobs";
  Ok {| wc_os := os; wc_arch := arch; wc_memoryMb := memoryMb; wc_capabilities := capabilities;
        wc_maxConcurrentJobs := jobs |}.

Record ReplicaSummary := {
  rs_workspaceId : string; rs_definitionRevision : string; rs_readiness : string; rs_observedAt : string;
}.

Definition isReplicaReadiness (v : jsval) : bool :=
  is_str "ready" v || is_str "cloning" v || is_str "error" v || is_str "not-ready" v.

Section Wire.
Context (date_parse : string → option Z).

Definition is_date (v : jsval) : bool :=
  match v with Some (JStr s) => negb (bool_decide (date_parse s = None)) | _ => false end.

Fixpoint parse_replicas (seen : list string) (l : list json) : outcome (list ReplicaSummary) :=
  match l with
  | [] => Ok []
  | entry :: rest =>
      let field k := prop k (Some entry) in
      _ ← require (isRecord (Some entry)) "replica-object";
      workspaceId ← bounded_id (field "workspaceId") (malformed "workspaceId");
      _ ← require (negb (bool_decide (workspaceId ∈ seen))) "replica-duplicate";
      revision ← bounded_id (field "definitionRevision") (malformed "definitionRevision");
      _ ← require (isReplicaReadiness (field "readiness")) "readiness";
      _ ← require (is_date (field "observedAt")) "observedAt";
      replicas ← parse_replicas (workspaceId :: seen) rest;
      Ok ({| rs_workspaceId := workspaceId; rs_definitionRevision := revision;
             rs_readiness := to_js_string (field "readiness"); rs_observedAt := to_js_string (field "observedAt") |} :: replicas)
  end.

Definition parseReplicaPublishParams (params : json) : outcome (list ReplicaSummary) :=
  match prop "replicas" (Some params) with
  | Some (JArr l) =>
      if MAX_REPLICAS_PER_PUBLISH <? count l then
        Throw (too_large [("limit", int_to_string MAX_REPLICAS_PER_PUBLISH); ("actual", int_to_string (count l))])
      else parse_replicas [] l
  | _ => Throw (malformed "replicas-required")
  end.

(** ** Jobs *)

Definition isJobKind (v : jsval) : option JobKind :=
  match v with
  | Some (JStr s) =>
      list_find (λ k, job_kind_text k = s)
        [kind_diagnostic; kind_prepare_workspace; kind_start_session; kind_code_task; kind_workflow_node;
         kind_provision_environment] ≫= λ p, Some p.2
  | _ => None
  end.

Definition isJobState (v : jsval) : option JobState :=
  match v with
  | Some (JStr s) =>
      list_find (λ k, job_state_text k = s)
        [job_queued; job_running; job_awaiting_approval; job_completed; job_failed; job_cancel_requested;
         job_cancelled; job_unknown_outcome] ≫= λ p, Some p.2
  | _ => None
  end.

Definition isRetryPolicy (v : jsval) : option RetryPolicy :=
  match v with
  | Some (JStr s) =>
      if String.eqb s "safe" then Some retry_safe
      else if String.eqb s "inspect-before-retry" then Some retry_inspect
      else if String.eqb s "never" then Some retry_never else None
  | _ => None
  end.

Definition sealedTaskEnvelopeIssue (value : json) : option string :=
  let field k := prop k (Some value) in
  if negb (isObject (Some value)) then Some "envelope-not-object"
  else if negb (is_str "aes-256-gcm" (field "enc")) then Some "envelope-unknown-alg"
  else match field "nonce" with
  | Some (JStr nonce) =>
      if negb (bool_decide (base64ByteLength nonce = Some SEALED_NONCE_BYTES)) then Some "envelope-bad-nonce"
      else match field "ct" with
      | Some (JStr ct) =>
          if slen ct =? 0 then Some "envelope-bad-ct"
          else match base64ByteLength ct with
               | Some n => if n <? 16 then Some "envelope-bad-ct" else None
               | None => Some "envelope-bad-ct"
               end
      | _ => Some "envelope-bad-ct"
      end
  | _ => Some "envelope-bad-nonce"
  end.

(** A value whose JSON text has a limit. *)
Definition within_bytes (limit : Z) (field : string) (value : json) : outcome unit :=
  let bytes := json_bytes value in
  if limit <? bytes then
    Throw (too_large [("limitBytes", int_to_string limit); ("actualBytes", int_to_string bytes); ("field", field)])
  else Ok tt.

Definition parseSealedTaskPayload (v : jsval) (field : string) : outcome jsval :=
  match v with
  | None => Ok None
  | Some value =>
      match sealedTaskEnvelopeIssue value with
      | Some issue => Throw (RpcFailure "malformed-request" [("reason", field); ("issue", issue)])
      | None => _ ← within_bytes MAX_SEALED_JOB_INPUTS_BYTES field value; Ok (Some value)
      end
  end.

Definition parseResultRecipients : jsval → outcome (option (list string)) :=
  optionally (id_array false MAX_RESULT_RECIPIENTS (malformed "resultRecipients")).

Definition parseCapabilityRequirements (v : jsval) : outcome CapabilityRequirements :=
  let field k := prop k v in
  _ ← require (isRecord v) "requirements";
  capabilities ← id_array false MAX_CAPABILITY_ENTRIES (malformed "requirements.capabilities") (field "capabilities");
  os ← optionally (λ v, bounded_id v (malformed "requirements.os")) (field "os");
  cpu ← optionally (λ v, bounded_id v (malformed "requirements.cpu")) (field "cpu");
  memoryMb ← optionally (integer_from 1 "requirements.memoryMb") (field "memoryMb");
  Ok {| rq_capabilities := capabilities; rq_os := os; rq_cpu := cpu; rq_memoryMb := memoryMb |}.

Definition parseRequestedTarget (v : jsval) : outcome RequestedTarget :=
  _ ← require (isRecord v) "requestedTarget";
  requirements ← optionally parseCapabilityRequirements (prop "requirements" v);
  let kind := prop "kind" v in
  if is_str "device" kind then
    enrollmentId ← bounded_id (prop "enrollmentId" v) (malformed "requestedTarget.enrollmentId");
    Ok {| rt_kind := target_device enrollmentId; rt_requirements := requirements |}
  else if is_str "auto" kind then Ok {| rt_kind := target_auto; rt_requirements := requirements |}
  else if is_str "environment" kind then
    environmentId ← bounded_id (prop "environmentId" v) (malformed "requestedTarget.environmentId");
    Ok {| rt_kind := target_environment environmentId; rt_requirements := requirements |}
  else Throw (malformed "requestedTarget.kind").

Definition parse_repository (entry : json) : outcome (string * string) :=
  let failure := malformed "manifest.repositories" in
  if negb (isRecord (Some entry)) then Throw failure
  else
    repositoryId ← bounded_id (prop "repositoryId" (Some entry)) failure;
    commit ← bounded_id (prop "commit" (Some entry)) failure;
    Ok (repositoryId, commit).

(** [configVersions[key] = value]: an assignment to [__proto__] of a string does nothing. *)
Definition parse_config_entry (entry : string * json) : outcome (string * string) :=
  let failure := malformed "manifest.configVersions" in
  key ← bounded_id (Some (JStr entry.1)) failure;
  value ← bounded_id (Some entry.2) failure;
  Ok (key, value).

Definition PUBLIC_MANIFEST_INPUT_KEYS : list string :=
  ["workspaceId"; "environmentId"; "provider"; "ttlSeconds"; "imageRef"; "networkPolicy"; "resources"; "connectionId";
   "displayName"; "hostedRemoteChat"].

(** [JSON.stringify(manifest)]. *)
Definition manifest_json (m : ExecutionManifest) : json := JObj [
  ("workspaceDefinitionRevision", JStr (mf_workspaceDefinitionRevision m));
  ("repositories", JArr (map (λ r, JObj [("repositoryId", JStr r.1); ("commit", JStr r.2)]) (mf_repositories m)));
  ("bootstrapDigest", JStr (mf_bootstrapDigest m)); ("provider", JStr (mf_provider m)); ("model", JStr (mf_model m));
  ("configVersions", JObj (map (λ e, (e.1, JStr e.2)) (mf_configVersions m))); ("inputs", mf_inputs m)].

Definition parseExecutionManifest (v : jsval) : outcome ExecutionManifest :=
  let field k := prop k v in
  let bounded k := bounded_id (field k) (malformed ("manifest." +:+ k)) in
  _ ← require (isRecord v) "inputManifest";
  revision ← bounded "workspaceDefinitionRevision";
  digest ← bounded "bootstrapDigest";
  provider ← bounded "provider";
  model ← bounded "model";
  repositories ← match field "repositories" with
                 | Some (JArr l) =>
                     if MAX_MANIFEST_REPOSITORIES <? count l then Throw (malformed "manifest.repositories")
                     else map_outcome parse_repository l
                 | _ => Throw (malformed "manifest.repositories")
                 end;
  config ← match field "configVersions" with
           | Some (JObj l) =>
               if MAX_MANIFEST_CONFIG_ENTRIES <? Z.of_nat (length l) then Throw (malformed "manifest.configVersions")
               else map_outcome parse_config_entry l
           | _ => Throw (malformed "manifest.configVersions")
           end;
  match field "inputs" with
  | Some (JObj l) =>
      match find (λ e, negb (bool_decide (e.1 ∈ PUBLIC_MANIFEST_INPUT_KEYS))) l with
      | Some (key, _) =>
          Throw (RpcFailure "malformed-request" [("reason", "manifest.inputs"); ("key", key); ("issue", "non-public-input-key")])
      | None =>
          _ ← within_bytes MAX_JOB_INPUTS_BYTES "manifest.inputs" (JObj l);
          let manifest := {|
            mf_workspaceDefinitionRevision := revision; mf_repositories := repositories; mf_bootstrapDigest := digest;
            mf_provider := provider; mf_model := model;
            mf_configVersions := filter (λ e, e.1 ≠ "__proto__") config; mf_inputs := JObj l |} in
          _ ← within_bytes MAX_MANIFEST_BYTES "inputManifest" (manifest_json manifest);
          Ok manifest
      end
  | _ => Throw (malformed "manifest.inputs")
  end.

Record JobCreateParams := {
  jc_requestId : string;
  jc_payloadHash : string;
  jc_kind : JobKind;
  jc_requestedTarget : RequestedTarget;
  jc_inputManifest : ExecutionManifest;
  jc_sealedInputs : jsval;
  jc_resultRecipients : option (list string);
  jc_queueDeadline : option string;
  jc_retryPolicy : RetryPolicy;
}.

Definition parseJobCreateParams (params : json) : outcome JobCreateParams :=
  let field k := prop k (Some params) in
  _ ← require (isRecord (Some params)) "create-params";
  requestId ← bounded_id (field "requestId") (malformed "requestId");
  payloadHash ← match field "payloadHash" with
                | Some (JStr s) => if is_hash s then Ok s else Throw (malformed "payloadHash")
                | _ => Throw (malformed "payloadHash")
                end;
  kind ← match isJobKind (field "kind") with Some k => Ok k | None => Throw (malformed "kind") end;
  target ← parseRequestedTarget (field "requestedTarget");
  manifest ← parseExecutionManifest (field "inputManifest");
  sealedInputs ← parseSealedTaskPayload (field "sealedInputs") "sealedInputs";
  recipients ← parseResultRecipients (field "resultRecipients");
  deadline ← match field "queueDeadline" with
             | None => Ok None
             | Some (JStr s) => if is_date (Some (JStr s)) then Ok (Some s) else Throw (malformed "queueDeadline")
             | Some _ => Throw (malformed "queueDeadline")
             end;
  retry ← match field "retryPolicy" with
          | None => Ok retry_inspect
          | v => match isRetryPolicy v with Some r => Ok r | None => Throw (malformed "retryPolicy") end
          end;
  Ok {| jc_requestId := requestId; jc_payloadHash := payloadHash; jc_kind := kind; jc_requestedTarget := target;
        jc_inputManifest := manifest; jc_sealedInputs := sealedInputs; jc_resultRecipients := recipients;
        jc_queueDeadline := deadline; jc_retryPolicy := retry |}.
End Wire.

Definition parseJobIdParams (params : json) : outcome string :=
  if isRecord (Some params) then bounded_id (prop "jobId" (Some params)) (malformed "jobId") else Throw (malformed "jobId").

Record JobListParams := { jl_state : option JobState; jl_requestId : option string; jl_limit : Z }.

Definition parseJobListParams (params : json) : outcome JobListParams :=
  let field k := prop k (Some params) in
  _ ← require (isRecord (Some params)) "list-params";
  state ← optionally (λ v, match isJobState v with Some s => Ok s | None => Throw (malformed "state") end) (field "state");
  limit ← optionally (integer_range 1 MAX_JOB_LIST_LIMIT "limit") (field "limit");
  requestId ← optionally (λ v, bounded_id v (malformed "requestId")) (field "requestId");
  Ok {| jl_state := state; jl_requestId := requestId; jl_limit := default DEFAULT_JOB_LIST_LIMIT limit |}.

(** ** Attempts *)

Record AttemptRenewalRequest := { ar_attemptId : string; ar_incarnation : string; ar_fence : Z }.

(** [Number.isSafeInteger(fence) && fence >= 1]. *)
Definition fence_of (v : jsval) : outcome Z :=
  match safe_integer_of v with
  | Some z => if z <? 1 then Throw (malformed "fence") else Ok z
  | None => Throw (malformed "fence")
  end.

Definition parse_renewal (entry : json) : outcome AttemptRenewalRequest :=
  let field k := prop k (Some entry) in
  _ ← require (isRecord (Some entry)) "renewal";
  attemptId ← bounded_id (field "attemptId") (malformed "renewal");
  incarnation ← bounded_id (field "incarnation") (malformed "renewal");
  fence ← fence_of (field "fence");
  Ok {| ar_attemptId := attemptId; ar_incarnation := incarnation; ar_fence := fence |}.

Definition parseAttemptRenewParams (params : json) : outcome (list AttemptRenewalRequest) :=
  match prop "renewals" (Some params) with
  | Some (JArr l) =>
      if (count l <? 1) || (MAX_ATTEMPT_RENEWALS <? count l) then Throw (malformed "renewals") else map_outcome parse_renewal l
  | _ => Throw (malformed "renewals-required")
  end.

Record ParsedAttemptReport := {
  rep_attemptId : string;
  rep_incarnation : string;
  rep_fence : Z;
  rep_outcome : AttemptOutcome;
  rep_result : jsval;
  rep_sealedResult : jsval;
  rep_error : option string;
}.

Definition parseAttemptReportParams (params : json) : outcome ParsedAttemptReport :=
  let field k := prop k (Some params) in
  _ ← require (isRecord (Some params)) "report-params";
  attemptId ← bounded_id (field "attemptId") (malformed "attemptId");
  incarnation ← bounded_id (field "incarnation") (malformed "incarnation");
  fence ← fence_of (field "fence");
  outcome ← (if is_str "completed" (field "outcome") then Ok outcome_completed
             else if is_str "failed" (field "outcome") then Ok outcome_failed else Throw (malformed "outcome"));
  _ ← match field "result" with None => Ok tt | Some r => within_bytes MAX_REPORT_RESULT_BYTES "result" r end;
  _ ← match field "sealedResult" with
      | None => Ok tt
      | Some r => match sealedTaskEnvelopeIssue r with
                  | Some issue => Throw (RpcFailure "malformed-request" [("reason", "sealedResult"); ("issue", issue)])
                  | None => within_bytes MAX_REPORT_RESULT_BYTES "sealedResult" r
                  end
      end;
  error ← match field "error" with
          | None => Ok None
          | Some (JStr s) => if (slen s =? 0) || (MAX_REPORT_ERROR_LENGTH <? slen s) then Throw (malformed "error") else Ok (Some s)
          | Some _ => Throw (malformed "error")
          end;
  Ok {| rep_attemptId := attemptId; rep_incarnation := incarnation; rep_fence := fence; rep_outcome := outcome;
        rep_result := field "result"; rep_sealedResult := field "sealedResult"; rep_error := error |}.

(** ** Approvals *)

Record ApprovalDecideParams := { ad_approvalId : string; ad_approved : bool; ad_reason : option string }.

Definition parseApprovalDecideParams (params : json) : outcome ApprovalDecideParams :=
  let field k := prop k (Some params) in
  _ ← require (isRecord (Some params)) "decide-params";
  approvalId ← bounded_id (field "approvalId") (malformed "approvalId");
  approved ← (if is_str "approved" (field "decision") then Ok true
              else if is_str "denied" (field "decision") then Ok false else Throw (malformed "decision"));
  reason ← match field "reason" with
           | None => Ok None
           | Some (JStr s) => if (slen s =? 0) || (MAX_APPROVAL_REASON_LENGTH <? slen s) then Throw (malformed "reason") else Ok (Some s)
           | Some _ => Throw (malformed "reason")
           end;
  Ok {| ad_approvalId := approvalId; ad_approved := approved; ad_reason := reason |}.

Inductive ApprovalSelector := by_approval (id : string) | by_job (id : string) | by_attempt (id : string).

Definition parseApprovalGetParams (params : json) : outcome ApprovalSelector :=
  let optional_id k := optionally (λ v, bounded_id v (malformed k)) (prop k (Some params)) in
  _ ← require (isRecord (Some params)) "get-params";
  approvalId ← optional_id "approvalId";
  jobId ← optional_id "jobId";
  attemptId ← optional_id "attemptId";
  match approvalId, jobId, attemptId with
  | Some id, None, None => Ok (by_approval id)
  | None, Some id, None => Ok (by_job id)
  | None, None, Some id => Ok (by_attempt id)
  | _, _, _ => Throw (malformed "selector")
  end.
