(* ===== verification/JobCoordinator.v ===== *)
(** * Desktop app cloud: transitions of jobs, workers, placement and creation

    The conditional transitions of jobs, attempts and approvals, each with its event in the
    journal; workers that opt in to run jobs and hold an incarnation by a lease; the placement
    of a job and its creation, [mezair-app/cloud/backend/src/account-coordinator.ts].  Fresh ids
    are arguments; an answer carries the rows its views are built from.  Messages to sockets,
    metrics, alarms and the archive of sealed inputs and results are left out. *)

From stdpp Require Import base list strings gmap.
From Stdlib Require Import ZArith Ascii.
From S2P Require Import Prelude Transactions JsString JsValue SyncWire SyncTables SyncLog SyncData JobTables JobWire.

(** ** Transitions of jobs and their journal

    The journal of durable events, and the conditional transitions of jobs, attempts and
    approvals, each of which it records,
    [mezair-app/cloud/backend/src/account-coordinator.ts].  [now] is [Date.now()], which in a
    Worker does not advance within a request.  Delivery of events to sockets is left out. *)

(** ** The journal *)

Definition LIFECYCLE_STREAM_ID : string := "lifecycle".

(** The row of a job's counters is created with the first event. *)
Definition allocEventSeq (jobId : string) : J Z :=
  next ← gets (λ s, default 1 (jd_next_event s !! jobId));
  _ ← modify (λ s, put_next_event (<[jobId := next + 1]> (jd_next_event s)) s);
  mret next.

Definition bumpEventStreamCursor (jobId attemptId streamId : string) (sequence : Z) : J unit :=
  modify (λ s, put_cursors (<[(jobId, attemptId, streamId) :=
    match jd_cursors s !! (jobId, attemptId, streamId) with Some last => Z.max last sequence | None => sequence end]>
    (jd_cursors s)) s).

(** The events of a stream. *)
Definition in_stream (jobId attemptId streamId : string) (e : (string * Z) * EventRow) : bool :=
  String.eqb e.1.1 jobId && String.eqb (ev_attempt_id e.2) attemptId && String.eqb (ev_stream_id e.2) streamId.

(** [COALESCE(MAX(sequence), 0) + 1]. *)
Definition next_in_stream (jobId attemptId streamId : string) (events : gmap (string * Z) EventRow) : Z :=
  foldr (λ e n, Z.max (ev_sequence e.2) n) 0 (filter (in_stream jobId attemptId streamId) (map_to_list events)) + 1.

(** The unique index on a stream's sequences. *)
Definition stream_taken (jobId attemptId streamId : string) (sequence : Z) (events : gmap (string * Z) EventRow) : bool :=
  existsb (λ e, in_stream jobId attemptId streamId e && (ev_sequence e.2 =? sequence)) (map_to_list events).

Definition journalDurableEvent (now : Z) (jobId attemptId : string) (generation : Z) (kind : string) (payload : json) : J unit :=
  eventSeq ← allocEventSeq jobId;
  sequence ← gets (λ s, match jd_cursors s !! (jobId, attemptId, LIFECYCLE_STREAM_ID) with
                        | Some last => last + 1
                        | None => next_in_stream jobId attemptId LIFECYCLE_STREAM_ID (jd_events s)
                        end);
  taken ← gets (λ s, stream_taken jobId attemptId LIFECYCLE_STREAM_ID sequence (jd_events s));
  _ ← ensure (negb taken) unique_violation;
  _ ← insert_row jd_events put_events (jobId, eventSeq) {|
        ev_attempt_id := attemptId; ev_stream_id := LIFECYCLE_STREAM_ID; ev_sequence := sequence; ev_kind := kind;
        ev_generation := generation; ev_payload := payload; ev_created_at := now |};
  _ ← bumpEventStreamCursor jobId attemptId LIFECYCLE_STREAM_ID sequence;
  on_sync (bumpCounter "events_journaled" 1).

(** ** Transitions *)

(** What a transition sets beside the state; [None] keeps what the row has. *)
Record JobExtras := {
  ex_stateReason : option (option string);
  ex_activeAttemptId : option (option string);
  ex_queueDeadline : option Z;
  ex_retried : option Z;
  ex_nextFence : option Z;
}.

Definition because (reason : string) : JobExtras := {|
  ex_stateReason := Some (Some reason); ex_activeAttemptId := None; ex_queueDeadline := None; ex_retried := None;
  ex_nextFence := None |}.

(** [{ stateReason, activeAttemptId: null }]. *)
Definition released (reason : option string) : JobExtras := {|
  ex_stateReason := Some reason; ex_activeAttemptId := Some None; ex_queueDeadline := None; ex_retried := None;
  ex_nextFence := None |}.

Definition with_job_state (target : JobState) (now : Z) (x : JobExtras) (r : JobRow) : JobRow := {|
  jb_account_id := jb_account_id r; jb_source_enrollment_id := jb_source_enrollment_id r;
  jb_request_id := jb_request_id r; jb_payload_hash := jb_payload_hash r; jb_kind := jb_kind r;
  jb_requested_target := jb_requested_target r; jb_target_enrollment_id := jb_target_enrollment_id r;
  jb_placement_explanation := jb_placement_explanation r; jb_input_manifest := jb_input_manifest r;
  jb_sealed_inputs := jb_sealed_inputs r; jb_result_recipients := jb_result_recipients r;
  jb_state := target; jb_state_reason := default (jb_state_reason r) (ex_stateReason x);
  jb_queue_deadline := default (jb_queue_deadline r) (ex_queueDeadline x); jb_retry_policy := jb_retry_policy r;
  jb_retried := default (jb_retried r) (ex_retried x); jb_next_fence := default (jb_next_fence r) (ex_nextFence x);
  jb_active_attempt_id := default (jb_active_attempt_id r) (ex_activeAttemptId x);
  jb_terminal_at := if isTerminalJobState target then Some (default now (jb_terminal_at r)) else jb_terminal_at r;
  jb_created_at := jb_created_at r; jb_updated_at := now |}.

Definition opt_entry (key : string) (v : option string) : list (string * json) :=
  match v with Some s => [(key, JStr s)] | None => [] end.

(** The columns a transition writes, from the caller's copy [row] of the job's row. *)
Definition completed_with (row : JobRow) (x : JobExtras) : JobExtras := {|
  ex_stateReason := Some (default (jb_state_reason row) (ex_stateReason x));
  ex_activeAttemptId := Some (default (jb_active_attempt_id row) (ex_activeAttemptId x));
  ex_queueDeadline := Some (default (jb_queue_deadline row) (ex_queueDeadline x));
  ex_retried := Some (default (jb_retried row) (ex_retried x));
  ex_nextFence := Some (default (jb_next_fence row) (ex_nextFence x)) |}.

Definition setJobState (id : string) (row : JobRow) (target : JobState) (now : Z) (x : JobExtras) : J unit :=
  if negb (canTransitionJob (jb_state row) target) then
    throw (RpcFailure "unavailable" [("reason", "illegal-job-transition"); ("from", job_state_text (jb_state row));
      ("to", job_state_text target)])
  else
    _ ← update_job id (with_job_state target now (completed_with row x));
    journalDurableEvent now id "" 0 "job.state" (JObj ([("from", JStr (job_state_text (jb_state row)));
      ("to", JStr (job_state_text target))] ++
      opt_entry "stateReason" (default (jb_state_reason row) (ex_stateReason x)))).

Definition with_attempt_state (target : AttemptState) (now : Z) (r : AttemptRow) : AttemptRow := {|
  att_job_id := att_job_id r; att_worker_enrollment_id := att_worker_enrollment_id r;
  att_worker_incarnation := att_worker_incarnation r; att_fence := att_fence r; att_state := target;
  att_lease_expires_at := att_lease_expires_at r; att_outcome := att_outcome r; att_result := att_result r;
  att_sealed_result := att_sealed_result r; att_sealed_result_retention_until := att_sealed_result_retention_until r;
  att_error := att_error r; att_late_result := att_late_result r; att_created_at := att_created_at r;
  att_updated_at := now |}.

Definition setAttemptState (id : string) (row : AttemptRow) (target : AttemptState) (now : Z) : J unit :=
  if bool_decide (att_state row = target) then mret tt
  else if negb (attemptTransitionReachable (att_state row) target) then
    throw (RpcFailure "unavailable" [("reason", "illegal-attempt-transition"); ("from", attempt_state_text (att_state row));
      ("to", attempt_state_text target)])
  else
    _ ← update_attempt id (with_attempt_state target now);
    journalDurableEvent now (att_job_id row) id (att_fence row) "attempt.state"
      (JObj [("from", JStr (attempt_state_text (att_state row))); ("to", JStr (attempt_state_text target))]).

(** ** Rows that must be there *)

Definition corrupt (reason : string) : JsError := RpcFailure "unavailable" [("reason", reason)].

Definition required {A} (row : option A) (failure : JsError) : J A :=
  match row with Some r => mret r | None => throw failure end.

Definition readJobRequired (id : string) : J JobRow := job ← gets (λ s, jd_jobs s !! id); required job (corrupt "corrupt-job").

Definition readAttemptRequired (id : string) : J AttemptRow :=
  attempt ← gets (λ s, jd_attempts s !! id); required attempt (corrupt "corrupt-attempt").

(** ** Approvals that lapse *)

Definition with_approval_state (target : ApprovalState) (decidedBy : option string) (now : Z) (r : ApprovalRow) : ApprovalRow := {|
  apr_account_id := apr_account_id r; apr_job_id := apr_job_id r; apr_attempt_id := apr_attempt_id r;
  apr_action_digest := apr_action_digest r; apr_sealed_details := apr_sealed_details r;
  apr_generation := apr_generation r; apr_approver_enrollment_id := apr_approver_enrollment_id r;
  apr_state := target; apr_decided_by := decidedBy; apr_decided_at := Some now; apr_expires_at := apr_expires_at r;
  apr_created_at := apr_created_at r |}.

Definition setApprovalState (id : string) (target : ApprovalState) (now : Z) (decidedBy : option string) : J unit :=
  update_approval id (with_approval_state target decidedBy now).

(** [approval.decided] with the entries of its payload after the id. *)
Definition journal_decided (now : Z) (id : string) (row : ApprovalRow) (entries : list (string * json)) : J unit :=
  journalDurableEvent now (apr_job_id row) (apr_attempt_id row) (apr_generation row) "approval.decided"
    (JObj (("approvalId", JStr id) :: entries)).

Definition expireApprovalIfDue (now : Z) (id : string) (row : ApprovalRow) : J unit :=
  if bool_decide (apr_state row = ap_pending) && (apr_expires_at row <=? now) then
    _ ← setApprovalState id ap_expired now None;
    journal_decided now id row [("outcome", JStr "expired")]
  else mret tt.

Definition pending_of (jobId : string) (_ : string) (r : ApprovalRow) : bool :=
  String.eqb (apr_job_id r) jobId && bool_decide (apr_state r = ap_pending).

Definition expireJobApprovals (now : Z) (jobId : string) : J unit :=
  due ← gets (λ s, some_rows (λ id r, pending_of jobId id r && (apr_expires_at r <=? now)) (jd_approvals s));
  _ ← for_each due (λ p _, expireApprovalIfDue now p.1 p.2) tt;
  if 0 <? Z.of_nat (length due) then on_sync (bumpCounter "sweep_approvals_expired" (Z.of_nat (length due))) else mret tt.

Definition cancelPendingApprovals (now : Z) (jobId : string) (except : option string) : J unit :=
  pending ← gets (λ s, some_rows (pending_of jobId) (jd_approvals s));
  let due := filter (λ p, Some p.1 ≠ except) pending in
  _ ← for_each due (λ p _,
        _ ← setApprovalState p.1 ap_cancelled now None;
        journal_decided now p.1 p.2 [("outcome", JStr "cancelled")]) tt;
  if 0 <? Z.of_nat (length due) then on_sync (bumpCounter "approvals_cancelled" (Z.of_nat (length due))) else mret tt.

Definition USER_JOB_DEADLINE_MS : Z := 10 * 60 * 1000.
Definition LEASE_DURATION_MS : Z := 120000.
Definition WORKER_LEASE_MS : Z := 3 * 30000.
Definition MAX_QUEUE_DEADLINE_HORIZON_MS : Z := 24 * 60 * 60 * 1000.
Definition ATTEMPT_UNKNOWN_GRACE_MS : Z := LEASE_DURATION_MS.
Definition WORKER_AUDIT_RETENTION_MS : Z := 30 * 24 * 60 * 60 * 1000.
Definition SAME_ACCOUNT_SOURCE : string := "same-account".
Definition MANAGED_PROVISIONER_ENROLLMENT : string := "mezair-managed".
Definition MANAGED_PROVISIONER_INCARNATION : string := "managed".
Definition MANAGED_PROVISION_BUDGET_MS : Z := 10 * 60 * 1000.
Definition MANAGED_PROVISION_BATCH : nat := 4.

Definition not_allowed (details : list (string * string)) : JsError := RpcFailure "forbidden" details.
Definition conflict (details : list (string * string)) : JsError := RpcFailure "conflict" details.
Definition missing (reason : string) : JsError := RpcFailure "not-found" [("reason", reason)].

(** ** Workers *)

Definition isLeaseLive (row : WorkerRow) (now : Z) : bool :=
  match wk_incarnation row, wk_lease_expires_at row with
  | Some _, Some t => now <? t
  | _, _ => false
  end.

Definition policyAllowsSource (policy : DevicePolicy) (source worker : string) : bool :=
  String.eqb source worker ||
  match dp_allowedSources policy with
  | None => false
  | Some sources => bool_decide (source ∈ sources) || bool_decide (SAME_ACCOUNT_SOURCE ∈ sources)
  end.

Definition effectiveConcurrencyCap (policy : DevicePolicy) (capabilities : option StoredWorkerCapabilities) : Z :=
  Z.min (Z.min (default MAX_CONCURRENT_JOBS (dp_maxConcurrentJobs policy))
               (default MAX_CONCURRENT_JOBS (c ← capabilities; wc_maxConcurrentJobs (st_capabilities c))))
        MAX_CONCURRENT_JOBS.

Definition capabilitiesSatisfy (capabilities : option StoredWorkerCapabilities)
    (requirements : option CapabilityRequirements) (workerIncarnation : option string) : bool :=
  match requirements with
  | None => true
  | Some q =>
      match capabilities, workerIncarnation with
      | Some stored, Some incarnation =>
          let c := st_capabilities stored in
          String.eqb (st_publishedForIncarnation stored) incarnation &&
          forallb (λ r, bool_decide (r ∈ wc_capabilities c)) (rq_capabilities q) &&
          match rq_os q with Some os => String.eqb (wc_os c) os | None => true end &&
          match rq_cpu q with Some cpu => String.eqb (wc_arch c) cpu | None => true end &&
          match rq_memoryMb q with
          | Some mb => match wc_memoryMb c with Some have => mb <=? have | None => false end
          | None => true
          end
      | _, _ => false
      end
  end.

Definition requireWorker (auth : SpikeAuth) : J WorkerRow :=
  row ← gets (λ s, jd_workers s !! sa_enrollmentId auth);
  match row with
  | Some r =>
      if negb (String.eqb (wk_account_id r) (sa_accountId auth)) then throw (not_allowed [("reason", "worker-policy-required")])
      else if negb (bool_decide (wk_revoked_at r = None)) then throw (not_allowed [("reason", "worker-revoked")])
      else if negb (dp_allowJobs (wk_policy r)) then throw (not_allowed [("reason", "jobs-not-allowed")])
      else mret r
  | None => throw (not_allowed [("reason", "worker-policy-required")])
  end.

Definition requireLiveIncarnation (row : WorkerRow) (now : Z) : J unit :=
  ensure (isLeaseLive row now) (not_allowed [("reason", "worker-not-connected")]).

(** [ON CONFLICT DO UPDATE]: a revoked worker starts afresh. *)
Definition policy_row (now : Z) (auth : SpikeAuth) (policy : DevicePolicy) (old : option WorkerRow) : WorkerRow :=
  let kept {A} (f : WorkerRow → option A) : option A :=
    match old with Some r => if bool_decide (wk_revoked_at r = None) then f r else None | None => None end in {|
  wk_account_id := sa_accountId auth; wk_policy := policy; wk_incarnation := kept wk_incarnation;
  wk_capabilities := old ≫= wk_capabilities; wk_connected_at := kept wk_connected_at;
  wk_last_seen_at := kept wk_last_seen_at; wk_lease_expires_at := kept wk_lease_expires_at; wk_revoked_at := None;
  wk_created_at := match old with Some r => wk_created_at r | None => now end |}.

Definition handleDevicePolicyPublish (now : Z) (auth : SpikeAuth) (params : json) : J Z :=
  policy ← from_outcome (parseDevicePolicyParams params);
  _ ← modify (λ s, put_workers (<[sa_enrollmentId auth := policy_row now auth policy (jd_workers s !! sa_enrollmentId auth)]>
                                  (jd_workers s)) s);
  _ ← on_sync (bumpCounter "policy_publishes" 1);
  mret now.

(** [UPDATE workers SET last_seen_at = now, lease_expires_at = now + WORKER_LEASE_MS]. *)
Definition touched (now : Z) (r : WorkerRow) : WorkerRow := {|
  wk_account_id := wk_account_id r; wk_policy := wk_policy r; wk_incarnation := wk_incarnation r;
  wk_capabilities := wk_capabilities r; wk_connected_at := wk_connected_at r; wk_last_seen_at := Some now;
  wk_lease_expires_at := Some (now + WORKER_LEASE_MS); wk_revoked_at := wk_revoked_at r;
  wk_created_at := wk_created_at r |}.

Definition reincarnated (incarnation : string) (now : Z) (r : WorkerRow) : WorkerRow := {|
  wk_account_id := wk_account_id r; wk_policy := wk_policy r; wk_incarnation := Some incarnation;
  wk_capabilities := wk_capabilities r; wk_connected_at := Some now; wk_last_seen_at := Some now;
  wk_lease_expires_at := Some (now + WORKER_LEASE_MS); wk_revoked_at := wk_revoked_at r;
  wk_created_at := wk_created_at r |}.

Definition touch_worker (id : string) (now : Z) : J unit := update_worker id (touched now).

Definition handleWorkerConnect (now : Z) (uuid : string) (auth : SpikeAuth) : J (string * Z) :=
  row ← requireWorker auth;
  let live := isLeaseLive row now in
  let incarnation := if live then default "" (wk_incarnation row) else uuid in
  _ ← update_worker (sa_enrollmentId auth) (if live then touched now else reincarnated incarnation now);
  _ ← on_sync (bumpCounter "worker_connects" 1);
  mret (incarnation, now + WORKER_LEASE_MS).

(** [SELECT job_id FROM jobs WHERE queued, without a target, for this environment]. *)
Definition waits_for (environmentId : string) (job : JobRow) : bool :=
  bool_decide (jb_state job = job_queued) && bool_decide (jb_target_enrollment_id job = None) &&
  match rt_kind (jb_requested_target job) with target_environment e => String.eqb e environmentId | _ => false end.

Definition with_target (target : string) (explanation : string) (updated : Z) (r : JobRow) : JobRow := {|
  jb_account_id := jb_account_id r; jb_source_enrollment_id := jb_source_enrollment_id r;
  jb_request_id := jb_request_id r; jb_payload_hash := jb_payload_hash r; jb_kind := jb_kind r;
  jb_requested_target := jb_requested_target r; jb_target_enrollment_id := Some target;
  jb_placement_explanation := explanation; jb_input_manifest := jb_input_manifest r;
  jb_sealed_inputs := jb_sealed_inputs r; jb_result_recipients := jb_result_recipients r;
  jb_state := jb_state r; jb_state_reason := jb_state_reason r; jb_queue_deadline := jb_queue_deadline r;
  jb_retry_policy := jb_retry_policy r; jb_retried := jb_retried r; jb_next_fence := jb_next_fence r;
  jb_active_attempt_id := jb_active_attempt_id r; jb_terminal_at := jb_terminal_at r;
  jb_created_at := jb_created_at r; jb_updated_at := updated |}.

Definition resolve_row (environmentId enrollmentId : string) (worker : option WorkerRow) (job : JobRow) : JobRow :=
  if waits_for environmentId job &&
     capabilitiesSatisfy (worker ≫= wk_capabilities) (rt_requirements (jb_requested_target job)) (worker ≫= wk_incarnation)
  then with_target enrollmentId (jb_placement_explanation job) (jb_updated_at job) job
  else job.

Definition resolveEnvironmentTargets (environmentId enrollmentId : string) : J unit :=
  modify (λ s, put_jobs (resolve_row environmentId enrollmentId (jd_workers s !! enrollmentId) <$> jd_jobs s) s).

Definition with_capabilities (now : Z) (capabilities : WorkerCapabilities) (r : WorkerRow) : WorkerRow := {|
  wk_account_id := wk_account_id r; wk_policy := wk_policy r; wk_incarnation := wk_incarnation r;
  wk_capabilities := Some {| st_capabilities := capabilities; st_publishedForIncarnation := default "" (wk_incarnation r) |};
  wk_connected_at := wk_connected_at r; wk_last_seen_at := Some now; wk_lease_expires_at := Some (now + WORKER_LEASE_MS);
  wk_revoked_at := wk_revoked_at r; wk_created_at := wk_created_at r |}.

Definition handleWorkerCapabilitiesPublish (now : Z) (auth : SpikeAuth) (params : json) : J unit :=
  row ← requireWorker auth;
  capabilities ← from_outcome (parseWorkerCapabilitiesParams params);
  _ ← requireLiveIncarnation row now;
  _ ← update_worker (sa_enrollmentId auth) (with_capabilities now capabilities);
  linked ← gets (λ s, List.filter (λ e, bool_decide (env_enrollment_id e.2 = Some (sa_enrollmentId auth)) &&
                                        bool_decide (env_reaped_at e.2 = None)) (map_to_list (jd_environments s)));
  _ ← for_each linked (λ e _, resolveEnvironmentTargets e.1 (sa_enrollmentId auth)) tt;
  on_sync (bumpCounter "capability_publishes" 1).

Definition replica_row (now : Z) (r : ReplicaSummary) : WorkerReplicaRow := {|
  wr_definition_revision := rs_definitionRevision r; wr_readiness := rs_readiness r;
  wr_observed_at := rs_observedAt r; wr_updated_at := now |}.

Section Jobs.
Context (date_parse : string → option Z) (hosted : bool).
(** [a.localeCompare(b) <= 0], whether cloud agents are enabled, and whether there is a provisioner. *)
Context (locale_leb : string → string → bool) (cloudAgents provisioner : bool).

Definition handleWorkerReplicaPublish (now : Z) (auth : SpikeAuth) (params : json) : J unit :=
  row ← requireWorker auth;
  replicas ← from_outcome (parseReplicaPublishParams date_parse params);
  _ ← requireLiveIncarnation row now;
  _ ← modify (λ s, put_replicas (foldl (λ m r, <[(sa_enrollmentId auth, rs_workspaceId r) := replica_row now r]> m)
                                   (jd_replicas s) replicas) s);
  _ ← touch_worker (sa_enrollmentId auth) now;
  on_sync (bumpCounter "replica_publishes" 1).

(** ** Placement *)

Definition works_for (worker : string) (a : AttemptRow) : bool :=
  String.eqb (att_worker_enrollment_id a) worker && isActiveAttemptState (att_state a).

Definition countActiveAttempts (s : JobDb) (worker : string) : Z :=
  Z.of_nat (size (filter (λ p, works_for worker p.2 = true) (jd_attempts s))).

(** Where a job goes, if anywhere yet, and why. *)
Record Placement := { pm_target : option string; pm_explanation : string }.

Definition resolve_device (s : JobDb) (now : Z) (accountId source enrollmentId : string)
    (requirements : option CapabilityRequirements) : outcome Placement :=
  let target := [("targetEnrollmentId", enrollmentId)] in
  match jd_workers s !! enrollmentId with
  | None => Throw (not_allowed (("reason", "target-not-eligible") :: target))
  | Some row =>
      if negb (String.eqb (wk_account_id row) accountId) || negb (bool_decide (wk_revoked_at row = None)) then
        Throw (not_allowed (("reason", "target-not-eligible") :: target))
      else if negb (dp_allowJobs (wk_policy row)) || negb (policyAllowsSource (wk_policy row) source enrollmentId) then
        Throw (not_allowed (("reason", "target-not-eligible") :: target))
      else if negb (isLeaseLive row now) then Throw (conflict (("reason", "target-not-live") :: target))
      else if negb (capabilitiesSatisfy (wk_capabilities row) requirements (wk_incarnation row)) then
        Throw (conflict (("reason", "target-requirements-not-satisfied") :: target))
      else Ok {| pm_target := Some enrollmentId;
                 pm_explanation := "device: explicit target; live worker with allowing policy" |}
  end.

Definition resolve_environment (s : JobDb) (environmentId : string) (requirements : option CapabilityRequirements) :
    outcome Placement :=
  match jd_environments s !! environmentId with
  | None => Throw (missing "environment")
  | Some e =>
      if negb (bool_decide (env_reaped_at e = None)) then Throw (conflict [("reason", "environment-terminal")])
      else match env_enrollment_id e with
      | None => Ok {| pm_target := None; pm_explanation := "environment: " +:+ environmentId +:+ " awaiting enrollment" |}
      | Some enrollmentId =>
          let worker := jd_workers s !! enrollmentId in
          if negb (capabilitiesSatisfy (worker ≫= wk_capabilities) requirements (worker ≫= wk_incarnation)) then
            Ok {| pm_target := None;
                  pm_explanation := "environment: " +:+ environmentId +:+ " awaiting required worker capabilities" |}
          else Ok {| pm_target := Some enrollmentId;
                     pm_explanation := "environment: " +:+ environmentId +:+ " already enrolled" |}
      end
  end.

Definition needs_workspace (k : JobKind) : bool :=
  match k with kind_diagnostic | kind_prepare_workspace | kind_provision_environment => false | _ => true end.

(** A materialised workspace at the revision the manifest is pinned to. *)
Definition replica_ready (s : JobDb) (manifest : ExecutionManifest) (worker : string) : bool :=
  match prop "workspaceId" (Some (mf_inputs manifest)) with
  | Some (JStr workspaceId) =>
      match jd_replicas s !! (worker, workspaceId) with
      | Some r => String.eqb (wr_readiness r) "ready" &&
                  String.eqb (wr_definition_revision r) (mf_workspaceDefinitionRevision manifest)
      | None => false
      end
  | _ => false
  end.

Definition live_allowing (now : Z) (row : WorkerRow) : bool := dp_allowJobs (wk_policy row) && isLeaseLive row now.

(** Free, authorised and able, whatever its workspaces. *)
Definition qualified (s : JobDb) (now : Z) (source : string) (requirements : option CapabilityRequirements)
    (w : string * WorkerRow) : bool :=
  live_allowing now w.2 && policyAllowsSource (wk_policy w.2) source w.1 &&
  capabilitiesSatisfy (wk_capabilities w.2) requirements (wk_incarnation w.2) &&
  (countActiveAttempts s w.1 <? effectiveConcurrencyCap (wk_policy w.2) (wk_capabilities w.2)).

Definition load_leb (a b : string * Z) : bool :=
  if a.2 =? b.2 then locale_leb a.1 b.1 else a.2 <=? b.2.

Definition resolve_auto (s : JobDb) (now : Z) (accountId source : string) (kind : JobKind)
    (requirements : option CapabilityRequirements) (manifest : ExecutionManifest) : Placement :=
  let candidates := List.filter (λ w, String.eqb (wk_account_id w.2) accountId && bool_decide (wk_revoked_at w.2 = None))
                      (map_to_list (jd_workers s)) in
  let live := List.filter (λ w, live_allowing now w.2) candidates in
  let able := List.filter (qualified s now source requirements) live in
  let ready := List.filter (λ w, negb (needs_workspace kind) || replica_ready s manifest w.1) able in
  let eligible := map (λ w, (w.1, countActiveAttempts s w.1)) ready in
  match sort_by load_leb eligible with
  | [] => {| pm_target := None;
             pm_explanation := "auto: no eligible live worker (" +:+ int_to_string (Z.of_nat (length live)) +:+
               " live worker(s) allowing jobs; none satisfy source authorization, requirements, capacity" +:+
               (if needs_workspace kind then ", and workspace readiness (" +:+
                  int_to_string (Z.of_nat (length able - length ready)) +:+ " rejected on readiness)" else "") +:+ ")" |}
  | chosen :: _ => {| pm_target := Some chosen.1;
                      pm_explanation := "auto: least-loaded of " +:+ int_to_string (Z.of_nat (length eligible)) +:+
                        " eligible live worker(s)" |}
  end.

Definition resolvePlacement (s : JobDb) (now : Z) (accountId source : string) (kind : JobKind) (target : RequestedTarget)
    (manifest : ExecutionManifest) : outcome Placement :=
  match rt_kind target with
  | target_device enrollmentId => resolve_device s now accountId source enrollmentId (rt_requirements target)
  | target_environment environmentId => resolve_environment s environmentId (rt_requirements target)
  | target_auto => Ok (resolve_auto s now accountId source kind (rt_requirements target) manifest)
  end.

(** ** Creation *)

Definition MANAGED_MAX_TTL_SECONDS : Z := 30 * 60.
Definition MANAGED_MAX_CONCURRENT : Z := 1.

Definition managed_inputs (m : ExecutionManifest) : bool := is_str "mezair-managed" (prop "provider" (Some (mf_inputs m))).

Definition managed_environment (accountId : string) (e : EnvironmentRow) : bool :=
  String.eqb (env_account_id e) accountId && String.eqb (env_provider e) "mezair-managed" &&
  bool_decide (env_reaped_at e = None) &&
  negb (bool_decide (env_state e ∈ ["suspended"; "terminated"; "failed"; "expired"])).

Definition managed_job (accountId : string) (r : JobRow) : bool :=
  String.eqb (jb_account_id r) accountId && bool_decide (jb_kind r = kind_provision_environment) &&
  bool_decide (jb_state r ∈ [job_queued; job_running]) && managed_inputs (jb_input_manifest r).

Definition assertManagedProvisionConcurrency (accountId : string) : J unit :=
  live ← gets (λ s, Z.of_nat (size (filter (λ p, managed_environment accountId p.2 = true) (jd_environments s))) +
                    Z.of_nat (size (filter (λ p, managed_job accountId p.2 = true) (jd_jobs s))));
  ensure (live <? MANAGED_MAX_CONCURRENT)
    (not_allowed [("reason", "managed-concurrency-cap"); ("maxConcurrent", int_to_string MANAGED_MAX_CONCURRENT)]).

Definition assertManagedProvisionAllowed (accountId : string) (m : ExecutionManifest) : J unit :=
  _ ← ensure cloudAgents (not_allowed [("reason", "cloud-agents-disabled")]);
  _ ← ensure provisioner (not_allowed [("reason", "provider-unavailable"); ("provider", "mezair-managed")]);
  match prop "ttlSeconds" (Some (mf_inputs m)) with
  | Some (JNum ttl) =>
      if negb (isFinite ttl) || num_ltb ttl (int 60) then throw (malformed "manifest.inputs.ttlSeconds")
      else if num_ltb (int MANAGED_MAX_TTL_SECONDS) ttl then
        throw (not_allowed [("reason", "managed-ttl-exceeds-cap"); ("maxTtlSeconds", int_to_string MANAGED_MAX_TTL_SECONDS);
          ("requestedTtlSeconds", num_to_string ttl)])
      else assertManagedProvisionConcurrency accountId
  | _ => throw (malformed "manifest.inputs.ttlSeconds")
  end.

Definition by_request (source requestId : string) (p : string * JobRow) : bool :=
  String.eqb (jb_source_enrollment_id p.2) source && String.eqb (jb_request_id p.2) requestId.

Definition readJobByRequest (source requestId : string) (s : JobDb) : option (string * JobRow) :=
  find (by_request source requestId) (map_to_list (jd_jobs s)).

Definition insert_job (id : string) (row : JobRow) : J unit :=
  taken ← gets (readJobByRequest (jb_source_enrollment_id row) (jb_request_id row));
  _ ← ensure (bool_decide (taken = None)) unique_violation;
  insert_row jd_jobs put_jobs id row.

Definition new_job (now : Z) (auth : SpikeAuth) (create : JobCreateParams) (queueDeadline : Z) (placement : Placement) : JobRow := {|
  jb_account_id := sa_accountId auth; jb_source_enrollment_id := sa_enrollmentId auth;
  jb_request_id := jc_requestId create; jb_payload_hash := jc_payloadHash create; jb_kind := jc_kind create;
  jb_requested_target := jc_requestedTarget create; jb_target_enrollment_id := pm_target placement;
  jb_placement_explanation := pm_explanation placement; jb_input_manifest := jc_inputManifest create;
  jb_sealed_inputs := jc_sealedInputs create; jb_result_recipients := jc_resultRecipients create;
  jb_state := job_queued; jb_state_reason := None; jb_queue_deadline := queueDeadline;
  jb_retry_policy := jc_retryPolicy create; jb_retried := 0; jb_next_fence := 1; jb_active_attempt_id := None;
  jb_terminal_at := None; jb_created_at := now; jb_updated_at := now |}.

(** The transaction of [job.create]; [managed] says that the preflight asked for a recheck. *)
Definition createJob (now : Z) (uuid : string) (auth : SpikeAuth) (create : JobCreateParams) (queueDeadline : Z)
    (managed : bool) : J (string * JobRow) :=
  _ ← on_sync (provisionEnrollment now auth);
  existing ← gets (readJobByRequest (sa_enrollmentId auth) (jc_requestId create));
  match existing with
  | Some (id, row) =>
      if negb (String.eqb (jb_payload_hash row) (jc_payloadHash create)) then
        throw (conflict [("reason", "request-id-hash-mismatch"); ("requestId", jc_requestId create)])
      else mret (id, row)
  | None =>
      _ ← on_sync (assertFairUseWritesAllowed date_parse hosted now);
      _ ← (if managed then assertManagedProvisionConcurrency (sa_accountId auth) else mret tt);
      s ← get_state;
      placement ← from_outcome (resolvePlacement s now (sa_accountId auth) (sa_enrollmentId auth) (jc_kind create)
                                  (jc_requestedTarget create) (jc_inputManifest create));
      let row := new_job now auth create queueDeadline placement in
      _ ← insert_job uuid row;
      _ ← journalDurableEvent now uuid "" 0 "job.created" (JObj ([("requestId", JStr (jc_requestId create));
            ("kind", JStr (job_kind_text (jc_kind create))); ("sourceEnrollmentId", JStr (sa_enrollmentId auth))] ++
            opt_entry "targetEnrollmentId" (pm_target placement) ++ [("state", JStr "queued")]));
      _ ← on_sync (bumpCounter "job_creates" 1);
      job ← readJobRequired uuid;
      mret (uuid, job)
  end.

Definition handleJobCreate (now : Z) (uuid : string) (auth : SpikeAuth) (params : json) : J (string * JobRow) :=
  create ← from_outcome (parseJobCreateParams date_parse params);
  match (match jc_queueDeadline create with None => Some (now + USER_JOB_DEADLINE_MS) | Some d => date_parse d end) with
  | None => throw (malformed "queueDeadline")
  | Some queueDeadline =>
      if (queueDeadline <=? now) || (now + MAX_QUEUE_DEADLINE_HORIZON_MS <? queueDeadline) then throw (malformed "queueDeadline")
      else
        let managed := bool_decide (jc_kind create = kind_provision_environment) && managed_inputs (jc_inputManifest create) in
        replay ← gets (readJobByRequest (sa_enrollmentId auth) (jc_requestId create));
        let fresh := managed && bool_decide (replay = None) in
        _ ← (if fresh then assertManagedProvisionAllowed (sa_accountId auth) (jc_inputManifest create) else mret tt);
        commit (createJob now uuid auth create queueDeadline fresh)
  end.
End Jobs.
