(* ===== verification/JobLifecycle.v ===== *)
(** * Desktop app cloud: the life of a job

    Reading, claiming, renewing, reporting and cancelling jobs,
    [mezair-app/cloud/backend/src/account-coordinator.ts].  An answer carries the rows its
    views are built from. *)

From stdpp Require Import base list strings gmap.
From Stdlib Require Import ZArith Ascii.
From S2P Require Import Prelude Transactions JsString JsValue SyncWire SyncTables SyncLog SyncData JobTables JobWire JobCoordinator.

Section Jobs.
Context (date_parse : string → option Z) (hosted : bool).
Context (locale_leb : string → string → bool) (cloudAgents provisioner : bool).

(** ** Reading *)

Definition is_overdue (now : Z) (_ : string) (r : JobRow) : bool :=
  bool_decide (jb_state r = job_queued) && (jb_queue_deadline r <=? now).

Definition expire_job (now : Z) (id : string) : J unit :=
  job ← gets (λ s, jd_jobs s !! id);
  match job with
  | Some row => if bool_decide (jb_state row = job_queued) then setJobState id row job_failed now (released (Some "queue-deadline"))
                else mret tt
  | None => mret tt
  end.

Definition expireQueuedJobs (now : Z) : J Z :=
  expired ← gets (λ s, some_rows (is_overdue now) (jd_jobs s));
  _ ← for_each expired (λ p _, expire_job now p.1) tt;
  let n := Z.of_nat (length expired) in
  _ ← (if 0 <? n then on_sync (bumpCounter "sweep_jobs_expired" n) else mret tt);
  mret n.

Definition attempts_of_job (jobId : string) (s : JobDb) : list (string * AttemptRow) :=
  List.filter (λ p, String.eqb (att_job_id p.2) jobId) (map_to_list (jd_attempts s)).

Definition handleJobGet (now : Z) (params : json) : J (JobRow * list (string * AttemptRow)) :=
  jobId ← from_outcome (parseJobIdParams params);
  commit (
    _ ← expireQueuedJobs now;
    job ← gets (λ s, jd_jobs s !! jobId);
    job ← required job (missing "job");
    _ ← expireJobApprovals now jobId;
    attempts ← gets (λ s, sort_by (λ a b, att_fence a.2 <=? att_fence b.2) (attempts_of_job jobId s));
    mret (job, attempts)).

(** [ORDER BY created_at DESC, job_id ASC]. *)
Definition newest_first (a b : string * JobRow) : bool :=
  if jb_created_at a.2 =? jb_created_at b.2 then str_leb a.1 b.1 else jb_created_at b.2 <=? jb_created_at a.2.

Definition in_state (state : option JobState) (p : string * JobRow) : bool :=
  match state with Some st => bool_decide (jb_state p.2 = st) | None => true end.

Definition handleJobList (now : Z) (auth : SpikeAuth) (params : json) : J (list (string * JobRow)) :=
  query ← from_outcome (parseJobListParams params);
  commit (
    _ ← expireQueuedJobs now;
    match jl_requestId query with
    | Some requestId =>
        job ← gets (readJobByRequest (sa_enrollmentId auth) requestId);
        mret (match job with Some p => if in_state (jl_state query) p then [p] else [] | None => [] end)
    | None =>
        gets (λ s, take (Z.to_nat (jl_limit query))
                     (sort_by newest_first (List.filter (in_state (jl_state query)) (map_to_list (jd_jobs s)))))
    end).

(** ** Claiming *)

Definition occupies (jobId : string) (a : AttemptRow) : bool :=
  String.eqb (att_job_id a) jobId && isActiveAttemptState (att_state a).

Definition fence_taken (jobId : string) (fence : Z) (a : AttemptRow) : bool :=
  String.eqb (att_job_id a) jobId && (att_fence a =? fence).

Definition any_attempt (p : AttemptRow → bool) (s : JobDb) : bool := existsb (λ e, p e.2) (map_to_list (jd_attempts s)).

Definition insert_attempt (id : string) (row : AttemptRow) : J unit :=
  taken ← gets (any_attempt (fence_taken (att_job_id row) (att_fence row)));
  _ ← ensure (negb taken) unique_violation;
  insert_row jd_attempts put_attempts id row.

Definition new_attempt_row (now : Z) (jobId worker incarnation : string) (fence lease : Z) : AttemptRow := {|
  att_job_id := jobId; att_worker_enrollment_id := worker; att_worker_incarnation := incarnation; att_fence := fence;
  att_state := at_claimed; att_lease_expires_at := lease; att_outcome := None; att_result := None;
  att_sealed_result := None; att_sealed_result_retention_until := None; att_error := None; att_late_result := None;
  att_created_at := now; att_updated_at := now |}.

(** The attempt, its event and the job's transition to running. *)
Definition start_attempt (now : Z) (uuid jobId : string) (job : JobRow) (worker incarnation : string) (lease : Z)
    (entries : list (string * json)) : J unit :=
  let fence := jb_next_fence job in
  _ ← insert_attempt uuid (new_attempt_row now jobId worker incarnation fence lease);
  _ ← journalDurableEvent now jobId uuid fence "attempt.created" (JObj ([("fence", JNum (int fence));
        ("workerEnrollmentId", JStr worker); ("workerIncarnation", JStr incarnation);
        ("leaseExpiresAt", JNum (int lease))] ++ entries));
  setJobState jobId job job_running now {|
    ex_stateReason := None; ex_activeAttemptId := Some (Some uuid); ex_queueDeadline := None; ex_retried := None;
    ex_nextFence := Some (fence + 1) |}.

(** The target of a job without one: placed again for the caller. *)
Definition claim_target (now : Z) (auth : SpikeAuth) (jobId : string) (job : JobRow) : J unit :=
  match jb_target_enrollment_id job with
  | Some _ => mret tt
  | None =>
      match rt_kind (jb_requested_target job) with
      | target_environment _ => throw (conflict [("reason", "target-not-resolved")])
      | target_device _ => throw (corrupt "corrupt-job")
      | target_auto =>
          s ← get_state;
          placement ← from_outcome (resolvePlacement locale_leb s now (sa_accountId auth) (jb_source_enrollment_id job)
                                      (jb_kind job) (jb_requested_target job) (jb_input_manifest job));
          match pm_target placement with
          | None => throw (conflict [("reason", "target-not-eligible")])
          | Some target =>
              if negb (String.eqb target (sa_enrollmentId auth)) then
                throw (not_allowed [("reason", "not-the-target"); ("targetEnrollmentId", target)])
              else
                update_job jobId (λ r, match jb_target_enrollment_id r with
                                       | None => with_target target (pm_explanation placement) now r
                                       | Some _ => r
                                       end)
          end
      end
  end.

Definition claimJob (now : Z) (uuid : string) (auth : SpikeAuth) (worker : WorkerRow) (jobId : string) :
    J (JobRow * AttemptRow) :=
  job ← gets (λ s, jd_jobs s !! jobId);
  job ← required job (missing "job");
  if negb (String.eqb (jb_account_id job) (sa_accountId auth)) then throw (missing "job")
  else if bool_decide (jb_state job = job_queued) && (jb_queue_deadline job <=? now) then
    _ ← setJobState jobId job job_failed now (released (Some "queue-deadline"));
    throw (conflict [("reason", "queue-deadline"); ("jobId", jobId)])
  else if negb (bool_decide (jb_state job = job_queued)) then
    throw (conflict [("reason", "job-not-queued"); ("state", job_state_text (jb_state job))])
  else if match jb_target_enrollment_id job with Some t => negb (String.eqb t (sa_enrollmentId auth)) | None => false end then
    throw (not_allowed [("reason", "not-the-target"); ("targetEnrollmentId", default "" (jb_target_enrollment_id job))])
  else if negb (policyAllowsSource (wk_policy worker) (jb_source_enrollment_id job) (sa_enrollmentId auth)) then
    throw (not_allowed [("reason", "source-not-allowed")])
  else
    _ ← claim_target now auth jobId job;
    _ ← ensure (capabilitiesSatisfy (wk_capabilities worker) (rt_requirements (jb_requested_target job)) (wk_incarnation worker))
          (conflict [("reason", "target-requirements-not-satisfied"); ("targetEnrollmentId", sa_enrollmentId auth)]);
    let capacity := effectiveConcurrencyCap (wk_policy worker) (wk_capabilities worker) in
    active ← gets (λ s, countActiveAttempts s (sa_enrollmentId auth));
    _ ← ensure (active <? capacity) (conflict [("reason", "worker-at-capacity"); ("limit", int_to_string capacity)]);
    duplicate ← gets (any_attempt (occupies jobId));
    _ ← ensure (negb duplicate) (conflict [("reason", "active-attempt-exists")]);
    _ ← start_attempt now uuid jobId job (sa_enrollmentId auth) (default "" (wk_incarnation worker))
          (now + LEASE_DURATION_MS) [];
    _ ← touch_worker (sa_enrollmentId auth) now;
    _ ← on_sync (bumpCounter "job_claims" 1);
    row ← readJobRequired jobId;
    attempt ← readAttemptRequired uuid;
    mret (row, attempt).

Definition handleJobClaim (now : Z) (uuid : string) (auth : SpikeAuth) (params : json) : J (JobRow * AttemptRow) :=
  jobId ← from_outcome (parseJobIdParams params);
  worker ← requireWorker auth;
  _ ← requireLiveIncarnation worker now;
  commit (claimJob now uuid auth worker jobId).

(** ** Renewing *)

Inductive RenewalStatus := renewed (leaseExpiresAt : Z) | renewal_rejected (reason : string).

Record AttemptRenewalResult := { rn_attemptId : string; rn_status : RenewalStatus; rn_cancelRequested : bool }.

Definition with_lease_until (lease now : Z) (r : AttemptRow) : AttemptRow := {|
  att_job_id := att_job_id r; att_worker_enrollment_id := att_worker_enrollment_id r;
  att_worker_incarnation := att_worker_incarnation r; att_fence := att_fence r; att_state := att_state r;
  att_lease_expires_at := lease; att_outcome := att_outcome r; att_result := att_result r;
  att_sealed_result := att_sealed_result r; att_sealed_result_retention_until := att_sealed_result_retention_until r;
  att_error := att_error r; att_late_result := att_late_result r; att_created_at := att_created_at r;
  att_updated_at := now |}.

(** Why an attempt's lease is not renewed. *)
Definition renewal_issue (now : Z) (auth : SpikeAuth) (worker : WorkerRow) (item : AttemptRenewalRequest)
    (attempt : option AttemptRow) : option string :=
  match attempt with
  | None => Some "not-found"
  | Some a =>
      first_issue [
        unless (String.eqb (att_worker_enrollment_id a) (sa_enrollmentId auth)) "not-owner";
        unless (String.eqb (att_worker_incarnation a) (ar_incarnation item) &&
                bool_decide (wk_incarnation worker = Some (ar_incarnation item))) "stale-incarnation";
        unless (att_fence a =? ar_fence item) "stale-fence";
        unless (isActiveAttemptState (att_state a)) "attempt-terminal";
        unless (negb (att_lease_expires_at a <=? now)) "lease-expired";
        unless (isLeaseLive worker now) "worker-not-live"]
  end.

Definition renew_one (now : Z) (auth : SpikeAuth) (worker : WorkerRow) (item : AttemptRenewalRequest)
    (results : list AttemptRenewalResult) : J (list AttemptRenewalResult) :=
  attempt ← gets (λ s, jd_attempts s !! ar_attemptId item);
  match renewal_issue now auth worker item attempt with
  | Some reason =>
      mret (results ++ [{| rn_attemptId := ar_attemptId item; rn_status := renewal_rejected reason; rn_cancelRequested := false |}])
  | None =>
      let lease := now + LEASE_DURATION_MS in
      job ← gets (λ s, a ← attempt; jd_jobs s !! att_job_id a);
      _ ← update_attempt (ar_attemptId item) (with_lease_until lease now);
      mret (results ++ [{| rn_attemptId := ar_attemptId item; rn_status := renewed lease;
        rn_cancelRequested := match job with Some r => bool_decide (jb_state r = job_cancel_requested) | None => false end |}])
  end.

Definition was_renewed (r : AttemptRenewalResult) : bool :=
  match rn_status r with renewed _ => true | renewal_rejected _ => false end.

Definition handleAttemptRenew (now : Z) (auth : SpikeAuth) (params : json) : J (list AttemptRenewalResult) :=
  worker ← requireWorker auth;
  renewals ← from_outcome (parseAttemptRenewParams params);
  commit (
    results ← for_each renewals (renew_one now auth worker) [];
    _ ← (if existsb was_renewed results then touch_worker (sa_enrollmentId auth) now else mret tt);
    mret results).

(** ** Reporting *)

Inductive ReportStatus := report_applied | report_late.

Definition with_late_result (late : LateResult) (now : Z) (r : AttemptRow) : AttemptRow := {|
  att_job_id := att_job_id r; att_worker_enrollment_id := att_worker_enrollment_id r;
  att_worker_incarnation := att_worker_incarnation r; att_fence := att_fence r; att_state := att_state r;
  att_lease_expires_at := att_lease_expires_at r; att_outcome := att_outcome r; att_result := att_result r;
  att_sealed_result := att_sealed_result r; att_sealed_result_retention_until := att_sealed_result_retention_until r;
  att_error := att_error r; att_late_result := Some late; att_created_at := att_created_at r; att_updated_at := now |}.

Definition with_outcome (outcome : AttemptOutcome) (res sealed : jsval) (until : option Z) (error : option string) (now : Z)
    (r : AttemptRow) : AttemptRow := {|
  att_job_id := att_job_id r; att_worker_enrollment_id := att_worker_enrollment_id r;
  att_worker_incarnation := att_worker_incarnation r; att_fence := att_fence r; att_state := att_state r;
  att_lease_expires_at := att_lease_expires_at r; att_outcome := Some outcome; att_result := res;
  att_sealed_result := sealed; att_sealed_result_retention_until := until; att_error := error;
  att_late_result := att_late_result r; att_created_at := att_created_at r; att_updated_at := now |}.

Definition is_stale (worker : WorkerRow) (report : ParsedAttemptReport) (attempt : AttemptRow) : bool :=
  negb (String.eqb (att_worker_incarnation attempt) (rep_incarnation report)) ||
  negb (att_fence attempt =? rep_fence report) ||
  negb (bool_decide (wk_incarnation worker = Some (att_worker_incarnation attempt))).

(** What an outcome does to the attempt and its job. *)
Definition settle_job (now : Z) (attemptId : string) (attempt : AttemptRow) (job : JobRow) (outcome : AttemptOutcome) : J unit :=
  let jobId := att_job_id attempt in
  if bool_decide (jb_state job = job_cancel_requested) then
    match outcome with
    | outcome_failed =>
        _ ← setAttemptState attemptId attempt at_failed now;
        setJobState jobId job job_failed now (released (Some "cancel-requested"))
    | outcome_completed =>
        _ ← setAttemptState attemptId attempt at_cancelled now;
        setJobState jobId job job_cancelled now (released (Some "cancel-requested"))
    end
  else match outcome with
  | outcome_completed =>
      _ ← setAttemptState attemptId attempt at_completed now;
      setJobState jobId job job_completed now (released None)
  | outcome_failed =>
      _ ← setAttemptState attemptId attempt at_failed now;
      if bool_decide (jb_retry_policy job = retry_safe) && (jb_retried job =? 0) then
        setJobState jobId job job_queued now {|
          ex_stateReason := Some (Some "retry-safe"); ex_activeAttemptId := Some None;
          ex_queueDeadline := Some (now + USER_JOB_DEADLINE_MS); ex_retried := Some 1; ex_nextFence := None |}
      else setJobState jobId job job_failed now (released (Some "attempt-failed"))
  end.

Definition reportAttempt (now : Z) (auth : SpikeAuth) (worker : WorkerRow) (report : ParsedAttemptReport) :
    J (ReportStatus * JobRow * AttemptRow) :=
  let id := rep_attemptId report in
  attempt ← gets (λ s, jd_attempts s !! id);
  attempt ← required attempt (missing "attempt");
  if negb (String.eqb (att_worker_enrollment_id attempt) (sa_enrollmentId auth)) then
    throw (not_allowed [("reason", "not-attempt-owner")])
  else
    job ← readJobRequired (att_job_id attempt);
    if is_stale worker report attempt || negb (isActiveAttemptState (att_state attempt)) then
      _ ← update_attempt id (with_late_result {| lr_outcome := rep_outcome report; lr_result := rep_result report;
                               lr_error := rep_error report; lr_reportedAt := now |} now);
      row ← readAttemptRequired id;
      mret (report_late, job, row)
    else
      _ ← update_attempt id (with_outcome (rep_outcome report) (rep_result report) (rep_sealedResult report)
            (if is_undefined (rep_sealedResult report) then None else Some (now + RETENTION_MS)) (rep_error report) now);
      _ ← settle_job now id attempt job (rep_outcome report);
      _ ← touch_worker (sa_enrollmentId auth) now;
      _ ← on_sync (bumpCounter "attempt_reports" 1);
      row ← readJobRequired (att_job_id attempt);
      attempt ← readAttemptRequired id;
      mret (report_applied, row, attempt).

Definition handleAttemptReport (now : Z) (auth : SpikeAuth) (params : json) : J (ReportStatus * JobRow * AttemptRow) :=
  report ← from_outcome (parseAttemptReportParams params);
  worker ← requireWorker auth;
  commit (reportAttempt now auth worker report).

(** ** Cancelling *)

(** The transition [job.cancel] asks of a job; the state it then has. *)
Definition cancel_transition (now : Z) (jobId : string) (job : JobRow) : J JobState :=
  if bool_decide (jb_state job ∈ [job_queued; job_awaiting_approval]) then
    _ ← setJobState jobId job job_cancelled now (released (Some "cancelled"));
    mret job_cancelled
  else if bool_decide (jb_state job = job_running) then
    _ ← setJobState jobId job job_cancel_requested now (because "cancel-requested");
    active ← gets (λ s, id ← jb_active_attempt_id job; a ← jd_attempts s !! id; Some (id, a));
    _ ← match active with
        | Some (id, a) => if isActiveAttemptState (att_state a) then setAttemptState id a at_stopping now else mret tt
        | None => mret tt
        end;
    mret job_cancel_requested
  else mret (jb_state job).

Definition cancelJob (now : Z) (jobId : string) : J JobRow :=
  _ ← expireQueuedJobs now;
  job ← gets (λ s, jd_jobs s !! jobId);
  job ← required job (missing "job");
  state ← cancel_transition now jobId job;
  _ ← (if bool_decide (state ∈ [job_cancel_requested; job_cancelled]) then cancelPendingApprovals now jobId None else mret tt);
  _ ← on_sync (bumpCounter "job_cancels" 1);
  readJobRequired jobId.

Definition handleJobCancel (now : Z) (params : json) : J JobRow :=
  jobId ← from_outcome (parseJobIdParams params);
  commit (cancelJob now jobId).
End Jobs.
