(* ===== verification/JobApprovals.v ===== *)
(** * Desktop app cloud: approvals, the managed provisioner and the sweep of jobs

    Approvals a worker asks for over its socket and a user decides, the backend's own
    provisioner, and the part of the sweep that concerns jobs,
    [mezair-app/cloud/backend/src/account-coordinator.ts].  Of a socket's activity frames only
    those of the control stream are modelled, after the checks of their shape; what the
    provisioner answers is an argument. *)

From stdpp Require Import base list strings gmap.
From Stdlib Require Import ZArith Ascii.
From S2P Require Import Prelude Transactions JsString JsValue SyncWire SyncTables SyncLog SyncData JobTables JobWire JobCoordinator JobLifecycle.

Definition APPROVAL_DEFAULT_TTL_MS : Z := 10 * 60 * 1000.
Definition APPROVAL_MIN_TTL_MS : Z := 1000.
Definition APPROVAL_MAX_TTL_MS : Z := 24 * 60 * 60 * 1000.
Definition MAX_ACTION_DIGEST_LENGTH : Z := 256.

Section Approvals.
Context (JSON_parse : string → option json).

(** ** Asking for an approval *)

Definition approval_ttl (v : jsval) : outcome Z :=
  match v with
  | None | Some JNull => Ok APPROVAL_DEFAULT_TTL_MS
  | Some (JNum (NFin m k)) =>
      if num_ltb (NFin m k) (int APPROVAL_MIN_TTL_MS) || num_ltb (int APPROVAL_MAX_TTL_MS) (NFin m k) then
        Throw (malformed "expiresInMs")
      else Ok (m / pow10 k)
  | Some _ => Throw (malformed "expiresInMs")
  end.

Record ApprovalRequest := {
  aq_actionDigest : string; aq_sealedDetails : jsval; aq_approver : option string; aq_ttl : Z;
}.

(** The document of a control frame; [None] is not JSON. *)
Definition parse_control (worker : string) (doc : option json) : outcome ApprovalRequest :=
  match doc with
  | None => Throw (malformed "control-json")
  | Some doc =>
      let field k := prop k (Some doc) in
      _ ← require (isRecord (Some doc) && is_str "approval" (field "request")) "control-request";
      digest ← match field "actionDigest" with
               | Some (JStr s) => if (slen s =? 0) || (MAX_ACTION_DIGEST_LENGTH <? slen s) then Throw (malformed "actionDigest")
                                  else Ok s
               | _ => Throw (malformed "actionDigest")
               end;
      _ ← match field "sealedDetails" with
          | Some d => require (bool_decide (sealedTaskEnvelopeIssue d = None)) "sealed-approval-details"
          | None => Ok tt
          end;
      approver ← match field "approverEnrollmentId" with
                 | None | Some JNull => Ok None
                 | Some v => id ← bounded_id (Some v) (malformed "approverEnrollmentId"); Ok (Some id)
                 end;
      if bool_decide (approver = Some worker) then Throw (conflict [("reason", "invalid-approver")])
      else
        ttl ← approval_ttl (field "expiresInMs");
        Ok {| aq_actionDigest := digest; aq_sealedDetails := field "sealedDetails"; aq_approver := approver; aq_ttl := ttl |}
  end.

Definition pending_for (attemptId : string) (p : string * ApprovalRow) : bool :=
  String.eqb (apr_attempt_id p.2) attemptId && bool_decide (apr_state p.2 = ap_pending).

Definition readPendingApproval (attemptId : string) (s : JobDb) : option (string * ApprovalRow) :=
  find (pending_for attemptId) (map_to_list (jd_approvals s)).

(** The primary key, and the unique index on pending approvals of an attempt. *)
Definition insert_approval (id : string) (row : ApprovalRow) : J unit :=
  taken ← gets (readPendingApproval (apr_attempt_id row));
  _ ← ensure (bool_decide (taken = None)) unique_violation;
  insert_row jd_approvals put_approvals id row.

(** What the worker's socket is told. *)
Record ApprovalAck := { ack_approvalId : string; ack_actionDigest : string; ack_deduplicated : bool; ack_expiresAt : Z }.

Definition handleControlMessage (now : Z) (uuid worker attemptId : string) (attempt : AttemptRow) (job : JobRow)
    (kind text : string) : J ApprovalAck :=
  _ ← from_outcome (require (String.eqb kind "status") "control-kind");
  request ← from_outcome (parse_control worker (JSON_parse text));
  if negb (bool_decide (jb_state job = job_running)) then
    throw (conflict [("reason", "job-not-running"); ("state", job_state_text (jb_state job))])
  else
    pending ← gets (readPendingApproval attemptId);
    match pending with
    | Some (id, row) =>
        if String.eqb (apr_action_digest row) (aq_actionDigest request) then
          mret {| ack_approvalId := id; ack_actionDigest := apr_action_digest row; ack_deduplicated := true;
                  ack_expiresAt := apr_expires_at row |}
        else throw (conflict [("reason", "approval-pending")])
    | None =>
        let expiresAt := now + aq_ttl request in
        let jobId := att_job_id attempt in
        _ ← insert_approval uuid {|
              apr_account_id := jb_account_id job; apr_job_id := jobId; apr_attempt_id := attemptId;
              apr_action_digest := aq_actionDigest request; apr_sealed_details := aq_sealedDetails request;
              apr_generation := att_fence attempt; apr_approver_enrollment_id := aq_approver request;
              apr_state := ap_pending; apr_decided_by := None; apr_decided_at := None; apr_expires_at := expiresAt;
              apr_created_at := now |};
        _ ← setJobState jobId job job_awaiting_approval now (because "approval-required");
        _ ← journalDurableEvent now jobId attemptId (att_fence attempt) "approval.requested" (JObj ([
              ("approvalId", JStr uuid); ("actionDigest", JStr (aq_actionDigest request))] ++
              match aq_sealedDetails request with Some d => [("sealedDetails", d)] | None => [] end ++
              opt_entry "approverEnrollmentId" (aq_approver request) ++ [("expiresAt", JNum (int expiresAt))]));
        _ ← on_sync (bumpCounter "approval_requests" 1);
        mret {| ack_approvalId := uuid; ack_actionDigest := aq_actionDigest request; ack_deduplicated := false;
                ack_expiresAt := expiresAt |}
    end.

(** The transaction of an activity frame of the control stream, from the socket of [auth]. *)
Definition controlFrame (now : Z) (uuid : string) (auth : SpikeAuth) (attemptId : string) (generation : Z) (kind text : string) :
    J ApprovalAck :=
  attempt ← gets (λ s, jd_attempts s !! attemptId);
  attempt ← required attempt (missing "attempt");
  job ← readJobRequired (att_job_id attempt);
  _ ← ensure (String.eqb (jb_account_id job) (sa_accountId auth)) (not_allowed [("reason", "wrong-account")]);
  _ ← ensure (String.eqb (att_worker_enrollment_id attempt) (sa_enrollmentId auth)) (not_allowed [("reason", "not-attempt-owner")]);
  worker ← gets (λ s, jd_workers s !! sa_enrollmentId auth);
  match worker with
  | None => throw (not_allowed [("reason", "worker-revoked")])
  | Some w =>
      _ ← ensure (bool_decide (wk_revoked_at w = None)) (not_allowed [("reason", "worker-revoked")]);
      _ ← ensure (bool_decide (wk_incarnation w = Some (att_worker_incarnation attempt)) && isLeaseLive w now)
            (not_allowed [("reason", "stale-incarnation")]);
      _ ← ensure (att_fence attempt =? generation)
            (RpcFailure "stale-generation" [("expected", int_to_string (att_fence attempt)); ("actual", int_to_string generation)]);
      _ ← ensure (isActiveAttemptState (att_state attempt)) (conflict [("reason", "attempt-terminal")]);
      handleControlMessage now uuid (sa_enrollmentId auth) attemptId attempt job kind text
  end.

Definition handleControlFrame (now : Z) (uuid : string) (auth : SpikeAuth) (attemptId : string) (generation : Z)
    (kind text : string) : J ApprovalAck :=
  commit (controlFrame now uuid auth attemptId generation kind text).
End Approvals.

(** ** Reading and deciding *)

Definition oldest_first (a b : string * ApprovalRow) : bool := apr_created_at a.2 <=? apr_created_at b.2.

Definition approvals_where (p : ApprovalRow → bool) (s : JobDb) : list (string * ApprovalRow) :=
  sort_by oldest_first (List.filter (λ e, p e.2) (map_to_list (jd_approvals s))).

Definition selected_approvals (now : Z) (auth : SpikeAuth) (selector : ApprovalSelector) : J (list (string * ApprovalRow)) :=
  match selector with
  | by_approval id =>
      row ← gets (λ s, jd_approvals s !! id);
      match row with
      | Some r => if String.eqb (apr_account_id r) (sa_accountId auth) then mret [(id, r)] else throw (missing "approval")
      | None => throw (missing "approval")
      end
  | by_job id =>
      job ← gets (λ s, jd_jobs s !! id);
      match job with
      | Some r =>
          if String.eqb (jb_account_id r) (sa_accountId auth) then
            _ ← expireJobApprovals now id;
            gets (approvals_where (λ a, String.eqb (apr_job_id a) id))
          else throw (missing "job")
      | None => throw (missing "job")
      end
  | by_attempt id =>
      attempt ← gets (λ s, jd_attempts s !! id);
      attempt ← required attempt (missing "attempt");
      job ← readJobRequired (att_job_id attempt);
      _ ← ensure (String.eqb (jb_account_id job) (sa_accountId auth)) (missing "attempt");
      _ ← expireJobApprovals now (att_job_id attempt);
      gets (approvals_where (λ a, String.eqb (apr_attempt_id a) id))
  end.

(** One row of the answer, expired if it is due. *)
Definition view_approval (now : Z) (p : string * ApprovalRow) : J (string * ApprovalRow) :=
  _ ← expireApprovalIfDue now p.1 p.2;
  row ← gets (λ s, jd_approvals s !! p.1);
  mret (p.1, default p.2 row).

Definition handleApprovalGet (now : Z) (auth : SpikeAuth) (params : json) : J (list (string * ApprovalRow)) :=
  selector ← from_outcome (parseApprovalGetParams params);
  commit (
    rows ← selected_approvals now auth selector;
    approvals ← map_M (view_approval now) (List.filter (λ p, String.eqb (apr_account_id p.2) (sa_accountId auth)) rows);
    _ ← on_sync (bumpCounter "approval_gets" 1);
    mret approvals).

(** The result of a decision, or the failure that is thrown once the transaction is done. *)
Record ApprovalDecision := { de_approval : ApprovalRow; de_job : JobRow; de_duplicate : bool }.

Definition readApprovalRequired (id : string) : J ApprovalRow :=
  row ← gets (λ s, jd_approvals s !! id); required row (corrupt "corrupt-approval").

Definition lapse (now : Z) (id : string) (row : ApprovalRow) (reason : string) : J unit :=
  _ ← setApprovalState id ap_cancelled now None;
  journal_decided now id row [("outcome", JStr "cancelled"); ("reason", JStr reason)].

Definition approval_decision (approved : bool) : ApprovalState := if approved then ap_approved else ap_denied.

Definition carry_out (now : Z) (auth : SpikeAuth) (decide : ApprovalDecideParams) (row : ApprovalRow) (job : JobRow)
    (attempt : AttemptRow) : J unit :=
  let id := ad_approvalId decide in
  let decision := approval_decision (ad_approved decide) in
  _ ← setApprovalState id decision now (Some (sa_enrollmentId auth));
  _ ← journal_decided now id row ([("decision", JStr (approval_state_text decision)); ("decidedBy", JStr (sa_enrollmentId auth))] ++
        opt_entry "reason" (ad_reason decide));
  _ ← (if ad_approved decide then setJobState (apr_job_id row) job job_running now (because "approval-granted")
       else
         _ ← (if isActiveAttemptState (att_state attempt) then setAttemptState (apr_attempt_id row) attempt at_failed now
              else mret tt);
         setJobState (apr_job_id row) job job_failed now (released (Some "approval-denied")));
  cancelPendingApprovals now (apr_job_id row) (Some id).

Definition decideApproval (now : Z) (auth : SpikeAuth) (decide : ApprovalDecideParams) : J (ApprovalDecision + JsError) :=
  let id := ad_approvalId decide in
  approval ← gets (λ s, jd_approvals s !! id);
  row ← required approval (missing "approval");
  _ ← ensure (String.eqb (apr_account_id row) (sa_accountId auth)) (missing "approval");
  job ← readJobRequired (apr_job_id row);
  attempt ← readAttemptRequired (apr_attempt_id row);
  if bool_decide (apr_state row = approval_decision (ad_approved decide)) then
    _ ← on_sync (bumpCounter "approval_decides" 1);
    mret (inl {| de_approval := row; de_job := job; de_duplicate := true |})
  else if negb (bool_decide (apr_state row = ap_pending)) then
    throw (conflict [("reason", "approval-already-decided"); ("state", approval_state_text (apr_state row))])
  else if apr_expires_at row <=? now then
    _ ← expireApprovalIfDue now id row;
    mret (inr (conflict [("reason", "approval-expired")]))
  else if negb (att_fence attempt =? apr_generation row) then
    _ ← lapse now id row "stale-generation";
    mret (inr (RpcFailure "stale-generation" [("expected", int_to_string (att_fence attempt));
                 ("actual", int_to_string (apr_generation row))]))
  else if String.eqb (sa_enrollmentId auth) (att_worker_enrollment_id attempt) then
    throw (not_allowed [("reason", "worker-cannot-decide")])
  else if match apr_approver_enrollment_id row with Some e => negb (String.eqb e (sa_enrollmentId auth)) | None => false end then
    throw (not_allowed [("reason", "not-permitted-approver")])
  else if negb (bool_decide (jb_state job = job_awaiting_approval)) then
    _ ← lapse now id row "job-not-awaiting-approval";
    mret (inr (conflict [("reason", "job-not-awaiting-approval"); ("state", job_state_text (jb_state job))]))
  else
    _ ← carry_out now auth decide row job attempt;
    _ ← on_sync (bumpCounter "approval_decides" 1);
    row ← readApprovalRequired id;
    job ← readJobRequired (apr_job_id row);
    mret (inl {| de_approval := row; de_job := job; de_duplicate := false |}).

Definition handleApprovalDecide (now : Z) (auth : SpikeAuth) (params : json) : J ApprovalDecision :=
  decide ← from_outcome (parseApprovalDecideParams params);
  result ← commit (decideApproval now auth decide);
  match result with inl d => mret d | inr failure => throw failure end.

(** ** The managed provisioner *)

Section Managed.
Context (date_parse : string → option Z) (hosted cloudAgents : bool).

Record ManagedClaim := {
  mc_jobId : string; mc_attemptId : string; mc_fence : Z; mc_environmentId : string; mc_ttlSeconds : num;
  mc_payload : option string;
}.

Definition awaits_provision (now : Z) (p : string * JobRow) : bool :=
  bool_decide (jb_kind p.2 = kind_provision_environment) && bool_decide (jb_state p.2 = job_queued) &&
  (now <? jb_queue_deadline p.2) && managed_inputs (jb_input_manifest p.2).

Definition created_first (a b : string * JobRow) : bool := jb_created_at a.2 <=? jb_created_at b.2.

Definition drop_bootstrap (environmentId : jsval) : J unit :=
  match environmentId with
  | Some (JStr e) => modify (λ s, put_bootstrap (delete e (jd_bootstrap s)) s)
  | _ => mret tt
  end.

(** One job of the first phase of [runManagedWork], with the id of its attempt. *)
Definition claim_managed (now : Z) (item : string * (string * JobRow)) (out : list ManagedClaim) : J (list ManagedClaim) :=
  let '(uuid, (jobId, job)) := item in
  let environmentId := prop "environmentId" (Some (mf_inputs (jb_input_manifest job))) in
  restriction ← on_sync (activeFairUseRestriction date_parse hosted now);
  if match restriction with Some _ => true | None => false end then
    _ ← drop_bootstrap environmentId;
    _ ← setJobState jobId job job_failed now (because "fair-use-restricted");
    mret out
  else if negb cloudAgents then
    _ ← drop_bootstrap environmentId;
    _ ← setJobState jobId job job_failed now (because "cloud-agents-disabled");
    mret out
  else match environmentId, prop "ttlSeconds" (Some (mf_inputs (jb_input_manifest job))) with
  | Some (JStr e), Some (JNum (NFin m k)) =>
      _ ← start_attempt now uuid jobId job MANAGED_PROVISIONER_ENROLLMENT MANAGED_PROVISIONER_INCARNATION
            (now + MANAGED_PROVISION_BUDGET_MS) [("internal", JStr "managed-provisioner")];
      staged ← gets (λ s, jd_bootstrap s !! e);
      _ ← drop_bootstrap (Some (JStr e));
      mret (out ++ [{| mc_jobId := jobId; mc_attemptId := uuid; mc_fence := jb_next_fence job; mc_environmentId := e;
                       mc_ttlSeconds := NFin m k; mc_payload := staged |}])
  | _, _ =>
      _ ← setJobState jobId job job_failed now (because "malformed-inputs");
      mret out
  end.

Definition claimManagedWork (now : Z) (uuid : nat → string) : J (list ManagedClaim) :=
  commit (
    jobs ← gets (λ s, take MANAGED_PROVISION_BATCH (sort_by created_first (List.filter (awaits_provision now)
                        (map_to_list (jd_jobs s)))));
    for_each (imap (λ i p, (uuid i, p)) jobs) (claim_managed now) []).

(** [finish] of the second phase. *)
Definition finish_managed (now : Z) (jobId attemptId : string) (ok : bool) (res : jsval) (error : option string) : J unit :=
  commit (
    _ ← update_attempt attemptId (λ a, with_outcome (if ok then outcome_completed else outcome_failed) res
          (att_sealed_result a) (att_sealed_result_retention_until a) error now a);
    attempt ← readAttemptRequired attemptId;
    job ← readJobRequired jobId;
    _ ← setAttemptState attemptId attempt (if ok then at_completed else at_failed) now;
    setJobState jobId job (if ok then job_completed else job_failed) now (released
      (match error with
       | Some e => if ok then None
                   else if String.eqb e "fair-use-restricted" || String.eqb e "cloud-agents-disabled" then Some e
                   else Some "provision-failed"
       | None => None
       end))).
End Managed.

(** ** The sweep *)

Definition lapsed (now : Z) (_ : string) (a : AttemptRow) : bool :=
  isActiveAttemptState (att_state a) && (att_lease_expires_at a <? now - ATTEMPT_UNKNOWN_GRACE_MS).

(** How many attempts it marked: one or none. *)
Definition lapse_attempt (now : Z) (id : string) : J Z :=
  attempt ← gets (λ s, jd_attempts s !! id);
  match attempt with
  | Some a => if isActiveAttemptState (att_state a) then _ ← setAttemptState id a at_unknown_outcome now; mret 1 else mret 0
  | None => mret 0
  end.

Definition stale_worker (now : Z) (_ : string) (r : WorkerRow) : bool :=
  match wk_revoked_at r with Some t => t <? now - WORKER_AUDIT_RETENTION_MS | None => false end.

Definition delete_workers (gone : list (string * WorkerRow)) (s : JobDb) : JobDb :=
  put_workers (delete_rows gone (jd_workers s)) (put_replicas (filter (λ r, r.1.1 ∉ map fst gone) (jd_replicas s)) s).

(** The transaction of the sweep shares it with the tables of synchronisation. *)
Definition sweepJobs (now : Z) : J unit :=
  commit (
    gone ← gets (λ s, some_rows (stale_worker now) (jd_workers s));
    _ ← modify (delete_workers gone);
    _ ← expireQueuedJobs now;
    stale ← gets (λ s, some_rows (lapsed now) (jd_attempts s));
    unknown ← for_each stale (λ p n, one ← lapse_attempt now p.1; mret (n + one)) 0;
    due ← gets (λ s, some_rows (λ _ r, bool_decide (apr_state r = ap_pending) && (apr_expires_at r <=? now)) (jd_approvals s));
    _ ← for_each due (λ p _, expireApprovalIfDue now p.1 p.2) tt;
    _ ← on_sync (bumpCounter "sweep_workers_deleted" (Z.of_nat (length gone)));
    on_sync (bumpCounter "sweep_attempts_unknown" unknown)).

(** [/internal/revoke-enrollment], and the revocation of an environment's worker. *)
Definition revoked_worker (now : Z) (drop_lease : bool) (r : WorkerRow) : WorkerRow := {|
  wk_account_id := wk_account_id r; wk_policy := wk_policy r; wk_incarnation := wk_incarnation r;
  wk_capabilities := wk_capabilities r; wk_connected_at := wk_connected_at r; wk_last_seen_at := wk_last_seen_at r;
  wk_lease_expires_at := if drop_lease then None else wk_lease_expires_at r; wk_revoked_at := Some now;
  wk_created_at := wk_created_at r |}.

Definition revokeWorker (now : Z) (enrollmentId : string) : J unit :=
  update_worker enrollmentId (λ r, if bool_decide (wk_revoked_at r = None) then revoked_worker now false r else r).

(** ** All calls on the jobs of an account

    The calls of devices, users and the backend itself on workers, jobs, attempts and
    approvals, in any order; other parts of the coordinator may change the tables of
    synchronisation and of environments as they like between them. *)

Inductive JobCall :=
| call_policy (now : Z) (auth : SpikeAuth) (params : json)
| call_connect (now : Z) (uuid : string) (auth : SpikeAuth)
| call_capabilities (now : Z) (auth : SpikeAuth) (params : json)
| call_replicas (now : Z) (auth : SpikeAuth) (params : json)
| call_create (now : Z) (uuid : string) (auth : SpikeAuth) (params : json)
| call_get (now : Z) (params : json)
| call_list (now : Z) (auth : SpikeAuth) (params : json)
| call_claim (now : Z) (uuid : string) (auth : SpikeAuth) (params : json)
| call_renew (now : Z) (auth : SpikeAuth) (params : json)
| call_report (now : Z) (auth : SpikeAuth) (params : json)
| call_cancel (now : Z) (params : json)
| call_control (now : Z) (uuid : string) (auth : SpikeAuth) (attemptId : string) (generation : Z) (kind text : string)
| call_approvals (now : Z) (auth : SpikeAuth) (params : json)
| call_decide (now : Z) (auth : SpikeAuth) (params : json)
| call_managed_claim (now : Z) (uuid : nat → string)
| call_managed_finish (now : Z) (attemptId : string) (ok : bool) (res : jsval) (error : option string)
| call_job_sweep (now : Z)
| call_revoke (now : Z) (enrollmentId : string)
| call_suspend (now : Z) (enrollmentId : string)
| call_resolve (environmentId enrollmentId : string)
| call_other (sync : SyncDb → SyncDb) (environments : gmap string EnvironmentRow) (bootstrap : gmap string string).

(** The provisioner finishes an attempt of its own. *)
Definition finishManaged (now : Z) (attemptId : string) (ok : bool) (res : jsval) (error : option string) : J unit :=
  attempt ← gets (λ s, jd_attempts s !! attemptId);
  match attempt with
  | Some a =>
      if String.eqb (att_worker_enrollment_id a) MANAGED_PROVISIONER_ENROLLMENT then
        finish_managed now (att_job_id a) attemptId ok res error
      else mret tt
  | None => mret tt
  end.

(** Who calls, and when. *)
Definition caller (c : JobCall) : option string :=
  match c with
  | call_policy _ auth _ | call_connect _ _ auth | call_capabilities _ auth _ | call_replicas _ auth _
  | call_create _ _ auth _ | call_list _ auth _ | call_claim _ _ auth _ | call_renew _ auth _ | call_report _ auth _
  | call_control _ _ auth _ _ _ _ | call_approvals _ auth _ | call_decide _ auth _ => Some (sa_enrollmentId auth)
  | _ => None
  end.

(** The approval a call decides and whether it approves it, if it is a decision. *)
Definition decision (c : JobCall) : option (string * bool) :=
  match c with
  | call_decide _ _ params =>
      match parseApprovalDecideParams params with Ok d => Some (ad_approvalId d, ad_approved d) | Throw _ => None end
  | _ => None
  end.

Definition call_time (c : JobCall) : Z :=
  match c with
  | call_policy now _ _ | call_connect now _ _ | call_capabilities now _ _ | call_replicas now _ _
  | call_create now _ _ _ | call_get now _ | call_list now _ _ | call_claim now _ _ _ | call_renew now _ _
  | call_report now _ _ | call_cancel now _ | call_control now _ _ _ _ _ _ | call_approvals now _ _
  | call_decide now _ _ | call_managed_claim now _ | call_managed_finish now _ _ _ _ | call_job_sweep now
  | call_revoke now _ | call_suspend now _ => now
  | call_resolve _ _ | call_other _ _ _ => 0
  end.

(** No device is enrolled under the name of the backend's own provisioner. *)
Definition genuine (c : JobCall) : Prop := caller c ≠ Some MANAGED_PROVISIONER_ENROLLMENT.

Section Calls.
Context (date_parse : string → option Z) (hosted : bool) (locale_leb : string → string → bool) (cloudAgents provisioner : bool).
Context (JSON_parse : string → option json).

Definition run_job_call (c : JobCall) (s : JobDb) : JobDb :=
  match c with
  | call_policy now auth params => (handleDevicePolicyPublish now auth params s).2
  | call_connect now uuid auth => (handleWorkerConnect now uuid auth s).2
  | call_capabilities now auth params => (handleWorkerCapabilitiesPublish now auth params s).2
  | call_replicas now auth params => (handleWorkerReplicaPublish date_parse now auth params s).2
  | call_create now uuid auth params =>
      (handleJobCreate date_parse hosted locale_leb cloudAgents provisioner now uuid auth params s).2
  | call_get now params => (handleJobGet now params s).2
  | call_list now auth params => (handleJobList now auth params s).2
  | call_claim now uuid auth params => (handleJobClaim locale_leb now uuid auth params s).2
  | call_renew now auth params => (handleAttemptRenew now auth params s).2
  | call_report now auth params => (handleAttemptReport now auth params s).2
  | call_cancel now params => (handleJobCancel now params s).2
  | call_control now uuid auth attemptId generation kind text =>
      (handleControlFrame JSON_parse now uuid auth attemptId generation kind text s).2
  | call_approvals now auth params => (handleApprovalGet now auth params s).2
  | call_decide now auth params => (handleApprovalDecide now auth params s).2
  | call_managed_claim now uuid => (claimManagedWork date_parse hosted cloudAgents now uuid s).2
  | call_managed_finish now attemptId ok res error => (finishManaged now attemptId ok res error s).2
  | call_job_sweep now => (sweepJobs now s).2
  | call_revoke now enrollmentId => (revokeWorker now enrollmentId s).2
  | call_suspend now enrollmentId => (update_worker enrollmentId (revoked_worker now true) s).2
  | call_resolve environmentId enrollmentId => (resolveEnvironmentTargets environmentId enrollmentId s).2
  | call_other sync environments bootstrap =>
      put_environments environments (put_bootstrap bootstrap (put_sync (sync (jd_sync s)) s))
  end.

Definition run_job_calls (cs : list JobCall) (s : JobDb) : JobDb := foldl (λ s c, run_job_call c s) s cs.
End Calls.
