(* ===== verification/JobSteps.v ===== *)
(** * Desktop app cloud: the life of jobs as steps

    An abstract machine of jobs, attempts and approvals: the steps that may be taken, by
    whom and when, each a change of the three tables under a guard.  Every call of
    [JobApprovals] is a sequence of its steps. *)

From stdpp Require Import base list strings gmap relations.
From Stdlib Require Import ZArith Ascii Lia.
From S2P Require Import Prelude Transactions JsString JsValue SyncWire SyncTables SyncLog SyncData JobTables JobWire JobCoordinator JobLifecycle JobApprovals.

(** Jobs, attempts and approvals are untouched. *)
Definition same_tables (s s' : JobDb) : Prop :=
  jd_jobs s' = jd_jobs s ∧ jd_attempts s' = jd_attempts s ∧ jd_approvals s' = jd_approvals s.

#[export] Instance same_tables_preorder : PreOrder same_tables.
Proof. split; [by intros s|]. intros a b c (H1 & H2 & H3) (K1 & K2 & K3). split_and!; congruence. Qed.

(** A queued job without a target gets one. *)
Definition retargeted (r r' : JobRow) : Prop :=
  r' = r ∨ (jb_state r = job_queued ∧ jb_target_enrollment_id r = None ∧ ∃ t e u, r' = with_target t e u r).

(** A row as [job.create] inserts it. *)
Definition born (r : JobRow) : Prop :=
  jb_state r = job_queued ∧ jb_retried r = 0 ∧ jb_next_fence r = 1 ∧ jb_active_attempt_id r = None ∧ jb_terminal_at r = None.

(** Only the lease, a late report and the time of the last update may differ. *)
Definition same_attempt (a a' : AttemptRow) : Prop :=
  ∃ lease late now, a' = {|
    att_job_id := att_job_id a; att_worker_enrollment_id := att_worker_enrollment_id a;
    att_worker_incarnation := att_worker_incarnation a; att_fence := att_fence a; att_state := att_state a;
    att_lease_expires_at := lease; att_outcome := att_outcome a; att_result := att_result a;
    att_sealed_result := att_sealed_result a; att_sealed_result_retention_until := att_sealed_result_retention_until a;
    att_error := att_error a; att_late_result := late; att_created_at := att_created_at a; att_updated_at := now |}.

Definition started_by (aid : string) (row : JobRow) : JobExtras := {|
  ex_stateReason := None; ex_activeAttemptId := Some (Some aid); ex_queueDeadline := None; ex_retried := None;
  ex_nextFence := Some (jb_next_fence row + 1) |}.

Definition requeued (now : Z) : JobExtras := {|
  ex_stateReason := Some (Some "retry-safe"); ex_activeAttemptId := Some None;
  ex_queueDeadline := Some (now + USER_JOB_DEADLINE_MS); ex_retried := Some 1; ex_nextFence := None |}.

(** How a report ends an attempt and moves its job. *)
Inductive verdict (now : Z) (row : JobRow) : AttemptOutcome → AttemptState → JobState → JobExtras → Prop :=
| verdict_completed :
    jb_state row ≠ job_cancel_requested → verdict now row outcome_completed at_completed job_completed (released None)
| verdict_cancelled :
    jb_state row = job_cancel_requested →
    verdict now row outcome_completed at_cancelled job_cancelled (released (Some "cancel-requested"))
| verdict_failed reason : verdict now row outcome_failed at_failed job_failed (released reason)
| verdict_requeued :
    jb_state row ≠ job_cancel_requested → jb_retry_policy row = retry_safe → jb_retried row = 0 →
    verdict now row outcome_failed at_failed job_queued (requeued now).

(** Who may start an attempt of a job: the caller, below its own limit, or the backend. *)
Definition may_start (who : option string) (worker : string) (s : JobDb) : Prop :=
  (who = Some worker ∧ countActiveAttempts s worker < MAX_CONCURRENT_JOBS) ∨ worker = MANAGED_PROVISIONER_ENROLLMENT.

(** The steps that a call may take: who calls, which approval it decides and whether it
    approves it, if it is a decision, and when. *)
Inductive job_step (who : option string) (what : option (string * bool)) (now : Z) (s s' : JobDb) : Prop :=
| adv_keep : same_tables s s' → job_step who what now s s'
| adv_retarget :
    (∀ id, option_Forall2 retargeted (jd_jobs s !! id) (jd_jobs s' !! id)) →
    jd_attempts s' = jd_attempts s → jd_approvals s' = jd_approvals s → job_step who what now s s'
| adv_create id row :
    jd_jobs s !! id = None → readJobByRequest (jb_source_enrollment_id row) (jb_request_id row) s = None →
    who = Some (jb_source_enrollment_id row) → born row →
    jd_jobs s' = <[id := row]> (jd_jobs s) → jd_attempts s' = jd_attempts s → jd_approvals s' = jd_approvals s →
    job_step who what now s s'
| adv_start id row aid worker incarnation lease :
    jd_jobs s !! id = Some row → jb_state row = job_queued → now < jb_queue_deadline row → may_start who worker s →
    jd_attempts s !! aid = None → any_attempt (fence_taken id (jb_next_fence row)) s = false →
    jd_jobs s' = <[id := with_job_state job_running now (started_by aid row) row]> (jd_jobs s) →
    jd_attempts s' = <[aid := new_attempt_row now id worker incarnation (jb_next_fence row) lease]> (jd_attempts s) →
    jd_approvals s' = jd_approvals s → job_step who what now s s'
| adv_data aid a a' :
    jd_attempts s !! aid = Some a → same_attempt a a' → who = Some (att_worker_enrollment_id a) →
    jd_jobs s' = jd_jobs s → jd_attempts s' = <[aid := a']> (jd_attempts s) → jd_approvals s' = jd_approvals s →
    job_step who what now s s'
| adv_settle aid a row outcome res sealed until error ast jst x :
    jd_attempts s !! aid = Some a → jd_jobs s !! att_job_id a = Some row → 
    who = Some (att_worker_enrollment_id a) ∨
      (att_worker_enrollment_id a = MANAGED_PROVISIONER_ENROLLMENT ∧ jst ≠ job_queued) →
    isActiveAttemptState (att_state a) = true ∨
      (att_state a = ast ∧ att_worker_enrollment_id a = MANAGED_PROVISIONER_ENROLLMENT) →
    att_state a = ast ∨ attemptTransitionReachable (att_state a) ast = true →
    canTransitionJob (jb_state row) jst = true → verdict now row outcome ast jst x →
    jd_jobs s' = <[att_job_id a := with_job_state jst now x row]> (jd_jobs s) →
    jd_attempts s' = <[aid := with_attempt_state ast now (with_outcome outcome res sealed until error now a)]> (jd_attempts s) →
    jd_approvals s' = jd_approvals s → job_step who what now s s'
| adv_cancel id row :
    jd_jobs s !! id = Some row → jb_state row = job_queued ∨ jb_state row = job_awaiting_approval →
    jd_jobs s' = <[id := with_job_state job_cancelled now (released (Some "cancelled")) row]> (jd_jobs s) →
    jd_attempts s' = jd_attempts s → jd_approvals s' = jd_approvals s → job_step who what now s s'
| adv_stop id row :
    jd_jobs s !! id = Some row → jb_state row = job_running →
    jd_jobs s' = <[id := with_job_state job_cancel_requested now (because "cancel-requested") row]> (jd_jobs s) →
    (jd_attempts s' = jd_attempts s ∧
       (∀ aid a, jb_active_attempt_id row = Some aid → jd_attempts s !! aid = Some a →
          isActiveAttemptState (att_state a) = true → att_state a = at_stopping) ∨
     ∃ aid a, jb_active_attempt_id row = Some aid ∧ jd_attempts s !! aid = Some a ∧
       isActiveAttemptState (att_state a) = true ∧
       jd_attempts s' = <[aid := with_attempt_state at_stopping now a]> (jd_attempts s)) →
    jd_approvals s' = jd_approvals s → job_step who what now s s'
| adv_fail id row x :
    jd_jobs s !! id = Some row → jb_state row = job_queued →
    (∃ reason, x = released (Some reason)) ∨ (∃ reason, x = because reason) →
    jd_jobs s' = <[id := with_job_state job_failed now x row]> (jd_jobs s) →
    jd_attempts s' = jd_attempts s → jd_approvals s' = jd_approvals s → job_step who what now s s'
| adv_lapse aid a :
    jd_attempts s !! aid = Some a → isActiveAttemptState (att_state a) = true →
    jd_jobs s' = jd_jobs s → jd_attempts s' = <[aid := with_attempt_state at_unknown_outcome now a]> (jd_attempts s) →
    jd_approvals s' = jd_approvals s → job_step who what now s s'
| adv_ask aid a row pid p :
    jd_attempts s !! aid = Some a → isActiveAttemptState (att_state a) = true → jd_jobs s !! att_job_id a = Some row →
    jb_state row = job_running → who = Some (att_worker_enrollment_id a) → readPendingApproval aid s = None →
    jd_approvals s !! pid = None → apr_job_id p = att_job_id a → apr_attempt_id p = aid → apr_generation p = att_fence a →
    apr_state p = ap_pending → apr_approver_enrollment_id p ≠ who →
    jd_jobs s' = <[att_job_id a := with_job_state job_awaiting_approval now (because "approval-required") row]> (jd_jobs s) →
    jd_attempts s' = jd_attempts s → jd_approvals s' = <[pid := p]> (jd_approvals s) → job_step who what now s s'
| adv_decide e pid p a row approved :
    who = Some e → what = Some (pid, approved) → jd_approvals s !! pid = Some p → apr_state p = ap_pending →
    now < apr_expires_at p → jd_attempts s !! apr_attempt_id p = Some a → att_fence a = apr_generation p → e ≠ att_worker_enrollment_id a →
    (∀ approver, apr_approver_enrollment_id p = Some approver → e = approver) →
    jd_jobs s !! apr_job_id p = Some row → jb_state row = job_awaiting_approval →
    jd_approvals s' = <[pid := with_approval_state (approval_decision approved) (Some e) now p]> (jd_approvals s) →
    (if (approved : bool) then
       jd_jobs s' = <[apr_job_id p := with_job_state job_running now (because "approval-granted") row]> (jd_jobs s) ∧
       jd_attempts s' = jd_attempts s
     else
       jd_jobs s' = <[apr_job_id p := with_job_state job_failed now (released (Some "approval-denied")) row]> (jd_jobs s) ∧
       jd_attempts s' = if isActiveAttemptState (att_state a)
                        then <[apr_attempt_id p := with_attempt_state at_failed now a]> (jd_attempts s) else jd_attempts s) →
    job_step who what now s s'
| adv_close pid p st :
    jd_approvals s !! pid = Some p → apr_state p = ap_pending → st = ap_expired ∨ st = ap_cancelled →
    jd_jobs s' = jd_jobs s → jd_attempts s' = jd_attempts s →
    jd_approvals s' = <[pid := with_approval_state st None now p]> (jd_approvals s) → job_step who what now s s'.

(** ** What the transitions do to the tables *)

Section Primitives.

Lemma keep_sync {A} (m : M SyncDb A) : moves same_tables (on_sync m).
Proof. intros s. unfold on_sync. by destruct (m (jd_sync s)) as [r d]. Qed.

Lemma journal_keeps now jobId attemptId generation kind payload :
  moves same_tables (journalDurableEvent now jobId attemptId generation kind payload).
Proof.
  unfold journalDurableEvent, allocEventSeq, bumpEventStreamCursor.
  repeat first
    [ apply moves_reads; [apply _|solve [eauto with moves]]
    | apply moves_bind; [apply _| |intros ?]
    | apply keep_sync
    | apply moves_insert; [apply _|by intros ? ?]
    | apply moves_modify; by intros ? ].
Qed.

Lemma completed_id t now row x : with_job_state t now (completed_with row x) row = with_job_state t now x row.
Proof. destruct x as [[] [] [] [] []]; reflexivity. Qed.

(** The caller's copy of a job that was retargeted since is as good as its row. *)
Lemma completed_retargeted t now row r x : retargeted row r →
  with_job_state t now (completed_with row x) r = with_job_state t now x r.
Proof. intros [->|(_ & _ & ? & ? & ? & ->)]; [apply completed_id|]. by destruct x as [[] [] [] [] []]. Qed.

Lemma setJobState_Ok id row target now x s u s' : setJobState id row target now x s = (Ok u, s') →
  canTransitionJob (jb_state row) target = true ∧
  jd_jobs s' = alter (with_job_state target now (completed_with row x)) id (jd_jobs s) ∧
  jd_attempts s' = jd_attempts s ∧ jd_approvals s' = jd_approvals s.
Proof.
  unfold setJobState. destruct (canTransitionJob _ _); [|done]. cbn [negb]. intros H. step_back H v s1 H1.
  injection H1 as <- <-. split; [done|].
  pose proof (journal_keeps now id "" 0 "job.state" (JObj ([("from", JStr (job_state_text (jb_state row)));
      ("to", JStr (job_state_text target))] ++ opt_entry "stateReason" (default (jb_state_reason row) (ex_stateReason x))))
    (put_jobs (alter (with_job_state target now (completed_with row x)) id (jd_jobs s)) s)) as Hk.
  rewrite H in Hk. exact Hk.
Qed.

Lemma alter_some {A} (m : gmap string A) f id a : m !! id = Some a → alter f id m = <[id := f a]> m.
Proof.
  intros Ha. apply map_eq. intros k. destruct (decide (k = id)) as [->|Hk].
  - by rewrite lookup_alter_eq, lookup_insert_eq, Ha.
  - by rewrite lookup_alter_ne, lookup_insert_ne.
Qed.

(** The usual case: the copy is the row. *)
Lemma setJobState_row id row target now x s u s' : jd_jobs s !! id = Some row → setJobState id row target now x s = (Ok u, s') →
  canTransitionJob (jb_state row) target = true ∧
  jd_jobs s' = <[id := with_job_state target now x row]> (jd_jobs s) ∧
  jd_attempts s' = jd_attempts s ∧ jd_approvals s' = jd_approvals s.
Proof.
  intros Hr (Hc & Hj & Ha & Hp)%setJobState_Ok. split_and!; [done| |done..]. by rewrite Hj, (alter_some _ _ _ _ Hr), completed_id.
Qed.

Lemma setAttemptState_Ok id a b target now s u s' : jd_attempts s !! id = Some b → setAttemptState id a target now s = (Ok u, s') →
  jd_jobs s' = jd_jobs s ∧ jd_approvals s' = jd_approvals s ∧
  (att_state a = target ∧ s' = s ∨
   attemptTransitionReachable (att_state a) target = true ∧
     jd_attempts s' = <[id := with_attempt_state target now b]> (jd_attempts s)).
Proof.
  unfold setAttemptState. intros Hb. destruct (bool_decide_reflect (att_state a = target)) as [He|He].
  { intros [= _ <-]. split_and!; [done..|by left]. }
  destruct (attemptTransitionReachable _ _); [|done]. cbn [negb]. intros H. step_back H v s1 H1. injection H1 as <- <-.
  pose proof (journal_keeps now (att_job_id a) id (att_fence a) "attempt.state"
    (JObj [("from", JStr (attempt_state_text (att_state a))); ("to", JStr (attempt_state_text target))])
    (put_attempts (alter (with_attempt_state target now) id (jd_attempts s)) s)) as Hk.
  rewrite H in Hk. destruct Hk as (Hj & Hat & Hp). split_and!; [done..|]. right. split; [done|].
  cbn [snd] in Hat. rewrite Hat. by apply alter_some.
Qed.

(** An outcome is recorded, then the attempt ends and its job moves. *)
Lemma settled_steps who what now s s1 s' aid a c row outcome res sealed until error ast jst x u :
  jd_attempts s !! aid = Some a → jd_jobs s !! att_job_id a = Some row →
  who = Some (att_worker_enrollment_id a) ∨ (att_worker_enrollment_id a = MANAGED_PROVISIONER_ENROLLMENT ∧ jst ≠ job_queued) →
  isActiveAttemptState (att_state a) = true ∨ att_worker_enrollment_id a = MANAGED_PROVISIONER_ENROLLMENT →
  att_state c = att_state a → (canTransitionJob (jb_state row) jst = true → verdict now row outcome ast jst x) →
  jd_jobs s1 = jd_jobs s → jd_approvals s1 = jd_approvals s →
  jd_attempts s1 = <[aid := with_outcome outcome res sealed until error now a]> (jd_attempts s) →
  (_ ← setAttemptState aid c ast now; setJobState (att_job_id a) row jst now x) s1 = (Ok u, s') →
  job_step who what now s s'.
Proof.
  intros Ha Hr Hw Hact Hc Hv Hj1 Hp1 Ha1 H. step_back H v s2 H1.
  eapply setAttemptState_Ok in H1 as (Hj2 & Hp2 & Ha2); [|by rewrite Ha1, lookup_insert_eq].
  eapply (setJobState_row _ row) in H as (Ht & Hj & Ha' & Hp); [|by rewrite Hj2, Hj1].
  rewrite Hj2, Hj1 in Hj. rewrite Hc in Ha2.
  eapply (adv_settle _ _ _ _ _ aid a row outcome res sealed until error ast jst x); [done..| | |done|by apply Hv|done| |congruence].
  - destruct Hact as [?|Hm]; [by left|]. destruct Ha2 as [[? ->]|[Hreach _]]; [by right|]. left. revert Hreach. by destruct (att_state a), ast.
  - destruct Ha2 as [[? ->]|[? _]]; auto.
  - rewrite Ha'. destruct Ha2 as [[He ->]|[_ ->]]; rewrite Ha1; [|apply insert_insert_eq].
    f_equal. subst ast. by destruct a.
Qed.
End Primitives.
