(* ===== verification/JobMoves.v ===== *)
(** * Desktop app cloud: the calls on jobs take the steps of their machine

    Every call of [JobApprovals], whatever it returns or throws, leaves the tables at the end of
    a sequence of steps of [JobSteps] that its caller may take at its time. *)

From stdpp Require Import base list strings gmap relations.
From Stdlib Require Import ZArith Ascii Lia.
From S2P Require Import Prelude Transactions JsString JsValue SyncWire SyncTables SyncLog SyncData JobTables JobWire JobCoordinator JobLifecycle JobApprovals JobSteps.

(** ** Loops over the rows of a table *)

Section Rows.
Context {St : Type} (R : relation St) `{!PreOrder R} {V : Type} (get : St → gmap string V).

(** Each pass moves the state along [R] from one where its row is still there, and leaves
    the rows of the others. *)
Definition own_row {B} (p : string * V) (m : B → M St B) : Prop :=
  ∀ b s b' s', get s !! p.1 = Some p.2 → m b s = (Ok b', s') → R s s' ∧ ∀ k, k ≠ p.1 → get s' !! k = get s !! k.

Lemma for_rows {X B} (key : X → string * V) (rows : list X) (body : X → B → M St B) acc s b s' :
  NoDup (key <$> rows).*1 → (∀ p, p ∈ key <$> rows → get s !! p.1 = Some p.2) →
  (∀ x, x ∈ rows → own_row (key x) (body x)) → for_each rows body acc s = (Ok b, s') → R s s'.
Proof.
  revert acc s. induction rows as [|x rows IH]; intros acc s Hd Hin Hb H; cbn [for_each] in H.
  { by injection H as _ <-. }
  cbn in Hd. apply NoDup_cons in Hd as [Hp Hd]. step_back H a s1 H1.
  destruct (Hb x (list_elem_of_here _ _) acc s a s1) as [Hr Hk]; [apply Hin; left|done|].
  etrans; [exact Hr|]. apply (IH a s1); [done| |intros q Hq; apply Hb; by right|done].
  intros q Hq. rewrite Hk; [apply Hin; by right|]. intros He. apply Hp. rewrite <- He. apply list_elem_of_fmap. eauto.
Qed.

Lemma map_rows {B} (rows : list (string * V)) (f : string * V → M St B) s bs s' :
  NoDup rows.*1 → (∀ p, p ∈ rows → get s !! p.1 = Some p.2) → (∀ p, p ∈ rows → own_row p (λ _ : B, f p)) →
  map_M f rows s = (Ok bs, s') → R s s'.
Proof.
  revert bs s. induction rows as [|p rows IH]; intros bs s Hd Hin Hb H; cbn [map_M] in H.
  { by injection H as _ <-. }
  apply NoDup_cons in Hd as [Hp Hd]. step_back H a s1 H1. step_back H as_ s2 H2. injection H as _ <-.
  destruct (Hb p (list_elem_of_here _ _) a s a s1) as [Hr Hk]; [apply Hin; left|done|].
  etrans; [exact Hr|]. apply (IH as_ s1); [done| |intros q Hq; apply Hb; by right|done].
  intros q Hq. rewrite Hk; [apply Hin; by right|]. intros He. apply Hp. rewrite <- He. apply list_elem_of_fmap. eauto.
Qed.
End Rows.

Lemma moves_each {St : Type} (R : relation St) `{!PreOrder R} {A B} (xs : list A) (body : A → B → M St B) acc :
  (∀ x b, moves R (body x b)) → moves R (for_each xs body acc).
Proof.
  intros Hb. revert acc. induction xs as [|x xs IH]; intros acc; cbn [for_each]; [by apply moves_reads|].
  apply moves_bind; [done..|]. intros b. apply IH.
Qed.

(** A choice of the rows of a map. *)
Definition table_rows_of {V} (m : gmap string V) (rows : list (string * V)) : Prop :=
  NoDup rows.*1 ∧ ∀ p, p ∈ rows → m !! p.1 = Some p.2.

Lemma rows_sublist {V} (m : gmap string V) rows rows' : table_rows_of m rows → rows' `sublist_of` rows → table_rows_of m rows'.
Proof.
  intros [Hd Hin] Hs. split; [by eapply sublist_NoDup, fmap_sublist|].
  intros p Hp. by eapply Hin, elem_of_sublist.
Qed.

Lemma lfilter_sublist {A} (p : A → bool) l : List.filter p l `sublist_of` l.
Proof. induction l as [|x l IH]; cbn; [constructor|]. destruct (p x); by constructor. Qed.

Lemma rows_all {V} (m : gmap string V) : table_rows_of m (map_to_list m).
Proof. split; [apply NoDup_fst_map_to_list|]. intros [k v] Hp. by apply elem_of_map_to_list in Hp. Qed.

Lemma rows_some {V} (m : gmap string V) p : table_rows_of m (some_rows p m).
Proof. eapply rows_sublist; [apply rows_all|]. etrans; [apply sublist_take|apply lfilter_sublist]. Qed.

Lemma some_rows_elem {V} (m : gmap string V) p q : q ∈ some_rows p m → p q.1 q.2 = true.
Proof.
  intros Hq. assert (Hi : q ∈ List.filter (λ r, p r.1 r.2) (map_to_list m)) by (eapply elem_of_sublist; [done|apply sublist_take]).
  by apply list_elem_of_In, filter_In in Hi as [_ ?].
Qed.

(** ** Single transitions *)

Section Units.
Context (who : option string) (what : option (string * bool)) (now : Z).
Notation R := (rtc (job_step who what now)).

Lemma kept_R {A} (m : J A) : moves same_tables m → moves_ok R m.
Proof. intros Hm. apply moves_moves_ok. intros s. apply rtc_once, adv_keep, Hm. Qed.

Lemma keep_R {A} (m : J A) : moves same_tables m → moves R m.
Proof. intros Hm s. apply rtc_once, adv_keep, Hm. Qed.

Lemma read_R {A} (m : J A) : reads m → moves_ok R m.
Proof. apply moves_ok_reads, _. Qed.

Lemma sync_R {A} (m : M SyncDb A) : moves_ok R (on_sync m).
Proof. apply kept_R, keep_sync. Qed.

Lemma journal_R id attemptId g kind payload : moves_ok R (journalDurableEvent now id attemptId g kind payload).
Proof. apply kept_R, journal_keeps. Qed.

(** A step followed by changes of other tables. *)
Lemma step_keep s s1 s2 : job_step who what now s s1 → same_tables s1 s2 → R s s2.
Proof. intros. eapply rtc_l; [done|]. by apply rtc_once, adv_keep. Qed.

Lemma keep_step s s1 s2 : same_tables s s1 → job_step who what now s1 s2 → R s s2.
Proof. intros. eapply rtc_l; [by apply adv_keep|]. by apply rtc_once. Qed.

Lemma fail_queued id row x s u s' :
  jd_jobs s !! id = Some row → jb_state row = job_queued →
  (∃ reason, x = released (Some reason)) ∨ (∃ reason, x = because reason) →
  setJobState id row job_failed now x s = (Ok u, s') → R s s'.
Proof.
  intros Hr Hq Hx (_ & Hj & Ha & Hp)%(setJobState_row _ _ _ _ _ _ _ _ Hr). apply rtc_once. by eapply adv_fail.
Qed.

Lemma expireQueued_R : moves_ok R (expireQueuedJobs now).
Proof.
  apply moves_ok_bind; [apply _|by apply read_R|]. intros rows.
  apply moves_ok_bind; [apply _| |intros _; cbv zeta; apply moves_ok_bind; [apply _| |intros ?; by apply read_R]].
  - apply moves_for_each; [apply _|]. intros p b _ s u s' H. unfold expire_job in H. step_back H job s1 H1.
    injection H1 as <- <-. destruct (jd_jobs s !! p.1) as [row|] eqn:Hr; [|by injection H as _ <-].
    destruct (bool_decide_reflect (jb_state row = job_queued)); [|by injection H as _ <-].
    eapply fail_queued; [exact Hr|done|left; by eexists|exact H].
  - destruct (0 <? _); [apply sync_R|by apply read_R].
Qed.

(** ** Approvals that lapse *)

Lemma close_row p st entries s u s' :
  jd_approvals s !! p.1 = Some p.2 → apr_state p.2 = ap_pending → st = ap_expired ∨ st = ap_cancelled →
  (_ ← setApprovalState p.1 st now None; journal_decided now p.1 p.2 entries) s = (Ok u, s') →
  R s s' ∧ ∀ k, k ≠ p.1 → jd_approvals s' !! k = jd_approvals s !! k.
Proof.
  intros Hp Hs Hst H. step_back H v s1 H1. injection H1 as <- <-.
  pose proof (journal_keeps now (apr_job_id p.2) (apr_attempt_id p.2) (apr_generation p.2) "approval.decided"
    (JObj (("approvalId", JStr p.1) :: entries))
    (put_approvals (alter (with_approval_state st None now) p.1 (jd_approvals s)) s)) as Hk.
  unfold journal_decided in H. rewrite H in Hk. destruct Hk as (Hj & Ha & Hap). cbn in Hj, Ha, Hap. split.
  - apply rtc_once. eapply adv_close; [done..|]. rewrite Hap. by apply alter_some.
  - intros k Hk. rewrite Hap. by apply lookup_alter_ne.
Qed.

Lemma expire_row p : own_row R jd_approvals p (λ _ : unit, expireApprovalIfDue now p.1 p.2).
Proof.
  intros b s u s' Hp H. unfold expireApprovalIfDue in H.
  destruct (bool_decide_reflect (apr_state p.2 = ap_pending)); cbn [andb] in H; [|by injection H as _ <-].
  destruct (_ <=? _); [|by injection H as _ <-].
  eapply close_row; [exact Hp|done| |exact H]. by left.
Qed.

Lemma expire_rows rows s u s' : table_rows_of (jd_approvals s) rows →
  for_each rows (λ p _, expireApprovalIfDue now p.1 p.2) tt s = (Ok u, s') → R s s'.
Proof.
  rewrite <- (list_fmap_id rows) at 1. intros [Hd Hin]. eapply for_rows; [apply _|done..|]. intros p _. apply expire_row.
Qed.

Lemma expireJobApprovals_R jobId : moves_ok R (expireJobApprovals now jobId).
Proof.
  intros s u s' H. step_back H rows s1 H1. injection H1 as <- <-. step_back H v s1 H1.
  etrans; [eapply expire_rows; [apply rows_some|done]|].
  destruct (0 <? _); [by eapply sync_R|by injection H as _ <-].
Qed.

Lemma cancelPending_R jobId except : moves_ok R (cancelPendingApprovals now jobId except).
Proof.
  intros s u s' H. step_back H rows s1 H1. injection H1 as <- <-. step_back H v s1 H1.
  trans s1; [|destruct (0 <? _); [by eapply sync_R|by injection H as _ <-]].
  assert (Hrows : table_rows_of (jd_approvals s) (filter (λ p, Some p.1 ≠ except) (some_rows (pending_of jobId) (jd_approvals s))))
    by (eapply rows_sublist; [apply rows_some|apply sublist_filter]).
  rewrite <- list_fmap_id in Hrows. destruct Hrows as [Hd Hin]. eapply for_rows; [apply _|done..| |done]. intros p [_ Hp]%list_elem_of_filter b s0 u0 s0' Hr H0.
  apply some_rows_elem in Hp. unfold pending_of in Hp. reflect_bools.
  eapply close_row; [exact Hr|done| |exact H0]. by right.
Qed.

(** ** Walking through a computation *)

Lemma reads_required {A} (v : option A) e : reads (required v e).
Proof. by destruct v. Qed.
Lemma reads_job id : reads (readJobRequired id).
Proof. apply reads_bind; [done|intros; apply reads_required]. Qed.
Lemma reads_attempt id : reads (readAttemptRequired id).
Proof. apply reads_bind; [done|intros; apply reads_required]. Qed.
Lemma reads_approval id : reads (readApprovalRequired id).
Proof. apply reads_bind; [done|intros; apply reads_required]. Qed.
Lemma required_Ok {A} (v : option A) e (s : JobDb) a s' : required v e s = (Ok a, s') → v = Some a ∧ s' = s.
Proof. destruct v; [|done]. by intros [= -> ->]. Qed.
Lemma job_Ok id s r s' : readJobRequired id s = (Ok r, s') → jd_jobs s !! id = Some r ∧ s' = s.
Proof. intros H. step_back H v s1 H1. injection H1 as <- <-. by apply required_Ok in H. Qed.
Lemma attempt_Ok id s r s' : readAttemptRequired id s = (Ok r, s') → jd_attempts s !! id = Some r ∧ s' = s.
Proof. intros H. step_back H v s1 H1. injection H1 as <- <-. by apply required_Ok in H. Qed.
Lemma reads_worker auth : reads (requireWorker auth).
Proof. apply reads_bind; [done|]. intros [r|]; [|done]. by repeat case_match. Qed.
Lemma reads_live row : reads (requireLiveIncarnation row now).
Proof. apply reads_ensure. Qed.
Lemma touch_keeps id : moves same_tables (touch_worker id now).
Proof. by intros s. Qed.
Lemma commit_R {A} (m : J A) : moves_ok R m → moves R (commit m).
Proof. apply moves_commit, _. Qed.
End Units.

#[export] Hint Resolve reads_required reads_job reads_attempt reads_approval reads_worker reads_live reads_bind : moves.

Ltac walk_by base := repeat (cbv zeta; first
  [ base
  | apply read_R; solve [eauto 3 with moves]
  | apply sync_R
  | apply journal_R
  | apply kept_R; first [apply touch_keeps|by intros ?]
  | apply moves_ok_bind; [apply _| |intros ?]
  | split_match ]).
Ltac walk := walk_by fail.

(** The same for what a call does however it ends. *)
Ltac walk_call base := repeat (cbv zeta; first
  [ base
  | apply commit_R
  | apply moves_reads; [apply _|]; solve [eauto 3 with moves]
  | apply keep_R; first [apply touch_keeps|apply keep_sync|by intros ?]
  | apply moves_bind; [apply _| |intros ?]
  | split_match ]).

(** The rest of a computation, from the state it has reached. *)
Ltac by_rest H tac :=
  lazymatch goal with |- ?R _ _ =>
    lazymatch type of H with ?m _ = _ =>
      let Hm := fresh in assert (Hm : moves_ok R m) by tac; exact (Hm _ _ _ H)
    end
  end.

(** ** Creation *)

Section Create.
Context (date_parse : string → option Z) (hosted : bool) (locale_leb : string → string → bool) (cloudAgents provisioner : bool).
Context (what : option (string * bool)) (now : Z) (auth : SpikeAuth).
Notation R := (rtc (job_step (Some (sa_enrollmentId auth)) what now)).

Lemma insert_job_R id row : jb_source_enrollment_id row = sa_enrollmentId auth → born row → moves_ok R (insert_job id row).
Proof.
  intros Hs Hb s u s' H. step_back H taken s1 H1. injection H1 as <- <-. step_back H v s1 H1.
  apply ensure_Ok in H1 as [Ht ->]. reflect_bools. unfold insert_row in H.
  destruct (jd_jobs s !! id) eqn:Hid; [done|]. injection H as _ <-.
  apply rtc_once. eapply (adv_create _ _ _ _ _ id row); [done|done|by rewrite Hs|done..].
Qed.

Lemma createJob_R uuid create deadline managed :
  moves_ok R (createJob date_parse hosted locale_leb now uuid auth create deadline managed).
Proof.
  unfold createJob, assertManagedProvisionConcurrency.
  walk_by ltac:(apply insert_job_R; [done|by split_and!]).
Qed.

Lemma handleJobCreate_R uuid params :
  moves R (handleJobCreate date_parse hosted locale_leb cloudAgents provisioner now uuid auth params).
Proof.
  apply moves_outcome_bind; [apply _|]. intros create _. destruct (match jc_queueDeadline create with None => _ | Some _ => _ end) as [d|];
    [|by apply moves_reads; [apply _|]]. destruct (_ || _); [by apply moves_reads; [apply _|]|].
  apply moves_bind; [apply _|by apply moves_reads; [apply _|]|]. intros replay. cbv zeta.
  apply moves_bind; [apply _| |intros _; apply commit_R, createJob_R].
  apply moves_reads; [apply _|]. unfold assertManagedProvisionAllowed, assertManagedProvisionConcurrency.
  repeat first [done|apply reads_bind; [|intros ?]|solve [auto with moves]|split_match].
Qed.
End Create.

(** ** Workers and placement *)

Section Workers.
Context (who : option string) (what : option (string * bool)) (now : Z).
Notation R := (rtc (job_step who what now)).

Lemma resolve_row_retargets e w worker row : retargeted row (resolve_row e w worker row).
Proof.
  unfold resolve_row. destruct (_ && _) eqn:Hb; [|by left]. apply andb_true_iff in Hb as [Hw _].
  unfold waits_for in Hw. reflect_bools. right. split_and!; [done..|]. eauto.
Qed.

Lemma resolve_R e w : moves R (resolveEnvironmentTargets e w).
Proof.
  intros s. apply rtc_once, adv_retarget; [|done..]. intros id. cbn. rewrite lookup_fmap.
  destruct (jd_jobs s !! id); constructor. apply resolve_row_retargets.
Qed.

Lemma update_job_R id (f : JobRow → JobRow) : (∀ r, retargeted r (f r)) → moves_ok R (update_job id f).
Proof.
  intros Hf s u s' [= _ <-]. apply rtc_once, adv_retarget; [|done..]. intros k. cbn. destruct (decide (k = id)) as [->|Hk].
  - rewrite lookup_alter_eq. destruct (jd_jobs s !! id); constructor. apply Hf.
  - rewrite lookup_alter_ne by done. destruct (jd_jobs s !! k); constructor. by left.
Qed.

Lemma handleWorkerCapabilitiesPublish_R auth params : moves R (handleWorkerCapabilitiesPublish now auth params).
Proof.
  unfold handleWorkerCapabilitiesPublish.
  walk_call ltac:(apply moves_each; [apply _|]; intros ? ?; apply resolve_R).
Qed.

(** The rest of the worker's calls leave the tables of jobs alone. *)
Lemma handleDevicePolicyPublish_R auth params : moves R (handleDevicePolicyPublish now auth params).
Proof. unfold handleDevicePolicyPublish. walk_call fail. Qed.
Lemma handleWorkerConnect_R uuid auth : moves R (handleWorkerConnect now uuid auth).
Proof. unfold handleWorkerConnect. walk_call fail. Qed.
Lemma handleWorkerReplicaPublish_R date_parse auth params : moves R (handleWorkerReplicaPublish date_parse now auth params).
Proof. unfold handleWorkerReplicaPublish. walk_call fail. Qed.

(** ** Starting an attempt *)

Lemma start_R s jobId job r uuid worker incarnation lease entries u s' :
  jd_jobs s !! jobId = Some r → retargeted job r → jb_state job = job_queued → now < jb_queue_deadline job →
  may_start who worker s → start_attempt now uuid jobId job worker incarnation lease entries s = (Ok u, s') → R s s'.
Proof.
  intros Hr Ht Hq Hd Hm H. unfold start_attempt in H. cbv zeta in H. step_back H v s1 H1.
  unfold insert_attempt in H1. step_back H1 taken s2 H2. injection H2 as <- <-. step_back H1 w s2 H2.
  apply ensure_Ok in H2 as [Hf ->]. reflect_bools. unfold insert_row in H1.
  destruct (jd_attempts s !! uuid) eqn:Hu; [done|]. injection H1 as _ <-. step_back H w' s2 H2.
  match type of H2 with journalDurableEvent ?a ?b ?c ?d ?e ?f ?st = _ => pose proof (journal_keeps a b c d e f st) as Hk end.
  rewrite H2 in Hk. destruct Hk as (Hj & Ha & Hp). cbn in Hj, Ha, Hp.
  apply setJobState_Ok in H as (_ & Hj' & Ha' & Hp'). rewrite Hj, (alter_some _ _ _ _ Hr), completed_retargeted in Hj' by done.
  assert (Hsame : jb_state r = jb_state job ∧ jb_queue_deadline r = jb_queue_deadline job ∧ jb_next_fence r = jb_next_fence job)
    by (by destruct Ht as [->|(_ & _ & ? & ? & ? & ->)]).
  destruct Hsame as (H1 & H3 & H4). apply rtc_once.
  eapply (adv_start _ _ _ _ _ jobId r uuid worker incarnation lease); [done|congruence|by rewrite H3|done|done|by rewrite H4| | |].
  - rewrite Hj'. unfold started_by. by rewrite H4.
  - rewrite Ha', Ha. by rewrite H4.
  - congruence.
Qed.
End Workers.

(** ** Claims, renewals and reports of a worker *)

Section Life.
Context (locale_leb : string → string → bool) (what : option (string * bool)) (now : Z) (auth : SpikeAuth).
Notation R := (rtc (job_step (Some (sa_enrollmentId auth)) what now)).

Lemma capacity_bound policy capabilities : effectiveConcurrencyCap policy capabilities <= MAX_CONCURRENT_JOBS.
Proof. unfold effectiveConcurrencyCap. lia. Qed.

(** The claimant's copy of the job stays as good as its row. *)
Lemma claim_target_Ok jobId job s u s' :
  jd_jobs s !! jobId = Some job → jb_state job = job_queued → claim_target locale_leb now auth jobId job s = (Ok u, s') →
  R s s' ∧ jd_attempts s' = jd_attempts s ∧ ∃ r, jd_jobs s' !! jobId = Some r ∧ retargeted job r.
Proof.
  intros Hj Hq H. unfold claim_target in H. assert (Hsame : retargeted job job) by by left.
  destruct (jb_target_enrollment_id job) eqn:Ht; [injection H as _ <-; split_and!; [done|done|by eexists]|].
  destruct (rt_kind (jb_requested_target job)); [done| |done]. step_back H s0 s1 H1. injection H1 as <- <-.
  step_back H placement s1 H1. apply read_Ok in H1 as ->; [|done]. destruct (pm_target placement) as [t|]; [|done].
  destruct (negb _); [done|]. injection H as _ <-. cbn. rewrite lookup_alter_eq, Hj. cbn. rewrite Ht.
  assert (Hw : retargeted job (with_target t (pm_explanation placement) now job)) by (right; split_and!; eauto).
  split_and!; [|done|by eexists].
  apply rtc_once, adv_retarget; [|done..]. intros k. cbn. destruct (decide (k = jobId)) as [->|Hk].
  - rewrite lookup_alter_eq, Hj. cbn. rewrite Ht. by constructor.
  - rewrite lookup_alter_ne by done. destruct (jd_jobs s !! k); constructor. by left.
Qed.

Lemma claimJob_R uuid worker jobId : moves_ok R (claimJob locale_leb now uuid auth worker jobId).
Proof.
  intros s a s' H. unfold claimJob in H. step_back H job s1 H1. injection H1 as <- <-. step_back H job s1 H1.
  destruct (jd_jobs s !! jobId) as [row|] eqn:Hj; [|done]. injection H1 as <- <-.
  destruct (negb _); [done|]. destruct (_ && _) eqn:Hdue; [by step_back H u s1 H1|].
  destruct (bool_decide_reflect (jb_state row = job_queued)) as [Hq|]; [|done]. cbn [negb andb] in *.
  destruct (match jb_target_enrollment_id row with Some _ => _ | None => _ end); [done|].
  destruct (negb _); [done|]. step_back H u s1 H1.
  apply claim_target_Ok in H1 as (HR & Ha & r & Hr & Hs); [|done..]. trans s1; [done|]. step_back H v s2 H1.
  apply ensure_Ok in H1 as [_ ->]. cbv zeta in H. step_back H active s2 H1. injection H1 as <- <-. step_back H v2 s2 H1.
  apply ensure_Ok in H1 as [Hc ->]. step_back H dup s2 H1. injection H1 as <- <-. step_back H v3 s2 H1.
  apply ensure_Ok in H1 as [_ ->]. step_back H v4 s2 H1. reflect_bools.
  trans s2.
  - eapply start_R; [exact Hr|exact Hs|done|lia| |exact H1]. left. split; [done|].
    pose proof (capacity_bound (wk_policy worker) (wk_capabilities worker)). lia.
  - by_rest H walk.
Qed.

Lemma handleJobClaim_R uuid params : moves R (handleJobClaim locale_leb now uuid auth params).
Proof. unfold handleJobClaim. walk_call fail. apply claimJob_R. Qed.

Lemma same_attempt_lease lease t a : same_attempt a (with_lease_until lease t a).
Proof. by exists lease, (att_late_result a), t. Qed.

Lemma same_attempt_late late t a : same_attempt a (with_late_result late t a).
Proof. by exists (att_lease_expires_at a), (Some late), t. Qed.

(** An update of the caller's own attempt. *)
Lemma data_R id a f s u s' :
  jd_attempts s !! id = Some a → att_worker_enrollment_id a = sa_enrollmentId auth → same_attempt a (f a) →
  update_attempt id f s = (Ok u, s') → R s s'.
Proof.
  intros Ha Hw Hf [= _ <-]. apply rtc_once. eapply (adv_data _ _ _ _ _ id a (f a)); [done..|by rewrite Hw|done| |done].
  by apply alter_some.
Qed.

Lemma renew_one_R worker item results : moves_ok R (renew_one now auth worker item results).
Proof.
  intros s b s' H. unfold renew_one in H. step_back H at_ s1 H1. injection H1 as <- <-.
  destruct (renewal_issue _ _ _ _ _) eqn:Hi; [by injection H as _ <-|]. step_back H job s1 H1. injection H1 as <- <-.
  step_back H v s1 H1. injection H as _ <-. destruct (jd_attempts s !! ar_attemptId item) as [a|] eqn:Ha; [|done].
  unfold renewal_issue, first_issue, unless in Hi. cbn in Hi.
  destruct (String.eqb_spec (att_worker_enrollment_id a) (sa_enrollmentId auth)) as [Hw|]; [|done].
  eapply data_R; [exact Ha|done|apply same_attempt_lease|exact H1].
Qed.

Lemma handleAttemptRenew_R params : moves R (handleAttemptRenew now auth params).
Proof.
  unfold handleAttemptRenew. walk_call fail. walk_by ltac:(apply moves_for_each; [apply _|]; intros ? ? _; apply renew_one_R).
Qed.

(** A report ends its attempt in one step. *)
Lemma settle_job_R s s1 id a row outcome res sealed until error u s' :
  jd_attempts s !! id = Some a → jd_jobs s !! att_job_id a = Some row → att_worker_enrollment_id a = sa_enrollmentId auth →
  isActiveAttemptState (att_state a) = true → jd_jobs s1 = jd_jobs s → jd_approvals s1 = jd_approvals s →
  jd_attempts s1 = <[id := with_outcome outcome res sealed until error now a]> (jd_attempts s) →
  settle_job now id a row outcome s1 = (Ok u, s') → R s s'.
Proof.
  intros Ha Hr Hw Hact Hj1 Hp1 Ha1 H. apply rtc_once.
  assert (Hstep : ∀ ast jst x, verdict now row outcome ast jst x →
    (_ ← setAttemptState id a ast now; setJobState (att_job_id a) row jst now x) s1 = (Ok u, s') →
    job_step (Some (sa_enrollmentId auth)) what now s s')
    by (intros; eapply settled_steps; eauto; left; congruence).
  unfold settle_job in H. cbv zeta in H. destruct (bool_decide_reflect (jb_state row = job_cancel_requested)) as [Hc|Hc].
  - destruct outcome; (eapply Hstep; [|exact H]); by constructor.
  - destruct outcome; [eapply Hstep; [|exact H]; by constructor|]. destruct (_ && _) eqn:Hretry.
    + reflect_bools. eapply Hstep; [|exact H]. by constructor.
    + eapply Hstep; [|exact H]. by constructor.
Qed.

Lemma reportAttempt_R worker report : moves_ok R (reportAttempt now auth worker report).
Proof.
  intros s v s' H. unfold reportAttempt in H. cbv zeta in H. step_back H at_ s1 H1. injection H1 as <- <-.
  step_back H a' s1 H1. apply required_Ok in H1 as [Ha ->].
  destruct (String.eqb_spec (att_worker_enrollment_id a') (sa_enrollmentId auth)) as [Hw|]; [|done]. cbn [negb] in H.
  step_back H r s1 H1. apply job_Ok in H1 as [Hr ->].
  destruct (_ || _) eqn:Hlate.
  - step_back H w s1 H1. trans s1; [eapply data_R; [exact Ha|done|apply same_attempt_late|exact H1]|]. by_rest H walk.
  - step_back H w s1 H1. step_back H w2 s2 H2. injection H1 as _ <-. reflect_bools. trans s2; [|by_rest H walk].
    eapply settle_job_R; [exact Ha|exact Hr|done|done| | | |exact H2]; [done..|]. by apply alter_some.
Qed.

Lemma handleAttemptReport_R params : moves R (handleAttemptReport now auth params).
Proof. unfold handleAttemptReport. walk_call fail. apply reportAttempt_R. Qed.
End Life.

(** ** Cancelling and the managed provisioner *)

Section Others.
Context (who : option string) (what : option (string * bool)) (now : Z).
Notation R := (rtc (job_step who what now)).

Lemma cancel_transition_R jobId row s st s' :
  jd_jobs s !! jobId = Some row → cancel_transition now jobId row s = (Ok st, s') → R s s'.
Proof.
  intros Hr H. unfold cancel_transition in H. case_bool_decide as Hq.
  { step_back H u s1 H1. injection H as _ <-. apply rtc_once.
    apply (setJobState_row _ _ _ _ _ _ _ _ Hr) in H1 as (_ & Hj & Ha & Hp). eapply adv_cancel; [done| |done..]. set_solver. }
  case_bool_decide as Hrun; [|by injection H as _ <-].
  step_back H u s1 H1. apply (setJobState_row _ _ _ _ _ _ _ _ Hr) in H1 as (_ & Hj & Ha & Hp).
  step_back H act s2 H2. injection H2 as <- <-. step_back H v s2 H2. injection H as _ <-. rewrite Ha in H2.
  apply rtc_once. destruct (jb_active_attempt_id row) as [aid|] eqn:Haid; cbn in H2; [|injection H2 as _ <-].
  2: { eapply adv_stop; [done..| |done]. left. split; [done|]. intros. congruence. }
  destruct (jd_attempts s !! aid) as [a|] eqn:Hat; cbn in H2; [|injection H2 as _ <-].
  2: { eapply adv_stop; [done..| |done]. left. split; [done|]. intros. congruence. }
  destruct (isActiveAttemptState (att_state a)) eqn:Hact; [|injection H2 as _ <-].
  2: { eapply adv_stop; [done..| |done]. left. split; [done|]. intros. congruence. }
  eapply setAttemptState_Ok in H2 as (Hj2 & Hp2 & Ha2); [|by rewrite Ha].
  eapply adv_stop; [done|done|congruence| |congruence]. destruct Ha2 as [[Hs ->]|[_ Ha2]].
  - left. split; [done|]. intros. congruence.
  - right. exists aid, a. split_and!; [done..|]. by rewrite Ha2, Ha.
Qed.

Lemma handleJobCancel_R params : moves R (handleJobCancel now params).
Proof.
  unfold handleJobCancel. walk_call fail. intros s v s' H. unfold cancelJob in H. step_back H n s1 H1.
  trans s1; [by eapply expireQueued_R|]. step_back H job s2 H2. injection H2 as <- <-. step_back H row s2 H2.
  destruct (jd_jobs s1 !! _) as [r|] eqn:Hr; [|done]. injection H2 as <- <-. step_back H st s2 H2.
  trans s2; [by eapply cancel_transition_R|]. by_rest H ltac:(walk_by ltac:(apply cancelPending_R)).
Qed.
End Others.

(** ** Approvals *)

Section Approvals.
Context (what : option (string * bool)) (now : Z) (auth : SpikeAuth).
Notation R := (rtc (job_step (Some (sa_enrollmentId auth)) what now)).

Lemma from_outcome_Ok {St A} (o : outcome A) (s : St) a s' : from_outcome o s = (Ok a, s') → o = Ok a ∧ s' = s.
Proof. by intros [= -> ->]. Qed.

Lemma parse_control_approver worker doc q : parse_control worker doc = Ok q → aq_approver q ≠ Some worker.
Proof.
  unfold parse_control. destruct doc as [doc|]; [|done]. cbv zeta.
  repeat (intros H; apply outcome_bind_Ok in H as (? & _ & H); revert H). intros H.
  case_bool_decide as Hb; [done|]. apply outcome_bind_Ok in H as (? & _ & [= <-]). done.
Qed.

Lemma controlFrame_R JSON_parse uuid attemptId generation kind text :
  moves_ok R (controlFrame JSON_parse now uuid auth attemptId generation kind text).
Proof.
  intros s v s' H. unfold controlFrame in H. step_back H at_ s1 H1. injection H1 as <- <-.
  step_back H a' s1 H1. apply required_Ok in H1 as [Ha ->]. step_back H r s1 H1. apply job_Ok in H1 as [Hr ->].
  step_back H x1 s1 H1. apply ensure_Ok in H1 as [_ ->]. step_back H x2 s1 H1.
  apply ensure_Ok in H1 as [Hw ->]. step_back H w s1 H1. injection H1 as <- <-. destruct (jd_workers s !! _); [|done].
  do 3 (step_back H x3 s1 H1; apply ensure_Ok in H1 as [_ ->]; clear x3). step_back H x3 s1 H1. apply ensure_Ok in H1 as [Hact ->].
  unfold handleControlMessage in H. step_back H x4 s1 H1. apply read_Ok in H1 as ->; [|done]. step_back H q s1 H1.
  apply from_outcome_Ok in H1 as [Hq%parse_control_approver ->].
  destruct (bool_decide_reflect (jb_state r = job_running)) as [Hrun|]; [|done]. cbn [negb] in H. step_back H p s1 H1.
  injection H1 as Hp <-. destruct p as [[id p]|].
  { destruct (String.eqb (apr_action_digest p) (aq_actionDigest q)); [|done]. by injection H as _ <-. }
  cbv zeta in H. step_back H x5 s1 H1. unfold insert_approval in H1. step_back H1 t s2 H2. injection H2 as <- <-.
  step_back H1 x6 s2 H2. apply ensure_Ok in H2 as [_ ->]. unfold insert_row in H1. destruct (jd_approvals s !! uuid) eqn:Hu; [done|].
  injection H1 as _ <-. step_back H x7 s2 H2. reflect_bools.
  apply (setJobState_row _ r) in H2 as (_ & Hj & Hat & Hap); [|done]. trans s2; [|by_rest H walk]. apply rtc_once.
  eapply adv_ask; [exact Ha|exact Hact|exact Hr|exact Hrun|by rewrite Hw|exact Hp|exact Hu|..|exact Hj|exact Hat|exact Hap];
    done.
Qed.

Lemma handleControlFrame_R JSON_parse uuid attemptId generation kind text :
  moves R (handleControlFrame JSON_parse now uuid auth attemptId generation kind text).
Proof. apply commit_R, controlFrame_R. Qed.

Lemma approvals_where_rows p s : table_rows_of (jd_approvals s) (approvals_where p s).
Proof.
  unfold approvals_where. split.
  - assert (Hs : Permutation (sort_by oldest_first (List.filter (λ e, p e.2) (map_to_list (jd_approvals s))))
      (List.filter (λ e, p e.2) (map_to_list (jd_approvals s)))) by apply sort_by_Permutation.
    rewrite Hs. eapply rows_sublist; [apply rows_all|apply lfilter_sublist].
  - intros q Hq. rewrite sort_by_Permutation in Hq. by eapply rows_sublist; [apply rows_all|apply lfilter_sublist|].
Qed.

Lemma selected_Ok selector s rows s' : selected_approvals now auth selector s = (Ok rows, s') →
  R s s' ∧ table_rows_of (jd_approvals s') rows.
Proof.
  intros H. destruct selector as [id|id|id]; cbn [selected_approvals] in H.
  - step_back H r s1 H1. injection H1 as <- <-. destruct (jd_approvals s !! id) as [p|] eqn:Hp; [|done].
    destruct (String.eqb (apr_account_id p) (sa_accountId auth)); [|done]. injection H as <- <-. split; [done|]. split; [apply NoDup_singleton|].
    by intros q ->%list_elem_of_singleton.
  - step_back H r s1 H1. injection H1 as <- <-. destruct (jd_jobs s !! id) as [j|]; [|done].
    destruct (String.eqb (jb_account_id j) (sa_accountId auth)); [|done].
    step_back H u s1 H1. injection H as <- <-. split; [by eapply expireJobApprovals_R|apply approvals_where_rows].
  - step_back H r s1 H1. injection H1 as <- <-. step_back H a s1 H1. apply read_Ok in H1 as ->; [|apply reads_required].
    step_back H row s1 H1. apply read_Ok in H1 as ->; [|apply reads_job]. step_back H u s1 H1. apply ensure_Ok in H1 as [_ ->].
    step_back H u' s1 H1. injection H as <- <-. split; [by eapply expireJobApprovals_R|apply approvals_where_rows].
Qed.

Lemma view_row p : own_row R jd_approvals p (λ _ : string * ApprovalRow, view_approval now p).
Proof.
  intros b s r s' Hp H. unfold view_approval in H. step_back H u s1 H1. 
  destruct (expire_row (Some (sa_enrollmentId auth)) what now p tt s u s1 Hp H1) as [Hr Hk].
  step_back H row s2 H2. injection H2 as <- <-. by injection H as _ <-.
Qed.

Lemma handleApprovalGet_R params : moves R (handleApprovalGet now auth params).
Proof.
  unfold handleApprovalGet. walk_call fail. intros s v s' H. step_back H rows s1 H1. apply selected_Ok in H1 as [HR Hrows].
  trans s1; [done|]. step_back H vs s2 H2. trans s2; [|by_rest H walk].
  eapply rows_sublist in Hrows; [|apply (lfilter_sublist (λ p, String.eqb (apr_account_id p.2) (sa_accountId auth)))].
  destruct Hrows as [Hd Hin]. eapply map_rows; [apply _|done..| |exact H2]. intros p _. apply view_row.
Qed.

Lemma carry_out_R s u s' decide p row a :
  what = Some (ad_approvalId decide, ad_approved decide) → jd_approvals s !! ad_approvalId decide = Some p → apr_state p = ap_pending → now < apr_expires_at p →
  jd_attempts s !! apr_attempt_id p = Some a → att_fence a = apr_generation p →
  sa_enrollmentId auth ≠ att_worker_enrollment_id a →
  (∀ approver, apr_approver_enrollment_id p = Some approver → sa_enrollmentId auth = approver) →
  jd_jobs s !! apr_job_id p = Some row → jb_state row = job_awaiting_approval →
  carry_out now auth decide p row a s = (Ok u, s') → R s s'.
Proof.
  intros Hwhat Hp Hs He Ha Hg Hw Happr Hr Haw H. unfold carry_out in H. cbv zeta in H. step_back H x1 s1 H1. injection H1 as _ <-.
  step_back H x2 s1 H1. unfold journal_decided in H1.
  match type of H1 with journalDurableEvent ?a ?b ?c ?d ?e ?f ?st = _ => pose proof (journal_keeps a b c d e f st) as Hk end.
  rewrite H1 in Hk. destruct Hk as (Hj1 & Ha1 & Hp1). cbn in Hj1, Ha1, Hp1. rewrite (alter_some _ _ _ _ Hp) in Hp1.
  step_back H x3 s2 H2. trans s2; [|by eapply cancelPending_R]. apply rtc_once.
  eapply (adv_decide _ _ _ _ _ _ _ p a row (ad_approved decide)); [done..| |]; destruct (ad_approved decide).
  - by apply (setJobState_row _ row) in H2 as (_ & _ & _ & ->); [|by rewrite Hj1].
  - step_back H2 x4 s3 H3. rewrite <- Hp1. destruct (isActiveAttemptState (att_state a)).
    + eapply setAttemptState_Ok in H3 as (Hj3 & Hp3 & _); [|by rewrite Ha1]. rewrite <- Hp3.
      by apply (setJobState_row _ row) in H2 as (_ & _ & _ & ->); [|by rewrite Hj3, Hj1].
    + injection H3 as _ <-. by apply (setJobState_row _ row) in H2 as (_ & _ & _ & ->); [|by rewrite Hj1].
  - apply (setJobState_row _ row) in H2 as (_ & -> & -> & _); [|by rewrite Hj1]. by rewrite Hj1, Ha1.
  - step_back H2 x4 s3 H3. destruct (isActiveAttemptState (att_state a)) eqn:Hact.
    + eapply setAttemptState_Ok in H3 as (Hj3 & Hp3 & Ha3); [|by rewrite Ha1].
      apply (setJobState_row _ row) in H2 as (_ & -> & -> & _); [|by rewrite Hj3, Hj1]. rewrite Hj3, Hj1. split; [done|].
      destruct Ha3 as [[Hf _]|[_ ->]]; [by rewrite Hf in Hact|by rewrite Ha1].
    + injection H3 as _ <-. apply (setJobState_row _ row) in H2 as (_ & -> & -> & _); [|by rewrite Hj1]. by rewrite Hj1, Ha1.
Qed.

Lemma lapse_R s u s' id p reason :
  jd_approvals s !! id = Some p → apr_state p = ap_pending → lapse now id p reason s = (Ok u, s') → R s s'.
Proof. intros Hp Hs H. eapply (close_row _ _ _ (id, p)); [exact Hp|done| |exact H]. by right. Qed.

Lemma decideApproval_R decide : what = Some (ad_approvalId decide, ad_approved decide) →
  moves_ok R (decideApproval now auth decide).
Proof.
  intros Hwhat s v s' H. unfold decideApproval in H. cbv zeta in H. step_back H opt s1 H1. injection H1 as <- <-.
  step_back H p' s1 H1. apply required_Ok in H1 as [Hp ->]. step_back H x1 s1 H1. apply ensure_Ok in H1 as [_ ->].
  step_back H r s1 H1. apply job_Ok in H1 as [Hr ->]. step_back H a' s1 H1. apply attempt_Ok in H1 as [Ha ->].
  case_bool_decide; [by_rest H walk|]. case_bool_decide as Hs; [|done]. cbn [negb] in H.
  destruct (apr_expires_at p' <=? now) eqn:He.
  { step_back H x2 s1 H1. injection H as _ <-. by eapply (expire_row _ _ _ (_, p') tt) in H1 as [? _]. }
  destruct (Z.eqb_spec (att_fence a') (apr_generation p')) as [Hg|]; cbn [negb] in H.
  2: { step_back H x2 s1 H1. injection H as _ <-. by eapply lapse_R. }
  destruct (String.eqb_spec (sa_enrollmentId auth) (att_worker_enrollment_id a')) as [|Hw]; [done|].
  destruct (match apr_approver_enrollment_id p' with Some _ => _ | None => _ end) eqn:Hpa; [done|].
  case_bool_decide as Haw; cbn [negb] in H. 2: { step_back H x2 s1 H1. injection H as _ <-. by eapply lapse_R. }
  step_back H x2 s1 H1. trans s1; [|by_rest H walk]. reflect_bools.
  eapply carry_out_R; [exact Hwhat|exact Hp|done|done|exact Ha|done|done| |exact Hr|done|exact H1].
  intros e Hap. rewrite Hap in Hpa. by reflect_bools.
Qed.

Lemma handleApprovalDecide_R params :
  (∀ d, parseApprovalDecideParams params = Ok d → what = Some (ad_approvalId d, ad_approved d)) →
  moves R (handleApprovalDecide now auth params).
Proof.
  intros Hwhat. apply moves_outcome_bind; [apply _|]. intros d Hd. walk_call ltac:(by apply decideApproval_R, Hwhat).
Qed.
End Approvals.

(** ** The provisioner and the sweep *)

Section Backend.
Context (date_parse : string → option Z) (hosted cloudAgents : bool) (who : option string) (what : option (string * bool)) (now : Z).
Notation R := (rtc (job_step who what now)).

Lemma drop_keeps e : moves same_tables (drop_bootstrap e).
Proof. intros s. by destruct e as [[]|]. Qed.

(** A job the backend gives up before any attempt. *)
Lemma give_up_row id row e reason (out : list ManagedClaim) s b s' :
  jd_jobs s !! id = Some row → jb_state row = job_queued →
  (_ ← drop_bootstrap e; _ ← setJobState id row job_failed now (because reason); mret out) s = (Ok b, s') →
  R s s' ∧ ∀ k, k ≠ id → jd_jobs s' !! k = jd_jobs s !! k.
Proof.
  intros Hr Hq H. step_back H u s1 H1. pose proof (drop_keeps e s) as (Hj & Ha & Hp). rewrite H1 in Hj, Ha, Hp. cbn in Hj, Ha, Hp.
  step_back H v s2 H2. injection H as _ <-. pose proof H2 as (_ & Hj2 & _)%(setJobState_row _ row); [|by rewrite Hj]. split.
  - eapply rtc_l; [apply adv_keep; by split_and!|]. eapply fail_queued; [|done| |exact H2]; [by rewrite Hj|right; by eexists].
  - intros k Hk. rewrite Hj2, lookup_insert_ne, Hj by done. done.
Qed.

Lemma start_attempt_row s id row uuid worker incarnation lease entries u s' k :
  jd_jobs s !! id = Some row → start_attempt now uuid id row worker incarnation lease entries s = (Ok u, s') → k ≠ id →
  jd_jobs s' !! k = jd_jobs s !! k.
Proof.
  intros Hr H Hk. unfold start_attempt in H. cbv zeta in H. step_back H v s1 H1. step_back H w s2 H2.
  apply setJobState_Ok in H as (_ & -> & _). rewrite lookup_alter_ne by done.
  assert (Hj1 : jd_jobs s1 = jd_jobs s).
  { unfold insert_attempt in H1. step_back H1 taken s3 H3. injection H3 as <- <-. step_back H1 x s3 H3.
    apply ensure_Ok in H3 as [_ ->]. unfold insert_row in H1. destruct (jd_attempts s !! uuid); [done|]. by injection H1 as _ <-. }
  pose proof (journal_keeps now id uuid (jb_next_fence row) "attempt.created" (JObj ([("fence", JNum (int (jb_next_fence row)));
        ("workerEnrollmentId", JStr worker); ("workerIncarnation", JStr incarnation);
        ("leaseExpiresAt", JNum (int lease))] ++ entries)) s1) as (Hj & _). rewrite H2 in Hj. cbn in Hj. by rewrite Hj, Hj1.
Qed.

Lemma claim_managed_row x : awaits_provision now x.2 = true →
  own_row R jd_jobs x.2 (claim_managed date_parse hosted cloudAgents now x).
Proof.
  destruct x as [uuid [id row]]. cbn [snd]. intros Hw out s b s' Hr H. unfold awaits_provision in Hw. cbn [snd] in Hw, Hr.
  reflect_bools. unfold claim_managed in H. cbv zeta in H. step_back H q s1 Hq.
  assert (Hk : same_tables s s1) by (pose proof (keep_sync (activeFairUseRestriction date_parse hosted now) s) as Hk; by rewrite Hq in Hk).
  pose proof Hk as (Hj & _ & _). assert (Hr1 : jd_jobs s1 !! id = Some row) by (by rewrite Hj). cbn [fst] in *.
  rewrite <- Hj. assert (Hfrom : ∀ s2, R s1 s2 → R s s2) by (intros s2 ?; eapply rtc_l; [by apply adv_keep|done]).
  assert (Hup : ∀ e reason s2 b2, (_ ← drop_bootstrap e; _ ← setJobState id row job_failed now (because reason); mret out) s1 = (Ok b2, s2) →
    R s s2 ∧ ∀ k, k ≠ id → jd_jobs s2 !! k = jd_jobs s1 !! k) by (intros * H'; eapply give_up_row in H' as [? ?]; auto).
  destruct (match q with Some _ => true | None => false end); [by eapply Hup|].
  destruct (negb cloudAgents); [by eapply Hup|].
  destruct (prop "environmentId" _) as [[| | |e| |]|]; try (eapply (Hup None); exact H).
  destruct (prop "ttlSeconds" _) as [[| |[| |m k]| | |]|]; try (eapply (Hup None); exact H).
  step_back H u s2 Hst. assert (HR : R s1 s2) by (eapply start_R; [exact Hr1|by left|done..|by right|exact Hst]).
  assert (Hrest : same_tables s2 s').
  { step_back H staged s3 Hb. injection Hb as <- <-. step_back H v s3 Hb. injection H as _ <-.
    pose proof (drop_keeps (Some (JStr e)) s2) as Hd. by rewrite Hb in Hd. }
  split; [apply Hfrom; etrans; [exact HR|by apply rtc_once, adv_keep]|].
  intros k' Hk'. destruct Hrest as (-> & _). by eapply start_attempt_row.
Qed.

Lemma imap_snd {A} (f : nat → string) (l : list A) : (imap (λ i p, (f i, p)) l).*2 = l.
Proof. revert f. induction l as [|x l IH]; intros f; cbn; [done|]. f_equal. apply (IH (f ∘ S)). Qed.

Lemma claimManagedWork_R uuid : moves R (claimManagedWork date_parse hosted cloudAgents now uuid).
Proof.
  apply commit_R. intros s out s' H. step_back H jobs s1 H1. injection H1 as Hjobs <-.
  assert (Hrows : table_rows_of (jd_jobs s) jobs ∧ ∀ p, p ∈ jobs → awaits_provision now p = true).
  { subst jobs. set (l := List.filter _ _). assert (Hl : table_rows_of (jd_jobs s) l) by (eapply rows_sublist; [apply rows_all|apply lfilter_sublist]).
    assert (Hs : table_rows_of (jd_jobs s) (sort_by created_first l)).
    { destruct Hl as [Hd Hin]. split; [by rewrite sort_by_Permutation|]. intros p Hp. apply Hin. by rewrite sort_by_Permutation in Hp. }
    split; [by eapply rows_sublist; [|apply sublist_take]|]. intros p Hp. eapply elem_of_sublist in Hp; [|apply sublist_take].
    rewrite sort_by_Permutation in Hp. by apply list_elem_of_In, filter_In in Hp as [_ ?]. }
  destruct Hrows as [[Hd Hin] Haw]. eapply (for_rows R jd_jobs snd); [..|exact H].
  - by rewrite imap_snd.
  - by rewrite imap_snd.
  - intros x Hx. apply claim_managed_row, Haw. rewrite <- (imap_snd uuid jobs). by apply list_elem_of_fmap_2.
Qed.

Lemma finishManaged_R attemptId ok res error : moves R (finishManaged now attemptId ok res error).
Proof.
  intros s. unfold finishManaged, mbind, M_bind, gets. cbv beta iota.
  destruct (jd_attempts s !! attemptId) as [a|] eqn:Ha; [|done].
  destruct (String.eqb_spec (att_worker_enrollment_id a) MANAGED_PROVISIONER_ENROLLMENT) as [Hw|]; [|done].
  unfold finish_managed, commit. match goal with |- context [?m s] => destruct (m s) as [[u|e] s'] eqn:H; [|done] end. cbn [snd].
  step_back H x1 s1 H1. injection H1 as _ <-. step_back H c s1 H1. apply attempt_Ok in H1 as [Hc ->]. cbn in Hc.
  rewrite lookup_alter_eq, Ha in Hc. injection Hc as <-. step_back H row s1 H1. apply job_Ok in H1 as [Hr ->]. apply rtc_once.
  eapply (settled_steps _ _ _ s _ s' attemptId a _ row (if ok then outcome_completed else outcome_failed));
    [exact Ha|exact Hr|right; split; [done|]|by right| | | | | |exact H]; [by destruct ok|done| |done|done|cbn; by rewrite (alter_some _ _ _ _ Ha)].
  destruct ok; [|intros _; apply verdict_failed]. intros Hc.
  replace (match error with Some _ => None | None => None end) with (@None string) by (by destruct error).
  apply verdict_completed. intros Hs. by rewrite Hs in Hc.
Qed.

Lemma sweep_R : moves R (sweepJobs now).
Proof.
  apply commit_R. intros s u s' H. step_back H gone s1 H1. injection H1 as <- <-. step_back H x1 s1 H1.
  trans s1; [injection H1 as _ <-; by apply rtc_once, adv_keep|]. clear H1. step_back H x2 s2 H1.
  trans s2; [by eapply expireQueued_R|]. clear H1. step_back H stale s3 H1. injection H1 as <- <-. step_back H n s3 H1.
  trans s3.
  - eapply moves_for_each; [apply _| |exact H1]. intros p m _ t v t' Hl. step_back Hl k t1 Ht. injection Hl as _ <-.
    unfold lapse_attempt in Ht. step_back Ht a t2 Ht2. injection Ht2 as <- <-.
    destruct (jd_attempts t !! p.1) as [a|] eqn:Ha; [|by injection Ht as _ <-].
    destruct (isActiveAttemptState (att_state a)) eqn:Hact; [|by injection Ht as _ <-].
    step_back Ht x t2 Ht2. injection Ht as _ <-. eapply setAttemptState_Ok in Ht2 as (Hj & Hp & Hat); [|done]. apply rtc_once.
    destruct Hat as [[Hs _]|[_ Hat]]; [by rewrite Hs in Hact|]. by eapply adv_lapse.
  - clear H1. step_back H due s4 H1. injection H1 as <- <-. step_back H x4 s4 H1.
    trans s4; [eapply expire_rows; [apply rows_some|exact H1]|]. by_rest H walk.
Qed.

Lemma handleJobGet_R params : moves R (handleJobGet now params).
Proof.
  unfold handleJobGet. walk_call fail.
  walk_by ltac:(first [apply expireQueued_R|apply expireJobApprovals_R]).
Qed.

Lemma handleJobList_R auth params : moves R (handleJobList now auth params).
Proof. unfold handleJobList. walk_call fail; walk_by ltac:(apply expireQueued_R). Qed.
End Backend.

(** ** All calls *)

Section Calls.
Context (date_parse : string → option Z) (hosted : bool) (locale_leb : string → string → bool) (cloudAgents provisioner : bool).
Context (JSON_parse : string → option json).
Notation run := (run_job_call date_parse hosted locale_leb cloudAgents provisioner JSON_parse).

Lemma run_moves c s : rtc (job_step (caller c) (decision c) (call_time c)) s (run c s).
Proof.
  destruct c; cbn [run_job_call caller call_time].
  - apply handleDevicePolicyPublish_R.
  - apply handleWorkerConnect_R.
  - apply handleWorkerCapabilitiesPublish_R.
  - apply handleWorkerReplicaPublish_R.
  - apply handleJobCreate_R.
  - apply handleJobGet_R.
  - apply handleJobList_R.
  - apply handleJobClaim_R.
  - apply handleAttemptRenew_R.
  - apply handleAttemptReport_R.
  - apply handleJobCancel_R.
  - apply handleControlFrame_R.
  - apply handleApprovalGet_R.
  - apply handleApprovalDecide_R. intros d Hd. cbn [decision]. by rewrite Hd.
  - apply claimManagedWork_R.
  - apply finishManaged_R.
  - apply sweep_R.
  - by apply rtc_once, adv_keep.
  - by apply rtc_once, adv_keep.
  - apply resolve_R.
  - by apply rtc_once, adv_keep.
Qed.

(** What every step preserves, every sequence of calls preserves. *)
Lemma calls_preserve (P : JobDb → Prop) cs s :
  (∀ who what now s s', who ≠ Some MANAGED_PROVISIONER_ENROLLMENT → job_step who what now s s' → P s → P s') →
  Forall genuine cs → P s → P (run_job_calls date_parse hosted locale_leb cloudAgents provisioner JSON_parse cs s).
Proof.
  intros HP Hg. revert s. induction Hg as [|c cs Hc Hcs IH]; intros s Hs; cbn; [done|]. apply IH.
  assert (Hrun := run_moves c s). revert Hrun. generalize (run c s). intros s' Hrun.
  induction Hrun as [|x y z Hstep Hrest IHs]; [done|]. apply IHs. by eapply HP.
Qed.
End Calls.
