(* ===== verification/JobSound.v ===== *)
(** * Desktop app cloud: the invariant of jobs, attempts and approvals

    What holds of the tables after any calls: of each job, its attempts carry distinct
    fences below its next one, only the newest may be active, a job that runs names it, and
    an approval that is pending belongs to it. *)

From stdpp Require Import base list strings gmap relations.
From Stdlib Require Import ZArith Ascii Lia.
From S2P Require Import Prelude Transactions JsString JsValue SyncWire SyncTables SyncLog SyncData JobTables JobWire JobCoordinator JobLifecycle JobApprovals JobSteps.

(** An attempt of a job, and a pending approval of it. *)
Definition att_of (s : JobDb) (id aid : string) (a : AttemptRow) : Prop :=
  jd_attempts s !! aid = Some a ∧ att_job_id a = id.
Definition pend_of (s : JobDb) (id pid : string) (p : ApprovalRow) : Prop :=
  jd_approvals s !! pid = Some p ∧ apr_job_id p = id ∧ apr_state p = ap_pending.

(** The states in which a job has a current attempt. *)
Definition is_underway (st : JobState) : Prop :=
  st = job_running ∨ st = job_awaiting_approval ∨ st = job_cancel_requested.

Definition attempt_ended (st : AttemptState) : Prop := st = at_completed ∨ st = at_failed ∨ st = at_cancelled.

(** The fence of the next attempt: one more than the attempts so far. *)
Definition fence_sound (row : JobRow) : Prop :=
  (jb_retried row = 0 ∨ (jb_retried row = 1 ∧ jb_retry_policy row = retry_safe)) ∧
  1 + jb_retried row <= jb_next_fence row <= 2 + jb_retried row ∧
  (jb_state row = job_queued → jb_next_fence row = 1 + jb_retried row) ∧
  (is_underway (jb_state row) → jb_next_fence row = 2 + jb_retried row).

Record job_sound (s : JobDb) (id : string) (row : JobRow) : Prop := {
  js_known : jb_state row ≠ job_unknown_outcome;
  js_terminal : isTerminalJobState (jb_state row) = true ↔ is_Some (jb_terminal_at row);
  js_fence : fence_sound row;
  js_attempt aid a : att_of s id aid a → 1 <= att_fence a < jb_next_fence row;
  js_unique aid bid a b : att_of s id aid a → att_of s id bid b → att_fence a = att_fence b → aid = bid;
  js_active aid a : att_of s id aid a → isActiveAttemptState (att_state a) = true →
    att_fence a = jb_next_fence row - 1 ∧ (is_underway (jb_state row) ∨ jb_state row = job_cancelled);
  js_current : is_underway (jb_state row) → ∃ aid a, jb_active_attempt_id row = Some aid ∧ att_of s id aid a ∧
    att_fence a = jb_next_fence row - 1 ∧ ¬ attempt_ended (att_state a);
  js_pending pid p : pend_of s id pid p → jb_state row ≠ job_running ∧ jb_state row ≠ job_queued ∧
    ∃ a, att_of s id (apr_attempt_id p) a ∧ apr_generation p = att_fence a ∧ att_fence a = jb_next_fence row - 1;
  js_one_pending pid qid p q : pend_of s id pid p → pend_of s id qid q → pid = qid;
  js_managed aid a : att_of s id aid a → att_worker_enrollment_id a = MANAGED_PROVISIONER_ENROLLMENT →
    attempt_ended (att_state a) → isTerminalJobState (jb_state row) = true;
}.

Record jobs_sound (s : JobDb) : Prop := {
  so_job id row : jd_jobs s !! id = Some row → job_sound s id row;
  so_attempt aid a : jd_attempts s !! aid = Some a → is_Some (jd_jobs s !! att_job_id a);
  so_approval pid p : jd_approvals s !! pid = Some p → apr_state p = ap_pending → is_Some (jd_jobs s !! apr_job_id p);
  so_request id jd r q : jd_jobs s !! id = Some r → jd_jobs s !! jd = Some q →
    jb_source_enrollment_id r = jb_source_enrollment_id q → jb_request_id r = jb_request_id q → id = jd;
}.

Lemma sound_initial : jobs_sound initial_jobs.
Proof. by split. Qed.

(** ** Changes that do not matter to a job *)

(** The job's attempts and pending approvals are among the old ones and the other way round. *)
Definition same_around (s s' : JobDb) (id : string) : Prop :=
  (∀ aid a, att_of s' id aid a ↔ att_of s id aid a) ∧ (∀ pid p, pend_of s' id pid p ↔ pend_of s id pid p).

Lemma job_frame s s' id row : same_around s s' id → job_sound s id row → job_sound s' id row.
Proof.
  intros [Ha Hp] [H1 H2 H3 H4 H5 H6 H7 H8 H9 H10]. split; try done.
  - intros aid a ?%Ha. eauto.
  - intros aid bid a b ?%Ha ?%Ha. eauto.
  - intros aid a ?%Ha. eauto.
  - intros (aid & a & ? & ?%Ha & ?)%H7. eauto.
  - intros pid p (? & ? & a & ?%Ha & ?)%Hp%H8. eauto 6.
  - intros pid qid p q ?%Hp ?%Hp. eauto.
  - intros aid a ?%Ha. eauto.
Qed.

(** What a job's row must keep for it to stay sound. *)
Definition alike (r r' : JobRow) : Prop :=
  jb_state r' = jb_state r ∧ jb_terminal_at r' = jb_terminal_at r ∧ jb_retried r' = jb_retried r ∧
  jb_retry_policy r' = jb_retry_policy r ∧ jb_next_fence r' = jb_next_fence r ∧
  jb_active_attempt_id r' = jb_active_attempt_id r ∧ jb_source_enrollment_id r' = jb_source_enrollment_id r ∧
  jb_request_id r' = jb_request_id r.

Lemma retargeted_alike r r' : retargeted r r' → alike r r'.
Proof. by intros [->|(_ & _ & ? & ? & ? & ->)]. Qed.

Lemma job_alike s id r r' : alike r r' → job_sound s id r → job_sound s id r'.
Proof.
  intros (E1 & E2 & E3 & E4 & E5 & E6 & _) [H1 H2 H3 H4 H5 H6 H7 H8 H9 H10]. unfold fence_sound in H3.
  split; unfold fence_sound; rewrite ?E1, ?E2, ?E3, ?E4, ?E5, ?E6; assumption.
Qed.

(** Only rows of [id] change. *)
Definition local_change {V} (key : V → string) (m m' : gmap string V) (id : string) : Prop :=
  ∀ k v, key v ≠ id → m' !! k = Some v ↔ m !! k = Some v.

Lemma local_refl {V} (key : V → string) m id : local_change key m m id.
Proof. done. Qed.

Lemma local_insert {V} (key : V → string) m id k v :
  (∀ w, m !! k = Some w → key w = id) → key v = id → local_change key m (<[k := v]> m) id.
Proof.
  intros Hw Hv j w Hj. rewrite lookup_insert_Some. split; [intros [[-> ->]|[_ ?]]; done|].
  intros Hm. right. split; [|done]. intros ->. by apply Hj, Hw.
Qed.

(** A step that changes one job, and attempts and approvals of that job only. *)
Lemma step_at s s' id row row' :
  jobs_sound s → jd_jobs s !! id = Some row → jd_jobs s' = <[id := row']> (jd_jobs s) →
  jb_source_enrollment_id row' = jb_source_enrollment_id row → jb_request_id row' = jb_request_id row →
  local_change att_job_id (jd_attempts s) (jd_attempts s') id →
  local_change apr_job_id (jd_approvals s) (jd_approvals s') id → job_sound s' id row' → jobs_sound s'.
Proof.
  intros [Hj Ha Hp Hr] Hrow Hs' Hsrc Hreq Hat Hap Hown.
  assert (Hsome : ∀ k, k = id ∨ is_Some (jd_jobs s !! k) → is_Some (jd_jobs s' !! k)).
  { intros k Hk. rewrite Hs', lookup_insert. case_decide; [by eexists|naive_solver]. }
  split.
  - intros k r. rewrite Hs', lookup_insert_Some. intros [[<- <-]|[Hk Hr']]; [done|]. eapply job_frame; [|eauto].
    unfold same_around, att_of, pend_of. split; intros ? v; split; intros [H H']; (split; [|done]); apply Hat || apply Hap;
      naive_solver.
  - intros aid a H. apply Hsome. destruct (decide (att_job_id a = id)) as [->|]; [by left|]. right. eapply Ha, Hat; eauto.
  - intros pid p H Hst. apply Hsome. destruct (decide (apr_job_id p = id)) as [->|]; [by left|]. right. eapply Hp; [apply Hap|]; eauto.
  - intros k j r q. rewrite Hs', !lookup_insert_Some. intros [[<- <-]|[Hk Hr1]] [[<- <-]|[Hj1 Hr2]]; rewrite ?Hsrc, ?Hreq; eauto.
Qed.

(** The job's view of a change of one attempt of it. *)
Lemma att_insert s s' id k a a' : att_of s id k a → att_job_id a' = id → jd_attempts s' = <[k := a']> (jd_attempts s) →
  (∀ j b, att_of s' id j b ↔ (j = k ∧ b = a') ∨ (j ≠ k ∧ att_of s id j b)) ∧
  local_change att_job_id (jd_attempts s) (jd_attempts s') id.
Proof.
  intros [Ha Hid] Hid' Hs. split.
  - intros j b. unfold att_of. rewrite Hs, lookup_insert_Some. naive_solver.
  - rewrite Hs. apply local_insert; naive_solver.
Qed.

(** The job's attempts keep who runs them and their fences, none comes to life, and an
    attempt of the provisioner ends only with the job. *)
Record attempts_evolve (s s' : JobDb) (id : string) (row' : JobRow) : Prop := {
  ev_back aid b : att_of s' id aid b → ∃ a, att_of s id aid a ∧ att_fence b = att_fence a ∧
    att_worker_enrollment_id b = att_worker_enrollment_id a ∧
    (isActiveAttemptState (att_state b) = true → isActiveAttemptState (att_state a) = true) ∧
    (att_worker_enrollment_id a = MANAGED_PROVISIONER_ENROLLMENT → attempt_ended (att_state b) →
       attempt_ended (att_state a) ∨ isTerminalJobState (jb_state row') = true);
  ev_forth aid a : att_of s id aid a → ∃ b, att_of s' id aid b ∧ att_fence b = att_fence a ∧
    (is_underway (jb_state row') → ¬ attempt_ended (att_state a) → ¬ attempt_ended (att_state b));
}.

Lemma evolves_same s s' id row' : jd_attempts s' = jd_attempts s → attempts_evolve s s' id row'.
Proof. intros E. split; unfold att_of; rewrite E; [intros aid b ?; exists b; naive_solver|intros aid a ?; exists a; naive_solver]. Qed.

(** One attempt changes. *)
Lemma evolves_insert s s' id row' aid a a' : att_of s id aid a → att_job_id a' = id →
  att_worker_enrollment_id a' = att_worker_enrollment_id a → att_fence a' = att_fence a →
  (isActiveAttemptState (att_state a') = true → isActiveAttemptState (att_state a) = true) →
  (attempt_ended (att_state a') → attempt_ended (att_state a) ∨ isTerminalJobState (jb_state row') = true ∨
     (¬ is_underway (jb_state row') ∧ att_worker_enrollment_id a ≠ MANAGED_PROVISIONER_ENROLLMENT)) →
  jd_attempts s' = <[aid := a']> (jd_attempts s) → attempts_evolve s s' id row'.
Proof.
  intros Ha Hid Hw Hf Hact Hend Es. destruct (att_insert _ _ _ _ _ _ Ha Hid Es) as [Hatt _]. split.
  - intros k b [[-> ->]|[Hk Hb]]%Hatt; [exists a; naive_solver|exists b; naive_solver].
  - intros k b Hb. destruct (decide (k = aid)) as [->|Hk].
    + destruct Ha as [Ha Hid'], Hb as [Hb _]. simplify_eq. exists a'. split; [apply Hatt; by left|]. split; [done|].
      intros Hu Hne He. destruct (Hend He) as [?|[Ht|[? _]]]; [done| |done]. by destruct Hu as [Hu|[Hu|Hu]]; rewrite Hu in Ht.
    + exists b. split; [apply Hatt; by right|]. naive_solver.
Qed.

(** The pending approvals are among the old ones. *)
Definition pends_back (s s' : JobDb) (id : string) : Prop := ∀ pid p, pend_of s' id pid p → pend_of s id pid p.

(** A job keeps its next fence unless it is queued again. *)
Lemma fence_moved row row' : fence_sound row → jb_retried row' = jb_retried row → jb_retry_policy row' = jb_retry_policy row →
  jb_next_fence row' = jb_next_fence row → jb_state row' ≠ job_queued →
  (is_underway (jb_state row') → is_underway (jb_state row)) → fence_sound row'.
Proof. intros (F1 & F2 & F3 & F4) E1 E2 E3 Hq Hu. unfold fence_sound. rewrite E1, E2, E3. split_and!; auto; try lia. done. Qed.

Lemma job_evolve s s' id row row' :
  job_sound s id row → attempts_evolve s s' id row' → fence_sound row' → jb_next_fence row' = jb_next_fence row →
  jb_state row' ≠ job_unknown_outcome → (isTerminalJobState (jb_state row') = true ↔ is_Some (jb_terminal_at row')) →
  (is_underway (jb_state row') → is_underway (jb_state row) ∧ jb_active_attempt_id row' = jb_active_attempt_id row) →
  (isTerminalJobState (jb_state row) = true → isTerminalJobState (jb_state row') = true) →
  (∀ aid b, att_of s' id aid b → isActiveAttemptState (att_state b) = true →
     is_underway (jb_state row') ∨ jb_state row' = job_cancelled) →
  (∀ pid p, pend_of s' id pid p → jb_state row' ≠ job_running ∧ jb_state row' ≠ job_queued ∧
     ∃ a, att_of s id (apr_attempt_id p) a ∧ apr_generation p = att_fence a ∧ att_fence a = jb_next_fence row - 1) ∧
  (∀ pid qid p q, pend_of s' id pid p → pend_of s' id qid q → pid = qid) → job_sound s' id row'.
Proof.
  intros [H1 H2 H3 H4 H5 H6 H7 H8 H9 H10] [Hback Hforth] Hfence E3 Hu Hterm Hund Hstay Hact [Hpend Hone].
  split; [done|done|done| | | | | |done|].
  - intros aid b (a & Ha & -> & _)%Hback. rewrite E3. eauto.
  - intros aid bid b c (a & Ha & -> & _)%Hback (d & Hd & -> & _)%Hback. eauto.
  - intros aid b Hb Hb'. split; [|by eapply Hact]. destruct (Hback _ _ Hb) as (a & Ha & -> & _ & Hab & _). rewrite E3.
    eapply H6; eauto.
  - intros Hun. destruct (Hund Hun) as [Hun' ->]. destruct (H7 Hun') as (aid & a & Hact' & Ha & Hf & Hne).
    destruct (Hforth _ _ Ha) as (b & Hb & Hfb & Hbe). exists aid, b. rewrite E3. split_and!; [done|done|congruence|auto].
  - intros pid p Hp. destruct (Hpend _ _ Hp) as (? & ? & a & Ha & Hg & Hf). split_and!; [done..|].
    destruct (Hforth _ _ Ha) as (b & Hb & Hfb & _). exists b. rewrite E3. split_and!; [done|congruence..].
  - intros aid b Hb Hw He. destruct (Hback _ _ Hb) as (a & Ha & _ & Hwa & _ & Hend). rewrite Hwa in Hw.
    destruct (Hend Hw He) as [Hea|]; [|done]. eauto.
Qed.

(** The usual case of the conditions on approvals. *)
Lemma pends_kept s s' id row (st' : JobState) : job_sound s id row → pends_back s s' id →
  (st' = job_running ∨ st' = job_queued → ∀ pid p, ¬ pend_of s' id pid p) →
  (∀ pid p, pend_of s' id pid p → st' ≠ job_running ∧ st' ≠ job_queued ∧ ∃ a, att_of s id (apr_attempt_id p) a ∧
     apr_generation p = att_fence a ∧ att_fence a = jb_next_fence row - 1) ∧
  (∀ pid qid p q, pend_of s' id pid p → pend_of s' id qid q → pid = qid).
Proof.
  intros Hj Hb Hrun. split.
  - intros pid p Hp. split; [intros Hst; eapply Hrun; eauto|]. split; [intros Hst; eapply Hrun; eauto|].
    by destruct (js_pending _ _ _ Hj _ _ (Hb _ _ Hp)) as (_ & _ & ?).
  - intros pid qid p q Hp%Hb Hq%Hb. by eapply (js_one_pending _ _ _ Hj).
Qed.

Lemma pends_same s s' id : jd_approvals s' = jd_approvals s → pends_back s s' id.
Proof. intros E pid p. unfold pend_of. by rewrite E. Qed.

Section Steps.
Context (who : option string) (what : option (string * bool)) (now : Z) (s s' : JobDb).
Context (Hwho : who ≠ Some MANAGED_PROVISIONER_ENROLLMENT) (Hs : jobs_sound s).

(** The newest attempt is the only one that may be active. *)
Lemma newest_unique id row aid a bid b : job_sound s id row → att_of s id aid a → att_of s id bid b →
  isActiveAttemptState (att_state a) = true → att_fence b = jb_next_fence row - 1 → bid = aid ∧ b = a.
Proof.
  intros Hj Ha Hb Hact Hf. destruct (js_active _ _ _ Hj _ _ Ha Hact) as [Hf' _].
  assert (bid = aid) as -> by (eapply (js_unique _ _ _ Hj); eauto; congruence). split; [done|].
  destruct Ha as [Ha _], Hb as [Hb _]. congruence.
Qed.

(** An attempt changes and its job's row does not. *)
Lemma sound_attempt aid a a' : jd_attempts s !! aid = Some a →
  att_job_id a' = att_job_id a → att_worker_enrollment_id a' = att_worker_enrollment_id a → att_fence a' = att_fence a →
  (att_state a' = att_state a ∨ isActiveAttemptState (att_state a) = true ∧ att_state a' = at_unknown_outcome) →
  jd_jobs s' = jd_jobs s → jd_attempts s' = <[aid := a']> (jd_attempts s) → jd_approvals s' = jd_approvals s → jobs_sound s'.
Proof.
  intros Ha Hid Hw Hf Hst Ej Ea Ep. destruct (so_attempt _ Hs _ _ Ha) as [row Hr]. pose proof (so_job _ Hs _ _ Hr) as Hj.
  destruct (att_insert s s' (att_job_id a) aid a a' (conj Ha eq_refl) Hid Ea) as [Hatt Hloc].
  assert (Hact : isActiveAttemptState (att_state a') = true → isActiveAttemptState (att_state a) = true)
    by (destruct Hst as [->|[_ ->]]; done).
  assert (Hev : attempts_evolve s s' (att_job_id a) row).
  { apply (evolves_insert s s' _ row aid a a'); [by split|exact Hid|exact Hw|exact Hf|exact Hact| |exact Ea]. intros He. left. destruct Hst as [<-|[_ Hu]]; [done|].
    rewrite Hu in He. by destruct He as [|[|]]. }
  eapply (step_at s s' (att_job_id a) row row); [done|done|by rewrite insert_id by done|done|done|done|by rewrite Ep|].
  eapply job_evolve; [exact Hj|done|apply (js_fence _ _ _ Hj)|done|apply (js_known _ _ _ Hj)|apply (js_terminal _ _ _ Hj)|done|done| |].
  - intros k b Hb Hb'. destruct (ev_back _ _ _ _ Hev _ _ Hb) as (c & Hc & _ & _ & Hcb & _).
    by destruct (js_active _ _ _ Hj _ _ Hc (Hcb Hb')) as [_ ?].
  - eapply pends_kept; [done|by apply pends_same|]. intros [Hq|Hq] pid p Hp%(pends_same _ _ _ Ep);
    destruct (js_pending _ _ _ Hj _ _ Hp) as (? & ? & _); done.
Qed.

Lemma open_from row st : canTransitionJob (jb_state row) st = true → isTerminalJobState (jb_state row) = false.
Proof. by destruct (jb_state row). Qed.

Lemma terminal_moved id row st t x : job_sound s id row → canTransitionJob (jb_state row) st = true →
  isTerminalJobState st = true ↔ is_Some (jb_terminal_at (with_job_state st t x row)).
Proof.
  intros Hj Hc. cbn. pose proof (js_terminal _ _ _ Hj) as Ht. rewrite (open_from _ _ Hc) in Ht.
  destruct (isTerminalJobState st); [split; [by eexists|done]|]. split; [done|]. intros H. by apply Ht in H.
Qed.

(** A transition that does not queue the job again. *)
Lemma sound_move id row st x :
  jd_jobs s !! id = Some row → canTransitionJob (jb_state row) st = true → st ≠ job_queued → st ≠ job_unknown_outcome →
  ex_retried x = None → ex_nextFence x = None →
  (is_underway st → is_underway (jb_state row) ∧ ex_activeAttemptId x = None) →
  jd_jobs s' = <[id := with_job_state st now x row]> (jd_jobs s) →
  local_change att_job_id (jd_attempts s) (jd_attempts s') id →
  local_change apr_job_id (jd_approvals s) (jd_approvals s') id →
  attempts_evolve s s' id (with_job_state st now x row) →
  (∀ aid b, att_of s' id aid b → isActiveAttemptState (att_state b) = true → is_underway st ∨ st = job_cancelled) →
  (∀ pid p, pend_of s' id pid p → st ≠ job_running ∧ st ≠ job_queued ∧ ∃ a, att_of s id (apr_attempt_id p) a ∧
     apr_generation p = att_fence a ∧ att_fence a = jb_next_fence row - 1) ∧
  (∀ pid qid p q, pend_of s' id pid p → pend_of s' id qid q → pid = qid) → jobs_sound s'.
Proof.
  intros Hr Hc Hq Hk Hx1 Hx2 Hu Ej La Lp Hev Hact Hpend. pose proof (so_job _ Hs _ _ Hr) as Hj.
  eapply (step_at s s' id row); [done|done|exact Ej|done|done|done|done|].
  eapply job_evolve; [exact Hj|done| | |done|by eapply terminal_moved| | |done|].
  - apply (fence_moved row); [apply Hj|..]; cbn; [by rewrite Hx1|done|by rewrite Hx2|done|]. by intros [? _]%Hu.
  - cbn. by rewrite Hx2.
  - cbn. intros [? Hx]%Hu. by rewrite Hx.
  - by rewrite (open_from _ _ Hc).
  - exact Hpend.
Qed.

(** The same when attempts and approvals stay. *)
Lemma sound_state id row st x :
  jd_jobs s !! id = Some row → canTransitionJob (jb_state row) st = true → st ≠ job_queued → st ≠ job_unknown_outcome →
  ex_retried x = None → ex_nextFence x = None →
  (is_underway st → is_underway (jb_state row) ∧ ex_activeAttemptId x = None) →
  jd_jobs s' = <[id := with_job_state st now x row]> (jd_jobs s) →
  jd_attempts s' = jd_attempts s → jd_approvals s' = jd_approvals s → st ≠ job_running →
  (∀ aid b, att_of s id aid b → isActiveAttemptState (att_state b) = true → is_underway st ∨ st = job_cancelled) → jobs_sound s'.
Proof.
  intros Hr Hc Hq Hk Hx1 Hx2 Hu Ej Ea Ep Hrun Hact. apply (sound_move id row st x); [done..| | | | |].
  - rewrite Ea. apply local_refl.
  - rewrite Ep. apply local_refl.
  - by apply evolves_same.
  - intros aid b. unfold att_of. rewrite Ea. apply Hact.
  - eapply pends_kept; [by apply (so_job _ Hs)|by apply pends_same|]. by intros [?|?].
Qed.

Lemma sound_cancel id row :
  jd_jobs s !! id = Some row → jb_state row = job_queued ∨ jb_state row = job_awaiting_approval →
  jd_jobs s' = <[id := with_job_state job_cancelled now (released (Some "cancelled")) row]> (jd_jobs s) →
  jd_attempts s' = jd_attempts s → jd_approvals s' = jd_approvals s → jobs_sound s'.
Proof.
  intros Hr Hst Ej Ea Ep. apply (sound_state id row job_cancelled (released (Some "cancelled")) Hr); [by destruct Hst as [->| ->]|done|done|done|done| |exact Ej|exact Ea|exact Ep|done|by right].
  by intros [H|[H|H]].
Qed.

Lemma sound_fail id row x :
  jd_jobs s !! id = Some row → jb_state row = job_queued →
  (∃ reason, x = released (Some reason)) ∨ (∃ reason, x = because reason) →
  jd_jobs s' = <[id := with_job_state job_failed now x row]> (jd_jobs s) →
  jd_attempts s' = jd_attempts s → jd_approvals s' = jd_approvals s → jobs_sound s'.
Proof.
  intros Hr Hq Hx Ej Ea Ep. apply (sound_state id row job_failed x Hr); [by rewrite Hq|done|done|by destruct Hx as [[? ->]|[? ->]]..| |exact Ej|exact Ea|exact Ep|done|].
  - by intros [H|[H|H]].
  - intros aid b Hb Hact. destruct (js_active _ _ _ (so_job _ Hs _ _ Hr) _ _ Hb Hact) as [_ Hu]. rewrite Hq in Hu.
    by destruct Hu as [[|[|]]|].
Qed.

Lemma sound_stop id row :
  jd_jobs s !! id = Some row → jb_state row = job_running →
  jd_jobs s' = <[id := with_job_state job_cancel_requested now (because "cancel-requested") row]> (jd_jobs s) →
  (jd_attempts s' = jd_attempts s ∨
   ∃ aid a, jb_active_attempt_id row = Some aid ∧ jd_attempts s !! aid = Some a ∧
     isActiveAttemptState (att_state a) = true ∧ jd_attempts s' = <[aid := with_attempt_state at_stopping now a]> (jd_attempts s)) →
  jd_approvals s' = jd_approvals s → jobs_sound s'.
Proof.
  intros Hr Hrun Ej Hatt Ep. pose proof (so_job _ Hs _ _ Hr) as Hj.
  assert (Hu : is_underway (jb_state row)) by by left.
  assert (Hev : local_change att_job_id (jd_attempts s) (jd_attempts s') id ∧
    attempts_evolve s s' id (with_job_state job_cancel_requested now (because "cancel-requested") row)).
  { destruct Hatt as [Ea|(aid & a & Hact & Ha & Hst & Ea)]; [rewrite Ea; split; [apply local_refl|by apply evolves_same]|].
    destruct (js_current _ _ _ Hj Hu) as (aid' & a' & Hact' & Ho & _).
    assert (aid' = aid) as -> by congruence. assert (a' = a) as -> by (destruct Ho; congruence).
    split; [eapply att_insert; [exact Ho| |exact Ea]; apply Ho|].
    apply (evolves_insert s s' _ _ aid a (with_attempt_state at_stopping now a)); [exact Ho|apply Ho|done..| |exact Ea].
    intros He. by destruct He as [|[|]]. }
  destruct Hev as [Hloc Hev].
  apply (sound_move id row job_cancel_requested (because "cancel-requested")); [done|by rewrite Hrun|done..| | | |].
  - rewrite Ep. apply local_refl.
  - exact Hev.
  - intros. left. by right; right.
  - eapply pends_kept; [done|by apply pends_same|]. by intros [?|?].
Qed.

Lemma sound_retarget :
  (∀ id, option_Forall2 retargeted (jd_jobs s !! id) (jd_jobs s' !! id)) →
  jd_attempts s' = jd_attempts s → jd_approvals s' = jd_approvals s → jobs_sound s'.
Proof.
  intros Hf Ea Ep.
  assert (Hback : ∀ id r', jd_jobs s' !! id = Some r' → ∃ r, jd_jobs s !! id = Some r ∧ alike r r').
  { intros id r' Hr'. specialize (Hf id). rewrite Hr' in Hf. inversion Hf as [r ? H1 H2|]. subst. exists r.
    split; [done|by apply retargeted_alike]. }
  assert (Hforth : ∀ id, is_Some (jd_jobs s !! id) → is_Some (jd_jobs s' !! id)).
  { intros id [r Hr]. specialize (Hf id). rewrite Hr in Hf. inversion Hf. by eexists. }
  destruct Hs as [Hj Ha Hp Hq]. split.
  - intros id r' (r & Hr & Hal)%Hback. eapply job_alike; [exact Hal|]. eapply job_frame; [|by apply Hj].
    unfold same_around, att_of, pend_of. by rewrite Ea, Ep.
  - rewrite Ea. eauto.
  - rewrite Ep. eauto.
  - intros id jd r' q' (r & Hr & Hal)%Hback (q & Hq1 & Hal')%Hback. destruct Hal as (_ & _ & _ & _ & _ & _ & -> & ->).
    destruct Hal' as (_ & _ & _ & _ & _ & _ & -> & ->). eauto.
Qed.

Lemma by_request_none source requestId id row : readJobByRequest source requestId s = None → jd_jobs s !! id = Some row →
  jb_source_enrollment_id row = source → jb_request_id row = requestId → False.
Proof.
  intros Hn Hr <- <-. unfold readJobByRequest in Hn.
  assert (Hin : In (id, row) (map_to_list (jd_jobs s))) by by apply list_elem_of_In, elem_of_map_to_list.
  apply (find_none _ _ Hn) in Hin. unfold by_request in Hin. cbn in Hin. by rewrite !String.eqb_refl in Hin.
Qed.

Lemma sound_create id row :
  jd_jobs s !! id = None → readJobByRequest (jb_source_enrollment_id row) (jb_request_id row) s = None → born row →
  jd_jobs s' = <[id := row]> (jd_jobs s) → jd_attempts s' = jd_attempts s → jd_approvals s' = jd_approvals s → jobs_sound s'.
Proof.
  intros Hn Hreq (B1 & B2 & B3 & B4 & B5) Ej Ea Ep.
  assert (Hatt : ∀ aid a, ¬ att_of s' id aid a).
  { intros aid a [H <-]. rewrite Ea in H. destruct (so_attempt _ Hs _ _ H). congruence. }
  assert (Hpend : ∀ pid p, ¬ pend_of s' id pid p).
  { intros pid p (H & <- & Hst). rewrite Ep in H. destruct (so_approval _ Hs _ _ H Hst). congruence. }
  destruct Hs as [Hj Ha Hp Hq].
  assert (Hsome : ∀ k, is_Some (jd_jobs s !! k) → is_Some (jd_jobs s' !! k)).
  { intros k Hk. rewrite Ej, lookup_insert. case_decide; [by eexists|done]. }
  split.
  - intros k r. rewrite Ej, lookup_insert_Some. intros [[<- <-]|[Hk Hr]].
    + split; try (by intros * ?%Hatt || by intros * ?%Hpend); rewrite ?B1, ?B5; [done|by split; [|intros []]| |by intros [|[|]]].
      unfold fence_sound. rewrite B1, B2, B3. split_and!; [by left|done..|]. by intros [|[|]].
    + eapply job_frame; [|by apply Hj]. unfold same_around, att_of, pend_of. by rewrite Ea, Ep.
  - rewrite Ea. eauto.
  - rewrite Ep. eauto.
  - intros k j r q. rewrite Ej, !lookup_insert_Some. intros [[<- <-]|[Hk Hr1]] [[<- <-]|[Hj1 Hr2]]; [done| | |eauto].
    + intros H1 H2. exfalso. by eapply (by_request_none _ _ _ q).
    + intros H1 H2. exfalso. by eapply (by_request_none _ _ _ r).
Qed.

(** A queued job has neither an active attempt nor a pending approval. *)
Lemma queued_idle id row : job_sound s id row → jb_state row = job_queued →
  (∀ aid a, att_of s id aid a → isActiveAttemptState (att_state a) = false) ∧ (∀ pid p, ¬ pend_of s id pid p).
Proof.
  intros Hj Hq. split.
  - intros aid a Ha. destruct (isActiveAttemptState (att_state a)) eqn:Hact; [|done].
    destruct (js_active _ _ _ Hj _ _ Ha Hact) as [_ Hu]. rewrite Hq in Hu. by destruct Hu as [[|[|]]|].
  - intros pid p Hp. by destruct (js_pending _ _ _ Hj _ _ Hp) as (_ & ? & _).
Qed.

Lemma sound_start id row aid worker incarnation lease :
  jd_jobs s !! id = Some row → jb_state row = job_queued → jd_attempts s !! aid = None →
  jd_jobs s' = <[id := with_job_state job_running now (started_by aid row) row]> (jd_jobs s) →
  jd_attempts s' = <[aid := new_attempt_row now id worker incarnation (jb_next_fence row) lease]> (jd_attempts s) →
  jd_approvals s' = jd_approvals s → jobs_sound s'.
Proof.
  intros Hr Hq Hn Ej Ea Ep. pose proof (so_job _ Hs _ _ Hr) as Hj. destruct (queued_idle _ _ Hj Hq) as [Hidle Hnopend].
  assert (Hpend : ∀ pid p, ¬ pend_of s' id pid p) by (intros pid p Hp%(pends_same _ _ _ Ep); by eapply Hnopend).
  assert (Hatt : ∀ k b, att_of s' id k b → (k = aid ∧ b = new_attempt_row now id worker incarnation (jb_next_fence row) lease) ∨
    (k ≠ aid ∧ att_of s id k b)).
  { intros k b [H Hid]. rewrite Ea, lookup_insert_Some in H. destruct H as [[-> <-]|[Hk H]]; [by left|]. right. by split; [|split]. }
  eapply (step_at s s' id row); [done|done|exact Ej|done|done| |by rewrite Ep|].
  { rewrite Ea. apply local_insert; [|done]. intros w. by rewrite Hn. }
  destruct (js_fence _ _ _ Hj) as (F1 & F2 & F3 & F4). specialize (F3 Hq).
  pose proof (js_terminal _ _ _ Hj) as Ht. rewrite Hq in Ht. split; cbn.
  - done.
  - split; [done|]. intros H. by apply Ht in H.
  - unfold fence_sound. cbn. split_and!; [done|lia|lia|done|]. intros _. lia.
  - intros k b [[-> ->]|[_ Hb]]%Hatt; cbn; [lia|]. pose proof (js_attempt _ _ _ Hj _ _ Hb). lia.
  - intros k j b c [[-> ->]|[_ Hb]]%Hatt [[-> ->]|[_ Hc]]%Hatt; cbn; [done| | |by apply (js_unique _ _ _ Hj)];
      [pose proof (js_attempt _ _ _ Hj _ _ Hc)|pose proof (js_attempt _ _ _ Hj _ _ Hb)]; lia.
  - intros k b [[-> ->]|[_ Hb]]%Hatt; cbn; [split; [lia|left; by left]|]. by rewrite (Hidle _ _ Hb).
  - intros _. eexists aid, _. split; [done|]. split; [split; [by rewrite Ea, lookup_insert_eq|done]|]. cbn.
    split; [lia|]. by intros [|[|]].
  - intros pid p Hp. by apply Hpend in Hp.
  - intros pid qid p q Hp. by apply Hpend in Hp.
  - intros k b [[-> ->]|[_ Hb]]%Hatt; cbn; [by intros _ [|[|]]|]. intros Hw He.
    pose proof (js_managed _ _ _ Hj _ _ Hb Hw He) as Hterm. by rewrite Hq in Hterm.
Qed.

Lemma verdict_ended row outcome ast jst x : verdict now row outcome ast jst x → attempt_ended ast ∧ (jst = job_queued ∨ isTerminalJobState jst = true).
Proof. unfold attempt_ended. destruct 1; auto. Qed.

Lemma fence_settled row outcome ast jst x : fence_sound row → canTransitionJob (jb_state row) jst = true →
  verdict now row outcome ast jst x → fence_sound (with_job_state jst now x row).
Proof.
  intros Hf Hc Hv. destruct (decide (jst = job_queued)) as [->|Hq].
  - destruct Hf as (F1 & F2 & F3 & F4). assert (Hrun : jb_state row = job_running) by (by destruct (jb_state row)).
    inversion Hv as [| | |_ Hsafe Hz]; subst. rewrite Hz in F4. unfold fence_sound. cbn.
    rewrite F4 by (by left). split_and!; [by right|lia|lia|lia|by intros [|[|]]].
  - destruct (verdict_ended _ _ _ _ _ Hv) as [_ [?|Ht]]; [done|].
    apply (fence_moved row); [done|by inversion Hv; subst|done|by inversion Hv; subst|done|]. cbn. intros [H|[H|H]]; by rewrite H in Ht.
Qed.

Lemma sound_settle aid a row outcome res sealed until error ast jst x :
  jd_attempts s !! aid = Some a → jd_jobs s !! att_job_id a = Some row →
  who = Some (att_worker_enrollment_id a) ∨ (att_worker_enrollment_id a = MANAGED_PROVISIONER_ENROLLMENT ∧ jst ≠ job_queued) →
  isActiveAttemptState (att_state a) = true ∨
    (att_state a = ast ∧ att_worker_enrollment_id a = MANAGED_PROVISIONER_ENROLLMENT) →
  canTransitionJob (jb_state row) jst = true → verdict now row outcome ast jst x →
  jd_jobs s' = <[att_job_id a := with_job_state jst now x row]> (jd_jobs s) →
  jd_attempts s' = <[aid := with_attempt_state ast now (with_outcome outcome res sealed until error now a)]> (jd_attempts s) →
  jd_approvals s' = jd_approvals s → jobs_sound s'.
Proof.
  intros Ha Hr Hw Hact Hc Hv Ej Ea Ep. pose proof (so_job _ Hs _ _ Hr) as Hj. pose proof (open_from _ _ Hc) as Hopen.
  assert (Ho : att_of s (att_job_id a) aid a) by done. destruct (verdict_ended _ _ _ _ _ Hv) as [Hast Hjst].
  assert (Hon : isActiveAttemptState (att_state a) = true).
  { destruct Hact as [?|[He Hm]]; [done|]. rewrite <- He in Hast. rewrite (js_managed _ _ _ Hj _ _ Ho Hm Hast) in Hopen. done. }
  set (a' := with_attempt_state _ _ _) in Ea. destruct (att_insert s s' _ aid a a' Ho eq_refl Ea) as [Hatt Hloc].
  assert (Hnone : ∀ k b, att_of s' (att_job_id a) k b → isActiveAttemptState (att_state b) = true → False).
  { intros k b [[-> ->]|[Hk Hb]]%Hatt Hb'; [by destruct Hast as [H|[H|H]]; cbn in Hb'; rewrite H in Hb'|].
    destruct (js_active _ _ _ Hj _ _ Hb Hb') as [Hf _]. by destruct (newest_unique _ _ _ _ _ _ Hj Ho Hb Hon Hf). }
  assert (Hev : attempts_evolve s s' (att_job_id a) (with_job_state jst now x row)).
  { apply (evolves_insert s s' _ _ aid a a'); [done..| | |exact Ea].
    - by destruct Hast as [H|[H|H]]; cbn; rewrite H.
    - intros _. right. cbn. destruct Hjst as [->|?]; [|by left]. right. split; [by intros [|[|]]|]. destruct Hw as [Hw|[_ ?]]; [congruence|done]. }
  assert (Hpend : jst = job_queued → ∀ pid p, ¬ pend_of s' (att_job_id a) pid p).
  { intros -> pid p Hp%(pends_same _ _ _ Ep). destruct (js_pending _ _ _ Hj _ _ Hp) as (Hnr & _). by destruct (jb_state row). }
  assert (Hpend' : jst = job_running ∨ jst = job_queued → ∀ pid p, ¬ pend_of s' (att_job_id a) pid p).
  { intros [Hrun|?]; [|auto]. rewrite Hrun in Hjst. by destruct Hjst. }
  assert (Hu : ¬ is_underway jst) by (intros [H|[H|H]]; rewrite H in Hjst; by destruct Hjst).
  eapply (step_at s s' _ row); [done|exact Hr|exact Ej|done|done|done|by rewrite Ep|].
  eapply job_evolve; [exact Hj|done| | | |by eapply terminal_moved|done|by rewrite Hopen| |].
  - eapply fence_settled; [apply Hj|done..].
  - by inversion Hv.
  - cbn. intros ->. inversion Hv.
  - intros k b Hb Hb'. exfalso. by eapply Hnone.
  - eapply pends_kept; [exact Hj|by apply pends_same|exact Hpend'].
Qed.

Lemma sound_ask aid a row pid p :
  jd_attempts s !! aid = Some a → isActiveAttemptState (att_state a) = true → jd_jobs s !! att_job_id a = Some row →
  jb_state row = job_running → jd_approvals s !! pid = None → apr_job_id p = att_job_id a → apr_attempt_id p = aid →
  apr_generation p = att_fence a →
  jd_jobs s' = <[att_job_id a := with_job_state job_awaiting_approval now (because "approval-required") row]> (jd_jobs s) →
  jd_attempts s' = jd_attempts s → jd_approvals s' = <[pid := p]> (jd_approvals s) → jobs_sound s'.
Proof.
  intros Ha Hact Hr Hrun Hn Hpj Hpa Hpg Ej Ea Ep. pose proof (so_job _ Hs _ _ Hr) as Hj.
  assert (Ho : att_of s (att_job_id a) aid a) by done. destruct (js_active _ _ _ Hj _ _ Ho Hact) as [Hf _].
  assert (Hpend : ∀ k q, pend_of s' (att_job_id a) k q → k = pid ∧ q = p).
  { intros k q (H & Hid & Hst). rewrite Ep, lookup_insert_Some in H. destruct H as [[<- <-]|[Hk H]]; [done|].
    by destruct (js_pending _ _ _ Hj k q) as (? & _); [by split_and!|]. }
  assert (Hu : is_underway (jb_state row)) by by left.
  apply (sound_move (att_job_id a) row job_awaiting_approval (because "approval-required"));
    [exact Hr|by rewrite Hrun|done..|exact Ej| | | | |].
  - rewrite Ea. apply local_refl.
  - rewrite Ep. apply local_insert; [intros w; by rewrite Hn|done].
  - by apply evolves_same.
  - intros. left. by right; left.
  - split; [|by intros ? ? ? ? [-> _]%Hpend [-> _]%Hpend]. intros k q [-> ->]%Hpend. split_and!; [done..|].
    exists a. by rewrite Hpa.
Qed.

(** A decision leaves no approval of the job pending. *)
Lemma decided_pends pid p row st by_ : pend_of s (apr_job_id p) pid p → job_sound s (apr_job_id p) row → st ≠ ap_pending →
  jd_approvals s' = <[pid := with_approval_state st by_ now p]> (jd_approvals s) →
  (∀ k q, ¬ pend_of s' (apr_job_id p) k q) ∧ local_change apr_job_id (jd_approvals s) (jd_approvals s') (apr_job_id p).
Proof.
  intros Hp Hj Hst Ep. split.
  - intros k q (H & Hid & Hq). rewrite Ep, lookup_insert_Some in H. destruct H as [[_ <-]|[Hk H]]; [done|].
    apply Hk. by eapply (js_one_pending _ _ _ Hj).
  - rewrite Ep. apply local_insert; [|done]. destruct Hp as (Hp & _). intros w. by rewrite Hp; intros [= <-].
Qed.

Lemma sound_grant pid p row by_ : pend_of s (apr_job_id p) pid p → jd_jobs s !! apr_job_id p = Some row →
  jb_state row = job_awaiting_approval →
  jd_approvals s' = <[pid := with_approval_state ap_approved by_ now p]> (jd_approvals s) →
  jd_jobs s' = <[apr_job_id p := with_job_state job_running now (because "approval-granted") row]> (jd_jobs s) →
  jd_attempts s' = jd_attempts s → jobs_sound s'.
Proof.
  intros Hp Hr Haw Ep Ej Ea. pose proof (so_job _ Hs _ _ Hr) as Hj.
  destruct (decided_pends _ _ _ ap_approved by_ Hp Hj) as [Hnone Hloc]; [done|exact Ep|].
  assert (Hu : is_underway (jb_state row)) by by right; left.
  apply (sound_move (apr_job_id p) row job_running (because "approval-granted"));
    [exact Hr|by rewrite Haw|done..|exact Ej| | | | |].
  - rewrite Ea. apply local_refl.
  - exact Hloc.
  - by apply evolves_same.
  - intros. left. by left.
  - split; [intros k q Hq|intros k j q r Hq]; by apply Hnone in Hq.
Qed.

Lemma sound_deny pid p a row by_ : pend_of s (apr_job_id p) pid p → jd_jobs s !! apr_job_id p = Some row →
  jb_state row = job_awaiting_approval → jd_attempts s !! apr_attempt_id p = Some a →
  jd_approvals s' = <[pid := with_approval_state ap_denied by_ now p]> (jd_approvals s) →
  jd_jobs s' = <[apr_job_id p := with_job_state job_failed now (released (Some "approval-denied")) row]> (jd_jobs s) →
  (jd_attempts s' = if isActiveAttemptState (att_state a)
     then <[apr_attempt_id p := with_attempt_state at_failed now a]> (jd_attempts s) else jd_attempts s) → jobs_sound s'.
Proof.
  intros Hp Hr Haw Ha Ep Ej Ea. pose proof (so_job _ Hs _ _ Hr) as Hj.
  destruct (decided_pends _ _ _ ap_denied by_ Hp Hj) as [Hnone Hloc]; [done|exact Ep|].
  destruct (js_pending _ _ _ Hj _ _ Hp) as (_ & _ & a' & Ho & _ & Hf).
  assert (a' = a) as -> by (destruct Ho; congruence).
  assert (Hall : local_change att_job_id (jd_attempts s) (jd_attempts s') (apr_job_id p) ∧
    attempts_evolve s s' (apr_job_id p) (with_job_state job_failed now (released (Some "approval-denied")) row) ∧
    ∀ k b, att_of s' (apr_job_id p) k b → isActiveAttemptState (att_state b) = false).
  { destruct (isActiveAttemptState (att_state a)) eqn:Hact.
    - destruct (att_insert _ s' _ _ _ (with_attempt_state at_failed now a) Ho (proj2 Ho) Ea) as [Hatt Hl]. split_and!; [done| |].
      + apply (evolves_insert s s' _ _ (apr_attempt_id p) a (with_attempt_state at_failed now a)); [done|apply Ho|done..| |done].
        intros _. right. by left.
      + intros k b [[-> ->]|[Hk Hb]]%Hatt; [done|]. destruct (isActiveAttemptState (att_state b)) eqn:Hb'; [|done].
        by destruct (newest_unique _ _ _ _ _ _ Hj Hb Ho Hb' Hf).
    - split_and!; [rewrite Ea; apply local_refl|by apply evolves_same|]. intros k b Hb. unfold att_of in Hb. rewrite Ea in Hb.
      destruct (isActiveAttemptState (att_state b)) eqn:Hb'; [|done].
      destruct (newest_unique _ _ _ _ _ _ Hj Hb Ho Hb' Hf) as [_ ->]. congruence. }
  destruct Hall as (Hla & Hev & Hidle).
  apply (sound_move (apr_job_id p) row job_failed (released (Some "approval-denied")));
    [exact Hr|by rewrite Haw|done|done|done|done|by intros [|[|]]|exact Ej| | | | |].
  - exact Hla.
  - exact Hloc.
  - exact Hev.
  - intros k b Hb. by rewrite (Hidle _ _ Hb).
  - split; [intros k q Hq|intros k j q r Hq]; by apply Hnone in Hq.
Qed.

Lemma sound_close pid p st : jd_approvals s !! pid = Some p → apr_state p = ap_pending → st = ap_expired ∨ st = ap_cancelled →
  jd_jobs s' = jd_jobs s → jd_attempts s' = jd_attempts s →
  jd_approvals s' = <[pid := with_approval_state st None now p]> (jd_approvals s) → jobs_sound s'.
Proof.
  intros Hp Hst Hst' Ej Ea Ep. destruct (so_approval _ Hs _ _ Hp Hst) as [row Hr]. pose proof (so_job _ Hs _ _ Hr) as Hj.
  assert (Hpend : pend_of s (apr_job_id p) pid p) by done.
  destruct (decided_pends _ _ _ st None Hpend Hj) as [Hnone Hloc]; [by destruct Hst' as [->| ->]|exact Ep|].
  eapply (step_at s s' _ row row); [done|exact Hr|by rewrite insert_id|done|done|by rewrite Ea|done|].
  eapply job_evolve; [exact Hj|by apply evolves_same|apply Hj|done|apply Hj|apply Hj|done|done| |].
  - intros k b Hb. unfold att_of in Hb. rewrite Ea in Hb. intros Hb'. by destruct (js_active _ _ _ Hj _ _ Hb Hb').
  - split; [intros k q Hq|intros k j q r Hq]; by apply Hnone in Hq.
Qed.

Theorem advance_sound : job_step who what now s s' → jobs_sound s'.
Proof.
  destruct 1 as [Hk| | | |aid a a' Ha Hsame Hw| | | | | | |e pid p a row approved Hw _ Hp Hst He Ha Hg Hne Happr Hr Haw Ep Hres|].
  - destruct Hk as (Ej & Ea & Ep). apply sound_retarget; [|done..]. rewrite Ej. intros id.
    destruct (jd_jobs s !! id); constructor. by left.
  - by apply sound_retarget.
  - by eapply sound_create.
  - by eapply sound_start.
  - destruct Hsame as (l & late & t & ->). eapply sound_attempt; [exact Ha| | | | | |eassumption|done]; [done..| |done]. by left.
  - by eapply sound_settle.
  - by eapply sound_cancel.
  - eapply sound_stop; [done..| |done].
    match goal with H : _ ∨ _ |- _ => destruct H as [[? _]|?]; [by left|by right] end.
  - by eapply sound_fail.
  - eapply sound_attempt; [eassumption| | | | | |eassumption|done]; [done..| |done]. by right.
  - by eapply sound_ask.
  - assert (Hpend : pend_of s (apr_job_id p) pid p) by done.
    destruct approved, Hres as [Ej Ea]; [by eapply sound_grant|by eapply sound_deny].
  - by eapply sound_close.
Qed.
End Steps.

(** ** What the steps of jobs cannot do

    Consequences of the invariant for the steps of [JobSteps]: what happens to a row, to the
    load of a worker, to a job whose attempt was lost and to one that waits for approval. *)

(** ** Rows *)

(** A job's row is retargeted while queued, or takes a transition. *)
Definition row_moves (r r' : JobRow) : Prop :=
  retargeted r r' ∨ ∃ st t x, r' = with_job_state st t x r ∧ canTransitionJob (jb_state r) st = true.

Lemma advance_row who what now s s' id r : job_step who what now s s' → jd_jobs s !! id = Some r →
  ∃ r', jd_jobs s' !! id = Some r' ∧ row_moves r r'.
Proof.
  intros Hstep Hr.
  assert (Hkeep : jd_jobs s' = jd_jobs s → ∃ r', jd_jobs s' !! id = Some r' ∧ row_moves r r')
    by (intros ->; exists r; split; [done|by left; left]).
  assert (Hmove : ∀ k row st t x, jd_jobs s !! k = Some row → jd_jobs s' = <[k := with_job_state st t x row]> (jd_jobs s) →
    canTransitionJob (jb_state row) st = true → ∃ r', jd_jobs s' !! id = Some r' ∧ row_moves r r').
  { intros k row st t x Hk -> Hc. destruct (decide (k = id)) as [->|Hne].
    - assert (row = r) as -> by congruence. rewrite lookup_insert_eq. eexists. split; [done|]. right. eauto.
    - rewrite lookup_insert_ne by done. exists r. split; [done|]. by left; left. }
  destruct Hstep; try (by apply Hkeep);
    try (eapply Hmove; cycle 1; [eassumption|first [assumption|by match goal with H : jb_state _ = _ |- _ => rewrite H end]|eassumption]).
  - match goal with H : same_tables _ _ |- _ => destruct H as (? & _) end. by apply Hkeep.
  - rename select (∀ x, option_Forall2 _ _ _) into Hf. specialize (Hf id). rewrite Hr in Hf.
    destruct (jd_jobs s' !! id) as [r'|]; inversion Hf; subst.
    exists r'. split; [done|]. by left.
  - match goal with H : jd_jobs s' = _ |- _ => rewrite H end. rewrite lookup_insert_ne by congruence. exists r. split; [done|]. by left; left.
  - eapply Hmove; cycle 1; [eassumption| |eassumption]. match goal with H : _ ∨ _ |- _ => by destruct H as [->| ->] end.
  - destruct approved; match goal with H : _ ∧ _ |- _ => destruct H as [Ej _] end;
      (eapply Hmove; cycle 1; [exact Ej|by match goal with H : jb_state _ = _ |- _ => rewrite H end|eassumption]).
Qed.

Lemma moved_terminal r r' : row_moves r r' → isTerminalJobState (jb_state r) = true → r' = r.
Proof.
  intros [[?|(Hq & _)]|(st & t & x & _ & Hc)] Ht; [done| |]; exfalso.
  - by rewrite Hq in Ht.
  - by rewrite (open_from _ _ Hc) in Ht.
Qed.

(** Who asked for a job and with what request stays. *)
Lemma moved_request r r' : row_moves r r' → jb_source_enrollment_id r' = jb_source_enrollment_id r ∧
  jb_request_id r' = jb_request_id r ∧ jb_payload_hash r' = jb_payload_hash r ∧ jb_account_id r' = jb_account_id r.
Proof. by intros [[->|(_ & _ & ? & ? & ? & ->)]|(st & t & x & -> & _)]. Qed.

(** ** The load of a worker *)

Definition load_bounded (s : JobDb) : Prop :=
  ∀ w, w ≠ MANAGED_PROVISIONER_ENROLLMENT → countActiveAttempts s w <= MAX_CONCURRENT_JOBS.

Lemma count_evolve s s' aid a a' w : jd_attempts s !! aid = Some a → jd_attempts s' = <[aid := a']> (jd_attempts s) →
  (works_for w a' = true → works_for w a = true) → countActiveAttempts s' w <= countActiveAttempts s w.
Proof.
  intros Ha Es Hw. unfold countActiveAttempts. rewrite Es. apply inj_le. destruct (works_for w a') eqn:Hf.
  - rewrite map_filter_insert_True by done. rewrite map_size_insert_Some; [done|]. exists a.
    apply map_lookup_filter_Some. auto.
  - rewrite map_filter_insert_False by (cbn; by rewrite Hf). apply map_subseteq_size, map_filter_subseteq_mono, delete_subseteq.
Qed.

Lemma count_start s s' aid a' w : jd_attempts s !! aid = None → jd_attempts s' = <[aid := a']> (jd_attempts s) →
  countActiveAttempts s' w <= if works_for w a' then countActiveAttempts s w + 1 else countActiveAttempts s w.
Proof.
  intros Ha Es. unfold countActiveAttempts. rewrite Es. destruct (works_for w a') eqn:Hf.
  - rewrite map_filter_insert_True by done. rewrite map_size_insert_None; [lia|]. apply map_lookup_filter_None. by left.
  - rewrite map_filter_insert_not'; [done|cbn; by rewrite Hf|]. intros y. by rewrite Ha.
Qed.

Lemma advance_load who what now s s' : load_bounded s → job_step who what now s s' → load_bounded s'.
Proof.
  intros Hb Hstep w Hw. specialize (Hb w Hw).
  assert (Hkeep : jd_attempts s' = jd_attempts s → countActiveAttempts s' w <= MAX_CONCURRENT_JOBS)
    by (intros E; unfold countActiveAttempts; by rewrite E).
  assert (Hev : ∀ aid a a', jd_attempts s !! aid = Some a → jd_attempts s' = <[aid := a']> (jd_attempts s) →
    att_worker_enrollment_id a' = att_worker_enrollment_id a →
    (isActiveAttemptState (att_state a') = true → isActiveAttemptState (att_state a) = true) →
    countActiveAttempts s' w <= MAX_CONCURRENT_JOBS).
  { intros aid a a' Ha E Hwk Hact. etrans; [eapply count_evolve; [exact Ha|exact E|]|exact Hb]. unfold works_for. rewrite Hwk.
    intros [-> ?]%andb_true_iff. apply andb_true_iff. auto. }
  destruct Hstep; try (by apply Hkeep).
  - match goal with H : same_tables _ _ |- _ => destruct H as (_ & ? & _) end. by apply Hkeep.
  - etrans; [eapply count_start; eassumption|]. destruct (works_for w _) eqn:Hf; [|done].
    unfold works_for in Hf. cbn in Hf. reflect_bools. subst.
    match goal with H : may_start _ _ _ |- _ => destruct H as [[_ ?]|?]; [lia|done] end.
  - match goal with H : same_attempt _ _ |- _ => destruct H as (? & ? & ? & ->) end. eapply Hev; [eassumption|eassumption|done|done].
  - eapply Hev; [eassumption|eassumption|done|]. cbn. by match goal with H : verdict _ _ _ _ _ _ |- _ => destruct H end.
  - match goal with H : _ ∨ _ |- _ => destruct H as [[? _]|(aid & a & _ & ? & ? & ?)] end; [by apply Hkeep|].
    eapply Hev; [eassumption|eassumption|done|done].
  - eapply Hev; [eassumption|eassumption|done|done].
  - destruct approved; match goal with H : _ ∧ _ |- _ => destruct H as [_ Ea] end; [by apply Hkeep|].
    destruct (isActiveAttemptState (att_state a)); [|by apply Hkeep]. eapply Hev; [eassumption|exact Ea|done|done].
Qed.

(** ** A job whose attempt was lost *)

(** The job runs, or is being cancelled, on an attempt of unknown outcome. *)
Definition stranded (id aid : string) (s : JobDb) : Prop :=
  ∃ row a, jd_jobs s !! id = Some row ∧ (jb_state row = job_running ∨ jb_state row = job_cancel_requested) ∧
    jb_active_attempt_id row = Some aid ∧ att_of s id aid a ∧ att_state a = at_unknown_outcome.

(** None of its attempts is active. *)
Lemma stranded_idle id aid s k b : jobs_sound s → stranded id aid s → att_of s id k b → isActiveAttemptState (att_state b) = false.
Proof.
  intros Hs (row & a & Hr & Hst & Hact & Ha & Hu) Hb. pose proof (so_job _ Hs _ _ Hr) as Hj.
  destruct (isActiveAttemptState (att_state b)) eqn:Hon; [|done].
  destruct (js_current _ _ _ Hj) as (aid' & a' & Hact' & Ha' & Hf & _); [destruct Hst; [by left|by right; right]|].
  assert (aid' = aid) as -> by congruence. destruct (newest_unique _ _ _ _ _ _ _ Hj Hb Ha' Hon Hf) as [-> ->].
  assert (b = a) as -> by (destruct Ha, Hb; congruence). by rewrite Hu in Hon.
Qed.

(** Steps elsewhere. *)
Lemma stranded_kept id aid s s' : stranded id aid s → jd_jobs s' !! id = jd_jobs s !! id →
  jd_attempts s' !! aid = jd_attempts s !! aid → stranded id aid s'.
Proof. intros (row & a & H1 & H2 & H3 & [H4 H5] & H6) Ej Ea. exists row, a. unfold att_of. by rewrite Ej, Ea. Qed.

Lemma stranded_attempt id aid s s' k b b' : jobs_sound s → stranded id aid s → jd_attempts s !! k = Some b →
  isActiveAttemptState (att_state b) = true → jd_attempts s' = <[k := b']> (jd_attempts s) →
  jd_attempts s' !! aid = jd_attempts s !! aid ∧ att_job_id b ≠ id.
Proof.
  intros Hs Hst Hb Hon ->. split.
  - apply lookup_insert_ne. intros ->. destruct Hst as (row & a & _ & _ & _ & [Ha _] & Hu). rewrite Ha in Hb.
    injection Hb as <-. by rewrite Hu in Hon.
  - intros Hid. by rewrite (stranded_idle _ _ _ _ _ Hs Hst (conj Hb Hid)) in Hon.
Qed.

Lemma stranded_stays id aid who what now s s' : jobs_sound s → stranded id aid s → job_step who what now s s' → stranded id aid s'.
Proof.
  intros Hs Hst Hstep. pose proof Hst as (row & a & Hr & Hstate & Hcur & Ha & Hu).
  assert (Hrow : ∀ k r r', jd_jobs s !! k = Some r → jb_state r ≠ job_running → jb_state r ≠ job_cancel_requested →
    jd_jobs s' = <[k := r']> (jd_jobs s) → jd_jobs s' !! id = jd_jobs s !! id).
  { intros k r r' Hk H1 H2 ->. apply lookup_insert_ne. intros ->. assert (r = row) as -> by congruence. by destruct Hstate. }
  destruct Hstep as [(Ej & Ea & _)|Hf Ea _|k r Hn _ _ _ Ej Ea _|k r bid w inc l Hk Hq _ _ Hn _ Ej Ea _|bid b b' Hb Hsame _ Ej Ea _
    |bid b r o res se un er ast jst x Hb Hk Hw Hon _ Hc Hv Ej Ea _|k r Hk Hq Ej Ea _|k r Hk Hq Ej Ea _|k r x Hk Hq _ Ej Ea _
    |bid b Hb Hon Ej Ea _|bid b r pid p Hb Hon Hk Hq _ _ _ _ _ _ _ _ Ej Ea _|e pid p b r ok _ _ Hp Hps _ Hb _ _ _ Hk Hq _ Hres
    |pid p st _ _ _ Ej Ea _].
  - apply (stranded_kept _ _ s); [done|by rewrite Ej|by rewrite Ea].
  - apply (stranded_kept _ _ s); [done| |by rewrite Ea]. specialize (Hf id). rewrite Hr in Hf |- *.
    destruct (jd_jobs s' !! id); inversion Hf as [? ? Ht|]; subst. destruct Ht as [->|[Hq _]]; [done|].
    rewrite Hq in Hstate. by destruct Hstate.
  - apply (stranded_kept _ _ s); [done| |by rewrite Ea]. rewrite Ej. apply lookup_insert_ne. intros ->. congruence.
  - apply (stranded_kept _ _ s); [done|eapply Hrow; [exact Hk|by rewrite Hq..|exact Ej]|].
    rewrite Ea. apply lookup_insert_ne. intros ->. destruct Ha. congruence.
  - destruct Hsame as (l & late & t & ->). destruct (decide (bid = aid)) as [->|Hne].
    + assert (b = a) as -> by (destruct Ha; congruence). eexists row, _. split; [by rewrite Ej|]. split; [done|].
      split; [done|]. split; [split; [by rewrite Ea, lookup_insert_eq|by destruct Ha]|done].
    + apply (stranded_kept _ _ s); [done|by rewrite Ej|by rewrite Ea, lookup_insert_ne].
  - assert (Hon' : isActiveAttemptState (att_state b) = true).
    { destruct Hon as [?|[He Hm]]; [done|]. destruct (verdict_ended _ _ _ _ _ _ Hv) as [Hast _]. rewrite <- He in Hast.
      pose proof (js_managed _ _ _ (so_job _ Hs _ _ Hk) bid b) as Hmg. rewrite (open_from _ _ Hc) in Hmg. by discriminate Hmg. }
    destruct (stranded_attempt _ _ _ _ _ _ _ Hs Hst Hb Hon' Ea) as [Hsame Hid].
    apply (stranded_kept _ _ s); [done|rewrite Ej; by apply lookup_insert_ne|done].
  - apply (stranded_kept _ _ s); [done|eapply Hrow; [exact Hk|by destruct Hq as [->| ->]..|exact Ej]|by rewrite Ea].
  - destruct (decide (k = id)) as [->|Hne].
    + assert (r = row) as -> by congruence. eexists _, a. split; [by rewrite Ej, lookup_insert_eq|]. cbn. split; [by right|].
      split; [done|]. destruct Ea as [[Ea _]|(bid & b & Hb1 & Hb2 & Hon & Ea)]; [unfold att_of; by rewrite Ea|].
      exfalso. destruct Ha. assert (b = a) as -> by congruence. by rewrite Hu in Hon.
    + apply (stranded_kept _ _ s); [done|rewrite Ej; by apply lookup_insert_ne|].
      destruct Ea as [[-> _]|(bid & b & _ & Hb & Hon & Ea)]; [done|]. by destruct (stranded_attempt _ _ _ _ _ _ _ Hs Hst Hb Hon Ea).
  - apply (stranded_kept _ _ s); [done|eapply Hrow; [exact Hk|by rewrite Hq..|exact Ej]|by rewrite Ea].
  - destruct (stranded_attempt _ _ _ _ _ _ _ Hs Hst Hb Hon Ea). by apply (stranded_kept _ _ s); [|rewrite Ej|].
  - assert (att_job_id b ≠ id) by (intros Hid; by rewrite (stranded_idle _ _ _ _ _ Hs Hst (conj Hb Hid)) in Hon).
    apply (stranded_kept _ _ s); [done|rewrite Ej; by apply lookup_insert_ne|by rewrite Ea].
  - assert (Hj : jd_jobs s' !! id = jd_jobs s !! id).
    { destruct ok, Hres as [Ej _]; (eapply Hrow; [exact Hk|by rewrite Hq..|exact Ej]). }
    apply (stranded_kept _ _ s); [done|done|]. destruct ok, Hres as [_ Ea]; [by rewrite Ea|].
    destruct (isActiveAttemptState (att_state b)) eqn:Hon; [|by rewrite Ea].
    by destruct (stranded_attempt _ _ _ _ _ _ _ Hs Hst Hb Hon Ea).
  - apply (stranded_kept _ _ s); [done|by rewrite Ej|by rewrite Ea].
Qed.

(** ** A job that waits for approval *)

(** Attempts keep their job, their worker and their fence. *)
Definition same_claim (a a' : AttemptRow) : Prop :=
  att_job_id a' = att_job_id a ∧ att_worker_enrollment_id a' = att_worker_enrollment_id a ∧ att_fence a' = att_fence a.

Lemma advance_attempt who what now s s' k a : job_step who what now s s' → jd_attempts s !! k = Some a →
  ∃ a', jd_attempts s' !! k = Some a' ∧ same_claim a a'.
Proof.
  intros Hstep Ha.
  assert (Hkeep : jd_attempts s' = jd_attempts s → ∃ a', jd_attempts s' !! k = Some a' ∧ same_claim a a')
    by (intros ->; by exists a).
  assert (Hins : ∀ j b b', jd_attempts s' = <[j := b']> (jd_attempts s) → jd_attempts s !! j = Some b → same_claim b b' →
    ∃ a', jd_attempts s' !! k = Some a' ∧ same_claim a a').
  { intros j b b' -> Hb Hs. destruct (decide (j = k)) as [->|Hne]; [|rewrite lookup_insert_ne by done; by exists a].
    assert (b = a) as -> by congruence. exists b'. by rewrite lookup_insert_eq. }
  destruct Hstep; try (by apply Hkeep); try (by eapply Hins; [eassumption..|]).
  - match goal with H : same_tables _ _ |- _ => destruct H as (_ & ? & _) end. by apply Hkeep.
  - match goal with H : jd_attempts s' = _ |- _ => rewrite H end. rewrite lookup_insert_ne by congruence. by exists a.
  - match goal with H : same_attempt _ _ |- _ => destruct H as (? & ? & ? & ->) end. by eapply Hins; [eassumption..|].
  - match goal with H : _ ∨ _ |- _ => destruct H as [[? _]|(? & ? & _ & ? & _ & ?)] end; [by apply Hkeep|].
    by eapply Hins; [eassumption..|].
  - destruct approved; match goal with H : _ ∧ _ |- _ => destruct H as [_ Ea] end; [by apply Hkeep|].
    destruct (isActiveAttemptState _); [|by apply Hkeep]. by eapply Hins; [exact Ea|eassumption|].
Qed.

(** [e] may decide the approval [pid] of the job: it is pending and not yet due, for an
    attempt of the job with the fence it was asked for, which [e] does not run, and meant for
    [e] if it names an approver. *)
Definition may_decide (e : string) (now : Z) (id pid : string) (p : ApprovalRow) (s : JobDb) : Prop :=
  pend_of s id pid p ∧ now < apr_expires_at p ∧
  ∃ a, att_of s id (apr_attempt_id p) a ∧ apr_generation p = att_fence a ∧
    e ≠ att_worker_enrollment_id a ∧ ∀ approver, apr_approver_enrollment_id p = Some approver → e = approver.

(** A pending approval of a job under way is bound to its current attempt. *)
Lemma pending_current s id row pid p : job_sound s id row → is_underway (jb_state row) → pend_of s id pid p →
  jb_active_attempt_id row = Some (apr_attempt_id p).
Proof.
  intros Hj Hu Hp. destruct (js_pending _ _ _ Hj _ _ Hp) as (_ & _ & a & Ha & _ & Hf).
  destruct (js_current _ _ _ Hj Hu) as (aid & b & Hcur & Hb & Hfb & _). rewrite Hcur. f_equal.
  eapply (js_unique _ _ _ Hj); [exact Hb|exact Ha|congruence].
Qed.

(** A decided approval is never touched again. *)
Lemma advance_decided who what now s s' pid p : job_step who what now s s' → jd_approvals s !! pid = Some p →
  apr_state p ≠ ap_pending → jd_approvals s' !! pid = Some p.
Proof.
  intros Hstep Hp Hst. assert (Hkeep : jd_approvals s' = jd_approvals s → jd_approvals s' !! pid = Some p) by (by intros ->).
  assert (Hins : ∀ j q, jd_approvals s' = <[j := q]> (jd_approvals s) →
    (∀ r, jd_approvals s !! j = Some r → apr_state r = ap_pending) → jd_approvals s' !! pid = Some p).
  { intros j q -> Hj. rewrite lookup_insert_ne; [done|]. intros ->. by apply Hst, Hj. }
  destruct Hstep; try (by apply Hkeep); try (eapply Hins; [eassumption|]; naive_solver).
  match goal with H : same_tables _ _ |- _ => destruct H as (_ & _ & ?) end. by apply Hkeep.
Qed.

Lemma rtc_decided who what now s s' pid p : rtc (job_step who what now) s s' → jd_approvals s !! pid = Some p →
  apr_state p ≠ ap_pending → jd_approvals s' !! pid = Some p.
Proof. intros H. induction H as [|x y z Hxy _ IH]; [done|]. intros Hp Hst. eapply IH, Hst. by eapply advance_decided. Qed.

(** A job that is not running gets no new pending approval. *)
Lemma advance_pend who what now s s' id row pid p : job_step who what now s s' → jd_jobs s !! id = Some row →
  jb_state row ≠ job_running → pend_of s' id pid p → pend_of s id pid p.
Proof.
  intros Hstep Hr Hst (Hp & Hid & Hps).
  assert (Hkeep : jd_approvals s' = jd_approvals s → pend_of s id pid p) by (intros E; by rewrite E in Hp).
  assert (Hclosed : ∀ j q st by_, st ≠ ap_pending → jd_approvals s' = <[j := with_approval_state st by_ now q]> (jd_approvals s) →
    pend_of s id pid p).
  { intros j q st by_ Hne E. rewrite E, lookup_insert_Some in Hp. by destruct Hp as [[_ <-]|[_ ?]]. }
  destruct Hstep; try (by apply Hkeep).
  - match goal with H : same_tables _ _ |- _ => destruct H as (_ & _ & ?) end. by apply Hkeep.
  - match goal with H : jd_approvals s' = _ |- _ => rewrite H, lookup_insert_Some in Hp end.
    destruct Hp as [[_ <-]|[_ ?]]; [|done]. congruence.
  - eapply Hclosed; [|eassumption]. by destruct approved.
  - eapply Hclosed; [|eassumption]. by destruct H1 as [->| ->].
Qed.

Lemma may_decide_back who what now t s s' id row e pid p : jobs_sound s → job_step who what now s s' →
  jd_jobs s !! id = Some row → jb_state row ≠ job_running → may_decide e t id pid p s' → may_decide e t id pid p s.
Proof.
  intros Hs Hstep Hr Hst (Hp & He & a' & Ha' & Hg & Hw & Happr).
  pose proof (advance_pend _ _ _ _ _ _ _ _ _ Hstep Hr Hst Hp) as Hp0.
  destruct (js_pending _ _ _ (so_job _ Hs _ _ Hr) _ _ Hp0) as (_ & _ & a & Ha & _ & _).
  destruct (advance_attempt _ _ _ _ _ _ _ Hstep (proj1 Ha)) as (a2 & Ha2 & _ & Hw2 & Hf2).
  assert (a2 = a') as -> by (destruct Ha'; congruence). split; [done|]. split; [done|]. exists a.
  rewrite Hw2 in Hw. rewrite Hf2 in Hg. by split_and!.
Qed.

(** The caller approves the approval [pid] of the job, and may. *)
Definition approves (who : option string) (what : option (string * bool)) (now : Z) (id : string) (s s' : JobDb) : Prop :=
  ∃ e pid p, who = Some e ∧ what = Some (pid, true) ∧ may_decide e now id pid p s ∧
    jd_approvals s' !! pid = Some (with_approval_state ap_approved (Some e) now p).

(** One step of a job that waits. *)
Lemma gate_step who what now s s' id row : jobs_sound s → job_step who what now s s' → jd_jobs s !! id = Some row →
  jb_state row = job_awaiting_approval →
  ∃ row', jd_jobs s' !! id = Some row' ∧ (jb_state row' = job_awaiting_approval ∨ isTerminalJobState (jb_state row') = true ∨
    approves who what now id s s').
Proof.
  intros Hs Hstep Hr Hst. destruct (advance_row _ _ _ _ _ _ _ Hstep Hr) as (row' & Hr' & _). exists row'. split; [done|].
  assert (Hsame : jd_jobs s' !! id = jd_jobs s !! id → jb_state row' = job_awaiting_approval) by (intros E; congruence).
  assert (Hmove : ∀ k r st x, jd_jobs s !! k = Some r → jd_jobs s' = <[k := with_job_state st now x r]> (jd_jobs s) →
    k = id → r = row ∧ jb_state row' = st).
  { intros k r st x Hk E ->. split; [congruence|]. rewrite E, lookup_insert_eq in Hr'. by injection Hr' as <-. }
  assert (Helse : ∀ k v, jd_jobs s' = <[k := v]> (jd_jobs s) → k ≠ id → jb_state row' = job_awaiting_approval).
  { intros k v E Hne. apply Hsame. rewrite E. by apply lookup_insert_ne. }
  destruct Hstep as [(Ej & Ea & _)|Hf _ _|k r Hn _ _ _ Ej _ _|k r bid w inc l Hk Hq _ _ Hn _ Ej _ _|bid b b' Hb _ _ Ej _ _
    |bid b r o res se un er ast jst x Hb Hk _ _ _ Hc Hv Ej _ _|k r Hk _ Ej _ _|k r Hk Hq Ej _ _|k r x Hk Hq _ Ej _ _
    |bid b Hb Hon Ej _ _|bid b r pid p Hb Hon Hk Hq _ _ _ _ _ _ _ _ Ej _ _|e pid p b r ok Hw Hwhat Hp Hps He Hb Hg Hne Happr Hk Hq Hap Hres
    |pid p st _ _ _ Ej _ _].
  - left. apply Hsame. by rewrite Ej.
  - left. specialize (Hf id). rewrite Hr, Hr' in Hf. inversion Hf as [? ? Ht|]; subst. destruct Ht as [->|[Hq _]]; [done|congruence].
  - left. eapply Helse; [exact Ej|]. intros ->. congruence.
  - left. eapply Helse; [exact Ej|]. intros ->. congruence.
  - left. apply Hsame. by rewrite Ej.
  - destruct (decide (att_job_id b = id)) as [He|He]; [|left; by eapply Helse].
    destruct (Hmove _ _ _ _ Hk Ej He) as [-> ->]. right. left. destruct (verdict_ended _ _ _ _ _ _ Hv) as [_ [->|?]]; [|done].
    by rewrite Hst in Hc.
  - destruct (decide (k = id)) as [He|He]; [|left; by eapply Helse]. destruct (Hmove _ _ _ _ Hk Ej He) as [_ ->]. by right; left.
  - left. eapply Helse; [exact Ej|]. intros ->. congruence.
  - destruct (decide (k = id)) as [He|He]; [|left; by eapply Helse]. destruct (Hmove _ _ _ _ Hk Ej He) as [_ ->]. by right; left.
  - left. apply Hsame. by rewrite Ej.
  - left. eapply Helse; [exact Ej|]. intros Hid. rewrite Hid in Hk. congruence.
  - destruct (decide (apr_job_id p = id)) as [Hid|Hid].
    + right. destruct ok, Hres as [Ej _]; destruct (Hmove _ _ _ _ Hk Ej Hid) as [-> ->]; [right|by left].
      destruct (js_pending _ _ _ (so_job _ Hs _ _ Hk) pid p) as (_ & _ & b' & Hb' & _ & _); [done|]. subst id.
      assert (b' = b) as -> by (destruct Hb'; congruence). exists e, pid, p. split_and!; [done..| |].
      * split_and!; [done..|]. exists b. by split_and!.
      * by rewrite Hap, lookup_insert_eq.
    + left. destruct ok, Hres as [Ej _]; by eapply Helse.
  - left. apply Hsame. by rewrite Ej.
Qed.

Lemma rtc_sound who what now s s' : who ≠ Some MANAGED_PROVISIONER_ENROLLMENT → rtc (job_step who what now) s s' → jobs_sound s → jobs_sound s'.
Proof. intros Hw H. induction H as [|x y z Hxy _ IH]; [done|]. intros Hx. apply IH. by eapply advance_sound. Qed.

Lemma rtc_terminal who what now s s' id row : rtc (job_step who what now) s s' → jd_jobs s !! id = Some row →
  isTerminalJobState (jb_state row) = true → jd_jobs s' !! id = Some row.
Proof.
  intros H. induction H as [|x y z Hxy _ IH]; [done|]. intros Hr Ht. destruct (advance_row _ _ _ _ _ _ _ Hxy Hr) as (r' & Hr' & Hm).
  rewrite (moved_terminal _ _ Hm Ht) in Hr'. auto.
Qed.

Lemma gate_chain who what now s s' id row row' : who ≠ Some MANAGED_PROVISIONER_ENROLLMENT → jobs_sound s → rtc (job_step who what now) s s' →
  jd_jobs s !! id = Some row → jb_state row = job_awaiting_approval → jd_jobs s' !! id = Some row' →
  jb_state row' = job_running → approves who what now id s s'.
Proof.
  intros Hw Hs H. revert row Hs. induction H as [s|s s1 s' Hstep Hrest IH]; intros row Hs Hr Hst Hr' Hrun; [congruence|].
  destruct (gate_step _ _ _ _ _ _ _ Hs Hstep Hr Hst) as (row1 & Hr1 & [Hst1|[Ht|Happ]]).
  - destruct (IH row1) as (e & pid & p & He & Hd & Hmay & Hap); [by eapply advance_sound|done..|]. exists e, pid, p.
    split_and!; [done..| |done]. eapply may_decide_back; [exact Hs|exact Hstep|exact Hr| |exact Hmay]. congruence.
  - rewrite (rtc_terminal _ _ _ _ _ _ _ Hrest Hr1 Ht) in Hr'. injection Hr' as <-. by rewrite Hrun in Ht.
  - destruct Happ as (e & pid & p & He & Hd & Hmay & Hap). exists e, pid, p. split_and!; [done..|].
    by eapply rtc_decided.
Qed.
