(* ===== verification/JobProps.v ===== *)
(** * Desktop app cloud: properties of jobs

    What a device, a user and an operator may rely on, whatever calls are made in whatever
    order, and where the code does not do what its comments say. *)

From stdpp Require Import base list strings gmap relations.
From Stdlib Require Import ZArith Ascii Lia.
From S2P Require Import Prelude Transactions JsString JsValue SyncWire SyncTables SyncLog SyncData SyncProps JobTables JobWire JobCoordinator JobLifecycle JobApprovals JobSteps JobMoves JobSound.

(** ** Concrete calls on jobs

    Devices, a job and requests for the witnesses of the theorems on jobs. *)

Definition device (enrollmentId : string) : SpikeAuth := {|
  sa_accountId := "acc"; sa_enrollmentId := enrollmentId; sa_enrollmentClass := None; sa_environmentId := None |}.

Definition worker_policy : json :=
  JObj [("worker", JObj [("allowJobs", JBool true); ("allowedSources", JArr [JStr "same-account"])])].

Definition empty_manifest : json := JObj [
  ("workspaceDefinitionRevision", JStr "r1"); ("repositories", JArr []); ("bootstrapDigest", JStr "d");
  ("provider", JStr "p"); ("model", JStr "m"); ("configVersions", JObj []); ("inputs", JObj [])].

Definition create_json : json := JObj [
  ("requestId", JStr "q1"); ("payloadHash", JStr fixture_digest); ("kind", JStr "diagnostic");
  ("requestedTarget", JObj [("kind", JStr "auto")]); ("inputManifest", empty_manifest); ("retryPolicy", JStr "safe")].

Definition job_json (id : string) : json := JObj [("jobId", JStr id)].

Definition report_json (attemptId outcome : string) (fence : Z) : json := JObj [
  ("attemptId", JStr attemptId); ("incarnation", JStr "inc"); ("fence", JNum (int fence)); ("outcome", JStr outcome)].

Definition decide_json (approvalId decision : string) : json :=
  JObj [("approvalId", JStr approvalId); ("decision", JStr decision)].

(** What every control frame carries. *)
Definition fixture_control (_ : string) : option json :=
  Some (JObj [("request", JStr "approval"); ("actionDigest", JStr "x")]).

Definition run_jobs : list JobCall → JobDb → JobDb := run_job_calls fixture_date false str_leb false false fixture_control.

(** A worker opts in, a laptop creates a job, the worker claims it. *)
Definition claimed_job : list JobCall := [
  call_policy 1000 (device "worker") worker_policy; call_connect 1001 "inc" (device "worker");
  call_create 1002 "job" laptop create_json; call_claim 1003 "first" (device "worker") (job_json "job")].

(** It fails and is claimed again. *)
Definition retried_job : list JobCall := claimed_job ++ [
  call_report 1004 (device "worker") (report_json "first" "failed" 1);
  call_claim 1005 "second" (device "worker") (job_json "job")].

(** It asks for an approval. *)
Definition waiting_job : list JobCall := claimed_job ++ [
  call_control 1004 "approval" (device "worker") "first" 1 "status" "{}"].

Definition cancelled_job : list JobCall := waiting_job ++ [call_cancel 1005 (job_json "job")].

(** Its worker is never heard of again. *)
Definition lost_job : list JobCall := claimed_job ++ [call_job_sweep 1000000].

(** ** The states of attempts *)

Definition attempt_edge (a b : AttemptState) : Prop := b ∈ ATTEMPT_TRANSITIONS a.

(** One case for each entry of a list of constants. *)
Ltac cases_of H := cbn in H; repeat (apply elem_of_cons in H as [->|H]); try (by apply not_elem_of_nil in H).

Lemma reachable_step a b c : attempt_edge a b → attemptTransitionReachable b c = true → attemptTransitionReachable a c = true.
Proof. intros H. destruct a; cases_of H; by destruct c. Qed.

(** The edges from a state to each that it reaches. *)
Lemma reachable_path a b : attemptTransitionReachable a b = true →
  attempt_edge a b ∨ (∃ c, attempt_edge a c ∧ attempt_edge c b) ∨ ∃ c d, attempt_edge a c ∧ attempt_edge c d ∧ attempt_edge d b.
Proof.
  unfold attempt_edge. destruct a, b; intros H; try (by vm_compute in H); first
    [left; by apply (bool_decide_unpack _)
    |right; left; exists at_preparing; split; by apply (bool_decide_unpack _)
    |right; left; exists at_running; split; by apply (bool_decide_unpack _)
    |right; left; exists at_stopping; split; by apply (bool_decide_unpack _)
    |right; right; exists at_preparing, at_running; split_and!; by apply (bool_decide_unpack _)].
Qed.

(** [attemptTransitionReachable], the search the coordinator makes before it moves an
    attempt to a terminal state, finds a state exactly if one or more transitions of
    [ATTEMPT_TRANSITIONS] lead to it. *)
Theorem reachable_exact a b : attemptTransitionReachable a b = true ↔ tc attempt_edge a b.
Proof.
  split.
  - intros [?|[(c & ? & ?)|(c & d & ? & ? & ?)]]%reachable_path; eauto using tc_once, tc_l.
  - induction 1 as [a b Hab|a b c Hab _ IH]; [|by eapply reachable_step].
    destruct a; by cases_of Hab.
Qed.

Section Properties.
Context (date_parse : string → option Z) (hosted : bool) (locale_leb : string → string → bool) (cloudAgents provisioner : bool).
Context (JSON_parse : string → option json).
Notation run1 := (run_job_call date_parse hosted locale_leb cloudAgents provisioner JSON_parse).
Notation run := (run_job_calls date_parse hosted locale_leb cloudAgents provisioner JSON_parse).

Lemma calls_sound cs s : Forall genuine cs → jobs_sound s → jobs_sound (run cs s).
Proof. intros Hg. apply calls_preserve; [|done]. intros. by eapply advance_sound. Qed.

Lemma run_app cs ds s : run (cs ++ ds) s = run ds (run cs s).
Proof. apply foldl_app. Qed.

(** C8: whatever calls are made, in any order: a job never has two active attempts, and has
    none while queued, completed or failed; one that runs, waits for approval or is being
    cancelled names an attempt of its own, and no attempt of it is newer; and a job has an
    end time exactly if its state is terminal. *)
Theorem jobs_consistent cs id row : Forall genuine cs → jd_jobs (run cs initial_jobs) !! id = Some row →
  (∀ aid bid a b, att_of (run cs initial_jobs) id aid a → att_of (run cs initial_jobs) id bid b →
     isActiveAttemptState (att_state a) = true → isActiveAttemptState (att_state b) = true → aid = bid) ∧
  (jb_state row ∈ [job_queued; job_completed; job_failed] →
     ∀ aid a, att_of (run cs initial_jobs) id aid a → isActiveAttemptState (att_state a) = false) ∧
  (jb_state row ∈ [job_running; job_awaiting_approval; job_cancel_requested] →
     ∃ aid a, jb_active_attempt_id row = Some aid ∧ att_of (run cs initial_jobs) id aid a ∧
       ∀ bid b, att_of (run cs initial_jobs) id bid b → att_fence b <= att_fence a) ∧
  (isTerminalJobState (jb_state row) = true ↔ is_Some (jb_terminal_at row)).
Proof.
  intros Hg Hr. pose proof (so_job _ (calls_sound _ _ Hg sound_initial) _ _ Hr) as Hj. split_and!.
  - intros aid bid a b Ha Hb Hon Hon'. destruct (js_active _ _ _ Hj _ _ Hb Hon') as [Hf _]. symmetry.
    by apply (newest_unique _ _ _ _ _ _ _ Hj Ha Hb).
  - intros Hst aid a Ha. destruct (isActiveAttemptState (att_state a)) eqn:Hon; [|done].
    destruct (js_active _ _ _ Hj _ _ Ha Hon) as [_ Hu]. exfalso. revert Hst Hu. generalize (jb_state row). intros st Hst Hu.
    cases_of Hst; by destruct Hu as [[|[|]]|].
  - intros Hst. destruct (js_current _ _ _ Hj) as (aid & a & Hc & Ha & Hf & _); [revert Hst; generalize (jb_state row); intros st Hst; unfold is_underway; cases_of Hst; auto|].
    exists aid, a. split_and!; [done..|]. intros bid b Hb. pose proof (js_attempt _ _ _ Hj _ _ Hb). lia.
  - apply Hj.
Qed.

(** C28: a job has at most two attempts ever, and at most one unless its retry policy is safe. *)
Theorem attempts_bounded cs id row : Forall genuine cs → jd_jobs (run cs initial_jobs) !! id = Some row →
  Z.of_nat (size (filter (λ p, att_job_id p.2 = id) (jd_attempts (run cs initial_jobs)))) <=
    if bool_decide (jb_retry_policy row = retry_safe) then 2 else 1.
Proof.
  intros Hg Hr. set (s := run cs initial_jobs) in *. pose proof (so_job _ (calls_sound _ _ Hg sound_initial) _ _ Hr) as Hj.
  set (m := filter _ _).
  assert (Hm : ∀ k a, m !! k = Some a → att_of s id k a) by (intros k a [? ?]%map_lookup_filter_Some; done).
  assert (Hnd : NoDup ((λ p, att_fence p.2) <$> map_to_list m)).
  { apply NoDup_fmap_2_strong; [|apply NoDup_map_to_list]. intros [k a] [j b] Ha%elem_of_map_to_list Hb%elem_of_map_to_list He.
    assert (k = j) as -> by (eapply (js_unique _ _ _ Hj); eauto). congruence. }
  assert (Hsub : (λ p, att_fence p.2) <$> map_to_list m ⊆ seqZ 1 (jb_next_fence row - 1)).
  { intros f ([k a] & -> & Ha%elem_of_map_to_list)%list_elem_of_fmap. apply elem_of_seqZ.
    pose proof (js_attempt _ _ _ Hj _ _ (Hm _ _ Ha)). cbn. lia. }
  apply NoDup_submseteq in Hsub; [|done]. apply submseteq_length in Hsub. rewrite length_fmap, length_map_to_list, length_seqZ in Hsub.
  destruct (js_fence _ _ _ Hj) as (F1 & F2 & _). case_bool_decide; destruct F1 as [F1|[F1 F1']]; try done; lia.
Qed.

(** A worker never has more than 64 active attempts, whatever its policy and its
    capabilities claim. *)
Theorem worker_load_bounded cs w : w ≠ MANAGED_PROVISIONER_ENROLLMENT →
  countActiveAttempts (run cs initial_jobs) w <= MAX_CONCURRENT_JOBS.
Proof.
  intros Hw. assert (Hall : load_bounded (run cs initial_jobs)); [|by apply Hall].
  assert (H0 : load_bounded initial_jobs) by done. revert H0. generalize initial_jobs.
  induction cs as [|c cs IH]; intros s Hs; cbn; [done|]. apply IH.
  assert (Hrun := run_moves date_parse hosted locale_leb cloudAgents provisioner JSON_parse c s). revert Hrun.
  generalize (run1 c s). intros s' Hrun. induction Hrun as [|x y z Hxy _ IHs]; [done|]. by eapply IHs, advance_load.
Qed.

(** C9: a call on jobs, whatever it returns or throws, is a sequence of steps of the machine
    of [JobSteps], each allowed to its caller at its time; an approval is decided only by a
    call that decides it, and as that call says. *)
Theorem calls_take_steps c s : rtc (job_step (caller c) (decision c) (call_time c)) s (run1 c s).
Proof. apply run_moves. Qed.

(** A job stays, with its request; a terminal one as it is. *)
Definition kept_job (row row' : JobRow) : Prop :=
  (isTerminalJobState (jb_state row) = true → row' = row) ∧ jb_source_enrollment_id row' = jb_source_enrollment_id row ∧
  jb_request_id row' = jb_request_id row ∧ jb_payload_hash row' = jb_payload_hash row.

Lemma kept_job_trans r1 r2 r3 : kept_job r1 r2 → kept_job r2 r3 → kept_job r1 r3.
Proof.
  intros (H1 & H2 & H3 & H4) (K1 & K2 & K3 & K4). split_and!; [|congruence..]. intros Ht. specialize (H1 Ht). subst. auto.
Qed.

Lemma rtc_row who what now s s' id row : rtc (job_step who what now) s s' → jd_jobs s !! id = Some row →
  ∃ row', jd_jobs s' !! id = Some row' ∧ kept_job row row'.
Proof.
  intros H. revert row. induction H as [|x y z Hxy _ IH]; intros row Hr; [by exists row|].
  destruct (advance_row _ _ _ _ _ _ _ Hxy Hr) as (r1 & Hr1 & Hm). destruct (IH _ Hr1) as (r2 & Hr2 & Hk). exists r2.
  split; [done|]. eapply kept_job_trans; [|exact Hk]. destruct (moved_request _ _ Hm) as (? & ? & ? & _). split_and!; [|done..].
  intros Ht. by apply moved_terminal.
Qed.

Lemma run_row cs s id row : jd_jobs s !! id = Some row → ∃ row', jd_jobs (run cs s) !! id = Some row' ∧ kept_job row row'.
Proof.
  revert s row. induction cs as [|c cs IH]; intros s row Hr; [by exists row|].
  destruct (rtc_row _ _ _ _ _ _ _ (run_moves date_parse hosted locale_leb cloudAgents provisioner JSON_parse c s) Hr) as (r1 & Hr1 & Hk).
  destruct (IH _ _ Hr1) as (r2 & Hr2 & Hk2). exists r2. split; [done|]. by eapply kept_job_trans.
Qed.

(** Once a job is completed, failed or cancelled its row never changes again: not its state,
    nor its reason, nor the time at which it ended.  (The archive of sealed inputs, which
    later moves a column of such a row to object storage, is not modelled.) *)
Theorem terminal_jobs_final cs s id row : jd_jobs s !! id = Some row → isTerminalJobState (jb_state row) = true →
  jd_jobs (run cs s) !! id = Some row.
Proof. intros Hr Ht. destruct (run_row cs _ _ _ Hr) as (r & Hr' & He & _). by rewrite Hr', (He Ht). Qed.

(** C16: a job that waits for approval runs again only by a call that approves: the call is a
    decision that approves an approval of the job which is pending, not past its expiry and
    bound to the job's current attempt, by a device that is not the attempt's worker and is
    the approver if one is named; and that approval is then approved by that device. *)
Theorem approval_gate cs c id row row' : Forall genuine cs → genuine c →
  jd_jobs (run cs initial_jobs) !! id = Some row → jb_state row = job_awaiting_approval →
  jd_jobs (run1 c (run cs initial_jobs)) !! id = Some row' → jb_state row' = job_running →
  ∃ now auth params d p a,
    c = call_decide now auth params ∧ parseApprovalDecideParams params = Ok d ∧ ad_approved d = true ∧
    pend_of (run cs initial_jobs) id (ad_approvalId d) p ∧ now < apr_expires_at p ∧
    jb_active_attempt_id row = Some (apr_attempt_id p) ∧
    att_of (run cs initial_jobs) id (apr_attempt_id p) a ∧ apr_generation p = att_fence a ∧
    sa_enrollmentId auth ≠ att_worker_enrollment_id a ∧
    (∀ approver, apr_approver_enrollment_id p = Some approver → sa_enrollmentId auth = approver) ∧
    jd_approvals (run1 c (run cs initial_jobs)) !! ad_approvalId d =
      Some (with_approval_state ap_approved (Some (sa_enrollmentId auth)) now p).
Proof.
  intros Hg Hc Hr Hst Hr' Hrun. pose proof (calls_sound _ _ Hg sound_initial) as Hs.
  destruct (gate_chain _ _ _ _ _ _ _ _ Hc Hs (run_moves _ _ _ _ _ _ _ _) Hr Hst Hr' Hrun)
    as (e & pid & p & He & Hd & (Hp & Hexp & a & Ha & Hfence & Hw & Happr) & Hafter).
  destruct c; cbn in He, Hd; try discriminate Hd. injection He as <-.
  destruct (parseApprovalDecideParams params) as [d|] eqn:Hparse; [|done]. injection Hd as <- Hok.
  exists now, auth, params, d, p, a. split_and!; try done.
  eapply pending_current; [by eapply so_job|rewrite Hst; right; by left|done].
Qed.

(** C37: a running job whose attempt the sweep marked as of unknown outcome, its lease having
    lapsed, never ends: no report, cancellation, decision or sweep makes it terminal, though
    the comment says that a report or a cancellation reconciles it. *)
Theorem stranded_never_ends cs ds id aid : Forall genuine cs → Forall genuine ds → stranded id aid (run cs initial_jobs) →
  ∃ row, jd_jobs (run ds (run cs initial_jobs)) !! id = Some row ∧
    (jb_state row = job_running ∨ jb_state row = job_cancel_requested).
Proof.
  intros Hcs Hds Hst. assert (H : jobs_sound (run ds (run cs initial_jobs)) ∧ stranded id aid (run ds (run cs initial_jobs))).
  { apply (calls_preserve _ _ _ _ _ _ (λ s, jobs_sound s ∧ stranded id aid s)); [|done|split; [by apply calls_sound|done]].
    intros who what now s s' Hw Hstep [Hs Hx]. split; [by eapply advance_sound|by eapply stranded_stays]. }
  destruct H as [_ (row & a & Hr & Hstate & _)]. by exists row.
Qed.

Lemma worker_Ok auth s w s' : requireWorker auth s = (Ok w, s') → jd_workers s !! sa_enrollmentId auth = Some w ∧ s' = s.
Proof.
  intros H. unfold requireWorker in H. step_back H row s1 H1. injection H1 as Hw <-. destruct row as [r|]; [|done].
  repeat case_match; try done. by injection H as <- <-.
Qed.

(** The report is for the attempt as it is, from the worker's current incarnation. *)
Definition current_report (w : WorkerRow) (report : ParsedAttemptReport) (a : AttemptRow) : Prop :=
  att_worker_incarnation a = rep_incarnation report ∧ att_fence a = rep_fence report ∧
  wk_incarnation w = Some (rep_incarnation report) ∧ isActiveAttemptState (att_state a) = true.

Lemma current_report_spec w report a :
  is_stale w report a || negb (isActiveAttemptState (att_state a)) = false ↔ current_report w report a.
Proof.
  unfold is_stale, current_report. rewrite !orb_false_iff, !negb_false_iff, String.eqb_eq, Z.eqb_eq, bool_decide_eq_true.
  split; [intros [[[Hi ?] ?] ?]|intros (Hi & ? & ? & ?)]; split_and!; congruence.
Qed.

Lemma settle_ends now id a b row outcome s u s' :
  jd_attempts s !! id = Some b → isActiveAttemptState (att_state a) = true → settle_job now id a row outcome s = (Ok u, s') →
  ∃ c, jd_attempts s' !! id = Some c ∧ attempt_ended (att_state c).
Proof.
  intros Hb Hon H.
  assert (Hstep : ∀ ast jst x, attempt_ended ast → (_ ← setAttemptState id a ast now; setJobState (att_job_id a) row jst now x) s = (Ok u, s') →
    ∃ c, jd_attempts s' !! id = Some c ∧ attempt_ended (att_state c)).
  { intros ast jst x He H'. step_back H' v s1 H1. apply setJobState_Ok in H' as (_ & _ & -> & _).
    eapply setAttemptState_Ok in H1 as (_ & _ & [[Hs _]|[_ ->]]); [|by rewrite lookup_insert_eq; eexists|exact Hb].
    rewrite Hs in Hon. by destruct He as [He|[He|He]]; rewrite He in Hon. }
  unfold settle_job in H. cbv zeta in H. unfold attempt_ended in Hstep. repeat (case_bool_decide || case_match);
    (eapply Hstep; [|exact H]); auto.
Qed.

(** C17: an answered report decides an attempt only if it carries the attempt's fence and its worker's
    current incarnation and the attempt is still active, and then ends it, so that a second
    one does not; any other answered report leaves jobs, approvals and every other attempt alone, and
    is kept beside the attempt's outcome. *)
Theorem reports_fenced now auth params s status row att s' : handleAttemptReport now auth params s = (Ok (status, row, att), s') →
  ∃ report w a, parseAttemptReportParams params = Ok report ∧ jd_workers s !! sa_enrollmentId auth = Some w ∧
    jd_attempts s !! rep_attemptId report = Some a ∧ att_worker_enrollment_id a = sa_enrollmentId auth ∧
    match status with
    | report_applied => current_report w report a ∧
        ∃ b, jd_attempts s' !! rep_attemptId report = Some b ∧ attempt_ended (att_state b)
    | report_late => ¬ current_report w report a ∧ jd_jobs s' = jd_jobs s ∧ jd_approvals s' = jd_approvals s ∧
        jd_attempts s' = <[rep_attemptId report := with_late_result {| lr_outcome := rep_outcome report;
          lr_result := rep_result report; lr_error := rep_error report; lr_reportedAt := now |} now a]> (jd_attempts s)
    end.
Proof.
  intros H. unfold handleAttemptReport in H. step_back H report s1 H1. apply from_outcome_Ok in H1 as [Hp ->].
  step_back H w s1 H1. apply worker_Ok in H1 as [Hw ->]. apply commit_Ok in H. unfold reportAttempt in H. cbv zeta in H.
  step_back H at_ s1 H1. injection H1 as <- <-. step_back H a s1 H1. apply required_Ok in H1 as [Ha ->].
  destruct (String.eqb_spec (att_worker_enrollment_id a) (sa_enrollmentId auth)) as [Hown|]; [|done]. cbn [negb] in H.
  step_back H r s1 H1. apply job_Ok in H1 as [Hr ->]. exists report, w, a.
  pose proof (current_report_spec w report a) as Hspec. destruct (_ || _) eqn:Hlate.
  - step_back H x s1 H1. injection H1 as _ <-. step_back H b s1 H1. apply attempt_Ok in H1 as [_ ->]. injection H as <- _ _ <-.
    split_and!; [done..| |done|done|by apply alter_some]. by intros ?%Hspec.
  - step_back H x1 s1 H1. injection H1 as _ <-. step_back H x2 s2 H2. step_back H x3 s3 H3. injection H3 as _ <-.
    step_back H x4 s4 H4. assert (Hs4 : jd_attempts s4 = jd_attempts s2) by (unfold on_sync in H4; by destruct (bumpCounter _ _ _) in H4; injection H4 as _ <-).
    step_back H j s5 H5. apply job_Ok in H5 as [_ ->]. step_back H b s5 H5. apply attempt_Ok in H5 as [Hb ->].
    injection H as <- _ _ <-. destruct Hspec as [Hcur _]. specialize (Hcur eq_refl). split_and!; [done..|].
    rewrite Hs4. eapply settle_ends; [|apply Hcur|exact H2]. cbn. by rewrite (alter_some _ _ _ _ Ha), lookup_insert_eq.
Qed.

(** A transaction that cannot return changes nothing. *)
Lemma refused {A} (m : J A) s : (∀ a s', m s ≠ (Ok a, s')) → ∃ e, commit m s = (Throw e, s).
Proof. intros Hm. unfold commit. destruct (m s) as [[a|e] s'] eqn:H; [by destruct (Hm a s')|by exists e]. Qed.

(** The settlement of a cancelled job does not return. *)
Lemma settle_cancelled now id a row outcome s u s' : jb_state row = job_cancelled → settle_job now id a row outcome s ≠ (Ok u, s').
Proof.
  intros Hst H. unfold settle_job in H. rewrite Hst in H. cbn in H.
  repeat case_match; step_back H x s1 Hset; apply setJobState_Ok in H as (Hc & _); by rewrite Hst in Hc.
Qed.

(** A report for an attempt of a cancelled job that is still current. *)
Lemma cancelled_report now auth params report s w a row :
  parseAttemptReportParams params = Ok report → jd_workers s !! sa_enrollmentId auth = Some w →
  jd_attempts s !! rep_attemptId report = Some a → jd_jobs s !! att_job_id a = Some row →
  current_report w report a → jb_state row = job_cancelled → ∃ e, handleAttemptReport now auth params s = (Throw e, s).
Proof.
  intros Hp Hw Ha Hr Hcur Hst. unfold handleAttemptReport. rewrite Hp. rewrite (bind_run _ _ _ report s) by done.
  pose proof (reads_worker auth s) as Hsame. destruct (requireWorker auth s) as [[w'|e] s1] eqn:Hreq; cbn in Hsame; subst s1;
    [|exists e; unfold mbind, M_bind; by rewrite Hreq].
  rewrite (bind_run _ _ _ _ _ Hreq). apply worker_Ok in Hreq as [Hw' _]. assert (w' = w) as -> by congruence. apply refused. intros v s' H. unfold reportAttempt in H. cbv zeta in H.
  step_back H at_ s1 H1. injection H1 as <- <-. step_back H a1 s1 H1. apply required_Ok in H1 as [Ha1 ->].
  assert (a1 = a) as -> by congruence. destruct (negb _); [done|].
  step_back H r s1 H1. apply job_Ok in H1 as [Hr1 ->]. assert (r = row) as -> by congruence.
  rewrite (proj2 (current_report_spec w report a) Hcur) in H. step_back H x1 s1 H1. step_back H x2 s2 H2.
  by eapply settle_cancelled.
Qed.

(** Jobs that are not queued and all attempts stay. *)
Definition overdue_only (s s' : JobDb) : Prop :=
  jd_attempts s' = jd_attempts s ∧
  ∀ id row, jd_jobs s !! id = Some row → jb_state row ≠ job_queued → jd_jobs s' !! id = Some row.

#[export] Instance overdue_only_preorder : PreOrder overdue_only.
Proof. split; [by split|]. intros x y z [H1 H2] [K1 K2]. split; [congruence|auto]. Qed.

Lemma same_tables_overdue {A} (m : J A) : moves same_tables m → moves_ok overdue_only m.
Proof. intros Hm. apply moves_moves_ok. intros s. destruct (Hm s) as (Hj & Ha & _). split; [done|]. by rewrite Hj. Qed.

Lemma expire_overdue_only now : moves_ok overdue_only (expireQueuedJobs now).
Proof.
  apply moves_ok_bind; [apply _|by apply moves_ok_reads; [apply _|]|]. intros rows.
  apply moves_ok_bind; [apply _| |intros ?; cbv zeta; apply moves_ok_bind; [apply _| |intros ?; by apply moves_ok_reads; [apply _|]]].
  - apply moves_for_each; [apply _|]. intros p b _ s u s' H. unfold expire_job in H. step_back H job s1 H1.
    injection H1 as <- <-. destruct (jd_jobs s !! p.1) as [row|] eqn:Hr; [|by injection H as _ <-].
    destruct (bool_decide_reflect (jb_state row = job_queued)); [|by injection H as _ <-].
    apply (setJobState_row _ _ _ _ _ _ _ _ Hr) in H as (_ & Hj & Ha & _). split; [done|]. intros id r Hr' Hst.
    rewrite Hj, lookup_insert_ne; [done|]. intros He. congruence.
  - destruct (0 <? _); [apply same_tables_overdue, keep_sync|by apply moves_ok_reads; [apply _|]].
Qed.

Lemma cancelPending_overdue_only now id except : moves_ok overdue_only (cancelPendingApprovals now id except).
Proof.
  apply moves_ok_bind; [apply _|by apply moves_ok_reads; [apply _|]|]. intros rows. cbv zeta.
  apply moves_ok_bind; [apply _| |intros ?].
  - apply moves_for_each; [apply _|]. intros p b _. apply moves_ok_bind; [apply _| |intros ?].
    + by intros s u s' [= _ <-].
    + apply same_tables_overdue; unfold journal_decided; apply journal_keeps.
  - destruct (0 <? _); [apply same_tables_overdue, keep_sync|by apply moves_ok_reads; [apply _|]].
Qed.

(** Cancelling a job that waits for approval leaves every attempt as it is. *)
Lemma cancel_waiting now params id row s job s' :
  parseJobIdParams params = Ok id → jd_jobs s !! id = Some row → jb_state row = job_awaiting_approval →
  handleJobCancel now params s = (Ok job, s') →
  jd_attempts s' = jd_attempts s ∧ jd_jobs s' !! id = Some job ∧ jb_state job = job_cancelled.
Proof.
  intros Hp Hr Hst H. unfold handleJobCancel in H. rewrite Hp in H. step_back H x s1 H1. injection H1 as <- <-.
  apply commit_Ok in H. unfold cancelJob in H. step_back H n s1 H1. apply expire_overdue_only in H1 as [Ha1 Hj1].
  specialize (Hj1 _ _ Hr). rewrite Hst in Hj1. step_back H o s2 H2. injection H2 as <- <-. rewrite Hj1 in H by done.
  step_back H r s2 H2. injection H2 as <- <-. step_back H st s2 H2. unfold cancel_transition in H2. rewrite Hst in H2.
  rewrite bool_decide_true in H2 by set_solver. step_back H2 u s3 H3. injection H2 as <- <-.
  apply (setJobState_row _ row) in H3 as (_ & Hj3 & Ha3 & _); [|by apply Hj1].
  step_back H u2 s4 H4. rewrite bool_decide_true in H4 by set_solver. apply cancelPending_overdue_only in H4 as [Ha4 Hj4].
  step_back H u3 s5 H5. assert (Hk : same_tables s4 s5) by (pose proof (keep_sync (bumpCounter "job_cancels" 1) s4) as Hk; by rewrite H5 in Hk).
  destruct Hk as (Hj5 & Ha5 & _). apply job_Ok in H as [Hj ->]. rewrite Hj5 in Hj |- *.
  rewrite Ha5, Ha4, Ha3, Ha1. split; [done|]. split; [done|].
  rewrite (Hj4 id (with_job_state job_cancelled now (released (Some "cancelled")) row)) in Hj;
    [by injection Hj as <-|by rewrite Hj3, lookup_insert_eq|done].
Qed.

(** Attempts keep their job, whatever calls are made. *)
Lemma run_attempt cs s aid a : jd_attempts s !! aid = Some a →
  ∃ b, jd_attempts (run cs s) !! aid = Some b ∧ same_claim a b.
Proof.
  revert s a. induction cs as [|c cs IH]; intros s a Ha; [by exists a|].
  assert (Hone : ∃ b, jd_attempts (run1 c s) !! aid = Some b ∧ same_claim a b).
  { pose proof (run_moves date_parse hosted locale_leb cloudAgents provisioner JSON_parse c s) as H. revert a Ha.
    induction H as [|x y z Hxy _ IHs]; intros a Ha; [by exists a|].
    destruct (advance_attempt _ _ _ _ _ _ _ Hxy Ha) as (b & Hb & Hk). destruct (IHs _ Hb) as (c' & Hc' & Hk').
    exists c'. split; [done|]. destruct Hk as (? & ? & ?), Hk' as (? & ? & ?). split_and!; congruence. }
  destruct Hone as (b & Hb & Hk). destruct (IH _ _ Hb) as (b' & Hb' & Hk'). exists b'. split; [done|].
  destruct Hk as (? & ? & ?), Hk' as (? & ? & ?). split_and!; congruence.
Qed.

(** C38: cancelling a job that waits for approval makes the job cancelled and leaves its
    current attempt exactly as it was, active if it was, though the comment on the
    transitions says that nothing is running yet; and from then on, whatever calls are made,
    a report of that attempt by its worker, while it is current (same incarnation and fence,
    the attempt still active), is refused and leaves no trace, not even as a late result. *)
Theorem cancelled_report_lost cs ds now params id row job s' : Forall genuine cs →
  jd_jobs (run cs initial_jobs) !! id = Some row → jb_state row = job_awaiting_approval → parseJobIdParams params = Ok id →
  handleJobCancel now params (run cs initial_jobs) = (Ok job, s') →
  ∃ aid a, jb_active_attempt_id row = Some aid ∧ att_of (run cs initial_jobs) id aid a ∧ ¬ attempt_ended (att_state a) ∧
    jd_jobs s' !! id = Some job ∧ jb_state job = job_cancelled ∧ jd_attempts s' !! aid = Some a ∧
    ∀ now' auth params' report w b,
      parseAttemptReportParams params' = Ok report → rep_attemptId report = aid →
      jd_workers (run ds s') !! sa_enrollmentId auth = Some w → jd_attempts (run ds s') !! aid = Some b →
      current_report w report b → ∃ e, handleAttemptReport now' auth params' (run ds s') = (Throw e, run ds s').
Proof.
  intros Hcs Hr Hst Hp H. destruct (cancel_waiting _ _ _ _ _ _ _ Hp Hr Hst H) as (Ha & Hj & Hjst).
  destruct (js_current _ _ _ (so_job _ (calls_sound _ _ Hcs sound_initial) _ _ Hr)) as (aid & a & Hcur & Hatt & _ & Hend);
    [rewrite Hst; right; by left|].
  assert (Ha' : jd_attempts s' !! aid = Some a) by (rewrite Ha; apply Hatt).
  exists aid, a. split_and!; try done. intros now' auth params' report w b Hparse Hid Hw Hb Hcurrent.
  destruct (run_attempt ds _ _ _ Ha') as (b' & Hb' & Hjob & _). assert (b' = b) as -> by congruence.
  destruct (run_row ds _ _ _ Hj) as (row2 & Hr2 & Hfinal & _). rewrite Hjst in Hfinal. specialize (Hfinal eq_refl). subst row2.
  eapply cancelled_report; [exact Hparse|exact Hw|by rewrite Hid| |exact Hcurrent|exact Hjst].
  rewrite Hjob. by destruct Hatt as [_ ->].
Qed.

(** A claim of a queued job past its deadline is refused and leaves the job queued: the
    transition to failed that the code makes first is rolled back with the transaction. *)
Theorem late_claim_changes_nothing now uuid auth params s w jobId row :
  parseJobIdParams params = Ok jobId → requireWorker auth s = (Ok w, s) → isLeaseLive w now = true →
  jd_jobs s !! jobId = Some row → jb_account_id row = sa_accountId auth → jb_state row = job_queued →
  jb_queue_deadline row <= now → ∃ e, handleJobClaim locale_leb now uuid auth params s = (Throw e, s).
Proof.
  intros Hp Hw Hlive Hr Hacc Hq Hd. unfold handleJobClaim. rewrite Hp. rewrite (bind_run _ _ _ jobId s) by done.
  rewrite (bind_run _ _ _ _ _ Hw). rewrite (bind_run _ _ _ tt s) by (unfold requireLiveIncarnation, ensure; by rewrite Hlive).
  apply refused. intros v s' H. unfold claimJob in H. step_back H job s1 H1. injection H1 as <- <-. rewrite Hr in H.
  rewrite (bind_run _ _ _ row s) in H by done. rewrite Hacc, String.eqb_refl, bool_decide_true in H by done.
  apply Z.leb_le in Hd. rewrite Hd in H. cbn [negb andb] in H. by step_back H x s1 H1.
Qed.

(** A worker that asks for an approval again is never told of the pending one: a pending
    approval means that the job is not running, which is checked first. *)
Theorem approval_never_deduplicated cs now uuid auth attemptId generation kind text ack s' : Forall genuine cs →
  handleControlFrame JSON_parse now uuid auth attemptId generation kind text (run cs initial_jobs) = (Ok ack, s') →
  ack_deduplicated ack = false.
Proof.
  intros Hg H. pose proof (calls_sound _ _ Hg sound_initial) as Hs. revert Hs H. generalize (run cs initial_jobs). intros s Hs H.
  apply commit_Ok in H. unfold controlFrame in H. step_back H at_ s1 H1. injection H1 as <- <-.
  step_back H a s1 H1. apply required_Ok in H1 as [Ha ->]. step_back H r s1 H1. apply job_Ok in H1 as [Hr ->].
  do 2 (step_back H x s1 H1; apply ensure_Ok in H1 as [_ ->]; clear x). step_back H w s1 H1. injection H1 as <- <-.
  destruct (jd_workers s !! _); [|done]. do 4 (step_back H x s1 H1; apply ensure_Ok in H1 as [_ ->]; clear x).
  unfold handleControlMessage in H. step_back H x s1 H1. apply from_outcome_Ok in H1 as [_ ->].
  step_back H q s1 H1. apply from_outcome_Ok in H1 as [_ ->].
  destruct (bool_decide_reflect (jb_state r = job_running)) as [Hrun|]; [|done]. cbn [negb] in H. step_back H p s1 H1.
  injection H1 as Hp <-. destruct p as [[id p]|].
  - exfalso. unfold readPendingApproval in Hp. apply find_some in Hp as [Hin Hpend].
    apply list_elem_of_In, elem_of_map_to_list in Hin. unfold pending_for in Hpend. cbn in Hpend. reflect_bools.
    destruct (so_approval _ Hs _ _ Hin) as [row Hrow]; [done|].
    destruct (js_pending _ _ _ (so_job _ Hs _ _ Hrow) id p) as (Hnr & _ & b & [Hb Hbj] & _); [done|].
    congruence.
  - cbv zeta in H. step_back H x1 s1 H1. step_back H x2 s2 H2. step_back H x3 s3 H3. step_back H x4 s4 H4. by injection H as <- _.
Qed.

Notation create := (handleJobCreate date_parse hosted locale_leb cloudAgents provisioner).

(** The job a caller's request stands for. *)
Definition requested (auth : SpikeAuth) (params : JobCreateParams) (row : JobRow) : Prop :=
  jb_source_enrollment_id row = sa_enrollmentId auth ∧ jb_request_id row = jc_requestId params ∧
  jb_payload_hash row = jc_payloadHash params.

Lemma by_request_some source requestId s id row : readJobByRequest source requestId s = Some (id, row) →
  jd_jobs s !! id = Some row ∧ jb_source_enrollment_id row = source ∧ jb_request_id row = requestId.
Proof.
  intros H. apply find_some in H as [Hin%list_elem_of_In%elem_of_map_to_list Hb]. unfold by_request in Hb. cbn in Hb.
  by reflect_bools.
Qed.

(** The only row of a request is found. *)
Lemma by_request_found s id row : jobs_sound s → jd_jobs s !! id = Some row →
  readJobByRequest (jb_source_enrollment_id row) (jb_request_id row) s = Some (id, row).
Proof.
  intros Hs Hr. destruct (readJobByRequest _ _ s) as [[k r]|] eqn:H; [|by destruct (by_request_none _ _ _ _ _ H Hr)].
  apply by_request_some in H as (Hk & H1 & H2). assert (k = id) as -> by (by eapply (so_request _ Hs)). congruence.
Qed.

Lemma create_Ok now uuid auth params s id row s' : create now uuid auth params s = (Ok (id, row), s') →
  ∃ p, parseJobCreateParams date_parse params = Ok p ∧ jd_jobs s' !! id = Some row ∧ requested auth p row.
Proof.
  intros H. unfold handleJobCreate in H. step_back H p s1 H1. apply from_outcome_Ok in H1 as [Hp ->]. exists p. split; [done|].
  destruct (match jc_queueDeadline p with None => _ | Some _ => _ end) as [d|]; [|done]. destruct (_ || _); [done|].
  step_back H replay s1 H1. injection H1 as <- <-. cbv zeta in H. step_back H x s1 H1. clear H1.
  apply commit_Ok in H. unfold createJob in H. step_back H y s2 H2. injection H2 as _ <-. step_back H found s2 H2.
  injection H2 as Hex <-. destruct found as [[k r]|].
  - destruct (String.eqb_spec (jb_payload_hash r) (jc_payloadHash p)) as [Hh|]; [|done]. injection H as <- <- <-.
    apply by_request_some in Hex as (? & ? & ?). by split_and!.
  - step_back H x1 s2 H2. step_back H x2 s3 H3. step_back H t s4 H4. step_back H pl s5 H5. step_back H x3 s6 H6.
    step_back H x4 s7 H7. step_back H x5 s8 H8. step_back H job s9 H9. apply job_Ok in H9 as [Hj ->]. injection H as <- <- <-.
    split; [done|]. unfold on_sync in H8. destruct (bumpCounter _ _ _) in H8. injection H8 as _ <-. cbn in Hj.
    match type of H7 with journalDurableEvent ?a ?b ?c ?d ?e ?f ?st = _ => pose proof (journal_keeps a b c d e f st) as Hk end.
    rewrite H7 in Hk. destruct Hk as (Hk & _). cbn [snd] in Hk. rewrite Hk in Hj. unfold insert_job in H6.
    step_back H6 tk sa Ha. injection Ha as <- <-. step_back H6 u sb Hb. apply ensure_Ok in Hb as [_ ->]. unfold insert_row in H6.
    destruct (jd_jobs s5 !! uuid); [done|]. injection H6 as _ <-. cbn in Hj. rewrite lookup_insert_eq in Hj. by injection Hj as <-.
Qed.

(** A deadline the request may still have at [now]. *)
Definition in_time (now : Z) (p : JobCreateParams) : Prop :=
  match jc_queueDeadline p with
  | None => True
  | Some d => ∃ t, date_parse d = Some t ∧ now < t <= now + MAX_QUEUE_DEADLINE_HORIZON_MS
  end.

(** A request whose deadline has passed is refused. *)
Lemma create_late now uuid auth params p s : parseJobCreateParams date_parse params = Ok p → ¬ in_time now p →
  create now uuid auth params s = (Throw (malformed "queueDeadline"), s).
Proof.
  intros Hp Hlate. unfold handleJobCreate. rewrite Hp. rewrite (bind_run _ _ _ p s) by done. unfold in_time in Hlate.
  destruct (jc_queueDeadline p) as [d|]; [|done]. destruct (date_parse d) as [t|]; [|done].
  destruct (_ || _) eqn:Hb; [done|]. apply orb_false_iff in Hb as [Hb1%Z.leb_gt Hb2%Z.ltb_ge]. exfalso. apply Hlate.
  exists t. split; [done|lia].
Qed.

(** C18: [job.create] is idempotent while the request's own deadline lasts.  A request that
    created a job, sent again after whatever other calls: if it names no queue deadline, or
    one that is still ahead and within the horizon, the answer is that job as it is then,
    whatever id it would have had, and nothing is created; otherwise, the deadline
    it names having passed, the same request is refused as malformed and changes nothing, for the deadline is
    checked before the job is looked up, though the contract calls creation idempotent on
    the request's id and payload hash. *)
Theorem create_once cs ds now uuid auth params id row s' now' uuid' :
  Forall genuine cs → Forall genuine ds → sa_enrollmentId auth ≠ MANAGED_PROVISIONER_ENROLLMENT →
  create now uuid auth params (run cs initial_jobs) = (Ok (id, row), s') →
  ∃ p, parseJobCreateParams date_parse params = Ok p ∧
    (in_time now' p → ∃ row' s2, create now' uuid' auth params (run ds s') = (Ok (id, row'), s2) ∧
       jd_jobs (run ds s') !! id = Some row' ∧ same_tables (run ds s') s2) ∧
    (¬ in_time now' p → create now' uuid' auth params (run ds s') = (Throw (malformed "queueDeadline"), run ds s')).
Proof.
  intros Hcs Hds Hauth H. pose proof (create_Ok _ _ _ _ _ _ _ _ H) as (p & Hp & Hr & Hreq). exists p. split; [done|].
  split; [intros Hin|by apply create_late].
  assert (Hs : jobs_sound (run ds s')).
  { apply calls_sound; [done|]. assert (s' = run1 (call_create now uuid auth params) (run cs initial_jobs)) as -> by (cbn; by rewrite H).
    apply (calls_sound [call_create now uuid auth params]); [|by apply calls_sound]. constructor; [|done].
    unfold genuine. cbn. congruence. }
  destruct (run_row ds _ _ _ Hr) as (r & Hr' & _ & K1 & K2 & K3). destruct Hreq as (R1 & R2 & R3).
  pose proof (by_request_found _ _ _ Hs Hr') as Hfound. rewrite K1, K2, R1, R2 in Hfound.
  exists r, (put_sync (provisionEnrollment now' auth (jd_sync (run ds s'))).2 (run ds s')). split_and!; [|done|done].
  unfold handleJobCreate. rewrite Hp. rewrite (bind_run _ _ _ p (run ds s')) by done.
  assert (Hd : ∃ d, match jc_queueDeadline p with None => Some (now' + USER_JOB_DEADLINE_MS) | Some d => date_parse d end = Some d ∧
    (d <=? now') || (now' + MAX_QUEUE_DEADLINE_HORIZON_MS <? d) = false).
  { unfold in_time in Hin. destruct (jc_queueDeadline p) as [d|].
    - destruct Hin as (t & Ht & Hb). exists t. split; [done|]. apply orb_false_iff. split; [apply Z.leb_gt|apply Z.ltb_ge]; lia.
    - eexists. split; [done|]. unfold USER_JOB_DEADLINE_MS, MAX_QUEUE_DEADLINE_HORIZON_MS. apply orb_false_iff.
      split; [apply Z.leb_gt|apply Z.ltb_ge]; lia. }
  destruct Hd as (d & -> & ->). rewrite (bind_run _ _ _ (Some (id, r)) (run ds s')) by (unfold gets; by rewrite Hfound). cbv zeta.
  rewrite (bool_decide_false (Some (id, r) = None)), andb_false_r by done. rewrite (bind_run _ _ _ tt (run ds s')) by done.
  unfold commit, createJob. erewrite bind_run by done. cbn [snd].
  match goal with |- context [(gets ?f ≫= ?k) ?st] =>
    rewrite (bind_run (gets f) k st (Some (id, r)) st) by (unfold gets; f_equal; f_equal; exact Hfound) end.
  by rewrite K3, R3, String.eqb_refl.
Qed.
End Properties.

(** ** The theorems at concrete calls *)

Lemma genuine_fixtures : Forall genuine retried_job ∧ Forall genuine waiting_job ∧ Forall genuine lost_job.
Proof. split_and!; repeat (constructor; [by vm_compute|]); constructor. Qed.

(** What a computed table holds, read off a computed view of one of its rows. *)
Lemma row_with {A B} (f : A → B) (o : option A) b : f <$> o = Some b → ∃ a, o = Some a ∧ f a = b.
Proof. intros (a & -> & ->)%fmap_Some_1. eauto. Qed.

Lemma jobs_consistent_witness : ∃ row, jd_jobs (run_jobs retried_job initial_jobs) !! "job" = Some row ∧
  ∀ aid a, att_of (run_jobs retried_job initial_jobs) "job" aid a → isActiveAttemptState (att_state a) = true → aid = "second".
Proof.
  destruct (row_with jb_state (jd_jobs (run_jobs retried_job initial_jobs) !! "job") job_running) as (row & Hr & _);
    [by vm_compute|].
  destruct (row_with (λ a, (att_job_id a, att_state a)) (jd_attempts (run_jobs retried_job initial_jobs) !! "second")
    ("job", at_claimed)) as (b & Hb & Hst); [by vm_compute|]. injection Hst as Hid Hst.
  exists row. split; [exact Hr|]. intros aid a Ha Hon.
  destruct (jobs_consistent fixture_date false str_leb false false fixture_control retried_job "job" row) as (Hone & _);
    [apply genuine_fixtures|exact Hr|].
  apply (Hone aid "second" a b); [exact Ha|split; [exact Hb|exact Hid]|exact Hon|by rewrite Hst].
Defined.

Lemma attempts_bounded_witness :
  Z.of_nat (size (filter (λ p, att_job_id p.2 = "job") (jd_attempts (run_jobs retried_job initial_jobs)))) <= 2.
Proof.
  destruct (row_with jb_retry_policy (jd_jobs (run_jobs retried_job initial_jobs) !! "job") retry_safe) as (row & Hr & Hs);
    [by vm_compute|].
  pose proof (attempts_bounded fixture_date false str_leb false false fixture_control retried_job "job" row) as H.
  rewrite (bool_decide_true _ Hs) in H. apply H; [apply genuine_fixtures|exact Hr].
Defined.

Lemma worker_load_bounded_witness : "worker" ≠ MANAGED_PROVISIONER_ENROLLMENT ∧
  countActiveAttempts (run_jobs retried_job initial_jobs) "worker" <= MAX_CONCURRENT_JOBS.
Proof. split; [done|]. by apply (worker_load_bounded fixture_date false str_leb false false fixture_control retried_job "worker"). Defined.

Lemma terminal_jobs_final_witness :
  jb_state <$> jd_jobs (run_jobs retried_job (run_jobs cancelled_job initial_jobs)) !! "job" = Some job_cancelled.
Proof.
  destruct (row_with jb_state (jd_jobs (run_jobs cancelled_job initial_jobs) !! "job") job_cancelled) as (row & Hr & Hs);
    [by vm_compute|].
  unfold run_jobs at 1. rewrite (terminal_jobs_final fixture_date false str_leb false false fixture_control retried_job _ "job" row);
    [cbn; by rewrite Hs|exact Hr|by rewrite Hs].
Defined.

Lemma approval_gate_witness : ∃ now auth params d,
  call_decide 1005 (device "phone") (decide_json "approval" "approved") = call_decide now auth params ∧
  parseApprovalDecideParams params = Ok d ∧ ad_approved d = true ∧
  apr_state <$> jd_approvals (run_jobs [call_decide now auth params] (run_jobs waiting_job initial_jobs)) !! ad_approvalId d = Some ap_approved.
Proof.
  pose (c := call_decide 1005 (device "phone") (decide_json "approval" "approved")).
  destruct (row_with jb_state (jd_jobs (run_jobs waiting_job initial_jobs) !! "job") job_awaiting_approval) as (row & Hr & Hs);
    [by vm_compute|].
  destruct (row_with jb_state (jd_jobs (run_jobs [c] (run_jobs waiting_job initial_jobs)) !! "job") job_running) as (row' & Hr' & Hs');
    [by vm_compute|].
  destruct (approval_gate fixture_date false str_leb false false fixture_control waiting_job c "job" row row')
    as (now & auth & params & d & p & a & Hc & Hp & Hok & _ & _ & _ & _ & _ & _ & _ & Hafter);
    [apply genuine_fixtures|done|exact Hr|exact Hs|exact Hr'|exact Hs'|].
  exists now, auth, params, d. split; [exact Hc|]. split; [exact Hp|]. split; [exact Hok|].
  change (jd_approvals (run_jobs [call_decide now auth params] (run_jobs waiting_job initial_jobs)))
    with (jd_approvals (run_job_call fixture_date false str_leb false false fixture_control (call_decide now auth params)
      (run_jobs waiting_job initial_jobs))).
  rewrite <- Hc. unfold run_jobs. rewrite Hafter. reflexivity.
Defined.

Lemma stranded_never_ends_witness : ∃ row, jd_jobs (run_jobs [call_report 2000000 (device "worker") (report_json "first" "completed" 1);
    call_cancel 2000001 (job_json "job")] (run_jobs lost_job initial_jobs)) !! "job" = Some row ∧
  (jb_state row = job_running ∨ jb_state row = job_cancel_requested).
Proof.
  destruct (row_with (λ r, (jb_state r, jb_active_attempt_id r)) (jd_jobs (run_jobs lost_job initial_jobs) !! "job")
    (job_running, Some "first")) as (row & Hr & Hs); [by vm_compute|]. injection Hs as Hs Hcur.
  destruct (row_with (λ a, (att_job_id a, att_state a)) (jd_attempts (run_jobs lost_job initial_jobs) !! "first")
    ("job", at_unknown_outcome)) as (a & Ha & Hst); [by vm_compute|]. injection Hst as Hid Hst.
  apply (stranded_never_ends fixture_date false str_leb false false fixture_control lost_job _ "job" "first");
    [apply genuine_fixtures|repeat (constructor; [done|]); constructor|].
  exists row, a. split; [exact Hr|]. split; [by left|]. split; [exact Hcur|]. split; [by split|exact Hst].
Defined.

Lemma reports_fenced_witness : ∃ status row att s',
  handleAttemptReport 1004 (device "worker") (report_json "first" "failed" 1) (run_jobs claimed_job initial_jobs)
    = (Ok (status, row, att), s') ∧ status = report_applied ∧
  ∃ b, jd_attempts s' !! "first" = Some b ∧ attempt_ended (att_state b).
Proof.
  destruct (handleAttemptReport 1004 (device "worker") (report_json "first" "failed" 1) (run_jobs claimed_job initial_jobs))
    as [[[[status row] att]|e] s'] eqn:H.
  - exists status, row, att, s'. split; [reflexivity|].
    assert (Hst : status = report_applied).
    { apply (f_equal (λ r, match r.1 with Ok (st, _, _) => Some st | Throw _ => None end)) in H. revert H. vm_compute. by intros [= <-]. }
    split; [exact Hst|]. destruct (reports_fenced _ _ _ _ _ _ _ _ H) as (report & w & a & Hp & _ & _ & _ & Hcase).
    rewrite Hst in Hcase. destruct Hcase as [_ Hb]. vm_compute in Hp. injection Hp as <-. exact Hb.
  - exfalso. apply (f_equal (λ r, match r.1 with Ok _ => true | Throw _ => false end)) in H. revert H. by vm_compute.
Defined.

Lemma parsed_report : ∃ report, parseAttemptReportParams (report_json "first" "completed" 1) = Ok report ∧
  rep_attemptId report = "first" ∧ rep_incarnation report = "inc" ∧ rep_fence report = 1.
Proof. eexists. split; [vm_compute; reflexivity|]. done. Qed.

(** The worker, its lease renewed meanwhile, reports what it did. *)
Lemma cancelled_report_lost_witness : ∃ job s' e,
  handleJobCancel 1005 (job_json "job") (run_jobs waiting_job initial_jobs) = (Ok job, s') ∧ jb_state job = job_cancelled ∧
  handleAttemptReport 1007 (device "worker") (report_json "first" "completed" 1) (run_jobs [call_job_sweep 1006] s')
    = (Throw e, run_jobs [call_job_sweep 1006] s').
Proof.
  destruct (row_with (λ r, (jb_state r, jb_active_attempt_id r)) (jd_jobs (run_jobs waiting_job initial_jobs) !! "job")
    (job_awaiting_approval, Some "first")) as (row & Hr & Hs); [by vm_compute|]. injection Hs as Hs Hcur.
  destruct (handleJobCancel 1005 (job_json "job") (run_jobs waiting_job initial_jobs)) as [[job|e] s'] eqn:H;
    [|exfalso; apply (f_equal (λ r, match r.1 with Ok _ => true | Throw _ => false end)) in H; revert H; by vm_compute].
  assert (Hs' : s' = (handleJobCancel 1005 (job_json "job") (run_jobs waiting_job initial_jobs)).2) by (by rewrite H).
  destruct (cancelled_report_lost fixture_date false str_leb false false fixture_control waiting_job [call_job_sweep 1006]
    1005 (job_json "job") "job" row job s') as (aid & a & Haid & _ & _ & _ & Hst & _ & Hlost);
    [apply genuine_fixtures|exact Hr|exact Hs|reflexivity|exact H|].
  assert (aid = "first") as -> by congruence.
  destruct (row_with (λ a, (att_worker_incarnation a, att_fence a, att_state a))
    (jd_attempts (run_jobs [call_job_sweep 1006] s') !! "first") ("inc", 1, at_claimed)) as (b & Hb & Hbst);
    [rewrite Hs'; by vm_compute|]. injection Hbst as Hi Hf Hact.
  destruct (row_with wk_incarnation (jd_workers (run_jobs [call_job_sweep 1006] s') !! "worker") (Some "inc")) as (w & Hw & Hinc);
    [rewrite Hs'; by vm_compute|].
  destruct parsed_report as (report & Hp & R1 & R2 & R3).
  destruct (Hlost 1007 (device "worker") (report_json "first" "completed" 1) report w b) as (e & He);
    [exact Hp|exact R1|exact Hw|exact Hb| |exists job, s', e; split; [reflexivity|split; [exact Hst|exact He]]].
  unfold current_report. rewrite R2, R3, Hact. split_and!; [exact Hi|exact Hf|exact Hinc|done].
Defined.

(** The claim comes eleven minutes after a creation with the usual deadline of ten. *)
Definition unclaimed_job : list JobCall := [
  call_policy 1000 (device "worker") worker_policy; call_create 1001 "job" laptop create_json;
  call_connect 661001 "inc" (device "worker")].

Lemma late_claim_changes_nothing_witness : ∃ e, handleJobClaim str_leb 661002 "first" (device "worker") (job_json "job")
  (run_jobs unclaimed_job initial_jobs) = (Throw e, run_jobs unclaimed_job initial_jobs).
Proof.
  destruct (row_with (λ r, (jb_account_id r, jb_state r, jb_queue_deadline r)) (jd_jobs (run_jobs unclaimed_job initial_jobs) !! "job")
    ("acc", job_queued, 601001)) as (row & Hr & Hs); [by vm_compute|]. injection Hs as Hacc Hst Hd.
  destruct (row_with (λ w, (wk_account_id w, wk_revoked_at w, dp_allowJobs (wk_policy w), isLeaseLive w 661002))
    (jd_workers (run_jobs unclaimed_job initial_jobs) !! "worker") ("acc", None, true, true)) as (w & Hw & Hok); [by vm_compute|].
  injection Hok as W1 W2 W3 W4.
  apply (late_claim_changes_nothing str_leb 661002 "first" (device "worker") (job_json "job") _ w "job" row);
    [done| |exact W4|exact Hr|exact Hacc|exact Hst|lia].
  unfold requireWorker, gets, mbind, M_bind. cbn [sa_enrollmentId device]. by rewrite Hw, W1, W2, W3.
Defined.

Lemma approval_never_deduplicated_witness : ∃ ack s', handleControlFrame fixture_control 1004 "approval" (device "worker") "first" 1
    "status" "{}" (run_jobs claimed_job initial_jobs) = (Ok ack, s') ∧ ack_deduplicated ack = false.
Proof.
  destruct (handleControlFrame fixture_control 1004 "approval" (device "worker") "first" 1 "status" "{}"
    (run_jobs claimed_job initial_jobs)) as [[ack|e] s'] eqn:H.
  - exists ack, s'. split; [reflexivity|].
    apply (approval_never_deduplicated fixture_date false str_leb false false fixture_control claimed_job 1004 "approval"
      (device "worker") "first" 1 "status" "{}" ack s'); [|exact H]. repeat (constructor; [by vm_compute|]); constructor.
  - exfalso. apply (f_equal (λ r, match r.1 with Ok _ => true | Throw _ => false end)) in H. revert H. by vm_compute.
Defined.

(** A request with a queue deadline of its own. *)
Definition due_json : json := JObj [
  ("requestId", JStr "q1"); ("payloadHash", JStr fixture_digest); ("kind", JStr "diagnostic");
  ("requestedTarget", JObj [("kind", JStr "auto")]); ("inputManifest", empty_manifest); ("retryPolicy", JStr "safe");
  ("queueDeadline", JStr "1970-01-01T00:00:05.000Z")].

Definition due_date (text : string) : option Z := if String.eqb text "1970-01-01T00:00:05.000Z" then Some 5000 else None.

(** It is answered with its job before the deadline and refused at the deadline. *)
Lemma create_once_witness : ∃ s', (handleJobCreate due_date false str_leb false false 1002 "job" laptop due_json initial_jobs).2 = s' ∧
  let s := run_job_calls due_date false str_leb false false fixture_control claimed_job s' in
  (∃ row s2, handleJobCreate due_date false str_leb false false 4999 "other" laptop due_json s = (Ok ("job", row), s2) ∧
     same_tables s s2) ∧
  handleJobCreate due_date false str_leb false false 5000 "other" laptop due_json s = (Throw (malformed "queueDeadline"), s).
Proof.
  destruct (handleJobCreate due_date false str_leb false false 1002 "job" laptop due_json initial_jobs)
    as [[[id row]|e] s'] eqn:H; [|exfalso;
    apply (f_equal (λ r, match r.1 with Ok _ => true | Throw _ => false end)) in H; revert H; by vm_compute].
  assert (Hid : id = "job").
  { apply (f_equal (λ r, match r.1 with Ok (i, _) => Some i | Throw _ => None end)) in H. revert H. vm_compute. by intros [= <-]. }
  assert (Hq : ∀ p, parseJobCreateParams due_date due_json = Ok p → jc_queueDeadline p = Some "1970-01-01T00:00:05.000Z")
    by (intros p Hp; vm_compute in Hp; by injection Hp as <-).
  assert (Hg : Forall genuine claimed_job) by (repeat (constructor; [by vm_compute|]); constructor).
  subst id. exists s'. split; [reflexivity|]. cbv zeta. split.
  - destruct (create_once due_date false str_leb false false fixture_control [] claimed_job 1002 "job" laptop due_json
      "job" row s' 4999 "other") as (p & Hp & Hin & _); [constructor|exact Hg|done|exact H|].
    destruct Hin as (row' & s2 & H2 & _ & Hsame); [|by exists row', s2].
    unfold in_time. rewrite (Hq _ Hp). exists 5000. split; [done|]. unfold MAX_QUEUE_DEADLINE_HORIZON_MS. lia.
  - destruct (create_once due_date false str_leb false false fixture_control [] claimed_job 1002 "job" laptop due_json
      "job" row s' 5000 "other") as (p & Hp & _ & Hlate); [constructor|exact Hg|done|exact H|].
    apply Hlate. unfold in_time. rewrite (Hq _ Hp). intros (t & Ht & Hb). injection Ht as <-. lia.
Defined.
